(* ===== verification/_CoqProject ===== *)
-Q . S2P
Prelude.v
Opcode.v
Decode.v
Machine.v
Interp.v
Constopt.v
MachineFacts.v
Invariant.v
ConstoptProofs.v
DecodeProofs.v
Fusion.v
FusionProofs.v
Trap.v
TrapProofs.v
Block.v
BlockMapProofs.v
BlockProofs.v
StepProofs.v
CacheProofs.v
IsaProofs.v
RbMap.v
RbMapProofs.v
Utils.v
UtilsProofs.v
Mpool.v
Devices.v
Virtio.v
Bus.v
DeviceProofs.v
VirtioProofs.v
Mmu.v
MmuProofs.v
JitCache.v
JitCacheProofs.v
GuestRam.v
GuestRamProofs.v
Elf.v
ElfProofs.v
Syscall.v
SyscallProofs.v
Breakpoint.v
Mus.v
Sdl.v
Startup.v
StartupProofs.v
JitEmit.v
JitAlloc.v
JitGen.v
X86.v
X86Proofs.v
JitEmitProofs.v
JitCode.v
JitRel.v
JitAllocProofs.v
JitSim.v
JitInsn.v
JitJump.v
JitLeave.v
JitDispatch.v
JitTerm.v
JitBlock.v
JitStatic.v
JitChain.v
JitNative.v
JitInit.v
JitTranslate.v
JitCall.v
T2cCache.v
T2cCacheProofs.v
T2cLife.v
T2cLifeProofs.v
Llvm.v
T2c.v
T2cProofs.v
T2cDispatch.v
T2cTerm.v
T2cBlock.v
T2cTrace.v
T2cFun.v
Deviations.v
