(* ===== verification/Prelude.v ===== *)
(** * A verified model of the RV32 emulator

    The repository is a user-mode and system-mode RISC-V (RV32IMAFC + Zba/Zbb/Zbc/Zbs)
    emulator written in C. [rv_create] (src/src/riscv.c) maps guest RAM, puts the program's
    arguments on the stack and loads an ELF file. [rv_step] (src/src/emulate.c) looks up the
    basic block that starts at [rv->PC] in a block cache; on a miss, [block_translate]
    fetches and decodes instructions up to a branch or the end of the page,
    [optimize_constant] (src/src/rv32_constopt.c) folds constants over the new block,
    [match_pattern] fuses instruction sequences, and the block is inserted. A block is
    executed by a chain of tail calls through the instruction handlers of
    src/src/rv32_template.c; blocks are linked to their successors, and indirect jumps go
    through a branch history table. Traps call back into [trap_handler], which vectors to
    the guest or emulates a misaligned access; ecall goes on to [syscall_handler]. In system
    mode memory accesses go through the MMU with its TLBs (system.c) to RAM or to the
    devices, whose interrupts reach the hart through an interrupt controller. The JIT build
    replaces the block map by an entry cache (cache.c); a block that is executed often is
    translated, with the blocks it is linked to, to host machine code (jit.c, rv32_jit.c)
    and then called.

    The library models this shallowly: every C function is a Rocq function that can be run
    by [vm_compute]. The interpreter core is the default user-mode build (EXT_M, EXT_A,
    EXT_F, EXT_C, Zicsr, Zifencei, Zba, Zbb, Zbc, Zbs, BLOCK_CHAINING, MOP_FUSION; no
    SYSTEM, no JIT); the MMU and the devices are those of the SYSTEM build, the entry cache
    that of the JIT build with SYSTEM, the code generator that of the JIT build without
    SYSTEM for x86-64 hosts with the System V calling convention.

    ** Files: the core

    - Prelude.v: C's fixed-width integers as [Z] with explicit wrap-around ([u32], [s32],
      ...), the operators on them in [word_scope], shifts that are undefined in C as
      [option], the hint and rewrite databases [words], and lemmas on bits and fields.
    - Opcode.v: the instruction list of decode.h with the attributes emulate.c derives from
      it (length, can-branch, direct, indirect).
    - Decode.v: decode.h and decode.c, from field masks to [rv_decode]; [None] is a failed
      assertion.
    - Machine.v: guest RAM (io.h, riscv_private.h) as a flat memory, the emulator state
      [riscv] ([struct riscv_internal]), the CSR file, the callback interface [riscv_io] (a
      class) and trap signalling.
    - Interp.v: all handlers of rv32_template.c ([do_<inst>]), the [RVOP] wrapper, and the
      execution of a block ([run_irs]). SoftFloat is the class [softfloat].
    - Constopt.v: all folders of rv32_constopt.c ([constopt_<inst>]) and
      [optimize_constant].
    - Fusion.v: the fused handlers [do_fuse1] .. [do_fuse12], [dispatch_table] and
      [match_pattern].
    - Trap.v: emulation of misaligned accesses, [rv_trap_default_handler], trap entry, the
      ecall/ebreak callbacks and the memset/memcpy accelerators.
    - Block.v: blocks in a heap, the block map with linear probing, its L1 cache,
      [block_translate], [block_find_or_translate], block chaining, the branch history
      table, [rv_step] and [rv_step_debug]. Pointers are heap locations, so that the sharing
      between the map, the caches and the links is modelled; allocation failures are the
      class [allocator].
    - MachineFacts.v, Invariant.v: frame lemmas, the range invariant [wf], and the laws
      assumed of the callbacks and of SoftFloat ([riscv_io_laws], [softfloat_laws]), each
      with a concrete instance.
    - ConstoptProofs.v, DecodeProofs.v, FusionProofs.v, TrapProofs.v, BlockMapProofs.v,
      BlockProofs.v, StepProofs.v, CacheProofs.v, IsaProofs.v: the theorems.

    ** Files: the parts around it (each X.v with its theorems in XProofs.v)

    - RbMap.v: the red-black tree of map.c. A tree is a value, a path entry a subtree;
      assertions and the depth limit of the path array are modelled. Clients rely on the
      class [comparator_laws] and on [map_insert_spec] and [map_erase_spec].
    - Breakpoint.v: breakpoint.c, a client of the map, and the callbacks of gdbstub.c.
    - Mus.v, Sdl.v: syscall_sdl.c: the conversion of MUS music to MIDI; queues of events,
      frames and sound.
    - Utils.v: paths, hash functions and the hash set of utils.c and utils.h.
    - Mpool.v: the pool allocator mpool.c, with its free list in memory.
    - Devices.v, Virtio.v, Bus.v: the UART, the interrupt controller and the clock, the
      virtio block device with its queues and requests, and the dispatch of device accesses
      with the interrupt lines (DeviceProofs.v, VirtioProofs.v). Answers of the host are an
      oracle.
    - Mmu.v: system.c and the interrupt check of emulate.c: the page-table walk, the two
      TLBs, permission checks, translated accesses to RAM and devices.
    - JitCache.v: cache.c: the hash table with its history of evicted entries, the page
      index and invalidation.
    - GuestRam.v: io.c: demand paging by the fault handler, reclaiming of zero chunks, and
      the checked block operations.
    - Elf.v: elf.c: validation, sections, symbols, loading.
    - Syscall.v: syscall.c: the calls of newlib programs and the SBI calls, with the streams
      of the host as the class [stdio].
    - Startup.v: [rv_reset] with the layout of arguments, standard streams, and the part of
      [rv_create] that loads a program.

    ** Files: the tier-1 compiler

    - JitEmit.v: the state of the translator ([jst]: code buffer, jump records, table of
      offsets, register map) and the emitters of jit.c, in a state monad; [None] is a failed
      assertion. JitAlloc.v: liveness and the register allocator. JitGen.v: the generators
      [Gen.do_<inst>] of rv32_jit.c, [translate], [resolve_jumps],
      [translate_chained_block], [jit_translate], [code_cache_flush].
    - X86.v: the machine the code is for: encoding, decoding and effect of the instructions
      the emitters produce, with partial host memory. X86Proofs.v: decoding inverts
      encoding; weakest preconditions of the instructions.
    - JitEmitProofs.v, JitCode.v: what each emitter appends; symbolic jumps and their
      resolution. JitRel.v: the relation [rel] between guest and host. JitAllocProofs.v,
      JitSim.v, JitInsn.v, JitJump.v, JitLeave.v, JitDispatch.v: allocation and each group
      of generators against the handlers of Interp.v and Fusion.v. JitTerm.v, JitBlock.v:
      the end of a block, whole blocks.
    - JitStatic.v, JitChain.v, JitNative.v, JitInit.v, JitTranslate.v: the layout of chains
      and the invariant [jit_ok] of the code cache. JitInit.v also holds a program of two
      blocks for the witnesses. JitCall.v: the call through prologue and epilogue.
    - Deviations.v: inputs on which generated code and interpreter differ.

    ** Files: the tier-2 compiler

    - T2cCache.v, T2cCacheProofs.v: the tables of compiled code of t2c.c and jit.h, and the
      reader that generated code contains, which takes no lock.
    - T2cLife.v, T2cLifeProofs.v: blocks, LLVM engines and the two threads that share them:
      insertion, eviction, queueing and invalidation in the executing thread (emulate.c,
      rv32_template.c), the loop of the compile thread (riscv.c) and the end of
      [t2c_compile] (t2c.c). What happens under [cache_lock] is one step of the relation
      [t2c_step].
    - Llvm.v: the part of LLVM IR that the compiler uses: syntax, the calls of the builder
      and the effect of the instructions.
    - T2c.v: t2c_template.c and the translation in t2c.c, one generator per handler, in the
      build without SYSTEM.
    - T2cProofs.v, T2cDispatch.v: straight-line handlers, through triples over builders; the
      memory relation [holds]. T2cTerm.v: execution by positions, kept by functions that
      grow; leaving the function, jumps and branches. T2cBlock.v, T2cTrace.v, T2cFun.v: a
      block, the recursion over the linked blocks, the function. Deviations.v: blocks on
      which the function and the interpreter differ.

    ** What is proved

    - Refinement (StepProofs.v, C1 and C2). The abstract machine is the single-step
      interpreter [debug_insn]. Running a translated block is some number of single steps,
      and so is running the block after constant folding and fusion. C8 and C9 are the two
      passes on their own.
    - Tier-1 compiler. The states of the translator are those that [jit_state_init] and any
      sequence of translations lead to ([jit_reachable]). C3: calling the code buffer runs,
      on the machine of X86.v, the blocks of the guest program as the interpreter does and
      returns to the caller with its registers; C5: translation ends in at most two passes
      and leaves the code cache in order; C6: the straight-line generators; C37: linking of
      jumps; C40: the set of translated addresses. The theorems are about regions of blocks
      that are [supported]: instructions of [jit_straight] and a branch or jump at the end;
      not multiplication and division, whose code is partly wrong (Deviations.v), fused
      sequences, ecall and ebreak.
    - Tier-2 compiler. C4: the LLVM function built for a block and the blocks linked to it
      runs them as the interpreter does and counts the instructions (blocks of straight-line
      instructions, with multiplication and division, that end in a direct jump or a
      branch); C7: for all interleavings of the two threads no freed block is read and
      called code is live and belongs to its address; C38: the lock-free reader never calls
      a torn entry.
    - Data (Invariant.v, DecodeProofs.v, IsaProofs.v, C11-C14). Every handler keeps every
      object within its C type ([run_irs_preserves_wf]); the integer instructions compute
      the architectural result; the immediate decoders implement the bit tables of the
      manual; accepted IRs are well-formed; most compressed instructions equal their
      expansions.
    - Block cache (BlockMapProofs.v, BlockProofs.v, CacheProofs.v, C10 and C15-C17).
      Translation ends and produces blocks of the documented shape; the map with its L1
      cache is a finite map whose loops end; no pointer of the cache ever dangles, across
      whole calls of [rv_step].
    - System mode (MmuProofs.v, C18 and C19). The walk implements the Sv32 translation
      process of the manual; translation gives the same result whether the TLB hits or not,
      and marks exactly the entry it walked to.
    - Traps (TrapProofs.v, C20-C22). Misaligned accesses are emulated transparently; trap
      entry and return.
    - Red-black tree (RbMapProofs.v, C23-C25). Insertion and removal keep the tree balanced
      and ordered and are those of a finite map; iteration visits every entry in order.
    - Devices (DeviceProofs.v, VirtioProofs.v, C26-C29). Interrupts are delivered once until
      completed (unless the guest completes what it has not claimed) and the pending bit of
      the hart is always in step; what is written to the disk is read back; a notification
      consumes its requests.
    - Start and services (StartupProofs.v, ElfProofs.v, GuestRamProofs.v, SyscallProofs.v,
      C30-C34). A program starts with its image and its arguments in place; loading never
      writes outside of RAM; demand paging and reclaiming are invisible, which justifies the
      flat memory of Machine.v; read and write transfer exactly the bytes.
    - JIT entry cache (JitCacheProofs.v, C35 and C36). It is a bounded map, and the page
      index invalidates exactly the blocks a scan would.
    - Music (Mus.v, C39). The MIDI file made from a MUS score plays the same messages at the
      same times; [music_plays] in Sdl.v starts from the guest's memory.
    - Further theorems that are not numbered: totality of constant folding, instruction
      fetch through its TLB, the accelerated memcpy and memset, the set of breakpoints,
      continuing in the debugger, the queue of events, the memory pool, path sanitising,
      descriptors of open and close, the clock, the UART, lookup of symbols, lookup in the
      entry cache, and deviations, where the code does not do what it means to, each on a
      concrete input: an illegal instruction inside a block, a load into [x0], a trap inside
      a fused sequence, [sc.w] under constant folding, [mret] and the cycle counter,
      C.EBREAK, the MXR and U bits of the MMU, bounds of the virtio device, a failed
      insertion into the JIT cache, its eviction of a block just looked up, symbols of a
      reopened file, a segment with more bytes in the file than in memory, a read after an
      error, exceptions in vectored mode, too many arguments, signed division and others in
      generated code, an engine that is lost, published code that is never found.

    ** Interfaces

    Components meet in classes or records of laws that the implementation discharges and the
    client assumes: [riscv_io]/[riscv_io_laws], [softfloat]/[softfloat_laws], [allocator],
    [comparator_laws], [stdio]/[stdio_laws], [malloc_fresh]. Each has a concrete instance,
    so that the theorems about clients are applied to concrete inputs in their witnesses.

    ** Fuel and bounds

    [translate_from] runs with fuel 2048, the number of halfwords in a page; C16 shows that
    it never runs out. The probing loops run with the capacity of the table; C17 and C10
    show that they end earlier. [match_from] gets the length of the block. [run_chain] and
    [step_loop] take their fuel as an argument, because a guest loop whose blocks are linked
    never returns to [rv_step]; running out is the separate result [Loops] or [Step_fuel].
    The loops of read and write get the number of buffers they fill, the search for a
    descriptor the number of open ones plus one; this is enough by C33 and C34. The loop
    over a virtio queue gets the number of available requests, the conversion of a score its
    length; [rv_cont] takes its fuel as an argument, because the guest may never stop.
    [translate_chained_block] recurses at most once per entry of the table of offsets
    ([chain_fuel]); [jit_translate] gets two passes, which is enough when the chain fits the
    empty buffer, and no number of passes is enough otherwise. Integers are [Z] reduced at
    every assignment to the width of the C object.

    ** What is not modelled

    The AArch64 backend of the tier-1 compiler and its SYSTEM build (calls of the memory
    handlers from generated code), the memory accesses through the MMU in the tier-2
    compiler (SYSTEM), the passes and the code generation of LLVM, the page-wise copies of
    the SDL calls in the SYSTEM build, the system-mode part of [rv_create] (kernel images
    and the device tree through libfdt), logging, profiling and command-line handling, the
    host side of signals, mmap and files. SoftFloat is third-party code and a parameter.
    Undefined behaviour of C and failed assertions are explicit results, not excluded
    inputs. *)

From stdpp Require Export prelude gmap list.
From Stdlib Require Export ZArith Lia Bool.
From Stdlib Require Import Btauto.

#[export] Set Default Goal Selector "!".
(** stdpp's [naive_solver] and [set_solver] clear hypotheses that are already gone. *)
#[export] Set Warnings "-clear-no-such-hyp".

(** [lia] with [/] and [mod] by constants eliminated first. *)
Ltac mlia := Z.to_euclidean_division_equations; lia.

(** * Machine integers

    C's fixed-width integers are [Z] kept in range by explicit reduction:
    [u8]/[u16]/[u32]/[u64] are the conversions to the unsigned types and
    [s8]/[s16]/[s32] the (two's complement) conversions to the signed ones. *)

Declare Scope word_scope.
Delimit Scope word_scope with word.
Global Open Scope Z_scope.

Definition u8 (x : Z) : Z := x mod 0x100.
Definition u16 (x : Z) : Z := x mod 0x10000.
Definition u32 (x : Z) : Z := x mod 0x100000000.
Definition u64 (x : Z) : Z := x mod 0x10000000000000000.

Definition s8 (x : Z) : Z := (x + 0x80) mod 0x100 - 0x80.
Definition s16 (x : Z) : Z := (x + 0x8000) mod 0x10000 - 0x8000.
Definition s32 (x : Z) : Z := (x + 0x80000000) mod 0x100000000 - 0x80000000.

(** Values that a C object of the given type can hold. *)
Definition is_u8 (x : Z) : Prop := 0 <= x < 0x100.
Definition is_u16 (x : Z) : Prop := 0 <= x < 0x10000.
Definition is_u32 (x : Z) : Prop := 0 <= x < 0x100000000.
Definition is_u64 (x : Z) : Prop := 0 <= x < 0x10000000000000000.
Definition is_s32 (x : Z) : Prop := - 0x80000000 <= x < 0x80000000.

(** Operators on [uint32_t] operands.  The shift operators are partial: in C a
    shift of a 32-bit operand by 32 or more is undefined, which [None] records. *)
Definition shl32 (x n : Z) : option Z :=
  if (0 <=? n) && (n <? 32) then Some (u32 (Z.shiftl x n)) else None.
Definition shr32 (x n : Z) : option Z :=
  if (0 <=? n) && (n <? 32) then Some (Z.shiftr x n) else None.

Notation "x +u y" := (u32 (x + y)) (at level 50, left associativity) : word_scope.
Notation "x -u y" := (u32 (x - y)) (at level 50, left associativity) : word_scope.
Notation "x &u y" := (Z.land x y) (at level 42, left associativity) : word_scope.
Notation "x |u y" := (Z.lor x y) (at level 43, left associativity) : word_scope.
Notation "x ^u y" := (Z.lxor x y) (at level 43, left associativity) : word_scope.
Notation "x >>u n" := (Z.shiftr x n) (at level 41, left associativity) : word_scope.
Notation "x <<u n" := (Z.shiftl x n) (at level 41, left associativity) : word_scope.
Notation "~u x" := (u32 (Z.lnot x)) (at level 35, right associativity) : word_scope.
Global Open Scope word_scope.

(** A C truth value: non-zero means true. *)
Definition truth (x : Z) : bool := negb (x =? 0).
(** The value of a C comparison. *)
Definition b2u (b : bool) : Z := if b then 1 else 0.

(** ** Range lemmas *)

Create HintDb words discriminated.
Create Rewrite HintDb words.

Lemma u8_range x : 0 <= u8 x < 0x100.
Proof. unfold u8. mlia. Qed.
Lemma u16_range x : 0 <= u16 x < 0x10000.
Proof. unfold u16. mlia. Qed.
Lemma u32_range x : 0 <= u32 x < 0x100000000.
Proof. unfold u32. mlia. Qed.
Lemma u64_range x : 0 <= u64 x < 0x10000000000000000.
Proof. unfold u64. mlia. Qed.
Lemma s32_range x : - 0x80000000 <= s32 x < 0x80000000.
Proof. unfold s32. mlia. Qed.
Lemma is_u32_u32 x : is_u32 (u32 x).
Proof. apply u32_range. Qed.
Lemma is_s32_s32 x : is_s32 (s32 x).
Proof. apply s32_range. Qed.

Lemma u32_small x : is_u32 x -> u32 x = x.
Proof. unfold is_u32, u32. intros. apply Z.mod_small. mlia. Qed.
Lemma u64_small x : is_u64 x -> u64 x = x.
Proof. apply Z.mod_small. Qed.
Lemma s32_small x : is_s32 x -> s32 x = x.
Proof. unfold is_s32, s32. intros. rewrite Z.mod_small; mlia. Qed.
Lemma u32_idem x : u32 (u32 x) = u32 x.
Proof. apply u32_small, is_u32_u32. Qed.
Lemma u32_s32 x : u32 (s32 x) = u32 x.
Proof. unfold u32, s32. mlia. Qed.
Lemma s32_u32 x : s32 (u32 x) = s32 x.
Proof. unfold u32, s32. mlia. Qed.
Lemma s32_idem x : s32 (s32 x) = s32 x.
Proof. apply s32_small, is_s32_s32. Qed.
Lemma u32_add_l x y : u32 (u32 x + y) = u32 (x + y).
Proof. unfold u32. mlia. Qed.
Lemma u32_add_r x y : u32 (x + u32 y) = u32 (x + y).
Proof. unfold u32. mlia. Qed.
Lemma u32_sub_l x y : u32 (u32 x - y) = u32 (x - y).
Proof. unfold u32. mlia. Qed.
Lemma u32_sub_r x y : u32 (x - u32 y) = u32 (x - y).
Proof. unfold u32. mlia. Qed.
Lemma u32_add_s32_r x y : u32 (x + s32 y) = u32 (x + y).
Proof. unfold u32, s32. mlia. Qed.
Lemma u32_add_s32_l x y : u32 (s32 x + y) = u32 (x + y).
Proof. unfold u32, s32. mlia. Qed.

#[export] Hint Rewrite u32_idem u32_s32 s32_u32 s32_idem u32_add_l u32_add_r
  u32_sub_l u32_sub_r u32_add_s32_l u32_add_s32_r : words.
#[export] Hint Resolve is_u32_u32 is_s32_s32 u32_range s32_range : words.

(** ** Bit lemmas *)

Lemma testbit_mod_pow2 x n i :
  0 <= n -> 0 <= i -> Z.testbit (x mod 2 ^ n) i = (i <? n) && Z.testbit x i.
Proof.
  intros Hn Hi. destruct (Z.ltb_spec i n); simpl.
  - apply Z.mod_pow2_bits_low. lia.
  - apply Z.mod_pow2_bits_high. lia.
Qed.

Lemma testbit_u32 x i : 0 <= i -> Z.testbit (u32 x) i = (i <? 32) && Z.testbit x i.
Proof. intros. unfold u32. change 0x100000000 with (2 ^ 32). apply testbit_mod_pow2; lia. Qed.
Lemma testbit_u16 x i : 0 <= i -> Z.testbit (u16 x) i = (i <? 16) && Z.testbit x i.
Proof. intros. unfold u16. change 0x10000 with (2 ^ 16). apply testbit_mod_pow2; lia. Qed.
Lemma testbit_u8 x i : 0 <= i -> Z.testbit (u8 x) i = (i <? 8) && Z.testbit x i.
Proof. intros. unfold u8. change 0x100 with (2 ^ 8). apply testbit_mod_pow2; lia. Qed.

(** A value below [2^n] has no bit at or above [n]. *)
Lemma testbit_above x n i : 0 <= x < 2 ^ n -> 0 <= n <= i -> Z.testbit x i = false.
Proof.
  intros Hx Hn. rewrite <- (Z.mod_small x (2 ^ n)) by lia.
  rewrite testbit_mod_pow2 by lia. by destruct (Z.ltb_spec i n); [lia|].
Qed.

Lemma lt_pow2_testbit x n :
  0 <= n -> 0 <= x -> (forall i, n <= i -> Z.testbit x i = false) -> x < 2 ^ n.
Proof.
  intros Hn Hx Hi. destruct (decide (x = 0)) as [->|]; [by apply Z.pow_pos_nonneg|].
  apply Z.log2_lt_pow2; [lia|].
  destruct (Z.lt_ge_cases (Z.log2 x) n); [done|].
  specialize (Hi (Z.log2 x) ltac:(done)). rewrite Z.bit_log2 in Hi by lia. done.
Qed.

Lemma land_u32 x y : is_u32 x -> 0 <= Z.land x y < 0x100000000.
Proof.
  intros Hx. unfold is_u32 in Hx.
  assert (0 <= Z.land x y) by (apply Z.land_nonneg; lia). split; [done|].
  change 0x100000000 with (2 ^ 32). apply lt_pow2_testbit; [lia|done|].
  intros i Hi. rewrite Z.land_spec, (testbit_above x 32) by lia. done.
Qed.

Lemma lor_u32 x y : is_u32 x -> is_u32 y -> 0 <= Z.lor x y < 0x100000000.
Proof.
  unfold is_u32. intros Hx Hy.
  assert (0 <= Z.lor x y) by (apply Z.lor_nonneg; lia). split; [done|].
  change 0x100000000 with (2 ^ 32). apply lt_pow2_testbit; [lia|done|].
  intros i Hi. rewrite Z.lor_spec, (testbit_above x 32), (testbit_above y 32) by lia. done.
Qed.

Lemma lxor_u32 x y : is_u32 x -> is_u32 y -> 0 <= Z.lxor x y < 0x100000000.
Proof.
  unfold is_u32. intros Hx Hy.
  assert (0 <= Z.lxor x y) by (apply Z.lxor_nonneg; lia). split; [done|].
  change 0x100000000 with (2 ^ 32). apply lt_pow2_testbit; [lia|done|].
  intros i Hi. rewrite Z.lxor_spec, (testbit_above x 32), (testbit_above y 32) by lia. done.
Qed.

Lemma shiftr_u32 x n : is_u32 x -> 0 <= n -> 0 <= Z.shiftr x n < 0x100000000.
Proof.
  unfold is_u32. intros Hx Hn. rewrite Z.shiftr_div_pow2 by done.
  assert (0 < 2 ^ n) by (by apply Z.pow_pos_nonneg).
  split; [apply Z.div_pos; lia|]. apply Z.div_lt_upper_bound; [done|nia].
Qed.

#[export] Hint Resolve land_u32 lor_u32 lxor_u32 shiftr_u32 : words.

(** The masked low bits of a shift amount. *)
Lemma land_31_range x : 0 <= Z.land x 0x1f < 32.
Proof.
  change 0x1f with (Z.ones 5). rewrite Z.land_ones by lia.
  change 32 with (2 ^ 5). apply Z.mod_pos_bound. lia.
Qed.

(** ** Masked fields *)

Lemma land_le_r x c : 0 <= c -> 0 <= Z.land x c <= c.
Proof.
  intros Hc. split; [apply Z.land_nonneg; by right|].
  enough (0 <= Z.ldiff c (Z.land x c)) as Hd.
  { rewrite <- Z.sub_nocarry_ldiff in Hd; [lia|]. apply Z.bits_inj'. intros i Hi.
    rewrite Z.ldiff_spec, Z.land_spec, Z.bits_0. btauto. }
  apply Z.ldiff_nonneg. by left.
Qed.
Lemma lor_le_add x y : 0 <= x -> 0 <= y -> 0 <= Z.lor x y <= x + y.
Proof.
  intros Hx Hy. pose proof (Z.add_lor_land x y).
  assert (0 <= Z.land x y) by (apply Z.land_nonneg; by left).
  assert (0 <= Z.lor x y) by (by apply Z.lor_nonneg). lia.
Qed.
(** A field cut out by a constant mask and shifted down. *)
Lemma field_range x c k b :
  0 <= k -> 0 <= c -> c / 2 ^ k < b -> 0 <= Z.shiftr (Z.land x c) k < b.
Proof.
  intros Hk Hc Hb. pose proof (land_le_r x c Hc). rewrite Z.shiftr_div_pow2 by done.
  assert (0 < 2 ^ k) by (by apply Z.pow_pos_nonneg).
  split; [apply Z.div_pos; lia|].
  eapply Z.le_lt_trans; [|exact Hb]. apply Z.div_le_mono; lia.
Qed.
Lemma shiftl_field_range x c k b :
  0 <= k -> 0 <= c -> c * 2 ^ k < b -> 0 <= Z.shiftl (Z.land x c) k < b.
Proof.
  intros Hk Hc Hb. pose proof (land_le_r x c Hc). rewrite Z.shiftl_mul_pow2 by done.
  assert (0 < 2 ^ k) by (by apply Z.pow_pos_nonneg). nia.
Qed.
Lemma lor_shift x y k :
  0 <= k -> 0 <= x < 2 ^ k -> Z.lor x (Z.shiftl y k) = x + y * 2 ^ k.
Proof.
  intros Hk Hx. rewrite <- (Z.shiftl_mul_pow2 y k) by done.
  pose proof (Z.add_lor_land x (Z.shiftl y k)) as E.
  replace (Z.land x (Z.shiftl y k)) with 0 in E; [lia|]. symmetry.
  apply Z.bits_inj'. intros i Hi. rewrite Z.land_spec, Z.bits_0, Z.shiftl_spec by done.
  destruct (Z.lt_ge_cases i k).
  - rewrite (Z.testbit_neg_r y) by lia. apply andb_false_r.
  - by rewrite (testbit_above x k) by lia.
Qed.

(** [if (x & (1 << k))] *)
Lemma truth_land_pow2 x k : 0 <= k -> truth (Z.land x (2 ^ k)) = Z.testbit x k.
Proof.
  intros Hk. unfold truth. rewrite Z.land_comm.
  destruct (Z.testbit x k) eqn:E.
  - destruct (Z.eqb_spec (Z.land (2 ^ k) x) 0) as [E0|]; [|done].
    assert (Z.testbit (Z.land (2 ^ k) x) k = true) as T
      by (by rewrite Z.land_spec, Z.pow2_bits_true, E).
    by rewrite E0, Z.bits_0 in T.
  - replace (Z.land (2 ^ k) x) with 0; [done|]. apply Z.bits_inj'. intros i Hi.
    rewrite Z.bits_0, Z.land_spec, Z.pow2_bits_eqb by lia.
    by destruct (Z.eqb_spec k i) as [->|].
Qed.

(** ** Bit-level equality

    Two values with the same low bits and the same rest are equal; a statement about the
    bits below a numeral splits into one case per bit. *)

Lemma bits_inj_below (n : nat) a b :
  (forall i, (i < n)%nat -> Z.testbit a (Z.of_nat i) = Z.testbit b (Z.of_nat i)) ->
  (forall i, Z.of_nat n <= i -> Z.testbit a i = Z.testbit b i) ->
  a = b.
Proof.
  intros Hlo Hhi. apply Z.bits_inj'. intros i Hi.
  destruct (Z.lt_ge_cases i (Z.of_nat n)) as [H|H]; [|by apply Hhi].
  rewrite <- (Z2Nat.id i) by lia. apply Hlo. lia.
Qed.

Lemma forall_lt_S (n : nat) (P : nat -> Prop) :
  (forall i, (i < n)%nat -> P i) -> P n -> forall i, (i < S n)%nat -> P i.
Proof. intros H Hn i Hi. destruct (decide (i = n)) as [->|]; [done|]. apply H. lia. Qed.
Lemma forall_lt_0 (P : nat -> Prop) : forall i, (i < 0)%nat -> P i.
Proof. lia. Qed.
