(* ===== verification/Opcode.v ===== *)
(** The IR opcodes of decode.h: the instruction list [RV_INSN_LIST] with its
    per-instruction attributes (length, may-branch) and the macro-operation
    opcodes of [FUSE_INSN_LIST], for the default feature set of feature.h
    (M, A, F, C, Zicsr, Zifencei, Zba, Zbb, Zbc and Zbs; no SYSTEM, so no
    [rv_insn_sret]). *)

From S2P Require Import Prelude.

Inductive opcode_t : Set :=
  | rv_insn_nop | rv_insn_lui | rv_insn_auipc | rv_insn_jal | rv_insn_jalr | rv_insn_beq
  | rv_insn_bne | rv_insn_blt | rv_insn_bge | rv_insn_bltu | rv_insn_bgeu | rv_insn_lb
  | rv_insn_lh | rv_insn_lw | rv_insn_lbu | rv_insn_lhu | rv_insn_sb | rv_insn_sh
  | rv_insn_sw | rv_insn_addi | rv_insn_slti | rv_insn_sltiu | rv_insn_xori | rv_insn_ori
  | rv_insn_andi | rv_insn_slli | rv_insn_srli | rv_insn_srai | rv_insn_add | rv_insn_sub
  | rv_insn_sll | rv_insn_slt | rv_insn_sltu | rv_insn_xor | rv_insn_srl | rv_insn_sra
  | rv_insn_or | rv_insn_and | rv_insn_fence | rv_insn_ecall | rv_insn_ebreak | rv_insn_wfi
  | rv_insn_uret | rv_insn_hret | rv_insn_mret | rv_insn_sfencevma | rv_insn_fencei
  | rv_insn_csrrw | rv_insn_csrrs | rv_insn_csrrc | rv_insn_csrrwi | rv_insn_csrrsi
  | rv_insn_csrrci | rv_insn_sh1add | rv_insn_sh2add | rv_insn_sh3add | rv_insn_andn
  | rv_insn_orn | rv_insn_xnor | rv_insn_clz | rv_insn_ctz | rv_insn_cpop | rv_insn_max
  | rv_insn_maxu | rv_insn_min | rv_insn_minu | rv_insn_sextb | rv_insn_sexth
  | rv_insn_zexth | rv_insn_rol | rv_insn_ror | rv_insn_rori | rv_insn_orcb | rv_insn_rev8
  | rv_insn_clmul | rv_insn_clmulh | rv_insn_clmulr | rv_insn_bclr | rv_insn_bclri
  | rv_insn_bext | rv_insn_bexti | rv_insn_binv | rv_insn_binvi | rv_insn_bset
  | rv_insn_bseti | rv_insn_mul | rv_insn_mulh | rv_insn_mulhsu | rv_insn_mulhu
  | rv_insn_div | rv_insn_divu | rv_insn_rem | rv_insn_remu | rv_insn_lrw | rv_insn_scw
  | rv_insn_amoswapw | rv_insn_amoaddw | rv_insn_amoxorw | rv_insn_amoandw | rv_insn_amoorw
  | rv_insn_amominw | rv_insn_amomaxw | rv_insn_amominuw | rv_insn_amomaxuw | rv_insn_flw
  | rv_insn_fsw | rv_insn_fmadds | rv_insn_fmsubs | rv_insn_fnmsubs | rv_insn_fnmadds
  | rv_insn_fadds | rv_insn_fsubs | rv_insn_fmuls | rv_insn_fdivs | rv_insn_fsqrts
  | rv_insn_fsgnjs | rv_insn_fsgnjns | rv_insn_fsgnjxs | rv_insn_fmins | rv_insn_fmaxs
  | rv_insn_fcvtws | rv_insn_fcvtwus | rv_insn_fmvxw | rv_insn_feqs | rv_insn_flts
  | rv_insn_fles | rv_insn_fclasss | rv_insn_fcvtsw | rv_insn_fcvtswu | rv_insn_fmvwx
  | rv_insn_caddi4spn | rv_insn_clw | rv_insn_csw | rv_insn_cnop | rv_insn_caddi
  | rv_insn_cjal | rv_insn_cli | rv_insn_caddi16sp | rv_insn_clui | rv_insn_csrli
  | rv_insn_csrai | rv_insn_candi | rv_insn_csub | rv_insn_cxor | rv_insn_cor
  | rv_insn_cand | rv_insn_cj | rv_insn_cbeqz | rv_insn_cbnez | rv_insn_cslli
  | rv_insn_clwsp | rv_insn_cjr | rv_insn_cmv | rv_insn_cebreak | rv_insn_cjalr
  | rv_insn_cadd | rv_insn_cswsp | rv_insn_cflwsp | rv_insn_cfswsp | rv_insn_cflw
  | rv_insn_cfsw | rv_insn_fuse1 | rv_insn_fuse2 | rv_insn_fuse3 | rv_insn_fuse4
  | rv_insn_fuse5 | rv_insn_fuse6 | rv_insn_fuse7 | rv_insn_fuse8 | rv_insn_fuse9
  | rv_insn_fuse10 | rv_insn_fuse11 | rv_insn_fuse12.

(** The value of the C enumerator; it is what [uint8_t opcode] holds. *)
Definition opcode_num (o : opcode_t) : N :=
  match o with
  | rv_insn_nop => 0%N | rv_insn_lui => 1%N | rv_insn_auipc => 2%N | rv_insn_jal => 3%N
  | rv_insn_jalr => 4%N | rv_insn_beq => 5%N | rv_insn_bne => 6%N | rv_insn_blt => 7%N
  | rv_insn_bge => 8%N | rv_insn_bltu => 9%N | rv_insn_bgeu => 10%N | rv_insn_lb => 11%N
  | rv_insn_lh => 12%N | rv_insn_lw => 13%N | rv_insn_lbu => 14%N | rv_insn_lhu => 15%N
  | rv_insn_sb => 16%N | rv_insn_sh => 17%N | rv_insn_sw => 18%N | rv_insn_addi => 19%N
  | rv_insn_slti => 20%N | rv_insn_sltiu => 21%N | rv_insn_xori => 22%N
  | rv_insn_ori => 23%N | rv_insn_andi => 24%N | rv_insn_slli => 25%N
  | rv_insn_srli => 26%N | rv_insn_srai => 27%N | rv_insn_add => 28%N | rv_insn_sub => 29%N
  | rv_insn_sll => 30%N | rv_insn_slt => 31%N | rv_insn_sltu => 32%N | rv_insn_xor => 33%N
  | rv_insn_srl => 34%N | rv_insn_sra => 35%N | rv_insn_or => 36%N | rv_insn_and => 37%N
  | rv_insn_fence => 38%N | rv_insn_ecall => 39%N | rv_insn_ebreak => 40%N
  | rv_insn_wfi => 41%N | rv_insn_uret => 42%N | rv_insn_hret => 43%N
  | rv_insn_mret => 44%N | rv_insn_sfencevma => 45%N | rv_insn_fencei => 46%N
  | rv_insn_csrrw => 47%N | rv_insn_csrrs => 48%N | rv_insn_csrrc => 49%N
  | rv_insn_csrrwi => 50%N | rv_insn_csrrsi => 51%N | rv_insn_csrrci => 52%N
  | rv_insn_sh1add => 53%N | rv_insn_sh2add => 54%N | rv_insn_sh3add => 55%N
  | rv_insn_andn => 56%N | rv_insn_orn => 57%N | rv_insn_xnor => 58%N | rv_insn_clz => 59%N
  | rv_insn_ctz => 60%N | rv_insn_cpop => 61%N | rv_insn_max => 62%N | rv_insn_maxu => 63%N
  | rv_insn_min => 64%N | rv_insn_minu => 65%N | rv_insn_sextb => 66%N
  | rv_insn_sexth => 67%N | rv_insn_zexth => 68%N | rv_insn_rol => 69%N
  | rv_insn_ror => 70%N | rv_insn_rori => 71%N | rv_insn_orcb => 72%N
  | rv_insn_rev8 => 73%N | rv_insn_clmul => 74%N | rv_insn_clmulh => 75%N
  | rv_insn_clmulr => 76%N | rv_insn_bclr => 77%N | rv_insn_bclri => 78%N
  | rv_insn_bext => 79%N | rv_insn_bexti => 80%N | rv_insn_binv => 81%N
  | rv_insn_binvi => 82%N | rv_insn_bset => 83%N | rv_insn_bseti => 84%N
  | rv_insn_mul => 85%N | rv_insn_mulh => 86%N | rv_insn_mulhsu => 87%N
  | rv_insn_mulhu => 88%N | rv_insn_div => 89%N | rv_insn_divu => 90%N
  | rv_insn_rem => 91%N | rv_insn_remu => 92%N | rv_insn_lrw => 93%N | rv_insn_scw => 94%N
  | rv_insn_amoswapw => 95%N | rv_insn_amoaddw => 96%N | rv_insn_amoxorw => 97%N
  | rv_insn_amoandw => 98%N | rv_insn_amoorw => 99%N | rv_insn_amominw => 100%N
  | rv_insn_amomaxw => 101%N | rv_insn_amominuw => 102%N | rv_insn_amomaxuw => 103%N
  | rv_insn_flw => 104%N | rv_insn_fsw => 105%N | rv_insn_fmadds => 106%N
  | rv_insn_fmsubs => 107%N | rv_insn_fnmsubs => 108%N | rv_insn_fnmadds => 109%N
  | rv_insn_fadds => 110%N | rv_insn_fsubs => 111%N | rv_insn_fmuls => 112%N
  | rv_insn_fdivs => 113%N | rv_insn_fsqrts => 114%N | rv_insn_fsgnjs => 115%N
  | rv_insn_fsgnjns => 116%N | rv_insn_fsgnjxs => 117%N | rv_insn_fmins => 118%N
  | rv_insn_fmaxs => 119%N | rv_insn_fcvtws => 120%N | rv_insn_fcvtwus => 121%N
  | rv_insn_fmvxw => 122%N | rv_insn_feqs => 123%N | rv_insn_flts => 124%N
  | rv_insn_fles => 125%N | rv_insn_fclasss => 126%N | rv_insn_fcvtsw => 127%N
  | rv_insn_fcvtswu => 128%N | rv_insn_fmvwx => 129%N | rv_insn_caddi4spn => 130%N
  | rv_insn_clw => 131%N | rv_insn_csw => 132%N | rv_insn_cnop => 133%N
  | rv_insn_caddi => 134%N | rv_insn_cjal => 135%N | rv_insn_cli => 136%N
  | rv_insn_caddi16sp => 137%N | rv_insn_clui => 138%N | rv_insn_csrli => 139%N
  | rv_insn_csrai => 140%N | rv_insn_candi => 141%N | rv_insn_csub => 142%N
  | rv_insn_cxor => 143%N | rv_insn_cor => 144%N | rv_insn_cand => 145%N
  | rv_insn_cj => 146%N | rv_insn_cbeqz => 147%N | rv_insn_cbnez => 148%N
  | rv_insn_cslli => 149%N | rv_insn_clwsp => 150%N | rv_insn_cjr => 151%N
  | rv_insn_cmv => 152%N | rv_insn_cebreak => 153%N | rv_insn_cjalr => 154%N
  | rv_insn_cadd => 155%N | rv_insn_cswsp => 156%N | rv_insn_cflwsp => 157%N
  | rv_insn_cfswsp => 158%N | rv_insn_cflw => 159%N | rv_insn_cfsw => 160%N
  | rv_insn_fuse1 => 162%N | rv_insn_fuse2 => 163%N | rv_insn_fuse3 => 164%N
  | rv_insn_fuse4 => 165%N | rv_insn_fuse5 => 166%N | rv_insn_fuse6 => 167%N
  | rv_insn_fuse7 => 168%N | rv_insn_fuse8 => 169%N | rv_insn_fuse9 => 170%N
  | rv_insn_fuse10 => 171%N | rv_insn_fuse11 => 172%N | rv_insn_fuse12 => 173%N
  end.

Definition opcode_of_num (n : N) : option opcode_t :=
  match n with
  | 0%N => Some rv_insn_nop | 1%N => Some rv_insn_lui | 2%N => Some rv_insn_auipc
  | 3%N => Some rv_insn_jal | 4%N => Some rv_insn_jalr | 5%N => Some rv_insn_beq
  | 6%N => Some rv_insn_bne | 7%N => Some rv_insn_blt | 8%N => Some rv_insn_bge
  | 9%N => Some rv_insn_bltu | 10%N => Some rv_insn_bgeu | 11%N => Some rv_insn_lb
  | 12%N => Some rv_insn_lh | 13%N => Some rv_insn_lw | 14%N => Some rv_insn_lbu
  | 15%N => Some rv_insn_lhu | 16%N => Some rv_insn_sb | 17%N => Some rv_insn_sh
  | 18%N => Some rv_insn_sw | 19%N => Some rv_insn_addi | 20%N => Some rv_insn_slti
  | 21%N => Some rv_insn_sltiu | 22%N => Some rv_insn_xori | 23%N => Some rv_insn_ori
  | 24%N => Some rv_insn_andi | 25%N => Some rv_insn_slli | 26%N => Some rv_insn_srli
  | 27%N => Some rv_insn_srai | 28%N => Some rv_insn_add | 29%N => Some rv_insn_sub
  | 30%N => Some rv_insn_sll | 31%N => Some rv_insn_slt | 32%N => Some rv_insn_sltu
  | 33%N => Some rv_insn_xor | 34%N => Some rv_insn_srl | 35%N => Some rv_insn_sra
  | 36%N => Some rv_insn_or | 37%N => Some rv_insn_and | 38%N => Some rv_insn_fence
  | 39%N => Some rv_insn_ecall | 40%N => Some rv_insn_ebreak | 41%N => Some rv_insn_wfi
  | 42%N => Some rv_insn_uret | 43%N => Some rv_insn_hret | 44%N => Some rv_insn_mret
  | 45%N => Some rv_insn_sfencevma | 46%N => Some rv_insn_fencei
  | 47%N => Some rv_insn_csrrw | 48%N => Some rv_insn_csrrs | 49%N => Some rv_insn_csrrc
  | 50%N => Some rv_insn_csrrwi | 51%N => Some rv_insn_csrrsi | 52%N => Some rv_insn_csrrci
  | 53%N => Some rv_insn_sh1add | 54%N => Some rv_insn_sh2add | 55%N => Some rv_insn_sh3add
  | 56%N => Some rv_insn_andn | 57%N => Some rv_insn_orn | 58%N => Some rv_insn_xnor
  | 59%N => Some rv_insn_clz | 60%N => Some rv_insn_ctz | 61%N => Some rv_insn_cpop
  | 62%N => Some rv_insn_max | 63%N => Some rv_insn_maxu | 64%N => Some rv_insn_min
  | 65%N => Some rv_insn_minu | 66%N => Some rv_insn_sextb | 67%N => Some rv_insn_sexth
  | 68%N => Some rv_insn_zexth | 69%N => Some rv_insn_rol | 70%N => Some rv_insn_ror
  | 71%N => Some rv_insn_rori | 72%N => Some rv_insn_orcb | 73%N => Some rv_insn_rev8
  | 74%N => Some rv_insn_clmul | 75%N => Some rv_insn_clmulh | 76%N => Some rv_insn_clmulr
  | 77%N => Some rv_insn_bclr | 78%N => Some rv_insn_bclri | 79%N => Some rv_insn_bext
  | 80%N => Some rv_insn_bexti | 81%N => Some rv_insn_binv | 82%N => Some rv_insn_binvi
  | 83%N => Some rv_insn_bset | 84%N => Some rv_insn_bseti | 85%N => Some rv_insn_mul
  | 86%N => Some rv_insn_mulh | 87%N => Some rv_insn_mulhsu | 88%N => Some rv_insn_mulhu
  | 89%N => Some rv_insn_div | 90%N => Some rv_insn_divu | 91%N => Some rv_insn_rem
  | 92%N => Some rv_insn_remu | 93%N => Some rv_insn_lrw | 94%N => Some rv_insn_scw
  | 95%N => Some rv_insn_amoswapw | 96%N => Some rv_insn_amoaddw
  | 97%N => Some rv_insn_amoxorw | 98%N => Some rv_insn_amoandw
  | 99%N => Some rv_insn_amoorw | 100%N => Some rv_insn_amominw
  | 101%N => Some rv_insn_amomaxw | 102%N => Some rv_insn_amominuw
  | 103%N => Some rv_insn_amomaxuw | 104%N => Some rv_insn_flw | 105%N => Some rv_insn_fsw
  | 106%N => Some rv_insn_fmadds | 107%N => Some rv_insn_fmsubs
  | 108%N => Some rv_insn_fnmsubs | 109%N => Some rv_insn_fnmadds
  | 110%N => Some rv_insn_fadds | 111%N => Some rv_insn_fsubs | 112%N => Some rv_insn_fmuls
  | 113%N => Some rv_insn_fdivs | 114%N => Some rv_insn_fsqrts
  | 115%N => Some rv_insn_fsgnjs | 116%N => Some rv_insn_fsgnjns
  | 117%N => Some rv_insn_fsgnjxs | 118%N => Some rv_insn_fmins
  | 119%N => Some rv_insn_fmaxs | 120%N => Some rv_insn_fcvtws
  | 121%N => Some rv_insn_fcvtwus | 122%N => Some rv_insn_fmvxw
  | 123%N => Some rv_insn_feqs | 124%N => Some rv_insn_flts | 125%N => Some rv_insn_fles
  | 126%N => Some rv_insn_fclasss | 127%N => Some rv_insn_fcvtsw
  | 128%N => Some rv_insn_fcvtswu | 129%N => Some rv_insn_fmvwx
  | 130%N => Some rv_insn_caddi4spn | 131%N => Some rv_insn_clw | 132%N => Some rv_insn_csw
  | 133%N => Some rv_insn_cnop | 134%N => Some rv_insn_caddi | 135%N => Some rv_insn_cjal
  | 136%N => Some rv_insn_cli | 137%N => Some rv_insn_caddi16sp
  | 138%N => Some rv_insn_clui | 139%N => Some rv_insn_csrli | 140%N => Some rv_insn_csrai
  | 141%N => Some rv_insn_candi | 142%N => Some rv_insn_csub | 143%N => Some rv_insn_cxor
  | 144%N => Some rv_insn_cor | 145%N => Some rv_insn_cand | 146%N => Some rv_insn_cj
  | 147%N => Some rv_insn_cbeqz | 148%N => Some rv_insn_cbnez | 149%N => Some rv_insn_cslli
  | 150%N => Some rv_insn_clwsp | 151%N => Some rv_insn_cjr | 152%N => Some rv_insn_cmv
  | 153%N => Some rv_insn_cebreak | 154%N => Some rv_insn_cjalr
  | 155%N => Some rv_insn_cadd | 156%N => Some rv_insn_cswsp | 157%N => Some rv_insn_cflwsp
  | 158%N => Some rv_insn_cfswsp | 159%N => Some rv_insn_cflw | 160%N => Some rv_insn_cfsw
  | 162%N => Some rv_insn_fuse1 | 163%N => Some rv_insn_fuse2 | 164%N => Some rv_insn_fuse3
  | 165%N => Some rv_insn_fuse4 | 166%N => Some rv_insn_fuse5 | 167%N => Some rv_insn_fuse6
  | 168%N => Some rv_insn_fuse7 | 169%N => Some rv_insn_fuse8 | 170%N => Some rv_insn_fuse9
  | 171%N => Some rv_insn_fuse10 | 172%N => Some rv_insn_fuse11
  | 173%N => Some rv_insn_fuse12
  | _ => None
  end.

(** [N_RV_INSNS], the enumerator between the two lists. *)
Definition N_RV_INSNS : N := 161.

Lemma opcode_of_num_num o : opcode_of_num (opcode_num o) = Some o.
Proof. by destruct o. Qed.

#[export] Instance opcode_eq_dec : EqDecision opcode_t.
Proof.
  refine (fun a b => match decide (opcode_num a = opcode_num b) with
                     | left H => left _ | right H => right _ end).
  - assert (Some a = Some b) as E by (rewrite <- !opcode_of_num_num; by rewrite H).
    congruence.
  - congruence.
Defined.

(** [__rv_insn_<inst>_len]: the length operand of the instruction list.  Fused
    opcodes have no entry; their handlers advance the PC themselves. *)
Definition insn_len (o : opcode_t) : Z :=
  match o with
  | rv_insn_caddi4spn | rv_insn_clw | rv_insn_csw | rv_insn_cnop | rv_insn_caddi
  | rv_insn_cjal | rv_insn_cli | rv_insn_caddi16sp | rv_insn_clui | rv_insn_csrli
  | rv_insn_csrai | rv_insn_candi | rv_insn_csub | rv_insn_cxor | rv_insn_cor
  | rv_insn_cand | rv_insn_cj | rv_insn_cbeqz | rv_insn_cbnez | rv_insn_cslli
  | rv_insn_clwsp | rv_insn_cjr | rv_insn_cmv | rv_insn_cebreak | rv_insn_cjalr
  | rv_insn_cadd | rv_insn_cswsp | rv_insn_cflwsp | rv_insn_cfswsp | rv_insn_cflw
  | rv_insn_cfsw => 2
  | _ => 4
  end.

Definition insn_is_branch (o : opcode_t) : bool :=
  match o with
  | rv_insn_jal | rv_insn_jalr | rv_insn_beq | rv_insn_bne | rv_insn_blt | rv_insn_bge
  | rv_insn_bltu | rv_insn_bgeu | rv_insn_fence | rv_insn_ecall | rv_insn_ebreak
  | rv_insn_mret | rv_insn_sfencevma | rv_insn_fencei | rv_insn_csrrw | rv_insn_cjal
  | rv_insn_cj | rv_insn_cbeqz | rv_insn_cbnez | rv_insn_cjr | rv_insn_cebreak
  | rv_insn_cjalr => true
  | _ => false
  end.

Definition insn_is_unconditional_branch (o : opcode_t) : bool :=
  match o with
  | rv_insn_ecall | rv_insn_ebreak | rv_insn_jal | rv_insn_jalr | rv_insn_mret
  | rv_insn_csrrw | rv_insn_cj | rv_insn_cjalr | rv_insn_cjal | rv_insn_cjr
  | rv_insn_cebreak => true
  | _ => false
  end.

Definition insn_is_direct_branch (o : opcode_t) : bool :=
  match o with
  | rv_insn_jal | rv_insn_cjal | rv_insn_cj => true
  | _ => false
  end.

Definition insn_is_indirect_branch (o : opcode_t) : bool :=
  match o with
  | rv_insn_jalr | rv_insn_cjalr | rv_insn_cjr => true
  | _ => false
  end.

Definition is_fuse (o : opcode_t) : bool := (N_RV_INSNS <? opcode_num o)%N.

(** Register numbers ([rv_reg_<name>]) the handlers mention. *)
Definition rv_reg_zero : Z := 0.
Definition rv_reg_ra : Z := 1.
Definition rv_reg_sp : Z := 2.
Definition rv_reg_a0 : Z := 10.
Definition rv_reg_a1 : Z := 11.
Definition rv_reg_a2 : Z := 12.
Definition rv_reg_a7 : Z := 17.
Definition N_RV_REGS : nat := 32.

(** Every direct or indirect jump that may end a block is one the block
    translator stops at. *)
Lemma indirect_is_branch o : insn_is_indirect_branch o = true -> insn_is_branch o = true.
Proof. by destruct o. Qed.
Lemma direct_is_branch o : insn_is_direct_branch o = true -> insn_is_branch o = true.
Proof. by destruct o. Qed.
Lemma unconditional_is_branch o :
  insn_is_unconditional_branch o = true -> insn_is_branch o = true.
Proof. by destruct o. Qed.
