(* ===== verification/Decode.v ===== *)
(** decode.c: from a 32-bit instruction word, or a 16-bit compressed one, to the
    IR record [rv_insn].  The field extractors, the immediate reassembly, the
    per-opcode decoders [op_*] and [rv_decode] follow the C functions of the same
    names.  A decoder returns the updated IR with its boolean result; [None] is a
    failed [assert], which aborts the process. *)

From S2P Require Import Prelude.
From S2P Require Import Opcode.

(** * The IR record *)

Record opcode_fuse := mk_fuse {
  f_imm : Z; f_rd : Z; f_rs1 : Z; f_rs2 : Z; f_opcode : opcode_t }.

(** [rv_insn_t].  [next] is the list the IR sits in, [impl] is always
    [dispatch_table[opcode]], and [branch_taken]/[branch_untaken] are the location
    of the block whose first IR the pointer designates (Block.v). *)
Record rv_insn := mk_insn {
  imm : Z; rd : Z; rs1 : Z; rs2 : Z; opcode : opcode_t;
  shamt : Z; rm : Z; imm2 : Z; fuse : list opcode_fuse; pc : Z;
  branch_taken : option Z; branch_untaken : option Z }.

(** A zero-filled IR ([mpool_calloc], [memset]). *)
Definition zero_insn : rv_insn :=
  mk_insn 0 0 0 0 rv_insn_nop 0 0 0 [] 0 None None.

Definition set_imm v i := mk_insn v (rd i) (rs1 i) (rs2 i) (opcode i) (shamt i) (rm i)
  (imm2 i) (fuse i) (pc i) (branch_taken i) (branch_untaken i).
Definition set_rd v i := mk_insn (imm i) v (rs1 i) (rs2 i) (opcode i) (shamt i) (rm i)
  (imm2 i) (fuse i) (pc i) (branch_taken i) (branch_untaken i).
Definition set_rs1 v i := mk_insn (imm i) (rd i) v (rs2 i) (opcode i) (shamt i) (rm i)
  (imm2 i) (fuse i) (pc i) (branch_taken i) (branch_untaken i).
Definition set_rs2 v i := mk_insn (imm i) (rd i) (rs1 i) v (opcode i) (shamt i) (rm i)
  (imm2 i) (fuse i) (pc i) (branch_taken i) (branch_untaken i).
Definition set_opcode v i := mk_insn (imm i) (rd i) (rs1 i) (rs2 i) v (shamt i) (rm i)
  (imm2 i) (fuse i) (pc i) (branch_taken i) (branch_untaken i).
Definition set_shamt v i := mk_insn (imm i) (rd i) (rs1 i) (rs2 i) (opcode i) v (rm i)
  (imm2 i) (fuse i) (pc i) (branch_taken i) (branch_untaken i).
Definition set_rm v i := mk_insn (imm i) (rd i) (rs1 i) (rs2 i) (opcode i) (shamt i) v
  (imm2 i) (fuse i) (pc i) (branch_taken i) (branch_untaken i).
Definition set_imm2 v i := mk_insn (imm i) (rd i) (rs1 i) (rs2 i) (opcode i) (shamt i)
  (rm i) v (fuse i) (pc i) (branch_taken i) (branch_untaken i).
Definition set_fuse v i := mk_insn (imm i) (rd i) (rs1 i) (rs2 i) (opcode i) (shamt i)
  (rm i) (imm2 i) v (pc i) (branch_taken i) (branch_untaken i).
Definition set_pc v i := mk_insn (imm i) (rd i) (rs1 i) (rs2 i) (opcode i) (shamt i)
  (rm i) (imm2 i) (fuse i) v (branch_taken i) (branch_untaken i).
Definition set_branch_taken v i := mk_insn (imm i) (rd i) (rs1 i) (rs2 i) (opcode i)
  (shamt i) (rm i) (imm2 i) (fuse i) (pc i) v (branch_untaken i).
Definition set_branch_untaken v i := mk_insn (imm i) (rd i) (rs1 i) (rs2 i) (opcode i)
  (shamt i) (rm i) (imm2 i) (fuse i) (pc i) (branch_taken i) v.

(** [rs3] shares storage with [imm] (a union): it is the low byte of it. *)
Definition rs3 (i : rv_insn) : Z := Z.land (imm i) 0xff.
Definition set_rs3 (v : Z) (i : rv_insn) : rv_insn :=
  set_imm (s32 (u32 (imm i) &u 0xffffff00 |u v)) i.

(** * Sign extension helpers of riscv_private.h *)

Definition sign_extend_h (x : Z) : Z := u32 (s16 x).
Definition sign_extend_b (x : Z) : Z := u32 (s8 x).
Definition is_compressed (insn : Z) : bool := negb (insn &u 0x3 =? 3).

(** * Field masks (decode.h) *)

Definition INSN_6_2 := 0x7c.
Definition FR_RD := 0xf80.
Definition FR_FUNCT3 := 0x7000.
Definition FR_RS1 := 0xf8000.
Definition FR_RS2 := 0x1f00000.
Definition FR_FUNCT7 := 0xfe000000.
Definition FI_IMM_11_0 := 0xfff00000.
Definition FS_IMM_4_0 := 0xf80.
Definition FS_IMM_11_5 := 0xfe000000.
Definition FB_IMM_11 := 0x80.
Definition FB_IMM_4_1 := 0xf00.
Definition FB_IMM_10_5 := 0x7e000000.
Definition FB_IMM_12 := 0x80000000.
Definition FU_IMM_31_12 := 0xfffff000.
Definition FJ_IMM_19_12 := 0xff000.
Definition FJ_IMM_11 := 0x100000.
Definition FJ_IMM_10_1 := 0x7fe00000.
Definition FJ_IMM_20 := 0x80000000.
Definition FR4_RS3 := 0xf8000000.
Definition FC_OPCODE := 0x3.
Definition FC_FUNC3 := 0xe000.
Definition FC_RS1C := 0x380.
Definition FC_RS2C := 0x1c.
Definition FC_RS1 := 0xf80.
Definition FC_RS2 := 0x7c.
Definition FC_RDC := 0x1c.
Definition FC_RD := 0xf80.
Definition FC_IMM_12_10 := 0x1c00.
Definition FCI_IMM_12 := 0x1000.
Definition FCI_IMM_6_2 := 0x7c.
Definition CJ_IMM_11 := 0x1000.
Definition CJ_IMM_4 := 0x800.
Definition CJ_IMM_9_8 := 0x600.
Definition CJ_IMM_10 := 0x100.
Definition CJ_IMM_6 := 0x80.
Definition CJ_IMM_7 := 0x40.
Definition CJ_IMM_3_1 := 0x38.
Definition CJ_IMM_5 := 0x4.
Definition CB_SHAMT_5 := 0x1000.
Definition CB_SHAMT_4_0 := 0x7c.

(** * Field extractors *)

Definition decode_rd (insn : Z) : Z := (insn &u FR_RD) >>u 7.
Definition decode_rs1 (insn : Z) : Z := (insn &u FR_RS1) >>u 15.
Definition decode_rs2 (insn : Z) : Z := (insn &u FR_RS2) >>u 20.
Definition decode_funct3 (insn : Z) : Z := (insn &u FR_FUNCT3) >>u 12.
Definition decode_funct7 (insn : Z) : Z := (insn &u FR_FUNCT7) >>u 25.
Definition decode_utype_imm (insn : Z) : Z := insn &u FU_IMM_31_12.

Definition decode_jtype_imm (insn : Z) : Z :=
  let dst := 0 in
  let dst := dst |u (insn &u FJ_IMM_20) in
  let dst := dst |u u32 ((insn &u FJ_IMM_19_12) <<u 11) in
  let dst := dst |u u32 ((insn &u FJ_IMM_11) <<u 2) in
  let dst := dst |u ((insn &u FJ_IMM_10_1) >>u 9) in
  s32 dst >>u 11.

Definition decode_itype_imm (insn : Z) : Z := s32 (insn &u FI_IMM_11_0) >>u 20.

Definition decode_btype_imm (insn : Z) : Z :=
  let dst := 0 in
  let dst := dst |u (insn &u FB_IMM_12) in
  let dst := dst |u u32 ((insn &u FB_IMM_11) <<u 23) in
  let dst := dst |u ((insn &u FB_IMM_10_5) >>u 1) in
  let dst := dst |u u32 ((insn &u FB_IMM_4_1) <<u 12) in
  s32 dst >>u 19.

Definition decode_stype_imm (insn : Z) : Z :=
  let dst := 0 in
  let dst := dst |u (insn &u FS_IMM_11_5) in
  let dst := dst |u u32 ((insn &u FS_IMM_4_0) <<u 13) in
  s32 dst >>u 20.

Definition decode_r4type_rs3 (insn : Z) : Z := (insn &u FR4_RS3) >>u 27.

(** ** Compressed fields; the argument has been truncated to [uint16_t] *)

Definition c_decode_rs1 (insn : Z) : Z := u16 ((insn &u FC_RS1) >>u 7).
Definition c_decode_rs2 (insn : Z) : Z := u16 ((insn &u FC_RS2) >>u 2).
Definition c_decode_rd (insn : Z) : Z := u16 ((insn &u FC_RD) >>u 7).
Definition c_decode_rs1c (insn : Z) : Z := u16 ((insn &u FC_RS1C) >>u 7).
Definition c_decode_rs2c (insn : Z) : Z := u16 ((insn &u FC_RS2C) >>u 2).
Definition c_decode_rdc (insn : Z) : Z := u16 ((insn &u FC_RDC) >>u 2).

Definition c_decode_caddi4spn_nzuimm (insn : Z) : Z :=
  let tmp := 0 in
  let tmp := u16 (tmp |u ((insn &u 0x1800) >>u 7)) in
  let tmp := u16 (tmp |u ((insn &u 0x780) >>u 1)) in
  let tmp := u16 (tmp |u ((insn &u 0x40) >>u 4)) in
  let tmp := u16 (tmp |u ((insn &u 0x20) >>u 2)) in
  tmp.

Definition c_decode_caddi16sp_nzimm (insn : Z) : Z :=
  let tmp := (insn &u 0x1000) >>u 3 in
  let tmp := tmp |u ((insn &u 0x40) >>u 2) in
  let tmp := tmp |u ((insn &u 0x20) <<u 1) in
  let tmp := tmp |u ((insn &u 0x18) <<u 4) in
  let tmp := tmp |u ((insn &u 0x4) <<u 3) in
  s32 (if truth (tmp &u 0x200) then 0xfffffc00 |u tmp else u32 tmp).

Definition c_decode_clui_nzimm (insn : Z) : Z :=
  let tmp := ((insn &u 0x1000) <<u 5) |u ((insn &u 0x7c) <<u 10) in
  if truth (tmp &u 0x20000) then 0xfffc0000 |u tmp else tmp.

Definition c_decode_caddi_imm (insn : Z) : Z :=
  let mask := u16 ((0x1000 &u insn) <<u 3) in
  let tmp := foldl (fun tmp i => tmp |u (mask >>u Z.of_nat i)) 0 (seq 0 11) in
  let tmp := tmp |u ((insn &u 0x7c) >>u 2) in
  s32 (sign_extend_h tmp).

Definition c_decode_citype_imm (insn : Z) : Z :=
  let tmp := ((insn &u FCI_IMM_12) >>u 7) |u ((insn &u FCI_IMM_6_2) >>u 2) in
  if truth (tmp &u 0x20) then s32 (0xffffffc0 |u tmp) else s32 tmp.

Definition c_decode_cjtype_imm (insn : Z) : Z :=
  let tmp := 0 in
  let tmp := u16 (tmp |u ((insn &u CJ_IMM_3_1) >>u 2)) in
  let tmp := u16 (tmp |u ((insn &u CJ_IMM_4) >>u 7)) in
  let tmp := u16 (tmp |u ((insn &u CJ_IMM_5) <<u 3)) in
  let tmp := u16 (tmp |u ((insn &u CJ_IMM_6) >>u 1)) in
  let tmp := u16 (tmp |u ((insn &u CJ_IMM_7) <<u 1)) in
  let tmp := u16 (tmp |u ((insn &u CJ_IMM_9_8) >>u 1)) in
  let tmp := u16 (tmp |u ((insn &u CJ_IMM_10) <<u 2)) in
  let tmp := u16 (tmp |u ((insn &u CJ_IMM_11) >>u 1)) in
  let tmp := foldl (fun tmp i => u16 (tmp |u ((0x0800 &u tmp) <<u Z.of_nat i)))
               tmp (seq 1 4) in
  s16 tmp.

Definition c_decode_cbtype_shamt (insn : Z) : Z :=
  let tmp := 0 in
  let tmp := u8 (tmp |u ((insn &u CB_SHAMT_5) >>u 7)) in
  let tmp := u8 (tmp |u ((insn &u CB_SHAMT_4_0) >>u 2)) in
  tmp.

Definition c_decode_cbtype_imm (insn : Z) : Z :=
  let tmp := 0 in
  let tmp := u16 (tmp |u ((insn &u 0x18) >>u 2)) in
  let tmp := u16 (tmp |u ((insn &u 0xc00) >>u 7)) in
  let tmp := u16 (tmp |u ((insn &u 0x4) <<u 3)) in
  let tmp := u16 (tmp |u ((insn &u 0x60) <<u 1)) in
  let tmp := u16 (tmp |u ((insn &u 0x1000) >>u 4)) in
  foldl (fun tmp i => u16 (tmp |u ((0x0100 &u tmp) <<u Z.of_nat i))) tmp (seq 1 8).

(** * Instruction formats *)

Definition decode_itype (ir : rv_insn) (insn : Z) : rv_insn :=
  let ir := set_imm (decode_itype_imm insn) ir in
  let ir := set_rs1 (decode_rs1 insn) ir in
  set_rd (decode_rd insn) ir.

Definition decode_utype (ir : rv_insn) (insn : Z) : rv_insn :=
  let ir := set_imm (s32 (decode_utype_imm insn)) ir in
  set_rd (decode_rd insn) ir.

Definition decode_stype (ir : rv_insn) (insn : Z) : rv_insn :=
  let ir := set_imm (decode_stype_imm insn) ir in
  let ir := set_rs2 (decode_rs2 insn) ir in
  set_rs1 (decode_rs1 insn) ir.

Definition decode_rtype (ir : rv_insn) (insn : Z) : rv_insn :=
  let ir := set_rs2 (decode_rs2 insn) ir in
  let ir := set_rs1 (decode_rs1 insn) ir in
  set_rd (decode_rd insn) ir.

Definition decode_btype (ir : rv_insn) (insn : Z) : rv_insn :=
  let ir := set_imm (decode_btype_imm insn) ir in
  let ir := set_rs2 (decode_rs2 insn) ir in
  set_rs1 (decode_rs1 insn) ir.

Definition decode_jtype (ir : rv_insn) (insn : Z) : rv_insn :=
  let ir := set_imm (decode_jtype_imm insn) ir in
  set_rd (decode_rd insn) ir.

Definition decode_r4type (ir : rv_insn) (insn : Z) : rv_insn :=
  let ir := set_rd (decode_rd insn) ir in
  let ir := set_rs1 (decode_rs1 insn) ir in
  let ir := set_rs2 (decode_rs2 insn) ir in
  let ir := set_rs3 (decode_r4type_rs3 insn) ir in
  set_rm (decode_funct3 insn) ir.

(** * Opcode decoders *)

Definition decode_t : Type := rv_insn -> Z -> option (rv_insn * bool).

(** The two usual exits of a decoder: [ir->opcode = o; return true;] and
    [return false;]. *)
Definition ok (o : opcode_t) (ir : rv_insn) : option (rv_insn * bool) :=
  Some (set_opcode o ir, true).
Definition bad (ir : rv_insn) : option (rv_insn * bool) := Some (ir, false).

Definition op_load : decode_t := fun ir insn =>
  let ir := decode_itype ir insn in
  match decode_funct3 insn with
  | 0 => ok rv_insn_lb ir
  | 1 => ok rv_insn_lh ir
  | 2 => ok rv_insn_lw ir
  | 4 => ok rv_insn_lbu ir
  | 5 => ok rv_insn_lhu ir
  | _ => bad ir
  end.

Definition op_op_imm : decode_t := fun ir insn =>
  let ir := decode_itype ir insn in
  if rd ir =? rv_reg_zero then ok rv_insn_nop ir else
  match decode_funct3 insn with
  | 0 => ok rv_insn_addi ir
  | 1 =>
    (* Zbb *)
    if imm ir =? 0x600 then ok rv_insn_clz ir
    else if imm ir =? 0x601 then ok rv_insn_ctz ir
    else if imm ir =? 0x602 then ok rv_insn_cpop ir
    else if imm ir =? 0x604 then ok rv_insn_sextb ir
    else if imm ir =? 0x605 then ok rv_insn_sexth ir
    (* Zbs *)
    else if imm ir >>u 5 =? 0x24 then ok rv_insn_bclri ir
    else if imm ir >>u 5 =? 0x34 then ok rv_insn_binvi ir
    else if imm ir >>u 5 =? 0x14 then ok rv_insn_bseti ir
    else
      let ir := set_opcode rv_insn_slli ir in
      if truth (imm ir &u 0x20) then bad ir else Some (ir, true)
  | 2 => ok rv_insn_slti ir
  | 3 => ok rv_insn_sltiu ir
  | 4 => ok rv_insn_xori ir
  | 5 =>
    (* Zbb *)
    if imm ir >>u 5 =? 0x30 then ok rv_insn_rori ir
    else if imm ir =? 0x287 then ok rv_insn_orcb ir
    else if imm ir =? 0x698 then ok rv_insn_rev8 ir
    (* Zbs *)
    else if imm ir >>u 5 =? 0x24 then ok rv_insn_bexti ir
    else
      let ir := set_opcode
                  (if truth (imm ir &u Z.lnot 0x1f) then rv_insn_srai else rv_insn_srli) ir in
      if truth (imm ir &u 0x20) then bad ir else Some (ir, true)
  | 6 => ok rv_insn_ori ir
  | 7 => ok rv_insn_andi ir
  | _ => bad ir
  end.

Definition op_auipc : decode_t := fun ir insn =>
  let ir := decode_utype ir insn in
  if rd ir =? rv_reg_zero then ok rv_insn_nop ir else ok rv_insn_auipc ir.

Definition op_store : decode_t := fun ir insn =>
  let ir := decode_stype ir insn in
  match decode_funct3 insn with
  | 0 => ok rv_insn_sb ir
  | 1 => ok rv_insn_sh ir
  | 2 => ok rv_insn_sw ir
  | _ => bad ir
  end.

Definition op_op : decode_t := fun ir insn =>
  let ir := decode_rtype ir insn in
  if rd ir =? rv_reg_zero then ok rv_insn_nop ir else
  let funct3 := decode_funct3 insn in
  match decode_funct7 insn with
  | 0x00 =>
    match funct3 with
    | 0 => ok rv_insn_add ir
    | 1 => ok rv_insn_sll ir
    | 2 => ok rv_insn_slt ir
    | 3 => ok rv_insn_sltu ir
    | 4 => ok rv_insn_xor ir
    | 5 => ok rv_insn_srl ir
    | 6 => ok rv_insn_or ir
    | 7 => ok rv_insn_and ir
    | _ => bad ir
    end
  | 0x01 =>
    match funct3 with
    | 0 => ok rv_insn_mul ir
    | 1 => ok rv_insn_mulh ir
    | 2 => ok rv_insn_mulhsu ir
    | 3 => ok rv_insn_mulhu ir
    | 4 => ok rv_insn_div ir
    | 5 => ok rv_insn_divu ir
    | 6 => ok rv_insn_rem ir
    | 7 => ok rv_insn_remu ir
    | _ => bad ir
    end
  | 0x10 =>
    match funct3 with
    | 2 => ok rv_insn_sh1add ir
    | 4 => ok rv_insn_sh2add ir
    | 6 => ok rv_insn_sh3add ir
    | _ => bad ir
    end
  | 0x05 =>
    match funct3 with
    | 6 => ok rv_insn_max ir
    | 4 => ok rv_insn_min ir
    | 7 => ok rv_insn_maxu ir
    | 5 => ok rv_insn_minu ir
    | 1 => ok rv_insn_clmul ir
    | 3 => ok rv_insn_clmulh ir
    | 2 => ok rv_insn_clmulr ir
    | _ => bad ir
    end
  | 0x30 =>
    match funct3 with
    | 1 => ok rv_insn_rol ir
    | 5 => ok rv_insn_ror ir
    | _ => bad ir
    end
  | 0x04 => if truth (rs2 ir) then bad ir else ok rv_insn_zexth ir
  | 0x24 =>
    match funct3 with
    | 1 => ok rv_insn_bclr ir
    | 5 => ok rv_insn_bext ir
    | _ => bad ir
    end
  | 0x34 => if negb (funct3 =? 1) then bad ir else ok rv_insn_binv ir
  | 0x14 => if negb (funct3 =? 1) then bad ir else ok rv_insn_bset ir
  | 0x20 =>
    match funct3 with
    | 0 => ok rv_insn_sub ir
    | 5 => ok rv_insn_sra ir
    | 7 => ok rv_insn_andn ir
    | 6 => ok rv_insn_orn ir
    | 4 => ok rv_insn_xnor ir
    | _ => bad ir
    end
  | _ => bad ir
  end.

Definition op_lui : decode_t := fun ir insn =>
  let ir := decode_utype ir insn in
  if rd ir =? rv_reg_zero then ok rv_insn_nop ir else ok rv_insn_lui ir.

Definition op_branch : decode_t := fun ir insn =>
  let ir := decode_btype ir insn in
  match decode_funct3 insn with
  | 0 => ok rv_insn_beq ir
  | 1 => ok rv_insn_bne ir
  | 4 => ok rv_insn_blt ir
  | 5 => ok rv_insn_bge ir
  | 6 => ok rv_insn_bltu ir
  | 7 => ok rv_insn_bgeu ir
  | _ => bad ir
  end.

Definition op_jalr : decode_t := fun ir insn => ok rv_insn_jalr (decode_itype ir insn).
Definition op_jal : decode_t := fun ir insn => ok rv_insn_jal (decode_jtype ir insn).

Definition csr_is_writable (csr : Z) : bool := csr <? 0xc00.

(** The result expression of [op_system]; [ir->imm] is converted to [uint32_t]
    by the call of [csr_is_writable]. *)
Definition op_system_ret (o : opcode_t) (ir : rv_insn) : option (rv_insn * bool) :=
  Some (set_opcode o ir, csr_is_writable (u32 (imm ir)) || (rs1 ir =? rv_reg_zero)).

Definition op_system : decode_t := fun ir insn =>
  let ir := decode_itype ir insn in
  match decode_funct3 insn with
  | 0 =>
    if insn >>u 25 =? 0x09 then op_system_ret rv_insn_sfencevma ir
    else
      match imm ir with
      | 0x000 => op_system_ret rv_insn_ecall ir
      | 0x001 => op_system_ret rv_insn_ebreak ir
      | 0x105 => op_system_ret rv_insn_wfi ir
      | 0x002 => bad ir
      | 0x202 => bad ir
      | 0x302 => op_system_ret rv_insn_mret ir
      | _ => bad ir
      end
  | 1 => op_system_ret rv_insn_csrrw ir
  | 2 => op_system_ret rv_insn_csrrs ir
  | 3 => op_system_ret rv_insn_csrrc ir
  | 5 => op_system_ret rv_insn_csrrwi ir
  | 6 => op_system_ret rv_insn_csrrsi ir
  | 7 => op_system_ret rv_insn_csrrci ir
  | _ => bad ir
  end.

Definition op_misc_mem : decode_t := fun ir insn =>
  match decode_funct3 insn with
  | 0 => ok rv_insn_fence ir
  | 1 => ok rv_insn_fencei ir
  | _ => bad ir
  end.

Definition op_amo : decode_t := fun ir insn =>
  let ir := decode_rtype ir insn in
  let funct5 := (decode_funct7 insn >>u 2) &u 0x1f in
  match funct5 with
  | 0x02 => ok rv_insn_lrw ir
  | 0x03 => ok rv_insn_scw ir
  | 0x01 => ok rv_insn_amoswapw ir
  | 0x00 => ok rv_insn_amoaddw ir
  | 0x04 => ok rv_insn_amoxorw ir
  | 0x0c => ok rv_insn_amoandw ir
  | 0x08 => ok rv_insn_amoorw ir
  | 0x10 => ok rv_insn_amominw ir
  | 0x14 => ok rv_insn_amomaxw ir
  | 0x18 => ok rv_insn_amominuw ir
  | 0x1c => ok rv_insn_amomaxuw ir
  | _ => bad ir
  end.

Definition op_load_fp : decode_t := fun ir insn => ok rv_insn_flw (decode_itype ir insn).
Definition op_store_fp : decode_t := fun ir insn => ok rv_insn_fsw (decode_stype ir insn).

Definition op_op_fp : decode_t := fun ir insn =>
  let ir := set_rm (decode_funct3 insn) ir in
  let ir := decode_rtype ir insn in
  match decode_funct7 insn with
  | 0x00 => ok rv_insn_fadds ir
  | 0x04 => ok rv_insn_fsubs ir
  | 0x08 => ok rv_insn_fmuls ir
  | 0x0c => ok rv_insn_fdivs ir
  | 0x2c => ok rv_insn_fsqrts ir
  | 0x10 =>
    match rm ir with
    | 0 => ok rv_insn_fsgnjs ir
    | 1 => ok rv_insn_fsgnjns ir
    | 2 => ok rv_insn_fsgnjxs ir
    | _ => bad ir
    end
  | 0x60 =>
    match rs2 ir with
    | 0 => ok rv_insn_fcvtws ir
    | 1 => ok rv_insn_fcvtwus ir
    | _ => bad ir
    end
  | 0x14 =>
    match rm ir with
    | 0 => ok rv_insn_fmins ir
    | 1 => ok rv_insn_fmaxs ir
    | _ => bad ir
    end
  | 0x70 =>
    match rm ir with
    | 0 => ok rv_insn_fmvxw ir
    | 1 => ok rv_insn_fclasss ir
    | _ => bad ir
    end
  | 0x50 =>
    match rm ir with
    | 2 => ok rv_insn_feqs ir
    | 1 => ok rv_insn_flts ir
    | 0 => ok rv_insn_fles ir
    | _ => bad ir
    end
  | 0x68 =>
    match rs2 ir with
    | 0 => ok rv_insn_fcvtsw ir
    | 1 => ok rv_insn_fcvtswu ir
    | _ => bad ir
    end
  | 0x78 => ok rv_insn_fmvwx ir
  | _ => bad ir
  end.

Definition op_madd : decode_t := fun ir insn => ok rv_insn_fmadds (decode_r4type ir insn).
Definition op_msub : decode_t := fun ir insn => ok rv_insn_fmsubs (decode_r4type ir insn).
Definition op_nmadd : decode_t := fun ir insn => ok rv_insn_fnmadds (decode_r4type ir insn).
Definition op_nmsub : decode_t := fun ir insn => ok rv_insn_fnmsubs (decode_r4type ir insn).

(** ** Compressed instructions *)

Definition op_caddi : decode_t := fun ir insn =>
  let ir := set_rd (c_decode_rd insn) ir in
  match rd ir with
  | 0 => ok rv_insn_cnop ir
  | _ => ok rv_insn_caddi (set_imm (c_decode_citype_imm insn) ir)
  end.

Definition op_caddi4spn : decode_t := fun ir insn =>
  let ir := set_imm (c_decode_caddi4spn_nzuimm insn) ir in
  let ir := set_rd (c_decode_rdc insn |u 0x08) ir in
  if negb (truth (imm ir)) then bad ir else ok rv_insn_caddi4spn ir.

Definition op_cli : decode_t := fun ir insn =>
  let ir := set_imm (c_decode_citype_imm insn) ir in
  ok rv_insn_cli (set_rd (c_decode_rd insn) ir).

Definition op_clui : decode_t := fun ir insn =>
  let ir := set_rd (c_decode_rd insn) ir in
  match rd ir with
  | 0 => ok rv_insn_cnop ir
  | 2 =>
    let ir := set_imm (c_decode_caddi16sp_nzimm insn) ir in
    if negb (truth (u32 (imm ir))) then bad ir else ok rv_insn_caddi16sp ir
  | _ =>
    let ir := set_imm (s32 (c_decode_clui_nzimm insn)) ir in
    if negb (truth (imm ir)) then bad ir else ok rv_insn_clui ir
  end.

Definition op_cmisc_alu : decode_t := fun ir insn =>
  let funct2 := (insn &u 0x0c00) >>u 10 in
  match funct2 with
  | 0 =>
    let ir := set_shamt (c_decode_cbtype_shamt insn) ir in
    let ir := set_rs1 (c_decode_rs1c insn |u 0x08) ir in
    if truth (shamt ir &u 0x20) then bad ir
    else ok (if negb (truth (rs1 ir)) || negb (truth (shamt ir))
             then rv_insn_cnop else rv_insn_csrli) ir
  | 1 =>
    let ir := set_shamt (c_decode_cbtype_shamt insn) ir in
    let ir := set_rs1 (c_decode_rs1 insn) ir in
    if truth (shamt ir &u 0x20) then bad ir else ok rv_insn_csrai ir
  | 2 =>
    let ir := set_rs1 (c_decode_rs1c insn |u 0x08) ir in
    let ir := set_imm (c_decode_caddi_imm insn) ir in
    ok rv_insn_candi ir
  | 3 =>
    let ir := set_rs1 (c_decode_rs1c insn |u 0x08) ir in
    let ir := set_rs2 (c_decode_rs2c insn |u 0x08) ir in
    let ir := set_rd (rs1 ir) ir in
    match ((insn &u 0x1000) >>u 10) |u ((insn &u 0x0060) >>u 5) with
    | 0 => ok rv_insn_csub ir
    | 1 => ok rv_insn_cxor ir
    | 2 => ok rv_insn_cor ir
    | 3 => ok rv_insn_cand ir
    | _ => None (* assert(!"...") *)
    end
  | _ => Some (ir, true)
  end.

Definition op_cslli : decode_t := fun ir insn =>
  let tmp := 0 in
  let tmp := tmp |u ((insn &u FCI_IMM_12) >>u 7) in
  let tmp := tmp |u ((insn &u FCI_IMM_6_2) >>u 2) in
  let ir := set_imm (s32 tmp) ir in
  let ir := set_rd (c_decode_rd insn) ir in
  ok (if truth (rd ir) then rv_insn_cslli else rv_insn_cnop) ir.

(** The offset of C.LWSP and C.FLWSP. *)
Definition clwsp_imm (insn : Z) : Z :=
  let tmp := 0 in
  let tmp := u16 (tmp |u ((insn &u 0x70) >>u 2)) in
  let tmp := u16 (tmp |u ((insn &u 0x0c) <<u 4)) in
  let tmp := u16 (tmp |u ((insn &u 0x1000) >>u 7)) in
  tmp.
(** The offset of C.SWSP and C.FSWSP. *)
Definition cswsp_imm (insn : Z) : Z :=
  ((insn &u 0x1e00) >>u 7) |u ((insn &u 0x180) >>u 1).
(** The offset of C.LW, C.SW, C.FLW and C.FSW. *)
Definition clw_imm (insn : Z) : Z :=
  let tmp := 0 in
  let tmp := tmp |u ((insn &u 0x40) >>u 4) in
  let tmp := tmp |u ((insn &u FC_IMM_12_10) >>u 7) in
  let tmp := tmp |u ((insn &u 0x20) <<u 1) in
  tmp.

Definition op_clwsp : decode_t := fun ir insn =>
  let ir := set_imm (clwsp_imm insn) ir in
  let ir := set_rd (c_decode_rd insn) ir in
  ok (if truth (rd ir) then rv_insn_clwsp else rv_insn_cnop) ir.

Definition op_cswsp : decode_t := fun ir insn =>
  let ir := set_imm (cswsp_imm insn) ir in
  let ir := set_rs2 (c_decode_rs2 insn) ir in
  ok rv_insn_cswsp ir.

Definition op_clw : decode_t := fun ir insn =>
  let ir := set_imm (clw_imm insn) ir in
  let ir := set_rd (c_decode_rdc insn |u 0x08) ir in
  let ir := set_rs1 (c_decode_rs1c insn |u 0x08) ir in
  ok rv_insn_clw ir.

Definition op_csw : decode_t := fun ir insn =>
  let ir := set_imm (clw_imm insn) ir in
  let ir := set_rs1 (c_decode_rs1c insn |u 0x08) ir in
  let ir := set_rs2 (c_decode_rs2c insn |u 0x08) ir in
  ok rv_insn_csw ir.

Definition op_cj : decode_t := fun ir insn =>
  ok rv_insn_cj (set_imm (c_decode_cjtype_imm insn) ir).

Definition op_cjal : decode_t := fun ir insn =>
  ok rv_insn_cjal (set_imm (s32 (sign_extend_h (c_decode_cjtype_imm insn))) ir).

Definition op_ccr : decode_t := fun ir insn =>
  let ir := set_rs1 (c_decode_rs1 insn) ir in
  let ir := set_rs2 (c_decode_rs2 insn) ir in
  let ir := set_rd (rs1 ir) ir in
  match (insn &u 0x1000) >>u 12 with
  | 0 =>
    match rs2 ir with
    | 0 => if negb (truth (rs1 ir)) then bad ir else ok rv_insn_cjr ir
    | _ => ok (if truth (rd ir) then rv_insn_cmv else rv_insn_cnop) ir
    end
  | 1 =>
    if negb (truth (rs1 ir)) && negb (truth (rs2 ir)) then ok rv_insn_ebreak ir
    else if truth (rs1 ir) && truth (rs2 ir) then
      ok (if truth (rd ir) then rv_insn_cadd else rv_insn_cnop) ir
    else if truth (rs1 ir) && negb (truth (rs2 ir)) then ok rv_insn_cjalr ir
    else ok rv_insn_cnop ir
  | _ => Some (ir, true)
  end.

Definition op_cbeqz : decode_t := fun ir insn =>
  let ir := set_imm (s32 (sign_extend_h (c_decode_cbtype_imm insn))) ir in
  let ir := set_rs1 (c_decode_rs1c insn |u 0x08) ir in
  ok rv_insn_cbeqz ir.

Definition op_cbnez : decode_t := fun ir insn =>
  let ir := set_imm (s32 (sign_extend_h (c_decode_cbtype_imm insn))) ir in
  let ir := set_rs1 (c_decode_rs1c insn |u 0x08) ir in
  ok rv_insn_cbnez ir.

Definition op_cflwsp : decode_t := fun ir insn =>
  let ir := set_imm (clwsp_imm insn) ir in
  let ir := set_rd (c_decode_rd insn) ir in
  ok rv_insn_cflwsp ir.

Definition op_cfswsp : decode_t := fun ir insn =>
  let ir := set_imm (cswsp_imm insn) ir in
  let ir := set_rs2 (c_decode_rs2 insn) ir in
  ok rv_insn_cfswsp ir.

Definition op_cflw : decode_t := fun ir insn =>
  let ir := set_imm (clw_imm insn) ir in
  let ir := set_rd (c_decode_rdc insn |u 0x08) ir in
  let ir := set_rs1 (c_decode_rs1c insn |u 0x08) ir in
  ok rv_insn_cflw ir.

Definition op_cfsw : decode_t := fun ir insn =>
  let ir := set_imm (clw_imm insn) ir in
  let ir := set_rs1 (c_decode_rs1c insn |u 0x08) ir in
  let ir := set_rs2 (c_decode_rs2c insn |u 0x08) ir in
  ok rv_insn_cfsw ir.

Definition op_unimp : decode_t := fun ir _ => bad ir.

(** * The dispatch tables and [rv_decode] *)

Definition rv_jump_table : list decode_t :=
  [ op_load;   op_load_fp;  op_unimp; op_misc_mem; op_op_imm; op_auipc; op_unimp; op_unimp;
    op_store;  op_store_fp; op_unimp; op_amo;      op_op;     op_lui;   op_unimp; op_unimp;
    op_madd;   op_msub;     op_nmsub; op_nmadd;    op_op_fp;  op_unimp; op_unimp; op_unimp;
    op_branch; op_jalr;     op_unimp; op_jal;      op_system; op_unimp; op_unimp; op_unimp ].

Definition rvc_jump_table : list decode_t :=
  [ op_caddi4spn; op_caddi;     op_cslli;  op_unimp;
    op_unimp;     op_cjal;      op_unimp;  op_unimp;
    op_clw;       op_cli;       op_clwsp;  op_unimp;
    op_cflw;      op_clui;      op_cflwsp; op_unimp;
    op_unimp;     op_cmisc_alu; op_ccr;    op_unimp;
    op_unimp;     op_cj;        op_unimp;  op_unimp;
    op_csw;       op_cbeqz;     op_cswsp;  op_unimp;
    op_cfsw;      op_cbnez;     op_cfswsp; op_unimp ].

(** The index is a 5-bit value in both tables, so the default is never used. *)
Definition rv_decode (ir : rv_insn) (insn : Z) : option (rv_insn * bool) :=
  if is_compressed insn then
    let insn := insn &u 0x0000ffff in
    let c_index := ((insn &u FC_FUNC3) >>u 11) |u (insn &u FC_OPCODE) in
    nth (Z.to_nat c_index) rvc_jump_table op_unimp ir insn
  else
    let index := (insn &u INSN_6_2) >>u 2 in
    nth (Z.to_nat index) rv_jump_table op_unimp ir insn.

Example decode_addi : rv_decode zero_insn 0xfff50593 =
  Some (mk_insn (-1) 11 10 0 rv_insn_addi 0 0 0 [] 0 None None, true).
Proof. reflexivity. Qed.
Example decode_caddi : rv_decode zero_insn 0x157d =
  Some (mk_insn (-1) 10 0 0 rv_insn_caddi 0 0 0 [] 0 None None, true).
Proof. reflexivity. Qed.
