(* ===== verification/Machine.v ===== *)
(** The emulator state the interpreter works on: guest RAM (io.c and the RAM fast
    path of riscv_private.h), the [riscv_internal] fields of the user-mode build,
    register access, the CSR file (emulate.c) and trap entry.

    Operations on RAM are partial: the C code does no bounds check, and an access
    outside [mem_base .. mem_base + mem_size) is undefined, recorded as [None]. *)

From S2P Require Import Prelude.
From S2P Require Import Opcode.
From S2P Require Import Decode.

(** * Guest RAM *)

Record memory_t := mk_memory { mem_base : gmap Z Z; mem_size : Z }.

(** Bytes never written read as zero: RAM is an anonymous mapping. *)
Definition byte_at (m : memory_t) (a : Z) : Z := default 0 (mem_base m !! a).

Definition GUEST_RAM_CONTAINS (m : memory_t) (addr size : Z) : bool :=
  (addr <? mem_size m) && (size <=? mem_size m - addr).

(** [memcpy] between a little-endian host integer of [n] bytes and RAM. *)
Fixpoint load_le (m : memory_t) (addr : Z) (n : nat) : Z :=
  match n with
  | O => 0
  | S n => byte_at m addr + 0x100 * load_le m (addr + 1) n
  end.
Fixpoint store_le (m : memory_t) (addr : Z) (n : nat) (v : Z) : memory_t :=
  match n with
  | O => m
  | S n =>
    store_le (mk_memory (<[addr := v mod 0x100]> (mem_base m)) (mem_size m))
      (addr + 1) n (v / 0x100)
  end.

Definition mem_read (n : nat) (m : memory_t) (addr : Z) : option Z :=
  if GUEST_RAM_CONTAINS m addr (Z.of_nat n) then Some (load_le m addr n) else None.
Definition mem_write (n : nat) (m : memory_t) (addr v : Z) : option memory_t :=
  if GUEST_RAM_CONTAINS m addr (Z.of_nat n) then Some (store_le m addr n v) else None.

(** * CSR storage: the [uint32_t] objects a CSR pointer can designate *)

Inductive csr_field : Set :=
  | csr_mstatus | csr_mtvec | csr_misa | csr_mtval | csr_mcause | csr_mscratch
  | csr_mepc | csr_mip | csr_mie | csr_mideleg | csr_medeleg
  | csr_sstatus | csr_stvec | csr_sip | csr_sie | csr_scounteren | csr_sscratch
  | csr_sepc | csr_scause | csr_stval | csr_satp | csr_fcsr
  | csr_time_lo | csr_time_hi.

#[export] Instance csr_field_eq_dec : EqDecision csr_field.
Proof. solve_decision. Defined.

(** * The emulator state

    [riscv_internal] of the non-SYSTEM, non-JIT build, with the two attributes of
    [vm_attr_t] the interpreter reads (RAM and [allow_misalign]), the two
    file-scope variables of emulate.c that the branch handlers write, and the two
    globals through which SoftFloat takes its rounding mode and reports flags. *)
Record riscv := mk_riscv {
  X : list Z;
  PC : Z;
  F : list Z;
  csr : csr_field -> Z;
  csr_cycle : Z;
  timer : Z;
  priv_mode : Z;
  compressed : bool;
  halt : bool;
  mem : memory_t;
  allow_misalign : bool;
  is_branch_taken : bool;
  last_pc : Z;
  softfloat_roundingMode : Z;
  softfloat_exceptionFlags : Z }.

Definition set_X v s := mk_riscv v (PC s) (F s) (csr s) (csr_cycle s) (timer s) (priv_mode s)
  (compressed s) (halt s) (mem s) (allow_misalign s) (is_branch_taken s) (last_pc s)
  (softfloat_roundingMode s) (softfloat_exceptionFlags s).
Definition set_PC v s := mk_riscv (X s) v (F s) (csr s) (csr_cycle s) (timer s) (priv_mode s)
  (compressed s) (halt s) (mem s) (allow_misalign s) (is_branch_taken s) (last_pc s)
  (softfloat_roundingMode s) (softfloat_exceptionFlags s).
Definition set_F v s := mk_riscv (X s) (PC s) v (csr s) (csr_cycle s) (timer s) (priv_mode s)
  (compressed s) (halt s) (mem s) (allow_misalign s) (is_branch_taken s) (last_pc s)
  (softfloat_roundingMode s) (softfloat_exceptionFlags s).
Definition set_csrs v s := mk_riscv (X s) (PC s) (F s) v (csr_cycle s) (timer s) (priv_mode s)
  (compressed s) (halt s) (mem s) (allow_misalign s) (is_branch_taken s) (last_pc s)
  (softfloat_roundingMode s) (softfloat_exceptionFlags s).
Definition set_csr_cycle v s := mk_riscv (X s) (PC s) (F s) (csr s) v (timer s) (priv_mode s)
  (compressed s) (halt s) (mem s) (allow_misalign s) (is_branch_taken s) (last_pc s)
  (softfloat_roundingMode s) (softfloat_exceptionFlags s).
Definition set_timer v s := mk_riscv (X s) (PC s) (F s) (csr s) (csr_cycle s) v (priv_mode s)
  (compressed s) (halt s) (mem s) (allow_misalign s) (is_branch_taken s) (last_pc s)
  (softfloat_roundingMode s) (softfloat_exceptionFlags s).
Definition set_priv_mode v s := mk_riscv (X s) (PC s) (F s) (csr s) (csr_cycle s) (timer s) v
  (compressed s) (halt s) (mem s) (allow_misalign s) (is_branch_taken s) (last_pc s)
  (softfloat_roundingMode s) (softfloat_exceptionFlags s).
Definition set_compressed v s := mk_riscv (X s) (PC s) (F s) (csr s) (csr_cycle s) (timer s)
  (priv_mode s) v (halt s) (mem s) (allow_misalign s) (is_branch_taken s) (last_pc s)
  (softfloat_roundingMode s) (softfloat_exceptionFlags s).
Definition set_halt v s := mk_riscv (X s) (PC s) (F s) (csr s) (csr_cycle s) (timer s)
  (priv_mode s) (compressed s) v (mem s) (allow_misalign s) (is_branch_taken s) (last_pc s)
  (softfloat_roundingMode s) (softfloat_exceptionFlags s).
Definition set_mem v s := mk_riscv (X s) (PC s) (F s) (csr s) (csr_cycle s) (timer s)
  (priv_mode s) (compressed s) (halt s) v (allow_misalign s) (is_branch_taken s) (last_pc s)
  (softfloat_roundingMode s) (softfloat_exceptionFlags s).
Definition set_is_branch_taken v s := mk_riscv (X s) (PC s) (F s) (csr s) (csr_cycle s)
  (timer s) (priv_mode s) (compressed s) (halt s) (mem s) (allow_misalign s) v (last_pc s)
  (softfloat_roundingMode s) (softfloat_exceptionFlags s).
Definition set_last_pc v s := mk_riscv (X s) (PC s) (F s) (csr s) (csr_cycle s) (timer s)
  (priv_mode s) (compressed s) (halt s) (mem s) (allow_misalign s) (is_branch_taken s) v
  (softfloat_roundingMode s) (softfloat_exceptionFlags s).
Definition set_softfloat_roundingMode v s := mk_riscv (X s) (PC s) (F s) (csr s) (csr_cycle s)
  (timer s) (priv_mode s) (compressed s) (halt s) (mem s) (allow_misalign s) (is_branch_taken s)
  (last_pc s) v (softfloat_exceptionFlags s).
Definition set_softfloat_exceptionFlags v s := mk_riscv (X s) (PC s) (F s) (csr s) (csr_cycle s)
  (timer s) (priv_mode s) (compressed s) (halt s) (mem s) (allow_misalign s) (is_branch_taken s)
  (last_pc s) (softfloat_roundingMode s) v.

(** [rv->X[r]] and [rv->X[r] = v]; register numbers are below [N_RV_REGS]. *)
Definition reg (s : riscv) (r : Z) : Z := nth (Z.to_nat r) (X s) 0.
Definition set_reg (r v : Z) (s : riscv) : riscv := set_X (<[Z.to_nat r := v]> (X s)) s.
(** [rv->F[r].v] *)
Definition freg (s : riscv) (r : Z) : Z := nth (Z.to_nat r) (F s) 0.
Definition set_freg (r v : Z) (s : riscv) : riscv := set_F (<[Z.to_nat r := v]> (F s)) s.

Definition set_csr (f : csr_field) (v : Z) (s : riscv) : riscv :=
  set_csrs (fun g => if decide (g = f) then v else csr s g) s.

(** ** RAM fast path *)

Definition ram_read_w (s : riscv) (addr : Z) : option Z := mem_read 4 (mem s) addr.
Definition ram_read_s (s : riscv) (addr : Z) : option Z := mem_read 2 (mem s) addr.
Definition ram_read_b (s : riscv) (addr : Z) : option Z := mem_read 1 (mem s) addr.
Definition ram_write_w (s : riscv) (addr v : Z) : option riscv :=
  m ← mem_write 4 (mem s) addr v; Some (set_mem m s).
Definition ram_write_s (s : riscv) (addr v : Z) : option riscv :=
  m ← mem_write 2 (mem s) addr (u16 v); Some (set_mem m s).
Definition ram_write_b (s : riscv) (addr v : Z) : option riscv :=
  m ← mem_write 1 (mem s) addr (u8 v); Some (set_mem m s).

(** ** The register accessors of riscv.c *)

Definition rv_set_pc (s : riscv) (pc : Z) : riscv * bool :=
  if truth (pc &u 1) then (s, false) else (set_PC pc s, true).
Definition rv_set_reg (s : riscv) (r v : Z) : riscv :=
  if (r <? Z.of_nat N_RV_REGS) && negb (r =? rv_reg_zero) then set_reg r v s else s.
Definition rv_get_reg (s : riscv) (r : Z) : Z :=
  if r <? Z.of_nat N_RV_REGS then reg s r else 0xffffffff.

(** * The embedder's callbacks: [riscv_io_t] and the host clock

    The interpreter reaches the rest of the system only through these function
    pointers (riscv.h).  A callback that runs into undefined behaviour gives
    [None]. *)
Class riscv_io := {
  mem_ifetch : riscv -> Z -> option Z;
  on_ecall : riscv -> option riscv;
  on_ebreak : riscv -> option riscv;
  on_trap : riscv -> option riscv;
  (** [rv_gettimeofday]: seconds and microseconds of the host clock. *)
  rv_gettimeofday : riscv -> Z * Z }.

(** * CSR access *)

Definition CSR_FFLAGS := 0x001.
Definition FFLAG_MASK := 0x1f.

(** [update_time]: the product is a [double], exact below 2^53 microseconds. *)
Definition update_time `{riscv_io} (s : riscv) : riscv :=
  let '(sec, usec) := rv_gettimeofday s in
  let s := set_timer (u64 (sec * 1000000 + u32 usec)) s in
  let s := set_csr csr_time_lo (timer s &u 0xffffffff) s in
  set_csr csr_time_hi (u32 (timer s >>u 32)) s.

(** What a CSR pointer designates: one of the 32-bit fields, or a half of the
    64-bit cycle counter (little-endian host). *)
Inductive csr_ptr : Set := Field (f : csr_field) | Cycle_lo | Cycle_hi.

Definition csr_load (s : riscv) (c : csr_ptr) : Z :=
  match c with
  | Field f => csr s f
  | Cycle_lo => csr_cycle s &u 0xffffffff
  | Cycle_hi => csr_cycle s >>u 32
  end.
Definition csr_store (c : csr_ptr) (v : Z) (s : riscv) : riscv :=
  match c with
  | Field f => set_csr f v s
  | Cycle_lo => set_csr_cycle ((csr_cycle s >>u 32) * 0x100000000 + v) s
  | Cycle_hi => set_csr_cycle (v * 0x100000000 + (csr_cycle s &u 0xffffffff)) s
  end.

(** [csr_get_ptr] also refreshes the time CSRs; [None] is the NULL pointer. *)
Definition csr_get_ptr `{riscv_io} (s : riscv) (csr : Z) : riscv * option csr_ptr :=
  match csr &u 0xfff with
  | 0x300 => (s, Some (Field csr_mstatus))
  | 0x305 => (s, Some (Field csr_mtvec))
  | 0x301 => (s, Some (Field csr_misa))
  | 0x302 => (s, Some (Field csr_medeleg))
  | 0x303 => (s, Some (Field csr_mideleg))
  | 0x340 => (s, Some (Field csr_mscratch))
  | 0x341 => (s, Some (Field csr_mepc))
  | 0x342 => (s, Some (Field csr_mcause))
  | 0x343 => (s, Some (Field csr_mtval))
  | 0x344 => (s, Some (Field csr_mip))
  | 0xc00 => (s, Some Cycle_lo)
  | 0xc80 => (s, Some Cycle_hi)
  | 0xc01 => (update_time s, Some (Field csr_time_lo))
  | 0xc81 => (update_time s, Some (Field csr_time_hi))
  | 0xc02 => (s, Some Cycle_lo)
  | 0xc82 => (s, Some Cycle_hi)
  | 0x001 => (s, Some (Field csr_fcsr))
  | 0x003 => (s, Some (Field csr_fcsr))
  | 0x100 => (s, Some (Field csr_sstatus))
  | 0x104 => (s, Some (Field csr_sie))
  | 0x105 => (s, Some (Field csr_stvec))
  | 0x106 => (s, Some (Field csr_scounteren))
  | 0x140 => (s, Some (Field csr_sscratch))
  | 0x141 => (s, Some (Field csr_sepc))
  | 0x142 => (s, Some (Field csr_scause))
  | 0x143 => (s, Some (Field csr_stval))
  | 0x144 => (s, Some (Field csr_sip))
  | 0x180 => (s, Some (Field csr_satp))
  | _ => (s, None)
  end.

Definition csr_sync_cycle (s : riscv) (csr cycle : Z) : riscv :=
  match csr &u 0xfff with
  | 0xc00 | 0xc80 | 0xc02 | 0xc82 | 0xc01 | 0xc81 =>
    if negb (csr_cycle s =? cycle) then set_csr_cycle cycle s else s
  | _ => s
  end.

Section Csr.
Context `{riscv_io}.

(** The common read part; [upd] computes the stored value. *)
Definition csr_access (upd : Z -> Z) (s : riscv) (csr cycle : Z) : riscv * Z :=
  let s := csr_sync_cycle s csr cycle in
  let '(s, c) := csr_get_ptr s csr in
  match c with
  | None => (s, 0)
  | Some c =>
    let out := csr_load s c in
    let out := if csr =? CSR_FFLAGS then out &u FFLAG_MASK else out in
    (csr_store c (upd (csr_load s c)) s, out)
  end.

Definition csr_csrrw (s : riscv) (csr val cycle : Z) : riscv * Z :=
  csr_access (fun _ => val) s csr cycle.
Definition csr_csrrs (s : riscv) (csr val cycle : Z) : riscv * Z :=
  csr_access (fun old => old |u val) s csr cycle.
Definition csr_csrrc (s : riscv) (csr val cycle : Z) : riscv * Z :=
  csr_access (fun old => old &u ~u val) s csr cycle.
End Csr.

(** * Traps *)

Definition ILLEGAL_INSN := 2.
Definition BREAKPOINT := 3.
Definition LOAD_MISALIGNED := 4.
Definition STORE_MISALIGNED := 6.
Definition ECALL_M := 11.

Definition RV_PRIV_S_MODE := 1.
Definition RV_PRIV_M_MODE := 3.
Definition RV_PRIV_IS_U_OR_S_MODE (s : riscv) : bool := priv_mode s <=? RV_PRIV_S_MODE.

(** [SET_CAUSE_AND_TVAL_THEN_TRAP]: record the cause, then call the trap callback. *)
Definition set_cause_and_tval (cause tval : Z) (s : riscv) : riscv :=
  if RV_PRIV_IS_U_OR_S_MODE s then set_csr csr_stval tval (set_csr csr_scause cause s)
  else set_csr csr_mtval tval (set_csr csr_mcause cause s).

Definition SET_CAUSE_AND_TVAL_THEN_TRAP `{riscv_io} (cause tval : Z) (s : riscv)
  : option riscv := on_trap (set_cause_and_tval cause tval s).
