(* ===== verification/Interp.v ===== *)
(** rv32_template.c under the [RVOP] macro of emulate.c: one definition per
    instruction handler, the dispatch table, and the execution of a chain of IRs
    by tail calls.  The build is the default one without SYSTEM and JIT.

    A handler body ends in one of the ways the C body can end ([outcome]); [RVOP]
    turns that into what the whole C function does ([step]). *)

From S2P Require Import Prelude.
From S2P Require Import Opcode.
From S2P Require Import Decode.
From S2P Require Import Machine.

(** How the [code] argument of [RVOP] is left.  [Undef] is undefined behaviour of
    the C code (out-of-range shift or RAM access, [__UNREACHABLE]). *)
Inductive outcome :=
  | Nextop (s : riscv) (pc : Z)            (* end of code, or goto nextop *)
  | End_op (s : riscv) (pc : Z)            (* goto end_op *)
  | Tail (ir : Z) (s : riscv) (pc : Z)     (* MUST_TAIL return ir->impl(..) *)
  | Indirect (s : riscv) (pc : Z)          (* branch history lookup, then end_op *)
  | Return (b : bool) (s : riscv)          (* return b *)
  | Undef.

Notation "'let!' x := e 'in' k" :=
  (match e with Some x => k | None => Undef end)
  (at level 10, x name, e at level 100, k at level 200,
   format "'[v' 'let!'  x  :=  e  'in' '/' k ']'") : word_scope.

(** * SoftFloat

    Berkeley SoftFloat is a vendored library; the handlers call it with the global
    rounding mode and it accumulates into the global exception flags.  Each
    function returns its value and the flags it raises. *)
Class softfloat := {
  f32_add : Z -> Z -> Z -> Z * Z;
  f32_sub : Z -> Z -> Z -> Z * Z;
  f32_mul : Z -> Z -> Z -> Z * Z;
  f32_div : Z -> Z -> Z -> Z * Z;
  f32_sqrt : Z -> Z -> Z * Z;
  f32_mulAdd : Z -> Z -> Z -> Z -> Z * Z;
  f32_to_i32 : Z -> Z -> Z * Z;
  f32_to_ui32 : Z -> Z -> Z * Z;
  i32_to_f32 : Z -> Z -> Z * Z;
  ui32_to_f32 : Z -> Z -> Z * Z;
  f32_eq : Z -> Z -> bool * Z;
  f32_lt : Z -> Z -> bool * Z;
  f32_le : Z -> Z -> bool * Z;
  f32_lt_quiet : Z -> Z -> bool * Z;
  f32_isSignalingNaN : Z -> bool }.

Definition FMASK_SIGN := 0x80000000.
Definition FMASK_EXPN := 0x7f800000.
Definition FMASK_FRAC := 0x007fffff.
Definition FMASK_QNAN := 0x00400000.
Definition FFLAG_INVALID_OP := 0x10.
Definition FFLAG_DIV_BY_ZERO := 0x08.
Definition FFLAG_OVERFLOW := 0x04.
Definition FFLAG_UNDERFLOW := 0x02.
Definition FFLAG_INEXACT := 0x01.
Definition RV_NAN := 0x7fc00000.

Definition raise_flags (fl : Z) (s : riscv) : riscv :=
  set_softfloat_exceptionFlags (softfloat_exceptionFlags s |u fl) s.

Definition calc_fclass (f : Z) : Z :=
  let sign := f &u FMASK_SIGN in
  let expn := f &u FMASK_EXPN in
  let frac := f &u FMASK_FRAC in
  if truth expn then
    if negb (expn =? FMASK_EXPN) then (if truth sign then 0x002 else 0x040)
    else if truth frac then (if truth (frac &u FMASK_QNAN) then 0x200 else 0x100)
    else if negb (truth sign) then 0x080
    else 0x001
  else if truth frac then (if truth sign then 0x004 else 0x020)
  else (if truth sign then 0x008 else 0x010).

Definition is_nan (f : Z) : bool :=
  let expn := f &u FMASK_EXPN in
  let frac := f &u FMASK_FRAC in
  (expn =? FMASK_EXPN) && truth frac.

(** SoftFloat's flag bits have the order of the RISC-V ones. *)
Definition set_fflag (s : riscv) : riscv :=
  let fl := softfloat_exceptionFlags s in
  let or_fcsr (b : Z) (s : riscv) := set_csr csr_fcsr (csr s csr_fcsr |u b) s in
  let s := if truth (fl &u 16) then or_fcsr FFLAG_INVALID_OP s else s in
  let s := if truth (fl &u 8) then or_fcsr FFLAG_DIV_BY_ZERO s else s in
  let s := if truth (fl &u 4) then or_fcsr FFLAG_OVERFLOW s else s in
  let s := if truth (fl &u 2) then or_fcsr FFLAG_UNDERFLOW s else s in
  let s := if truth (fl &u 1) then or_fcsr FFLAG_INEXACT s else s in
  set_softfloat_exceptionFlags 0 s.

(** [softfloat_round_*]: near_even 0, minMag 1, min 2, max 3, near_maxMag 4.  The
    default case of the switch is [__UNREACHABLE]. *)
Definition set_rounding_mode (m : Z) (s : riscv) : option riscv :=
  let frm := u8 ((csr s csr_fcsr >>u 5) &u ~u 8) in
  let m := if m =? 7 then frm else m in
  match m with
  | 0 | 1 | 2 | 3 | 4 => Some (set_softfloat_roundingMode m s)
  | _ => None
  end.

(** * Compiler builtins used by common.h *)

Definition rv_clz (v : Z) : Z := 31 - Z.log2 v.
(** Index of the least significant set bit; the argument is not zero. *)
Definition rv_ctz (v : Z) : Z := Z.log2 (Z.land v (- v)).
Definition rv_popcount (v : Z) : Z :=
  foldl (fun n i => n + b2u (Z.testbit v (Z.of_nat i))) 0 (seq 0 32).

(** * Instruction handlers *)

Section Handlers.
Context `{riscv_io} `{softfloat}.

Implicit Types (s : riscv) (ir : rv_insn) (cycle PC addr value : Z).

(** [rv->X[ir->rd] = v;] as the last statement of a handler. *)
Definition wr_rd v s ir PC : outcome := Nextop (set_reg (rd ir) v s) PC.
Definition wr_rs1 v s ir PC : outcome := Nextop (set_reg (rs1 ir) v s) PC.
(** [if (ir->rd) rv->X[ir->rd] = v;] *)
Definition link v ir s : riscv := if truth (rd ir) then set_reg (rd ir) v s else s.

(** [RV_EXC_MISALIGN_HANDLER(mask, type, compress, 1)] in front of [k]. *)
Definition RV_EXC_MISALIGN_HANDLER (mask cause : Z) (compress : bool) s cycle PC addr
    (k : outcome) : outcome :=
  if negb (allow_misalign s) && truth (addr &u mask) then
    let s := set_PC PC (set_csr_cycle cycle (set_compressed compress s)) in
    let! s := SET_CAUSE_AND_TVAL_THEN_TRAP cause addr s in
    Return false s
  else k.

(** ** RV32I *)

Definition do_nop s ir cycle PC := Nextop (set_reg rv_reg_zero 0 s) PC.
Definition do_lui s ir cycle PC := wr_rd (u32 (imm ir)) s ir PC.
Definition do_auipc s ir cycle PC := wr_rd (imm ir +u PC) s ir PC.

(** A jump whose target block may already be linked. *)
Definition jump s ir PC : outcome :=
  match branch_taken ir with
  | Some taken => Tail taken (set_last_pc PC s) PC
  | None => End_op s PC
  end.

Definition do_jal s ir cycle PC :=
  let pc := PC in
  let PC := PC +u imm ir in
  jump (link (pc +u 4) ir s) ir PC.

Definition do_jalr s ir cycle PC :=
  let pc := PC in
  let PC := (reg s (rs1 ir) +u imm ir) &u ~u 1 in
  Indirect (link (pc +u 4) ir s) PC.

(** [BRANCH_FUNC]; the argument is the condition under which the branch is not
    taken.  Without SYSTEM a linked successor is not entered from here. *)
Definition BRANCH_FUNC (not_taken : bool) s ir PC : outcome :=
  if not_taken then
    let s := set_is_branch_taken false s in
    match branch_untaken ir with
    | None => Nextop s PC
    | Some _ => End_op s (PC +u 4)
    end
  else End_op (set_is_branch_taken true s) (PC +u imm ir).

Definition do_beq s ir cycle PC :=
  BRANCH_FUNC (negb (reg s (rs1 ir) =? reg s (rs2 ir))) s ir PC.
Definition do_bne s ir cycle PC :=
  BRANCH_FUNC (reg s (rs1 ir) =? reg s (rs2 ir)) s ir PC.
Definition do_blt s ir cycle PC :=
  BRANCH_FUNC (s32 (reg s (rs1 ir)) >=? s32 (reg s (rs2 ir))) s ir PC.
Definition do_bge s ir cycle PC :=
  BRANCH_FUNC (s32 (reg s (rs1 ir)) <? s32 (reg s (rs2 ir))) s ir PC.
Definition do_bltu s ir cycle PC :=
  BRANCH_FUNC (reg s (rs1 ir) >=? reg s (rs2 ir)) s ir PC.
Definition do_bgeu s ir cycle PC :=
  BRANCH_FUNC (reg s (rs1 ir) <? reg s (rs2 ir)) s ir PC.

Definition do_lb s ir cycle PC :=
  let addr := reg s (rs1 ir) +u imm ir in
  let! v := ram_read_b s addr in wr_rd (sign_extend_b v) s ir PC.
Definition do_lh s ir cycle PC :=
  let addr := reg s (rs1 ir) +u imm ir in
  RV_EXC_MISALIGN_HANDLER 1 LOAD_MISALIGNED false s cycle PC addr
    (let! v := ram_read_s s addr in wr_rd (sign_extend_h v) s ir PC).
Definition do_lw s ir cycle PC :=
  let addr := reg s (rs1 ir) +u imm ir in
  RV_EXC_MISALIGN_HANDLER 3 LOAD_MISALIGNED false s cycle PC addr
    (let! v := ram_read_w s addr in wr_rd v s ir PC).
Definition do_lbu s ir cycle PC :=
  let addr := reg s (rs1 ir) +u imm ir in
  let! v := ram_read_b s addr in wr_rd v s ir PC.
Definition do_lhu s ir cycle PC :=
  let addr := reg s (rs1 ir) +u imm ir in
  RV_EXC_MISALIGN_HANDLER 1 LOAD_MISALIGNED false s cycle PC addr
    (let! v := ram_read_s s addr in wr_rd v s ir PC).

Definition do_sb s ir cycle PC :=
  let addr := reg s (rs1 ir) +u imm ir in
  let value := reg s (rs2 ir) in
  let! s := ram_write_b s addr value in Nextop s PC.
Definition do_sh s ir cycle PC :=
  let addr := reg s (rs1 ir) +u imm ir in
  RV_EXC_MISALIGN_HANDLER 1 STORE_MISALIGNED false s cycle PC addr
    (let value := reg s (rs2 ir) in
     let! s := ram_write_s s addr value in Nextop s PC).
Definition do_sw s ir cycle PC :=
  let addr := reg s (rs1 ir) +u imm ir in
  RV_EXC_MISALIGN_HANDLER 3 STORE_MISALIGNED false s cycle PC addr
    (let value := reg s (rs2 ir) in
     let! s := ram_write_w s addr value in Nextop s PC).

Definition do_addi s ir cycle PC := wr_rd (reg s (rs1 ir) +u imm ir) s ir PC.
Definition do_slti s ir cycle PC :=
  wr_rd (if s32 (reg s (rs1 ir)) <? imm ir then 1 else 0) s ir PC.
Definition do_sltiu s ir cycle PC :=
  wr_rd (if reg s (rs1 ir) <? u32 (imm ir) then 1 else 0) s ir PC.
Definition do_xori s ir cycle PC := wr_rd (reg s (rs1 ir) ^u u32 (imm ir)) s ir PC.
Definition do_ori s ir cycle PC := wr_rd (reg s (rs1 ir) |u u32 (imm ir)) s ir PC.
Definition do_andi s ir cycle PC := wr_rd (reg s (rs1 ir) &u u32 (imm ir)) s ir PC.

(** [shift_func]; the shift amounts are masked to five bits. *)
Definition shift_value (o : opcode_t) (x i : Z) : option Z :=
  match o with
  | rv_insn_slli => Some (u32 (x <<u (i &u 0x1f)))
  | rv_insn_srli => Some (x >>u (i &u 0x1f))
  | rv_insn_srai => Some (u32 (s32 x >>u (i &u 0x1f)))
  | _ => None
  end.
Definition shift_func s ir PC : outcome :=
  let! v := shift_value (opcode ir) (reg s (rs1 ir)) (imm ir) in wr_rd v s ir PC.
Definition do_slli s ir cycle PC := shift_func s ir PC.
Definition do_srli s ir cycle PC := shift_func s ir PC.
Definition do_srai s ir cycle PC := shift_func s ir PC.

Definition do_add s ir cycle PC := wr_rd (reg s (rs1 ir) +u reg s (rs2 ir)) s ir PC.
Definition do_sub s ir cycle PC := wr_rd (reg s (rs1 ir) -u reg s (rs2 ir)) s ir PC.
Definition do_sll s ir cycle PC :=
  wr_rd (u32 (reg s (rs1 ir) <<u (reg s (rs2 ir) &u 0x1f))) s ir PC.
Definition do_slt s ir cycle PC :=
  wr_rd (if s32 (reg s (rs1 ir)) <? s32 (reg s (rs2 ir)) then 1 else 0) s ir PC.
Definition do_sltu s ir cycle PC :=
  wr_rd (if reg s (rs1 ir) <? reg s (rs2 ir) then 1 else 0) s ir PC.
Definition do_xor s ir cycle PC := wr_rd (reg s (rs1 ir) ^u reg s (rs2 ir)) s ir PC.
Definition do_srl s ir cycle PC :=
  wr_rd (reg s (rs1 ir) >>u (reg s (rs2 ir) &u 0x1f)) s ir PC.
Definition do_sra s ir cycle PC :=
  wr_rd (u32 (s32 (reg s (rs1 ir)) >>u (reg s (rs2 ir) &u 0x1f))) s ir PC.
Definition do_or s ir cycle PC := wr_rd (reg s (rs1 ir) |u reg s (rs2 ir)) s ir PC.
Definition do_and s ir cycle PC := wr_rd (reg s (rs1 ir) &u reg s (rs2 ir)) s ir PC.

Definition do_fence s ir cycle PC := End_op s (PC +u 4).
Definition do_ecall s ir cycle PC :=
  let s := set_PC PC (set_csr_cycle cycle (set_compressed false s)) in
  let! s := on_ecall s in Return true s.
Definition do_ebreak s ir cycle PC :=
  let s := set_PC PC (set_csr_cycle cycle (set_compressed false s)) in
  let! s := on_ebreak s in Return true s.

(** ** Privileged instructions *)

Definition do_wfi s ir cycle PC := End_op s (PC +u 4).
Definition do_uret s ir cycle PC := Return false s.
Definition do_hret s ir cycle PC := Return false s.

Definition MSTATUS_MIE_SHIFT := 3.
Definition MSTATUS_MIE := 0x8.
Definition MSTATUS_MPIE_SHIFT := 7.
Definition MSTATUS_MPIE := 0x80.
Definition MSTATUS_MPP_SHIFT := 11.
Definition MSTATUS_MPP := 0x1800.

Definition do_mret s ir cycle PC :=
  let s := set_priv_mode ((csr s csr_mstatus &u MSTATUS_MPP) >>u MSTATUS_MPP_SHIFT) s in
  let s := set_csr csr_mstatus (csr s csr_mstatus &u ~u MSTATUS_MPP) s in
  let mstatus_mpie := (csr s csr_mstatus &u MSTATUS_MPIE) >>u MSTATUS_MPIE_SHIFT in
  let s := set_csr csr_mstatus
             (csr s csr_mstatus |u u32 (mstatus_mpie <<u MSTATUS_MIE_SHIFT)) s in
  let s := set_csr csr_mstatus (csr s csr_mstatus |u MSTATUS_MPIE) s in
  Return true (set_PC (csr s csr_mepc) s).

Definition do_sfencevma s ir cycle PC := End_op s (PC +u 4).
Definition do_fencei s ir cycle PC :=
  let PC := PC +u 4 in Return true (set_PC PC (set_csr_cycle cycle s)).

(** ** Zicsr *)

Definition csr_wr_rd (r : riscv * Z) ir PC : outcome :=
  let '(s, tmp) := r in
  wr_rd (if truth (rd ir) then tmp else reg s (rd ir)) s ir PC.
Definition do_csrrw s ir cycle PC :=
  csr_wr_rd (csr_csrrw s (u32 (imm ir)) (reg s (rs1 ir)) cycle) ir PC.
Definition do_csrrs s ir cycle PC :=
  csr_wr_rd (csr_csrrs s (u32 (imm ir))
    (if rs1 ir =? rv_reg_zero then 0 else reg s (rs1 ir)) cycle) ir PC.
Definition do_csrrc s ir cycle PC :=
  csr_wr_rd (csr_csrrc s (u32 (imm ir))
    (if rs1 ir =? rv_reg_zero then 0 else reg s (rs1 ir)) cycle) ir PC.
Definition do_csrrwi s ir cycle PC :=
  csr_wr_rd (csr_csrrw s (u32 (imm ir)) (rs1 ir) cycle) ir PC.
Definition do_csrrsi s ir cycle PC :=
  csr_wr_rd (csr_csrrs s (u32 (imm ir)) (rs1 ir) cycle) ir PC.
Definition do_csrrci s ir cycle PC :=
  csr_wr_rd (csr_csrrc s (u32 (imm ir)) (rs1 ir) cycle) ir PC.

(** ** RV32M.  The value functions are shared with the constant folder's
    specification, not with its code. *)

Definition do_mul s ir cycle PC :=
  let multiplicand := s32 (reg s (rs1 ir)) in
  let multiplier := s32 (reg s (rs2 ir)) in
  wr_rd (u64 (multiplicand * multiplier) &u 0xffffffff) s ir PC.
Definition do_mulh s ir cycle PC :=
  let multiplicand := s32 (reg s (rs1 ir)) in
  let multiplier := s32 (reg s (rs2 ir)) in
  wr_rd (u32 (u64 (multiplicand * multiplier) >>u 32)) s ir PC.
Definition do_mulhsu s ir cycle PC :=
  let multiplicand := s32 (reg s (rs1 ir)) in
  let umultiplier := reg s (rs2 ir) in
  wr_rd (u32 (u64 (u64 multiplicand * umultiplier) >>u 32)) s ir PC.
Definition do_mulhu s ir cycle PC :=
  wr_rd (u32 (u64 (reg s (rs1 ir) * reg s (rs2 ir)) >>u 32)) s ir PC.
Definition do_div s ir cycle PC :=
  let dividend := s32 (reg s (rs1 ir)) in
  let divisor := s32 (reg s (rs2 ir)) in
  wr_rd (if negb (truth divisor) then 0xffffffff
         else if (divisor =? -1) && (reg s (rs1 ir) =? 0x80000000) then reg s (rs1 ir)
         else u32 (Z.quot dividend divisor)) s ir PC.
Definition do_divu s ir cycle PC :=
  let udividend := reg s (rs1 ir) in
  let udivisor := reg s (rs2 ir) in
  wr_rd (if negb (truth udivisor) then 0xffffffff else udividend / udivisor) s ir PC.
Definition do_rem s ir cycle PC :=
  let dividend := s32 (reg s (rs1 ir)) in
  let divisor := s32 (reg s (rs2 ir)) in
  wr_rd (u32 (if negb (truth divisor) then dividend
              else if (divisor =? -1) && (reg s (rs1 ir) =? 0x80000000) then 0
              else Z.rem dividend divisor)) s ir PC.
Definition do_remu s ir cycle PC :=
  let udividend := reg s (rs1 ir) in
  let udivisor := reg s (rs2 ir) in
  wr_rd (if negb (truth udivisor) then udividend else udividend mod udivisor) s ir PC.

(** ** RV32A.  [lr.w]/[sc.w] keep no reservation set. *)

Definition do_lrw s ir cycle PC :=
  let addr := reg s (rs1 ir) in
  RV_EXC_MISALIGN_HANDLER 3 LOAD_MISALIGNED false s cycle PC addr
    (if truth (rd ir) then
       let! v := ram_read_w s addr in wr_rd v s ir PC
     else Nextop s PC).
Definition do_scw s ir cycle PC :=
  let addr := reg s (rs1 ir) in
  RV_EXC_MISALIGN_HANDLER 3 STORE_MISALIGNED false s cycle PC addr
    (let value := reg s (rs2 ir) in
     let! s := ram_write_w s addr value in wr_rd 0 s ir PC).

(** The read-modify-write body the AMO handlers share; [op] combines the loaded
    word with [rs2] into the stored one. *)
Definition amo (op : Z -> Z -> Z) s ir cycle PC : outcome :=
  let addr := reg s (rs1 ir) in
  RV_EXC_MISALIGN_HANDLER 3 LOAD_MISALIGNED false s cycle PC addr
    (let! value1 := ram_read_w s addr in
     let value2 := reg s (rs2 ir) in
     let s := link value1 ir s in
     let res := op value1 value2 in
     let! s := ram_write_w s addr res in Nextop s PC).
Definition do_amoswapw s ir cycle PC := amo (fun _ v2 => v2) s ir cycle PC.
Definition do_amoaddw s ir cycle PC := amo (fun v1 v2 => v1 +u v2) s ir cycle PC.
Definition do_amoxorw s ir cycle PC := amo (fun v1 v2 => v1 ^u v2) s ir cycle PC.
Definition do_amoandw s ir cycle PC := amo (fun v1 v2 => v1 &u v2) s ir cycle PC.
Definition do_amoorw s ir cycle PC := amo (fun v1 v2 => v1 |u v2) s ir cycle PC.
Definition do_amominw s ir cycle PC :=
  amo (fun v1 v2 => if s32 v1 <? s32 v2 then v1 else v2) s ir cycle PC.
Definition do_amomaxw s ir cycle PC :=
  amo (fun v1 v2 => if s32 v1 >? s32 v2 then v1 else v2) s ir cycle PC.
Definition do_amominuw s ir cycle PC :=
  amo (fun v1 v2 => if v1 <? v2 then v1 else v2) s ir cycle PC.
Definition do_amomaxuw s ir cycle PC :=
  amo (fun v1 v2 => if v1 >? v2 then v1 else v2) s ir cycle PC.

(** ** RV32F *)

Definition flw_at (compress : bool) addr s ir cycle PC : outcome :=
  RV_EXC_MISALIGN_HANDLER 3 LOAD_MISALIGNED compress s cycle PC addr
    (let! v := ram_read_w s addr in Nextop (set_freg (rd ir) v s) PC).
Definition fsw_at (compress : bool) addr s ir cycle PC : outcome :=
  RV_EXC_MISALIGN_HANDLER 3 STORE_MISALIGNED compress s cycle PC addr
    (let value := freg s (rs2 ir) in
     let! s := ram_write_w s addr value in Nextop s PC).
Definition do_flw s ir cycle PC :=
  let addr := reg s (rs1 ir) +u imm ir in flw_at false addr s ir cycle PC.
Definition do_fsw s ir cycle PC :=
  let addr := reg s (rs1 ir) +u imm ir in fsw_at false addr s ir cycle PC.

(** [set_rounding_mode(rv, ir->rm); rv->F[ir->rd] = f(..); set_fflag(rv);] *)
Definition fp_op (f : riscv -> Z * Z) s ir PC : outcome :=
  let! s := set_rounding_mode (rm ir) s in
  let '(v, fl) := f s in
  Nextop (set_fflag (set_freg (rd ir) v (raise_flags fl s))) PC.
Definition do_fmadds s ir cycle PC :=
  fp_op (fun s => f32_mulAdd (softfloat_roundingMode s)
                    (freg s (rs1 ir)) (freg s (rs2 ir)) (freg s (rs3 ir))) s ir PC.
Definition do_fmsubs s ir cycle PC :=
  fp_op (fun s => f32_mulAdd (softfloat_roundingMode s)
                    (freg s (rs1 ir)) (freg s (rs2 ir)) (freg s (rs3 ir) ^u FMASK_SIGN)) s ir PC.
Definition do_fnmsubs s ir cycle PC :=
  fp_op (fun s => f32_mulAdd (softfloat_roundingMode s)
                    (freg s (rs1 ir) ^u FMASK_SIGN) (freg s (rs2 ir)) (freg s (rs3 ir))) s ir PC.
Definition do_fnmadds s ir cycle PC :=
  fp_op (fun s => f32_mulAdd (softfloat_roundingMode s)
                    (freg s (rs1 ir) ^u FMASK_SIGN) (freg s (rs2 ir))
                    (freg s (rs3 ir) ^u FMASK_SIGN)) s ir PC.
Definition do_fadds s ir cycle PC :=
  fp_op (fun s => f32_add (softfloat_roundingMode s) (freg s (rs1 ir)) (freg s (rs2 ir))) s ir PC.
Definition do_fsubs s ir cycle PC :=
  fp_op (fun s => f32_sub (softfloat_roundingMode s) (freg s (rs1 ir)) (freg s (rs2 ir))) s ir PC.
Definition do_fmuls s ir cycle PC :=
  fp_op (fun s => f32_mul (softfloat_roundingMode s) (freg s (rs1 ir)) (freg s (rs2 ir))) s ir PC.
Definition do_fdivs s ir cycle PC :=
  fp_op (fun s => f32_div (softfloat_roundingMode s) (freg s (rs1 ir)) (freg s (rs2 ir))) s ir PC.
Definition do_fsqrts s ir cycle PC :=
  fp_op (fun s => f32_sqrt (softfloat_roundingMode s) (freg s (rs1 ir))) s ir PC.
Definition do_fcvtsw s ir cycle PC :=
  fp_op (fun s => i32_to_f32 (softfloat_roundingMode s) (s32 (reg s (rs1 ir)))) s ir PC.
Definition do_fcvtswu s ir cycle PC :=
  fp_op (fun s => ui32_to_f32 (softfloat_roundingMode s) (reg s (rs1 ir))) s ir PC.

Definition do_fsgnjs s ir cycle PC :=
  Nextop (set_freg (rd ir) ((freg s (rs1 ir) &u ~u FMASK_SIGN)
                            |u (freg s (rs2 ir) &u FMASK_SIGN)) s) PC.
Definition do_fsgnjns s ir cycle PC :=
  Nextop (set_freg (rd ir) ((freg s (rs1 ir) &u ~u FMASK_SIGN)
                            |u (~u (freg s (rs2 ir)) &u FMASK_SIGN)) s) PC.
Definition do_fsgnjxs s ir cycle PC :=
  Nextop (set_freg (rd ir) (freg s (rs1 ir) ^u (freg s (rs2 ir) &u FMASK_SIGN)) s) PC.

(** [less]/[greater] is [f32_lt_quiet(a, b) || (f32_eq(..) && (sign of c))]: the
    second operand of [||] is evaluated, and may raise flags, only when the first
    one is false. *)
Definition fp_minmax (a b c : Z) s ir PC : outcome :=
  let x := freg s (rs1 ir) in
  let y := freg s (rs2 ir) in
  let s := if f32_isSignalingNaN x || f32_isSignalingNaN y
           then set_csr csr_fcsr (csr s csr_fcsr |u FFLAG_INVALID_OP) s else s in
  let '(lt, fl) := f32_lt_quiet a b in
  let s := raise_flags fl s in
  let '(first, s) :=
    if lt then (true, s)
    else let '(eq, fl) := f32_eq x y in
         (eq && truth (c &u FMASK_SIGN), raise_flags fl s) in
  Nextop (set_freg (rd ir)
            (if is_nan x && is_nan y then RV_NAN
             else if first || is_nan y then x else y) s) PC.
Definition do_fmins s ir cycle PC :=
  fp_minmax (freg s (rs1 ir)) (freg s (rs2 ir)) (freg s (rs1 ir)) s ir PC.
Definition do_fmaxs s ir cycle PC :=
  fp_minmax (freg s (rs2 ir)) (freg s (rs1 ir)) (freg s (rs2 ir)) s ir PC.

Definition do_fcvtws s ir cycle PC :=
  let! s := set_rounding_mode (rm ir) s in
  let '(v, fl) := f32_to_i32 (softfloat_roundingMode s) (freg s (rs1 ir)) in
  Nextop (set_fflag (link (u32 v) ir (raise_flags fl s))) PC.
Definition do_fcvtwus s ir cycle PC :=
  let! s := set_rounding_mode (rm ir) s in
  let '(v, fl) := f32_to_ui32 (softfloat_roundingMode s) (freg s (rs1 ir)) in
  Nextop (set_fflag (link (u32 v) ir (raise_flags fl s))) PC.
Definition do_fmvxw s ir cycle PC := Nextop (link (freg s (rs1 ir)) ir s) PC.

Definition fp_compare (r : bool * Z) s ir PC : outcome :=
  let '(b, fl) := r in Nextop (set_fflag (link (b2u b) ir (raise_flags fl s))) PC.
Definition do_feqs s ir cycle PC := fp_compare (f32_eq (freg s (rs1 ir)) (freg s (rs2 ir))) s ir PC.
Definition do_flts s ir cycle PC := fp_compare (f32_lt (freg s (rs1 ir)) (freg s (rs2 ir))) s ir PC.
Definition do_fles s ir cycle PC := fp_compare (f32_le (freg s (rs1 ir)) (freg s (rs2 ir))) s ir PC.
Definition do_fclasss s ir cycle PC := Nextop (link (calc_fclass (freg s (rs1 ir))) ir s) PC.
Definition do_fmvwx s ir cycle PC := Nextop (set_freg (rd ir) (reg s (rs1 ir)) s) PC.

(** ** RV32C *)

Definition do_caddi4spn s ir cycle PC := wr_rd (reg s rv_reg_sp +u u16 (imm ir)) s ir PC.

Definition lw_at addr s ir cycle PC : outcome :=
  RV_EXC_MISALIGN_HANDLER 3 LOAD_MISALIGNED true s cycle PC addr
    (let! v := ram_read_w s addr in wr_rd v s ir PC).
Definition sw_at addr s ir cycle PC : outcome :=
  RV_EXC_MISALIGN_HANDLER 3 STORE_MISALIGNED true s cycle PC addr
    (let value := reg s (rs2 ir) in
     let! s := ram_write_w s addr value in Nextop s PC).
Definition do_clw s ir cycle PC :=
  let addr := reg s (rs1 ir) +u u32 (imm ir) in lw_at addr s ir cycle PC.
Definition do_csw s ir cycle PC :=
  let addr := reg s (rs1 ir) +u u32 (imm ir) in sw_at addr s ir cycle PC.
Definition do_cnop s ir cycle PC := Nextop s PC.
Definition do_caddi s ir cycle PC := wr_rd (reg s (rd ir) +u s16 (imm ir)) s ir PC.
Definition do_cjal s ir cycle PC :=
  let s := set_reg rv_reg_ra (PC +u 2) s in
  jump s ir (PC +u imm ir).
Definition do_cli s ir cycle PC := wr_rd (u32 (imm ir)) s ir PC.
Definition do_caddi16sp s ir cycle PC := wr_rd (reg s (rd ir) +u imm ir) s ir PC.
Definition do_clui s ir cycle PC := wr_rd (u32 (imm ir)) s ir PC.
Definition do_csrli s ir cycle PC :=
  let! v := shr32 (reg s (rs1 ir)) (shamt ir) in wr_rs1 v s ir PC.
Definition do_csrai s ir cycle PC :=
  let mask := 0x80000000 &u reg s (rs1 ir) in
  let! v := shr32 (reg s (rs1 ir)) (shamt ir) in
  let v := foldl (fun v i => v |u (mask >>u Z.of_nat i)) v (seq 0 (Z.to_nat (shamt ir))) in
  wr_rs1 v s ir PC.
Definition do_candi s ir cycle PC := wr_rs1 (reg s (rs1 ir) &u u32 (imm ir)) s ir PC.
Definition do_csub s ir cycle PC := wr_rd (reg s (rs1 ir) -u reg s (rs2 ir)) s ir PC.
Definition do_cxor s ir cycle PC := wr_rd (reg s (rs1 ir) ^u reg s (rs2 ir)) s ir PC.
Definition do_cor s ir cycle PC := wr_rd (reg s (rs1 ir) |u reg s (rs2 ir)) s ir PC.
Definition do_cand s ir cycle PC := wr_rd (reg s (rs1 ir) &u reg s (rs2 ir)) s ir PC.
Definition do_cj s ir cycle PC := jump s ir (PC +u imm ir).

(** [C.BEQZ] and [C.BNEZ]; unlike [BRANCH_FUNC] they do enter a linked block. *)
Definition c_branch (not_taken : bool) s ir PC : outcome :=
  if not_taken then
    let s := set_is_branch_taken false s in
    match branch_untaken ir with
    | None => Nextop s PC
    | Some untaken => let PC := PC +u 2 in Tail untaken (set_last_pc PC s) PC
    end
  else jump (set_is_branch_taken true s) ir (PC +u imm ir).
Definition do_cbeqz s ir cycle PC := c_branch (truth (reg s (rs1 ir))) s ir PC.
Definition do_cbnez s ir cycle PC := c_branch (negb (truth (reg s (rs1 ir)))) s ir PC.

Definition do_cslli s ir cycle PC :=
  let! v := shl32 (reg s (rd ir)) (u8 (imm ir)) in wr_rd v s ir PC.
Definition do_clwsp s ir cycle PC :=
  let addr := reg s rv_reg_sp +u imm ir in lw_at addr s ir cycle PC.
Definition do_cjr s ir cycle PC := Indirect s (reg s (rs1 ir)).
Definition do_cmv s ir cycle PC := wr_rd (reg s (rs2 ir)) s ir PC.
Definition do_cebreak s ir cycle PC :=
  let s := set_PC PC (set_csr_cycle cycle (set_compressed true s)) in
  let! s := on_ebreak s in Return true s.
Definition do_cjalr s ir cycle PC :=
  let jump_to := s32 (reg s (rs1 ir)) in
  let s := set_reg rv_reg_ra (PC +u 2) s in
  Indirect s (u32 jump_to).
Definition do_cadd s ir cycle PC := wr_rd (reg s (rs1 ir) +u reg s (rs2 ir)) s ir PC.
Definition do_cswsp s ir cycle PC :=
  let addr := reg s rv_reg_sp +u imm ir in sw_at addr s ir cycle PC.
Definition do_cflwsp s ir cycle PC :=
  let addr := reg s rv_reg_sp +u imm ir in flw_at false addr s ir cycle PC.
Definition do_cfswsp s ir cycle PC :=
  let addr := reg s rv_reg_sp +u imm ir in fsw_at false addr s ir cycle PC.
Definition do_cflw s ir cycle PC :=
  let addr := reg s (rs1 ir) +u u32 (imm ir) in flw_at false addr s ir cycle PC.
Definition do_cfsw s ir cycle PC :=
  let addr := reg s (rs1 ir) +u u32 (imm ir) in fsw_at false addr s ir cycle PC.

(** ** Zba, Zbb, Zbc, Zbs *)

Definition do_sh1add s ir cycle PC := wr_rd (u32 (reg s (rs1 ir) <<u 1) +u reg s (rs2 ir)) s ir PC.
Definition do_sh2add s ir cycle PC := wr_rd (u32 (reg s (rs1 ir) <<u 2) +u reg s (rs2 ir)) s ir PC.
Definition do_sh3add s ir cycle PC := wr_rd (u32 (reg s (rs1 ir) <<u 3) +u reg s (rs2 ir)) s ir PC.

Definition do_andn s ir cycle PC := wr_rd (reg s (rs1 ir) &u ~u (reg s (rs2 ir))) s ir PC.
Definition do_orn s ir cycle PC := wr_rd (reg s (rs1 ir) |u ~u (reg s (rs2 ir))) s ir PC.
Definition do_xnor s ir cycle PC := wr_rd (~u (reg s (rs1 ir) ^u reg s (rs2 ir))) s ir PC.
Definition do_clz s ir cycle PC :=
  if truth (reg s (rs1 ir)) then wr_rd (rv_clz (reg s (rs1 ir))) s ir PC
  else wr_rd 32 s ir PC.
Definition do_ctz s ir cycle PC :=
  if truth (reg s (rs1 ir)) then wr_rd (rv_ctz (reg s (rs1 ir))) s ir PC
  else wr_rd 32 s ir PC.
Definition do_cpop s ir cycle PC := wr_rd (rv_popcount (reg s (rs1 ir))) s ir PC.
Definition do_max s ir cycle PC :=
  wr_rd (if s32 (reg s (rs1 ir)) >? s32 (reg s (rs2 ir))
         then reg s (rs1 ir) else reg s (rs2 ir)) s ir PC.
Definition do_min s ir cycle PC :=
  wr_rd (if s32 (reg s (rs1 ir)) <? s32 (reg s (rs2 ir))
         then reg s (rs1 ir) else reg s (rs2 ir)) s ir PC.
Definition do_maxu s ir cycle PC :=
  wr_rd (if reg s (rs1 ir) >? reg s (rs2 ir)
         then reg s (rs1 ir) else reg s (rs2 ir)) s ir PC.
Definition do_minu s ir cycle PC :=
  wr_rd (if reg s (rs1 ir) <? reg s (rs2 ir)
         then reg s (rs1 ir) else reg s (rs2 ir)) s ir PC.
(** [rs1] is read again after [rd] has been written. *)
Definition do_sextb s ir cycle PC :=
  let s := set_reg (rd ir) (reg s (rs1 ir) &u 0xff) s in
  if truth (reg s (rs1 ir) &u 0x80)
  then wr_rd (reg s (rd ir) |u 0xffffff00) s ir PC else Nextop s PC.
Definition do_sexth s ir cycle PC :=
  let s := set_reg (rd ir) (reg s (rs1 ir) &u 0xffff) s in
  if truth (reg s (rs1 ir) &u 0x8000)
  then wr_rd (reg s (rd ir) |u 0xffff0000) s ir PC else Nextop s PC.
Definition do_zexth s ir cycle PC := wr_rd (reg s (rs1 ir) &u 0xffff) s ir PC.

(** Rotations: for a zero amount the second shift is by 32. *)
Definition rotate_left x n : option Z :=
  a ← shl32 x n; b ← shr32 x (32 - n); Some (a |u b).
Definition rotate_right x n : option Z :=
  a ← shr32 x n; b ← shl32 x (32 - n); Some (a |u b).
Definition do_rol s ir cycle PC :=
  let shamt := reg s (rs2 ir) &u 0x1f in
  let! v := rotate_left (reg s (rs1 ir)) shamt in wr_rd v s ir PC.
Definition do_ror s ir cycle PC :=
  let shamt := reg s (rs2 ir) &u 0x1f in
  let! v := rotate_right (reg s (rs1 ir)) shamt in wr_rd v s ir PC.
Definition do_rori s ir cycle PC :=
  let shamt := imm ir &u 0x1f in
  let! v := rotate_right (reg s (rs1 ir)) shamt in wr_rd v s ir PC.
Definition do_orcb s ir cycle PC :=
  let x := reg s (rs1 ir) in
  let v := foldl (fun v i => if truth (x &u u32 (0xff <<u (Z.of_nat i * 8)))
                             then v |u u32 (0xff <<u (Z.of_nat i * 8)) else v)
             0 (seq 0 4) in
  wr_rd v s ir PC.
Definition do_rev8 s ir cycle PC :=
  let x := reg s (rs1 ir) in
  wr_rd (u32 ((x &u 0xff) <<u 24) |u u32 ((x &u 0xff00) <<u 8)
         |u ((x &u 0xff0000) >>u 8) |u ((x &u 0xff000000) >>u 24)) s ir PC.

Definition do_clmul s ir cycle PC :=
  let x := reg s (rs1 ir) in
  let y := reg s (rs2 ir) in
  let output := foldl (fun output i => if truth ((y >>u Z.of_nat i) &u 1)
                                       then output ^u u32 (x <<u Z.of_nat i) else output)
                  0 (seq 0 32) in
  wr_rd output s ir PC.
Definition do_clmulh s ir cycle PC :=
  let x := reg s (rs1 ir) in
  let y := reg s (rs2 ir) in
  let output := foldl (fun output i => if truth ((y >>u Z.of_nat i) &u 1)
                                       then output ^u (x >>u (32 - Z.of_nat i)) else output)
                  0 (seq 1 31) in
  wr_rd output s ir PC.
Definition do_clmulr s ir cycle PC :=
  let x := reg s (rs1 ir) in
  let y := reg s (rs2 ir) in
  let output := foldl (fun output i => if truth ((y >>u Z.of_nat i) &u 1)
                                       then output ^u (x >>u (32 - Z.of_nat i - 1)) else output)
                  0 (seq 0 32) in
  wr_rd output s ir PC.

Definition bclr_at index s ir PC := wr_rd (reg s (rs1 ir) &u ~u (1 <<u index)) s ir PC.
Definition bext_at index s ir PC := wr_rd ((reg s (rs1 ir) >>u index) &u 1) s ir PC.
Definition binv_at index s ir PC := wr_rd (reg s (rs1 ir) ^u u32 (1 <<u index)) s ir PC.
Definition bset_at index s ir PC := wr_rd (reg s (rs1 ir) |u u32 (1 <<u index)) s ir PC.
Definition do_bclr s ir cycle PC := bclr_at (reg s (rs2 ir) &u 31) s ir PC.
Definition do_bclri s ir cycle PC := bclr_at (imm ir &u 31) s ir PC.
Definition do_bext s ir cycle PC := bext_at (reg s (rs2 ir) &u 31) s ir PC.
Definition do_bexti s ir cycle PC := bext_at (imm ir &u 31) s ir PC.
Definition do_binv s ir cycle PC := binv_at (reg s (rs2 ir) &u 31) s ir PC.
Definition do_binvi s ir cycle PC := binv_at (imm ir &u 31) s ir PC.
Definition do_bset s ir cycle PC := bset_at (reg s (rs2 ir) &u 31) s ir PC.
Definition do_bseti s ir cycle PC := bset_at (imm ir &u 31) s ir PC.

(** The handler bodies by opcode; fused opcodes have handlers of their own. *)
Definition insn_body (o : opcode_t) : riscv -> rv_insn -> Z -> Z -> outcome :=
  match o with
  | rv_insn_nop => do_nop | rv_insn_lui => do_lui | rv_insn_auipc => do_auipc
  | rv_insn_jal => do_jal | rv_insn_jalr => do_jalr | rv_insn_beq => do_beq
  | rv_insn_bne => do_bne | rv_insn_blt => do_blt | rv_insn_bge => do_bge
  | rv_insn_bltu => do_bltu | rv_insn_bgeu => do_bgeu | rv_insn_lb => do_lb
  | rv_insn_lh => do_lh | rv_insn_lw => do_lw | rv_insn_lbu => do_lbu
  | rv_insn_lhu => do_lhu | rv_insn_sb => do_sb | rv_insn_sh => do_sh | rv_insn_sw => do_sw
  | rv_insn_addi => do_addi | rv_insn_slti => do_slti | rv_insn_sltiu => do_sltiu
  | rv_insn_xori => do_xori | rv_insn_ori => do_ori | rv_insn_andi => do_andi
  | rv_insn_slli => do_slli | rv_insn_srli => do_srli | rv_insn_srai => do_srai
  | rv_insn_add => do_add | rv_insn_sub => do_sub | rv_insn_sll => do_sll
  | rv_insn_slt => do_slt | rv_insn_sltu => do_sltu | rv_insn_xor => do_xor
  | rv_insn_srl => do_srl | rv_insn_sra => do_sra | rv_insn_or => do_or
  | rv_insn_and => do_and | rv_insn_fence => do_fence | rv_insn_ecall => do_ecall
  | rv_insn_ebreak => do_ebreak | rv_insn_wfi => do_wfi | rv_insn_uret => do_uret
  | rv_insn_hret => do_hret | rv_insn_mret => do_mret | rv_insn_sfencevma => do_sfencevma
  | rv_insn_fencei => do_fencei | rv_insn_csrrw => do_csrrw | rv_insn_csrrs => do_csrrs
  | rv_insn_csrrc => do_csrrc | rv_insn_csrrwi => do_csrrwi | rv_insn_csrrsi => do_csrrsi
  | rv_insn_csrrci => do_csrrci | rv_insn_sh1add => do_sh1add | rv_insn_sh2add => do_sh2add
  | rv_insn_sh3add => do_sh3add | rv_insn_andn => do_andn | rv_insn_orn => do_orn
  | rv_insn_xnor => do_xnor | rv_insn_clz => do_clz | rv_insn_ctz => do_ctz
  | rv_insn_cpop => do_cpop | rv_insn_max => do_max | rv_insn_maxu => do_maxu
  | rv_insn_min => do_min | rv_insn_minu => do_minu | rv_insn_sextb => do_sextb
  | rv_insn_sexth => do_sexth | rv_insn_zexth => do_zexth | rv_insn_rol => do_rol
  | rv_insn_ror => do_ror | rv_insn_rori => do_rori | rv_insn_orcb => do_orcb
  | rv_insn_rev8 => do_rev8 | rv_insn_clmul => do_clmul | rv_insn_clmulh => do_clmulh
  | rv_insn_clmulr => do_clmulr | rv_insn_bclr => do_bclr | rv_insn_bclri => do_bclri
  | rv_insn_bext => do_bext | rv_insn_bexti => do_bexti | rv_insn_binv => do_binv
  | rv_insn_binvi => do_binvi | rv_insn_bset => do_bset | rv_insn_bseti => do_bseti
  | rv_insn_mul => do_mul | rv_insn_mulh => do_mulh | rv_insn_mulhsu => do_mulhsu
  | rv_insn_mulhu => do_mulhu | rv_insn_div => do_div | rv_insn_divu => do_divu
  | rv_insn_rem => do_rem | rv_insn_remu => do_remu | rv_insn_lrw => do_lrw
  | rv_insn_scw => do_scw | rv_insn_amoswapw => do_amoswapw | rv_insn_amoaddw => do_amoaddw
  | rv_insn_amoxorw => do_amoxorw | rv_insn_amoandw => do_amoandw
  | rv_insn_amoorw => do_amoorw | rv_insn_amominw => do_amominw
  | rv_insn_amomaxw => do_amomaxw | rv_insn_amominuw => do_amominuw
  | rv_insn_amomaxuw => do_amomaxuw | rv_insn_flw => do_flw | rv_insn_fsw => do_fsw
  | rv_insn_fmadds => do_fmadds | rv_insn_fmsubs => do_fmsubs
  | rv_insn_fnmsubs => do_fnmsubs | rv_insn_fnmadds => do_fnmadds
  | rv_insn_fadds => do_fadds | rv_insn_fsubs => do_fsubs | rv_insn_fmuls => do_fmuls
  | rv_insn_fdivs => do_fdivs | rv_insn_fsqrts => do_fsqrts | rv_insn_fsgnjs => do_fsgnjs
  | rv_insn_fsgnjns => do_fsgnjns | rv_insn_fsgnjxs => do_fsgnjxs
  | rv_insn_fmins => do_fmins | rv_insn_fmaxs => do_fmaxs | rv_insn_fcvtws => do_fcvtws
  | rv_insn_fcvtwus => do_fcvtwus | rv_insn_fmvxw => do_fmvxw | rv_insn_feqs => do_feqs
  | rv_insn_flts => do_flts | rv_insn_fles => do_fles | rv_insn_fclasss => do_fclasss
  | rv_insn_fcvtsw => do_fcvtsw | rv_insn_fcvtswu => do_fcvtswu | rv_insn_fmvwx => do_fmvwx
  | rv_insn_caddi4spn => do_caddi4spn | rv_insn_clw => do_clw | rv_insn_csw => do_csw
  | rv_insn_cnop => do_cnop | rv_insn_caddi => do_caddi | rv_insn_cjal => do_cjal
  | rv_insn_cli => do_cli | rv_insn_caddi16sp => do_caddi16sp | rv_insn_clui => do_clui
  | rv_insn_csrli => do_csrli | rv_insn_csrai => do_csrai | rv_insn_candi => do_candi
  | rv_insn_csub => do_csub | rv_insn_cxor => do_cxor | rv_insn_cor => do_cor
  | rv_insn_cand => do_cand | rv_insn_cj => do_cj | rv_insn_cbeqz => do_cbeqz
  | rv_insn_cbnez => do_cbnez | rv_insn_cslli => do_cslli | rv_insn_clwsp => do_clwsp
  | rv_insn_cjr => do_cjr | rv_insn_cmv => do_cmv | rv_insn_cebreak => do_cebreak
  | rv_insn_cjalr => do_cjalr | rv_insn_cadd => do_cadd | rv_insn_cswsp => do_cswsp
  | rv_insn_cflwsp => do_cflwsp | rv_insn_cfswsp => do_cfswsp | rv_insn_cflw => do_cflw
  | rv_insn_cfsw => do_cfsw
  | _ => fun _ _ _ _ => Undef
  end.

(** * The [RVOP] wrapper *)

(** What a call of [ir->impl] does before control leaves the function: call the
    next IR of the block, call the IR a pointer designates, look up the branch
    history table, or return. *)
Inductive step_result :=
  | Go_next (s : riscv) (cycle pc : Z)
  | Go_ir (target : Z) (s : riscv) (cycle pc : Z)
  | Go_indirect (s : riscv) (cycle pc : Z)
  | Ret (b : bool) (s : riscv)
  | Crash.

(** The code at [end_op:]; a block that was cut at a page boundary continues in its
    linked successor. *)
Definition end_op ir s cycle pc : step_result :=
  let store := Ret true (set_PC pc (set_csr_cycle cycle s)) in
  if negb (insn_is_branch (opcode ir)) then
    match branch_taken ir with
    | Some taken => Go_ir taken (set_last_pc pc s) cycle pc
    | None => store
    end
  else store.

(** [has_next] is [ir->next != NULL]. *)
Definition RVOP (body : riscv -> rv_insn -> Z -> Z -> outcome) (has_next : bool)
    s ir cycle PC : step_result :=
  let cycle := u64 (cycle + 1) in
  match body s ir cycle PC with
  | Nextop s PC =>
    let PC := PC +u insn_len (opcode ir) in
    if has_next then Go_next s cycle PC else end_op ir s cycle PC
  | End_op s PC => end_op ir s cycle PC
  | Tail target s PC => Go_ir target s cycle PC
  | Indirect s PC => Go_indirect s cycle PC
  | Return b s => Ret b s
  | Undef => Crash
  end.

(** The dispatch entry of a non-fused opcode. *)
Definition do_insn (has_next : bool) s ir cycle PC : step_result :=
  RVOP (insn_body (opcode ir)) has_next s ir cycle PC.
End Handlers.

(** * Execution of a basic block

    [impl] is the dispatch table; a chain of IRs linked by [next] is a list, and the
    tail calls along it are the recursion.  A block is never empty. *)
Fixpoint run_irs (impl : bool -> riscv -> rv_insn -> Z -> Z -> step_result)
    (irs : list rv_insn) (s : riscv) (cycle pc : Z) : step_result :=
  match irs with
  | [] => Crash
  | ir :: rest =>
    match impl (match rest with [] => false | _ => true end) s ir cycle pc with
    | Go_next s cycle pc => run_irs impl rest s cycle pc
    | r => r
    end
  end.
