(* ===== verification/Constopt.v ===== *)
(** rv32_constopt.c and [optimize_constant] of emulate.c: forward constant
    propagation over the IRs of a freshly translated block.  Each [constopt_<inst>]
    updates the IR and the table of known registers; [None] is undefined behaviour
    of the C code (an out-of-range shift, a signed 64-bit overflow). *)

From S2P Require Import Prelude.
From S2P Require Import Opcode.
From S2P Require Import Decode.

Record constopt_info := mk_info { is_constant : list bool; const_val : list Z }.

Definition known (info : constopt_info) (r : Z) : bool :=
  nth (Z.to_nat r) (is_constant info) false.
Definition val (info : constopt_info) (r : Z) : Z := nth (Z.to_nat r) (const_val info) 0.
Definition set_known (r : Z) (b : bool) (info : constopt_info) : constopt_info :=
  mk_info (<[Z.to_nat r := b]> (is_constant info)) (const_val info).
Definition set_val (r v : Z) (info : constopt_info) : constopt_info :=
  mk_info (is_constant info) (<[Z.to_nat r := v]> (const_val info)).

(** [constopt_info_t info = {.is_constant[0] = true};] *)
Definition info_init : constopt_info :=
  mk_info (true :: replicate 31 false) (replicate 32 0).

Definition constopt_func : Type := rv_insn -> constopt_info -> option (rv_insn * constopt_info).

(** No effect on the IR or on the table. *)
Definition keep : constopt_func := fun ir info => Some (ir, info).
(** [info->is_constant[ir->rd] = false;] *)
Definition kill_rd : constopt_func := fun ir info => Some (ir, set_known (rd ir) false info).
(** [if (ir->rd) info->is_constant[ir->rd] = false;] *)
Definition kill_rd_nz : constopt_func := fun ir info =>
  Some (ir, if truth (rd ir) then set_known (rd ir) false info else info).

(** The folded IR: [ir->imm = v; ir->opcode = o;] with [v] converted to [int32_t],
    and the table entry of register [r] set from [ir->imm]. *)
Definition fold_to (o : opcode_t) (v r : Z) (ir : rv_insn) (info : constopt_info)
  : option (rv_insn * constopt_info) :=
  let ir := set_imm (s32 v) ir in
  let info := set_val r (u32 (imm ir)) info in
  Some (set_opcode o ir, info).

(** The shape of the one-operand and two-operand folders: fold when the sources
    are known, otherwise forget [rd]. *)
Definition fold1 (o : opcode_t) (f : Z -> Z -> Z) : constopt_func := fun ir info =>
  if known info (rs1 ir) then
    fold_to o (f (val info (rs1 ir)) (imm ir)) (rd ir) ir (set_known (rd ir) true info)
  else kill_rd ir info.
Definition fold2 (o : opcode_t) (f : Z -> Z -> option Z) : constopt_func := fun ir info =>
  if known info (rs1 ir) && known info (rs2 ir) then
    v ← f (val info (rs1 ir)) (val info (rs2 ir));
    fold_to o v (rd ir) ir (set_known (rd ir) true info)
  else kill_rd ir info.
(** The in-place folders of RVC: register [r] is source and destination; nothing
    changes when it is not known. *)
Definition fold_inplace (r : rv_insn -> Z) (f : Z -> rv_insn -> option Z) : constopt_func :=
  fun ir info =>
  if known info (r ir) then
    v ← f (val info (r ir)) ir;
    fold_to rv_insn_clui v (r ir) (set_rd (r ir) ir) info
  else Some (ir, info).

(** * RV32I *)

Definition constopt_nop := keep.
Definition constopt_lui : constopt_func := fun ir info =>
  Some (ir, set_val (rd ir) (u32 (imm ir)) (set_known (rd ir) true info)).
Definition constopt_auipc : constopt_func := fun ir info =>
  fold_to rv_insn_lui (imm ir + pc ir) (rd ir) ir (set_known (rd ir) true info).
Definition constopt_jal : constopt_func := fun ir info =>
  Some (ir, if truth (rd ir)
            then set_val (rd ir) (pc ir +u 4) (set_known (rd ir) true info) else info).
Definition constopt_jalr : constopt_func := fun ir info =>
  Some (ir, if truth (rd ir)
            then set_val (rd ir) (pc ir +u 4) (set_known (rd ir) true info) else info).

(** [OPT_BRANCH_FUNC]; the condition is the one under which the branch falls
    through. *)
Definition OPT_BRANCH_FUNC (not_taken : Z -> Z -> bool) : constopt_func := fun ir info =>
  if known info (rs1 ir) && known info (rs2 ir) then
    let ir := if not_taken (val info (rs1 ir)) (val info (rs2 ir)) then set_imm 4 ir else ir in
    Some (set_opcode rv_insn_jal ir, info)
  else Some (ir, info).
Definition constopt_beq := OPT_BRANCH_FUNC (fun a b => negb (a =? b)).
Definition constopt_bne := OPT_BRANCH_FUNC (fun a b => a =? b).
Definition constopt_blt := OPT_BRANCH_FUNC (fun a b => s32 a >=? s32 b).
Definition constopt_bge := OPT_BRANCH_FUNC (fun a b => s32 a <? s32 b).
Definition constopt_bltu := OPT_BRANCH_FUNC (fun a b => a >=? b).
Definition constopt_bgeu := OPT_BRANCH_FUNC (fun a b => a <? b).

Definition constopt_lb := kill_rd.
Definition constopt_lh := kill_rd.
Definition constopt_lw := kill_rd.
Definition constopt_lbu := kill_rd.
Definition constopt_lhu := kill_rd.
Definition constopt_sb := keep.
Definition constopt_sh := keep.
Definition constopt_sw := keep.

Definition constopt_addi := fold1 rv_insn_lui (fun c i => i + c).
Definition constopt_slti := fold1 rv_insn_lui (fun c i => if s32 c <? i then 1 else 0).
Definition constopt_sltiu := fold1 rv_insn_lui (fun c i => if c <? u32 i then 1 else 0).
Definition constopt_xori := fold1 rv_insn_lui (fun c i => u32 i ^u c).
Definition constopt_ori := fold1 rv_insn_lui (fun c i => u32 i |u c).
Definition constopt_andi := fold1 rv_insn_lui (fun c i => u32 i &u c).
Definition constopt_slli := fold1 rv_insn_lui (fun c i => u32 (c <<u (i &u 0x1f))).
Definition constopt_srli := fold1 rv_insn_lui (fun c i => c >>u (i &u 0x1f)).
Definition constopt_srai := fold1 rv_insn_lui (fun c i => s32 c >>u (i &u 0x1f)).

Definition constopt_add := fold2 rv_insn_lui (fun a b => Some (a +u b)).
Definition constopt_sub := fold2 rv_insn_lui (fun a b => Some (a -u b)).
Definition constopt_sll := fold2 rv_insn_lui (fun a b => Some (u32 (a <<u (b &u 0x1f)))).
Definition constopt_slt := fold2 rv_insn_lui (fun a b => Some (if s32 a <? s32 b then 1 else 0)).
Definition constopt_sltu := fold2 rv_insn_lui (fun a b => Some (if a <? b then 1 else 0)).
Definition constopt_xor := fold2 rv_insn_lui (fun a b => Some (s32 a ^u s32 b)).
Definition constopt_srl := fold2 rv_insn_lui (fun a b => Some (a >>u (b &u 0x1f))).
Definition constopt_sra := fold2 rv_insn_lui (fun a b => Some (s32 a >>u (b &u 0x1f))).
Definition constopt_or := fold2 rv_insn_lui (fun a b => Some (s32 a |u s32 b)).
Definition constopt_and := fold2 rv_insn_lui (fun a b => Some (s32 a &u s32 b)).

Definition constopt_fence := keep.
Definition constopt_ecall := keep.
Definition constopt_ebreak := keep.
Definition constopt_wfi := keep.
Definition constopt_uret := keep.
Definition constopt_hret := keep.
Definition constopt_mret := keep.
Definition constopt_sfencevma := keep.
Definition constopt_fencei := keep.
Definition constopt_csrrw := kill_rd.
Definition constopt_csrrs := kill_rd.
Definition constopt_csrrc := kill_rd.
Definition constopt_csrrwi := kill_rd.
Definition constopt_csrrsi := kill_rd.
Definition constopt_csrrci := kill_rd.

(** * RV32M *)

Definition constopt_mul := fold2 rv_insn_lui (fun a b => Some (u64 (s32 a * s32 b) &u 0xffffffff)).
Definition constopt_mulh := fold2 rv_insn_lui (fun a b => Some (u64 (s32 a * s32 b) >>u 32)).
Definition constopt_mulhsu := fold2 rv_insn_lui (fun a b => Some (u64 (s32 a * b) >>u 32)).
(** The product is an [int64_t] and overflows from 2^63 on. *)
Definition constopt_mulhu := fold2 rv_insn_lui
  (fun a b => if a * b <? 0x8000000000000000 then Some ((a * b) >>u 32) else None).
Definition constopt_div := fold2 rv_insn_lui (fun a b =>
  Some (if negb (truth (s32 b)) then 0xffffffff
        else if (s32 b =? -1) && (a =? 0x80000000) then a
        else u32 (Z.quot (s32 a) (s32 b)))).
Definition constopt_divu := fold2 rv_insn_lui (fun a b =>
  Some (if negb (truth b) then 0xffffffff else a / b)).
Definition constopt_rem := fold2 rv_insn_lui (fun a b =>
  Some (if negb (truth (s32 b)) then s32 a
        else if (s32 b =? -1) && (a =? 0x80000000) then 0
        else Z.rem (s32 a) (s32 b))).
Definition constopt_remu := fold2 rv_insn_lui (fun a b =>
  Some (if negb (truth b) then a else a mod b)).

(** * RV32A: [sc.w] leaves the table as it is *)

Definition constopt_lrw := kill_rd_nz.
Definition constopt_scw := keep.
Definition constopt_amoswapw := kill_rd_nz.
Definition constopt_amoaddw := kill_rd_nz.
Definition constopt_amoxorw := kill_rd_nz.
Definition constopt_amoandw := kill_rd_nz.
Definition constopt_amoorw := kill_rd_nz.
Definition constopt_amominw := kill_rd_nz.
Definition constopt_amomaxw := kill_rd_nz.
Definition constopt_amominuw := kill_rd_nz.
Definition constopt_amomaxuw := kill_rd_nz.

(** * RV32F *)

Definition constopt_flw := keep.
Definition constopt_fsw := keep.
Definition constopt_fmadds := keep.
Definition constopt_fmsubs := keep.
Definition constopt_fnmsubs := keep.
Definition constopt_fnmadds := keep.
Definition constopt_fadds := keep.
Definition constopt_fsubs := keep.
Definition constopt_fmuls := keep.
Definition constopt_fdivs := keep.
Definition constopt_fsqrts := keep.
Definition constopt_fsgnjs := keep.
Definition constopt_fsgnjns := keep.
Definition constopt_fsgnjxs := keep.
Definition constopt_fmins := keep.
Definition constopt_fmaxs := keep.
Definition constopt_fcvtws := kill_rd_nz.
Definition constopt_fcvtwus := kill_rd_nz.
Definition constopt_fmvxw := kill_rd_nz.
Definition constopt_feqs := kill_rd_nz.
Definition constopt_flts := kill_rd_nz.
Definition constopt_fles := kill_rd_nz.
Definition constopt_fclasss := kill_rd_nz.
Definition constopt_fcvtsw := keep.
Definition constopt_fcvtswu := keep.
Definition constopt_fmvwx := keep.

(** * RV32C *)

Definition constopt_caddi4spn : constopt_func := fun ir info =>
  if known info rv_reg_sp then
    fold_to rv_insn_clui (val info rv_reg_sp + u16 (imm ir)) (rd ir) ir
      (set_known (rd ir) true info)
  else kill_rd ir info.
Definition constopt_clw := kill_rd.
Definition constopt_csw := keep.
Definition constopt_cnop := keep.
Definition constopt_caddi := fold_inplace rd (fun c ir => Some (c + s16 (imm ir))).
Definition constopt_cjal : constopt_func := fun ir info =>
  Some (ir, set_val rv_reg_ra (pc ir +u 2) (set_known rv_reg_ra true info)).
Definition constopt_cli : constopt_func := fun ir info =>
  Some (ir, set_val (rd ir) (u32 (imm ir)) (set_known (rd ir) true info)).
Definition constopt_caddi16sp := fold_inplace rd (fun c ir => Some (c + imm ir)).
Definition constopt_clui : constopt_func := fun ir info =>
  Some (ir, set_val (rd ir) (u32 (imm ir)) (set_known (rd ir) true info)).
Definition constopt_csrli := fold_inplace rs1 (fun c ir => shr32 c (shamt ir)).
Definition constopt_csrai := fold_inplace rs1 (fun c ir =>
  let mask := 0x80000000 &u c in
  v ← shr32 c (shamt ir);
  Some (foldl (fun v i => v |u (mask >>u Z.of_nat i)) v (seq 0 (Z.to_nat (shamt ir))))).
Definition constopt_candi := fold_inplace rs1 (fun c ir => Some (c &u u32 (imm ir))).
Definition constopt_csub := fold2 rv_insn_clui (fun a b => Some (a -u b)).
Definition constopt_cxor := fold2 rv_insn_clui (fun a b => Some (a ^u b)).
Definition constopt_cor := fold2 rv_insn_clui (fun a b => Some (a |u b)).
Definition constopt_cand := fold2 rv_insn_clui (fun a b => Some (a &u b)).
Definition constopt_cj := keep.
Definition constopt_cbeqz : constopt_func := fun ir info =>
  if known info (rs1 ir) then
    let ir := if truth (val info (rs1 ir)) then set_imm 2 ir else ir in
    Some (set_opcode rv_insn_cj ir, info)
  else Some (ir, info).
Definition constopt_cbnez : constopt_func := fun ir info =>
  if known info (rs1 ir) then
    let ir := if negb (truth (val info (rs1 ir))) then set_imm 2 ir else ir in
    Some (set_opcode rv_insn_cj ir, info)
  else Some (ir, info).
Definition constopt_cslli := fold_inplace rd (fun c ir => shl32 c (u8 (imm ir))).
Definition constopt_clwsp := kill_rd.
Definition constopt_cjr := keep.
Definition constopt_cmv : constopt_func := fun ir info =>
  if known info (rs2 ir) then
    fold_to rv_insn_clui (val info (rs2 ir)) (rd ir) ir (set_known (rd ir) true info)
  else kill_rd ir info.
Definition constopt_cebreak := keep.
(** The table entry written is that of [rd], not of [ra]. *)
Definition constopt_cjalr : constopt_func := fun ir info =>
  Some (ir, set_val (rd ir) (pc ir +u 2) (set_known rv_reg_ra true info)).
Definition constopt_cadd := fold2 rv_insn_clui (fun a b => Some (a +u b)).
Definition constopt_cswsp := keep.
Definition constopt_cflwsp := keep.
Definition constopt_cfswsp := keep.
Definition constopt_cflw := keep.
Definition constopt_cfsw := keep.

(** * Zba, Zbb, Zbc, Zbs *)

Definition constopt_sh1add := kill_rd_nz.
Definition constopt_sh2add := kill_rd_nz.
Definition constopt_sh3add := kill_rd_nz.
Definition constopt_andn := kill_rd_nz.
Definition constopt_orn := kill_rd_nz.
Definition constopt_xnor := kill_rd_nz.
Definition constopt_clz := kill_rd_nz.
Definition constopt_ctz := kill_rd_nz.
Definition constopt_cpop := kill_rd_nz.
Definition constopt_max := kill_rd_nz.
Definition constopt_maxu := kill_rd_nz.
Definition constopt_min := kill_rd_nz.
Definition constopt_minu := kill_rd_nz.
Definition constopt_sextb := kill_rd_nz.
Definition constopt_sexth := kill_rd_nz.
Definition constopt_zexth := kill_rd_nz.
Definition constopt_rol := kill_rd_nz.
Definition constopt_ror := kill_rd_nz.
Definition constopt_rori := kill_rd_nz.
Definition constopt_orcb := kill_rd_nz.
Definition constopt_rev8 := kill_rd_nz.
Definition constopt_clmul := kill_rd_nz.
Definition constopt_clmulh := kill_rd_nz.
Definition constopt_clmulr := kill_rd_nz.
Definition constopt_bclr := kill_rd_nz.
Definition constopt_bclri := kill_rd_nz.
Definition constopt_bext := kill_rd_nz.
Definition constopt_bexti := kill_rd_nz.
Definition constopt_binv := kill_rd_nz.
Definition constopt_binvi := kill_rd_nz.
Definition constopt_bset := kill_rd_nz.
Definition constopt_bseti := kill_rd_nz.

(** [constopt_table]; it has no entry for the fused opcodes, which do not exist
    before the fusion pass. *)
Definition constopt_table (o : opcode_t) : constopt_func :=
  match o with
  | rv_insn_nop => constopt_nop | rv_insn_lui => constopt_lui
  | rv_insn_auipc => constopt_auipc | rv_insn_jal => constopt_jal
  | rv_insn_jalr => constopt_jalr | rv_insn_beq => constopt_beq
  | rv_insn_bne => constopt_bne | rv_insn_blt => constopt_blt | rv_insn_bge => constopt_bge
  | rv_insn_bltu => constopt_bltu | rv_insn_bgeu => constopt_bgeu
  | rv_insn_lb => constopt_lb | rv_insn_lh => constopt_lh | rv_insn_lw => constopt_lw
  | rv_insn_lbu => constopt_lbu | rv_insn_lhu => constopt_lhu | rv_insn_sb => constopt_sb
  | rv_insn_sh => constopt_sh | rv_insn_sw => constopt_sw | rv_insn_addi => constopt_addi
  | rv_insn_slti => constopt_slti | rv_insn_sltiu => constopt_sltiu
  | rv_insn_xori => constopt_xori | rv_insn_ori => constopt_ori
  | rv_insn_andi => constopt_andi | rv_insn_slli => constopt_slli
  | rv_insn_srli => constopt_srli | rv_insn_srai => constopt_srai
  | rv_insn_add => constopt_add | rv_insn_sub => constopt_sub | rv_insn_sll => constopt_sll
  | rv_insn_slt => constopt_slt | rv_insn_sltu => constopt_sltu
  | rv_insn_xor => constopt_xor | rv_insn_srl => constopt_srl | rv_insn_sra => constopt_sra
  | rv_insn_or => constopt_or | rv_insn_and => constopt_and
  | rv_insn_fence => constopt_fence | rv_insn_ecall => constopt_ecall
  | rv_insn_ebreak => constopt_ebreak | rv_insn_wfi => constopt_wfi
  | rv_insn_uret => constopt_uret | rv_insn_hret => constopt_hret
  | rv_insn_mret => constopt_mret | rv_insn_sfencevma => constopt_sfencevma
  | rv_insn_fencei => constopt_fencei | rv_insn_csrrw => constopt_csrrw
  | rv_insn_csrrs => constopt_csrrs | rv_insn_csrrc => constopt_csrrc
  | rv_insn_csrrwi => constopt_csrrwi | rv_insn_csrrsi => constopt_csrrsi
  | rv_insn_csrrci => constopt_csrrci | rv_insn_sh1add => constopt_sh1add
  | rv_insn_sh2add => constopt_sh2add | rv_insn_sh3add => constopt_sh3add
  | rv_insn_andn => constopt_andn | rv_insn_orn => constopt_orn
  | rv_insn_xnor => constopt_xnor | rv_insn_clz => constopt_clz
  | rv_insn_ctz => constopt_ctz | rv_insn_cpop => constopt_cpop
  | rv_insn_max => constopt_max | rv_insn_maxu => constopt_maxu
  | rv_insn_min => constopt_min | rv_insn_minu => constopt_minu
  | rv_insn_sextb => constopt_sextb | rv_insn_sexth => constopt_sexth
  | rv_insn_zexth => constopt_zexth | rv_insn_rol => constopt_rol
  | rv_insn_ror => constopt_ror | rv_insn_rori => constopt_rori
  | rv_insn_orcb => constopt_orcb | rv_insn_rev8 => constopt_rev8
  | rv_insn_clmul => constopt_clmul | rv_insn_clmulh => constopt_clmulh
  | rv_insn_clmulr => constopt_clmulr | rv_insn_bclr => constopt_bclr
  | rv_insn_bclri => constopt_bclri | rv_insn_bext => constopt_bext
  | rv_insn_bexti => constopt_bexti | rv_insn_binv => constopt_binv
  | rv_insn_binvi => constopt_binvi | rv_insn_bset => constopt_bset
  | rv_insn_bseti => constopt_bseti | rv_insn_mul => constopt_mul
  | rv_insn_mulh => constopt_mulh | rv_insn_mulhsu => constopt_mulhsu
  | rv_insn_mulhu => constopt_mulhu | rv_insn_div => constopt_div
  | rv_insn_divu => constopt_divu | rv_insn_rem => constopt_rem
  | rv_insn_remu => constopt_remu | rv_insn_lrw => constopt_lrw
  | rv_insn_scw => constopt_scw | rv_insn_amoswapw => constopt_amoswapw
  | rv_insn_amoaddw => constopt_amoaddw | rv_insn_amoxorw => constopt_amoxorw
  | rv_insn_amoandw => constopt_amoandw | rv_insn_amoorw => constopt_amoorw
  | rv_insn_amominw => constopt_amominw | rv_insn_amomaxw => constopt_amomaxw
  | rv_insn_amominuw => constopt_amominuw | rv_insn_amomaxuw => constopt_amomaxuw
  | rv_insn_flw => constopt_flw | rv_insn_fsw => constopt_fsw
  | rv_insn_fmadds => constopt_fmadds | rv_insn_fmsubs => constopt_fmsubs
  | rv_insn_fnmsubs => constopt_fnmsubs | rv_insn_fnmadds => constopt_fnmadds
  | rv_insn_fadds => constopt_fadds | rv_insn_fsubs => constopt_fsubs
  | rv_insn_fmuls => constopt_fmuls | rv_insn_fdivs => constopt_fdivs
  | rv_insn_fsqrts => constopt_fsqrts | rv_insn_fsgnjs => constopt_fsgnjs
  | rv_insn_fsgnjns => constopt_fsgnjns | rv_insn_fsgnjxs => constopt_fsgnjxs
  | rv_insn_fmins => constopt_fmins | rv_insn_fmaxs => constopt_fmaxs
  | rv_insn_fcvtws => constopt_fcvtws | rv_insn_fcvtwus => constopt_fcvtwus
  | rv_insn_fmvxw => constopt_fmvxw | rv_insn_feqs => constopt_feqs
  | rv_insn_flts => constopt_flts | rv_insn_fles => constopt_fles
  | rv_insn_fclasss => constopt_fclasss | rv_insn_fcvtsw => constopt_fcvtsw
  | rv_insn_fcvtswu => constopt_fcvtswu | rv_insn_fmvwx => constopt_fmvwx
  | rv_insn_caddi4spn => constopt_caddi4spn | rv_insn_clw => constopt_clw
  | rv_insn_csw => constopt_csw | rv_insn_cnop => constopt_cnop
  | rv_insn_caddi => constopt_caddi | rv_insn_cjal => constopt_cjal
  | rv_insn_cli => constopt_cli | rv_insn_caddi16sp => constopt_caddi16sp
  | rv_insn_clui => constopt_clui | rv_insn_csrli => constopt_csrli
  | rv_insn_csrai => constopt_csrai | rv_insn_candi => constopt_candi
  | rv_insn_csub => constopt_csub | rv_insn_cxor => constopt_cxor
  | rv_insn_cor => constopt_cor | rv_insn_cand => constopt_cand | rv_insn_cj => constopt_cj
  | rv_insn_cbeqz => constopt_cbeqz | rv_insn_cbnez => constopt_cbnez
  | rv_insn_cslli => constopt_cslli | rv_insn_clwsp => constopt_clwsp
  | rv_insn_cjr => constopt_cjr | rv_insn_cmv => constopt_cmv
  | rv_insn_cebreak => constopt_cebreak | rv_insn_cjalr => constopt_cjalr
  | rv_insn_cadd => constopt_cadd | rv_insn_cswsp => constopt_cswsp
  | rv_insn_cflwsp => constopt_cflwsp | rv_insn_cfswsp => constopt_cfswsp
  | rv_insn_cflw => constopt_cflw | rv_insn_cfsw => constopt_cfsw
  | _ => fun _ _ => None
  end.

(** * The pass over a block *)

Fixpoint optimize_from (irs : list rv_insn) (info : constopt_info) : option (list rv_insn) :=
  match irs with
  | [] => Some []
  | ir :: rest =>
    '(ir, info) ← constopt_table (opcode ir) ir info;
    rest ← optimize_from rest info;
    Some (ir :: rest)
  end.

Definition optimize_constant (irs : list rv_insn) : option (list rv_insn) :=
  optimize_from irs info_init.
