(* ===== verification/MachineFacts.v ===== *)
(** Lemmas on the machine state: register and memory access, the range invariant of
    the state, and the equivalence of states up to the branch direction flag. *)

From S2P Require Import Prelude.
From S2P Require Import Opcode.
From S2P Require Import Decode.
From S2P Require Import Machine.
From S2P Require Import Interp.

(** * Registers *)

Definition wf_regs (s : riscv) : Prop := length (X s) = N_RV_REGS /\ Forall is_u32 (X s).
Definition is_reg (r : Z) : Prop := 0 <= r < 32.

Create HintDb machine discriminated.

Lemma nth_insert_eq {A} (l : list A) i v d : (i < length l)%nat -> nth i (<[i := v]> l) d = v.
Proof. intros. by rewrite nth_lookup, list_lookup_insert_eq. Qed.
Lemma nth_insert_ne {A} (l : list A) i j v d : i <> j -> nth j (<[i := v]> l) d = nth j l d.
Proof. intros. by rewrite !nth_lookup, list_lookup_insert_ne. Qed.

Lemma reg_set_reg_eq s r v : length (X s) = N_RV_REGS -> is_reg r -> reg (set_reg r v s) r = v.
Proof.
  intros HX Hr. unfold reg, set_reg. cbn. apply nth_insert_eq. unfold is_reg, N_RV_REGS in *. lia.
Qed.
Lemma reg_set_reg_ne s r r' v :
  Z.to_nat r <> Z.to_nat r' -> reg (set_reg r v s) r' = reg s r'.
Proof. intros. unfold reg, set_reg. cbn. by apply nth_insert_ne. Qed.

Lemma reg_is_u32 s r : Forall is_u32 (X s) -> is_u32 (reg s r).
Proof.
  intros H. unfold reg. rewrite nth_lookup. destruct (X s !! Z.to_nat r) eqn:E; cbn.
  - by eapply Forall_lookup_1 in H.
  - unfold is_u32. lia.
Qed.
Lemma set_reg_wf s r v : wf_regs s -> is_u32 v -> wf_regs (set_reg r v s).
Proof.
  intros [HL HF] Hv. split; cbn; [by rewrite length_insert|].
  by apply Forall_insert.
Qed.

(** Overwriting a register twice keeps the second value. *)
Lemma set_reg_twice s r v w : set_reg r w (set_reg r v s) = set_reg r w s.
Proof. unfold set_reg. cbn. by rewrite list_insert_insert_eq. Qed.
Lemma set_reg_comm s r r' v w :
  Z.to_nat r <> Z.to_nat r' -> set_reg r v (set_reg r' w s) = set_reg r' w (set_reg r v s).
Proof. intros. unfold set_reg. cbn. by rewrite list_insert_insert_ne. Qed.

(** * CSR fields *)

Create Rewrite HintDb csr.
Lemma csr_set_csr_eq f v s : csr (set_csr f v s) f = v.
Proof. cbn. by rewrite decide_True. Qed.
Lemma csr_set_csr_ne f g v s : g <> f -> csr (set_csr f v s) g = csr s g.
Proof. intros. cbn. by rewrite decide_False. Qed.
Lemma priv_set_csr f v s : priv_mode (set_csr f v s) = priv_mode s.
Proof. done. Qed.
Lemma PC_set_csr f v s : PC (set_csr f v s) = PC s.
Proof. done. Qed.
Lemma csr_set_priv m s f : csr (set_priv_mode m s) f = csr s f.
Proof. done. Qed.
Lemma csr_set_PC p s f : csr (set_PC p s) f = csr s f.
Proof. done. Qed.
Lemma csr_set_cycle c s f : csr (set_csr_cycle c s) f = csr s f.
Proof. done. Qed.
Lemma csr_set_compressed b s f : csr (set_compressed b s) f = csr s f.
Proof. done. Qed.
#[export] Hint Rewrite csr_set_csr_eq csr_set_priv csr_set_PC csr_set_cycle
  csr_set_compressed priv_set_csr PC_set_csr : csr.
#[export] Hint Rewrite csr_set_csr_ne using discriminate : csr.

(** * States up to [is_branch_taken]

    The flag only tells [rv_step] which of two links to set after a conditional
    branch. *)
Definition erase (s : riscv) : riscv := set_is_branch_taken false s.
Definition erase_step (r : step_result) : step_result :=
  match r with
  | Go_next s c p => Go_next (erase s) c p
  | Go_ir t s c p => Go_ir t (erase s) c p
  | Go_indirect s c p => Go_indirect (erase s) c p
  | Ret b s => Ret b (erase s)
  | Crash => Crash
  end.

(** [r1 ≡ r2] on step results: equal up to the flag. *)
#[export] Instance step_equiv : Equiv step_result := fun r1 r2 => erase_step r1 = erase_step r2.
#[export] Instance step_equivalence : Equivalence (≡@{step_result}).
Proof.
  split; unfold equiv, step_equiv.
  - done.
  - by intros ?? ->.
  - intros ??? -> ->. done.
Qed.

(** * What a handler body leaves alone *)

(** The integer register an opcode writes, if any. *)
Definition dest_reg (o : opcode_t) (ir : rv_insn) : option Z :=
  match o with
  | rv_insn_nop => Some 0
  | rv_insn_csrli | rv_insn_csrai | rv_insn_candi => Some (rs1 ir)
  | rv_insn_beq | rv_insn_bne | rv_insn_blt | rv_insn_bge | rv_insn_bltu | rv_insn_bgeu
  | rv_insn_sb | rv_insn_sh | rv_insn_sw | rv_insn_fence | rv_insn_ecall | rv_insn_ebreak
  | rv_insn_wfi | rv_insn_uret | rv_insn_hret | rv_insn_mret | rv_insn_sfencevma
  | rv_insn_fencei | rv_insn_flw | rv_insn_fsw | rv_insn_fmadds | rv_insn_fmsubs
  | rv_insn_fnmsubs | rv_insn_fnmadds | rv_insn_fadds | rv_insn_fsubs | rv_insn_fmuls
  | rv_insn_fdivs | rv_insn_fsqrts | rv_insn_fsgnjs | rv_insn_fsgnjns | rv_insn_fsgnjxs
  | rv_insn_fmins | rv_insn_fmaxs | rv_insn_fcvtsw | rv_insn_fcvtswu | rv_insn_fmvwx
  | rv_insn_csw | rv_insn_cnop | rv_insn_cj | rv_insn_cbeqz | rv_insn_cbnez | rv_insn_cjr
  | rv_insn_cebreak | rv_insn_cswsp | rv_insn_cflwsp | rv_insn_cfswsp | rv_insn_cflw
  | rv_insn_cfsw => None
  | rv_insn_cjal | rv_insn_cjalr => Some rv_reg_ra
  | _ => Some (rd ir)
  end.

Section Frame.
Context `{riscv_io} `{softfloat}.

Lemma X_csr_access upd s c cycle : X (fst (csr_access upd s c cycle)) = X s.
Proof.
  unfold csr_access.
  assert (X (csr_sync_cycle s c cycle) = X s) as E1.
  { unfold csr_sync_cycle. repeat case_match; done. }
  assert (forall s', X (fst (csr_get_ptr s' c)) = X s') as E2.
  { intros s'. unfold csr_get_ptr, update_time. repeat case_match; done. }
  specialize (E2 (csr_sync_cycle s c cycle)). rewrite <- E1, <- E2.
  destruct (csr_get_ptr _ c) as [s1 [p|]]; cbn; [|done]. by destruct p.
Qed.

Lemma X_set_fflag s : X (set_fflag s) = X s.
Proof. unfold set_fflag. repeat case_match; done. Qed.
Lemma X_set_rounding_mode m s s' : set_rounding_mode m s = Some s' -> X s' = X s.
Proof. unfold set_rounding_mode. intros. repeat case_match; simplify_eq; done. Qed.

Lemma reg_same_X s s' r : X s' = X s -> reg s' r = reg s r.
Proof. unfold reg. by intros ->. Qed.
Lemma ram_write_X n s a v m : mem_write n (mem s) a v = Some m -> X (set_mem m s) = X s.
Proof. done. Qed.
Lemma ram_write_w_X s a v s' : ram_write_w s a v = Some s' -> X s' = X s.
Proof. unfold ram_write_w. intros (m & _ & [= <-])%bind_Some. done. Qed.
Lemma ram_write_s_X s a v s' : ram_write_s s a v = Some s' -> X s' = X s.
Proof. unfold ram_write_s. intros (m & _ & [= <-])%bind_Some. done. Qed.
Lemma ram_write_b_X s a v s' : ram_write_b s a v = Some s' -> X s' = X s.
Proof. unfold ram_write_b. intros (m & _ & [= <-])%bind_Some. done. Qed.
Lemma reg_link v ir s r : Z.to_nat (rd ir) <> Z.to_nat r -> reg (link v ir s) r = reg s r.
Proof. intros. unfold link. case_match; [|done]. by apply reg_set_reg_ne. Qed.

Lemma misalign_Nextop mask c b s cycle pc a k s' pc' :
  RV_EXC_MISALIGN_HANDLER mask c b s cycle pc a k = Nextop s' pc' -> k = Nextop s' pc'.
Proof. unfold RV_EXC_MISALIGN_HANDLER. repeat case_match; done. Qed.
Lemma X_minmax (c : bool) a x y s s' b :
  (if c then (true, s)
   else let '(eq, fl) := f32_eq x y in (eq && a, raise_flags fl s)) = (b, s') -> X s' = X s.
Proof. repeat case_match; intros; simplify_eq; done. Qed.
Lemma X_csr upd s c cycle s' v : csr_access upd s c cycle = (s', v) -> X s' = X s.
Proof. intros E. pose proof (X_csr_access upd s c cycle) as HX. by rewrite E in HX. Qed.
Lemma reg_set_fflag s r : reg (set_fflag s) r = reg s r.
Proof. apply reg_same_X, X_set_fflag. Qed.
Lemma Nextop_inj s p s' p' : Nextop s p = Nextop s' p' -> s = s' /\ p = p'.
Proof. by intros [= -> ->]. Qed.
End Frame.

(** Case analysis of an equation [body = Nextop s' pc']. *)
Ltac nextop_inv :=
  repeat match goal with
  | H : RV_EXC_MISALIGN_HANDLER _ _ _ _ _ _ _ _ = Nextop _ _ |- _ =>
    apply misalign_Nextop in H; cbv zeta in H
  | H : Nextop _ _ = Nextop _ _ |- _ => apply Nextop_inj in H as [<- <-]
  | H : match ?e with _ => _ end = Nextop _ _ |- _ =>
    destruct e eqn:?; try discriminate H
  end.

Ltac head_of f := lazymatch f with ?g _ => head_of g | _ => f end.
Ltac unfold_body :=
  match goal with
  | H : ?f = Nextop _ _ |- _ =>
    lazymatch f with
    | RV_EXC_MISALIGN_HANDLER _ _ _ _ _ _ _ _ => fail
    | match _ with _ => _ end => fail
    | _ => let h := head_of f in unfold h in H; cbv zeta beta in H
    end
  end.
Ltac body_cases := cbn [insn_body] in *; repeat (progress nextop_inv || unfold_body); try discriminate.

(** Turn the equations of the intermediate states into [X s2 = X s1]. *)
Ltac frames :=
  repeat match goal with
  | H : ram_write_w _ _ _ = Some _ |- _ => apply ram_write_w_X in H
  | H : ram_write_s _ _ _ = Some _ |- _ => apply ram_write_s_X in H
  | H : ram_write_b _ _ _ = Some _ |- _ => apply ram_write_b_X in H
  | H : set_rounding_mode _ _ = Some _ |- _ => apply X_set_rounding_mode in H
  | H : csr_csrrw _ _ _ _ = _ |- _ => apply X_csr in H
  | H : csr_csrrs _ _ _ _ = _ |- _ => apply X_csr in H
  | H : csr_csrrc _ _ _ _ = _ |- _ => apply X_csr in H
  | H : (if _ then (true, _) else _) = _ |- _ => apply X_minmax in H
  end.
(** Follow the frame hypotheses back to the initial state. *)
Ltac same_X :=
  repeat match goal with
  | E : X ?s2 = X ?s1 |- reg ?t ?r = _ =>
    transitivity (reg s1 r); [exact (reg_same_X _ _ _ E)|]; clear E
  end;
  rewrite ?reg_link by assumption; repeat case_match; reflexivity.

(** A handler body that falls through leaves the program counter to [RVOP] and
    writes at most one integer register. *)
Lemma body_frame `{riscv_io} `{softfloat} o s ir cycle pc s' pc' :
  insn_body o s ir cycle pc = Nextop s' pc' ->
  pc' = pc /\
  forall r, (forall d, dest_reg o ir = Some d -> Z.to_nat d <> Z.to_nat r) ->
    reg s' r = reg s r.
Proof.
  intros E. destruct o; body_cases; (split; [reflexivity|]); intros r' Hd;
    cbn [dest_reg] in Hd; try specialize (Hd _ eq_refl); frames;
    rewrite ?reg_set_reg_ne, ?reg_set_fflag, ?reg_link by exact Hd;
    first [reflexivity | same_X].
Qed.

(** * Register [x0] *)

(** Opcodes whose handler tests [rd] before it writes the result. *)
Definition guards_rd (o : opcode_t) : bool :=
  match o with
  | rv_insn_lrw | rv_insn_amoswapw | rv_insn_amoaddw | rv_insn_amoxorw | rv_insn_amoandw
  | rv_insn_amoorw | rv_insn_amominw | rv_insn_amomaxw | rv_insn_amominuw
  | rv_insn_amomaxuw | rv_insn_fcvtws | rv_insn_fcvtwus | rv_insn_fmvxw | rv_insn_feqs
  | rv_insn_flts | rv_insn_fles | rv_insn_fclasss => true
  | _ => false
  end.
Lemma link_zero v ir s : truth (rd ir) = false -> link v ir s = s.
Proof. unfold link. by intros ->. Qed.

(** A guarded handler with [rd = x0] changes no integer register. *)
Lemma guarded_frame `{riscv_io} `{softfloat} s ir cycle pc s' p r :
  guards_rd (opcode ir) = true -> truth (rd ir) = false ->
  insn_body (opcode ir) s ir cycle pc = Nextop s' p -> reg s' r = reg s r.
Proof.
  intros G T E. destruct (opcode ir); try discriminate G; body_cases; frames;
    rewrite ?reg_set_fflag, ?(link_zero _ _ _ T);
    repeat match goal with
    | E : context [link _ ir _] |- _ => rewrite (link_zero _ _ _ T) in E
    end; first [reflexivity | congruence | same_X].
Qed.

(** * Guest RAM is a memory *)

Lemma byte_at_insert b z a v a' :
  byte_at (mk_memory (<[a := v]> b) z) a' = if decide (a = a') then v else byte_at (mk_memory b z) a'.
Proof.
  unfold byte_at. cbn. destruct (decide (a = a')) as [->|].
  - by rewrite lookup_insert_eq.
  - by rewrite lookup_insert_ne.
Qed.
Lemma store_le_size n : forall m a v, mem_size (store_le m a n v) = mem_size m.
Proof. induction n as [|n IH]; intros; cbn [store_le]; [done|]. by rewrite IH. Qed.
(** The bytes of a stored value. *)
Lemma byte_store n : forall m a v x,
  byte_at (store_le m a n v) x
  = if decide (a <= x < a + Z.of_nat n) then v / 0x100 ^ (x - a) mod 0x100 else byte_at m x.
Proof.
  induction n as [|n IH]; intros m a v x; cbn [store_le].
  { by rewrite decide_False by lia. }
  rewrite IH. destruct (decide (x = a)) as [->|Hne].
  - rewrite decide_False by lia. rewrite decide_True by lia. unfold byte_at. cbn.
    rewrite lookup_insert_eq, Z.sub_diag. cbn. by rewrite Z.div_1_r.
  - destruct (decide (a + 1 <= x < a + 1 + Z.of_nat n)).
    + rewrite decide_True by lia. rewrite Z.div_div by lia. f_equal. f_equal.
      replace (x - a) with (Z.succ (x - (a + 1))) by lia. by rewrite Z.pow_succ_r by lia.
    + rewrite decide_False by lia. unfold byte_at. cbn. by rewrite lookup_insert_ne by done.
Qed.
Lemma load_bytes n : forall m a v,
  (forall k, 0 <= k < Z.of_nat n -> byte_at m (a + k) = v / 0x100 ^ k mod 0x100) ->
  load_le m a n = v mod 0x100 ^ Z.of_nat n.
Proof.
  induction n as [|n IH]; intros m a v Hb; cbn [load_le].
  { by rewrite Z.mod_1_r. }
  rewrite (IH m (a + 1) (v / 0x100)).
  - rewrite <- (Z.add_0_r a) at 1. rewrite Hb by lia. rewrite Z.pow_0_r, Z.div_1_r.
    replace (Z.of_nat (S n)) with (Z.succ (Z.of_nat n)) by lia.
    rewrite Z.pow_succ_r, Z.rem_mul_r by lia. done.
  - intros k Hk. replace (a + 1 + k) with (a + Z.succ k) by lia. rewrite Hb by lia.
    rewrite Z.pow_succ_r, Z.div_div by lia. done.
Qed.
Lemma load_same n : forall m m' a,
  (forall x, a <= x < a + Z.of_nat n -> byte_at m x = byte_at m' x) -> load_le m a n = load_le m' a n.
Proof.
  induction n as [|n IH]; intros m m' a Hb; cbn [load_le]; [done|].
  rewrite Hb by lia. f_equal. f_equal. apply IH. intros x Hx. apply Hb. lia.
Qed.

Lemma mem_write_read n m a v m' :
  mem_write n m a v = Some m' ->
  mem_size m' = mem_size m /\
  mem_read n m' a = Some (v mod 0x100 ^ Z.of_nat n) /\
  forall k b, b + Z.of_nat k <= a \/ a + Z.of_nat n <= b -> mem_read k m' b = mem_read k m b.
Proof.
  unfold mem_write, mem_read. case_match eqn:E; [|done]. intros [= <-].
  assert (forall b k, GUEST_RAM_CONTAINS (store_le m a n v) b k = GUEST_RAM_CONTAINS m b k) as Hc
    by (intros; unfold GUEST_RAM_CONTAINS; by rewrite store_le_size).
  split_and!; [apply store_le_size| |].
  - rewrite Hc, E. f_equal. apply load_bytes. intros k Hk. rewrite byte_store, decide_True by lia.
    by replace (a + k - a) with k by lia.
  - intros k b Hd. rewrite Hc. case_match; [|done]. f_equal. apply load_same. intros x Hx.
    by rewrite byte_store, decide_False by lia.
Qed.

(** The bytes of a memory are bytes. *)
Definition mem_bytes (m : memory_t) : Prop := forall a, is_u8 (byte_at m a).
Lemma mem_bytes_empty size : mem_bytes (mk_memory ∅ size).
Proof. intros a. unfold byte_at. cbn. by rewrite lookup_empty. Qed.
Lemma mem_bytes_store n m a v : mem_bytes m -> mem_bytes (store_le m a n v).
Proof. intros Hm x. rewrite byte_store. case_decide; [|apply Hm]. unfold is_u8. mlia. Qed.
Lemma mem_write_bytes n m a v m' : mem_bytes m -> mem_write n m a v = Some m' -> mem_bytes m'.
Proof. intros Hm. unfold mem_write. case_match; [|done]. intros [= <-]. by apply mem_bytes_store. Qed.
Lemma load_le_word_range n m a : mem_bytes m -> 0 <= load_le m a n < 256 ^ Z.of_nat n.
Proof.
  intros Hm. revert a. induction n as [|n IH]; intros a; cbn [load_le]; [done|].
  specialize (IH (a + 1)). specialize (Hm a). unfold is_u8 in Hm.
  rewrite Nat2Z.inj_succ, Z.pow_succ_r by lia. lia.
Qed.
Lemma mem_read_word_range n m a v : mem_bytes m -> mem_read n m a = Some v -> 0 <= v < 256 ^ Z.of_nat n.
Proof. intros Hm. unfold mem_read. case_match; [|done]. intros [= <-]. by apply load_le_word_range. Qed.
