(* ===== verification/Invariant.v ===== *)
(** The range invariant of the emulator state: every object holds a value of its C
    type.  Each instruction handler keeps it, whatever way it ends, provided the
    embedder's callbacks and SoftFloat do. *)

From S2P Require Import Prelude.
From S2P Require Import Opcode.
From S2P Require Import Decode.
From S2P Require Import Machine.
From S2P Require Import Interp.
From S2P Require Import MachineFacts.

Record wf (s : riscv) : Prop := {
  wf_X : wf_regs s;
  wf_F : length (F s) = 32%nat /\ Forall is_u32 (F s);
  wf_PC : is_u32 (PC s);
  wf_csr : forall f, is_u32 (csr s f);
  wf_cycle : 0 <= csr_cycle s < 0x10000000000000000;
  wf_mem : forall a, is_u8 (byte_at (mem s) a) }.

(** The values an IR field can hold where a handler uses it as an operand. *)
Record wf_ir (ir : rv_insn) : Prop := {
  wf_rd : is_reg (rd ir);
  wf_rs1 : is_reg (rs1 ir);
  wf_rs2 : is_reg (rs2 ir);
  wf_imm : is_s32 (imm ir);
  wf_shamt : 0 <= shamt ir < 0x100 }.

(** SoftFloat results are values of their C types. *)
Class softfloat_laws `{softfloat} : Prop := {
  f32_add_range r a b : is_u32 (fst (f32_add r a b));
  f32_sub_range r a b : is_u32 (fst (f32_sub r a b));
  f32_mul_range r a b : is_u32 (fst (f32_mul r a b));
  f32_div_range r a b : is_u32 (fst (f32_div r a b));
  f32_sqrt_range r a : is_u32 (fst (f32_sqrt r a));
  f32_mulAdd_range r a b c : is_u32 (fst (f32_mulAdd r a b c));
  i32_to_f32_range r a : is_u32 (fst (i32_to_f32 r a));
  ui32_to_f32_range r a : is_u32 (fst (ui32_to_f32 r a)) }.

(** A callback leaves values of their C types behind. *)
Class riscv_io_laws `{riscv_io} : Prop := {
  on_ecall_wf s s' : on_ecall s = Some s' -> wf s -> wf s';
  on_ebreak_wf s s' : on_ebreak s = Some s' -> wf s -> wf s';
  on_trap_wf s s' : on_trap s = Some s' -> wf s -> wf s' }.

(** * The setters *)

#[export] Hint Resolve wf_X wf_F wf_PC wf_csr wf_cycle wf_mem : machine.
#[export] Hint Resolve wf_rd wf_rs1 wf_rs2 wf_imm wf_shamt : machine.

Lemma reg_u32 s r : wf s -> is_u32 (reg s r).
Proof. intros [[? ?]]. by apply reg_is_u32. Qed.
Lemma freg_u32 s r : wf s -> is_u32 (freg s r).
Proof.
  intros [_ [_ HF]]. unfold freg. rewrite nth_lookup. destruct (F s !! Z.to_nat r) eqn:E; cbn.
  - by eapply Forall_lookup_1 in HF.
  - unfold is_u32. lia.
Qed.

Lemma wf_set_reg s r v : wf s -> is_u32 v -> wf (set_reg r v s).
Proof. intros [] ?. split; try assumption. by apply set_reg_wf. Qed.
Lemma wf_set_freg s r v : wf s -> is_u32 v -> wf (set_freg r v s).
Proof.
  intros [? [HL HF]] ?. split; try assumption. split; cbn.
  - by rewrite length_insert.
  - by apply Forall_insert.
Qed.
Lemma wf_set_PC s v : wf s -> is_u32 v -> wf (set_PC v s).
Proof. intros [] ?. by split. Qed.
Lemma wf_set_csr s f v : wf s -> is_u32 v -> wf (set_csr f v s).
Proof. intros [] ?. split; try assumption. intros g. cbn. by destruct (decide _). Qed.
Lemma wf_set_csr_cycle s v :
  wf s -> 0 <= v < 0x10000000000000000 -> wf (set_csr_cycle v s).
Proof. intros [] ?. by split. Qed.
Lemma wf_set_mem s m : wf s -> (forall a, is_u8 (byte_at m a)) -> wf (set_mem m s).
Proof. intros [] ?. by split. Qed.
(** Fields the invariant says nothing about. *)
Lemma wf_set_priv_mode s v : wf s -> wf (set_priv_mode v s).
Proof. intros []. by split. Qed.
Lemma wf_set_timer s v : wf s -> wf (set_timer v s).
Proof. intros []. by split. Qed.
Lemma wf_set_compressed s v : wf s -> wf (set_compressed v s).
Proof. intros []. by split. Qed.
Lemma wf_set_is_branch_taken s v : wf s -> wf (set_is_branch_taken v s).
Proof. intros []. by split. Qed.
Lemma wf_set_last_pc s v : wf s -> wf (set_last_pc v s).
Proof. intros []. by split. Qed.
Lemma wf_set_roundingMode s v : wf s -> wf (set_softfloat_roundingMode v s).
Proof. intros []. by split. Qed.
Lemma wf_set_exceptionFlags s v : wf s -> wf (set_softfloat_exceptionFlags v s).
Proof. intros []. by split. Qed.

#[export] Hint Resolve reg_u32 freg_u32 wf_set_reg wf_set_freg wf_set_PC wf_set_csr
  wf_set_csr_cycle wf_set_priv_mode wf_set_timer wf_set_compressed wf_set_is_branch_taken
  wf_set_last_pc wf_set_roundingMode wf_set_exceptionFlags : machine.

(** * Memory *)

Lemma store_le_bytes n m a v :
  (forall a, is_u8 (byte_at m a)) -> forall a', is_u8 (byte_at (store_le m a n v) a').
Proof.
  revert m a v. induction n as [|n IH]; intros m a v Hm; cbn; [done|].
  apply IH. intros a'. rewrite byte_at_insert. destruct (decide _); [|by destruct m].
  unfold is_u8. mlia.
Qed.
Lemma load_le_range n m a :
  (forall a, is_u8 (byte_at m a)) -> 0 <= load_le m a n < 2 ^ (8 * Z.of_nat n).
Proof.
  revert a. induction n as [|n IH]; intros a Hm; cbn [load_le]; [done|].
  specialize (IH (a + 1) Hm). pose proof (Hm a) as Ha. unfold is_u8 in Ha.
  replace (8 * Z.of_nat (S n)) with (8 + 8 * Z.of_nat n) by lia.
  rewrite Z.pow_add_r by lia. change (2 ^ 8) with 0x100. nia.
Qed.

Lemma mem_read_range n s a v : wf s -> mem_read n (mem s) a = Some v -> 0 <= v < 2 ^ (8 * Z.of_nat n).
Proof.
  unfold mem_read. intros Hs. case_match; intros [= <-]. by apply load_le_range, wf_mem.
Qed.
Lemma ram_read_w_range s a v : ram_read_w s a = Some v -> wf s -> is_u32 v.
Proof. intros E Hs. exact (mem_read_range 4 s a v Hs E). Qed.
Lemma ram_read_s_range s a v : ram_read_s s a = Some v -> wf s -> is_u16 v.
Proof. intros E Hs. exact (mem_read_range 2 s a v Hs E). Qed.
Lemma ram_read_b_range s a v : ram_read_b s a = Some v -> wf s -> is_u8 v.
Proof. intros E Hs. exact (mem_read_range 1 s a v Hs E). Qed.

Lemma mem_write_wf n s a v s' :
  (m ← mem_write n (mem s) a v; Some (set_mem m s)) = Some s' -> wf s -> wf s'.
Proof.
  unfold mem_write. case_match; [|done]. intros [= <-] Hs.
  apply wf_set_mem; [done|]. by apply store_le_bytes, wf_mem.
Qed.
Lemma ram_write_w_wf s a v s' : ram_write_w s a v = Some s' -> wf s -> wf s'.
Proof. apply mem_write_wf. Qed.
Lemma ram_write_s_wf s a v s' : ram_write_s s a v = Some s' -> wf s -> wf s'.
Proof. apply mem_write_wf. Qed.
Lemma ram_write_b_wf s a v s' : ram_write_b s a v = Some s' -> wf s -> wf s'.
Proof. apply mem_write_wf. Qed.

(** * CSR and floating-point helpers *)

Lemma land_u32_r x y : is_u32 y -> is_u32 (Z.land x y).
Proof. rewrite Z.land_comm. apply land_u32. Qed.

Ltac fp_consts :=
  unfold FMASK_SIGN, FFLAG_INVALID_OP, FFLAG_DIV_BY_ZERO, FFLAG_OVERFLOW, FFLAG_UNDERFLOW,
    FFLAG_INEXACT, RV_NAN in *.

(** [range] proves [is_u32 e] by recursion on [e]. *)
Ltac range :=
  lazymatch goal with
  | |- is_u32 (if ?b then _ else _) => destruct b; range
  | |- is_u32 (u32 _) => apply is_u32_u32
  | |- is_u32 (sign_extend_h _) => apply is_u32_u32
  | |- is_u32 (sign_extend_b _) => apply is_u32_u32
  | |- is_u32 (Z.land _ _) => first [apply land_u32; range | apply land_u32_r; range]
  | |- is_u32 (Z.lor _ _) => apply lor_u32; range
  | |- is_u32 (Z.lxor _ _) => apply lxor_u32; range
  | |- is_u32 (Z.shiftr _ _) => apply shiftr_u32; [range|try apply land_31_range; lia]
  | |- is_u32 _ => first [assumption | solve [eauto 3 with machine] | solve [fp_consts; unfold is_u32; lia]]
  end.

Section Csr.
Context `{riscv_io}.

Lemma wf_update_time s : wf s -> wf (update_time s).
Proof.
  intros Hs. unfold update_time. destruct (rv_gettimeofday s) as [sec usec].
  repeat apply wf_set_csr; [by apply wf_set_timer|range..].
Qed.
Lemma wf_csr_sync_cycle s c cycle :
  wf s -> 0 <= cycle < 0x10000000000000000 -> wf (csr_sync_cycle s c cycle).
Proof.
  intros. unfold csr_sync_cycle. repeat case_match; auto using wf_set_csr_cycle.
Qed.
Lemma wf_csr_get_ptr s c : wf s -> wf (fst (csr_get_ptr s c)).
Proof.
  intros. unfold csr_get_ptr. repeat case_match; cbn [fst]; auto using wf_update_time.
Qed.
Lemma csr_load_range s c : wf s -> is_u32 (csr_load s c).
Proof.
  intros Hs. destruct c; cbn; [by apply wf_csr|range|].
  pose proof (wf_cycle s Hs). unfold is_u32. rewrite Z.shiftr_div_pow2 by lia. mlia.
Qed.
Lemma wf_csr_store s c v : wf s -> is_u32 v -> wf (csr_store c v s).
Proof.
  intros Hs Hv. pose proof (wf_cycle s Hs). destruct c; cbn; [by apply wf_set_csr|..].
  all: apply wf_set_csr_cycle; [done|]; unfold is_u32 in *.
  - rewrite Z.shiftr_div_pow2 by lia. mlia.
  - assert (is_u32 (csr_cycle s &u 0xffffffff)) as HL by range. unfold is_u32 in HL. lia.
Qed.
Lemma wf_csr_access upd s c cycle s' v :
  csr_access upd s c cycle = (s', v) -> wf s -> 0 <= cycle < 0x10000000000000000 ->
  (forall x, is_u32 x -> is_u32 (upd x)) -> wf s' /\ is_u32 v.
Proof.
  unfold csr_access. intros E Hs Hc Hu.
  pose proof (wf_csr_get_ptr _ c (wf_csr_sync_cycle s c cycle Hs Hc)) as H1.
  destruct (csr_get_ptr _ c) as [s1 [p|]]; cbn in H1; simplify_eq; [|split; [done|range]].
  split; [apply wf_csr_store; auto using csr_load_range|].
  pose proof (csr_load_range s1 p H1). range.
Qed.
Lemma wf_csrrw s c x cycle s' v :
  csr_csrrw s c x cycle = (s', v) -> wf s -> 0 <= cycle < 0x10000000000000000 -> is_u32 x ->
  wf s' /\ is_u32 v.
Proof. intros. eapply wf_csr_access; eauto. Qed.
Lemma wf_csrrs s c x cycle s' v :
  csr_csrrs s c x cycle = (s', v) -> wf s -> 0 <= cycle < 0x10000000000000000 -> is_u32 x ->
  wf s' /\ is_u32 v.
Proof. intros. eapply wf_csr_access; eauto. intros. cbv beta. range. Qed.
Lemma wf_csrrc s c x cycle s' v :
  csr_csrrc s c x cycle = (s', v) -> wf s -> 0 <= cycle < 0x10000000000000000 -> is_u32 x ->
  wf s' /\ is_u32 v.
Proof. intros. eapply wf_csr_access; eauto. intros. cbv beta. range. Qed.
End Csr.

Lemma wf_raise_flags fl s : wf s -> wf (raise_flags fl s).
Proof. apply wf_set_exceptionFlags. Qed.
Lemma wf_or_fcsr b s : wf s -> is_u32 b -> wf (set_csr csr_fcsr (csr s csr_fcsr |u b) s).
Proof. intros Hs Hb. apply wf_set_csr; [done|]. apply lor_u32; [by apply wf_csr|done]. Qed.
Lemma wf_set_fflag s : wf s -> wf (set_fflag s).
Proof.
  intros Hs. unfold set_fflag. cbv zeta. apply wf_set_exceptionFlags.
  repeat match goal with
  | |- wf (if ?b then _ else _) => destruct b
  | |- wf (set_csr _ _ _) => apply wf_or_fcsr; [|range]
  | _ => assumption
  end.
Qed.
Lemma wf_set_rounding_mode m s s' : set_rounding_mode m s = Some s' -> wf s -> wf s'.
Proof.
  unfold set_rounding_mode. intros E Hs. repeat case_match; simplify_eq; by apply wf_set_roundingMode.
Qed.
Lemma wf_link v ir s : wf s -> is_u32 v -> wf (link v ir s).
Proof. intros. unfold link. case_match; auto using wf_set_reg. Qed.
#[export] Hint Resolve wf_raise_flags wf_set_fflag wf_set_rounding_mode wf_link : machine.

(** * Values of the arithmetic handlers *)

Lemma foldl_u32 {A} (f : Z -> A -> Z) (l : list A) x :
  is_u32 x -> (forall v a, is_u32 v -> a ∈ l -> is_u32 (f v a)) -> is_u32 (foldl f x l).
Proof.
  revert x. induction l as [|a l IH]; cbn; intros x Hx Hf; [done|].
  apply IH; [apply Hf; [done|]; constructor|]. intros. apply Hf; [done|]. by constructor.
Qed.

Lemma shl32_u32 x n v : shl32 x n = Some v -> is_u32 v.
Proof. unfold shl32. case_match; intros [= <-]. range. Qed.
Lemma shr32_u32 x n v : shr32 x n = Some v -> is_u32 x -> is_u32 v.
Proof. unfold shr32. case_match; intros [= <-] ?. apply shiftr_u32; [done|lia]. Qed.
Lemma rotate_left_u32 x n v : rotate_left x n = Some v -> is_u32 x -> is_u32 v.
Proof.
  unfold rotate_left. intros E Hx. simplify_option_eq.
  apply lor_u32; eauto using shl32_u32, shr32_u32.
Qed.
Lemma rotate_right_u32 x n v : rotate_right x n = Some v -> is_u32 x -> is_u32 v.
Proof.
  unfold rotate_right. intros E Hx. simplify_option_eq.
  apply lor_u32; eauto using shl32_u32, shr32_u32.
Qed.
Lemma log2_u32 x : is_u32 x -> 0 <= Z.log2 x < 32.
Proof.
  intros Hx. unfold is_u32 in Hx. split; [apply Z.log2_nonneg|].
  destruct (decide (x = 0)) as [->|]; [done|]. apply Z.log2_lt_pow2; lia.
Qed.
Lemma rv_clz_u32 x : is_u32 x -> is_u32 (rv_clz x).
Proof. intros Hx. pose proof (log2_u32 x Hx). unfold rv_clz, is_u32. lia. Qed.
Lemma rv_ctz_u32 x : is_u32 x -> is_u32 (rv_ctz x).
Proof.
  intros Hx. pose proof (log2_u32 _ (land_u32 x (- x) Hx)). unfold rv_ctz, is_u32. lia.
Qed.
Lemma rv_popcount_range x : 0 <= rv_popcount x <= 32.
Proof.
  unfold rv_popcount.
  enough (forall l n, n <= foldl (fun n i => n + b2u (Z.testbit x (Z.of_nat i))) n l
                        <= n + Z.of_nat (length l)) as Hl.
  { specialize (Hl (seq 0 32) 0). rewrite length_seq in Hl. lia. }
  induction l as [|i l IH]; intros n; cbn [foldl length]; [lia|].
  specialize (IH (n + b2u (Z.testbit x (Z.of_nat i)))). unfold b2u in *. case_match; lia.
Qed.
Lemma rv_popcount_u32 x : is_u32 (rv_popcount x).
Proof. pose proof (rv_popcount_range x). unfold is_u32. lia. Qed.
Lemma shift_value_u32 o x i v : shift_value o x i = Some v -> is_u32 x -> is_u32 v.
Proof. intros E Hx. destruct o; cbn in E; simplify_eq; range. Qed.
Lemma calc_fclass_u32 f : is_u32 (calc_fclass f).
Proof. unfold calc_fclass. cbv zeta. range. Qed.
Lemma div_u32 a b : is_u32 a -> is_u32 b -> truth b = true -> is_u32 (a / b).
Proof.
  unfold is_u32, truth. intros Ha Hb E.
  assert (b <> 0) by (intros ->; done).
  split; [apply Z.div_pos; lia|]. apply Z.div_lt_upper_bound; nia.
Qed.
Lemma mod_u32 a b : is_u32 b -> truth b = true -> is_u32 (a mod b).
Proof.
  unfold is_u32, truth. intros Hb E. assert (b <> 0) by (intros ->; done).
  pose proof (Z.mod_pos_bound a b). lia.
Qed.
Lemma u8_u32 x : is_u8 x -> is_u32 x.
Proof. unfold is_u8, is_u32. lia. Qed.
Lemma u16_u32 x : is_u16 x -> is_u32 x.
Proof. unfold is_u16, is_u32. lia. Qed.
Lemma reg_no_u32 r : is_reg r -> is_u32 r.
Proof. unfold is_reg, is_u32. lia. Qed.
Lemma b2u_u32 b : is_u32 (b2u b).
Proof. unfold b2u. range. Qed.
#[export] Hint Resolve rv_clz_u32 rv_ctz_u32 rv_popcount_u32 calc_fclass_u32 b2u_u32 : machine.

(** * The handlers *)

(** [post Q o]: the state in which a body is left satisfies [Q]. *)
Definition post (Q : riscv -> Prop) (o : outcome) : Prop :=
  match o with
  | Nextop s _ | End_op s _ | Tail _ s _ | Indirect s _ | Return _ s => Q s
  | Undef => True
  end.

Lemma wf_and_csr f m s1 : wf s1 -> wf (set_csr f (csr s1 f &u m) s1).
Proof. intros W. apply wf_set_csr; [done|]. apply land_u32. auto with machine. Qed.
Lemma wf_or_csr f m s1 : wf s1 -> is_u32 m -> wf (set_csr f (csr s1 f |u m) s1).
Proof. intros W ?. apply wf_set_csr; [done|]. apply lor_u32; auto with machine. Qed.

(** Forward reasoning: what the equations of the intermediate values say. *)
Ltac facts :=
  repeat match goal with
  | E : ram_read_w ?s _ = Some _, W : wf ?s |- _ => apply ram_read_w_range in E; [|exact W]
  | E : ram_read_s ?s _ = Some _, W : wf ?s |- _ =>
    apply ram_read_s_range, u16_u32 in E; [|exact W]
  | E : ram_read_b ?s _ = Some _, W : wf ?s |- _ =>
    apply ram_read_b_range, u8_u32 in E; [|exact W]
  | E : ram_write_w _ _ _ = Some _ |- _ => apply ram_write_w_wf in E; [|wf_state]
  | E : ram_write_s _ _ _ = Some _ |- _ => apply ram_write_s_wf in E; [|wf_state]
  | E : ram_write_b _ _ _ = Some _ |- _ => apply ram_write_b_wf in E; [|wf_state]
  | E : set_rounding_mode _ _ = Some _ |- _ => apply wf_set_rounding_mode in E; [|wf_state]
  | E : csr_csrrw _ _ _ _ = _ |- _ => apply wf_csrrw in E as [??]; [|assumption..|range]
  | E : csr_csrrs _ _ _ _ = _ |- _ => apply wf_csrrs in E as [??]; [|assumption..|range]
  | E : csr_csrrc _ _ _ _ = _ |- _ => apply wf_csrrc in E as [??]; [|assumption..|range]
  | E : on_ecall _ = Some _ |- _ => apply on_ecall_wf in E; [|wf_state]
  | E : on_ebreak _ = Some _ |- _ => apply on_ebreak_wf in E; [|wf_state]
  | E : shl32 _ _ = Some _ |- _ => apply shl32_u32 in E
  | E : shr32 _ _ = Some _ |- _ => apply shr32_u32 in E; [|range]
  | E : rotate_left _ _ = Some _ |- _ => apply rotate_left_u32 in E; [|range]
  | E : rotate_right _ _ = Some _ |- _ => apply rotate_right_u32 in E; [|range]
  | E : shift_value _ _ _ = Some _ |- _ => apply shift_value_u32 in E; [|range]
  end
with wf_state :=
  lazymatch goal with
  | |- wf (if ?b then _ else _) => destruct b; wf_state
  | |- wf (set_reg _ _ _) => apply wf_set_reg; [wf_state|range]
  | |- wf (link _ _ _) => apply wf_link; [wf_state|range]
  | |- wf (set_freg _ _ _) => apply wf_set_freg; [wf_state|range]
  | |- wf (raise_flags _ _) => apply wf_raise_flags; wf_state
  | |- wf (set_fflag _) => apply wf_set_fflag; wf_state
  | |- wf (set_last_pc _ _) => apply wf_set_last_pc; wf_state
  | |- wf (set_PC _ _) => apply wf_set_PC; [wf_state|range]
  | |- wf (set_csr csr_fcsr _ _) => apply wf_or_fcsr; [wf_state|range]
  | |- wf _ => first [assumption | solve [auto 6 with machine]]
  end.

Ltac apply_range :=
  first [apply f32_add_range | apply f32_sub_range | apply f32_mul_range | apply f32_div_range
    | apply f32_sqrt_range | apply f32_mulAdd_range | apply i32_to_f32_range
    | apply ui32_to_f32_range].
Ltac body_unfold :=
  unfold shift_func, wr_rs1, amo, fp_compare, csr_wr_rd, lw_at, sw_at, flw_at, fsw_at,
    BRANCH_FUNC, c_branch, bclr_at, bext_at, binv_at, bset_at, jump;
  unfold wr_rd; cbv zeta.

Section Handlers.
Context `{riscv_io_laws} `{softfloat_laws}.
Context (s : riscv) (ir : rv_insn) (cycle pc : Z).
Hypothesis Hs : wf s.
Hypothesis Hir : wf_ir ir.
Hypothesis Hcycle : 0 <= cycle < 0x10000000000000000.
Hypothesis Hpc : is_u32 pc.

Lemma post_misalign mask c b a k :
  post wf k -> is_u32 c -> is_u32 a -> post wf (RV_EXC_MISALIGN_HANDLER mask c b s cycle pc a k).
Proof.
  intros Hk Hc Ha. unfold RV_EXC_MISALIGN_HANDLER. case_match; [|done].
  unfold SET_CAUSE_AND_TVAL_THEN_TRAP. destruct (on_trap _) eqn:E; cbn; [|done].
  apply on_trap_wf in E; [done|]. unfold set_cause_and_tval.
  case_match; auto 10 with machine.
Qed.
Lemma post_fp_op f :
  (forall s', is_u32 (fst (f s'))) -> post wf (fp_op f s ir pc).
Proof.
  intros Hf. unfold fp_op. destruct (set_rounding_mode _ _) as [s1|] eqn:E; [|done].
  specialize (Hf s1). destruct (f s1) as [v fl]. facts. apply wf_set_fflag. wf_state.
Qed.
Lemma post_fp_minmax a b c : post wf (fp_minmax a b c s ir pc).
Proof.
  unfold fp_minmax. destruct (f32_lt_quiet a b) as [lt fl]. destruct (f32_eq _ _) as [eq fl'].
  destruct lt; cbn [post]; wf_state.
Qed.
Lemma post_mret : post wf (do_mret s ir cycle pc).
Proof.
  unfold do_mret. cbv zeta. cbn [post].
  match goal with |- wf (set_PC _ ?s1) => assert (wf s1) as W end.
  { apply wf_or_csr; [|unfold MSTATUS_MPIE; range]. apply wf_or_csr; [|range].
    apply wf_and_csr. auto with machine. }
  apply wf_set_PC; [exact W|apply (wf_csr _ W)].
Qed.


(** The handlers whose value is a loop or a division. *)
Lemma post_orcb : post wf (do_orcb s ir cycle pc).
Proof.
  apply wf_set_reg; [done|]. apply foldl_u32; [range|]. intros. case_match; range.
Qed.
Lemma post_clmul : post wf (do_clmul s ir cycle pc).
Proof.
  apply wf_set_reg; [done|]. apply foldl_u32; [range|]. intros. case_match; range.
Qed.
Lemma post_clmulh : post wf (do_clmulh s ir cycle pc).
Proof.
  apply wf_set_reg; [done|]. apply foldl_u32; [range|].
  intros v i Hv Hi%elem_of_seq. case_match; [|done]. apply lxor_u32; [done|].
  apply shiftr_u32; [range|lia].
Qed.
Lemma post_clmulr : post wf (do_clmulr s ir cycle pc).
Proof.
  apply wf_set_reg; [done|]. apply foldl_u32; [range|].
  intros v i Hv Hi%elem_of_seq. case_match; [|done]. apply lxor_u32; [done|].
  apply shiftr_u32; [range|lia].
Qed.
Lemma post_csrai : post wf (do_csrai s ir cycle pc).
Proof.
  unfold do_csrai. destruct (shr32 _ _) eqn:E; [|exact I]. facts.
  apply wf_set_reg; [done|]. apply foldl_u32; [done|]. intros. apply lor_u32; [done|].
  apply shiftr_u32; [range|lia].
Qed.
Lemma post_divu : post wf (do_divu s ir cycle pc).
Proof.
  apply wf_set_reg; [done|]. destruct (truth (reg s (rs2 ir))) eqn:E; cbn [negb]; [|range].
  apply div_u32; auto with machine.
Qed.
Lemma post_remu : post wf (do_remu s ir cycle pc).
Proof.
  apply wf_set_reg; [done|]. destruct (truth (reg s (rs2 ir))) eqn:E; cbn [negb]; [|range].
  apply mod_u32; auto with machine.
Qed.
Lemma post_sext m b k :
  is_u32 m -> is_u32 k ->
  let s1 := set_reg (rd ir) (reg s (rs1 ir) &u m) s in
  post wf (if truth (reg s1 (rs1 ir) &u b) then wr_rd (reg s1 (rd ir) |u k) s1 ir pc
           else Nextop s1 pc).
Proof.
  intros Hm Hk s1. assert (wf s1) as W by (unfold s1; wf_state). case_match; [|exact W].
  apply wf_set_reg; [exact W|]. apply lor_u32; [by apply (reg_u32 s1)|done].
Qed.

(** Every handler body, every way of leaving it. *)
Lemma body_wf o : post wf (insn_body o s ir cycle pc).
Proof.
  pose proof (reg_no_u32 _ (wf_rs1 ir Hir)).
  destruct o; cbn [insn_body]; try exact I;
    try first [exact post_mret | exact post_orcb | exact post_clmul | exact post_clmulh
      | exact post_clmulr | exact post_csrai | exact post_divu | exact post_remu
      | apply post_sext; range];
    match goal with |- post wf ?f => let h := head_of f in unfold h end;
    try first [apply post_fp_minmax | apply post_fp_op; intros; apply_range].
  all: body_unfold.
  all: repeat match goal with
    | |- post wf (RV_EXC_MISALIGN_HANDLER _ _ _ _ _ _ _ _) =>
      apply post_misalign; [|unfold LOAD_MISALIGNED, STORE_MISALIGNED; range | range]
    | |- post wf (match ?e with _ => _ end) => destruct e eqn:?
    end; cbn [post]; try exact I; facts; wf_state.
Qed.
End Handlers.

(** * Whole handlers and blocks *)

Definition step_post (Q : riscv -> Prop) (r : step_result) : Prop :=
  match r with
  | Go_next s cycle pc | Go_ir _ s cycle pc | Go_indirect s cycle pc =>
    Q s /\ 0 <= cycle < 0x10000000000000000 /\ is_u32 pc
  | Ret _ s => Q s
  | Crash => True
  end.

(** The program counter a body leaves for the wrapper. *)
Definition post_pc (o : outcome) : Prop :=
  match o with
  | Nextop _ pc | End_op _ pc | Tail _ _ pc | Indirect _ pc => is_u32 pc
  | Return _ _ | Undef => True
  end.

Section Blocks.
Context `{riscv_io_laws} `{softfloat_laws}.

Lemma misalign_pc mask c b s cycle pc a k :
  post_pc k -> post_pc (RV_EXC_MISALIGN_HANDLER mask c b s cycle pc a k).
Proof. intros. unfold RV_EXC_MISALIGN_HANDLER. repeat case_match; done. Qed.

Lemma body_pc o s ir cycle pc : wf s -> is_u32 pc -> post_pc (insn_body o s ir cycle pc).
Proof.
  intros Hs Hpc. destruct o; cbn [insn_body]; try exact I;
    match goal with |- post_pc ?f => let h := head_of f in unfold h end; body_unfold;
    unfold fp_op, fp_minmax; cbv zeta;
    repeat match goal with
    | |- post_pc (RV_EXC_MISALIGN_HANDLER _ _ _ _ _ _ _ _) => apply misalign_pc
    | |- post_pc (match ?e with _ => _ end) => destruct e eqn:?
    end; cbn [post_pc]; first [exact I | range].
Qed.

Lemma end_op_wf ir s cycle pc :
  wf s -> 0 <= cycle < 0x10000000000000000 -> is_u32 pc -> step_post wf (end_op ir s cycle pc).
Proof.
  intros. unfold end_op. repeat case_match; cbn; auto with machine.
Qed.

Lemma do_insn_wf n s ir cycle pc :
  wf s -> wf_ir ir -> is_u32 pc -> step_post wf (do_insn n s ir cycle pc).
Proof.
  intros Hs Hir Hpc. unfold do_insn, RVOP. pose proof (u64_range (cycle + 1)) as Hc.
  pose proof (body_wf s ir _ pc Hs Hir Hc Hpc (opcode ir)) as W.
  pose proof (body_pc (opcode ir) s ir (u64 (cycle + 1)) pc Hs Hpc) as P.
  destruct (insn_body _ _ _ _ _); cbn [post post_pc] in *; try done.
  - destruct n; [cbn; auto with words|]. apply end_op_wf; auto with words.
  - by apply end_op_wf.
Qed.

(** The range invariant.  Executing a translated block from a state in which every
    object holds a value of its C type again gives such a state, whichever way the block
    is left: falling off its end, a taken or indirect branch, a trap, an [ecall], or
    a return to the main loop; and the program counter and cycle count handed on are in
    range too.  The embedder's callbacks and SoftFloat are assumed to keep their results
    in the range of their types. *)
Theorem run_irs_preserves_wf irs s cycle pc :
  wf s -> Forall wf_ir irs -> is_u32 pc -> step_post wf (run_irs do_insn irs s cycle pc).
Proof.
  revert s cycle pc. induction irs as [|ir irs IH]; intros s cycle pc Hs Hirs Hpc; [done|].
  inversion Hirs as [|?? Hir Hrest]; subst. cbn [run_irs].
  pose proof (do_insn_wf (match irs with [] => false | _ => true end) s ir cycle pc Hs Hir Hpc)
    as W.
  destruct (do_insn _ _ _ _ _); try exact W. destruct W as (W & _ & P). by apply IH.
Qed.
End Blocks.

(** * Register [x0] *)

(** Opcodes that leave [x0] alone even when it is their destination: the handler clears
    it, tests [rd], or writes back its old value. *)
Definition zero_safe (o : opcode_t) : bool :=
  guards_rd o ||
  match o with
  | rv_insn_nop | rv_insn_jal | rv_insn_jalr | rv_insn_csrrw | rv_insn_csrrs
  | rv_insn_csrrc | rv_insn_csrrwi | rv_insn_csrrsi | rv_insn_csrrci => true
  | _ => false
  end.
Definition keeps_zero (ir : rv_insn) : Prop :=
  dest_reg (opcode ir) ir = Some rv_reg_zero -> zero_safe (opcode ir) = true.

Lemma dest_is_reg o ir d : wf_ir ir -> dest_reg o ir = Some d -> is_reg d.
Proof.
  intros [] E. destruct o; cbn in E; simplify_eq; try done;
    unfold is_reg, rv_reg_zero, rv_reg_ra; lia.
Qed.
Lemma reg_set_reg_same s r : reg (set_reg r (reg s r) s) r = reg s r.
Proof.
  unfold reg, set_reg. cbn. rewrite !nth_lookup.
  destruct (decide (Z.to_nat r < length (X s))%nat).
  - rewrite list_lookup_insert_eq by done. by destruct (X s !! Z.to_nat r).
  - by rewrite list_insert_ge by lia.
Qed.

(** The handlers that are safe without a test of [rd]. *)
Lemma zero_safe_body `{riscv_io} `{softfloat} s ir cycle pc s' p :
  insn_body (opcode ir) s ir cycle pc = Nextop s' p -> length (X s) = N_RV_REGS ->
  guards_rd (opcode ir) = false -> zero_safe (opcode ir) = true ->
  dest_reg (opcode ir) ir = Some rv_reg_zero -> reg s rv_reg_zero = 0 ->
  reg s' rv_reg_zero = 0.
Proof.
  intros E HL G Hs Ed Hz. unfold zero_safe in Hs. rewrite G in Hs. cbn in Hs.
  destruct (opcode ir); try discriminate Hs; body_cases; cbn in Ed;
    try (injection Ed as Ed; rewrite Ed in * ); frames.
  1: { apply reg_set_reg_eq; [done|]. unfold is_reg, rv_reg_zero. lia. }
  all: change (truth rv_reg_zero) with false; cbv iota; rewrite reg_set_reg_same; etransitivity; [|exact Hz]; same_X.
Qed.

(** Falling through, [x0] keeps its value 0. *)
Lemma body_zero `{riscv_io} `{softfloat} s ir cycle pc s' p :
  insn_body (opcode ir) s ir cycle pc = Nextop s' p -> length (X s) = N_RV_REGS ->
  wf_ir ir -> keeps_zero ir -> reg s rv_reg_zero = 0 -> reg s' rv_reg_zero = 0.
Proof.
  intros E HL Hir Hk Hz. destruct (decide (dest_reg (opcode ir) ir = Some rv_reg_zero)) as [Ed|Ed].
  - destruct (guards_rd (opcode ir)) eqn:G; [|by eapply zero_safe_body; eauto].
    assert (truth (rd ir) = false) as T.
    { destruct (opcode ir); try discriminate G; cbn in Ed; by injection Ed as ->. }
    by rewrite (guarded_frame _ _ _ _ _ _ _ G T E).
  - destruct (body_frame _ _ _ _ _ _ _ E) as [_ HF]. rewrite HF; [done|]. intros d Hd Hd0.
    pose proof (dest_is_reg _ _ _ Hir Hd) as Hr. apply Ed. rewrite Hd. f_equal.
    unfold is_reg, rv_reg_zero in *. lia.
Qed.

(** * A concrete embedder and a concrete machine *)

(** Callbacks that only return, and a SoftFloat whose functions return zero. *)
Definition quiet_io : riscv_io :=
  {| mem_ifetch s a := ram_read_w s a; on_ecall s := Some s; on_ebreak s := Some s;
     on_trap s := Some s; rv_gettimeofday _ := (0, 0) |}.
Definition zero_softfloat : softfloat :=
  {| f32_add _ _ _ := (0, 0); f32_sub _ _ _ := (0, 0); f32_mul _ _ _ := (0, 0);
     f32_div _ _ _ := (0, 0); f32_sqrt _ _ := (0, 0); f32_mulAdd _ _ _ _ := (0, 0);
     f32_to_i32 _ _ := (0, 0); f32_to_ui32 _ _ := (0, 0); i32_to_f32 _ _ := (0, 0);
     ui32_to_f32 _ _ := (0, 0); f32_eq _ _ := (false, 0); f32_lt _ _ := (false, 0);
     f32_le _ _ := (false, 0); f32_lt_quiet _ _ := (false, 0);
     f32_isSignalingNaN _ := false |}.
Lemma quiet_io_laws : @riscv_io_laws quiet_io.
Proof. split; cbn; by intros s s' [= ->]. Qed.
Lemma zero_softfloat_laws : @softfloat_laws zero_softfloat.
Proof. split; intros; unfold is_u32; cbn; lia. Qed.

Definition reset_state (ram : gmap Z Z) (size : Z) : riscv :=
  mk_riscv (replicate 32 0) 0 (replicate 32 0) (fun _ => 0) 0 0 RV_PRIV_M_MODE false false
    (mk_memory ram size) false false 0 0 0.
Lemma reset_state_wf size : wf (reset_state ∅ size).
Proof.
  split; cbn; try (unfold is_u32; lia).
  - split; cbn; [done|]. repeat constructor; unfold is_u32; lia.
  - split; [done|]. repeat constructor; unfold is_u32; lia.
  - intros a. unfold byte_at, is_u8. cbn. rewrite lookup_empty. cbn. lia.
Qed.

(** A run of the invariant theorem: [addi x1,x0,-1; mul x2,x1,x1]. *)
Definition sample_block : list rv_insn :=
  [ set_opcode rv_insn_addi (set_imm (-1) (set_rd 1 zero_insn));
    set_opcode rv_insn_mul (set_rs2 1 (set_rs1 1 (set_rd 2 zero_insn))) ].
Lemma sample_block_wf : Forall wf_ir sample_block.
Proof. repeat constructor; cbn; lia. Qed.
Lemma run_irs_preserves_wf_witness :
  step_post wf (@run_irs (@do_insn quiet_io zero_softfloat) sample_block (reset_state ∅ 4096) 0 0).
Proof.
  exact (@run_irs_preserves_wf quiet_io quiet_io_laws zero_softfloat zero_softfloat_laws
    sample_block (reset_state ∅ 4096) 0 0 (reset_state_wf 4096) sample_block_wf
    ltac:(unfold is_u32; lia)).
Defined.
