(* ===== verification/ConstoptProofs.v ===== *)
(** Correctness of the constant folder (Constopt.v) against the interpreter
    (Interp.v): a block that has been optimised runs like the original one. *)

From S2P Require Import Prelude.
From S2P Require Import Opcode.
From S2P Require Import Decode.
From S2P Require Import Machine.
From S2P Require Import Interp.
From S2P Require Import Constopt.
From S2P Require Import MachineFacts.
From S2P Require Import Invariant.

(** * The abstraction: what the table of known registers says of a state *)

Record agree (info : constopt_info) (s : riscv) : Prop := {
  agree_len_c : length (is_constant info) = N_RV_REGS;
  agree_len_v : length (const_val info) = N_RV_REGS;
  agree_val r : is_reg r -> known info r = true -> reg s r = val info r;
  agree_zero : known info rv_reg_zero = true -> val info rv_reg_zero = 0 }.

(** Opcodes the folder takes as overwriting [rd] with an unknown value, [x0] included. *)
Definition clobbers_rd (o : opcode_t) : bool :=
  match o with
  | rv_insn_lb | rv_insn_lh | rv_insn_lw | rv_insn_lbu | rv_insn_lhu | rv_insn_csrrw
  | rv_insn_csrrs | rv_insn_csrrc | rv_insn_csrrwi | rv_insn_csrrsi | rv_insn_csrrci
  | rv_insn_clw | rv_insn_clwsp | rv_insn_jal | rv_insn_jalr => true
  | _ => false
  end.

Definition is_cond_branch (o : opcode_t) : bool :=
  match o with
  | rv_insn_beq | rv_insn_bne | rv_insn_blt | rv_insn_bge | rv_insn_bltu | rv_insn_bgeu => true
  | _ => false
  end.

(** What the folder relies on in an IR: fields in range, an unguarded destination
    other than [x0] (the decoder turns such instructions into [nop]), no [sc.w], whose
    destination the folder does not invalidate, and no link register in a conditional
    branch, which may become a [jal]. *)
Record opt_ok (ir : rv_insn) : Prop := {
  opt_wf : wf_ir ir;
  opt_dest : guards_rd (opcode ir) || clobbers_rd (opcode ir) = false ->
             opcode ir <> rv_insn_nop -> dest_reg (opcode ir) ir <> Some rv_reg_zero;
  opt_scw : opcode ir <> rv_insn_scw;
  opt_branch : is_cond_branch (opcode ir) = true -> rd ir = rv_reg_zero }.

(** * The table *)

Lemma known_set_known_eq r b info :
  length (is_constant info) = N_RV_REGS -> is_reg r -> known (set_known r b info) r = b.
Proof. intros HL Hr. apply nth_insert_eq. unfold is_reg, N_RV_REGS in *. lia. Qed.
Lemma known_set_known_ne r r' b info :
  is_reg r -> is_reg r' -> r <> r' -> known (set_known r b info) r' = known info r'.
Proof. intros. apply nth_insert_ne. unfold is_reg in *. lia. Qed.
Lemma val_set_val_eq r v info :
  length (const_val info) = N_RV_REGS -> is_reg r -> val (set_val r v info) r = v.
Proof. intros HL Hr. apply nth_insert_eq. unfold is_reg, N_RV_REGS in *. lia. Qed.
Lemma val_set_val_ne r r' v info :
  is_reg r -> is_reg r' -> r <> r' -> val (set_val r v info) r' = val info r'.
Proof. intros. apply nth_insert_ne. unfold is_reg in *. lia. Qed.

Lemma is_reg_zero : is_reg rv_reg_zero.
Proof. unfold is_reg, rv_reg_zero. lia. Qed.

(** Forgetting a register, and the registers a body does not write, keep [agree]. *)
Lemma agree_frame info s s' d :
  agree info s -> is_reg d ->
  (forall r, Z.to_nat d <> Z.to_nat r -> reg s' r = reg s r) ->
  agree (set_known d false info) s'.
Proof.
  intros [Lc Lv Hv Hz] Hd HF. split; [cbn; by rewrite length_insert|done|..].
  - intros r Hr K. destruct (decide (d = r)) as [->|].
    { by rewrite known_set_known_eq in K. }
    rewrite known_set_known_ne in K by done. rewrite HF by (unfold is_reg in *; lia).
    by apply Hv.
  - intros K. destruct (decide (d = rv_reg_zero)) as [->|].
    { by rewrite known_set_known_eq in K. }
    rewrite known_set_known_ne in K by (done || apply is_reg_zero). by apply Hz.
Qed.
Lemma agree_same info s s' :
  agree info s -> (forall r, reg s' r = reg s r) -> agree info s'.
Proof. intros [] HF. split; try done. intros. rewrite HF. auto. Qed.
Lemma agree_unknown info s s' d :
  agree info s -> is_reg d -> known info d = false ->
  (forall r, Z.to_nat d <> Z.to_nat r -> reg s' r = reg s r) -> agree info s'.
Proof.
  intros [Lc Lv Hv Hz] Hd K HF. split; try done. intros r Hr Kr.
  destruct (decide (d = r)) as [->|]; [congruence|].
  rewrite HF by (unfold is_reg in *; lia). by apply Hv.
Qed.

(** Recording a constant that has just been written. *)
Lemma agree_set info s d v :
  agree info s -> length (X s) = N_RV_REGS -> is_reg d -> d <> rv_reg_zero ->
  agree (set_val d v (set_known d true info)) (set_reg d v s).
Proof.
  intros [Lc Lv Hv Hz] HX Hd Hd0. split; [cbn; by rewrite length_insert..| |].
  - intros r Hr K. destruct (decide (d = r)) as [->|].
    { by rewrite reg_set_reg_eq, (val_set_val_eq r v (set_known r true info)). }
    rewrite reg_set_reg_ne by (unfold is_reg in *; lia).
    rewrite (val_set_val_ne d r v (set_known d true info)) by done. apply Hv; [done|].
    by rewrite <- (known_set_known_ne d r true info).
  - intros K. rewrite (val_set_val_ne d rv_reg_zero v (set_known d true info))
      by (done || apply is_reg_zero). apply Hz.
    by rewrite <- (known_set_known_ne d rv_reg_zero true info) by (done || apply is_reg_zero).
Qed.
Lemma set_known_true info r :
  length (is_constant info) = N_RV_REGS -> is_reg r -> known info r = true ->
  set_known r true info = info.
Proof.
  intros HL Hr K. destruct info as [c v]. unfold set_known, known in *. cbn in *. f_equal.
  apply list_insert_id. rewrite nth_lookup in K.
  destruct (c !! Z.to_nat r) eqn:E; cbn in K; [by subst|].
  apply lookup_ge_None in E. unfold is_reg, N_RV_REGS in *. lia.
Qed.

(** * One instruction

    [folded ir ir' info' s cycle]: from [s], the new IR does exactly what the old one
    does, and the new table describes the state after it. *)
Definition folded `{riscv_io} `{softfloat} (ir ir' : rv_insn) (info' : constopt_info)
    (s : riscv) (cycle : Z) : Prop :=
  insn_body (opcode ir') s ir' cycle (pc ir) = insn_body (opcode ir) s ir cycle (pc ir) /\
  (forall s' p, insn_body (opcode ir) s ir cycle (pc ir) = Nextop s' p -> agree info' s') /\
  insn_len (opcode ir') = insn_len (opcode ir) /\
  insn_is_branch (opcode ir') = insn_is_branch (opcode ir) /\
  branch_taken ir' = branch_taken ir.

Lemma set_rd_id ir : set_rd (rd ir) ir = ir.
Proof. by destruct ir. Qed.

Section Insn.
Context `{riscv_io_laws} `{softfloat_laws}.
Context (ir : rv_insn) (info : constopt_info) (s : riscv) (cycle : Z).
Hypothesis Hok : opt_ok ir.
Hypothesis Hagree : agree info s.
Hypothesis Hs : wf s.

Lemma folded_id info' :
  (forall s' p, insn_body (opcode ir) s ir cycle (pc ir) = Nextop s' p -> agree info' s') ->
  folded ir ir info' s cycle.
Proof. intros. by split; [|split]. Qed.

Lemma keep_ok : dest_reg (opcode ir) ir = None -> folded ir ir info s cycle.
Proof.
  intros Hd. apply folded_id. intros s' p [_ HF]%body_frame.
  eapply agree_same; [done|]. intros r. apply HF. by rewrite Hd.
Qed.

Lemma unknown_ok d :
  dest_reg (opcode ir) ir = Some d -> is_reg d -> known info d = false ->
  folded ir ir info s cycle.
Proof.
  intros Hd Hr K. apply folded_id. intros s' p [_ HF]%body_frame.
  eapply agree_unknown; [done..|]. intros r Hne. apply HF. rewrite Hd. by intros ? [= <-].
Qed.

Lemma kill_ok :
  dest_reg (opcode ir) ir = Some (rd ir) ->
  folded ir ir (set_known (rd ir) false info) s cycle.
Proof.
  intros Hd. apply folded_id. intros s' p [_ HF]%body_frame.
  eapply agree_frame; [done|apply Hok|]. intros r Hne. apply HF. rewrite Hd. by intros ? [= <-].
Qed.

Lemma kill_nz_ok :
  dest_reg (opcode ir) ir = Some (rd ir) -> opcode ir <> rv_insn_nop ->
  clobbers_rd (opcode ir) = false ->
  folded ir ir (if truth (rd ir) then set_known (rd ir) false info else info) s cycle.
Proof.
  intros Hd Hn Hc. destruct (truth (rd ir)) eqn:T; [by apply kill_ok|].
  destruct (guards_rd (opcode ir)) eqn:G.
  - apply folded_id. intros s' p E. eapply agree_same; [done|]. intros r.
    by eapply guarded_frame.
  - exfalso. apply (opt_dest ir Hok); rewrite ?G; [done|done|]. rewrite Hd. f_equal.
    unfold truth in T. rewrite negb_false_iff, Z.eqb_eq in T. done.
Qed.

(** Replacing an instruction by the load of the constant it computes. *)
Lemma fold_const_ok o d v :
  o = rv_insn_lui \/ o = rv_insn_clui -> insn_len (opcode ir) = insn_len o ->
  insn_is_branch (opcode ir) = false -> is_reg d -> d <> rv_reg_zero ->
  insn_body (opcode ir) s ir cycle (pc ir) = Nextop (set_reg d (u32 v) s) (pc ir) ->
  folded ir (set_opcode o (set_imm (s32 v) (set_rd d ir)))
    (set_val d (u32 (s32 v)) (set_known d true info)) s cycle.
Proof.
  intros Ho HL HB Hr Hd E. unfold folded. rewrite E, HL, HB, u32_s32.
  destruct Ho as [-> | ->]; (split; [|split]); [| |done| | |done]; cbn; unfold do_lui, do_clui, wr_rd; cbn;
    rewrite ?u32_s32; [done| |done|]; intros s' p [= <- <-]; apply agree_set; auto; apply Hs.
Qed.

(** The shapes of the folders; the last premise of each is the equation between the
    handler and the folder's arithmetic. *)
Hypothesis Hnot : guards_rd (opcode ir) || clobbers_rd (opcode ir) = false.
Hypothesis Hnop : opcode ir <> rv_insn_nop.
Hypothesis Hbr : insn_is_branch (opcode ir) = false.

Lemma dest_nonzero d : dest_reg (opcode ir) ir = Some d -> d <> rv_reg_zero.
Proof. intros Hd ->. by apply (opt_dest ir Hok). Qed.

Lemma fold_rd_ok o v ir' info' :
  fold_to o v (rd ir) ir (set_known (rd ir) true info) = Some (ir', info') ->
  o = rv_insn_lui \/ o = rv_insn_clui -> insn_len (opcode ir) = insn_len o ->
  dest_reg (opcode ir) ir = Some (rd ir) ->
  insn_body (opcode ir) s ir cycle (pc ir) = Nextop (set_reg (rd ir) (u32 v) s) (pc ir) ->
  folded ir ir' info' s cycle.
Proof.
  intros [= <- <-] Ho HL Hd E. rewrite <- (set_rd_id ir) at 2.
  apply fold_const_ok; auto using dest_nonzero. apply Hok.
Qed.

Lemma fold1_ok o f ir' info' :
  fold1 o f ir info = Some (ir', info') ->
  o = rv_insn_lui \/ o = rv_insn_clui -> insn_len (opcode ir) = insn_len o ->
  dest_reg (opcode ir) ir = Some (rd ir) ->
  insn_body (opcode ir) s ir cycle (pc ir)
  = Nextop (set_reg (rd ir) (u32 (f (reg s (rs1 ir)) (imm ir))) s) (pc ir) ->
  folded ir ir' info' s cycle.
Proof.
  unfold fold1. intros E Ho HL Hd HE. destruct (known info (rs1 ir)) eqn:K.
  - rewrite (agree_val info s Hagree) in HE by (done || apply Hok). by eapply fold_rd_ok.
  - injection E as <- <-. by apply kill_ok.
Qed.

Lemma fold2_ok o f ir' info' :
  fold2 o f ir info = Some (ir', info') ->
  o = rv_insn_lui \/ o = rv_insn_clui -> insn_len (opcode ir) = insn_len o ->
  dest_reg (opcode ir) ir = Some (rd ir) ->
  (forall v, f (reg s (rs1 ir)) (reg s (rs2 ir)) = Some v ->
     insn_body (opcode ir) s ir cycle (pc ir) = Nextop (set_reg (rd ir) (u32 v) s) (pc ir)) ->
  folded ir ir' info' s cycle.
Proof.
  unfold fold2. intros E Ho HL Hd HE.
  destruct (known info (rs1 ir) && known info (rs2 ir)) eqn:K.
  - apply andb_true_iff in K as [K1 K2].
    rewrite !(agree_val info s Hagree) in HE by (done || apply Hok).
    destruct (f _ _) as [v|]; [|done]. eapply fold_rd_ok; eauto.
  - injection E as <- <-. by apply kill_ok.
Qed.

Lemma fold_inplace_ok (r : rv_insn -> Z) f ir' info' :
  fold_inplace r f ir info = Some (ir', info') -> is_reg (r ir) ->
  insn_len (opcode ir) = 2 -> dest_reg (opcode ir) ir = Some (r ir) ->
  (forall v, f (reg s (r ir)) ir = Some v ->
     insn_body (opcode ir) s ir cycle (pc ir) = Nextop (set_reg (r ir) (u32 v) s) (pc ir)) ->
  folded ir ir' info' s cycle.
Proof.
  unfold fold_inplace. intros E Hr HL Hd HE. destruct (known info (r ir)) eqn:K.
  - rewrite (agree_val info s Hagree) in HE by done.
    destruct (f _ _) as [v|]; [|done]. injection E as <- <-.
    rewrite <- (set_known_true info (r ir)) by (done || apply Hagree).
    apply fold_const_ok; auto using dest_nonzero.
  - injection E as <- <-. by eapply unknown_ok.
Qed.
End Insn.

(** ** Arithmetic *)

Lemma u32_land_low x : u32 x = Z.land x 0xffffffff.
Proof. unfold u32. change 0xffffffff with (Z.ones 32). by rewrite Z.land_ones. Qed.
Lemma u32_lxor x y : u32 (Z.lxor x y) = Z.lxor (u32 x) (u32 y).
Proof.
  apply Z.bits_inj'. intros i Hi. rewrite Z.lxor_spec, !testbit_u32, Z.lxor_spec by done.
  by destruct (i <? 32).
Qed.
Lemma u32_lor x y : u32 (Z.lor x y) = Z.lor (u32 x) (u32 y).
Proof.
  apply Z.bits_inj'. intros i Hi. rewrite Z.lor_spec, !testbit_u32, Z.lor_spec by done.
  by destruct (i <? 32).
Qed.
Lemma u32_land x y : u32 (Z.land x y) = Z.land (u32 x) (u32 y).
Proof.
  apply Z.bits_inj'. intros i Hi. rewrite Z.land_spec, !testbit_u32, Z.land_spec by done.
  by destruct (i <? 32).
Qed.
Lemma u64_mul_l x y : u64 (u64 x * y) = u64 (x * y).
Proof. unfold u64. by rewrite Z.mul_mod_idemp_l. Qed.

(** The values the handlers and the folders compute outside straight-line word
    arithmetic. *)
Section Values.
Context `{riscv_io_laws} `{softfloat_laws}.
Context (ir : rv_insn) (s : riscv) (cycle : Z).
Hypothesis Hs : wf s.

Lemma shift_folds v :
  shift_value (opcode ir) (reg s (rs1 ir)) (imm ir) = Some v ->
  shift_func s ir (pc ir) = Nextop (set_reg (rd ir) (u32 v) s) (pc ir).
Proof.
  intros E. unfold shift_func. rewrite E. apply shift_value_u32 in E; [|range].
  unfold wr_rd. by rewrite u32_small.
Qed.
Lemma mulhu_folds v :
  (if reg s (rs1 ir) * reg s (rs2 ir) <? 0x8000000000000000
   then Some ((reg s (rs1 ir) * reg s (rs2 ir)) >>u 32) else None) = Some v ->
  do_mulhu s ir cycle (pc ir) = Nextop (set_reg (rd ir) (u32 v) s) (pc ir).
Proof.
  pose proof (reg_u32 s (rs1 ir) Hs) as R1. pose proof (reg_u32 s (rs2 ir) Hs) as R2.
  unfold is_u32 in *. destruct (Z.ltb_spec (reg s (rs1 ir) * reg s (rs2 ir)) 0x8000000000000000);
    [|done]. intros [= <-]. unfold do_mulhu, wr_rd. rewrite u64_small; [done|]. unfold is_u64. nia.
Qed.
Lemma divu_folds :
  do_divu s ir cycle (pc ir)
  = Nextop (set_reg (rd ir) (u32 (if negb (truth (reg s (rs2 ir))) then 0xffffffff
                                  else reg s (rs1 ir) / reg s (rs2 ir))) s) (pc ir).
Proof.
  unfold do_divu, wr_rd. cbv zeta. rewrite u32_small; [done|].
  destruct (truth (reg s (rs2 ir))) eqn:T; cbn [negb]; [|range]. apply div_u32; auto with machine.
Qed.
Lemma remu_folds :
  do_remu s ir cycle (pc ir)
  = Nextop (set_reg (rd ir) (u32 (if negb (truth (reg s (rs2 ir))) then reg s (rs1 ir)
                                  else reg s (rs1 ir) mod reg s (rs2 ir))) s) (pc ir).
Proof.
  unfold do_remu, wr_rd. cbv zeta. rewrite u32_small; [done|].
  destruct (truth (reg s (rs2 ir))) eqn:T; cbn [negb]; [|range]. apply mod_u32; auto with machine.
Qed.
Lemma csrli_folds v :
  shr32 (reg s (rs1 ir)) (shamt ir) = Some v ->
  do_csrli s ir cycle (pc ir) = Nextop (set_reg (rs1 ir) (u32 v) s) (pc ir).
Proof.
  intros E. unfold do_csrli, wr_rs1. rewrite E. facts. by rewrite u32_small.
Qed.
Lemma csrai_folds v :
  (v ← shr32 (reg s (rs1 ir)) (shamt ir);
   Some (foldl (fun v i => v |u ((0x80000000 &u reg s (rs1 ir)) >>u Z.of_nat i)) v
           (seq 0 (Z.to_nat (shamt ir))))) = Some v ->
  do_csrai s ir cycle (pc ir) = Nextop (set_reg (rs1 ir) (u32 v) s) (pc ir).
Proof.
  intros (w & E & [= <-])%bind_Some. unfold do_csrai, wr_rs1. rewrite E. facts. f_equal. f_equal.
  rewrite u32_small; [done|]. apply foldl_u32; [done|]. intros. apply lor_u32; [done|].
  apply shiftr_u32; [range|lia].
Qed.
Lemma cslli_folds v :
  shl32 (reg s (rd ir)) (u8 (imm ir)) = Some v ->
  do_cslli s ir cycle (pc ir) = Nextop (set_reg (rd ir) (u32 v) s) (pc ir).
Proof.
  intros E. unfold do_cslli, wr_rd. rewrite E. facts. by rewrite u32_small.
Qed.
End Values.

Ltac side Eo :=
  solve [rewrite Eo; reflexivity | rewrite Eo; discriminate | by left | by right].
(** The handler and the folder compute the same 32-bit value. *)
Ltac same_value :=
  match goal with |- ?f = _ => let h := head_of f in unfold h end;
  unfold wr_rd, wr_rs1; cbv zeta;
  f_equal; f_equal; autorewrite with words;
  first
  [ reflexivity
  | f_equal; lia
  | symmetry; apply u32_small; range
  | rewrite ?u32_lxor, ?u32_lor, ?u32_land, ?u32_s32, ?u32_idem, !u32_small by range;
    first [reflexivity | apply Z.lxor_comm | apply Z.lor_comm | apply Z.land_comm]
  | symmetry; etransitivity; [apply u32_small; range|];
    first [apply Z.lxor_comm | apply Z.lor_comm | apply Z.land_comm]
  | by rewrite u64_mul_l ].

(** Every instruction that does not end a block. *)
Lemma constopt_insn `{riscv_io_laws} `{softfloat_laws} ir info ir' info' s cycle :
  constopt_table (opcode ir) ir info = Some (ir', info') ->
  opt_ok ir -> agree info s -> wf s -> insn_is_branch (opcode ir) = false ->
  folded ir ir' info' s cycle.
Proof.
  intros E Hok Ha Hs Hb. pose proof (opt_wf ir Hok) as Hir. pose proof (opt_scw ir Hok) as Hscw.
  destruct (opcode ir) eqn:Eo; cbn [constopt_table] in E; try discriminate; try done;
    match type of E with ?f = _ => let h := head_of f in unfold h in E; cbv beta in E end.
  (* instructions the folder leaves alone *)
  all: try solve [injection E as <- <-; first
    [ eapply keep_ok; try eassumption; side Eo
    | eapply kill_ok; try eassumption; side Eo
    | eapply kill_nz_ok; try eassumption; side Eo]].
  (* the three folding shapes *)
  all: try lazymatch type of E with
    | fold1 _ _ _ _ = _ =>
      eapply fold1_ok; [eassumption..|side Eo|side Eo|side Eo|exact E|side Eo|side Eo|side Eo|];
      rewrite Eo; cbn [insn_body];
      lazymatch goal with
      | |- do_slli _ _ _ _ = _ => apply shift_folds; [done|by rewrite Eo]
      | |- do_srli _ _ _ _ = _ => apply shift_folds; [done|by rewrite Eo]
      | |- do_srai _ _ _ _ = _ =>
        etransitivity; [apply shift_folds; [done|by rewrite Eo]|by rewrite u32_idem]
      | _ => same_value
      end
    | fold2 _ _ _ _ = _ =>
      eapply fold2_ok; [eassumption..|side Eo|side Eo|side Eo|exact E|side Eo|side Eo|side Eo|];
      intros v Ev; rewrite Eo; cbn [insn_body];
      lazymatch goal with
      | |- do_mulhu _ _ _ _ = _ => by apply mulhu_folds
      | |- do_divu _ _ _ _ = _ => injection Ev as <-; by apply divu_folds
      | |- do_remu _ _ _ _ = _ => injection Ev as <-; by apply remu_folds
      | _ => injection Ev as <-; same_value
      end
    | fold_inplace _ _ _ _ = _ =>
      eapply fold_inplace_ok;
      [eassumption..|side Eo|side Eo|side Eo|exact E|solve [auto with machine]|side Eo|side Eo|];
      intros v Ev; rewrite Eo; cbn [insn_body];
      lazymatch goal with
      | |- do_csrli _ _ _ _ = _ => by apply csrli_folds
      | |- do_csrai _ _ _ _ = _ => by apply csrai_folds
      | |- do_cslli _ _ _ _ = _ => by apply cslli_folds
      | _ => injection Ev as <-; same_value
      end
    end.
  - (* nop *) injection E as <- <-. apply folded_id. rewrite Eo. intros s' p [= <- <-].
    destruct Ha as [Lc Lv Hv Hz]. split; try done. intros r Hr K.
    destruct (decide (rv_reg_zero = r)) as [<-|].
    + rewrite reg_set_reg_eq by (apply Hs || done). symmetry. by apply Hz.
    + rewrite reg_set_reg_ne by (unfold is_reg, rv_reg_zero in *; lia). by apply Hv.
  - (* lui *) injection E as <- <-. apply folded_id. rewrite Eo. intros s' p [= <- <-].
    apply agree_set; auto with machine; [apply Hs|].
    by eapply dest_nonzero; try eassumption; side Eo.
  - (* auipc *) eapply fold_rd_ok; [eassumption..|side Eo|side Eo|side Eo|exact E|side Eo|side Eo|side Eo|].
    by rewrite Eo.
  - (* caddi4spn *)
    destruct (known info rv_reg_sp) eqn:K; [|unfold kill_rd in E; injection E as <- <-; eapply kill_ok; try eassumption; side Eo].
    eapply fold_rd_ok; [eassumption..|side Eo|side Eo|side Eo|exact E|side Eo|side Eo|side Eo|].
    rewrite Eo. rewrite <- (agree_val info s Ha) by done. done.
  - (* cli *) injection E as <- <-. apply folded_id. rewrite Eo. intros s' p [= <- <-].
    apply agree_set; auto with machine; [apply Hs|].
    by eapply dest_nonzero; try eassumption; side Eo.
  - (* clui *) injection E as <- <-. apply folded_id. rewrite Eo. intros s' p [= <- <-].
    apply agree_set; auto with machine; [apply Hs|].
    by eapply dest_nonzero; try eassumption; side Eo.
  - (* cmv *)
    destruct (known info (rs2 ir)) eqn:K; [|unfold kill_rd in E; injection E as <- <-; eapply kill_ok; try eassumption; side Eo].
    eapply fold_rd_ok; [eassumption..|side Eo|side Eo|side Eo|exact E|side Eo|side Eo|side Eo|].
    rewrite Eo. rewrite <- (agree_val info s Ha) by auto with machine.
    rewrite u32_small by range. done.
Qed.

(** * The branch at the end of a block *)

(** The links to successor blocks are set only after a block has run. *)
Definition unlinked (ir : rv_insn) : Prop := branch_taken ir = None /\ branch_untaken ir = None.

Section Branch.
Context `{riscv_io} `{softfloat}.
Context (ir : rv_insn) (s : riscv) (cycle : Z).
Hypothesis Hun : unlinked ir.

(** Running a conditional branch that ends a block. *)
Lemma run_branch b :
  insn_is_branch (opcode ir) = true -> insn_len (opcode ir) = 4 ->
  RVOP (fun s ir _ PC => BRANCH_FUNC b s ir PC) false s ir cycle (pc ir)
  ≡ Ret true (set_PC (pc ir +u (if b then 4 else imm ir)) (set_csr_cycle (u64 (cycle + 1)) s)).
Proof.
  intros HB HL. destruct Hun as [H1 H2]. unfold RVOP, BRANCH_FUNC, end_op.
  destruct b; rewrite ?H2, HB, ?HL; reflexivity.
Qed.
Lemma run_jal i :
  rd ir = rv_reg_zero ->
  do_insn false s (set_opcode rv_insn_jal (set_imm i ir)) cycle (pc ir)
  = Ret true (set_PC (pc ir +u i) (set_csr_cycle (u64 (cycle + 1)) s)).
Proof.
  intros Hd. destruct Hun as [H1 H2]. unfold do_insn, RVOP. cbn [opcode set_opcode insn_body].
  unfold do_jal, jump, link. cbn. rewrite Hd, H1. reflexivity.
Qed.
Lemma run_cbranch b :
  insn_is_branch (opcode ir) = true -> insn_len (opcode ir) = 2 ->
  RVOP (fun s ir _ PC => c_branch b s ir PC) false s ir cycle (pc ir)
  ≡ Ret true (set_PC (pc ir +u (if b then 2 else imm ir)) (set_csr_cycle (u64 (cycle + 1)) s)).
Proof.
  intros HB HL. destruct Hun as [H1 H2]. unfold RVOP, c_branch, jump, end_op.
  destruct b; rewrite ?H1, ?H2, HB, ?HL; reflexivity.
Qed.
Lemma run_cj i :
  do_insn false s (set_opcode rv_insn_cj (set_imm i ir)) cycle (pc ir)
  = Ret true (set_PC (pc ir +u i) (set_csr_cycle (u64 (cycle + 1)) s)).
Proof.
  destruct Hun as [H1 H2]. unfold do_insn, RVOP. cbn [opcode set_opcode insn_body].
  unfold do_cj, jump. cbn. rewrite H1. reflexivity.
Qed.
End Branch.

Lemma set_imm_id ir : set_imm (imm ir) ir = ir.
Proof. by destruct ir. Qed.

Lemma OPT_BRANCH_ok `{riscv_io} `{softfloat} nt ir info ir' info' s cycle :
  OPT_BRANCH_FUNC nt ir info = Some (ir', info') ->
  opt_ok ir -> agree info s -> unlinked ir -> is_cond_branch (opcode ir) = true ->
  do_insn false s ir cycle (pc ir)
  = RVOP (fun s ir _ PC => BRANCH_FUNC (nt (reg s (rs1 ir)) (reg s (rs2 ir))) s ir PC) false
      s ir cycle (pc ir) ->
  do_insn false s ir' cycle (pc ir) ≡ do_insn false s ir cycle (pc ir).
Proof.
  unfold OPT_BRANCH_FUNC. intros E Hok Ha Hu Hc Hrun.
  destruct (known info (rs1 ir) && known info (rs2 ir)) eqn:K; [|by injection E as <- <-].
  apply andb_true_iff in K as [K1 K2]. injection E as <- <-.
  pose proof (opt_wf ir Hok) as Hir.
  rewrite <- !(agree_val info s Ha) by auto with machine. rewrite Hrun.
  set (b := nt _ _). change (RVOP _ _ _ _ _ _) with
    (RVOP (fun s ir (_ : Z) PC => BRANCH_FUNC b s ir PC) false s ir cycle (pc ir)).
  rewrite run_branch by (done || by destruct (opcode ir)).
  rewrite <- (run_jal ir s cycle Hu) by (by apply Hok).
  by destruct b; rewrite ?set_imm_id.
Qed.

(** [C.BEQZ] and [C.BNEZ]; [nt] is the condition under which the branch falls through. *)
Lemma opt_cbranch_ok `{riscv_io} `{softfloat} (nt : Z -> bool) ir ir' info s cycle :
  ir' = (if known info (rs1 ir)
         then set_opcode rv_insn_cj (if nt (val info (rs1 ir)) then set_imm 2 ir else ir)
         else ir) ->
  wf_ir ir -> agree info s -> unlinked ir ->
  opcode ir = rv_insn_cbeqz \/ opcode ir = rv_insn_cbnez ->
  do_insn false s ir cycle (pc ir)
  = RVOP (fun s ir _ PC => c_branch (nt (reg s (rs1 ir))) s ir PC) false s ir cycle (pc ir) ->
  do_insn false s ir' cycle (pc ir) ≡ do_insn false s ir cycle (pc ir).
Proof.
  intros -> Hir Ha Hu Ho Hrun. destruct (known info (rs1 ir)) eqn:K; [|done].
  rewrite <- (agree_val info s Ha) by auto with machine. rewrite Hrun.
  set (b := nt _). change (RVOP _ _ _ _ _ _) with
    (RVOP (fun s ir (_ : Z) PC => c_branch b s ir PC) false s ir cycle (pc ir)).
  rewrite run_cbranch by (done || by destruct Ho as [-> | ->]).
  rewrite <- (run_cj ir s cycle Hu). by destruct b; rewrite ?set_imm_id.
Qed.

Lemma constopt_branch `{riscv_io} `{softfloat} ir info ir' info' s cycle :
  constopt_table (opcode ir) ir info = Some (ir', info') ->
  opt_ok ir -> agree info s -> unlinked ir -> insn_is_branch (opcode ir) = true ->
  do_insn false s ir' cycle (pc ir) ≡ do_insn false s ir cycle (pc ir).
Proof.
  intros E Hok Ha Hu Hb. pose proof (opt_wf ir Hok) as Hir.
  destruct (opcode ir) eqn:Eo; try discriminate Hb; cbn [constopt_table] in E;
    match type of E with ?f = _ => let h := head_of f in unfold h in E; cbv beta in E end;
    lazymatch type of E with
    | OPT_BRANCH_FUNC _ _ _ = _ =>
      eapply OPT_BRANCH_ok; try eassumption; rewrite ?Eo; try done; unfold do_insn; by rewrite Eo
    | _ => try (injection E as <- <-; done)
    end.
  - apply (opt_cbranch_ok truth ir ir' info); auto; [|unfold do_insn; by rewrite Eo].
    by destruct (known info (rs1 ir)); injection E as <- <-.
  - apply (opt_cbranch_ok (fun v => negb (truth v)) ir ir' info); auto;
      [|unfold do_insn; by rewrite Eo].
    by destruct (known info (rs1 ir)); injection E as <- <-.
Qed.

(** * A block *)

(** The IRs of a freshly translated block that starts at [pc0]: consecutive
    instructions, of which only the last may end the block. *)
Fixpoint straight (pc0 : Z) (irs : list rv_insn) : Prop :=
  match irs with
  | [] => True
  | ir :: rest =>
    pc ir = pc0 /\ opt_ok ir /\ unlinked ir /\
    (rest <> [] -> insn_is_branch (opcode ir) = false) /\
    straight (pc0 +u insn_len (opcode ir)) rest
  end.

Lemma do_insn_folded `{riscv_io} `{softfloat} n ir ir' info' s cycle :
  folded ir ir' info' s (u64 (cycle + 1)) ->
  do_insn n s ir' cycle (pc ir) = do_insn n s ir cycle (pc ir).
Proof.
  intros (E & _ & HL & HB & HT). unfold do_insn, RVOP. rewrite E.
  unfold end_op. by rewrite HL, HB, HT.
Qed.

Lemma optimize_from_nil irs info irs' :
  optimize_from irs info = Some irs' -> irs = [] <-> irs' = [].
Proof.
  destruct irs as [|ir irs]; cbn; [by intros [= <-]|].
  intros ([ir' info'] & _ & (rest & _ & [= <-])%bind_Some)%bind_Some. done.
Qed.

(** The result of a fall-through in terms of the body. *)
Lemma do_insn_Go_next `{riscv_io} `{softfloat} n s ir cycle pc0 s' c p :
  do_insn n s ir cycle pc0 = Go_next s' c p ->
  exists pc', insn_body (opcode ir) s ir (u64 (cycle + 1)) pc0 = Nextop s' pc' /\
              p = pc0 +u insn_len (opcode ir) /\ n = true.
Proof.
  unfold do_insn, RVOP. destruct (insn_body _ _ _ _ _) eqn:E; try done.
  - destruct n; [|unfold end_op; repeat case_match; done]. intros [= <- <- <-].
    apply body_frame in E as [-> _]. eauto.
  - unfold end_op. repeat case_match; done.
Qed.

Lemma optimize_from_sound `{riscv_io_laws} `{softfloat_laws} irs :
  forall info irs' s cycle pc0,
  optimize_from irs info = Some irs' -> straight pc0 irs -> agree info s -> wf s ->
  is_u32 pc0 ->
  run_irs do_insn irs' s cycle pc0 ≡ run_irs do_insn irs s cycle pc0.
Proof.
  induction irs as [|ir irs IH]; intros info irs' s cycle pc0 E Hst Ha Hs Hpc.
  { by injection E as <-. }
  cbn in E. apply bind_Some in E as ([ir' info'] & Ei & (rest' & Er & [= <-])%bind_Some).
  destruct Hst as (<- & Hok & Hu & Hnb & Hst). pose proof (optimize_from_nil _ _ _ Er) as Hnil.
  destruct (insn_is_branch (opcode ir)) eqn:Hb.
  - assert (irs = []) as -> by (destruct irs; [done|by specialize (Hnb ltac:(done))]).
    destruct rest'; [|by destruct Hnil as [Hn _]; specialize (Hn eq_refl)].
    pose proof (constopt_branch ir info ir' info' s cycle Ei Hok Ha Hu Hb) as HE.
    cbn [run_irs]. destruct (do_insn _ _ ir' _ _), (do_insn _ _ ir _ _); try exact HE; done.
  - pose proof (constopt_insn ir info ir' info' s (u64 (cycle + 1)) Ei Hok Ha Hs Hb) as HF.
    cbn [run_irs]. replace (match rest' with [] => false | _ => true end)
      with (match irs with [] => false | _ => true end)
      by (destruct irs, rest'; intuition congruence).
    rewrite (do_insn_folded _ _ _ _ _ _ HF).
    pose proof (do_insn_wf (match irs with [] => false | _ => true end) s ir cycle (pc ir)
      Hs (opt_wf ir Hok) Hpc) as W.
    destruct (do_insn _ _ ir _ _) eqn:ED; try done. destruct W as (Ws & _ & Wp).
    apply do_insn_Go_next in ED as (pc' & EB & -> & _). eapply IH; eauto. by eapply HF.
Qed.

Lemma known_init r : is_reg r -> known info_init r = true -> r = rv_reg_zero.
Proof.
  unfold is_reg, known, info_init. cbn [is_constant]. intros Hr.
  destruct (Z.to_nat r) as [|n] eqn:E; cbn [nth]; [unfold rv_reg_zero; lia|].
  rewrite nth_lookup. destruct (decide (n < 31)%nat).
  - by rewrite lookup_replicate_2.
  - by rewrite (proj2 (lookup_ge_None _ _)) by (rewrite length_replicate; lia).
Qed.

Lemma agree_init s : reg s rv_reg_zero = 0 -> agree info_init s.
Proof. intros Hz. split; [done..| |done]. intros r Hr ->%known_init; done. Qed.

(** C8: constant folding is sound.  A freshly translated block without [sc.w], in which only
    loads, CSR instructions, jumps and the handlers that test [rd] may name [x0] as their
    destination, and its optimised version, run from the same state with [x0 = 0], do the same: the same registers, memory, CSRs,
    cycle count, program counter, traps and callbacks, and the same way of leaving the
    block.  The states may differ only in [is_branch_taken], because a conditional branch
    with a known outcome has become an unconditional jump. *)
Theorem optimize_constant_sound `{riscv_io_laws} `{softfloat_laws} irs irs' s cycle pc0 :
  optimize_constant irs = Some irs' -> straight pc0 irs -> wf s -> is_u32 pc0 ->
  reg s rv_reg_zero = 0 ->
  run_irs do_insn irs' s cycle pc0 ≡ run_irs do_insn irs s cycle pc0.
Proof. intros. eapply optimize_from_sound; eauto using agree_init. Qed.

(** A block the folder rewrites completely:
    [lui x1,1; addi x2,x1,-1; sub x3,x1,x2; bne x3,x0,+64]. *)
Definition fold_sample : list rv_insn :=
  [ mk_insn 0x1000 1 0 0 rv_insn_lui 0 0 0 [] 0x100 None None;
    mk_insn (-1) 2 1 0 rv_insn_addi 0 0 0 [] 0x104 None None;
    mk_insn 0 3 1 2 rv_insn_sub 0 0 0 [] 0x108 None None;
    mk_insn 64 0 3 0 rv_insn_bne 0 0 0 [] 0x10c None None ].
Definition fold_sample' : list rv_insn :=
  [ mk_insn 0x1000 1 0 0 rv_insn_lui 0 0 0 [] 0x100 None None;
    mk_insn 0xfff 2 1 0 rv_insn_lui 0 0 0 [] 0x104 None None;
    mk_insn 1 3 1 2 rv_insn_lui 0 0 0 [] 0x108 None None;
    mk_insn 64 0 3 0 rv_insn_jal 0 0 0 [] 0x10c None None ].

Lemma optimize_constant_sound_witness :
  optimize_constant fold_sample = Some fold_sample' /\
  run_irs (@do_insn quiet_io zero_softfloat) fold_sample' (reset_state ∅ 4096) 0 0x100
  ≡ run_irs (@do_insn quiet_io zero_softfloat) fold_sample (reset_state ∅ 4096) 0 0x100.
Proof.
  split; [reflexivity|].
  apply (@optimize_constant_sound quiet_io quiet_io_laws zero_softfloat zero_softfloat_laws).
  - reflexivity.
  - cbn; repeat split; cbn in *; solve [lia | done | intros; congruence].
  - apply reset_state_wf.
  - unfold is_u32. lia.
  - reflexivity.
Defined.

(** * Definedness *)

(** Operands for which the folder's own arithmetic is defined: shift amounts below 32
    and no [mulhu], whose signed 64-bit product may overflow. *)
Definition fold_defined (ir : rv_insn) : bool :=
  match opcode ir with
  | rv_insn_mulhu => false
  | rv_insn_csrli | rv_insn_csrai => (0 <=? shamt ir) && (shamt ir <? 32)
  | rv_insn_cslli => u8 (imm ir) <? 32
  | o => negb (is_fuse o)
  end.

Lemma shr32_defined x n : (0 <=? n) && (n <? 32) = true -> exists v, shr32 x n = Some v.
Proof. intros E. unfold shr32. rewrite E. eauto. Qed.
Lemma shl32_u8_defined x n : (u8 n <? 32) = true -> exists v, shl32 x (u8 n) = Some v.
Proof.
  intros E. unfold shl32. rewrite E. pose proof (u8_range n).
  destruct (Z.leb_spec 0 (u8 n)); [|lia]. cbn. eauto.
Qed.

Lemma constopt_defined ir info :
  fold_defined ir = true -> exists r, constopt_table (opcode ir) ir info = Some r.
Proof.
  unfold fold_defined. intros E. destruct (opcode ir); try discriminate E;
    cbn [constopt_table];
    match goal with |- exists r, ?f = _ => let h := head_of f in unfold h end;
    unfold keep, kill_rd, kill_rd_nz, OPT_BRANCH_FUNC, fold1, fold2, fold_inplace, fold_to;
    cbv zeta; repeat case_match; eauto.
  - destruct (shr32_defined (val info (rs1 ir)) (shamt ir) E) as [v ->]. cbn. eauto.
  - destruct (shr32_defined (val info (rs1 ir)) (shamt ir) E) as [v ->]. cbn. eauto.
  - destruct (shl32_u8_defined (val info (rd ir)) (imm ir) E) as [v ->]. cbn. eauto.
Qed.

Lemma optimize_from_defined irs :
  forallb fold_defined irs = true ->
  forall info, exists irs', optimize_from irs info = Some irs' /\ length irs' = length irs.
Proof.
  induction irs as [|ir irs IH]; cbn; intros E info; [by exists []|].
  apply andb_true_iff in E as [E1 E2].
  destruct (constopt_defined ir info E1) as [[ir' info'] ->]. cbn.
  destruct (IH E2 info') as (rest & -> & HL). cbn.
  eexists. split; [reflexivity|]. cbn. by rewrite HL.
Qed.

(** The optimiser always produces a block of the same length when the operands its
    arithmetic needs are defined, so the fall-through chain of IRs stays intact. *)
Theorem optimize_constant_total irs :
  forallb fold_defined irs = true ->
  exists irs', optimize_constant irs = Some irs' /\ length irs' = length irs.
Proof. intros. by apply optimize_from_defined. Qed.
Lemma optimize_constant_total_witness :
  exists irs', optimize_constant fold_sample = Some irs' /\ length irs' = length fold_sample.
Proof. apply (optimize_constant_total fold_sample). reflexivity. Defined.

(** * What goes wrong with [sc.w]

    [addi x5,x0,7; sc.w x5,x0,(x0); addi x6,x5,0]: the handler stores 0 in [x5], the
    folder still believes in 7. *)
Definition scw_block : list rv_insn :=
  [ mk_insn 7 5 0 0 rv_insn_addi 0 0 0 [] 0 None None;
    mk_insn 0 5 0 0 rv_insn_scw 0 0 0 [] 4 None None;
    mk_insn 0 6 5 0 rv_insn_addi 0 0 0 [] 8 None None ].
Definition result_reg (r : step_result) (n : Z) : Z :=
  match r with Ret _ s => reg s n | _ => 0 end.

(** The exclusion of [sc.w] from the soundness theorem is necessary: on this block
    the interpreter computes [x6 = 0] and the optimised block [x6 = 7]. *)
Theorem optimize_constant_scw_unsound :
  exists irs', optimize_constant scw_block = Some irs' /\
    result_reg (run_irs (@do_insn quiet_io zero_softfloat) scw_block (reset_state ∅ 4096) 0 0) 6 = 0 /\
    result_reg (run_irs (@do_insn quiet_io zero_softfloat) irs' (reset_state ∅ 4096) 0 0) 6 = 7.
Proof. eexists. by split; [reflexivity|]. Qed.
