(* ===== verification/DecodeProofs.v ===== *)
(** Properties of the decoder: every immediate has the bits the RISC-V encoding
    assigns to it, every accepted word gives an IR in range, and the length the
    interpreter will advance by is the length of the encoding. *)

From S2P Require Import Prelude.
From S2P Require Import Opcode.
From S2P Require Import Decode.
From S2P Require Import Machine.
From S2P Require Import Interp.
From S2P Require Import MachineFacts.
From S2P Require Import Invariant.
From S2P Require Import Constopt.
From S2P Require Import ConstoptProofs.
From Stdlib Require Import Btauto.

(** * Immediates

    The encoding formats of the ISA manual, as tables: entry [i] is the bit of the
    instruction word that bit [i] of the immediate is a copy of; [None] is a zero bit. *)

Definition bits (lo n : nat) : list (option nat) := Some <$> seq lo n.
Definition sext (b n : nat) : list (option nat) := replicate n (Some b).
Definition zeros (n : nat) : list (option nat) := replicate n None.

Definition I_imm := bits 20 11 ++ sext 31 21.
Definition S_imm := bits 7 5 ++ bits 25 6 ++ sext 31 21.
Definition B_imm := zeros 1 ++ bits 8 4 ++ bits 25 6 ++ bits 7 1 ++ sext 31 20.
Definition U_imm := zeros 12 ++ bits 12 20.
Definition J_imm := zeros 1 ++ bits 21 10 ++ bits 20 1 ++ bits 12 8 ++ sext 31 12.
Definition CI_imm := bits 2 5 ++ sext 12 27.
Definition CLUI_imm := zeros 12 ++ bits 2 5 ++ sext 12 15.
Definition CADDI16SP_imm :=
  zeros 4 ++ bits 6 1 ++ bits 2 1 ++ bits 5 1 ++ bits 3 2 ++ sext 12 23.
Definition CADDI4SPN_imm :=
  zeros 2 ++ bits 6 1 ++ bits 5 1 ++ bits 11 2 ++ bits 7 4 ++ zeros 22.
Definition CJ_imm :=
  zeros 1 ++ bits 3 3 ++ bits 11 1 ++ bits 2 1 ++ bits 7 1 ++ bits 6 1 ++ bits 9 2 ++
  bits 8 1 ++ sext 12 21.
Definition CB_imm :=
  zeros 1 ++ bits 3 2 ++ bits 10 2 ++ bits 2 1 ++ bits 5 2 ++ sext 12 24.
Definition CLW_imm := zeros 2 ++ bits 6 1 ++ bits 10 3 ++ bits 5 1 ++ zeros 25.
Definition CLWSP_imm := zeros 2 ++ bits 4 3 ++ bits 12 1 ++ bits 2 2 ++ zeros 24.
Definition CSWSP_imm := zeros 2 ++ bits 9 4 ++ bits 7 2 ++ zeros 24.

(** [v] is the immediate that [tbl] describes in [insn]. *)
Definition encodes (tbl : list (option nat)) (insn v : Z) : Prop :=
  is_s32 v /\
  forall i, (i < 32)%nat ->
    Z.testbit v (Z.of_nat i)
    = match tbl !! i with Some (Some b) => Z.testbit insn (Z.of_nat b) | _ => false end.

(** ** Bits of signed values *)

Lemma testbit_neg y i : - 2 ^ i <= y < 0 -> 0 <= i -> Z.testbit y i = true.
Proof.
  intros Hy Hi. replace y with (Z.lnot (- y - 1)) by (unfold Z.lnot; lia).
  rewrite Z.lnot_spec, (testbit_above (- y - 1) i i) by lia. done.
Qed.
Lemma testbit_s32 x i : 0 <= i < 31 -> Z.testbit (s32 x) i = Z.testbit x i.
Proof.
  intros Hi. pose proof (testbit_u32 (s32 x) i ltac:(lia)) as E1.
  pose proof (testbit_u32 x i ltac:(lia)) as E2. rewrite u32_s32 in E1.
  destruct (Z.ltb_spec i 32); [|lia]. cbn in *. congruence.
Qed.
Lemma testbit_s32_sign x i : 31 <= i -> Z.testbit (s32 x) i = Z.testbit x 31.
Proof.
  intros Hi. pose proof (s32_range x) as R.
  assert (Z.testbit x 31 = Z.testbit (s32 x) 31) as ->.
  { pose proof (testbit_u32 (s32 x) 31 ltac:(lia)) as E1.
    pose proof (testbit_u32 x 31 ltac:(lia)) as E2. rewrite u32_s32 in E1.
    cbn [andb Z.ltb Z.compare Pos.compare Pos.compare_cont] in *. congruence. }
  assert (2 ^ 31 <= 2 ^ i) by (apply Z.pow_le_mono_r; lia).
  destruct (Z.lt_ge_cases (s32 x) 0).
  - by rewrite !testbit_neg by lia.
  - by rewrite !(testbit_above _ 31) by lia.
Qed.

Lemma u16_s16 x : u16 (s16 x) = u16 x.
Proof. unfold u16, s16. mlia. Qed.
Lemma s16_range x : - 0x8000 <= s16 x < 0x8000.
Proof. unfold s16. mlia. Qed.
Lemma testbit_s16 x i : 0 <= i < 15 -> Z.testbit (s16 x) i = Z.testbit x i.
Proof.
  intros Hi. pose proof (testbit_u16 (s16 x) i ltac:(lia)) as E1.
  pose proof (testbit_u16 x i ltac:(lia)) as E2. rewrite u16_s16 in E1.
  destruct (Z.ltb_spec i 16); [|lia]. cbn in *. congruence.
Qed.
Lemma testbit_s16_sign x i : 15 <= i -> Z.testbit (s16 x) i = Z.testbit x 15.
Proof.
  intros Hi. pose proof (s16_range x) as R.
  assert (Z.testbit x 15 = Z.testbit (s16 x) 15) as ->.
  { pose proof (testbit_u16 (s16 x) 15 ltac:(lia)) as E1.
    pose proof (testbit_u16 x 15 ltac:(lia)) as E2. rewrite u16_s16 in E1.
    cbn [andb Z.ltb Z.compare Pos.compare Pos.compare_cont] in *. congruence. }
  assert (2 ^ 15 <= 2 ^ i) by (apply Z.pow_le_mono_r; lia).
  destruct (Z.lt_ge_cases (s16 x) 0).
  - by rewrite !testbit_neg by lia.
  - by rewrite !(testbit_above _ 15) by lia.
Qed.

(** The sign-extension loops of the C.J and C.B formats copy bit [k] upwards. *)
Lemma smear_spec k tmp n j :
  0 <= k -> 0 <= j < 16 ->
  Z.testbit (foldl (fun tmp i => u16 (tmp |u ((2 ^ k &u tmp) <<u Z.of_nat i))) tmp (seq 1 n)) j
  = Z.testbit tmp j || ((k <? j) && (j <=? k + Z.of_nat n) && Z.testbit tmp k).
Proof.
  intros Hk. revert j. induction n as [|n IH]; intros j Hj.
  { cbn [seq foldl]. destruct (Z.ltb_spec k j), (Z.leb_spec j (k + Z.of_nat 0)); try lia;
      cbn; by rewrite orb_false_r. }
  rewrite seq_S, foldl_app. cbn [foldl].
  rewrite testbit_u16, Z.lor_spec, Z.shiftl_spec, Z.land_spec, Z.pow2_bits_eqb, IH by lia.
  destruct (Z.ltb_spec j 16); [|lia]. cbn [andb].
  destruct (Z.eqb_spec k (j - Z.of_nat (1 + n))) as [Ek|Ek].
  - rewrite IH by lia. replace (j - Z.of_nat (1 + n)) with k by lia.
    destruct (Z.ltb_spec k j), (Z.leb_spec j (k + Z.of_nat n)), (Z.leb_spec j (k + Z.of_nat (S n)));
      try lia. destruct (Z.ltb_spec k k); [lia|]. cbn. btauto.
  - destruct (Z.ltb_spec k j), (Z.leb_spec j (k + Z.of_nat n)), (Z.leb_spec j (k + Z.of_nat (S n)));
      try lia; cbn; btauto.
Qed.

Lemma is_s32_shiftr x n : is_s32 x -> 0 <= n -> is_s32 (Z.shiftr x n).
Proof.
  unfold is_s32. intros Hx Hn. rewrite Z.shiftr_div_pow2 by done.
  assert (0 < 2 ^ n) by (by apply Z.pow_pos_nonneg).
  split; [apply Z.div_le_lower_bound; nia|apply Z.div_lt_upper_bound; nia].
Qed.

(** Compare the 32 bits one by one. *)
Ltac bit_cases :=
  lazymatch goal with
  | |- forall i, (i < 0)%nat -> _ => apply forall_lt_0
  | |- forall i, (i < S _)%nat -> _ => apply forall_lt_S; [bit_cases|]
  | |- forall i, (i < 32)%nat -> _ => apply forall_lt_S; [bit_cases|]
  end.
Ltac bit_eval insn :=
  repeat first
    [ rewrite Z.land_spec | rewrite Z.lor_spec
    | rewrite Z.shiftr_spec by lia | rewrite Z.shiftl_spec by lia
    | rewrite (smear_spec 11) by lia | rewrite (smear_spec 8) by lia
    | rewrite testbit_s32 by lia | rewrite testbit_s32_sign by lia
    | rewrite testbit_s16 by lia | rewrite testbit_s16_sign by lia
    | rewrite testbit_u32 by lia | rewrite testbit_u16 by lia | rewrite testbit_u8 by lia ];
  generalize (Z.testbit insn); intros f; cbv; btauto.
(** The same, where [E] gives the value of a bit of [insn]. *)
Ltac bit_eval_if insn E :=
  repeat first
    [ rewrite Z.land_spec | rewrite Z.lor_spec
    | rewrite Z.shiftr_spec by lia | rewrite Z.shiftl_spec by lia
    | rewrite testbit_s32 by lia | rewrite testbit_s32_sign by lia
    | rewrite testbit_u32 by lia ];
  revert E; generalize (Z.testbit insn); cbv; intros f E; rewrite ?E; btauto.

(** ** The formats *)

Lemma itype_encodes insn : encodes I_imm insn (decode_itype_imm insn).
Proof.
  split; [apply is_s32_shiftr; auto with words; lia|]. unfold decode_itype_imm.
  bit_cases; bit_eval insn.
Qed.
Lemma stype_encodes insn : encodes S_imm insn (decode_stype_imm insn).
Proof.
  split; [apply is_s32_shiftr; auto with words; lia|]. unfold decode_stype_imm. cbv zeta.
  bit_cases; bit_eval insn.
Qed.
Lemma btype_encodes insn : encodes B_imm insn (decode_btype_imm insn).
Proof.
  split; [apply is_s32_shiftr; auto with words; lia|]. unfold decode_btype_imm. cbv zeta.
  bit_cases; bit_eval insn.
Qed.
Lemma utype_encodes insn : encodes U_imm insn (s32 (decode_utype_imm insn)).
Proof.
  split; [auto with words|]. unfold decode_utype_imm. bit_cases; bit_eval insn.
Qed.
Lemma jtype_encodes insn : encodes J_imm insn (decode_jtype_imm insn).
Proof.
  split; [apply is_s32_shiftr; auto with words; lia|]. unfold decode_jtype_imm. cbv zeta.
  bit_cases; bit_eval insn.
Qed.

Lemma small_s32 x : 0 <= x < 0x10000 -> is_s32 x.
Proof. unfold is_s32. lia. Qed.
Lemma cjtype_encodes insn : encodes CJ_imm insn (c_decode_cjtype_imm insn).
Proof.
  split; [unfold c_decode_cjtype_imm, is_s32; pose proof s16_range as R; cbv zeta;
          match goal with |- _ <= s16 ?x < _ => specialize (R x); lia end|].
  unfold c_decode_cjtype_imm. cbv zeta. change 0x0800 with (2 ^ 11).
  bit_cases; bit_eval insn.
Qed.
Lemma cbtype_encodes insn : encodes CB_imm insn (s32 (sign_extend_h (c_decode_cbtype_imm insn))).
Proof.
  split; [auto with words|].
  unfold c_decode_cbtype_imm, sign_extend_h. cbv zeta. change 0x0100 with (2 ^ 8).
  bit_cases; bit_eval insn.
Qed.
Lemma caddi4spn_encodes insn : encodes CADDI4SPN_imm insn (c_decode_caddi4spn_nzuimm insn).
Proof.
  split; [apply small_s32, u16_range|]. unfold c_decode_caddi4spn_nzuimm. cbv zeta.
  bit_cases; bit_eval insn.
Qed.
Lemma clwsp_encodes insn : encodes CLWSP_imm insn (clwsp_imm insn).
Proof.
  split; [apply small_s32, u16_range|]. unfold clwsp_imm. cbv zeta. bit_cases; bit_eval insn.
Qed.

(** ** Ranges of masked fields *)

Lemma u16_small x : 0 <= x < 0x10000 -> u16 x = x.
Proof. apply Z.mod_small. Qed.

Lemma decode_rd_reg insn : is_reg (decode_rd insn).
Proof. by apply field_range. Qed.
Lemma decode_rs1_reg insn : is_reg (decode_rs1 insn).
Proof. by apply field_range. Qed.
Lemma decode_rs2_reg insn : is_reg (decode_rs2 insn).
Proof. by apply field_range. Qed.
Lemma decode_funct3_range insn : 0 <= decode_funct3 insn < 8.
Proof. by apply field_range. Qed.

(** Compressed register fields: the five-bit ones and the three-bit ones. *)
Lemma c_field5 insn c k :
  0 <= k -> 0 <= c -> c / 2 ^ k < 32 -> is_reg (u16 ((insn &u c) >>u k)).
Proof.
  intros. pose proof (field_range insn c k 32). unfold is_reg. rewrite u16_small; lia.
Qed.
Lemma c_field3 insn c k :
  0 <= k -> 0 <= c -> c / 2 ^ k < 8 -> 8 <= u16 ((insn &u c) >>u k) |u 0x08 < 16.
Proof.
  intros. pose proof (field_range insn c k 8). rewrite u16_small by lia.
  set (v := (insn &u c) >>u k) in *. pose proof (lor_le_add v 8).
  pose proof (Z.add_lor_land v 8) as E. replace (v &u 8) with 0 in E; [lia|].
  symmetry. apply Z.bits_inj'. intros i Hi. rewrite Z.land_spec, Z.bits_0.
  change 8 with (2 ^ 3). rewrite Z.pow2_bits_eqb by lia.
  destruct (Z.eqb_spec 3 i) as [<-|]; [|btauto]. by rewrite (testbit_above v 3) by lia.
Qed.

Lemma cswsp_encodes insn : encodes CSWSP_imm insn (cswsp_imm insn).
Proof.
  split.
  - unfold cswsp_imm, is_s32.
    pose proof (field_range insn 0x1e00 7 64 ltac:(lia) ltac:(lia) ltac:(done)).
    pose proof (field_range insn 0x180 1 256 ltac:(lia) ltac:(lia) ltac:(done)).
    pose proof (lor_le_add ((insn &u 0x1e00) >>u 7) ((insn &u 0x180) >>u 1)). lia.
  - unfold cswsp_imm. bit_cases; bit_eval insn.
Qed.
Lemma clw_encodes insn : encodes CLW_imm insn (clw_imm insn).
Proof.
  split.
  - unfold clw_imm, is_s32. cbv zeta. rewrite Z.lor_0_l.
    pose proof (field_range insn 0x40 4 8 ltac:(lia) ltac:(lia) ltac:(done)).
    pose proof (field_range insn 0x1c00 7 64 ltac:(lia) ltac:(lia) ltac:(done)).
    pose proof (shiftl_field_range insn 0x20 1 128 ltac:(lia) ltac:(lia) ltac:(done)).
    pose proof (lor_le_add ((insn &u 0x40) >>u 4) ((insn &u 0x1c00) >>u 7)).
    pose proof (lor_le_add ((insn &u 0x40) >>u 4 |u (insn &u 0x1c00) >>u 7) ((insn &u 0x20) <<u 1)).
    unfold FC_IMM_12_10. lia.
  - unfold clw_imm. cbv zeta. bit_cases; bit_eval insn.
Qed.

(** The formats that sign-extend by a test. *)
Lemma citype_encodes insn : encodes CI_imm insn (c_decode_citype_imm insn).
Proof.
  unfold c_decode_citype_imm. change 0x20 with (2 ^ 5). rewrite truth_land_pow2 by lia.
  replace (Z.testbit _ 5) with (Z.testbit insn 12) by bit_eval insn.
  split; [case_match; auto with words|].
  destruct (Z.testbit insn 12) eqn:E; bit_cases; bit_eval_if insn E.
Qed.
Lemma caddi16sp_encodes insn : encodes CADDI16SP_imm insn (c_decode_caddi16sp_nzimm insn).
Proof.
  unfold c_decode_caddi16sp_nzimm. cbv zeta. change 0x200 with (2 ^ 9).
  rewrite truth_land_pow2 by lia.
  replace (Z.testbit _ 9) with (Z.testbit insn 12) by bit_eval insn.
  split; [auto with words|].
  destruct (Z.testbit insn 12) eqn:E; bit_cases; bit_eval_if insn E.
Qed.
Lemma clui_encodes insn : encodes CLUI_imm insn (s32 (c_decode_clui_nzimm insn)).
Proof.
  unfold c_decode_clui_nzimm. cbv zeta. change 0x20000 with (2 ^ 17).
  rewrite truth_land_pow2 by lia.
  replace (Z.testbit _ 17) with (Z.testbit insn 12) by bit_eval insn.
  split; [auto with words|].
  destruct (Z.testbit insn 12) eqn:E; bit_cases; bit_eval_if insn E.
Qed.
Lemma candi_encodes insn : encodes CI_imm insn (c_decode_caddi_imm insn).
Proof.
  split; [unfold c_decode_caddi_imm; auto with words|].
  unfold c_decode_caddi_imm, sign_extend_h. cbn [foldl seq]. cbv zeta.
  bit_cases; bit_eval insn.
Qed.

(** * Accepted instructions *)

(** An IR as [block_translate] passes it to the decoder: cleared. *)
Definition fresh (ir : rv_insn) : Prop :=
  imm ir = 0 /\ rd ir = 0 /\ rs1 ir = 0 /\ rs2 ir = 0 /\ shamt ir = 0 /\ unlinked ir.

(** What holds of every IR the decoder accepts from an encoding of [len] bytes.  [C.LI]
    may have [rd = x0], and C.EBREAK is decoded to the four-byte [ebreak]. *)
Record decoded (len : Z) (ir : rv_insn) : Prop := {
  dec_wf : wf_ir ir;
  dec_unlinked : unlinked ir;
  dec_dest : guards_rd (opcode ir) || clobbers_rd (opcode ir) = false ->
             opcode ir <> rv_insn_nop -> opcode ir <> rv_insn_cli ->
             opcode ir <> rv_insn_scw -> dest_reg (opcode ir) ir <> Some rv_reg_zero;
  dec_branch : is_cond_branch (opcode ir) = true -> rd ir = rv_reg_zero;
  dec_len : opcode ir <> rv_insn_ebreak -> insn_len (opcode ir) = len;
  dec_fuse : is_fuse (opcode ir) = false }.

Definition dec_ok (len : Z) (r : option (rv_insn * bool)) : Prop :=
  match r with Some (ir, true) => decoded len ir | _ => True end.

Lemma dec_some len ir b : decoded len ir -> dec_ok len (Some (ir, b)).
Proof. by destruct b. Qed.
Lemma encodes_s32 tbl insn v : encodes tbl insn v -> is_s32 v.
Proof. by intros []. Qed.
Lemma set_rs3_imm v ir : is_s32 (imm (set_rs3 v ir)).
Proof. cbn. auto with words. Qed.
Lemma is_reg_3 v : 8 <= v < 16 -> is_reg v.
Proof. unfold is_reg. lia. Qed.
Lemma zero_reg : is_reg 0.
Proof. unfold is_reg. lia. Qed.
Lemma zero_s32 : is_s32 0.
Proof. unfold is_s32. lia. Qed.
Lemma shamt_zero : 0 <= 0 < 0x100.
Proof. lia. Qed.

Create HintDb decode discriminated.
#[export] Hint Resolve decode_rd_reg decode_rs1_reg decode_rs2_reg zero_reg zero_s32 shamt_zero
  is_s32_s32 : decode.
#[export] Hint Resolve encodes_s32 itype_encodes stype_encodes btype_encodes jtype_encodes
  cjtype_encodes caddi4spn_encodes clwsp_encodes cswsp_encodes clw_encodes citype_encodes
  caddi16sp_encodes candi_encodes : decode.
#[export] Hint Extern 1 (is_reg (c_decode_rd _)) => by apply c_field5 : decode.
#[export] Hint Extern 1 (is_reg (c_decode_rs1 _)) => by apply c_field5 : decode.
#[export] Hint Extern 1 (is_reg (c_decode_rs2 _)) => by apply c_field5 : decode.
#[export] Hint Extern 1 (is_reg (_ |u 8)) => by apply is_reg_3, c_field3 : decode.
#[export] Hint Extern 2 (is_reg ?x) =>
  match goal with H : _ = x |- _ => rewrite <- H; by apply c_field5 end : decode.
#[export] Hint Extern 5 (is_reg _) => unfold is_reg; lia : decode.
#[export] Hint Extern 5 (is_s32 _) => unfold is_s32; lia : decode.
#[export] Hint Extern 1 (0 <= c_decode_cbtype_shamt _ < _) => apply u8_range : decode.

Ltac open_fresh :=
  repeat match goal with
  | H : imm ?i = 0 |- context [imm ?i] => rewrite H
  | H : rd ?i = 0 |- context [rd ?i] => rewrite H
  | H : rs1 ?i = 0 |- context [rs1 ?i] => rewrite H
  | H : rs2 ?i = 0 |- context [rs2 ?i] => rewrite H
  | H : shamt ?i = 0 |- context [shamt ?i] => rewrite H
  end.
Ltac fields :=
  unfold decode_itype, decode_utype, decode_stype, decode_rtype, decode_btype, decode_jtype,
    decode_r4type, set_rs3, op_system_ret, ok, bad;
  cbv zeta;
  cbn [imm rd rs1 rs2 opcode shamt rm branch_taken branch_untaken set_opcode set_imm set_rd
       set_rs1 set_rs2 set_shamt set_rm].
(** C.SRAI takes its register from five bits of which the upper two are the [funct2]
    of the instruction, so it is [x8] or above. *)
Lemma csrai_rs1_nonzero insn :
  (insn &u 0x0c00) >>u 10 = 1 -> c_decode_rs1 insn <> 0.
Proof.
  intros H E. assert (Z.testbit ((insn &u 0x0c00) >>u 10) 0 = true) as T by (by rewrite H).
  assert (Z.testbit (c_decode_rs1 insn) 3 = false) as T' by (by rewrite E).
  revert T T'. unfold c_decode_rs1.
  rewrite testbit_u16, !Z.shiftr_spec, !Z.land_spec by lia.
  generalize (Z.testbit insn). intros f. cbv. by destruct (f _).
Qed.
(** A destination the decoder has tested, or a three-bit register, is not [x0]. *)
Ltac nonzero :=
  let E := fresh "E" in
  unfold truth, rv_reg_zero in *; intros _ _ _ _ [= E];
  first
  [ match goal with H : _ |- _ => rewrite E in H; discriminate H end
  | match type of E with ?x |u 8 = 0 =>
      let R := fresh in assert (8 <= x |u 8 < 16) as R by (by apply c_field3); lia end
  | eapply csrai_rs1_nonzero; eassumption ].
Ltac solve_decoded :=
  apply dec_some; split;
  [ split; cbn [imm rd rs1 rs2 shamt set_opcode set_imm set_rd set_rs1 set_rs2 set_shamt set_rm];
    open_fresh; eauto with decode
  | done
  | cbn; first [done | nonzero]
  | cbn; done
  | done | done ].
Ltac decoder op :=
  intros (Hi & Hrd & Hrs1 & Hrs2 & Hsh & Hu); unfold op; fields;
  repeat case_match;
  lazymatch goal with
  | |- dec_ok _ None => exact I
  | |- dec_ok _ (Some (_, false)) => exact I
  | _ => try solve_decoded
  end.
(** ** The opcode decoders *)

Section Decoders.
Context (ir : rv_insn) (insn : Z).

Lemma op_load_ok : fresh ir -> dec_ok 4 (op_load ir insn).
Proof. decoder op_load. Qed.
Lemma op_op_imm_ok : fresh ir -> dec_ok 4 (op_op_imm ir insn).
Proof. decoder op_op_imm. Qed.
Lemma op_auipc_ok : fresh ir -> dec_ok 4 (op_auipc ir insn).
Proof. decoder op_auipc. Qed.
Lemma op_store_ok : fresh ir -> dec_ok 4 (op_store ir insn).
Proof. decoder op_store. Qed.
Lemma op_op_ok : fresh ir -> dec_ok 4 (op_op ir insn).
Proof. decoder op_op. Qed.
Lemma op_lui_ok : fresh ir -> dec_ok 4 (op_lui ir insn).
Proof. decoder op_lui. Qed.
Lemma op_branch_ok : fresh ir -> dec_ok 4 (op_branch ir insn).
Proof. decoder op_branch. Qed.
Lemma op_jalr_ok : fresh ir -> dec_ok 4 (op_jalr ir insn).
Proof. decoder op_jalr. Qed.
Lemma op_jal_ok : fresh ir -> dec_ok 4 (op_jal ir insn).
Proof. decoder op_jal. Qed.
Lemma op_system_ok : fresh ir -> dec_ok 4 (op_system ir insn).
Proof. decoder op_system. Qed.
Lemma op_misc_mem_ok : fresh ir -> dec_ok 4 (op_misc_mem ir insn).
Proof. decoder op_misc_mem. Qed.
Lemma op_amo_ok : fresh ir -> dec_ok 4 (op_amo ir insn).
Proof. decoder op_amo. Qed.
Lemma op_load_fp_ok : fresh ir -> dec_ok 4 (op_load_fp ir insn).
Proof. decoder op_load_fp. Qed.
Lemma op_store_fp_ok : fresh ir -> dec_ok 4 (op_store_fp ir insn).
Proof. decoder op_store_fp. Qed.
Lemma op_op_fp_ok : fresh ir -> dec_ok 4 (op_op_fp ir insn).
Proof. decoder op_op_fp. Qed.
Lemma op_madd_ok : fresh ir -> dec_ok 4 (op_madd ir insn).
Proof. decoder op_madd. Qed.
Lemma op_msub_ok : fresh ir -> dec_ok 4 (op_msub ir insn).
Proof. decoder op_msub. Qed.
Lemma op_nmadd_ok : fresh ir -> dec_ok 4 (op_nmadd ir insn).
Proof. decoder op_nmadd. Qed.
Lemma op_nmsub_ok : fresh ir -> dec_ok 4 (op_nmsub ir insn).
Proof. decoder op_nmsub. Qed.
Lemma op_caddi_ok : fresh ir -> dec_ok 2 (op_caddi ir insn).
Proof. decoder op_caddi. Qed.
Lemma op_caddi4spn_ok : fresh ir -> dec_ok 2 (op_caddi4spn ir insn).
Proof. decoder op_caddi4spn. Qed.
Lemma op_cli_ok : fresh ir -> dec_ok 2 (op_cli ir insn).
Proof. decoder op_cli. Qed.
Lemma op_clui_ok : fresh ir -> dec_ok 2 (op_clui ir insn).
Proof. decoder op_clui. Qed.
Lemma op_cslli_ok : fresh ir -> dec_ok 2 (op_cslli ir insn).
Proof. decoder op_cslli. Qed.
Lemma op_clwsp_ok : fresh ir -> dec_ok 2 (op_clwsp ir insn).
Proof. decoder op_clwsp. Qed.
Lemma op_cswsp_ok : fresh ir -> dec_ok 2 (op_cswsp ir insn).
Proof. decoder op_cswsp. Qed.
Lemma op_clw_ok : fresh ir -> dec_ok 2 (op_clw ir insn).
Proof. decoder op_clw. Qed.
Lemma op_csw_ok : fresh ir -> dec_ok 2 (op_csw ir insn).
Proof. decoder op_csw. Qed.
Lemma op_cj_ok : fresh ir -> dec_ok 2 (op_cj ir insn).
Proof. decoder op_cj. Qed.
Lemma op_cjal_ok : fresh ir -> dec_ok 2 (op_cjal ir insn).
Proof. decoder op_cjal. Qed.
Lemma op_cbeqz_ok : fresh ir -> dec_ok 2 (op_cbeqz ir insn).
Proof. decoder op_cbeqz. Qed.
Lemma op_cbnez_ok : fresh ir -> dec_ok 2 (op_cbnez ir insn).
Proof. decoder op_cbnez. Qed.
Lemma op_cflwsp_ok : fresh ir -> dec_ok 2 (op_cflwsp ir insn).
Proof. decoder op_cflwsp. Qed.
Lemma op_cfswsp_ok : fresh ir -> dec_ok 2 (op_cfswsp ir insn).
Proof. decoder op_cfswsp. Qed.
Lemma op_cflw_ok : fresh ir -> dec_ok 2 (op_cflw ir insn).
Proof. decoder op_cflw. Qed.
Lemma op_cfsw_ok : fresh ir -> dec_ok 2 (op_cfsw ir insn).
Proof. decoder op_cfsw. Qed.

Lemma op_cmisc_alu_ok : fresh ir -> dec_ok 2 (op_cmisc_alu ir insn).
Proof.
  pose proof (field_range insn 0x0c00 10 4 ltac:(lia) ltac:(lia) ltac:(done)).
  decoder op_cmisc_alu; lia.
Qed.
Lemma op_ccr_ok : fresh ir -> dec_ok 2 (op_ccr ir insn).
Proof.
  pose proof (field_range insn 0x1000 12 2 ltac:(lia) ltac:(lia) ltac:(done)).
  decoder op_ccr; lia.
Qed.
End Decoders.

(** * [rv_decode] *)

Lemma op_unimp_ok len ir insn : dec_ok len (op_unimp ir insn).
Proof. exact I. Qed.
Lemma nth_ok len (tbl : list decode_t) ir insn i :
  Forall (fun op : decode_t => dec_ok len (op ir insn)) tbl ->
  dec_ok len (nth i tbl op_unimp ir insn).
Proof.
  intros HF. rewrite nth_lookup. destruct (tbl !! i) eqn:E; cbn; [|exact I].
  by eapply Forall_lookup_1 in HF.
Qed.

Lemma rv_decode_ok ir insn :
  fresh ir -> dec_ok (if is_compressed insn then 2 else 4) (rv_decode ir insn).
Proof.
  intros Hf. unfold rv_decode. destruct (is_compressed insn); cbv zeta; apply nth_ok;
    repeat (apply List.Forall_cons || apply List.Forall_nil);
    eauto using op_unimp_ok, op_load_ok, op_op_imm_ok, op_auipc_ok, op_store_ok, op_op_ok, op_lui_ok,
      op_branch_ok, op_jalr_ok, op_jal_ok, op_system_ok, op_misc_mem_ok, op_amo_ok,
      op_load_fp_ok, op_store_fp_ok, op_op_fp_ok, op_madd_ok, op_msub_ok, op_nmadd_ok,
      op_nmsub_ok, op_caddi_ok, op_caddi4spn_ok, op_cli_ok, op_clui_ok, op_cslli_ok,
      op_clwsp_ok, op_cswsp_ok, op_clw_ok, op_csw_ok, op_cj_ok, op_cjal_ok, op_cbeqz_ok,
      op_cbnez_ok, op_cflwsp_ok, op_cfswsp_ok, op_cflw_ok, op_cfsw_ok, op_cmisc_alu_ok,
      op_ccr_ok.
Qed.

(** An accepted instruction meets the requirements of the constant folder, except for the
    two encodings it mishandles. *)
Lemma decoded_opt_ok len ir :
  decoded len ir -> opcode ir <> rv_insn_scw -> (opcode ir = rv_insn_cli -> rd ir <> 0) ->
  opt_ok ir.
Proof.
  intros [Hwf _ Hd Hb _ _] Hs Hc. split; [done| |done|done]. intros G N.
  destruct (decide (opcode ir = rv_insn_cli)) as [E|].
  - rewrite E. cbn. intros [= E0]. by apply Hc.
  - by apply Hd.
Qed.

(** C12: all the immediate formats.  For every instruction word, each of the fifteen
    immediate decoders returns a 32-bit value whose bits are exactly those the RISC-V
    unprivileged specification assigns: position by position, with the sign bit copied
    upwards in the signed formats and zeros elsewhere. *)
Theorem immediates_match_isa insn :
  encodes I_imm insn (decode_itype_imm insn) /\
  encodes S_imm insn (decode_stype_imm insn) /\
  encodes B_imm insn (decode_btype_imm insn) /\
  encodes U_imm insn (s32 (decode_utype_imm insn)) /\
  encodes J_imm insn (decode_jtype_imm insn) /\
  encodes CI_imm insn (c_decode_citype_imm insn) /\
  encodes CI_imm insn (c_decode_caddi_imm insn) /\
  encodes CLUI_imm insn (s32 (c_decode_clui_nzimm insn)) /\
  encodes CADDI16SP_imm insn (c_decode_caddi16sp_nzimm insn) /\
  encodes CADDI4SPN_imm insn (c_decode_caddi4spn_nzuimm insn) /\
  encodes CJ_imm insn (c_decode_cjtype_imm insn) /\
  encodes CB_imm insn (s32 (sign_extend_h (c_decode_cbtype_imm insn))) /\
  encodes CLW_imm insn (clw_imm insn) /\
  encodes CLWSP_imm insn (clwsp_imm insn) /\
  encodes CSWSP_imm insn (cswsp_imm insn).
Proof.
  auto 20 using itype_encodes, stype_encodes, btype_encodes, utype_encodes, jtype_encodes,
    citype_encodes, candi_encodes, clui_encodes, caddi16sp_encodes, caddi4spn_encodes,
    cjtype_encodes, cbtype_encodes, clw_encodes, clwsp_encodes, cswsp_encodes.
Qed.

(** C13: what the decoder guarantees to the rest of the emulator.  Whatever the
    instruction word, an accepted IR has register numbers below 32, an [int32_t] immediate,
    no successor links, no fused opcode, no link register in a conditional branch, and an
    opcode whose length is that of the encoding (apart from C.EBREAK, which becomes
    [ebreak]).  Its result goes to [x0] only for [nop], for handlers that test [rd], and for
    loads, CSR instructions, [jal], [jalr], C.LI and SC.W. *)
Theorem rv_decode_wellformed ir insn ir' :
  fresh ir -> rv_decode ir insn = Some (ir', true) ->
  decoded (if is_compressed insn then 2 else 4) ir'.
Proof. intros Hf E. pose proof (rv_decode_ok ir insn Hf) as H. by rewrite E in H. Qed.
Lemma rv_decode_wellformed_witness :
  decoded 4 (set_opcode rv_insn_sub (set_rs2 3 (set_rs1 2 (set_rd 1 zero_insn)))).
Proof.
  apply (rv_decode_wellformed zero_insn 0x403100b3); [done|reflexivity].
Defined.
