(* ===== verification/Fusion.v ===== *)
(** Macro-operation fusion (emulate.c): the handlers [do_fuse1] .. [do_fuse12], the
    dispatch table over all opcodes, and [match_pattern], which rewrites the IRs of a
    block.  The non-SYSTEM build: memory sequences are fused at translation time. *)

From S2P Require Import Prelude.
From S2P Require Import Opcode.
From S2P Require Import Decode.
From S2P Require Import Machine.
From S2P Require Import Interp.

(** * Handlers *)

Section Handlers.
Context `{riscv_io} `{softfloat}.

Definition fuse_next_or_stop (has_next : bool) s (cycle PC : Z) : step_result :=
  if has_next then Go_next s cycle PC
  else Ret true (set_PC PC (set_csr_cycle cycle s)).

(** The end of a fused handler with a body that may trap. *)
Definition fuse_end (has_next : bool) (o : outcome) (cycle : Z) : step_result :=
  match o with
  | Nextop s PC => fuse_next_or_stop has_next s cycle PC
  | Return b s => Ret b s
  | _ => Crash
  end.

(** The first [imm2] entries of the [fuse] array. *)
Definition fuse_entries (ir : rv_insn) : list opcode_fuse :=
  take (Z.to_nat (imm2 ir)) (fuse ir).

Definition do_fuse1 has_next s ir cycle PC : step_result :=
  let cycle := u64 (cycle + imm2 ir) in
  let s := foldl (fun s f => set_reg (f_rd f) (u32 (f_imm f)) s) s (fuse_entries ir) in
  fuse_next_or_stop has_next s cycle (PC +u imm2 ir * 4).

Definition do_fuse2 has_next s ir cycle PC : step_result :=
  let cycle := u64 (cycle + 2) in
  let s := set_reg (rd ir) (u32 (imm ir)) s in
  let s := set_reg (rs2 ir) (reg s (rd ir) +u reg s (rs1 ir)) s in
  fuse_next_or_stop has_next s cycle (PC +u 8).

(** The loop of [do_fuse3]; a misaligned address leaves the handler. *)
Fixpoint fuse3_loop (fs : list opcode_fuse) s cycle PC : outcome :=
  match fs with
  | [] => Nextop s PC
  | f :: fs =>
    let addr := reg s (f_rs1 f) +u f_imm f in
    RV_EXC_MISALIGN_HANDLER 3 STORE_MISALIGNED false s cycle PC addr
      (let value := reg s (f_rs2 f) in
       let! s := ram_write_w s addr value in fuse3_loop fs s cycle PC)
  end.
Definition do_fuse3 has_next s ir cycle PC : step_result :=
  let cycle := u64 (cycle + imm2 ir) in
  match fuse3_loop (fuse_entries ir) s cycle PC with
  | Nextop s PC => fuse_next_or_stop has_next s cycle (PC +u imm2 ir * 4)
  | o => fuse_end has_next o cycle
  end.

Fixpoint fuse4_loop (fs : list opcode_fuse) s cycle PC : outcome :=
  match fs with
  | [] => Nextop s PC
  | f :: fs =>
    let addr := reg s (f_rs1 f) +u f_imm f in
    RV_EXC_MISALIGN_HANDLER 3 LOAD_MISALIGNED false s cycle PC addr
      (let! v := ram_read_w s addr in fuse4_loop fs (set_reg (f_rd f) v s) cycle PC)
  end.
Definition do_fuse4 has_next s ir cycle PC : step_result :=
  let cycle := u64 (cycle + imm2 ir) in
  match fuse4_loop (fuse_entries ir) s cycle PC with
  | Nextop s PC => fuse_next_or_stop has_next s cycle (PC +u imm2 ir * 4)
  | o => fuse_end has_next o cycle
  end.

Definition fuse_shift_exec s (f : opcode_fuse) : option riscv :=
  match f_opcode f with
  | rv_insn_slli => Some (set_reg (f_rd f) (u32 (reg s (f_rs1 f) <<u (f_imm f &u 0x1f))) s)
  | rv_insn_srli => Some (set_reg (f_rd f) (reg s (f_rs1 f) >>u (f_imm f &u 0x1f)) s)
  | rv_insn_srai => Some (set_reg (f_rd f) (u32 (s32 (reg s (f_rs1 f)) >>u (f_imm f &u 0x1f))) s)
  | _ => None
  end.
Fixpoint fuse5_loop (fs : list opcode_fuse) s : option riscv :=
  match fs with
  | [] => Some s
  | f :: fs => s ← fuse_shift_exec s f; fuse5_loop fs s
  end.
Definition do_fuse5 has_next s ir cycle PC : step_result :=
  let cycle := u64 (cycle + imm2 ir) in
  match fuse5_loop (fuse_entries ir) s with
  | Some s => fuse_next_or_stop has_next s cycle (PC +u imm2 ir * 4)
  | None => Crash
  end.

Definition do_fuse6 (has_next : bool) s ir cycle PC : step_result :=
  let cycle := u64 (cycle + 2) in
  let s := set_reg rv_reg_a7 (u32 (imm ir)) s in
  let s := set_csr_cycle cycle (set_compressed false s) in
  let s := set_PC (PC +u 4) s in
  match on_ecall s with
  | Some s => Ret true s
  | None => Crash
  end.

Definition do_fuse7 has_next s ir cycle PC : step_result :=
  let cycle := u64 (cycle + imm2 ir) in
  let s := foldl (fun s f => set_reg (f_rd f) (reg s (f_rs1 f) +u u32 (f_imm f)) s) s
             (fuse_entries ir) in
  fuse_next_or_stop has_next s cycle (PC +u imm2 ir * 4).

Definition do_fuse8 has_next s ir cycle PC : step_result :=
  let cycle := u64 (cycle + 2) in
  let s := set_reg (rd ir) (u32 (imm ir) +u u32 (imm2 ir)) s in
  fuse_next_or_stop has_next s cycle (PC +u 8).

Definition do_fuse9 has_next s ir cycle PC : step_result :=
  let cycle := u64 (cycle + 2) in
  let s := set_reg (rd ir) (u32 (imm ir)) s in
  let addr := u32 (imm ir) +u u32 (imm2 ir) in
  fuse_end has_next
    (RV_EXC_MISALIGN_HANDLER 3 LOAD_MISALIGNED false s cycle PC addr
       (let! v := ram_read_w s addr in Nextop (set_reg (rs2 ir) v s) (PC +u 8))) cycle.

Definition do_fuse10 has_next s ir cycle PC : step_result :=
  let cycle := u64 (cycle + 2) in
  let s := set_reg (rd ir) (u32 (imm ir)) s in
  let addr := u32 (imm ir) +u u32 (imm2 ir) in
  fuse_end has_next
    (RV_EXC_MISALIGN_HANDLER 3 STORE_MISALIGNED false s cycle PC addr
       (let value := reg s (rs1 ir) in
        let! s := ram_write_w s addr value in Nextop s (PC +u 8))) cycle.

Definition do_fuse11 has_next s ir cycle PC : step_result :=
  let cycle := u64 (cycle + 2) in
  let addr := reg s (rs1 ir) +u imm ir in
  fuse_end has_next
    (RV_EXC_MISALIGN_HANDLER 3 LOAD_MISALIGNED false s cycle PC addr
       (let! v := ram_read_w s addr in
        let s := set_reg (rd ir) v s in
        let s := set_reg (rs1 ir) (reg s (rs1 ir) +u imm2 ir) s in
        Nextop s (PC +u 8))) cycle.

Definition do_fuse12 (has_next : bool) s ir cycle PC : step_result :=
  let cycle := u64 (cycle + 2) in
  let s := set_reg (rd ir) (reg s (rs1 ir) +u imm ir) s in
  let stop s PC := Ret true (set_PC PC (set_csr_cycle cycle s)) in
  if negb (reg s (rd ir) =? 0) then
    let s := set_is_branch_taken true s in
    let PC := PC +u (4 + imm2 ir) in
    match branch_taken ir with
    | Some taken => Go_ir taken (set_last_pc PC s) cycle PC
    | None => stop s PC
    end
  else
    let s := set_is_branch_taken false s in
    let PC := PC +u 8 in
    match branch_untaken ir with
    | Some untaken => Go_ir untaken (set_last_pc PC s) cycle PC
    | None => stop s PC
    end.

(** [dispatch_table]: what [ir->impl] points to. *)
Definition dispatch_table (has_next : bool) (s : riscv) (ir : rv_insn) (cycle PC : Z)
  : step_result :=
  match opcode ir with
  | rv_insn_fuse1 => do_fuse1 has_next s ir cycle PC
  | rv_insn_fuse2 => do_fuse2 has_next s ir cycle PC
  | rv_insn_fuse3 => do_fuse3 has_next s ir cycle PC
  | rv_insn_fuse4 => do_fuse4 has_next s ir cycle PC
  | rv_insn_fuse5 => do_fuse5 has_next s ir cycle PC
  | rv_insn_fuse6 => do_fuse6 has_next s ir cycle PC
  | rv_insn_fuse7 => do_fuse7 has_next s ir cycle PC
  | rv_insn_fuse8 => do_fuse8 has_next s ir cycle PC
  | rv_insn_fuse9 => do_fuse9 has_next s ir cycle PC
  | rv_insn_fuse10 => do_fuse10 has_next s ir cycle PC
  | rv_insn_fuse11 => do_fuse11 has_next s ir cycle PC
  | rv_insn_fuse12 => do_fuse12 has_next s ir cycle PC
  | _ => do_insn has_next s ir cycle PC
  end.
End Handlers.

(** * The rewriting pass *)

Definition FUSE_MAX_ENTRIES : nat := 16.

Definition is_shift_imm (ir : rv_insn) : bool :=
  match opcode ir with rv_insn_slli | rv_insn_srli | rv_insn_srai => true | _ => false end.

(** The loops of [count_consecutive_insn] and [count_consecutive_shift], with the test
    as an argument; [rest] is the list from [ir->next] on. *)
Fixpoint count_prefix (p : rv_insn -> bool) (rest : list rv_insn) : nat :=
  match rest with
  | next :: rest => if p next then S (count_prefix p rest) else 0
  | [] => 0
  end.
Definition count_consecutive_insn (rest : list rv_insn) (o : opcode_t) : nat :=
  S (count_prefix (fun ir => bool_decide (opcode ir = o)) rest).
Definition count_consecutive_shift (rest : list rv_insn) : nat :=
  S (count_prefix is_shift_imm rest).

(** [memcpy(.., ir, sizeof(opcode_fuse_t))]: the fields the two structs share. *)
Definition fuse_of (ir : rv_insn) : opcode_fuse :=
  mk_fuse (imm ir) (rd ir) (rs1 ir) (rs2 ir) (opcode ir).

(** [remove_next_nth_ir] on the list after [ir]. *)
Definition remove_next_nth_ir (n : nat) (rest : list rv_insn) : list rv_insn := drop n rest.

(** [alloc] is whether [mpool_alloc] finds a slot for the [fuse] array. *)
Definition try_fuse_sequence (alloc : bool) (ir : rv_insn) (rest : list rv_insn) (count : nat)
    (fuse_opcode : opcode_t) : rv_insn * list rv_insn :=
  if (count <=? 1)%nat then (ir, rest)
  else if (FUSE_MAX_ENTRIES <? count)%nat then (ir, rest)
  else if negb alloc then (ir, rest)
  else
    let entries := fuse_of ir :: (fuse_of <$> take (count - 1) rest) in
    (set_imm2 (Z.of_nat count) (set_opcode fuse_opcode (set_fuse entries ir)),
     remove_next_nth_ir (count - 1) rest).

(** One iteration of [match_pattern]: the IR at the cursor and the IRs after it. *)
Definition match_one (alloc : bool) (ir : rv_insn) (rest : list rv_insn)
  : rv_insn * list rv_insn :=
  match opcode ir, rest with
  | rv_insn_lui, next_ir :: _ =>
    match opcode next_ir with
    | rv_insn_add =>
      if (rd ir =? rs2 next_ir) || (rd ir =? rs1 next_ir) then
        let rd0 := rd ir in
        let ir := set_rs2 (rd next_ir) (set_opcode rv_insn_fuse2 ir) in
        let ir := set_rs1 (if rd0 =? rs2 next_ir then rs1 next_ir else rs2 next_ir) ir in
        (ir, remove_next_nth_ir 1 rest)
      else (ir, rest)
    | rv_insn_addi =>
      if negb (rd ir =? rv_reg_zero) && (rd ir =? rs1 next_ir) && (rd ir =? rd next_ir) then
        (set_opcode rv_insn_fuse8 (set_imm2 (imm next_ir) ir), remove_next_nth_ir 1 rest)
      else (ir, rest)
    | rv_insn_lw =>
      if negb (rd ir =? rv_reg_zero) && (rd ir =? rs1 next_ir) then
        (set_opcode rv_insn_fuse9 (set_rs2 (rd next_ir) (set_imm2 (imm next_ir) ir)),
         remove_next_nth_ir 1 rest)
      else (ir, rest)
    | rv_insn_sw =>
      if negb (rd ir =? rv_reg_zero) && (rd ir =? rs1 next_ir)
         && negb (rd ir =? rs2 next_ir) then
        (set_opcode rv_insn_fuse10 (set_rs1 (rs2 next_ir) (set_imm2 (imm next_ir) ir)),
         remove_next_nth_ir 1 rest)
      else (ir, rest)
    | rv_insn_lui =>
      try_fuse_sequence alloc ir rest (count_consecutive_insn rest rv_insn_lui) rv_insn_fuse1
    | _ => (ir, rest)
    end
  | rv_insn_sw, _ =>
    try_fuse_sequence alloc ir rest (count_consecutive_insn rest rv_insn_sw) rv_insn_fuse3
  | rv_insn_lw, next_ir :: _ =>
    if bool_decide (opcode next_ir = rv_insn_addi) && (rs1 ir =? rs1 next_ir)
       && (rs1 next_ir =? rd next_ir) && negb (rd ir =? rs1 ir) then
      (set_opcode rv_insn_fuse11 (set_imm2 (imm next_ir) ir), remove_next_nth_ir 1 rest)
    else
      try_fuse_sequence alloc ir rest (count_consecutive_insn rest rv_insn_lw) rv_insn_fuse4
  | (rv_insn_slli | rv_insn_srli | rv_insn_srai), _ =>
    try_fuse_sequence alloc ir rest (count_consecutive_shift rest) rv_insn_fuse5
  | rv_insn_addi, next_ir :: _ =>
    if (rd ir =? rv_reg_a7) && (rs1 ir =? rv_reg_zero)
       && bool_decide (opcode next_ir = rv_insn_ecall) then
      (set_opcode rv_insn_fuse6 ir, remove_next_nth_ir 1 rest)
    else if bool_decide (opcode next_ir = rv_insn_bne) && negb (rd ir =? rv_reg_zero)
            && (rd ir =? rs1 next_ir) && (rs2 next_ir =? rv_reg_zero) then
      let ir := set_opcode rv_insn_fuse12 (set_imm2 (imm next_ir) ir) in
      let ir := set_branch_taken (branch_taken next_ir) ir in
      let ir := set_branch_untaken (branch_untaken next_ir) ir in
      (ir, remove_next_nth_ir 1 rest)
    else
      try_fuse_sequence alloc ir rest (count_consecutive_insn rest rv_insn_addi) rv_insn_fuse7
  | _, _ => (ir, rest)
  end.

(** The loop: it visits every IR but the last; [i] is the loop counter and [alloc i] the
    result of the allocation that iteration may make.  [fuel] bounds the number of
    iterations, one per remaining IR. *)
Fixpoint match_from (fuel : nat) (alloc : nat -> bool) (i : nat) (irs : list rv_insn)
  : list rv_insn :=
  match fuel, irs with
  | S fuel, ir :: ((_ :: _) as rest) =>
    let '(ir, rest) := match_one (alloc i) ir rest in
    ir :: match_from fuel alloc (S i) rest
  | _, _ => irs
  end.
Definition match_pattern (alloc : nat -> bool) (irs : list rv_insn) : list rv_insn :=
  match_from (length irs) alloc 0 irs.
