(* ===== verification/FusionProofs.v ===== *)
(** Macro-operation fusion preserves behaviour: a fused block runs like the block it was
    made from whenever that run does not trap. *)

From S2P Require Import Prelude.
From S2P Require Import Opcode.
From S2P Require Import Decode.
From S2P Require Import Machine.
From S2P Require Import Interp.
From S2P Require Import MachineFacts.
From S2P Require Import Invariant.
From S2P Require Import Constopt.
From S2P Require Import ConstoptProofs.
From S2P Require Import Fusion.

(** The state between two instructions, and the IRs of a block before it is linked. *)
Definition sane (s : riscv) : Prop := wf s /\ reg s rv_reg_zero = 0.
Record fusable (ir : rv_insn) : Prop := {
  fus_wf : wf_ir ir;
  fus_unlinked : unlinked ir;
  fus_fuse : is_fuse (opcode ir) = false;
  fus_zero : keeps_zero ir }.

(** A run that neither traps nor runs into undefined behaviour. *)
Definition normal (r : step_result) : Prop :=
  match r with Ret false _ | Crash => False | _ => True end.

(** What is left of a run when its first IR has given [r]. *)
Definition continue `{riscv_io} `{softfloat} (r : step_result) (rest : list rv_insn)
  : step_result :=
  match r with
  | Go_next s cycle pc => run_irs do_insn rest s cycle pc
  | r => r
  end.
Definition more (rest : list rv_insn) : bool := match rest with [] => false | _ => true end.

Section Group.
Context `{riscv_io_laws} `{softfloat_laws}.

Lemma run_cons ir rest s cycle pc :
  run_irs do_insn (ir :: rest) s cycle pc
  = continue (do_insn (more rest) s ir cycle pc) rest.
Proof. cbn [run_irs]. unfold continue, more. by destruct (do_insn _ _ _ _ _). Qed.

Lemma do_insn_next n s ir cycle pc s' p :
  insn_body (opcode ir) s ir (u64 (cycle + 1)) pc = Nextop s' p ->
  insn_is_branch (opcode ir) = false -> unlinked ir ->
  do_insn n s ir cycle pc
  = fuse_next_or_stop n s' (u64 (cycle + 1)) (pc +u insn_len (opcode ir)).
Proof.
  intros E HB [HU _]. unfold do_insn, RVOP. pose proof (body_frame _ _ _ _ _ _ _ E) as [-> _].
  rewrite E. unfold end_op. rewrite HB, HU. by destruct n.
Qed.

Lemma sane_body s ir cycle pc s' p :
  insn_body (opcode ir) s ir cycle pc = Nextop s' p -> 0 <= cycle < 0x10000000000000000 ->
  is_u32 pc -> sane s -> fusable ir -> sane s'.
Proof.
  intros E Hc Hp [Hs Hz] [Hir _ _ Hk]. split.
  - pose proof (body_wf s ir cycle pc Hs Hir Hc Hp (opcode ir)) as W. by rewrite E in W.
  - eapply body_zero; eauto. apply Hs.
Qed.

(** An instruction of a fusable sequence, described by what it does to the state when it
    does not trap. *)
Definition plain (exec : riscv -> rv_insn -> option riscv) (ir : rv_insn) : Prop :=
  insn_len (opcode ir) = 4 /\ insn_is_branch (opcode ir) = false /\
  forall s cycle pc,
    match insn_body (opcode ir) s ir cycle pc with
    | Nextop s' _ => exec s ir = Some s'
    | Return false _ | Undef => True
    | _ => False
    end.

Fixpoint exec_all (exec : riscv -> rv_insn -> option riscv) (g : list rv_insn) (s : riscv)
  : option riscv :=
  match g with
  | [] => Some s
  | ir :: g => s ← exec s ir; exec_all exec g s
  end.

Lemma plain_step exec n s ir cycle pc rest :
  plain exec ir -> fusable ir -> sane s -> is_u32 pc ->
  normal (continue (do_insn n s ir cycle pc) rest) ->
  exists s', exec s ir = Some s' /\ sane s' /\
    do_insn n s ir cycle pc = fuse_next_or_stop n s' (u64 (cycle + 1)) (pc +u 4).
Proof.
  intros (HL & HB & HE) Hf Hs Hp HN. specialize (HE s (u64 (cycle + 1)) pc).
  destruct (insn_body (opcode ir) s ir (u64 (cycle + 1)) pc) as [s' p| | | |[]|] eqn:E;
    try done.
  - exists s'. split; [done|]. split.
    + eapply sane_body; eauto. apply u64_range.
    + erewrite do_insn_next; eauto; [by rewrite HL|apply Hf].
  - unfold do_insn, RVOP in HN. by rewrite E in HN.
  - unfold do_insn, RVOP in HN. by rewrite E in HN.
Qed.

Lemma u64_add_l x y : u64 (u64 x + y) = u64 (x + y).
Proof. unfold u64. mlia. Qed.

(** A sequence of plain instructions runs to the composition of their effects. *)
Lemma run_group exec g rest : forall s cycle pc,
  g <> [] -> Forall (plain exec) g -> Forall fusable g -> sane s -> is_u32 pc ->
  normal (run_irs do_insn (g ++ rest) s cycle pc) ->
  exists s', exec_all exec g s = Some s' /\ sane s' /\
    run_irs do_insn (g ++ rest) s cycle pc
    = continue (fuse_next_or_stop (more rest) s' (u64 (cycle + Z.of_nat (length g)))
                  (pc +u Z.of_nat (length g) * 4)) rest.
Proof.
  induction g as [|ir g IH]; intros s cycle pc Hg HP HF Hs Hp HN; [done|].
  inversion HP as [|?? HP1 HP2]; inversion HF as [|?? HF1 HF2]; subst.
  cbn [app] in *. rewrite run_cons in *.
  destruct (plain_step exec (more (g ++ rest)) s ir cycle pc (g ++ rest) HP1 HF1 Hs Hp HN)
    as (s1 & E1 & Hs1 & ED).
  rewrite ED in *. cbn [exec_all]. rewrite E1. cbn.
  destruct g as [|ir2 g].
  - exists s1. cbn. replace (cycle + 1) with (cycle + Z.of_nat 1) by lia. done.
  - destruct (IH s1 (u64 (cycle + 1)) (pc +u 4)) as (s' & E2 & Hs' & ER); auto with words.
    exists s'. split; [done|]. split; [done|]. etransitivity; [exact ER|].
    f_equal. f_equal; rewrite ?u64_add_l, ?u32_add_l; f_equal; cbn [length]; lia.
Qed.
End Group.

(** * The kinds of fusable sequences *)

Section Kinds.
Context `{riscv_io_laws} `{softfloat_laws}.

Definition exec_lui (s : riscv) (ir : rv_insn) : option riscv :=
  Some (set_reg (rd ir) (u32 (imm ir)) s).
Definition exec_addi (s : riscv) (ir : rv_insn) : option riscv :=
  Some (set_reg (rd ir) (reg s (rs1 ir) +u imm ir) s).
Definition exec_shift (s : riscv) (ir : rv_insn) : option riscv :=
  v ← shift_value (opcode ir) (reg s (rs1 ir)) (imm ir); Some (set_reg (rd ir) v s).
Definition misaligned (s : riscv) (addr : Z) : bool :=
  negb (allow_misalign s) && truth (addr &u 3).
Definition exec_lw (s : riscv) (ir : rv_insn) : option riscv :=
  let addr := reg s (rs1 ir) +u imm ir in
  if misaligned s addr then None
  else v ← ram_read_w s addr; Some (set_reg (rd ir) v s).
Definition exec_sw (s : riscv) (ir : rv_insn) : option riscv :=
  let addr := reg s (rs1 ir) +u imm ir in
  if misaligned s addr then None else ram_write_w s addr (reg s (rs2 ir)).

Lemma plain_lui ir : opcode ir = rv_insn_lui -> plain exec_lui ir.
Proof. intros E. unfold plain. by rewrite E. Qed.
Lemma plain_addi ir : opcode ir = rv_insn_addi -> plain exec_addi ir.
Proof. intros E. unfold plain. by rewrite E. Qed.
Lemma plain_shift ir : is_shift_imm ir = true -> plain exec_shift ir.
Proof.
  unfold is_shift_imm, plain, exec_shift. intros E.
  destruct (opcode ir) eqn:Eo; try discriminate E; (split; [done|split; [done|]]);
    intros s cycle pc; cbn [insn_body]; unfold do_slli, do_srli, do_srai, shift_func;
    rewrite Eo; done.
Qed.
Lemma plain_lw ir : opcode ir = rv_insn_lw -> plain exec_lw ir.
Proof.
  intros E. unfold plain, exec_lw. rewrite E. split; [done|]. split; [done|].
  intros s cycle pc. cbn [insn_body]. unfold do_lw. cbv zeta.
  unfold RV_EXC_MISALIGN_HANDLER, misaligned.
  destruct (_ && _); [by destruct (SET_CAUSE_AND_TVAL_THEN_TRAP _ _ _)|].
  by destruct (ram_read_w _ _).
Qed.
Lemma plain_sw ir : opcode ir = rv_insn_sw -> plain exec_sw ir.
Proof.
  intros E. unfold plain, exec_sw. rewrite E. split; [done|]. split; [done|].
  intros s cycle pc. cbn [insn_body]. unfold do_sw. cbv zeta.
  unfold RV_EXC_MISALIGN_HANDLER, misaligned.
  destruct (_ && _); [by destruct (SET_CAUSE_AND_TVAL_THEN_TRAP _ _ _)|].
  by destruct (ram_write_w _ _ _).
Qed.

(** The loops of the fused handlers compute the same composition. *)
Lemma fuse1_all g : forall s,
  exec_all exec_lui g s
  = Some (foldl (fun s f => set_reg (f_rd f) (u32 (f_imm f)) s) s (fuse_of <$> g)).
Proof. induction g as [|ir g IH]; intros s; cbn; [done|]. apply IH. Qed.
Lemma fuse7_all g : forall s,
  exec_all exec_addi g s
  = Some (foldl (fun s f => set_reg (f_rd f) (reg s (f_rs1 f) +u u32 (f_imm f)) s) s
            (fuse_of <$> g)).
Proof.
  induction g as [|ir g IH]; intros s; cbn [exec_all fmap list_fmap foldl]; [done|].
  etransitivity; [apply IH|]. cbn [fuse_of f_rd f_rs1 f_imm]. by rewrite u32_add_r.
Qed.
Lemma fuse5_all g : forall s, exec_all exec_shift g s = fuse5_loop (fuse_of <$> g) s.
Proof.
  induction g as [|ir g IH]; intros s; cbn [exec_all fmap list_fmap fuse5_loop]; [done|].
  assert (exec_shift s ir = fuse_shift_exec s (fuse_of ir)) as ->.
  { unfold exec_shift, fuse_shift_exec, fuse_of. cbn [f_opcode]. by destruct (opcode ir). }
  destruct (fuse_shift_exec s (fuse_of ir)) as [s1|]; cbn; auto.
Qed.
Lemma fuse3_all cycle pc g : forall s s',
  exec_all exec_sw g s = Some s' -> fuse3_loop (fuse_of <$> g) s cycle pc = Nextop s' pc.
Proof.
  induction g as [|ir g IH]; intros s s'; cbn [exec_all fmap list_fmap fuse3_loop].
  { by intros [= <-]. }
  intros (s1 & E1 & E2)%bind_Some. unfold exec_sw in E1. cbn [fuse_of f_rs1 f_rs2 f_imm].
  unfold RV_EXC_MISALIGN_HANDLER. unfold misaligned in E1. destruct (_ && _); [done|].
  rewrite E1. by apply IH.
Qed.
Lemma fuse4_all cycle pc g : forall s s',
  exec_all exec_lw g s = Some s' -> fuse4_loop (fuse_of <$> g) s cycle pc = Nextop s' pc.
Proof.
  induction g as [|ir g IH]; intros s s'; cbn [exec_all fmap list_fmap fuse4_loop].
  { by intros [= <-]. }
  intros (s1 & E1 & E2)%bind_Some. unfold exec_lw in E1. cbn [fuse_of f_rs1 f_rd f_imm].
  unfold RV_EXC_MISALIGN_HANDLER. unfold misaligned in E1. destruct (_ && _); [done|].
  destruct (ram_read_w _ _); [|done]. injection E1 as <-. by apply IH.
Qed.

(** [fo] is the fused opcode for sequences described by [exec]. *)
Definition fuses_to (exec : riscv -> rv_insn -> option riscv) (fo : opcode_t) : Prop :=
  forall g ir s s' n cycle pc,
    opcode ir = fo -> fuse ir = fuse_of <$> g -> imm2 ir = Z.of_nat (length g) ->
    exec_all exec g s = Some s' ->
    dispatch_table n s ir cycle pc
    = fuse_next_or_stop n s' (u64 (cycle + Z.of_nat (length g)))
        (pc +u Z.of_nat (length g) * 4).

Lemma entries_all g ir :
  fuse ir = fuse_of <$> g -> imm2 ir = Z.of_nat (length g) -> fuse_entries ir = fuse_of <$> g.
Proof.
  intros E1 E2. unfold fuse_entries. rewrite E1, E2, Nat2Z.id. apply take_ge.
  by rewrite length_fmap.
Qed.
Ltac fused E := intros g ir s s' n cycle pc Eo Ef Ei E; unfold dispatch_table; rewrite Eo.
Lemma fuses_lui : fuses_to exec_lui rv_insn_fuse1.
Proof.
  fused E. unfold do_fuse1. rewrite (entries_all g ir Ef Ei), Ei. rewrite fuse1_all in E.
  by injection E as <-.
Qed.
Lemma fuses_addi : fuses_to exec_addi rv_insn_fuse7.
Proof.
  fused E. unfold do_fuse7. rewrite (entries_all g ir Ef Ei), Ei. rewrite fuse7_all in E.
  by injection E as <-.
Qed.
Lemma fuses_shift : fuses_to exec_shift rv_insn_fuse5.
Proof.
  fused E. unfold do_fuse5. rewrite (entries_all g ir Ef Ei), Ei. rewrite fuse5_all in E.
  by rewrite E.
Qed.
Lemma fuses_sw : fuses_to exec_sw rv_insn_fuse3.
Proof.
  fused E. unfold do_fuse3. rewrite (entries_all g ir Ef Ei), Ei.
  by rewrite (fuse3_all _ _ _ _ _ E).
Qed.
Lemma fuses_lw : fuses_to exec_lw rv_insn_fuse4.
Proof.
  fused E. unfold do_fuse4. rewrite (entries_all g ir Ef Ei), Ei.
  by rewrite (fuse4_all _ _ _ _ _ E).
Qed.
End Kinds.

(** * One iteration of the pass *)

Section One.
Context `{riscv_io_laws} `{softfloat_laws}.

(** Replacing [ir :: rest] by [ir' :: rest'] does not change the run. *)
Definition fuses (ir : rv_insn) (rest : list rv_insn) (ir' : rv_insn) (rest' : list rv_insn)
    (s : riscv) (cycle pc : Z) : Prop :=
  (exists k, rest' = drop k rest) /\
  run_irs do_insn (ir :: rest) s cycle pc
  = continue (dispatch_table (more rest') s ir' cycle pc) rest' /\
  (forall s' c p, dispatch_table (more rest') s ir' cycle pc = Go_next s' c p ->
     sane s' /\ is_u32 p).

Lemma dispatch_insn n s ir cycle pc :
  is_fuse (opcode ir) = false -> dispatch_table n s ir cycle pc = do_insn n s ir cycle pc.
Proof. unfold dispatch_table. by destruct (opcode ir). Qed.

Context (ir : rv_insn) (rest : list rv_insn) (s : riscv) (cycle pc : Z).
Hypothesis Hir : fusable ir.
Hypothesis Hrest : Forall fusable rest.
Hypothesis Hs : sane s.
Hypothesis Hpc : is_u32 pc.
Hypothesis HN : normal (run_irs do_insn (ir :: rest) s cycle pc).

Lemma fuses_id : fuses ir rest ir rest s cycle pc.
Proof.
  split; [by exists 0%nat|]. rewrite run_cons, dispatch_insn by apply Hir. split; [done|].
  intros s' c p E. apply do_insn_Go_next in E as (pc' & EB & -> & _).
  split; [|auto with words]. eapply sane_body; eauto. apply u64_range.
Qed.

(** A sequence replaced by a fused IR with the same composition. *)
Lemma fuses_seq exec g rest' ir' :
  rest = g ++ rest' -> Forall (plain exec) (ir :: g) ->
  (forall s' n, exec_all exec (ir :: g) s = Some s' ->
    dispatch_table n s ir' cycle pc
    = fuse_next_or_stop n s' (u64 (cycle + Z.of_nat (length (ir :: g))))
        (pc +u Z.of_nat (length (ir :: g)) * 4)) ->
  fuses ir rest ir' rest' s cycle pc.
Proof.
  intros -> HP HD. apply Forall_app in Hrest as [Hg _].
  destruct (run_group exec (ir :: g) rest' s cycle pc) as (s' & E & Hs' & ER); auto.
  split; [exists (length g); by rewrite drop_app_length|].
  rewrite (HD s' (more rest') E). split; [exact ER|].
  intros s1 c p. unfold fuse_next_or_stop. destruct (more rest'); [|done].
  intros [= <- <- <-]. auto with words.
Qed.

Lemma count_prefix_take (p : rv_insn -> bool) l :
  Forall (fun x => p x = true) (take (count_prefix p l) l) /\ (count_prefix p l <= length l)%nat.
Proof.
  induction l as [|x l [IH1 IH2]]; cbn; [done|]. destruct (p x) eqn:E; cbn.
  - split; [by constructor|lia].
  - split; [done|lia].
Qed.

Lemma try_fuse_ok exec fo p alloc ir' rest' :
  fuses_to exec fo -> plain exec ir -> (forall x, p x = true -> plain exec x) ->
  try_fuse_sequence alloc ir rest (S (count_prefix p rest)) fo = (ir', rest') ->
  fuses ir rest ir' rest' s cycle pc.
Proof.
  intros Hfo Hp0 Hp E. unfold try_fuse_sequence in E.
  destruct (_ <=? 1)%nat; [injection E as <- <-; apply fuses_id|].
  destruct (_ <? _)%nat; [injection E as <- <-; apply fuses_id|].
  destruct alloc; [|injection E as <- <-; apply fuses_id]. cbn [negb] in E.
  destruct (count_prefix_take p rest) as [HT HL].
  replace (S (count_prefix p rest) - 1)%nat with (count_prefix p rest) in E by lia.
  set (k := count_prefix p rest) in *. injection E as <- <-.
  eapply (fuses_seq exec (take k rest)).
  - unfold remove_next_nth_ir. by rewrite take_drop.
  - constructor; [done|]. eapply Forall_impl; [exact HT|]. apply Hp.
  - intros s' n Ex. apply Hfo; try done. cbn. rewrite length_take. by rewrite Nat.min_l by lia.
Qed.

(** ** The fixed two-instruction patterns *)

Context (next : rv_insn) (rest' : list rv_insn).
Hypothesis Ecut : rest = next :: rest'.

(** Two plain instructions of different kinds. *)
Lemma fuses_pair exec1 exec2 ir' :
  plain exec1 ir -> plain exec2 next ->
  (forall s1 s2 n, exec1 s ir = Some s1 -> exec2 s1 next = Some s2 ->
    dispatch_table n s ir' cycle pc = fuse_next_or_stop n s2 (u64 (cycle + 2)) (pc +u 8)) ->
  fuses ir rest ir' rest' s cycle pc.
Proof.
  intros HP1 HP2 HD. subst rest. inversion Hrest as [|?? Hn _]; subst.
  rewrite run_cons in HN.
  destruct (plain_step exec1 true s ir cycle pc (next :: rest') HP1 Hir Hs Hpc HN)
    as (s1 & E1 & Hs1 & ED1).
  cbn [more] in HN. rewrite ED1 in HN. cbn [fuse_next_or_stop continue] in HN.
  rewrite run_cons in HN.
  destruct (plain_step exec2 (more rest') s1 next (u64 (cycle + 1)) (pc +u 4) rest' HP2 Hn Hs1
    ltac:(auto with words) HN) as (s2 & E2 & Hs2 & ED2).
  split; [by exists 1%nat|]. rewrite run_cons. cbn [more]. rewrite ED1.
  cbn [fuse_next_or_stop continue]. rewrite run_cons, ED2, (HD s1 s2 _ E1 E2).
  rewrite u64_add_l, u32_add_l, <- !Z.add_assoc. split; [done|].
  intros s' c p. unfold fuse_next_or_stop. destruct (more rest'); [|done].
  intros [= <- <- <-]. auto with words.
Qed.
End One.

Section Pairs.
Context `{riscv_io_laws} `{softfloat_laws}.

Definition exec_add (s : riscv) (ir : rv_insn) : option riscv :=
  Some (set_reg (rd ir) (reg s (rs1 ir) +u reg s (rs2 ir)) s).
Lemma plain_add ir : opcode ir = rv_insn_add -> plain exec_add ir.
Proof. intros E. unfold plain. by rewrite E. Qed.

Context (ir next : rv_insn) (s : riscv) (cycle pc : Z).
Hypothesis Hir : fusable ir.
Hypothesis Hs : sane s.

Lemma reg_lui v : reg (set_reg (rd ir) v s) (rd ir) = v.
Proof. apply reg_set_reg_eq; [apply Hs|apply Hir]. Qed.

Lemma fuse2_ok s1 s2 n ir' :
  exec_lui s ir = Some s1 -> exec_add s1 next = Some s2 ->
  (rd ir =? rs2 next) || (rd ir =? rs1 next) = true ->
  ir' = set_rs1 (if rd ir =? rs2 next then rs1 next else rs2 next)
          (set_rs2 (rd next) (set_opcode rv_insn_fuse2 ir)) ->
  dispatch_table n s ir' cycle pc = fuse_next_or_stop n s2 (u64 (cycle + 2)) (pc +u 8).
Proof.
  intros [= <-] [= <-] E ->. unfold dispatch_table, do_fuse2. cbn. f_equal. f_equal.
  destruct (Z.eqb_spec (rd ir) (rs2 next)) as [->|]; [by rewrite Z.add_comm|].
  destruct (Z.eqb_spec (rd ir) (rs1 next)) as [->|]; [done|]. done.
Qed.
Lemma fuse8_ok s1 s2 n ir' :
  exec_lui s ir = Some s1 -> exec_addi s1 next = Some s2 ->
  negb (rd ir =? rv_reg_zero) && (rd ir =? rs1 next) && (rd ir =? rd next) = true ->
  ir' = set_opcode rv_insn_fuse8 (set_imm2 (imm next) ir) ->
  dispatch_table n s ir' cycle pc = fuse_next_or_stop n s2 (u64 (cycle + 2)) (pc +u 8).
Proof.
  intros [= <-] [= <-] [[_ E1%Z.eqb_eq]%andb_true_iff E2%Z.eqb_eq]%andb_true_iff ->.
  unfold dispatch_table, do_fuse8. cbn [opcode set_opcode rd imm imm2 set_imm2].
  rewrite <- E1, <- E2, reg_lui, set_reg_twice. by rewrite u32_add_r.
Qed.
Lemma fuse9_ok s1 s2 n ir' :
  exec_lui s ir = Some s1 -> exec_lw s1 next = Some s2 ->
  negb (rd ir =? rv_reg_zero) && (rd ir =? rs1 next) = true ->
  ir' = set_opcode rv_insn_fuse9 (set_rs2 (rd next) (set_imm2 (imm next) ir)) ->
  dispatch_table n s ir' cycle pc = fuse_next_or_stop n s2 (u64 (cycle + 2)) (pc +u 8).
Proof.
  intros [= <-] E [_ E1%Z.eqb_eq]%andb_true_iff ->. unfold exec_lw in E.
  rewrite <- E1, reg_lui in E.
  unfold dispatch_table, do_fuse9, RV_EXC_MISALIGN_HANDLER.
  cbn [opcode set_opcode rd rs2 imm imm2 set_imm2 set_rs2]. cbv zeta. rewrite u32_add_r.
  unfold misaligned in E. destruct (_ && _); [done|].
  destruct (ram_read_w _ _); [|done]. by injection E as <-.
Qed.
Lemma fuse10_ok s1 s2 n ir' :
  exec_lui s ir = Some s1 -> exec_sw s1 next = Some s2 ->
  negb (rd ir =? rv_reg_zero) && (rd ir =? rs1 next) && negb (rd ir =? rs2 next) = true ->
  ir' = set_opcode rv_insn_fuse10 (set_rs1 (rs2 next) (set_imm2 (imm next) ir)) ->
  dispatch_table n s ir' cycle pc = fuse_next_or_stop n s2 (u64 (cycle + 2)) (pc +u 8).
Proof.
  intros [= <-] E [[_ E1%Z.eqb_eq]%andb_true_iff _]%andb_true_iff ->. unfold exec_sw in E.
  rewrite <- E1, reg_lui in E.
  unfold dispatch_table, do_fuse10, RV_EXC_MISALIGN_HANDLER.
  cbn [opcode set_opcode rd rs1 imm imm2 set_imm2 set_rs1]. cbv zeta. rewrite u32_add_r.
  unfold misaligned in E. destruct (_ && _); [done|]. by rewrite E.
Qed.
Lemma fuse11_ok s1 s2 n ir' :
  exec_lw s ir = Some s1 -> exec_addi s1 next = Some s2 ->
  rs1 ir = rs1 next -> rs1 next = rd next ->
  ir' = set_opcode rv_insn_fuse11 (set_imm2 (imm next) ir) ->
  dispatch_table n s ir' cycle pc = fuse_next_or_stop n s2 (u64 (cycle + 2)) (pc +u 8).
Proof.
  intros E [= <-] E1 E2 ->. unfold exec_lw in E.
  unfold dispatch_table, do_fuse11, RV_EXC_MISALIGN_HANDLER.
  cbn [opcode set_opcode rd rs1 imm imm2 set_imm2]. cbv zeta.
  unfold misaligned in E. destruct (_ && _); [done|].
  destruct (ram_read_w _ _); [|done]. injection E as <-. by rewrite E1, <- E2.
Qed.

(** The pairs that end the block. *)
Context (rest : list rv_insn).
Hypothesis Hnext : fusable next.
Hypothesis Hpc : is_u32 pc.
Hypothesis HN : normal (run_irs do_insn (ir :: next :: rest) s cycle pc).
Hypothesis Eaddi : opcode ir = rv_insn_addi.

Lemma run_addi :
  run_irs do_insn (ir :: next :: rest) s cycle pc
  = run_irs do_insn (next :: rest) (set_reg (rd ir) (reg s (rs1 ir) +u imm ir) s)
      (u64 (cycle + 1)) (pc +u 4).
Proof.
  pose proof HN as HN'. rewrite run_cons in HN' |- *. cbn [more] in *.
  destruct (plain_step exec_addi true s ir cycle pc (next :: rest) (plain_addi ir Eaddi)
    Hir Hs Hpc HN') as (s1 & [= <-] & _ & ED).
  by rewrite ED.
Qed.

Lemma fuse6_ok ir' :
  rd ir = rv_reg_a7 -> rs1 ir = rv_reg_zero -> opcode next = rv_insn_ecall ->
  ir' = set_opcode rv_insn_fuse6 ir -> fuses ir (next :: rest) ir' rest s cycle pc.
Proof.
  intros E1 E2 Eo ->. split; [by exists 1%nat|].
  assert (run_irs do_insn (ir :: next :: rest) s cycle pc
    = dispatch_table (more rest) s (set_opcode rv_insn_fuse6 ir) cycle pc) as ER.
  { rewrite run_addi, run_cons. unfold do_insn, RVOP. rewrite Eo. cbn [insn_body].
    unfold do_ecall, dispatch_table, do_fuse6. cbn [opcode set_opcode imm]. cbv zeta.
    rewrite E1, E2, (proj2 Hs), Z.add_0_l, u64_add_l, <- Z.add_assoc. change (1 + 1) with 2.
    by destruct (on_ecall _). }
  rewrite ER. unfold dispatch_table, do_fuse6. cbn [opcode set_opcode].
  by destruct (on_ecall _).
Qed.

Lemma fuse12_ok ir' :
  rest = [] -> opcode next = rv_insn_bne -> rd ir <> rv_reg_zero -> rd ir = rs1 next ->
  rs2 next = rv_reg_zero ->
  ir' = set_branch_untaken (branch_untaken next) (set_branch_taken (branch_taken next)
          (set_opcode rv_insn_fuse12 (set_imm2 (imm next) ir))) ->
  fuses ir (next :: rest) ir' rest s cycle pc.
Proof.
  intros Er Eo Hz E1 E2 ->. split; [by exists 1%nat|].
  destruct (fus_unlinked next Hnext) as [U1 U2].
  rewrite run_addi, run_cons, Er. cbn [more]. unfold do_insn, RVOP. rewrite Eo. cbn [insn_body].
  unfold do_bne, BRANCH_FUNC, dispatch_table, do_fuse12.
  cbn [opcode set_opcode set_branch_taken set_branch_untaken branch_taken branch_untaken rd
       rs1 imm imm2 set_imm2]. cbv zeta.
  rewrite U1, U2, E2, <- E1.
  rewrite (reg_set_reg_ne s (rd ir) rv_reg_zero) by
    (pose proof (wf_rd ir (fus_wf ir Hir)); unfold is_reg, rv_reg_zero in *; lia).
  rewrite (proj2 Hs). destruct (_ =? 0); cbn [negb];
    unfold end_op; rewrite Eo; cbn [insn_is_branch negb insn_len continue];
    rewrite ?u32_add_l, ?u64_add_l, <- ?Z.add_assoc; done.
Qed.
End Pairs.

(** * The pass *)

(** Only the last instruction of a block may be a branch. *)
Definition only_last_branches (irs : list rv_insn) : Prop :=
  forall k ir, irs !! k = Some ir -> (S k < length irs)%nat -> insn_is_branch (opcode ir) = false.

Lemma only_last_drop k irs : only_last_branches irs -> only_last_branches (drop k irs).
Proof.
  intros HB j ir. rewrite lookup_drop, length_drop. intros Hj HL. eapply HB; [exact Hj|lia].
Qed.

Section Pass.
Context `{riscv_io_laws} `{softfloat_laws}.

(** Every rewriting of the pass, unchanged IRs included. *)
Lemma match_one_ok alloc ir rest ir' rest' s cycle pc :
  match_one alloc ir rest = (ir', rest') -> fusable ir -> Forall fusable rest ->
  only_last_branches (ir :: rest) -> sane s -> is_u32 pc ->
  normal (run_irs do_insn (ir :: rest) s cycle pc) ->
  fuses ir rest ir' rest' s cycle pc.
Proof.
  intros E Hir Hrest HB Hs Hpc HN. unfold match_one in E.
  assert (forall o exec fo p, opcode ir = o -> fuses_to exec fo ->
    (forall x, opcode x = o -> plain exec x) ->
    p = (fun x => bool_decide (opcode x = o)) ->
    try_fuse_sequence alloc ir rest (S (count_prefix p rest)) fo = (ir', rest') ->
    fuses ir rest ir' rest' s cycle pc) as Hseq.
  { intros o exec fo p Eo Hfo Hp -> Et. eapply try_fuse_ok; eauto.
    intros x Hx%bool_decide_eq_true. auto. }
  assert (is_shift_imm ir = true ->
    try_fuse_sequence alloc ir rest (count_consecutive_shift rest) rv_insn_fuse5 = (ir', rest') ->
    fuses ir rest ir' rest' s cycle pc) as Hshift.
  { intros Hsh Et. eapply try_fuse_ok; eauto using fuses_shift, plain_shift. }
  destruct (opcode ir) eqn:Eo; try (injection E as <- <-; by apply fuses_id);
    try (by apply Hshift; [unfold is_shift_imm; rewrite Eo|]).
  - (* lui *)
    destruct rest as [|next rest]; [injection E as <- <-; by apply fuses_id|].
    destruct (opcode next) eqn:En; try (injection E as <- <-; by apply fuses_id).
    + by eapply (Hseq rv_insn_lui); eauto using fuses_lui, plain_lui.
    + destruct (_ && _) eqn:C; injection E as <- <-; [|by apply fuses_id].
      eapply fuses_pair; eauto using plain_lui, plain_lw, fuse9_ok.
    + destruct (_ && _) eqn:C; injection E as <- <-; [|by apply fuses_id].
      eapply fuses_pair; eauto using plain_lui, plain_sw, fuse10_ok.
    + destruct (_ && _) eqn:C; injection E as <- <-; [|by apply fuses_id].
      eapply fuses_pair; eauto using plain_lui, plain_addi, fuse8_ok.
    + destruct (_ || _) eqn:C; injection E as <- <-; [|by apply fuses_id].
      eapply fuses_pair; eauto using plain_lui, plain_add, fuse2_ok.
  - (* lw *)
    destruct rest as [|next rest]; [injection E as <- <-; by apply fuses_id|].
    destruct (_ && _) eqn:C; [|by eapply (Hseq rv_insn_lw); eauto using fuses_lw, plain_lw].
    repeat (apply andb_true_iff in C as [C ?]). apply bool_decide_eq_true in C.
    injection E as <- <-. eapply fuses_pair; eauto using plain_lw, plain_addi.
    intros. eapply fuse11_ok; eauto; by apply Z.eqb_eq.
  - (* sw *) by eapply (Hseq rv_insn_sw); eauto using fuses_sw, plain_sw.
  - (* addi *)
    destruct rest as [|next rest]; [injection E as <- <-; by apply fuses_id|].
    inversion Hrest as [|?? Hnext _]; subst.
    destruct (_ && bool_decide (opcode next = rv_insn_ecall)) eqn:C1.
    { repeat (apply andb_true_iff in C1 as [C1 ?]). injection E as <- <-.
      eapply fuse6_ok; eauto; by (apply Z.eqb_eq || eapply bool_decide_eq_true). }
    destruct (bool_decide (opcode next = rv_insn_bne) && _ && _ && _) eqn:C2;
      [|by eapply (Hseq rv_insn_addi); eauto using fuses_addi, plain_addi].
    repeat (apply andb_true_iff in C2 as [C2 ?]). apply bool_decide_eq_true in C2.
    injection E as <- <-. eapply fuse12_ok; eauto; try by apply Z.eqb_eq.
    + destruct rest as [|x rest]; [done|]. specialize (HB 1%nat next eq_refl ltac:(cbn; lia)).
      by rewrite C2 in HB.
    + apply Z.eqb_neq. by apply negb_true_iff.
Qed.

Lemma match_from_more fuel alloc i irs : more (match_from fuel alloc i irs) = more irs.
Proof.
  destruct fuel; [done|]. destruct irs as [|ir [|ir2 rest]]; cbn; try done.
  by destruct (match_one _ _ _).
Qed.

Lemma match_from_ok fuel alloc : forall i irs s cycle pc,
  Forall fusable irs -> only_last_branches irs -> sane s -> is_u32 pc ->
  normal (run_irs do_insn irs s cycle pc) ->
  run_irs dispatch_table (match_from fuel alloc i irs) s cycle pc
  = run_irs do_insn irs s cycle pc.
Proof.
  assert (forall irs s cycle pc, Forall fusable irs ->
    run_irs dispatch_table irs s cycle pc = run_irs do_insn irs s cycle pc) as Hsame.
  { induction irs as [|ir irs IH]; intros s cycle pc HF; [done|].
    inversion HF as [|?? H1' H2']; subst. cbn [run_irs].
    rewrite dispatch_insn by apply H1'. destruct (do_insn _ _ _ _ _); auto. }
  induction fuel as [|fuel IH]; intros i irs s cycle pc HF HB Hs Hp HN; [by apply Hsame|].
  cbn [match_from].
  destruct irs as [|ir [|ir2 rest0]]; [done|by apply Hsame|]. set (rest := ir2 :: rest0) in *.
  destruct (match_one (alloc i) ir rest) as [ir' rest'] eqn:E.
  inversion HF as [|?? Hir Hrest]; subst.
  destruct (match_one_ok _ _ _ _ _ _ _ _ E Hir Hrest HB Hs Hp HN) as ((k & ->) & ER & HG).
  rewrite ER. rewrite ER in HN. cbn [run_irs].
  fold (more (match_from fuel alloc (S i) (drop k rest))). rewrite match_from_more.
  destruct (dispatch_table _ _ _ _ _) as [s1 c1 p1| | | |]; try done.
  destruct (HG s1 c1 p1 eq_refl) as [Hs1 Hp1]. cbn [continue] in *.
  apply IH; auto using Forall_drop.
  change (drop k rest) with (drop (S k) (ir :: rest)). by apply only_last_drop.
Qed.

(** C9: macro-operation fusion is sound.  For a block before it is linked, of decoded
    instructions that leave [x0] zero (so no load into [x0]) and of which only the last may
    branch, and whatever allocations succeed, the fused block and the original block, run
    from the same state with [x0 = 0], give exactly the same result -- registers, memory,
    CSRs, cycle count, program counter and exit -- unless the original run takes a trap or
    has undefined behaviour. *)
Theorem match_pattern_sound alloc irs s cycle pc :
  Forall fusable irs -> only_last_branches irs -> sane s -> is_u32 pc ->
  normal (run_irs do_insn irs s cycle pc) ->
  run_irs dispatch_table (match_pattern alloc irs) s cycle pc
  = run_irs do_insn irs s cycle pc.
Proof. intros. by apply match_from_ok. Qed.
End Pass.

(** A block with four kinds of fusion: [lui x1,1; addi x1,x1,-1; slli x2,x1,2;
    srli x3,x2,1; lw x5,0(x6); addi x6,x6,4; addi x4,x3,-1; bne x4,x0,-8]. *)
Definition fuse_sample : list rv_insn :=
  [ mk_insn 0x1000 1 0 0 rv_insn_lui 0 0 0 [] 0x100 None None;
    mk_insn (-1) 1 1 0 rv_insn_addi 0 0 0 [] 0x104 None None;
    mk_insn 2 2 1 0 rv_insn_slli 0 0 0 [] 0x108 None None;
    mk_insn 1 3 2 0 rv_insn_srli 0 0 0 [] 0x10c None None;
    mk_insn 0 5 6 0 rv_insn_lw 0 0 0 [] 0x110 None None;
    mk_insn 4 6 6 0 rv_insn_addi 0 0 0 [] 0x114 None None;
    mk_insn (-1) 4 3 0 rv_insn_addi 0 0 0 [] 0x118 None None;
    mk_insn (-8) 0 4 0 rv_insn_bne 0 0 0 [] 0x11c None None ].

Lemma match_pattern_sound_witness :
  map opcode (match_pattern (fun _ => true) fuse_sample)
  = [rv_insn_fuse8; rv_insn_fuse5; rv_insn_fuse11; rv_insn_fuse12] /\
  run_irs (@dispatch_table quiet_io zero_softfloat) (match_pattern (fun _ => true) fuse_sample)
    (reset_state ∅ 4096) 0 0x100
  = run_irs (@do_insn quiet_io zero_softfloat) fuse_sample (reset_state ∅ 4096) 0 0x100.
Proof.
  split; [reflexivity|].
  apply (@match_pattern_sound quiet_io quiet_io_laws zero_softfloat zero_softfloat_laws).
  - repeat constructor; cbn; solve [lia | done].
  - intros k ir Hk HL. do 8 (destruct k as [|k]; [injection Hk as <-; cbn in *; done || lia|]).
    done.
  - split; [apply reset_state_wf|reflexivity].
  - unfold is_u32. lia.
  - vm_compute. exact I.
Defined.

(** * Traps inside a fused sequence

    [lw x1,0(x0); lw x2,1(x0)] at address 0x100: the second load is misaligned. *)
Definition trap_pair : list rv_insn :=
  [ mk_insn 0 1 0 0 rv_insn_lw 0 0 0 [] 0x100 None None;
    mk_insn 1 2 0 0 rv_insn_lw 0 0 0 [] 0x104 None None ].
Definition result_PC (r : step_result) : Z := match r with Ret _ s => PC s | _ => 0 end.

(** The exclusion of traps is necessary: when the second load of a fused pair is
    misaligned, the unfused block traps with [rv->PC] at that load (0x104), the fused one
    with [rv->PC] at the first load (0x100), which is what the trap handler then emulates
    or reports. *)
Theorem fused_trap_has_wrong_pc :
  result_PC (run_irs (@do_insn quiet_io zero_softfloat) trap_pair
    (reset_state ∅ 4096) 0 0x100) = 0x104 /\
  result_PC (run_irs (@dispatch_table quiet_io zero_softfloat)
    (match_pattern (fun _ => true) trap_pair) (reset_state ∅ 4096) 0 0x100) = 0x100.
Proof. split; reflexivity. Qed.
