(* ===== verification/Trap.v ===== *)
(** Trap handling of the user-mode build (emulate.c): emulation of misaligned loads and
    stores, the default handler used when no trap vector is installed, trap entry,
    [ebreak]/[ecall], the accelerated [memset]/[memcpy], and the callback table that
    riscv.c installs ([user_io]).  [None] is undefined behaviour: a RAM access outside
    the allocated memory, or a failed [assert] of the decoder. *)

From S2P Require Import Prelude.
From S2P Require Import Opcode.
From S2P Require Import Decode.
From S2P Require Import Machine.
From S2P Require Import Interp.

(** * Misaligned accesses

    [rv->io.mem_read_s] and the others are the [memory_*] functions of io.c, which
    behave like the RAM fast path. *)

(** [for (i = 0; i < n; i++) value |= mem_read_b(addr + i) << (i * 8);] *)
Fixpoint read_bytes (s : riscv) (addr : Z) (i n : nat) (value : Z) : option Z :=
  match n with
  | O => Some value
  | S n =>
    b ← ram_read_b s (addr +u Z.of_nat i);
    read_bytes s addr (S i) n (value |u u32 (b <<u (Z.of_nat i * 8)))
  end.
(** [for (i = 0; i < n; i++) mem_write_b(addr + i, (value >> (i * 8)) & 0xff);] *)
Fixpoint write_bytes (s : riscv) (addr value : Z) (i n : nat) : option riscv :=
  match n with
  | O => Some s
  | S n =>
    s ← ram_write_b s (addr +u Z.of_nat i) ((value >>u (Z.of_nat i * 8)) &u 0xff);
    write_bytes s addr value (S i) n
  end.

Definition emulate_misaligned_load (s : riscv) (ir : rv_insn) (addr : Z)
  : option (riscv * bool) :=
  match opcode ir with
  | rv_insn_lw | rv_insn_clw | rv_insn_clwsp =>
    value ← (if addr &u 1 =? 0 then
               lo ← ram_read_s s addr;
               hi ← ram_read_s s (addr +u 2);
               Some (lo |u u32 (hi <<u 16))
             else read_bytes s addr 0 4 0);
    Some (set_reg (rd ir) value s, true)
  | rv_insn_lh =>
    value ← read_bytes s addr 0 2 0; Some (set_reg (rd ir) (sign_extend_h value) s, true)
  | rv_insn_lhu =>
    value ← read_bytes s addr 0 2 0; Some (set_reg (rd ir) value s, true)
  | _ => Some (s, false)
  end.

Definition emulate_misaligned_store (s : riscv) (ir : rv_insn) (addr : Z)
  : option (riscv * bool) :=
  match opcode ir with
  | rv_insn_sw | rv_insn_csw | rv_insn_cswsp =>
    let value := reg s (rs2 ir) in
    s ← (if addr &u 1 =? 0 then
           s ← ram_write_s s addr (value &u 0xffff);
           ram_write_s s (addr +u 2) ((value >>u 16) &u 0xffff)
         else write_bytes s addr value 0 4);
    Some (s, true)
  | rv_insn_sh =>
    let value := reg s (rs2 ir) in
    s ← write_bytes s addr value 0 2; Some (s, true)
  | _ => Some (s, false)
  end.

(** * The default handler *)

(** [skip_insn:] and the successful exit do the same. *)
Definition advance_mepc (s : riscv) : riscv :=
  let s := set_csr csr_mepc (csr s csr_mepc +u (if compressed s then 2 else 4)) s in
  set_PC (csr s csr_mepc) s.

Definition rv_trap_default_handler (s : riscv) : option riscv :=
  let cause := csr s csr_mcause in
  let tval := csr s csr_mtval in
  let insn_addr := csr s csr_mepc in
  if (cause =? LOAD_MISALIGNED) || (cause =? STORE_MISALIGNED) then
    insn ← ram_read_w s insn_addr;
    if insn =? 0 then Some (advance_mepc s) else
    '(ir, ok) ← rv_decode zero_insn insn;
    if negb ok then Some (advance_mepc s) else
    '(s, handled) ← (if cause =? LOAD_MISALIGNED then emulate_misaligned_load s ir tval
                     else emulate_misaligned_store s ir tval);
    (if handled : bool then Some (advance_mepc s) else Some (advance_mepc s))
  else Some (advance_mepc s).

(** * Trap entry *)

Definition SSTATUS_SIE_SHIFT := 1.
Definition SSTATUS_SIE := 0x2.
Definition SSTATUS_SPIE_SHIFT := 5.
Definition SSTATUS_SPP_SHIFT := 8.

(** The [switch (mode)] at the end. *)
Definition trap_vector (base mode cause : Z) (s : riscv) : riscv :=
  match mode with
  | 0 => set_PC base s
  | 1 => set_PC (base +u 4 * (cause &u 0x7fffffff)) s
  | _ => s
  end.

Definition _trap_handler (s : riscv) : option riscv :=
  if RV_PRIV_IS_U_OR_S_MODE s then
    let sstatus_sie := (csr s csr_sstatus &u SSTATUS_SIE) >>u SSTATUS_SIE_SHIFT in
    let s := set_csr csr_sstatus (csr s csr_sstatus |u (sstatus_sie <<u SSTATUS_SPIE_SHIFT)) s in
    let s := set_csr csr_sstatus (csr s csr_sstatus &u ~u SSTATUS_SIE) s in
    let s := set_csr csr_sstatus
               (csr s csr_sstatus |u u32 (priv_mode s <<u SSTATUS_SPP_SHIFT)) s in
    let s := set_priv_mode RV_PRIV_S_MODE s in
    let base := csr s csr_stvec &u ~u 3 in
    let mode := csr s csr_stvec &u 3 in
    let cause := csr s csr_scause in
    let s := set_csr csr_sepc (PC s) s in
    Some (trap_vector base mode cause s)
  else
    let mstatus_mie := (csr s csr_mstatus &u MSTATUS_MIE) >>u MSTATUS_MIE_SHIFT in
    let s := set_csr csr_mstatus (csr s csr_mstatus |u (mstatus_mie <<u MSTATUS_MPIE_SHIFT)) s in
    let s := set_csr csr_mstatus (csr s csr_mstatus &u ~u MSTATUS_MIE) s in
    let s := set_csr csr_mstatus
               (csr s csr_mstatus |u u32 (priv_mode s <<u MSTATUS_MPP_SHIFT)) s in
    let s := set_priv_mode RV_PRIV_M_MODE s in
    let base := csr s csr_mtvec &u ~u 3 in
    let mode := csr s csr_mtvec &u 3 in
    let cause := csr s csr_mcause in
    let s := set_csr csr_mepc (PC s) s in
    if csr s csr_mtvec =? 0 then rv_trap_default_handler s
    else Some (trap_vector base mode cause s).

Definition trap_handler := _trap_handler.

(** * The callbacks of the user-mode embedder *)

Section Embedder.
(** [syscall_handler] (syscall.c) performs host I/O. *)
Context (syscall_handler : riscv -> option riscv).
(** The host clock. *)
Context (gettimeofday : riscv -> Z * Z).

Definition ebreak_handler (s : riscv) : option riscv :=
  trap_handler (set_cause_and_tval BREAKPOINT (PC s) s).

Definition ecall_handler (s : riscv) : option riscv :=
  s ← trap_handler (set_cause_and_tval ECALL_M 0 s);
  syscall_handler s.

(** The [riscv_io_t] that [rv_create] installs. *)
Definition user_io : riscv_io :=
  {| mem_ifetch := ram_read_w; on_ecall := ecall_handler; on_ebreak := ebreak_handler;
     on_trap := trap_handler; rv_gettimeofday := gettimeofday |}.
End Embedder.

(** * Accelerated library functions *)

(** [memset]: the byte is the low byte of the value. *)
Fixpoint fill_bytes (m : memory_t) (dest value : Z) (n : nat) : memory_t :=
  match n with
  | O => m
  | S n => fill_bytes (mk_memory (<[dest := u8 value]> (mem_base m)) (mem_size m))
             (dest + 1) value n
  end.
(** [memcpy] between disjoint regions. *)
Fixpoint copy_bytes (m : memory_t) (dest src : Z) (n : nat) : memory_t :=
  match n with
  | O => m
  | S n => copy_bytes (mk_memory (<[dest := byte_at m src]> (mem_base m)) (mem_size m))
             (dest + 1) (src + 1) n
  end.

Definition out_of_ram (m : memory_t) (addr count : Z) : bool :=
  (mem_size m <=? addr) || (mem_size m - addr <? count).

Definition memset_handler (s : riscv) : option riscv :=
  let dest := reg s rv_reg_a0 in
  let value := reg s rv_reg_a1 in
  let count := reg s rv_reg_a2 in
  if out_of_ram (mem s) dest count then trap_handler (set_cause_and_tval STORE_MISALIGNED dest s)
  else
    let s := set_mem (fill_bytes (mem s) dest value (Z.to_nat count)) s in
    Some (set_PC (reg s rv_reg_ra &u ~u 1) s).

Definition memcpy_handler (s : riscv) : option riscv :=
  let dest := reg s rv_reg_a0 in
  let src := reg s rv_reg_a1 in
  let count := reg s rv_reg_a2 in
  if out_of_ram (mem s) dest count then trap_handler (set_cause_and_tval STORE_MISALIGNED dest s)
  else if out_of_ram (mem s) src count then
    trap_handler (set_cause_and_tval LOAD_MISALIGNED src s)
  else if (dest <? src + count) && (src <? dest + count) && negb (count =? 0) then None
  else
    let s := set_mem (copy_bytes (mem s) dest src (Z.to_nat count)) s in
    Some (set_PC (reg s rv_reg_ra &u ~u 1) s).
