(* ===== verification/TrapProofs.v ===== *)
(** Properties of trap handling: misaligned accesses are emulated transparently, trap
    entry and [mret] are inverse, and the accelerated [memset]/[memcpy] stay in bounds. *)

From S2P Require Import Prelude.
From S2P Require Import Opcode.
From S2P Require Import Decode.
From S2P Require Import Machine.
From S2P Require Import Interp.
From S2P Require Import MachineFacts.
From S2P Require Import Invariant.
From S2P Require Import Trap.

(** * Memory arithmetic *)

Definition wf_bytes (s : riscv) : Prop := forall a, is_u8 (byte_at (mem s) a).

(** A region of RAM that an access of [n] bytes at [a] stays in. *)
Definition in_ram (s : riscv) (a : Z) (n : nat) : Prop :=
  0 <= a /\ a + Z.of_nat n <= mem_size (mem s) <= 0x100000000.

Lemma contains_in_ram s a n k :
  in_ram s a n -> (0 < k <= n)%nat -> forall i, (i + k <= n)%nat ->
  GUEST_RAM_CONTAINS (mem s) (a + Z.of_nat i) (Z.of_nat k) = true.
Proof.
  intros [Ha Hn] Hk i Hi. unfold GUEST_RAM_CONTAINS.
  apply andb_true_iff. split; [apply Z.ltb_lt|apply Z.leb_le]; lia.
Qed.
Lemma in_ram_addr s a n i :
  in_ram s a n -> (i < n)%nat -> u32 (a + Z.of_nat i) = a + Z.of_nat i.
Proof. intros [Ha Hn] Hi. apply u32_small. unfold is_u32. lia. Qed.

Lemma ram_read_b_in s a n i :
  in_ram s a n -> (i < n)%nat ->
  ram_read_b s (u32 (a + Z.of_nat i)) = Some (byte_at (mem s) (a + Z.of_nat i)).
Proof.
  intros HR Hi. rewrite (in_ram_addr s a n i) by done. unfold ram_read_b, mem_read.
  rewrite (contains_in_ram s a n 1 HR) by lia. cbn. f_equal. lia.
Qed.

Lemma read_bytes_spec s a n : forall i k v,
  wf_bytes s -> in_ram s a (i + k) -> (i + k <= 4)%nat -> n = k -> 0 <= v < 2 ^ (8 * Z.of_nat i) ->
  read_bytes s a i n v
  = Some (v + 2 ^ (8 * Z.of_nat i) * load_le (mem s) (a + Z.of_nat i) n).
Proof.
  induction n as [|n IH]; intros i k v Hs HR Hik <- Hv; cbn [read_bytes load_le].
  { f_equal. lia. }
  rewrite (ram_read_b_in s a (i + S n) i HR) by lia. cbn [mbind option_bind].
  pose proof (Hs (a + Z.of_nat i)) as Hb. unfold is_u8 in Hb.
  set (b := byte_at (mem s) (a + Z.of_nat i)) in *.
  assert (2 ^ (8 * Z.of_nat i + 8) = 2 ^ (8 * Z.of_nat i) * 0x100) as Ep
    by (by rewrite Z.pow_add_r by lia).
  assert (2 ^ (8 * Z.of_nat i + 8) <= 2 ^ 32) as Hle by (apply Z.pow_le_mono_r; lia).
  assert (0 < 2 ^ (8 * Z.of_nat i)) as Hpos by (apply Z.pow_pos_nonneg; lia).
  rewrite Z.mul_comm with (n := Z.of_nat i).
  assert (u32 (b <<u (8 * Z.of_nat i)) = b <<u (8 * Z.of_nat i)) as ->.
  { apply u32_small. unfold is_u32. rewrite Z.shiftl_mul_pow2 by lia. change (2 ^ 32) with 0x100000000 in Hle. nia. }
  rewrite lor_shift by lia.
  rewrite (IH (S i) n); [|done|by replace (S i + n)%nat with (i + S n)%nat by lia|lia|done|].
  - f_equal. replace (8 * Z.of_nat (S i)) with (8 * Z.of_nat i + 8) by lia. rewrite Ep.
    replace (a + Z.of_nat (S i)) with (a + Z.of_nat i + 1) by lia. nia.
  - replace (8 * Z.of_nat (S i)) with (8 * Z.of_nat i + 8) by lia. rewrite Ep. nia.
Qed.

(** Two halfwords make the word. *)
Lemma load_le_halves m a :
  load_le m a 4 = load_le m a 2 + load_le m (a + 2) 2 * 0x10000.
Proof.
  cbn [load_le]. replace (a + 1 + 1) with (a + 2) by lia.
  replace (a + 2 + 1 + 1) with (a + 2 + 2) by lia. lia.
Qed.

(** * Loads *)

Section Load.
Context (s : riscv) (ir : rv_insn) (a : Z).
Hypothesis Hs : wf_bytes s.

Lemma word_load_spec :
  in_ram s a 4 -> is_u32 a ->
  (if a &u 1 =? 0 then
     lo ← ram_read_s s a; hi ← ram_read_s s (a +u 2); Some (lo |u u32 (hi <<u 16))
   else read_bytes s a 0 4 0) = Some (load_le (mem s) a 4).
Proof.
  intros HR Ha. destruct (_ =? 0).
  - unfold ram_read_s, mem_read.
    pose proof (contains_in_ram s a 4 2 HR ltac:(lia) 0 ltac:(lia)) as C0.
    pose proof (contains_in_ram s a 4 2 HR ltac:(lia) 2 ltac:(lia)) as C2.
    rewrite Z.add_0_r in C0. change (a +u 2) with (u32 (a + Z.of_nat 2)).
    rewrite (in_ram_addr s a 4 2) by (done || lia). rewrite C0, C2. cbn [mbind option_bind].
    f_equal. change (a + Z.of_nat 2) with (a + 2).
    pose proof (load_le_range 2 (mem s) a Hs) as R1.
    pose proof (load_le_range 2 (mem s) (a + 2) Hs) as R2.
    change (2 ^ (8 * Z.of_nat 2)) with 0x10000 in *.
    rewrite load_le_halves. rewrite (u32_small (_ <<u 16)).
    + apply (lor_shift _ _ 16); [lia|exact R1].
    + unfold is_u32. rewrite Z.shiftl_mul_pow2 by lia. change (2 ^ 16) with 0x10000. lia.
  - rewrite (read_bytes_spec s a 4 0 4 0) by (done || lia). f_equal.
    cbn [Z.of_nat]. rewrite Z.add_0_r. lia.
Qed.
Lemma half_load_spec : in_ram s a 2 -> read_bytes s a 0 2 0 = Some (load_le (mem s) a 2).
Proof.
  intros HR. rewrite (read_bytes_spec s a 2 0 2 0) by (done || lia). f_equal.
  cbn [Z.of_nat]. rewrite Z.add_0_r. lia.
Qed.
Lemma ram_read_w_in : in_ram s a 4 -> ram_read_w s a = Some (load_le (mem s) a 4).
Proof.
  intros HR. unfold ram_read_w, mem_read.
  pose proof (contains_in_ram s a 4 4 HR ltac:(lia) 0 ltac:(lia)) as C.
  rewrite Z.add_0_r in C. by rewrite C.
Qed.
Lemma ram_read_s_in : in_ram s a 2 -> ram_read_s s a = Some (load_le (mem s) a 2).
Proof.
  intros HR. unfold ram_read_s, mem_read.
  pose proof (contains_in_ram s a 2 2 HR ltac:(lia) 0 ltac:(lia)) as C.
  rewrite Z.add_0_r in C. by rewrite C.
Qed.
End Load.

(** What an unrestricted access of the instruction would load. *)
Definition direct_load (s : riscv) (ir : rv_insn) (a : Z) : option Z :=
  match opcode ir with
  | rv_insn_lw | rv_insn_clw | rv_insn_clwsp => ram_read_w s a
  | rv_insn_lh => v ← ram_read_s s a; Some (sign_extend_h v)
  | rv_insn_lhu => ram_read_s s a
  | _ => None
  end.
Definition load_size (o : opcode_t) : nat :=
  match o with rv_insn_lw | rv_insn_clw | rv_insn_clwsp => 4 | rv_insn_lh | rv_insn_lhu => 2 | _ => 0 end.

Lemma emulate_load_ok s ir a :
  wf_bytes s -> is_u32 a -> (0 < load_size (opcode ir))%nat -> in_ram s a (load_size (opcode ir)) ->
  exists v, direct_load s ir a = Some v /\
    emulate_misaligned_load s ir a = Some (set_reg (rd ir) v s, true).
Proof.
  intros Hs Ha Hn HR. unfold direct_load, emulate_misaligned_load.
  destruct (opcode ir); cbn [load_size] in *; try lia;
    rewrite ?(word_load_spec s a Hs HR Ha), ?(half_load_spec s a Hs HR), ?(ram_read_w_in s a HR),
      ?(ram_read_s_in s a HR); cbn; eauto.
Qed.

(** * Stores *)

Lemma land_ff x : Z.land x 0xff = x mod 0x100.
Proof. change 0xff with (Z.ones 8). by rewrite Z.land_ones. Qed.
Lemma land_ffff x : Z.land x 0xffff = x mod 0x10000.
Proof. change 0xffff with (Z.ones 16). by rewrite Z.land_ones. Qed.

Lemma mem_set_mem m s : mem (set_mem m s) = m.
Proof. done. Qed.
Lemma set_mem_twice m m' s : set_mem m (set_mem m' s) = set_mem m s.
Proof. done. Qed.
Lemma in_ram_store s a n k b v :
  in_ram s a n -> in_ram (set_mem (store_le (mem s) b k v) s) a n.
Proof.
  assert (forall m b v, mem_size (store_le m b k v) = mem_size m) as Hsz.
  { induction k as [|k IH]; intros m b' v'; [done|]. cbn. by rewrite IH. }
  unfold in_ram. cbn. by rewrite Hsz.
Qed.

Lemma ram_write_b_in s a n i v :
  in_ram s a n -> (i < n)%nat ->
  ram_write_b s (u32 (a + Z.of_nat i)) v
  = Some (set_mem (store_le (mem s) (a + Z.of_nat i) 1 v) s).
Proof.
  intros HR Hi. rewrite (in_ram_addr s a n i) by done. unfold ram_write_b, mem_write.
  rewrite (contains_in_ram s a n 1 HR) by lia. cbn. unfold u8. by rewrite Z.mod_mod.
Qed.

(** Storing byte by byte is storing the whole value. *)
Lemma write_bytes_spec a v n : forall s i,
  in_ram s a (i + n) ->
  write_bytes s a v i n
  = Some (set_mem (store_le (mem s) (a + Z.of_nat i) n (v / 2 ^ (8 * Z.of_nat i))) s).
Proof.
  induction n as [|n IH]; intros s i HR; cbn [write_bytes].
  { cbn. f_equal. by destruct s. }
  rewrite (ram_write_b_in s a (i + S n) i) by (done || lia). cbn [mbind option_bind].
  rewrite IH by (replace (S i + n)%nat with (i + S n)%nat by lia; by apply in_ram_store).
  rewrite set_mem_twice, mem_set_mem. cbn [store_le]. do 3 f_equal.
  - rewrite land_ff, Z.mod_mod by done. rewrite Z.shiftr_div_pow2 by lia.
    by rewrite (Z.mul_comm (Z.of_nat i) 8).
  - lia.
  - replace (8 * Z.of_nat (S i)) with (8 * Z.of_nat i + 8) by lia.
    rewrite Z.pow_add_r, Z.div_div by (lia || by apply Z.pow_pos_nonneg || done). done.
Qed.

Lemma half_byte0 x : ((x mod 0x10000) mod 0x10000) mod 0x100 = x mod 0x100.
Proof. mlia. Qed.
Lemma half_byte1 x : ((x mod 0x10000) mod 0x10000 / 0x100) mod 0x100 = (x / 0x100) mod 0x100.
Proof. mlia. Qed.
Lemma half_bytes x : (x mod 0x10000) mod 0x100 = x mod 0x100 /\
  (x mod 0x10000 / 0x100) mod 0x100 = (x / 0x100) mod 0x100.
Proof. split; mlia. Qed.

Section Store.
Context (s : riscv) (a v : Z).

Lemma ram_write_s_in i x :
  in_ram s a (i + 2) ->
  ram_write_s s (u32 (a + Z.of_nat i)) x
  = Some (set_mem (store_le (mem s) (a + Z.of_nat i) 2 (u16 x)) s).
Proof.
  intros HR. rewrite (in_ram_addr s a (i + 2) i) by (done || lia). unfold ram_write_s, mem_write.
  by rewrite (contains_in_ram s a (i + 2) 2 HR) by lia.
Qed.
Lemma word_store_spec :
  in_ram s a 4 -> is_u32 a ->
  (if a &u 1 =? 0 then
     s ← ram_write_s s a (v &u 0xffff); ram_write_s s (a +u 2) ((v >>u 16) &u 0xffff)
   else write_bytes s a v 0 4) = ram_write_w s a v.
Proof.
  intros HR Ha.
  assert (ram_write_w s a v = Some (set_mem (store_le (mem s) a 4 v) s)) as ->.
  { unfold ram_write_w, mem_write.
    pose proof (contains_in_ram s a 4 4 HR ltac:(lia) 0 ltac:(lia)) as C.
    rewrite Z.add_0_r in C. by rewrite C. }
  destruct (_ =? 0).
  - assert (in_ram s a 2) as HR2 by (unfold in_ram in *; lia).
    rewrite <- (u32_small a Ha) at 1. rewrite <- (Z.add_0_r a) at 1.
    rewrite (ram_write_s_in 0) by done. cbn [mbind option_bind].
    unfold ram_write_s, mem_write.
    pose proof (in_ram_store s a 4 2 (a + Z.of_nat 0) (u16 (v &u 0xffff)) HR) as HR'.
    pose proof (contains_in_ram _ a 4 2 HR' ltac:(lia) 2 ltac:(lia)) as C.
    change (a +u 2) with (u32 (a + Z.of_nat 2)). rewrite (in_ram_addr s a 4 2) by (done || lia).
    rewrite C. cbn [mbind option_bind]. rewrite set_mem_twice, mem_set_mem. do 2 f_equal.
    cbn [store_le]. rewrite !land_ffff, Z.shiftr_div_pow2 by lia. unfold u16.
    change (2 ^ 16) with 0x10000. replace (a + Z.of_nat 0) with a by lia.
    change (Z.of_nat 2) with 2. replace (a + 1 + 1) with (a + 2) by lia.
    rewrite !half_byte0, !half_byte1.
    replace (v / 0x10000) with (v / 0x100 / 0x100) by mlia. done.
  - rewrite write_bytes_spec by done. cbn [Z.of_nat]. rewrite Z.add_0_r, Z.mul_0_r, Z.div_1_r. done.
Qed.
Lemma half_store_spec : in_ram s a 2 -> write_bytes s a v 0 2 = ram_write_s s a v.
Proof.
  intros HR. rewrite write_bytes_spec by done.
  cbn [Z.of_nat]. rewrite Z.add_0_r, Z.mul_0_r, Z.div_1_r.
  unfold ram_write_s, mem_write.
  pose proof (contains_in_ram s a 2 2 HR ltac:(lia) 0 ltac:(lia)) as C.
  rewrite Z.add_0_r in C. rewrite C. cbn [mbind option_bind]. do 2 f_equal.
  cbn [store_le]. unfold u16. destruct (half_bytes v) as [-> ->]. done.
Qed.
End Store.

Definition direct_store (s : riscv) (ir : rv_insn) (a : Z) : option riscv :=
  match opcode ir with
  | rv_insn_sw | rv_insn_csw | rv_insn_cswsp => ram_write_w s a (reg s (rs2 ir))
  | rv_insn_sh => ram_write_s s a (reg s (rs2 ir))
  | _ => None
  end.
Definition store_size (o : opcode_t) : nat :=
  match o with rv_insn_sw | rv_insn_csw | rv_insn_cswsp => 4 | rv_insn_sh => 2 | _ => 0 end.

Lemma ram_write_w_some s a v : in_ram s a 4 -> is_Some (ram_write_w s a v).
Proof.
  intros HR. unfold ram_write_w, mem_write.
  pose proof (contains_in_ram s a 4 4 HR ltac:(lia) 0 ltac:(lia)) as C.
  rewrite Z.add_0_r in C. rewrite C. eauto.
Qed.
Lemma ram_write_s_some s a v : in_ram s a 2 -> is_Some (ram_write_s s a v).
Proof.
  intros HR. unfold ram_write_s, mem_write.
  pose proof (contains_in_ram s a 2 2 HR ltac:(lia) 0 ltac:(lia)) as C.
  rewrite Z.add_0_r in C. rewrite C. eauto.
Qed.
Lemma emulate_store_ok s ir a :
  is_u32 a -> (0 < store_size (opcode ir))%nat -> in_ram s a (store_size (opcode ir)) ->
  exists s', direct_store s ir a = Some s' /\ emulate_misaligned_store s ir a = Some (s', true).
Proof.
  intros Ha Hn HR. unfold direct_store, emulate_misaligned_store.
  destruct (opcode ir); cbn [store_size] in *; try lia;
    rewrite ?(word_store_spec s a _ HR Ha), ?(half_store_spec s a _ HR);
    first [destruct (ram_write_w_some s a (reg s (rs2 ir)) HR) as [s' ->]
          |destruct (ram_write_s_some s a (reg s (rs2 ir)) HR) as [s' ->]]; cbn; eauto.
Qed.

(** * Misaligned accesses through the interpreter *)

Section Transparent.
Context (syscall_handler : riscv -> option riscv) (gettimeofday : riscv -> Z * Z).
Context `{softfloat}.
#[local] Instance embedder : riscv_io := user_io syscall_handler gettimeofday.

Definition mem_addr (s : riscv) (ir : rv_insn) : Z :=
  match opcode ir with
  | rv_insn_clwsp | rv_insn_cswsp => reg s rv_reg_sp +u imm ir
  | _ => reg s (rs1 ir) +u imm ir
  end.

(** The machine runs in M-mode without a trap vector, and the instruction being executed
    is the one in RAM at [pc]. *)
Record bare (s : riscv) (ir : rv_insn) (pc : Z) : Prop := {
  bare_bytes : wf_bytes s;
  bare_priv : priv_mode s = RV_PRIV_M_MODE;
  bare_mtvec : csr s csr_mtvec = 0;
  bare_strict : allow_misalign s = false;
  bare_fetch : exists insn ir0, ram_read_w s pc = Some insn /\ insn <> 0 /\
    rv_decode zero_insn insn = Some (ir0, true) /\ ir = set_pc pc ir0 }.

(** Entry of a machine-mode trap, before the vector is looked at. *)
Definition enter_M (s : riscv) : riscv :=
  let mie := (csr s csr_mstatus &u MSTATUS_MIE) >>u MSTATUS_MIE_SHIFT in
  let s := set_csr csr_mstatus (csr s csr_mstatus |u (mie <<u MSTATUS_MPIE_SHIFT)) s in
  let s := set_csr csr_mstatus (csr s csr_mstatus &u ~u MSTATUS_MIE) s in
  let s := set_csr csr_mstatus (csr s csr_mstatus |u u32 (priv_mode s <<u MSTATUS_MPP_SHIFT)) s in
  set_csr csr_mepc (PC s) (set_priv_mode RV_PRIV_M_MODE s).

Lemma set_cause_M cause tval s :
  priv_mode s = RV_PRIV_M_MODE ->
  set_cause_and_tval cause tval s = set_csr csr_mtval tval (set_csr csr_mcause cause s).
Proof. intros E. unfold set_cause_and_tval, RV_PRIV_IS_U_OR_S_MODE. by rewrite E. Qed.

Lemma trap_handler_bare s :
  priv_mode s = RV_PRIV_M_MODE -> csr s csr_mtvec = 0 ->
  trap_handler s
  = rv_trap_default_handler (enter_M s).
Proof.
  intros HP HT. unfold trap_handler, _trap_handler, RV_PRIV_IS_U_OR_S_MODE. rewrite HP.
  change (RV_PRIV_M_MODE <=? RV_PRIV_S_MODE) with false. cbv iota zeta.
  autorewrite with csr. rewrite HT. change (0 =? 0) with true. cbv iota.
  unfold enter_M. autorewrite with csr. by rewrite HP.
Qed.

(** The state in which the default handler starts after a misaligned access. *)
Definition trapped (cause addr : Z) (compress : bool) (cycle pc : Z) (s : riscv) : riscv :=
  enter_M (set_cause_and_tval cause addr
    (set_PC pc (set_csr_cycle cycle (set_compressed compress s)))).

Section Trapped.
Context (s : riscv) (ir : rv_insn) (pc cause addr cycle : Z) (compress : bool).
Hypothesis Hb : bare s ir pc.
Abbreviation s2 := (trapped cause addr compress cycle pc s).

Lemma trapped_csrs :
  csr s2 csr_mcause = cause /\ csr s2 csr_mtval = addr /\ csr s2 csr_mepc = pc.
Proof.
  unfold trapped, enter_M. rewrite set_cause_M by apply Hb. by autorewrite with csr.
Qed.
Lemma trapped_frame :
  X s2 = X s /\ F s2 = F s /\ mem s2 = mem s /\ compressed s2 = compress /\ csr_cycle s2 = cycle.
Proof. unfold trapped. by rewrite set_cause_M by apply Hb. Qed.

Lemma misaligned_traps mask k :
  truth (addr &u mask) = true ->
  RV_EXC_MISALIGN_HANDLER mask cause compress s cycle pc addr k
  = match rv_trap_default_handler s2 with Some s' => Return false s' | None => Undef end.
Proof.
  intros Hm. unfold RV_EXC_MISALIGN_HANDLER. rewrite (bare_strict _ _ _ Hb), Hm. cbn [negb andb].
  unfold SET_CAUSE_AND_TVAL_THEN_TRAP. cbn [on_trap embedder user_io].
  rewrite trap_handler_bare; [done|..]; rewrite set_cause_M by apply Hb.
  - apply Hb.
  - autorewrite with csr. apply Hb.
Qed.

(** The default handler emulates the instruction at [pc] and steps over it. *)
Lemma default_handler_emulates s' :
  (if cause =? LOAD_MISALIGNED then emulate_misaligned_load s2 ir addr
   else emulate_misaligned_store s2 ir addr) = Some (s', true) ->
  cause = LOAD_MISALIGNED \/ cause = STORE_MISALIGNED ->
  rv_trap_default_handler s2 = Some (advance_mepc s').
Proof.
  intros E Hc. destruct (bare_fetch _ _ _ Hb) as (insn & ir0 & Ef & Hn & Ed & Eir).
  assert ((if cause =? LOAD_MISALIGNED then emulate_misaligned_load s2 ir0 addr
           else emulate_misaligned_store s2 ir0 addr) = Some (s', true)) as E'
    by (rewrite Eir in E; exact E).
  destruct trapped_csrs as (C1 & C2 & C3). unfold rv_trap_default_handler.
  rewrite C1, C2, C3. replace ((cause =? LOAD_MISALIGNED) || (cause =? STORE_MISALIGNED))
    with true by (by destruct Hc as [-> | ->]).
  unfold ram_read_w in *. rewrite (proj1 (proj2 (proj2 trapped_frame))), Ef.
  cbn [mbind option_bind]. destruct (Z.eqb_spec insn 0); [done|]. rewrite Ed.
  cbn [mbind option_bind negb]. by rewrite E'.
Qed.
End Trapped.

Lemma advance_frame s :
  X (advance_mepc s) = X s /\ F (advance_mepc s) = F s /\ mem (advance_mepc s) = mem s /\
  PC (advance_mepc s) = csr s csr_mepc +u (if compressed s then 2 else 4).
Proof. unfold advance_mepc. repeat split. Qed.

Definition is_compressed_op (o : opcode_t) : bool :=
  match o with rv_insn_clw | rv_insn_clwsp | rv_insn_csw | rv_insn_cswsp => true | _ => false end.

(** A misaligned load of the interpreter is the guard followed by a trap. *)
Lemma load_body s ir cycle pc :
  (0 < load_size (opcode ir))%nat -> bare s ir pc ->
  truth (mem_addr s ir &u (Z.of_nat (load_size (opcode ir)) - 1)) = true ->
  insn_body (opcode ir) s ir cycle pc
  = match rv_trap_default_handler
        (trapped LOAD_MISALIGNED (mem_addr s ir) (is_compressed_op (opcode ir)) cycle pc s)
    with Some s' => Return false s' | None => Undef end.
Proof.
  intros Hl Hb Hm. unfold mem_addr in *.
  destruct (opcode ir); cbn [load_size] in *; try lia; cbn [insn_body is_compressed_op];
    unfold do_lh, do_lw, do_lhu, do_clw, do_clwsp, lw_at; cbv zeta; rewrite ?u32_add_r;
    by apply (misaligned_traps s ir).
Qed.

Lemma load_len o : (0 < load_size o)%nat -> insn_len o = if is_compressed_op o then 2 else 4.
Proof. by destruct o; cbn; try lia. Qed.

(** A store only looks at the registers and memory, and only changes memory. *)
Lemma direct_store_frame s2 s ir a t :
  X s2 = X s -> mem s2 = mem s -> direct_store s2 ir a = Some t ->
  exists t0, direct_store s ir a = Some t0 /\ mem t = mem t0 /\ X t = X s /\ F t = F s2 /\
    csr t = csr s2 /\ compressed t = compressed s2.
Proof.
  intros EX EM. unfold direct_store, ram_write_w, ram_write_s, reg. rewrite EX, EM.
  destruct (opcode ir); try done; (destruct (mem_write _ _ _ _) as [m|]; [|done]);
    intros [= <-]; eexists; (split; [reflexivity|]); done.
Qed.

(** A misaligned store of the interpreter. *)
Lemma store_body s ir cycle pc :
  (0 < store_size (opcode ir))%nat -> bare s ir pc ->
  truth (mem_addr s ir &u (Z.of_nat (store_size (opcode ir)) - 1)) = true ->
  insn_body (opcode ir) s ir cycle pc
  = match rv_trap_default_handler
        (trapped STORE_MISALIGNED (mem_addr s ir) (is_compressed_op (opcode ir)) cycle pc s)
    with Some s' => Return false s' | None => Undef end.
Proof.
  intros Hl Hb Hm. unfold mem_addr in *.
  destruct (opcode ir); cbn [store_size] in *; try lia; cbn [insn_body is_compressed_op];
    unfold do_sh, do_sw, do_csw, do_cswsp, sw_at; cbv zeta; rewrite ?u32_add_r;
    by apply (misaligned_traps s ir).
Qed.
Lemma store_len o : (0 < store_size o)%nat -> insn_len o = if is_compressed_op o then 2 else 4.
Proof. by destruct o; cbn; try lia. Qed.
Lemma mem_addr_u32 s ir : is_u32 (mem_addr s ir).
Proof. unfold mem_addr. case_match; auto with words. Qed.

(** The registers and memory after the emulation of a load in state [s2]. *)
Lemma load_finish s s2 ir a p (c : bool) :
  X s2 = X s -> F s2 = F s -> mem s2 = mem s -> compressed s2 = c -> csr s2 csr_mepc = p ->
  wf_bytes s -> is_u32 a -> (0 < load_size (opcode ir))%nat ->
  in_ram s a (load_size (opcode ir)) ->
  exists s' v, emulate_misaligned_load s2 ir a = Some (s', true) /\
    direct_load s ir a = Some v /\
    X (advance_mepc s') = X (set_reg (rd ir) v s) /\ F (advance_mepc s') = F s /\
    mem (advance_mepc s') = mem s /\ PC (advance_mepc s') = p +u (if c then 2 else 4).
Proof.
  intros F1 F2 F3 F4 C3 Hw Ha Hl HR.
  destruct (emulate_load_ok s2 ir a) as (v & Ev & Ee);
    [unfold wf_bytes; by rewrite F3|done|done|unfold in_ram; by rewrite F3|].
  exists (set_reg (rd ir) v s2), v. split; [exact Ee|].
  destruct (advance_frame (set_reg (rd ir) v s2)) as (-> & -> & -> & ->).
  split; [unfold direct_load, ram_read_w, ram_read_s in *; by rewrite F3 in Ev|].
  cbn [X F mem csr compressed set_reg set_X]. by rewrite F1, F2, F3, F4, C3.
Qed.

Lemma store_finish s s2 ir a p (c : bool) :
  X s2 = X s -> F s2 = F s -> mem s2 = mem s -> compressed s2 = c -> csr s2 csr_mepc = p ->
  is_u32 a -> (0 < store_size (opcode ir))%nat -> in_ram s a (store_size (opcode ir)) ->
  exists s' t, emulate_misaligned_store s2 ir a = Some (s', true) /\
    direct_store s ir a = Some t /\
    mem (advance_mepc s') = mem t /\ X (advance_mepc s') = X s /\
    F (advance_mepc s') = F s /\ PC (advance_mepc s') = p +u (if c then 2 else 4).
Proof.
  intros F1 F2 F3 F4 C3 Ha Hl HR.
  destruct (emulate_store_ok s2 ir a) as (t & Et & Ee);
    [done|done|unfold in_ram; by rewrite F3|].
  destruct (direct_store_frame s2 s ir _ _ F1 F3 Et) as (t0 & E0 & G1 & G2 & G3 & G4 & G5).
  exists t, t0. split; [exact Ee|]. split; [exact E0|].
  destruct (advance_frame t) as (-> & -> & -> & ->). by rewrite G1, G2, G3, G4, G5, F2, F4, C3.
Qed.


(** Misaligned stores are transparent: after the trap, memory is what an unrestricted
    store would have made of it, no register has changed, and execution resumes at the
    next instruction. *)
Theorem misaligned_store_transparent s ir cycle pc n :
  bare s ir pc -> (0 < store_size (opcode ir))%nat ->
  truth (mem_addr s ir &u (Z.of_nat (store_size (opcode ir)) - 1)) = true ->
  in_ram s (mem_addr s ir) (store_size (opcode ir)) ->
  exists s' t,
    do_insn n s ir cycle pc = Ret false s' /\
    direct_store s ir (mem_addr s ir) = Some t /\
    mem s' = mem t /\ X s' = X s /\ F s' = F s /\ PC s' = pc +u insn_len (opcode ir).
Proof.
  intros Hb Hl Hm HR. unfold do_insn, RVOP. rewrite (store_body s ir _ pc Hl Hb Hm).
  destruct (trapped_frame s ir pc STORE_MISALIGNED (mem_addr s ir) (u64 (cycle + 1))
    (is_compressed_op (opcode ir)) Hb) as (F1 & F2 & F3 & F4 & _).
  destruct (trapped_csrs s ir pc STORE_MISALIGNED (mem_addr s ir) (u64 (cycle + 1))
    (is_compressed_op (opcode ir)) Hb) as (_ & _ & C3).
  destruct (store_finish s _ ir (mem_addr s ir) pc _ F1 F2 F3 F4 C3
    (mem_addr_u32 s ir) Hl HR) as (s' & t & Ee & Ed & Rest).
  rewrite (default_handler_emulates s ir pc STORE_MISALIGNED _ _ _ Hb s' Ee) by (by right).
  eexists _, t. split; [reflexivity|]. split; [exact Ed|].
  rewrite (store_len _ Hl). exact Rest.
Qed.
End Transparent.

(** ** A machine for the two theorems: [lw x5,1(x0)] and [sw x6,2(x0)] at 0x100, data at 0 *)

Definition misaligned_ram : gmap Z Z :=
  <[0x100 := 0x83]> (<[0x101 := 0x22]> (<[0x102 := 0x10]> (
  <[0x104 := 0x23]> (<[0x105 := 0x21]> (<[0x106 := 0x60]> (
  <[1 := 0x11]> (<[2 := 0x22]> (<[3 := 0x33]> (<[4 := 0x44]> ∅))))))))).
Definition misaligned_state : riscv := reset_state misaligned_ram 4096.
Definition lw_x5 : rv_insn := mk_insn 1 5 0 0 rv_insn_lw 0 0 0 [] 0x100 None None.
Definition sw_x6 : rv_insn := mk_insn 2 0 0 6 rv_insn_sw 0 0 0 [] 0x104 None None.
Definition no_syscall (s : riscv) : option riscv := Some s.
Definition epoch (s : riscv) : Z * Z := (0, 0).

Lemma misaligned_state_bytes : wf_bytes misaligned_state.
Proof.
  intros a. unfold misaligned_state, misaligned_ram, reset_state. cbn [mem].
  rewrite !byte_at_insert. repeat (destruct (decide _); [unfold is_u8; lia|]).
  unfold byte_at. cbn [mem_base]. rewrite lookup_empty. unfold is_u8. cbn. lia.
Qed.


Lemma misaligned_store_transparent_witness :
  exists s' t,
    @do_insn (user_io no_syscall epoch) zero_softfloat false misaligned_state sw_x6 0 0x104
    = Ret false s' /\
    direct_store misaligned_state sw_x6 (mem_addr misaligned_state sw_x6) = Some t /\
    mem s' = mem t /\ X s' = X misaligned_state /\ F s' = F misaligned_state /\
    PC s' = 0x104 +u insn_len rv_insn_sw.
Proof.
  apply (@misaligned_store_transparent no_syscall epoch zero_softfloat misaligned_state sw_x6
    0 0x104 false).
  - split; [apply misaligned_state_bytes|reflexivity..|]. exists 0x00602123, (set_pc 0 sw_x6).
    split; [vm_compute; reflexivity|]. split; [discriminate|]. split; reflexivity.
  - cbn. lia.
  - reflexivity.
  - unfold in_ram. vm_compute. intuition discriminate.
Defined.

(** * Trap entry and [mret] *)

Definition mie (m : Z) : bool := Z.testbit m MSTATUS_MIE_SHIFT.
Definition mpie (m : Z) : bool := Z.testbit m MSTATUS_MPIE_SHIFT.
Definition mpp (m : Z) : Z := (m &u MSTATUS_MPP) >>u MSTATUS_MPP_SHIFT.

(** [mstatus] after machine-mode trap entry, and what [mret] makes of it. *)
Definition mstatus_enter (m : Z) : Z :=
  ((m |u (((m &u MSTATUS_MIE) >>u MSTATUS_MIE_SHIFT) <<u MSTATUS_MPIE_SHIFT)) &u ~u MSTATUS_MIE)
  |u u32 (RV_PRIV_M_MODE <<u MSTATUS_MPP_SHIFT).
Definition mstatus_return (m : Z) : Z :=
  let m1 := m &u ~u MSTATUS_MPP in
  (m1 |u u32 (((m1 &u MSTATUS_MPIE) >>u MSTATUS_MPIE_SHIFT) <<u MSTATUS_MIE_SHIFT))
  |u MSTATUS_MPIE.

Ltac status_bit m :=
  repeat match goal with
  | |- context [Z.testbit (Z.land ?a ?b) ?i] => rewrite (Z.land_spec a b i)
  | |- context [Z.testbit (Z.lor ?a ?b) ?i] => rewrite (Z.lor_spec a b i)
  | |- context [Z.testbit (Z.lnot ?a) ?i] => rewrite (Z.lnot_spec a i) by lia
  | |- context [Z.testbit (u32 ?a) ?i] => rewrite (testbit_u32 a i) by lia
  | |- context [Z.testbit (Z.shiftl ?a ?k) ?i] => rewrite (Z.shiftl_spec a k i) by lia
  | |- context [Z.testbit (Z.shiftr ?a ?k) ?i] =>
    first [rewrite (Z.shiftr_spec a k i) by lia
          |rewrite (Z.testbit_neg_r (Z.shiftr a k) i) by lia]
  end;
  generalize (Z.testbit m); intros f; cbv;
  repeat match goal with |- context [f ?x] => destruct (f x) end; reflexivity.

Lemma mpp_enter m : mpp (mstatus_enter m) = RV_PRIV_M_MODE.
Proof.
  assert (0 <= mpp (mstatus_enter m) < 4) as R by (by apply field_range).
  assert (Z.testbit (mpp (mstatus_enter m)) 0 = true) as B0.
  { unfold mpp, mstatus_enter, MSTATUS_MPP_SHIFT, MSTATUS_MPIE_SHIFT. status_bit m. }
  assert (Z.testbit (mpp (mstatus_enter m)) 1 = true) as B1.
  { unfold mpp, mstatus_enter, MSTATUS_MPP_SHIFT, MSTATUS_MPIE_SHIFT. status_bit m. }
  set (v := mpp _) in *. assert (v = 0 \/ v = 1 \/ v = 2 \/ v = 3) as D by lia.
  destruct D as [->|[->|[->| ->]]]; done.
Qed.
Lemma mie_return m : mie (mstatus_return m) = mie m || mpie m.
Proof.
  unfold mie, mpie, mstatus_return, MSTATUS_MIE_SHIFT, MSTATUS_MPIE_SHIFT, MSTATUS_MPP_SHIFT.
  cbv zeta. status_bit m.
Qed.
Lemma mpie_return m : mpie (mstatus_return m) = true.
Proof.
  unfold mpie, mstatus_return, MSTATUS_MIE_SHIFT, MSTATUS_MPIE_SHIFT. cbv zeta. status_bit m.
Qed.
Lemma mpp_return m : mpp (mstatus_return m) = 0.
Proof.
  assert (0 <= mpp (mstatus_return m) < 4) as R by (by apply field_range).
  assert (Z.testbit (mpp (mstatus_return m)) 0 = false) as B0.
  { unfold mpp, mstatus_return, MSTATUS_MPP_SHIFT, MSTATUS_MPIE_SHIFT, MSTATUS_MIE_SHIFT.
    cbv zeta. status_bit m. }
  assert (Z.testbit (mpp (mstatus_return m)) 1 = false) as B1.
  { unfold mpp, mstatus_return, MSTATUS_MPP_SHIFT, MSTATUS_MPIE_SHIFT, MSTATUS_MIE_SHIFT.
    cbv zeta. status_bit m. }
  set (v := mpp _) in *. assert (v = 0 \/ v = 1 \/ v = 2 \/ v = 3) as D by lia.
  destruct D as [->|[->|[->| ->]]]; done.
Qed.
Lemma mie_enter m : mie (mstatus_enter m) = false.
Proof. unfold mie, mstatus_enter, MSTATUS_MIE_SHIFT, MSTATUS_MPIE_SHIFT, MSTATUS_MPP_SHIFT. status_bit m. Qed.
Lemma mpie_enter m : mpie (mstatus_enter m) = mie m || mpie m.
Proof.
  unfold mie, mpie, mstatus_enter, MSTATUS_MIE_SHIFT, MSTATUS_MPIE_SHIFT, MSTATUS_MPP_SHIFT.
  status_bit m.
Qed.

Lemma trap_handler_vectored s :
  priv_mode s = RV_PRIV_M_MODE -> csr s csr_mtvec <> 0 ->
  trap_handler s
  = Some (trap_vector (csr s csr_mtvec &u ~u 3) (csr s csr_mtvec &u 3) (csr s csr_mcause)
            (enter_M s)).
Proof.
  intros HP HT. unfold trap_handler, _trap_handler, RV_PRIV_IS_U_OR_S_MODE. rewrite HP.
  change (RV_PRIV_M_MODE <=? RV_PRIV_S_MODE) with false. cbv iota zeta.
  autorewrite with csr. destruct (Z.eqb_spec (csr s csr_mtvec) 0); [done|].
  unfold enter_M. autorewrite with csr. by rewrite HP.
Qed.
Lemma csr_trap_vector base mode cause s f : csr (trap_vector base mode cause s) f = csr s f.
Proof. unfold trap_vector. repeat case_match; done. Qed.
Lemma frame_trap_vector base mode cause s :
  X (trap_vector base mode cause s) = X s /\ mem (trap_vector base mode cause s) = mem s.
Proof. unfold trap_vector. repeat case_match; done. Qed.
Lemma PC_trap_vector base mode cause s :
  PC (trap_vector base mode cause s)
  = match mode with 0 => base | 1 => base +u 4 * (cause &u 0x7fffffff) | _ => PC s end.
Proof. unfold trap_vector. repeat case_match; done. Qed.
Lemma async_code code : 0 <= code < 2 ^ 31 -> (2 ^ 31 + code) &u 0x7fffffff = code.
Proof.
  intros Hc. change 0x7fffffff with (Z.ones 31). rewrite Z.land_ones by lia.
  rewrite <- (Z.mul_1_l (2 ^ 31)) at 1. rewrite Z.add_comm, Z_mod_plus_full. by apply Z.mod_small.
Qed.
Lemma enter_M_csrs s :
  priv_mode s = RV_PRIV_M_MODE ->
  csr (enter_M s) csr_mstatus = mstatus_enter (csr s csr_mstatus) /\
  csr (enter_M s) csr_mepc = PC s /\ X (enter_M s) = X s /\ mem (enter_M s) = mem s.
Proof.
  intros HP. unfold enter_M. autorewrite with csr. rewrite HP. done.
Qed.

(** C21: trap entry in machine mode with a trap vector.  The exception program counter is
    the interrupted [PC], interrupts are disabled, the previous mode is recorded, and
    control goes to the vector: the base address in direct mode, and in vectored mode
    [base + 4 * code] for an asynchronous trap, whose cause has bit 31 set and [code] below
    it.  Registers and memory are untouched. *)
Theorem trap_entry_spec s cause tval :
  priv_mode s = RV_PRIV_M_MODE -> csr s csr_mtvec <> 0 ->
  exists s', trap_handler (set_cause_and_tval cause tval s) = Some s' /\
    csr s' csr_mepc = PC s /\ csr s' csr_mcause = cause /\ csr s' csr_mtval = tval /\
    mie (csr s' csr_mstatus) = false /\
    mpie (csr s' csr_mstatus) = mie (csr s csr_mstatus) || mpie (csr s csr_mstatus) /\
    mpp (csr s' csr_mstatus) = priv_mode s /\
    (csr s csr_mtvec &u 3 = 0 -> PC s' = csr s csr_mtvec &u ~u 3) /\
    (csr s csr_mtvec &u 3 = 1 -> forall code, 0 <= code < 2 ^ 31 -> cause = 2 ^ 31 + code ->
       PC s' = (csr s csr_mtvec &u ~u 3) +u 4 * code) /\
    X s' = X s /\ mem s' = mem s.
Proof.
  intros HP HT. rewrite set_cause_M by done.
  set (s1 := set_csr csr_mtval tval _).
  assert (csr s1 csr_mtvec = csr s csr_mtvec) as ET by (unfold s1; by autorewrite with csr).
  assert (csr s1 csr_mcause = cause) as EC by (unfold s1; by autorewrite with csr).
  assert (csr s1 csr_mstatus = csr s csr_mstatus) as EM by (unfold s1; by autorewrite with csr).
  eexists. split; [apply trap_handler_vectored; [done|by rewrite ET]|].
  destruct (enter_M_csrs s1 HP) as (E1 & E2 & E3 & E4).
  destruct (frame_trap_vector (csr s1 csr_mtvec &u ~u 3) (csr s1 csr_mtvec &u 3)
    (csr s1 csr_mcause) (enter_M s1)) as [-> ->].
  rewrite !csr_trap_vector, PC_trap_vector, E1, E2, E3, E4, EM, ET, EC, HP.
  split; [done|]. split; [unfold enter_M; by autorewrite with csr|].
  split; [unfold enter_M, s1; by autorewrite with csr|].
  rewrite mie_enter, mpie_enter, mpp_enter. repeat split; try by intros ->.
  intros -> code Hc ->. by rewrite async_code.
Qed.

(** What [mret] does to any machine: it resumes at [mepc] in the mode [MPP] records,
    enables interrupts if [MPIE] is set, sets [MPIE] and clears [MPP]. *)
Lemma do_mret_spec s ir cycle pc :
  exists s', do_mret s ir cycle pc = Return true s' /\
    PC s' = csr s csr_mepc /\ priv_mode s' = mpp (csr s csr_mstatus) /\
    X s' = X s /\ mem s' = mem s /\
    mie (csr s' csr_mstatus) = mie (csr s csr_mstatus) || mpie (csr s csr_mstatus) /\
    mpie (csr s' csr_mstatus) = true /\ mpp (csr s' csr_mstatus) = 0.
Proof.
  eexists. split; [reflexivity|]. cbn [PC X mem priv_mode set_PC set_priv_mode].
  autorewrite with csr.
  split_and!; [done..|apply mie_return|apply mpie_return|apply mpp_return].
Qed.

(** C22: returning from a trap that machine mode takes with a trap vector.  When the
    handler executes [mret] straight away, execution resumes at the interrupted instruction
    in the interrupted mode, with registers and memory as they were, and interrupts are
    enabled exactly if they were enabled before or [MPIE] was already set.  When the handler
    has written another value [mst] to [mstatus] before, execution resumes there in the mode
    the [MPP] field of [mst] names, with interrupts enabled if [mst] has [MIE] or [MPIE];
    [MPIE] is set and [MPP] is user mode afterwards. *)
Theorem trap_mret_roundtrip s cause tval s1 ir cycle pc :
  priv_mode s = RV_PRIV_M_MODE -> csr s csr_mtvec <> 0 ->
  trap_handler (set_cause_and_tval cause tval s) = Some s1 ->
  (exists s2, do_mret s1 ir cycle pc = Return true s2 /\
    PC s2 = PC s /\ priv_mode s2 = priv_mode s /\ X s2 = X s /\ mem s2 = mem s /\
    mie (csr s2 csr_mstatus) = mie (csr s csr_mstatus) || mpie (csr s csr_mstatus)) /\
  (forall mst, exists s2, do_mret (set_csr csr_mstatus mst s1) ir cycle pc = Return true s2 /\
    PC s2 = PC s /\ priv_mode s2 = mpp mst /\ X s2 = X s /\ mem s2 = mem s /\
    mie (csr s2 csr_mstatus) = mie mst || mpie mst /\
    mpie (csr s2 csr_mstatus) = true /\ mpp (csr s2 csr_mstatus) = 0).
Proof.
  intros HP HT. rewrite set_cause_M by done. set (s0 := set_csr csr_mtval tval _).
  assert (csr s0 csr_mtvec = csr s csr_mtvec) as ET by (unfold s0; by autorewrite with csr).
  assert (csr s0 csr_mstatus = csr s csr_mstatus) as EM by (unfold s0; by autorewrite with csr).
  rewrite trap_handler_vectored by (done || by rewrite ET). intros [= <-].
  destruct (enter_M_csrs s0 HP) as (E1 & E2 & E3 & E4).
  set (s1 := trap_vector _ _ _ (enter_M s0)).
  assert (csr s1 csr_mstatus = mstatus_enter (csr s csr_mstatus) /\ csr s1 csr_mepc = PC s /\
    X s1 = X s /\ mem s1 = mem s) as (F1 & F2 & F3 & F4).
  { unfold s1. rewrite !csr_trap_vector, E1, E2, EM.
    destruct (frame_trap_vector (csr s0 csr_mtvec &u ~u 3) (csr s0 csr_mtvec &u 3)
      (csr s0 csr_mcause) (enter_M s0)) as [FX FM]. split_and!; [done..|by etransitivity|by etransitivity]. }
  split; [|intros mst].
  - destruct (do_mret_spec s1 ir cycle pc) as (s2 & E & G1 & G2 & G3 & G4 & G5 & _).
    exists s2. rewrite G1, G2, G3, G4, G5, F1, mpp_enter, mie_enter, mpie_enter. done.
  - destruct (do_mret_spec (set_csr csr_mstatus mst s1) ir cycle pc)
      as (s2 & E & G1 & G2 & G3 & G4 & G5 & G6 & G7).
    exists s2. rewrite G1, G2, G3, G4, G5, G6, G7. autorewrite with csr. done.
Qed.

(** A machine with a vectored trap table at 0x200, interrupts disabled. *)
Definition vectored_state : riscv := set_csr csr_mtvec 0x201 (reset_state ∅ 4096).

(** The machine timer interrupt, an asynchronous trap of code 7. *)
Definition timer_interrupt : Z := 2 ^ 31 + 7.

Lemma trap_entry_spec_witness :
  exists s', trap_handler (set_cause_and_tval timer_interrupt 0x44 vectored_state) = Some s' /\
    csr s' csr_mepc = 0 /\ csr s' csr_mcause = timer_interrupt /\ csr s' csr_mtval = 0x44 /\
    PC s' = 0x21c.
Proof.
  destruct (trap_entry_spec vectored_state timer_interrupt 0x44) as
    (s' & E & E1 & E2 & E3 & _ & _ & _ & _ & E4 & _); [reflexivity|discriminate|].
  exists s'. split; [exact E|]. split; [exact E1|]. split; [exact E2|]. split; [exact E3|].
  exact (E4 eq_refl 7 ltac:(lia) eq_refl).
Defined.

(** A synchronous trap goes to [base + 4 * code] too in vectored mode, where the comment of
    the vector table sends asynchronous traps only: a breakpoint, code 3, of a machine with
    its table at 0x200 continues at 0x20c. *)
Lemma exception_is_vectored :
  PC <$> trap_handler (set_cause_and_tval BREAKPOINT 0x44 vectored_state) = Some 0x20c.
Proof. reflexivity. Qed.

Lemma trap_mret_roundtrip_witness :
  exists s1 s2, trap_handler (set_cause_and_tval BREAKPOINT 0 vectored_state) = Some s1 /\
    do_mret s1 zero_insn 0 0 = Return true s2 /\ PC s2 = 0 /\ X s2 = X vectored_state.
Proof.
  destruct (trap_handler (set_cause_and_tval BREAKPOINT 0 vectored_state)) as [s1|] eqn:ET;
    [|discriminate ET].
  destruct (trap_mret_roundtrip vectored_state BREAKPOINT 0
    s1 zero_insn 0 0) as ((s2 & E & E1 & _ & E2 & _) & _); [reflexivity|discriminate|exact ET|].
  exists s1, s2. split; [reflexivity|]. split; [exact E|]. split; [exact E1|exact E2].
Defined.

(** * [memset] and [memcpy] *)

Lemma fill_bytes_size m d v n : mem_size (fill_bytes m d v n) = mem_size m.
Proof. revert m d. induction n as [|n IH]; intros m d; [done|]. cbn. by rewrite IH. Qed.
Lemma fill_bytes_spec m d v n a :
  byte_at (fill_bytes m d v n) a
  = if decide (d <= a < d + Z.of_nat n) then u8 v else byte_at m a.
Proof.
  revert m d. induction n as [|n IH]; intros m d; cbn [fill_bytes].
  { rewrite decide_False by lia. done. }
  rewrite IH, byte_at_insert. destruct m.
  repeat destruct (decide _); try done; lia.
Qed.

Lemma copy_bytes_spec m d s n a :
  (d + Z.of_nat n <= s \/ s + Z.of_nat n <= d) ->
  byte_at (copy_bytes m d s n) a
  = if decide (d <= a < d + Z.of_nat n) then byte_at m (s + (a - d)) else byte_at m a.
Proof.
  revert m d s. induction n as [|n IH]; intros m d s Hd; cbn [copy_bytes].
  { rewrite decide_False by lia. done. }
  rewrite IH by lia. rewrite !byte_at_insert. destruct m as [b z]. cbn [mem_base mem_size].
  repeat destruct (decide _); try lia; try done.
  - f_equal. lia.
  - f_equal. lia.
Qed.

(** The [n] bytes from [a] on lie in RAM. *)
Definition region_in_ram (m : memory_t) (a n : Z) : Prop := a < mem_size m /\ a + n <= mem_size m.

(** [m'] is [m] except for the [n] bytes from [a] on, whose new values [f] gives by offset. *)
Definition overwritten (m m' : memory_t) (a n : Z) (f : Z -> Z) : Prop :=
  forall b, byte_at m' b = if decide (a <= b < a + n) then f (b - a) else byte_at m b.

Lemma out_of_ram_spec m a n :
  BoolSpec (~ region_in_ram m a n) (region_in_ram m a n) (out_of_ram m a n).
Proof.
  unfold out_of_ram, region_in_ram.
  destruct (Z.leb_spec (mem_size m) a), (Z.ltb_spec (mem_size m - a) n); cbn; constructor; lia.
Qed.

(** The accelerated [memset].  If the region lies in RAM, exactly its bytes are set to
    the low byte of the value, every other byte is unchanged, and control returns to the
    caller; otherwise the handler raises a store trap with the destination as trap value. *)
Theorem memset_handler_spec s :
  let dest := reg s rv_reg_a0 in
  let count := reg s rv_reg_a2 in
  wf s ->
  (region_in_ram (mem s) dest count ->
   exists s', memset_handler s = Some s' /\ PC s' = reg s rv_reg_ra &u ~u 1 /\ X s' = X s /\
     overwritten (mem s) (mem s') dest count (fun _ => u8 (reg s rv_reg_a1))) /\
  (~ region_in_ram (mem s) dest count ->
   memset_handler s = trap_handler (set_cause_and_tval STORE_MISALIGNED dest s)).
Proof.
  intros dest count Hs. unfold memset_handler. fold dest count.
  destruct (out_of_ram_spec (mem s) dest count) as [Ho|Hi]; [by split|].
  split; [intros _|done]. eexists. split; [reflexivity|]. split; [done|].
  split; [done|]. intros a. cbn [mem set_PC set_mem].
  rewrite fill_bytes_spec, Z2Nat.id; [done|].
  pose proof (reg_u32 s rv_reg_a2 Hs) as R. unfold is_u32 in R. exact (proj1 R).
Qed.
Lemma memset_handler_spec_witness :
  exists s', memset_handler (set_reg rv_reg_a2 16 (reset_state ∅ 4096)) = Some s'.
Proof.
  destruct (memset_handler_spec (set_reg rv_reg_a2 16 (reset_state ∅ 4096))) as [H _].
  - apply wf_set_reg; [apply reset_state_wf|unfold is_u32; lia].
  - destruct H as (s' & E & _); [split; vm_compute; congruence|eauto].
Defined.

(** The accelerated [memcpy].  For disjoint regions inside RAM the destination gets a
    copy of the source, every other byte is unchanged, and control returns to the caller.
    A destination outside RAM raises a store trap that names it; otherwise a source outside
    RAM raises a load trap that names it. *)
Theorem memcpy_handler_spec s :
  let dest := reg s rv_reg_a0 in
  let src := reg s rv_reg_a1 in
  let count := reg s rv_reg_a2 in
  wf s -> dest + count <= src \/ src + count <= dest ->
  (region_in_ram (mem s) dest count -> region_in_ram (mem s) src count ->
   exists s', memcpy_handler s = Some s' /\ PC s' = reg s rv_reg_ra &u ~u 1 /\ X s' = X s /\
     overwritten (mem s) (mem s') dest count (fun i => byte_at (mem s) (src + i))) /\
  (~ region_in_ram (mem s) dest count ->
   memcpy_handler s = trap_handler (set_cause_and_tval STORE_MISALIGNED dest s)) /\
  (region_in_ram (mem s) dest count -> ~ region_in_ram (mem s) src count ->
   memcpy_handler s = trap_handler (set_cause_and_tval LOAD_MISALIGNED src s)).
Proof.
  intros dest src count Hs Hd. unfold memcpy_handler. fold dest src count.
  pose proof (reg_u32 s rv_reg_a2 Hs) as R. fold count in R. unfold is_u32 in R.
  destruct (out_of_ram_spec (mem s) dest count) as [Ho|Hi]; [by split_and!|].
  destruct (out_of_ram_spec (mem s) src count) as [So|Si]; [by split_and!|].
  split_and!; [intros _ _|done|done].
  replace ((dest <? src + count) && (src <? dest + count) && negb (count =? 0)) with false.
  2: { symmetry. destruct (Z.ltb_spec dest (src + count)), (Z.ltb_spec src (dest + count)),
         (Z.eqb_spec count 0); cbn; try done; lia. }
  eexists. split; [reflexivity|]. split; [done|]. split; [done|]. intros a.
  cbn [mem set_PC set_mem]. rewrite copy_bytes_spec; rewrite ?Z2Nat.id by lia; [done|lia].
Qed.
Lemma memcpy_handler_spec_witness :
  exists s', memcpy_handler
    (set_reg rv_reg_a1 64 (set_reg rv_reg_a2 16 (reset_state ∅ 4096))) = Some s'.
Proof.
  destruct (memcpy_handler_spec
    (set_reg rv_reg_a1 64 (set_reg rv_reg_a2 16 (reset_state ∅ 4096)))) as [H _].
  - repeat apply wf_set_reg; try apply reset_state_wf; unfold is_u32; lia.
  - left. vm_compute. discriminate.
  - destruct H as (s' & E & _); [split; vm_compute; congruence..|eauto].
Defined.
