(* ===== verification/Block.v ===== *)
(** The basic-block runtime of emulate.c and riscv.c: translation of a block, the block
    map (a hash table with linear probing) with its direct-mapped L1 cache, block
    chaining, the branch history table, and the two execution loops [rv_step] and
    [rv_step_debug].  The build is the interpreter without SYSTEM and JIT.

    Blocks live in a heap and are shared: the map, the L1 cache, [prev], the successor
    links and the branch history tables hold locations.  The pointer to a block's first
    IR is the location of the block. *)

From S2P Require Import Prelude.
From S2P Require Import Opcode.
From S2P Require Import Decode.
From S2P Require Import Machine.
From S2P Require Import Interp.
From S2P Require Import Constopt.
From S2P Require Import Fusion.

(** * Data *)

Definition HISTORY_SIZE : nat := 16.
Record branch_history_table := mk_bht { bt_PC : list Z; bt_target : list (option Z) }.

(** [block_t].  [ir_head .. ir_tail] is the list [irs]; [branch_table] is the one of the
    last IR, the only one that can have it. *)
Record block_t := mk_block {
  n_insn : Z; pc_start : Z; pc_end : Z; cycle_cost : Z; irs : list rv_insn;
  page_terminated : bool; branch_table : option branch_history_table }.

Record block_map_t := mk_map { block_capacity : Z; size : Z; map : list (option Z) }.
Record block_l1_cache := mk_l1 { tags : list Z; ptrs : list (option Z) }.

Definition BLOCK_MAP_CAPACITY_BITS := 10.
Definition BLOCK_L1_SIZE : nat := 256.
Definition BLOCK_L1_MASK := 255.
Definition BLOCK_L1_INDEX_SHIFT := 1.
Definition BLOCK_L1_INVALID_TAG := 0xFFFFFFFF.

(** * The block map *)

(** [HASH_FUNC_IMPL(map_hash, ..)] with the 32-bit key of this build. *)
Definition map_hash (val : Z) : Z :=
  (u32 (val * 0x61C88647) >>u (32 - BLOCK_MAP_CAPACITY_BITS))
  &u (2 ^ BLOCK_MAP_CAPACITY_BITS - 1).

Abbreviation heap_t := (gmap Z block_t).

Definition slot (m : block_map_t) (index : Z) : option (option Z) :=
  map m !! Z.to_nat (index &u (block_capacity m - 1)).

Definition block_map_init (bits : Z) : block_map_t :=
  mk_map (2 ^ bits) 0 (replicate (Z.to_nat (2 ^ bits)) None).

(** The probing loop of [block_find].  [None]: the loop does not end (no slot is free and
    none matches), or it reads a slot or a block that is not there. *)
Fixpoint find_from (fuel : nat) (h : heap_t) (m : block_map_t) (addr index : Z)
  : option (option Z) :=
  match fuel with
  | O => None
  | S fuel =>
    c ← slot m index;
    match c with
    | None => Some None
    | Some l =>
      b ← h !! l;
      if pc_start b =? addr then Some (Some l) else find_from fuel h m addr (index + 1)
    end
  end.
Definition block_find (h : heap_t) (m : block_map_t) (addr : Z) : option (option Z) :=
  find_from (Z.to_nat (block_capacity m)) h m addr (map_hash addr).

(** The probing loop of [block_insert]: the slot it stores to. *)
Fixpoint free_from (fuel : nat) (m : block_map_t) (index : Z) : option nat :=
  match fuel with
  | O => None
  | S fuel =>
    c ← slot m index;
    match c with
    | None => Some (Z.to_nat (index &u (block_capacity m - 1)))
    | Some _ => free_from fuel m (index + 1)
    end
  end.

Definition l1_index (pc : Z) : nat :=
  Z.to_nat ((pc >>u BLOCK_L1_INDEX_SHIFT) &u BLOCK_L1_MASK).

Definition block_l1_update (c : block_l1_cache) (pc : Z) (l : Z) : block_l1_cache :=
  mk_l1 (<[l1_index pc := pc]> (tags c)) (<[l1_index pc := Some l]> (ptrs c)).

Definition block_insert (m : block_map_t) (c : block_l1_cache) (pc : Z) (l : Z)
  : option (block_map_t * block_l1_cache) :=
  i ← free_from (Z.to_nat (block_capacity m)) m (map_hash pc);
  let m := mk_map (block_capacity m) (u32 (size m + 1)) (<[i := Some l]> (map m)) in
  Some (m, block_l1_update c pc l).

(** The L1 cache is looked up first and refilled from the map. *)
Definition block_lookup_or_find (h : heap_t) (m : block_map_t) (c : block_l1_cache) (pc : Z)
  : option (option Z * block_l1_cache) :=
  if nth (l1_index pc) (tags c) 0 =? pc then Some (nth (l1_index pc) (ptrs c) None, c)
  else
    b ← block_find h m pc;
    match b with
    | Some l => Some (Some l, block_l1_update c pc l)
    | None => Some (None, c)
    end.

Definition l1_reset : block_l1_cache :=
  mk_l1 (replicate BLOCK_L1_SIZE BLOCK_L1_INVALID_TAG) (replicate BLOCK_L1_SIZE None).

(** [block_map_clear] frees every block of the map. *)
Definition block_map_clear (h : heap_t) (m : block_map_t)
  : heap_t * block_map_t * block_l1_cache :=
  (foldr (fun c h => match c with Some l => delete l h | None => h end) h (map m),
   mk_map (block_capacity m) 0 (replicate (length (map m)) None), l1_reset).

(** * Translation *)

(** How [block_translate] ends: with a block, with [false], in undefined behaviour, or
    (of the model only) out of fuel. *)
Inductive translated :=
  | Translated (s : riscv) (b : block_t)
  | Not_translated (s : riscv)
  | Translate_undef
  | Translate_fuel.

(** Whether an allocation succeeds: of the k-th IR and of the branch history table of a
    translation that starts at the address, of a block, and of the [fuse] array in the
    i-th iteration of [match_pattern]. *)
Class allocator := {
  ir_alloc : Z -> nat -> bool;
  bht_alloc : Z -> bool;
  block_alloc : Z -> bool;
  fuse_alloc : Z -> nat -> bool }.

Definition RV_PG_SIZE := 4096.
Definition page_end (pc_start : Z) : Z := (pc_start &u ~u (RV_PG_SIZE - 1)) +u RV_PG_SIZE.

(** [memset(ir->branch_table->PC, -1, ..)] on a zeroed table. *)
Definition bht_init : branch_history_table :=
  mk_bht (replicate HISTORY_SIZE 0xffffffff) (replicate HISTORY_SIZE None).

Section Runtime.
Context `{riscv_io} `{softfloat} `{allocator}.

(** After the loop: a block without instructions is given back. *)
Definition finish_block (s : riscv) (pc_start pc_end : Z) (term : bool)
    (bt : option branch_history_table) (irs : list rv_insn) : translated :=
  match irs with
  | [] => Not_translated s
  | _ =>
    let n := u32 (Z.of_nat (length irs)) in
    Translated s (mk_block n pc_start pc_end n irs term bt)
  end.

(** The loop, with the IRs so far; one IR has been allocated for the iteration. *)
Fixpoint translate_from (fuel : nat) (s : riscv) (pc_start pc_end : Z) (acc : list rv_insn)
  : translated :=
  match fuel with
  | O => Translate_fuel
  | S fuel =>
    match mem_ifetch s pc_end with
    | None => Translate_undef
    | Some insn =>
      if insn =? 0 then finish_block s pc_start pc_end false None acc
      else
        match rv_decode zero_insn insn with
        | None => Translate_undef
        | Some (_, false) =>
          let s := set_compressed (is_compressed insn) s in
          match SET_CAUSE_AND_TVAL_THEN_TRAP ILLEGAL_INSN insn s with
          | Some s => finish_block s pc_start pc_end false None acc
          | None => Translate_undef
          end
        | Some (ir, true) =>
          let ir := set_pc pc_end ir in
          let pc_end := pc_end +u (if is_compressed insn then 2 else 4) in
          let acc := acc ++ [ir] in
          if insn_is_branch (opcode ir) then
            if insn_is_indirect_branch (opcode ir) then
              if bht_alloc pc_start
              then finish_block s pc_start pc_end false (Some bht_init) acc
              else Not_translated s
            else finish_block s pc_start pc_end false None acc
          else if page_end pc_start <=? pc_end then
            finish_block s pc_start pc_end true None acc
          else if ir_alloc pc_start (length acc) then
            translate_from fuel s pc_start pc_end acc
          else Not_translated s
        end
    end
  end.

(** A page holds at most 2048 instructions. *)
Definition translate_fuel : nat := 2048.
Definition block_translate (s : riscv) : translated :=
  if ir_alloc (PC s) 0 then translate_from translate_fuel s (PC s) (PC s) []
  else Not_translated s.

(** * Finding or making the block at [rv->PC] *)

(** The emulator with its block cache, and the file-scope [prev] of emulate.c.
    [next_loc] is the location the next [block_alloc] returns. *)
Record vm := mk_vm {
  rv : riscv; heap : heap_t; next_loc : Z; block_map : block_map_t;
  block_l1 : block_l1_cache; prev : option Z; exit_addr : Z; on_exit : bool }.

Definition set_rv s v := mk_vm s (heap v) (next_loc v) (block_map v) (block_l1 v) (prev v)
  (exit_addr v) (on_exit v).
Definition set_heap h v := mk_vm (rv v) h (next_loc v) (block_map v) (block_l1 v) (prev v)
  (exit_addr v) (on_exit v).
Definition set_block_l1 c v := mk_vm (rv v) (heap v) (next_loc v) (block_map v) c (prev v)
  (exit_addr v) (on_exit v).
Definition set_prev p v := mk_vm (rv v) (heap v) (next_loc v) (block_map v) (block_l1 v) p
  (exit_addr v) (on_exit v).
Definition set_on_exit b v := mk_vm (rv v) (heap v) (next_loc v) (block_map v) (block_l1 v)
  (prev v) (exit_addr v) b.

(** [map->size * 1.25 > map->block_capacity] *)
Definition map_is_crowded (m : block_map_t) : bool := 4 * block_capacity m <? 5 * size m.

Definition clear_if_crowded (v : vm) : vm :=
  if map_is_crowded (block_map v) then
    let '(h, m, c) := block_map_clear (heap v) (block_map v) in
    mk_vm (rv v) h (next_loc v) m c None (exit_addr v) (on_exit v)
  else v.

(** The passes over a new block: [optimize_constant], whose assertion on [x0] must hold,
    and [match_pattern]. *)
Definition optimize_block (s : riscv) (b : block_t) : option block_t :=
  if reg s rv_reg_zero =? 0 then
    l ← optimize_constant (irs b);
    let l := match_pattern (fuse_alloc (pc_start b)) l in
    Some (mk_block (u32 (Z.of_nat (length l))) (pc_start b) (pc_end b) (cycle_cost b) l
            (page_terminated b) (branch_table b))
  else None.

(** [None] is undefined behaviour, a failed assertion, or a probing loop without end; a
    [None] location is the NULL block. *)
Definition block_find_or_translate (v : vm) : option (vm * option Z) :=
  '(b, c) ← block_lookup_or_find (heap v) (block_map v) (block_l1 v) (PC (rv v));
  let v := set_block_l1 c v in
  match b with
  | Some l => Some (v, Some l)
  | None =>
    let v := clear_if_crowded v in
    if block_alloc (PC (rv v)) then
      match block_translate (rv v) with
      | Translated s b =>
        let l := next_loc v in
        b ← optimize_block s b;
        '(m, c) ← block_insert (block_map v) (block_l1 v) (pc_start b) l;
        Some (mk_vm s (<[l := b]> (heap v)) (l + 1) m c (prev v) (exit_addr v) (on_exit v),
              Some l)
      | Not_translated s => Some (set_rv s v, None)
      | Translate_undef | Translate_fuel => None
      end
    else Some (v, None)
  end.

(** * Execution *)

Definition update_tail (f : rv_insn -> rv_insn) (b : block_t) : block_t :=
  let i := (length (irs b) - 1)%nat in
  mk_block (n_insn b) (pc_start b) (pc_end b) (cycle_cost b) (alter f i (irs b))
    (page_terminated b) (branch_table b).
Definition set_branch_table t (b : block_t) : block_t :=
  mk_block (n_insn b) (pc_start b) (pc_end b) (cycle_cost b) (irs b) (page_terminated b) t.

(** Where a call of [ir_head->impl] ends; [Loops] when [fuel] blocks have run. *)
Inductive ran :=
  | Ran (b : bool) (v : vm)
  | Ran_undef
  | Loops.

(** [LOOKUP_OR_UPDATE_BRANCH_HISTORY_TABLE] in the block at [l]: the block to continue
    with, if one is known for [pc]. *)
Definition lookup_or_update_bht (l : Z) (pc : Z) (v : vm) : option (vm * option Z) :=
  b ← heap v !! l;
  t ← branch_table b;
  let bht_idx := Z.to_nat ((pc >>u 2) &u (Z.of_nat HISTORY_SIZE - 1)) in
  let found := if nth bht_idx (bt_PC t) 0 =? pc then nth bht_idx (bt_target t) None else None in
  match found with
  | Some target => Some (v, Some target)
  | None =>
    r ← block_find (heap v) (block_map v) pc;
    match r with
    | Some target =>
      let t := mk_bht (<[bht_idx := pc]> (bt_PC t)) (<[bht_idx := Some target]> (bt_target t)) in
      Some (set_heap (<[l := set_branch_table (Some t) b]> (heap v)) v, Some target)
    | None => Some (v, None)
    end
  end.

(** Run the block at [l] and the blocks it continues in by tail calls. *)
Fixpoint run_chain (fuel : nat) (l : Z) (cycle pc : Z) (v : vm) : ran :=
  match fuel with
  | O => Loops
  | S fuel =>
    match heap v !! l with
    | None => Ran_undef
    | Some b =>
      match run_irs dispatch_table (irs b) (rv v) cycle pc with
      | Go_ir target s cycle pc => run_chain fuel target cycle pc (set_rv s v)
      | Go_indirect s cycle pc =>
        match lookup_or_update_bht l pc (set_rv s v) with
        | None => Ran_undef
        | Some (v, Some target) => run_chain fuel target cycle pc v
        | Some (v, None) => Ran true (set_rv (set_PC pc (set_csr_cycle cycle (rv v))) v)
        end
      | Ret b s => Ran b (set_rv s v)
      | Go_next _ _ _ | Crash => Ran_undef
      end
    end
  end.

(** ** Block chaining *)

(** The link from the last IR of [prev] to the block at [l]. *)
Definition link_tail (taken : bool) (p : block_t) (l : Z) (last_ir : rv_insn) : rv_insn :=
  if page_terminated p then
    match branch_taken last_ir with
    | None => set_branch_taken (Some l) last_ir
    | Some _ => last_ir
    end
  else if negb (insn_is_unconditional_branch (opcode last_ir)) then
    match taken, branch_taken last_ir, branch_untaken last_ir with
    | true, None, _ => set_branch_taken (Some l) last_ir
    | false, _, None => set_branch_untaken (Some l) last_ir
    | _, _, _ => last_ir
    end
  else if insn_is_direct_branch (opcode last_ir) then
    match branch_taken last_ir with
    | None => set_branch_taken (Some l) last_ir
    | Some _ => last_ir
    end
  else last_ir.

Definition chain_prev (l : Z) (v : vm) : option vm :=
  match prev v with
  | None => Some v
  | Some pl =>
    p ← heap v !! pl;
    let p' := update_tail (link_tail (is_branch_taken (rv v)) p l) p in
    Some (set_heap (<[pl := p']> (heap v)) v)
  end.

(** [if (prev && prev->pc_start != last_pc) prev = block_lookup_or_find(rv, last_pc)] *)
Definition refresh_prev (v : vm) : option vm :=
  match prev v with
  | None => Some v
  | Some pl =>
    p ← heap v !! pl;
    if pc_start p =? last_pc (rv v) then Some v
    else
      '(b, c) ← block_lookup_or_find (heap v) (block_map v) (block_l1 v) (last_pc (rv v));
      Some (set_prev b (set_block_l1 c v))
  end.

(** ** The loops *)

(** How [rv_step] returns. *)
Inductive stepped :=
  | Stepped (v : vm)
  | Step_undef
  | Step_fuel.

(** One iteration: the block at [rv->PC], with the bookkeeping before its first IR is
    called. *)
Definition enter_block (v : vm) : option (vm * option Z) :=
  v ← refresh_prev v;
  '(v, l) ← block_find_or_translate v;
  match l with
  | None => Some (v, None)
  | Some l =>
    b ← heap v !! l;
    ir ← head (irs b);
    let v := if pc ir =? exit_addr v then set_on_exit true v else v in
    v ← chain_prev l v;
    Some (set_rv (set_last_pc (PC (rv v)) (rv v)) v, Some l)
  end.

Fixpoint step_loop (fuel chain_fuel : nat) (cycles_target : Z) (v : vm) : stepped :=
  if (csr_cycle (rv v) <? cycles_target) && negb (halt (rv v)) then
    match fuel with
    | O => Step_fuel
    | S fuel =>
      match enter_block v with
      | None => Step_undef
      | Some (v, None) => Stepped (set_rv (set_halt true (rv v)) v)
      | Some (v, Some l) =>
        match run_chain chain_fuel l (csr_cycle (rv v)) (PC (rv v)) v with
        | Ran true v => step_loop fuel chain_fuel cycles_target (set_prev (Some l) v)
        | Ran false v => Stepped (set_prev None v)
        | Ran_undef => Step_undef
        | Loops => Step_fuel
        end
      end
    end
  else Stepped v.

(** [rv_step]; the periodic [memory_gc] at its end only gives host pages back. *)
Definition rv_step (fuel chain_fuel : nat) (cycle_per_step : Z) (v : vm) : stepped :=
  step_loop fuel chain_fuel (u64 (csr_cycle (rv v) + cycle_per_step)) v.

(** One instruction, fetched, decoded and executed without the block cache; [None] is
    undefined behaviour.  Only the gdb stub calls this, in debug mode: the handlers then
    skip the branch history table. *)
Definition debug_insn (s : riscv) : option riscv :=
  insn ← mem_ifetch s (PC s);
  if insn =? 0 then Some s
  else
    '(ir, ok) ← rv_decode zero_insn insn;
    if negb ok then
      SET_CAUSE_AND_TVAL_THEN_TRAP ILLEGAL_INSN insn (set_compressed (is_compressed insn) s)
    else
      match dispatch_table false s (set_pc (PC s) ir) (csr_cycle s) (PC s) with
      | Ret _ s => Some s
      | Go_indirect s cycle pc => Some (set_PC pc (set_csr_cycle cycle s))
      | _ => None
      end.
Definition rv_step_debug (v : vm) : option vm :=
  let v := if PC (rv v) =? exit_addr v then set_on_exit true v else v in
  s ← debug_insn (rv v); Some (set_rv s v).
End Runtime.
