(* ===== verification/BlockMapProofs.v ===== *)
(** The block map of Block.v is a finite map from block addresses to blocks, its probing
    loops end, and the L1 cache in front of it never changes an answer. *)

From S2P Require Import Prelude.
From S2P Require Import Opcode.
From S2P Require Import Decode.
From S2P Require Import Machine.
From S2P Require Import Interp.
From S2P Require Import Constopt.
From S2P Require Import Fusion.
From S2P Require Import Block.

(** * Specification *)

(** The block at [l] is stored in the map and starts at address [a]. *)
Definition maps (h : heap_t) (m : block_map_t) (a l : Z) : Prop :=
  exists (i : nat) b, map m !! i = Some (Some l) /\ h !! l = Some b /\ pc_start b = a.

Definition CAPACITY := 1024.

(** The k-th slot of the probe sequence of [a]. *)
Definition probe (m : block_map_t) (a : Z) (k : nat) : option (option Z) :=
  slot m (map_hash a + Z.of_nat k).
Definition probe_index (a : Z) (k : nat) : nat :=
  Z.to_nat ((map_hash a + Z.of_nat k) mod CAPACITY).
Definition taken (c : option Z) : bool := match c with Some _ => true | None => false end.
Definition occupied (m : block_map_t) : nat := length (filter (fun c => taken c = true) (map m)).

Record map_ok (h : heap_t) (m : block_map_t) : Prop := {
  mok_capacity : block_capacity m = CAPACITY;
  mok_length : length (map m) = 1024%nat;
  mok_size : size m = Z.of_nat (occupied m);
  mok_room : 5 * size m <= 4 * CAPACITY + 5;
  (** no dangling pointer, and no free slot before the block on its probe sequence *)
  mok_chain (i : nat) l : map m !! i = Some (Some l) ->
    exists b k, h !! l = Some b /\ (k < 1024)%nat /\ i = probe_index (pc_start b) k /\
      forall j, (j < k)%nat -> exists l', probe m (pc_start b) j = Some (Some l');
  mok_unique (i j : nat) l l' b b' :
    map m !! i = Some (Some l) -> map m !! j = Some (Some l') ->
    h !! l = Some b -> h !! l' = Some b' -> pc_start b = pc_start b' -> i = j }.

(** * Probe sequences *)

Lemma land_mask x : x &u (CAPACITY - 1) = x mod CAPACITY.
Proof. change (CAPACITY - 1) with (Z.ones 10). by rewrite Z.land_ones by lia. Qed.
Lemma map_hash_range a : 0 <= map_hash a < CAPACITY.
Proof.
  unfold map_hash. change (2 ^ BLOCK_MAP_CAPACITY_BITS - 1) with (CAPACITY - 1).
  rewrite land_mask. unfold CAPACITY. mlia.
Qed.
Lemma probe_index_lt a k : (probe_index a k < 1024)%nat.
Proof. unfold probe_index, CAPACITY. mlia. Qed.
Lemma probe_index_inj a k k' :
  (k < 1024)%nat -> (k' < 1024)%nat -> probe_index a k = probe_index a k' -> k = k'.
Proof.
  unfold probe_index, CAPACITY. intros Hk Hk' E.
  apply Z2Nat.inj in E; [|mlia..]. mlia.
Qed.
Lemma probe_index_surj a i : (i < 1024)%nat -> exists k, (k < 1024)%nat /\ probe_index a k = i.
Proof.
  intros Hi. pose proof (map_hash_range a) as R.
  exists (Z.to_nat ((Z.of_nat i - map_hash a) mod CAPACITY)).
  unfold probe_index, CAPACITY in *. split; [mlia|]. mlia.
Qed.

(** ** Counting slots *)

Lemma count_insert (m : list (option Z)) i l :
  m !! i = Some None ->
  length (filter (fun c => taken c = true) (<[i := Some l]> m))
  = S (length (filter (fun c => taken c = true) m)).
Proof.
  revert i. induction m as [|c m IH]; intros [|i] E; cbn in E; try done.
  - injection E as ->. reflexivity.
  - change (<[S i := Some l]> (c :: m)) with (c :: <[i := Some l]> m). rewrite !filter_cons. specialize (IH i E).
    destruct c; [rewrite !decide_True by done; cbn; by rewrite IH|].
    by rewrite !decide_False by done.
Qed.
Lemma free_slot (m : list (option Z)) :
  (length (filter (fun c => taken c = true) m) < length m)%nat ->
  exists i, m !! i = Some None.
Proof.
  induction m as [|c m IH]; intros HL; [cbn in HL; lia|].
  destruct c as [l|]; [|by exists 0%nat]. rewrite filter_cons in HL.
  rewrite decide_True in HL by done. cbn in HL. destruct IH as [i Hi]; [lia|]. by exists (S i).
Qed.

(** The first index at which a decidable property holds. *)
Lemma least (P : nat -> Prop) `{forall k, Decision (P k)} n :
  P n -> exists k, (k <= n)%nat /\ P k /\ forall j, (j < k)%nat -> ~ P j.
Proof.
  induction n as [n IH] using lt_wf_ind. intros Hn.
  destruct (decide (Exists P (seq 0 n))) as [(j & Hj%elem_of_seq & Pj)%Exists_exists|HN].
  - destruct (IH j ltac:(lia) Pj) as (k & ? & ? & ?). exists k. split_and!; [lia|done..].
  - exists n. split_and!; [lia|done|]. intros j Hj Pj. apply HN, Exists_exists.
    exists j. split; [apply elem_of_seq; lia|done].
Qed.

Section Probing.
Context (h : heap_t) (m : block_map_t).
Hypothesis Hm : map_ok h m.

Lemma probe_lookup a k : probe m a k = map m !! probe_index a k.
Proof. unfold probe, slot. rewrite (mok_capacity _ _ Hm), land_mask. done. Qed.
Lemma probe_some a k : is_Some (probe m a k).
Proof.
  rewrite probe_lookup. apply lookup_lt_is_Some. rewrite (mok_length _ _ Hm).
  apply probe_index_lt.
Qed.

(** The probe sequence reaches a free slot. *)
Lemma probe_free a :
  exists k, (k < 1024)%nat /\ probe m a k = Some None /\
    forall j, (j < k)%nat -> exists l, probe m a j = Some (Some l).
Proof.
  destruct (free_slot (map m)) as [i Hi].
  { pose proof (mok_room _ _ Hm). pose proof (mok_size _ _ Hm) as E.
    pose proof (mok_length _ _ Hm). unfold occupied, CAPACITY in *. lia. }
  assert (i < 1024)%nat as Hlt by (rewrite <- (mok_length _ _ Hm); by eapply lookup_lt_Some).
  destruct (probe_index_surj a i Hlt) as (n & Hn & En).
  destruct (least (fun k => probe m a k = Some None) n) as (k & Hk & Pk & Hmin).
  { by rewrite probe_lookup, En. }
  exists k. split_and!; [lia|done|]. intros j Hj. specialize (Hmin j Hj).
  destruct (probe_some a j) as [[l|] E]; [by exists l|]. by rewrite E in Hmin.
Qed.

(** A stored block sits on its probe sequence behind occupied slots. *)
Lemma maps_probe a l :
  maps h m a l ->
  exists k b, (k < 1024)%nat /\ probe m a k = Some (Some l) /\ h !! l = Some b /\
    pc_start b = a /\
    forall j, (j < k)%nat -> exists l' b', probe m a j = Some (Some l') /\
      h !! l' = Some b' /\ pc_start b' <> a.
Proof.
  intros (i & b & Hi & Hb & <-).
  destruct (mok_chain _ _ Hm _ _ Hi) as (b0 & k & Hb0 & Hk & -> & Hocc). simplify_eq.
  exists k, b. split_and!; [done|by rewrite probe_lookup|done..|]. intros j Hj.
  destruct (Hocc j Hj) as [l' Hl']. pose proof Hl' as Hl2. rewrite probe_lookup in Hl2.
  destruct (mok_chain _ _ Hm _ _ Hl2) as (b' & _ & Hb' & _).
  exists l', b'. split_and!; [done..|]. intros E.
  pose proof (mok_unique _ _ Hm _ _ _ _ _ _ Hl2 Hi Hb' Hb E) as Ei.
  apply probe_index_inj in Ei; lia.
Qed.

(** ** The loops *)

Lemma find_from_skip a n : forall fuel index,
  (forall j, (j < n)%nat -> exists l b, slot m (index + Z.of_nat j) = Some (Some l) /\
     h !! l = Some b /\ pc_start b <> a) ->
  (n <= fuel)%nat ->
  find_from fuel h m a index = find_from (fuel - n) h m a (index + Z.of_nat n).
Proof.
  induction n as [|n IH]; intros fuel index Hj Hf.
  { by rewrite Nat.sub_0_r, Z.add_0_r. }
  destruct fuel as [|fuel]; [lia|]. cbn [find_from].
  destruct (Hj 0%nat ltac:(lia)) as (l & b & E1 & E2 & E3). rewrite Z.add_0_r in E1.
  rewrite E1. cbn [mbind option_bind]. rewrite E2. cbn [mbind option_bind].
  rewrite (proj2 (Z.eqb_neq _ _) E3). rewrite IH; [| |lia].
  - replace (index + 1 + Z.of_nat n) with (index + Z.of_nat (S n)) by lia. done.
  - intros j Hlt. replace (index + 1 + Z.of_nat j) with (index + Z.of_nat (S j)) by lia.
    apply Hj. lia.
Qed.
Lemma free_from_skip n : forall fuel index,
  (forall j, (j < n)%nat -> exists l, slot m (index + Z.of_nat j) = Some (Some l)) ->
  (n <= fuel)%nat ->
  free_from fuel m index = free_from (fuel - n) m (index + Z.of_nat n).
Proof.
  induction n as [|n IH]; intros fuel index Hj Hf.
  { by rewrite Nat.sub_0_r, Z.add_0_r. }
  destruct fuel as [|fuel]; [lia|]. cbn [free_from].
  destruct (Hj 0%nat ltac:(lia)) as (l & E1). rewrite Z.add_0_r in E1.
  rewrite E1. cbn [mbind option_bind]. rewrite IH; [| |lia].
  - replace (index + 1 + Z.of_nat n) with (index + Z.of_nat (S n)) by lia. done.
  - intros j Hlt. replace (index + 1 + Z.of_nat j) with (index + Z.of_nat (S j)) by lia.
    apply Hj. lia.
Qed.

Lemma block_find_hit a l : maps h m a l -> block_find h m a = Some (Some l).
Proof.
  intros (k & b & Hk & Ek & Hb & <- & Hj)%maps_probe. unfold block_find.
  rewrite (mok_capacity _ _ Hm). change (Z.to_nat CAPACITY) with 1024%nat.
  rewrite (find_from_skip _ k) by (done || lia).
  destruct (1024 - k)%nat eqn:E; [lia|]. cbn [find_from]. unfold probe in Ek. rewrite Ek.
  cbn [mbind option_bind]. rewrite Hb. cbn [mbind option_bind]. by rewrite Z.eqb_refl.
Qed.
Lemma block_find_miss a : (forall l, ~ maps h m a l) -> block_find h m a = Some None.
Proof.
  intros HN. destruct (probe_free a) as (k & Hk & Ek & Hj). unfold block_find.
  rewrite (mok_capacity _ _ Hm). change (Z.to_nat CAPACITY) with 1024%nat.
  rewrite (find_from_skip _ k); [|intros j Hlt|lia].
  - destruct (1024 - k)%nat eqn:E; [lia|]. cbn [find_from]. unfold probe in Ek. by rewrite Ek.
  - destruct (Hj j Hlt) as [l El]. pose proof El as El2. rewrite probe_lookup in El2.
    destruct (mok_chain _ _ Hm _ _ El2) as (b & _ & Hb & _). exists l, b.
    split_and!; [done..|]. intros <-. eapply (HN l). by exists (probe_index (pc_start b) j), b.
Qed.
End Probing.

#[export] Instance maps_dec h m a l : Decision (maps h m a l).
Proof.
  destruct (h !! l) as [b|] eqn:E; [|right; by intros (? & ? & _ & ? & _); simplify_eq].
  destruct (decide (pc_start b = a)) as [Ea|Ea];
    [|right; by intros (? & ? & _ & ? & ?); simplify_eq].
  destruct (decide (Some l ∈ map m)) as [Hin|Hin].
  - left. apply list_elem_of_lookup_1 in Hin as [i Hi]. by exists i, b.
  - right. intros (i & ? & Hi & _). apply Hin. by eapply list_elem_of_lookup_2.
Defined.

(** * Lookup *)

Lemma maps_functional h m a l l' : map_ok h m -> maps h m a l -> maps h m a l' -> l = l'.
Proof.
  intros Hm H1 H2. apply (block_find_hit _ _ Hm) in H1, H2. congruence.
Qed.
Lemma maps_or_not h m a : (exists l, maps h m a l) \/ (forall l, ~ maps h m a l).
Proof.
  assert (forall c, Decision (match c with Some l => maps h m a l | None => False end)).
  { intros [l|]; apply _. }
  destruct (decide (Exists (fun c => match c with Some l => maps h m a l | None => False end)
                      (map m))) as [([l|] & _ & Hl)%Exists_exists|HN]; [by left; exists l|done|].
  right. intros l Hl. apply HN, Exists_exists. exists (Some l). split; [|done].
  destruct Hl as (i & b & Hi & _). by eapply list_elem_of_lookup_2.
Qed.

(** Searching the map is a function of what it holds. *)
Lemma block_find_spec h m a :
  map_ok h m ->
  exists r, block_find h m a = Some r /\ forall l, r = Some l <-> maps h m a l.
Proof.
  intros Hm. destruct (maps_or_not h m a) as [[l Hl]|HN].
  - exists (Some l). split; [by apply block_find_hit|]. intros l'. split.
    + by intros [= <-].
    + intros Hl'. f_equal. by eapply maps_functional.
  - exists None. split; [by apply block_find_miss|]. intros l. split; [done|].
    intros Hl. by destruct (HN l).
Qed.
Lemma block_find_maps h m a l : map_ok h m -> block_find h m a = Some (Some l) -> maps h m a l.
Proof. intros Hm E. destruct (block_find_spec h m a Hm) as (r & Er & Hr). apply Hr. congruence. Qed.

(** * Insertion *)

Definition store_at (i : nat) (l : Z) (m : block_map_t) : block_map_t :=
  mk_map (block_capacity m) (u32 (size m + 1)) (<[i := Some l]> (map m)).

Lemma block_insert_slot h m c a l :
  map_ok h m ->
  exists k, (k < 1024)%nat /\ map m !! probe_index a k = Some None /\
    (forall j, (j < k)%nat -> exists l', probe m a j = Some (Some l')) /\
    block_insert m c a l = Some (store_at (probe_index a k) l m, block_l1_update c a l).
Proof.
  intros Hm. destruct (probe_free h m Hm a) as (k & Hk & Ek & Hj). exists k.
  split_and!; [done|by erewrite <- probe_lookup|done|]. unfold block_insert.
  rewrite (mok_capacity _ _ Hm). change (Z.to_nat CAPACITY) with 1024%nat.
  rewrite (free_from_skip m k) by (done || lia).
  destruct (1024 - k)%nat eqn:E; [lia|]. cbn [free_from]. unfold probe in Ek. rewrite Ek.
  cbn [mbind option_bind]. unfold store_at, probe_index.
  by rewrite !(mok_capacity _ _ Hm), land_mask.
Qed.

Section Insert.
Context (h : heap_t) (m : block_map_t) (b : block_t) (l : Z) (i : nat).
Context (k : nat).
Hypothesis Hm : map_ok h m.
Hypothesis Hfresh : h !! l = None.
Hypothesis Hnew : forall l', ~ maps h m (pc_start b) l'.
Hypothesis Hroom : map_is_crowded m = false.
Hypothesis Hk : (k < 1024)%nat.
Hypothesis Hi : i = probe_index (pc_start b) k.
Hypothesis Hfree : map m !! i = Some None.
Hypothesis Hchain : forall j, (j < k)%nat -> exists l', probe m (pc_start b) j = Some (Some l').

Lemma lookup_store j : map (store_at i l m) !! j = if decide (j = i) then Some (Some l) else map m !! j.
Proof.
  cbn. destruct (decide (j = i)) as [->|].
  - apply list_lookup_insert_eq. by eapply lookup_lt_Some.
  - by apply list_lookup_insert_ne.
Qed.
Lemma old_ne j l' : map m !! j = Some (Some l') -> j <> i /\ l' <> l.
Proof.
  intros Hj. split; [congruence|]. intros ->.
  destruct (mok_chain _ _ Hm _ _ Hj) as (? & _ & ? & _). congruence.
Qed.
Lemma old_store j l' : map m !! j = Some (Some l') -> map (store_at i l m) !! j = Some (Some l').
Proof. intros Hj. rewrite lookup_store, decide_False; [done|]. by eapply old_ne. Qed.
Lemma old_probe a j l' :
  probe m a j = Some (Some l') -> probe (store_at i l m) a j = Some (Some l').
Proof. unfold probe, slot. cbn [block_capacity store_at]. apply old_store. Qed.

Lemma maps_store a l' :
  maps (<[l := b]> h) (store_at i l m) a l' <-> maps h m a l' \/ (a = pc_start b /\ l' = l).
Proof.
  split.
  - intros (j & b' & Hj & Hb & <-). rewrite lookup_store in Hj.
    destruct (decide (j = i)) as [->|].
    + injection Hj as ->. rewrite lookup_insert_eq in Hb. injection Hb as ->. by right.
    + left. exists j, b'. rewrite lookup_insert_ne in Hb; [done|].
      destruct (old_ne _ _ Hj). congruence.
  - intros [(j & b' & Hj & Hb & <-)|[-> ->]].
    + exists j, b'. rewrite lookup_insert_ne; [by auto using old_store|].
      destruct (old_ne _ _ Hj). congruence.
    + exists i, b. by rewrite lookup_store, decide_True, lookup_insert_eq.
Qed.

Lemma store_ok : map_ok (<[l := b]> h) (store_at i l m).
Proof.
  pose proof (mok_size _ _ Hm) as Hsz. pose proof (mok_room _ _ Hm) as Hr.
  unfold map_is_crowded in Hroom. rewrite (mok_capacity _ _ Hm) in Hroom.
  unfold CAPACITY in *.
  assert (u32 (size m + 1) = size m + 1) as Eu by (apply u32_small; unfold is_u32; lia).
  split; cbn [block_capacity size store_at]; rewrite ?Eu; unfold CAPACITY.
  - apply Hm.
  - cbn. rewrite length_insert. apply Hm.
  - unfold occupied. cbn [map store_at]. rewrite count_insert by done.
    unfold occupied in Hsz. lia.
  - apply Z.ltb_ge in Hroom. lia.
  - intros j l' Hj. rewrite lookup_store in Hj. destruct (decide (j = i)) as [->|].
    + injection Hj as <-. exists b, k. rewrite lookup_insert_eq. split_and!; [done..|].
      intros j Hj. destruct (Hchain j Hj) as [l' Hl']. exists l'. by apply old_probe.
    + destruct (mok_chain _ _ Hm _ _ Hj) as (b' & k' & Hb' & Hk' & -> & Hj').
      exists b', k'. rewrite lookup_insert_ne by (by destruct (old_ne _ _ Hj)).
      split_and!; [done..|]. intros j Hjk. destruct (Hj' j Hjk) as [l2 Hl2].
      exists l2. by apply old_probe.
  - intros j j' l1 l2 b1 b2. rewrite !lookup_store.
    destruct (decide (j = i)) as [->|], (decide (j' = i)) as [->|]; intros E1 E2 B1 B2 E; [done| | |].
    + exfalso. destruct (old_ne _ _ E2). injection E1 as <-. rewrite lookup_insert_eq in B1.
      injection B1 as <-. rewrite lookup_insert_ne in B2 by done. apply (Hnew l2).
      by exists j', b2.
    + exfalso. destruct (old_ne _ _ E1). injection E2 as <-. rewrite lookup_insert_eq in B2.
      injection B2 as <-. rewrite lookup_insert_ne in B1 by done. apply (Hnew l1).
      by exists j, b1.
    + destruct (old_ne _ _ E1), (old_ne _ _ E2). rewrite lookup_insert_ne in B1, B2 by done.
      by eapply (mok_unique _ _ Hm).
Qed.
End Insert.

(** * The L1 cache *)

(** Every entry is the answer the map would give; an invalid entry may only shadow the
    address that equals the invalid tag when no block starts there. *)
Definition l1_entry_ok (h : heap_t) (m : block_map_t) (i : nat) (t : Z) (p : option Z) : Prop :=
  match p with
  | Some l => maps h m t l
  | None => t = BLOCK_L1_INVALID_TAG /\
            (i = l1_index BLOCK_L1_INVALID_TAG -> forall l, ~ maps h m BLOCK_L1_INVALID_TAG l)
  end.
Record coherent (h : heap_t) (m : block_map_t) (c : block_l1_cache) : Prop := {
  coh_tags : length (tags c) = BLOCK_L1_SIZE;
  coh_ptrs : length (ptrs c) = BLOCK_L1_SIZE;
  coh_entry i t p : tags c !! i = Some t -> ptrs c !! i = Some p -> l1_entry_ok h m i t p }.

Lemma l1_index_lt pc : (l1_index pc < BLOCK_L1_SIZE)%nat.
Proof.
  unfold l1_index, BLOCK_L1_SIZE, BLOCK_L1_MASK.
  pose proof (land_le_r (pc >>u BLOCK_L1_INDEX_SHIFT) 255). lia.
Qed.

Lemma coherent_update h m c pc l :
  coherent h m c -> maps h m pc l -> coherent h m (block_l1_update c pc l).
Proof.
  intros [Ht Hp He] Hl. split; cbn; rewrite ?length_insert; [done..|].
  intros i t p. pose proof (l1_index_lt pc). destruct (decide (i = l1_index pc)) as [->|].
  - rewrite !list_lookup_insert_eq by congruence. by intros [= <-] [= <-].
  - rewrite !list_lookup_insert_ne by done. apply He.
Qed.

(** The entries survive when the map gains one block that the cache then gets. *)
Lemma coherent_extend h m h' m' c a l :
  coherent h m c ->
  (forall a' l', maps h' m' a' l' <-> maps h m a' l' \/ (a' = a /\ l' = l)) ->
  coherent h' m' (block_l1_update c a l).
Proof.
  intros [Ht Hp He] Hm. split; cbn; rewrite ?length_insert; [done..|].
  intros i t p. pose proof (l1_index_lt a). destruct (decide (i = l1_index a)) as [->|Hne].
  - rewrite !list_lookup_insert_eq by congruence. intros [= <-] [= <-]. apply Hm. by right.
  - rewrite !list_lookup_insert_ne by done. intros E1 E2. specialize (He _ _ _ E1 E2).
    destruct p as [l'|]; cbn in *; [apply Hm; by left|]. destruct He as [-> He].
    split; [done|]. intros Ei l'. rewrite Hm. intros [Hl|[Ea _]]; [by eapply He|].
    apply Hne. by rewrite Ei, Ea.
Qed.

Lemma coherent_reset h m : (forall a l, ~ maps h m a l) -> coherent h m l1_reset.
Proof.
  intros HN. split; cbn [tags ptrs l1_reset]; [done..|]. intros i t p.
  intros [-> _]%lookup_replicate_1 [-> _]%lookup_replicate_1. by cbn.
Qed.

(** A lookup through the cache gives the answer of the map and leaves the cache coherent. *)
Lemma lookup_spec h m c pc :
  map_ok h m -> coherent h m c ->
  exists r c', block_lookup_or_find h m c pc = Some (r, c') /\ coherent h m c' /\
    forall l, r = Some l <-> maps h m pc l.
Proof.
  intros Hm Hc. unfold block_lookup_or_find. pose proof (l1_index_lt pc) as Hi.
  destruct (block_find_spec h m pc Hm) as (r & Er & Hr).
  destruct (lookup_lt_is_Some_2 (tags c) (l1_index pc)) as [t Et];
    [by rewrite (coh_tags _ _ _ Hc)|].
  destruct (lookup_lt_is_Some_2 (ptrs c) (l1_index pc)) as [p Ep];
    [by rewrite (coh_ptrs _ _ _ Hc)|].
  rewrite (nth_lookup_Some _ _ _ _ Et). destruct (Z.eqb_spec t pc) as [->|].
  - rewrite (nth_lookup_Some _ _ _ _ Ep). exists p, c. split_and!; [done..|].
    pose proof (coh_entry _ _ _ Hc _ _ _ Et Ep) as He. destruct p as [l|]; cbn in He.
    + intros l'. split; [by intros [= <-]|]. intros Hl'. f_equal. by eapply maps_functional.
    + destruct He as [-> He]. intros l. split; [done|]. intros Hl. by destruct (He eq_refl l).
  - rewrite Er. cbn [mbind option_bind]. destruct r as [l|].
    + exists (Some l), (block_l1_update c pc l). split_and!; [done| |done].
      apply coherent_update; [done|]. by apply Hr.
    + by exists None, c.
Qed.

(** Emptying the map and the cache. *)
Lemma clear_empty h m h' m' c' a l :
  block_map_clear h m = (h', m', c') -> ~ maps h' m' a l.
Proof.
  unfold block_map_clear. intros [= <- <- <-] (i & b & Hi & _). cbn in Hi.
  by apply lookup_replicate_1 in Hi as [? _].
Qed.
Lemma filter_replicate_None n : filter (fun c => taken c = true) (replicate n (@None Z)) = [].
Proof. induction n; [done|]. cbn [replicate]. rewrite filter_cons. by rewrite decide_False. Qed.
Lemma clear_ok h m h' m' c' :
  map_ok h m -> block_map_clear h m = (h', m', c') -> map_ok h' m' /\ coherent h' m' c'.
Proof.
  intros Hm E. assert (forall a l, ~ maps h' m' a l) as HN by (intros a l; by eapply clear_empty).
  unfold block_map_clear in E. injection E as <- <- <-. split.
  - assert (forall (i : nat) l, (replicate (length (map m)) (@None Z)) !! i <> Some (Some l)).
    { intros i l [? _]%lookup_replicate_1. done. }
    split; cbn.
    + apply Hm.
    + rewrite length_replicate. apply Hm.
    + unfold occupied. cbn. by rewrite filter_replicate_None.
    + unfold CAPACITY. lia.
    + intros i l Hi. by destruct (H i l).
    + intros i j l l' b b' Hi. by destruct (H i l).
  - by apply coherent_reset.
Qed.

Lemma init_ok h : map_ok h (block_map_init BLOCK_MAP_CAPACITY_BITS).
Proof.
  assert (forall (i : nat) l, replicate 1024 (@None Z) !! i <> Some (Some l)).
  { intros i l [? _]%lookup_replicate_1. done. }
  split; unfold block_map_init, CAPACITY; cbn [block_capacity size map].
  - done.
  - apply length_replicate.
  - unfold occupied. cbn [map]. by rewrite filter_replicate_None.
  - lia.
  - intros i l Hi. by destruct (H i l).
  - intros i j l l' b b' Hi. by destruct (H i l).
Qed.
Lemma init_empty h a l : ~ maps h (block_map_init BLOCK_MAP_CAPACITY_BITS) a l.
Proof. by intros (i & b & [? _]%lookup_replicate_1 & _). Qed.

(** Insertion of a block at a new address into a map that is not crowded. *)
Lemma insert_spec h m c b l :
  map_ok h m -> coherent h m c -> map_is_crowded m = false -> h !! l = None ->
  (forall l', ~ maps h m (pc_start b) l') ->
  exists m' c', block_insert m c (pc_start b) l = Some (m', c') /\
    map_ok (<[l := b]> h) m' /\ coherent (<[l := b]> h) m' c' /\
    forall a l', maps (<[l := b]> h) m' a l' <-> maps h m a l' \/ (a = pc_start b /\ l' = l).
Proof.
  intros Hm Hc Hroom Hl Hnew.
  destruct (block_insert_slot h m c (pc_start b) l Hm) as (k & Hk & Hfree & Hch & E).
  eexists _, _. split; [exact E|].
  assert (forall a l', maps (<[l := b]> h) (store_at (probe_index (pc_start b) k) l m) a l'
    <-> maps h m a l' \/ (a = pc_start b /\ l' = l)) as Hmaps.
  { intros. by eapply maps_store. }
  split_and!; [by eapply store_ok|by eapply coherent_extend|done].
Qed.

(** C17: lookup.  In a well-formed map with a coherent L1 cache, [block_lookup_or_find]
    ends for every address, returns a block exactly when the map holds one that starts
    there -- the cache never changes the answer -- and leaves the cache coherent. *)
Theorem block_lookup_correct h m c pc :
  map_ok h m -> coherent h m c ->
  exists r c', block_lookup_or_find h m c pc = Some (r, c') /\ coherent h m c' /\
    forall l, r = Some l <-> maps h m pc l.
Proof. apply lookup_spec. Qed.

Definition block_at (a : Z) : block_t := mk_block 1 a (a + 4) 1 [zero_insn] false None.
Lemma block_lookup_correct_witness :
  exists m c r c', block_insert (block_map_init BLOCK_MAP_CAPACITY_BITS) l1_reset 0x100 7
    = Some (m, c) /\ block_lookup_or_find {[ 7 := block_at 0x100 ]} m c 0x100 = Some (r, c') /\
    r = Some 7.
Proof.
  destruct (insert_spec ∅ (block_map_init BLOCK_MAP_CAPACITY_BITS) l1_reset (block_at 0x100) 7)
    as (m & c & E & Hm & Hc & Hmaps); [apply init_ok|apply coherent_reset, init_empty|done..| |].
  { intros l. apply init_empty. }
  destruct (block_lookup_correct _ m c 0x100 Hm Hc) as (r & c' & E' & _ & Hr).
  exists m, c, r, c'. split_and!; [exact E|exact E'|]. apply Hr, Hmaps. by right.
Defined.

(** C10: Insertion.  Adding a block at a new address to a well-formed, uncrowded map ends,
    keeps the map well-formed and the L1 cache coherent, and afterwards the map holds
    exactly the old blocks and the new one: a lookup of the new address finds it and every
    other lookup is unchanged. *)
Theorem block_insert_correct h m c b l :
  map_ok h m -> coherent h m c -> map_is_crowded m = false -> h !! l = None ->
  block_find h m (pc_start b) = Some None ->
  exists m' c', block_insert m c (pc_start b) l = Some (m', c') /\
    map_ok (<[l := b]> h) m' /\ coherent (<[l := b]> h) m' c' /\
    block_find (<[l := b]> h) m' (pc_start b) = Some (Some l) /\
    forall a, a <> pc_start b -> block_find (<[l := b]> h) m' a = block_find h m a.
Proof.
  intros Hm Hc Hroom Hl Hnew.
  assert (forall l', ~ maps h m (pc_start b) l') as HN.
  { intros l' Hl'. rewrite (block_find_hit _ _ Hm _ _ Hl') in Hnew. done. }
  destruct (insert_spec h m c b l Hm Hc Hroom Hl HN) as (m' & c' & E & Hm' & Hc' & Hmaps).
  exists m', c'. split_and!; [done..| |].
  { apply block_find_hit; [done|]. apply Hmaps. by right. }
  intros a Ha. destruct (maps_or_not h m a) as [[l' Hl']|HN'].
  - rewrite (block_find_hit _ _ Hm a l' Hl'), (block_find_hit _ _ Hm' a l'); [done|].
    apply Hmaps. by left.
  - rewrite (block_find_miss _ _ Hm a HN'), (block_find_miss _ _ Hm' a); [done|].
    intros l'. rewrite Hmaps.
    intros [Hl'|[? _]]; [by eapply HN'|done].
Qed.
Lemma block_insert_correct_witness :
  exists m' c', block_insert (block_map_init BLOCK_MAP_CAPACITY_BITS) l1_reset 0x100 7
    = Some (m', c') /\ block_find {[ 7 := block_at 0x100 ]} m' 0x100 = Some (Some 7).
Proof.
  destruct (block_insert_correct ∅ (block_map_init BLOCK_MAP_CAPACITY_BITS) l1_reset
    (block_at 0x100) 7) as (m' & c' & E & _ & _ & Hf & _);
    [apply init_ok|apply coherent_reset, init_empty|reflexivity..|].
  exists m', c'. split; [exact E|exact Hf].
Defined.
