(* ===== verification/BlockProofs.v ===== *)
(** Translation of a basic block (Block.v): it ends, the block it builds has the shape the
    passes and the interpreter rely on, and running the finished block does what executing
    its instructions one at a time does. *)

From S2P Require Import Prelude.
From S2P Require Import Opcode.
From S2P Require Import Decode.
From S2P Require Import Machine.
From S2P Require Import Interp.
From S2P Require Import Constopt.
From S2P Require Import MachineFacts.
From S2P Require Import Invariant.
From S2P Require Import ConstoptProofs.
From S2P Require Import DecodeProofs.
From S2P Require Import Fusion.
From S2P Require Import FusionProofs.
From S2P Require Import Block.
From S2P Require Import BlockMapProofs.

(** * What the constant folder can do to an IR *)

Inductive rewritten (ir : rv_insn) : rv_insn -> Prop :=
  | Rw_same : rewritten ir ir
  | Rw_const o r v :
      o = rv_insn_lui \/ o = rv_insn_clui -> dest_reg (opcode ir) ir = Some r ->
      guards_rd (opcode ir) || clobbers_rd (opcode ir) = false ->
      opcode ir <> rv_insn_nop -> insn_is_branch (opcode ir) = false ->
      rewritten ir (set_opcode o (set_imm (s32 v) (set_rd r ir)))
  | Rw_jal i : is_s32 i \/ i = imm ir -> is_cond_branch (opcode ir) = true ->
      rewritten ir (set_opcode rv_insn_jal (set_imm i ir))
  | Rw_cj i : is_s32 i \/ i = imm ir -> insn_is_branch (opcode ir) = true ->
      rewritten ir (set_opcode rv_insn_cj (set_imm i ir)).

Section Shapes.
Context (ir : rv_insn) (info : constopt_info) (ir' : rv_insn) (info' : constopt_info).

Lemma keep_shape : keep ir info = Some (ir', info') -> rewritten ir ir'.
Proof. intros [= <- <-]. constructor. Qed.
Lemma kill_shape : kill_rd ir info = Some (ir', info') -> rewritten ir ir'.
Proof. intros [= <- <-]. constructor. Qed.
Lemma kill_nz_shape : kill_rd_nz ir info = Some (ir', info') -> rewritten ir ir'.
Proof. intros [= <- <-]. constructor. Qed.

Hypothesis Hclean : guards_rd (opcode ir) || clobbers_rd (opcode ir) = false.
Hypothesis Hnop : opcode ir <> rv_insn_nop.
Hypothesis Hbranch : insn_is_branch (opcode ir) = false.

Lemma fold_to_shape o v r j :
  fold_to o v r (set_rd r ir) j = Some (ir', info') -> o = rv_insn_lui \/ o = rv_insn_clui ->
  dest_reg (opcode ir) ir = Some r -> rewritten ir ir'.
Proof. intros [= <- <-] Ho Hd. by apply Rw_const. Qed.
Lemma fold_rd_shape o v j :
  fold_to o v (rd ir) ir j = Some (ir', info') -> o = rv_insn_lui \/ o = rv_insn_clui ->
  dest_reg (opcode ir) ir = Some (rd ir) -> rewritten ir ir'.
Proof. intros E. rewrite <- (set_rd_id ir) in E at 2. by eapply fold_to_shape. Qed.
Lemma fold1_shape o f :
  fold1 o f ir info = Some (ir', info') -> o = rv_insn_lui \/ o = rv_insn_clui ->
  dest_reg (opcode ir) ir = Some (rd ir) -> rewritten ir ir'.
Proof. unfold fold1. case_match; [apply fold_rd_shape|]. intros E _ _. by apply kill_shape. Qed.
Lemma fold2_shape o f :
  fold2 o f ir info = Some (ir', info') -> o = rv_insn_lui \/ o = rv_insn_clui ->
  dest_reg (opcode ir) ir = Some (rd ir) -> rewritten ir ir'.
Proof.
  unfold fold2. case_match; [|intros E _ _; by apply kill_shape].
  intros (v & _ & E)%bind_Some. revert E. apply fold_rd_shape.
Qed.
Lemma fold_inplace_shape r f :
  fold_inplace r f ir info = Some (ir', info') ->
  dest_reg (opcode ir) ir = Some (r ir) -> rewritten ir ir'.
Proof.
  unfold fold_inplace. case_match; [|intros [= <- <-] _; constructor].
  intros (v & _ & E)%bind_Some. eapply fold_to_shape; [exact E|by right].
Qed.
End Shapes.

Lemma constopt_shape ir info ir' info' :
  constopt_table (opcode ir) ir info = Some (ir', info') -> rewritten ir ir'.
Proof.
  intros E. destruct (opcode ir) eqn:Eo; cbn [constopt_table] in E; try discriminate;
    match type of E with ?f = _ => let h := head_of f in unfold h in E; cbv beta in E end;
    try solve
      [ by eapply keep_shape | by eapply kill_shape | by eapply kill_nz_shape
      | injection E as <- <-; constructor
      | eapply fold1_shape; [..|exact E| |]; rewrite ?Eo; by auto
      | eapply fold2_shape; [..|exact E| |]; rewrite ?Eo; by auto
      | eapply fold_inplace_shape; [..|exact E|]; rewrite ?Eo; by auto
      | eapply fold_rd_shape; [..|exact E| |]; rewrite ?Eo; by auto ].
  1-6: unfold OPT_BRANCH_FUNC in E; case_match; injection E as <- <-; [|constructor];
    case_match; [apply Rw_jal; [left; unfold is_s32; lia|by rewrite Eo]|];
    rewrite <- (set_imm_id ir) at 2; apply Rw_jal; [by right|by rewrite Eo].
  - case_match; [eapply fold_rd_shape; [..|exact E| |]; rewrite ?Eo; by auto|].
    by eapply kill_shape.
  - case_match; injection E as <- <-; [|constructor].
    case_match; [apply Rw_cj; [left; unfold is_s32; lia|by rewrite Eo]|];
    rewrite <- (set_imm_id ir) at 2; apply Rw_cj; [by right|by rewrite Eo].
  - case_match; injection E as <- <-; [|constructor].
    case_match; [apply Rw_cj; [left; unfold is_s32; lia|by rewrite Eo]|];
    rewrite <- (set_imm_id ir) at 2; apply Rw_cj; [by right|by rewrite Eo].
  - case_match; [eapply fold_rd_shape; [..|exact E| |]; rewrite ?Eo; by auto|].
    by eapply kill_shape.
Qed.

(** * Translation *)

Definition ilen (insn : Z) : Z := if is_compressed insn then 2 else 4.

(** [irs] are the instructions fetched and decoded at consecutive addresses from [a] up
    to [e]. *)
Fixpoint fetched `{riscv_io} (s : riscv) (a : Z) (irs : list rv_insn) (e : Z) : Prop :=
  match irs with
  | [] => e = a
  | ir :: rest =>
    exists insn d, mem_ifetch s a = Some insn /\ insn <> 0 /\
      rv_decode zero_insn insn = Some (d, true) /\ ir = set_pc a d /\
      fetched s (a +u ilen insn) rest e
  end.

(** Why the loop stopped at [pc_end]. *)
Inductive block_end `{riscv_io} (s : riscv) (b : block_t) (tail : rv_insn) : Prop :=
  | End_page :
      page_terminated b = true -> insn_is_branch (opcode tail) = false ->
      page_end (pc_start b) <= pc_end b -> branch_table b = None -> block_end s b tail
  | End_branch :
      page_terminated b = false -> insn_is_branch (opcode tail) = true ->
      branch_table b
      = (if insn_is_indirect_branch (opcode tail) then Some bht_init else None) ->
      block_end s b tail
  | End_fetch :
      page_terminated b = false -> insn_is_branch (opcode tail) = false ->
      branch_table b = None -> mem_ifetch s (pc_end b) = Some 0 -> block_end s b tail
  | End_illegal insn d :
      page_terminated b = false -> insn_is_branch (opcode tail) = false ->
      branch_table b = None -> mem_ifetch s (pc_end b) = Some insn -> insn <> 0 ->
      rv_decode zero_insn insn = Some (d, false) -> block_end s b tail.

Record block_shape `{riscv_io} (s : riscv) (b : block_t) : Prop := {
  bs_start : pc_start b = PC s;
  bs_fetched : fetched s (pc_start b) (irs b) (pc_end b);
  bs_count : n_insn b = Z.of_nat (length (irs b)) /\ cycle_cost b = n_insn b;
  bs_small : 1 <= n_insn b <= 2048;
  bs_branches : only_last_branches (irs b);
  bs_page ir : ir ∈ irs b -> pc ir / RV_PG_SIZE = pc_start b / RV_PG_SIZE;
  bs_end : exists tail, last (irs b) = Some tail /\ block_end s b tail }.

Lemma page_base a : is_u32 a -> a &u ~u (RV_PG_SIZE - 1) = a - a mod RV_PG_SIZE.
Proof.
  intros Ha. change (~u (RV_PG_SIZE - 1)) with 0xfffff000. unfold RV_PG_SIZE, is_u32 in *.
  transitivity (Z.shiftl (Z.shiftr a 12) 12).
  - apply Z.bits_inj'. intros i Hi. change 0xfffff000 with (Z.shiftl (Z.ones 20) 12).
    rewrite Z.land_spec, !Z.shiftl_spec by lia. destruct (Z.lt_ge_cases i 12).
    + rewrite !(Z.testbit_neg_r _ (i - 12)) by lia. by rewrite andb_false_r.
    + rewrite Z.shiftr_spec by lia. replace (i - 12 + 12) with i by lia.
      destruct (Z.lt_ge_cases i 32).
      * by rewrite Z.ones_spec_low, andb_true_r by lia.
      * by rewrite (testbit_above a 32) by lia.
  - rewrite Z.shiftl_mul_pow2, Z.shiftr_div_pow2 by lia. change (2 ^ 12) with 4096. mlia.
Qed.
Lemma page_end_spec a :
  is_u32 a -> page_end a = u32 (4096 * (a / RV_PG_SIZE) + 4096).
Proof.
  intros Ha. unfold page_end. rewrite page_base by done. unfold RV_PG_SIZE. f_equal. mlia.
Qed.
Lemma ilen_bounds insn : 2 <= ilen insn <= 4.
Proof. unfold ilen. case_match; lia. Qed.

Lemma fetched_snoc `{riscv_io} s insn d : forall irs a e,
  fetched s a irs e -> mem_ifetch s e = Some insn -> insn <> 0 ->
  rv_decode zero_insn insn = Some (d, true) ->
  fetched s a (irs ++ [set_pc e d]) (e +u ilen insn).
Proof.
  induction irs as [|ir irs IH]; cbn [fetched app]; intros a e Hf Hi Hn Hd.
  - subst. by exists insn, d.
  - destruct Hf as (insn' & d' & ? & ? & ? & ? & Hf). exists insn', d'. split_and!; auto.
Qed.

Section Translate.
Context `{riscv_io} `{allocator}.
Context (s : riscv).
Hypothesis Hpc : is_u32 (PC s).

(** Where the loop is when it starts another iteration. *)
Record translating (pe : Z) (acc : list rv_insn) : Prop := {
  tr_fetched : fetched s (PC s) acc pe;
  tr_branches : Forall (fun ir => insn_is_branch (opcode ir) = false) acc;
  tr_pe : is_u32 pe;
  tr_room : PC s + 2 * Z.of_nat (length acc) <= pe;
  tr_page : pe / RV_PG_SIZE = PC s / RV_PG_SIZE;
  tr_pages : Forall (fun ir => pc ir / RV_PG_SIZE = PC s / RV_PG_SIZE) acc }.

Lemma translating_small pe acc : translating pe acc -> (length acc < 2048)%nat.
Proof. intros []. unfold RV_PG_SIZE in *. mlia. Qed.

Lemma only_last_snoc acc ir :
  Forall (fun ir => insn_is_branch (opcode ir) = false) acc -> only_last_branches (acc ++ [ir]).
Proof.
  intros HF k x Hk HL. rewrite length_app in HL. cbn in HL.
  rewrite lookup_app_l in Hk by lia. by eapply Forall_lookup_1 in HF.
Qed.

Lemma finish_shape pe acc ir term bt s' b :
  finish_block s' (PC s) pe term bt (acc ++ [ir]) = Translated s' b ->
  fetched s (PC s) (acc ++ [ir]) pe -> (length acc < 2048)%nat ->
  Forall (fun ir => insn_is_branch (opcode ir) = false) acc ->
  Forall (fun ir => pc ir / RV_PG_SIZE = PC s / RV_PG_SIZE) (acc ++ [ir]) ->
  block_end s (mk_block (Z.of_nat (S (length acc))) (PC s) pe (Z.of_nat (S (length acc)))
    (acc ++ [ir]) term bt) ir ->
  block_shape s b.
Proof.
  unfold finish_block. intros E Hf HL HB HP HE.
  assert (u32 (Z.of_nat (length (acc ++ [ir]))) = Z.of_nat (S (length acc))) as En.
  { rewrite u32_small; rewrite length_app; cbn; [lia|]. unfold is_u32. lia. }
  rewrite En in E. destruct (acc ++ [ir]) as [|x l] eqn:El; [by destruct acc|].
  injection E as <-. rewrite <- El in *. split; cbn [pc_start pc_end irs n_insn cycle_cost].
  - done.
  - done.
  - rewrite length_app. cbn. split; [lia|done].
  - lia.
  - by apply only_last_snoc.
  - intros i Hi. by eapply Forall_forall in HP.
  - exists ir. by rewrite last_snoc.
Qed.

Lemma finish_same s' pe term bt acc s1 b :
  finish_block s' (PC s) pe term bt acc = Translated s1 b -> s1 = s'.
Proof. unfold finish_block. case_match; [done|]. by intros [= <- _]. Qed.

(** The block ends in front of [pe] without a branch. *)
Lemma stop_shape pe acc s' s1 b :
  translating pe acc -> finish_block s' (PC s) pe false None acc = Translated s1 b ->
  mem_ifetch s pe = Some 0 \/
  (exists insn d, mem_ifetch s pe = Some insn /\ insn <> 0 /\
     rv_decode zero_insn insn = Some (d, false)) ->
  block_shape s b.
Proof.
  intros Ht E Hs. pose proof (finish_same _ _ _ _ _ _ _ E) as ->.
  pose proof (translating_small _ _ Ht) as HL. destruct Ht as [Hf HB _ _ _ HP].
  induction acc as [|ir acc _] using rev_ind; [done|].
  rewrite length_app in HL. cbn in HL. apply Forall_app in HB as [HB1 HB2]. apply (Forall_singleton _ ir) in HB2.
  eapply (finish_shape pe acc ir); [exact E|done|lia|done|done|].
  destruct Hs as [Hs|(insn & d & H1 & H2 & H3)]; [by apply End_fetch|by eapply End_illegal].
Qed.

Lemma next_translating pe acc insn d :
  translating pe acc -> mem_ifetch s pe = Some insn -> insn <> 0 ->
  rv_decode zero_insn insn = Some (d, true) -> insn_is_branch (opcode d) = false ->
  (page_end (PC s) <=? pe +u ilen insn) = false ->
  translating (pe +u ilen insn) (acc ++ [set_pc pe d]).
Proof.
  intros [Hf HB Hpe Hr Hp HP] Hi Hn Hd Hb Hend. pose proof (ilen_bounds insn).
  apply Z.leb_gt in Hend. rewrite page_end_spec in Hend by done.
  unfold is_u32, RV_PG_SIZE, u32 in *. split.
  - by apply fetched_snoc.
  - apply Forall_app. split; [done|]. by apply Forall_singleton.
  - apply u32_range.
  - rewrite length_app. cbn. unfold u32. mlia.
  - unfold u32, RV_PG_SIZE. mlia.
  - apply Forall_app. split; [done|]. by apply Forall_singleton.
Qed.

Lemma translate_from_ok fuel : forall pe acc,
  translating pe acc -> (2048 <= fuel + length acc)%nat ->
  match translate_from fuel s (PC s) pe acc with
  | Translated _ b => block_shape s b
  | Translate_fuel => False
  | _ => True
  end.
Proof.
  induction fuel as [|fuel IH]; intros pe acc Ht Hfuel.
  { pose proof (translating_small _ _ Ht). lia. }
  cbn [translate_from]. destruct (mem_ifetch s pe) as [insn|] eqn:Ei; [|done].
  destruct (Z.eqb_spec insn 0) as [->|Hn].
  { destruct (finish_block _ _ _ _ _ _) eqn:E; try done;
      [by eapply stop_shape; eauto|by destruct acc]. }
  destruct (rv_decode zero_insn insn) as [[d [|]]|] eqn:Ed; [| |done].
  2: { destruct (SET_CAUSE_AND_TVAL_THEN_TRAP _ _ _) as [s'|]; [|done].
       destruct (finish_block _ _ _ _ _ _) eqn:E; try done; [|by destruct acc].
       eapply stop_shape; eauto 10. }
  fold (ilen insn). pose proof (translating_small _ _ Ht) as HL.
  assert (forall term bt, fetched s (PC s) (acc ++ [set_pc pe d]) (pe +u ilen insn) /\
    Forall (fun ir => pc ir / RV_PG_SIZE = PC s / RV_PG_SIZE) (acc ++ [set_pc pe d]) /\
    exists b, finish_block s (PC s) (pe +u ilen insn) term bt (acc ++ [set_pc pe d])
      = Translated s b) as HF.
  { intros term bt. split_and!.
    - apply fetched_snoc; auto. apply Ht.
    - apply Forall_app. split; [apply Ht|]. apply Forall_singleton. cbn. apply Ht.
    - unfold finish_block. destruct (acc ++ _) eqn:El; [by destruct acc|]. by eexists. }
  change (opcode (set_pc pe d)) with (opcode d).
  destruct (insn_is_branch (opcode d)) eqn:Eb.
  - destruct (insn_is_indirect_branch (opcode d)) eqn:Ex.
    + destruct (bht_alloc (PC s)); [|done]. destruct (HF false (Some bht_init)) as (H1' & H2' & b & E).
      rewrite E. eapply finish_shape; [exact E|done|done|apply Ht|done|].
      apply End_branch; [done|done|]. cbn. by rewrite Ex.
    + destruct (HF false None) as (H1' & H2' & b & E).
      rewrite E. eapply finish_shape; [exact E|done|done|apply Ht|done|].
      apply End_branch; [done|done|]. cbn. by rewrite Ex.
  - destruct (page_end (PC s) <=? _) eqn:Ep.
    + destruct (HF true None) as (H1' & H2' & b & E).
      rewrite E. eapply finish_shape; [exact E|done|done|apply Ht|done|].
      apply End_page; [done|done| |done]. by apply Z.leb_le.
    + destruct (ir_alloc _ _); [|done]. apply IH; [by apply next_translating|]. rewrite length_app. cbn. lia.
Qed.

Lemma block_translate_ok :
  match block_translate s with
  | Translated _ b => block_shape s b
  | Translate_fuel => False
  | _ => True
  end.
Proof.
  unfold block_translate. destruct (ir_alloc _ _); [|done]. apply translate_from_ok; [|cbn; lia].
  split; cbn; auto; lia.
Qed.
End Translate.

(** C16: translation.  [block_translate] always ends (a page holds at most 2048
    instructions).  When it succeeds the block starts at [rv->PC] and holds the decoded
    instructions fetched at consecutive addresses from there; all of them start in one
    4 KiB page, only the last can be a branch, the counters are their number, and the loop
    stopped for one of the four documented reasons: a branch, the page boundary, a zero
    fetch, or an illegal instruction. *)
Theorem block_translate_correct `{riscv_io} `{allocator} s :
  is_u32 (PC s) ->
  block_translate s <> Translate_fuel /\
  forall s' b, block_translate s = Translated s' b -> block_shape s b.
Proof.
  intros Hpc. pose proof (block_translate_ok s Hpc) as HT. split.
  - intros E. by rewrite E in HT.
  - intros s' b E. by rewrite E in HT.
Qed.

(** A program in ROM at 0x100: [addi x1,x0,5; addi x2,x1,-1; add x3,x1,x2; lui x4,1;
    addi x4,x4,-1; ecall]. *)
Definition rom (a : Z) : Z :=
  match a with
  | 0x100 => 0x00500093 | 0x104 => 0xfff08113 | 0x108 => 0x002081b3
  | 0x10c => 0x00001237 | 0x110 => 0xfff20213 | 0x114 => 0x00000073 | _ => 0
  end.
Definition rom_io : riscv_io :=
  {| mem_ifetch _ a := Some (rom a); on_ecall s := Some s; on_ebreak s := Some s;
     on_trap s := Some s; rv_gettimeofday _ := (0, 0) |}.
Definition alloc_all : allocator :=
  {| ir_alloc _ _ := true; bht_alloc _ := true; block_alloc _ := true; fuse_alloc _ _ := true |}.
Definition rom_state : riscv := set_PC 0x100 (reset_state ∅ 4096).
Definition rom_block : block_t :=
  mk_block 6 0x100 0x118 6
    [ mk_insn 5 1 0 0 rv_insn_addi 0 0 0 [] 0x100 None None;
      mk_insn (-1) 2 1 0 rv_insn_addi 0 0 0 [] 0x104 None None;
      mk_insn 0 3 1 2 rv_insn_add 0 0 0 [] 0x108 None None;
      mk_insn 0x1000 4 0 0 rv_insn_lui 0 0 0 [] 0x10c None None;
      mk_insn (-1) 4 4 0 rv_insn_addi 0 0 0 [] 0x110 None None;
      mk_insn 0 0 0 0 rv_insn_ecall 0 0 0 [] 0x114 None None ] false None.
Lemma rom_translates : @block_translate rom_io alloc_all rom_state = Translated rom_state rom_block.
Proof. reflexivity. Qed.
Lemma block_translate_correct_witness : @block_shape rom_io rom_state rom_block.
Proof.
  destruct (@block_translate_correct rom_io alloc_all rom_state) as [_ HT].
  { unfold is_u32. cbn. lia. }
  exact (HT rom_state rom_block rom_translates).
Defined.
