(* ===== verification/StepProofs.v ===== *)
(** Running a translated block against executing its instructions one at a time
    ([rv_step_debug]): inside a block the interpreter keeps the program counter and the
    cycle count in arguments and writes them back when it leaves; the single-step loop
    writes them back after every instruction. *)

From S2P Require Import Prelude.
From S2P Require Import Opcode.
From S2P Require Import Decode.
From S2P Require Import Machine.
From S2P Require Import Interp.
From S2P Require Import Constopt.
From S2P Require Import MachineFacts.
From S2P Require Import Invariant.
From S2P Require Import ConstoptProofs.
From S2P Require Import DecodeProofs.
From S2P Require Import Fusion.
From S2P Require Import FusionProofs.
From S2P Require Import Block.
From S2P Require Import BlockMapProofs.
From S2P Require Import BlockProofs.

(** * States with another [PC] and [csr_cycle] *)

Definition late (p c : Z) (s : riscv) : riscv := set_PC p (set_csr_cycle c s).

(** The host clock does not look at the two fields. *)
Class clock_law `{riscv_io} : Prop :=
  clock_late p c s : rv_gettimeofday (late p c s) = rv_gettimeofday s.

Section Late.
Context (p c : Z) (s : riscv).

Lemma late_id : late (PC s) (csr_cycle s) s = s.
Proof. by destruct s. Qed.
Lemma late_over q d : set_PC q (set_csr_cycle d (late p c s)) = set_PC q (set_csr_cycle d s).
Proof. done. Qed.
Lemma reg_late r : reg (late p c s) r = reg s r.
Proof. done. Qed.
Lemma freg_late r : freg (late p c s) r = freg s r.
Proof. done. Qed.
Lemma csr_late f : csr (late p c s) f = csr s f.
Proof. done. Qed.
Lemma rounding_late : softfloat_roundingMode (late p c s) = softfloat_roundingMode s.
Proof. done. Qed.
Lemma flags_late : softfloat_exceptionFlags (late p c s) = softfloat_exceptionFlags s.
Proof. done. Qed.
Lemma set_reg_late r v : set_reg r v (late p c s) = late p c (set_reg r v s).
Proof. done. Qed.
Lemma set_freg_late r v : set_freg r v (late p c s) = late p c (set_freg r v s).
Proof. done. Qed.
Lemma set_csr_late f v : set_csr f v (late p c s) = late p c (set_csr f v s).
Proof. done. Qed.
Lemma set_compressed_late b : set_compressed b (late p c s) = late p c (set_compressed b s).
Proof. done. Qed.
Lemma set_taken_late b :
  set_is_branch_taken b (late p c s) = late p c (set_is_branch_taken b s).
Proof. done. Qed.
Lemma set_last_late v : set_last_pc v (late p c s) = late p c (set_last_pc v s).
Proof. done. Qed.
Lemma raise_late fl : raise_flags fl (late p c s) = late p c (raise_flags fl s).
Proof. done. Qed.
Lemma link_late v ir : link v ir (late p c s) = late p c (link v ir s).
Proof. unfold link. by case_match. Qed.
Lemma read_w_late a : ram_read_w (late p c s) a = ram_read_w s a.
Proof. done. Qed.
Lemma read_s_late a : ram_read_s (late p c s) a = ram_read_s s a.
Proof. done. Qed.
Lemma read_b_late a : ram_read_b (late p c s) a = ram_read_b s a.
Proof. done. Qed.
Lemma write_w_late a v : ram_write_w (late p c s) a v = late p c <$> ram_write_w s a v.
Proof. unfold ram_write_w. cbn [mem late set_PC set_csr_cycle]. by destruct (mem_write _ _ _ _). Qed.
Lemma write_s_late a v : ram_write_s (late p c s) a v = late p c <$> ram_write_s s a v.
Proof. unfold ram_write_s. cbn [mem late set_PC set_csr_cycle]. by destruct (mem_write _ _ _ _). Qed.
Lemma write_b_late a v : ram_write_b (late p c s) a v = late p c <$> ram_write_b s a v.
Proof. unfold ram_write_b. cbn [mem late set_PC set_csr_cycle]. by destruct (mem_write _ _ _ _). Qed.
Lemma round_late m : set_rounding_mode m (late p c s) = late p c <$> set_rounding_mode m s.
Proof. unfold set_rounding_mode. rewrite csr_late. by repeat case_match. Qed.
End Late.

Lemma fflag_late p c s : set_fflag (late p c s) = late p c (set_fflag s).
Proof.
  unfold set_fflag. rewrite flags_late. repeat case_match; by rewrite ?csr_late, ?set_csr_late.
Qed.

Create Rewrite HintDb late.
#[export] Hint Rewrite late_over reg_late freg_late csr_late rounding_late flags_late
  set_reg_late set_freg_late set_csr_late set_compressed_late set_taken_late set_last_late
  raise_late link_late read_w_late read_s_late read_b_late write_w_late write_s_late
  write_b_late round_late fflag_late : late.

(** CSR accesses: those that look at the cycle count synchronise it first. *)
Lemma csr_shape `{riscv_io} a :
  exists (tu sy : bool) ptr,
    (forall s, csr_get_ptr s a = (if tu then update_time s else s, ptr)) /\
    (forall s cycle, csr_sync_cycle s a cycle = if sy then set_csr_cycle cycle s else s) /\
    (ptr = Some Cycle_lo \/ ptr = Some Cycle_hi -> sy = true).
Proof.
  assert (forall s cycle, (if negb (csr_cycle s =? cycle) then set_csr_cycle cycle s else s)
    = set_csr_cycle cycle s) as Hs.
  { intros s cycle. destruct (Z.eqb_spec (csr_cycle s) cycle) as [<-|]; [|done].
    by destruct s. }
  unfold csr_get_ptr, csr_sync_cycle.
  destruct (a &u 0xfff) as [|q|q].
  2: repeat match goal with
  | |- exists _ _ _, (forall s, match ?q with _ => _ end = _) /\ _ => destruct q
  end.
  all: first
    [ eexists false, false, _; split_and!; [done|done|by intros [?|?]]
    | eexists false, true, _; split_and!; [done|exact Hs|done]
    | eexists true, true, _; split_and!; [done|exact Hs|done] ].
Qed.

Lemma csr_access_late `{clock_law} upd p c s a cycle :
  exists c', csr_access upd (late p c s) a cycle
    = (late p c' (fst (csr_access upd s a cycle)), snd (csr_access upd s a cycle)).
Proof.
  assert (forall c1 t, update_time (late p c1 t) = late p c1 (update_time t)) as Hu.
  { intros c1 t. unfold update_time. rewrite clock_late. by destruct (rv_gettimeofday t). }
  assert (forall t, set_PC p t = late p (csr_cycle t) t) as Hid by (by intros []).
  destruct (csr_shape a) as (tu & sy & ptr & Hg & Hsy & Hc). unfold csr_access.
  rewrite !Hsy, !Hg. destruct sy.
  - change (set_csr_cycle cycle (late p c s)) with (set_PC p (set_csr_cycle cycle s)).
    set (t := set_csr_cycle cycle s). rewrite Hid.
    assert ((if tu then update_time (late p (csr_cycle t) t) else late p (csr_cycle t) t)
      = late p (csr_cycle (if tu then update_time t else t)) (if tu then update_time t else t))
      as ->.
    { destruct tu; [|done]. rewrite Hu. f_equal. unfold update_time.
      by destruct (rv_gettimeofday t). }
    set (t' := if tu then update_time t else t). rewrite <- Hid.
    destruct ptr as [[f| |]|]; cbn [fst snd csr_store csr_load];
      [eexists (csr_cycle t')|eexists|eexists|eexists (csr_cycle t')]; rewrite <- ?Hid; try done.
  - destruct ptr as [[f| |]|]; [|by specialize (Hc (or_introl eq_refl))
      |by specialize (Hc (or_intror eq_refl))|]; exists c; cbn [fst snd csr_store csr_load];
      destruct tu; rewrite ?Hu, ?set_csr_late, ?csr_late; done.
Qed.

(** * One instruction *)

(** Two ways of leaving a handler that differ at most in the two fields; a handler that
    returns has written both. *)
Definition late_out (p : Z) (o' o : outcome) : Prop :=
  match o', o with
  | Nextop t' q', Nextop t q | End_op t' q', End_op t q | Indirect t' q', Indirect t q =>
    q' = q /\ exists c, t' = late p c t
  | Tail l' t' q', Tail l t q => l' = l /\ q' = q /\ exists c, t' = late p c t
  | Return b' t', Return b t => b' = b /\ t' = t
  | Undef, Undef => True
  | _, _ => False
  end.

(** Handlers that return to the main loop without storing the cycle count. *)
Definition drops_cycle (o : opcode_t) : bool :=
  match o with rv_insn_mret | rv_insn_uret | rv_insn_hret => true | _ => false end.

Lemma misalign_late `{riscv_io} p c mask cause b s cycle pc a k' k :
  late_out p k' k ->
  late_out p (RV_EXC_MISALIGN_HANDLER mask cause b (late p c s) cycle pc a k')
    (RV_EXC_MISALIGN_HANDLER mask cause b s cycle pc a k).
Proof.
  intros Hk. unfold RV_EXC_MISALIGN_HANDLER.
  change (allow_misalign (late p c s)) with (allow_misalign s).
  case_match; [|done]. rewrite set_compressed_late, late_over. by case_match.
Qed.
Lemma csr_late_out `{clock_law} upd p c s a cycle ir pc :
  late_out p (csr_wr_rd (csr_access upd (late p c s) a cycle) ir pc)
    (csr_wr_rd (csr_access upd s a cycle) ir pc).
Proof.
  destruct (csr_access_late upd p c s a cycle) as [c' ->].
  destruct (csr_access upd s a cycle) as [t v]. split; [done|]. by exists c'.
Qed.

Lemma minmax_late `{riscv_io} `{softfloat} x y z p c s ir pc :
  late_out p (fp_minmax x y z (late p c s) ir pc) (fp_minmax x y z s ir pc).
Proof.
  unfold fp_minmax. rewrite !freg_late.
  destruct (_ || _), (f32_lt_quiet x y) as [[|] fl];
    try destruct (f32_eq _ _) as [eq fl']; cbn [late_out]; autorewrite with late; eauto.
Qed.

Lemma body_late `{clock_law} `{softfloat} o p c s ir cycle pc :
  drops_cycle o = false ->
  late_out p (insn_body o (late p c s) ir cycle pc) (insn_body o s ir cycle pc).
Proof.
  intros Hd. destruct o; try discriminate Hd; cbn [insn_body]; try exact I;
    match goal with |- late_out _ ?f _ => let h := head_of f in unfold h end.
  all: try (unfold csr_csrrw, csr_csrrs, csr_csrrc; rewrite ?reg_late; apply csr_late_out).
  all: try (rewrite ?freg_late; apply minmax_late).
  all: body_unfold; unfold fp_op; cbv zeta; autorewrite with late.
  all: repeat match goal with
    | |- late_out _ (RV_EXC_MISALIGN_HANDLER _ _ _ _ _ _ _ _) _ => apply misalign_late
    | |- late_out _ (match _ <$> ?e with _ => _ end) _ =>
      destruct e; cbn [fmap option_fmap option_map]; autorewrite with late
    | |- late_out _ (match ?e with _ => _ end) _ => destruct e; autorewrite with late
    end; autorewrite with late; cbn [late_out]; try exact I; eauto.
Qed.

(** The state the main loop sees when a run is left, an indirect jump whose target block
    is not known included. *)
Definition leave (r : step_result) : option riscv :=
  match r with
  | Ret _ s => Some s
  | Go_next s c p | Go_indirect s c p => Some (late p c s)
  | Go_ir _ _ _ _ | Crash => None
  end.

Lemma end_op_unlinked ir s cycle pc :
  unlinked ir -> end_op ir s cycle pc = Ret true (late pc cycle s).
Proof. intros [Hu _]. unfold end_op. rewrite Hu. by case_match. Qed.

(** Executing an unlinked IR alone, with the fields written back, or inside a block. *)
Lemma do_insn_late `{clock_law} `{softfloat} n p c s ir cycle pc :
  drops_cycle (opcode ir) = false -> unlinked ir ->
  leave (do_insn false (late p c s) ir cycle pc) = leave (do_insn n s ir cycle pc).
Proof.
  intros Hd Hu. unfold do_insn, RVOP.
  pose proof (body_late (opcode ir) p c s ir (u64 (cycle + 1)) pc Hd) as HL.
  destruct (insn_body _ (late _ _ _) _ _ _), (insn_body _ s _ _ _); cbn [late_out] in HL;
    try done.
  - destruct HL as [-> [c' ->]]. rewrite !end_op_unlinked by done. by destruct n.
  - destruct HL as [-> [c' ->]]. by rewrite !end_op_unlinked.
  - by destruct HL as [-> [c' ->]].
  - by destruct HL as [-> ->].
Qed.

(** * A block *)

Fixpoint steps `{riscv_io} `{softfloat} (n : nat) (s : riscv) : option riscv :=
  match n with
  | O => Some s
  | S n => s ← debug_insn s; steps n s
  end.

(** The instructions of a block are not modified while it runs: at the beginning of each
    of the single steps a fetch still gives what it gave at translation time. *)
Definition code_stable `{riscv_io} `{softfloat} (s0 : riscv) (irs : list rv_insn) (t : riscv)
  : Prop :=
  forall k t', (k < length irs)%nat -> steps k t = Some t' ->
    forall ir, ir ∈ irs -> mem_ifetch t' (pc ir) = mem_ifetch s0 (pc ir).

Section Block_steps.
Context `{clock_law} `{softfloat}.

Lemma zero_fresh : fresh zero_insn.
Proof. done. Qed.

Lemma debug_insn_decoded t insn d :
  mem_ifetch t (PC t) = Some insn -> insn <> 0 -> rv_decode zero_insn insn = Some (d, true) ->
  unlinked d -> is_fuse (opcode d) = false ->
  debug_insn t = leave (do_insn false t (set_pc (PC t) d) (csr_cycle t) (PC t)).
Proof.
  intros Hi Hn Hd Hu Hf. unfold debug_insn. rewrite Hi. cbn [mbind option_bind].
  rewrite (proj2 (Z.eqb_neq _ _) Hn), Hd. cbn [mbind option_bind negb].
  rewrite dispatch_insn by done. unfold do_insn, RVOP.
  destruct (insn_body _ _ _ _ _); rewrite ?end_op_unlinked by done; done.
Qed.

Lemma fetched_decoded s a irs e :
  fetched s a irs e -> Forall (fun ir => exists len, decoded len ir) irs.
Proof.
  revert a. induction irs as [|ir irs IH]; intros a HF; [constructor|].
  destruct HF as (insn & d & _ & _ & Hd & -> & HF). constructor; [|by eapply IH].
  pose proof (rv_decode_ok zero_insn insn zero_fresh) as D. rewrite Hd in D.
  exists (if is_compressed insn then 2 else 4). destruct D as [[] ? ? ? ? ?].
  split; [split|..]; done.
Qed.

Lemma only_last_cons ir irs : only_last_branches (ir :: irs) -> only_last_branches irs.
Proof. intros HB. change irs with (drop 1 (ir :: irs)). by apply only_last_drop. Qed.

Lemma run_steps s0 irs : forall a e s cycle,
  irs <> [] -> fetched s0 a irs e -> only_last_branches irs ->
  Forall (fun ir => drops_cycle (opcode ir) = false) irs ->
  code_stable s0 irs (late a cycle s) ->
  exists n, (1 <= n <= length irs)%nat /\
    steps n (late a cycle s) = leave (run_irs do_insn irs s cycle a).
Proof.
  induction irs as [|ir irs IH]; intros a e s cycle HN HF HB HD HS; [done|].
  destruct HF as (insn & d & Hi & Hn & Hd & -> & HF). clear HN.
  inversion HD as [|?? Hd1 Hd2]; subst.
  pose proof (rv_decode_ok zero_insn insn zero_fresh) as D. rewrite Hd in D. cbn in D.
  fold (ilen insn) in D.
  assert (debug_insn (late a cycle s) = leave (do_insn (more irs) s (set_pc a d) cycle a)) as E1.
  { rewrite (debug_insn_decoded _ insn d); [|..|apply D|apply D]; try done.
    - cbn [PC late set_PC csr_cycle set_csr_cycle]. apply do_insn_late; [done|apply D].
    - rewrite <- Hi. apply (HS 0%nat (late a cycle s) ltac:(cbn; lia) eq_refl (set_pc a d)).
      apply list_elem_of_here. }
  rewrite run_cons. destruct irs as [|ir2 irs].
  { exists 1%nat. split; [cbn; lia|]. cbn [steps]. rewrite E1. cbn [more continue].
    destruct (do_insn _ _ _ _ _) eqn:E2; cbn; try done.
    exfalso. revert E2. unfold do_insn, RVOP. destruct (insn_body _ _ _ _ _); try done;
      by rewrite end_op_unlinked by apply D. }
  assert (insn_is_branch (opcode d) = false) as Hb.
  { apply (HB 0%nat (set_pc a d)); [done|cbn; lia]. }
  destruct (do_insn (more (ir2 :: irs)) s (set_pc a d) cycle a) as [s' c' p'| | | |] eqn:E2;
    try (exists 1%nat; split; [cbn; lia|]; cbn [steps]; rewrite E1; done).
  cbn [continue leave] in *. apply do_insn_Go_next in E2 as (_ & _ & -> & _).
  assert (insn_len (opcode (set_pc a d)) = ilen insn) as El.
  { apply D. intros Eb. by rewrite Eb in Hb. }
  rewrite El in *.
  destruct (IH (a +u ilen insn) e s' c') as (n & Hn' & En); [done|done| |done| |].
  - by eapply only_last_cons.
  - intros k t' Hk Ht ir Hir. eapply (HS (S k) t'); [cbn in *; lia| |by apply list_elem_of_further].
    cbn [steps]. by rewrite E1.
  - exists (S n). split; [cbn in *; lia|]. cbn [steps]. by rewrite E1.
Qed.
End Block_steps.

(** * Through the passes *)

(** Instructions the passes treat correctly: no [sc.w], whose destination the folder takes
    for unchanged; none that writes [x0]; none that returns without storing the cycle
    count. *)
Record supported (ir : rv_insn) : Prop := {
  sup_scw : opcode ir <> rv_insn_scw;
  sup_clock : drops_cycle (opcode ir) = false;
  sup_zero : keeps_zero ir }.

Lemma supported_opt_ok len ir : decoded len ir -> supported ir -> opt_ok ir.
Proof.
  intros D [Hs _ Hz]. eapply decoded_opt_ok; [done|done|]. intros Ec E0.
  unfold keeps_zero in Hz. rewrite Ec in Hz. cbn in Hz. rewrite E0 in Hz.
  by specialize (Hz eq_refl).
Qed.

Lemma rewritten_fusable len ir ir' :
  rewritten ir ir' -> decoded len ir -> supported ir -> fusable ir'.
Proof.
  intros R D Hs. pose proof (supported_opt_ok _ _ D Hs) as Ho.
  destruct D as [Hwf Hu _ _ _ Hf]. destruct R as [|o r v Ho' Hd Hg Hn Hb|i Hi Hc|i Hi Hc].
  - split; [done..|apply Hs].
  - pose proof (dest_is_reg _ _ _ Hwf Hd) as Hr. destruct Hwf. split.
    + split; cbn; auto with words.
    + done.
    + by destruct Ho' as [-> | ->].
    + intros E. exfalso. eapply (opt_dest _ Ho Hg Hn). rewrite Hd.
      by destruct Ho' as [-> | ->]; cbn in E.
  - destruct Hwf. split; [split; cbn; try done; by destruct Hi as [? | ->]|done..].
  - destruct Hwf. split; [split; cbn; try done; by destruct Hi as [? | ->]|done..].
Qed.
Lemma rewritten_branch ir ir' :
  rewritten ir ir' -> insn_is_branch (opcode ir') = insn_is_branch (opcode ir).
Proof.
  intros [|o r v Ho _ _ _ Hb|i _ Hc|i _ Hc]; [done| | |].
  - rewrite Hb. by destruct Ho as [-> | ->].
  - cbn. destruct (opcode ir); done.
  - cbn. done.
Qed.

Lemma optimize_from_shape irs : forall info irs',
  optimize_from irs info = Some irs' -> Forall2 rewritten irs irs'.
Proof.
  induction irs as [|ir irs IH]; intros info irs' E; [by injection E as <-|].
  cbn in E. apply bind_Some in E as ([ir' info'] & Ei & (rest' & Er & [= <-])%bind_Some).
  constructor; [by eapply constopt_shape|by eapply IH].
Qed.

Section Passes.
Context `{riscv_io_laws} `{!clock_law} `{softfloat_laws} `{allocator}.

Lemma fetched_straight s irs : forall a e,
  fetched s a irs e -> only_last_branches irs -> Forall supported irs -> straight a irs.
Proof.
  induction irs as [|ir irs IH]; intros a e HF HB HS; [done|].
  destruct HF as (insn & d & Hi & Hn & Hd & -> & HF). inversion HS as [|?? Hs1 Hs2]; subst.
  pose proof (rv_decode_ok zero_insn insn zero_fresh) as D. rewrite Hd in D. cbn in D.
  fold (ilen insn) in D.
  assert (decoded (ilen insn) (set_pc a d)) as D'.
  { destruct D as [[] ? ? ? ? ?]. split; [split|..]; done. }
  cbn [straight]. split_and!; [done|by eapply supported_opt_ok|apply D| |].
  - intros Hne. apply (HB 0%nat (set_pc a d)); [done|]. destruct irs; [done|cbn; lia].
  - destruct irs as [|ir2 irs]; [done|].
    rewrite (dec_len _ _ D'); [by eapply IH; eauto using only_last_cons|].
    intros Eb. specialize (HB 0%nat (set_pc a d) eq_refl ltac:(cbn; lia)). by rewrite Eb in HB.
Qed.

Lemma normal_equiv r r' : r ≡ r' -> normal r' -> normal r.
Proof. unfold equiv, step_equiv. destruct r as [| | |[] |], r' as [| | |[] |]; by cbn. Qed.
Lemma erase_late p c s : erase (late p c s) = late p c (erase s).
Proof. done. Qed.
Lemma leave_equiv r r' : r ≡ r' -> erase <$> leave r = erase <$> leave r'.
Proof.
  unfold equiv, step_equiv. destruct r, r'; cbn [erase_step leave]; intros E;
    try discriminate E; try done; cbn [fmap option_fmap option_map]; f_equal;
    revert E; generalize (erase_late); generalize erase; intros er El E; rewrite ?El;
    first [by injection E as -> -> -> | by injection E as -> ->].
Qed.

(** The finished block against the instructions it was made from. *)
Lemma optimized_runs s b b' :
  block_shape s b -> optimize_block s b = Some b' -> wf s -> Forall supported (irs b) ->
  normal (run_irs do_insn (irs b) s (csr_cycle s) (PC s)) ->
  run_irs dispatch_table (irs b') s (csr_cycle s) (PC s)
  ≡ run_irs do_insn (irs b) s (csr_cycle s) (PC s).
Proof.
  intros [Est HF _ _ HB _ _] E Hs HS HN. unfold optimize_block in E. rewrite Est in HF.
  destruct (Z.eqb_spec (reg s rv_reg_zero) 0) as [Hz|]; [|done].
  apply bind_Some in E as (l & El & [= <-]). cbn [irs].
  assert (run_irs do_insn l s (csr_cycle s) (PC s)
    ≡ run_irs do_insn (irs b) s (csr_cycle s) (PC s)) as E1.
  { eapply optimize_from_sound; [exact El|by eapply fetched_straight|by apply agree_init|done|].
    apply Hs. }
  pose proof (optimize_from_shape _ _ _ El) as HR.
  rewrite <- E1. unfold match_pattern. rewrite match_from_ok; [done| | | |apply Hs|].
  - pose proof (fetched_decoded _ _ _ _ HF) as HD. clear -HR HD HS.
    induction HR as [|x y l l' Hxy HR IH]; [constructor|].
    inversion HD as [|?? [len Hlen] ?]; subst. inversion HS; subst.
    constructor; [by eapply rewritten_fusable|by apply IH].
  - intros k ir' Hk HL. destruct (Forall2_lookup_r _ _ _ _ _ HR Hk) as (ir & Hir & HX).
    rewrite (rewritten_branch _ _ HX). eapply HB; [exact Hir|].
    by rewrite (Forall2_length _ _ _ HR).
  - by split.
  - by eapply normal_equiv.
Qed.
End Passes.

(** C2: a block as translated is a sequence of single steps.  Running its IRs to the point
    where control leaves the block gives exactly the state (program counter and cycle
    count included) that between one and [n_insn] calls of the single-step function give,
    whether the block is left by its end, by a branch, by a trap in the middle or by an
    [ecall], and is undefined exactly when they are; provided the block's own code is not
    overwritten and it holds no instruction that drops the cycle count. *)
Theorem block_is_single_steps `{riscv_io} `{!clock_law} `{softfloat} `{allocator} s s' b :
  is_u32 (PC s) -> block_translate s = Translated s' b ->
  Forall (fun ir => drops_cycle (opcode ir) = false) (irs b) -> code_stable s (irs b) s ->
  exists n, 1 <= Z.of_nat n <= n_insn b /\
    steps n s = leave (run_irs do_insn (irs b) s (csr_cycle s) (PC s)).
Proof.
  intros Hpc E HD HC. pose proof (block_translate_ok s Hpc) as HT. rewrite E in HT.
  destruct HT as [Est HF [En _] Hn HB _ _]. rewrite Est in HF.
  destruct (run_steps s (irs b) (PC s) (pc_end b) s (csr_cycle s)) as (n & Hk & Er).
  - intros E0. rewrite E0 in En. cbn in En. lia.
  - done.
  - done.
  - done.
  - by rewrite late_id.
  - exists n. rewrite late_id in Er. split; [lia|done].
Qed.

(** C1: the finished block, after constant folding and macro-operation fusion, still does
    what the single-step function does: from a well-formed state its run ends in the state
    that some number of single steps reach, up to the flag [is_branch_taken], provided
    that run takes no trap, the code is not overwritten and every instruction is one the
    passes support. *)
Theorem cached_block_is_single_steps `{riscv_io_laws} `{!clock_law} `{softfloat_laws}
    `{allocator} s b b' :
  wf s -> block_translate s = Translated s b -> optimize_block s b = Some b' ->
  Forall supported (irs b) -> code_stable s (irs b) s ->
  normal (run_irs do_insn (irs b) s (csr_cycle s) (PC s)) ->
  exists n, 1 <= Z.of_nat n <= n_insn b /\
    erase <$> leave (run_irs dispatch_table (irs b') s (csr_cycle s) (PC s))
    = erase <$> steps n s.
Proof.
  intros Hs E Eo HS HC HN.
  pose proof (block_translate_ok s (wf_PC s Hs)) as HT. rewrite E in HT.
  rewrite (leave_equiv _ _ (optimized_runs s b b' HT Eo Hs HS HN)).
  destruct HT as [Est HF [En _] Hn HB _ _]. rewrite Est in HF.
  destruct (run_steps s (irs b) (PC s) (pc_end b) s (csr_cycle s)) as (n & Hk & Er).
  - intros E0. rewrite E0 in En. cbn in En. lia.
  - done.
  - done.
  - eapply Forall_impl; [exact HS|]. by intros ir [].
  - by rewrite late_id.
  - exists n. rewrite late_id in Er. rewrite Er. split; [lia|done].
Qed.

(** ** Witnesses: the program in ROM *)

Lemma rom_clock : @clock_law rom_io.
Proof. done. Qed.
Lemma rom_io_laws : @riscv_io_laws rom_io.
Proof. split; cbn; by intros s s' [= ->]. Qed.
Lemma rom_stable : @code_stable rom_io zero_softfloat rom_state (irs rom_block) rom_state.
Proof. intros k t _ _ ir _. reflexivity. Qed.
Lemma rom_state_wf : wf rom_state.
Proof. apply wf_set_PC; [apply reset_state_wf|]. unfold is_u32. lia. Qed.

Lemma block_is_single_steps_witness :
  exists n, 1 <= Z.of_nat n <= 6 /\ @steps rom_io zero_softfloat n rom_state
    = leave (run_irs (@do_insn rom_io zero_softfloat) (irs rom_block) rom_state 0 0x100).
Proof.
  apply (@block_is_single_steps rom_io rom_clock zero_softfloat alloc_all rom_state rom_state
    rom_block).
  - unfold is_u32. cbn. lia.
  - reflexivity.
  - repeat constructor.
  - apply rom_stable.
Defined.

(** What the passes make of the program: one run of constant loads, then the [ecall]. *)
Definition rom_block' : block_t := default rom_block (@optimize_block alloc_all rom_state rom_block).
Lemma cached_block_is_single_steps_witness :
  opcode <$> irs rom_block' = [rv_insn_fuse1; rv_insn_ecall] /\
  exists n, 1 <= Z.of_nat n <= 6 /\
    erase <$> leave (run_irs (@dispatch_table rom_io zero_softfloat) (irs rom_block')
                       rom_state 0 0x100)
    = erase <$> @steps rom_io zero_softfloat n rom_state.
Proof.
  split; [reflexivity|].
  apply (@cached_block_is_single_steps rom_io rom_io_laws rom_clock zero_softfloat
    zero_softfloat_laws alloc_all rom_state rom_block rom_block').
  - apply rom_state_wf.
  - reflexivity.
  - reflexivity.
  - repeat constructor; done.
  - apply rom_stable.
  - vm_compute. exact I.
Defined.
