(* ===== verification/CacheProofs.v ===== *)
(** The block cache as a whole: the map, the L1 cache, [prev], the successor links and the
    branch history tables never hold a dangling pointer, whatever [rv_step] does. *)

From S2P Require Import Prelude.
From S2P Require Import Opcode.
From S2P Require Import Decode.
From S2P Require Import Machine.
From S2P Require Import Interp.
From S2P Require Import Constopt.
From S2P Require Import MachineFacts.
From S2P Require Import Invariant.
From S2P Require Import ConstoptProofs.
From S2P Require Import DecodeProofs.
From S2P Require Import Fusion.
From S2P Require Import FusionProofs.
From S2P Require Import Trap.
From S2P Require Import Block.
From S2P Require Import BlockMapProofs.
From S2P Require Import BlockProofs.
From S2P Require Import StepProofs.

(** * The invariant *)

Definition linked (ir : rv_insn) (t : Z) : Prop :=
  branch_taken ir = Some t \/ branch_untaken ir = Some t.
Definition links_in (h : heap_t) (irs : list rv_insn) : Prop :=
  forall ir t, ir ∈ irs -> linked ir t -> is_Some (h !! t).
(** An entry of a branch history table leads to the block that starts at its tag. *)
Definition bht_in (h : heap_t) (t : branch_history_table) : Prop :=
  length (bt_PC t) = HISTORY_SIZE /\ length (bt_target t) = HISTORY_SIZE /\
  forall i l, bt_target t !! i = Some (Some l) ->
    exists b, h !! l = Some b /\ bt_PC t !! i = Some (pc_start b).
Record block_ok (h : heap_t) (b : block_t) : Prop := {
  bok_irs : irs b <> [];
  bok_links : links_in h (irs b);
  bok_bht t : branch_table b = Some t -> bht_in h t }.

Record cache_ok (v : vm) : Prop := {
  ck_map : map_ok (heap v) (block_map v);
  ck_l1 : coherent (heap v) (block_map v) (block_l1 v);
  ck_live l b : heap v !! l = Some b ->
    l < next_loc v /\ maps (heap v) (block_map v) (pc_start b) l;
  ck_prev l : prev v = Some l -> is_Some (heap v !! l);
  ck_blocks l b : heap v !! l = Some b -> block_ok (heap v) b }.

(** * Heaps with the same blocks at the same places *)

Definition same_blocks (h h' : heap_t) : Prop :=
  forall l, pc_start <$> h !! l = pc_start <$> h' !! l.

Section Same.
Context (h h' : heap_t).
Hypothesis Hsame : same_blocks h h'.

Lemma same_lookup l b : h !! l = Some b -> exists b', h' !! l = Some b' /\ pc_start b' = pc_start b.
Proof.
  intros E. specialize (Hsame l). rewrite E in Hsame. cbn in Hsame. symmetry in Hsame.
  apply fmap_Some in Hsame as (b' & ? & ?). eauto.
Qed.
Lemma same_is_Some l : is_Some (h !! l) -> is_Some (h' !! l).
Proof. intros [b Hb]. apply same_lookup in Hb as (b' & -> & _). by eexists. Qed.
Lemma maps_same m a l : maps h m a l -> maps h' m a l.
Proof.
  intros (i & b & Hi & Hb & <-). apply same_lookup in Hb as (b' & Hb' & E). by exists i, b'.
Qed.
Lemma bht_same t : bht_in h t -> bht_in h' t.
Proof.
  intros (H1 & H2 & Ht). split_and!; [done..|]. intros i l Hi.
  destruct (Ht i l Hi) as (b & Hb & E). apply same_lookup in Hb as (b' & Hb' & E').
  exists b'. split; [done|congruence].
Qed.
Lemma block_same b : block_ok h b -> block_ok h' b.
Proof.
  intros [H1 H2 H3]. split; [done| |].
  - intros ir t Hir Ht. apply same_is_Some. by eapply H2.
  - intros t Ht. by apply bht_same, H3.
Qed.
End Same.

Lemma same_sym h h' : same_blocks h h' -> same_blocks h' h.
Proof. intros Hs l. symmetry. apply Hs. Qed.
Lemma map_ok_same h h' m : same_blocks h h' -> map_ok h m -> map_ok h' m.
Proof.
  intros Hs Hm. split; try apply Hm.
  - intros i l Hi. destruct (mok_chain _ _ Hm _ _ Hi) as (b & k & Hb & Hk & E & Hj).
    destruct (same_lookup _ _ Hs _ _ Hb) as (b' & Hb' & Ep). exists b', k. by rewrite Ep.
  - intros i j l l' b b' Hi Hj Hb Hb' E.
    destruct (same_lookup _ _ (same_sym _ _ Hs) _ _ Hb) as (b1 & Hb1 & E1).
    destruct (same_lookup _ _ (same_sym _ _ Hs) _ _ Hb') as (b2 & Hb2 & E2).
    eapply (mok_unique _ _ Hm i j); eauto. congruence.
Qed.
Lemma coherent_same h h' m c : same_blocks h h' -> coherent h m c -> coherent h' m c.
Proof.
  intros Hs [H1 H2 H3]. split; [done..|]. intros i t p E1 E2. specialize (H3 _ _ _ E1 E2).
  destruct p as [l|]; cbn in *; [by eapply maps_same|]. destruct H3 as [-> H3].
  split; [done|]. intros Ei l Hl. eapply (H3 Ei l). by eapply maps_same; [apply same_sym|].
Qed.

(** Replacing a block by one at the same address. *)
Lemma same_insert h l b b' :
  h !! l = Some b -> pc_start b' = pc_start b -> same_blocks h (<[l := b']> h).
Proof.
  intros Hb E l'. destruct (decide (l = l')) as [<-|].
  - rewrite lookup_insert_eq, Hb. cbn. by rewrite E.
  - by rewrite lookup_insert_ne.
Qed.
Lemma cache_set_heap v l b b' :
  cache_ok v -> heap v !! l = Some b -> pc_start b' = pc_start b -> block_ok (heap v) b' ->
  cache_ok (set_heap (<[l := b']> (heap v)) v).
Proof.
  intros Hv Hb E Hb'. pose proof (same_insert _ _ _ _ Hb E) as Hs. split; cbn.
  - eapply map_ok_same; [done|apply Hv].
  - eapply coherent_same; [done|apply Hv].
  - intros l1 b1 H1. destruct (same_lookup _ _ (same_sym _ _ Hs) _ _ H1) as (b2 & H2 & <-).
    destruct (ck_live _ Hv _ _ H2). split; [done|]. by eapply maps_same.
  - intros l1 H1. eapply same_is_Some; [done|]. by apply Hv.
  - intros l1 b1 H1. eapply block_same; [done|]. destruct (decide (l = l1)) as [<-|].
    + rewrite lookup_insert_eq in H1. by injection H1 as <-.
    + rewrite lookup_insert_ne in H1 by done. by eapply ck_blocks.
Qed.
Lemma cache_set_rv v s : cache_ok v -> cache_ok (set_rv s v).
Proof. intros []. split; done. Qed.
Lemma cache_set_l1 v c :
  cache_ok v -> coherent (heap v) (block_map v) c -> cache_ok (set_block_l1 c v).
Proof. intros [] ?. split; done. Qed.
Lemma cache_set_prev v p :
  cache_ok v -> (forall l, p = Some l -> is_Some (heap v !! l)) -> cache_ok (set_prev p v).
Proof. intros [] ?. split; done. Qed.
Lemma maps_live h m a l : maps h m a l -> is_Some (h !! l).
Proof. intros (i & b & _ & -> & _). by eexists. Qed.

(** * Where a run can continue *)

Section Runs.
Context `{riscv_io} `{softfloat}.

Definition tail_in (ir : rv_insn) (o : outcome) : Prop :=
  match o with Tail t _ _ => linked ir t | _ => True end.
Lemma misalign_tail ir mask c b s cycle pc a k :
  tail_in ir k -> tail_in ir (RV_EXC_MISALIGN_HANDLER mask c b s cycle pc a k).
Proof. intros. unfold RV_EXC_MISALIGN_HANDLER. repeat case_match; done. Qed.
Lemma body_tail o s ir cycle pc : tail_in ir (insn_body o s ir cycle pc).
Proof.
  destruct o; cbn [insn_body]; try exact I;
    match goal with |- tail_in _ ?f => let h := head_of f in unfold h end; body_unfold;
    unfold fp_op, fp_minmax; cbv zeta;
    repeat match goal with
    | |- tail_in _ (RV_EXC_MISALIGN_HANDLER _ _ _ _ _ _ _ _) => apply misalign_tail
    | |- tail_in _ (match ?e with _ => _ end) => destruct e eqn:?
    end; cbn [tail_in]; first [exact I | by left | by right].
Qed.

Definition step_in (ir : rv_insn) (r : step_result) : Prop :=
  match r with Go_ir t _ _ _ => linked ir t | _ => True end.
Lemma end_op_in ir s cycle pc : step_in ir (end_op ir s cycle pc).
Proof. unfold end_op. repeat case_match; try done. by left. Qed.
Lemma do_insn_in n s ir cycle pc : step_in ir (do_insn n s ir cycle pc).
Proof.
  unfold do_insn, RVOP. pose proof (body_tail (opcode ir) s ir (u64 (cycle + 1)) pc) as Ht.
  destruct (insn_body _ _ _ _ _); try done; try apply end_op_in.
  destruct n; [done|apply end_op_in].
Qed.
Lemma stop_in n ir s cycle pc : step_in ir (fuse_next_or_stop n s cycle pc).
Proof. by destruct n. Qed.
Lemma fuse_end_in n ir o cycle : step_in ir (fuse_end n o cycle).
Proof. destruct o; try done. apply stop_in. Qed.
Lemma dispatch_in n s ir cycle pc : step_in ir (dispatch_table n s ir cycle pc).
Proof.
  unfold dispatch_table. destruct (opcode ir); try apply do_insn_in;
    try apply stop_in; try apply fuse_end_in.
  - unfold do_fuse3. destruct (fuse3_loop _ _ _ _); try apply fuse_end_in. apply stop_in.
  - unfold do_fuse4. destruct (fuse4_loop _ _ _ _); try apply fuse_end_in. apply stop_in.
  - unfold do_fuse5. destruct (fuse5_loop _ _); [apply stop_in|done].
  - unfold do_fuse6. by destruct (on_ecall _).
  - unfold do_fuse12. repeat case_match; try done; [by left|by right].
Qed.
Lemma run_irs_in h irs : forall s cycle pc,
  links_in h irs ->
  match run_irs dispatch_table irs s cycle pc with Go_ir t _ _ _ => is_Some (h !! t) | _ => True end.
Proof.
  induction irs as [|ir irs IH]; intros s cycle pc HL; [done|]. cbn [run_irs].
  pose proof (dispatch_in (match irs with [] => false | _ => true end) s ir cycle pc) as Hs.
  destruct (dispatch_table _ _ _ _ _); try done.
  - apply IH. intros x t Hx. apply HL. by apply list_elem_of_further.
  - eapply HL; [apply list_elem_of_here|done].
Qed.

(** * New blocks have no links *)

Lemma match_one_unlinked alloc ir rest :
  unlinked ir -> Forall unlinked rest ->
  unlinked (match_one alloc ir rest).1 /\ Forall unlinked (match_one alloc ir rest).2.
Proof.
  intros Hir Hr.
  assert (forall c o, unlinked (try_fuse_sequence alloc ir rest c o).1 /\
    Forall unlinked (try_fuse_sequence alloc ir rest c o).2) as Ht.
  { intros c o. unfold try_fuse_sequence. repeat case_match; try done. cbn. split; [done|].
    by apply Forall_drop. }
  unfold match_one. destruct (opcode ir); try done; try apply Ht;
    destruct rest as [|next rest]; try done; try apply Ht.
  all: inversion Hr as [|?? Hn Hr']; subst.
  - destruct (opcode next); try done; try apply Ht; case_match; cbn; by rewrite ?drop_0.
  - case_match; [cbn; by rewrite ?drop_0|apply Ht].
  - case_match; [cbn; by rewrite ?drop_0|]. case_match; [|apply Ht].
    cbn. rewrite drop_0. by destruct Hn.
Qed.
Lemma match_from_unlinked fuel alloc : forall i irs,
  Forall unlinked irs -> Forall unlinked (match_from fuel alloc i irs).
Proof.
  induction fuel as [|fuel IH]; intros i irs HF; [done|].
  destruct irs as [|ir [|ir2 rest]]; [done|done|]. inversion HF as [|?? H1 H2]; subst.
  cbn [match_from]. pose proof (match_one_unlinked (alloc i) ir (ir2 :: rest) H1 H2) as [H3 H4].
  destruct (match_one _ _ _) as [ir' rest']. constructor; [done|]. by apply IH.
Qed.
Lemma match_from_nil fuel alloc i irs : match_from fuel alloc i irs = [] -> irs = [].
Proof.
  destruct fuel; [done|]. destruct irs as [|ir [|ir2 rest]]; cbn; try done.
  by destruct (match_one _ _ _).
Qed.
Lemma rewritten_unlinked ir ir' : rewritten ir ir' -> unlinked ir -> unlinked ir'.
Proof. by destruct 1. Qed.

Definition new_block (a : Z) (b : block_t) : Prop :=
  pc_start b = a /\ irs b <> [] /\ Forall unlinked (irs b) /\
  (branch_table b = None \/ branch_table b = Some bht_init).

Context `{allocator}.
Lemma optimize_new s a b b' : new_block a b -> optimize_block s b = Some b' -> new_block a b'.
Proof.
  intros (Ea & Hn & Hu & Hb). unfold optimize_block. case_match; [|done].
  intros (l & El & [= <-])%bind_Some. unfold new_block. cbn.
  pose proof (optimize_from_shape _ _ _ El) as HR. split_and!; [done| | |done].
  - intros E. apply match_from_nil in E. subst l. inversion HR; subst. by destruct Hn.
  - apply match_from_unlinked. clear -HR Hu. induction HR; [constructor|].
    inversion Hu; subst. constructor; [by eapply rewritten_unlinked|by auto].
Qed.

Lemma finish_new s a e term bt acc s' b :
  finish_block s a e term bt acc = Translated s' b -> Forall unlinked acc ->
  bt = None \/ bt = Some bht_init -> new_block a b.
Proof. unfold finish_block. case_match; [done|]. by intros [= <- <-]. Qed.
Lemma translate_new fuel s a : forall e acc s' b,
  translate_from fuel s a e acc = Translated s' b -> Forall unlinked acc -> new_block a b.
Proof.
  induction fuel as [|fuel IH]; intros e acc s' b E HF; [done|]. cbn [translate_from] in E.
  destruct (mem_ifetch s e) as [insn|]; [|done].
  destruct (insn =? 0); [eapply finish_new; eauto|].
  pose proof (rv_decode_ok zero_insn insn zero_fresh) as D.
  destruct (rv_decode zero_insn insn) as [[d [|]]|]; [| |done].
  2: { destruct (SET_CAUSE_AND_TVAL_THEN_TRAP _ _ _); [eapply finish_new; eauto|done]. }
  assert (Forall unlinked (acc ++ [set_pc e d])) as HF'.
  { apply Forall_app. split; [done|]. constructor; [|constructor]. apply D. }
  repeat case_match; try done; eauto using finish_new.
Qed.
Lemma block_translate_new s s' b : block_translate s = Translated s' b -> new_block (PC s) b.
Proof. unfold block_translate. case_match; [|done]. intros E. by eapply translate_new. Qed.
End Runs.

(** * The operations *)

(** Deleting every block of the map empties the heap. *)
Lemma delete_all (cs : list (option Z)) : forall (h : heap_t) l,
  (forall b, h !! l = Some b -> Some l ∈ cs) ->
  foldr (fun c h => match c with Some l => delete l h | None => h end) h cs !! l = None.
Proof.
  induction cs as [|c cs IH]; intros h l Hl; cbn [foldr].
  - destruct (h !! l) as [b|] eqn:E; [|done]. specialize (Hl b eq_refl). by apply not_elem_of_nil in Hl.
  - destruct c as [l'|].
    + destruct (decide (l' = l)) as [->|]; [by rewrite lookup_delete_eq|].
      rewrite lookup_delete_ne by done. apply IH. intros b Hb. specialize (Hl b Hb).
      apply elem_of_cons in Hl as [[= <-]|]; done.
    + apply IH. intros b Hb. specialize (Hl b Hb). by apply elem_of_cons in Hl as [?|].
Qed.

Lemma clear_cache v :
  cache_ok v -> cache_ok (clear_if_crowded v) /\
  map_is_crowded (block_map (clear_if_crowded v)) = false /\
  rv (clear_if_crowded v) = rv v /\
  forall a, (forall l, ~ maps (heap v) (block_map v) a l) ->
    forall l, ~ maps (heap (clear_if_crowded v)) (block_map (clear_if_crowded v)) a l.
Proof.
  intros Hv. unfold clear_if_crowded. destruct (map_is_crowded (block_map v)) eqn:Ec; [|done].
  destruct (block_map_clear (heap v) (block_map v)) as [[h m] c] eqn:E.
  destruct (clear_ok _ _ _ _ _ (ck_map _ Hv) E) as [Hm Hc].
  assert (forall l, h !! l = None) as Hh.
  { intros l. unfold block_map_clear in E. injection E as <- <- <-. apply delete_all.
    intros b Hb. destruct (ck_live _ Hv _ _ Hb) as [_ (i & b' & Hi & _)].
    by eapply list_elem_of_lookup_2. }
  cbn [rv heap block_map]. split_and!.
  - split; cbn; try done; intros l b; by rewrite Hh.
  - unfold block_map_clear in E. injection E as <- <- <-. unfold map_is_crowded. cbn.
    rewrite (mok_capacity _ _ (ck_map _ Hv)). done.
  - done.
  - intros a _ l. by eapply clear_empty.
Qed.

Section Ops.
Context `{riscv_io} `{softfloat} `{allocator}.

Lemma refresh_cache v v' : cache_ok v -> refresh_prev v = Some v' -> cache_ok v'.
Proof.
  intros Hv. unfold refresh_prev. destruct (prev v) as [pl|] eqn:Ep; [|by intros [= <-]].
  intros (p & Hp & E)%bind_Some. destruct (pc_start p =? last_pc (rv v)); [by injection E as <-|].
  destruct (lookup_spec _ _ _ (last_pc (rv v)) (ck_map _ Hv) (ck_l1 _ Hv))
    as (r & c & Er & Hc & Hr). rewrite Er in E. cbn in E. injection E as <-.
  apply cache_set_prev; [by apply cache_set_l1|]. intros l ->. cbn.
  eapply maps_live. by apply Hr.
Qed.

(** A new block goes to a fresh location. *)
Lemma insert_cache v s b :
  cache_ok v -> map_is_crowded (block_map v) = false -> new_block (pc_start b) b ->
  (forall l, ~ maps (heap v) (block_map v) (pc_start b) l) ->
  exists m c, block_insert (block_map v) (block_l1 v) (pc_start b) (next_loc v) = Some (m, c) /\
    cache_ok (mk_vm s (<[next_loc v := b]> (heap v)) (next_loc v + 1) m c (prev v)
                (exit_addr v) (on_exit v)).
Proof.
  intros Hv Hroom (_ & Hn & Hu & Hb) HN.
  assert (heap v !! next_loc v = None) as Hfresh.
  { destruct (heap v !! next_loc v) eqn:E; [|done]. apply (ck_live _ Hv) in E. lia. }
  destruct (insert_spec _ _ _ b _ (ck_map _ Hv) (ck_l1 _ Hv) Hroom Hfresh HN)
    as (m & c & E & Hm & Hc & Hmaps). exists m, c. split; [done|].
  assert (forall l, is_Some (heap v !! l) -> is_Some (<[next_loc v := b]> (heap v) !! l)) as Hmono.
  { intros l. rewrite lookup_insert_is_Some'. by right. }
  split; cbn [heap block_map block_l1 next_loc prev]; [done|done| | |].
  - intros l b' Hl. destruct (decide (next_loc v = l)) as [<-|].
    + rewrite lookup_insert_eq in Hl. injection Hl as <-. split; [lia|]. apply Hmaps. by right.
    + rewrite lookup_insert_ne in Hl by done. destruct (ck_live _ Hv _ _ Hl).
      split; [lia|]. apply Hmaps. by left.
  - intros l Hl. by apply Hmono, (ck_prev _ Hv).
  - intros l b' Hl. destruct (decide (next_loc v = l)) as [<-|].
    + rewrite lookup_insert_eq in Hl. injection Hl as <-. split; [done| |].
      * intros ir t Hir Ht. eapply Forall_forall in Hu; [|exact Hir]. destruct Hu as [E1 E2].
        by destruct Ht as [Ht|Ht]; congruence.
      * intros t Ht. destruct Hb as [Hb|Hb]; [congruence|]. rewrite Hb in Ht.
        injection Ht as <-. split_and!; [done..|]. intros i l [? _]%lookup_replicate_1. done.
    + rewrite lookup_insert_ne in Hl by done. destruct (ck_blocks _ Hv _ _ Hl) as [H1' H2' H3'].
      split; [done| |].
      * intros ir t Hir Ht. by apply Hmono, (H2' ir).
      * intros t Ht. destruct (H3' t Ht) as (L1 & L2 & L3). split_and!; [done..|].
        intros i l' Hi. destruct (L3 i l' Hi) as (b2 & Hb2 & Eb2). exists b2. split; [|done].
        rewrite lookup_insert_ne; [done|]. intros <-. congruence.
Qed.

Lemma find_or_translate_cache v v' l :
  cache_ok v -> block_find_or_translate v = Some (v', l) ->
  cache_ok v' /\ forall l', l = Some l' -> is_Some (heap v' !! l').
Proof.
  intros Hv. unfold block_find_or_translate.
  destruct (lookup_spec _ _ _ (PC (rv v)) (ck_map _ Hv) (ck_l1 _ Hv)) as (r & c & Er & Hc & Hr).
  rewrite Er. cbn [mbind option_bind]. pose proof (cache_set_l1 _ _ Hv Hc) as Hv1.
  destruct r as [l1|].
  { intros [= <- <-]. split; [done|]. intros l' [= <-]. cbn. eapply maps_live. by apply Hr. }
  destruct (clear_cache _ Hv1) as (Hv2 & Hroom & Erv & Hmaps).
  set (v2 := clear_if_crowded (set_block_l1 c v)) in *.
  destruct (block_alloc (PC (rv v2))); [|by intros [= <- <-]].
  destruct (block_translate (rv v2)) as [s b|s| |] eqn:Et; try done;
    [|intros [= <- <-]; by split; [apply cache_set_rv|]].
  intros (b' & Eb & E)%bind_Some.
  pose proof (optimize_new _ _ _ _ (block_translate_new _ _ _ Et) Eb) as Hb.
  pose proof Hb as [Ea _]. rewrite <- Ea in Hb.
  destruct (insert_cache v2 s b' Hv2 Hroom Hb) as (m & c' & Ei & Hok).
  { rewrite Ea, Erv. apply Hmaps. intros l' Hl'. apply Hr in Hl'. done. }
  rewrite Ei in E. cbn in E. injection E as <- <-. split; [done|]. intros l' [= <-]. cbn.
  rewrite lookup_insert_eq. by eexists.
Qed.

Lemma link_tail_linked taken p l ir t :
  linked (link_tail taken p l ir) t -> t = l \/ linked ir t.
Proof.
  unfold link_tail. repeat case_match; try (by right); unfold linked; cbn;
    (intros [E|E]; [|by right; right]) || (intros [E|E]; [by right; left|]);
    injection E as <-; by left.
Qed.
Lemma chain_cache v v' l :
  cache_ok v -> is_Some (heap v !! l) -> chain_prev l v = Some v' ->
  cache_ok v' /\ same_blocks (heap v) (heap v').
Proof.
  intros Hv Hl. unfold chain_prev. destruct (prev v) as [pl|]; [|by intros [= <-]].
  intros (p & Hp & [= <-])%bind_Some. split; [|by eapply same_insert].
  eapply cache_set_heap; [done|done|done|]. destruct (ck_blocks _ Hv _ _ Hp) as [H1' H2' H3'].
  split; cbn [irs branch_table update_tail]; [| |done].
  - intros E. apply (f_equal length) in E. rewrite length_alter in E. cbn in E.
    by apply nil_length_inv in E.
  - intros ir t [i Hi]%list_elem_of_lookup_1 Ht. rewrite list_lookup_alter in Hi.
    case_decide.
    + apply fmap_Some in Hi as (ir0 & Hi & ->). apply link_tail_linked in Ht as [->|Ht]; [done|].
      eapply H2'; [by eapply list_elem_of_lookup_2|done].
    + eapply H2'; [by eapply list_elem_of_lookup_2|done].
Qed.

Lemma bht_cache l pc v v' r :
  cache_ok v -> lookup_or_update_bht l pc v = Some (v', r) ->
  cache_ok v' /\ same_blocks (heap v) (heap v') /\
  forall t, r = Some t -> is_Some (heap v' !! t).
Proof.
  intros Hv. unfold lookup_or_update_bht.
  intros (b & Hb & (t & Ht & E)%bind_Some)%bind_Some.
  destruct (ck_blocks _ Hv _ _ Hb) as [H1' H2' H3']. destruct (H3' t Ht) as (L1 & L2 & L3).
  set (i := Z.to_nat _) in *.
  destruct (if nth i (bt_PC t) 0 =? pc then _ else _) as [target|] eqn:Ef.
  { injection E as <- <-. split_and!; [done..|]. intros t' [= <-].
    destruct (nth i (bt_PC t) 0 =? pc); [|done]. rewrite nth_lookup in Ef.
    destruct (bt_target t !! i) as [[x|]|] eqn:Ei; cbn in Ef; try done. injection Ef as <-.
    destruct (L3 _ _ Ei) as (b' & -> & _). by eexists. }
  destruct (block_find_spec _ _ pc (ck_map _ Hv)) as (r' & Er & Hr). rewrite Er in E.
  cbn in E. destruct r' as [target|]; injection E as <- <-; [|done].
  pose proof (proj1 (Hr target) eq_refl) as Hm. destruct Hm as (j & bt & _ & Hbt & Hpc).
  assert (i < HISTORY_SIZE)%nat as Hi.
  { subst i. pose proof (land_le_r (pc >>u 2) (Z.of_nat HISTORY_SIZE - 1)).
    unfold HISTORY_SIZE in *. lia. }
  split_and!; [|by eapply same_insert|].
  - eapply cache_set_heap; [done|done|done|]. split; [done|done|].
    intros t' [= <-]. unfold bht_in. cbn [bt_PC bt_target]. rewrite !length_insert.
    split_and!; [done..|]. intros k l'. destruct (decide (k = i)) as [->|].
    + rewrite !list_lookup_insert_eq by congruence. intros [= <-]. exists bt. by rewrite Hpc.
    + rewrite !list_lookup_insert_ne by done. apply L3.
  - intros t' [= <-]. eapply same_is_Some; [by eapply same_insert|]. by eexists.
Qed.

Lemma run_chain_cache fuel : forall l cycle pc v b v',
  cache_ok v -> run_chain fuel l cycle pc v = Ran b v' ->
  cache_ok v' /\ same_blocks (heap v) (heap v').
Proof.
  induction fuel as [|fuel IH]; intros l cycle pc v b v' Hv E; [done|].
  cbn [run_chain] in E. destruct (heap v !! l) as [bl|] eqn:Hb; [|done].
  destruct (run_irs _ _ _ _ _) as [| t s c p|s c p|r s|]; try done.
  - apply IH in E; [done|by apply cache_set_rv].
  - destruct (lookup_or_update_bht _ _ _) as [[v1 [t|]]|] eqn:El; [| |done].
    + apply bht_cache in El as (Hv1 & Hs & _); [|by apply cache_set_rv].
      apply IH in E as [Hv' Hs']; [|done]. split; [done|]. intros x.
      etransitivity; [apply (Hs x)|apply Hs'].
    + apply bht_cache in El as (Hv1 & Hs & _); [|by apply cache_set_rv].
      injection E as <- <-. split; [by apply cache_set_rv|done].
  - injection E as <- <-. split; [by apply cache_set_rv|done].
Qed.

Lemma enter_cache v v' l :
  cache_ok v -> enter_block v = Some (v', l) ->
  cache_ok v' /\ forall l', l = Some l' -> is_Some (heap v' !! l').
Proof.
  intros Hv. unfold enter_block. intros (v1 & E1 & E)%bind_Some.
  pose proof (refresh_cache _ _ Hv E1) as Hv1. apply bind_Some in E as ([v2 l2] & E2 & E).
  destruct (find_or_translate_cache _ _ _ Hv1 E2) as [Hv2 Hl]. destruct l2 as [l2|];
    [|by injection E as <- <-].
  specialize (Hl _ eq_refl). apply bind_Some in E as (b & Hb & (ir & Hir & E)%bind_Some).
  apply bind_Some in E as (v3 & E3 & [= <- <-]).
  assert (cache_ok (if pc ir =? exit_addr v2 then set_on_exit true v2 else v2)) as Hv2'.
  { case_match; [|done]. destruct Hv2. split; done. }
  assert (heap (if pc ir =? exit_addr v2 then set_on_exit true v2 else v2) = heap v2) as Eh
    by (by case_match).
  apply chain_cache in E3 as [Hv3 Hs]; [|done|by rewrite Eh].
  split; [by apply cache_set_rv|]. intros l' [= <-]. cbn. eapply same_is_Some; [exact Hs|].
  by rewrite Eh.
Qed.

Lemma step_loop_cache fuel cf target : forall v v',
  cache_ok v -> step_loop fuel cf target v = Stepped v' -> cache_ok v'.
Proof.
  induction fuel as [|fuel IH]; intros v v' Hv; cbn [step_loop].
  { case_match; [done|]. by intros [= <-]. }
  destruct (_ && _); [|by intros [= <-]].
  destruct (enter_block v) as [[v1 [l|]]|] eqn:E1; [| |done].
  2: { intros [= <-]. apply cache_set_rv. by eapply enter_cache. }
  destruct (enter_cache _ _ _ Hv E1) as [Hv1 Hl]. specialize (Hl _ eq_refl).
  destruct (run_chain _ _ _ _ _) as [[|] v2| |] eqn:E2; try done.
  - apply run_chain_cache in E2 as [Hv2 Hs]; [|done]. apply IH. apply cache_set_prev; [done|].
    intros l' [= <-]. by eapply same_is_Some.
  - intros [= <-]. apply run_chain_cache in E2 as [Hv2 _]; [|done]. by apply cache_set_prev.
Qed.
End Ops.

(** The emulator after [rv_create]: an empty map and an invalid L1 cache. *)
Definition vm_init (s : riscv) (exit_addr : Z) : vm :=
  mk_vm s ∅ 0 (block_map_init BLOCK_MAP_CAPACITY_BITS) l1_reset None exit_addr false.
Lemma vm_init_ok s a : cache_ok (vm_init s a).
Proof.
  split; cbn [heap block_map block_l1 prev vm_init]; try done.
  - apply init_ok.
  - apply coherent_reset, init_empty.
Qed.

(** C15: the block cache has no dangling pointer.  From a sound cache -- every location in
    the map, the L1 cache, [prev], a successor link or a branch history table designates a
    live block that starts at the recorded address, and every live block is in the map --
    [rv_step] returns with a sound cache, through any number of translations, clearings of
    a crowded map, links, table updates and traps. *)
Theorem rv_step_keeps_cache `{riscv_io} `{softfloat} `{allocator} fuel chain_fuel n v v' :
  cache_ok v -> rv_step fuel chain_fuel n v = Stepped v' -> cache_ok v'.
Proof. unfold rv_step. apply step_loop_cache. Qed.
Definition stepped_vm (r : stepped) (v : vm) : vm := match r with Stepped v => v | _ => v end.
Lemma rv_step_keeps_cache_witness :
  let r := @rv_step rom_io zero_softfloat alloc_all 5 5 6 (vm_init rom_state 0) in
  r = Stepped (stepped_vm r (vm_init rom_state 0)) /\
  csr_cycle (rv (stepped_vm r (vm_init rom_state 0))) = 6 /\
  cache_ok (stepped_vm r (vm_init rom_state 0)).
Proof.
  cbv zeta.
  assert (exists v', @rv_step rom_io zero_softfloat alloc_all 5 5 6 (vm_init rom_state 0)
    = Stepped v' /\ csr_cycle (rv v') = 6) as (v' & E & Ec).
  { eexists. split; vm_compute; reflexivity. }
  rewrite E. split_and!; [reflexivity|exact Ec|].
  exact (@rv_step_keeps_cache rom_io zero_softfloat alloc_all 5 5 6 (vm_init rom_state 0) v'
    (vm_init_ok rom_state 0) E).
Defined.

(** * Where block execution differs from single steps *)

(** A user-mode embedder whose system calls return at once; words stored in RAM. *)
Definition plain_io : riscv_io := user_io Some (fun _ => (0, 0)).
Definition load_words (ws : list (Z * Z)) : memory_t :=
  foldl (fun m w => store_le m w.1 4 w.2) (mk_memory ∅ 4096) ws.
Definition at_pc (pc : Z) (ws : list (Z * Z)) : riscv :=
  set_PC pc (set_mem (load_words ws) (reset_state ∅ 4096)).

(** [addi x1,x0,5] and an illegal word at 0x100; the trap handler
    [addi x2,x0,1; addi x3,x0,2; ecall] at 0x200. *)
Definition illegal_state : riscv :=
  set_csr csr_mtvec 0x200
    (at_pc 0x100 [(0x100, 0x00500093); (0x104, 0x0000000b); (0x200, 0x00100113);
                  (0x204, 0x00200193); (0x208, 0x00000073)]).

(** An illegal instruction behind a legal one.  Executed one by one, [addi] completes
    and the trap records the address of the illegal word (0x104) and enters the handler at
    its first instruction (0x200).  Translating the block takes the trap while [rv->PC] is
    still the block's address, so the trap records 0x100, and the truncated block then runs
    from the handler's address: after it the emulator is at 0x204, and the handler's first
    instruction is never executed. *)
Theorem illegal_insn_skips_handler :
  (exists s, @steps plain_io zero_softfloat 2 illegal_state = Some s /\
     csr s csr_mepc = 0x104 /\ PC s = 0x200 /\ reg s 1 = 5) /\
  (exists v, @rv_step plain_io zero_softfloat alloc_all 5 5 1 (vm_init illegal_state 0)
       = Stepped v /\
     csr (rv v) csr_mepc = 0x100 /\ PC (rv v) = 0x204 /\ reg (rv v) 1 = 5 /\ reg (rv v) 2 = 0).
Proof.
  split; eexists; (split; [vm_compute; reflexivity|]); vm_compute; auto.
Qed.

(** [addi x1,x0,5; addi x2,x0,1; mret] at 0x100. *)
Definition mret_state : riscv :=
  at_pc 0x100 [(0x100, 0x00500093); (0x104, 0x00100113); (0x108, 0x30200073)].

(** [mret] returns without storing the cycle count, so a block that ends in it adds no
    cycle at all, while the instructions before it, executed one by one, are counted. *)
Theorem mret_drops_cycles :
  (csr_cycle <$> @steps plain_io zero_softfloat 3 mret_state) = Some 2 /\
  (exists b, @block_translate plain_io alloc_all mret_state = Translated mret_state b /\
     n_insn b = 3 /\
     (csr_cycle <$> leave (run_irs (@do_insn plain_io zero_softfloat) (irs b) mret_state 0 0x100))
     = Some 0).
Proof. split; [reflexivity|]. eexists. split; [reflexivity|]. split; reflexivity. Qed.

(** [lw x0,0x80(x0); ecall; addi x1,x0,5; ecall] at 0x100, and the word 7 at 0x80. *)
Definition load_x0_state : riscv :=
  at_pc 0x100 [(0x80, 7); (0x100, 0x08002003); (0x104, 0x00000073); (0x108, 0x00500093);
               (0x10c, 0x00000073)].

(** A load into [x0] stores into it: the handler does not test [rd] and the decoder
    does not turn the instruction into a [nop].  After such a program's first block [x0]
    reads as the loaded word, and translating the next block stops at the assertion
    [rv->X[0] == 0] of [optimize_constant]. *)
Theorem load_into_x0_breaks_emulator :
  exists v, @rv_step plain_io zero_softfloat alloc_all 5 5 2 (vm_init load_x0_state 0) = Stepped v /\
    reg (rv v) rv_reg_zero = 7 /\ PC (rv v) = 0x108 /\
    @rv_step plain_io zero_softfloat alloc_all 5 5 2 v = Step_undef.
Proof. eexists. split; [vm_compute; reflexivity|]. split_and!; vm_compute; reflexivity. Qed.

(** C.EBREAK at 0x100, decoded and executed. *)
Definition cebreak_state : riscv := at_pc 0x100 [(0x100, 0x9002)].

(** C.EBREAK is decoded to the four-byte [ebreak]: the default trap handler then
    resumes at 0x104, two bytes past the instruction that follows it at 0x102. *)
Theorem cebreak_resumes_too_far :
  (exists ir, rv_decode zero_insn 0x9002 = Some (ir, true) /\ opcode ir = rv_insn_ebreak) /\
  (PC <$> @steps plain_io zero_softfloat 1 cebreak_state) = Some 0x104.
Proof. split; [by eexists|reflexivity]. Qed.
