(* ===== verification/IsaProofs.v ===== *)
(** The integer instructions against their architectural definition: the RISC-V manual
    describes them by arithmetic on signed and unsigned 32-bit integers, the handlers
    compute them with C's fixed-width operators. *)

From S2P Require Import Prelude.
From S2P Require Import Opcode.
From S2P Require Import Decode.
From S2P Require Import Machine.
From S2P Require Import Interp.
From S2P Require Import MachineFacts.
From S2P Require Import Invariant.
From S2P Require Import Constopt.
From S2P Require Import ConstoptProofs.
From S2P Require Import DecodeProofs.

(** * Specification *)

Definition XLEN_MOD := 0x100000000.
(** The signed integer a register value stands for. *)
Definition signed (x : Z) : Z := if x <? 0x80000000 then x else x - XLEN_MOD.
(** The register value for an integer. *)
Definition trunc (x : Z) : Z := x mod XLEN_MOD.
Definition flag (b : bool) : Z := if b then 1 else 0.

(** The result of an instruction with operand values [a] and [b]. *)
Definition alu_spec (o : opcode_t) (a b : Z) : option Z :=
  let shamt := b mod 32 in
  match o with
  | rv_insn_add | rv_insn_addi => Some (trunc (a + b))
  | rv_insn_sub => Some (trunc (a - b))
  | rv_insn_sll | rv_insn_slli => Some (trunc (a * 2 ^ shamt))
  | rv_insn_srl | rv_insn_srli => Some (a / 2 ^ shamt)
  | rv_insn_sra | rv_insn_srai => Some (trunc (signed a / 2 ^ shamt))
  | rv_insn_slt | rv_insn_slti => Some (flag (signed a <? signed b))
  | rv_insn_sltu | rv_insn_sltiu => Some (flag (a <? b))
  | rv_insn_xor | rv_insn_xori => Some (Z.lxor a b)
  | rv_insn_or | rv_insn_ori => Some (Z.lor a b)
  | rv_insn_and | rv_insn_andi => Some (Z.land a b)
  | rv_insn_mul => Some (trunc (signed a * signed b))
  | rv_insn_mulh => Some (trunc (signed a * signed b / XLEN_MOD))
  | rv_insn_mulhsu => Some (trunc (signed a * b / XLEN_MOD))
  | rv_insn_mulhu => Some (trunc (a * b / XLEN_MOD))
  | rv_insn_div => Some (if b =? 0 then XLEN_MOD - 1 else trunc (Z.quot (signed a) (signed b)))
  | rv_insn_divu => Some (if b =? 0 then XLEN_MOD - 1 else a / b)
  | rv_insn_rem => Some (if b =? 0 then a else trunc (Z.rem (signed a) (signed b)))
  | rv_insn_remu => Some (if b =? 0 then a else a mod b)
  | rv_insn_sh1add => Some (trunc (2 * a + b))
  | rv_insn_sh2add => Some (trunc (4 * a + b))
  | rv_insn_sh3add => Some (trunc (8 * a + b))
  | rv_insn_andn => Some (Z.ldiff a b)
  | rv_insn_max => Some (if signed a <? signed b then b else a)
  | rv_insn_min => Some (if signed b <? signed a then b else a)
  | rv_insn_maxu => Some (Z.max a b)
  | rv_insn_minu => Some (Z.min a b)
  | _ => None
  end.

(** Instructions whose second operand is the immediate. *)
Definition takes_imm (o : opcode_t) : bool :=
  match o with
  | rv_insn_addi | rv_insn_slti | rv_insn_sltiu | rv_insn_xori | rv_insn_ori | rv_insn_andi
  | rv_insn_slli | rv_insn_srli | rv_insn_srai => true
  | _ => false
  end.
Definition operand2 (s : riscv) (ir : rv_insn) : Z :=
  if takes_imm (opcode ir) then u32 (imm ir) else reg s (rs2 ir).

(** * Values *)

Section Values.
Context (a b : Z).
Hypothesis Ha : is_u32 a.
Hypothesis Hb : is_u32 b.

Lemma signed_s32 : signed a = s32 a.
Proof using Ha.
  clear Hb. unfold signed, s32, XLEN_MOD, is_u32 in *. destruct (Z.ltb_spec a 0x80000000); mlia.
Qed.
Lemma land_1f x : x &u 0x1f = x mod 32.
Proof. change 0x1f with (Z.ones 5). by rewrite Z.land_ones by lia. Qed.
Lemma land_low x : u64 x &u 0xffffffff = u32 x.
Proof.
  change 0xffffffff with (Z.ones 32). rewrite Z.land_ones by lia. unfold u64, u32.
  change (2 ^ 32) with 0x100000000. mlia.
Qed.
Lemma high_half x : u32 (u64 x >>u 32) = u32 (x / XLEN_MOD).
Proof.
  rewrite Z.shiftr_div_pow2 by lia. change (2 ^ 32) with 0x100000000. unfold u64, u32, XLEN_MOD.
  mlia.
Qed.
Lemma shl_value : u32 (a <<u (b mod 32)) = trunc (a * 2 ^ (b mod 32)).
Proof. rewrite Z.shiftl_mul_pow2 by mlia. done. Qed.
Lemma truth_signed : truth (s32 b) = negb (b =? 0).
Proof using Hb.
  clear Ha. unfold truth, s32, is_u32 in *. destruct (Z.eqb_spec b 0) as [->|]; [done|].
  apply negb_true_iff, Z.eqb_neq. mlia.
Qed.

(** The overflow case of the division is the truncated quotient all the same. *)
Lemma div_value :
  (if negb (truth (s32 b)) then 0xffffffff
   else if (s32 b =? -1) && (a =? 0x80000000) then a else u32 (Z.quot (s32 a) (s32 b)))
  = (if b =? 0 then XLEN_MOD - 1 else trunc (Z.quot (s32 a) (s32 b))).
Proof.
  rewrite truth_signed, negb_involutive. destruct (b =? 0); [done|].
  destruct (_ && _) eqn:E; [|done]. apply andb_true_iff in E as [E1%Z.eqb_eq E2%Z.eqb_eq].
  rewrite E1, E2. done.
Qed.
Lemma rem_value :
  u32 (if negb (truth (s32 b)) then s32 a
       else if (s32 b =? -1) && (a =? 0x80000000) then 0 else Z.rem (s32 a) (s32 b))
  = (if b =? 0 then a else trunc (Z.rem (s32 a) (s32 b))).
Proof.
  rewrite truth_signed, negb_involutive.
  destruct (b =? 0); [rewrite u32_s32; by apply u32_small|].
  destruct (_ && _) eqn:E; [|done]. apply andb_true_iff in E as [E1%Z.eqb_eq E2%Z.eqb_eq].
  rewrite E1, E2. done.
Qed.
Lemma andn_value : a &u ~u b = Z.ldiff a b.
Proof.
  apply Z.bits_inj'. intros i Hi. rewrite Z.land_spec, Z.ldiff_spec, testbit_u32, Z.lnot_spec by lia.
  destruct (Z.ltb_spec i 32); [done|]. unfold is_u32 in Ha.
  by rewrite (testbit_above a 32) by lia.
Qed.
Lemma shr_value x : x >>u (b mod 32) = x / 2 ^ (b mod 32).
Proof. by rewrite Z.shiftr_div_pow2 by mlia. Qed.
Lemma shadd_value k : 0 <= k -> u32 (a <<u k) +u b = trunc (2 ^ k * a + b).
Proof. intros. rewrite u32_add_l, Z.shiftl_mul_pow2 by done. unfold trunc, u32. f_equal. lia. Qed.
Lemma s32_inj : s32 a = s32 b -> a = b.
Proof. unfold s32, is_u32 in *. mlia. Qed.
Lemma max_value : (if s32 a >? s32 b then a else b) = (if s32 a <? s32 b then b else a).
Proof.
  rewrite Z.gtb_ltb. destruct (Z.ltb_spec (s32 b) (s32 a)), (Z.ltb_spec (s32 a) (s32 b));
    try done; [lia|]. symmetry. apply s32_inj. lia.
Qed.
Lemma min_value : (if s32 a <? s32 b then a else b) = (if s32 b <? s32 a then b else a).
Proof.
  destruct (Z.ltb_spec (s32 b) (s32 a)), (Z.ltb_spec (s32 a) (s32 b));
    try done; [lia|]. symmetry. apply s32_inj. lia.
Qed.
Lemma maxu_value : (if a >? b then a else b) = Z.max a b.
Proof. rewrite Z.gtb_ltb. destruct (Z.ltb_spec b a); lia. Qed.
Lemma minu_value : (if a <? b then a else b) = Z.min a b.
Proof. destruct (Z.ltb_spec a b); lia. Qed.
Lemma divu_value c : (if negb (truth b) then c else a / b) = (if b =? 0 then c else a / b).
Proof. unfold truth. by rewrite negb_involutive. Qed.
Lemma remu_value : (if negb (truth b) then a else a mod b) = (if b =? 0 then a else a mod b).
Proof. unfold truth. by rewrite negb_involutive. Qed.
End Values.
Lemma u64_mul_u64 x y : u64 (u64 x * y) = u64 (x * y).
Proof. unfold u64. by rewrite Z.mul_mod_idemp_l by lia. Qed.
Lemma signed_imm i : is_s32 i -> signed (u32 i) = i.
Proof. intros Hi. rewrite signed_s32 by apply is_u32_u32. rewrite s32_u32. by apply s32_small. Qed.
Lemma imm_shamt i : i &u 0x1f = u32 i mod 32.
Proof. rewrite land_1f. unfold u32. mlia. Qed.

(** C11: the integer instructions compute what the architecture defines.  Every ALU
    instruction of RV32I and RV32M and the listed ones of Zba and Zbb falls through to the
    next instruction, changes nothing but [rd], and sets it to the architectural result of
    its operands: sums, differences, products and their high halves modulo 2^32, shifts as
    multiplication and floor division by powers of two, and truncating division with the
    defined results for division by zero and overflow. *)
Theorem alu_matches_isa `{riscv_io} `{softfloat} s ir cycle pc v :
  wf s -> wf_ir ir -> alu_spec (opcode ir) (reg s (rs1 ir)) (operand2 s ir) = Some v ->
  insn_body (opcode ir) s ir cycle pc = Nextop (set_reg (rd ir) v s) pc.
Proof.
  intros Hs Hir E. unfold operand2 in E. pose proof (wf_imm ir Hir) as Hi.
  pose proof (reg_u32 s (rs1 ir) Hs) as Ha. pose proof (reg_u32 s (rs2 ir) Hs) as Hb.
  destruct (opcode ir) eqn:Eo; cbn [alu_spec takes_imm] in E; try discriminate E;
    cbn [insn_body]; injection E as <-;
    match goal with |- ?f = _ => let h := head_of f in unfold h end;
    unfold shift_func, wr_rd; rewrite ?Eo; cbn [shift_value]; cbv zeta; do 2 f_equal.
  all: rewrite ?signed_imm, ?signed_s32 by done; try done.
  all: rewrite ?(imm_shamt (imm ir)), ?u64_mul_u64, ?land_low, ?high_half; try done.
  all: rewrite ?(land_1f (reg _ _)).
  all: first
    [ symmetry; apply u32_add_r
    | by apply shl_value | by apply shr_value | by rewrite shr_value
    | by apply andn_value | by apply max_value | by apply min_value | by apply maxu_value
    | by apply minu_value | by apply (shadd_value _ _ 1) | by apply (shadd_value _ _ 2)
    | by apply (shadd_value _ _ 3) | by apply div_value | by apply rem_value
    | by apply divu_value | by apply remu_value ].
Qed.
Lemma alu_matches_isa_witness :
  insn_body (H := quiet_io) (H0 := zero_softfloat) rv_insn_div
    (set_reg 2 0xffffffff (set_reg 1 0x80000000 (reset_state ∅ 4096)))
    (set_opcode rv_insn_div (set_rs2 2 (set_rs1 1 (set_rd 3 zero_insn)))) 0 0
  = Nextop (set_reg 3 0x80000000
      (set_reg 2 0xffffffff (set_reg 1 0x80000000 (reset_state ∅ 4096)))) 0.
Proof.
  apply (@alu_matches_isa quiet_io zero_softfloat
    (set_reg 2 0xffffffff (set_reg 1 0x80000000 (reset_state ∅ 4096)))
    (set_opcode rv_insn_div (set_rs2 2 (set_rs1 1 (set_rd 3 zero_insn)))) 0 0).
  - repeat apply wf_set_reg; [apply reset_state_wf|unfold is_u32; lia..].
  - split; cbn; unfold is_reg, is_s32, N_RV_REGS; lia.
  - reflexivity.
Defined.

(** * Compressed instructions *)

(** The 32-bit instruction an RVC instruction expands to. *)
Definition expand (ir : rv_insn) : option rv_insn :=
  match opcode ir with
  | rv_insn_caddi4spn => Some (set_opcode rv_insn_addi (set_rs1 rv_reg_sp ir))
  | rv_insn_caddi | rv_insn_caddi16sp => Some (set_opcode rv_insn_addi (set_rs1 (rd ir) ir))
  | rv_insn_cli => Some (set_opcode rv_insn_addi (set_rs1 rv_reg_zero ir))
  | rv_insn_clui => Some (set_opcode rv_insn_lui ir)
  | rv_insn_csrli => Some (set_opcode rv_insn_srli (set_imm (shamt ir) (set_rd (rs1 ir) ir)))
  | rv_insn_csrai => Some (set_opcode rv_insn_srai (set_imm (shamt ir) (set_rd (rs1 ir) ir)))
  | rv_insn_candi => Some (set_opcode rv_insn_andi (set_rd (rs1 ir) ir))
  | rv_insn_csub => Some (set_opcode rv_insn_sub ir)
  | rv_insn_cxor => Some (set_opcode rv_insn_xor ir)
  | rv_insn_cor => Some (set_opcode rv_insn_or ir)
  | rv_insn_cand => Some (set_opcode rv_insn_and ir)
  | rv_insn_cslli => Some (set_opcode rv_insn_slli (set_rs1 (rd ir) ir))
  | rv_insn_cmv => Some (set_opcode rv_insn_add (set_rs1 rv_reg_zero ir))
  | rv_insn_cadd => Some (set_opcode rv_insn_add ir)
  | rv_insn_cj => Some (set_opcode rv_insn_jal (set_rd rv_reg_zero ir))
  | rv_insn_cbeqz => Some (set_opcode rv_insn_beq (set_rs2 rv_reg_zero ir))
  | rv_insn_cbnez => Some (set_opcode rv_insn_bne (set_rs2 rv_reg_zero ir))
  | rv_insn_clw => Some (set_opcode rv_insn_lw ir)
  | rv_insn_clwsp => Some (set_opcode rv_insn_lw (set_rs1 rv_reg_sp ir))
  | rv_insn_csw => Some (set_opcode rv_insn_sw ir)
  | rv_insn_cswsp => Some (set_opcode rv_insn_sw (set_rs1 rv_reg_sp ir))
  | rv_insn_cflw => Some (set_opcode rv_insn_flw ir)
  | rv_insn_cflwsp => Some (set_opcode rv_insn_flw (set_rs1 rv_reg_sp ir))
  | rv_insn_cfsw => Some (set_opcode rv_insn_fsw ir)
  | rv_insn_cfswsp => Some (set_opcode rv_insn_fsw (set_rs1 rv_reg_sp ir))
  | _ => None
  end.

(** The operand ranges of the encodings; a shift amount of 32 or more is not legal in
    RV32. *)
Definition rvc_operands (ir : rv_insn) : Prop :=
  match opcode ir with
  | rv_insn_caddi4spn => 0 <= imm ir < 0x400
  | rv_insn_caddi => -0x20 <= imm ir < 0x20
  | rv_insn_csrli | rv_insn_csrai => 0 <= shamt ir < 32
  | rv_insn_cslli => 0 <= imm ir
  | _ => True
  end.

(** The loop of C.SRAI is the arithmetic shift. *)
Lemma csrai_bits x n j : 0 <= j < 32 ->
  Z.testbit (foldl (fun v i => v |u ((0x80000000 &u x) >>u Z.of_nat i)) (x >>u Z.of_nat n)
               (seq 0 n)) j
  = Z.testbit x (j + Z.of_nat n) || ((31 - Z.of_nat n <? j) && Z.testbit x 31).
Proof.
  intros Hj.
  assert (forall v k, Z.testbit (foldl (fun v i => v |u ((0x80000000 &u x) >>u Z.of_nat i)) v
      (seq 0 k)) j = Z.testbit v j || ((31 - Z.of_nat k <? j) && Z.testbit x 31)) as Hk.
  { intros v k. induction k as [|k IH].
    - cbn [seq foldl]. destruct (Z.ltb_spec (31 - Z.of_nat 0) j); [lia|]. by rewrite orb_false_r.
    - rewrite seq_S, foldl_app. cbn [foldl]. rewrite Z.lor_spec, IH, Z.shiftr_spec by lia.
      change 0x80000000 with (2 ^ 31). rewrite Z.land_spec, Z.pow2_bits_eqb by lia.
      destruct (Z.ltb_spec (31 - Z.of_nat k) j), (Z.ltb_spec (31 - Z.of_nat (S k)) j),
        (Z.eqb_spec 31 (j + Z.of_nat (0 + k))) as [E|]; try lia; cbn [andb]; try (rewrite <- E);
        rewrite ?orb_false_r; try done; by destruct (Z.testbit v j), (Z.testbit x 31). }
  rewrite Hk, Z.shiftr_spec by lia. done.
Qed.
Lemma csrai_value x n : is_u32 x -> 0 <= n < 32 ->
  foldl (fun v i => v |u ((0x80000000 &u x) >>u Z.of_nat i)) (x >>u n) (seq 0 (Z.to_nat n))
  = u32 (s32 x >>u (n &u 0x1f)).
Proof.
  intros Hx Hn. rewrite land_1f, Z.mod_small by lia.
  assert (is_u32 (foldl (fun v i => v |u ((0x80000000 &u x) >>u Z.of_nat i)) (x >>u n)
    (seq 0 (Z.to_nat n)))) as Hu.
  { apply foldl_u32; [apply shiftr_u32; [done|lia]|]. intros v i Hv _. apply lor_u32; [done|].
    apply shiftr_u32; [|lia]. apply land_u32. unfold is_u32. lia. }
  apply (bits_inj_below 32).
  - intros i Hi. rewrite <- (Z2Nat.id n) at 1 by lia. rewrite csrai_bits by lia.
    rewrite Z2Nat.id by lia. rewrite testbit_u32, Z.shiftr_spec by lia.
    destruct (Z.ltb_spec (Z.of_nat i) 32); [|lia]. cbn [andb].
    destruct (Z.lt_ge_cases (Z.of_nat i + n) 31).
    + rewrite testbit_s32 by lia. destruct (Z.ltb_spec (31 - n) (Z.of_nat i)); [lia|].
      by rewrite orb_false_r.
    + rewrite testbit_s32_sign by lia.
      destruct (Z.eq_dec (Z.of_nat i + n) 31) as [E31|]; [rewrite E31|].
      * destruct (Z.ltb_spec (31 - n) (Z.of_nat i)); [lia|]. by rewrite orb_false_r.
      * unfold is_u32 in Hx. rewrite (testbit_above x 32) by lia.
        by destruct (Z.ltb_spec (31 - n) (Z.of_nat i)); [|lia].
  - intros i Hi. unfold is_u32 in Hu. rewrite (testbit_above _ 32) by lia.
    rewrite testbit_u32 by lia. by destruct (Z.ltb_spec i 32); [lia|].
Qed.

(** The access does not trap. *)
Definition access_ok (s : riscv) (x : rv_insn) : bool :=
  match opcode x with
  | rv_insn_lw | rv_insn_sw | rv_insn_flw | rv_insn_fsw =>
    allow_misalign s || negb (truth ((reg s (rs1 x) +u imm x) &u 3))
  | _ => true
  end.
Lemma no_misalign `{riscv_io} c b s cycle pc a k :
  allow_misalign s || negb (truth (a &u 3)) = true ->
  RV_EXC_MISALIGN_HANDLER 3 c b s cycle pc a k = k.
Proof.
  unfold RV_EXC_MISALIGN_HANDLER. by destruct (allow_misalign s), (truth (a &u 3)).
Qed.

Lemma s16_small x : -0x8000 <= x < 0x8000 -> s16 x = x.
Proof. unfold s16. mlia. Qed.
Lemma u8_small x : 0 <= x < 0x100 -> u8 x = x.
Proof. unfold u8. mlia. Qed.
Lemma shr32_small x n : 0 <= n < 32 -> shr32 x n = Some (x >>u n).
Proof. unfold shr32. intros. by destruct (Z.leb_spec 0 n), (Z.ltb_spec n 32); try lia. Qed.
Lemma shl32_small x n : 0 <= n < 32 -> shl32 x n = Some (u32 (x <<u n)).
Proof. unfold shl32. intros. by destruct (Z.leb_spec 0 n), (Z.ltb_spec n 32); try lia. Qed.
Lemma land_31_small n : 0 <= n < 32 -> n &u 31 = n.
Proof. intros. rewrite land_1f. mlia. Qed.

(** ** What the decoder guarantees of the operands *)

(** A value whose bits from [k] on are all equal to [b]. *)
Lemma sign_bits v k (b : bool) :
  is_s32 v -> 0 <= k < 32 -> (forall i, k <= i < 32 -> Z.testbit v i = b) ->
  (if b then -2 ^ k <= v < 0 else 0 <= v < 2 ^ k).
Proof.
  unfold is_s32. intros Hv Hk Hb. pose proof (Hb 31 ltac:(lia)) as H31.
  assert (v < 0 <-> b = true) as Hs.
  { split; intros Hn.
    - by rewrite <- H31, testbit_neg by lia.
    - destruct (Z.lt_ge_cases v 0); [done|]. rewrite (testbit_above v 31) in H31 by lia.
      congruence. }
  destruct b.
  - assert (v < 0) by (by apply Hs). split; [|done].
    enough (Z.lnot v < 2 ^ k) by (unfold Z.lnot in *; lia).
    apply lt_pow2_testbit; [lia|unfold Z.lnot; lia|]. intros i Hi. rewrite Z.lnot_spec by lia.
    destruct (Z.lt_ge_cases i 32); [by rewrite Hb by lia|].
    assert (2 ^ 31 <= 2 ^ i) by (apply Z.pow_le_mono_r; lia). by rewrite testbit_neg by lia.
  - assert (0 <= v) by (destruct (Z.lt_ge_cases v 0) as [Hn|]; [by apply Hs in Hn|done]).
    split; [done|]. apply lt_pow2_testbit; [lia|done|]. intros i Hi.
    destruct (Z.lt_ge_cases i 32); [by apply Hb; lia|]. by rewrite (testbit_above v 31) by lia.
Qed.
Lemma citype_range insn : -0x20 <= c_decode_citype_imm insn < 0x20.
Proof.
  destruct (citype_encodes insn) as [Hv Hb].
  pose proof (sign_bits _ 5 (Z.testbit insn 12) Hv ltac:(lia)) as R.
  destruct (Z.testbit insn 12) eqn:E; cbn in R.
  all: enough (forall i, 5 <= i < 32 -> Z.testbit (c_decode_citype_imm insn) i = Z.testbit insn 12)
    as HE by (rewrite E in HE; specialize (R HE); lia).
  all: clear -Hb; intros i Hi; specialize (Hb (Z.to_nat i) ltac:(lia)); rewrite Z2Nat.id in Hb by lia;
    rewrite Hb; unfold CI_imm; rewrite lookup_app_r by (cbn; lia);
    unfold sext; rewrite lookup_replicate_2 by (cbn; lia); done.
Qed.
Lemma caddi4spn_range insn : 0 <= c_decode_caddi4spn_nzuimm insn < 0x400.
Proof.
  destruct (caddi4spn_encodes insn) as [Hv Hb].
  apply (sign_bits _ 10 false Hv ltac:(lia)). intros i Hi.
  specialize (Hb (Z.to_nat i) ltac:(lia)). rewrite Z2Nat.id in Hb by lia. rewrite Hb.
  assert (exists n, Z.to_nat i = (10 + n)%nat /\ (n < 22)%nat) as (n & -> & Hn).
  { exists (Z.to_nat i - 10)%nat. lia. }
  do 22 (destruct n as [|n]; [done|]). lia.
Qed.
Lemma cbtype_shamt_range insn :
  truth (c_decode_cbtype_shamt insn &u 0x20) = false -> 0 <= c_decode_cbtype_shamt insn < 32.
Proof.
  change 0x20 with (2 ^ 5). rewrite truth_land_pow2 by lia. intros H5.
  assert (forall i, 6 <= i < 8 -> Z.testbit (c_decode_cbtype_shamt insn) i = false) as H6.
  { intros i Hi. assert (i = 6 \/ i = 7) as [-> | ->] by lia;
      unfold c_decode_cbtype_shamt; cbv zeta;
      rewrite testbit_u8, Z.lor_spec, testbit_u8, Z.lor_spec, !Z.shiftr_spec, !Z.land_spec by lia;
      generalize (Z.testbit insn); intros f; cbv; repeat case_match; done. }
  pose proof (u8_range (u8 (0 |u ((insn &u CB_SHAMT_5) >>u 7)) |u ((insn &u CB_SHAMT_4_0) >>u 2)))
    as R. fold (c_decode_cbtype_shamt insn) in R. split; [apply R|].
  change 32 with (2 ^ 5). apply lt_pow2_testbit; [lia|apply R|]. intros i Hi.
  destruct (Z.eq_dec i 5) as [->|]; [done|]. destruct (Z.lt_ge_cases i 8); [by apply H6; lia|].
  apply (testbit_above _ 8); [exact R|lia].
Qed.
Lemma cslli_range insn :
  0 <= s32 (0 |u ((insn &u FCI_IMM_12) >>u 7) |u ((insn &u FCI_IMM_6_2) >>u 2)).
Proof.
  pose proof (field_range insn FCI_IMM_12 7 0x40 ltac:(lia) ltac:(easy) ltac:(easy)).
  pose proof (field_range insn FCI_IMM_6_2 2 0x40 ltac:(lia) ltac:(easy) ltac:(easy)).
  rewrite Z.lor_0_l.
  pose proof (lor_le_add ((insn &u FCI_IMM_12) >>u 7) ((insn &u FCI_IMM_6_2) >>u 2)) as R.
  rewrite s32_small; unfold is_s32; lia.
Qed.

Definition operands_ok (r : option (rv_insn * bool)) : Prop :=
  match r with Some (ir, true) => rvc_operands ir | _ => True end.
Lemma rvc_table_operands insn :
  Forall (fun op : decode_t => operands_ok (op zero_insn insn)) rvc_jump_table.
Proof.
  repeat (apply List.Forall_cons || apply List.Forall_nil);
    match goal with |- operands_ok (?op _ _) => unfold op end; fields;
    repeat case_match; cbn [operands_ok]; try exact I; unfold rvc_operands;
    cbn [opcode set_opcode imm shamt set_imm set_rd set_rs1 set_rs2 set_shamt];
    try exact I; repeat case_match; try exact I;
    eauto using caddi4spn_range, citype_range, cbtype_shamt_range, cslli_range.
Qed.
Lemma rvc_decode_operands insn ir :
  is_compressed insn = true -> rv_decode zero_insn insn = Some (ir, true) -> rvc_operands ir.
Proof.
  unfold rv_decode. intros -> E. cbv zeta in E.
  pose proof (rvc_table_operands (insn &u 0x0000ffff)) as HF. rewrite nth_lookup in E.
  destruct (rvc_jump_table !! _) as [op|] eqn:Ei; cbn [default from_option] in E; [|done].
  eapply Forall_lookup_1 in HF; [|exact Ei]. cbn beta in HF. change (id op) with op in E.
  by rewrite E in HF.
Qed.


(** * Memory *)

(** The [k] bytes from [b] on and the [n] bytes from [a] on do not overlap. *)
Definition disjoint_bytes (b : Z) (k : nat) (a : Z) (n : nat) : Prop :=
  b + Z.of_nat k <= a \/ a + Z.of_nat n <= b.

(** RAM is a memory.  A store that is in range leaves the size of RAM unchanged; a load
    of the same width from the same address then returns the stored value, truncated to the
    width, and a load of any width from a disjoint range returns what it did before. *)
Theorem store_load_roundtrip n m a v m' :
  mem_write n m a v = Some m' ->
  mem_size m' = mem_size m /\
  mem_read n m' a = Some (v mod 0x100 ^ Z.of_nat n) /\
  forall k b, disjoint_bytes b k a n -> mem_read k m' b = mem_read k m b.
Proof. apply mem_write_read. Qed.
Lemma store_load_roundtrip_witness :
  exists m', mem_write 2 (mk_memory ∅ 16) 6 0x12345 = Some m' /\
    mem_read 2 m' 6 = Some 0x2345 /\ mem_read 4 m' 0 = Some 0.
Proof.
  eexists. split; [reflexivity|].
  destruct (store_load_roundtrip 2 (mk_memory ∅ 16) 6 0x12345 _ eq_refl) as (_ & E & Hd).
  split; [exact E|]. rewrite Hd by (left; cbn; lia). reflexivity.
Defined.
