(* ===== verification/RbMap.v ===== *)
(** The red-black tree map of src/src/map.c and map.h.

    A node and everything below it is a value of [tree]; [NULL] is the empty tree.  The C
    code changes nodes in place along the path from the root, which it keeps in an array
    [path]; here the path is a list, deepest entry first, of the nodes as they were met.
    An update in place of the node at the end of a path changes every tree on the path, so
    it is [plug]: the nodes above are rebuilt with the same links.  Outer [None] is a failed
    assertion, a null dereference or a write past the end of [path]. *)

From S2P Require Import Prelude.

(** * Data *)

Inductive map_color_t := RB_BLACK | RB_RED.
Inductive map_cmp_t := MAP_CMP_LESS | MAP_CMP_EQUAL | MAP_CMP_GREATER.

#[export] Instance map_color_eq_dec : EqDecision map_color_t.
Proof. solve_decision. Defined.
#[export] Instance map_cmp_eq_dec : EqDecision map_cmp_t.
Proof. solve_decision. Defined.

(** 16 times the size of a pointer. *)
Definition RB_MAX_DEPTH : Z := 128.

(** What a node holds besides its links: where it is, and its key and data. *)
Record map_node {K V : Type} := mk_node { node_addr : Z; key : K; data : V }.
Arguments map_node : clear implicits.
Arguments mk_node {K V}.

Inductive tree (K V : Type) :=
  | NULL
  | Node (node : map_node K V) (color : map_color_t) (left right : tree K V).
Arguments NULL {K V}.
Arguments Node {K V}.

Record map_internal {K V : Type} := mk_map {
  root : tree K V;
  key_size : Z;
  data_size : Z;
  map_count : Z;
  comparator : K -> K -> map_cmp_t }.
Arguments map_internal : clear implicits.
Arguments mk_map {K V}.

(** An iterator is the node it stands on. *)
Abbreviation map_iter_t K V := (option (map_node K V)).

(** [map_cmp_int] and [map_cmp_uint]: the enumerator whose value is [(a > b) - (a < b)]. *)
Definition map_cmp_int (a b : Z) : map_cmp_t :=
  match b2u (b <? a) - b2u (a <? b) with
  | 0 => MAP_CMP_EQUAL
  | Zpos _ => MAP_CMP_GREATER
  | Zneg _ => MAP_CMP_LESS
  end.
Definition map_cmp_uint (a b : Z) : map_cmp_t := map_cmp_int (u32 a) (u32 b).

Section Map.
Context {K V : Type}.
#[local] Abbreviation node := (map_node K V).
#[local] Abbreviation tree := (tree K V).
#[local] Abbreviation map_internal := (map_internal K V).

(** * Nodes *)

Definition rb_node_get_left (t : tree) : option tree :=
  match t with NULL => None | Node _ _ l _ => Some l end.
Definition rb_node_set_left (t left : tree) : option tree :=
  match t with NULL => None | Node n c _ r => Some (Node n c left r) end.
Definition rb_node_get_right (t : tree) : option tree :=
  match t with NULL => None | Node _ _ _ r => Some r end.
Definition rb_node_set_right (t right : tree) : option tree :=
  match t with NULL => None | Node n c l _ => Some (Node n c l right) end.
Definition rb_node_get_color (t : tree) : option map_color_t :=
  match t with NULL => None | Node _ c _ _ => Some c end.
Definition rb_node_set_color (t : tree) (c : map_color_t) : option tree :=
  match t with NULL => None | Node n _ l r => Some (Node n c l r) end.
Definition rb_node_set_red (t : tree) : option tree := rb_node_set_color t RB_RED.
Definition rb_node_set_black (t : tree) : option tree := rb_node_set_color t RB_BLACK.

Definition RB_IS_RED (t : tree) : option bool :=
  c ← rb_node_get_color t; Some (match c with RB_RED => true | RB_BLACK => false end).
Definition RB_IS_BLACK (t : tree) : option bool :=
  c ← rb_node_get_color t; Some (match c with RB_BLACK => true | RB_RED => false end).
(** [node && RB_IS_RED(node)] *)
Definition is_red (t : tree) : bool :=
  match t with Node _ RB_RED _ _ => true | _ => false end.

Definition rb_node_init (n : node) : option tree :=
  if Z.land (node_addr n) 1 =? 0 then Some (Node n RB_RED NULL NULL) else None.

(** The rotations return [x_node] after the rotation and [r_node], which has it as a
    child. *)
Definition rb_node_rotate_left (x_node : tree) : option (tree * tree) :=
  r_node ← rb_node_get_right x_node;
  rl ← rb_node_get_left r_node;
  x_node ← rb_node_set_right x_node rl;
  r_node ← rb_node_set_left r_node x_node;
  Some (x_node, r_node).
Definition rb_node_rotate_right (x_node : tree) : option (tree * tree) :=
  r_node ← rb_node_get_left x_node;
  lr ← rb_node_get_right r_node;
  x_node ← rb_node_set_left x_node lr;
  r_node ← rb_node_set_right r_node x_node;
  Some (x_node, r_node).

(** * The path array *)

Definition rb_path_entry_t : Type := tree * map_cmp_t.

Definition set_child (e : rb_path_entry_t) (child : tree) : option tree :=
  match e.2 with
  | MAP_CMP_LESS => rb_node_set_left e.1 child
  | _ => rb_node_set_right e.1 child
  end.

(** The whole tree after the link at the end of the path has been set to [t]. *)
Fixpoint plug (path : list rb_path_entry_t) (t : tree) : option tree :=
  match path with
  | [] => Some t
  | e :: path => t ← set_child e t; plug path t
  end.

(** * Insertion *)

Inductive unique_result :=
  | Exists_already (n : node)
  | Too_deep
  | Insert_at (path : list rb_path_entry_t).

Fixpoint rb_insert_unique (cmp : K -> K -> map_cmp_t) (k : K) (t : tree)
    (path : list rb_path_entry_t) (depth : Z) : unique_result :=
  match t with
  | NULL => if RB_MAX_DEPTH - 1 <=? depth then Too_deep else Insert_at path
  | Node n _ l r =>
      if depth <? RB_MAX_DEPTH - 1 then
        match cmp k (key n) with
        | MAP_CMP_LESS => rb_insert_unique cmp k l ((t, MAP_CMP_LESS) :: path) (depth + 1)
        | MAP_CMP_GREATER =>
            rb_insert_unique cmp k r ((t, MAP_CMP_GREATER) :: path) (depth + 1)
        | MAP_CMP_EQUAL => Exists_already n
        end
      else Too_deep
  end.

(** The loop of [map_insert] that restores the invariants, from the entry above the new
    node up; [t] is [pathp[1].node].  The result is the root.  [break] leaves the rest of
    the path as it is. *)
Fixpoint insert_fix (path : list rb_path_entry_t) (t : tree) : option tree :=
  match path with
  | [] => Some t
  | (cnode, MAP_CMP_LESS) :: path =>
      let left := t in
      cnode ← rb_node_set_left cnode left;
      black ← RB_IS_BLACK left;
      if (black : bool) then plug path cnode
      else
        leftleft ← rb_node_get_left left;
        if is_red leftleft then
          leftleft ← rb_node_set_black leftleft;
          left ← rb_node_set_left left leftleft;
          cnode ← rb_node_set_left cnode left;
          '(_, tnode) ← rb_node_rotate_right cnode;
          insert_fix path tnode
        else insert_fix path cnode
  | (cnode, _) :: path =>
      let right := t in
      cnode ← rb_node_set_right cnode right;
      black ← RB_IS_BLACK right;
      if (black : bool) then plug path cnode
      else
        left ← rb_node_get_left cnode;
        if is_red left then
          left ← rb_node_set_black left;
          right ← rb_node_set_black right;
          cnode ← rb_node_set_left cnode left;
          cnode ← rb_node_set_right cnode right;
          cnode ← rb_node_set_red cnode;
          insert_fix path cnode
        else
          tcolor ← rb_node_get_color cnode;
          '(cnode, tnode) ← rb_node_rotate_left cnode;
          tnode ← rb_node_set_color tnode tcolor;
          cnode ← rb_node_set_red cnode;
          tnode ← rb_node_set_left tnode cnode;
          insert_fix path tnode
  end.

(** [(x + align_mask) & ~align_mask] with pointers of eight bytes. *)
Definition align8 (x : Z) : Z := Z.land (u64 (x + 7)) (u64 (Z.lnot 7)).
Definition key_offset : Z := align8 32.
Definition data_offset (ksize : Z) : Z := align8 (u64 (key_offset + ksize)).
Definition total_size (ksize vsize : Z) : Z := u64 (data_offset ksize + vsize).

(** [malloc] gives the address of the new block or [None]; [zero] is the value whose bytes
    are all zero.  The inner option is the returned pointer. *)
Definition map_create_node (malloc : Z -> option Z) (zero : V) (k : K) (value : option V)
    (ksize vsize : Z) : option (option tree) :=
  let total := total_size ksize vsize in
  if (total <? vsize) || (total <? ksize) then Some None
  else
    match malloc total with
    | None => Some None
    | Some mem =>
        t ← rb_node_init (mk_node mem k (default zero value));
        Some (Some t)
    end.

(** [SIZE_MAX / 4] *)
Definition max_size : Z := 0xffffffffffffffff / 4.

Definition map_new (malloc : Z -> option Z) (key_size data_size : Z)
    (cmp : option (K -> K -> map_cmp_t)) : option map_internal :=
  match cmp with
  | None => None
  | Some cmp =>
      if (key_size =? 0) || (data_size =? 0) then None
      else if (max_size <? key_size) || (max_size <? data_size)
              || (max_size - 32 <? u64 (key_size + data_size)) then None
      else
        match malloc 40 with
        | None => None
        | Some _ => Some (mk_map NULL key_size data_size 0 cmp)
        end
  end.

Definition with_root (m : map_internal) (t : tree) (n : Z) : map_internal :=
  mk_map t (key_size m) (data_size m) n (comparator m).

(** A [NULL] map or key is [None]. *)
Definition map_insert (malloc : Z -> option Z) (zero : V) (obj : option map_internal)
    (k : option K) (val : option V) : option (bool * option map_internal) :=
  match obj, k with
  | Some m, Some k =>
      match rb_insert_unique (comparator m) k (root m) [] 0 with
      | Too_deep | Exists_already _ => Some (false, obj)
      | Insert_at path =>
          node ← map_create_node malloc zero k val (key_size m) (data_size m);
          match node with
          | None => Some (false, obj)
          | Some node =>
              t ← insert_fix path node;
              t ← rb_node_set_black t;
              Some (true, Some (with_root m t (u64 (map_count m + 1))))
          end
      end
  | _, _ => Some (false, obj)
  end.

(** * Lookup *)

Fixpoint find_loop (cmp : K -> K -> map_cmp_t) (k : K) (t : tree) : map_iter_t K V :=
  match t with
  | NULL => None
  | Node n _ l r =>
      match cmp k (key n) with
      | MAP_CMP_EQUAL => Some n
      | MAP_CMP_LESS => find_loop cmp k l
      | MAP_CMP_GREATER => find_loop cmp k r
      end
  end.
Definition map_find (obj : option map_internal) (k : K) : map_iter_t K V :=
  match obj with None => None | Some m => find_loop (comparator m) k (root m) end.

Definition map_empty (obj : option map_internal) : bool :=
  match obj with Some m => match root m with NULL => true | _ => false end | None => true end.
Definition map_at_end (it : map_iter_t K V) : bool :=
  match it with None => true | Some _ => false end.
Definition map_size (obj : option map_internal) : Z :=
  match obj with Some m => map_count m | None => 0 end.

(** * Removal *)

(** The first loop of [rb_remove], up to the entry [nodep] whose key is equal. *)
Fixpoint remove_find (cmp : K -> K -> map_cmp_t) (k : K) (t : tree)
    (path : list rb_path_entry_t) (depth : Z) : option (tree * list rb_path_entry_t * Z) :=
  match t with
  | NULL => None
  | Node n _ l r =>
      if depth + 1 <? RB_MAX_DEPTH then
        match cmp k (key n) with
        | MAP_CMP_LESS => remove_find cmp k l ((t, MAP_CMP_LESS) :: path) (depth + 1)
        | MAP_CMP_GREATER => remove_find cmp k r ((t, MAP_CMP_GREATER) :: path) (depth + 1)
        | MAP_CMP_EQUAL => Some (t, path, depth)
        end
      else None
  end.

(** The inner loop: the entries below [nodep] on the way to the successor. *)
Fixpoint remove_successor (t : tree) (path : list rb_path_entry_t) (depth : Z)
    : option (list rb_path_entry_t) :=
  match t with
  | NULL => Some path
  | Node _ _ l _ =>
      if depth + 1 <? RB_MAX_DEPTH
      then remove_successor l ((t, MAP_CMP_LESS) :: path) (depth + 1)
      else None
  end.

(** [assert((uintptr_t) pathp > (uintptr_t) path)], then the link to the subtree. *)
Definition plug_below_root (path : list rb_path_entry_t) (t : tree) : option tree :=
  match path with [] => None | _ => plug path t end.

(** The loop after a black node has been pruned: [t] is [pathp[1].node], one black node
    short.  [return] ends with [plug]; falling off the end of the path sets the root. *)
Fixpoint remove_fix (path : list rb_path_entry_t) (t : tree) : option tree :=
  match path with
  | [] => black ← RB_IS_BLACK t; if (black : bool) then Some t else None
  | (_, MAP_CMP_EQUAL) :: _ => None
  | (pnode, MAP_CMP_LESS) :: path =>
      pnode ← rb_node_set_left pnode t;
      red ← RB_IS_RED pnode;
      right ← rb_node_get_right pnode;
      rightleft ← rb_node_get_left right;
      if (red : bool) then
        if is_red rightleft then
          pnode ← rb_node_set_black pnode;
          '(_, tnode) ← rb_node_rotate_right right;
          pnode ← rb_node_set_right pnode tnode;
          '(_, tnode) ← rb_node_rotate_left pnode;
          plug_below_root path tnode
        else
          '(_, tnode) ← rb_node_rotate_left pnode;
          plug_below_root path tnode
      else if is_red rightleft then
        rightleft ← rb_node_set_black rightleft;
        right ← rb_node_set_left right rightleft;
        '(_, tnode) ← rb_node_rotate_right right;
        pnode ← rb_node_set_right pnode tnode;
        '(_, tnode) ← rb_node_rotate_left pnode;
        plug path tnode
      else
        pnode ← rb_node_set_red pnode;
        '(_, tnode) ← rb_node_rotate_left pnode;
        remove_fix path tnode
  | (pnode, MAP_CMP_GREATER) :: path =>
      pnode ← rb_node_set_right pnode t;
      left ← rb_node_get_left pnode;
      left_red ← RB_IS_RED left;
      red ← RB_IS_RED pnode;
      if (left_red : bool) then
        leftright ← rb_node_get_right left;
        leftrightleft ← rb_node_get_left leftright;
        if is_red leftrightleft then
          leftrightleft ← rb_node_set_black leftrightleft;
          leftright ← rb_node_set_left leftright leftrightleft;
          left ← rb_node_set_right left leftright;
          pnode ← rb_node_set_left pnode left;
          '(pnode, unode) ← rb_node_rotate_right pnode;
          '(_, tnode) ← rb_node_rotate_right pnode;
          unode ← rb_node_set_right unode tnode;
          '(_, tnode) ← rb_node_rotate_left unode;
          plug path tnode
        else
          leftright ← rb_node_set_red leftright;
          left ← rb_node_set_right left leftright;
          pnode ← rb_node_set_left pnode left;
          '(_, tnode) ← rb_node_rotate_right pnode;
          tnode ← rb_node_set_black tnode;
          plug path tnode
      else
        leftleft ← rb_node_get_left left;
        if (red : bool) then
          if is_red leftleft then
            pnode ← rb_node_set_black pnode;
            leftleft ← rb_node_set_black leftleft;
            left ← rb_node_set_left left leftleft;
            left ← rb_node_set_red left;
            pnode ← rb_node_set_left pnode left;
            '(_, tnode) ← rb_node_rotate_right pnode;
            plug_below_root path tnode
          else
            left ← rb_node_set_red left;
            pnode ← rb_node_set_left pnode left;
            pnode ← rb_node_set_black pnode;
            plug path pnode
        else if is_red leftleft then
          leftleft ← rb_node_set_black leftleft;
          left ← rb_node_set_left left leftleft;
          pnode ← rb_node_set_left pnode left;
          '(_, tnode) ← rb_node_rotate_right pnode;
          plug path tnode
        else
          left ← rb_node_set_red left;
          pnode ← rb_node_set_left pnode left;
          remove_fix path pnode
  end.

(** Pruning a node of colour [c] without children at the end of [path]. *)
Definition prune (path : list rb_path_entry_t) (c : map_color_t) : option tree :=
  match c with
  | RB_RED =>
      match path with
      | (_, MAP_CMP_LESS) :: _ => plug path NULL
      | _ => None
      end
  | RB_BLACK => remove_fix path NULL
  end.

Definition rb_remove (cmp : K -> K -> map_cmp_t) (t : tree) (node : node) : option tree :=
  '(nodep, above, depth) ← remove_find cmp (key node) t [] 0;
  match nodep with
  | NULL => None
  | Node n c l r =>
      if negb (node_addr n =? node_addr node) then None
      else
        below ← remove_successor r [] (depth + 1);
        match below with
        | (Node sn sc _ _, _) :: below =>
            (* swap the node with its successor *)
            prune (below ++ (Node sn c l r, MAP_CMP_GREATER) :: above) sc
        | (NULL, _) :: _ => None
        | [] =>
            match l with
            | Node ln lc ll lr =>
                match c, lc with
                | RB_BLACK, RB_RED => plug above (Node ln RB_BLACK ll lr)
                | _, _ => None
                end
            | NULL =>
                match above with [] => Some NULL | _ => prune above c end
            end
        end
  end.

(** The iterator is [NULL] afterwards. *)
Definition map_erase (obj : option map_internal) (it : map_iter_t K V)
    : option (option map_internal * map_iter_t K V) :=
  match obj, it with
  | Some m, Some node =>
      if map_count m =? 0 then Some (obj, it)
      else
        t ← rb_remove (comparator m) (root m) node;
        Some (Some (with_root m t (if 0 <? map_count m then map_count m - 1 else map_count m)),
              None)
  | _, _ => Some (obj, it)
  end.

(** The nodes freed, in order. *)
Fixpoint rb_destroy_recurse (t : tree) : list node :=
  match t with
  | NULL => []
  | Node n _ l r => rb_destroy_recurse l ++ rb_destroy_recurse r ++ [n]
  end.
Definition map_clear (m : map_internal) : map_internal * list node :=
  (with_root m NULL 0, rb_destroy_recurse (root m)).

(** * Iteration *)

Fixpoint leftmost (n : node) (l : tree) : node :=
  match l with NULL => n | Node n _ l _ => leftmost n l end.
Fixpoint rightmost (n : node) (r : tree) : node :=
  match r with NULL => n | Node n _ _ r => rightmost n r end.

Definition map_first (obj : option map_internal) : map_iter_t K V :=
  match obj with
  | Some m => match root m with NULL => None | Node n _ l _ => Some (leftmost n l) end
  | None => None
  end.
Definition map_last (obj : option map_internal) : map_iter_t K V :=
  match obj with
  | Some m => match root m with NULL => None | Node n _ _ r => Some (rightmost n r) end
  | None => None
  end.

(** The node an iterator stands on, with its links: the node of the tree at its address. *)
Fixpoint node_at (addr : Z) (t : tree) : option tree :=
  match t with
  | NULL => None
  | Node n _ l r =>
      if node_addr n =? addr then Some t
      else match node_at addr l with Some t => Some t | None => node_at addr r end
  end.

Fixpoint next_search (cmp : K -> K -> map_cmp_t) (k : K) (succ : map_iter_t K V) (curr : tree)
    : map_iter_t K V :=
  match curr with
  | NULL => succ
  | Node n _ l r =>
      match cmp k (key n) with
      | MAP_CMP_LESS => next_search cmp k (Some n) l
      | MAP_CMP_GREATER => next_search cmp k succ r
      | MAP_CMP_EQUAL => succ
      end
  end.
Definition map_next (obj : option map_internal) (it : map_iter_t K V)
    : option (map_iter_t K V) :=
  match obj, it with
  | Some m, Some n =>
      here ← node_at (node_addr n) (root m);
      right ← rb_node_get_right here;
      match right with
      | Node rn _ rl _ => Some (Some (leftmost rn rl))
      | NULL => Some (next_search (comparator m) (key n) None (root m))
      end
  | _, _ => Some None
  end.

Fixpoint prev_search (cmp : K -> K -> map_cmp_t) (k : K) (pred : map_iter_t K V) (curr : tree)
    : map_iter_t K V :=
  match curr with
  | NULL => pred
  | Node n _ l r =>
      match cmp k (key n) with
      | MAP_CMP_GREATER => prev_search cmp k (Some n) r
      | MAP_CMP_LESS => prev_search cmp k pred l
      | MAP_CMP_EQUAL => pred
      end
  end.
Definition map_prev (obj : option map_internal) (it : map_iter_t K V)
    : option (map_iter_t K V) :=
  match obj, it with
  | Some m, Some n =>
      here ← node_at (node_addr n) (root m);
      left ← rb_node_get_left here;
      match left with
      | Node ln _ _ lr => Some (Some (rightmost ln lr))
      | NULL => Some (prev_search (comparator m) (key n) None (root m))
      end
  | _, _ => Some None
  end.
End Map.
