(* ===== verification/RbMapProofs.v ===== *)
(** The red-black tree map keeps a left-leaning red-black tree in search order; insertion,
    lookup, removal and iteration are those of a finite map, and no assertion, null
    dereference or overflow of the path array can happen. *)

From stdpp Require Import sorting.
From S2P Require Import Prelude.
From S2P Require Import RbMap.

(** * Specification *)

(** What the map relies on in a comparator. *)
Class comparator_laws {K : Type} (cmp : K -> K -> map_cmp_t) : Prop := {
  cmp_equal a b : cmp a b = MAP_CMP_EQUAL <-> a = b;
  cmp_flip a b : cmp a b = MAP_CMP_LESS <-> cmp b a = MAP_CMP_GREATER;
  cmp_trans a b c : cmp a b = MAP_CMP_LESS -> cmp b c = MAP_CMP_LESS -> cmp a c = MAP_CMP_LESS }.

Section Spec.
Context {K V : Type}.

(** The nodes in order. *)
Fixpoint elements (t : tree K V) : list (map_node K V) :=
  match t with
  | NULL => []
  | Node n _ l r => elements l ++ n :: elements r
  end.

Fixpoint height (t : tree K V) : Z :=
  match t with
  | NULL => 0
  | Node _ _ l r => 1 + Z.max (height l) (height r)
  end.

(** A left-leaning red-black tree with the given root colour and number of black nodes on
    every path: right children are black, red nodes have black children. *)
Inductive llrb : map_color_t -> nat -> tree K V -> Prop :=
  | llrb_null : llrb RB_BLACK 0 NULL
  | llrb_black n c h l r :
      llrb c h l -> llrb RB_BLACK h r -> llrb RB_BLACK (S h) (Node n RB_BLACK l r)
  | llrb_red n h l r :
      llrb RB_BLACK h l -> llrb RB_BLACK h r -> llrb RB_RED h (Node n RB_RED l r).

Definition node_lt (cmp : K -> K -> map_cmp_t) (a b : map_node K V) : Prop :=
  cmp (key a) (key b) = MAP_CMP_LESS.

Record map_wf (m : map_internal K V) : Prop := {
  wf_balanced : exists h, llrb RB_BLACK h (root m);
  wf_sorted : StronglySorted (node_lt (comparator m)) (elements (root m));
  wf_addrs : NoDup (node_addr <$> elements (root m));
  wf_count : map_count m = Z.of_nat (length (elements (root m)));
  wf_sizes : 0 < key_size m /\ 0 < data_size m /\
    key_size m + data_size m <= max_size - 32 }.
End Spec.

Create HintDb llrb discriminated.
#[export] Hint Constructors llrb : llrb.

(** * Paths *)

(** Runs code on trees in a hypothesis [E : code = Some _]: unfolds the node operations and
    splits on the subtrees and colours they look at. *)
Ltac run_tree E :=
  unfold rb_node_rotate_left, rb_node_rotate_right, rb_node_set_red,
    rb_node_set_black, RB_IS_RED, RB_IS_BLACK in E;
  repeat (cbn in E; simplify_eq;
    match type of E with
    | context [rb_node_get_color ?x] => is_var x; destruct x
    | context [rb_node_get_left ?x] => is_var x; destruct x
    | context [rb_node_get_right ?x] => is_var x; destruct x
    | context [rb_node_set_color ?x _] => is_var x; destruct x
    | context [is_red ?x] => is_var x; destruct x
    | context [match ?c with RB_BLACK => _ | RB_RED => _ end] => is_var c; destruct c
    end);
  cbn in E; simplify_eq.

Ltac flat_app := repeat (cbn; rewrite <- ?app_assoc); try reflexivity.

Section Paths.
Context {K V : Type}.
Implicit Types (t u l r : tree K V) (path : list (rb_path_entry_t (K := K) (V := V))).

(** The nodes before and after the hole at the end of a path. *)
Fixpoint before path : list (map_node K V) :=
  match path with
  | [] => []
  | (_, MAP_CMP_LESS) :: path => before path
  | (Node n _ l _, _) :: path => before path ++ elements l ++ [n]
  | (NULL, _) :: path => before path
  end.
Fixpoint after path : list (map_node K V) :=
  match path with
  | [] => []
  | (Node n _ _ r, MAP_CMP_LESS) :: path => (n :: elements r) ++ after path
  | _ :: path => after path
  end.

(** A path in a left-leaning red-black tree to a hole for a subtree with [h] black nodes on
    its paths; the flag says whether its root may be red. *)
Inductive ctx : bool -> nat -> list (rb_path_entry_t (K := K) (V := V)) -> Prop :=
  | ctx_root h : ctx false h []
  | ctx_left_black n l r h red path :
      llrb RB_BLACK h r -> ctx red (S h) path ->
      ctx true h ((Node n RB_BLACK l r, MAP_CMP_LESS) :: path)
  | ctx_right_black n l r h c red path :
      llrb c h l -> ctx red (S h) path ->
      ctx false h ((Node n RB_BLACK l r, MAP_CMP_GREATER) :: path)
  | ctx_left_red n l r h path :
      llrb RB_BLACK h r -> ctx true h path ->
      ctx false h ((Node n RB_RED l r, MAP_CMP_LESS) :: path)
  | ctx_right_red n l r h path :
      llrb RB_BLACK h l -> ctx true h path ->
      ctx false h ((Node n RB_RED l r, MAP_CMP_GREATER) :: path).

Lemma plug_elements path t u :
  plug path t = Some u -> elements u = before path ++ elements t ++ after path.
Proof.
  revert t. induction path as [|[pn c] path IH]; intros t; cbn [plug].
  - intros [= <-]. cbn. by rewrite app_nil_r.
  - destruct pn as [|n pc l r], c; cbn; intros E; simplify_eq;
      rewrite (IH _ E); cbn; by rewrite <- ?app_assoc.
Qed.

Lemma insert_fix_elements path t u :
  insert_fix path t = Some u -> elements u = before path ++ elements t ++ after path.
Proof.
  revert t. induction path as [|[pn c] path IH]; intros t; cbn [insert_fix].
  - intros [= <-]. cbn. by rewrite app_nil_r.
  - destruct pn as [|n pc l r], c; intros E; run_tree E;
      first [apply plug_elements in E | apply IH in E]; rewrite E; flat_app.
Qed.

Lemma plug_below_root_plug path t u : plug_below_root path t = Some u -> plug path t = Some u.
Proof. by destruct path. Qed.

Lemma remove_fix_elements path t u :
  remove_fix path t = Some u -> elements u = before path ++ elements t ++ after path.
Proof.
  revert t. induction path as [|[pn c] path IH]; intros t; cbn [remove_fix].
  - intros E. run_tree E. cbn. by rewrite app_nil_r.
  - destruct pn as [|n pc l r], c; intros E; run_tree E; try apply plug_below_root_plug in E;
      first [apply plug_elements in E | apply IH in E]; rewrite E; flat_app.
Qed.

(** * Balance *)

Lemma plug_llrb red h path c t :
  ctx red h path -> llrb c h t -> (c = RB_RED -> red = true) ->
  exists u h', plug path t = Some u /\ llrb RB_BLACK h' u.
Proof.
  intros Hc. revert c t. induction Hc; intros c' t Ht Hr; cbn;
    [|apply (IHHc RB_BLACK)|apply (IHHc RB_BLACK)|apply (IHHc RB_RED)|apply (IHHc RB_RED)];
    try done; destruct c'; try (by discriminate Hr); eauto with llrb.
Qed.

(** The trees the loop of [map_insert] meets: balanced, or with a red node whose left child
    is red too where the old subtree may have had a red root. *)
Inductive inserted : bool -> nat -> tree K V -> Prop :=
  | inserted_black b n c h l r :
      llrb c h l -> llrb RB_BLACK h r -> inserted b (S h) (Node n RB_BLACK l r)
  | inserted_red b n h l r :
      llrb RB_BLACK h l -> llrb RB_BLACK h r -> inserted b h (Node n RB_RED l r)
  | inserted_redred n h l r :
      llrb RB_RED h l -> llrb RB_BLACK h r -> inserted true h (Node n RB_RED l r).
Hint Constructors inserted : llrb.

Lemma plug_not_null path t u : plug path t = Some u -> t <> NULL -> u <> NULL.
Proof.
  revert t. induction path as [|[[|n c l r] cmp] path IH]; intros t; cbn.
  - congruence.
  - by destruct cmp.
  - destruct cmp; cbn; intros E _; by apply (IH _ E).
Qed.

Lemma llrb_is_red c h t : llrb c h t -> is_red t = bool_decide (c = RB_RED).
Proof. by inversion 1. Qed.
Lemma llrb_set_black c h t :
  llrb c h t -> t <> NULL -> exists t' h', rb_node_set_black t = Some t' /\ llrb RB_BLACK h' t'.
Proof. inversion 1; [done|intros _..]; cbn; eauto with llrb. Qed.

Lemma plug_done red h path c t :
  ctx red h path -> llrb c h t -> (c = RB_RED -> red = true) -> t <> NULL ->
  exists u u' h', plug path t = Some u /\ rb_node_set_black u = Some u' /\ llrb RB_BLACK h' u'.
Proof.
  intros Hc Ht Hr Hn. destruct (plug_llrb red h path c t) as (u & h' & E & Hu); [done..|].
  destruct (llrb_set_black _ _ _ Hu) as (u' & h'' & E' & Hu'); [by eapply plug_not_null|].
  by exists u, u', h''.
Qed.

Lemma insert_fix_llrb red h path t :
  ctx red h path -> inserted red h t ->
  exists u u' h', insert_fix path t = Some u /\ rb_node_set_black u = Some u' /\
    llrb RB_BLACK h' u'.
Proof.
  intros Hc. revert t. induction Hc; intros t Ht; [inversion Ht; subst; cbn; eauto 10 with llrb|..].
  all: inversion Ht; subst; cbn.
  (* a black child ends the loop *)
  all: try (eapply plug_done; eauto with llrb; done).
  (* otherwise the new subtree is again one of [inserted] *)
  all: repeat match goal with
    | H : llrb ?c _ ?l |- context [is_red ?l] => rewrite (llrb_is_red _ _ _ H); cbn
    end.
  all: try (apply IHHc; eauto with llrb; fail).
  - inversion H0; subst; apply IHHc; eauto with llrb.
  - destruct c; [|inversion H; subst]; apply IHHc; eauto with llrb.
Qed.

Lemma plug_below_llrb h path c t :
  ctx true h path -> llrb c h t ->
  exists u h', plug_below_root path t = Some u /\ llrb RB_BLACK h' u.
Proof. intros Hc Ht. inversion Hc; subst. by eapply plug_llrb. Qed.

(** The colour of a subtree whose colour is looked at, and its children where it is red. *)
Ltac split_color :=
  match goal with
  | H : llrb ?c _ ?t |- context [is_red ?t] =>
      rewrite (llrb_is_red _ _ _ H); destruct c; cbn; [|inversion H; subst; clear H; cbn]
  end.

(** [t] has one black node too few; the root is only read when it exists. *)
Lemma remove_fix_llrb red h path t :
  ctx red (S h) path -> llrb RB_BLACK h t -> t <> NULL \/ path <> [] ->
  exists u h', remove_fix path t = Some u /\ llrb RB_BLACK h' u.
Proof.
  remember (S h) as h1 eqn:Eh. intros Hc. revert h Eh t.
  induction Hc as [h1|n l r h1 red path Hr Hc IH|n l r h1 c red path Hl Hc IH
    |n l r h1 path Hr Hc IH|n l r h1 path Hl Hc IH]; intros h -> t Ht Hn; cbn.
  - inversion Ht; subst; cbn; [by destruct Hn|]. eauto with llrb.
  - inversion Hr; subst. cbn. split_color; [eapply IH; eauto with llrb|].
    eapply plug_llrb; eauto with llrb. done.
  - inversion Hl; subst; cbn.
    + split_color; [eapply IH; eauto with llrb|]. eapply plug_llrb; eauto with llrb. done.
    + match goal with H : llrb RB_BLACK (S h) _ |- _ => inversion H; subst; cbn end.
      split_color; (eapply plug_llrb; [eassumption|eauto 6 with llrb|done]).
  - inversion Hr; subst. cbn.
    split_color; eapply plug_below_llrb; eauto with llrb.
  - inversion Hl; subst. cbn. split_color.
    + eapply plug_llrb; eauto with llrb.
    + eapply plug_below_llrb; eauto with llrb.
Qed.

Lemma prune_correct red h path (n : map_node K V) c :
  ctx red h path -> llrb c h (Node n c NULL NULL) -> (c = RB_RED -> red = true) -> path <> [] ->
  exists u h', prune path c = Some u /\ llrb RB_BLACK h' u /\
    elements u = before path ++ after path.
Proof.
  intros Hc Ht Hr Hp. destruct c; cbn.
  - inversion Ht as [|? c' ? ? ? Hl _|]; subst. inversion Hl; subst.
    destruct (remove_fix_llrb red 0 path NULL) as (u & h' & E & Hu); eauto with llrb.
    exists u, h'. by rewrite (remove_fix_elements _ _ _ E).
  - rewrite Hr in Hc by done. inversion Ht as [| |? ? ? ? Hl _]; subst. inversion Hl; subst.
    destruct (plug_llrb true 0 path RB_BLACK NULL) as (u & h' & E & Hu); eauto with llrb.
    exists u, h'. rewrite (plug_elements _ _ _ E). by inversion Hc; subst.
Qed.
End Paths.

(** * Descents *)

Section Descent.
Context {K V : Type} (cmp : K -> K -> map_cmp_t) `{!comparator_laws cmp}.
Implicit Types (t u l r : tree K V) (n : map_node K V).

Lemma before_app (p q : list (rb_path_entry_t (K := K) (V := V))) :
  before (p ++ q) = before q ++ before p.
Proof.
  induction p as [|[[|n c l r] []] p IH]; cbn; rewrite ?app_nil_r, ?IH, <- ?app_assoc; done.
Qed.
Lemma after_app (p q : list (rb_path_entry_t (K := K) (V := V))) :
  after (p ++ q) = after p ++ after q.
Proof. induction p as [|[[|n c l r] []] p IH]; cbn; rewrite ?IH, <- ?app_assoc; done. Qed.

Definition sorted t : Prop := StronglySorted (node_lt cmp) (elements t).

Lemma sorted_node n c l r :
  sorted (Node n c l r) ->
  sorted l /\ sorted r /\ Forall (fun x => node_lt cmp x n) (elements l) /\
  Forall (fun x => node_lt cmp n x) (elements r).
Proof.
  unfold sorted. cbn. rewrite StronglySorted_app. intros (Hx & Hl & Hr). inversion Hr; subst.
  split_and!; try done. apply Forall_forall. intros x Hin. apply Hx; [done|]. by left.
Qed.

Lemma cmp_refl a : cmp a a = MAP_CMP_EQUAL.
Proof. by apply cmp_equal. Qed.
Lemma cmp_irrefl a b : cmp a b = MAP_CMP_LESS -> a <> b.
Proof. intros E ->. by rewrite cmp_refl in E. Qed.

Lemma greater_less a b : cmp a b = MAP_CMP_GREATER -> cmp b a = MAP_CMP_LESS.
Proof. by rewrite cmp_flip. Qed.

(** Everything on the far side of a node the search turns away from. *)
Lemma all_above k n (es : list (map_node K V)) :
  Forall (fun x => node_lt cmp n x) es -> cmp k (key n) = MAP_CMP_LESS ->
  Forall (fun x => cmp k (key x) = MAP_CMP_LESS) es.
Proof. intros H E. eapply Forall_impl; [exact H|]. intros x. by apply cmp_trans. Qed.
Lemma all_below k n (es : list (map_node K V)) :
  Forall (fun x => node_lt cmp x n) es -> cmp k (key n) = MAP_CMP_GREATER ->
  Forall (fun x => cmp (key x) k = MAP_CMP_LESS) es.
Proof.
  intros H E%greater_less. eapply Forall_impl; [exact H|]. intros x Hx. exact (cmp_trans _ _ _ Hx E).
Qed.

Lemma not_in_above k (es : list (map_node K V)) x :
  Forall (fun x => cmp k (key x) = MAP_CMP_LESS) es -> x ∈ es -> key x <> k.
Proof. intros H Hx ->%eq_sym. rewrite Forall_forall in H. by destruct (cmp_irrefl _ _ (H x Hx)). Qed.
Lemma not_in_below k (es : list (map_node K V)) x :
  Forall (fun x => cmp (key x) k = MAP_CMP_LESS) es -> x ∈ es -> key x <> k.
Proof. intros H Hx. rewrite Forall_forall in H. by apply cmp_irrefl, H. Qed.

Lemma find_loop_spec k t n :
  sorted t -> find_loop cmp k t = Some n <-> n ∈ elements t /\ key n = k.
Proof.
  induction t as [|n' c l IHl r IHr]; cbn; [set_solver|].
  intros (Sl & Sr & Hl & Hr)%sorted_node. rewrite elem_of_app, elem_of_cons.
  destruct (cmp k (key n')) eqn:E.
  - rewrite IHl by done. pose proof (all_above k n' _ Hr E).
    pose proof (cmp_irrefl _ _ E).
    assert (n ∈ elements r -> key n <> k) by eauto using not_in_above. naive_solver.
  - apply cmp_equal in E as ->. split; [naive_solver|]. intros [[Hn|[->|Hn]] Hk]; [|done|].
    + rewrite Forall_forall in Hl. by destruct (cmp_irrefl _ _ (Hl n Hn)).
    + rewrite Forall_forall in Hr. by destruct (cmp_irrefl _ _ (Hr n Hn)).
  - rewrite IHr by done. pose proof (all_below k n' _ Hl E).
    pose proof (cmp_irrefl _ _ (greater_less _ _ E)).
    assert (n ∈ elements l -> key n <> k) by eauto using not_in_below. naive_solver.
Qed.

(** What [rb_insert_unique] hands over: the key, or the hole where it belongs. *)
Definition unique_ok (k : K) t path (res : unique_result) : Prop :=
  match res with
  | Exists_already n => n ∈ elements t /\ key n = k
  | Too_deep => False
  | Insert_at p =>
      exists red lo hi, ctx red 0 p /\ elements t = lo ++ hi /\
        before p = before path ++ lo /\ after p = hi ++ after path /\
        Forall (fun x => cmp (key x) k = MAP_CMP_LESS) lo /\
        Forall (fun x => cmp k (key x) = MAP_CMP_LESS) hi
  end.

Lemma height_nonneg t : 0 <= height t.
Proof. induction t; cbn; lia. Qed.

Lemma ctx_child red h path n c l r :
  ctx red h path -> llrb c h (Node n c l r) -> (c = RB_RED -> red = true) ->
  (exists red' h' c', ctx red' h' ((Node n c l r, MAP_CMP_LESS) :: path) /\ llrb c' h' l /\
     (c' = RB_RED -> red' = true)) /\
  (exists red' h', ctx red' h' ((Node n c l r, MAP_CMP_GREATER) :: path) /\
     llrb RB_BLACK h' r).
Proof.
  intros Hc Ht Hr. inversion Ht; subst.
  - split; [exists true|exists false]; eauto 10 using ctx.
  - rewrite Hr in Hc by done. split; exists false; [|eauto 10 using ctx].
    exists h, RB_BLACK. split_and!; [by constructor|done..].
Qed.

Lemma insert_unique_spec k t red h c path depth :
  sorted t -> ctx red h path -> llrb c h t -> (c = RB_RED -> red = true) ->
  depth + height t < RB_MAX_DEPTH - 1 ->
  unique_ok k t path (rb_insert_unique cmp k t path depth).
Proof.
  revert red h c path depth.
  induction t as [|n c' l IHl r IHr]; intros red h c path depth St Hc Ht Hr Hd; cbn.
  - destruct (Z.leb_spec (RB_MAX_DEPTH - 1) depth); [cbn in Hd; lia|]. inversion Ht; subst.
    exists red, [], []. split_and!; rewrite ?app_nil_r; done || constructor.
  - pose proof (height_nonneg l). pose proof (height_nonneg r). cbn in Hd.
    destruct (Z.ltb_spec depth (RB_MAX_DEPTH - 1)); [|lia].
    apply sorted_node in St as (Sl & Sr & Fl & Fr).
    assert (c' = c) as -> by (by inversion Ht).
    destruct (ctx_child _ _ _ _ _ _ _ Hc Ht Hr) as
      [(rl & hl & cl & Cl & Ll & Rl) (rr & hr & Cr & Lr)].
    destruct (cmp k (key n)) eqn:E.
    + specialize (IHl rl hl cl _ (depth + 1) Sl Cl Ll Rl ltac:(lia)).
      destruct rb_insert_unique; cbn in *; [set_solver|done|].
      destruct IHl as (red' & lo & hi & Hp & -> & -> & -> & Hlo & Hhi).
      exists red', lo, (hi ++ n :: elements r). rewrite <- !app_assoc. split_and!; try done.
      apply Forall_app. split; [done|]. constructor; [done|]. by eapply all_above.
    + apply cmp_equal in E as ->. set_solver.
    + specialize (IHr rr hr RB_BLACK _ (depth + 1) Sr Cr Lr ltac:(done) ltac:(lia)).
      destruct rb_insert_unique; cbn in *; [set_solver|done|].
      destruct IHr as (red' & lo & hi & Hp & -> & -> & -> & Hlo & Hhi).
      exists red', (elements l ++ n :: lo), hi. rewrite <- !app_assoc. cbn.
      split_and!; try done. apply Forall_app. split; [by eapply all_below|].
      constructor; [by apply greater_less|done].
Qed.

Lemma remove_find_spec n t red h c path depth :
  sorted t -> ctx red h path -> llrb c h t -> (c = RB_RED -> red = true) ->
  depth + height t < RB_MAX_DEPTH -> n ∈ elements t ->
  exists c' l r above depth' red' h',
    remove_find cmp (key n) t path depth = Some (Node n c' l r, above, depth') /\
    ctx red' h' above /\ llrb c' h' (Node n c' l r) /\ (c' = RB_RED -> red' = true) /\
    depth' + height (Node n c' l r) <= depth + height t /\
    before above ++ elements (Node n c' l r) ++ after above
      = before path ++ elements t ++ after path.
Proof.
  revert red h c path depth.
  induction t as [|n' c' l IHl r IHr]; intros red h c path depth St Hc Ht Hr Hd Hn;
    [by apply elem_of_nil in Hn|].
  pose proof (height_nonneg l). pose proof (height_nonneg r). cbn [height] in Hd.
  assert (c' = c) as -> by (by inversion Ht).
  destruct (ctx_child _ _ _ _ _ _ _ Hc Ht Hr) as
    [(rl & hl & cl & Cl & Ll & Rl) (rr & hr & Cr & Lr)].
  cbn [remove_find]. destruct (Z.ltb_spec (depth + 1) RB_MAX_DEPTH); [|lia].
  pose proof (proj2 (find_loop_spec (key n) _ n St) (conj Hn eq_refl)) as F. cbn in F.
  apply sorted_node in St as (Sl & Sr & _ & _).
  destruct (cmp (key n) (key n')) eqn:E.
  - apply (find_loop_spec _ _ _ Sl) in F as [F _].
    destruct (IHl _ _ _ _ (depth + 1) Sl Cl Ll Rl ltac:(lia) F)
      as (c' & l' & r' & above & d' & red' & h' & E1 & P1 & P2 & P3 & P4 & P5).
    exists c', l', r', above, d', red', h'. split_and!; try done; [cbn in *; lia|].
    rewrite P5. flat_app.
  - simplify_eq. exists c, l, r, path, depth, red, h. split_and!; try done.
  - apply (find_loop_spec _ _ _ Sr) in F as [F _].
    destruct (IHr _ _ RB_BLACK _ (depth + 1) Sr Cr Lr ltac:(done) ltac:(lia) F)
      as (c' & l' & r' & above & d' & red' & h' & E1 & P1 & P2 & P3 & P4 & P5).
    exists c', l', r', above, d', red', h'. split_and!; try done; [cbn in *; lia|].
    rewrite P5. flat_app.
Qed.

(** The way to the successor: left links only, ending at a node without children. *)
Lemma remove_successor_spec t red h c depth :
  llrb c h t -> (c = RB_RED -> red = true) -> t <> NULL -> depth + height t < RB_MAX_DEPTH ->
  exists sn sc q,
    (forall acc, remove_successor t acc depth
       = Some ((Node sn sc NULL NULL, MAP_CMP_LESS) :: q ++ acc)) /\
    before q = [] /\ sn :: after q = elements t /\
    forall path, ctx red h path ->
      exists red' h', ctx red' h' (q ++ path) /\ llrb sc h' (Node sn sc NULL NULL) /\
        (sc = RB_RED -> red' = true).
Proof.
  revert red h c depth.
  induction t as [|n c' l IHl r _]; intros red h c depth Ht Hr Hn Hd; [done|].
  pose proof (height_nonneg l). pose proof (height_nonneg r). cbn [height] in Hd.
  assert (c' = c) as -> by (by inversion Ht).
  cbn [remove_successor]. destruct (Z.ltb_spec (depth + 1) RB_MAX_DEPTH); [|lia].
  destruct l as [|ln lc ll lr].
  - assert (r = NULL) as ->.
    { inversion Ht as [|? ? ? ? ? Hl Hr'|? ? ? ? Hl Hr']; subst; inversion Hl; subst;
        by inversion Hr'. }
    exists n, c, []. split_and!; [done..|]. intros path Hp. by exists red, h.
  - assert (exists red' h', llrb lc h' (Node ln lc ll lr) /\ (lc = RB_RED -> red' = true) /\
      forall path, ctx red h path -> ctx red' h' ((Node n c (Node ln lc ll lr) r, MAP_CMP_LESS) :: path))
      as (red' & h' & Hl & Hr' & Hp).
    { inversion Ht as [|? cl h0 ? ? Hl Hr'|? ? ? ? Hl Hr']; subst.
      - assert (cl = lc) as -> by (by inversion Hl). exists true, h0.
        split_and!; [done..|]. intros. by eapply ctx_left_black.
      - assert (lc = RB_BLACK) as -> by (by inversion Hl). exists false, h.
        rewrite Hr by done. split_and!; [done..|]. intros. by eapply ctx_left_red. }
    destruct (IHl red' h' lc (depth + 1) Hl Hr' ltac:(done) ltac:(lia))
      as (sn & sc & q & E & Hb & Ha & Hq).
    exists sn, sc, (q ++ [(Node n c (Node ln lc ll lr) r, MAP_CMP_LESS)]). split_and!.
    + intros acc. rewrite E. by rewrite <- app_assoc.
    + by rewrite before_app, Hb.
    + rewrite after_app, app_comm_cons, Ha. cbn. by rewrite app_nil_r.
    + intros path Hpath. rewrite <- app_assoc. by apply Hq, Hp.
Qed.

(** The second half of [rb_remove]: the node at the end of [above] is taken out. *)
Definition remove_at (n : map_node K V) c l r above depth : option (tree K V) :=
  below ← remove_successor r [] (depth + 1);
  match below with
  | (Node sn sc _ _, _) :: below =>
      prune (below ++ (Node sn c l r, MAP_CMP_GREATER) :: above) sc
  | (NULL, _) :: _ => None
  | [] =>
      match l with
      | Node ln lc ll lr =>
          match c, lc with
          | RB_BLACK, RB_RED => plug above (Node ln RB_BLACK ll lr)
          | _, _ => None
          end
      | NULL => match above with [] => Some NULL | _ => prune above c end
      end
  end.

Lemma remove_at_leaf n c l red h above depth :
  ctx red h above -> llrb c h (Node n c l NULL) -> (c = RB_RED -> red = true) ->
  exists u h', remove_at n c l NULL above depth = Some u /\ llrb RB_BLACK h' u /\
    elements u = before above ++ elements l ++ after above.
Proof.
  intros Hc Ht Hr. cbn. destruct l as [|ln lc ll lr].
  - destruct above as [|e above]; [exists NULL, 0%nat; split_and!; [done|constructor|done]|].
    by eapply (prune_correct _ _ _ n).
  - inversion Ht as [|? cl ? ? ? Hl Hn|? ? ? ? Hl Hn]; subst; inversion Hn; subst;
      inversion Hl; subst.
    destruct (plug_llrb red 1 above RB_BLACK (Node ln RB_BLACK ll lr)) as (u & h' & E & Hu);
      [done|eauto with llrb|done|].
    exists u, h'. split_and!; [done..|]. by rewrite (plug_elements _ _ _ E).
Qed.

Lemma remove_at_inner n c l r red h above depth :
  ctx red h above -> llrb c h (Node n c l r) -> (c = RB_RED -> red = true) -> r <> NULL ->
  depth + 1 + height r < RB_MAX_DEPTH ->
  exists u h', remove_at n c l r above depth = Some u /\ llrb RB_BLACK h' u /\
    elements u = before above ++ elements l ++ elements r ++ after above.
Proof.
  intros Hc Ht Hr Hn Hd.
  assert (exists h', llrb RB_BLACK h' r /\
    forall sn, ctx false h' ((Node sn c l r, MAP_CMP_GREATER) :: above)) as (h' & Hrr & Hcr).
  { inversion Ht; subst; [|rewrite Hr in Hc by done]; eauto using ctx. }
  unfold remove_at.
  destruct (remove_successor_spec r false h' RB_BLACK (depth + 1))
    as (sn & sc & q & E & Hb & Ha & Hq); [done..|].
  rewrite E. cbn [mbind option_bind]. rewrite app_nil_r.
  destruct (Hq ((Node sn c l r, MAP_CMP_GREATER) :: above)) as (rd & h2 & Cq & Ls & Rs);
    [done|].
  destruct (prune_correct rd h2 _ sn sc Cq Ls Rs) as (u & h3 & Eu & Hu & Hel); [by destruct q|].
  exists u, h3. split_and!; [done..|].
  rewrite Hel, before_app, after_app, Hb, <- Ha. flat_app.
Qed.

Theorem rb_remove_spec t h n :
  sorted t -> llrb RB_BLACK h t -> height t < RB_MAX_DEPTH -> n ∈ elements t ->
  exists u h' lo hi, rb_remove cmp t n = Some u /\ llrb RB_BLACK h' u /\
    elements t = lo ++ n :: hi /\ elements u = lo ++ hi.
Proof.
  intros St Ht Hd Hn. unfold rb_remove.
  destruct (remove_find_spec n t false h RB_BLACK [] 0)
    as (c & l & r & above & d & red & h' & E & Hc & Hl & Hr & Hd' & He);
    [done|constructor|done..|].
  rewrite E. cbn [mbind option_bind]. rewrite Z.eqb_refl. cbn [negb].
  fold (remove_at n c l r above d).
  assert (exists u h', remove_at n c l r above d = Some u /\ llrb RB_BLACK h' u /\
    elements u = before above ++ elements l ++ elements r ++ after above)
    as (u & h2 & Eu & Hu & Hel).
  { destruct r as [|rn rc rl rr]; [by eapply remove_at_leaf|].
    cbn [height] in Hd'. eapply remove_at_inner; [done..|]. cbn [height]. lia. }
  exists u, h2, (before above ++ elements l), (elements r ++ after above).
  split_and!; [done..| |by rewrite Hel, <- app_assoc].
  cbn in He. rewrite app_nil_r in He. rewrite <- He. flat_app.
Qed.
End Descent.

(** * Depth: the path array is long enough *)

Section Bounds.
Context {K V : Type}.
Implicit Types (t : tree K V) (m : map_internal K V).

Lemma llrb_height c h t :
  llrb c h t -> height t <= 2 * Z.of_nat h + (if decide (c = RB_RED) then 1 else 0).
Proof.
  induction 1 as [|? c ? ? ? _ IHl _ IHr|? ? ? ? _ IHl _ IHr]; cbn [height].
  - done.
  - rewrite decide_False in * by done. destruct (decide (c = RB_RED)); lia.
  - rewrite decide_False in IHl, IHr by done. rewrite decide_True by done. lia.
Qed.

Lemma llrb_size c h t : llrb c h t -> 2 ^ Z.of_nat h <= Z.of_nat (length (elements t)) + 1.
Proof.
  induction 1; cbn [elements]; [done|..]; rewrite length_app; cbn [length]; [|lia].
  rewrite Nat2Z.inj_succ, Z.pow_succ_r by lia. lia.
Qed.

Lemma map_wf_height m :
  map_wf m -> map_count m < 2 ^ 64 - 1 -> height (root m) < RB_MAX_DEPTH - 1.
Proof.
  intros [[h Hh] _ _ Hn _] Hs. pose proof (llrb_height _ _ _ Hh) as H1. rewrite decide_False in H1 by done.
  pose proof (llrb_size _ _ _ Hh). unfold RB_MAX_DEPTH.
  destruct (Z.lt_ge_cases (Z.of_nat h) 64); [lia|].
  assert (2 ^ 64 <= 2 ^ Z.of_nat h) by (apply Z.pow_le_mono_r; lia). lia.
Qed.

(** * Layout of a node *)

Lemma align8_spec x : 0 <= x < 2 ^ 64 - 7 -> x <= align8 x < x + 8 /\ align8 x mod 8 = 0.
Proof.
  intros Hx. unfold align8, u64. change 0x10000000000000000 with (2 ^ 64).
  rewrite (Z.mod_small (x + 7)) by lia.
  assert (Z.land (x + 7) (Z.lnot 7 mod 2 ^ 64) = Z.ldiff (x + 7) (Z.ones 3)) as ->.
  { apply Z.bits_inj'. intros i Hi. rewrite Z.land_spec, Z.ldiff_spec, testbit_mod_pow2 by lia.
    change (Z.ones 3) with 7. rewrite Z.lnot_spec by done.
    destruct (Z.ltb_spec i 64); [done|]. by rewrite (testbit_above (x + 7) 64) by lia. }
  rewrite Z.ldiff_ones_r, Z.shiftl_mul_pow2, Z.shiftr_div_pow2 by lia.
  change (2 ^ 3) with 8. mlia.
Qed.

(** The key and the data of a node lie one after the other behind its links, and no size
    computation wraps around. *)
Lemma node_layout m :
  map_wf m ->
  32 <= key_offset /\ key_offset + key_size m <= data_offset (key_size m) /\
  total_size (key_size m) (data_size m) = data_offset (key_size m) + data_size m.
Proof.
  intros [_ _ _ _ (Hk & Hv & Hs)]. change max_size with 0x3fffffffffffffff in Hs.
  assert (key_offset = 32) as Hko by reflexivity. unfold data_offset, total_size. rewrite Hko.
  assert (u64 (32 + key_size m) = 32 + key_size m) as E
    by (unfold u64; apply Z.mod_small; lia).
  unfold data_offset. rewrite Hko, E. pose proof (align8_spec (32 + key_size m) ltac:(lia)).
  split_and!; [lia..|]. unfold u64. apply Z.mod_small. lia.
Qed.
End Bounds.

(** * The operations *)

Section Operations.
Context {K V : Type} `{!EqDecision K}.
Implicit Types (t u : tree K V) (m : map_internal K V) (n : map_node K V).

Section Sorted.
Context (cmp : K -> K -> map_cmp_t) `{!comparator_laws cmp}.

Lemma sorted_insert lo hi n :
  StronglySorted (node_lt (V := V) cmp) (lo ++ hi) ->
  Forall (fun x => cmp (key x) (key n) = MAP_CMP_LESS) lo ->
  Forall (fun x => cmp (key n) (key x) = MAP_CMP_LESS) hi ->
  StronglySorted (node_lt cmp) (lo ++ n :: hi).
Proof.
  rewrite !StronglySorted_app, StronglySorted_cons, !Forall_forall.
  intros (H & Hlo & Hhi) Bl Bh. split_and!; [|done..].
  intros x y Hx [->|Hy]%elem_of_cons; [by apply Bl|by apply H].
Qed.
Lemma sorted_delete lo hi n :
  StronglySorted (node_lt (V := V) cmp) (lo ++ n :: hi) ->
  StronglySorted (node_lt cmp) (lo ++ hi) /\ forall x, x ∈ lo ++ hi -> key x <> key n.
Proof.
  rewrite !StronglySorted_app, StronglySorted_cons, Forall_forall.
  intros (H & Hlo & Hn & Hhi). split.
  - split_and!; [|done..]. intros x y Hx Hy. apply H; [done|by right].
  - intros x [Hx|Hx]%elem_of_app.
    + apply (cmp_irrefl cmp), H; [done|by left].
    + apply not_eq_sym, (cmp_irrefl cmp), Hn, Hx.
Qed.

(** Lookups in two trees that differ by one node. *)
Lemma find_with_node t u lo hi n k :
  sorted cmp u -> elements t = lo ++ hi -> elements u = lo ++ n :: hi ->
  find_loop cmp k u = if decide (k = key n) then Some n else find_loop cmp k t.
Proof.
  intros Su Et Eu.
  assert (sorted cmp t /\ forall x, x ∈ elements t -> key x <> key n) as [St Hne].
  { unfold sorted in *. rewrite Et. rewrite Eu in Su. by apply sorted_delete. }
  apply option_eq. intros x. rewrite (find_loop_spec cmp) by done. rewrite Eu.
  assert (x ∈ lo ++ n :: hi <-> x = n \/ x ∈ elements t) as -> by (rewrite Et; set_solver).
  destruct (decide (k = key n)) as [->|Hk].
  - naive_solver.
  - rewrite (find_loop_spec cmp) by done. naive_solver.
Qed.
Lemma find_without_node t u lo hi n k :
  sorted cmp u -> elements t = lo ++ hi -> elements u = lo ++ n :: hi ->
  find_loop cmp k t = if decide (k = key n) then None else find_loop cmp k u.
Proof.
  intros Su Et Eu. rewrite (find_with_node t u lo hi n k) by done.
  assert (sorted cmp t /\ forall x, x ∈ elements t -> key x <> key n) as [St Hne].
  { unfold sorted in *. rewrite Et. rewrite Eu in Su. by apply sorted_delete. }
  destruct (decide (k = key n)) as [->|]; [|done].
  apply eq_None_not_Some. intros [x Hx%(find_loop_spec cmp)]; [|done]. naive_solver.
Qed.
End Sorted.

(** What the map relies on in the allocator: blocks are aligned and new. *)
Definition malloc_fresh (malloc : Z -> option Z) m : Prop :=
  forall sz a, malloc sz = Some a ->
    Z.land a 1 = 0 /\ a ∉ (node_addr <$> elements (root m)).

Lemma map_create_node_spec malloc zero m (k : K) (val : option V) :
  map_wf m -> malloc_fresh malloc m ->
  map_create_node malloc zero k val (key_size m) (data_size m)
  = Some ((fun a => Node (mk_node a k (default zero val)) RB_RED NULL NULL)
            <$> malloc (total_size (key_size m) (data_size m))).
Proof.
  intros Hm Hf. unfold map_create_node.
  destruct (node_layout m Hm) as (H1 & H2 & E). destruct Hm as [_ _ _ _ (Hk & Hv & _)].
  rewrite E. destruct (Z.ltb_spec (data_offset (key_size m) + data_size m) (data_size m)); [lia|].
  destruct (Z.ltb_spec (data_offset (key_size m) + data_size m) (key_size m)); [lia|].
  cbn [orb]. destruct (malloc _) as [a|] eqn:Ea; [|done]. unfold rb_node_init.
  cbn [node_addr]. by rewrite (proj1 (Hf _ _ Ea)).
Qed.

Lemma map_insert_new malloc zero m (k : K) (val : option V) path lo hi red a :
  comparator_laws (comparator m) -> map_wf m -> map_count m < 2 ^ 64 - 1 ->
  malloc_fresh malloc m -> malloc (total_size (key_size m) (data_size m)) = Some a ->
  ctx red 0 path -> elements (root m) = lo ++ hi -> before path = lo -> after path = hi ->
  Forall (fun x => comparator m (key x) k = MAP_CMP_LESS) lo ->
  Forall (fun x => comparator m k (key x) = MAP_CMP_LESS) hi ->
  let n := mk_node a k (default zero val) in
  exists t u, insert_fix path (Node n RB_RED NULL NULL) = Some t /\
    rb_node_set_black t = Some u /\ elements u = lo ++ n :: hi /\
    map_wf (with_root m u (u64 (map_count m + 1))).
Proof.
  intros Hcmp Hm Hs Hf Ea Hc Ee <- <- Hlo Hhi n.
  destruct (insert_fix_llrb red 0 path (Node n RB_RED NULL NULL)) as (t & u & h & E1 & E2 & Hu);
    [done|by repeat constructor|].
  assert (elements u = before path ++ n :: after path) as Eu.
  { rewrite <- (insert_fix_elements _ _ _ E1 : _ = before path ++ n :: after path).
    destruct t; [done|]. by injection E2 as <-. }
  exists t, u. split_and!; [done..|]. destruct Hm as [_ Hsort Haddr Hcount Hsizes].
  split; cbn [root with_root comparator map_count key_size data_size]; rewrite ?Eu; [by eauto|..|done].
  - rewrite Ee in Hsort. by apply sorted_insert.
  - rewrite Ee in Haddr. pose proof (proj2 (Hf _ _ Ea)) as Hfresh. rewrite Ee in Hfresh.
    rewrite fmap_app in *. cbn. apply NoDup_app in Haddr as (N1 & N2 & N3).
    rewrite NoDup_app, NoDup_cons. set_solver.
  - rewrite Ee, length_app in Hcount. rewrite length_app. cbn [length]. unfold u64.
    change 0x10000000000000000 with (2 ^ 64). rewrite Z.mod_small; lia.
Qed.

Lemma map_insert_spec malloc zero m (k : K) (val : option V) :
  comparator_laws (comparator m) -> map_wf m -> map_count m < 2 ^ 64 - 1 ->
  malloc_fresh malloc m ->
  exists r m', map_insert malloc zero (Some m) (Some k) val = Some (r, Some m') /\ map_wf m' /\
    comparator m' = comparator m /\
    match map_find (Some m) k, malloc (total_size (key_size m) (data_size m)) with
    | None, Some a =>
        r = true /\ map_size (Some m') = map_size (Some m) + 1 /\
        forall k', map_find (Some m') k'
          = if decide (k' = k) then Some (mk_node a k (default zero val))
            else map_find (Some m) k'
    | _, _ => r = false /\ m' = m
    end.
Proof.
  intros Hcmp Hm Hs Hf. cbn [map_insert map_find map_size].
  pose proof (map_wf_height m Hm Hs) as Hh. pose proof Hm as [[h Hb] Hsort _ Hcount _].
  pose proof (insert_unique_spec (comparator m) k (root m) false h RB_BLACK [] 0 Hsort
    (ctx_root h) Hb ltac:(done) Hh) as Hu.
  destruct rb_insert_unique as [n| |path]; cbn in Hu; [|done|].
  { apply (find_loop_spec (comparator m)) in Hu as ->; [|done]. by exists false, m. }
  destruct Hu as (red & lo & hi & Hc & Ee & Hb' & Ha & Hlo & Hhi). rewrite app_nil_r in Ha.
  assert (find_loop (comparator m) k (root m) = None) as ->.
  { apply eq_None_not_Some. intros [x [Hx Hk]%(find_loop_spec (comparator m))]; [|done].
    rewrite Ee in Hx. apply elem_of_app in Hx as [Hx|Hx];
      [by eapply (not_in_below (comparator m))|by eapply (not_in_above (comparator m))]. }
  rewrite map_create_node_spec by done. destruct (malloc _) as [a|] eqn:Ea; cbn;
    [|by exists false, m].
  destruct (map_insert_new malloc zero m k val path lo hi red a) as (t & u & E1 & E2 & Eu & Hu);
    [done..|].
  rewrite E1. cbn. rewrite E2. cbn. eexists true, _. split_and!; [done..| |].
  - pose proof (wf_count _ Hu) as Hc'. cbn in *. rewrite Hc', Eu, Hcount, Ee, !length_app.
    cbn. lia.
  - intros k'. cbn.
    exact (find_with_node (comparator m) (root m) u lo hi (mk_node a k _) k' (wf_sorted _ Hu) Ee Eu).
Qed.

(** C23: [map_insert].  On a well-formed map it never fails an assertion and never finds the
    tree too deep for its path array; it leaves a well-formed map (in order, balanced, with
    the right count).  If the key is present or no memory is left it returns [false] and
    changes nothing; otherwise it returns [true], and lookups see exactly the new entry
    added. *)
Theorem map_insert_correct malloc zero m (k : K) (val : option V) :
  comparator_laws (comparator m) -> map_wf m -> map_count m < 2 ^ 64 - 1 ->
  malloc_fresh malloc m ->
  exists r m', map_insert malloc zero (Some m) (Some k) val = Some (r, Some m') /\ map_wf m' /\
    comparator m' = comparator m /\
    match map_find (Some m) k, malloc (total_size (key_size m) (data_size m)) with
    | None, Some a =>
        r = true /\ map_size (Some m') = map_size (Some m) + 1 /\
        forall k', map_find (Some m') k'
          = if decide (k' = k) then Some (mk_node a k (default zero val))
            else map_find (Some m) k'
    | _, _ => r = false /\ m' = m
    end.
Proof. apply map_insert_spec. Qed.

Lemma map_erase_spec m (k : K) n :
  comparator_laws (comparator m) -> map_wf m -> map_count m < 2 ^ 64 - 1 ->
  map_find (Some m) k = Some n ->
  exists m', map_erase (Some m) (Some n) = Some (Some m', None) /\ map_wf m' /\
    comparator m' = comparator m /\ map_size (Some m') = map_size (Some m) - 1 /\
    forall k', map_find (Some m') k' = if decide (k' = k) then None else map_find (Some m) k'.
Proof.
  intros Hcmp Hm Hs Hfind. pose proof (map_wf_height m Hm Hs) as Hh.
  destruct Hm as [[h Hb] Hsort Haddr Hcount Hsizes]. cbn in Hfind.
  apply (find_loop_spec (comparator m)) in Hfind as [Hn <-]; [|done].
  destruct (rb_remove_spec (comparator m) (root m) h n) as (u & h' & lo & hi & E & Hu & Et & Eu);
    [done..|lia|done|].
  assert (map_count m = Z.of_nat (length (lo ++ hi)) + 1) as Hc
    by (rewrite Hcount, Et, !length_app; cbn; lia).
  cbn [map_erase]. destruct (Z.eqb_spec (map_count m) 0); [lia|]. rewrite E. cbn.
  destruct (Z.ltb_spec 0 (map_count m)); [|lia]. eexists. split_and!; [done| |done..|].
  - split; cbn; rewrite ?Eu; [by eauto|..|done].
    + rewrite Et in Hsort. by apply (sorted_delete (comparator m)) in Hsort as [? _].
    + rewrite Et, fmap_app in Haddr. rewrite fmap_app.
      apply NoDup_app in Haddr as (N1 & N2 & [_ N3]%NoDup_cons).
      apply NoDup_app. split_and!; [done| |done]. intros x Hx Hy. apply (N2 x Hx). by right.
    + lia.
  - intros k'. apply (find_without_node (comparator m) u (root m) lo hi); done.
Qed.

(** C24: [map_erase].  Erasing the entry an iterator from [map_find] stands on never fails
    an assertion, dereferences [NULL] or overruns the path array; it leaves a well-formed
    map without that entry, with every other entry, and clears the iterator. *)
Theorem map_erase_correct m (k : K) n :
  comparator_laws (comparator m) -> map_wf m -> map_count m < 2 ^ 64 - 1 ->
  map_find (Some m) k = Some n ->
  exists m', map_erase (Some m) (Some n) = Some (Some m', None) /\ map_wf m' /\
    comparator m' = comparator m /\ map_size (Some m') = map_size (Some m) - 1 /\
    forall k', map_find (Some m') k' = if decide (k' = k) then None else map_find (Some m) k'.
Proof. apply map_erase_spec. Qed.
End Operations.

(** * Iteration *)

Section Iteration.
Context {K V : Type}.
Implicit Types (t u l r : tree K V) (m : map_internal K V) (n : map_node K V).

Inductive subtree (u : tree K V) : tree K V -> Prop :=
  | sub_here : subtree u u
  | sub_left n c l r : subtree u l -> subtree u (Node n c l r)
  | sub_right n c l r : subtree u r -> subtree u (Node n c l r).

Lemma subtree_elements u t : subtree u t -> exists lo hi, elements t = lo ++ elements u ++ hi.
Proof.
  induction 1 as [|n c l r _ (lo & hi & E)|n c l r _ (lo & hi & E)].
  - exists [], []. by rewrite app_nil_r.
  - exists lo, (hi ++ n :: elements r). cbn. rewrite E. flat_app.
  - exists (elements l ++ n :: lo), hi. cbn. rewrite E. flat_app.
Qed.

Lemma node_at_None a t : a ∉ (node_addr <$> elements t) -> node_at a t = None.
Proof.
  induction t as [|n c l IHl r IHr]; cbn; [done|]. rewrite fmap_app. cbn. intros Ha.
  destruct (Z.eqb_spec (node_addr n) a); [set_solver|].
  rewrite IHl by set_solver. apply IHr. set_solver.
Qed.

Lemma node_at_spec n t :
  NoDup (node_addr <$> elements t) -> n ∈ elements t ->
  exists c l r, node_at (node_addr n) t = Some (Node n c l r) /\ subtree (Node n c l r) t.
Proof.
  induction t as [|n' c' l IHl r IHr]; cbn; [set_solver|].
  rewrite fmap_app. cbn. intros (N1 & N2 & [N3 N4]%NoDup_cons)%NoDup_app Hn.
  apply elem_of_app in Hn as [Hn|[->|Hn]%elem_of_cons].
  - assert (node_addr n ∈ (node_addr <$> elements l)) as Ha by (by apply list_elem_of_fmap_2).
    destruct (Z.eqb_spec (node_addr n') (node_addr n)) as [E|]; [set_solver|].
    destruct IHl as (c & l' & r' & -> & Hs); [done..|]. eauto 6 using subtree.
  - rewrite Z.eqb_refl. eauto 6 using subtree.
  - assert (node_addr n ∈ (node_addr <$> elements r)) as Ha by (by apply list_elem_of_fmap_2).
    destruct (Z.eqb_spec (node_addr n') (node_addr n)) as [E|]; [set_solver|].
    rewrite node_at_None by set_solver.
    destruct IHr as (c & l' & r' & -> & Hs); [done..|]. eauto 6 using subtree.
Qed.

Lemma head_leftmost n l : Some (leftmost n l) = head (elements l ++ [n]).
Proof.
  revert n. induction l as [|n' c l IHl r _]; intros n; cbn; [done|].
  rewrite IHl, <- app_assoc. by destruct (elements l).
Qed.
Lemma last_rightmost n r : Some (rightmost n r) = last (n :: elements r).
Proof.
  revert n. induction r as [|n' c l _ r IHr]; intros n; [done|].
  cbn [rightmost elements]. by rewrite IHr, app_comm_cons, last_app_cons.
Qed.

(** The neighbours of an element do not depend on how the list is split. *)
Lemma split_unique {A} (lo hi lo' hi' : list A) (n : A) :
  NoDup (lo ++ n :: hi) -> lo ++ n :: hi = lo' ++ n :: hi' -> lo = lo' /\ hi = hi'.
Proof.
  revert lo'. induction lo as [|x lo IH]; intros [|y lo']; cbn; rewrite ?NoDup_cons;
    intros Hd E; injection E; intros; subst; [done|set_solver..|].
  destruct Hd as [_ Hd]. match goal with E2 : lo ++ _ = _ |- _ => rename E2 into E' end.
  by destruct (IH _ Hd E') as [-> ->].
Qed.

Section Search.
Context (cmp : K -> K -> map_cmp_t) `{!comparator_laws cmp}.

(** The searches from the root, for a node without the child that would give the answer. *)
Lemma next_search_spec n c l t :
  subtree (Node n c l NULL) t -> sorted cmp t ->
  exists lo hi, elements t = lo ++ n :: hi /\
    forall succ, next_search cmp (key n) succ t = match hi with [] => succ | x :: _ => Some x end.
Proof.
  induction 1 as [|n' c' l' r' Hs IH|n' c' l' r' Hs IH]; intros St.
  - exists (elements l), []. cbn. split; [done|]. intros. by rewrite (cmp_refl cmp).
  - apply (sorted_node cmp) in St as (Sl & _ & Hl & _). destruct (IH Sl) as (lo & hi & E & Hn).
    exists lo, (hi ++ n' :: elements r'). cbn. rewrite E. split; [flat_app|]. intros succ.
    rewrite E, Forall_forall in Hl. rewrite (Hl n) by set_solver. rewrite Hn. by destruct hi.
  - apply (sorted_node cmp) in St as (_ & Sr & _ & Hr). destruct (IH Sr) as (lo & hi & E & Hn).
    exists (elements l' ++ n' :: lo), hi. cbn. rewrite E. split; [flat_app|]. intros succ.
    rewrite E, Forall_forall in Hr.
    assert (cmp (key n) (key n') = MAP_CMP_GREATER) as ->
      by (apply cmp_flip, Hr; set_solver).
    apply Hn.
Qed.
Lemma prev_search_spec n c r t :
  subtree (Node n c NULL r) t -> sorted cmp t ->
  exists lo hi, elements t = lo ++ n :: hi /\
    forall pred, prev_search cmp (key n) pred t
      = match last lo with None => pred | Some x => Some x end.
Proof.
  induction 1 as [|n' c' l' r' Hs IH|n' c' l' r' Hs IH]; intros St.
  - exists [], (elements r). cbn. split; [done|]. intros. by rewrite (cmp_refl cmp).
  - apply (sorted_node cmp) in St as (Sl & _ & Hl & _). destruct (IH Sl) as (lo & hi & E & Hn).
    exists lo, (hi ++ n' :: elements r'). cbn. rewrite E. split; [flat_app|]. intros succ.
    rewrite E, Forall_forall in Hl. rewrite (Hl n) by set_solver. apply Hn.
  - apply (sorted_node cmp) in St as (_ & Sr & _ & Hr). destruct (IH Sr) as (lo & hi & E & Hn).
    exists (elements l' ++ n' :: lo), hi. cbn. rewrite E. split; [flat_app|]. intros succ.
    rewrite E, Forall_forall in Hr.
    assert (cmp (key n) (key n') = MAP_CMP_GREATER) as ->
      by (apply cmp_flip, Hr; set_solver).
    rewrite Hn. rewrite last_app_cons. destruct lo as [|x lo] using rev_ind; [done|].
    by rewrite app_comm_cons, !last_snoc.
Qed.
End Search.

(** C25: iteration.  [map_first] and [map_last] give the ends of the sorted sequence of
    entries, [map_next] and [map_prev] lead from an entry to its neighbours and off the
    ends to the end iterator. *)
Theorem map_iteration_correct m lo n hi :
  comparator_laws (comparator m) -> map_wf m -> elements (root m) = lo ++ n :: hi ->
  map_first (Some m) = head (elements (root m)) /\
  map_last (Some m) = last (elements (root m)) /\
  map_next (Some m) (Some n) = Some (head hi) /\
  map_prev (Some m) (Some n) = Some (last lo).
Proof.
  intros Hc [_ Hs Ha _ _] E.
  assert (NoDup (lo ++ n :: hi)) as Hd by (rewrite <- E; by eapply NoDup_fmap_1).
  destruct (node_at_spec n (root m) Ha) as (c & l & r & Hn & Hsub); [by rewrite E; set_solver|].
  destruct (subtree_elements _ _ Hsub) as (lo' & hi' & E'). cbn in E'.
  assert (lo = lo' ++ elements l /\ hi = elements r ++ hi') as [-> ->].
  { apply (split_unique _ _ _ _ n Hd). rewrite <- E, E'. flat_app. }
  split_and!.
  - cbn. destruct (root m) as [|rn rc rl rr]; [done|]. cbn. rewrite head_leftmost.
    by destruct (elements rl).
  - cbn. destruct (root m) as [|rn rc rl rr]; [done|]. cbn [elements].
    by rewrite last_rightmost, last_app_cons.
  - cbn. rewrite Hn. cbn. destruct r as [|rn rc rl rr].
    + destruct (next_search_spec (comparator m) n c l (root m)) as (lo2 & hi2 & E2 & ->);
        [done..|].
      destruct (split_unique _ _ lo2 hi2 n Hd) as [_ <-]; [by rewrite <- E|].
      by destruct hi'.
    + f_equal. rewrite head_leftmost. cbn. by destruct (elements rl).
  - cbn. rewrite Hn. cbn. destruct l as [|ln lc ll lr].
    + destruct (prev_search_spec (comparator m) n c r (root m)) as (lo2 & hi2 & E2 & ->);
        [done..|].
      destruct (split_unique _ _ lo2 hi2 n Hd) as [<- _]; [by rewrite <- E|].
      cbn. rewrite app_nil_r. by destruct (last lo').
    + f_equal. rewrite last_rightmost. cbn [elements]. by rewrite app_assoc, last_app_cons.
Qed.
End Iteration.

(** * Construction, destruction and witnesses *)

#[export] Instance map_cmp_int_laws : comparator_laws map_cmp_int.
Proof.
  split; intros *; unfold map_cmp_int;
    repeat match goal with |- context [?a <? ?b] => destruct (Z.ltb_spec a b) end; cbn;
    (split || idtac); intros; try done; lia.
Qed.

Section Lifetime.
Context {K V : Type}.

(** A new map is well-formed and empty. *)
Lemma map_new_wf malloc ksize vsize cmp (m : map_internal K V) :
  0 <= ksize < 2 ^ 64 -> 0 <= vsize < 2 ^ 64 ->
  map_new malloc ksize vsize (Some cmp) = Some m ->
  map_wf m /\ comparator m = cmp /\ forall k, map_find (Some m) k = None.
Proof.
  intros Hk Hv. unfold map_new. destruct (Z.eqb_spec ksize 0), (Z.eqb_spec vsize 0); try done.
  cbn [orb]. destruct (Z.ltb_spec max_size ksize), (Z.ltb_spec max_size vsize); try done.
  cbn [orb]. change max_size with 0x3fffffffffffffff in *. unfold u64.
  rewrite Z.mod_small by lia.
  destruct (Z.ltb_spec (0x3fffffffffffffff - 32) (ksize + vsize)); [done|].
  destruct (malloc 40); [|done]. intros [= <-]. split_and!; [|done..].
  split; cbn; [eauto with llrb|constructor..|done|]. change max_size with 0x3fffffffffffffff. lia.
Qed.

(** [map_clear] frees every node once. *)
Lemma rb_destroy_recurse_all (t : tree K V) : rb_destroy_recurse t ≡ₚ elements t.
Proof.
  induction t as [|n c l IHl r IHr]; cbn; [done|]. rewrite IHl, IHr. f_equiv.
  by rewrite <- Permutation_cons_append.
Qed.
Lemma map_clear_correct (m : map_internal K V) :
  map_wf m ->
  map_wf (map_clear m).1 /\ (map_clear m).2 ≡ₚ elements (root m) /\
  map_empty (Some (map_clear m).1) = true.
Proof.
  intros [_ _ _ _ Hs]. split_and!; [|apply rb_destroy_recurse_all|done].
  split; cbn; [eauto with llrb|constructor..|done|done].
Qed.
End Lifetime.

Definition no_entry : map_internal Z bool := mk_map NULL 4 1 0 map_cmp_int.
Definition one_entry : map_internal Z bool :=
  mk_map (Node (mk_node 4096 7 true) RB_BLACK NULL NULL) 4 1 1 map_cmp_int.

Lemma no_entry_wf : map_wf no_entry.
Proof. split; cbn; [eauto with llrb|constructor..|done|by vm_compute]. Qed.
Lemma one_entry_wf : map_wf one_entry.
Proof.
  split; cbn; [eauto with llrb|repeat constructor| |done|by vm_compute].
  apply NoDup_singleton.
Qed.

Lemma map_insert_correct_witness :
  exists r m', map_insert (fun _ => Some 4096) false (Some no_entry) (Some 7) (Some true)
    = Some (r, Some m') /\ map_wf m' /\ r = true.
Proof.
  destruct (map_insert_correct (fun _ => Some 4096) false no_entry 7 (Some true))
    as (r & m' & E & Hm & _ & Hr & _).
  - apply map_cmp_int_laws.
  - apply no_entry_wf.
  - reflexivity.
  - intros sz a [= <-]. split; [reflexivity|]. cbn. set_solver.
  - exists r, m'. auto.
Defined.
Lemma map_erase_correct_witness :
  exists m', map_erase (Some one_entry) (Some (mk_node 4096 7 true)) = Some (Some m', None) /\
    map_wf m' /\ map_size (Some m') = 0.
Proof.
  destruct (map_erase_correct one_entry 7 (mk_node 4096 7 true)) as (m' & E & Hm & _ & Hs & _).
  - apply map_cmp_int_laws.
  - apply one_entry_wf.
  - reflexivity.
  - reflexivity.
  - exists m'. auto.
Defined.
Lemma map_iteration_correct_witness :
  map_first (Some one_entry) = Some (mk_node 4096 7 true) /\
  map_next (Some one_entry) (Some (mk_node 4096 7 true)) = Some None.
Proof.
  destruct (map_iteration_correct one_entry [] (mk_node 4096 7 true) []) as (E1 & _ & E2 & _).
  - apply map_cmp_int_laws.
  - apply one_entry_wf.
  - reflexivity.
  - split; [exact E1|exact E2].
Defined.
