(* ===== verification/Utils.v ===== *)
(** Path handling, the hash function, the hash set and alignment of src/src/utils.c and
    utils.h.

    Strings are lists of character codes without the terminating zero.  [None] is an access
    outside of an array, undefined behaviour or a failed assertion. *)

From S2P Require Import Prelude.

(** * Paths *)

Definition MAX_PATH_LEN : nat := 1024.
Definition SLASH : Z := 47.
Definition DOT : Z := 46.

(** The local variables of [sanitize_path]: the buffer, the write index, the read index and
    the position at which backing up must stop. *)
Record path_state := mk_path { ret : list Z; w : nat; r : nat; dotdot : nat }.

(** [ret[w] = c; w++;] *)
Definition put_char (c : Z) (s : path_state) : option path_state :=
  if (w s <? length (ret s))%nat
  then Some (mk_path (<[w s := c]> (ret s)) (S (w s)) (r s) (dotdot s)) else None.

(** [while (w > dotdot && ret[w] != '/') w--;] *)
Fixpoint back_up (buf : list Z) (stop w : nat) : option nat :=
  match w with
  | O => Some O
  | S w' =>
      if (stop <? w)%nat then
        c ← buf !! w;
        if c =? SLASH then Some w else back_up buf stop w'
      else Some w
  end.

(** [for (; r < n && input[r] != '/'; r++) ret[w++] = input[r];] *)
Fixpoint copy_element (input : list Z) (n fuel : nat) (s : path_state) : option path_state :=
  match fuel with
  | O => Some s
  | S fuel =>
      if (r s <? n)%nat then
        c ← input !! r s;
        if c =? SLASH then Some s
        else
          s ← put_char c s;
          copy_element input n fuel (mk_path (ret s) (w s) (S (r s)) (dotdot s))
      else Some s
  end.

(** [i == n || input[i] == '/'] *)
Definition ends_element (input : list Z) (n i : nat) : option bool :=
  if (i =? n)%nat then Some true else c ← input !! i; Some (c =? SLASH).

(** The test for a dot element at the read index; [c] is the character there. *)
Definition is_dot (input : list Z) (n i : nat) (c : Z) : option bool :=
  if c =? DOT then ends_element input n (S i) else Some false.
Definition is_dotdot (input : list Z) (n i : nat) (c : Z) : option bool :=
  if c =? DOT then
    c1 ← input !! S i;
    if c1 =? DOT then ends_element input n (S (S i)) else Some false
  else Some false.

(** The case of a dot-dot element. *)
Definition path_up (is_root : bool) (s : path_state) : option path_state :=
  if (dotdot s <? w s)%nat then
    w' ← back_up (ret s) (dotdot s) (pred (w s));
    Some (mk_path (ret s) w' (r s) (dotdot s))
  else if negb is_root then
    s ← (if (0 <? w s)%nat then put_char SLASH s else Some s);
    s ← put_char DOT s;
    s ← put_char DOT s;
    Some (mk_path (ret s) (w s) (r s) (w s))
  else Some s.

(** One iteration of the main loop. *)
Definition path_step (input : list Z) (n : nat) (is_root : bool) (s : path_state)
    : option path_state :=
  c ← input !! r s;
  if c =? SLASH then Some (mk_path (ret s) (w s) (S (r s)) (dotdot s))
  else
    dot ← is_dot input n (r s) c;
    if (dot : bool) then Some (mk_path (ret s) (w s) (S (r s)) (dotdot s))
    else
      up ← is_dotdot input n (r s) c;
      if (up : bool) then path_up is_root (mk_path (ret s) (w s) (S (S (r s))) (dotdot s))
      else
        s ← (if (is_root && negb (w s =? 1)%nat) || (negb is_root && negb (w s =? 0)%nat)
             then put_char SLASH s else Some s);
        copy_element input n n s.

(** [while (r < n)]; every iteration advances [r], so [n] iterations are enough. *)
Fixpoint path_loop (input : list Z) (n : nat) (is_root : bool) (fuel : nat) (s : path_state)
    : option path_state :=
  match fuel with
  | O => if (r s <? n)%nat then None else Some s
  | S fuel =>
      if (r s <? n)%nat
      then s ← path_step input n is_root s; path_loop input n is_root fuel s
      else Some s
  end.

(** The returned buffer; the inner [None] is the [NULL] after a failed [calloc]. *)
Definition sanitize_path (calloc_ok : bool) (input : list Z) : option (option (list Z)) :=
  let n := Nat.min (length input) MAX_PATH_LEN in
  if negb calloc_ok then Some None
  else
    let buf := replicate (S n) 0 in
    if (n =? 0)%nat then Some (Some (<[O := DOT]> buf))
    else
      first ← input !! O;
      let is_root := first =? SLASH in
      s ← (if is_root then s ← put_char SLASH (mk_path buf 0 0 0); Some (mk_path (ret s) (w s) 1 1)
           else Some (mk_path buf 0 0 0));
      s ← path_loop input n is_root n s;
      s ← (if (w s =? 0)%nat then put_char DOT s else Some s);
      Some (Some (take (w s) (ret s) ++ replicate (S n - w s) 0)).

(** The C string in a buffer: the characters before the first zero. *)
Fixpoint c_string (buf : list Z) : list Z :=
  match buf with
  | [] => []
  | c :: buf => if c =? 0 then [] else c :: c_string buf
  end.

(** * Hashing *)

(** The two versions of [HASH_FUNC_IMPL]: 64-bit keys with JIT and SYSTEM, 32-bit keys
    otherwise.  A shift by the width of the key is undefined. *)
Definition hash64 (size_bits size val : Z) : option Z :=
  if (0 <? size_bits) && (size_bits <=? 64)
  then Some (Z.land (Z.shiftr (u64 (val * 0x61c8864680b583eb)) (64 - size_bits)) (size - 1))
  else None.
Definition hash32 (size_bits size val : Z) : option Z :=
  if (0 <? size_bits) && (size_bits <=? 32)
  then Some (Z.land (Z.shiftr (u32 (val * 0x61C88647)) (32 - size_bits)) (size - 1))
  else None.

(** * The hash set *)

Definition SET_SIZE_BITS : Z := 10.
Definition SET_SIZE : nat := 1024.
Definition SET_SLOTS_SIZE : nat := 32.

(** [table[SET_SIZE][SET_SLOTS_SIZE]]; an access past the end of a row is undefined. *)
Definition set_t : Type := list (list Z).

(** [rv_hash_key_t] is [uint32_t] in the build without SYSTEM, which is modelled. *)
Definition set_hash (key : Z) : option Z := hash32 SET_SIZE_BITS 1024 key.
Definition set_reset : set_t := replicate SET_SIZE (replicate SET_SLOTS_SIZE 0).

(** The loop over a row from slot [count]: whether the key was met, and the slot where the
    loop stopped. *)
Fixpoint set_scan (row : list Z) (key : Z) (count : nat) : option (bool * nat) :=
  match row with
  | [] => None
  | slot :: row =>
      if slot =? 0 then Some (false, count)
      else if slot =? key then Some (true, count)
      else set_scan row key (S count)
  end.

Definition set_add (set : set_t) (key : Z) : option (bool * set_t) :=
  index ← set_hash key;
  row ← set !! Z.to_nat index;
  '(found, count) ← set_scan row key 0;
  if (found : bool) then Some (false, set)
  else Some (true, <[Z.to_nat index := <[count := key]> row]> set).

Definition set_has (set : set_t) (key : Z) : option bool :=
  index ← set_hash key;
  row ← set !! Z.to_nat index;
  '(found, _) ← set_scan row key 0;
  Some found.

(** * Alignment *)

Definition align_up (sz alignment : Z) : option Z :=
  let mask := u64 (alignment - 1) in
  if Z.land alignment mask =? 0 then Some (Z.land (u64 (sz + mask)) (u64 (Z.lnot mask)))
  else Some (u64 (u64 (sz + mask) / alignment * alignment)).
