(* ===== verification/UtilsProofs.v ===== *)
(** [sanitize_path] against a specification on path components, the hash set as a set, and
    the bounds of the hash functions. *)

From S2P Require Import Prelude.
From S2P Require Import Utils.

(** * Specification of paths

    A path is its components.  Normalising keeps the components that survive as a number of
    leading [..] and a stack of ordinary components, top first. *)

Fixpoint split_slash (s : list Z) : list (list Z) :=
  match s with
  | [] => [[]]
  | c :: s =>
      if c =? SLASH then [] :: split_slash s
      else match split_slash s with e :: es => (c :: e) :: es | [] => [[c]] end
  end.

Definition step_component (root : bool) (st : nat * list (list Z)) (e : list Z)
    : nat * list (list Z) :=
  let '(k, stack) := st in
  if decide (e = [] \/ e = [DOT]) then st
  else if decide (e = [DOT; DOT]) then
    match stack with
    | _ :: stack => (k, stack)
    | [] => if root then st else (S k, [])
    end
  else (k, e :: stack).

Definition normalize (root : bool) (path : list Z) : nat * list (list Z) :=
  foldl (step_component root) (O, []) (split_slash path).

Fixpoint join (es : list (list Z)) : list Z :=
  match es with
  | [] => []
  | [e] => e
  | e :: es => e ++ SLASH :: join es
  end.

Definition components (st : nat * list (list Z)) : list (list Z) :=
  replicate st.1 [DOT; DOT] ++ rev st.2.
Definition render (root : bool) (st : nat * list (list Z)) : list Z :=
  (if root then [SLASH] else []) ++ join (components st).

Definition is_rooted (path : list Z) : bool :=
  match path with c :: _ => c =? SLASH | [] => false end.

Definition clean (path : list Z) : list Z :=
  match render (is_rooted path) (normalize (is_rooted path) path) with
  | [] => [DOT]
  | res => res
  end.

(** * Elements *)

Definition plain (e : list Z) : Prop := e <> [] /\ Forall (fun c => c <> SLASH) e.
(** The rest of a path after an element. *)
Definition at_slash (rest : list Z) : Prop :=
  match rest with [] => True | c :: _ => c = SLASH end.

Lemma split_slash_element e rest :
  Forall (fun c => c <> SLASH) e -> at_slash rest ->
  exists es, split_slash rest = [] :: es /\ split_slash (e ++ rest) = e :: es.
Proof.
  intros He Hr. induction He as [|c e Hc He IH].
  - destruct rest as [|c rest]; cbn; [by exists []|]. cbn in Hr. subst c. cbn. by eexists.
  - destruct IH as (es & E1 & E2). exists es. split; [done|]. cbn [app split_slash].
    rewrite E2. by destruct (Z.eqb_spec c SLASH).
Qed.

Lemma step_nil root st : step_component root st [] = st.
Proof. destruct st. unfold step_component. rewrite decide_True by (by left). done. Qed.

(** Normalising the rest of a path from a stack. *)
Definition run (root : bool) st (rest : list Z) := foldl (step_component root) st (split_slash rest).

Lemma run_slash root st rest : run root st (SLASH :: rest) = run root st rest.
Proof. unfold run. cbn. by rewrite step_nil. Qed.
Lemma run_nil root st : run root st [] = st.
Proof. unfold run. cbn. apply step_nil. Qed.
Lemma run_element root st e rest :
  Forall (fun c => c <> SLASH) e -> at_slash rest ->
  run root st (e ++ rest) = run root (step_component root st e) rest.
Proof.
  intros He Hr. unfold run. destruct (split_slash_element e rest He Hr) as (es & -> & ->).
  cbn. by rewrite step_nil.
Qed.

Lemma next_element c rest :
  c <> SLASH -> exists e rest', c :: rest = (c :: e) ++ rest' /\
    Forall (fun c => c <> SLASH) (c :: e) /\ at_slash rest'.
Proof.
  intros Hc. revert c Hc. induction rest as [|c' rest IH]; intros c Hc.
  - exists [], []. split_and!; [done| |done]. by repeat constructor.
  - destruct (decide (c' = SLASH)) as [->|Hc'].
    + exists [], (SLASH :: rest). split_and!; [done| |done]. by repeat constructor.
    + destruct (IH c' Hc') as (e & rest' & E & He & Hr). exists (c' :: e), rest'.
      split_and!; [cbn in *; congruence| |done]. by constructor.
Qed.

Lemma join_snoc es e : join (es ++ [e]) = match es with [] => e | _ => join es ++ SLASH :: e end.
Proof.
  induction es as [|x es IH]; [done|]. cbn [app]. destruct es as [|y es]; [done|].
  cbn [app] in *. change (join (x :: y :: es ++ [e])) with (x ++ SLASH :: join (y :: es ++ [e])).
  change (join (x :: y :: es)) with (x ++ SLASH :: join (y :: es)).
  rewrite IH. by rewrite <- app_assoc.
Qed.

Lemma components_push k stack e : components (k, e :: stack) = components (k, stack) ++ [e].
Proof. unfold components. cbn. by rewrite app_assoc. Qed.
Lemma components_up k : components (S k, []) = components (k, []) ++ [[DOT; DOT]].
Proof.
  unfold components. cbn [fst snd rev]. rewrite !app_nil_r.
  replace (S k) with (k + 1)%nat by lia. by rewrite replicate_add.
Qed.

(** The separator before a new last component. *)
Definition sep (root : bool) st : list Z :=
  match components st with [] => [] | _ => [SLASH] end.
Lemma render_push root k stack e :
  render root (k, e :: stack) = render root (k, stack) ++ sep root (k, stack) ++ e.
Proof.
  unfold render, sep. rewrite components_push, join_snoc.
  destruct (components (k, stack)); [by rewrite app_nil_r|]. by rewrite <- app_assoc.
Qed.
Lemma render_up root k :
  render root (S k, []) = render root (k, []) ++ sep root (k, []) ++ [DOT; DOT].
Proof.
  unfold render, sep. rewrite components_up, join_snoc.
  destruct (components (k, [])); [by rewrite app_nil_r|]. by rewrite <- app_assoc.
Qed.

(** * The loops of [sanitize_path] *)

Lemma put_char_spec c s :
  (w s < length (ret s))%nat ->
  exists buf, put_char c s = Some (mk_path buf (S (w s)) (r s) (dotdot s)) /\
    length buf = length (ret s) /\ take (S (w s)) buf = take (w s) (ret s) ++ [c].
Proof.
  intros Hw. unfold put_char. destruct (Nat.ltb_spec (w s) (length (ret s))); [|lia].
  eexists. split_and!; [done|by rewrite length_insert|].
  rewrite (take_S_r _ _ c) by (by rewrite list_lookup_insert_eq). by rewrite take_insert_ge by lia.
Qed.

Lemma back_up_spec buf stop w p :
  (stop <= p <= w)%nat ->
  (forall i, (p < i <= w)%nat -> exists c, buf !! i = Some c /\ c <> SLASH) ->
  (p = stop \/ buf !! p = Some SLASH) ->
  back_up buf stop w = Some p.
Proof.
  intros Hp Hi He. induction w as [|w IH]; cbn [back_up]; [f_equal; lia|].
  destruct (Nat.ltb_spec stop (S w)); [|f_equal; lia].
  destruct (decide (p = S w)) as [->|].
  - destruct He as [|E]; [lia|]. rewrite E. done.
  - destruct (Hi (S w)) as (c & E & Hc); [lia|]. rewrite E. cbn.
    destruct (Z.eqb_spec c SLASH); [done|]. apply IH; [lia|]. intros i Hi'. apply Hi. lia.
Qed.

Section Loop.
Context (input : list Z) (n : nat) (Hn : (n <= length input)%nat).
#[local] Abbreviation inp := (take n input).

Lemma read_input i : (i < n)%nat -> input !! i = inp !! i.
Proof. intros. by rewrite lookup_take_lt. Qed.
Lemma length_inp : length inp = n.
Proof. rewrite length_take. lia. Qed.
Lemma drop_head i c rest :
  drop i inp = c :: rest -> (i < n)%nat /\ input !! i = Some c /\ drop (S i) inp = rest.
Proof.
  intros E. assert (i < n)%nat as Hi.
  { pose proof (f_equal length E) as L. rewrite length_drop, length_inp in L. cbn in L. lia. }
  split; [done|]. split.
  - rewrite read_input by done. by rewrite <- (Nat.add_0_r i), <- lookup_drop, E.
  - replace (S i) with (i + 1)%nat by lia. by rewrite <- drop_drop, E.
Qed.
Lemma drop_nil i : drop i inp = [] -> (n <= i)%nat.
Proof. intros E. pose proof (f_equal length E) as L. rewrite length_drop, length_inp in L. cbn in L. lia. Qed.

Lemma copy_element_spec fuel e rest s :
  drop (r s) inp = e ++ rest -> Forall (fun c => c <> SLASH) e -> at_slash rest ->
  (length e <= fuel)%nat -> (w s + length e <= length (ret s))%nat -> (r s <= n)%nat ->
  exists buf, copy_element input n fuel s
      = Some (mk_path buf (w s + length e) (r s + length e) (dotdot s)) /\
    length buf = length (ret s) /\ take (w s + length e) buf = take (w s) (ret s) ++ e.
Proof.
  revert e s. induction fuel as [|fuel IH]; intros e s E He Hr Hf Hw Hrn.
  - destruct e; [|cbn in Hf; lia]. exists (ret s). cbn. rewrite !Nat.add_0_r, app_nil_r.
    by destruct s.
  - destruct e as [|c e]; cbn [length] in *.
    + exists (ret s). rewrite !Nat.add_0_r, app_nil_r. split_and!; [|done..].
      cbn [copy_element]. destruct (Nat.ltb_spec (r s) n); [|by destruct s].
      destruct rest as [|c rest]; [apply drop_nil in E; lia|].
      apply drop_head in E as (_ & -> & _). cbn in *. subst c. by destruct s.
    + inversion He; subst. cbn [app] in E. apply drop_head in E as (Hi & Hc & E).
      cbn [copy_element]. destruct (Nat.ltb_spec (r s) n); [|lia]. rewrite Hc.
      cbn [mbind option_bind]. destruct (Z.eqb_spec c SLASH); [done|].
      destruct (put_char_spec c s) as (buf & -> & L1 & T1); [lia|]. cbn.
      destruct (IH e (mk_path buf (S (w s)) (S (r s)) (dotdot s))) as (buf' & E2 & L2 & T2);
        cbn; [done..|lia|rewrite L1; lia|lia|].
      cbn in *. exists buf'. rewrite E2, L2, L1. replace (w s + S (length e))%nat with (S (w s + length e)) by lia.
      replace (r s + S (length e))%nat with (S (r s + length e)) by lia.
      split_and!; [done..|]. rewrite T2, T1, <- app_assoc. done.
Qed.

Lemma ends_element_spec i rest :
  drop i inp = rest -> (i <= n)%nat ->
  ends_element input n i = Some (match rest with [] => true | c :: _ => c =? SLASH end).
Proof.
  intros E Hi. unfold ends_element. destruct (Nat.eqb_spec i n) as [->|].
  - rewrite drop_ge in E by (rewrite length_inp; lia). by subst.
  - destruct rest as [|c rest]; [apply drop_nil in E; lia|].
    by apply drop_head in E as (_ & -> & _).
Qed.

(** The two dot tests recognise exactly the dot elements. *)
Lemma dot_tests i c e rest :
  drop i inp = (c :: e) ++ rest -> Forall (fun c => c <> SLASH) (c :: e) -> at_slash rest ->
  is_dot input n i c = Some (bool_decide (c :: e = [DOT])) /\
  (c :: e <> [DOT] -> is_dotdot input n i c = Some (bool_decide (c :: e = [DOT; DOT]))).
Proof.
  intros E He Hr. cbn in E. apply drop_head in E as (Hi & Hc & E). unfold is_dot, is_dotdot.
  inversion He as [|? ? _ He']; subst.
  assert (ends_element input n (S i) = Some (bool_decide (e = []))) as Hend.
  { rewrite (ends_element_spec _ _ eq_refl), E by lia. destruct e as [|c' e]; cbn.
    - destruct rest; cbn in *; [done|]. by subst.
    - inversion He'; subst. by destruct (Z.eqb_spec c' SLASH). }
  destruct (Z.eqb_spec c DOT) as [->|Hd].
  2: { split; [|intros _]; f_equal; symmetry; apply bool_decide_eq_false; congruence. }
  split; [rewrite Hend; f_equal; apply bool_decide_ext; naive_solver|].
  intros Hne. destruct e as [|c' e]; [done|]. cbn in E. apply drop_head in E as (Hi' & -> & E).
  cbn [mbind option_bind]. destruct (Z.eqb_spec c' DOT) as [->|Hd'].
  2: { f_equal. symmetry. apply bool_decide_eq_false. congruence. }
  rewrite (ends_element_spec _ _ eq_refl), E by lia. f_equal.
  inversion He' as [|? ? _ He'']; subst. destruct e as [|c' e]; cbn.
  - destruct rest; cbn in *; [done|]. by subst.
  - inversion He''; subst. by destruct (Z.eqb_spec c' SLASH).
Qed.

(** What the local variables say: the buffer holds the components that have survived so
    far, backing up stops after the leading [..], and there is room for what the rest of
    the input can add. *)
Record path_inv (root : bool) (s : path_state) (k : nat) (stack : list (list Z)) : Prop := {
  pi_length : length (ret s) = S n;
  pi_buffer : take (w s) (ret s) = render root (k, stack);
  pi_w : w s = length (render root (k, stack));
  pi_stop : dotdot s = length (render root (k, []));
  pi_plain : Forall plain stack;
  pi_root : root = true -> k = O;
  pi_r : (r s <= n)%nat;
  pi_room : (w s <= r s)%nat;
  pi_sep : w s = length (render root (O, [])) \/ (w s < r s)%nat \/ at_slash (drop (r s) inp) }.

Lemma plain_dotdot : plain [DOT; DOT].
Proof. split; [done|]. by repeat constructor. Qed.

Lemma join_empty es : Forall plain es -> join es = [] -> es = [].
Proof.
  destruct 1 as [|e es [He _] _]; [done|]. by destruct es; cbn; intros E; destruct e.
Qed.

Lemma components_plain k stack : Forall plain stack -> Forall plain (components (k, stack)).
Proof.
  intros Hs. apply Forall_app. split; [apply Forall_replicate, plain_dotdot|].
  by apply Forall_rev.
Qed.

(** The buffer has only its root exactly when there is no component. *)
Lemma sep_spec root k stack :
  Forall plain stack ->
  sep root (k, stack)
  = if decide (length (render root (k, stack)) = length (render root (O, []))) then []
    else [SLASH].
Proof.
  intros Hs%(components_plain k). unfold sep, render. rewrite !length_app.
  change (length (join (components (O, [])))) with O.
  destruct (components (k, stack)) eqn:E; [by rewrite decide_True|]. rewrite <- E in *.
  rewrite decide_False; [done|]. intros L. assert (length (join (components (k, stack))) = O) by lia.
  assert (components (k, stack) = []); [|congruence].
  apply join_empty; [done|]. by apply nil_length_inv.
Qed.

Lemma write_element root s k stack (e : list Z) :
  path_inv root s k stack -> ~ at_slash (drop (r s) inp) -> (r s + length e <= n)%nat ->
  exists buf, (if decide (w s = length (render root (O, []))) then Some s else put_char SLASH s)
      = Some (mk_path buf (w s + length (sep root (k, stack))) (r s) (dotdot s)) /\
    length buf = S n /\
    take (w s + length (sep root (k, stack))) buf = render root (k, stack) ++ sep root (k, stack) /\
    (w s + length (sep root (k, stack)) <= r s)%nat.
Proof.
  intros [L B W St P R Hr Ro Se] Hns He. rewrite sep_spec by done. rewrite <- W.
  destruct (decide (w s = length (render root (O, [])))).
  - exists (ret s). cbn. rewrite Nat.add_0_r, app_nil_r. split_and!; [by destruct s|done..].
  - destruct Se as [|[Se|]]; [done| |done].
    destruct (put_char_spec SLASH s) as (buf & E & L' & T); [lia|].
    exists buf. cbn. replace (w s + 1)%nat with (S (w s)) by lia. rewrite T, B.
    split_and!; [done|congruence|done|lia].
Qed.

Lemma render_prefix root k stack : exists t, render root (k, stack) = render root (k, []) ++ t.
Proof.
  induction stack as [|e stack [t IH]]; [exists []; by rewrite app_nil_r|].
  rewrite render_push, IH, <- app_assoc. eauto.
Qed.

Lemma sep_nil root k stack : sep root (k, stack) = [] -> k = O /\ stack = [].
Proof.
  unfold sep, components. destruct k; [|done]. destruct stack as [|x stack]; [done|].
  cbn. by destruct (rev stack).
Qed.

Lemma path_up_pop root s k e stack rd :
  path_inv root s k (e :: stack) ->
  path_up root (mk_path (ret s) (w s) rd (dotdot s))
  = Some (mk_path (ret s) (length (render root (k, stack))) rd (dotdot s)) /\
  take (length (render root (k, stack))) (ret s) = render root (k, stack) /\
  (length (render root (k, stack)) < w s)%nat.
Proof.
  intros [L B W St P R Hr Ro Se]. inversion P as [|? ? [Hne Hsl] P']; subst.
  rewrite render_push in B, W. rewrite !length_app in W.
  assert (0 < length e)%nat by (destruct e; [done|cbn; lia]).
  destruct (render_prefix root k stack) as [t Et].
  assert (length (render root (k, stack)) = length (render root (k, [])) + length t)%nat as Lt
    by (by rewrite Et, length_app).
  set (p := length (render root (k, stack))) in *.
  assert (forall i, (i < w s)%nat ->
    ret s !! i = (render root (k, stack) ++ sep root (k, stack) ++ e) !! i) as Hget.
  { intros i Hi. by rewrite <- B, lookup_take_lt. }
  unfold path_up. cbn [w dotdot ret r]. destruct (Nat.ltb_spec (dotdot s) (w s)); [|lia].
  rewrite (back_up_spec _ _ _ p); [|lia|..].
  - split_and!; [done| |lia]. rewrite <- (take_app_length (render root (k, stack)) (sep root (k, stack) ++ e)).
    rewrite <- B, take_take. f_equal. fold p. lia.
  - intros i Hi. rewrite Hget by lia. rewrite lookup_app_r by (fold p; lia). fold p.
    assert (length (sep root (k, stack)) <= 1)%nat by (unfold sep; case_match; cbn; lia).
    rewrite lookup_app_r by lia.
    destruct (lookup_lt_is_Some_2 e (i - p - length (sep root (k, stack)))) as [c Hc]; [lia|].
    exists c. split; [done|]. by apply (Forall_lookup_1 _ _ _ _ Hsl Hc).
  - destruct (sep root (k, stack)) as [|x sp] eqn:Es.
    + left. apply sep_nil in Es as [-> ->]. subst p. lia.
    + right. rewrite Hget by (cbn in W; lia). rewrite lookup_app_r by (fold p; lia). fold p.
      rewrite Nat.sub_diag. unfold sep in Es. by case_match; simplify_eq.
Qed.

(** An iteration that only reads. *)
Lemma inv_skip root s k stack m :
  path_inv root s k stack -> (0 < m)%nat -> (r s + m <= n)%nat ->
  path_inv root (mk_path (ret s) (w s) (r s + m) (dotdot s)) k stack.
Proof. intros [L B W St P R Hr Ro Se] Hm Hl. split; cbn; try done; lia. Qed.

Lemma step_up root s k stack e rest :
  path_inv root s k stack -> drop (r s) inp = e ++ rest -> e = [DOT; DOT] -> at_slash rest ->
  exists s' k' stack', path_up root (mk_path (ret s) (w s) (S (S (r s))) (dotdot s)) = Some s' /\
    path_inv root s' k' stack' /\ r s' = (r s + 2)%nat /\
    step_component root (k, stack) e = (k', stack').
Proof.
  intros Hi E -> Hsl. pose proof Hi as [L B W St P R Hr Ro Se].
  pose proof (drop_head _ _ _ E) as (_ & _ & E1). pose proof (drop_head _ _ _ E1) as (Hr2 & _ & E2).
  unfold step_component. rewrite decide_False by naive_solver. rewrite decide_True by done.
  destruct stack as [|e stack].
  - unfold path_up. cbn [w dotdot ret r].
    destruct (Nat.ltb_spec (dotdot s) (w s)); [lia|]. destruct root; cbn [negb].
    + eexists _, k, []. split_and!; [done| |cbn; lia|done].
      replace (S (S (r s))) with (r s + 2)%nat by lia.
      apply inv_skip; [done|lia..].
    + destruct (write_element false s k [] [DOT; DOT] Hi) as (buf & E3 & L3 & T3 & R3);
        [by rewrite E|cbn; lia|].
      set (sp := sep false (k, [])) in *.
      replace (if (0 <? w s)%nat then put_char SLASH (mk_path (ret s) (w s) (S (S (r s))) (dotdot s))
        else Some (mk_path (ret s) (w s) (S (S (r s))) (dotdot s)))
        with (Some (mk_path buf (w s + length sp) (S (S (r s))) (dotdot s))).
      2: { destruct (decide (w s = length (render false (O, [])))) as [E0|E0]; cbn in E0.
           - rewrite E0 at 2. cbn. f_equal. injection E3 as Es. f_equal; [by rewrite Es|].
             by apply (f_equal w) in Es.
           - destruct (Nat.ltb_spec 0 (w s)); [|lia]. unfold put_char in E3 |- *.
             cbn [w ret r dotdot]. destruct (w s <? length (ret s))%nat; [|done].
             injection E3 as Eb Ew. by rewrite Eb, Ew. }
      cbn [mbind option_bind].
      destruct (put_char_spec DOT (mk_path buf (w s + length sp) (S (S (r s))) (dotdot s)))
        as (b1 & -> & L4 & T4); cbn in *; [lia|].
      destruct (put_char_spec DOT (mk_path b1 (S (w s + length sp)) (S (S (r s))) (dotdot s)))
        as (b2 & -> & L5 & T5); cbn in *; [lia|].
      assert (length (render false (S k, [])) = S (S (w s + length sp))) as Lr.
      { rewrite render_up, !length_app. fold sp. cbn. lia. }
      eexists _, (S k), []. split_and!; [done| |cbn; lia|done].
      split; cbn [w ret r dotdot]; rewrite ?Lr; try done; try lia; [|right; right; by rewrite E2].
      rewrite T5, T4, T3, render_up, <- !app_assoc. done.
  - destruct (path_up_pop root s k e stack (S (S (r s))) Hi) as (-> & T & Lw).
    eexists _, k, stack. split_and!; [done| |cbn; lia|done]. inversion P; subst.
    split; cbn [w ret r dotdot]; try done; lia.
Qed.

Lemma step_push root s k stack e rest :
  path_inv root s k stack -> drop (r s) inp = e ++ rest -> plain e -> at_slash rest ->
  exists s', (s' ← (if (root && negb (w s =? 1)%nat) || (negb root && negb (w s =? 0)%nat)
             then put_char SLASH s else Some s);
        copy_element input n n s') = Some s' /\
    path_inv root s' k (e :: stack) /\ r s' = (r s + length e)%nat.
Proof.
  intros Hi E [Hne He] Hsl. pose proof Hi as [L B W St P R Hr Ro Se].
  assert (length e + length rest = n - r s)%nat as Hlen.
  { rewrite <- length_app, <- E, length_drop, length_inp. done. }
  assert (~ at_slash (drop (r s) inp)) as Hns.
  { rewrite E. destruct e; [done|]. cbn. by inversion He. }
  destruct (write_element root s k stack e Hi Hns ltac:(lia)) as (buf & E1 & L1 & T1 & R1).
  set (sp := sep root (k, stack)) in *.
  replace (if (root && negb (w s =? 1)%nat) || (negb root && negb (w s =? 0)%nat)
             then put_char SLASH s else Some s)
    with (Some (mk_path buf (w s + length sp) (r s) (dotdot s))).
  2: { rewrite <- E1. destruct root; cbn.
       - by destruct (Nat.eqb_spec (w s) 1), (decide (w s = 1%nat)).
       - by destruct (Nat.eqb_spec (w s) 0), (decide (w s = 0%nat)). }
  cbn [mbind option_bind].
  destruct (copy_element_spec n e rest (mk_path buf (w s + length sp) (r s) (dotdot s)))
    as (buf' & -> & L2 & T2); cbn [w ret r dotdot] in *; [done..|lia|lia|done|].
  eexists. split_and!; [done| |done].
  assert (length (render root (k, e :: stack)) = w s + length sp + length e)%nat as Lr.
  { rewrite render_push, !length_app. fold sp. lia. }
  split; cbn [w ret r dotdot]; rewrite ?Lr; try done; try lia.
  - by rewrite T2, T1, render_push, <- app_assoc.
  - by constructor.
  - right; right. by rewrite <- drop_drop, E, drop_app_length.
Qed.

Lemma path_step_spec root s k stack :
  path_inv root s k stack -> (r s < n)%nat ->
  exists s' k' stack', path_step input n root s = Some s' /\ path_inv root s' k' stack' /\
    (r s < r s')%nat /\
    run root (k', stack') (drop (r s') inp) = run root (k, stack) (drop (r s) inp).
Proof.
  intros Hi Hr. destruct (drop (r s) inp) as [|c rest] eqn:E; [apply drop_nil in E; lia|].
  pose proof (drop_head _ _ _ E) as (_ & Hc & Erest). unfold path_step. rewrite Hc.
  cbn [mbind option_bind]. destruct (Z.eqb_spec c SLASH) as [->|Hns].
  { eexists _, k, stack. split_and!; [done| |cbn; lia|cbn [r]; by rewrite Erest, run_slash].
    replace (S (r s)) with (r s + 1)%nat by lia. apply inv_skip; [done|lia..]. }
  destruct (next_element c rest Hns) as (e & rest' & Ee & He & Hsl). rewrite Ee in E |- *.
  destruct (dot_tests _ _ _ _ E He Hsl) as [-> Hup]. cbn [mbind option_bind].
  rewrite run_element by done. destruct (bool_decide_reflect (c :: e = [DOT])) as [Ed|Ed].
  { simplify_eq. pose proof (drop_head _ _ _ E) as (_ & _ & E1).
    eexists _, k, stack. split_and!; [done| |cbn; lia|].
    - replace (S (r s)) with (r s + 1)%nat by lia. apply inv_skip; [done|lia..].
    - cbn [r]. by rewrite E1. }
  rewrite Hup by done. cbn [mbind option_bind].
  destruct (bool_decide_reflect (c :: e = [DOT; DOT])) as [Edd|Edd].
  - destruct (step_up root s k stack _ _ Hi E Edd Hsl) as (s' & k' & st' & E1 & Hi' & Hr' & Es).
    exists s', k', st'. split_and!; [done..|lia|].
    by rewrite Es, Hr', <- drop_drop, E, Edd.
  - destruct (step_push root s k stack _ _ Hi E) as (s' & E1 & Hi' & Hr'); [done..|].
    exists s', k, ((c :: e) :: stack). split_and!; [done..|cbn in Hr'; lia|].
    rewrite Hr', <- drop_drop, E, drop_app_length. f_equal. unfold step_component.
    rewrite decide_False by naive_solver. by rewrite decide_False.
Qed.

Lemma path_loop_spec root fuel s k stack :
  path_inv root s k stack -> (n - r s <= fuel)%nat ->
  exists s' k' stack', path_loop input n root fuel s = Some s' /\ path_inv root s' k' stack' /\
    (k', stack') = run root (k, stack) (drop (r s) inp).
Proof.
  revert s k stack. induction fuel as [|fuel IH]; intros s k stack Hi Hf; cbn [path_loop];
    (destruct (Nat.ltb_spec (r s) n);
     [|exists s, k, stack; split_and!; [done..|];
       rewrite drop_ge by (rewrite length_inp; lia); by rewrite run_nil]); [lia|].
  destruct (path_step_spec root s k stack Hi) as (s' & k' & st' & -> & Hi' & Hr & Er); [done|].
  cbn [mbind option_bind].
  destruct (IH s' k' st' Hi') as (s2 & k2 & st2 & -> & Hi2 & E2); [lia|].
  exists s2, k2, st2. split_and!; [done..|]. congruence.
Qed.
End Loop.

(** * Theorems on paths *)

(** The state before the main loop. *)
Lemma path_init first rest n :
  let input := first :: rest in
  let root := first =? SLASH in
  let buf := replicate (S n) 0 in
  (0 < n <= length input)%nat ->
  exists s, (if root then s ← put_char SLASH (mk_path buf 0 0 0); Some (mk_path (ret s) (w s) 1 1)
             else Some (mk_path buf 0 0 0)) = Some s /\
    path_inv input n root s O [] /\
    run root (O, []) (drop (r s) (take n input)) = normalize root (take n input).
Proof.
  intros input root buf Hn. assert (length buf = S n) as Lbuf by apply length_replicate.
  destruct root eqn:Eroot.
  - destruct (put_char_spec SLASH (mk_path buf 0 0 0)) as (b & -> & Lb & Tb);
      cbn [w ret r dotdot] in *; [lia|].
    eexists. split; [done|]. split.
    + split; cbn [w ret r dotdot]; try done; try lia. by left.
    + subst root input. apply Z.eqb_eq in Eroot as ->. destruct n; [lia|].
      cbn [r take drop]. unfold normalize. fold (run true (O, []) (SLASH :: take n rest)).
      by rewrite run_slash, drop_0.
  - eexists. split; [done|]. split.
    + split; cbn [w ret r dotdot]; try done; try lia. by left.
    + cbn [r]. by rewrite drop_0.
Qed.

Lemma path_cut (input : list Z) :
  take MAX_PATH_LEN input = take (Nat.min (length input) MAX_PATH_LEN) input.
Proof.
  destruct (Nat.min_spec (length input) MAX_PATH_LEN) as [[? ->]|[? ->]]; [|done].
  by rewrite !take_ge by lia.
Qed.

Lemma sanitize_path_correct_aux input :
  input <> [] ->
  let path := take MAX_PATH_LEN input in
  sanitize_path true input
    = Some (Some (clean path ++ replicate (S (length path) - length (clean path)) 0)) /\
  (length (clean path) <= length path)%nat.
Proof.
  intros Hne path. subst path. rewrite path_cut. set (n := Nat.min (length input) MAX_PATH_LEN).
  assert (n <= length input)%nat as Hn by lia. unfold sanitize_path. cbn [negb]. fold n.
  destruct input as [|first rest]; [done|].
  assert (0 < n)%nat as Hpos by (subst n; unfold MAX_PATH_LEN; cbn [length]; lia).
  destruct (Nat.eqb_spec n 0); [lia|]. cbn [lookup list_lookup mbind option_bind].
  set (path := take n (first :: rest)). set (root := first =? SLASH).
  assert (length path = n) as Lp by (apply length_take_le; lia).
  assert (is_rooted path = root) as Hroot by (subst path; destruct n; [lia|done]).
  destruct (path_init first rest n) as (s0 & E0 & Hi & Er); [lia|]. fold root path in E0, Hi, Er.
  rewrite E0.
  cbn [mbind option_bind].
  destruct (path_loop_spec (first :: rest) n Hn root n s0 O [] Hi) as (s & k & st & -> & Hs & E);
    [lia|]. fold path in E. rewrite Er in E. cbn [mbind option_bind].
  assert (clean path = match render root (k, st) with [] => [DOT] | res => res end) as Hcl.
  { unfold clean. by rewrite Hroot, <- E. }
  destruct Hs as [L B W St P R Hr Ro Se].
  destruct (render root (k, st)) as [|x res] eqn:Ers.
  - cbn in W. rewrite W. cbn [Nat.eqb].
    destruct (put_char_spec DOT s) as (b & -> & Lb & Tb); [lia|]. rewrite W in *.
    cbn [mbind option_bind w ret]. rewrite Tb, Hcl, Lp. split; [done|]. cbn. lia.
  - destruct (Nat.eqb_spec (w s) 0) as [Ew|]; [by rewrite Ew in W|].
    cbn [mbind option_bind]. rewrite B, Hcl, Lp, W. split; [done|]. lia.
Qed.

(** [sanitize_path] computes the component-wise normal form of its argument (cut to
    [MAX_PATH_LEN] characters): the main loop ends, every access stays within the buffer of
    [n + 1] bytes, and the result is zero-terminated. *)
Theorem sanitize_path_correct input :
  input <> [] ->
  let path := take MAX_PATH_LEN input in
  sanitize_path true input
    = Some (Some (clean path ++ replicate (S (length path) - length (clean path)) 0)) /\
  (length (clean path) <= length path)%nat.
Proof. apply sanitize_path_correct_aux. Qed.
Lemma sanitize_path_correct_witness :
  sanitize_path true [SLASH; 97; SLASH; DOT; DOT; SLASH; 98] = Some (Some [SLASH; 98; 0; 0; 0; 0; 0; 0]).
Proof.
  destruct (sanitize_path_correct [SLASH; 97; SLASH; DOT; DOT; SLASH; 98]) as [E _];
    [discriminate|]. exact E.
Defined.

(** ** What a normal form looks like *)

(** A component that names something. *)
Definition ordinary (e : list Z) : Prop := plain e /\ e <> [DOT] /\ e <> [DOT; DOT].

Lemma split_slash_no_slash s : Forall (Forall (fun c => c <> SLASH)) (split_slash s).
Proof.
  induction s as [|c s IH]; cbn; [by repeat constructor|].
  destruct (Z.eqb_spec c SLASH); [by constructor|].
  destruct (split_slash s) as [|e es]; inversion IH; subst; by repeat constructor.
Qed.

Lemma normalize_stack root path :
  Forall (fun e => ordinary e /\ e ∈ split_slash path) (normalize root path).2 /\
  (root = true -> (normalize root path).1 = O).
Proof.
  unfold normalize. pose proof (split_slash_no_slash path) as Hns. rewrite Forall_forall in Hns.
  assert (forall es, (forall e, e ∈ es -> e ∈ split_slash path) -> forall st,
    Forall (fun e => ordinary e /\ e ∈ split_slash path) st.2 /\ (root = true -> st.1 = O) ->
    Forall (fun e => ordinary e /\ e ∈ split_slash path) (foldl (step_component root) st es).2 /\
    (root = true -> (foldl (step_component root) st es).1 = O)) as H.
  { induction es as [|e es IH]; intros Hes [k st] [Hst Hk]; [done|]. cbn [foldl].
    apply IH; [set_solver|]. pose proof (Hes e ltac:(by left)) as Hin.
    unfold step_component. destruct (decide (e = [] \/ e = [DOT])) as [|N1]; [done|].
    destruct (decide (e = [DOT; DOT])) as [|N2].
    - destruct st as [|x st]; cbn in *; [by destruct root|]. inversion Hst; subst. by split.
    - split; [|done]. constructor; [|done]. specialize (Hns e Hin).
      unfold ordinary, plain. naive_solver. }
  apply H; [done|]. by split; [constructor|].
Qed.

Lemma split_join es : Forall plain es -> es <> [] -> split_slash (join es) = es.
Proof.
  induction 1 as [|e es [_ He] Hes IH]; [done|intros _].
  destruct es as [|e' es].
  - cbn [join]. destruct (split_slash_element e [] He) as (es & E1 & E2); [done|].
    cbn in E1. simplify_eq. by rewrite app_nil_r in E2.
  - change (join (e :: e' :: es)) with (e ++ SLASH :: join (e' :: es)).
    destruct (split_slash_element e (SLASH :: join (e' :: es)) He) as (es' & E1 & ->); [done|].
    cbn [split_slash] in E1. rewrite Z.eqb_refl, IH in E1 by done. congruence.
Qed.

Lemma foldl_up k j :
  foldl (step_component false) (j, []) (replicate k [DOT; DOT]) = ((k + j)%nat, []).
Proof.
  revert j. induction k as [|k IH]; intros j; [done|]. cbn [replicate foldl].
  change (step_component false (j, []) [DOT; DOT]) with (S j, @nil (list Z)).
  rewrite IH. f_equal. lia.
Qed.
Lemma foldl_components root k st :
  (root = true -> k = O) -> Forall ordinary st ->
  foldl (step_component root) (O, []) (components (k, st)) = (k, st).
Proof.
  intros Hk Hst. induction Hst as [|e st [[N0 _] [N1 N2]] Hst IH].
  - unfold components. cbn [fst snd rev]. rewrite app_nil_r. destruct root.
    + by rewrite Hk.
    + rewrite foldl_up. f_equal. lia.
  - rewrite components_push, foldl_app, IH. cbn. rewrite decide_False.
    + by rewrite decide_False.
    + by intros [->|].
Qed.

Lemma join_rooted es : Forall plain es -> is_rooted (join es) = false.
Proof.
  destruct 1 as [|e es [Hne Hsl] _]; [done|]. destruct e as [|c e]; [done|].
  inversion Hsl; subst. destruct es; cbn; by destruct (Z.eqb_spec c SLASH).
Qed.

Lemma normalize_render root k st :
  (root = true -> k = O) -> Forall ordinary st ->
  is_rooted (render root (k, st)) = root /\ normalize root (render root (k, st)) = (k, st).
Proof.
  intros Hk Hst. assert (Forall plain (components (k, st))) as Hp.
  { apply components_plain. eapply Forall_impl; [exact Hst|]. by intros e []. }
  assert (foldl (step_component root) (O, []) (split_slash (join (components (k, st)))) = (k, st))
    as Hj.
  { destruct (decide (components (k, st) = [])) as [E|E].
    - rewrite E. assert (sep root (k, st) = []) as Hs by (unfold sep; by rewrite E).
      apply sep_nil in Hs as [-> ->]. apply step_nil.
    - rewrite split_join by done. by apply foldl_components. }
  unfold render. destruct root; cbn [app].
  - split; [done|]. unfold normalize. fold (run true (O, []) (SLASH :: join (components (k, st)))).
    by rewrite run_slash.
  - split; [by apply join_rooted|done].
Qed.

(** ** No zero byte inside the result *)

Lemma split_slash_Forall (P : Z -> Prop) s : Forall P s -> Forall (Forall P) (split_slash s).
Proof.
  induction 1 as [|c s Hc Hs IH]; cbn; [by repeat constructor|].
  destruct (c =? SLASH); [by constructor|].
  destruct (split_slash s) as [|e es]; inversion IH; subst; by repeat constructor.
Qed.
Lemma join_Forall (P : Z -> Prop) es : P SLASH -> Forall (Forall P) es -> Forall P (join es).
Proof.
  intros Hs. induction 1 as [|e es He Hes IH]; [constructor|]. destruct es; [done|].
  apply Forall_app. split; [done|]. by constructor.
Qed.
Lemma clean_nonzero path : Forall (fun c => c <> 0) path -> Forall (fun c => c <> 0) (clean path).
Proof.
  intros H0. unfold clean. set (root := is_rooted path).
  assert (Forall (fun c => c <> 0) (render root (normalize root path))) as Hr.
  { apply Forall_app. split; [destruct root; by repeat constructor|]. apply join_Forall; [done|].
    apply Forall_app. split; [apply Forall_replicate; by repeat constructor|].
    apply Forall_rev. pose proof (split_slash_Forall _ _ H0) as Hs. rewrite Forall_forall in Hs.
    eapply Forall_impl; [apply normalize_stack|]. intros e [_ He]. by apply Hs. }
  case_match; [by repeat constructor|done].
Qed.
Lemma c_string_zeros s k : Forall (fun c => c <> 0) s -> c_string (s ++ replicate (S k) 0) = s.
Proof.
  induction 1 as [|c s Hc Hs IH]; [done|]. cbn [app c_string]. rewrite IH.
  by destruct (Z.eqb_spec c 0).
Qed.
Lemma sanitize_path_string input :
  input <> [] -> Forall (fun c => c <> 0) input ->
  exists buf, sanitize_path true input = Some (Some buf) /\
    c_string buf = clean (take MAX_PATH_LEN input) /\
    (length (clean (take MAX_PATH_LEN input)) <= MAX_PATH_LEN)%nat.
Proof.
  intros Hne H0. destruct (sanitize_path_correct_aux input Hne) as [E L].
  eexists. split; [exact E|]. set (p := take MAX_PATH_LEN input) in *. split.
  - replace (S (length p) - length (clean p))%nat with (S (length p - length (clean p))) by lia.
    apply c_string_zeros, clean_nonzero. by apply Forall_take.
  - assert (length p <= MAX_PATH_LEN)%nat by (subst p; rewrite length_take; lia). lia.
Qed.

Lemma clean_normal_form path :
  let root := is_rooted path in
  (exists k es, clean path = (match render root (k, es) with [] => [DOT] | res => res end) /\
     Forall ordinary es /\ (root = true -> k = O)) /\
  clean (clean path) = clean path /\ clean path <> [].
Proof.
  intros root. destruct (normalize_stack root path) as [Hst' Hk].
  destruct (normalize root path) as [k st] eqn:En. cbn in Hst', Hk.
  assert (Forall ordinary st) as Hst by (eapply Forall_impl; [exact Hst'|]; by intros e []).
  assert (clean path = match render root (k, st) with [] => [DOT] | res => res end) as Ec.
  { unfold clean. fold root. by rewrite En. }
  split; [by exists k, st|]. rewrite Ec.
  destruct (render root (k, st)) as [|c res] eqn:E; [done|]. split; [|done].
  destruct (normalize_render root k st Hk Hst) as [Hr Hn]. rewrite E in Hr, Hn.
  unfold clean. by rewrite Hr, Hn, E.
Qed.

(** The result of [sanitize_path] is a normal form.  A rooted path comes out as the root
    followed by ordinary components only, so that no [..] can lead out of the tree; a
    relative one may keep leading [..] only; and sanitising the result changes nothing. *)
Theorem sanitize_path_normal_form input :
  input <> [] -> Forall (fun c => c <> 0) input ->
  exists buf buf' k es,
    sanitize_path true input = Some (Some buf) /\
    c_string buf = (match render (is_rooted input) (k, es) with [] => [DOT] | res => res end) /\
    Forall ordinary es /\ (is_rooted input = true -> k = O) /\
    sanitize_path true (c_string buf) = Some (Some buf') /\ c_string buf' = c_string buf.
Proof.
  intros Hne H0. destruct (sanitize_path_string input Hne H0) as (buf & E & Es & L).
  set (p := take MAX_PATH_LEN input) in *.
  destruct (clean_normal_form p) as [(k & es & Ec & Ho & Hk) [Hi Hn]].
  destruct (sanitize_path_string (clean p)) as (buf' & E' & Es' & _);
    [done|apply clean_nonzero; by apply Forall_take|].
  rewrite take_ge in Es' by done.
  assert (is_rooted p = is_rooted input) as Hr by (subst p; by destruct input).
  rewrite Hr in *. exists buf, buf', k, es. rewrite Es, Es'. split_and!; done.
Qed.
Lemma sanitize_path_normal_form_witness :
  exists buf, sanitize_path true [SLASH; DOT; DOT; SLASH; 97] = Some (Some buf) /\
    c_string buf = [SLASH; 97].
Proof.
  destruct (sanitize_path_normal_form [SLASH; DOT; DOT; SLASH; 97])
    as (buf & buf' & k & es & E & _).
  - discriminate.
  - repeat constructor; discriminate.
  - exists buf. split; [exact E|]. injection E as <-. reflexivity.
Defined.

(** An empty path.  The buffer has one byte, and the code writes ['.'] into it: what is
    returned is not zero-terminated, although callers use it as a string. *)
Lemma sanitize_empty_unterminated : sanitize_path true [] = Some (Some [DOT]).
Proof. reflexivity. Qed.

(** * The hash set *)

(** Every key has a bucket. *)
Definition bucket_of (key : Z) : nat :=
  Z.to_nat (Z.land (Z.shiftr (u32 (key * 0x61C88647)) 22) 1023).
Definition bucket (i : nat) (keys : list Z) : list Z := filter (fun k => bucket_of k = i) keys.
(** No bucket is full: an access past the last slot of a bucket is undefined. *)
Definition buckets_fit (keys : list Z) : Prop := forall i, (length (bucket i keys) < SET_SLOTS_SIZE)%nat.
(** The table holds these keys, each bucket in the order of insertion. *)
Definition set_holds (set : list (list Z)) (keys : list Z) : Prop :=
  length set = SET_SIZE /\
  forall i, (i < SET_SIZE)%nat ->
    set !! i = Some (bucket i keys ++ replicate (SET_SLOTS_SIZE - length (bucket i keys)) 0).

Lemma bucket_of_lt key : (bucket_of key < SET_SIZE)%nat.
Proof.
  unfold bucket_of, SET_SIZE. change 1023 with (Z.ones 10). rewrite Z.land_ones by lia.
  pose proof (Z.mod_pos_bound (Z.shiftr (u32 (key * 0x61C88647)) 22) (2 ^ 10)). lia.
Qed.
Lemma set_hash_bucket key : exists h, set_hash key = Some h /\ Z.to_nat h = bucket_of key.
Proof. eexists. split; [reflexivity|done]. Qed.
Lemma set_reset_holds : set_holds set_reset [].
Proof.
  split; [apply length_replicate|]. intros i Hi. by apply lookup_replicate_2.
Qed.

Lemma set_scan_found row rest key : forall count,
  0 ∉ row -> key ∈ row -> exists c, set_scan (row ++ rest) key count = Some (true, c).
Proof.
  induction row as [|k row IH]; intros count H0 Hk; [by apply elem_of_nil in Hk|].
  apply not_elem_of_cons in H0 as [H0 H0']. cbn. replace (k =? 0) with false by lia.
  destruct (Z.eqb_spec k key); [by eexists|]. apply IH; [done|].
  apply elem_of_cons in Hk as [?|?]; [by subst|done].
Qed.
Lemma set_scan_free row rest key : forall count,
  0 ∉ row -> key ∉ row ->
  set_scan (row ++ 0 :: rest) key count = Some (false, (count + length row)%nat).
Proof.
  induction row as [|k row IH]; intros count H0 Hk; cbn; [by rewrite Nat.add_0_r|].
  apply not_elem_of_cons in H0 as [H0 H0']. apply not_elem_of_cons in Hk as [Hk Hk'].
  replace (k =? 0) with false by lia. replace (k =? key) with false by lia.
  rewrite IH by done. do 2 f_equal. lia.
Qed.

Section HashSet.
Context (set : list (list Z)) (keys : list Z) (Hset : set_holds set keys) (Hz : 0 ∉ keys).

Lemma set_row key :
  set !! bucket_of key = Some (bucket (bucket_of key) keys ++
    replicate (SET_SLOTS_SIZE - length (bucket (bucket_of key) keys)) 0).
Proof using Hset. apply Hset, bucket_of_lt. Qed.
Lemma in_bucket key : key ∈ bucket (bucket_of key) keys <-> key ∈ keys.
Proof using Type. unfold bucket. rewrite list_elem_of_filter. tauto. Qed.
Lemma bucket_nonzero i : 0 ∉ bucket i keys.
Proof using Hz. unfold bucket. rewrite list_elem_of_filter. tauto. Qed.

(** [set_has] is membership. *)
Lemma set_has_spec key :
  (length (bucket (bucket_of key) keys) < SET_SLOTS_SIZE)%nat ->
  set_has set key = Some (bool_decide (key ∈ keys)).
Proof using Hset Hz.
  intros Hlt. destruct (set_hash_bucket key) as (h & Hh & Eh). unfold set_has. rewrite Hh. cbn.
  rewrite Eh, set_row. cbn. pose proof (bucket_nonzero (bucket_of key)) as Hn.
  destruct (decide (key ∈ keys)) as [Hk|Hk].
  - rewrite bool_decide_eq_true_2 by done. apply in_bucket in Hk.
    edestruct set_scan_found as [c ->]; [done..|]. done.
  - rewrite bool_decide_eq_false_2 by done. rewrite <- in_bucket in Hk.
    replace (SET_SLOTS_SIZE - _)%nat with (S (SET_SLOTS_SIZE - S (length (bucket (bucket_of key) keys)))) by lia.
    cbn [replicate]. rewrite set_scan_free by done. done.
Qed.

(** [set_add] adds a new key. *)
Lemma set_add_spec key :
  (length (bucket (bucket_of key) keys) < SET_SLOTS_SIZE)%nat -> key ∉ keys -> key <> 0 ->
  exists set' : list (list Z), set_add set key = Some (true, set') /\ set_holds set' (keys ++ [key]).
Proof using Hset Hz.
  intros Hlt Hk Hk0. destruct (set_hash_bucket key) as (h & Hh & Eh). unfold set_add. rewrite Hh. cbn [mbind option_bind].
  rewrite Eh, set_row. cbn [mbind option_bind]. pose proof (bucket_nonzero (bucket_of key)) as Hn.
  rewrite <- in_bucket in Hk. set (row := bucket (bucket_of key) keys) in *.
  replace (SET_SLOTS_SIZE - length row)%nat with (S (SET_SLOTS_SIZE - S (length row))) by lia.
  cbn [replicate]. rewrite set_scan_free by done. cbn [mbind option_bind]. eexists. split; [done|]. unfold set_t.
  destruct Hset as [HL HR]. split; [by rewrite length_insert|]. intros i Hi.
  unfold bucket. rewrite filter_app. fold (bucket i keys). destruct (decide (i = bucket_of key)) as [->|Hi'].
  - rewrite list_lookup_insert_eq by lia. rewrite filter_cons_True, filter_nil by done. f_equal.
    rewrite insert_app_r_alt by lia. rewrite Nat.sub_diag. fold row. rewrite <- app_assoc, length_app. cbn [app length].
    cbn [insert list_insert]. do 3 f_equal. lia.
  - rewrite list_lookup_insert_ne by done. rewrite filter_cons_False, filter_nil, app_nil_r by done.
    by apply HR.
Qed.
(** [set_add] leaves a key alone that is there. *)
Lemma set_add_known key : key ∈ keys -> set_add set key = Some (false, set).
Proof using Hset Hz.
  intros Hk. destruct (set_hash_bucket key) as (h & Hh & Eh). unfold set_add. rewrite Hh. cbn [mbind option_bind].
  rewrite Eh, set_row. cbn [mbind option_bind]. pose proof (bucket_nonzero (bucket_of key)) as Hn.
  apply in_bucket in Hk. edestruct set_scan_found as [c ->]; [done..|]. done.
Qed.
End HashSet.

(** A smaller set of keys fits too. *)
Lemma buckets_fit_sub keys keys' : NoDup keys -> keys ⊆ keys' -> buckets_fit keys' -> buckets_fit keys.
Proof.
  intros HN Hs Hf i. eapply Nat.le_lt_trans; [|apply (Hf i)].
  apply submseteq_length, NoDup_submseteq; [by apply NoDup_filter|].
  intros k. unfold bucket. rewrite !list_elem_of_filter. intros [? ?]. split; [done|]. by apply Hs.
Qed.
(** The key [0] marks a free slot: it is added but never found. *)
Lemma set_zero_lost (set : list (list Z)) keys :
  set_holds set keys -> 0 ∉ keys -> (length (bucket 0 keys) < SET_SLOTS_SIZE)%nat ->
  exists set' : list (list Z), set_add set 0 = Some (true, set') /\ set_has set' 0 = Some false.
Proof.
  intros Hset Hz Hlt. destruct (set_hash_bucket 0) as (h & Hh & Eh).
  pose proof (set_row set keys Hset 0) as Hrow. change (bucket_of 0) with 0%nat in *.
  assert (0 ∉ bucket 0 keys) as Hn by (unfold bucket; rewrite list_elem_of_filter; tauto).
  set (row := bucket 0 keys) in *.
  replace (SET_SLOTS_SIZE - length row)%nat with (S (SET_SLOTS_SIZE - S (length row))) in Hrow by lia.
  cbn [replicate] in Hrow. unfold set_add, set_t. rewrite Hh. cbn [mbind option_bind]. rewrite Eh, Hrow. cbn [mbind option_bind].
  rewrite set_scan_free by done. cbn [mbind option_bind]. eexists. split; [done|]. unfold set_has, set_t. rewrite Hh. cbn [mbind option_bind]. rewrite Eh.
  rewrite list_lookup_insert_eq by (by eapply lookup_lt_Some). cbn [mbind option_bind].
  rewrite insert_app_r_alt by lia. rewrite Nat.sub_diag. cbn [insert list_insert]. by rewrite set_scan_free.
Qed.

(** C40: The hash set of the translator is a set of 32-bit keys, as long as no bucket overflows:
    the reset table is empty; a table that holds a set of nonzero keys answers membership correctly
    for every key; [set_add] of a nonzero key that is not in the set reports [true], and the table
    then holds exactly that key more; of a key that is in the set it reports [false] and changes
    nothing. *)
Theorem hash_set_correct (set : list (list Z)) keys key :
  set_holds set keys -> 0 ∉ keys -> buckets_fit keys ->
  set_holds set_reset [] /\
  (forall k, set_has set k = Some (bool_decide (k ∈ keys))) /\
  (key ∈ keys -> set_add set key = Some (false, set)) /\
  (key ∉ keys -> key <> 0 ->
   exists set', set_add set key = Some (true, set') /\ set_holds set' (keys ++ [key])).
Proof.
  intros Hs Hz Hf. split_and!; [apply set_reset_holds|intros k; by apply set_has_spec| |].
  - intros Hk. by apply (set_add_known set keys).
  - intros. by apply set_add_spec.
Qed.
(** One key is added to the empty set. *)
Lemma hash_set_correct_witness :
  exists set, set_add set_reset 0x1000 = Some (true, set) /\ set_has set 0x1000 = Some true /\
    set_has set 0x2000 = Some false /\ set_add set 0x1000 = Some (false, set).
Proof.
  destruct (hash_set_correct set_reset [] 0x1000 set_reset_holds (not_elem_of_nil 0)) as (_ & _ & _ & Hadd).
  { intros i. cbn. unfold SET_SLOTS_SIZE. lia. }
  destruct (Hadd (not_elem_of_nil 0x1000)) as (set & E & Hh); [lia|]. exists set. split; [exact E|].
  destruct (hash_set_correct set [0x1000] 0x1000 Hh) as (_ & Hhas & Hknown & _).
  - by apply (bool_decide_unpack _).
  - intros i. unfold bucket. eapply Nat.le_lt_trans; [apply length_filter|]. cbn. unfold SET_SLOTS_SIZE. lia.
  - rewrite !Hhas. split_and!; [reflexivity..|]. apply Hknown. by apply list_elem_of_singleton.
Defined.
