(* ===== verification/Mpool.v ===== *)
(** The memory pool of src/src/mpool.c: it hands out chunks that do not overlap and lie inside
    its arenas, whatever the sequence of allocations and releases.

    Addresses are integers, 0 is [NULL].  The only memory the pool itself looks at are the
    [next] words at the start of its chunks, which are the map [links]; a word that was
    never written reads as [junk] says (zero for [mmap], anything for [malloc]).  The
    allocators are arguments: [arena] is [mem_arena] and [malloc] is [malloc], both from a
    size to an address or [None].  Outer [None] is a write outside of the arena. *)

From S2P Require Import Prelude.

Definition SIZE_MAX : Z := 0xffffffffffffffff.
(** [sizeof(memchunk_t)], [sizeof(mpool_t)] and [sizeof(area_t)] *)
Definition MEMCHUNK : Z := 8.
Definition MPOOL_SIZE : Z := 48.
Definition AREA_SIZE : Z := 16.

Record mpool := mk_pool {
  chunk_count : Z;
  page_count : Z;
  chunk_size : Z;
  free_chunk_head : Z;
  areas : list Z;
  links : gmap Z Z }.

Section Pool.
Context (pgsz : Z) (junk : Z -> Z).
Context (arena malloc : Z -> option Z).

Definition next_of (mem : gmap Z Z) (chunk : Z) : Z := default (junk chunk) (mem !! chunk).

(** [for (i = 0; i < count - 1; i++) { cur->next = cur + stride; cur = cur->next; }] in the
    arena of [size] bytes at [base].  A chunk has at least [MEMCHUNK] bytes, so a loop of
    more than [size / MEMCHUNK] iterations has left the arena. *)
Fixpoint build_list (base size stride : Z) (fuel : nat) (left : Z) (cur : Z) (mem : gmap Z Z)
    : option (Z * gmap Z Z) :=
  if left =? 0 then Some (cur, mem)
  else
    match fuel with
    | O => None
    | S fuel =>
        if cur + MEMCHUNK <=? base + size
        then build_list base size stride fuel (left - 1) (cur + stride) (<[cur := cur + stride]> mem)
        else None
    end.
Definition build_free_list (base size stride count : Z) (mem : gmap Z Z) : option (Z * gmap Z Z) :=
  build_list base size stride (S (Z.to_nat (size / MEMCHUNK))) (u64 (count - 1)) base mem.

Definition mpool_create (pool_size chunk_size : Z) : option (option mpool) :=
  match malloc MPOOL_SIZE with
  | None => Some None
  | Some _ =>
      if SIZE_MAX - MEMCHUNK <? chunk_size then Some None
      else
        let pool_size :=
          if pool_size <? chunk_size + MEMCHUNK then u64 (pool_size + MEMCHUNK) else pool_size in
        if u64 (SIZE_MAX - pgsz + 1) <? pool_size then Some None
        else
          let page_count := u64 (pool_size + pgsz - 1) / pgsz in
          if SIZE_MAX / pgsz <? page_count then Some None
          else
            match arena (u64 (page_count * pgsz)) with
            | None => Some None
            | Some p =>
                let stride := MEMCHUNK + chunk_size in
                let count := pool_size / stride in
                '(cur, mem) ← build_free_list p (u64 (page_count * pgsz)) stride count ∅;
                (* [cur->next = NULL] *)
                if cur + MEMCHUNK <=? p + u64 (page_count * pgsz)
                then Some (Some (mk_pool count page_count chunk_size p [p] (<[cur := 0]> mem)))
                else None
            end
  end.

(** The returned pointer, [None] for [NULL], and the pool. *)
Definition mpool_extend (mp : mpool) : option (option Z * mpool) :=
  let pool_size := u64 (page_count mp * pgsz) in
  match arena pool_size with
  | None => Some (None, mp)
  | Some p =>
      match malloc AREA_SIZE with
      | None => Some (None, mp)
      | Some _ =>
          let stride := MEMCHUNK + chunk_size mp in
          let count := pool_size / stride in
          '(_, mem) ← build_free_list p pool_size stride count (links mp);
          Some (Some p, mk_pool (u64 (chunk_count mp + count)) (page_count mp) (chunk_size mp) p
                  (areas mp ++ [p]) mem)
      end
  end.

Definition mpool_alloc_helper (mp : mpool) : Z * mpool :=
  let ptr := free_chunk_head mp + MEMCHUNK in
  (ptr, mk_pool (u64 (chunk_count mp - 1)) (page_count mp) (chunk_size mp)
          (next_of (links mp) (free_chunk_head mp)) (areas mp) (links mp)).

Definition mpool_alloc (mp : option mpool) : option (option Z * option mpool) :=
  match mp with
  | None => Some (None, None)
  | Some mp =>
      '(ok, mp) ← (if chunk_count mp =? 0
                   then '(p, mp) ← mpool_extend mp; Some (negb (bool_decide (p = None)), mp)
                   else Some (true, mp));
      if (ok : bool)
      then let '(ptr, mp) := mpool_alloc_helper mp in Some (Some ptr, Some mp)
      else Some (None, Some mp)
  end.

(** As [mpool_alloc], with the region that is cleared. *)
Definition mpool_calloc (mp : option mpool) : option (option Z * option mpool * option (Z * Z)) :=
  '(p, mp) ← mpool_alloc mp;
  Some (p, mp, ptr ← p; mp ← mp; Some (ptr, chunk_size mp)).

Definition mpool_free (mp : option mpool) (target : option Z) : option mpool :=
  match mp, target with
  | Some mp, Some target =>
      let ptr := target - MEMCHUNK in
      Some (mk_pool (u64 (chunk_count mp + 1)) (page_count mp) (chunk_size mp) ptr (areas mp)
              (<[ptr := free_chunk_head mp]> (links mp)))
  | _, _ => mp
  end.

(** The regions given back, each of [page_count * pgsz] bytes. *)
Definition mpool_destroy (mp : option mpool) : list (Z * Z) :=
  match mp with
  | None => []
  | Some mp => (fun p => (p, u64 (page_count mp * pgsz))) <$> areas mp
  end.
End Pool.

(** * Invariant *)

Section Invariant.
Context (pgsz : Z) (junk : Z -> Z).

(** The chunks on a free list; what the last link points to does not matter. *)
Inductive chain (mem : gmap Z Z) : Z -> list Z -> Prop :=
  | chain_end h : chain mem h []
  | chain_cons x l : chain mem (next_of junk mem x) l -> chain mem x (x :: l).

Definition stride (mp : mpool) : Z := MEMCHUNK + chunk_size mp.
Definition arena_size (mp : mpool) : Z := page_count mp * pgsz.

Definition apart (d x y : Z) : Prop := x + d <= y \/ y + d <= x.

(** [slots] are all chunks of the pool, [used] those that are handed out. *)
Record pool_wf (slots used : list Z) (mp : mpool) : Prop := {
  pw_free : exists fl, chain (links mp) (free_chunk_head mp) fl /\
    chunk_count mp = Z.of_nat (length fl) /\ fl ++ used ≡ₚ slots;
  pw_nodup : NoDup slots;
  pw_apart x y : x ∈ slots -> y ∈ slots -> x <> y -> apart (stride mp) x y;
  pw_inside x : x ∈ slots -> exists p, p ∈ areas mp /\ p <= x /\
    x + stride mp <= p + arena_size mp;
  pw_areas p : p ∈ areas mp -> 0 < p /\ p + arena_size mp <= 2 ^ 64;
  pw_chunk : 0 <= chunk_size mp /\ stride mp <= arena_size mp < 2 ^ 64 }.

(** What the pool relies on in [mem_arena]: a new arena overlaps no arena of the pool. *)
Definition arena_ok (arena : Z -> option Z) (mp : mpool) : Prop :=
  forall p, arena (arena_size mp) = Some p ->
    0 < p /\ p + arena_size mp <= 2 ^ 64 /\
    forall q, q ∈ areas mp -> apart (arena_size mp) p q.

(** * Building a free list *)

Definition slots_of (base d : Z) (n : nat) : list Z :=
  (fun i : nat => base + Z.of_nat i * d) <$> seq 0 n.

Lemma slots_of_S base d n : slots_of base d (S n) = base :: slots_of (base + d) d n.
Proof.
  unfold slots_of. cbn [seq fmap list_fmap]. f_equal; [lia|]. rewrite <- fmap_S_seq, <- list_fmap_compose.
  apply list_fmap_ext. intros i x _. cbn. lia.
Qed.
Lemma elem_slots_of base d n x :
  x ∈ slots_of base d n <-> exists i : nat, (i < n)%nat /\ x = base + Z.of_nat i * d.
Proof.
  unfold slots_of. rewrite list_elem_of_fmap. setoid_rewrite elem_of_seq.
  split; intros (i & H1 & H2); exists i; split; (done || lia).
Qed.

Lemma slots_of_apart base d n x y :
  0 < d -> x ∈ slots_of base d n -> y ∈ slots_of base d n -> x <> y -> apart d x y.
Proof.
  intros Hd (i & Hi & ->)%elem_slots_of (j & Hj & ->)%elem_slots_of Hne. unfold apart.
  assert (i <> j) by congruence. destruct (Nat.lt_ge_cases i j); [left|right]; nia.
Qed.
Lemma slots_of_NoDup base d n : 0 < d -> NoDup (slots_of base d n).
Proof.
  intros Hd. apply NoDup_fmap_2_strong; [|apply NoDup_seq]. intros i j _ _ E. nia.
Qed.

Lemma build_list_spec base size d fuel left cur mem :
  MEMCHUNK <= d -> (left <= fuel)%nat -> cur + Z.of_nat left * d + MEMCHUNK <= base + size ->
  exists mem', build_list base size d fuel (Z.of_nat left) cur mem
      = Some (cur + Z.of_nat left * d, mem') /\
    chain mem' cur (slots_of cur d (S left)) /\
    forall k, k < cur -> mem' !! k = mem !! k.
Proof.
  unfold MEMCHUNK. intros Hd. revert left cur mem.
  induction fuel as [|fuel IH]; intros [|left] cur mem Hf Hs; try lia.
  1, 2: exists mem; split_and!; [cbn; do 2 f_equal; lia|rewrite slots_of_S; repeat constructor|done].
  cbn [build_list]. destruct (Z.eqb_spec (Z.of_nat (S left)) 0); [lia|]. unfold MEMCHUNK.
  destruct (Z.leb_spec (cur + 8) (base + size)); [|nia].
  replace (Z.of_nat (S left) - 1) with (Z.of_nat left) by lia.
  destruct (IH left (cur + d) (<[cur:=cur + d]> mem)) as (mem' & E & Hc & Hk); [lia..|].
  exists mem'. split_and!.
  - rewrite E. do 2 f_equal. lia.
  - rewrite slots_of_S. constructor. unfold next_of. rewrite Hk by lia.
    by rewrite lookup_insert_eq.
  - intros k Hlt. rewrite Hk by lia. by rewrite lookup_insert_ne by lia.
Qed.

Lemma build_free_list_spec base size d count mem :
  MEMCHUNK <= d -> 0 < count < 2 ^ 64 -> count * d <= size ->
  exists mem', build_free_list base size d count mem = Some (base + (count - 1) * d, mem') /\
    chain mem' base (slots_of base d (Z.to_nat count)) /\
    forall k, k < base -> mem' !! k = mem !! k.
Proof.
  intros Hd Hc Hs. unfold build_free_list, u64. change 0x10000000000000000 with (2 ^ 64).
  rewrite Z.mod_small by lia. unfold MEMCHUNK in *.
  replace (count - 1) with (Z.of_nat (Z.to_nat (count - 1))) by lia.
  destruct (build_list_spec base size d (S (Z.to_nat (size / 8))) (Z.to_nat (count - 1)) base mem)
    as (mem' & E & Hch & Hk); unfold MEMCHUNK; [done| |nia|].
  - assert (count - 1 <= size / 8); [|lia]. apply Z.div_le_lower_bound; nia.
  - exists mem'. split_and!; [done| |done].
    by replace (Z.to_nat count) with (S (Z.to_nat (count - 1))) by lia.
Qed.

(** * Operations *)

(** Chunks are at least eight bytes apart, so there are fewer than [2^64] of them. *)
Lemma slots_bound slots used mp : pool_wf slots used mp -> Z.of_nat (length slots) < 2 ^ 64.
Proof.
  intros [_ Hnd Hap Hin Har [Hc _]].
  assert (Z.of_nat (length slots) <= 2 ^ 61); [|lia].
  assert (NoDup ((fun x => x / 8) <$> slots)) as Hnd'.
  { apply NoDup_fmap_2_strong; [|done]. intros x y Hx Hy E.
    destruct (decide (x = y)); [done|]. exfalso.
    destruct (Hap x y Hx Hy n); unfold stride, MEMCHUNK in *; mlia. }
  assert (((fun x => x / 8) <$> slots) ⊆+ seqZ 0 (2 ^ 61)) as Hsub.
  { apply NoDup_submseteq; [done|]. intros z (x & -> & Hx)%list_elem_of_fmap.
    destruct (Hin x Hx) as (p & Hp & H1 & H2). destruct (Har p Hp). rewrite elem_of_seqZ.
    unfold stride, MEMCHUNK in *. split; [apply Z.div_pos; lia|].
    apply Z.div_lt_upper_bound; lia. }
  apply submseteq_length in Hsub. rewrite length_fmap, length_seqZ in Hsub. lia.
Qed.

Lemma arena_size_wf slots used mp :
  pool_wf slots used mp -> u64 (page_count mp * pgsz) = arena_size mp.
Proof. intros H. destruct (pw_chunk _ _ _ H). apply Z.mod_small. unfold stride, MEMCHUNK, arena_size in *. lia. Qed.

(** A new arena at [p] adds its chunks to a pool without free ones. *)
Lemma add_arena slots used mp p mem count :
  let d := stride mp in
  pool_wf slots used mp -> chunk_count mp = 0 ->
  0 < p -> p + arena_size mp <= 2 ^ 64 -> (forall q, q ∈ areas mp -> apart (arena_size mp) p q) ->
  0 < count -> count * d <= arena_size mp -> chain mem p (slots_of p d (Z.to_nat count)) ->
  pool_wf (slots_of p d (Z.to_nat count) ++ slots) used
    (mk_pool count (page_count mp) (chunk_size mp) p (areas mp ++ [p]) mem).
Proof.
  intros d [(fl & Hch & Hcount & Hperm) Hnd Hapart Hin Har Hsz] H0 Hp Hp' Hap Hcnt Hfit Hch'.
  assert (fl = []) as -> by (destruct fl; [done|cbn in Hcount; lia]). cbn in Hperm.
  assert (0 < d) by (destruct Hsz; subst d; unfold stride, MEMCHUNK in *; lia).
  assert (forall x, x ∈ slots_of p d (Z.to_nat count) -> p <= x /\ x + d <= p + arena_size mp) as Hnew.
  { intros x (i & Hi & ->)%elem_slots_of. nia. }
  assert (forall x y, x ∈ slots_of p d (Z.to_nat count) -> y ∈ slots -> apart d x y) as Hcross.
  { intros x y Hx Hy. apply Hnew in Hx. destruct (Hin y Hy) as (q & Hq & L1 & L2).
    destruct (Hap q Hq); unfold apart; lia. }
  split; cbn [chunk_count page_count chunk_size free_chunk_head areas links].
  - exists (slots_of p d (Z.to_nat count)). split_and!; [done| |by rewrite Hperm].
    unfold slots_of. rewrite length_fmap, length_seq. lia.
  - apply NoDup_app. split_and!; [apply slots_of_NoDup; lia| |done].
    intros x Hx Hy. destruct (Hcross x x Hx Hy); lia.
  - change (stride _) with d. intros x y [Hx|Hx]%elem_of_app [Hy|Hy]%elem_of_app Hne.
    + eapply slots_of_apart; [|done..]. lia.
    + by apply Hcross.
    + destruct (Hcross y x Hy Hx); [by right|by left].
    + by apply Hapart.
  - change (stride _) with d. change (arena_size _) with (arena_size mp).
    intros x [Hx|Hx]%elem_of_app.
    + exists p. split; [set_solver|]. by apply Hnew.
    + destruct (Hin x Hx) as (q & Hq & ?). exists q. split; [set_solver|done].
  - change (arena_size _) with (arena_size mp).
    intros q [Hq| ->%list_elem_of_singleton]%elem_of_app; [by apply Har|done].
  - done.
Qed.

Lemma mpool_extend_spec arena malloc slots used mp :
  pool_wf slots used mp -> chunk_count mp = 0 -> arena_ok arena mp ->
  exists r mp', mpool_extend pgsz arena malloc mp = Some (r, mp') /\
    match r with
    | None => mp' = mp
    | Some _ => exists slots', pool_wf slots' used mp' /\ 0 < chunk_count mp' /\
        chunk_size mp' = chunk_size mp
    end.
Proof.
  intros Hw H0 Ha. unfold mpool_extend. rewrite (arena_size_wf _ _ _ Hw).
  destruct (arena (arena_size mp)) as [p|] eqn:Ea; [|by eexists _, _].
  destruct (malloc AREA_SIZE); [|by eexists _, _]. destruct (Ha p Ea) as (Hp & Hp' & Hap).
  pose proof (pw_chunk _ _ _ Hw) as [Hc Hst]. fold (stride mp).
  set (d := stride mp) in *. set (count := arena_size mp / d).
  assert (8 <= d) by (subst d; unfold stride, MEMCHUNK; lia).
  assert (0 < count /\ count * d <= arena_size mp) as [Hcnt Hfit] by (subst count; mlia).
  assert (count < 2 ^ 64) by nia.
  destruct (build_free_list_spec p (arena_size mp) d count (links mp)) as (mem & -> & Hch & _);
    [done..|]. cbn [mbind option_bind]. rewrite H0. unfold u64.
  change 0x10000000000000000 with (2 ^ 64). rewrite Z.mod_small by lia.
  eexists _, _. split; [done|]. eexists. split; [by apply add_arena|done].
Qed.

Lemma chain_insert mem h l x v : chain mem h l -> x ∉ l -> chain (<[x := v]> mem) h l.
Proof.
  induction 1 as [h|y l Hl IH]; intros Hx; constructor. unfold next_of in *.
  rewrite lookup_insert_ne by set_solver. apply IH. set_solver.
Qed.

Lemma slots_of_snoc base d n :
  slots_of base d (S n) = slots_of base d n ++ [base + Z.of_nat n * d].
Proof. unfold slots_of. by rewrite seq_S, fmap_app. Qed.

(** Writing the link of the last chunk, which nobody follows. *)
Lemma chain_last mem h l x v : chain mem h (l ++ [x]) -> x ∉ l -> chain (<[x := v]> mem) h (l ++ [x]).
Proof.
  revert h. induction l as [|y l IH]; intros h Hc Hx; inversion Hc; subst; [by repeat constructor|].
  cbn. constructor. unfold next_of in *. rewrite lookup_insert_ne by set_solver.
  apply IH; [done|set_solver].
Qed.

Lemma take_chunk slots used mp :
  pool_wf slots used mp -> 0 < chunk_count mp ->
  let '(ptr, mp') := mpool_alloc_helper junk mp in
  pool_wf slots (ptr - MEMCHUNK :: used) mp'.
Proof.
  intros Hw Hpos. pose proof (slots_bound _ _ _ Hw) as Hb.
  destruct Hw as [(fl & Hch & Hcount & Hperm) Hnd Hapart Hin Har Hsz].
  unfold mpool_alloc_helper. replace (free_chunk_head mp + MEMCHUNK - MEMCHUNK)
    with (free_chunk_head mp) by lia.
  inversion Hch as [h E1 E2|x l Hl E1 E2]; subst; [cbn in Hcount; lia|].
  pose proof (Permutation_length Hperm) as Hlen. rewrite length_app in Hlen. cbn in Hlen, Hcount.
  split; cbn [chunk_count page_count chunk_size free_chunk_head areas links]; try done.
  exists l. split_and!; [done| |].
  - rewrite Hcount. unfold u64. change 0x10000000000000000 with (2 ^ 64). rewrite Z.mod_small; lia.
  - rewrite <- Hperm. symmetry. apply Permutation_middle.
Qed.

Lemma give_chunk slots used mp ptr :
  pool_wf slots (ptr - MEMCHUNK :: used) mp ->
  exists mp', mpool_free (Some mp) (Some ptr) = Some mp' /\ pool_wf slots used mp'.
Proof.
  intros Hw. eexists. split; [done|]. pose proof (slots_bound _ _ _ Hw) as Hb.
  destruct Hw as [(fl & Hch & Hcount & Hperm) Hnd Hapart Hin Har Hsz].
  set (x := ptr - MEMCHUNK) in *.
  pose proof (Permutation_length Hperm) as Hlen. rewrite length_app in Hlen. cbn in Hlen.
  assert (x ∉ fl) as Hx.
  { rewrite <- Hperm in Hnd. apply NoDup_app in Hnd as (_ & Hd & _). intros Hx.
    apply (Hd x Hx). by left. }
  split; cbn [chunk_count page_count chunk_size free_chunk_head areas links]; try done.
  exists (x :: fl). split_and!.
  - constructor. unfold next_of at 1. rewrite lookup_insert_eq. cbn.
    by apply chain_insert.
  - rewrite Hcount. unfold u64. change 0x10000000000000000 with (2 ^ 64).
    cbn [length]. rewrite Z.mod_small; lia.
  - rewrite <- Hperm. apply Permutation_middle.
Qed.
End Invariant.

(** Allocation.  [mpool_alloc] either finds memory exhausted and changes nothing, or
    returns a pointer to [chunk_size] bytes that lie inside an arena of the pool and overlap
    neither a chunk in use nor its header; the pool stays well-formed. *)
Theorem mpool_alloc_correct pgsz junk arena malloc slots used mp :
  pool_wf pgsz junk slots used mp -> arena_ok pgsz arena mp ->
  exists r mp', mpool_alloc pgsz junk arena malloc (Some mp) = Some (r, Some mp') /\
    match r with
    | None => mp' = mp
    | Some ptr => exists slots',
        pool_wf pgsz junk slots' (ptr - MEMCHUNK :: used) mp' /\
        (forall x, x ∈ used -> ptr + chunk_size mp <= x \/ x + stride mp <= ptr - MEMCHUNK) /\
        exists p, p ∈ areas mp' /\ p <= ptr - MEMCHUNK /\ ptr + chunk_size mp <= p + arena_size pgsz mp'
    end.
Proof.
  intros Hw Ha.
  assert (exists ok mp1, (if chunk_count mp =? 0
      then '(p, mp1) ← mpool_extend pgsz arena malloc mp; Some (negb (bool_decide (p = None)), mp1)
      else Some (true, mp)) = Some (ok, mp1) /\
    if (ok : bool) then chunk_size mp1 = chunk_size mp /\ 0 < chunk_count mp1 /\
      exists slots1, pool_wf pgsz junk slots1 used mp1
    else mp1 = mp) as (ok & mp1 & E & Hok).
  { destruct (Z.eqb_spec (chunk_count mp) 0) as [H0|H0].
    - destruct (mpool_extend_spec pgsz junk arena malloc slots used mp) as (r & mp1 & -> & Hr);
        [done..|]. destruct r as [p|]; [|by exists false, mp1].
      exists true, mp1. split; [done|]. destruct Hr as (slots' & ? & ? & ?). split_and!; eauto.
    - exists true, mp. split; [done|]. split; [done|]. split; [|eauto].
      destruct (pw_free _ _ _ _ _ Hw) as (fl & _ & ? & _). lia. }
  unfold mpool_alloc. rewrite E. cbn [mbind option_bind]. destruct ok.
  - destruct Hok as (Hsz & Hpos & slots1 & Hw1).
    pose proof (take_chunk pgsz junk slots1 used mp1 Hw1 Hpos) as Ht.
    destruct (mpool_alloc_helper junk mp1) as [ptr mp2] eqn:E2.
    eexists _, _. split; [done|]. exists slots1. split; [done|].
    assert (chunk_size mp2 = chunk_size mp) as Hs2 by (unfold mpool_alloc_helper in E2; by simplify_eq).
    destruct Ht as [(fl & _ & _ & Hperm) Hnd Hap Hin _ _].
    assert (ptr - MEMCHUNK ∈ slots1) as Hptr by (rewrite <- Hperm; set_solver).
    unfold stride, MEMCHUNK in *. rewrite Hs2 in *. split.
    + intros x Hx. assert (x <> ptr - 8) as Hne.
      { rewrite <- Hperm in Hnd. apply NoDup_app in Hnd as (_ & _ & [Hn _]%NoDup_cons). by intros ->. }
      assert (x ∈ slots1) as Hx1 by (rewrite <- Hperm; set_solver).
      destruct (Hap _ _ Hx1 Hptr Hne); [right|left]; lia.
    + destruct (Hin _ Hptr) as (p & Hp & H1 & H2). exists p. split_and!; [done..|lia].
  - subst mp1. by eexists _, _.
Qed.

(** Release.  Giving back a chunk in use leaves a well-formed pool in which it is free;
    the next allocation returns the same chunk. *)
Theorem mpool_free_correct pgsz junk arena malloc slots used mp ptr :
  pool_wf pgsz junk slots (ptr - MEMCHUNK :: used) mp ->
  exists mp' mp'', mpool_free (Some mp) (Some ptr) = Some mp' /\ pool_wf pgsz junk slots used mp' /\
    mpool_alloc pgsz junk arena malloc (Some mp') = Some (Some ptr, Some mp'') /\
    chunk_count mp'' = chunk_count mp /\ free_chunk_head mp'' = free_chunk_head mp.
Proof.
  intros Hw. destruct (give_chunk pgsz junk slots used mp ptr Hw) as (mp' & E & Hw').
  pose proof (slots_bound _ _ _ _ _ Hw) as Hb.
  destruct (pw_free _ _ _ _ _ Hw) as (fl & _ & Hc & Hperm).
  pose proof (Permutation_length Hperm) as Hlen. rewrite length_app in Hlen. cbn in Hlen.
  assert (forall c, 0 <= c <= chunk_count mp + 1 -> u64 c = c) as Hu
    by (intros c H; apply Z.mod_small; change 0x10000000000000000 with (2 ^ 64); lia).
  assert (chunk_count mp' = chunk_count mp + 1 /\ free_chunk_head mp' = ptr - MEMCHUNK /\
    next_of junk (links mp') (ptr - MEMCHUNK) = free_chunk_head mp) as (E1 & E2 & E3).
  { injection E as <-. cbn. split_and!; [apply Hu; lia|done|].
    unfold next_of. by rewrite lookup_insert_eq. }
  eexists mp', _. split_and!; [done..| | |].
  - unfold mpool_alloc. rewrite E1. destruct (Z.eqb_spec (chunk_count mp + 1) 0); [lia|].
    cbn [mbind option_bind]. unfold mpool_alloc_helper. rewrite E2.
    by replace (ptr - MEMCHUNK + MEMCHUNK) with ptr by lia.
  - cbn. rewrite E1, Hu; lia.
  - cbn. by rewrite E3.
Qed.

(** * Creation *)

Definition page_round (pgsz n : Z) : Z := (n + pgsz - 1) / pgsz * pgsz.

Lemma page_round_spec pgsz n : 0 < pgsz -> n <= page_round pgsz n < n + pgsz.
Proof. intros H. unfold page_round. mlia. Qed.

(** The size that is really used: one header is added when the request has no room for it. *)
Definition padded (pool_size chunk_size : Z) : Z :=
  if pool_size <? chunk_size + MEMCHUNK then pool_size + MEMCHUNK else pool_size.

(** Creation.  For a pool that has room for at least one chunk, [mpool_create] writes
    only inside its arena and returns [NULL] or a well-formed pool with
    [pool_size / (chunk_size + 8)] free chunks and none in use. *)
Theorem mpool_create_correct pgsz junk arena malloc pool_size csz :
  0 < pgsz -> 0 <= csz <= pool_size -> pool_size + pgsz + MEMCHUNK < 2 ^ 64 ->
  (forall sz p, arena sz = Some p -> 0 < p /\ p + sz <= 2 ^ 64) ->
  exists r, mpool_create pgsz arena malloc pool_size csz = Some r /\
    match r with
    | None => malloc MPOOL_SIZE = None \/ arena (page_round pgsz (padded pool_size csz)) = None
    | Some mp => exists slots, pool_wf pgsz junk slots [] mp /\ chunk_size mp = csz /\
        chunk_count mp = padded pool_size csz / (MEMCHUNK + csz) /\ 0 < chunk_count mp
    end.
Proof.
  intros Hpg Hcsz Hps Har. unfold mpool_create.
  destruct (malloc MPOOL_SIZE); [|by exists None; auto]. unfold SIZE_MAX, MEMCHUNK in *.
  destruct (Z.ltb_spec (0xffffffffffffffff - 8) csz); [lia|].
  assert ((if pool_size <? csz + 8 then u64 (pool_size + 8) else pool_size) = padded pool_size csz) as ->.
  { unfold padded, MEMCHUNK. case_match; [|done]. apply Z.mod_small. lia. }
  set (ps := padded pool_size csz).
  assert (csz + 8 <= ps <= pool_size + 8) as Hp
    by (subst ps; unfold padded, MEMCHUNK; destruct (Z.ltb_spec pool_size (csz + 8)); lia).
  unfold u64. change 0x10000000000000000 with (2 ^ 64).
  rewrite (Z.mod_small (0xffffffffffffffff - pgsz + 1)) by lia.
  destruct (Z.ltb_spec (0xffffffffffffffff - pgsz + 1) ps); [lia|].
  rewrite (Z.mod_small (ps + pgsz - 1)) by lia.
  pose proof (page_round_spec pgsz ps Hpg) as Hr. set (pc := (ps + pgsz - 1) / pgsz).
  fold (page_round pgsz ps). change (page_round pgsz ps) with (pc * pgsz) in *.
  assert (pc <= 0xffffffffffffffff / pgsz) by (apply Z.div_le_lower_bound; lia).
  destruct (Z.ltb_spec (0xffffffffffffffff / pgsz) pc); [lia|].
  rewrite (Z.mod_small (pc * pgsz)) by lia.
  destruct (arena (pc * pgsz)) as [p|] eqn:Ea; [|by exists None; auto].
  destruct (Har _ _ Ea) as [Hp0 Hp64]. set (d := 8 + csz). set (count := ps / d).
  assert (0 < count /\ count * d <= ps) as [Hc Hfit] by (subst count d; mlia).
  destruct (build_free_list_spec junk p (pc * pgsz) d count ∅) as (mem & -> & Hch & _);
    [subst d; unfold MEMCHUNK; lia|split; [lia|nia]|lia|]. cbn [mbind option_bind].
  destruct (Z.leb_spec (p + (count - 1) * d + 8) (p + pc * pgsz)); [|nia].
  eexists. split; [done|]. exists (slots_of p d (Z.to_nat count)). split_and!; try done.
  rewrite <- (app_nil_r (slots_of _ _ _)).
  apply (add_arena pgsz junk [] [] (mk_pool 0 pc csz 0 [] ∅)); cbn;
    [|done|done|done|set_solver|done|unfold stride, arena_size; cbn; subst d; unfold MEMCHUNK; lia|].
  - split; cbn; try set_solver.
    + exists []. split_and!; [constructor|done|done].
    + constructor.
    + unfold stride, arena_size, MEMCHUNK. cbn. lia.
  - change (stride _) with d. replace (Z.to_nat count) with (S (Z.to_nat (count - 1))) in Hch |- * by lia.
    rewrite slots_of_snoc, Z2Nat.id in Hch |- * by lia. apply chain_last; [done|].
    intros (i & Hi & E)%elem_slots_of. nia.
Qed.

(** A pool that is smaller than one chunk has no chunk at all; the loop that builds the free
    list then counts down from [2^64 - 1] and writes past the arena. *)
Lemma mpool_create_too_small :
  mpool_create 4096 (fun _ => Some 0x10000) (fun _ => Some 64) 4096 8192 = None.
Proof. reflexivity. Qed.

Definition small_pool : mpool := mk_pool 2 1 24 0x10000 [0x10000] {[0x10000 := 0x10020; 0x10020 := 0]}.
Lemma small_pool_wf : pool_wf 4096 (fun _ => 0) [0x10000; 0x10020] [] small_pool.
Proof.
  split.
  - exists [0x10000; 0x10020]. split_and!; [repeat constructor|done|done].
  - repeat constructor; set_solver.
  - intros x y Hx Hy Hne. unfold apart, stride, MEMCHUNK. cbn.
    rewrite !elem_of_cons, elem_of_nil in Hx, Hy. lia.
  - intros x Hx. exists 0x10000. rewrite !elem_of_cons, elem_of_nil in Hx. split; [by left|].
    unfold arena_size, stride, MEMCHUNK. cbn. lia.
  - intros p Hp. apply list_elem_of_singleton in Hp as ->. by vm_compute.
  - by vm_compute.
Qed.
Lemma mpool_alloc_correct_witness :
  exists mp', mpool_alloc 4096 (fun _ => 0) (fun _ => None) (fun _ => None) (Some small_pool)
    = Some (Some 0x10008, Some mp').
Proof.
  destruct (mpool_alloc_correct 4096 (fun _ => 0) (fun _ => None) (fun _ => None)
    [0x10000; 0x10020] [] small_pool) as (r & mp' & E & _).
  - apply small_pool_wf.
  - intros p. discriminate.
  - exists mp'. rewrite E. vm_compute in E. injection E as <- _. reflexivity.
Defined.

Definition used_pool : mpool := mk_pool 1 1 24 0x10020 [0x10000] {[0x10000 := 0x10020; 0x10020 := 0]}.
Lemma mpool_free_correct_witness :
  exists mp' mp'', mpool_free (Some used_pool) (Some 0x10008) = Some mp' /\
    mpool_alloc 4096 (fun _ => 0) (fun _ => None) (fun _ => None) (Some mp') = Some (Some 0x10008, Some mp'').
Proof.
  destruct (mpool_free_correct 4096 (fun _ => 0) (fun _ => None) (fun _ => None)
    [0x10000; 0x10020] [] used_pool 0x10008) as (mp' & mp'' & E & _ & E' & _).
  - exact (take_chunk _ _ _ _ _ small_pool_wf eq_refl).
  - exists mp', mp''. auto.
Defined.
Definition small_arena (sz : Z) : option Z := if sz <=? 4096 then Some 0x10000 else None.
Lemma mpool_create_correct_witness :
  exists mp, mpool_create 4096 small_arena (fun _ => Some 64) 64 24 = Some (Some mp) /\
    chunk_count mp = 2.
Proof.
  destruct (mpool_create_correct 4096 (fun _ => 0) small_arena (fun _ => Some 64) 64 24)
    as (r & E & Hr).
  - lia.
  - lia.
  - unfold MEMCHUNK. lia.
  - intros sz p. unfold small_arena. destruct (Z.leb_spec sz 4096); [|discriminate].
    intros [= <-]. lia.
  - destruct r as [mp|]; [|by destruct Hr]. destruct Hr as (_ & _ & _ & Hc & _). by exists mp.
Defined.
