(* ===== verification/Devices.v ===== *)
(** The devices of system mode with register interfaces only: the 8250 UART
    (src/src/devices/uart.c), the interrupt controller (plic.c) and the Goldfish real-time
    clock (rtc.c).

    The host answers some calls ([poll], [read], [getchar], [clock_gettime]); its answers are
    an oracle indexed by the number of calls made so far, and the bytes written to the
    output descriptor are kept in order.  [None] is undefined behaviour or the end of the
    process ([exit]). *)

From S2P Require Import Prelude.
From S2P Require Import Opcode.
From S2P Require Import Decode.
From S2P Require Import Machine.
From S2P Require Import Interp.

(** * The host *)

Record host_t := mk_host {
  calls : nat;
  written : list Z;
  poll_at : nat -> bool;
  read_at : nat -> option Z;     (* the byte [read] stores; none at the end of input or on error *)
  getchar_at : nat -> Z;
  clock_at : nat -> Z }.         (* (uint64_t) (tv_sec * 1e9) + tv_nsec *)

Definition host_called (h : host_t) : host_t :=
  mk_host (S (calls h)) (written h) (poll_at h) (read_at h) (getchar_at h) (clock_at h).
Definition host_poll (h : host_t) : bool * host_t := (poll_at h (calls h), host_called h).
Definition host_read (h : host_t) : option Z * host_t := (read_at h (calls h), host_called h).
Definition host_getchar (h : host_t) : Z * host_t := (getchar_at h (calls h), host_called h).
Definition host_clock (h : host_t) : Z * host_t := (clock_at h (calls h), host_called h).
Definition host_write (v : Z) (h : host_t) : host_t :=
  mk_host (S (calls h)) (written h ++ [v]) (poll_at h) (read_at h) (getchar_at h) (clock_at h).

(** * UART *)

Definition U8250_INTR_THRE := 1.

(** [u8250_state_t]; the two file descriptors belong to the host. *)
Record u8250_state_t := mk_u8250 {
  dll : Z; dlh : Z; lcr : Z; ier : Z; current_intr : Z; pending_intrs : Z; mcr : Z;
  in_ready : bool }.

Definition set_in_ready b u := mk_u8250 (dll u) (dlh u) (lcr u) (ier u) (current_intr u)
  (pending_intrs u) (mcr u) b.
Definition set_pending_intrs p u := mk_u8250 (dll u) (dlh u) (lcr u) (ier u) (current_intr u)
  p (mcr u) (in_ready u).
Definition set_current_intr c u := mk_u8250 (dll u) (dlh u) (lcr u) (ier u) c
  (pending_intrs u) (mcr u) (in_ready u).

Definition ilog2 (x : Z) : Z := u8 (31 - rv_clz x).

Definition u8250_update_interrupts (u : u8250_state_t) : u8250_state_t :=
  let p := if in_ready u then Z.lor (pending_intrs u) 1 else Z.land (pending_intrs u) 0xfe in
  let p := Z.land p (ier u) in
  let u := set_pending_intrs p u in
  if truth p then set_current_intr (ilog2 p) u else u.

Definition u8250_check_ready (u : u8250_state_t) (h : host_t) : u8250_state_t * host_t :=
  if in_ready u then (u, h)
  else let '(ready, h) := host_poll h in (if (ready : bool) then set_in_ready true u else u, h).

Definition u8250_handle_in (u : u8250_state_t) (h : host_t) : option (Z * u8250_state_t * host_t) :=
  let '(u, h) := u8250_check_ready u h in
  if negb (in_ready u) then Some (0, u, h)
  else
    let '(b, h) := host_read h in
    let value := u8 (default 0 b) in
    let u := set_in_ready false u in
    if value =? 1 then
      let '(u, h) := u8250_check_ready u h in
      let '(c, h) := host_getchar h in
      if c =? 120 then None else Some (value, u, h)
    else Some (value, u, h).

(** Divisor latch access *)
Definition DLAB (u : u8250_state_t) : bool := truth (Z.land (lcr u) 0x80).

Definition u8250_read (u : u8250_state_t) (h : host_t) (addr : Z)
    : option (Z * u8250_state_t * host_t) :=
  match addr with
  | 0 => if DLAB u then Some (dll u, u, h) else u8250_handle_in u h
  | 1 => if DLAB u then Some (dlh u, u, h) else Some (ier u, u, h)
  | 2 =>
      let ret := u8 (Z.lor (Z.shiftl (current_intr u) 1) (if truth (pending_intrs u) then 0 else 1)) in
      let u := if current_intr u =? U8250_INTR_THRE
               then set_pending_intrs (Z.land (pending_intrs u) 0xfd) u else u in
      Some (ret, u, h)
  | 3 => Some (lcr u, u, h)
  | 4 => Some (mcr u, u, h)
  | 5 => Some (Z.lor 0x60 (b2u (in_ready u)), u, h)
  | 6 => Some (0xb0, u, h)
  | _ => Some (0, u, h)
  end.

Definition u8250_write (u : u8250_state_t) (h : host_t) (addr value : Z) : u8250_state_t * host_t :=
  let v := u8 value in
  match addr with
  | 0 => if DLAB u
         then (mk_u8250 v (dlh u) (lcr u) (ier u) (current_intr u) (pending_intrs u) (mcr u) (in_ready u), h)
         else (set_pending_intrs (Z.lor (pending_intrs u) 2) u, host_write v h)
  | 1 => if DLAB u
         then (mk_u8250 (dll u) v (lcr u) (ier u) (current_intr u) (pending_intrs u) (mcr u) (in_ready u), h)
         else (mk_u8250 (dll u) (dlh u) (lcr u) v (current_intr u) (pending_intrs u) (mcr u) (in_ready u), h)
  | 3 => (mk_u8250 (dll u) (dlh u) v (ier u) (current_intr u) (pending_intrs u) (mcr u) (in_ready u), h)
  | 4 => (mk_u8250 (dll u) (dlh u) (lcr u) (ier u) (current_intr u) (pending_intrs u) v (in_ready u), h)
  | _ => (u, h)
  end.

Definition u8250_new : u8250_state_t := mk_u8250 0 0 0 0 0 0 0 false.

(** * Interrupt controller *)

Definition SIP_SEIP := 0x200.

Record plic_t := mk_plic { masked : Z; ip : Z; ie : Z; active : Z }.

Definition plic_update_interrupts (p : plic_t) (rv : riscv) : plic_t * riscv :=
  let ip' := Z.lor (ip p) (Z.land (active p) (~u (masked p))) in
  let p := mk_plic (Z.lor (masked p) (active p)) ip' (ie p) (active p) in
  (p, if truth (Z.land (ip p) (ie p))
      then set_csr csr_sip (Z.lor (csr rv csr_sip) SIP_SEIP) rv
      else set_csr csr_sip (Z.land (csr rv csr_sip) (~u SIP_SEIP)) rv).

Definition plic_read (p : plic_t) (addr : Z) : Z * plic_t :=
  match addr with
  | 0x1000 => (ip p, p)
  | 0x2000 => (ie p, p)
  | 0x200000 => (0, p)
  | 0x200004 =>
      let intr_candidate := Z.land (ip p) (ie p) in
      if truth intr_candidate then
        let v := rv_ctz intr_candidate in
        (v, mk_plic (masked p) (Z.land (ip p) (~u (Z.shiftl 1 v))) (ie p) (active p))
      else (0, p)
  | _ => (0, p)
  end.

(** [1U << value] is undefined for [value >= 32]. *)
Definition plic_write (p : plic_t) (addr value : Z) : option plic_t :=
  match addr with
  | 0x2000 => Some (mk_plic (masked p) (ip p) (Z.land value 0xfffffffe) (active p))
  | 0x200004 =>
      if value <? 32 then
        Some (if truth (Z.land (ie p) (Z.shiftl 1 value))
              then mk_plic (Z.land (masked p) (~u (Z.shiftl 1 value))) (ip p) (ie p) (active p)
              else p)
      else None
  | _ => Some p
  end.

Definition plic_new : plic_t := mk_plic 0 0 0 0.

(** * Real-time clock *)

(** [rtc_t] with the file-scope variable [now_nsec] of rtc.c. *)
Record rtc_t := mk_rtc {
  time_low : Z; time_high : Z; alarm_low : Z; alarm_high : Z; irq_enabled : Z;
  alarm_status : Z; interrupt_status : Z; clock_offset : Z; now_nsec : Z }.

Definition set_now v r := mk_rtc (time_low r) (time_high r) (alarm_low r) (alarm_high r)
  (irq_enabled r) (alarm_status r) (interrupt_status r) (clock_offset r) v.
Definition set_clock_offset v r := mk_rtc (time_low r) (time_high r) (alarm_low r) (alarm_high r)
  (irq_enabled r) (alarm_status r) (interrupt_status r) v (now_nsec r).
Definition set_time_low v r := mk_rtc v (time_high r) (alarm_low r) (alarm_high r)
  (irq_enabled r) (alarm_status r) (interrupt_status r) (clock_offset r) (now_nsec r).
Definition set_time_high v r := mk_rtc (time_low r) v (alarm_low r) (alarm_high r)
  (irq_enabled r) (alarm_status r) (interrupt_status r) (clock_offset r) (now_nsec r).

Definition rtc_get_now_nsec (r : rtc_t) (h : host_t) : Z * host_t :=
  let '(t, h) := host_clock h in (u64 (t + clock_offset r), h).

Definition rtc_read (r : rtc_t) (h : host_t) (addr : Z) : Z * rtc_t * host_t :=
  match addr with
  | 0x00 =>
      let '(now, h) := rtc_get_now_nsec r h in
      let r := set_now now r in
      let r := set_time_low (Z.land now 0xffffffff) r in
      (time_low r, r, h)
  | 0x04 =>
      let r := set_time_high (u32 (Z.shiftr (now_nsec r) 32)) r in
      (time_high r, r, h)
  | 0x08 => (alarm_low r, r, h)
  | 0x0c => (alarm_high r, r, h)
  | 0x18 => (alarm_status r, r, h)
  | _ => (0, r, h)
  end.

Definition rtc_write (r : rtc_t) (h : host_t) (addr value : Z) : rtc_t * host_t :=
  match addr with
  | 0x00 =>
      let '(now, h) := rtc_get_now_nsec r h in
      let r := set_now now r in
      (set_clock_offset (u64 (clock_offset r + u64 (value - Z.land now 0xffffffff))) r, h)
  | 0x04 =>
      (set_clock_offset (u64 (clock_offset r +
        u64 (u64 (Z.shiftl value 32) - Z.land (now_nsec r) (u64 (Z.shiftl 0xffffffff 32))))) r, h)
  | 0x08 => (mk_rtc (time_low r) (time_high r) value (alarm_high r) (irq_enabled r)
      (alarm_status r) (interrupt_status r) (clock_offset r) (now_nsec r), h)
  | 0x0c => (mk_rtc (time_low r) (time_high r) (alarm_low r) value (irq_enabled r)
      (alarm_status r) (interrupt_status r) (clock_offset r) (now_nsec r), h)
  | 0x10 => (mk_rtc (time_low r) (time_high r) (alarm_low r) (alarm_high r) value
      (alarm_status r) (interrupt_status r) (clock_offset r) (now_nsec r), h)
  | 0x14 => (mk_rtc (time_low r) (time_high r) (alarm_low r) (alarm_high r) (irq_enabled r)
      0 (interrupt_status r) (clock_offset r) (now_nsec r), h)
  | 0x1c => (mk_rtc (time_low r) (time_high r) (alarm_low r) (alarm_high r) (irq_enabled r)
      (alarm_status r) 0 (clock_offset r) (now_nsec r), h)
  | _ => (r, h)
  end.

Definition rtc_alarm_fire (r : rtc_t) (now : Z) : bool :=
  truth (irq_enabled r) && (Z.lor (u64 (Z.shiftl (alarm_high r) 32)) (alarm_low r) <=? now).

Definition rtc_new (h : host_t) : rtc_t * host_t :=
  let r := mk_rtc 0 0 0 0 0 0 0 0 0 in
  let '(now, h) := rtc_get_now_nsec r h in
  (mk_rtc (Z.land now 0xffffffff) (u32 (Z.shiftr now 32)) 0 0 0 0 0 0 now, h).
