(* ===== verification/Virtio.v ===== *)
(** The virtio block device, src/src/devices/virtio-blk.c and virtio.h: its registers, the
    requests of a queue and their transfers between guest RAM and the disk.

    Guest RAM is the memory of the emulator, passed to and returned by the operations; the
    disk image is a memory of its own.  [None] is undefined behaviour: an access outside of
    RAM, of the disk image, of the configuration space or a division by zero. *)

From S2P Require Import Prelude.
From S2P Require Import Opcode.
From S2P Require Import Decode.
From S2P Require Import Machine.

Definition DISK_BLK_SIZE := 512.
Definition VBLK_QUEUE_NUM_MAX := 1024.
Definition VIRTIO_STATUS_DRIVER_OK := 4.
Definition VIRTIO_STATUS_DEVICE_NEEDS_RESET := 64.
Definition VIRTIO_INT_USED_RING := 1.
Definition VIRTIO_INT_CONF_CHANGE := 2.
Definition VIRTIO_DESC_F_NEXT := 1.
Definition VIRTIO_BLK_T_IN := 0.
Definition VIRTIO_BLK_T_OUT := 1.
Definition VIRTIO_BLK_S_OK := 0.
Definition VIRTIO_BLK_S_IOERR := 1.
Definition VIRTIO_BLK_S_UNSUPP := 2.
Definition VIRTIO_BLK_F_RO := 32.

(** [queue_desc], [queue_avail] and [queue_used] are indices of 32-bit words of RAM. *)
Record virtio_blk_queue_t := mk_queue {
  queue_num : Z; queue_desc : Z; queue_avail : Z; queue_used : Z; last_avail : Z; ready : bool }.

(** [priv] is the configuration space, 17 words; the first two are the capacity. *)
Record virtio_blk_state_t := mk_vblk {
  device_features : Z; device_features_sel : Z; driver_features : Z; driver_features_sel : Z;
  queue_sel : Z; queues : list virtio_blk_queue_t; status : Z; interrupt_status : Z;
  disk : memory_t; priv : list Z }.

Record virtq_desc := mk_desc { desc_addr : Z; desc_len : Z; desc_flags : Z }.

Definition CONFIG_WORDS : nat := 17.
Definition queue_zero : virtio_blk_queue_t := mk_queue 0 0 0 0 0 false.

Definition set_status v s := mk_vblk (device_features s) (device_features_sel s) (driver_features s)
  (driver_features_sel s) (queue_sel s) (queues s) v (interrupt_status s) (disk s) (priv s).
Definition set_interrupt_status v s := mk_vblk (device_features s) (device_features_sel s)
  (driver_features s) (driver_features_sel s) (queue_sel s) (queues s) (status s) v (disk s) (priv s).
Definition set_queues v s := mk_vblk (device_features s) (device_features_sel s) (driver_features s)
  (driver_features_sel s) (queue_sel s) v (status s) (interrupt_status s) (disk s) (priv s).
Definition set_disk v s := mk_vblk (device_features s) (device_features_sel s) (driver_features s)
  (driver_features_sel s) (queue_sel s) (queues s) (status s) (interrupt_status s) v (priv s).
Definition set_priv v s := mk_vblk (device_features s) (device_features_sel s) (driver_features s)
  (driver_features_sel s) (queue_sel s) (queues s) (status s) (interrupt_status s) (disk s) v.
Definition set_last_avail v q := mk_queue (queue_num q) (queue_desc q) (queue_avail q) (queue_used q)
  v (ready q).

(** [VBLK_PRIV(vblk)->capacity] *)
Definition capacity (s : virtio_blk_state_t) : Z :=
  default 0 (priv s !! 0%nat) + 0x100000000 * default 0 (priv s !! 1%nat).
Definition set_capacity (c : Z) (s : virtio_blk_state_t) : virtio_blk_state_t :=
  set_priv (<[0%nat := u32 c]> (<[1%nat := u32 (Z.shiftr c 32)]> (priv s))) s.

Definition virtio_blk_set_fail (s : virtio_blk_state_t) : virtio_blk_state_t :=
  let s := set_status (Z.lor (status s) VIRTIO_STATUS_DEVICE_NEEDS_RESET) s in
  if truth (Z.land (status s) VIRTIO_STATUS_DRIVER_OK)
  then set_interrupt_status (Z.lor (interrupt_status s) VIRTIO_INT_CONF_CHANGE) s else s.

Definition virtio_blk_update_status (s : virtio_blk_state_t) (v : Z) : virtio_blk_state_t :=
  let s := set_status (Z.lor (status s) v) s in
  if truth v then s
  else
    let cap := u32 (capacity s) in
    set_capacity cap
      (mk_vblk (device_features s) 0 0 0 0 [queue_zero; queue_zero] 0 0 (disk s) (priv s)).

(** * Requests *)

(** [ram[i]] *)
Definition ram_load (m : memory_t) (i : Z) : option Z := mem_read 4 m (4 * i).
Definition ram_store (m : memory_t) (i v : Z) : option memory_t := mem_write 4 m (4 * i) v.

(** [memcpy] of [n] bytes between the two memories. *)
Fixpoint copy_between (src : memory_t) (sa : Z) (dst : memory_t) (da : Z) (n : nat) : memory_t :=
  match n with
  | O => dst
  | S n => copy_between src (sa + 1) (store_le dst da 1 (byte_at src sa)) (da + 1) n
  end.
Definition memcpy (src : memory_t) (sa : Z) (dst : memory_t) (da len : Z) : option memory_t :=
  if GUEST_RAM_CONTAINS src sa len && GUEST_RAM_CONTAINS dst da len
  then Some (copy_between src sa dst da (Z.to_nat len)) else None.

Definition virtio_blk_write_handler (s : virtio_blk_state_t) (m : memory_t) (sector desc_addr len : Z)
    : option virtio_blk_state_t :=
  d ← memcpy m desc_addr (disk s) (u64 (sector * DISK_BLK_SIZE)) len; Some (set_disk d s).
Definition virtio_blk_read_handler (s : virtio_blk_state_t) (m : memory_t) (sector desc_addr len : Z)
    : option memory_t :=
  memcpy (disk s) (u64 (sector * DISK_BLK_SIZE)) m desc_addr len.

(** The [n] descriptors of the chain that starts at [desc_idx]. *)
Fixpoint read_chain (m : memory_t) (queue_desc desc_idx : Z) (n : nat) : option (list virtq_desc) :=
  match n with
  | O => Some []
  | S n =>
      let a := 4 * (queue_desc +u desc_idx * 4) in
      addr ← mem_read 8 m a;
      len ← mem_read 4 m (a + 8);
      flags ← mem_read 2 m (a + 12);
      next ← mem_read 2 m (a + 14);
      l ← read_chain m queue_desc next n;
      Some (mk_desc addr len flags :: l)
  end.

(** [f & VIRTIO_DESC_F_NEXT] *)
Definition has_next (d : virtq_desc) : bool := truth (Z.land (desc_flags d) VIRTIO_DESC_F_NEXT).

(** The returned option is [Some *plen] for 0 and [None] for -1. *)
Definition virtio_blk_desc_handler (s : virtio_blk_state_t) (queue : virtio_blk_queue_t)
    (m : memory_t) (desc_idx : Z) : option (option Z * virtio_blk_state_t * memory_t) :=
  vq_desc ← read_chain m (queue_desc queue) desc_idx 3;
  match vq_desc with
  | [d0; d1; d2] =>
      if negb (has_next d0) || negb (has_next d1) || has_next d2
      then Some (None, virtio_blk_set_fail s, m)
      else
        type ← mem_read 4 m (desc_addr d0);
        sector ← mem_read 8 m (desc_addr d0 + 8);
        let fail st := m ← mem_write 1 m (desc_addr d2) st; Some (None, s, m) in
        let ok (s : virtio_blk_state_t) m :=
          m ← mem_write 1 m (desc_addr d2) VIRTIO_BLK_S_OK; Some (Some (desc_len d1), s, m) in
        if u64 (capacity s - 1) <? sector then fail VIRTIO_BLK_S_IOERR
        else if type =? VIRTIO_BLK_T_IN then
          m ← virtio_blk_read_handler s m sector (desc_addr d1) (desc_len d1); ok s m
        else if type =? VIRTIO_BLK_T_OUT then
          if truth (Z.land (device_features s) VIRTIO_BLK_F_RO) then fail VIRTIO_BLK_S_IOERR
          else s ← virtio_blk_write_handler s m sector (desc_addr d1) (desc_len d1); ok s m
        else fail VIRTIO_BLK_S_UNSUPP
  | _ => None
  end.

(** The loop of [virtio_queue_notify_handler]; the result holds the device, RAM and, when the
    loop was not left early, [new_used].  [fuel] is the number of requests, the distance of
    [last_avail] to [new_avail] as 16-bit counters. *)
Fixpoint notify_loop (index : nat) (new_avail : Z) (fuel : nat) (s : virtio_blk_state_t)
    (m : memory_t) (new_used : Z) : option (virtio_blk_state_t * memory_t * option Z) :=
  queue ← queues s !! index;
  if last_avail queue =? new_avail then Some (s, m, Some new_used)
  else
    match fuel with
    | O => None
    | S fuel =>
        if queue_num queue =? 0 then None
        else
          let queue_idx := u16 (last_avail queue mod queue_num queue) in
          w ← ram_load m (queue_avail queue +u (1 + queue_idx / 2));
          let buffer_idx := u16 (Z.shiftr w (16 * (queue_idx mod 2))) in
          '(r, s, m) ← virtio_blk_desc_handler s queue m buffer_idx;
          match r with
          | None => Some (virtio_blk_set_fail s, m, None)
          | Some len =>
              let vq_used_addr := queue_used queue +u (1 + (new_used mod queue_num queue) * 2) in
              m ← ram_store m vq_used_addr buffer_idx;
              m ← ram_store m (vq_used_addr +u 1) len;
              let q := set_last_avail (u16 (last_avail queue + 1)) queue in
              notify_loop index new_avail fuel (set_queues (<[index := q]> (queues s)) s) m
                (u16 (new_used + 1))
          end
    end.

Definition virtio_queue_notify_handler (s : virtio_blk_state_t) (m : memory_t) (index : nat)
    : option (virtio_blk_state_t * memory_t) :=
  queue ← queues s !! index;
  if truth (Z.land (status s) VIRTIO_STATUS_DEVICE_NEEDS_RESET) then Some (s, m)
  else if negb (truth (Z.land (status s) VIRTIO_STATUS_DRIVER_OK) && ready queue)
  then Some (virtio_blk_set_fail s, m)
  else
    w ← ram_load m (queue_avail queue);
    let new_avail := u16 (Z.shiftr w 16) in
    if u16 (queue_num queue) <? new_avail - last_avail queue then Some (virtio_blk_set_fail s, m)
    else if last_avail queue =? new_avail then Some (s, m)
    else
      w ← ram_load m (queue_used queue);
      let new_used := u16 (Z.shiftr w 16) in
      '(s, m, r) ← notify_loop index new_avail
        (Z.to_nat ((new_avail - last_avail queue) mod 0x10000)) s m new_used;
      match r with
      | None => Some (s, m)
      | Some new_used =>
          w ← ram_load m (queue_used queue);
          m ← ram_store m (queue_used queue) (Z.lor (Z.land w 0xffff) (u32 (Z.shiftl new_used 16)));
          w ← ram_load m (queue_avail queue);
          Some (if truth (Z.land w 1) then s
                else set_interrupt_status (Z.lor (interrupt_status s) VIRTIO_INT_USED_RING) s, m)
      end.

(** * Registers *)

Section Registers.
Context (MEM_SIZE : Z).

Definition vblk_preprocess (s : virtio_blk_state_t) (addr : Z) : Z * virtio_blk_state_t :=
  if (MEM_SIZE <=? addr) || truth (Z.land addr 3) then (0, virtio_blk_set_fail s)
  else (Z.shiftr addr 2, s).

(** The index of a word of the configuration space, [addr - VIRTIO_Config]. *)
Definition config_index (addr : Z) : nat := Z.to_nat (addr -u 0x40).

Definition virtio_blk_read (s : virtio_blk_state_t) (addr : Z) : option Z :=
  let addr := Z.shiftr addr 2 in
  match addr with
  | 0x0 => Some 0x74726976
  | 0x1 => Some 2
  | 0x2 => Some 2
  | 0x3 => Some 0x12345678
  | 0x4 => Some (if device_features_sel s =? 0 then device_features s
                 else if device_features_sel s =? 1 then 1 else 0)
  | 0xd => Some VBLK_QUEUE_NUM_MAX
  | 0x11 => q ← queues s !! Z.to_nat (queue_sel s); Some (b2u (ready q))
  | 0x18 => Some (interrupt_status s)
  | 0x1c => Some (status s)
  | 0x3f => Some 0
  | _ => priv s !! config_index addr
  end.

(** Assigns to the selected queue, [VBLK_QUEUE]. *)
Definition update_queue (f : virtio_blk_queue_t -> virtio_blk_queue_t) (s : virtio_blk_state_t)
    : option virtio_blk_state_t :=
  q ← queues s !! Z.to_nat (queue_sel s);
  Some (set_queues (<[Z.to_nat (queue_sel s) := f q]> (queues s)) s).

Definition virtio_blk_write (s : virtio_blk_state_t) (m : memory_t) (addr value : Z)
    : option (virtio_blk_state_t * memory_t) :=
  let addr := Z.shiftr addr 2 in
  let ret (s : option virtio_blk_state_t) := s ← s; Some (s, m) in
  let high := if truth value then virtio_blk_set_fail s else s in
  match addr with
  | 0x5 => Some (mk_vblk (device_features s) value (driver_features s) (driver_features_sel s)
      (queue_sel s) (queues s) (status s) (interrupt_status s) (disk s) (priv s), m)
  | 0x8 => Some (mk_vblk (device_features s) (device_features_sel s)
      (if driver_features_sel s =? 0 then value else driver_features s) (driver_features_sel s)
      (queue_sel s) (queues s) (status s) (interrupt_status s) (disk s) (priv s), m)
  | 0x9 => Some (mk_vblk (device_features s) (device_features_sel s) (driver_features s) value
      (queue_sel s) (queues s) (status s) (interrupt_status s) (disk s) (priv s), m)
  | 0xc => Some (if value <? 2
      then mk_vblk (device_features s) (device_features_sel s) (driver_features s)
        (driver_features_sel s) value (queues s) (status s) (interrupt_status s) (disk s) (priv s)
      else virtio_blk_set_fail s, m)
  | 0xe => if (0 <? value) && (value <=? VBLK_QUEUE_NUM_MAX)
      then ret (update_queue (fun q => mk_queue value (queue_desc q) (queue_avail q) (queue_used q)
        (last_avail q) (ready q)) s)
      else Some (virtio_blk_set_fail s, m)
  | 0x11 =>
      q ← queues s !! Z.to_nat (queue_sel s);
      la ← (if truth (Z.land value 1)
            then w ← ram_load m (queue_avail q); Some (u16 (Z.shiftr w 16))
            else Some (last_avail q));
      ret (update_queue (fun q => mk_queue (queue_num q) (queue_desc q) (queue_avail q)
        (queue_used q) la (truth (Z.land value 1))) s)
  | 0x20 => let '(v, s) := vblk_preprocess s value in
      ret (update_queue (fun q => mk_queue (queue_num q) v (queue_avail q) (queue_used q)
        (last_avail q) (ready q)) s)
  | 0x21 => Some (high, m)
  | 0x24 => let '(v, s) := vblk_preprocess s value in
      ret (update_queue (fun q => mk_queue (queue_num q) (queue_desc q) v (queue_used q)
        (last_avail q) (ready q)) s)
  | 0x25 => Some (high, m)
  | 0x28 => let '(v, s) := vblk_preprocess s value in
      ret (update_queue (fun q => mk_queue (queue_num q) (queue_desc q) (queue_avail q) v
        (last_avail q) (ready q)) s)
  | 0x29 => Some (high, m)
  | 0x14 => if value <? 2 then virtio_queue_notify_handler s m (Z.to_nat value)
      else Some (virtio_blk_set_fail s, m)
  | 0x19 => Some (set_interrupt_status (Z.land (interrupt_status s) (~u value)) s, m)
  | 0x1c => Some (virtio_blk_update_status s value, m)
  | _ =>
      let i := config_index addr in
      if bool_decide (i < length (priv s))%nat then Some (set_priv (<[i := value]> (priv s)) s, m)
      else None
  end.
End Registers.

(** * Creation *)

(** Without a disk image the pointer is NULL: no byte of it can be accessed. *)
Definition vblk_new : virtio_blk_state_t :=
  mk_vblk 0 0 0 0 0 [queue_zero; queue_zero] 0 0 (mk_memory ∅ 0) [].

(** [virtio_blk_init] from the mapped disk image, if a disk file was given. *)
Definition virtio_blk_init (s : virtio_blk_state_t) (image : option memory_t) (readonly : bool)
    : virtio_blk_state_t :=
  let s := set_priv (replicate CONFIG_WORDS 0) s in
  match image with
  | None => set_capacity 0 s
  | Some d =>
      let sz := mem_size d in
      let s := set_priv (<[15%nat := u32 sz]> (<[16%nat := u32 (Z.shiftr sz 32)]> (priv s))) s in
      let s := set_capacity (u64 (u64 (sz - 1) / DISK_BLK_SIZE + 1)) (set_disk d s) in
      if readonly
      then mk_vblk VIRTIO_BLK_F_RO (device_features_sel s) (driver_features s)
        (driver_features_sel s) (queue_sel s) (queues s) (status s) (interrupt_status s) (disk s) (priv s)
      else s
  end.
