(* ===== verification/Bus.v ===== *)
(** The devices on the bus: how system mode dispatches an access outside of RAM to a device
    (the macros [MMIO_READ], [MMIO_WRITE] and [MMIO_OP] of src/src/system.h), and how the
    devices drive the interrupt controller ([emu_update_*_interrupts] of src/src/system.c). *)

From S2P Require Import Prelude.
From S2P Require Import Opcode.
From S2P Require Import Decode.
From S2P Require Import Machine.
From S2P Require Import Interp.
From S2P Require Import Devices.
From S2P Require Import Virtio.

(** The fields of [vm_attr_t] of the MMIO build, and the host.  [vblk_curr] is an index. *)
Record devices := mk_devices {
  uart : u8250_state_t;
  plic : plic_t;
  rtc : rtc_t;
  vblk : list virtio_blk_state_t;
  vblk_curr : nat;
  vblk_mmio_base_hi : Z;
  vblk_mmio_max_hi : Z;
  vblk_irq_base : Z;
  host : host_t }.

Definition set_uart v d := mk_devices v (plic d) (rtc d) (vblk d) (vblk_curr d)
  (vblk_mmio_base_hi d) (vblk_mmio_max_hi d) (vblk_irq_base d) (host d).
Definition set_plic v d := mk_devices (uart d) v (rtc d) (vblk d) (vblk_curr d)
  (vblk_mmio_base_hi d) (vblk_mmio_max_hi d) (vblk_irq_base d) (host d).
Definition set_rtc v d := mk_devices (uart d) (plic d) v (vblk d) (vblk_curr d)
  (vblk_mmio_base_hi d) (vblk_mmio_max_hi d) (vblk_irq_base d) (host d).
Definition set_vblk v d := mk_devices (uart d) (plic d) (rtc d) v (vblk_curr d)
  (vblk_mmio_base_hi d) (vblk_mmio_max_hi d) (vblk_irq_base d) (host d).
Definition set_vblk_curr v d := mk_devices (uart d) (plic d) (rtc d) (vblk d) v
  (vblk_mmio_base_hi d) (vblk_mmio_max_hi d) (vblk_irq_base d) (host d).
Definition set_host v d := mk_devices (uart d) (plic d) (rtc d) (vblk d) (vblk_curr d)
  (vblk_mmio_base_hi d) (vblk_mmio_max_hi d) (vblk_irq_base d) v.

Definition IRQ_UART_BIT := 2.
Definition IRQ_RTC_BIT := 4.
(** [1 << (base + i)] of an [int]. *)
Definition IRQ_VBLK_BIT (base i : Z) : option Z :=
  if (0 <=? base + i) && (base + i <? 31) then Some (Z.shiftl 1 (base + i)) else None.

(** * Interrupt lines *)

(** Sets or clears a line of the controller, then [plic_update_interrupts]. *)
Definition drive_line (bit : Z) (level : bool) (rv : riscv) (d : devices) : riscv * devices :=
  let p := plic d in
  let a := if level then Z.lor (active p) bit else Z.land (active p) (~u bit) in
  let '(p, rv) := plic_update_interrupts (mk_plic (masked p) (ip p) (ie p) a) rv in
  (rv, set_plic p d).

Definition emu_update_uart_interrupts (rv : riscv) (d : devices) : riscv * devices :=
  let d := set_uart (u8250_update_interrupts (uart d)) d in
  drive_line IRQ_UART_BIT (truth (pending_intrs (uart d))) rv d.

Fixpoint update_vblk_from (l : list virtio_blk_state_t) (i : Z) (rv : riscv) (d : devices)
    : option (riscv * devices) :=
  match l with
  | [] => Some (rv, d)
  | v :: l =>
      bit ← IRQ_VBLK_BIT (vblk_irq_base d) i;
      let '(rv, d) := drive_line bit (truth (Virtio.interrupt_status v)) rv d in
      update_vblk_from l (i + 1) rv d
  end.
Definition emu_update_vblk_interrupts (rv : riscv) (d : devices) : option (riscv * devices) :=
  update_vblk_from (vblk d) 0 rv d.

Definition emu_update_rtc_interrupts (rv : riscv) (d : devices) : riscv * devices :=
  drive_line IRQ_RTC_BIT (truth (Devices.interrupt_status (rtc d))) rv d.

(** * Dispatch *)

Inductive SUPPORTED_MMIO := MMIO_PLIC | MMIO_UART | MMIO_VIRTIOBLK | MMIO_RTC.

(** The device of an address, with [vblk_curr] set; [None] where the code does not return. *)
Definition mmio_select (d : devices) (addr : Z) : option (SUPPORTED_MMIO * devices) :=
  if negb (Z.shiftr addr 28 =? 0xf) then None
  else
    let hi := Z.land (Z.shiftr addr 20) 0xff in
    if negb (bool_decide (vblk d = [])) && (vblk_mmio_base_hi d <=? hi) && (hi <=? vblk_mmio_max_hi d)
    then Some (MMIO_VIRTIOBLK, set_vblk_curr (Z.to_nat (hi - vblk_mmio_base_hi d)) d)
    else
      match hi with
      | 0x0 | 0x2 => Some (MMIO_PLIC, d)
      | 0x40 => Some (MMIO_UART, d)
      | 0x41 => Some (MMIO_RTC, d)
      | _ => None
      end.

Section Bus.
Context (MEM_SIZE : Z).

Definition MMIO_READ (rv : riscv) (d : devices) (addr : Z) : option (Z * riscv * devices) :=
  '(io, d) ← mmio_select d addr;
  match io with
  | MMIO_PLIC =>
      let '(v, p) := plic_read (plic d) (Z.land addr 0x3ffffff) in
      let '(p, rv) := plic_update_interrupts p rv in
      Some (v, rv, set_plic p d)
  | MMIO_UART =>
      '(v, u, h) ← u8250_read (uart d) (host d) (Z.land addr 0xfffff);
      let '(rv, d) := emu_update_uart_interrupts rv (set_host h (set_uart u d)) in
      Some (v, rv, d)
  | MMIO_VIRTIOBLK =>
      b ← vblk d !! vblk_curr d;
      v ← virtio_blk_read b (Z.land addr 0xfffff);
      '(rv, d) ← emu_update_vblk_interrupts rv d;
      Some (v, rv, d)
  | MMIO_RTC =>
      let '(v, r, h) := rtc_read (rtc d) (host d) (Z.land addr 0xfffff) in
      let '(rv, d) := emu_update_rtc_interrupts rv (set_host h (set_rtc r d)) in
      Some (v, rv, d)
  end.

Definition MMIO_WRITE (rv : riscv) (d : devices) (addr val : Z) : option (riscv * devices) :=
  '(io, d) ← mmio_select d addr;
  match io with
  | MMIO_PLIC =>
      p ← plic_write (plic d) (Z.land addr 0x3ffffff) val;
      let '(p, rv) := plic_update_interrupts p rv in
      Some (rv, set_plic p d)
  | MMIO_UART =>
      let '(u, h) := u8250_write (uart d) (host d) (Z.land addr 0xfffff) val in
      Some (emu_update_uart_interrupts rv (set_host h (set_uart u d)))
  | MMIO_VIRTIOBLK =>
      b ← vblk d !! vblk_curr d;
      '(b, m) ← virtio_blk_write MEM_SIZE b (mem rv) (Z.land addr 0xfffff) val;
      emu_update_vblk_interrupts (set_mem m rv) (set_vblk (<[vblk_curr d := b]> (vblk d)) d)
  | MMIO_RTC =>
      let '(r, h) := rtc_write (rtc d) (host d) (Z.land addr 0xfffff) val in
      Some (emu_update_rtc_interrupts rv (set_host h (set_rtc r d)))
  end.
End Bus.
