(* ===== verification/DeviceProofs.v ===== *)
(** The interrupt controller delivers each interrupt once until it is completed and drives
    the hart's external-interrupt bit; the real-time clock keeps the time it is set to; the
    UART transmits what is written to it. *)

From S2P Require Import Prelude.
From S2P Require Import Opcode.
From S2P Require Import Decode.
From S2P Require Import Machine.
From S2P Require Import Interp.
From S2P Require Import MachineFacts.
From S2P Require Import Invariant.
From S2P Require Import Devices.
From S2P Require Import Virtio.
From S2P Require Import Bus.

(** * Bits *)

Lemma pos_factor2 p : exists k q, Zpos p = 2 ^ k * (2 * q + 1) /\ 0 <= k /\ 0 <= q.
Proof.
  induction p as [p _|p (k & q & E & Hk & Hq)|].
  - exists 0, (Zpos p). rewrite Pos2Z.inj_xI. lia.
  - exists (Z.succ k), q. rewrite Pos2Z.inj_xO, E, Z.pow_succ_r by lia. lia.
  - exists 0, 0. lia.
Qed.

Lemma land_opp_odd q : Z.land (2 * q + 1) (2 * (- q - 1) + 1) = 1.
Proof.
  apply Z.bits_inj'. intros i Hi. rewrite Z.land_spec.
  destruct (decide (i = 0)) as [->|Hne]; [by rewrite !Z.testbit_odd_0|].
  replace i with (Z.succ (Z.pred i)) by lia. rewrite !Z.testbit_odd_succ by lia.
  replace (- q - 1) with (Z.lnot q) by (unfold Z.lnot; lia). rewrite Z.lnot_spec by lia.
  rewrite andb_negb_r. symmetry. apply (testbit_above 1 1); lia.
Qed.

(** [rv_ctz] is the number of the lowest set bit. *)
Lemma rv_ctz_spec v :
  0 < v -> 0 <= rv_ctz v /\ Z.testbit v (rv_ctz v) = true /\
    forall j, 0 <= j < rv_ctz v -> Z.testbit v j = false.
Proof.
  intros Hv. destruct v as [|p|]; [lia| |lia]. destruct (pos_factor2 p) as (k & q & E & Hk & Hq).
  assert (rv_ctz (Zpos p) = k) as ->.
  { unfold rv_ctz. rewrite E. replace (- (2 ^ k * (2 * q + 1))) with (2 ^ k * (2 * (- q - 1) + 1)) by lia.
    rewrite !(Z.mul_comm (2 ^ k)), <- !Z.shiftl_mul_pow2, <- Z.shiftl_land, land_opp_odd by lia.
    rewrite Z.shiftl_1_l. by apply Z.log2_pow2. }
  rewrite E, (Z.mul_comm (2 ^ k)), <- Z.shiftl_mul_pow2 by lia. split; [done|]. split.
  - by rewrite Z.shiftl_spec, Z.sub_diag, Z.testbit_odd_0 by lia.
  - intros j Hj. by rewrite Z.shiftl_spec_low by lia.
Qed.

Lemma testbit_not32 x i : 0 <= i -> Z.testbit (~u x) i = (i <? 32) && negb (Z.testbit x i).
Proof. intros. rewrite testbit_u32, Z.lnot_spec by lia. done. Qed.
Lemma testbit_shiftl1 k i : 0 <= i -> 0 <= k -> Z.testbit (Z.shiftl 1 k) i = (k =? i).
Proof. intros. by rewrite Z.shiftl_1_l, Z.pow2_bits_eqb by done. Qed.

Lemma truth_false x : truth x = false <-> x = 0.
Proof. unfold truth. rewrite negb_false_iff. apply Z.eqb_eq. Qed.

(** * Interrupt controller *)

Definition PLIC_INTR_CLAIM_OR_COMPLETE := 0x200004.

(** A controller and its hart; the interrupts that the guest has claimed and not yet completed,
    and those that it has completed although they were not claimed (as bits). *)
Definition plic_state : Type := plic_t * riscv * Z * Z.

(** What the devices and the guest do to the controller: a change of the lines, a read and a
    write of any register, each followed by [plic_update_interrupts].  A completion takes effect
    if the interrupt is enabled. *)
Inductive plic_step : plic_state -> plic_state -> Prop :=
  | plic_lines p rv c u a p' rv' :
      is_u32 a ->
      plic_update_interrupts (mk_plic (masked p) (ip p) (ie p) a) rv = (p', rv') ->
      plic_step (p, rv, c, u) (p', rv', c, u)
  | plic_reads p rv c u addr v p1 p' rv' :
      plic_read p addr = (v, p1) ->
      plic_update_interrupts p1 rv = (p', rv') ->
      plic_step (p, rv, c, u)
        (p', rv', if (addr =? PLIC_INTR_CLAIM_OR_COMPLETE) && truth v then Z.lor c (Z.shiftl 1 v) else c, u)
  | plic_writes p rv c u addr v p1 p' rv' :
      is_u32 v ->
      plic_write p addr v = Some p1 ->
      plic_update_interrupts p1 rv = (p', rv') ->
      let completes := (addr =? PLIC_INTR_CLAIM_OR_COMPLETE) && Z.testbit (ie p) v in
      plic_step (p, rv, c, u)
        (p', rv', (if completes then Z.ldiff c (Z.shiftl 1 v) else c),
         (if completes && negb (Z.testbit c v) then Z.lor u (Z.shiftl 1 v) else u)).

Inductive plic_reachable (rv0 : riscv) : plic_state -> Prop :=
  | plic_initial : plic_reachable rv0 (plic_new, rv0, 0, 0)
  | plic_later s s' : plic_reachable rv0 s -> plic_step s s' -> plic_reachable rv0 s'.

Record plic_wf (p : plic_t) (c u : Z) : Prop := {
  pw_range : is_u32 (masked p) /\ is_u32 (ip p) /\ is_u32 (ie p) /\ is_u32 (active p);
  pw_zero : Z.testbit (ie p) 0 = false;
  pw_masked : forall i, 0 <= i -> Z.testbit u i = false ->
    Z.testbit (masked p) i = Z.testbit (ip p) i || Z.testbit c i;
  pw_once : forall i, 0 <= i -> Z.testbit u i = false -> Z.testbit (ip p) i && Z.testbit c i = false }.

Definition seip_ok (p : plic_t) (rv : riscv) : Prop :=
  Z.testbit (csr rv csr_sip) 9 = truth (Z.land (ip p) (ie p)).

Lemma seip_update p rv p' rv' : plic_update_interrupts p rv = (p', rv') -> seip_ok p' rv'.
Proof.
  unfold plic_update_interrupts, seip_ok. intros [= <- <-]. cbn [ip ie].
  destruct (truth _); cbn [csr set_csr set_csrs]; rewrite decide_True by done.
  - rewrite Z.lor_spec. apply orb_true_r.
  - rewrite Z.land_spec. apply andb_false_r.
Qed.

Lemma plic_update_wf p rv c u p' rv' :
  plic_wf p c u -> plic_update_interrupts p rv = (p', rv') -> plic_wf p' c u.
Proof.
  intros [(Hm & Hp & He & Ha) H0 Hmk Ho]. unfold plic_update_interrupts. intros [= <- _].
  split; cbn [masked ip ie active]; try done.
  - split_and!; try done; apply lor_u32; try done. by apply land_u32.
  - intros i Hi Hu. rewrite !Z.lor_spec, Z.land_spec, testbit_not32, Hmk by done.
    destruct (Z.ltb_spec i 32) as [|Hi32].
    + by destruct (Z.testbit (ip p) i), (Z.testbit c i), (Z.testbit (active p) i).
    + rewrite (testbit_above (active p) 32) by (unfold is_u32 in Ha; lia). by rewrite !orb_false_r.
  - intros i Hi Hu. specialize (Ho i Hi Hu). rewrite Z.lor_spec, Z.land_spec, testbit_not32, Hmk by done.
    by destruct (Z.testbit (ip p) i), (Z.testbit c i), (Z.testbit (active p) i), (i <? 32).
Qed.

(** A claim returns the lowest pending and enabled interrupt, 0 when there is none. *)
Lemma plic_claim_spec p c u v p' :
  plic_wf p c u -> plic_read p PLIC_INTR_CLAIM_OR_COMPLETE = (v, p') ->
  (v = 0 /\ p' = p /\ Z.land (ip p) (ie p) = 0) \/
  (1 <= v < 32 /\ Z.testbit (ip p) v = true /\ Z.testbit (ie p) v = true /\
   (Z.testbit u v = false -> Z.testbit c v = false) /\
   (forall j, 0 <= j < v -> Z.testbit (ip p) j && Z.testbit (ie p) j = false) /\
   p' = mk_plic (masked p) (Z.land (ip p) (~u (Z.shiftl 1 v))) (ie p) (active p)).
Proof.
  intros [(Hm & Hp & He & Ha) H0 Hmk Ho]. cbn [plic_read PLIC_INTR_CLAIM_OR_COMPLETE].
  pose proof (land_u32 (ip p) (ie p) Hp) as Hc.
  destruct (truth _) eqn:T; intros [= <- <-]; [right|left; by rewrite truth_false in T].
  assert (0 < Z.land (ip p) (ie p)) as Hpos.
  { unfold truth in T. apply negb_true_iff, Z.eqb_neq in T. lia. }
  destruct (rv_ctz_spec _ Hpos) as (Hk & Hb & Hl). set (k := rv_ctz (Z.land (ip p) (ie p))) in *.
  rewrite Z.land_spec in Hb. apply andb_true_iff in Hb as [Hb1 Hb2].
  assert (k <> 0) by congruence.
  assert (k < 32). { destruct (Z.lt_ge_cases k 32); [done|].
    rewrite (testbit_above (ip p) 32) in Hb1; [done|exact Hp|lia]. }
  split_and!; try done; try lia.
  - intros Hu. specialize (Ho k Hk Hu). by rewrite Hb1 in Ho.
  - intros j Hj. by rewrite <- Z.land_spec, Hl.
Qed.

Lemma plic_read_wf p c u addr v p' :
  plic_wf p c u -> plic_read p addr = (v, p') ->
  plic_wf p' (if (addr =? PLIC_INTR_CLAIM_OR_COMPLETE) && truth v then Z.lor c (Z.shiftl 1 v) else c) u.
Proof.
  intros Hw. destruct (Z.eqb_spec addr PLIC_INTR_CLAIM_OR_COMPLETE) as [->|Hne]; cbn [andb].
  - intros E. destruct (plic_claim_spec _ _ _ _ _ Hw E) as [(-> & -> & _)|(Hv & Hi & _ & Hc & _ & ->)]; [done|].
    assert (truth v = true) as -> by (unfold truth; apply negb_true_iff, Z.eqb_neq; lia).
    destruct Hw as [(Hm & Hp & He & Ha) H0 Hmk Ho]. split; cbn [masked ip ie active]; try done.
    + split_and!; try done. by apply land_u32.
    + intros i Hi' Hu. rewrite Hmk, Z.land_spec, Z.lor_spec, testbit_not32, testbit_shiftl1 by (lia || done).
      destruct (Z.eqb_spec v i) as [<-|]; [by rewrite Hi, !orb_true_r|].
      rewrite orb_false_r. destruct (Z.ltb_spec i 32); [by rewrite andb_true_r|].
      by rewrite (testbit_above (ip p) 32) by (unfold is_u32 in Hp; lia).
    + intros i Hi' Hu. specialize (Ho i Hi' Hu). rewrite Z.land_spec, Z.lor_spec, testbit_not32, testbit_shiftl1 by lia.
      destruct (Z.eqb_spec v i); [by rewrite !andb_false_r|]. rewrite orb_false_r.
      by destruct (Z.testbit (ip p) i), (Z.testbit c i), (i <? 32).
  - unfold plic_read, PLIC_INTR_CLAIM_OR_COMPLETE in *. intros E.
    repeat (case_match; simplify_eq/=; try done).
Qed.

Lemma plic_write_wf p c u addr v p' :
  plic_wf p c u -> is_u32 v -> plic_write p addr v = Some p' ->
  let completes := (addr =? PLIC_INTR_CLAIM_OR_COMPLETE) && Z.testbit (ie p) v in
  plic_wf p' (if completes then Z.ldiff c (Z.shiftl 1 v) else c)
    (if completes && negb (Z.testbit c v) then Z.lor u (Z.shiftl 1 v) else u).
Proof.
  intros Hw Hv. pose proof Hw as [(Hm & Hp & He & Ha) H0 Hmk Ho].
  destruct (Z.eqb_spec addr PLIC_INTR_CLAIM_OR_COMPLETE) as [->|Hne]; cbn [andb].
  - cbn [plic_write PLIC_INTR_CLAIM_OR_COMPLETE]. destruct (Z.ltb_spec v 32); [|done]. intros [= <-].
    rewrite Z.shiftl_1_l, truth_land_pow2 by (unfold is_u32 in Hv; lia).
    destruct (Z.testbit (ie p) v); [|done]. rewrite <- Z.shiftl_1_l. cbn [andb].
    (** An interrupt is unaffected, was claimed, or counts as completed without a claim. *)
    assert (Hcase : forall i, 0 <= i ->
      Z.testbit (if negb (Z.testbit c v) then Z.lor u (Z.shiftl 1 v) else u) i = false ->
      Z.testbit u i = false /\ (v = i -> Z.testbit c v = true)).
    { intros i Hi. destruct (Z.testbit c v); cbn [negb]; [done|].
      rewrite Z.lor_spec, testbit_shiftl1 by (unfold is_u32 in Hv; lia).
      rewrite orb_false_iff, Z.eqb_neq. naive_solver. }
    split; cbn [masked ip ie active]; try done.
    + split_and!; try done. by apply land_u32.
    + intros i Hi [Hu Hc]%Hcase; [|done].
      rewrite Z.land_spec, Z.ldiff_spec, testbit_not32, testbit_shiftl1, Hmk by (done || unfold is_u32 in Hv; lia).
      destruct (Z.eqb_spec v i) as [<-|].
      { specialize (Ho v Hi Hu). rewrite (Hc eq_refl), andb_true_r in Ho. by rewrite Ho, !andb_false_r. }
      cbn [negb]. rewrite !andb_true_r. destruct (Z.ltb_spec i 32); [by rewrite andb_true_r|]. rewrite andb_false_r.
      pose proof (Hmk i Hi Hu) as Hz. by rewrite (testbit_above (masked p) 32) in Hz by (unfold is_u32 in Hm; lia).
    + intros i Hi [Hu _]%Hcase; [|done]. specialize (Ho i Hi Hu). rewrite Z.ldiff_spec.
      by destruct (Z.testbit (ip p) i), (Z.testbit c i), (Z.testbit (Z.shiftl 1 v) i).
  - unfold plic_write, PLIC_INTR_CLAIM_OR_COMPLETE in *. intros E.
    repeat (case_match; simplify_eq/=; try done).
    split; cbn [masked ip ie active]; try done.
    + split_and!; try done. by apply land_u32.
    + rewrite Z.land_spec. apply andb_false_r.
Qed.

Definition plic_inv (s : plic_state) : Prop := let '(p, rv, c, u) := s in plic_wf p c u /\ seip_ok p rv.
Lemma plic_step_wf s s' : plic_step s s' -> plic_inv s -> plic_inv s'.
Proof.
  intros [p rv c u a p' rv' Ha E|p rv c u addr v p1 p' rv' Er E|p rv c u addr v p1 p' rv' Hv Ew E] [Hw _];
    (split; [|by eapply seip_update]); eapply plic_update_wf; try exact E.
  - by destruct Hw as [(? & ? & ? & _) ? ? ?]; split.
  - by eapply plic_read_wf.
  - by eapply plic_write_wf.
Qed.

Lemma plic_reachable_wf rv0 s :
  Z.testbit (csr rv0 csr_sip) 9 = false -> plic_reachable rv0 s -> plic_inv s.
Proof.
  intros H0. induction 1 as [|s s' Hr IH Hs]; [|by eapply plic_step_wf].
  split; [|done]. split; [done|done|..]; intros i _ _; cbn [masked ip plic_new]; by rewrite Z.testbit_0_l.
Qed.

(** C26: interrupt delivery.  In every state that devices and a guest, which may read and write
    any register, can bring the controller to: the external-interrupt bit of the hart is set exactly
    when an enabled interrupt is pending; a claim returns 0 exactly when there is none, otherwise the
    lowest enabled pending interrupt, which is between 1 and 31; and it is not one that is claimed and
    not yet completed, unless the guest has before completed this interrupt without a claim. *)
Theorem plic_delivers_once rv0 p rv c u v p' :
  Z.testbit (csr rv0 csr_sip) 9 = false -> plic_reachable rv0 (p, rv, c, u) ->
  plic_read p PLIC_INTR_CLAIM_OR_COMPLETE = (v, p') ->
  Z.testbit (csr rv csr_sip) 9 = truth (Z.land (ip p) (ie p)) /\
  (v = 0 <-> Z.land (ip p) (ie p) = 0) /\
  (v <> 0 -> 1 <= v < 32 /\ Z.testbit (ip p) v = true /\ Z.testbit (ie p) v = true /\
    (Z.testbit u v = false -> Z.testbit c v = false) /\
    forall j, 0 <= j < v -> Z.testbit (ip p) j && Z.testbit (ie p) j = false).
Proof.
  intros H0 Hr E. destruct (plic_reachable_wf _ _ H0 Hr) as [Hw Hs].
  split; [exact Hs|].
  destruct (plic_claim_spec _ _ _ _ _ Hw E) as [(-> & _ & Hz)|(Hv & Hi & He & Hc & Hl & _)].
  - by split.
  - split; [|done]. split; [lia|]. intros Hz. exfalso.
    assert (Z.testbit (Z.land (ip p) (ie p)) v = true) as T by by rewrite Z.land_spec, Hi, He.
    by rewrite Hz, Z.testbit_0_l in T.
Qed.

(** Interrupt 1 is enabled and its line raised: the claim returns it. *)
Lemma plic_delivers_once_witness :
  exists p rv, plic_reachable (reset_state ∅ 4096) (p, rv, 0, 0) /\
    (plic_read p PLIC_INTR_CLAIM_OR_COMPLETE).1 = 1 /\ Z.testbit (csr rv csr_sip) 9 = true.
Proof.
  eexists _, _. assert (forall p rv, plic_reachable (reset_state ∅ 4096) (p, rv, 0, 0) ->
    p = mk_plic 2 2 2 2 -> plic_reachable (reset_state ∅ 4096) (p, rv, 0, 0) /\
    (plic_read p PLIC_INTR_CLAIM_OR_COMPLETE).1 = 1 /\ Z.testbit (csr rv csr_sip) 9 = true) as H.
  { intros p rv Hr ->. split; [exact Hr|]. split; [reflexivity|].
    apply (plic_delivers_once (reset_state ∅ 4096) (mk_plic 2 2 2 2) rv 0 0 1 (mk_plic 2 0 2 2)
      eq_refl Hr eq_refl). }
  apply H; [|reflexivity].
  eapply plic_later; [eapply plic_later; [apply plic_initial|]|].
  - eapply (plic_writes _ _ _ _ 0x2000 2); [done|reflexivity|reflexivity].
  - eapply (plic_lines _ _ _ _ 2); [done|reflexivity].
Defined.

(** ** The bus keeps the controller and the hart in step *)

Lemma seip_drive bit level rv d rv' d' :
  drive_line bit level rv d = (rv', d') -> seip_ok (plic d') rv'.
Proof.
  unfold drive_line. destruct (plic_update_interrupts _ _) as [p r] eqn:E. intros [= <- <-].
  by eapply seip_update.
Qed.
Lemma seip_uart rv d rv' d' : emu_update_uart_interrupts rv d = (rv', d') -> seip_ok (plic d') rv'.
Proof. apply seip_drive. Qed.
Lemma seip_rtc rv d rv' d' : emu_update_rtc_interrupts rv d = (rv', d') -> seip_ok (plic d') rv'.
Proof. apply seip_drive. Qed.
Lemma seip_vblk l i rv d rv' d' :
  l <> [] -> update_vblk_from l i rv d = Some (rv', d') -> seip_ok (plic d') rv'.
Proof.
  intros Hl. assert (forall l i rv d, l <> [] \/ seip_ok (plic d) rv ->
    update_vblk_from l i rv d = Some (rv', d') -> seip_ok (plic d') rv') as H; [|apply H; by left].
  clear l i rv d Hl. induction l as [|v l IH]; intros i rv d Hs; cbn [update_vblk_from].
  - intros [= <- <-]. by destruct Hs.
  - destruct (IRQ_VBLK_BIT _ _); [|done]. cbn [mbind option_bind].
    destruct (drive_line _ _ _ _) as [rv1 d1] eqn:E. apply IH. right. by eapply seip_drive.
Qed.

Lemma mmio_select_vblk d addr d' : mmio_select d addr = Some (MMIO_VIRTIOBLK, d') -> vblk d' <> [].
Proof.
  unfold mmio_select. case_match; [done|]. case_match eqn:E.
  - intros [= <-]. cbn. apply andb_true_iff in E as [[E _]%andb_true_iff _].
    apply negb_true_iff, bool_decide_eq_false in E. done.
  - repeat case_match; done.
Qed.

(** C27: every access to a device, a read as well as a write, that returns leaves the
    external-interrupt bit of the hart set exactly when an enabled interrupt is pending. *)
Theorem mmio_updates_seip MEM_SIZE rv d addr rv' d' :
  ((exists v, MMIO_READ rv d addr = Some (v, rv', d')) \/
   (exists val, MMIO_WRITE MEM_SIZE rv d addr val = Some (rv', d'))) ->
  seip_ok (plic d') rv'.
Proof.
  intros H. destruct H as [[v E]|[v E]].
  - unfold MMIO_READ in E. destruct (mmio_select d addr) as [[io d1]|] eqn:Es; [|done].
    cbn [mbind option_bind] in E. destruct io.
    + destruct (plic_read _ _) as [x p]. destruct (plic_update_interrupts _ _) as [p1 r1] eqn:Eu.
      simplify_eq. by eapply seip_update.
    + destruct (u8250_read _ _ _) as [[[x u] h]|]; [|done]. cbn [mbind option_bind] in E.
      destruct (emu_update_uart_interrupts _ _) as [r1 d2] eqn:Eu. simplify_eq. by eapply seip_uart.
    + destruct (vblk d1 !! _); [|done]. cbn [mbind option_bind] in E.
      destruct (virtio_blk_read _ _); [|done]. cbn [mbind option_bind] in E.
      destruct (emu_update_vblk_interrupts _ _) as [[r1 d2]|] eqn:Eu; [|done]. simplify_eq/=.
      eapply seip_vblk, Eu. by eapply mmio_select_vblk.
    + destruct (rtc_read _ _ _) as [[x r] h].
      destruct (emu_update_rtc_interrupts _ _) as [r1 d2] eqn:Eu. simplify_eq. by eapply seip_rtc.
  - unfold MMIO_WRITE in E. destruct (mmio_select d addr) as [[io d1]|] eqn:Es; [|done].
    cbn [mbind option_bind] in E. destruct io.
    + destruct (plic_write _ _ _) as [p|]; [|done]. cbn [mbind option_bind] in E.
      destruct (plic_update_interrupts _ _) as [p1 r1] eqn:Eu. simplify_eq. by eapply seip_update.
    + destruct (u8250_write _ _ _ _) as [u h]. apply (inj Some) in E. by eapply seip_uart.
    + destruct (vblk d1 !! vblk_curr d1) as [b|] eqn:Eb; [|done]. cbn [mbind option_bind] in E.
      destruct (virtio_blk_write _ _ _ _ _) as [[b1 m]|]; [|done]. cbn [mbind option_bind] in E.
      eapply seip_vblk, E. cbn. intros Hn%(f_equal length). rewrite length_insert in Hn.
      apply lookup_lt_Some in Eb. cbn in Hn. lia.
    + destruct (rtc_write _ _ _ _) as [r h]. apply (inj Some) in E. by eapply seip_rtc.
Qed.

Definition idle_host : host_t :=
  mk_host 0 [] (fun _ => false) (fun _ => None) (fun _ => 0) (fun _ => 0).
Definition idle_devices : devices :=
  mk_devices u8250_new plic_new (mk_rtc 0 0 0 0 0 0 0 0 0) [] 0 0 0 0 idle_host.

(** A byte is sent while the transmit interrupt is enabled on both sides. *)
Lemma mmio_updates_seip_witness :
  exists rv' d',
    MMIO_WRITE 0x4000 (reset_state ∅ 0x4000)
      (set_uart (mk_u8250 0 0 0 2 0 0 0 false) (set_plic (mk_plic 0 0 2 0) idle_devices))
      0xf4000000 65 = Some (rv', d') /\
    Z.testbit (csr rv' csr_sip) 9 = truth (Z.land (ip (plic d')) (ie (plic d'))).
Proof.
  eexists _, _. split; [reflexivity|].
  apply (mmio_updates_seip 0x4000 (reset_state ∅ 0x4000)
    (set_uart (mk_u8250 0 0 0 2 0 0 0 false) (set_plic (mk_plic 0 0 2 0) idle_devices)) 0xf4000000).
  right. exists 65. reflexivity.
Defined.

(** * Real-time clock *)

Lemma land_high_word x : 0 <= x < 2 ^ 64 -> Z.land x (u64 (Z.shiftl 0xffffffff 32)) = x - x mod 2 ^ 32.
Proof.
  intros Hx. replace (x - x mod 2 ^ 32) with (x / 2 ^ 32 * 2 ^ 32)
    by (pose proof (Z.div_mod x (2 ^ 32) ltac:(lia)); lia).
  rewrite <- Z.shiftr_div_pow2, <- Z.shiftl_mul_pow2 by lia.
  change (u64 (Z.shiftl 0xffffffff 32)) with (Z.shiftl (Z.ones 32) 32).
  apply Z.bits_inj'. intros i Hi. rewrite Z.land_spec. destruct (Z.lt_ge_cases i 32).
  - by rewrite !Z.shiftl_spec_low, andb_false_r by lia.
  - rewrite !Z.shiftl_spec, Z.shiftr_spec by lia. replace (i - 32 + 32) with i by lia.
    destruct (Z.lt_ge_cases i 64).
    + by rewrite Z.ones_spec_low, andb_true_r by lia.
    + by rewrite (testbit_above x 64) by lia.
Qed.

(** Both words of the time, written and read low word first. *)
Definition rtc_write_time (r : rtc_t) (h : host_t) (lo hi : Z) : rtc_t * host_t :=
  let '(r, h) := rtc_write r h 0x00 lo in rtc_write r h 0x04 hi.
Definition rtc_read_time (r : rtc_t) (h : host_t) : Z :=
  let '(l, r, h) := rtc_read r h 0x00 in
  let '(g, r, h) := rtc_read r h 0x04 in
  l + 2 ^ 32 * g.

(** Setting the clock.  After the low and then the high word of a time are written, and
    whatever the offset was, reading the low and then the high word gives that time plus the
    host time that has passed since, modulo 2^64. *)
Theorem rtc_set_time r h lo hi r' h' :
  is_u32 lo -> is_u32 hi -> rtc_write_time r h lo hi = (r', h') ->
  rtc_read_time r' h'
  = u64 (lo + 2 ^ 32 * hi + (clock_at h' (calls h') - clock_at h (calls h))).
Proof.
  intros Hlo Hhi. unfold is_u32, rtc_write_time, rtc_read_time in *.
  cbn [rtc_write rtc_read rtc_get_now_nsec host_clock]. intros [= <- <-]. cbn [set_now set_clock_offset
    set_time_low set_time_high clock_offset now_nsec time_low time_high calls clock_at host_called].
  set (t1 := clock_at h (calls h)). set (t2 := clock_at h _). set (off := clock_offset r).
  rewrite land_high_word by apply u64_range.
  change 0xffffffff with (Z.ones 32). rewrite !Z.land_ones, Z.shiftr_div_pow2, Z.shiftl_mul_pow2 by lia.
  unfold u64, u32. change (2 ^ 32) with 0x100000000. mlia.
Qed.

Lemma rtc_set_time_witness :
  let h := mk_host 0 [] (fun _ => false) (fun _ => None) (fun _ => 0) (fun n => 7 + 5 * Z.of_nat n) in
  let '(r', h') := rtc_write_time (mk_rtc 0 0 0 0 0 0 0 3 0) h 100 2 in
  rtc_read_time r' h' = 105 + 2 ^ 32 * 2.
Proof.
  cbv zeta. eapply eq_trans;
    [eapply (rtc_set_time (mk_rtc 0 0 0 0 0 0 0 3 0)
      (mk_host 0 [] (fun _ => false) (fun _ => None) (fun _ => 0) (fun n => 7 + 5 * Z.of_nat n)) 100 2);
      [done|done|reflexivity]|reflexivity].
Defined.

(** * UART *)

(** A sequence of register writes. *)
Fixpoint uart_writes (u : u8250_state_t) (h : host_t) (l : list (Z * Z)) : u8250_state_t * host_t :=
  match l with
  | [] => (u, h)
  | (addr, value) :: l => let '(u, h) := u8250_write u h addr value in uart_writes u h l
  end.

(** The bytes written to the transmit register while the divisor latch is not selected. *)
Fixpoint transmitted (lcr : Z) (l : list (Z * Z)) : list Z :=
  match l with
  | [] => []
  | (addr, value) :: l =>
      if addr =? 0 then (if Z.testbit lcr 7 then [] else [u8 value]) ++ transmitted lcr l
      else if addr =? 3 then transmitted (u8 value) l
      else transmitted lcr l
  end.

(** The UART transmits, in order and truncated to a byte, exactly the values written to
    the transmit register while the divisor latch is not selected. *)
Theorem uart_transmits u h l :
  written (uart_writes u h l).2 = written h ++ transmitted (lcr u) l.
Proof.
  revert u h. induction l as [|[a v] l IH]; intros u h; cbn [uart_writes transmitted].
  - symmetry. apply app_nil_r.
  - assert (DLAB u = Z.testbit (lcr u) 7) as HD by (apply (truth_land_pow2 (lcr u) 7); lia).
    destruct (u8250_write u h a v) as [u' h'] eqn:E. rewrite IH. unfold u8250_write in E. rewrite HD in E.
    destruct (Z.eqb_spec a 0) as [->|]; [|destruct (Z.eqb_spec a 3) as [->|]].
    + destruct (Z.testbit (lcr u) 7); simplify_eq/=; [done|]. by rewrite <- (assoc_L (++)).
    + by simplify_eq/=.
    + repeat (case_match; simplify_eq/=; try done).
Qed.
