(* ===== verification/VirtioProofs.v ===== *)
(** The virtio block device transfers what its requests ask for: a sector that was written
    reads back the same bytes, and a notification consumes every request that is available
    or fails the device. *)

From S2P Require Import Prelude.
From S2P Require Import Opcode.
From S2P Require Import Decode.
From S2P Require Import Machine.
From S2P Require Import Interp.
From S2P Require Import MachineFacts.
From S2P Require Import Devices.
From S2P Require Import Virtio.
From S2P Require Import Bus.

(** * Copies *)

Lemma copy_size n src sa dst da : mem_size (copy_between src sa dst da n) = mem_size dst.
Proof.
  revert sa dst da. induction n as [|n IH]; intros; cbn [copy_between]; [done|].
  by rewrite IH, store_le_size.
Qed.
Lemma copy_byte n src sa dst da x :
  mem_bytes src ->
  byte_at (copy_between src sa dst da n) x
  = if decide (da <= x < da + Z.of_nat n) then byte_at src (sa + (x - da)) else byte_at dst x.
Proof.
  intros Hb. revert sa dst da. induction n as [|n IH]; intros; cbn [copy_between].
  { by rewrite decide_False by lia. }
  rewrite IH, byte_store. destruct (decide (x = da)) as [->|Hne].
  - rewrite decide_False, !decide_True by lia. rewrite Z.sub_diag, Z.add_0_r, Z.pow_0_r, Z.div_1_r.
    apply Z.mod_small, Hb.
  - repeat case_decide; try lia; f_equal; lia.
Qed.

Lemma memcpy_spec src sa dst da len :
  mem_bytes src -> 0 < len -> 0 <= sa -> sa + len <= mem_size src -> 0 <= da -> da + len <= mem_size dst ->
  exists d, memcpy src sa dst da len = Some d /\ mem_size d = mem_size dst /\
    forall x, byte_at d x = if decide (da <= x < da + len) then byte_at src (sa + (x - da)) else byte_at dst x.
Proof.
  intros Hb Hl Hs Hs' Hd Hd'. unfold memcpy, GUEST_RAM_CONTAINS.
  assert (forall a n, a + len <= n -> (a <? n) && (len <=? n - a) = true) as Hin.
  { intros a n Ha. by destruct (Z.ltb_spec a n), (Z.leb_spec len (n - a)); [|lia..]. }
  rewrite !Hin by done. cbn [andb]. eexists. split; [done|]. split; [apply copy_size|].
  intros x. rewrite copy_byte by done. by rewrite Z2Nat.id by lia.
Qed.

Lemma mem_write_byte m a v :
  0 <= a < mem_size m ->
  exists m', mem_write 1 m a v = Some m' /\ mem_size m' = mem_size m /\
    forall x, byte_at m' x = if decide (x = a) then v mod 0x100 else byte_at m x.
Proof.
  intros Ha. unfold mem_write, GUEST_RAM_CONTAINS.
  destruct (Z.ltb_spec a (mem_size m)), (Z.leb_spec (Z.of_nat 1) (mem_size m - a)); try lia.
  cbn [andb]. eexists. split; [done|]. split; [apply store_le_size|]. intros x. rewrite byte_store.
  repeat case_decide; try lia. subst. by rewrite Z.sub_diag, Z.pow_0_r, Z.div_1_r.
Qed.

(** * Requests *)

(** A chain of three descriptors that asks for the transfer [type] of [sector]: [data] is the
    buffer and [st] the address of the status byte. *)
Definition is_request (m : memory_t) (q : virtio_blk_queue_t) (i type sector : Z)
    (data : virtq_desc) (st : Z) : Prop :=
  exists d0 d2, read_chain m (queue_desc q) i 3 = Some [d0; data; d2] /\
    has_next d0 = true /\ has_next data = true /\ has_next d2 = false /\
    mem_read 4 m (desc_addr d0) = Some type /\ mem_read 8 m (desc_addr d0 + 8) = Some sector /\
    desc_addr d2 = st.

(** The buffer and the status byte are in RAM and the sectors within the disk. *)
Record transfer_ok (s : virtio_blk_state_t) (m : memory_t) (sector : Z) (data : virtq_desc) (st : Z)
    : Prop := {
  tr_ram : mem_bytes m;
  tr_disk : mem_bytes (disk s);
  tr_len : 0 < desc_len data;
  tr_data : 0 <= desc_addr data /\ desc_addr data + desc_len data <= mem_size m;
  tr_status : 0 <= st < mem_size m;
  tr_capacity : 0 <= sector < capacity s /\ capacity s <= 2 ^ 32;
  tr_sectors : sector * DISK_BLK_SIZE + desc_len data <= mem_size (disk s) }.

Lemma handler_request s q m i type sector data st :
  is_request m q i type sector data st -> 0 <= sector < capacity s -> capacity s <= 2 ^ 32 ->
  virtio_blk_desc_handler s q m i =
    let fail v := m ← mem_write 1 m st v; Some (None, s, m) in
    if type =? VIRTIO_BLK_T_IN then
      m ← virtio_blk_read_handler s m sector (desc_addr data) (desc_len data);
      m ← mem_write 1 m st VIRTIO_BLK_S_OK; Some (Some (desc_len data), s, m)
    else if type =? VIRTIO_BLK_T_OUT then
      if truth (Z.land (device_features s) VIRTIO_BLK_F_RO) then fail VIRTIO_BLK_S_IOERR
      else s ← virtio_blk_write_handler s m sector (desc_addr data) (desc_len data);
        m ← mem_write 1 m st VIRTIO_BLK_S_OK; Some (Some (desc_len data), s, m)
    else fail VIRTIO_BLK_S_UNSUPP.
Proof.
  intros (d0 & d2 & E & H0 & H1 & H2 & Et & Es & <-) Hs Hc. unfold virtio_blk_desc_handler.
  rewrite E. cbn [mbind option_bind]. rewrite H0, H1, H2, Et, Es. cbn [negb orb mbind option_bind].
  unfold u64. rewrite Z.mod_small by lia. by destruct (Z.ltb_spec (capacity s - 1) sector); [lia|].
Qed.

Lemma sector_offset s m sector data st :
  transfer_ok s m sector data st -> u64 (sector * DISK_BLK_SIZE) = sector * DISK_BLK_SIZE.
Proof. intros [_ _ _ _ _ Hc _]. unfold u64, DISK_BLK_SIZE. rewrite Z.mod_small; lia. Qed.

Lemma vblk_out s q m i sector data st :
  is_request m q i VIRTIO_BLK_T_OUT sector data st -> transfer_ok s m sector data st ->
  truth (Z.land (device_features s) VIRTIO_BLK_F_RO) = false ->
  exists d m', virtio_blk_desc_handler s q m i = Some (Some (desc_len data), set_disk d s, m') /\
    mem_size d = mem_size (disk s) /\ mem_size m' = mem_size m /\
    (forall x, byte_at d x = if decide (0 <= x - sector * DISK_BLK_SIZE < desc_len data)
      then byte_at m (desc_addr data + (x - sector * DISK_BLK_SIZE)) else byte_at (disk s) x) /\
    (forall x, byte_at m' x = if decide (x = st) then 0 else byte_at m x).
Proof.
  intros Hr Hok Hro. rewrite (handler_request _ _ _ _ _ _ _ _ Hr) by apply Hok. cbv zeta.
  cbn [Z.eqb VIRTIO_BLK_T_OUT VIRTIO_BLK_T_IN Pos.eqb]. rewrite Hro. unfold virtio_blk_write_handler.
  rewrite (sector_offset _ _ _ _ _ Hok). destruct Hok as [Hb _ Hl [Ha Ha'] Hst [Hc _] Hd].
  destruct (memcpy_spec m (desc_addr data) (disk s) (sector * DISK_BLK_SIZE) (desc_len data))
    as (d & -> & Ed & Bd); try done; [unfold DISK_BLK_SIZE; lia|].
  cbn [mbind option_bind]. destruct (mem_write_byte m st VIRTIO_BLK_S_OK Hst) as (m' & -> & Em & Bm).
  cbn [mbind option_bind]. exists d, m'. split_and!; try done.
  intros x. rewrite Bd. repeat case_decide; lia || done.
Qed.

Lemma vblk_in s q m i sector data st :
  is_request m q i VIRTIO_BLK_T_IN sector data st -> transfer_ok s m sector data st ->
  exists m', virtio_blk_desc_handler s q m i = Some (Some (desc_len data), s, m') /\
    mem_size m' = mem_size m /\
    forall x, byte_at m' x = if decide (x = st) then 0
      else if decide (0 <= x - desc_addr data < desc_len data)
      then byte_at (disk s) (sector * DISK_BLK_SIZE + (x - desc_addr data)) else byte_at m x.
Proof.
  intros Hr Hok. rewrite (handler_request _ _ _ _ _ _ _ _ Hr) by apply Hok. cbv zeta.
  cbn [Z.eqb VIRTIO_BLK_T_IN]. unfold virtio_blk_read_handler.
  rewrite (sector_offset _ _ _ _ _ Hok). destruct Hok as [_ Hb Hl [Ha Ha'] Hst [Hc _] Hd].
  destruct (memcpy_spec (disk s) (sector * DISK_BLK_SIZE) m (desc_addr data) (desc_len data))
    as (m1 & -> & Em1 & Bm1); try done; [unfold DISK_BLK_SIZE; lia|].
  cbn [mbind option_bind]. rewrite <- Em1 in Hst.
  destruct (mem_write_byte m1 st VIRTIO_BLK_S_OK Hst) as (m' & -> & Em & Bm).
  cbn [mbind option_bind]. exists m'. split_and!; [done|congruence|].
  intros x. rewrite Bm, Bm1. repeat case_decide; lia || done.
Qed.

(** C28: what is written to the disk can be read back.  A write request whose buffer and
    status byte are in RAM and whose sectors are on a writable disk succeeds; a read request
    of the same sector and length that follows, with its buffer in RAM and its status byte in
    RAM outside of the buffer, succeeds too and puts the bytes written into its buffer. *)
Theorem vblk_write_read s q m i sector data st q' j data' st' :
  is_request m q i VIRTIO_BLK_T_OUT sector data st -> transfer_ok s m sector data st ->
  truth (Z.land (device_features s) VIRTIO_BLK_F_RO) = false ->
  exists s1 m1, virtio_blk_desc_handler s q m i = Some (Some (desc_len data), s1, m1) /\
    mem_size m1 = mem_size m /\
    (is_request m1 q' j VIRTIO_BLK_T_IN sector data' st' -> desc_len data' = desc_len data ->
     0 <= desc_addr data' -> desc_addr data' + desc_len data' <= mem_size m1 -> 0 <= st' < mem_size m1 ->
     ~ desc_addr data' <= st' < desc_addr data' + desc_len data' ->
     exists m2, virtio_blk_desc_handler s1 q' m1 j = Some (Some (desc_len data), s1, m2) /\
       forall x, 0 <= x < desc_len data ->
         byte_at m2 (desc_addr data' + x) = byte_at m (desc_addr data + x)).
Proof.
  intros Hr Hok Hro. destruct (vblk_out _ _ _ _ _ _ _ Hr Hok Hro) as (d & m1 & -> & Ed & Em & Bd & Bm).
  exists (set_disk d s), m1. split_and!; [done|done|]. intros Hr' Hl Ha Ha' Hst Hn.
  destruct Hok as [Hb Hbd Hlen [Had Had'] Hst' Hc Hs].
  assert (transfer_ok (set_disk d s) m1 sector data' st') as Hok'.
  { split; cbn [disk set_disk]; try done; try lia.
    - intros x. rewrite Bm. case_decide; [done|apply Hb].
    - intros x. rewrite Bd. case_decide; [apply Hb|apply Hbd]. }
  destruct (vblk_in _ _ _ _ _ _ _ Hr' Hok') as (m2 & -> & _ & B2). exists m2.
  split; [by rewrite Hl|]. intros x Hx. rewrite B2. cbn [disk set_disk].
  rewrite decide_False, decide_True, Bd, decide_True by lia. f_equal. lia.
Qed.

(** ** A written sector *)

(** Two requests for sector 0 in the descriptor table at address 0: descriptors 0 to 2 write
    the word at 0x200, descriptors 3 to 5 read into the word at 0x210. *)
Definition store_desc (m : memory_t) (i addr len flags next : Z) : memory_t :=
  store_le (store_le (store_le (store_le m (16 * i) 8 addr) (16 * i + 8) 4 len)
    (16 * i + 12) 2 flags) (16 * i + 14) 2 next.
Definition request_mem : memory_t :=
  let m := mk_memory ∅ 0x1000 in
  let m := store_desc m 0 0x100 16 1 1 in
  let m := store_desc m 1 0x200 4 1 2 in
  let m := store_desc m 2 0x300 1 2 0 in
  let m := store_desc m 3 0x110 16 1 4 in
  let m := store_desc m 4 0x210 4 3 5 in
  let m := store_desc m 5 0x301 1 2 0 in
  store_le (store_le m 0x100 4 1) 0x200 4 0xdeadbeef.
Definition small_disk : virtio_blk_state_t :=
  virtio_blk_init vblk_new (Some (mk_memory ∅ 512)) false.
Definition first_queue : virtio_blk_queue_t := mk_queue 8 0 0 0 0 true.

Lemma request_mem_bytes : mem_bytes request_mem.
Proof. repeat apply mem_bytes_store. apply mem_bytes_empty. Qed.
Lemma request_mem_write :
  is_request request_mem first_queue 0 VIRTIO_BLK_T_OUT 0 (mk_desc 0x200 4 1) 0x300.
Proof. exists (mk_desc 0x100 16 1), (mk_desc 0x300 1 2). by split_and!; vm_compute. Qed.
Lemma request_mem_ok : transfer_ok small_disk request_mem 0 (mk_desc 0x200 4 1) 0x300.
Proof.
  split; [exact request_mem_bytes|apply mem_bytes_empty|..]; vm_compute; intuition congruence.
Qed.

Lemma request_mem_read :
  is_request (default (None, small_disk, request_mem)
    (virtio_blk_desc_handler small_disk first_queue request_mem 0)).2
    first_queue 3 VIRTIO_BLK_T_IN 0 (mk_desc 0x210 4 3) 0x301.
Proof. exists (mk_desc 0x110 16 1), (mk_desc 0x301 1 2). by split_and!; vm_compute. Qed.

Lemma vblk_write_read_witness :
  exists s1 m1 m2,
    virtio_blk_desc_handler small_disk first_queue request_mem 0 = Some (Some 4, s1, m1) /\
    virtio_blk_desc_handler s1 first_queue m1 3 = Some (Some 4, s1, m2) /\
    byte_at m2 0x213 = 0xde.
Proof.
  destruct (vblk_write_read small_disk first_queue request_mem 0 0 (mk_desc 0x200 4 1) 0x300
    first_queue 3 (mk_desc 0x210 4 3) 0x301 request_mem_write request_mem_ok eq_refl)
    as (s1 & m1 & E & Es & H).
  assert (is_request m1 first_queue 3 VIRTIO_BLK_T_IN 0 (mk_desc 0x210 4 3) 0x301) as Hr.
  { pose proof request_mem_read as Hr. rewrite E in Hr. exact Hr. }
  assert (mem_size m1 = 0x1000) as Ez by exact Es.
  destruct H as (m2 & E2 & B2); cbn [desc_addr desc_len] in *; [done|done|lia..|].
  exists s1, m1, m2. split; [exact E|]. split; [exact E2|]. exact (B2 3 ltac:(lia)).
Defined.

(** * Queues *)

Lemma memcpy_bytes src sa dst da len d :
  memcpy src sa dst da len = Some d -> mem_bytes src -> mem_bytes dst -> mem_bytes d.
Proof.
  unfold memcpy. case_match; [|done]. intros [= <-] Hs Hd x.
  rewrite copy_byte by done. case_decide; [apply Hs|apply Hd].
Qed.
Lemma memcpy_size src sa dst da len d : memcpy src sa dst da len = Some d -> mem_size d = mem_size dst.
Proof. unfold memcpy. case_match; [|done]. intros [= <-]. apply copy_size. Qed.

(** A request leaves the queues alone; one that succeeds leaves the status alone too. *)
Lemma desc_handler_frame s q m i r s' m' :
  virtio_blk_desc_handler s q m i = Some (r, s', m') ->
  queues s' = queues s /\ (r <> None -> status s' = status s) /\ (mem_bytes m -> mem_bytes (disk s) ->
    mem_bytes m' /\ mem_bytes (disk s')) /\ mem_size m' = mem_size m.
Proof.
  unfold virtio_blk_desc_handler. destruct (read_chain _ _ _ _) as [l|]; [|done]. cbn [mbind option_bind].
  destruct l as [|d0 [|d1 [|d2 [|]]]]; try done. cbn [mbind option_bind]. destruct (_ || _ || _).
  { intros [= <- <- <-]. unfold virtio_blk_set_fail.
    case_match; (split_and!; [done|by intros []|by intros|done]). }
  destruct (mem_read 4 _ _) as [type|]; [|done]. destruct (mem_read 8 _ _) as [sector|]; [|done].
  cbn [mbind option_bind].
  assert (forall s1 m1 v (ro : option Z), (m ← mem_write 1 m1 (desc_addr d2) v; Some (ro, s1, m)) = Some (r, s', m') ->
    queues s1 = queues s -> status s1 = status s -> mem_size m1 = mem_size m ->
    (mem_bytes m -> mem_bytes (disk s) -> mem_bytes m1 /\ mem_bytes (disk s1)) ->
    queues s' = queues s /\ (r <> None -> status s' = status s) /\ (mem_bytes m -> mem_bytes (disk s) ->
    mem_bytes m' /\ mem_bytes (disk s')) /\ mem_size m' = mem_size m) as Hst.
  { intros s1 m1 v ro E Eq Es Em Hb. destruct (mem_write 1 m1 _ _) as [m2|] eqn:Ew; [|done].
    simplify_eq/=. destruct (mem_write_read _ _ _ _ _ Ew) as (Ez & _).
    split_and!; [done|done| |congruence]. intros H1 H2. destruct (Hb H1 H2). split; [|done].
    eapply mem_write_bytes, Ew. done. }
  repeat case_match; try (intros E; by eapply Hst).
  - unfold virtio_blk_read_handler. destruct (memcpy _ _ _ _ _) as [m1|] eqn:Em; [|done].
    cbn [mbind option_bind]. intros E. eapply Hst; [exact E|done|done|by eapply memcpy_size|].
    intros Hm Hd. split; [by eapply (memcpy_bytes _ _ _ _ _ _ Em)|done].
  - unfold virtio_blk_write_handler. destruct (memcpy _ _ _ _ _) as [m1|] eqn:Em; [|done].
    cbn [mbind option_bind]. intros E. eapply Hst; [exact E|done|done|done|].
    intros Hm Hd. split; [done|]. by eapply (memcpy_bytes _ _ _ _ _ _ Em).
Qed.

(** The distance of two 16-bit counters. *)
Definition distance (new_avail last : Z) : nat := Z.to_nat ((new_avail - last) mod 0x10000).

Lemma distance_step new_avail last n :
  distance new_avail last = S n -> distance new_avail (u16 (last + 1)) = n.
Proof. unfold distance, u16. mlia. Qed.
Lemma distance_zero new_avail last :
  0 <= new_avail < 0x10000 -> 0 <= last < 0x10000 -> distance new_avail last = O -> last = new_avail.
Proof. unfold distance. mlia. Qed.

Lemma advance_lookup s s1 index q q' :
  queues s !! index = Some q -> queues s1 = queues s ->
  queues (set_queues (<[index := q']> (queues s1)) s1) !! index = Some q'.
Proof. intros Hq E. cbn. apply list_lookup_insert_eq. rewrite E. by eapply lookup_lt_Some. Qed.

(** The loop needs no more steps than there are requests: more fuel gives the same. *)
Lemma notify_loop_fuel index new_avail fuel s m new_used q :
  0 <= new_avail < 0x10000 -> queues s !! index = Some q -> 0 <= last_avail q < 0x10000 ->
  (distance new_avail (last_avail q) <= fuel)%nat ->
  notify_loop index new_avail fuel s m new_used
  = notify_loop index new_avail (distance new_avail (last_avail q)) s m new_used.
Proof.
  intros Hn. revert s m new_used q. induction fuel as [|fuel IH]; intros s m new_used q Hq Hl Hf.
  { by assert (distance new_avail (last_avail q) = O) as -> by lia. }
  destruct (distance new_avail (last_avail q)) as [|n] eqn:Ed.
  { cbn [notify_loop]. rewrite Hq. cbn [mbind option_bind].
    by rewrite (distance_zero _ _ Hn Hl Ed), Z.eqb_refl. }
  cbn [notify_loop]. rewrite Hq. cbn [mbind option_bind]. case_match; [done|]. case_match; [done|].
  destruct (ram_load _ _); [|done]. cbn [mbind option_bind].
  destruct (virtio_blk_desc_handler _ _ _ _) as [[[r s1] m1]|] eqn:Eh; [|done]. cbn [mbind option_bind].
  destruct r as [len|]; [|done]. destruct (ram_store _ _ _); [|done]. cbn [mbind option_bind].
  destruct (ram_store _ _ _); [|done]. cbn [mbind option_bind].
  destruct (desc_handler_frame _ _ _ _ _ _ _ Eh) as (Eq & _).
  pose proof (distance_step _ _ _ Ed) as Ed'.
  rewrite (IH _ _ _ _ (advance_lookup s s1 index q _ Hq Eq)); cbn [last_avail set_last_avail]; [by rewrite Ed'|apply u16_range|lia].
Qed.

Lemma set_fail_resets s : Z.testbit (status (virtio_blk_set_fail s)) 6 = true.
Proof.
  unfold virtio_blk_set_fail. case_match; cbn [status set_status set_interrupt_status];
    rewrite Z.lor_spec; apply orb_true_r.
Qed.

Definition same_queue (q q' : virtio_blk_queue_t) : Prop :=
  queue_used q' = queue_used q /\ queue_avail q' = queue_avail q.

Lemma notify_loop_spec index new_avail fuel s m new_used q s' m' r :
  queues s !! index = Some q ->
  notify_loop index new_avail fuel s m new_used = Some (s', m', r) ->
  0 <= new_used < 0x10000 ->
  match r with
  | None => Z.testbit (status s') 6 = true
  | Some u => exists q', queues s' !! index = Some q' /\ last_avail q' = new_avail /\ same_queue q q' /\
      u = u16 (new_used + (new_avail - last_avail q)) /\ status s' = status s /\ mem_size m' = mem_size m
  end.
Proof.
  revert s m new_used q. induction fuel as [|fuel IH]; intros s m new_used q Hq; cbn [notify_loop];
    rewrite Hq; cbn [mbind option_bind].
  all: destruct (Z.eqb_spec (last_avail q) new_avail) as [<-|Hne].
  all: try (intros [= <- <- <-] Hu; exists q; split_and!; try done;
    rewrite Z.sub_diag, Z.add_0_r; symmetry; by apply Z.mod_small).
  intros E _. case_match; [done|]. destruct (ram_load _ _); [|done]. cbn [mbind option_bind] in E.
  destruct (virtio_blk_desc_handler _ _ _ _) as [[[r1 s1] m1]|] eqn:Eh; [|done]. cbn [mbind option_bind] in E.
  destruct (desc_handler_frame _ _ _ _ _ _ _ Eh) as (Eq & Est & _ & Em).
  destruct r1 as [len|].
  2: { injection E as <- <- <-. apply set_fail_resets. }
  destruct (ram_store m1 _ _) as [m2|] eqn:E2; [|done]. cbn [mbind option_bind] in E.
  destruct (ram_store m2 _ _) as [m3|] eqn:E3; [|done]. cbn [mbind option_bind] in E.
  specialize (IH _ _ _ _ (advance_lookup s s1 index q _ Hq Eq) E (u16_range _)).
  destruct r as [u|]; [|exact IH]. destruct IH as (q' & Hq' & Hl & Hs & Hu & Hst & Hm).
  exists q'. apply mem_write_read in E2 as (Z2 & _), E3 as (Z3 & _).
  split_and!; [done|done|exact Hs| |rewrite Hst; by apply Est|congruence].
  rewrite Hu. cbn [last_avail set_last_avail]. unfold u16. mlia.
Qed.

Lemma ram_store_idx m i w u m' :
  0 <= u < 0x10000 ->
  ram_store m i (Z.lor (Z.land w 0xffff) (u32 (Z.shiftl u 16))) = Some m' ->
  exists w', ram_load m' i = Some w' /\ Z.shiftr w' 16 = u.
Proof.
  intros Hu Es. destruct (mem_write_read _ _ _ _ _ Es) as (_ & Er & _).
  eexists. split; [exact Er|]. apply Z.bits_inj'. intros i' Hi. rewrite Z.shiftr_spec by done.
  change (256 ^ Z.of_nat 4) with (2 ^ 32).
  rewrite testbit_mod_pow2, Z.lor_spec, Z.land_spec, testbit_u32, Z.shiftl_spec by lia.
  change 0xffff with (Z.ones 16). rewrite Z.ones_spec_high, andb_false_r by lia. cbn [orb].
  replace (i' + 16 - 16) with i' by lia. destruct (Z.ltb_spec (i' + 16) 32); [done|].
  symmetry. by apply (testbit_above u 16); lia.
Qed.

Lemma bit_status s k : 0 <= k -> truth (Z.land (status s) (2 ^ k)) = Z.testbit (status s) k.
Proof. apply truth_land_pow2. Qed.

(** The state after the requests of [q] up to [new_avail] are consumed: the device's index has
    reached the driver's, and that of the used ring has advanced from [used] by their number,
    as 16-bit counters. *)
Definition requests_consumed (q : virtio_blk_queue_t) (index : nat) (new_avail used : Z)
    (s' : virtio_blk_state_t) (m' : memory_t) : Prop :=
  exists q' wu', queues s' !! index = Some q' /\ last_avail q' = new_avail /\
    ram_load m' (queue_used q) = Some wu' /\
    Z.shiftr wu' 16 = u16 (used + (new_avail - last_avail q)).

(** C29: a notification of a ready queue of a running device.  When the handler returns,
    either the device has failed and asks for a reset, or every request that was available
    is consumed: the device's index has reached the driver's, and the index of the used ring
    has advanced by the number of requests, as 16-bit counters. *)
Theorem vblk_notify_consumes s m index q wa wu s' m' :
  mem_bytes m -> mem_bytes (disk s) ->
  queues s !! index = Some q -> ready q = true -> 0 <= last_avail q < 0x10000 ->
  Z.testbit (status s) 6 = false -> Z.testbit (status s) 2 = true ->
  ram_load m (queue_avail q) = Some wa -> ram_load m (queue_used q) = Some wu ->
  virtio_queue_notify_handler s m index = Some (s', m') ->
  Z.testbit (status s') 6 = true \/
  requests_consumed q index (Z.shiftr wa 16) (Z.shiftr wu 16) s' m'.
Proof.
  intros Hm Hd Hq Hr Hl H6 H2 Ea Eu. unfold virtio_queue_notify_handler. rewrite Hq. cbn [mbind option_bind].
  change VIRTIO_STATUS_DEVICE_NEEDS_RESET with (2 ^ 6). change VIRTIO_STATUS_DRIVER_OK with (2 ^ 2).
  rewrite (bit_status s 6), (bit_status s 2), H6, H2, Hr by lia. cbn [andb negb]. rewrite Ea, Eu.
  cbn [mbind option_bind].
  assert (forall a w, ram_load m a = Some w -> 0 <= Z.shiftr w 16 < 0x10000) as Hw.
  { intros a w E. apply mem_read_word_range in E; [|done]. change (256 ^ Z.of_nat 4) with (2 ^ 32) in E.
    rewrite Z.shiftr_div_pow2 by lia. mlia. }
  pose proof (Hw _ _ Ea) as Hwa. pose proof (Hw _ _ Eu) as Hwu.
  assert (u16 (Z.shiftr wa 16) = Z.shiftr wa 16) as -> by by apply Z.mod_small.
  assert (u16 (Z.shiftr wu 16) = Z.shiftr wu 16) as -> by by apply Z.mod_small.
  case_match.
  { intros [= <- <-]. left. apply set_fail_resets. }
  destruct (Z.eqb_spec (last_avail q) (Z.shiftr wa 16)) as [El|Hne].
  { intros [= <- <-]. right. exists q, wu. split_and!; try done. rewrite El, Z.sub_diag, Z.add_0_r.
    symmetry. by apply Z.mod_small. }
  destruct (notify_loop _ _ _ _ _ _) as [[[s1 m1] r]|] eqn:E; [|done]. cbn [mbind option_bind].
  pose proof (notify_loop_spec _ _ _ _ _ _ _ _ _ _ Hq E Hwu) as Hsp.
  destruct r as [u|]; [|intros [= <- <-]; by left].
  destruct Hsp as (q' & Hq' & Hl' & _ & Hu & _).
  destruct (ram_load m1 (queue_used q)) as [w1|] eqn:E1; [|done]. cbn [mbind option_bind].
  destruct (ram_store m1 _ _) as [m2|] eqn:E2; [|done]. cbn [mbind option_bind].
  destruct (ram_load m2 (queue_avail q)) as [w2|]; [|done]. cbn [mbind option_bind]. intros [= <- <-]. right.
  destruct (ram_store_idx _ _ _ u _ ltac:(rewrite Hu; apply u16_range) E2) as (w' & Ew' & Hw').
  exists q', w'. split_and!; [by case_match|done|done|by rewrite Hw'].
Qed.

(** Both requests of the table are available in a queue with rings at 0x400 and 0x500. *)
Definition queued_mem : memory_t :=
  store_le (store_le request_mem 0x400 4 0x20000) 0x404 4 0x30000.
Definition ring_queue : virtio_blk_queue_t := mk_queue 8 0 0x100 0x140 0 true.
Definition running_disk : virtio_blk_state_t :=
  set_status 4 (set_queues [ring_queue; queue_zero] small_disk).

Lemma queued_mem_bytes : mem_bytes queued_mem.
Proof. repeat apply mem_bytes_store. apply mem_bytes_empty. Qed.
Lemma match_some {A B} (o : option (A * B)) (P : A -> Prop) :
  match o with Some (a, _) => P a | None => False end -> exists a b, o = Some (a, b) /\ P a.
Proof. destruct o as [[a b]|]; [|done]. intros H. by exists a, b. Qed.
Lemma queued_returns :
  exists s' m', virtio_queue_notify_handler running_disk queued_mem 0 = Some (s', m') /\
    Z.testbit (status s') 6 = false.
Proof. apply match_some. by vm_compute. Qed.

Lemma queued_avail : ram_load queued_mem (queue_avail ring_queue) = Some 0x20000.
Proof. by vm_compute. Qed.
Lemma queued_used : ram_load queued_mem (queue_used ring_queue) = Some 0.
Proof. by vm_compute. Qed.

Lemma vblk_notify_consumes_witness :
  exists s' m' q' wu', virtio_queue_notify_handler running_disk queued_mem 0 = Some (s', m') /\
    queues s' !! 0%nat = Some q' /\ last_avail q' = 2 /\
    ram_load m' 0x140 = Some wu' /\ Z.shiftr wu' 16 = 2.
Proof.
  destruct queued_returns as (s' & m' & E & Hr).
  destruct (vblk_notify_consumes running_disk queued_mem 0 ring_queue 0x20000 0 s' m' queued_mem_bytes
    (mem_bytes_empty 512) eq_refl eq_refl (conj (Z.le_refl 0) eq_refl) eq_refl eq_refl queued_avail queued_used E)
    as [H|(q' & wu' & H1 & H2 & H3 & H4)]; [congruence|].
  exact (ex_intro _ s' (ex_intro _ m' (ex_intro _ q' (ex_intro _ wu'
    (conj E (conj H1 (conj H2 (conj H3 H4)))))))).
Defined.

(** * What the device does not check *)

(** Without a disk the capacity is 0 and the check of the sector number passes for all. *)
Lemma vblk_no_disk_check s sector :
  capacity s = 0 -> 0 <= sector < 2 ^ 64 -> (u64 (capacity s - 1) <? sector) = false.
Proof. intros -> Hs. change (u64 (0 - 1)) with (2 ^ 64 - 1). apply Z.ltb_ge. lia. Qed.

(** The capacity is in the configuration space, which the guest can write. *)
Lemma vblk_guest_sets_capacity MEM_SIZE s m v s' m' :
  length (priv s) = CONFIG_WORDS -> priv s !! 1%nat = Some 0 ->
  virtio_blk_write MEM_SIZE s m 0x100 v = Some (s', m') -> capacity s' = v.
Proof.
  unfold CONFIG_WORDS. intros Hl H1. change (virtio_blk_write MEM_SIZE s m 0x100 v) with
    (if bool_decide (0 < length (priv s))%nat then Some (set_priv (<[0%nat := v]> (priv s)) s, m) else None).
  rewrite Hl, bool_decide_true by lia. intros [= <- <-]. unfold capacity. cbn [priv set_priv].
  rewrite list_lookup_insert_eq, list_lookup_insert_ne, H1 by lia. cbn. lia.
Qed.

(** The range of the block devices, [vblk_mmio_base_hi] to [vblk_mmio_max_hi], is one larger
    than their number: an access to the last slot is out of bounds. *)
Lemma vblk_range_off_by_one rv d addr :
  Z.shiftr addr 28 = 0xf -> vblk d <> [] -> 0 <= vblk_mmio_base_hi d ->
  vblk_mmio_max_hi d = vblk_mmio_base_hi d + Z.of_nat (length (vblk d)) ->
  Z.land (Z.shiftr addr 20) 0xff = vblk_mmio_max_hi d ->
  MMIO_READ rv d addr = None.
Proof.
  intros Ha Hv Hb Hm Hh. unfold MMIO_READ, mmio_select. rewrite Ha, Hh. cbn [Z.eqb Pos.eqb negb].
  rewrite bool_decide_false by done. rewrite Z.leb_refl.
  destruct (Z.leb_spec (vblk_mmio_base_hi d) (vblk_mmio_max_hi d)); [|lia].
  cbn [negb andb mbind option_bind vblk vblk_curr set_vblk_curr].
  rewrite lookup_ge_None_2 by lia. done.
Qed.
