(* ===== verification/Mmu.v ===== *)
(** System mode, src/src/system.c and system.h: Sv32 page-table walks, permission checks,
    the data and instruction TLBs, address translation and the memory callbacks built on
    it.

    The state is the emulator state of Machine.v together with what the SYSTEM build adds.
    A page fault calls back into the emulator, which runs the guest's handler; that call
    is the argument [on_trap].  Accesses outside of RAM go to the devices (Bus.v).
    [elf_loader] selects between the two SYSTEM configurations.  [None] is undefined
    behaviour, an access outside of RAM or [__UNREACHABLE], or the end of the process. *)

From S2P Require Import Prelude.
From S2P Require Import Opcode.
From S2P Require Import Decode.
From S2P Require Import Machine.
From S2P Require Import Interp.
From S2P Require Import Devices.
From S2P Require Import Bus.

(** * Constants *)

Definition RV_PG_SHIFT := 12.
Definition RV_PG_SIZE := 4096.
Definition PTE_V := 1.
Definition PTE_R := 2.
Definition PTE_W := 4.
Definition PTE_X := 8.
Definition PTE_U := 16.
Definition PTE_A := 64.
Definition PTE_D := 128.
Definition SSTATUS_SUM := 0x40000.
Definition SSTATUS_MXR := 0x80000.
Definition PAGEFAULT_INSN := 12.
Definition PAGEFAULT_LOAD := 13.
Definition PAGEFAULT_STORE := 15.
Definition TLB_SIZE : nat := 64.
Definition TLB_MASK := 63.
Definition TLB_PAGE_LEVEL_SUPER := 1.
Definition TLB_PAGE_LEVEL_4K := 2.

(** [MASK(n)] for [n < 64] *)
Definition MASK (n : Z) : Z := Z.ones n.

(** * State *)

Record tlb_entry_t := mk_tlb {
  vpn : Z; ppn : Z; pte_addr : Z; perm : Z; valid : bool; dirty : bool; level : Z }.

Definition tlb_zero : tlb_entry_t := mk_tlb 0 0 0 0 false false 0.

(** The emulator state of the SYSTEM build, with the global flags of emulate.c. *)
Record mmu := mk_mmu {
  core : riscv;
  dtlb : list tlb_entry_t;
  itlb : list tlb_entry_t;
  need_retranslate : bool;
  need_handle_signal : bool;
  is_trapped : bool;
  last_csr_sepc : Z;
  dev : devices;
  attr_timer : Z;                  (* attr->timer *)
  timer_offset : Z;
  peripheral_update_ctr : Z }.     (* file-scope variable of emulate.c *)

Definition set_core v s := mk_mmu v (dtlb s) (itlb s) (need_retranslate s)
  (need_handle_signal s) (is_trapped s) (last_csr_sepc s) (dev s) (attr_timer s)
  (timer_offset s) (peripheral_update_ctr s).
Definition set_dtlb v s := mk_mmu (core s) v (itlb s) (need_retranslate s)
  (need_handle_signal s) (is_trapped s) (last_csr_sepc s) (dev s) (attr_timer s)
  (timer_offset s) (peripheral_update_ctr s).
Definition set_itlb v s := mk_mmu (core s) (dtlb s) v (need_retranslate s)
  (need_handle_signal s) (is_trapped s) (last_csr_sepc s) (dev s) (attr_timer s)
  (timer_offset s) (peripheral_update_ctr s).
Definition set_need_retranslate v s := mk_mmu (core s) (dtlb s) (itlb s) v
  (need_handle_signal s) (is_trapped s) (last_csr_sepc s) (dev s) (attr_timer s)
  (timer_offset s) (peripheral_update_ctr s).
Definition set_need_handle_signal v s := mk_mmu (core s) (dtlb s) (itlb s) (need_retranslate s)
  v (is_trapped s) (last_csr_sepc s) (dev s) (attr_timer s)
  (timer_offset s) (peripheral_update_ctr s).
Definition set_is_trapped v s := mk_mmu (core s) (dtlb s) (itlb s) (need_retranslate s)
  (need_handle_signal s) v (last_csr_sepc s) (dev s) (attr_timer s)
  (timer_offset s) (peripheral_update_ctr s).

Definition set_dev v s := mk_mmu (core s) (dtlb s) (itlb s) (need_retranslate s)
  (need_handle_signal s) (is_trapped s) (last_csr_sepc s) v (attr_timer s)
  (timer_offset s) (peripheral_update_ctr s).
Definition set_peripheral_update_ctr v s := mk_mmu (core s) (dtlb s) (itlb s) (need_retranslate s)
  (need_handle_signal s) (is_trapped s) (last_csr_sepc s) (dev s) (attr_timer s)
  (timer_offset s) v.

(** [*pte] and [*pte = v] for a pointer into guest RAM. *)
Definition load_pte (s : mmu) (pte : Z) : option Z := mem_read 4 (mem (core s)) pte.
Definition store_pte (s : mmu) (pte v : Z) : option mmu :=
  m ← mem_write 4 (mem (core s)) pte v; Some (set_core (set_mem m (core s)) s).

(** * TLB maintenance *)

Definition mmu_tlb_flush_all (s : mmu) : mmu :=
  set_itlb (replicate TLB_SIZE tlb_zero) (set_dtlb (replicate TLB_SIZE tlb_zero) s).

Definition tlb_index (vaddr : Z) : nat := Z.to_nat (Z.land (Z.shiftr vaddr RV_PG_SHIFT) TLB_MASK).

Definition invalidate (e : tlb_entry_t) : tlb_entry_t :=
  mk_tlb (vpn e) (ppn e) (pte_addr e) (perm e) false (dirty e) (level e).

(** [if (tlb[idx].valid && tlb[idx].vpn == vpn) tlb[idx].valid = 0;] *)
Definition flush_entry (tlb : list tlb_entry_t) (vaddr : Z) : list tlb_entry_t :=
  alter (fun e => if valid e && (vpn e =? Z.shiftr vaddr RV_PG_SHIFT) then invalidate e else e)
    (tlb_index vaddr) tlb.
Definition mmu_tlb_flush (s : mmu) (vaddr : Z) : mmu :=
  let s := set_dtlb (flush_entry (dtlb s) vaddr) s in
  set_itlb (flush_entry (itlb s) vaddr) s.

(** * Page tables *)

Definition ppn_is_valid (s : mmu) (ppn : Z) : bool := ppn <? mem_size (mem (core s)) / RV_PG_SIZE.

(** [PAGE_TABLE(ppn)]: the offset of the table in RAM. *)
Definition PAGE_TABLE (s : mmu) (ppn : Z) : option Z :=
  if ppn_is_valid s ppn then Some (u32 (Z.shiftl ppn RV_PG_SHIFT)) else None.

(** The loop of [mmu_walk] at index [i] = 1 or 0; the level is [2 - i].  The inner option is
    the returned pointer, with the level. *)
Fixpoint walk_level (s : mmu) (vaddr : Z) (i : nat) (page_table : Z) : option (option (Z * Z)) :=
  let lvl := 2 - Z.of_nat i in
  let vpn := Z.land (Z.shiftr (Z.shiftr vaddr RV_PG_SHIFT) (Z.of_nat i * (RV_PG_SHIFT - 2))) (MASK 10) in
  let pte := page_table + 4 * vpn in
  v ← load_pte s pte;
  match Z.land v (MASK 4) with
  | 1 (* NEXT_PG_TBL *) =>
      match PAGE_TABLE s (Z.shiftr v (RV_PG_SHIFT - 2)) with
      | None => Some None
      | Some page_table =>
          match i with S i => walk_level s vaddr i page_table | O => Some None end
      end
  | 3 | 7 | 9 | 11 | 15 (* RO_PAGE, RW_PAGE, EO_PAGE, RX_PAGE, RWX_PAGE *) =>
      if (lvl =? 1) && truth (Z.land (Z.shiftr v (RV_PG_SHIFT - 2)) (MASK 10)) then Some None
      else Some (Some (pte, lvl))
  | _ => Some None
  end.

Definition mmu_walk (s : mmu) (vaddr : Z) : option (option (Z * Z)) :=
  match PAGE_TABLE s (Z.land (csr (core s) csr_satp) (MASK 22)) with
  | None => Some None
  | Some page_table => walk_level s vaddr 1 page_table
  end.

(** [get_ppn_and_offset()], then [ppn | offset] *)
Definition ppn_of (v : Z) : Z := u32 (Z.shiftl (Z.shiftr v (RV_PG_SHIFT - 2)) RV_PG_SHIFT).
Definition offset_of (vaddr lvl : Z) : Z :=
  if lvl =? TLB_PAGE_LEVEL_SUPER then Z.land vaddr (MASK (RV_PG_SHIFT + 10))
  else Z.land vaddr (MASK RV_PG_SHIFT).

(** * TLB lookups *)

(** The physical address on a hit. *)
Definition dtlb_lookup (s : mmu) (vaddr : Z) (write : bool) : option (option Z * mmu) :=
  entry ← dtlb s !! tlb_index vaddr;
  if valid entry && (vpn entry =? Z.shiftr vaddr RV_PG_SHIFT) then
    let needed := if write then PTE_W else PTE_R in
    if negb (truth (Z.land (perm entry) needed)) then Some (None, s)
    else
      s ← (if write && negb (dirty entry) then
             v ← load_pte s (pte_addr entry);
             s ← store_pte s (pte_addr entry) (Z.lor v PTE_D);
             Some (set_dtlb (<[tlb_index vaddr :=
               mk_tlb (vpn entry) (ppn entry) (pte_addr entry) (perm entry) (valid entry) true
                 (level entry)]> (dtlb s)) s)
           else Some s);
      Some (Some (Z.lor (ppn entry) (offset_of vaddr (level entry))), s)
  else Some (None, s).

Definition itlb_lookup (s : mmu) (vaddr : Z) : option (option Z) :=
  entry ← itlb s !! tlb_index vaddr;
  if valid entry && (vpn entry =? Z.shiftr vaddr RV_PG_SHIFT) then
    if negb (truth (Z.land (perm entry) PTE_X)) then Some None
    else Some (Some (Z.lor (ppn entry) (offset_of vaddr (level entry))))
  else Some None.

Definition new_entry (vaddr pte v lvl : Z) : tlb_entry_t :=
  mk_tlb (Z.shiftr vaddr RV_PG_SHIFT) (ppn_of v) pte
    (Z.land v (Z.lor (Z.lor (Z.lor PTE_R PTE_W) PTE_X) PTE_U)) true (truth (Z.land v PTE_D)) lvl.
Definition dtlb_populate (s : mmu) (vaddr pte lvl : Z) : option mmu :=
  v ← load_pte s pte;
  Some (set_dtlb (<[tlb_index vaddr := new_entry vaddr pte v lvl]> (dtlb s)) s).
Definition itlb_populate (s : mmu) (vaddr pte lvl : Z) : option mmu :=
  v ← load_pte s pte;
  Some (set_itlb (<[tlb_index vaddr := new_entry vaddr pte v lvl]> (itlb s)) s).

(** * Translation *)

Section Translate.
Context (elf_loader : bool) (on_trap : mmu -> option mmu).

(** [SET_CAUSE_AND_TVAL_THEN_TRAP] of the SYSTEM build. *)
Definition raise_trap (s : mmu) (cause tval : Z) : option mmu :=
  let s := set_is_trapped true s in
  on_trap (set_core (set_cause_and_tval cause tval (core s)) s).

(** The conditions under which [mmu_*_fault_check] raises a fault for a PTE value. *)
Definition pte_faults (s : riscv) (v access_bits : Z) : bool :=
  negb (truth (Z.land v PTE_V))
  || negb (truth (Z.land v access_bits))
  || (negb (truth (Z.land SSTATUS_MXR (csr s csr_sstatus))) && negb (truth (Z.land v PTE_R))
      && (access_bits =? PTE_R))
  || (truth (Z.land SSTATUS_MXR (csr s csr_sstatus))
      && negb (truth (Z.lor (Z.land v PTE_R) (Z.land v PTE_X))) && (access_bits =? PTE_R))
  || ((priv_mode s =? RV_PRIV_S_MODE) && negb (truth (Z.land SSTATUS_SUM (csr s csr_sstatus)))
      && truth (Z.land v PTE_U)).

Definition fault_cause (access_bits : Z) : option Z :=
  if access_bits =? PTE_R then Some PAGEFAULT_LOAD
  else if access_bits =? PTE_W then Some PAGEFAULT_STORE
  else if access_bits =? PTE_X then Some PAGEFAULT_INSN
  else None.

(** [mmu_ifetch_fault_check], [mmu_read_fault_check] and [mmu_write_fault_check], which the
    macro makes the same function. *)
Definition mmu_fault_check (s : mmu) (pte : option (Z * Z)) (vaddr access_bits : Z)
    : option (bool * mmu) :=
  scause ← fault_cause access_bits;
  match pte with
  | Some (p, _) =>
      v ← load_pte s p;
      if pte_faults (core s) v access_bits
      then s ← raise_trap s scause vaddr; Some (false, s)
      else Some (true, s)
  | None => s ← raise_trap s scause vaddr; Some (false, s)
  end.

(** [CHECK_PENDING_SIGNAL] *)
Definition check_pending_signal (s : mmu) : mmu :=
  set_need_handle_signal (negb (csr (core s) csr_sepc =? last_csr_sepc s)) s.

(** [if (!( *pte & bit)) *pte |= bit;] *)
Definition or_pte (s : mmu) (pte bit : Z) : option mmu :=
  v ← load_pte s pte;
  if truth (Z.land v bit) then Some s else store_pte s pte (Z.lor v bit).

(** [rw] is [R] = true for loads and [W] = false for stores. *)
Definition mmu_translate (s : mmu) (vaddr : Z) (rw : bool) : option (Z * mmu) :=
  if csr (core s) csr_satp =? 0 then Some (vaddr, s)
  else
    '(hit, s) ← dtlb_lookup s vaddr (negb rw);
    match hit with
    | Some paddr => Some (paddr, s)
    | None =>
        let bits := if rw then PTE_R else PTE_W in
        let finish s pte :=
          match pte with
          | None => None
          | Some (p, lvl) =>
              s ← or_pte s p PTE_A;
              s ← (if rw then Some s else or_pte s p PTE_D);
              s ← dtlb_populate s vaddr p lvl;
              v ← load_pte s p;
              Some (Z.lor (ppn_of v) (offset_of vaddr lvl), s)
          end in
        pte ← mmu_walk s vaddr;
        '(ok, s) ← mmu_fault_check s pte vaddr bits;
        if (ok : bool) then finish s pte
        else
          let s := if elf_loader then s else check_pending_signal s in
          if negb elf_loader && need_handle_signal s then Some (0, s)
          else
            pte ← mmu_walk s vaddr;
            '(ok, s) ← mmu_fault_check s pte vaddr bits;
            if (ok : bool) && negb (bool_decide (pte = None)) then finish s pte
            else
              let s := if elf_loader then set_need_retranslate true s else s in
              Some (0, set_need_handle_signal true s)
    end.

Definition mmu_ifetch (s : mmu) (vaddr : Z) : option (Z * mmu) :=
  let fetch s a := v ← mem_read 4 (mem (core s)) a; Some (v, s) in
  if csr (core s) csr_satp =? 0 then fetch s vaddr
  else if need_retranslate s then Some (0, s)
  else
    hit ← itlb_lookup s vaddr;
    match hit with
    | Some paddr => fetch s paddr
    | None =>
        let finish s pte :=
          match pte with
          | None => None
          | Some (p, lvl) =>
              s ← or_pte s p PTE_A;
              s ← itlb_populate s vaddr p lvl;
              v ← load_pte s p;
              fetch s (Z.lor (ppn_of v) (offset_of vaddr lvl))
          end in
        pte ← mmu_walk s vaddr;
        '(ok, s) ← mmu_fault_check s pte vaddr PTE_X;
        if (ok : bool) then finish s pte
        else
          let s := if elf_loader then s else check_pending_signal s in
          if negb elf_loader && need_handle_signal s then Some (0, s)
          else
            pte ← mmu_walk s vaddr;
            '(ok, s) ← (match pte with
                        | None => Some (false, s)
                        | Some _ => mmu_fault_check s pte vaddr PTE_X
                        end);
            if (ok : bool) then finish s pte
            else Some (0, set_need_handle_signal true (set_need_retranslate true s))
    end.

(** * Memory callbacks *)

Context (MEM_SIZE : Z).

(** The access is given up: the trap or signal is handled first. *)
Definition access_aborted (s : mmu) : bool :=
  if elf_loader then need_retranslate s else need_handle_signal s.

(** [mmu_read_w], [mmu_read_s] and [mmu_read_b] for [n] = 4, 2 and 1 bytes. *)
Definition mmu_read (n : nat) (s : mmu) (vaddr : Z) : option (Z * mmu) :=
  '(addr, s) ← mmu_translate s vaddr true;
  if access_aborted s then Some (0, s)
  else if GUEST_RAM_CONTAINS (mem (core s)) addr (Z.of_nat n)
  then v ← mem_read n (mem (core s)) addr; Some (v, s)
  else if elf_loader then None
  else
    '(v, rv, d) ← MMIO_READ (core s) (dev s) addr;
    Some (v mod 256 ^ Z.of_nat n, set_dev d (set_core rv s)).

(** [mmu_write_w], [mmu_write_s] and [mmu_write_b]. *)
Definition mmu_write (n : nat) (s : mmu) (vaddr val : Z) : option mmu :=
  let val := val mod 256 ^ Z.of_nat n in
  '(addr, s) ← mmu_translate s vaddr false;
  if access_aborted s then Some s
  else if GUEST_RAM_CONTAINS (mem (core s)) addr (Z.of_nat n)
  then m ← mem_write n (mem (core s)) addr val; Some (set_core (set_mem m (core s)) s)
  else if elf_loader then None
  else
    '(rv, d) ← MMIO_WRITE MEM_SIZE (core s) (dev s) addr val;
    Some (set_dev d (set_core rv s)).
End Translate.

(** * Interrupts *)

Definition RV_INT_STI := 0x20.
Definition SSTATUS_SIE := 2.
Definition SUPERVISOR_SW_INTR := 0x80000001.
Definition SUPERVISOR_TIMER_INTR := 0x80000005.
Definition SUPERVISOR_EXTERNAL_INTR := 0x80000009.

Definition rv_has_plic_trap (s : riscv) : bool :=
  (truth (Z.land (csr s csr_sstatus) SSTATUS_SIE) || negb (truth (priv_mode s)))
  && truth (Z.land (csr s csr_sip) (csr s csr_sie)).

(** The peripherals' part of [rv_check_interrupt], every 65th call. *)
Definition poll_peripherals (s : mmu) : mmu :=
  let d := dev s in
  let '(u, h) := u8250_check_ready (uart d) (host d) in
  let d := set_host h (set_uart u d) in
  let '(rv, d) := if in_ready (uart d) then emu_update_uart_interrupts (core s) d else (core s, d) in
  let '(rv, d) :=
    if truth (irq_enabled (rtc d)) then
      let '(now, h) := rtc_get_now_nsec (rtc d) (host d) in
      let d := set_host h d in
      if rtc_alarm_fire (rtc d) now then
        let r := rtc d in
        emu_update_rtc_interrupts rv (set_rtc (mk_rtc (time_low r) (time_high r) (alarm_low r)
          (alarm_high r) (irq_enabled r) 1 1 (clock_offset r) (now_nsec r)) d)
      else (rv, d)
    else (rv, d) in
  set_dev d (set_core rv s).

(** [rv_check_interrupt] without [__EMSCRIPTEN__]. *)
Definition rv_check_interrupt (on_trap : mmu -> option mmu) (s : mmu) : option mmu :=
  let c := peripheral_update_ctr s in
  let s := set_peripheral_update_ctr (u32 (c - 1)) s in
  let s := if c =? 0 then poll_peripherals (set_peripheral_update_ctr 64 s) else s in
  let rv := core s in
  let current_timer := u64 (csr_cycle rv + timer_offset s) in
  let sip := if attr_timer s <? current_timer then Z.lor (csr rv csr_sip) RV_INT_STI
             else Z.land (csr rv csr_sip) (~u RV_INT_STI) in
  let s := set_core (set_csr csr_sip sip rv) s in
  if rv_has_plic_trap (core s) then
    let intr_applicable := Z.land (csr (core s) csr_sip) (csr (core s) csr_sie) in
    match ilog2 intr_applicable with
    | 1 => raise_trap on_trap s SUPERVISOR_SW_INTR 0
    | 5 => raise_trap on_trap s SUPERVISOR_TIMER_INTR 0
    | 9 => raise_trap on_trap s SUPERVISOR_EXTERNAL_INTR 0
    | _ => Some s
    end
  else Some s.
