(* ===== verification/MmuProofs.v ===== *)
(** The page-table walk implements Sv32, and the TLBs are transparent: with entries that agree
    with the page tables, a translation gives what a walk of the tables gives, and leaves
    the entries in agreement. *)

From S2P Require Import Prelude.
From S2P Require Import Opcode.
From S2P Require Import Decode.
From S2P Require Import Machine.
From S2P Require Import Interp.
From S2P Require Import MachineFacts.
From S2P Require Import Invariant.
From S2P Require Import Devices.
From S2P Require Import Bus.
From S2P Require Import Mmu.
From S2P Require Import DeviceProofs.

(** * The Sv32 walk of the privileged architecture *)

(** Step 2 and the following of the translation process: at level [i] (1 or 0) with the
    table at [a].  The result is the address of the leaf entry and the size of its page. *)
Fixpoint sv32_walk (s : mmu) (va : Z) (i : nat) (a : Z) : option (Z * Z) :=
  let pte := a + 4 * (va / 2 ^ (12 + 10 * Z.of_nat i) mod 1024) in
  match load_pte s pte with
  | None => None
  | Some v =>
      let V := Z.testbit v 0 in
      let R := Z.testbit v 1 in
      let W := Z.testbit v 2 in
      let X := Z.testbit v 3 in
      if negb V || (negb R && W) then None
      else if R || X then
        if (i =? 1)%nat && negb (v / 2 ^ 10 mod 1024 =? 0) then None
        else Some (pte, if (i =? 1)%nat then TLB_PAGE_LEVEL_SUPER else TLB_PAGE_LEVEL_4K)
      else
        let a := v / 2 ^ 10 * RV_PG_SIZE in
        match i with
        | S i => if a + RV_PG_SIZE <=? mem_size (mem (core s)) then sv32_walk s va i a else None
        | O => None
        end
  end.

Definition sv32 (s : mmu) (va : Z) : option (Z * Z) :=
  let a := csr (core s) csr_satp mod 2 ^ 22 * RV_PG_SIZE in
  if a + RV_PG_SIZE <=? mem_size (mem (core s)) then sv32_walk s va 1 a else None.

(** * Bytes and words *)

Lemma load_pte_range s p v : mem_bytes (mem (core s)) -> load_pte s p = Some v -> is_u32 v.
Proof. intros Hm E. exact (mem_read_word_range 4 _ _ _ Hm E). Qed.

(** * The walk *)

Definition mem_fits (s : mmu) : Prop := 0 <= mem_size (mem (core s)) <= 2 ^ 32.

Lemma PAGE_TABLE_spec s n :
  mem_fits s -> 0 <= n ->
  PAGE_TABLE s n = if n * RV_PG_SIZE + RV_PG_SIZE <=? mem_size (mem (core s))
                   then Some (n * RV_PG_SIZE) else None.
Proof.
  intros Hm Hn. unfold PAGE_TABLE, ppn_is_valid, RV_PG_SIZE, RV_PG_SHIFT, mem_fits in *.
  destruct (Z.ltb_spec n (mem_size (mem (core s)) / 4096)),
    (Z.leb_spec (n * 4096 + 4096) (mem_size (mem (core s)))); [|mlia|mlia|done].
  f_equal. rewrite Z.shiftl_mul_pow2 by lia. unfold u32. rewrite Z.mod_small; lia.
Qed.

Lemma load_pte_in s a i :
  a + RV_PG_SIZE <= mem_size (mem (core s)) -> 0 <= i < 1024 ->
  exists v, load_pte s (a + 4 * i) = Some v.
Proof.
  intros Ha Hi. unfold load_pte, mem_read, GUEST_RAM_CONTAINS, RV_PG_SIZE in *.
  destruct (Z.ltb_spec (a + 4 * i) (mem_size (mem (core s)))); [|lia].
  destruct (Z.leb_spec (Z.of_nat 4) (mem_size (mem (core s)) - (a + 4 * i))); [|lia].
  cbn [andb]. eauto.
Qed.

Lemma land_MASK v n : 0 <= n -> Z.land v (MASK n) = v mod 2 ^ n.
Proof. intros. by apply Z.land_ones. Qed.

(** The permission switch of [mmu_walk] by the bits of the entry. *)
Lemma xwrv_cases {A} v (next leaf bad : A) :
  match Z.land v (MASK 4) with
  | 1 => next
  | 3 | 7 | 9 | 11 | 15 => leaf
  | _ => bad
  end
  = if negb (Z.testbit v 0) || (negb (Z.testbit v 1) && Z.testbit v 2) then bad
    else if Z.testbit v 1 || Z.testbit v 3 then leaf else next.
Proof.
  rewrite land_MASK by lia. assert (forall i, 0 <= i < 4 -> Z.testbit v i = Z.testbit (v mod 2 ^ 4) i) as Hb.
  { intros i Hi. rewrite testbit_mod_pow2 by lia. by destruct (Z.ltb_spec i 4); [|lia]. }
  rewrite !Hb by lia. pose proof (Z.mod_pos_bound v (2 ^ 4) ltac:(lia)) as Hr.
  generalize dependent (v mod 2 ^ 4). intros x _ Hx.
  assert (x = 0 \/ x = 1 \/ x = 2 \/ x = 3 \/ x = 4 \/ x = 5 \/ x = 6 \/ x = 7 \/ x = 8 \/ x = 9 \/
    x = 10 \/ x = 11 \/ x = 12 \/ x = 13 \/ x = 14 \/ x = 15) as H by lia.
  repeat destruct H as [->|H]; try reflexivity. by subst.
Qed.

Lemma walk_level_sv32 s va i a :
  mem_fits s -> mem_bytes (mem (core s)) -> (i <= 1)%nat ->
  a + RV_PG_SIZE <= mem_size (mem (core s)) ->
  walk_level s va i a = Some (sv32_walk s va i a).
Proof.
  intros Hm Hb. revert a. induction i as [|i IH]; intros a Hi Ha; cbn [walk_level sv32_walk];
    rewrite land_MASK, !Z.shiftr_div_pow2, Z.div_div by (unfold RV_PG_SHIFT; lia);
    rewrite <- Z.pow_add_r by (unfold RV_PG_SHIFT; lia).
  - replace (RV_PG_SHIFT + Z.of_nat 0 * (RV_PG_SHIFT - 2)) with (12 + 10 * Z.of_nat 0)
      by (unfold RV_PG_SHIFT; lia). change (2 ^ 10) with 1024.
    set (idx := va / 2 ^ (12 + 10 * Z.of_nat 0) mod 1024).
    destruct (load_pte_in s a idx Ha) as [v ->]; [subst idx; mlia|]. cbn [mbind option_bind].
    rewrite (xwrv_cases v). cbn [Nat.eqb andb]. repeat case_match; done.
  - assert (i = O) as -> by lia.
    replace (RV_PG_SHIFT + Z.of_nat 1 * (RV_PG_SHIFT - 2)) with (12 + 10 * Z.of_nat 1)
      by (unfold RV_PG_SHIFT; lia). change (2 ^ 10) with 1024.
    set (idx := va / 2 ^ (12 + 10 * Z.of_nat 1) mod 1024).
    destruct (load_pte_in s a idx Ha) as [v Ev]; [subst idx; mlia|]. rewrite Ev.
    pose proof (load_pte_range _ _ _ Hb Ev) as Hv. cbn [mbind option_bind].
    rewrite (xwrv_cases v). rewrite land_MASK by lia. change (2 ^ 10) with 1024.
    replace (v >>u (RV_PG_SHIFT - 2)) with (v / 1024)
      by (symmetry; apply Z.shiftr_div_pow2; unfold RV_PG_SHIFT; lia).
    rewrite PAGE_TABLE_spec by (done || (unfold is_u32 in Hv; mlia)).
    case_match; [done|]. case_match; [cbn; unfold truth; by destruct (_ =? 0)|].
    destruct (Z.leb_spec (v / 1024 * RV_PG_SIZE + RV_PG_SIZE) (mem_size (mem (core s)))); [|done].
    apply IH; [lia|done].
Qed.

(** C19: the page-table walk.  For any page tables in RAM [mmu_walk] is defined (it never
    reads outside of RAM) and finds the leaf entry and page size that the Sv32 translation
    process prescribes, or none. *)
Theorem mmu_walk_sv32 s va :
  mem_fits s -> mem_bytes (mem (core s)) -> mmu_walk s va = Some (sv32 s va).
Proof.
  intros Hm Hb. unfold mmu_walk, sv32. rewrite land_MASK, PAGE_TABLE_spec by (done || mlia).
  destruct (Z.leb_spec (csr (core s) csr_satp mod 2 ^ 22 * RV_PG_SIZE + RV_PG_SIZE)
    (mem_size (mem (core s)))); [|done]. by apply walk_level_sv32.
Qed.

(** * TLB coherence *)

(** A relation between page tables that keeps walks and TLB entries as they are: the bits
    other than accessed and dirty are the same, and those two are only ever set.  A
    translation does much less, see [touched] and [translation_done] below. *)
Definition ad_grow (v v' : Z) : Prop :=
  forall i, 0 <= i -> (i <> 6 -> i <> 7 -> Z.testbit v' i = Z.testbit v i) /\
    (Z.testbit v i = true -> Z.testbit v' i = true).

Definition mem_grow (m m' : memory_t) : Prop :=
  mem_size m' = mem_size m /\
  forall a, a mod 4 = 0 -> option_Forall2 ad_grow (mem_read 4 m a) (mem_read 4 m' a).

#[export] Instance ad_grow_preorder : PreOrder ad_grow.
Proof.
  split; [by intros v i Hi|]. intros u v w H1 H2 i Hi.
  destruct (H1 i Hi) as [E1 G1], (H2 i Hi) as [E2 G2]. split; [|auto].
  intros N6 N7. by rewrite E2, E1.
Qed.
#[export] Instance mem_grow_preorder : PreOrder mem_grow.
Proof.
  split; [by intros m|]. intros m1 m2 m3 [S1 H1] [S2 H2]. split; [congruence|].
  intros a Ha. by etrans; [apply H1|apply H2].
Qed.

Lemma ad_grow_lor v b : b = PTE_A \/ b = PTE_D -> ad_grow v (Z.lor v b).
Proof.
  intros Hb i Hi. rewrite Z.lor_spec. split; [|by intros ->].
  intros N6 N7. replace (Z.testbit b i) with false; [apply orb_false_r|]. symmetry.
  destruct Hb as [->| ->]; [change PTE_A with (2 ^ 6)|change PTE_D with (2 ^ 7)];
    rewrite Z.pow2_bits_eqb by lia; by apply Z.eqb_neq.
Qed.

(** What the MMU reads of an entry besides those two bits. *)
Lemma ad_grow_land v v' c :
  0 <= c -> ad_grow v v' -> Z.testbit c 6 = false -> Z.testbit c 7 = false ->
  Z.land v' c = Z.land v c.
Proof.
  intros Hc H C6 C7. apply Z.bits_inj'. intros i Hi. rewrite !Z.land_spec.
  destruct (decide (i = 6)) as [->|]; [by rewrite C6, !andb_false_r|].
  destruct (decide (i = 7)) as [->|]; [by rewrite C7, !andb_false_r|].
  destruct (H i Hi) as [-> _]; done.
Qed.
Lemma ad_grow_shiftr v v' : ad_grow v v' -> Z.shiftr v' 10 = Z.shiftr v 10.
Proof.
  intros H. apply Z.bits_inj'. intros i Hi. rewrite !Z.shiftr_spec by done.
  destruct (H (i + 10) ltac:(lia)) as [-> _]; [done|lia..].
Qed.

Lemma aligned_add a x : a mod 4 = 0 -> (a + 4 * x) mod 4 = 0.
Proof. mlia. Qed.
Lemma aligned_page x : u32 (Z.shiftl x RV_PG_SHIFT) mod 4 = 0.
Proof. unfold u32. rewrite Z.shiftl_mul_pow2 by done. unfold RV_PG_SHIFT. mlia. Qed.

Lemma walk_level_grow s s' va i a :
  mem_grow (mem (core s)) (mem (core s')) -> a mod 4 = 0 ->
  walk_level s' va i a = walk_level s va i a.
Proof.
  intros [Hs Hg]. revert a. induction i as [|i IH]; intros a Ha; cbn [walk_level].
  all: match goal with |- (load_pte _ ?p ≫= _) = _ =>
    unfold load_pte; pose proof (Hg p (aligned_add _ _ Ha)) as Hp end.
  all: destruct Hp as [v v' Hv|]; [|done]; cbn [mbind option_bind].
  all: rewrite (ad_grow_land v v' (MASK 4)) by done.
  all: change (RV_PG_SHIFT - 2) with 10; rewrite (ad_grow_shiftr v v') by done.
  all: unfold PAGE_TABLE, ppn_is_valid; rewrite Hs.
  all: repeat (case_match; try done).
  all: simplify_eq; apply IH, aligned_page.
Qed.
Lemma mmu_walk_grow s s' va :
  mem_grow (mem (core s)) (mem (core s')) -> csr (core s') csr_satp = csr (core s) csr_satp ->
  mmu_walk s' va = mmu_walk s va.
Proof.
  intros Hg Hc. unfold mmu_walk, PAGE_TABLE, ppn_is_valid. rewrite Hc, (proj1 Hg).
  case_match; [|done]. case_match; [|done]. simplify_eq. apply walk_level_grow; [done|apply aligned_page].
Qed.

(** A walk depends on the page of its address only. *)
Lemma walk_level_page s va va' i a :
  Z.shiftr va' RV_PG_SHIFT = Z.shiftr va RV_PG_SHIFT -> walk_level s va' i a = walk_level s va i a.
Proof.
  intros E. revert a. induction i as [|i IH]; intros a; cbn [walk_level]; rewrite E; [done|].
  destruct (load_pte _ _); [|done]. cbn [mbind option_bind]. repeat (case_match; try done).
Qed.
Lemma mmu_walk_page s va va' :
  Z.shiftr va' RV_PG_SHIFT = Z.shiftr va RV_PG_SHIFT -> mmu_walk s va' = mmu_walk s va.
Proof. intros E. unfold mmu_walk. case_match; [|done]. by apply walk_level_page. Qed.

(** A valid entry says what the page tables say. *)
Definition entry_ok (s : mmu) (e : tlb_entry_t) : Prop :=
  valid e = true ->
  exists va v, Z.shiftr va RV_PG_SHIFT = vpn e /\ mmu_walk s va = Some (Some (pte_addr e, level e)) /\
    load_pte s (pte_addr e) = Some v /\ ppn e = ppn_of v /\ perm e = Z.land v 30 /\
    Z.testbit v 6 = true /\ (dirty e = true -> Z.testbit v 7 = true).

Record coherent (s : mmu) : Prop := {
  co_bytes : mem_bytes (mem (core s));
  co_dtlb : length (dtlb s) = TLB_SIZE /\ Forall (entry_ok s) (dtlb s);
  co_itlb : length (itlb s) = TLB_SIZE /\ Forall (entry_ok s) (itlb s) }.

(** The states that differ from [s] in the accessed and dirty bits of page tables only. *)
Definition grown (s s' : mmu) : Prop :=
  mem_grow (mem (core s)) (mem (core s')) /\ mem_bytes (mem (core s')) /\
  core s' = set_mem (mem (core s')) (core s).

Lemma grown_refl s : mem_bytes (mem (core s)) -> grown s s.
Proof. intros Hb. split_and!; [done|done|]. by destruct s as [[]]. Qed.
Lemma grown_trans s1 s2 s3 : grown s1 s2 -> grown s2 s3 -> grown s1 s3.
Proof.
  intros (G1 & _ & E1) (G2 & B2 & E2). split_and!; [by etrans|done|].
  rewrite E2, E1. by destruct s1 as [[]].
Qed.
Lemma grown_csr s s' f : grown s s' -> csr (core s') f = csr (core s) f.
Proof. intros (_ & _ & ->). done. Qed.
Lemma grown_priv s s' : grown s s' -> priv_mode (core s') = priv_mode (core s).
Proof. intros (_ & _ & ->). done. Qed.

Lemma walk_level_pte s va i a p lvl :
  walk_level s va i a = Some (Some (p, lvl)) -> a mod 4 = 0 ->
  p mod 4 = 0 /\ exists v, load_pte s p = Some v.
Proof.
  revert a. induction i as [|i IH]; intros a E Ha; cbn [walk_level] in E.
  all: match type of E with (?l ≫= _) = _ => destruct l as [v|] eqn:Ev; [|done] end.
  all: cbn [mbind option_bind] in E.
  all: repeat (case_match; try done); simplify_eq; try (split; [by apply aligned_add|by eauto]).
  all: eapply IH; [done|]; unfold PAGE_TABLE in *; repeat (case_match; try done); simplify_eq; apply aligned_page.
Qed.
Lemma mmu_walk_pte s va p lvl :
  mmu_walk s va = Some (Some (p, lvl)) -> p mod 4 = 0 /\ exists v, load_pte s p = Some v.
Proof.
  unfold mmu_walk, PAGE_TABLE. case_match; [|done]. case_match; [|done]. simplify_eq.
  intros E. eapply walk_level_pte; [done|apply aligned_page].
Qed.

Lemma load_pte_grown s s' p v :
  grown s s' -> p mod 4 = 0 -> load_pte s p = Some v ->
  exists v', load_pte s' p = Some v' /\ ad_grow v v'.
Proof.
  intros ([_ G] & _) Hp E. unfold load_pte in *. specialize (G p Hp). rewrite E in G.
  inversion G; subst. eauto.
Qed.

Lemma ppn_of_grow v v' : ad_grow v v' -> ppn_of v' = ppn_of v.
Proof. intros H. unfold ppn_of. change (RV_PG_SHIFT - 2) with 10. by rewrite (ad_grow_shiftr v v'). Qed.

Lemma entry_ok_grown s s' e : grown s s' -> entry_ok s e -> entry_ok s' e.
Proof.
  intros G He Hv. destruct (He Hv) as (va & v & Eva & Ew & Ev & Ep & Er & Ea & Ed).
  destruct (mmu_walk_pte _ _ _ _ Ew) as [Hal _].
  destruct (load_pte_grown _ _ _ _ G Hal Ev) as (v' & Ev' & Hg).
  exists va, v'. rewrite (mmu_walk_grow s s') by (apply G || by apply grown_csr).
  rewrite (ppn_of_grow v v' Hg), (ad_grow_land v v' 30) by done.
  split_and!; try done.
  - by apply (Hg 6 ltac:(lia)).
  - intros Hd. apply (Hg 7 ltac:(lia)). auto.
Qed.

(** [s'] is [s] but for the word at [p] of RAM and the contents of the TLBs. *)
Definition touched (p : Z) (s s' : mmu) : Prop :=
  s' = set_dtlb (dtlb s') (set_itlb (itlb s') (set_core (set_mem (mem (core s')) (core s)) s)) /\
  mem_size (mem (core s')) = mem_size (mem (core s)) /\
  forall n a, a + Z.of_nat n <= p \/ p + 4 <= a ->
    mem_read n (mem (core s')) a = mem_read n (mem (core s)) a.
Lemma touched_refl p s : touched p s s.
Proof. split_and!; try done. by destruct s as [[]]. Qed.
Lemma touched_trans p s1 s2 s3 : touched p s1 s2 -> touched p s2 s3 -> touched p s1 s3.
Proof.
  intros (E1 & S1 & F1) (E2 & S2 & F2). split_and!; [|congruence|].
  - rewrite E2 at 1. rewrite E1. by destruct s1 as [[]].
  - intros n a Ha. by rewrite F2, F1.
Qed.

Lemma touched_set_dtlb p t s s' : touched p s s' -> touched p s (set_dtlb t s').
Proof. intros (E & S & F). split_and!; [|done..]. by rewrite E. Qed.
Lemma touched_set_itlb p t s s' : touched p s s' -> touched p s (set_itlb t s').
Proof. intros (E & S & F). split_and!; [|done..]. by rewrite E. Qed.

Lemma store_pte_grown s p v w :
  mem_bytes (mem (core s)) -> p mod 4 = 0 -> load_pte s p = Some v -> is_u32 w -> ad_grow v w ->
  exists s', store_pte s p w = Some s' /\ grown s s' /\ load_pte s' p = Some w /\
    touched p s s' /\ dtlb s' = dtlb s /\ itlb s' = itlb s.
Proof.
  intros Hb Hp Ev Hw Hg. unfold store_pte.
  destruct (mem_write 4 (mem (core s)) p w) as [m'|] eqn:Em.
  2: { unfold load_pte, mem_read in Ev. unfold mem_write in Em. by case_match. }
  cbn [mbind option_bind]. eexists. split; [done|].
  destruct (mem_write_read _ _ _ _ _ Em) as (Es & Er & Ed).
  rewrite Z.mod_small in Er by (unfold is_u32 in Hw; change (256 ^ Z.of_nat 4) with 0x100000000; lia).
  split_and!; try done. split_and!; [|by eapply mem_write_bytes|done].
  split; [done|]. intros a Ha. cbn. destruct (decide (a = p)) as [->|Hne].
  - rewrite Er. unfold load_pte in Ev. rewrite Ev. by constructor.
  - rewrite Ed by (mlia). reflexivity.
Qed.

Lemma lor_pte_range v b : is_u32 v -> b = PTE_A \/ b = PTE_D -> is_u32 (Z.lor v b).
Proof. intros Hv Hb. apply lor_u32; [done|]. unfold is_u32. destruct Hb as [->| ->]; done. Qed.

Lemma truth_bit v k : 0 <= k -> truth (Z.land v (2 ^ k)) = Z.testbit v k.
Proof. apply truth_land_pow2. Qed.

Lemma lor_bit_set v k : 0 <= k -> Z.testbit v k = true -> Z.lor v (2 ^ k) = v.
Proof.
  intros Hk T. apply Z.bits_inj'. intros i Hi. rewrite Z.lor_spec, Z.pow2_bits_eqb by done.
  destruct (Z.eqb_spec k i) as [->|]; [by rewrite T|apply orb_false_r].
Qed.

Lemma or_pte_spec s p b k v :
  (b = PTE_A /\ k = 6) \/ (b = PTE_D /\ k = 7) ->
  mem_bytes (mem (core s)) -> p mod 4 = 0 -> load_pte s p = Some v ->
  exists s', or_pte s p b = Some s' /\ grown s s' /\ load_pte s' p = Some (Z.lor v b) /\
    touched p s s' /\ dtlb s' = dtlb s /\ itlb s' = itlb s.
Proof.
  intros Hb Hm Hp Ev. assert (b = 2 ^ k /\ 0 <= k) as [Ebk Hk] by (destruct Hb as [[-> ->]|[-> ->]]; done).
  assert (b = PTE_A \/ b = PTE_D) as Hb' by tauto.
  unfold or_pte. rewrite Ev. cbn [mbind option_bind]. rewrite Ebk, truth_bit by done.
  destruct (Z.testbit v k) eqn:T.
  - exists s. rewrite lor_bit_set by done.
    split_and!; try done; [by apply grown_refl|apply touched_refl].
  - rewrite <- Ebk. pose proof (load_pte_range _ _ _ Hm Ev) as Hv.
    destruct (store_pte_grown s p v (Z.lor v b)) as (s' & E & H);
      [done..|by apply lor_pte_range|by apply ad_grow_lor|by exists s'].
Qed.

(** ** The operations on the TLBs keep coherence *)

Lemma Forall_grown s s' l : grown s s' -> Forall (entry_ok s) l -> Forall (entry_ok s') l.
Proof. intros G F. eapply Forall_impl; [exact F|]. intros e. by apply entry_ok_grown. Qed.

Lemma coherent_grown s s' :
  coherent s -> grown s s' -> dtlb s' = dtlb s -> itlb s' = itlb s -> coherent s'.
Proof.
  intros [_ [Ld Fd] [Li Fi]] G Ed Ei. split; [apply G| |]; rewrite ?Ed, ?Ei;
    (split; [done|by eapply Forall_grown]).
Qed.
Lemma coherent_set_dtlb s i e :
  coherent s -> entry_ok s e -> coherent (set_dtlb (<[i := e]> (dtlb s)) s).
Proof.
  intros [Hb [Ld Fd] Hi] He. split; [done| |exact Hi]. split; [by rewrite <- Ld, <- (length_insert (dtlb s) i e)|].
  by apply (Forall_insert (entry_ok s)).
Qed.
Lemma coherent_set_itlb s i e :
  coherent s -> entry_ok s e -> coherent (set_itlb (<[i := e]> (itlb s)) s).
Proof.
  intros [Hb Hd [Li Fi]] He. split; [done|exact Hd|]. split; [by rewrite <- Li, <- (length_insert (itlb s) i e)|].
  by apply (Forall_insert (entry_ok s)).
Qed.

Lemma tlb_index_lt vaddr : (tlb_index vaddr < TLB_SIZE)%nat.
Proof.
  unfold tlb_index, TLB_SIZE, TLB_MASK. change 63 with (Z.ones 6). rewrite Z.land_ones by done.
  change (2 ^ 6) with 64. mlia.
Qed.
Lemma coherent_dtlb_lookup s vaddr :
  coherent s -> exists e, dtlb s !! tlb_index vaddr = Some e /\ entry_ok s e.
Proof.
  intros [_ [L F] _]. destruct (lookup_lt_is_Some_2 (dtlb s) (tlb_index vaddr)) as [e E].
  { rewrite L. apply tlb_index_lt. }
  exists e. split; [done|]. by eapply Forall_lookup_1.
Qed.
Lemma coherent_itlb_lookup s vaddr :
  coherent s -> exists e, itlb s !! tlb_index vaddr = Some e /\ entry_ok s e.
Proof.
  intros [_ _ [L F]]. destruct (lookup_lt_is_Some_2 (itlb s) (tlb_index vaddr)) as [e E].
  { rewrite L. apply tlb_index_lt. }
  exists e. split; [done|]. by eapply Forall_lookup_1.
Qed.

Lemma mmu_tlb_flush_all_coherent s : mem_bytes (mem (core s)) -> coherent (mmu_tlb_flush_all s).
Proof.
  intros Hb. assert (forall s', Forall (entry_ok s') (replicate TLB_SIZE tlb_zero)) as F.
  { intros s'. by apply Forall_replicate. }
  by split; [|split; [|apply F]..].
Qed.

Lemma new_entry_ok s vaddr p v lvl :
  mmu_walk s vaddr = Some (Some (p, lvl)) -> load_pte s p = Some v -> Z.testbit v 6 = true ->
  entry_ok s (new_entry vaddr p v lvl).
Proof.
  intros Ew Ev Ha _. exists vaddr, v. split_and!; try done. cbn.
  change PTE_D with (2 ^ 7). by rewrite truth_bit by lia.
Qed.

(** ** Translation *)

Lemma load_pte_set_dtlb s t p : load_pte (set_dtlb t s) p = load_pte s p.
Proof. done. Qed.
Lemma load_pte_set_itlb s t p : load_pte (set_itlb t s) p = load_pte s p.
Proof. done. Qed.

Section Translation.
Context (elf_loader : bool) (on_trap : mmu -> option mmu).
Context (s : mmu) (vaddr p lvl v : Z).
Hypothesis Hco : coherent s.
Hypothesis Hwalk : mmu_walk s vaddr = Some (Some (p, lvl)).
Hypothesis Hpte : load_pte s p = Some v.

(** The walked entry after an access: accessed, and after a store also dirty. *)
Definition marked (store : bool) (v : Z) : Z :=
  Z.lor v (if store then Z.lor PTE_A PTE_D else PTE_A).

(** What a translation that succeeds leaves: coherent TLBs, the walked entry marked, and
    nothing else changed, neither in RAM nor in the rest of the state. *)
Definition translation_done (store : bool) (s' : mmu) : Prop :=
  coherent s' /\ touched p s s' /\ load_pte s' p = Some (marked store v).

Lemma marked_load : Z.testbit v 6 = true -> marked false v = v.
Proof. intros T. by apply (lor_bit_set v 6). Qed.
Lemma marked_accessed store : Z.testbit (marked store v) 6 = true.
Proof. unfold marked. rewrite Z.lor_spec. by destruct store; rewrite orb_true_r. Qed.
Lemma ad_grow_marked store : ad_grow v (marked store v).
Proof.
  unfold marked. destruct store; [rewrite Z.lor_assoc; etrans|]; apply ad_grow_lor; auto.
Qed.
Lemma marked_store : Z.testbit v 6 = true -> marked true v = Z.lor v PTE_D.
Proof. intros T. unfold marked. rewrite Z.lor_assoc. f_equal. by apply (lor_bit_set v 6). Qed.

Lemma entry_hit e :
  entry_ok s e -> valid e = true -> vpn e = Z.shiftr vaddr RV_PG_SHIFT ->
  pte_addr e = p /\ level e = lvl /\ ppn e = ppn_of v /\ perm e = Z.land v 30 /\
  Z.testbit v 6 = true /\ (dirty e = true -> Z.testbit v 7 = true).
Proof.
  intros He Hv Hn. destruct (He Hv) as (va & v' & Eva & Ew & Ev & Ep & Er & Ea & Ed).
  rewrite (mmu_walk_page s vaddr va) in Ew by congruence. simplify_eq. done.
Qed.

(** The dirty bit that a store sets on a hit. *)
Lemma hit_dirty e :
  entry_ok s e -> valid e = true -> pte_addr e = p -> Z.testbit v 6 = true ->
  exists s', store_pte s p (Z.lor v PTE_D) = Some s' /\
    translation_done true (set_dtlb (<[tlb_index vaddr :=
      mk_tlb (vpn e) (ppn e) (pte_addr e) (perm e) (valid e) true (level e)]> (dtlb s')) s').
Proof.
  intros He Hv Hp Ha. pose proof (co_bytes s Hco) as Hb.
  destruct (mmu_walk_pte _ _ _ _ Hwalk) as [Hal _].
  assert (ad_grow v (Z.lor v PTE_D)) as Hg by (apply ad_grow_lor; auto).
  destruct (store_pte_grown s p v (Z.lor v PTE_D)) as (s' & -> & G & Ev' & T & Ed & Ei);
    try done; [apply lor_pte_range; [by eapply load_pte_range|auto]|].
  eexists. split; [done|].
  assert (Z.testbit (Z.lor v PTE_D) 7 = true) as H7 by (rewrite Z.lor_spec; apply orb_true_r).
  assert (Z.testbit (Z.lor v PTE_D) 6 = true) as H6 by (rewrite Z.lor_spec, Ha; done).
  split_and!; [|by apply touched_set_dtlb|by rewrite marked_store].
  apply coherent_set_dtlb; [by eapply coherent_grown|].
  destruct (entry_ok_grown s s' e G He Hv) as (va & w & Eva & Ew & Ev & Ep & Er & Ea & _).
  intros _. rewrite Hp in *. rewrite Ev in Ev'. injection Ev' as ->. by exists va, (Z.lor v PTE_D).
Qed.

Lemma dtlb_lookup_coherent store :
  dtlb_lookup s vaddr store = Some (None, s) \/
  exists s', dtlb_lookup s vaddr store = Some (Some (Z.lor (ppn_of v) (offset_of vaddr lvl)), s') /\
    translation_done store s'.
Proof.
  unfold dtlb_lookup. destruct (coherent_dtlb_lookup s vaddr Hco) as (e & -> & He).
  cbn [mbind option_bind]. destruct (valid e) eqn:Hv; cbn [andb]; [|by left].
  destruct (Z.eqb_spec (vpn e) (Z.shiftr vaddr RV_PG_SHIFT)) as [Hn|]; [|by left].
  destruct (entry_hit e He Hv Hn) as (Ep & El & En & _ & Ha & Hd).
  destruct (negb _); [by left|]. right. pose proof (co_bytes s Hco) as Hb.
  rewrite <- En, <- El, Ep, Hpte.
  destruct store, (dirty e) eqn:Hdirty; cbn [andb negb mbind option_bind].
  2: { destruct (hit_dirty e He Hv Ep Ha) as (s' & -> & T). rewrite Ep, Hv in T. eexists.
    split; [done|exact T]. }
  all: exists s; split; [done|]; split_and!; [done|by apply touched_refl|].
  1: rewrite marked_store by done.
  1: change PTE_D with (2 ^ 7); by rewrite lor_bit_set by (done || auto).
  all: by rewrite marked_load.
Qed.

Lemma itlb_lookup_coherent :
  itlb_lookup s vaddr = Some None \/
  (itlb_lookup s vaddr = Some (Some (Z.lor (ppn_of v) (offset_of vaddr lvl))) /\ translation_done false s).
Proof.
  unfold itlb_lookup. destruct (coherent_itlb_lookup s vaddr Hco) as (e & -> & He).
  cbn [mbind option_bind]. destruct (valid e) eqn:Hv; cbn [andb]; [|by left].
  destruct (Z.eqb_spec (vpn e) (Z.shiftr vaddr RV_PG_SHIFT)) as [Hn|]; [|by left].
  destruct (entry_hit e He Hv Hn) as (Ep & El & En & _ & Ha & _).
  destruct (negb _); [by left|]. right. rewrite <- En, <- El. split; [done|].
  split_and!; [done|apply touched_refl|by rewrite marked_load].
Qed.

(** The end of a translation that had to walk. *)
Lemma populate_coherent (store : bool) :
  exists s' v',
    or_pte s p PTE_A ≫= (fun s1 => if store then or_pte s1 p PTE_D else Some s1) = Some s' /\
    load_pte s' p = Some v' /\ ppn_of v' = ppn_of v /\
    translation_done store (set_dtlb (<[tlb_index vaddr := new_entry vaddr p v' lvl]> (dtlb s')) s') /\
    translation_done store (set_itlb (<[tlb_index vaddr := new_entry vaddr p v' lvl]> (itlb s')) s').
Proof.
  pose proof (co_bytes s Hco) as Hb. destruct (mmu_walk_pte _ _ _ _ Hwalk) as [Hal _].
  destruct (or_pte_spec s p PTE_A 6 v) as (s1 & -> & G1 & Ev1 & T1 & Ed1 & Ei1); auto.
  cbn [mbind option_bind].
  assert (exists s2, (if store then or_pte s1 p PTE_D else Some s1) = Some s2 /\ grown s1 s2 /\
    load_pte s2 p = Some (marked store v) /\ touched p s1 s2 /\
    dtlb s2 = dtlb s1 /\ itlb s2 = itlb s1) as (s2 & -> & G2 & Ev2 & T2 & Ed2 & Ei2).
  { unfold marked. destruct store; [|exists s1; split_and!; try done; [apply grown_refl, G1|apply touched_refl]].
    rewrite Z.lor_assoc. apply (or_pte_spec s1 p PTE_D 7); auto. apply G1. }
  cbn [mbind option_bind]. assert (grown s s2) as G by by eapply grown_trans.
  assert (touched p s s2) as T by by eapply touched_trans.
  assert (ad_grow v (marked store v)) as Hg by apply ad_grow_marked.
  assert (coherent s2) as C2 by (eapply coherent_grown; [done|done|congruence..]).
  assert (entry_ok s2 (new_entry vaddr p (marked store v) lvl)) as En.
  { apply new_entry_ok; try done; [|by apply marked_accessed].
    by rewrite (mmu_walk_grow s s2) by (apply G || by apply grown_csr). }
  exists s2, (marked store v). split_and!; try done; [by apply ppn_of_grow| |].
  - split_and!; [by apply coherent_set_dtlb|by apply touched_set_dtlb|done].
  - split_and!; [by apply coherent_set_itlb|by apply touched_set_itlb|done].
Qed.
End Translation.

(** C18: the TLBs are transparent.  When the TLB entries agree with the page tables, paging is
    on, the walk finds the entry [v] and [v] permits the access, [mmu_translate] returns the
    physical address that [v] gives, whether the TLB hits or not and without calling the
    trap handler.  It leaves the TLB entries in agreement, sets the accessed bit of the
    walked entry and, on a store only, its dirty bit, and changes nothing else of RAM nor,
    but for the TLBs, of the machine. *)
Theorem tlb_transparent elf_loader on_trap s vaddr (rw : bool) p lvl v :
  coherent s -> csr (core s) csr_satp <> 0 ->
  mmu_walk s vaddr = Some (Some (p, lvl)) -> load_pte s p = Some v ->
  pte_faults (core s) v (if rw then PTE_R else PTE_W) = false ->
  exists s', mmu_translate elf_loader on_trap s vaddr rw
      = Some (Z.lor (ppn_of v) (offset_of vaddr lvl), s') /\
    translation_done s p v (negb rw) s'.
Proof.
  intros Hco Hsatp Hw Hv Hf. unfold mmu_translate. apply Z.eqb_neq in Hsatp. rewrite Hsatp.
  destruct (dtlb_lookup_coherent s vaddr p lvl v Hco Hw Hv (negb rw)) as [->|(s' & -> & T)];
    cbn [mbind option_bind]; [|by exists s'].
  rewrite Hw. cbn [mbind option_bind]. unfold mmu_fault_check.
  assert (exists c, fault_cause (if rw then PTE_R else PTE_W) = Some c) as [c ->] by (destruct rw; by eexists).
  cbn [mbind option_bind]. rewrite Hv. cbn [mbind option_bind]. rewrite Hf. cbn [mbind option_bind].
  destruct (populate_coherent s vaddr p lvl v Hco Hw Hv (negb rw)) as (s2 & v2 & E & Ev2 & Ep & T & _).
  destruct (or_pte s p PTE_A) as [s1|]; [|done]. cbn [mbind option_bind] in *.
  destruct rw; cbn [negb] in E; [injection E as ->|rewrite E];
    unfold dtlb_populate; cbn [mbind option_bind]; rewrite Ev2; cbn [mbind option_bind];
    rewrite load_pte_set_dtlb, Ev2; cbn [mbind option_bind]; rewrite Ep; by eexists.
Qed.

(** The same for instruction fetches and the instruction TLB: the word at the physical
    address of the page. *)
Theorem ifetch_transparent elf_loader on_trap s vaddr p lvl v :
  coherent s -> csr (core s) csr_satp <> 0 -> need_retranslate s = false ->
  mmu_walk s vaddr = Some (Some (p, lvl)) -> load_pte s p = Some v ->
  pte_faults (core s) v PTE_X = false ->
  exists s', translation_done s p v false s' /\
    mmu_ifetch elf_loader on_trap s vaddr
    = (w ← mem_read 4 (mem (core s')) (Z.lor (ppn_of v) (offset_of vaddr lvl)); Some (w, s')).
Proof.
  intros Hco Hsatp Hr Hw Hv Hf. unfold mmu_ifetch. apply Z.eqb_neq in Hsatp. rewrite Hsatp, Hr.
  destruct (itlb_lookup_coherent s vaddr p lvl v Hco Hw Hv) as [->|(-> & T)];
    cbn [mbind option_bind]; [|by exists s].
  rewrite Hw. cbn [mbind option_bind]. unfold mmu_fault_check.
  change (fault_cause PTE_X) with (Some PAGEFAULT_INSN).
  cbn [mbind option_bind]. rewrite Hv. cbn [mbind option_bind]. rewrite Hf. cbn [mbind option_bind].
  destruct (populate_coherent s vaddr p lvl v Hco Hw Hv false) as (s2 & v2 & E & Ev2 & Ep & _ & T).
  destruct (or_pte s p PTE_A) as [s1|]; [|done]. cbn [mbind option_bind] in *. injection E as ->.
  unfold itlb_populate. rewrite Ev2. cbn [mbind option_bind].
  rewrite load_pte_set_itlb, Ev2. cbn [mbind option_bind]. rewrite Ep. by eexists.
Qed.

(** * A page table *)

(** Four pages of RAM: the root table in page 1, a second table in page 2, and the virtual
    page 0 mapped to page 3 (readable, writable and executable). *)
Definition paged_mem : memory_t :=
  store_le (store_le (mk_memory ∅ 0x4000) 0x1000 4 0x801) 0x2000 4 0xc0f.
Definition paged_state : mmu :=
  mmu_tlb_flush_all
    (mk_mmu (set_csr csr_satp 0x80000001 (set_mem paged_mem (reset_state ∅ 0x4000)))
      [] [] false false false 0 idle_devices 0 0 64).

Lemma paged_mem_bytes : mem_bytes paged_mem.
Proof. repeat apply mem_bytes_store. apply mem_bytes_empty. Qed.
Lemma paged_coherent : coherent paged_state.
Proof. apply mmu_tlb_flush_all_coherent, paged_mem_bytes. Qed.

Lemma mmu_walk_sv32_witness : mmu_walk paged_state 0x123 = Some (Some (0x2000, TLB_PAGE_LEVEL_4K)).
Proof.
  rewrite (mmu_walk_sv32 paged_state 0x123); [reflexivity|by split|exact paged_mem_bytes].
Defined.

Lemma tlb_transparent_witness :
  exists s', mmu_translate true Some paged_state 0x123 false = Some (0x3123, s') /\
    translation_done paged_state 0x2000 0xc0f true s'.
Proof.
  exact (tlb_transparent true Some paged_state 0x123 false 0x2000 TLB_PAGE_LEVEL_4K 0xc0f
    paged_coherent ltac:(done) eq_refl eq_refl eq_refl).
Defined.

Lemma ifetch_transparent_witness :
  exists s', translation_done paged_state 0x2000 0xc0f false s' /\
    mmu_ifetch true Some paged_state 0x123
    = (w ← mem_read 4 (mem (core s')) 0x3123; Some (w, s')).
Proof.
  exact (ifetch_transparent true Some paged_state 0x123 0x2000 TLB_PAGE_LEVEL_4K 0xc0f
    paged_coherent ltac:(done) eq_refl eq_refl eq_refl eq_refl).
Defined.

(** * Where the permission checks differ from the privileged architecture *)

(** With MXR set loads from executable pages are permitted, but the check that precedes the
    one of MXR refuses every page that is not readable. *)
Lemma mxr_has_no_effect s v :
  Z.testbit v 1 = false -> pte_faults s v PTE_R = true.
Proof.
  intros H. unfold pte_faults. change PTE_R with (2 ^ 1). rewrite truth_bit, H by lia.
  cbn [negb]. by rewrite orb_true_r.
Qed.

(** Nothing refuses user-mode accesses to pages without the U bit. *)
Lemma user_reads_supervisor_page s v :
  priv_mode s = 0 -> Z.testbit v 0 = true -> Z.testbit v 1 = true ->
  pte_faults s v PTE_R = false.
Proof.
  intros Hp Hv Hr. unfold pte_faults. change PTE_R with (2 ^ 1). change PTE_V with (2 ^ 0).
  rewrite !truth_bit, Hv, Hr by lia. rewrite Hp. cbn [negb andb orb Z.eqb].
  rewrite !andb_false_r. cbn [orb andb].
  replace (truth (Z.lor (Z.land v (2 ^ 1)) (Z.land v PTE_X))) with true; [by rewrite !andb_false_r|].
  symmetry. unfold truth. apply negb_true_iff, Z.eqb_neq. intros E%Z.lor_eq_0_iff.
  destruct E as [E _]. pose proof (truth_bit v 1 ltac:(lia)) as T. rewrite Hr in T. by rewrite E in T.
Qed.
