(* ===== verification/JitCache.v ===== *)
(** The block cache of the JIT build, src/src/cache.c and cache.h: a hash table of live
    entries and of a history of evicted ones (ghosts), the list of live entries in order of
    insertion, and the index by page that SFENCE.VMA uses to invalidate blocks.

    The build with JIT, SYSTEM, BLOCK_CHAINING and T2C.  Entries live in a store by address;
    the intrusive lists ([list], [ghost_list] and the hash chains) are lists of addresses,
    head first, and a page bucket is the list of the blocks of its entries.  [None] is
    undefined behaviour or a failed assertion. *)

From S2P Require Import Prelude.
From S2P Require Import Utils.

Definition THRESHOLD : Z := 4096.
Definition PAGE_INDEX_BITS : Z := 10.
Definition PAGE_INDEX_SIZE : Z := 1024.
Definition PAGE_SHIFT : Z := 12.

Record cache_entry_t := mk_entry { value : Z; alive : bool; key : Z; freq : Z }.

(** The fields of [block_t] that the cache reads and writes. *)
Record jit_block := mk_jit_block {
  pc_start : Z; pc_end : Z; satp : Z; invalidated : bool; hot2 : bool }.

(** [cache_t], with the two file-scope variables of the hash function. *)
Record cache := mk_cache {
  entries : gmap Z cache_entry_t;
  lru : list Z;                     (* list *)
  ghosts : list Z;                  (* ghost_list *)
  ht_list_head : list (list Z);
  size : Z;
  ghost_list_size : Z;
  capacity : Z;
  cache_size_bits : Z;
  page_index : list (list Z);
  page_index_incomplete : bool }.

Definition cache_hash (c : cache) (k : Z) : option nat :=
  h ← hash64 (cache_size_bits c) (capacity c) k; Some (Z.to_nat h).

(** * Lists *)

Definition list_del (a : Z) (l : list Z) : list Z := filter (fun x => x <> a) l.

Definition hlist_add_head (a : Z) (i : nat) (ht : list (list Z)) : list (list Z) :=
  alter (cons a) i ht.
Definition hlist_del (a : Z) (i : nat) (ht : list (list Z)) : list (list Z) :=
  alter (list_del a) i ht.

(** * Creation *)

Definition cache_create (malloc_ok : bool) (size_bits : Z) : option cache :=
  if 32 <=? size_bits then None
  else if negb malloc_ok then None
  else
    let n := Z.shiftl 1 size_bits in
    Some (mk_cache ∅ [] [] (replicate (Z.to_nat n) []) 0 0 n size_bits
      (replicate (Z.to_nat PAGE_INDEX_SIZE) []) false).

(** * Lookup *)

(** The first entry of a chain with the key. *)
Fixpoint find_entry (es : gmap Z cache_entry_t) (l : list Z) (k : Z)
    : option (option (Z * cache_entry_t)) :=
  match l with
  | [] => Some None
  | a :: l => e ← es !! a; if key e =? k then Some (Some (a, e)) else find_entry es l k
  end.

Definition set_entry (a : Z) (e : cache_entry_t) (c : cache) : cache :=
  mk_cache (<[a := e]> (entries c)) (lru c) (ghosts c) (ht_list_head c) (size c)
    (ghost_list_size c) (capacity c) (cache_size_bits c) (page_index c) (page_index_incomplete c).

(** The returned pointer is [None] for NULL. *)
Definition cache_get (c : cache) (k : Z) (update : bool) : option (option Z * cache) :=
  if capacity c =? 0 then Some (None, c)
  else
    i ← cache_hash c k;
    chain ← ht_list_head c !! i;
    r ← find_entry (entries c) chain k;
    match r with
    | Some (a, e) =>
        if alive e then
          Some (Some (value e),
            if update then set_entry a (mk_entry (value e) (alive e) (key e) (u32 (freq e + 1))) c else c)
        else Some (None, c)
    | None => Some (None, c)
    end.

(** The loops of [cache_freq] and [cache_hot]: the first live entry with the key that satisfies
    a test. *)
Fixpoint find_live (test : cache_entry_t -> bool) (es : gmap Z cache_entry_t) (l : list Z) (k : Z)
    : option (option cache_entry_t) :=
  match l with
  | [] => Some None
  | a :: l =>
      e ← es !! a;
      if (key e =? k) && alive e && test e then Some (Some e) else find_live test es l k
  end.
Definition cache_freq (c : cache) (k : Z) : option Z :=
  if capacity c =? 0 then Some 0
  else
    i ← cache_hash c k;
    chain ← ht_list_head c !! i;
    r ← find_live (fun _ => true) (entries c) chain k;
    Some (match r with Some e => freq e | None => 0 end).
Definition cache_hot (c : cache) (k : Z) : option bool :=
  if capacity c =? 0 then Some false
  else
    i ← cache_hash c k;
    chain ← ht_list_head c !! i;
    r ← find_live (fun e => THRESHOLD <=? freq e) (entries c) chain k;
    Some (match r with Some _ => true | None => false end).

(** * The page index *)

Definition page_of (a : Z) : Z := Z.land a 0xfffff000.
Definition page_index_hash (page : Z) : option nat :=
  h ← hash64 PAGE_INDEX_BITS PAGE_INDEX_SIZE (Z.shiftr page PAGE_SHIFT); Some (Z.to_nat h).

Definition set_page_index (pi : list (list Z)) (incomplete : bool) (c : cache) : cache :=
  mk_cache (entries c) (lru c) (ghosts c) (ht_list_head c) (size c) (ghost_list_size c)
    (capacity c) (cache_size_bits c) pi incomplete.

Definition page_index_insert (malloc_ok : bool) (blocks : gmap Z jit_block) (c : cache) (b : Z)
    : option cache :=
  blk ← blocks !! b;
  bucket ← page_index_hash (page_of (pc_start blk));
  Some (if malloc_ok then set_page_index (alter (cons b) bucket (page_index c)) (page_index_incomplete c) c
        else set_page_index (page_index c) true c).

Fixpoint remove_first (b : Z) (l : list Z) : list Z :=
  match l with
  | [] => []
  | x :: l => if x =? b then l else x :: remove_first b l
  end.
Definition page_index_remove (blocks : gmap Z jit_block) (c : cache) (b : Z) : option cache :=
  blk ← blocks !! b;
  bucket ← page_index_hash (page_of (pc_start blk));
  Some (set_page_index (alter (remove_first b) bucket (page_index c)) (page_index_incomplete c) c).

(** * Insertion *)

(** Frees the oldest ghost when there are more than the capacity. *)
Definition cache_ghost_list_update (c : cache) : option cache :=
  if ghost_list_size c <=? capacity c then Some c
  else
    a ← last (ghosts c);
    e ← entries c !! a;
    if alive e then None
    else
      i ← cache_hash c (key e);
      Some (mk_cache (delete a (entries c)) (lru c) (list_del a (ghosts c))
        (hlist_del a i (ht_list_head c)) (size c) (u32 (ghost_list_size c - 1)) (capacity c)
        (cache_size_bits c) (page_index c) (page_index_incomplete c)).

(** The eviction of a live entry to the ghost list, and its way back. *)
Definition evict (a : Z) (e : cache_entry_t) (c : cache) : cache :=
  mk_cache (<[a := mk_entry (value e) false (key e) (freq e)]> (entries c)) (list_del a (lru c))
    (a :: ghosts c) (ht_list_head c) (u32 (size c - 1)) (u32 (ghost_list_size c + 1)) (capacity c)
    (cache_size_bits c) (page_index c) (page_index_incomplete c).
Definition unevict (a : Z) (e : cache_entry_t) (c : cache) : cache :=
  mk_cache (<[a := mk_entry (value e) true (key e) (freq e)]> (entries c)) (a :: lru c)
    (list_del a (ghosts c)) (ht_list_head c) (u32 (size c + 1)) (u32 (ghost_list_size c - 1))
    (capacity c) (cache_size_bits c) (page_index c) (page_index_incomplete c).

(** Takes the frequency of a ghost and frees it. *)
Definition revive (a : Z) (e : cache_entry_t) (c : cache) : option cache :=
  i ← cache_hash c (key e);
  Some (mk_cache (delete a (entries c)) (lru c) (list_del a (ghosts c)) (hlist_del a i (ht_list_head c))
    (size c) (u32 (ghost_list_size c - 1)) (capacity c) (cache_size_bits c) (page_index c)
    (page_index_incomplete c)).

Definition add_entry (a : Z) (e : cache_entry_t) (c : cache) : option cache :=
  i ← cache_hash c (key e);
  Some (mk_cache (<[a := e]> (entries c)) (a :: lru c) (ghosts c) (hlist_add_head a i (ht_list_head c))
    (u32 (size c + 1)) (ghost_list_size c) (capacity c) (cache_size_bits c) (page_index c)
    (page_index_incomplete c)).

(** What the search of the chain decides: the entry to replace and the ghost to revive. *)
Definition put_search (c : cache) (k v : Z)
    : option (option (Z * cache_entry_t) * option (Z * cache_entry_t)) :=
  i ← cache_hash c k;
  chain ← ht_list_head c !! i;
  r ← find_entry (entries c) chain k;
  match r with
  | None => Some (None, None)
  | Some (a, e) =>
      if negb (alive e) then Some (None, Some (a, e))
      else if negb (value e =? v) then Some (Some (a, e), None)
      else None
  end.

(** The entry to evict: the one the search found, or the oldest when the cache is full. *)
Definition put_victim (c : cache) (replaced : option (Z * cache_entry_t))
    : option (option (Z * cache_entry_t)) :=
  match replaced with
  | Some r => Some (Some r)
  | None =>
      if size c =? capacity c then a ← last (lru c); e ← entries c !! a; Some (Some (a, e))
      else Some None
  end.
Definition put_evict (blocks : gmap Z jit_block) (c : cache) (replaced : option (Z * cache_entry_t))
    : option cache :=
  match replaced with
  | Some (a, e) =>
      if negb (alive e) then None
      else
        c ← (if truth (value e) then page_index_remove blocks c (value e) else Some c);
        Some (evict a e c)
  | None => Some c
  end.

(** From the new entry on. *)
Definition put_new (n : Z) (index_ok : bool) (blocks : gmap Z jit_block)
    (revived : option (Z * cache_entry_t)) (c : cache) (k v : Z) : option cache :=
  '(f, c) ← (match revived with
             | None => Some (1, c)
             | Some (a, e) => c ← revive a e c; Some (u32 (freq e + 1), c)
             end);
  c ← add_entry n (mk_entry v true k f) c;
  c ← page_index_insert index_ok blocks c v;
  c ← cache_ghost_list_update c;
  if negb (size c <=? capacity c) || negb (ghost_list_size c <=? capacity c) then None else Some c.

(** [new] is the address [calloc] returns, [index_ok] whether the allocation of a page-index
    entry succeeds. *)
Definition cache_put (new : option Z) (index_ok : bool) (blocks : gmap Z jit_block)
    (c : cache) (k v : Z) : option (option Z * cache) :=
  if negb (size c <=? capacity c) then None
  else
    '(replaced, revived) ← put_search c k v;
    replaced ← put_victim c replaced;
    c ← put_evict blocks c replaced;
    match new with
    | None =>
        Some (None, match replaced with Some (a, e) => unevict a e c | None => c end)
    | Some n =>
        c ← put_new n index_ok blocks revived c k v;
        Some (match replaced with Some (_, e) => Some (value e) | None => None end, c)
    end.

(** * Invalidation *)

(** [block->invalidated = true; hot2 = false; count++] where a test holds. *)
Definition invalidate_block (test : jit_block -> bool) (satp' b : Z) (s : Z * gmap Z jit_block)
    : option (Z * gmap Z jit_block) :=
  if b =? 0 then Some s
  else
    blk ← s.2 !! b;
    if (satp blk =? satp') && negb (invalidated blk) && test blk
    then Some (u32 (s.1 + 1),
      <[b := mk_jit_block (pc_start blk) (pc_end blk) (satp blk) true false]> s.2)
    else Some s.

Fixpoint invalidate_all (test : jit_block -> bool) (satp' : Z) (bs : list Z)
    (s : Z * gmap Z jit_block) : option (Z * gmap Z jit_block) :=
  match bs with
  | [] => Some s
  | b :: bs => s ← invalidate_block test satp' b s; invalidate_all test satp' bs s
  end.

(** The values of the live entries, in the order of [list_for_each_entry]. *)
Fixpoint live_values (es : gmap Z cache_entry_t) (l : list Z) : option (list Z) :=
  match l with
  | [] => Some []
  | a :: l => e ← es !! a; vs ← live_values es l; Some (value e :: vs)
  end.

Definition cache_invalidate_satp (c : cache) (blocks : gmap Z jit_block) (satp : Z)
    : option (Z * gmap Z jit_block) :=
  if capacity c =? 0 then Some (0, blocks)
  else vs ← live_values (entries c) (lru c); invalidate_all (fun _ => true) satp vs (0, blocks).

(** The two tests of [cache_invalidate_va]: by the page of the first byte, and by the pages
    from the first to the last byte. *)
Definition in_page (va : Z) (blk : jit_block) : bool := page_of (pc_start blk) =? page_of va.
Definition last_byte (blk : jit_block) : Z :=
  if pc_start blk <? pc_end blk then pc_end blk -u 1 else pc_start blk.
Definition overlaps_page (va : Z) (blk : jit_block) : bool :=
  (page_of (pc_start blk) <=? page_of va) && (page_of va <=? page_of (last_byte blk)).

Definition invalidate_va_scan (c : cache) (blocks : gmap Z jit_block) (va satp : Z)
    : option (Z * gmap Z jit_block) :=
  vs ← live_values (entries c) (lru c); invalidate_all (overlaps_page va) satp vs (0, blocks).
Definition invalidate_va_indexed (c : cache) (blocks : gmap Z jit_block) (va satp : Z)
    : option (Z * gmap Z jit_block) :=
  i ← page_index_hash (page_of va);
  bs ← page_index c !! i;
  invalidate_all (in_page va) satp bs (0, blocks).

Definition cache_invalidate_va (c : cache) (blocks : gmap Z jit_block) (va satp : Z)
    : option (Z * gmap Z jit_block) :=
  if capacity c =? 0 then Some (0, blocks)
  else if negb (page_index_incomplete c) then invalidate_va_indexed c blocks va satp
  else invalidate_va_scan c blocks va satp.
