(* ===== verification/JitCacheProofs.v ===== *)
(** The block cache of the JIT build is a bounded first-in first-out map, and its page index
    invalidates the blocks that a scan of the whole cache would. *)

From S2P Require Import Prelude.
From S2P Require Import Utils.
From S2P Require Import JitCache.

(** * Chains *)

(** [a] is the first entry of the chain with the key [k]. *)
Definition first_in (es : gmap Z cache_entry_t) (chain : list Z) (a k : Z) : Prop :=
  exists l1 l2, chain = l1 ++ a :: l2 /\
    forall x e, x ∈ l1 -> es !! x = Some e -> key e <> k.

Lemma find_entry_none es chain k :
  (forall x, x ∈ chain -> exists e, es !! x = Some e /\ key e <> k) -> find_entry es chain k = Some None.
Proof.
  induction chain as [|x chain IH]; intros H; cbn [find_entry]; [done|].
  destruct (H x) as (e & -> & Hk); [by left|]. cbn [mbind option_bind].
  apply Z.eqb_neq in Hk. rewrite Hk. apply IH. intros y Hy. apply H. by right.
Qed.
Lemma find_entry_total es chain k :
  (forall x, x ∈ chain -> is_Some (es !! x)) ->
  (exists a e, find_entry es chain k = Some (Some (a, e)) /\ a ∈ chain /\ es !! a = Some e /\ key e = k) \/
  (find_entry es chain k = Some None /\ forall x e, x ∈ chain -> es !! x = Some e -> key e <> k).
Proof.
  induction chain as [|x chain IH]; intros H; cbn [find_entry].
  - right. split; [done|]. intros x e Hx. by apply not_elem_of_nil in Hx.
  - destruct (H x) as [e E]; [by left|]. rewrite E. cbn [mbind option_bind].
    destruct (Z.eqb_spec (key e) k) as [Hk|Hk].
    + left. exists x, e. split_and!; try done. by left.
    + destruct IH as [(a & e' & ? & ? & ?)|[Hf Hn]]; [intros y Hy; apply H; by right| |].
      * left. exists a, e'. split_and!; try tauto. by right.
      * right. split; [done|]. intros y e' [->|Hy]%elem_of_cons E'; [congruence|by eapply Hn].
Qed.
Lemma find_entry_first es chain a e :
  (forall x, x ∈ chain -> is_Some (es !! x)) -> es !! a = Some e -> first_in es chain a (key e) ->
  find_entry es chain (key e) = Some (Some (a, e)).
Proof.
  intros Hs E (l1 & l2 & -> & Hn). induction l1 as [|x l1 IH]; cbn [app find_entry].
  - rewrite E. cbn [mbind option_bind]. by rewrite Z.eqb_refl.
  - destruct (Hs x) as [e' E']; [by left|]. rewrite E'. cbn [mbind option_bind].
    assert (key e' <> key e) as Hk%Z.eqb_neq by (eapply Hn; [by left|done]). rewrite Hk.
    apply IH; [intros y Hy; apply Hs; by right|]. intros y e'' Hy. apply Hn. by right.
Qed.

Lemma elem_of_list_del a x l : x ∈ list_del a l <-> x ∈ l /\ x <> a.
Proof. unfold list_del. rewrite list_elem_of_filter. tauto. Qed.
Lemma list_del_notin a l : a ∉ l -> list_del a l = l.
Proof.
  unfold list_del. induction l as [|x l IH]; intros H; [done|]. apply not_elem_of_cons in H as [Hx H].
  rewrite filter_cons_True by done. by rewrite IH.
Qed.
Lemma list_del_split a l1 l2 : NoDup (l1 ++ a :: l2) -> list_del a (l1 ++ a :: l2) = l1 ++ l2.
Proof.
  intros (H1 & H2 & H3)%NoDup_app. apply NoDup_cons in H3 as [H3 H4].
  unfold list_del. rewrite filter_app, filter_cons_False by tauto.
  fold (list_del a l1) (list_del a l2). rewrite !list_del_notin; [done..|]. intros Ha.
  apply (H2 a Ha). by left.
Qed.
Lemma length_list_del a l : NoDup l -> a ∈ l -> S (length (list_del a l)) = length l.
Proof.
  intros Hn (l1 & l2 & ->)%list_elem_of_split. rewrite list_del_split by done.
  rewrite !length_app. cbn. lia.
Qed.
Lemma NoDup_list_del a l : NoDup l -> NoDup (list_del a l).
Proof. apply NoDup_filter. Qed.

(** The first entry stays first when entries of the chain go. *)
Lemma first_in_del es es' chain a b k :
  first_in es chain a k -> a <> b ->
  (forall x e, x <> b -> es' !! x = Some e -> exists e0, es !! x = Some e0 /\ key e0 = key e) ->
  first_in es' (list_del b chain) a k.
Proof.
  intros (l1 & l2 & -> & Hn) Hab He. exists (list_del b l1), (list_del b l2). split.
  - unfold list_del. by rewrite filter_app, filter_cons_True.
  - intros x e [Hx Hxb]%elem_of_list_del E. destruct (He x e Hxb E) as (e0 & E0 & <-). by eapply Hn.
Qed.
Lemma first_in_keys es es' chain a k :
  first_in es chain a k ->
  (forall x e, es' !! x = Some e -> exists e0, es !! x = Some e0 /\ key e0 = key e) ->
  first_in es' chain a k.
Proof.
  intros (l1 & l2 & -> & Hn) He. exists l1, l2. split; [done|]. intros x e Hx E.
  destruct (He x e E) as (e0 & E0 & <-). by eapply Hn.
Qed.

(** * The invariant *)

(** [extra] is the number of ghosts allowed above the capacity. *)
Record cache_inv (c : cache) (extra : nat) : Prop := {
  ci_bits : 0 < cache_size_bits c <= 31 /\ capacity c = 2 ^ cache_size_bits c;
  ci_table : length (ht_list_head c) = Z.to_nat (capacity c);
  ci_nodup : NoDup (lru c ++ ghosts c);
  ci_state : forall a e, entries c !! a = Some e -> if alive e then a ∈ lru c else a ∈ ghosts c;
  ci_store : forall a, a ∈ lru c ++ ghosts c -> is_Some (entries c !! a);
  ci_chain : forall i chain a, ht_list_head c !! i = Some chain ->
    (a ∈ chain <-> exists e, entries c !! a = Some e /\ cache_hash c (key e) = Some i);
  ci_first : forall i chain a e, ht_list_head c !! i = Some chain -> entries c !! a = Some e ->
    alive e = true -> cache_hash c (key e) = Some i -> first_in (entries c) chain a (key e);
  ci_size : size c = Z.of_nat (length (lru c)) /\ Z.of_nat (length (lru c)) <= capacity c;
  ci_ghosts : ghost_list_size c = Z.of_nat (length (ghosts c)) /\
    Z.of_nat (length (ghosts c)) <= capacity c + Z.of_nat extra }.

Definition cache_wf (c : cache) : Prop := cache_inv c 0.

Lemma ci_live c n a e : cache_inv c n -> a ∈ lru c -> entries c !! a = Some e -> alive e = true.
Proof.
  intros H Ha E. pose proof (ci_state _ _ H a e E) as Hs. destruct (alive e); [done|].
  pose proof (ci_nodup _ _ H) as (_ & Hd & _)%NoDup_app. by destruct (Hd a).
Qed.
Lemma ci_dead c n a e : cache_inv c n -> a ∈ ghosts c -> entries c !! a = Some e -> alive e = false.
Proof.
  intros H Ha E. pose proof (ci_state _ _ H a e E) as Hs. destruct (alive e); [|done].
  pose proof (ci_nodup _ _ H) as (_ & Hd & _)%NoDup_app. by destruct (Hd a).
Qed.

Lemma hash_range c n k : cache_inv c n -> exists i chain, cache_hash c k = Some i /\ ht_list_head c !! i = Some chain.
Proof.
  intros H. destruct (ci_bits _ _ H) as [Hb Hc]. unfold cache_hash, hash64.
  destruct (Z.ltb_spec 0 (cache_size_bits c)), (Z.leb_spec (cache_size_bits c) 64); try lia.
  cbn [andb mbind option_bind]. set (h := Z.land _ _).
  assert (0 <= h < capacity c) as Hh.
  { subst h. pose proof (land_le_r (Z.shiftr (u64 (k * 0x61c8864680b583eb)) (64 - cache_size_bits c))
      (capacity c - 1)). pose proof (Z.pow_pos_nonneg 2 (cache_size_bits c)). lia. }
  destruct (lookup_lt_is_Some_2 (ht_list_head c) (Z.to_nat h)) as [chain E].
  { rewrite (ci_table _ _ H). lia. }
  by exists (Z.to_nat h), chain.
Qed.

(** * The steps of an insertion *)

Lemma page_index_inv pi b c n : cache_inv c n -> cache_inv (set_page_index pi b c) n.
Proof. intros []. by split. Qed.

Lemma evict_inv a e c n :
  cache_inv c n -> (n <= 1)%nat -> a ∈ lru c -> entries c !! a = Some e -> cache_inv (evict a e c) (S n).
Proof.
  intros H Hn Ha E. pose proof (ci_nodup _ _ H) as (N1 & N2 & N3)%NoDup_app.
  pose proof (length_list_del _ _ N1 Ha) as Hl. destruct (ci_size _ _ H) as [Es Hs].
  destruct (ci_ghosts _ _ H) as [Eg Hg]. destruct (ci_bits _ _ H) as [Hb Hc].
  assert (2 ^ cache_size_bits c <= 2 ^ 31) by (apply Z.pow_le_mono_r; lia).
  assert (forall x e', <[a := mk_entry (value e) false (key e) (freq e)]> (entries c) !! x = Some e' ->
    exists e0, entries c !! x = Some e0 /\ key e0 = key e') as Hk.
  { intros x e'. destruct (decide (x = a)) as [->|]; [rewrite lookup_insert_eq|rewrite lookup_insert_ne by done].
    - intros [= <-]. by exists e.
    - intros E'. by exists e'. }
  split; cbn [evict cache_size_bits capacity ht_list_head lru ghosts entries size ghost_list_size]; try apply H.
  - apply NoDup_app. split_and!; [by apply NoDup_list_del| |apply NoDup_cons; by auto].
    intros x [Hx Hxa]%elem_of_list_del [?|Hx']%elem_of_cons; [done|by apply (N2 x)].
  - intros x e'. destruct (decide (x = a)) as [->|]; [rewrite lookup_insert_eq|rewrite lookup_insert_ne by done].
    + intros [= <-]. cbn. by left.
    + intros E'. pose proof (ci_state _ _ H x e' E') as Hx. destruct (alive e'); [by apply elem_of_list_del|by right].
  - intros x Hx. destruct (decide (x = a)) as [->|]; [rewrite lookup_insert_eq; eauto|].
    rewrite lookup_insert_ne by done. apply (ci_store _ _ H). apply elem_of_app.
    apply elem_of_app in Hx as [[Hx _]%elem_of_list_del|[?|Hx]%elem_of_cons]; [by left|done|by right].
  - intros i chain x Hi. rewrite (ci_chain _ _ H i chain x Hi).
    destruct (decide (x = a)) as [->|]; [rewrite lookup_insert_eq|by rewrite lookup_insert_ne].
    split; intros (e' & E' & Hh); simplify_eq; eexists; (split; [done|exact Hh]).
  - intros i chain x e' Hi. destruct (decide (x = a)) as [->|];
      [rewrite lookup_insert_eq; by intros [= <-]|rewrite lookup_insert_ne by done]. intros E' Hal Hh.
    eapply first_in_keys; [by eapply (ci_first _ _ H)|exact Hk].
  - unfold u32. rewrite Z.mod_small by lia. lia.
  - cbn [length]. unfold u32. rewrite Z.mod_small by lia. lia.
Qed.

(** A ghost is removed from its chain and freed. *)
Definition drop_ghost (a : Z) (i : nat) (c : cache) : cache :=
  mk_cache (delete a (entries c)) (lru c) (list_del a (ghosts c)) (hlist_del a i (ht_list_head c))
    (size c) (u32 (ghost_list_size c - 1)) (capacity c) (cache_size_bits c) (page_index c)
    (page_index_incomplete c).

Lemma lookup_hlist_del a i j ht chain :
  hlist_del a i ht !! j = Some chain ->
  exists chain0, ht !! j = Some chain0 /\ chain = if decide (i = j) then list_del a chain0 else chain0.
Proof.
  unfold hlist_del. destruct (decide (i = j)) as [->|Hne].
  - rewrite list_lookup_alter_eq. destruct (ht !! j); [|done]. intros [= <-]. eauto.
  - rewrite list_lookup_alter_ne by done. eauto.
Qed.

Lemma drop_ghost_inv a e i c n :
  cache_inv c n -> (n <= 1)%nat -> a ∈ ghosts c -> entries c !! a = Some e -> cache_hash c (key e) = Some i ->
  cache_inv (drop_ghost a i c) (pred n).
Proof.
  intros H Hn Ha E Hh. pose proof (ci_nodup _ _ H) as (N1 & N2 & N3)%NoDup_app.
  pose proof (length_list_del _ _ N3 Ha) as Hl. destruct (ci_ghosts _ _ H) as [Eg Hg].
  destruct (ci_bits _ _ H) as [Hb Hc].
  assert (2 ^ cache_size_bits c <= 2 ^ 31) by (apply Z.pow_le_mono_r; lia).
  split; cbn [drop_ghost cache_size_bits capacity ht_list_head lru ghosts entries size ghost_list_size]; try apply H.
  - unfold hlist_del. rewrite length_alter. apply H.
  - apply NoDup_app. split_and!; [done| |by apply NoDup_list_del].
    intros x Hx [Hx' _]%elem_of_list_del. by apply (N2 x).
  - intros x e' [Hxa E']%lookup_delete_Some. pose proof (ci_state _ _ H x e' E') as Hx.
    destruct (alive e'); [done|by apply elem_of_list_del].
  - intros x [Hx|[Hx Hxa]%elem_of_list_del]%elem_of_app.
    + rewrite lookup_delete_ne; [apply (ci_store _ _ H), elem_of_app; by left|].
      intros ->. by apply (N2 x).
    + rewrite lookup_delete_ne by done. apply (ci_store _ _ H), elem_of_app; by right.
  - intros j chain x (chain0 & Hj & ->)%lookup_hlist_del.
    change (cache_hash (drop_ghost a i c)) with (cache_hash c).
    assert (x ∈ (if decide (i = j) then list_del a chain0 else chain0) <-> x ∈ chain0 /\ x <> a) as ->.
    { case_decide as Hij; [apply elem_of_list_del|]. split; [|tauto]. intros Hx. split; [done|]. intros ->.
      apply (ci_chain _ _ H j chain0 _ Hj) in Hx as (e' & E' & Hh'). simplify_eq. }
    rewrite (ci_chain _ _ H j chain0 x Hj). split.
    + intros [(e' & E' & Hh') Hxa]. exists e'. by rewrite lookup_delete_ne.
    + intros (e' & [Hxa E']%lookup_delete_Some & Hh'). split; [eauto|done].
  - intros j chain x e' (chain0 & Hj & ->)%lookup_hlist_del [Hxa E']%lookup_delete_Some Hal Hh'.
    change (cache_hash (drop_ghost a i c)) with (cache_hash c) in Hh'.
    pose proof (ci_first _ _ H j chain0 x e' Hj E' Hal Hh') as Hf. case_decide.
    + eapply first_in_del; [exact Hf|done|]. intros y e0 Hy [_ E0]%lookup_delete_Some. by exists e0.
    + eapply first_in_keys; [exact Hf|]. intros y e0 [_ E0]%lookup_delete_Some. by exists e0.
  - unfold u32. rewrite Z.mod_small by lia. lia.
Qed.

Lemma revive_drop a e c c' : revive a e c = Some c' <->
  exists i, cache_hash c (key e) = Some i /\ c' = drop_ghost a i c.
Proof.
  unfold revive. destruct (cache_hash c (key e)) as [i|]; cbn; split.
  - intros [= <-]. by exists i.
  - by intros (j & [= <-] & ->).
  - done.
  - by intros (j & ? & _).
Qed.

Lemma lookup_hlist_add a i j ht chain :
  hlist_add_head a i ht !! j = Some chain ->
  exists chain0, ht !! j = Some chain0 /\ chain = if decide (i = j) then a :: chain0 else chain0.
Proof.
  unfold hlist_add_head. destruct (decide (i = j)) as [->|Hne].
  - rewrite list_lookup_alter_eq. destruct (ht !! j); [|done]. intros [= <-]. eauto.
  - rewrite list_lookup_alter_ne by done. eauto.
Qed.

Lemma add_inv a e c n c' :
  cache_inv c n -> entries c !! a = None -> alive e = true ->
  (forall x e', entries c !! x = Some e' -> alive e' = true -> key e' <> key e) ->
  Z.of_nat (length (lru c)) < capacity c -> add_entry a e c = Some c' -> cache_inv c' n.
Proof.
  intros H E Hal Hkey Hlt. unfold add_entry.
  destruct (cache_hash c (key e)) as [i|] eqn:Hh; [|done]. intros [= <-].
  pose proof (ci_nodup _ _ H) as N. destruct (ci_size _ _ H) as [Es Hs]. destruct (ci_bits _ _ H) as [Hb Hc].
  assert (2 ^ cache_size_bits c <= 2 ^ 31) by (apply Z.pow_le_mono_r; lia).
  assert (a ∉ lru c ++ ghosts c) as Hna.
  { intros Ha. apply (ci_store _ _ H) in Ha as [e' E']. congruence. }
  split; cbn [cache_size_bits capacity ht_list_head lru ghosts entries size ghost_list_size]; try apply H.
  - unfold hlist_add_head. rewrite length_alter. apply H.
  - cbn. by apply NoDup_cons.
  - intros x e'. destruct (decide (x = a)) as [->|]; [rewrite lookup_insert_eq|rewrite lookup_insert_ne by done].
    + intros [= <-]. rewrite Hal. by left.
    + intros E'. pose proof (ci_state _ _ H x e' E') as Hx. destruct (alive e'); [by right|done].
  - intros x. cbn. intros [->|Hx]%elem_of_cons; [rewrite lookup_insert_eq; eauto|].
    rewrite lookup_insert_ne by (by intros ->). by apply (ci_store _ _ H).
  - intros j chain x (chain0 & Hj & ->)%lookup_hlist_add. change (cache_hash (mk_cache _ _ _ _ _ _ _ _ _ _)) with (cache_hash c).
    destruct (decide (x = a)) as [->|Hne].
    + rewrite lookup_insert_eq. split.
      * intros Hx. exists e. split; [done|]. case_decide; [by subst|].
        apply (ci_chain _ _ H j chain0 a Hj) in Hx as (e' & E' & _). congruence.
      * intros (e' & [= <-] & Hj'). rewrite Hh in Hj'. injection Hj' as ->. rewrite decide_True by done. by left.
    + rewrite lookup_insert_ne by done. rewrite <- (ci_chain _ _ H j chain0 x Hj).
      case_decide; [|done]. rewrite elem_of_cons. tauto.
  - intros j chain x e' (chain0 & Hj & ->)%lookup_hlist_add Ex Hal' Hh'.
    change (cache_hash (mk_cache _ _ _ _ _ _ _ _ _ _)) with (cache_hash c) in Hh'.
    destruct (decide (x = a)) as [->|Hne].
    + rewrite lookup_insert_eq in Ex. injection Ex as <-. rewrite Hh in Hh'. injection Hh' as ->.
      rewrite decide_True by done. exists [], chain0. split; [done|]. intros y e0 Hy. by apply not_elem_of_nil in Hy.
    + rewrite lookup_insert_ne in Ex by done.
      destruct (ci_first _ _ H j chain0 x e' Hj Ex Hal' Hh') as (l1 & l2 & -> & Hf).
      assert (forall y e0, y ∈ (if decide (i = j) then a :: l1 else l1) -> <[a := e]> (entries c) !! y = Some e0 ->
        key e0 <> key e') as Hf'.
      { intros y e0 Hy. destruct (decide (y = a)) as [->|Hya].
        - rewrite lookup_insert_eq. intros [= <-] Hk. by eapply Hkey.
        - rewrite lookup_insert_ne by done. apply Hf. case_decide; [|done].
          apply elem_of_cons in Hy as [?|?]; done. }
      exists (if decide (i = j) then a :: l1 else l1), l2. split; [by case_decide|exact Hf'].
  - cbn [length]. unfold u32. rewrite Z.mod_small by lia. lia.
Qed.

Lemma ghost_update_inv c n :
  cache_inv c n -> (n <= 1)%nat ->
  exists c', cache_ghost_list_update c = Some c' /\ cache_inv c' 0 /\
    lru c' = lru c /\ capacity c' = capacity c /\ (forall a, a ∈ lru c -> entries c' !! a = entries c !! a) /\
    page_index c' = page_index c /\ page_index_incomplete c' = page_index_incomplete c.
Proof.
  intros H Hn. unfold cache_ghost_list_update. destruct (ci_ghosts _ _ H) as [Eg Hg].
  destruct (Z.leb_spec (ghost_list_size c) (capacity c)).
  - exists c. split; [done|]. split; [|done]. destruct H. split; try done. split; [done|lia].
  - destruct (last (ghosts c)) as [a|] eqn:El.
    2: { apply last_None in El. rewrite El in *. cbn in *. destruct (ci_bits _ _ H) as [? Hc].
         pose proof (Z.pow_nonneg 2 (cache_size_bits c)). lia. }
    apply last_Some in El as [g Eg']. assert (a ∈ ghosts c) as Ha by (rewrite Eg'; set_solver).
    destruct (ci_store _ _ H a) as [e Ea]; [apply elem_of_app; by right|]. cbn [mbind option_bind]. rewrite Ea.
    cbn [mbind option_bind]. rewrite (ci_dead _ _ _ _ H Ha Ea).
    destruct (hash_range c n (key e) H) as (i & chain & Hh & _). rewrite Hh. cbn [mbind option_bind].
    eexists. split; [done|]. split.
    + replace O with (pred n) by lia. exact (drop_ghost_inv a e i c n H Hn Ha Ea Hh).
    + split_and!; try done. cbn. intros x Hx. rewrite lookup_delete_ne; [done|]. intros ->.
      pose proof (ci_nodup _ _ H) as (_ & N2 & _)%NoDup_app. by apply (N2 x).
Qed.

(** * The abstract cache *)

Definition kv (es : gmap Z cache_entry_t) (a : Z) : option (Z * Z) :=
  e ← es !! a; Some (key e, value e).
(** The live keys and values, newest first. *)
Definition contents (c : cache) : list (Z * Z) := omap (kv (entries c)) (lru c).

Fixpoint assoc (k : Z) (l : list (Z * Z)) : option Z :=
  match l with
  | [] => None
  | (k', v) :: l => if k' =? k then Some v else assoc k l
  end.
Definition without (k : Z) (l : list (Z * Z)) : list (Z * Z) := filter (fun kv => kv.1 <> k) l.

(** A map of bounded size: what an insertion may return, and the contents it may leave.  A value
    under the same key is replaced; otherwise, when the map is full, one entry is evicted. *)
Inductive bounded_put (cap : Z) (l : list (Z * Z)) (k v : Z) : option Z -> list (Z * Z) -> Prop :=
  | put_replaces v0 : assoc k l = Some v0 -> bounded_put cap l k v (Some v0) ((k, v) :: without k l)
  | put_evicts l1 k1 v1 l2 : assoc k l = None -> Z.of_nat (length l) = cap ->
      l = l1 ++ (k1, v1) :: l2 -> bounded_put cap l k v (Some v1) ((k, v) :: l1 ++ l2)
  | put_adds : assoc k l = None -> Z.of_nat (length l) < cap -> bounded_put cap l k v None ((k, v) :: l).

(** The map that evicts its oldest entry. *)
Definition fifo_put (cap : Z) (l : list (Z * Z)) (k v : Z) : option Z * list (Z * Z) :=
  match assoc k l with
  | Some v0 => (Some v0, (k, v) :: without k l)
  | None =>
      if Z.of_nat (length l) =? cap then (snd <$> last l, (k, v) :: removelast l)
      else (None, (k, v) :: l)
  end.

(** ** Contents *)

Lemma kv_some c n a : cache_inv c n -> a ∈ lru c -> exists e, entries c !! a = Some e /\
  kv (entries c) a = Some (key e, value e).
Proof.
  intros H Ha. destruct (ci_store _ _ H a) as [e E]; [apply elem_of_app; by left|].
  exists e. unfold kv. by rewrite E.
Qed.
Lemma omap_kv_ext es es' (l : list Z) : (forall a, a ∈ l -> kv es a = kv es' a) -> omap (kv es) l = omap (kv es') l.
Proof.
  induction l as [|a l IH]; intros H; [done|]. cbn [omap list_omap]. rewrite (H a) by by left.
  rewrite IH; [done|]. intros x Hx. apply H. by right.
Qed.
Lemma length_contents c n : cache_inv c n -> length (contents c) = length (lru c).
Proof.
  intros H. unfold contents. assert (forall a, a ∈ lru c -> is_Some (kv (entries c) a)) as Hs.
  { intros a Ha. destruct (kv_some _ _ _ H Ha) as (e & _ & ->). eauto. }
  revert Hs. generalize (lru c). induction l as [|a l IH]; intros Hs; [done|]. cbn [omap list_omap].
  destruct (Hs a) as [p ->]; [by left|]. cbn [length]. f_equal. apply IH. intros x Hx. apply Hs. by right.
Qed.
Lemma elem_of_contents c k v :
  (k, v) ∈ contents c <-> exists a e, a ∈ lru c /\ entries c !! a = Some e /\ key e = k /\ value e = v.
Proof.
  unfold contents. rewrite list_elem_of_omap. split.
  - intros (a & Ha & E). unfold kv in E. destruct (entries c !! a) as [e|] eqn:Ee; [|done].
    simplify_eq/=. by exists a, e.
  - intros (a & e & Ha & E & <- & <-). exists a. unfold kv. by rewrite E.
Qed.

Lemma live_key_inj c n a e a' e' :
  cache_inv c n -> entries c !! a = Some e -> entries c !! a' = Some e' ->
  alive e = true -> alive e' = true -> key e = key e' -> a = a'.
Proof.
  intros H E E' Ha Ha' Hk. destruct (hash_range c n (key e) H) as (i & chain & Hh & Hc).
  assert (forall x, x ∈ chain -> is_Some (entries c !! x)) as Hs.
  { intros x (e0 & -> & _)%(ci_chain _ _ H i chain x Hc). eauto. }
  pose proof (find_entry_first _ _ _ _ Hs E (ci_first _ _ H _ _ _ _ Hc E Ha Hh)) as F.
  rewrite Hk in Hh. pose proof (find_entry_first _ _ _ _ Hs E' (ci_first _ _ H _ _ _ _ Hc E' Ha' Hh)) as F'.
  rewrite Hk, F' in F. by simplify_eq.
Qed.
Lemma keys_nodup c n : cache_inv c n -> NoDup (contents c).*1.
Proof.
  intros H. pose proof (ci_nodup _ _ H) as (N & _ & _)%NoDup_app. unfold contents.
  assert (forall l, (forall a, a ∈ l -> a ∈ lru c) -> NoDup l -> NoDup (omap (kv (entries c)) l).*1) as Hn;
    [|by apply Hn].
  induction l as [|a l IH]; intros Hl Nl; [constructor|]. apply NoDup_cons in Nl as [Ha Nl].
  destruct (kv_some _ _ a H) as (e & E & Ek); [apply Hl; by left|]. cbn [omap list_omap]. rewrite Ek. cbn.
  apply NoDup_cons. split; [|apply IH; [intros x Hx; apply Hl; by right|done]].
  intros ((k & v) & Hk & Hin)%list_elem_of_fmap. cbn in Hk. apply list_elem_of_omap in Hin as (x & Hx & Ex).
  unfold kv in Ex. destruct (entries c !! x) as [e'|] eqn:Ee; [|done]. simplify_eq/=. apply Ha.
  assert (forall y ey, y ∈ a :: l -> entries c !! y = Some ey -> alive ey = true) as Hal.
  { intros y ey Hy. eapply ci_live; [done|by apply Hl]. }
  assert (a = x) as ->; [|done].
  eapply (live_key_inj c n a e x e'); try done; eapply Hal; try done; [by left|by right].
Qed.

Lemma assoc_elem k v (l : list (Z * Z)) : NoDup l.*1 -> assoc k l = Some v <-> (k, v) ∈ l.
Proof.
  induction l as [|[k' v'] l IH]; intros N; cbn [assoc].
  - split; [done|]. intros H. by apply not_elem_of_nil in H.
  - cbn in N. apply NoDup_cons in N as [Hk N]. rewrite elem_of_cons.
    destruct (Z.eqb_spec k' k) as [->|Hne].
    + split; [intros [= ->]; by left|]. intros [[= ->]|Hin]; [done|]. destruct Hk.
      apply list_elem_of_fmap. by exists (k, v).
    + rewrite IH by done. split; [by right|]. intros [[= ? ?]|?]; done.
Qed.
Lemma assoc_none k l : assoc k l = None <-> forall v, (k, v) ∉ l.
Proof.
  induction l as [|[k' v'] l IH]; cbn [assoc].
  - split; [|done]. intros _ v H. by apply not_elem_of_nil in H.
  - destruct (Z.eqb_spec k' k) as [->|Hne].
    + split; [done|]. intros H. destruct (H v'). by left.
    + rewrite IH. split; intros H v; [|intros Hv; apply (H v); by right].
      intros [[= ? ?]|Hv]%elem_of_cons; [done|by apply (H v)].
Qed.

(** What the search of a chain finds. *)
Lemma find_spec c n k :
  cache_inv c n ->
  exists i chain r, cache_hash c k = Some i /\ ht_list_head c !! i = Some chain /\
    find_entry (entries c) chain k = Some r /\
    match r with
    | Some (a, e) => entries c !! a = Some e /\ key e = k /\
        assoc k (contents c) = if alive e then Some (value e) else None
    | None => assoc k (contents c) = None
    end.
Proof.
  intros H. destruct (hash_range c n k H) as (i & chain & Hh & Hc). exists i, chain.
  assert (forall x, x ∈ chain -> is_Some (entries c !! x)) as Hs.
  { intros x (e0 & -> & _)%(ci_chain _ _ H i chain x Hc). eauto. }
  assert (forall v, (k, v) ∈ contents c -> exists a e, find_entry (entries c) chain k = Some (Some (a, e)) /\
    alive e = true /\ value e = v) as Hl.
  { intros v (a & e & Ha & E & <- & <-)%elem_of_contents. exists a, e.
    pose proof (ci_live _ _ _ _ H Ha E) as Hal. split; [|done].
    apply find_entry_first; [done|done|]. by eapply (ci_first _ _ H). }
  destruct (find_entry_total (entries c) chain k Hs) as [(a & e & F & _ & E & Hk)|[F Hn]];
    rewrite F.
  - exists (Some (a, e)). split_and!; try done. destruct (alive e) eqn:Hal.
    + apply assoc_elem; [by eapply keys_nodup|]. apply elem_of_contents. exists a, e. split_and!; try done.
      pose proof (ci_state _ _ H a e E) as Hst. by rewrite Hal in Hst.
    + apply assoc_none. intros v Hv. destruct (Hl v Hv) as (a' & e' & F' & Hal' & _). rewrite F in F'.
      simplify_eq. congruence.
  - exists None. split_and!; try done. apply assoc_none. intros v Hv.
    destruct (Hl v Hv) as (a' & e' & F' & _). by rewrite F in F'.
Qed.

Lemma set_freq_inv c n a e f :
  cache_inv c n -> entries c !! a = Some e ->
  cache_inv (set_entry a (mk_entry (value e) (alive e) (key e) f) c) n.
Proof.
  intros H E. assert (forall x e', <[a := mk_entry (value e) (alive e) (key e) f]> (entries c) !! x = Some e' ->
    exists e0, entries c !! x = Some e0 /\ key e0 = key e' /\ alive e0 = alive e') as Hk.
  { intros x e'. destruct (decide (x = a)) as [->|]; [rewrite lookup_insert_eq|rewrite lookup_insert_ne by done].
    - intros [= <-]. by exists e.
    - intros E'. by exists e'. }
  split; cbn [set_entry cache_size_bits capacity ht_list_head lru ghosts entries size ghost_list_size]; try apply H.
  - intros x e' (e0 & E0 & _ & <-)%Hk. by apply (ci_state _ _ H).
  - intros x Hx. destruct (decide (x = a)) as [->|]; [rewrite lookup_insert_eq; eauto|].
    rewrite lookup_insert_ne by done. by apply (ci_store _ _ H).
  - intros i chain x Hi. rewrite (ci_chain _ _ H i chain x Hi).
    destruct (decide (x = a)) as [->|]; [rewrite lookup_insert_eq|by rewrite lookup_insert_ne].
    split; intros (e' & E' & Hh); simplify_eq; eexists; (split; [done|exact Hh]).
  - intros i chain x e' Hi E' Hal Hh. destruct (Hk x e' E') as (e0 & E0 & Hke & Hae).
    eapply first_in_keys; [rewrite <- Hke; eapply (ci_first _ _ H)|]; try done; [congruence|by rewrite Hke|].
    intros y ey Ey. destruct (Hk y ey Ey) as (e1 & ? & ? & _). by exists e1.
Qed.

(** Lookups.  [cache_get] ends and returns the value stored last under the key, or NULL
    when there is none or it was evicted; counting the access changes nothing else. *)
Theorem cache_get_correct c k update :
  cache_wf c ->
  exists c', cache_get c k update = Some (assoc k (contents c), c') /\ cache_wf c' /\
    contents c' = contents c /\ lru c' = lru c.
Proof.
  intros H. unfold cache_get. destruct (ci_bits _ _ H) as [Hb Hc].
  destruct (Z.eqb_spec (capacity c) 0) as [Hz|]; [pose proof (Z.pow_pos_nonneg 2 (cache_size_bits c)); lia|].
  destruct (find_spec c 0 k H) as (i & chain & r & -> & Hch & Hf & Hr). cbn [mbind option_bind].
  rewrite Hch. cbn [mbind option_bind]. rewrite Hf. cbn [mbind option_bind].
  destruct r as [[a e]|]; [|rewrite Hr; by exists c]. destruct Hr as (E & Hk & ->).
  destruct (alive e) eqn:Hal; [|by exists c]. destruct update; [|by exists c].
  eexists. split; [done|]. rewrite <- Hal. split; [by apply set_freq_inv|]. split; [|done].
  unfold contents. cbn [lru set_entry entries]. apply omap_kv_ext. intros x Hx. unfold kv.
  destruct (decide (x = a)) as [->|]; [by rewrite lookup_insert_eq, E|by rewrite lookup_insert_ne].
Qed.

(** ** The page index *)

(** The bucket of a block. *)
Definition home (blocks : gmap Z jit_block) (b : Z) : option nat :=
  blk ← blocks !! b; page_index_hash (page_of (pc_start blk)).

(** Each bucket holds the live blocks of its pages. *)
Definition index_complete (blocks : gmap Z jit_block) (c : cache) : Prop :=
  forall i bucket, page_index c !! i = Some bucket ->
    bucket ≡ₚ filter (fun b => home blocks b = Some i) (contents c).*2.

Lemma page_index_hash_some page : exists i, page_index_hash page = Some i /\ (i < Z.to_nat PAGE_INDEX_SIZE)%nat.
Proof.
  unfold page_index_hash, hash64. cbn [Z.ltb Z.leb Z.compare andb PAGE_INDEX_BITS mbind option_bind Pos.compare
    Pos.compare_cont]. eexists. split; [done|].
  match goal with |- context [Z.land ?x ?y] => assert (0 <= Z.land x y <= y) as H by by apply land_le_r end.
  unfold PAGE_INDEX_SIZE in *. lia.
Qed.
Lemma remove_first_perm b l0 l : l0 ≡ₚ b :: l -> remove_first b l0 ≡ₚ l.
Proof.
  intros Hp. assert (b ∈ l0) as Hb by (rewrite Hp; by left).
  assert (l0 ≡ₚ b :: remove_first b l0) as Hr.
  { clear Hp. induction l0 as [|x l0 IH]; [by apply not_elem_of_nil in Hb|]. cbn [remove_first].
    destruct (Z.eqb_spec x b) as [->|Hne]; [done|]. apply elem_of_cons in Hb as [?|Hb]; [done|].
    rewrite (IH Hb) at 1. apply Permutation_swap. }
  eapply Permutation_cons_inv. etrans; [symmetry; exact Hr|exact Hp].
Qed.

Lemma index_remove blocks c c' k b i0 l1 l2 :
  home blocks b = Some i0 -> page_index c' = alter (remove_first b) i0 (page_index c) ->
  contents c = l1 ++ (k, b) :: l2 -> contents c' = l1 ++ l2 ->
  index_complete blocks c -> index_complete blocks c'.
Proof.
  intros Hh Hpi C C' Hc i bucket Hi. rewrite Hpi in Hi. rewrite C', fmap_app, filter_app.
  destruct (decide (i = i0)) as [->|Hne].
  - rewrite list_lookup_alter_eq in Hi. destruct (page_index c !! i0) as [bk|] eqn:E; [|done]. injection Hi as <-.
    apply remove_first_perm. rewrite (Hc i0 bk E), C, fmap_app, filter_app. cbn [fmap list_fmap snd].
    rewrite filter_cons_True by done. symmetry. apply Permutation_middle.
  - rewrite list_lookup_alter_ne in Hi by done. rewrite (Hc i bucket Hi), C, fmap_app, filter_app.
    cbn [fmap list_fmap snd]. rewrite filter_cons_False; [done|congruence].
Qed.
Lemma index_insert blocks c c' k b i0 :
  home blocks b = Some i0 -> page_index c' = alter (cons b) i0 (page_index c) ->
  contents c' = (k, b) :: contents c -> index_complete blocks c -> index_complete blocks c'.
Proof.
  intros Hh Hpi C' Hc i bucket Hi. rewrite Hpi in Hi. rewrite C'. cbn [fmap list_fmap snd].
  destruct (decide (i = i0)) as [->|Hne].
  - rewrite list_lookup_alter_eq in Hi. destruct (page_index c !! i0) as [bk|] eqn:E; [|done]. injection Hi as <-.
    rewrite filter_cons_True by done. by rewrite (Hc i0 bk E).
  - rewrite list_lookup_alter_ne in Hi by done. rewrite filter_cons_False by congruence. by apply Hc.
Qed.

(** ** Insertion *)

Lemma contents_add n e c c' :
  entries c !! n = None -> (forall a, a ∈ lru c -> is_Some (entries c !! a)) ->
  add_entry n e c = Some c' -> contents c' = (key e, value e) :: contents c.
Proof.
  intros Hn Hs. unfold add_entry. destruct (cache_hash c (key e)); [|done]. intros [= <-].
  unfold contents. cbn [lru entries omap list_omap]. unfold kv at 1. rewrite lookup_insert_eq. cbn.
  f_equal. apply omap_kv_ext. intros x Hx. unfold kv. rewrite lookup_insert_ne; [done|].
  intros ->. destruct (Hs x Hx). congruence.
Qed.

(** The frequency of the new entry, after its ghost, if there is one, is freed. *)
Definition take_freq (revived : option (Z * cache_entry_t)) (c : cache) : option (Z * cache) :=
  match revived with
  | None => Some (1, c)
  | Some (a, e) => c ← revive a e c; Some (u32 (freq e + 1), c)
  end.

Lemma take_freq_correct revived c m n :
  cache_inv c m -> (m <= 1)%nat -> entries c !! n = None ->
  match revived with None => True | Some (a, e) => a ∈ ghosts c /\ entries c !! a = Some e end ->
  exists f c1 m1, take_freq revived c = Some (f, c1) /\
    cache_inv c1 m1 /\ (m1 <= 1)%nat /\ entries c1 !! n = None /\ contents c1 = contents c /\ lru c1 = lru c /\
    capacity c1 = capacity c /\ page_index c1 = page_index c /\
    page_index_incomplete c1 = page_index_incomplete c.
Proof.
  intros H Hm Hn Hr. unfold take_freq.
  destruct revived as [[a e]|]; [|exists 1, c, m; done]. destruct Hr as [Ha E].
  destruct (hash_range c m (key e) H) as (i & chain & Hh & _).
  assert (revive a e c = Some (drop_ghost a i c)) as -> by (apply revive_drop; eauto).
  exists (u32 (freq e + 1)), (drop_ghost a i c), (pred m). cbn [mbind option_bind].
  split_and!; try done; [by eapply drop_ghost_inv|lia| |].
  - cbn. rewrite lookup_delete_None. by right.
  - unfold contents. cbn [lru drop_ghost entries]. apply omap_kv_ext. intros x Hx. unfold kv.
    rewrite lookup_delete_ne; [done|]. intros ->.
    pose proof (ci_nodup _ _ H) as (_ & N2 & _)%NoDup_app. by apply (N2 x).
Qed.

Lemma add_entry_correct n e c m :
  cache_inv c m -> entries c !! n = None -> alive e = true -> assoc (key e) (contents c) = None ->
  Z.of_nat (length (lru c)) < capacity c ->
  exists c', add_entry n e c = Some c' /\ cache_inv c' m /\ contents c' = (key e, value e) :: contents c /\
    capacity c' = capacity c /\ page_index c' = page_index c /\
    page_index_incomplete c' = page_index_incomplete c.
Proof.
  intros H Hn Hal Hk Hlt. destruct (hash_range c m (key e) H) as (i & chain & Hh & _).
  destruct (add_entry n e c) as [c'|] eqn:E; [|unfold add_entry in E; by rewrite Hh in E].
  exists c'. split; [done|]. split; [|split].
  - eapply add_inv; [exact H|exact Hn|exact Hal| |exact Hlt|exact E].
    intros x e' Ex Hal' Hke. rewrite assoc_none in Hk. apply (Hk (value e')).
    apply elem_of_contents. exists x, e'. split_and!; try done.
    pose proof (ci_state _ _ H x e' Ex) as Hst. by rewrite Hal' in Hst.
  - eapply contents_add; [done| |done]. intros a Ha. apply (ci_store _ _ H), elem_of_app. by left.
  - unfold add_entry in E. rewrite Hh in E. by simplify_eq/=.
Qed.

Lemma page_index_insert_correct index_ok blocks c v :
  is_Some (blocks !! v) ->
  exists i, home blocks v = Some i /\ page_index_insert index_ok blocks c v
    = Some (set_page_index (if index_ok then alter (cons v) i (page_index c) else page_index c)
        (negb index_ok || page_index_incomplete c) c).
Proof.
  intros [blk Hb]. destruct (page_index_hash_some (page_of (pc_start blk))) as (i & Hi & _).
  exists i. unfold home, page_index_insert. rewrite Hb. cbn [mbind option_bind]. rewrite Hi.
  split; [done|]. by destruct index_ok.
Qed.
Lemma page_index_remove_correct blocks c v :
  is_Some (blocks !! v) ->
  exists i, home blocks v = Some i /\ page_index_remove blocks c v
    = Some (set_page_index (alter (remove_first v) i (page_index c)) (page_index_incomplete c) c).
Proof.
  intros [blk Hb]. destruct (page_index_hash_some (page_of (pc_start blk))) as (i & Hi & _).
  exists i. unfold home, page_index_remove. rewrite Hb. cbn [mbind option_bind]. by rewrite Hi.
Qed.

Lemma put_new_correct n index_ok blocks revived c m k v :
  cache_inv c m -> (m <= 1)%nat -> entries c !! n = None -> assoc k (contents c) = None ->
  Z.of_nat (length (lru c)) < capacity c -> is_Some (blocks !! v) ->
  match revived with None => True | Some (a, e) => a ∈ ghosts c /\ entries c !! a = Some e end ->
  exists c', put_new n index_ok blocks revived c k v = Some c' /\ cache_wf c' /\
    contents c' = (k, v) :: contents c /\ length (page_index c') = length (page_index c) /\
    page_index_incomplete c' = negb index_ok || page_index_incomplete c /\
    (index_ok = true -> index_complete blocks c -> index_complete blocks c').
Proof.
  intros H Hm Hn Hk Hlt Hb Hr. unfold put_new.
  destruct (take_freq_correct revived c m n H Hm Hn Hr)
    as (f & c1 & m1 & Ef & H1 & Hm1 & Hn1 & Hc1 & Hl1 & Hcap1 & Hpi1 & Hpf1).
  unfold take_freq in Ef. rewrite Ef. clear Ef. cbn [mbind option_bind].
  destruct (add_entry_correct n (mk_entry v true k f) c1 m1 H1 Hn1 eq_refl)
    as (c2 & -> & H2 & Hc2 & Hcap2 & Hpi2 & Hpf2); cbn [key value] in *; [by rewrite Hc1|by rewrite Hl1, Hcap1|].
  cbn [mbind option_bind]. destruct (page_index_insert_correct index_ok blocks c2 v Hb) as (i & Hh & ->).
  cbn [mbind option_bind]. set (c3 := set_page_index _ _ _).
  assert (cache_inv c3 m1) as H3 by by apply page_index_inv.
  destruct (ghost_update_inv c3 m1 H3 Hm1) as (c4 & -> & H4 & Hl4 & Hcap4 & He4 & Hpi4 & Hpf4).
  cbn [mbind option_bind].
  destruct (ci_size _ _ H4) as [Es Hs]. destruct (ci_ghosts _ _ H4) as [Eg Hg].
  destruct (Z.leb_spec (size c4) (capacity c4)), (Z.leb_spec (ghost_list_size c4) (capacity c4)); try lia.
  assert (contents c4 = (k, v) :: contents c) as Hc4.
  { rewrite <- Hc1, <- Hc2. unfold contents. rewrite Hl4. apply omap_kv_ext. intros x Hx. unfold kv.
    by rewrite He4. }
  exists c4. split_and!; [done|done|done| | |].
  - rewrite Hpi4. cbn. destruct index_ok; rewrite ?length_alter; congruence.
  - rewrite Hpf4. cbn. congruence.
  - intros -> Hix. eapply index_insert; [exact Hh|by rewrite Hpi4; cbn; rewrite Hpi2, Hpi1|exact Hc4|done].
Qed.

Lemma contents_evict c n a e l1 l2 :
  cache_inv c n -> entries c !! a = Some e -> lru c = l1 ++ a :: l2 ->
  contents c = omap (kv (entries c)) l1 ++ (key e, value e) :: omap (kv (entries c)) l2 /\
  contents (evict a e c) = omap (kv (entries c)) l1 ++ omap (kv (entries c)) l2.
Proof.
  intros H E Hl. pose proof (ci_nodup _ _ H) as (N & _)%NoDup_app. rewrite Hl in N. split.
  - unfold contents. rewrite Hl, omap_app. cbn [omap list_omap]. unfold kv at 2. by rewrite E.
  - unfold contents. cbn [lru evict entries]. rewrite Hl, list_del_split by done. rewrite <- omap_app.
    apply omap_kv_ext. intros x _. unfold kv.
    destruct (decide (x = a)) as [->|]; [by rewrite lookup_insert_eq, E|by rewrite lookup_insert_ne].
Qed.

Lemma without_split k v l1 l2 : NoDup (l1 ++ (k, v) :: l2).*1 -> without k (l1 ++ (k, v) :: l2) = l1 ++ l2.
Proof.
  intros N. rewrite fmap_app in N. cbn in N. apply NoDup_app in N as (_ & N1 & N2).
  apply NoDup_cons in N2 as [N2 _]. unfold without. rewrite filter_app, filter_cons_False by (cbn; tauto).
  assert (forall l : list (Z * Z), k ∉ l.*1 -> filter (fun kv => kv.1 <> k) l = l) as Hf.
  { induction l as [|[k' v'] l IH]; intros Hk; [done|]. cbn in Hk. apply not_elem_of_cons in Hk as [? ?].
    rewrite filter_cons_True by (cbn; done). by rewrite IH. }
  rewrite !Hf; [done|done|]. intros Hk. apply (N1 k Hk). by left.
Qed.

Lemma put_evict_correct blocks c a e :
  cache_wf c -> a ∈ lru c -> entries c !! a = Some e -> is_Some (blocks !! value e) ->
  exists c1, put_evict blocks c (Some (a, e)) = Some c1 /\ cache_inv c1 1 /\ capacity c1 = capacity c /\
    entries c1 = <[a := mk_entry (value e) false (key e) (freq e)]> (entries c) /\
    ghosts c1 = a :: ghosts c /\ Z.of_nat (length (lru c1)) < capacity c1 /\
    page_index_incomplete c1 = page_index_incomplete c /\ length (page_index c1) = length (page_index c) /\
    (value e <> 0 -> index_complete blocks c -> index_complete blocks c1) /\
    exists l1 l2, contents c = l1 ++ (key e, value e) :: l2 /\ contents c1 = l1 ++ l2 /\
      (last (lru c) = Some a -> l2 = []).
Proof.
  intros H Ha E Hb. cbn [put_evict]. rewrite (ci_live _ _ _ _ H Ha E). cbn [negb].
  destruct (page_index_remove_correct blocks c (value e) Hb) as (i & Hh & Hrm).
  assert (exists pi, (if truth (value e) then page_index_remove blocks c (value e) else Some c)
    = Some (set_page_index pi (page_index_incomplete c) c) /\
    (value e <> 0 -> pi = alter (remove_first (value e)) i (page_index c)) /\
    length pi = length (page_index c)) as (pi & -> & Hpi & Hlpi).
  { unfold truth. destruct (Z.eqb_spec (value e) 0); cbn [negb].
    - exists (page_index c). split; [by destruct c|done].
    - rewrite Hrm. eexists. split; [done|]. split; [done|apply length_alter]. }
  cbn [mbind option_bind]. eexists. split; [done|]. set (cp := set_page_index _ _ _).
  assert (cache_inv cp 0) as Hp by by apply page_index_inv.
  pose proof (evict_inv a e _ 0 Hp ltac:(lia) Ha E) as H1.
  pose proof (ci_nodup _ _ H) as (N & _)%NoDup_app. pose proof (length_list_del _ _ N Ha) as Hlen.
  destruct (ci_size _ _ H) as [_ Hs].
  assert (exists l1 l2, contents c = l1 ++ (key e, value e) :: l2 /\ contents (evict a e cp) = l1 ++ l2 /\
      (last (lru c) = Some a -> l2 = [])) as (l1 & l2 & C1 & C2 & Hlast).
  { destruct (decide (last (lru c) = Some a)) as [El|Hz].
    - apply last_Some in El as [l0 El].
      destruct (contents_evict cp _ a e l0 [] Hp E El) as [C1 C2]. eexists _, []. by split_and!.
    - apply list_elem_of_split in Ha as (l1 & l2 & Hl).
      destruct (contents_evict cp _ a e l1 l2 Hp E Hl) as [C1 C2]. eexists _, _. by split_and!. }
  split_and!; try done; [cbn [lru evict capacity set_page_index cp]; lia| |by exists l1, l2].
  intros Hv. by eapply index_remove; [exact Hh|apply Hpi, Hv|exact C1|exact C2].
Qed.

Lemma put_search_spec c k v :
  cache_wf c -> assoc k (contents c) <> Some v ->
  exists replaced revived, put_search c k v = Some (replaced, revived) /\
    match revived with None => True | Some (a, e) => a ∈ ghosts c /\ entries c !! a = Some e end /\
    match replaced with
    | Some (a, e) => revived = None /\ a ∈ lru c /\ entries c !! a = Some e /\ key e = k /\
        assoc k (contents c) = Some (value e)
    | None => assoc k (contents c) = None
    end.
Proof.
  intros H Hv. unfold put_search. destruct (find_spec c 0 k H) as (i & chain & r & -> & Hch & Hf & Hr).
  cbn [mbind option_bind]. rewrite Hch. cbn [mbind option_bind]. rewrite Hf. cbn [mbind option_bind].
  destruct r as [[a e]|]; [|by exists None, None]. destruct Hr as (E & Hk & Ha).
  pose proof (ci_state _ _ H a e E) as Hst. destruct (alive e); cbn [negb].
  - destruct (Z.eqb_spec (value e) v); [congruence|]. cbn [negb]. by exists (Some (a, e)), None.
  - by exists None, (Some (a, e)).
Qed.

Lemma assoc_removed k k0 v0 (l1 l2 : list (Z * Z)) :
  NoDup (l1 ++ (k0, v0) :: l2).*1 -> assoc k (l1 ++ (k0, v0) :: l2) = None \/ k0 = k ->
  assoc k (l1 ++ l2) = None.
Proof.
  intros N Hk. apply assoc_none. intros v' Hv'. destruct Hk as [Hk| ->].
  - rewrite assoc_none in Hk. apply (Hk v'). set_solver.
  - rewrite fmap_app in N. cbn in N. apply NoDup_app in N as (_ & N1 & N2).
    apply NoDup_cons in N2 as [N2 _]. apply elem_of_app in Hv' as [Hv'|Hv'].
    + apply (N1 k); [apply list_elem_of_fmap; by exists (k, v')|by left].
    + apply N2, list_elem_of_fmap. by exists (k, v').
Qed.

(** The page index is complete, or marked as incomplete. *)
Definition index_sound (blocks : gmap Z jit_block) (c : cache) : Prop :=
  length (page_index c) = Z.to_nat PAGE_INDEX_SIZE /\
  (page_index_incomplete c = true \/ index_complete blocks c).

Lemma index_sound_put blocks c c1 c' (index_ok : bool) :
  length (page_index c1) = length (page_index c) ->
  page_index_incomplete c1 = page_index_incomplete c ->
  (index_complete blocks c -> index_complete blocks c1) ->
  length (page_index c') = length (page_index c1) ->
  page_index_incomplete c' = negb index_ok || page_index_incomplete c1 ->
  (index_ok = true -> index_complete blocks c1 -> index_complete blocks c') ->
  index_sound blocks c -> index_sound blocks c'.
Proof.
  intros L1 F1 I1 L F I [Hl Hs]. split; [congruence|]. rewrite F, F1.
  destruct index_ok; [|by left]. destruct Hs as [->|Hs]; [by left|right; auto].
Qed.

(** Which entry [cache_put] evicts: the one that was inserted first, whatever has been looked
    up since, where the comments of the cache say the one least recently used. *)
Lemma cache_put_evicts_oldest n index_ok blocks c k v :
  cache_wf c -> entries c !! n = None -> assoc k (contents c) <> Some v -> blocks !! 0 = None ->
  (forall k' v', (k', v') ∈ contents c -> is_Some (blocks !! v')) -> is_Some (blocks !! v) ->
  exists r c', cache_put (Some n) index_ok blocks c k v = Some (r, c') /\ cache_wf c' /\
    (r, contents c') = fifo_put (capacity c) (contents c) k v /\
    (index_sound blocks c -> index_sound blocks c').
Proof.
  intros H Hn Hv H0 Hb Hbv. unfold cache_put. destruct (ci_size _ _ H) as [Es Hs].
  destruct (Z.leb_spec (size c) (capacity c)) as [Hle|]; [|lia]. cbn [negb].
  destruct (put_search_spec c k v H Hv) as (replaced & revived & -> & Hr & Hp). cbn [mbind option_bind].
  pose proof (keys_nodup _ _ H) as N. unfold fifo_put. rewrite (length_contents _ _ H).
  assert (forall a e, a ∈ lru c -> entries c !! a = Some e -> is_Some (blocks !! value e) /\ value e <> 0) as Hval.
  { intros a e Ha E. assert (is_Some (blocks !! value e)) as Hse.
    { apply (Hb (key e)), elem_of_contents. by exists a, e. }
    split; [done|]. intros Hz. rewrite Hz, H0 in Hse. by destruct Hse. }
  destruct replaced as [[a e]|]; cbn [put_victim].
  - destruct Hp as (-> & Ha & E & Hk & ->). cbn [mbind option_bind]. destruct (Hval a e Ha E) as [Hbe Hz].
    destruct (put_evict_correct blocks c a e H Ha E Hbe)
      as (c1 & -> & H1 & Hcap & He & Hg & Hl & F1 & L1 & I1 & l1 & l2 & C & C1 & _). cbn [mbind option_bind].
    destruct (put_new_correct n index_ok blocks None c1 1 k v) as (c' & -> & H' & C' & L' & F' & I'); try done;
      [rewrite He, lookup_insert_ne; [done|congruence]|rewrite C1; eapply assoc_removed; [by rewrite <- C|by right]|].
    cbn [mbind option_bind]. exists (Some (value e)), c'. split_and!; [done|done| |].
    + rewrite C', C1, C, <- Hk, without_split; [done|]. by rewrite <- C.
    + eapply (index_sound_put blocks c c1 c' index_ok); auto.
  - rewrite Hp. rewrite <- Es. destruct (Z.eqb_spec (size c) (capacity c)) as [Hfull|Hroom].
    + destruct (last (lru c)) as [a|] eqn:El.
      2: { apply last_None in El. rewrite El in *. destruct (ci_bits _ _ H) as [? Hc0].
           pose proof (Z.pow_pos_nonneg 2 (cache_size_bits c)). cbn in *. lia. }
      assert (a ∈ lru c) as Ha by (apply last_Some in El as [l0 ->]; set_solver).
      destruct (ci_store _ _ H a) as [e E]; [apply elem_of_app; by left|]. cbn [mbind option_bind]. rewrite E.
      cbn [mbind option_bind]. destruct (Hval a e Ha E) as [Hbe Hz].
      destruct (put_evict_correct blocks c a e H Ha E Hbe)
        as (c1 & -> & H1 & Hcap & He & Hg & Hl & F1 & L1 & I1 & l1 & l2 & C & C1 & L2). cbn [mbind option_bind].
      destruct (put_new_correct n index_ok blocks revived c1 1 k v) as (c' & -> & H' & C' & L' & F' & I'); try done;
        [rewrite He, lookup_insert_ne; [done|congruence]|rewrite C1; eapply assoc_removed; rewrite <- C; [done|by left]| |].
      { destruct revived as [[a' e']|]; [|done]. destruct Hr as [Ha' E']. rewrite Hg, He. split; [by right|].
        rewrite lookup_insert_ne; [done|]. intros ->.
        pose proof (ci_nodup _ _ H) as (_ & N2 & _)%NoDup_app. by apply (N2 a'). }
      cbn [mbind option_bind]. exists (Some (value e)), c'. split_and!; [done|done| |].
      * rewrite C', C1, C, (L2 El), last_snoc, removelast_last, app_nil_r. done.
      * eapply (index_sound_put blocks c c1 c' index_ok); auto.
    + cbn [mbind option_bind put_evict].
      destruct (put_new_correct n index_ok blocks revived c 0 k v) as (c' & -> & H' & C' & L' & F' & I');
        [done|lia|done|done|lia|done|done|].
      cbn [mbind option_bind]. exists None, c'. rewrite C'. split_and!; [done|done|done|].
      eapply (index_sound_put blocks c c c' index_ok); auto.
Qed.

Lemma fifo_put_bounded cap l k v r l' :
  (0 < cap) -> Z.of_nat (length l) <= cap -> (r, l') = fifo_put cap l k v -> bounded_put cap l k v r l'.
Proof.
  intros Hcap Hl. unfold fifo_put. destruct (assoc k l) as [v0|] eqn:E; [intros [= -> ->]; by constructor|].
  destruct (Z.eqb_spec (Z.of_nat (length l)) cap) as [Hf|Hr]; intros [= -> ->].
  - destruct l as [|[k1 v1] l0 _] using rev_ind; [cbn in Hf; lia|].
    rewrite last_snoc, removelast_last. cbn. rewrite <- (app_nil_r l0) at 2. by eapply put_evicts.
  - constructor; [done|lia].
Qed.

(** C35: insertions.  With memory for the new entry, [cache_put] keeps the cache well-formed
    and its page index sound, and does what a bounded map does: it replaces the value of a
    key that is present, otherwise evicts one entry, and only that one, when the cache is
    full, and returns the value that was replaced or evicted.  No assertion of it fails. *)
Theorem cache_put_bounded n index_ok blocks c k v :
  cache_wf c -> entries c !! n = None -> assoc k (contents c) <> Some v -> blocks !! 0 = None ->
  (forall k' v', (k', v') ∈ contents c -> is_Some (blocks !! v')) -> is_Some (blocks !! v) ->
  exists r c', cache_put (Some n) index_ok blocks c k v = Some (r, c') /\ cache_wf c' /\
    bounded_put (capacity c) (contents c) k v r (contents c') /\
    (index_sound blocks c -> index_sound blocks c').
Proof.
  intros H Hn Hv H0 Hb Hbv.
  destruct (cache_put_evicts_oldest n index_ok blocks c k v H Hn Hv H0 Hb Hbv) as (r & c' & E & Hw & F & I).
  exists r, c'. split_and!; try done.
  destruct (ci_size _ _ H) as [Es Hs]. apply fifo_put_bounded; [|rewrite (length_contents _ _ H); lia|done].
  destruct (ci_bits _ _ H) as [? Hc0]. pose proof (Z.pow_pos_nonneg 2 (cache_size_bits c)). lia.
Qed.

(** * Invalidation *)

Definition discard (blk : jit_block) : jit_block :=
  mk_jit_block (pc_start blk) (pc_end blk) (satp blk) true false.
Definition stale (test : jit_block -> bool) (satp' : Z) (blk : jit_block) : bool :=
  (satp blk =? satp') && negb (invalidated blk) && test blk.

(** A test of the code range only. *)
Definition by_range (test : jit_block -> bool) : Prop :=
  forall blk blk', pc_start blk = pc_start blk' -> pc_end blk = pc_end blk' -> test blk = test blk'.

Lemma in_page_range va : by_range (in_page va).
Proof. intros blk blk' H _. unfold in_page. by rewrite H. Qed.
Lemma overlaps_page_range va : by_range (overlaps_page va).
Proof. intros blk blk' H H'. unfold overlaps_page, last_byte. by rewrite H, H'. Qed.

Lemma invalidate_block_some test satp' b n m blk :
  b <> 0 -> m !! b = Some blk ->
  invalidate_block test satp' b (n, m) =
    Some (if stale test satp' blk then (u32 (n + 1), <[b := discard blk]> m) else (n, m)).
Proof.
  intros Hb E. unfold invalidate_block, stale, discard. apply Z.eqb_neq in Hb. rewrite Hb. cbn [snd fst].
  rewrite E. cbn [mbind option_bind]. by destruct (_ && _ && _).
Qed.

(** The order of two blocks does not matter. *)
Lemma invalidate_block_comm test satp' b1 b2 n m :
  b1 <> 0 -> b2 <> 0 -> is_Some (m !! b1) -> is_Some (m !! b2) ->
  (s ← invalidate_block test satp' b1 (n, m); invalidate_block test satp' b2 s) =
  (s ← invalidate_block test satp' b2 (n, m); invalidate_block test satp' b1 s).
Proof.
  intros H1 H2 [k1 E1] [k2 E2]. destruct (decide (b1 = b2)) as [->|Hne]; [done|].
  rewrite (invalidate_block_some _ _ _ _ _ _ H1 E1), (invalidate_block_some _ _ _ _ _ _ H2 E2).
  cbn [mbind option_bind]. destruct (stale test satp' k1) eqn:S1, (stale test satp' k2) eqn:S2.
  - rewrite (invalidate_block_some _ _ b2 _ _ k2), (invalidate_block_some _ _ b1 _ _ k1); try done;
      [|rewrite lookup_insert_ne by congruence; done..].
    rewrite S1, S2. by rewrite insert_insert_ne by done.
  - rewrite (invalidate_block_some _ _ b2 _ _ k2), (invalidate_block_some _ _ b1 _ _ k1); try done;
      [|rewrite lookup_insert_ne by congruence; done]. by rewrite S1, S2.
  - rewrite (invalidate_block_some _ _ b2 _ _ k2), (invalidate_block_some _ _ b1 _ _ k1); try done;
      [|rewrite lookup_insert_ne by congruence; done]. by rewrite S1, S2.
  - rewrite (invalidate_block_some _ _ b2 _ _ k2), (invalidate_block_some _ _ b1 _ _ k1); try done.
    by rewrite S1, S2.
Qed.

Definition present (m : gmap Z jit_block) (b : Z) : Prop := b <> 0 /\ is_Some (m !! b).

Lemma invalidate_block_present test satp' b n m s :
  present m b -> invalidate_block test satp' b (n, m) = Some s -> forall x, present m x -> present s.2 x.
Proof.
  intros [Hb [blk E]]. rewrite (invalidate_block_some _ _ _ _ _ _ Hb E). intros [= <-] x [Hx [bx Ex]].
  split; [done|]. destruct (stale _ _ _); cbn [snd]; [|eauto]. destruct (decide (x = b)) as [->|];
    [rewrite lookup_insert_eq|rewrite lookup_insert_ne by done]; eauto.
Qed.

Lemma invalidate_all_perm test satp' bs bs' :
  bs ≡ₚ bs' -> forall s, Forall (present s.2) bs ->
  invalidate_all test satp' bs s = invalidate_all test satp' bs' s.
Proof.
  induction 1 as [|b bs bs' _ IH|b1 b2 bs|bs bs1 bs2 P1 IH1 P2 IH2]; intros [n m] Hf; cbn [invalidate_all]; [done|..].
  - apply Forall_cons in Hf as [Hb Hf]. destruct (invalidate_block _ _ b (n, m)) as [s|] eqn:E; [|done].
    cbn [mbind option_bind]. apply IH. eapply Forall_impl; [exact Hf|]. by eapply invalidate_block_present.
  - rewrite !Forall_cons in Hf. destruct Hf as ([H1 ?] & [H2 ?] & _).
    pose proof (invalidate_block_comm test satp' b2 b1 n m) as Hc.
    apply (f_equal (fun r => r ≫= invalidate_all test satp' bs)) in Hc; [|done..].
    by rewrite !option_bind_assoc in Hc.
  - rewrite IH1 by done. apply IH2. by rewrite <- P1.
Qed.

(** What one pass does to each block of the list. *)
Lemma invalidate_all_spec test satp' bs : by_range test -> forall n m, Forall (present m) bs ->
  exists n' m', invalidate_all test satp' bs (n, m) = Some (n', m') /\
    forall x, m' !! x = (blk ← m !! x; Some (if bool_decide (x ∈ bs) && stale test satp' blk then discard blk else blk)).
Proof.
  intros Ht. induction bs as [|b bs IH]; intros n m Hf; cbn [invalidate_all].
  { exists n, m. split; [done|]. intros x. by destruct (m !! x). }
  apply Forall_cons in Hf as [Hb Hf]. pose proof Hb as [Hb0 [blk E]].
  pose proof (invalidate_block_present test satp' b n m) as Hpr.
  pose proof (invalidate_block_some test satp' b n m blk Hb0 E) as Hs. rewrite Hs in *. cbn [mbind option_bind].
  specialize (Hpr _ Hb eq_refl). destruct (stale test satp' blk) eqn:St; cbn [snd] in Hpr.
  - destruct (IH (u32 (n + 1)) (<[b := discard blk]> m)) as (n' & m' & -> & Hm);
      [by eapply Forall_impl|]. exists n', m'. split; [done|]. intros x. rewrite Hm.
    destruct (decide (x = b)) as [->|Hne].
    + rewrite lookup_insert_eq, E. cbn [mbind option_bind]. rewrite St, (bool_decide_true (b ∈ b :: bs)) by by left.
      unfold stale, discard. cbn [satp invalidated negb]. by rewrite andb_false_r, andb_false_r.
    + rewrite lookup_insert_ne by done. destruct (m !! x); [|done]. cbn [mbind option_bind].
      by rewrite (bool_decide_ext (x ∈ bs) (x ∈ b :: bs)) by set_solver.
  - destruct (IH n m Hf) as (n' & m' & -> & Hm). exists n', m'. split; [done|]. intros x. rewrite Hm.
    destruct (m !! x) as [bx|] eqn:Ex; [|done]. cbn [mbind option_bind].
    destruct (decide (x = b)) as [->|Hne]; [|by rewrite (bool_decide_ext (x ∈ bs) (x ∈ b :: bs)) by set_solver].
    assert (bx = blk) as -> by congruence. by rewrite St, !andb_false_r.
Qed.

(** Blocks that cannot pass the test can be left out of the list. *)
Lemma invalidate_all_filter (P : Z -> Prop) `{forall b, Decision (P b)} test test' satp' (blocks : gmap Z jit_block) bs :
  by_range test -> by_range test' ->
  (forall b, b ∈ bs -> exists blk, blocks !! b = Some blk /\ b <> 0 /\
    test blk = (bool_decide (P b) && test' blk)) ->
  forall n m, (forall x, pc_start <$> m !! x = pc_start <$> blocks !! x) ->
  (forall x, pc_end <$> m !! x = pc_end <$> blocks !! x) ->
  invalidate_all test satp' bs (n, m) = invalidate_all test' satp' (filter P bs) (n, m).
Proof.
  intros Ht Ht'. induction bs as [|b bs IH]; intros Hb n m Hs He; [done|].
  destruct (Hb b) as (blk & E & Hb0 & Htb); [by left|].
  assert (exists bm, m !! b = Some bm /\ pc_start bm = pc_start blk /\ pc_end bm = pc_end blk) as (bm & Em & H1 & H2).
  { pose proof (Hs b) as Hsb. pose proof (He b) as Heb. rewrite E in Hsb, Heb.
    destruct (m !! b) as [bm|]; [|done]. exists bm. by simplify_eq/=. }
  rewrite (Ht blk bm), (Ht' blk bm) in Htb by done.
  cbn [invalidate_all]. rewrite (invalidate_block_some _ _ _ _ _ _ Hb0 Em). unfold stale at 1. rewrite Htb.
  destruct (decide (P b)) as [Hp|Hp].
  - rewrite bool_decide_true, filter_cons_True by done. cbn [invalidate_all andb].
    rewrite (invalidate_block_some _ _ _ _ _ _ Hb0 Em). fold (stale test' satp' bm). cbn [mbind option_bind].
    destruct (stale test' satp' bm); [|apply IH; [|done..]; intros x Hx; by apply Hb; right].
    apply IH; [intros x Hx; by apply Hb; right|..]; intros x; (destruct (decide (x = b)) as [->|];
      [rewrite lookup_insert_eq, E; cbn; congruence|by rewrite lookup_insert_ne]).
  - rewrite bool_decide_false, filter_cons_False by done. cbn [andb]. rewrite andb_false_r.
    cbn [mbind option_bind]. apply IH; [|done..]. intros x Hx. apply Hb. by right.
Qed.

Lemma live_values_contents c n : cache_inv c n -> live_values (entries c) (lru c) = Some (contents c).*2.
Proof.
  intros H. pose proof (ci_store _ _ H) as Hs. unfold contents. revert Hs. generalize (lru c) as l.
  induction l as [|a l IH]; intros Hs; cbn [live_values omap list_omap]; [done|].
  destruct (Hs a) as [e E]; [by left|]. unfold kv at 1. rewrite E. cbn [mbind option_bind fmap option_fmap option_map].
  rewrite IH; [done|]. intros x Hx. apply Hs. by right.
Qed.

(** A block that the translator cut at the end of its page. *)
Definition one_page (blk : jit_block) : Prop := page_of (last_byte blk) = page_of (pc_start blk).

Lemma overlaps_one_page va blk : one_page blk -> overlaps_page va blk = in_page va blk.
Proof. unfold overlaps_page, in_page. intros ->. lia. Qed.

(** C36: invalidation of a page.  On a well-formed cache whose page index is sound and whose
    blocks lie in one page each, [cache_invalidate_va] ends without undefined behaviour, gives
    the same count and marks the same blocks whether it looks in the page index or scans the
    cache, and marks exactly the live blocks of the address space that overlap the page. *)
Theorem cache_invalidate_va_exact blocks c va satp' :
  cache_wf c -> index_sound blocks c ->
  (forall k b, (k, b) ∈ contents c -> b <> 0 /\ exists blk, blocks !! b = Some blk /\ one_page blk) ->
  exists n blocks', cache_invalidate_va c blocks va satp' = Some (n, blocks') /\
    invalidate_va_scan c blocks va satp' = Some (n, blocks') /\
    forall b, blocks' !! b = (blk ← blocks !! b;
      Some (if bool_decide (b ∈ (contents c).*2) && stale (overlaps_page va) satp' blk then discard blk else blk)).
Proof.
  intros H [Hl Hi] Hb. assert (forall b, b ∈ (contents c).*2 -> b <> 0 /\ exists blk, blocks !! b = Some blk /\ one_page blk) as Hb'.
  { intros b ([k b'] & -> & Hk)%list_elem_of_fmap. by apply (Hb k). }
  unfold cache_invalidate_va, invalidate_va_scan. rewrite (live_values_contents c 0 H). cbn [mbind option_bind].
  destruct (ci_bits _ _ H) as [? Hc].
  destruct (Z.eqb_spec (capacity c) 0) as [Hz|_]; [pose proof (Z.pow_pos_nonneg 2 (cache_size_bits c)); lia|].
  destruct (invalidate_all_spec (overlaps_page va) satp' (contents c).*2 (overlaps_page_range va) 0 blocks)
    as (n & m & E & Hm).
  { apply Forall_forall. intros b Hbin. destruct (Hb' b Hbin) as (? & blk & ? & _). split; eauto. }
  exists n, m. split_and!; [|done|done]. destruct Hi as [->|Hi]; [done|]. destruct (page_index_incomplete c); [done|].
  cbn [negb]. unfold invalidate_va_indexed. destruct (page_index_hash_some (page_of va)) as (i & Hh & Hlt).
  rewrite Hh. cbn [mbind option_bind]. destruct (lookup_lt_is_Some_2 (page_index c) i) as [bk Ebk]; [lia|].
  rewrite Ebk. cbn [mbind option_bind]. pose proof (Hi i bk Ebk) as Hp.
  rewrite (invalidate_all_perm _ _ _ _ Hp), <- E; cbn [snd].
  - symmetry. apply (invalidate_all_filter (fun b => home blocks b = Some i) _ _ _ blocks);
      auto using overlaps_page_range, in_page_range. intros b Hbin. destruct (Hb' b Hbin) as (? & blk & Eb & Ho).
    exists blk. split_and!; [done..|]. rewrite overlaps_one_page by done. unfold in_page, home. rewrite Eb.
    cbn [mbind option_bind]. destruct (Z.eqb_spec (page_of (pc_start blk)) (page_of va)) as [->|]; [|by rewrite andb_false_r].
    by rewrite bool_decide_true.
  - rewrite Hp. apply Forall_forall. intros b [_ Hbin]%list_elem_of_filter.
    destruct (Hb' b Hbin) as (? & blk & ? & _). split; eauto.
Qed.

(** * Concrete caches *)

Lemma cache_create_wf bits blocks c :
  0 < bits -> cache_create true bits = Some c ->
  cache_wf c /\ index_sound blocks c /\ contents c = [] /\ entries c = ∅ /\ capacity c = 2 ^ bits.
Proof.
  unfold cache_create. intros H0. destruct (Z.leb_spec 32 bits) as [|Hlt]; [done|]. cbn [negb]. intros Hc%Some_inj.
  subst c. rewrite Z.shiftl_1_l. pose proof (Z.pow_pos_nonneg 2 bits). split_and!; try done.
  - split; cbn [cache_size_bits capacity ht_list_head lru ghosts entries size ghost_list_size]; try done; try (cbn; lia).
    + by rewrite length_replicate.
    + constructor.
    + intros a Ha. by apply not_elem_of_nil in Ha.
    + intros i chain a [-> _]%lookup_replicate. split; [intros Ha; by apply not_elem_of_nil in Ha|].
      intros (e & E & _). done.
  - split; [by cbn [page_index]; rewrite length_replicate|]. right. intros i bucket. cbn [page_index].
    by intros [-> _]%lookup_replicate.
Qed.

(** Two blocks of one address space, in pages 1 and 2. *)
Definition demo_blocks : gmap Z jit_block :=
  <[8 := mk_jit_block 4096 4108 1 false true]> (<[16 := mk_jit_block 8192 8200 1 false true]> ∅).

(** A cache that holds the first of them. *)
Lemma demo_cache : exists c, cache_wf c /\ index_sound demo_blocks c /\ contents c = [(4096, 8)].
Proof.
  destruct (cache_create true 1) as [c0|] eqn:E0; [|done].
  destruct (cache_create_wf 1 demo_blocks c0) as (H & Hi & C & He & Hc); [done..|].
  destruct (put_new_correct 1 true demo_blocks None c0 0 4096 8) as (c & E & Hw & C' & L & F & I); try done.
  - lia.
  - by rewrite He.
  - by rewrite C.
  - rewrite Hc, <- (length_contents c0 0 H), C. done.
  - exists c. split_and!; [done|by eapply (index_sound_put _ c0 c0 c true)|by rewrite C', C].
Qed.

Lemma cache_get_correct_witness :
  exists c, cache_wf c /\ contents c = [(4096, 8)] /\
    exists c', cache_get c 4096 true = Some (Some 8, c') /\ contents c' = [(4096, 8)].
Proof.
  destruct demo_cache as (c & H & _ & C). exists c. split_and!; [done..|].
  destruct (cache_get_correct c 4096 true H) as (c' & E & _ & C' & _).
  exists c'. rewrite E, C', C. done.
Defined.

Lemma cache_put_bounded_witness :
  exists c n, cache_wf c /\ contents c = [(4096, 8)] /\
    exists r c', cache_put (Some n) true demo_blocks c 4096 16 = Some (r, c') /\
      bounded_put (capacity c) [(4096, 8)] 4096 16 r (contents c').
Proof.
  destruct demo_cache as (c & H & _ & C). exists c, (fresh (dom (entries c))). split_and!; [done..|].
  destruct (cache_put_bounded (fresh (dom (entries c))) true demo_blocks c 4096 16 H) as (r & c' & E & _ & F & _).
  - apply not_elem_of_dom, is_fresh.
  - by rewrite C.
  - done.
  - rewrite C. intros k v [= -> ->]%list_elem_of_singleton. done.
  - done.
  - exists r, c'. rewrite C in F. split; [exact E|exact F].
Defined.

Lemma cache_invalidate_va_exact_witness :
  exists c, cache_wf c /\ contents c = [(4096, 8)] /\
    exists n blocks', cache_invalidate_va c demo_blocks 5000 1 = Some (n, blocks') /\
      blocks' !! 8 = Some (mk_jit_block 4096 4108 1 true false) /\
      blocks' !! 16 = Some (mk_jit_block 8192 8200 1 false true).
Proof.
  destruct demo_cache as (c & H & Hi & C). exists c. split_and!; [done..|].
  destruct (cache_invalidate_va_exact demo_blocks c 5000 1 H Hi) as (n & b' & E & _ & Hb).
  - rewrite C. intros k b [= -> ->]%list_elem_of_singleton. split; [done|]. by eexists.
  - exists n, b'. rewrite !Hb, C. done.
Defined.

(** A cache of two entries evicts the block at 4096 although it was looked up last. *)
Definition three_blocks : gmap Z jit_block :=
  <[24 := mk_jit_block 12288 12292 1 false true]> demo_blocks.
Lemma lookup_does_not_protect :
  (c0 ← cache_create true 1;
   '(_, c1) ← cache_put (Some 1) true three_blocks c0 4096 8;
   '(_, c2) ← cache_put (Some 2) true three_blocks c1 8192 16;
   '(_, c3) ← cache_get c2 4096 true;
   '(r, c4) ← cache_put (Some 3) true three_blocks c3 12288 24;
   Some (r, contents c4)) = Some (Some 8, [(12288, 24); (8192, 16)]).
Proof. by vm_compute. Qed.

(** When the allocation of an entry fails, [cache_put] takes the victim back into the cache
    but not into the page index, which still counts as complete: a later invalidation of its
    page misses it. *)
Lemma put_failure_hides_block :
  (c0 ← cache_create true 1;
   '(_, c1) ← cache_put (Some 1) true demo_blocks c0 4096 8;
   '(r, c2) ← cache_put None true demo_blocks c1 4096 16;
   '(n, _) ← cache_invalidate_va c2 demo_blocks 4096 1;
   '(n', _) ← invalidate_va_scan c2 demo_blocks 4096 1;
   Some (r, contents c2, page_index_incomplete c2, n, n'))
  = Some (None, [(4096, 8)], false, 0, 1).
Proof. by vm_compute. Qed.
(** Without the failure, the same steps invalidate it. *)
Lemma put_success_finds_block :
  (c0 ← cache_create true 1;
   '(_, c1) ← cache_put (Some 1) true demo_blocks c0 4096 8;
   '(n, _) ← cache_invalidate_va c1 demo_blocks 4096 1; Some n) = Some 1.
Proof. by vm_compute. Qed.
