(* ===== verification/GuestRam.v ===== *)
(** Guest RAM with demand paging, src/src/io.c and io.h, for hosts with mmap: RAM is mapped
    without access rights, the handler of SIGSEGV enables the 64 KiB chunk an access falls in,
    and [memory_gc] takes chunks that hold only zeros back.  Also the checked block operations
    [memory_write] and [memory_fill] on the flat memory of Machine.v.

    The file-scope variables and the protection of the mapping are the state; the answers of
    the host (installation of handlers, mmap, mprotect) are arguments.  [None] is an access
    that kills the process. *)

From S2P Require Import Prelude.
From S2P Require Import Opcode.
From S2P Require Import Decode.
From S2P Require Import Machine.

Definition CHUNK_SHIFT : Z := 16.
Definition CHUNK_SIZE : Z := 0x10000.
Definition CHUNK_MASK : Z := u64 (Z.lnot (CHUNK_SIZE - 1)).
Definition MAX_CHUNKS : Z := 0x10000.
Definition BITMAP_SIZE : Z := 0x2000.

Record paged := mk_paged {
  page_bytes : gmap Z Z;            (* what is written through data_memory_base *)
  accessible : gset Z;              (* the chunks mapped PROT_READ | PROT_WRITE *)
  data_memory_size : Z;
  chunk_bitmap : list Z;
  gc_scan_idx : Z;
  active_chunks : Z;
  peak_chunks : Z }.

(** * The bitmap of active chunks *)

Definition bitmap_test (idx : Z) (bm : list Z) : option bool :=
  b ← bm !! Z.to_nat (Z.shiftr idx 3);
  Some (truth (Z.land b (Z.shiftl 1 (Z.land idx 7)))).
Definition bitmap_set (idx : Z) (bm : list Z) : option (list Z) :=
  b ← bm !! Z.to_nat (Z.shiftr idx 3);
  Some (<[Z.to_nat (Z.shiftr idx 3) := u8 (Z.lor b (Z.shiftl 1 (Z.land idx 7)))]> bm).
Definition bitmap_clear (idx : Z) (bm : list Z) : option (list Z) :=
  b ← bm !! Z.to_nat (Z.shiftr idx 3);
  Some (<[Z.to_nat (Z.shiftr idx 3) := u8 (Z.land b (Z.lnot (Z.shiftl 1 (Z.land idx 7))))]> bm).

(** * Faults *)

(** [fault_addr] is relative to [data_memory_base].  A fault outside of RAM, or whose chunk
    cannot be enabled, goes to the previous handler. *)
Definition memory_fault_handler (mprotect_ok : bool) (fault_addr : Z) (p : paged) : option paged :=
  if (0 <=? fault_addr) && (fault_addr <? data_memory_size p) then
    let aligned_offset := Z.land fault_addr CHUNK_MASK in
    let chunk_idx := u32 (Z.shiftr aligned_offset CHUNK_SHIFT) in
    if mprotect_ok then
      is_set ← bitmap_test chunk_idx (chunk_bitmap p);
      let acc := {[Z.shiftr aligned_offset CHUNK_SHIFT]} ∪ accessible p in
      if negb is_set then
        bm ← bitmap_set chunk_idx (chunk_bitmap p);
        let current := u64 (active_chunks p + 1) in
        Some (mk_paged (page_bytes p) acc (data_memory_size p) bm (gc_scan_idx p) current
          (if peak_chunks p <? current then current else peak_chunks p))
      else
        Some (mk_paged (page_bytes p) acc (data_memory_size p) (chunk_bitmap p) (gc_scan_idx p)
          (active_chunks p) (peak_chunks p))
    else None
  else None.

(** An access to a byte: the instruction is repeated after the handler returned. *)
Definition touch (mprotect_ok : bool) (addr : Z) (p : paged) : option paged :=
  if decide (0 <= addr < data_memory_size p /\ Z.shiftr addr CHUNK_SHIFT ∈ accessible p) then Some p
  else memory_fault_handler mprotect_ok addr p.

Definition paged_byte (p : paged) (addr : Z) : Z := default 0 (page_bytes p !! addr).

Definition memory_read_b (ok : bool) (addr : Z) (p : paged) : option (Z * paged) :=
  p ← touch ok addr p; Some (paged_byte p addr, p).
Definition memory_write_b (ok : bool) (addr v : Z) (p : paged) : option paged :=
  p ← touch ok addr p;
  Some (mk_paged (<[addr := u8 v]> (page_bytes p)) (accessible p) (data_memory_size p)
    (chunk_bitmap p) (gc_scan_idx p) (active_chunks p) (peak_chunks p)).

(** The wider accesses copy byte by byte. *)
Fixpoint memory_read_n (ok : bool) (n : nat) (addr : Z) (p : paged) : option (Z * paged) :=
  match n with
  | O => Some (0, p)
  | S n =>
      '(b, p) ← memory_read_b ok addr p;
      '(v, p) ← memory_read_n ok n (addr + 1) p;
      Some (b + 0x100 * v, p)
  end.
Fixpoint memory_write_n (ok : bool) (n : nat) (addr v : Z) (p : paged) : option paged :=
  match n with
  | O => Some p
  | S n => p ← memory_write_b ok addr v p; memory_write_n ok n (addr + 1) (v / 0x100) p
  end.
Definition memory_read_w ok := memory_read_n ok 4.
Definition memory_read_s ok := memory_read_n ok 2.
Definition memory_ifetch ok := memory_read_n ok 4.
Definition memory_write_w ok := memory_write_n ok 4.
Definition memory_write_s ok := memory_write_n ok 2.

(** * Creation *)

Definition memory_new (size : Z) (malloc_ok handlers_ok mmap_ok : bool) : option paged :=
  if size =? 0 then None
  else if 0x100000000 <? size then None
  else if negb malloc_ok then None
  else if negb handlers_ok then None
  else if negb mmap_ok then None
  else Some (mk_paged ∅ ∅ size (replicate (Z.to_nat BITMAP_SIZE) 0) 0 0 0).

(** * Reclaiming *)

Definition max_idx (p : paged) : Z := u32 (Z.shiftr (u64 (data_memory_size p + CHUNK_SIZE - 1)) CHUNK_SHIFT).

Definition memory_get_usage (p : paged) : Z :=
  let chunks := if peak_chunks p <? max_idx p then u32 (peak_chunks p) else max_idx p in
  u64 (chunks * CHUNK_SIZE).

(** The bytes of a chunk, with SIGSEGV blocked. *)
Fixpoint is_region_zero (p : paged) (ptr : Z) (size : nat) : option bool :=
  match size with
  | O => Some true
  | S size =>
      if decide (Z.shiftr ptr CHUNK_SHIFT ∈ accessible p) then
        if negb (paged_byte p ptr =? 0) then Some false else is_region_zero p (ptr + 1) size
      else None
  end.

(** [madvise(MADV_DONTNEED)]: the pages read as zero from now on. *)
Definition drop_pages (ptr len : Z) (bytes : gmap Z Z) : gmap Z Z :=
  filter (fun kv => ~ (ptr <= kv.1 < ptr + len)) bytes.

Definition gc_chunk (mprotect_ok : bool) (idx : Z) (p : paged) : option paged :=
  let chunk_ptr := Z.shiftl idx CHUNK_SHIFT in
  let chunk_len := if data_memory_size p <? chunk_ptr + CHUNK_SIZE then data_memory_size p - chunk_ptr
                   else CHUNK_SIZE in
  zero ← is_region_zero p chunk_ptr (Z.to_nat chunk_len);
  if zero && mprotect_ok then
    bm ← bitmap_clear idx (chunk_bitmap p);
    Some (mk_paged (drop_pages chunk_ptr chunk_len (page_bytes p)) (accessible p ∖ {[idx]})
      (data_memory_size p) bm (gc_scan_idx p)
      (if 0 <? active_chunks p then u64 (active_chunks p - 1) else active_chunks p) (peak_chunks p))
  else Some p.

Definition set_gc_scan_idx (i : Z) (p : paged) : paged :=
  mk_paged (page_bytes p) (accessible p) (data_memory_size p) (chunk_bitmap p) i (active_chunks p)
    (peak_chunks p).

Definition memory_gc (mprotect_ok : bool) (p : paged) : option paged :=
  let idx := gc_scan_idx p in
  let m := if MAX_CHUNKS <? max_idx p then MAX_CHUNKS else max_idx p in
  if m <=? idx then Some (set_gc_scan_idx 0 p)
  else
    is_set ← bitmap_test idx (chunk_bitmap p);
    p ← (if is_set : bool then gc_chunk mprotect_ok idx p else Some p);
    Some (set_gc_scan_idx ((idx + 1) mod m) p).

(** * Checked block operations *)

Fixpoint store_bytes (m : memory_t) (addr : Z) (bs : list Z) : memory_t :=
  match bs with
  | [] => m
  | b :: bs => store_bytes (mk_memory (<[addr := b]> (mem_base m)) (mem_size m)) (addr + 1) bs
  end.

(** [src] holds the bytes at the source, [None] when some of them cannot be read. *)
Definition memory_write (m : memory_t) (addr : Z) (src : option (list Z)) (size : Z)
    : option (bool * memory_t) :=
  if (mem_size m <=? addr) || (mem_size m - addr <? size) then Some (false, m)
  else bs ← src; Some (true, store_bytes m addr bs).

Definition memory_fill (m : memory_t) (addr size val : Z) : bool * memory_t :=
  if (mem_size m <=? addr) || (mem_size m - addr <? size) then (false, m)
  else (true, store_bytes m addr (replicate (Z.to_nat size) val)).

(** [memory_read], without a check. *)
Fixpoint read_block (m : memory_t) (addr : Z) (n : nat) : list Z :=
  match n with O => [] | S n => byte_at m addr :: read_block m (addr + 1) n end.
Definition memory_read (m : memory_t) (addr size : Z) : option (list Z) :=
  if (size =? 0) || (addr + size <=? mem_size m) then Some (read_block m addr (Z.to_nat size)) else None.
