(* ===== verification/GuestRamProofs.v ===== *)
(** Demand paging and reclaiming of guest RAM are invisible: the paged memory of io.c behaves
    as a flat memory of zeros. *)

From S2P Require Import Prelude.
From S2P Require Import Opcode.
From S2P Require Import Decode.
From S2P Require Import Machine.
From S2P Require Import MachineFacts.
From S2P Require Import GuestRam.

(** * The bitmap *)

Lemma bit_shape idx : Z.shiftr idx 3 = idx / 8 /\ Z.shiftl 1 (Z.land idx 7) = 2 ^ (idx mod 8) /\ 0 <= idx mod 8 < 8.
Proof.
  rewrite Z.shiftr_div_pow2 by done. change 7 with (Z.ones 3). rewrite Z.land_ones by done.
  rewrite Z.shiftl_1_l. split_and!; [done..| |]; mlia.
Qed.

Lemma bitmap_test_spec idx bm :
  bitmap_test idx bm = (fun b => Z.testbit b (idx mod 8)) <$> bm !! Z.to_nat (idx / 8).
Proof.
  unfold bitmap_test. destruct (bit_shape idx) as (-> & -> & H). destruct (bm !! _) as [b|]; [|done].
  cbn [mbind option_bind fmap option_fmap option_map]. by rewrite truth_land_pow2 by lia.
Qed.

(** A write of one bit. *)
Lemma bitmap_update idx j bm b b' :
  0 <= idx -> 0 <= j -> bm !! Z.to_nat (idx / 8) = Some b ->
  (forall i, 0 <= i < 8 -> i <> idx mod 8 -> Z.testbit b' i = Z.testbit b i) ->
  bitmap_test j (<[Z.to_nat (idx / 8) := b']> bm)
    = if decide (j = idx) then Some (Z.testbit b' (idx mod 8)) else bitmap_test j bm.
Proof.
  intros Hi Hj E Hb. rewrite !bitmap_test_spec. pose proof (lookup_lt_Some _ _ _ E) as Hlt.
  destruct (decide (j = idx)) as [->|Hne]; [by rewrite list_lookup_insert_eq|].
  destruct (decide (j / 8 = idx / 8)) as [Heq|Hdiff].
  - rewrite Heq, list_lookup_insert_eq, E by done. cbn. f_equal. apply Hb; mlia.
  - rewrite list_lookup_insert_ne; [done|]. intros H%Z2Nat.inj; [done|mlia..].
Qed.

Section Bits.
Context (bm : list Z) (Hl : length bm = Z.to_nat BITMAP_SIZE) (idx : Z) (Hi : 0 <= idx < MAX_CHUNKS).

Lemma bitmap_byte : exists b, bm !! Z.to_nat (idx / 8) = Some b.
Proof.
  apply lookup_lt_is_Some_2. rewrite Hl. unfold BITMAP_SIZE, MAX_CHUNKS in *.
  apply Z2Nat.inj_lt; mlia.
Qed.

Lemma bitmap_set_spec : exists bm', bitmap_set idx bm = Some bm' /\ length bm' = length bm /\
  forall j, 0 <= j -> bitmap_test j bm' = if decide (j = idx) then Some true else bitmap_test j bm.
Proof.
  destruct bitmap_byte as [b E]. unfold bitmap_set. destruct (bit_shape idx) as (-> & -> & H). rewrite E.
  cbn [mbind option_bind]. eexists. split_and!; [done|by rewrite length_insert|]. intros j Hj.
  rewrite (bitmap_update idx j bm b); [|lia|lia|done|].
  - by rewrite testbit_u8, Z.lor_spec, Z.pow2_bits_true, orb_true_r, andb_true_r, (proj2 (Z.ltb_lt _ _)) by lia.
  - intros i Hi8 Hne. rewrite testbit_u8, Z.lor_spec, Z.pow2_bits_false, orb_false_r by lia.
    by rewrite (proj2 (Z.ltb_lt _ _)) by lia.
Qed.

Lemma bitmap_clear_spec : exists bm', bitmap_clear idx bm = Some bm' /\ length bm' = length bm /\
  forall j, 0 <= j -> bitmap_test j bm' = if decide (j = idx) then Some false else bitmap_test j bm.
Proof.
  destruct bitmap_byte as [b E]. unfold bitmap_clear. destruct (bit_shape idx) as (-> & -> & H). rewrite E.
  cbn [mbind option_bind]. eexists. split_and!; [done|by rewrite length_insert|]. intros j Hj.
  rewrite (bitmap_update idx j bm b); [|lia|lia|done|].
  - by rewrite testbit_u8, Z.land_spec, Z.lnot_spec, Z.pow2_bits_true, andb_false_r, andb_false_r by lia.
  - intros i Hi8 Hne. rewrite testbit_u8, Z.land_spec, Z.lnot_spec, Z.pow2_bits_false, andb_true_r by lia.
    by rewrite (proj2 (Z.ltb_lt _ _)) by lia.
Qed.
End Bits.

(** * The invariant *)

Record paged_wf (p : paged) : Prop := {
  pg_size : 0 < data_memory_size p <= 0x100000000;
  pg_len : length (chunk_bitmap p) = Z.to_nat BITMAP_SIZE;
  pg_bits : forall i, 0 <= i < MAX_CHUNKS ->
    bitmap_test i (chunk_bitmap p) = Some (bool_decide (i ∈ accessible p));
  pg_range : forall i, i ∈ accessible p -> 0 <= i < max_idx p;
  pg_active : active_chunks p = Z.of_nat (size (accessible p));
  pg_peak : active_chunks p <= peak_chunks p <= max_idx p;
  pg_scan : 0 <= gc_scan_idx p }.

Lemma max_idx_spec p : 0 < data_memory_size p <= 0x100000000 ->
  max_idx p = (data_memory_size p + 0xffff) / 0x10000 /\ 0 < max_idx p <= MAX_CHUNKS.
Proof.
  intros H. unfold max_idx, CHUNK_SHIFT, CHUNK_SIZE, MAX_CHUNKS. rewrite Z.shiftr_div_pow2 by done.
  change (2 ^ 16) with 0x10000. unfold u64. rewrite (Z.mod_small (_ + _ - 1)) by lia.
  rewrite u32_small; [|unfold is_u32; mlia]. split; [|mlia]. f_equal. lia.
Qed.

Lemma accessible_bound (X : gset Z) n : 0 <= n -> (forall i, i ∈ X -> 0 <= i < n) -> Z.of_nat (size X) <= n.
Proof.
  intros Hn H. assert (X ⊆ list_to_set (seqZ 0 n)) as Hs.
  { intros i Hi. apply elem_of_list_to_set, elem_of_seqZ. specialize (H i Hi). lia. }
  apply subseteq_size in Hs. rewrite size_list_to_set in Hs by apply NoDup_seqZ.
  rewrite length_seqZ in Hs. lia.
Qed.

Lemma chunk_of_addr p a : 0 < data_memory_size p <= 0x100000000 -> 0 <= a < data_memory_size p ->
  0 <= Z.shiftr a CHUNK_SHIFT < max_idx p.
Proof.
  intros Hs Ha. destruct (max_idx_spec p Hs) as [-> _]. unfold CHUNK_SHIFT.
  rewrite Z.shiftr_div_pow2 by done. change (2 ^ 16) with 0x10000. mlia.
Qed.
Lemma aligned_chunk a : 0 <= a <= 0x100000000 ->
  Z.shiftr (Z.land a CHUNK_MASK) CHUNK_SHIFT = Z.shiftr a CHUNK_SHIFT.
Proof.
  intros Ha. rewrite Z.shiftr_land. change (Z.shiftr CHUNK_MASK CHUNK_SHIFT) with (Z.ones 48).
  rewrite Z.land_ones by done. unfold CHUNK_SHIFT. rewrite Z.shiftr_div_pow2 by done.
  apply Z.mod_small. change (2 ^ 16) with 0x10000. change (2 ^ 48) with 281474976710656. mlia.
Qed.

(** * Accesses *)

(** A state with other counters and rights, the same contents. *)
Lemma enable_chunk_wf p i bm :
  paged_wf p -> 0 <= i < max_idx p -> i ∉ accessible p -> length bm = length (chunk_bitmap p) ->
  (forall j, 0 <= j -> bitmap_test j bm = if decide (j = i) then Some true else bitmap_test j (chunk_bitmap p)) ->
  paged_wf (mk_paged (page_bytes p) ({[i]} ∪ accessible p) (data_memory_size p) bm (gc_scan_idx p)
    (u64 (active_chunks p + 1))
    (if peak_chunks p <? u64 (active_chunks p + 1) then u64 (active_chunks p + 1) else peak_chunks p)).
Proof.
  intros H Hi Hn Hl Hb. destruct (max_idx_spec p (pg_size _ H)) as [_ Hm]. unfold MAX_CHUNKS in Hm.
  assert (forall j, j ∈ {[i]} ∪ accessible p -> 0 <= j < max_idx p) as Hr.
  { intros j [->%elem_of_singleton|Hj]%elem_of_union; [done|by apply (pg_range _ H)]. }
  assert (Z.of_nat (size ({[i]} ∪ accessible p)) = active_chunks p + 1) as Hsz.
  { rewrite size_union, size_singleton by set_solver. rewrite (pg_active _ H). lia. }
  pose proof (accessible_bound _ (max_idx p) ltac:(lia) Hr) as Hle. pose proof (pg_peak _ H) as Hp.
  pose proof (pg_active _ H) as Ha. assert (u64 (active_chunks p + 1) = active_chunks p + 1) as E64
    by (unfold u64; apply Z.mod_small; lia). rewrite E64.
  split; cbn [data_memory_size chunk_bitmap accessible active_chunks peak_chunks gc_scan_idx];
    try exact (pg_size _ H); try exact (pg_scan _ H); try done.
  - rewrite Hl. apply H.
  - intros j Hj. rewrite Hb by lia. destruct (decide (j = i)) as [->|Hne]; [by rewrite bool_decide_true by set_solver|].
    rewrite (pg_bits _ H) by done. f_equal. apply bool_decide_ext. set_solver.
  - change (max_idx _) with (max_idx p). destruct (Z.ltb_spec (peak_chunks p) (active_chunks p + 1)); lia.
Qed.

Lemma touch_spec a p : paged_wf p -> 0 <= a < data_memory_size p ->
  exists p', touch true a p = Some p' /\ paged_wf p' /\ page_bytes p' = page_bytes p /\
    data_memory_size p' = data_memory_size p.
Proof.
  intros H Ha. pose proof (pg_size _ H) as Hs. unfold touch. case_decide as Hd; [by exists p|].
  assert (Z.shiftr a CHUNK_SHIFT ∉ accessible p) as Hn by tauto. clear Hd.
  pose proof (chunk_of_addr p a Hs Ha) as Hc. destruct (max_idx_spec p Hs) as [_ Hm]. unfold memory_fault_handler.
  rewrite (proj2 (Z.leb_le _ _)), (proj2 (Z.ltb_lt _ _)) by lia. cbn [andb].
  rewrite aligned_chunk, u32_small by (unfold is_u32, MAX_CHUNKS in *; lia).
  set (i := Z.shiftr a CHUNK_SHIFT) in *. rewrite (pg_bits _ H), bool_decide_false by (done || lia).
  cbn [mbind option_bind negb].
  destruct (bitmap_set_spec _ (pg_len _ H) i ltac:(lia)) as (bm & -> & Hl & Hb). cbn [mbind option_bind].
  eexists. split_and!; [done| |done..]. by apply enable_chunk_wf.
Qed.

(** The flat memory that the paged one stands for. *)
Definition represents (p : paged) (m : memory_t) : Prop :=
  mem_size m = data_memory_size p /\ forall a, byte_at m a = paged_byte p a.

Lemma read_n_spec n : forall a p m, paged_wf p -> represents p m ->
  0 <= a -> a + Z.of_nat n <= data_memory_size p ->
  exists p', memory_read_n true n a p = Some (load_le m a n, p') /\ paged_wf p' /\ represents p' m.
Proof.
  induction n as [|n IH]; intros a p m H Hr H0 Hn; cbn [memory_read_n load_le]; [by exists p|].
  unfold memory_read_b. destruct (touch_spec a p H) as (p1 & -> & H1 & Eb & Es); [lia|]. cbn [mbind option_bind].
  assert (represents p1 m) as Hr1.
  { destruct Hr as [Hr1 Hr2]. split; [congruence|]. intros x. rewrite Hr2. unfold paged_byte. by rewrite Eb. }
  destruct (IH (a + 1) p1 m H1 Hr1) as (p2 & -> & H2 & Hr2); [lia..|]. cbn [mbind option_bind].
  exists p2. by rewrite (proj2 Hr1 a).
Qed.

Lemma write_n_spec n : forall a v p m, paged_wf p -> represents p m ->
  0 <= a -> a + Z.of_nat n <= data_memory_size p ->
  exists p', memory_write_n true n a v p = Some p' /\ paged_wf p' /\ represents p' (store_le m a n v).
Proof.
  induction n as [|n IH]; intros a v p m H Hr H0 Hn; cbn [memory_write_n store_le]; [by exists p|].
  unfold memory_write_b. destruct (touch_spec a p H) as (p1 & -> & H1 & Eb & Es); [lia|]. cbn [mbind option_bind].
  apply IH; cbn [data_memory_size]; [..|lia|lia].
  - destruct H1. by split.
  - destruct Hr as [Hr1 Hr2]. split; [cbn; congruence|]. intros x. unfold byte_at, paged_byte. cbn [mem_base page_bytes].
    rewrite Eb. destruct (decide (x = a)) as [->|]; [by rewrite !lookup_insert_eq|].
    rewrite !lookup_insert_ne by done. apply Hr2.
Qed.

(** * Reclaiming *)

Lemma region_zero_spec p n : forall a,
  (forall x, a <= x < a + Z.of_nat n -> Z.shiftr x CHUNK_SHIFT ∈ accessible p) ->
  exists z, is_region_zero p a n = Some z /\
    (z = true -> forall x, a <= x < a + Z.of_nat n -> paged_byte p x = 0).
Proof.
  induction n as [|n IH]; intros a Ha; cbn [is_region_zero]; [exists true; split; [done|lia]|].
  rewrite decide_True by (apply Ha; lia). destruct (Z.eqb_spec (paged_byte p a) 0) as [Ez|]; cbn [negb]; [|by exists false].
  destruct (IH (a + 1)) as (z & -> & Hz); [intros x Hx; apply Ha; lia|]. exists z. split; [done|].
  intros -> x Hx. destruct (decide (x = a)) as [->|]; [done|apply Hz; [done|lia]].
Qed.

Lemma drop_pages_spec a len b x :
  default 0 (drop_pages a len b !! x) = if decide (a <= x < a + len) then 0 else default 0 (b !! x).
Proof.
  unfold drop_pages. rewrite map_lookup_filter. destruct (b !! x) as [v|] eqn:E; cbn [mbind option_bind].
  - destruct (decide (a <= x < a + len)) as [Hx|Hx].
    + rewrite option_guard_False; [done|]. cbn. tauto.
    + rewrite option_guard_True; [done|]. by cbn.
  - by destruct (decide _).
Qed.

Lemma shiftr_chunk i x : 0 <= i -> i * 0x10000 <= x < i * 0x10000 + 0x10000 -> Z.shiftr x CHUNK_SHIFT = i.
Proof. intros Hi Hx. unfold CHUNK_SHIFT. rewrite Z.shiftr_div_pow2 by done. change (2 ^ 16) with 0x10000. mlia. Qed.

Lemma gc_chunk_spec ok i p : paged_wf p -> i ∈ accessible p ->
  exists p', gc_chunk ok i p = Some p' /\ paged_wf p' /\ data_memory_size p' = data_memory_size p /\
    forall a, paged_byte p' a = paged_byte p a.
Proof.
  intros H Hi. pose proof (pg_range _ H i Hi) as Hr. destruct (max_idx_spec p (pg_size _ H)) as [Em Hm].
  unfold gc_chunk. rewrite Z.shiftl_mul_pow2 by done. change (2 ^ CHUNK_SHIFT) with 0x10000.
  set (len := if _ <? _ then _ else _).
  assert (0 < len <= 0x10000) as Hlen.
  { subst len. unfold CHUNK_SIZE. destruct (Z.ltb_spec (data_memory_size p) (i * 0x10000 + 0x10000)); [|lia].
    rewrite Em in Hr. mlia. }
  destruct (region_zero_spec p (Z.to_nat len) (i * 0x10000)) as (z & -> & Hz).
  { intros x Hx. rewrite (shiftr_chunk i) by lia. done. }
  cbn [mbind option_bind]. destruct z; cbn [andb]; [|by exists p]. destruct ok; [|by exists p].
  destruct (bitmap_clear_spec _ (pg_len _ H) i ltac:(lia)) as (bm & -> & Hl & Hb). cbn [mbind option_bind].
  eexists. split_and!; [done| |done|].
  - assert (Z.of_nat (size (accessible p ∖ {[i]})) = active_chunks p - 1 /\ 0 < active_chunks p) as [Hsz Hpos].
    { rewrite (pg_active _ H), size_difference, size_singleton by set_solver.
      assert (size (accessible p) <> 0%nat) by (apply size_non_empty_iff; set_solver). lia. }
    pose proof (pg_peak _ H). unfold MAX_CHUNKS in *. rewrite (proj2 (Z.ltb_lt _ _)) by lia.
    assert (u64 (active_chunks p - 1) = active_chunks p - 1) as -> by (unfold u64; apply Z.mod_small; lia).
    split; cbn [data_memory_size chunk_bitmap accessible active_chunks peak_chunks gc_scan_idx];
    try exact (pg_size _ H); try exact (pg_scan _ H); try done.
    + rewrite Hl. apply H.
    + intros j Hj. rewrite Hb by lia. destruct (decide (j = i)) as [->|]; [by rewrite bool_decide_false by set_solver|].
      rewrite (pg_bits _ H) by done. f_equal. apply bool_decide_ext. set_solver.
    + intros j [Hj _]%elem_of_difference. by apply (pg_range _ H).
    + change (max_idx _) with (max_idx p). lia.
  - intros a. unfold paged_byte at 1. cbn [page_bytes]. rewrite drop_pages_spec. case_decide as Ha; [|done].
    symmetry. apply Hz; [done|lia].
Qed.

Lemma memory_gc_spec ok p : paged_wf p ->
  exists p', memory_gc ok p = Some p' /\ paged_wf p' /\ data_memory_size p' = data_memory_size p /\
    forall a, paged_byte p' a = paged_byte p a.
Proof.
  intros H. destruct (max_idx_spec p (pg_size _ H)) as [_ Hm].
  assert (forall q j, paged_wf q -> 0 <= j -> paged_wf (set_gc_scan_idx j q)) as Hset by (intros q j [] Hj; by split).
  unfold memory_gc. rewrite (proj2 (Z.ltb_ge _ _)) by lia.
  destruct (Z.leb_spec (max_idx p) (gc_scan_idx p)); [eexists; split_and!; [done|by apply Hset|done..]|].
  pose proof (pg_scan _ H). rewrite (pg_bits _ H) by lia. cbn [mbind option_bind].
  destruct (bool_decide_reflect (gc_scan_idx p ∈ accessible p)) as [Hin|].
  - destruct (gc_chunk_spec ok _ p H Hin) as (p' & -> & H' & Es & Eb). cbn [mbind option_bind].
    eexists. split_and!; [done| |done|done]. apply Hset; [done|mlia].
  - cbn [mbind option_bind]. eexists. split_and!; [done| |done|done]. apply Hset; [done|mlia].
Qed.

(** * Sequences of operations *)

Inductive ram_op := Load (n : nat) (a : Z) | Store (n : nat) (a v : Z) | Gc (mprotect_ok : bool).

(** What the loads return, by the paged and by the flat memory. *)
Fixpoint run_paged (ops : list ram_op) (p : paged) : option (list Z * paged) :=
  match ops with
  | [] => Some ([], p)
  | Load n a :: ops =>
      '(v, p) ← memory_read_n true n a p; '(vs, p) ← run_paged ops p; Some (v :: vs, p)
  | Store n a v :: ops => p ← memory_write_n true n a v p; run_paged ops p
  | Gc ok :: ops => p ← memory_gc ok p; run_paged ops p
  end.
Fixpoint run_flat (ops : list ram_op) (m : memory_t) : option (list Z * memory_t) :=
  match ops with
  | [] => Some ([], m)
  | Load n a :: ops => v ← mem_read n m a; '(vs, m) ← run_flat ops m; Some (v :: vs, m)
  | Store n a v :: ops => m ← mem_write n m a v; run_flat ops m
  | Gc _ :: ops => run_flat ops m
  end.

Definition op_addr (o : ram_op) : Prop :=
  match o with Load _ a | Store _ a _ => 0 <= a | Gc _ => True end.

Lemma run_paged_spec ops : forall p m rs m',
  paged_wf p -> represents p m -> Forall op_addr ops -> run_flat ops m = Some (rs, m') ->
  exists p', run_paged ops p = Some (rs, p') /\ paged_wf p' /\ represents p' m'.
Proof.
  induction ops as [|[n a|n a v|ok] ops IH]; intros p m rs m' H Hr Ho E; cbn [run_paged run_flat] in *.
  - injection E as <- <-. by exists p.
  - apply Forall_cons in Ho as [Ha Ho]. unfold mem_read, GUEST_RAM_CONTAINS in E. rewrite (proj1 Hr) in E.
    destruct (Z.ltb_spec a (data_memory_size p)) as [?|?], (Z.leb_spec (Z.of_nat n) (data_memory_size p - a)) as [?|?]; try done.
    cbn [andb mbind option_bind] in E. destruct (run_flat ops m) as [[vs m1]|] eqn:E1; [|done]. injection E as <- <-.
    destruct (read_n_spec n a p m H Hr Ha) as (p1 & -> & Hw1 & Hr1); [lia|]. cbn [mbind option_bind].
    destruct (IH p1 m vs m1 Hw1 Hr1 Ho E1) as (p2 & -> & H2 & Hr2). by exists p2.
  - apply Forall_cons in Ho as [Ha Ho]. unfold mem_write, GUEST_RAM_CONTAINS in E. rewrite (proj1 Hr) in E.
    destruct (Z.ltb_spec a (data_memory_size p)) as [?|?], (Z.leb_spec (Z.of_nat n) (data_memory_size p - a)) as [?|?]; try done.
    cbn [andb mbind option_bind] in E.
    destruct (write_n_spec n a v p m H Hr Ha) as (p1 & -> & Hw1 & Hr1); [lia|]. cbn [mbind option_bind].
    by apply (IH p1 _ rs m' Hw1 Hr1 Ho).
  - apply Forall_cons in Ho as [_ Ho]. destruct (memory_gc_spec ok p H) as (p1 & -> & H1 & Es & Eb).
    cbn [mbind option_bind]. apply (IH p1 m); try done. destruct Hr as [Hr1 Hr2].
    split; [congruence|]. intros x. by rewrite Eb.
Qed.

Lemma memory_new_spec size p : 0 <= size -> memory_new size true true true = Some p ->
  paged_wf p /\ represents p (mk_memory ∅ size) /\ 0 < size <= 0x100000000.
Proof.
  intros H0. unfold memory_new. destruct (Z.eqb_spec size 0); [done|].
  destruct (Z.ltb_spec 0x100000000 size); [done|]. cbn [negb]. intros Hp%Some_inj. subst p.
  assert (0 < size <= 0x100000000) as Hs by lia. split_and!; [|done|lia..].
  split; cbn [data_memory_size chunk_bitmap accessible active_chunks peak_chunks gc_scan_idx]; try done.
  - intros i Hi. rewrite bitmap_test_spec. rewrite lookup_replicate_2.
    + cbn. by rewrite Z.testbit_0_l, bool_decide_false by set_solver.
    + unfold MAX_CHUNKS, BITMAP_SIZE in *. apply Z2Nat.inj_lt; mlia.
  - match goal with |- _ <= _ <= max_idx ?q => destruct (max_idx_spec q) as [_ ?] end; [done|lia].
Qed.

(** Usage is what is active at most at one time: at least the active chunks and no more than
    RAM in whole chunks. *)
Lemma usage_bounds p : paged_wf p ->
  active_chunks p * CHUNK_SIZE <= memory_get_usage p < data_memory_size p + CHUNK_SIZE.
Proof.
  intros H. destruct (max_idx_spec p (pg_size _ H)) as [E Hm]. pose proof (pg_peak _ H) as Hp. pose proof (pg_active _ H).
  unfold memory_get_usage, CHUNK_SIZE, MAX_CHUNKS in *.
  destruct (Z.ltb_spec (peak_chunks p) (max_idx p)) as [Hlt|Hge].
  - rewrite u32_small by (unfold is_u32; lia). unfold u64. rewrite Z.mod_small by lia. mlia.
  - unfold u64. rewrite Z.mod_small by lia. mlia.
Qed.

Lemma run_flat_size ops : forall m rs m', run_flat ops m = Some (rs, m') -> mem_size m' = mem_size m.
Proof.
  induction ops as [|[n a|n a v|ok] ops IH]; intros m rs m' E; cbn [run_flat] in E.
  - by injection E as _ <-.
  - destruct (mem_read n m a); [|done]. cbn [mbind option_bind] in E.
    destruct (run_flat ops m) as [[vs m1]|] eqn:E1; [|done]. injection E as _ <-. by eapply IH.
  - unfold mem_write in E. destruct (GUEST_RAM_CONTAINS _ _ _); [|done]. cbn [mbind option_bind] in E.
    apply IH in E. by rewrite E, store_le_size.
  - by eapply IH.
Qed.

(** C32: demand paging is invisible.  When RAM was created and the host grants access rights,
    any sequence of loads and stores within RAM and of steps of the collector, whether its
    own calls of mprotect succeed or not, ends; its loads return what a flat memory of zeros
    would return; the bitmap, the access rights and the counters agree, and the reported usage
    covers the active chunks and does not exceed RAM rounded up to whole chunks. *)
Theorem paged_ram_transparent ops size p rs m' :
  0 <= size -> memory_new size true true true = Some p ->
  Forall op_addr ops -> run_flat ops (mk_memory ∅ size) = Some (rs, m') ->
  exists p', run_paged ops p = Some (rs, p') /\ paged_wf p' /\ represents p' m' /\
    active_chunks p' * CHUNK_SIZE <= memory_get_usage p' < size + CHUNK_SIZE.
Proof.
  intros H0 Hp Ho E. destruct (memory_new_spec size p H0 Hp) as (H & Hr & Hs).
  destruct (run_paged_spec ops p _ rs m' H Hr Ho E) as (p' & E' & H' & Hr'). exists p'. do 3 (split; [done|]).
  pose proof (usage_bounds p' H') as Hu. replace size with (data_memory_size p'); [done|].
  rewrite <- (proj1 Hr'). by apply run_flat_size in E.
Qed.

Definition demo_ops : list ram_op :=
  [Store 4 0xfffe 0x12345678; Gc true; Load 2 0x10000; Gc true; Load 4 0xfffe].

Lemma paged_ram_transparent_witness :
  exists p p', memory_new 0x30000 true true true = Some p /\
    run_paged demo_ops p = Some ([0x1234; 0x12345678], p') /\
    active_chunks p' * CHUNK_SIZE <= memory_get_usage p'.
Proof.
  destruct (memory_new 0x30000 true true true) as [p|] eqn:E; [|discriminate E].
  destruct (paged_ram_transparent demo_ops 0x30000 p [0x1234; 0x12345678]
    (store_le (mk_memory ∅ 0x30000) 0xfffe 4 0x12345678)) as (p' & E' & _ & _ & Hu & _).
  - lia.
  - exact E.
  - repeat constructor; cbn; lia.
  - by vm_compute.
  - by exists p, p'.
Defined.

(** * Blocks of memory *)

Lemma store_bytes_size bs : forall m a, mem_size (store_bytes m a bs) = mem_size m.
Proof. induction bs as [|b bs IH]; intros m a; cbn [store_bytes]; [done|]. by rewrite IH. Qed.
Lemma store_bytes_spec bs : forall m a x,
  byte_at (store_bytes m a bs) x
  = if decide (a <= x < a + Z.of_nat (length bs)) then default 0 (bs !! Z.to_nat (x - a)) else byte_at m x.
Proof.
  induction bs as [|b bs IH]; intros m a x; cbn [store_bytes length].
  { by rewrite decide_False by lia. }
  rewrite IH, byte_at_insert. destruct m as [mb sz]. destruct (decide (a = x)) as [<-|Hne].
  - rewrite decide_False, (decide_True (P := a <= a < _)) by lia. by rewrite Z.sub_diag.
  - destruct (decide (a + 1 <= x < _)) as [Hx|Hx].
    + rewrite decide_True by lia. replace (Z.to_nat (x - a)) with (S (Z.to_nat (x - (a + 1)))) by lia. done.
    + by rewrite decide_False by lia.
Qed.
Lemma length_read_block m n : forall a, length (read_block m a n) = n.
Proof. induction n as [|n IH]; intros a; cbn [read_block length]; [done|]. by rewrite IH. Qed.
Lemma read_block_app m n2 n1 : forall a,
  read_block m a (n1 + n2) = read_block m a n1 ++ read_block m (a + Z.of_nat n1) n2.
Proof.
  induction n1 as [|n1 IH]; intros a; cbn [read_block Nat.add app].
  - by rewrite Z.add_0_r.
  - rewrite IH. do 3 f_equal. lia.
Qed.
Lemma store_bytes_app bs2 bs1 : forall m a,
  store_bytes m a (bs1 ++ bs2) = store_bytes (store_bytes m a bs1) (a + Z.of_nat (length bs1)) bs2.
Proof.
  induction bs1 as [|b bs1 IH]; intros m a; cbn [store_bytes app length].
  - by rewrite Z.add_0_r.
  - rewrite IH. f_equal. lia.
Qed.
Lemma memory_read_some m a n : 0 <= n -> a + n <= mem_size m -> memory_read m a n = Some (read_block m a (Z.to_nat n)).
Proof. intros Hn Ha. unfold memory_read. by rewrite (proj2 (Z.leb_le (a + n) _)), orb_true_r by lia. Qed.
Lemma memory_write_some m a bs n : 0 <= a < mem_size m -> a + n <= mem_size m ->
  memory_write m a (Some bs) n = Some (true, store_bytes m a bs).
Proof.
  intros Ha Hn. unfold memory_write. by rewrite (proj2 (Z.leb_gt _ _)), (proj2 (Z.ltb_ge _ _)) by lia.
Qed.
Lemma read_block_same n : forall m m' a,
  (forall x, a <= x < a + Z.of_nat n -> byte_at m x = byte_at m' x) -> read_block m a n = read_block m' a n.
Proof.
  induction n as [|n IH]; intros m m' a H; cbn [read_block]; [done|].
  rewrite H by lia. f_equal. apply IH. intros x Hx. apply H. lia.
Qed.
Lemma lookup_read_block m n : forall a k, 0 <= k < Z.of_nat n -> read_block m a n !! Z.to_nat k = Some (byte_at m (a + k)).
Proof.
  induction n as [|n IH]; intros a k Hk; cbn [read_block]; [lia|]. destruct (decide (k = 0)) as [->|].
  - by rewrite Z.add_0_r.
  - replace (Z.to_nat k) with (S (Z.to_nat (k - 1))) by lia. cbn. rewrite IH by lia. do 2 f_equal. lia.
Qed.
Lemma read_block_store bs : forall m a, read_block (store_bytes m a bs) a (length bs) = bs.
Proof.
  induction bs as [|b bs IH]; intros m a; cbn [store_bytes read_block length]; [done|].
  rewrite IH, store_bytes_spec, decide_False by lia. f_equal. destruct m. by rewrite byte_at_insert, decide_True.
Qed.
