(* ===== verification/Elf.v ===== *)
(** The ELF reader and loader, src/src/elf.c and elf.h.

    A file is the list of its bytes; a pointer into the mapped file is an offset, and
    [None] is a read outside of the file or a signed overflow.  A [NULL] result is the inner
    [None].  Structures are read field by field, as the code does. *)

From S2P Require Import Prelude.
From S2P Require Import Opcode.
From S2P Require Import Decode.
From S2P Require Import Machine.
From S2P Require Import GuestRam.
From S2P Require Import RbMap.
From S2P Require Import Utils.

Definition EM_RISCV : Z := 243.
Definition ELFCLASS32 : Z := 1.
Definition EI_CLASS : Z := 4.
Definition PT_LOAD : Z := 1.
Definition STT_NOTYPE : Z := 0.
Definition STT_OBJECT : Z := 1.
Definition STT_FUNC : Z := 2.
Definition SHT_NOBITS : Z := 8.
Definition ELF_ST_TYPE (x : Z) : Z := Z.land x 0xf.

(** * Reading the file *)

Definition file_byte (raw : list Z) (off : Z) : option Z :=
  if off <? 0 then None else raw !! Z.to_nat off.
(** A little-endian field of [n] bytes. *)
Fixpoint field (n : nat) (raw : list Z) (off : Z) : option Z :=
  match n with
  | O => Some 0
  | S n => b ← file_byte raw off; v ← field n raw (off + 1); Some (b + 0x100 * v)
  end.

(** [struct Elf32_Ehdr], at the start of the file. *)
Definition e_ident (i : Z) raw := file_byte raw i.
Definition e_machine raw := field 2 raw 18.
Definition e_entry raw := field 4 raw 24.
Definition e_phoff raw := field 4 raw 28.
Definition e_shoff raw := field 4 raw 32.
Definition e_phentsize raw := field 2 raw 42.
Definition e_phnum raw := field 2 raw 44.
Definition e_shentsize raw := field 2 raw 46.
Definition e_shnum raw := field 2 raw 48.
Definition e_shstrndx raw := field 2 raw 50.
(** [struct Elf32_Phdr] *)
Definition p_type raw off := field 4 raw off.
Definition p_offset raw off := field 4 raw (off + 4).
Definition p_vaddr raw off := field 4 raw (off + 8).
Definition p_filesz raw off := field 4 raw (off + 16).
Definition p_memsz raw off := field 4 raw (off + 20).
(** [struct Elf32_Shdr] *)
Definition sh_name raw off := field 4 raw off.
Definition sh_type raw off := field 4 raw (off + 4).
Definition sh_addr raw off := field 4 raw (off + 12).
Definition sh_offset raw off := field 4 raw (off + 16).
Definition sh_size raw off := field 4 raw (off + 20).
(** [struct Elf32_Sym] *)
Definition SYM_SIZE : Z := 16.
Definition st_name raw off := field 4 raw off.
Definition st_value raw off := field 4 raw (off + 4).
Definition st_info raw off := field 1 raw (off + 12).

(** [base + i * size], where the product of [int] and [uint16_t] is an [int]. *)
Definition table_entry (base i size : Z) : option Z :=
  if i * size <? 0x80000000 then Some (u32 (base + i * size)) else None.

(** Whether [strcmp] of a name and the string at an offset gives 0. *)
Fixpoint streq (name : list Z) (raw : list Z) (off : Z) : option bool :=
  c ← file_byte raw off;
  match name with
  | [] => Some (c =? 0)
  | x :: name => if c =? x then streq name raw (off + 1) else Some false
  end.

(** * The state of a reader *)

(** Keys of the symbol table are [uint32_t] objects. *)
Definition uint32 : Type := { x : Z | u32 x = x }.
Definition to_uint32 (x : Z) : uint32 := exist _ (u32 x) (u32_idem x).
Definition uint32_cmp (a b : uint32) : map_cmp_t := map_cmp_uint (`a) (`b).

Definition symbols_t : Type := option (map_internal uint32 (option Z)).

Record elf_t := mk_elf {
  hdr : bool;                       (* hdr != NULL *)
  raw_size : Z;
  raw_data : option (list Z);
  symbols : symbols_t }.

Section Elf.
(** The host allocator; its answer may depend on the blocks in use. *)
Context (malloc : symbols_t -> Z -> option Z).

Definition elf_new : elf_t :=
  mk_elf false 0 None (map_new (malloc None) 4 8 (Some uint32_cmp)).

Definition release (e : elf_t) : elf_t := mk_elf false 0 None (symbols e).

Definition is_valid (raw : list Z) : option bool :=
  m0 ← e_ident 0 raw; m1 ← e_ident 1 raw; m2 ← e_ident 2 raw; m3 ← e_ident 3 raw;
  if negb ((m0 =? 0x7f) && (m1 =? 0x45) && (m2 =? 0x4c) && (m3 =? 0x46)) then Some false
  else
    class ← e_ident EI_CLASS raw;
    if negb (class =? ELFCLASS32) then Some false
    else
      machine ← e_machine raw;
      Some (machine =? EM_RISCV).

(** * Sections *)

Definition get_sh_string (raw : list Z) (index : Z) : option Z :=
  shoff ← e_shoff raw; ndx ← e_shstrndx raw; entsize ← e_shentsize raw;
  offset ← table_entry shoff ndx entsize;
  o ← sh_offset raw offset;
  Some (o + s32 index).

(** The loop of [get_section_header] from section [s] on, [n] sections left. *)
Fixpoint section_from (raw name : list Z) (n : nat) (s : Z) : option (option Z) :=
  match n with
  | O => Some None
  | S n =>
      shoff ← e_shoff raw; entsize ← e_shentsize raw;
      offset ← table_entry shoff s entsize;
      nm ← sh_name raw offset;
      sname ← get_sh_string raw nm;
      eq ← streq name raw sname;
      if eq : bool then Some (Some offset) else section_from raw name n (s + 1)
  end.
Definition get_section_header (raw name : list Z) : option (option Z) :=
  n ← e_shnum raw; section_from raw name (Z.to_nat n) 0.

(** ".strtab", ".symtab" and ".data" *)
Definition str_strtab : list Z := [46; 115; 116; 114; 116; 97; 98].
Definition str_symtab : list Z := [46; 115; 121; 109; 116; 97; 98].
Definition str_data : list Z := [46; 100; 97; 116; 97].

Definition get_strtab (raw : list Z) : option (option Z) :=
  h ← get_section_header raw str_strtab;
  match h with None => Some None | Some shdr => o ← sh_offset raw shdr; Some (Some o) end.

(** * Symbols *)

(** The iterations of [for (; sym < end; ++sym)]. *)
Definition symbol_count (size : Z) : nat := Z.to_nat ((size + (SYM_SIZE - 1)) / SYM_SIZE).

Fixpoint symbol_from (raw name : list Z) (strtab : Z) (n : nat) (sym : Z) : option (option Z) :=
  match n with
  | O => Some None
  | S n =>
      nm ← st_name raw sym;
      eq ← streq name raw (strtab + nm);
      if eq : bool then Some (Some sym) else symbol_from raw name strtab n (sym + SYM_SIZE)
  end.
Definition elf_get_symbol (raw name : list Z) : option (option Z) :=
  strtab ← get_strtab raw;
  match strtab with
  | None => Some None
  | Some strtab =>
      h ← get_section_header raw str_symtab;
      match h with
      | None => Some None
      | Some shdr =>
          o ← sh_offset raw shdr; size ← sh_size raw shdr;
          symbol_from raw name strtab (symbol_count size) o
      end
  end.

Definition insert_symbol (m : symbols_t) (k : Z) (v : option Z) : option symbols_t :=
  '(_, m) ← map_insert (malloc m) None m (Some (to_uint32 k)) (Some v); Some m.

Fixpoint fill_from (raw : list Z) (strtab : Z) (n : nat) (sym : Z) (m : symbols_t) : option symbols_t :=
  match n with
  | O => Some m
  | S n =>
      nm ← st_name raw sym; info ← st_info raw sym;
      m ← (if (ELF_ST_TYPE info =? STT_NOTYPE) || (ELF_ST_TYPE info =? STT_OBJECT)
              || (ELF_ST_TYPE info =? STT_FUNC)
           then v ← st_value raw sym; insert_symbol m v (Some (strtab + nm))
           else Some m);
      fill_from raw strtab n (sym + SYM_SIZE) m
  end.
Definition fill_symbols (raw : list Z) (m : symbols_t) : option symbols_t :=
  m ← insert_symbol (match m with Some m => Some (map_clear m).1 | None => None end) 0 None;
  strtab ← get_strtab raw;
  match strtab with
  | None => Some m
  | Some strtab =>
      h ← get_section_header raw str_symtab;
      match h with
      | None => Some m
      | Some shdr =>
          o ← sh_offset raw shdr; size ← sh_size raw shdr;
          fill_from raw strtab (symbol_count size) o m
      end
  end.

(** [e->hdr] is dereferenced only when the table is empty. *)
Definition elf_find_symbol (e : elf_t) (addr : Z) : option (option Z * elf_t) :=
  e ← (if map_empty (symbols e)
       then raw ← raw_data e; m ← fill_symbols raw (symbols e);
            Some (mk_elf (hdr e) (raw_size e) (raw_data e) m)
       else Some e);
  Some (match map_find (symbols e) (to_uint32 addr) with Some n => data n | None => None end, e).

Definition elf_get_data_section_range (raw : list Z) : option (option (Z * Z)) :=
  h ← get_section_header raw str_data;
  match h with
  | None => Some None
  | Some shdr =>
      ty ← sh_type raw shdr;
      if ty =? SHT_NOBITS then Some None
      else
        start ← sh_addr raw shdr; size ← sh_size raw shdr;
        Some (Some (start, u32 (start + size)))
  end.

(** * Loading *)

(** The [n] bytes of the file at an offset. *)
Definition file_slice (raw : list Z) (off n : Z) : option (list Z) :=
  if off + n <=? Z.of_nat (length raw) then Some (take (Z.to_nat n) (drop (Z.to_nat off) raw)) else None.

Definition load_segment (raw : list Z) (phdr : Z) (m : memory_t) : option (bool * memory_t) :=
  ty ← p_type raw phdr;
  if negb (ty =? PT_LOAD) then Some (true, m)
  else
    memsz ← p_memsz raw phdr; filesz ← p_filesz raw phdr;
    vaddr ← p_vaddr raw phdr; off ← p_offset raw phdr;
    let to_copy := s32 (Z.min memsz filesz) in
    '(ok, m) ← (if truth to_copy then memory_write m vaddr (file_slice raw off (u32 to_copy)) (u32 to_copy)
                else Some (true, m));
    if negb ok then Some (false, m)
    else
      let to_zero := s32 (Z.max memsz filesz -u to_copy) in
      Some (if truth to_zero then memory_fill m (vaddr +u to_copy) (u32 to_zero) 0 else (true, m)).

Fixpoint load_from (raw : list Z) (n : nat) (p : Z) (m : memory_t) : option (bool * memory_t) :=
  match n with
  | O => Some (true, m)
  | S n =>
      phoff ← e_phoff raw; entsize ← e_phentsize raw;
      offset ← table_entry phoff p entsize;
      '(ok, m) ← load_segment raw offset m;
      if negb ok then Some (false, m) else load_from raw n (p + 1) m
  end.
Definition elf_load (raw : list Z) (m : memory_t) : option (bool * memory_t) :=
  n ← e_phnum raw; load_from raw (Z.to_nat n) 0 m.

(** * Opening *)

(** [file] is the content of the file at a path, [None] when it cannot be opened or mapped; an
    empty file cannot be mapped. *)
Definition elf_open (calloc_ok : bool) (file : list Z -> option (list Z)) (e : elf_t) (input : list Z)
    : option (bool * elf_t) :=
  let e := match raw_data e with Some _ => release e | None => e end in
  path ← sanitize_path calloc_ok input;
  match path with
  | None => Some (false, e)
  | Some path =>
      if negb (existsb (Z.eqb 0) path) then None else
      match file (c_string path) with
      | None | Some [] => Some (false, release e)
      | Some raw =>
          valid ← is_valid raw;
          Some (if valid : bool then (true, mk_elf true (u32 (Z.of_nat (length raw))) (Some raw) (symbols e))
                else (false, release e))
      end
  end.

Definition get_elf_header (e : elf_t) : bool := hdr e.
Definition get_elf_first_byte (e : elf_t) : option (list Z) := raw_data e.
End Elf.
