(* ===== verification/ElfProofs.v ===== *)
(** The ELF loader puts the segments of a file into guest RAM, byte by byte what the file says,
    and never writes outside of RAM; symbol lookup by address finds the first symbol there. *)

From S2P Require Import Prelude.
From S2P Require Import Opcode.
From S2P Require Import Decode.
From S2P Require Import Machine.
From S2P Require Import MachineFacts.
From S2P Require Import GuestRam.
From S2P Require Import GuestRamProofs.
From S2P Require Import RbMap.
From S2P Require Import RbMapProofs.
From S2P Require Import Utils.
From S2P Require Import Elf.

(** * File contents *)

Lemma file_slice_spec raw off n bs : 0 <= off -> 0 <= n -> file_slice raw off n = Some bs ->
  Z.of_nat (length bs) = n /\ forall i, 0 <= i < n -> bs !! Z.to_nat i = file_byte raw (off + i).
Proof.
  intros Ho Hn. unfold file_slice. destruct (Z.leb_spec (off + n) (Z.of_nat (length raw))) as [Hl|]; [|done].
  intros [= <-]. split.
  - rewrite length_take, length_drop. lia.
  - intros i Hi. rewrite lookup_take_lt, lookup_drop by lia. unfold file_byte.
    rewrite (proj2 (Z.ltb_ge _ _)) by lia. f_equal. lia.
Qed.

(** * Segments *)

(** Every byte of the file is one. *)
Definition raw_bytes (raw : list Z) : Prop := Forall is_u8 raw.

Lemma elf_field_range n raw : raw_bytes raw -> forall off v, field n raw off = Some v -> 0 <= v < 256 ^ Z.of_nat n.
Proof.
  intros Hr. induction n as [|n IH]; intros off v E; cbn [field] in E; [by injection E as <-|].
  destruct (file_byte raw off) as [b|] eqn:Eb; [|done]. cbn [mbind option_bind] in E.
  destruct (field n raw (off + 1)) as [w|] eqn:Ew; [|done]. injection E as <-. apply IH in Ew.
  assert (is_u8 b) as Hb.
  { unfold file_byte in Eb. destruct (off <? 0); [done|]. by eapply Forall_lookup_1. }
  rewrite Nat2Z.inj_succ, Z.pow_succ_r by lia. unfold is_u8 in Hb. nia.
Qed.

(** A program header as the code reads it. *)
Record segment := mk_seg { seg_type : Z; seg_offset : Z; seg_vaddr : Z; seg_filesz : Z; seg_memsz : Z }.
Definition segment_at (raw : list Z) (phdr : Z) : option segment :=
  ty ← p_type raw phdr; memsz ← p_memsz raw phdr; filesz ← p_filesz raw phdr;
  vaddr ← p_vaddr raw phdr; off ← p_offset raw phdr; Some (mk_seg ty off vaddr filesz memsz).
Definition segments (raw : list Z) : option (list segment) :=
  n ← e_phnum raw; phoff ← e_phoff raw; entsize ← e_phentsize raw;
  mapM (fun p => offset ← table_entry phoff p entsize; segment_at raw offset) (seqZ 0 n).

(** Its bytes exist in the file and fit in RAM. *)
Definition segment_fits (size : Z) (s : segment) : Prop := seg_vaddr s + Z.max (seg_memsz s) (seg_filesz s) <= size.
Definition segment_ok (raw : list Z) (s : segment) : Prop :=
  seg_type s = PT_LOAD -> seg_offset s + Z.min (seg_memsz s) (seg_filesz s) <= Z.of_nat (length raw).

(** The byte that [elf_load] puts at an address for a segment, whatever its sizes. *)
Definition segment_byte (raw : list Z) (s : segment) (a : Z) : option Z :=
  if decide (seg_type s = PT_LOAD /\ seg_vaddr s <= a < seg_vaddr s + Z.max (seg_memsz s) (seg_filesz s)) then
    if a - seg_vaddr s <? Z.min (seg_memsz s) (seg_filesz s)
    then Some (default 0 (file_byte raw (seg_offset s + (a - seg_vaddr s)))) else Some 0
  else None.
(** Later segments overwrite earlier ones. *)
Fixpoint image (raw : list Z) (segs : list segment) (old : Z) (a : Z) : Z :=
  match segs with
  | [] => old
  | s :: segs => image raw segs (default old (segment_byte raw s a)) a
  end.

Definition is_seg (s : segment) : Prop :=
  is_u32 (seg_offset s) /\ is_u32 (seg_vaddr s) /\ is_u32 (seg_filesz s) /\ is_u32 (seg_memsz s).

Lemma segment_at_range raw phdr s : raw_bytes raw -> segment_at raw phdr = Some s -> is_seg s.
Proof.
  intros Hr. unfold segment_at, p_type, p_memsz, p_filesz, p_vaddr, p_offset. intros E.
  repeat match type of E with
  | (field ?n ?r ?o ≫= _) = _ => let F := fresh "F" in
      destruct (field n r o) eqn:F; [apply elf_field_range in F; [|done]|done]; cbn [mbind option_bind] in E
  end.
  injection E as <-. unfold is_seg, is_u32. cbn [seg_offset seg_vaddr seg_filesz seg_memsz].
  change (256 ^ Z.of_nat 4) with 0x100000000 in *. done.
Qed.

Lemma truth_s32 x : is_u32 x -> truth (s32 x) = truth x.
Proof. unfold truth, s32, is_u32. intros H. destruct (Z.eqb_spec x 0) as [->|]; [done|]. f_equal. apply Z.eqb_neq. mlia. Qed.

(** A segment with bytes to load fits in RAM. *)
Definition loadable (size : Z) (s : segment) : Prop :=
  seg_type s = PT_LOAD -> 0 < Z.max (seg_memsz s) (seg_filesz s) -> segment_fits size s.

(** What loading a segment may do: the outcome, and the bytes it may touch. *)
Record loaded (raw : list Z) (s : segment) (m : memory_t) (ok : bool) (m' : memory_t) : Prop := {
  ld_size : mem_size m' = mem_size m;
  ld_ok : ok = true <-> loadable (mem_size m) s;
  ld_bytes a : ok = true -> byte_at m' a = default (byte_at m a) (segment_byte raw s a);
  ld_frame a : ~ (0 <= a < mem_size m) -> byte_at m' a = byte_at m a }.

Lemma segment_at_fields raw phdr s : segment_at raw phdr = Some s ->
  p_type raw phdr = Some (seg_type s) /\ p_memsz raw phdr = Some (seg_memsz s) /\
  p_filesz raw phdr = Some (seg_filesz s) /\ p_vaddr raw phdr = Some (seg_vaddr s) /\
  p_offset raw phdr = Some (seg_offset s).
Proof.
  unfold segment_at. destruct (p_type _ _), (p_memsz _ _), (p_filesz _ _), (p_vaddr _ _), (p_offset _ _); try done.
  by intros [= <-].
Qed.

(** The two steps of loading a segment, on sizes. *)
Lemma copy_step raw s m : raw_bytes raw -> is_seg s -> segment_ok raw s -> seg_type s = PT_LOAD ->
  let n := Z.min (seg_memsz s) (seg_filesz s) in
  exists ok m', (if truth n then memory_write m (seg_vaddr s) (file_slice raw (seg_offset s) n) n else Some (true, m))
      = Some (ok, m') /\
    mem_size m' = mem_size m /\ (ok = true <-> (0 < n -> seg_vaddr s + n <= mem_size m)) /\
    (ok = true -> forall a, byte_at m' a = if decide (seg_vaddr s <= a < seg_vaddr s + n)
      then default 0 (file_byte raw (seg_offset s + (a - seg_vaddr s))) else byte_at m a) /\
    (ok = false -> m' = m).
Proof.
  intros Hr (Ho & Hv & Hf & Hm) Hok Ht n. unfold is_u32 in *. assert (0 <= n) as Hn by lia.
  unfold truth. destruct (Z.eqb_spec n 0) as [Hz|Hz]; cbn [negb].
  { exists true, m. split_and!; [done..|split; [lia|done]| |done]. intros _ a. by rewrite decide_False by lia. }
  specialize (Hok Ht). fold n in Hok. unfold memory_write.
  destruct (Z.leb_spec (mem_size m) (seg_vaddr s)); cbn [orb].
  { exists false, m. split_and!; [done..|split; [done|lia]|done|done]. }
  destruct (Z.ltb_spec (mem_size m - seg_vaddr s) n).
  { exists false, m. split_and!; [done..|split; [done|lia]|done|done]. }
  destruct (file_slice raw (seg_offset s) n) as [bs|] eqn:E.
  2: { unfold file_slice in E. by rewrite (proj2 (Z.leb_le _ _)) in E. }
  destruct (file_slice_spec raw (seg_offset s) n bs) as [El Eb]; [lia..|done|]. cbn [mbind option_bind].
  exists true, (store_bytes m (seg_vaddr s) bs). split_and!; [done|by rewrite store_bytes_size|split; [lia|done]| |done].
  intros _ a. rewrite store_bytes_spec, El. case_decide as Ha; [|done]. by rewrite Eb by lia.
Qed.

Lemma zero_step m addr n : 0 <= n -> 0 <= addr ->
  exists ok m', (if truth n then memory_fill m addr n 0 else (true, m)) = (ok, m') /\
    mem_size m' = mem_size m /\ (ok = true <-> (0 < n -> addr + n <= mem_size m)) /\
    (ok = true -> forall a, byte_at m' a = if decide (addr <= a < addr + n) then 0 else byte_at m a) /\
    (ok = false -> m' = m).
Proof.
  intros Hn Ha. unfold truth. destruct (Z.eqb_spec n 0) as [Hz|Hz]; cbn [negb].
  { exists true, m. split_and!; [done..|split; [lia|done]| |done]. intros _ a. by rewrite decide_False by lia. }
  unfold memory_fill. destruct (Z.leb_spec (mem_size m) addr); cbn [orb].
  { exists false, m. split_and!; [done..|split; [done|lia]|done|done]. }
  destruct (Z.ltb_spec (mem_size m - addr) n).
  { exists false, m. split_and!; [done..|split; [done|lia]|done|done]. }
  eexists true, _. split_and!; [done|by rewrite store_bytes_size|split; [lia|done]| |done].
  intros _ a. rewrite store_bytes_spec, length_replicate, Z2Nat.id by lia. case_decide as Hx; [|done].
  by rewrite lookup_replicate_2 by lia.
Qed.

Lemma load_segment_spec raw phdr s m :
  raw_bytes raw -> segment_at raw phdr = Some s -> segment_ok raw s -> mem_size m < 2 ^ 32 ->
  exists ok m', load_segment raw phdr m = Some (ok, m') /\ loaded raw s m ok m'.
Proof.
  intros Hr Hs Hok Hm. pose proof (segment_at_range raw phdr s Hr Hs) as Hu.
  destruct (segment_at_fields raw phdr s Hs) as (E1 & E2 & E3 & E4 & E5).
  unfold load_segment. rewrite E1, E2, E3, E4, E5. cbn [mbind option_bind].
  destruct (Z.eqb_spec (seg_type s) PT_LOAD) as [Ht|Ht]; cbn [negb].
  2: { exists true, m. split; [done|]. split; [done|by split; [intros _ H; destruct Ht|]| |done].
       intros a _. unfold segment_byte. by rewrite decide_False by tauto. }
  destruct (copy_step raw s m Hr Hu Hok Ht) as (ok1 & m1 & C1 & C2 & C3 & C4 & C5).
  set (n := Z.min (seg_memsz s) (seg_filesz s)) in *. set (x := Z.max (seg_memsz s) (seg_filesz s)) in *.
  destruct Hu as (Uo & Uv & Uf & Um). assert (is_u32 n /\ is_u32 x /\ n <= x) as (Un & Ux & Hnx) by (unfold is_u32 in *; lia).
  rewrite (truth_s32 n), (u32_s32 n), (u32_small n), C1 by done. cbn [mbind option_bind].
  destruct ok1; cbn [negb].
  2: { rewrite (C5 eq_refl) in *. exists false, m. split; [done|]. split; [done| |done|done]. split; [done|].
       intros Hl. apply C3. intros Hn. specialize (Hl Ht ltac:(lia)). unfold segment_fits in Hl. fold x in Hl. lia. }
  assert (u32 (x - s32 n) = x - n) as ->.
  { unfold is_u32, u32, s32 in *. mlia. }
  assert (u32 (seg_vaddr s + s32 n) = seg_vaddr s + n) as ->.
  { rewrite u32_add_s32_r. apply u32_small. unfold is_u32 in *. destruct (decide (0 < n)); [|lia].
    assert (seg_vaddr s + n <= mem_size m) by (by apply C3). lia. }
  rewrite truth_s32, u32_s32, (u32_small (x - n)) by (unfold is_u32 in *; lia).
  destruct (zero_step m1 (seg_vaddr s + n) (x - n)) as (ok2 & m2 & Z1 & Z2 & Z3 & Z4 & Z5);
    [lia|unfold is_u32 in *; lia|]. rewrite Z1. exists ok2, m2. split; [done|]. rewrite C2 in Z2, Z3.
  specialize (C4 eq_refl). assert (0 < n -> seg_vaddr s + n <= mem_size m) as C6 by (by apply C3).
  assert (0 <= n) as Hn0 by (unfold is_u32 in *; lia). split; [done| | |].
  - rewrite Z3. unfold loadable, segment_fits. fold x. split; [|intros Hl Hx; specialize (Hl Ht ltac:(lia)); lia].
    intros Hl _ Hx. destruct (decide (0 < x - n)); [specialize (Hl ltac:(done))|assert (0 < n) by lia]; lia.
  - intros a H2. rewrite Z4, C4 by done. unfold segment_byte. fold n x.
    destruct (decide (seg_vaddr s + n <= a < seg_vaddr s + n + (x - n))).
    + rewrite decide_True by (split; [done|lia]). by rewrite (proj2 (Z.ltb_ge _ _)) by lia.
    + destruct (decide (seg_vaddr s <= a < seg_vaddr s + n)).
      * rewrite decide_True by (split; [done|lia]). by rewrite (proj2 (Z.ltb_lt _ _)) by lia.
      * by rewrite decide_False by (intros [_ ?]; lia).
  - intros a Ha. assert (byte_at m1 a = byte_at m a) as H1.
    { rewrite C4. apply decide_False. unfold is_u32 in *. lia. }
    destruct ok2; [|by rewrite (Z5 eq_refl)]. rewrite (Z4 eq_refl), H1. apply decide_False.
    assert (0 < x - n -> seg_vaddr s + n + (x - n) <= mem_size m) by (by apply Z3). unfold is_u32 in *. lia.
Qed.

(** * Whole files *)

Lemma load_from_spec raw phoff entsize : raw_bytes raw -> e_phoff raw = Some phoff -> e_phentsize raw = Some entsize ->
  forall n p m segs, mem_size m < 2 ^ 32 -> Forall (segment_ok raw) segs ->
  mapM (fun p => offset ← table_entry phoff p entsize; segment_at raw offset) (seqZ p (Z.of_nat n)) = Some segs ->
  exists ok m', load_from raw n p m = Some (ok, m') /\ mem_size m' = mem_size m /\
    (ok = true <-> Forall (loadable (mem_size m)) segs) /\
    (ok = true -> forall a, byte_at m' a = image raw segs (byte_at m a) a) /\
    (forall a, ~ (0 <= a < mem_size m) -> byte_at m' a = byte_at m a).
Proof.
  intros Hr Ep Ee. induction n as [|n IH]; intros p m segs Hm Hok Hs; cbn [load_from].
  { injection Hs as <-. exists true, m. by split_and!. }
  rewrite seqZ_cons in Hs by lia. replace (Z.pred (Z.of_nat (S n))) with (Z.of_nat n) in Hs by lia.
  replace (Z.succ p) with (p + 1) in Hs by lia.
  rewrite Ep, Ee. cbn [mbind option_bind]. cbn [mapM] in Hs.
  destruct (table_entry phoff p entsize) as [o|]; [|done]. cbn [mbind option_bind] in *.
  destruct (segment_at raw o) as [s|] eqn:Es; [|done]. cbn [mbind option_bind] in Hs.
  destruct (mapM _ _) as [segs'|] eqn:Em in Hs; [|done]. injection Hs as <-. apply Forall_cons in Hok as [Ho Hok].
  destruct (load_segment_spec raw o s m Hr Es Ho Hm) as (ok1 & m1 & -> & [L1 L2 L3 L4]). cbn [mbind option_bind].
  destruct ok1; cbn [negb].
  - destruct (IH (p + 1) m1 segs') as (ok & m' & -> & I1 & I2 & I3 & I4); [by rewrite L1|done|done|].
    rewrite L1 in *. exists ok, m'. split_and!; [done|done| | |].
    + rewrite Forall_cons, I2. split; [|tauto]. intros H. split; [by apply L2|done].
    + intros H a. rewrite I3, L3 by done. done.
    + intros a Ha. by rewrite I4, L4.
  - exists false, m1. split_and!; [done|done| |done|done]. rewrite Forall_cons, <- L2. split; [done|by intros [? _]].
Qed.

Lemma elf_load_spec raw m segs :
  raw_bytes raw -> segments raw = Some segs -> Forall (segment_ok raw) segs -> mem_size m < 2 ^ 32 ->
  exists ok m', elf_load raw m = Some (ok, m') /\ mem_size m' = mem_size m /\
    (ok = true <-> Forall (loadable (mem_size m)) segs) /\
    (ok = true -> forall a, byte_at m' a = image raw segs (byte_at m a) a) /\
    (forall a, ~ (0 <= a < mem_size m) -> byte_at m' a = byte_at m a).
Proof.
  intros Hr Hs Hok Hm. unfold segments in Hs. unfold elf_load.
  destruct (e_phnum raw) as [n|] eqn:En; [|done]. cbn [mbind option_bind] in *.
  destruct (e_phoff raw) as [phoff|] eqn:Ep; [|done]. destruct (e_phentsize raw) as [sz|] eqn:Ee; [|done].
  cbn [mbind option_bind] in Hs. apply elf_field_range in En; [|done].
  eapply load_from_spec; try done. by rewrite Z2Nat.id by lia.
Qed.

(** ** Segments as the ELF format defines them *)

(** A segment occupies [memsz] bytes; the first [filesz] come from the file, the rest is zero.
    The file part is not larger than the segment. *)
Definition seg_formed (raw : list Z) (s : segment) : Prop :=
  seg_type s = PT_LOAD -> 0 <= seg_filesz s <= seg_memsz s /\ seg_offset s + seg_filesz s <= Z.of_nat (length raw).
Definition elf_byte (raw : list Z) (s : segment) (a : Z) : option Z :=
  if decide (seg_type s = PT_LOAD /\ seg_vaddr s <= a < seg_vaddr s + seg_memsz s) then
    if a - seg_vaddr s <? seg_filesz s then Some (default 0 (file_byte raw (seg_offset s + (a - seg_vaddr s))))
    else Some 0
  else None.
(** What is in RAM at an address: the byte of the last segment that covers it. *)
Fixpoint elf_image (raw : list Z) (segs : list segment) (old : Z) (a : Z) : Z :=
  match segs with [] => old | s :: segs => elf_image raw segs (default old (elf_byte raw s a)) a end.
Definition seg_in_ram (size : Z) (s : segment) : Prop :=
  seg_type s = PT_LOAD -> 0 < seg_memsz s -> seg_vaddr s + seg_memsz s <= size.

Lemma formed_byte raw s a : seg_formed raw s -> segment_byte raw s a = elf_byte raw s a.
Proof.
  intros Hf. unfold segment_byte, elf_byte. destruct (decide (seg_type s = PT_LOAD)) as [Ht|Ht].
  2: { rewrite !decide_False by tauto. done. }
  destruct (Hf Ht) as [Hs Hl]. by rewrite Z.max_l, Z.min_r by lia.
Qed.
Lemma formed_image raw segs a : Forall (seg_formed raw) segs ->
  forall old, image raw segs old a = elf_image raw segs old a.
Proof.
  induction 1 as [|s segs Hf _ IH]; intros old; cbn [image elf_image]; [done|]. by rewrite formed_byte.
Qed.
Lemma formed_loadable raw size s : seg_formed raw s -> loadable size s <-> seg_in_ram size s.
Proof.
  intros Hf. unfold loadable, seg_in_ram, segment_fits.
  split; intros H Ht; specialize (H Ht); destruct (Hf Ht) as [Hs _]; rewrite Z.max_l in *; lia || tauto.
Qed.

(** C31: loading a program.  For a file whose program headers can be read and whose loadable
    segments have their file part in the file and not larger than their memory part, and RAM below
    4 GiB, [elf_load] ends; it reports success exactly when every loadable segment fits in RAM, RAM
    then holds at each address the byte of the last segment that covers it, from the file or zero
    behind the file part, and what it held before elsewhere; in every case nothing outside of RAM
    is written. *)
Theorem elf_load_image raw m segs :
  raw_bytes raw -> segments raw = Some segs -> Forall (seg_formed raw) segs -> mem_size m < 2 ^ 32 ->
  exists ok m', elf_load raw m = Some (ok, m') /\ mem_size m' = mem_size m /\
    (ok = true <-> Forall (seg_in_ram (mem_size m)) segs) /\
    (ok = true -> forall a, byte_at m' a = elf_image raw segs (byte_at m a) a) /\
    (forall a, ~ (0 <= a < mem_size m) -> byte_at m' a = byte_at m a).
Proof.
  intros Hr Hs Hf Hm. destruct (elf_load_spec raw m segs Hr Hs) as (ok & m' & E & Hsz & Hok & Hb & Ho).
  { eapply Forall_impl; [exact Hf|]. intros s H Ht. destruct (H Ht). rewrite Z.min_r; lia. }
  { done. }
  exists ok, m'. split_and!; try done.
  - rewrite Hok, !Forall_forall. rewrite Forall_forall in Hf. split; intros H s Hin; apply (formed_loadable raw); auto.
  - intros Et a. rewrite Hb by done. by apply formed_image.
Qed.

(** * Symbols *)

#[export] Instance uint32_cmp_laws : comparator_laws uint32_cmp.
Proof.
  assert (forall a b, uint32_cmp a b = if `a <? `b then MAP_CMP_LESS else if `b <? `a then MAP_CMP_GREATER
    else MAP_CMP_EQUAL) as E.
  { intros [a Ha] [b Hb]. unfold uint32_cmp, map_cmp_uint. cbn [proj1_sig]. rewrite Ha, Hb. unfold map_cmp_int.
    destruct (Z.ltb_spec a b), (Z.ltb_spec b a); try done; lia. }
  split; intros *; rewrite ?E.
  - destruct (Z.ltb_spec (`a) (`b)) as [|], (Z.ltb_spec (`b) (`a)) as [|]; split; try done; try (intros ->; lia).
    intros _. apply (sig_eq_pi _). lia.
  - destruct (Z.ltb_spec (`a) (`b)), (Z.ltb_spec (`b) (`a)); split; try done; lia.
  - destruct (Z.ltb_spec (`a) (`b)), (Z.ltb_spec (`b) (`c)), (Z.ltb_spec (`a) (`c)); try done; try lia;
      repeat case_match; done.
Qed.
#[export] Instance uint32_eq_dec : EqDecision uint32.
Proof. unfold uint32. apply _. Defined.

Lemma to_uint32_proj (k : uint32) : to_uint32 (`k) = k.
Proof. apply (sig_eq_pi _). cbn. by destruct k. Qed.

(** The symbols that the table takes from [n] entries on: address and name. *)
Definition kept (info : Z) : bool :=
  (ELF_ST_TYPE info =? STT_NOTYPE) || (ELF_ST_TYPE info =? STT_OBJECT) || (ELF_ST_TYPE info =? STT_FUNC).
Fixpoint symbol_list (raw : list Z) (strtab : Z) (n : nat) (sym : Z) : option (list (uint32 * Z)) :=
  match n with
  | O => Some []
  | S n =>
      nm ← st_name raw sym; info ← st_info raw sym; v ← st_value raw sym;
      rest ← symbol_list raw strtab n (sym + SYM_SIZE);
      Some (if kept info then (to_uint32 v, strtab + nm) :: rest else rest)
  end.
(** The name of the first symbol at an address. *)
Fixpoint first_at (k : uint32) (l : list (uint32 * Z)) : option Z :=
  match l with
  | [] => None
  | (a, nm) :: l => if decide (k = a) then Some nm else first_at k l
  end.

(** An allocator that has memory left and gives out new aligned blocks. *)
Definition allocator_ok (malloc : symbols_t -> Z -> option Z) : Prop :=
  forall m sz, is_Some (malloc (Some m) sz) /\ malloc_fresh (malloc (Some m)) m.

Definition entry_of (m : map_internal uint32 (option Z)) (k : uint32) : option (option Z) :=
  data <$> map_find (Some m) k.

Record table_ok (m : map_internal uint32 (option Z)) : Prop := {
  tb_wf : map_wf m;
  tb_cmp : comparator m = uint32_cmp }.

Section Symbols.
Context (malloc : symbols_t -> Z -> option Z) (Hmalloc : allocator_ok malloc).

Lemma insert_symbol_spec m k v :
  table_ok m -> map_count m < 2 ^ 64 - 1 ->
  exists m', insert_symbol malloc (Some m) k v = Some (Some m') /\ table_ok m' /\
    map_count m' <= map_count m + 1 /\
    forall x, entry_of m' x = match entry_of m x with
                              | Some w => Some w
                              | None => if decide (x = to_uint32 k) then Some v else None
                              end.
Proof.
  intros [Hw Hc] Hn. unfold insert_symbol.
  destruct (map_insert_spec (malloc (Some m)) None m (to_uint32 k) (Some v)) as (r & m' & -> & Hw' & Hc' & H);
    [rewrite Hc; apply _|done|done|by apply (Hmalloc m 0)|].
  cbn [mbind option_bind]. exists m'. split; [done|]. split; [split; [done|congruence]|].
  destruct (Hmalloc m (total_size (key_size m) (data_size m))) as [[a Ea] _]. rewrite Ea in H. unfold entry_of.
  destruct (map_find (Some m) (to_uint32 k)) as [nd|] eqn:Ef.
  - destruct H as [_ ->]. split; [lia|]. intros x. destruct (decide (x = to_uint32 k)) as [->|]; [by rewrite Ef|].
    by destruct (map_find (Some m) x).
  - destruct H as (_ & Hs & Hf). cbn [map_size] in Hs. split; [lia|]. intros x. rewrite Hf.
    destruct (decide (x = to_uint32 k)) as [->|]; [by rewrite Ef|]. by destruct (map_find (Some m) x).
Qed.

Lemma fill_from_spec raw strtab n : forall sym m l,
  symbol_list raw strtab n sym = Some l -> table_ok m -> map_count m + Z.of_nat n < 2 ^ 64 - 1 ->
  exists m', fill_from malloc raw strtab n sym (Some m) = Some (Some m') /\ table_ok m' /\
    forall x, entry_of m' x = match entry_of m x with Some w => Some w | None => Some <$> first_at x l end.
Proof.
  induction n as [|n IH]; intros sym m l El Hm Hc; cbn [fill_from symbol_list] in *.
  { injection El as <-. exists m. split_and!; [done..|]. intros x. by destruct (entry_of m x). }
  destruct (st_name raw sym) as [nm|]; [|done]. destruct (st_info raw sym) as [info|]; [|done].
  destruct (st_value raw sym) as [v|]; [|done]. cbn [mbind option_bind] in *.
  destruct (symbol_list raw strtab n (sym + SYM_SIZE)) as [rest|] eqn:Er; [|done]. injection El as <-.
  fold (kept info). destruct (kept info).
  - destruct (insert_symbol_spec m v (Some (strtab + nm)) Hm) as (m1 & -> & Hm1 & Hc1 & E1); [lia|].
    cbn [mbind option_bind]. destruct (IH (sym + SYM_SIZE) m1 rest Er Hm1) as (m' & -> & Hm' & E'); [lia|].
    exists m'. split_and!; [done..|]. intros x. rewrite E', E1. destruct (entry_of m x); [done|].
    cbn [first_at]. by destruct (decide (x = to_uint32 v)).
  - cbn [mbind option_bind]. apply IH; [done|done|lia].
Qed.

(** Lookup of symbols by address.  On a file with readable string and symbol tables and
    with memory for the table, the first lookup builds the table and this and every later
    lookup ends; it returns the name of the first function, object or untyped symbol of the
    file at the address, and NULL for address 0 or when there is none. *)
Theorem elf_find_symbol_first raw e m strtab shdr off size l addr :
  raw_bytes raw -> raw_data e = Some raw -> symbols e = Some m -> table_ok m -> map_empty (symbols e) = true ->
  get_strtab raw = Some (Some strtab) -> get_section_header raw str_symtab = Some (Some shdr) ->
  sh_offset raw shdr = Some off -> sh_size raw shdr = Some size ->
  symbol_list raw strtab (symbol_count size) off = Some l ->
  exists e', raw_data e' = Some raw /\
    elf_find_symbol malloc e addr
      = Some (if decide (to_uint32 addr = to_uint32 0) then None else first_at (to_uint32 addr) l, e') /\
    forall addr', elf_find_symbol malloc e' addr'
      = Some (if decide (to_uint32 addr' = to_uint32 0) then None else first_at (to_uint32 addr') l, e').
Proof.
  intros Hr Hd Hs Hm He Hst Hsh Ho Hz El.
  assert (table_ok (map_clear m).1 /\ map_count (map_clear m).1 = 0 /\ forall x, entry_of (map_clear m).1 x = None)
    as (Hcl & Hc0 & He0).
  { destruct (map_clear_correct m (tb_wf _ Hm)) as (Hw & _ & _). split; [|done]. split; [done|]. apply (tb_cmp _ Hm). }
  destruct (insert_symbol_spec (map_clear m).1 0 None Hcl) as (m1 & E1 & Hm1 & Hc1 & Ex1); [lia|].
  pose proof Hz as Hzr. apply elf_field_range in Hzr; [|done]. change (256 ^ Z.of_nat 4) with 0x100000000 in Hzr.
  destruct (fill_from_spec raw strtab (symbol_count size) off m1 l El Hm1) as (m2 & E2 & Hm2 & Ex2).
  { unfold symbol_count, SYM_SIZE. rewrite Z2Nat.id by mlia. mlia. }
  assert (forall x, match map_find (Some m2) x with Some n => data n | None => None end
    = if decide (x = to_uint32 0) then None else first_at x l) as Hfind.
  { intros x. specialize (Ex2 x). rewrite Ex1, He0 in Ex2. unfold entry_of in Ex2.
    destruct (decide (x = to_uint32 0)), (map_find (Some m2) x), (first_at x l); cbn in *; congruence. }
  assert (map_empty (Some m2) = false) as Hne.
  { specialize (Ex2 (to_uint32 0)). rewrite Ex1, He0, decide_True in Ex2 by done. unfold entry_of in Ex2.
    cbn [map_empty]. cbn [map_find] in Ex2. by destruct (root m2). }
  exists (mk_elf (hdr e) (raw_size e) (raw_data e) (Some m2)). cbn [raw_data]. split; [done|].
  assert (fill_symbols malloc raw (Some m) = Some (Some m2)) as Hfill.
  { unfold fill_symbols. rewrite E1. cbn [mbind option_bind]. rewrite Hst. cbn [mbind option_bind].
    rewrite Hsh. cbn [mbind option_bind]. rewrite Ho, Hz. exact E2. }
  split.
  - unfold elf_find_symbol. rewrite He, Hd, Hs. cbn [mbind option_bind]. rewrite Hfill. cbn [mbind option_bind symbols].
    by rewrite Hfind.
  - intros addr'. unfold elf_find_symbol. cbn [symbols]. rewrite Hne. cbn [mbind option_bind symbols]. by rewrite Hfind.
Qed.
End Symbols.

(** * A small program *)

Fixpoint le (n : nat) (v : Z) : list Z :=
  match n with O => [] | S n => v mod 0x100 :: le n (v / 0x100) end.

(** One segment of four bytes and four zeros at 0x1000, and the symbol "f" at 0x1000. *)
Definition demo_elf : list Z :=
  [127; 69; 76; 70; 1; 1; 1; 0] ++ replicate 8 0 ++ le 2 2 ++ le 2 243 ++ le 4 1 ++ le 4 0x1000 ++
  le 4 52 ++ le 4 140 ++ le 4 0 ++ le 2 52 ++ le 2 32 ++ le 2 1 ++ le 2 40 ++ le 2 3 ++ le 2 1 ++
  le 4 1 ++ le 4 84 ++ le 4 0x1000 ++ le 4 0x1000 ++ le 4 4 ++ le 4 8 ++ le 4 5 ++ le 4 4 ++
  [19; 5; 6; 7] ++
  [0] ++ str_strtab ++ [0] ++ str_symtab ++ [0] ++ [102; 0; 0] ++
  replicate 16 0 ++ le 4 17 ++ le 4 0x1000 ++ le 4 8 ++ [0x12; 0] ++ le 2 1 ++
  replicate 40 0 ++
  le 4 1 ++ replicate 12 0 ++ le 4 88 ++ le 4 19 ++ replicate 16 0 ++
  le 4 9 ++ replicate 12 0 ++ le 4 108 ++ le 4 32 ++ replicate 16 0.

Lemma demo_elf_bytes : raw_bytes demo_elf.
Proof. unfold raw_bytes. apply Forall_forall. intros x Hx. vm_compute in Hx. unfold is_u8. set_unfold. lia. Qed.
Lemma demo_elf_segments : segments demo_elf = Some [mk_seg 1 84 0x1000 4 8].
Proof. by vm_compute. Qed.

Lemma elf_load_image_witness :
  exists m', elf_load demo_elf (mk_memory {[0x1006 := 9; 0x1008 := 9]} 0x2000) = Some (true, m') /\
    load_le m' 0x1000 4 = 0x07060513 /\ load_le m' 0x1004 4 = 0 /\ byte_at m' 0x1008 = 9.
Proof.
  destruct (elf_load_image demo_elf (mk_memory {[0x1006 := 9; 0x1008 := 9]} 0x2000) [mk_seg 1 84 0x1000 4 8])
    as (ok & m' & E & Es & Hok & Hb & _).
  - exact demo_elf_bytes.
  - exact demo_elf_segments.
  - repeat constructor; by vm_compute.
  - by vm_compute.
  - assert (ok = true) as ->.
    { apply Hok. repeat constructor. intros _ _. by vm_compute. }
    exists m'. split; [exact E|]. cbn [load_le]. rewrite !Hb by done. by vm_compute.
Defined.

(** The same segment with eight bytes of file in four bytes of memory: the four bytes behind it
    are cleared. *)
Definition overfull_elf : list Z := take 68 demo_elf ++ le 4 8 ++ le 4 4 ++ drop 76 demo_elf.
Lemma overfull_segment_clears :
  ('(ok, m) ← elf_load overfull_elf (mk_memory {[0x1006 := 9; 0x1008 := 9]} 0x2000);
   Some (ok, load_le m 0x1000 4, byte_at m 0x1006, byte_at m 0x1008)) = Some (true, 0x07060513, 0, 9).
Proof. by vm_compute. Qed.

(** An allocator: an even address above all blocks in use. *)
Definition bump_malloc (m : symbols_t) (_ : Z) : option Z :=
  Some (2 * (1 + match m with
                 | Some m => foldr Z.max 0 (node_addr <$> elements (root m))
                 | None => 0
                 end)).
Lemma above_all_fresh (l : list Z) :
  Z.land (2 * (1 + foldr Z.max 0 l)) 1 = 0 /\ 2 * (1 + foldr Z.max 0 l) ∉ l.
Proof.
  split.
  - rewrite Z.land_comm. apply Z.bits_inj'. intros i Hi. rewrite Z.land_spec, Z.bits_0.
    destruct (decide (i = 0)) as [->|]; [|by rewrite (testbit_above 1 1) by lia].
    by rewrite (Z.testbit_even_0 (1 + foldr Z.max 0 l)).
  - assert (forall x, x ∈ l -> x <= foldr Z.max 0 l) as Hle.
    { induction l as [|y l IH]; intros x Hx; [by apply not_elem_of_nil in Hx|]. cbn.
      apply elem_of_cons in Hx as [->|Hx]; [lia|]. specialize (IH x Hx). lia. }
    assert (0 <= foldr Z.max 0 l) by (clear; induction l as [|y l IH]; cbn; lia). intros Hin%Hle. lia.
Qed.
Lemma bump_malloc_ok : allocator_ok bump_malloc.
Proof. intros m sz. split; [done|]. intros sz' a [= <-]. apply above_all_fresh. Qed.

Definition demo_reader (raw : list Z) : elf_t := mk_elf true 0 (Some raw) (Some (mk_map NULL 4 8 0 uint32_cmp)).
Lemma demo_table_ok : table_ok (mk_map NULL 4 8 0 uint32_cmp).
Proof.
  destruct (map_new_wf (V := option Z) (fun _ => Some 64) 4 8 uint32_cmp (mk_map NULL 4 8 0 uint32_cmp)) as (Hm & Hc & _); [done..|].
  by split.
Qed.

Lemma elf_find_symbol_first_witness :
  exists e', elf_find_symbol bump_malloc (demo_reader demo_elf) 0x1000 = Some (Some 105, e') /\
    elf_find_symbol bump_malloc e' 0x2000 = Some (None, e').
Proof.
  destruct (elf_find_symbol_first bump_malloc bump_malloc_ok demo_elf (demo_reader demo_elf)
    (mk_map NULL 4 8 0 uint32_cmp) 88 220 108 32 [(to_uint32 0, 88); (to_uint32 0x1000, 105)] 0x1000)
    as (e' & _ & E & E').
  - exact demo_elf_bytes.
  - reflexivity.
  - reflexivity.
  - exact demo_table_ok.
  - reflexivity.
  - by vm_compute.
  - by vm_compute.
  - by vm_compute.
  - by vm_compute.
  - reflexivity.
  - exists e'. split; [rewrite E; reflexivity|rewrite E'; reflexivity].
Defined.

(** Opening a second file keeps the symbol table of the first: the lookup then gives a pointer
    into the file that is no longer open. *)
Lemma reopen_keeps_symbols :
  let path := [97] in
  let other := <[129%nat := 0x30]> demo_elf in
  ('(_, e) ← elf_open true (fun _ => Some demo_elf) (elf_new bump_malloc) path;
   '(s1, e) ← elf_find_symbol bump_malloc e 0x1000;
   '(ok, e) ← elf_open true (fun _ => Some other) e path;
   '(s2, _) ← elf_find_symbol bump_malloc e 0x1000;
   '(_, e) ← elf_open true (fun _ => Some other) (elf_new bump_malloc) path;
   '(s3, _) ← elf_find_symbol bump_malloc e 0x1000;
   Some (s1, ok, s2, s3)) = Some (Some 105, true, Some 105, None).
Proof. by vm_compute. Qed.
