(* ===== verification/Syscall.v ===== *)
(** System calls, src/src/syscall.c: the calls of newlib programs and, in system mode, the SBI
    calls.  Calls of the SDL library are not built in.

    Streams of the host are the class [stdio]; a [FILE] pointer is the index of a stream, and
    the descriptor table of the guest is the red-black tree map of map.c from descriptors to
    pointers.  [None] is undefined behaviour or a failed assertion. *)

From S2P Require Import Prelude.
From S2P Require Import Opcode.
From S2P Require Import Decode.
From S2P Require Import Machine.
From S2P Require Import GuestRam.
From S2P Require Import RbMap.

Definition PREALLOC_SIZE : Z := 4096.
Definition O_ACCMODE : Z := 3.
Definition SBI_SUCCESS : Z := 0.
Definition SBI_ERR_NOT_SUPPORTED : Z := -2.
Definition SBI_IMPL_ID : Z := 0x999.
Definition SBI_IMPL_VERSION : Z := 1.
Definition SBI_EID_BASE : Z := 0x10.
Definition SBI_EID_TIMER : Z := 0x54494D45.
Definition SBI_EID_RST : Z := 0x53525354.

(** The registers of the calling convention. *)
Definition A0 : Z := 10.
Definition A1 : Z := 11.
Definition A2 : Z := 12.
Definition A6 : Z := 16.
Definition A7 : Z := 17.

(** stdio of the host: [fread] gives the bytes read, [fwrite] the number written, [fseek] and
    [fclose] whether they fail, [fopen] takes a path and a mode. *)
Class stdio := {
  FILE : Type;
  fread : FILE -> Z -> list Z * FILE;
  fwrite : FILE -> list Z -> Z * FILE;
  ferror : FILE -> bool;
  fseek : FILE -> Z -> Z -> bool * FILE;
  ftell : FILE -> Z;
  fclose : FILE -> bool;
  fopen : list Z -> list Z -> option FILE }.

Definition fd_map_t : Type := option (map_internal Z Z).

Section Syscalls.
Context `{stdio}.
(** The allocator of map nodes, as in map.c; whether [malloc] has memory for a path; the host
    clocks in seconds and micro- or nanoseconds. *)
Context (malloc : fd_map_t -> Z -> option Z) (malloc_ok : bool).
Context (rv_gettimeofday rv_clock_gettime : Z * Z).

(** The emulator state with the fields of [vm_attr_t] that system calls use. *)
Record sys := mk_sys {
  rv : riscv;
  fd_map : fd_map_t;
  streams : gmap Z FILE;
  break_addr : Z;
  exit_code : Z;
  error : Z;
  attr_timer : Z;
  csr_mvendorid : Z; csr_marchid : Z; csr_mimpid : Z;
  exit_addr : Z;
  on_exit : bool }.

Definition set_rv (v : riscv) (s : sys) : sys :=
  mk_sys v (fd_map s) (streams s) (break_addr s) (exit_code s) (error s) (attr_timer s)
    (csr_mvendorid s) (csr_marchid s) (csr_mimpid s) (exit_addr s) (on_exit s).
Definition set_streams (v : gmap Z FILE) (s : sys) : sys :=
  mk_sys (rv s) (fd_map s) v (break_addr s) (exit_code s) (error s) (attr_timer s)
    (csr_mvendorid s) (csr_marchid s) (csr_mimpid s) (exit_addr s) (on_exit s).
Definition set_fd_map (v : fd_map_t) (s : sys) : sys :=
  mk_sys (rv s) v (streams s) (break_addr s) (exit_code s) (error s) (attr_timer s)
    (csr_mvendorid s) (csr_marchid s) (csr_mimpid s) (exit_addr s) (on_exit s).
Definition set_break_addr (v : Z) (s : sys) : sys :=
  mk_sys (rv s) (fd_map s) (streams s) v (exit_code s) (error s) (attr_timer s)
    (csr_mvendorid s) (csr_marchid s) (csr_mimpid s) (exit_addr s) (on_exit s).
Definition set_exit_code (v : Z) (s : sys) : sys :=
  mk_sys (rv s) (fd_map s) (streams s) (break_addr s) v (error s) (attr_timer s)
    (csr_mvendorid s) (csr_marchid s) (csr_mimpid s) (exit_addr s) (on_exit s).
Definition set_error (v : Z) (s : sys) : sys :=
  mk_sys (rv s) (fd_map s) (streams s) (break_addr s) (exit_code s) v (attr_timer s)
    (csr_mvendorid s) (csr_marchid s) (csr_mimpid s) (exit_addr s) (on_exit s).
Definition set_attr_timer (v : Z) (s : sys) : sys :=
  mk_sys (rv s) (fd_map s) (streams s) (break_addr s) (exit_code s) (error s) v
    (csr_mvendorid s) (csr_marchid s) (csr_mimpid s) (exit_addr s) (on_exit s).

Definition arg (s : sys) (r : Z) : Z := rv_get_reg (rv s) r.
Definition ret (r v : Z) (s : sys) : sys := set_rv (rv_set_reg (rv s) r (u32 v)) s.

(** A word store of [memory_write_w], without a check. *)
Definition write_word (addr v : Z) (s : sys) : option sys :=
  m ← mem_write 4 (mem (rv s)) addr v; Some (set_rv (set_mem m (rv s)) s).

(** The [FILE] pointer of a descriptor, an [int]; [None] when it is not open. *)
Definition find_fd (s : sys) (fd : Z) : option Z := data <$> map_find (fd_map s) (s32 fd).

(** * Descriptors *)

(** [for (int i = 3;; ++i)] *)
Fixpoint free_fd_from (fuel : nat) (m : fd_map_t) (i : Z) : option Z :=
  match fuel with
  | O => None
  | S fuel => if map_at_end (map_find m i) then Some i else free_fd_from fuel m (i + 1)
  end.
Definition find_free_fd (m : fd_map_t) : option Z := free_fd_from (S (Z.to_nat (map_size m))) m 3.

(** "rb", "wb" and "a+" *)
Definition get_mode_str (flags : Z) : option (list Z) :=
  match Z.land flags O_ACCMODE with
  | 0 => Some [114; 98]
  | 1 => Some [119; 98]
  | 2 => Some [97; 43]
  | _ => None
  end.

(** * Files *)

(** The loop of [syscall_write]: the result is the stream, what is written and what is left,
    or an error of the stream. *)
Fixpoint write_loop (fuel : nat) (m : memory_t) (buffer total_write count : Z) (f : FILE)
    : option (FILE * option (Z * Z)) :=
  if PREALLOC_SIZE <? count then
    match fuel with
    | O => None
    | S fuel =>
        tmp ← memory_read m (buffer +u total_write) PREALLOC_SIZE;
        let '(written, f) := fwrite f tmp in
        if negb (written =? PREALLOC_SIZE) && ferror f then Some (f, None)
        else write_loop fuel m buffer (total_write +u written) (count - PREALLOC_SIZE) f
    end
  else Some (f, Some (total_write, count)).

Definition syscall_write (s : sys) : option sys :=
  let fd := arg s A0 in
  let buffer := arg s A1 in
  let count := arg s A2 in
  match find_fd s fd with
  | None => Some (ret A0 (-1) s)
  | Some handle =>
      f ← streams s !! handle;
      '(f, r) ← write_loop (Z.to_nat (count / PREALLOC_SIZE)) (mem (rv s)) buffer 0 count f;
      match r with
      | None => Some (ret A0 (-1) (set_streams (<[handle := f]> (streams s)) s))
      | Some (total_write, count) =>
          tmp ← memory_read (mem (rv s)) (buffer +u total_write) count;
          let '(written, f) := fwrite f tmp in
          let s := set_streams (<[handle := f]> (streams s)) s in
          if negb (written =? count) && ferror f then Some (ret A0 (-1) s)
          else
            let total_write := total_write +u written in
            if negb (total_write =? arg s A2) then None
            else Some (ret A0 total_write s)
      end
  end.

(** A read into the buffer of [PREALLOC_SIZE] bytes. *)
Definition fread_tmp (f : FILE) (n : Z) : option (list Z * FILE) :=
  let '(bs, f) := fread f n in
  if PREALLOC_SIZE <? Z.of_nat (length bs) then None else Some (bs, f).

(** The loop of [syscall_read]: the stream, the memory, and what is read and left, or a failed
    write to guest memory. *)
Fixpoint read_loop (fuel : nat) (m : memory_t) (buf total_read count : Z) (f : FILE)
    : option (FILE * memory_t * option (Z * Z)) :=
  if PREALLOC_SIZE <? count then
    match fuel with
    | O => None
    | S fuel =>
        '(tmp, f) ← fread_tmp f PREALLOC_SIZE;
        let r := Z.of_nat (length tmp) in
        '(ok, m) ← memory_write m (buf +u total_read) (Some tmp) r;
        if negb ok then Some (f, m, None)
        else
          let count := count -u r in
          let total_read := total_read +u r in
          if negb (r =? PREALLOC_SIZE) then Some (f, m, Some (total_read, count))
          else read_loop fuel m buf total_read count f
    end
  else Some (f, m, Some (total_read, count)).

Definition syscall_read (s : sys) : option sys :=
  let fd := arg s A0 in
  let buf := arg s A1 in
  let count := arg s A2 in
  match find_fd s fd with
  | None => Some (ret A0 (-1) s)
  | Some handle =>
      f ← streams s !! handle;
      '(f, m, r) ← read_loop (Z.to_nat (count / PREALLOC_SIZE)) (mem (rv s)) buf 0 count f;
      let done f m s := set_rv (set_mem m (rv s)) (set_streams (<[handle := f]> (streams s)) s) in
      match r with
      | None => Some (ret A0 (-1) (done f m s))
      | Some (total_read, count) =>
          '(tmp, f) ← fread_tmp f count;
          let r := Z.of_nat (length tmp) in
          '(ok, m) ← memory_write m (buf +u total_read) (Some tmp) r;
          let s := done f m s in
          if negb ok then Some (ret A0 (-1) s)
          else
            let total_read := total_read +u r in
            if negb (total_read =? arg s A2) && ferror f then Some (ret A0 (-1) s)
            else Some (ret A0 total_read s)
      end
  end.

(** [system] is whether SYSTEM is built in. *)
Definition syscall_close (system : bool) (s : sys) : option sys :=
  let fd := arg s A0 in
  if negb system && (fd <? 3) && negb (on_exit s) && truth (exit_addr s) then Some (ret A0 (-1) s)
  else if 3 <=? fd then
    match map_find (fd_map s) (s32 fd) with
    | None => Some (ret A0 0 s)
    | Some n =>
        f ← streams s !! data n;
        let s := set_streams (delete (data n) (streams s)) s in
        if fclose f then Some (ret A0 (-1) s)
        else
          '(m, _) ← map_erase (fd_map s) (Some n);
          Some (ret A0 0 (ret A0 0 (set_fd_map m s)))
    end
  else Some (ret A0 0 s).

Definition syscall_lseek (s : sys) : option sys :=
  let fd := arg s A0 in
  let offset := arg s A1 in
  let whence := arg s A2 in
  match find_fd s fd with
  | None => Some (ret A0 (-1) s)
  | Some handle =>
      f ← streams s !! handle;
      let '(failed, f) := fseek f offset (s32 whence) in
      let s := set_streams (<[handle := f]> (streams s)) s in
      if failed then Some (ret A0 (-1) s)
      else
        let pos := ftell f in
        Some (if pos =? -1 then ret A0 (-1) s else ret A0 pos s)
  end.

Definition syscall_fstat (s : sys) : option sys := Some s.

(** [strnlen(mem_base + addr, n)] *)
Fixpoint strnlen (m : memory_t) (addr : Z) (n : nat) : nat :=
  match n with
  | O => O
  | S n => if byte_at m addr =? 0 then O else S (strnlen m (addr + 1) n)
  end.

Definition syscall_open (s : sys) : option sys :=
  let name := arg s A0 in
  let flags := arg s A1 in
  let m := mem (rv s) in
  if mem_size m <=? name then Some (ret A0 (-1) s)
  else
    let max_len := Z.to_nat (mem_size m - name) in
    let name_len := strnlen m name max_len in
    if (name_len =? max_len)%nat then Some (ret A0 (-1) s)
    else if negb malloc_ok then Some (ret A0 (-1) s)
    else
      name_str ← memory_read m name (Z.of_nat name_len);
      match get_mode_str flags with
      | None => Some (ret A0 (-1) s)
      | Some mode_str =>
          match fopen name_str mode_str with
          | None => Some (ret A0 (-1) s)
          | Some f =>
              let handle := fresh (dom (streams s)) in
              let s := set_streams (<[handle := f]> (streams s)) s in
              fd ← find_free_fd (fd_map s);
              '(_, m) ← map_insert (malloc (fd_map s)) 0 (fd_map s) (Some fd) (Some handle);
              Some (ret A0 fd (set_fd_map m s))
          end
      end.

(** * Other calls *)

Definition syscall_exit (s : sys) : option sys :=
  let s := set_rv (set_halt true (rv s)) s in
  Some (set_exit_code (s32 (arg s A0)) s).

Definition syscall_brk (s : sys) : option sys :=
  let increment := arg s A0 in
  let s := if truth increment then set_break_addr increment s else s in
  Some (ret A0 (break_addr s) s).

Definition syscall_gettimeofday (s : sys) : option sys :=
  let tv := arg s A0 in
  s ← (if truth tv
       then s ← write_word tv rv_gettimeofday.1 s; write_word (tv +u 8) rv_gettimeofday.2 s
       else Some s);
  Some (ret A0 0 s).

Definition syscall_clock_gettime (s : sys) : option sys :=
  let id := arg s A0 in
  let tp := arg s A1 in
  if negb ((id =? 0) || (id =? 1)) then Some (ret A0 (-1) s)
  else
    s ← (if truth tp
         then s ← write_word tp rv_clock_gettime.1 s; write_word (tp +u 8) rv_clock_gettime.2 s
         else Some s);
    Some (ret A0 0 s).

(** * SBI *)

Definition sbi_ret (err v : Z) (s : sys) : sys := ret A1 v (ret A0 err s).

Definition syscall_sbi_timer (s : sys) : option sys :=
  match arg s A6 with
  | 0 => Some (sbi_ret SBI_SUCCESS 0 (set_attr_timer (Z.lor (Z.shiftl (arg s A1) 32) (arg s A0)) s))
  | _ => Some (sbi_ret SBI_ERR_NOT_SUPPORTED 0 s)
  end.

Definition syscall_sbi_base (s : sys) : option sys :=
  match arg s A6 with
  | 1 => Some (sbi_ret SBI_SUCCESS SBI_IMPL_ID s)
  | 2 => Some (sbi_ret SBI_SUCCESS SBI_IMPL_VERSION s)
  | 4 => Some (sbi_ret SBI_SUCCESS (csr_mvendorid s) s)
  | 5 => Some (sbi_ret SBI_SUCCESS (csr_marchid s) s)
  | 6 => Some (sbi_ret SBI_SUCCESS (csr_mimpid s) s)
  | 0 => Some (sbi_ret SBI_SUCCESS 3 s)
  | 3 =>
      let eid := arg s A0 in
      let available := (eid =? SBI_EID_BASE) || (eid =? SBI_EID_TIMER) || (eid =? SBI_EID_RST) in
      Some (sbi_ret SBI_SUCCESS (b2u available) s)
  | _ => Some (sbi_ret SBI_ERR_NOT_SUPPORTED 0 s)
  end.

Definition syscall_sbi_rst (s : sys) : option sys :=
  match arg s A6 with
  | 0 => Some (sbi_ret SBI_SUCCESS 0 (set_rv (set_halt true (rv s)) s))
  | _ => Some (sbi_ret SBI_ERR_NOT_SUPPORTED 0 s)
  end.

(** * Dispatch *)

Definition syscall_handler (system : bool) (s : sys) : option sys :=
  let number := arg s A7 in
  s ← (match number with
       | 57 => syscall_close system s
       | 62 => syscall_lseek s
       | 63 => syscall_read s
       | 64 => syscall_write s
       | 80 => syscall_fstat s
       | 93 => syscall_exit s
       | 169 => syscall_gettimeofday s
       | 214 => syscall_brk s
       | 403 => syscall_clock_gettime s
       | 1024 => syscall_open s
       | 0x10 => if system then syscall_sbi_base s else Some s
       | 0x54494D45 => if system then syscall_sbi_timer s else Some s
       | 0x53525354 => if system then syscall_sbi_rst s else Some s
       | _ => Some s
       end);
  Some (set_error (s32 (arg s A0)) s).
End Syscalls.
