(* ===== verification/SyscallProofs.v ===== *)
(** System calls transfer exactly the bytes they are asked for between guest RAM and the
    streams of the host, whatever the size of the buffer in between, and manage descriptors
    as a table of open files. *)

From S2P Require Import Prelude.
From S2P Require Import Opcode.
From S2P Require Import Decode.
From S2P Require Import Machine.
From S2P Require Import MachineFacts.
From S2P Require Import Invariant.
From S2P Require Import GuestRam.
From S2P Require Import GuestRamProofs.
From S2P Require Import RbMap.
From S2P Require Import RbMapProofs.
From S2P Require Import Syscall.

(** * What is relied on in stdio

    The end-of-file indicator of a stream and what was sent to it.  [fread] gives no more bytes
    than it is asked for, and when it gives fewer it has set the indicator of the end of the
    file or of an error; the C standard has it give none while the former is set.  A short
    [fwrite] sets the error indicator. *)
Class stdio_laws `{stdio} := {
  feof : FILE -> bool;
  sent : FILE -> list Z;
  fread_law f n : 0 <= n -> let '(bs, f') := fread f n in
    Z.of_nat (length bs) <= n /\
    (Z.of_nat (length bs) < n -> feof f' = true \/ ferror f' = true);
  feof_law f n : 0 <= n -> feof f = true -> let '(bs, f') := fread f n in
    bs = [] /\ feof f' = true;
  fwrite_law f bs : let '(w, f') := fwrite f bs in 0 <= w <= Z.of_nat (length bs) /\
    sent f' = sent f ++ take (Z.to_nat w) bs /\ (w <> Z.of_nat (length bs) -> ferror f' = true) }.

Section Transfer.
Context `{Hstd : stdio, !stdio_laws}.

(** * Writing *)

(** The loop sends the bytes in order until what is left fits the buffer, or an error. *)
Lemma write_loop_spec m buffer N fuel : forall total count f,
  0 <= buffer -> 0 <= total -> 0 <= count -> total + count = N -> buffer + N <= mem_size m -> mem_size m <= 2 ^ 32 ->
  buffer < 2 ^ 32 -> N < 2 ^ 32 ->
  count <= PREALLOC_SIZE * (Z.of_nat fuel + 1) ->
  exists f' r, write_loop fuel m buffer total count f = Some (f', r) /\
    match r with
    | Some (total', count') => total' + count' = N /\ total <= total' /\ 0 <= count' <= PREALLOC_SIZE /\ (count' = 0 -> count = 0) /\
        sent f' = sent f ++ read_block m (buffer + total) (Z.to_nat (total' - total))
    | None => ferror f' = true /\ exists k, sent f' = sent f ++ take k (read_block m (buffer + total) (Z.to_nat count))
    end.
Proof.
  unfold PREALLOC_SIZE. induction fuel as [|fuel IH]; intros total count f Hb0 Ht Hc HN HM HM2 Hbu HN2 Hf;
    cbn [write_loop]; unfold PREALLOC_SIZE; destruct (Z.ltb_spec 4096 count) as [Hlt|Hge]; try lia.
  - exists f, (Some (total, count)). split_and!; [done|lia..|]. by rewrite Z.sub_diag, app_nil_r.
  - rewrite u32_small by (unfold is_u32; lia). rewrite memory_read_some by lia. cbn [mbind option_bind].
    set (tmp := read_block m (buffer + total) (Z.to_nat 4096)).
    assert (Z.of_nat (length tmp) = 4096) as Hl by (subst tmp; rewrite length_read_block; lia).
    pose proof (fwrite_law f tmp) as Hw. destruct (fwrite f tmp) as [w f1]. destruct Hw as (Hw1 & Hw2 & Hw3).
    assert (read_block m (buffer + total) (Z.to_nat count) = tmp ++ read_block m (buffer + total + 4096) (Z.to_nat (count - 4096))) as Hsp.
    { replace (Z.to_nat count) with (Z.to_nat 4096 + Z.to_nat (count - 4096))%nat by lia. rewrite read_block_app. done. }
    destruct (Z.eqb_spec w 4096) as [->|Hne]; cbn [negb andb].
    + rewrite u32_small by (unfold is_u32; lia).
      destruct (IH (total + 4096) (count - 4096) f1) as (f' & r & -> & Hr); [lia..|]. exists f', r. split; [done|].
      rewrite take_ge in Hw2 by lia. destruct r as [[total' count']|].
      * destruct Hr as (H1 & H2 & H3 & H0 & H4). split_and!; [lia..|]. rewrite H4, Hw2, <- app_assoc. f_equal.
        replace (Z.to_nat (total' - total)) with (Z.to_nat 4096 + Z.to_nat (total' - (total + 4096)))%nat by lia.
        rewrite read_block_app. do 2 f_equal. lia.
      * destruct Hr as (He & k & Hk). split; [done|]. exists (length tmp + k)%nat. rewrite Hk, Hw2, Hsp, <- app_assoc.
        rewrite take_app_add. by replace (buffer + total + 4096) with (buffer + (total + 4096)) by lia.
    + rewrite Hw3 by lia. exists f1, None. split_and!; [done|by apply Hw3; lia|]. exists (Z.to_nat w).
      rewrite Hw2, Hsp, take_app_le by lia. done.
  - exists f, (Some (total, count)). split_and!; [done|lia..|]. by rewrite Z.sub_diag, app_nil_r.
Qed.

(** The result register. *)
Lemma arg_ret r v (s : sys) : length (X (rv s)) = 32%nat -> 0 < r < 32 -> arg (ret r v s) r = u32 v.
Proof.
  intros Hl Hr. unfold arg, ret, rv_get_reg, rv_set_reg, N_RV_REGS, rv_reg_zero. cbn [rv set_rv].
  rewrite (proj2 (Z.ltb_lt _ _)) by lia. rewrite (proj2 (Z.eqb_neq _ _)) by lia. cbn [andb negb].
  unfold reg, set_reg. cbn [X set_X]. rewrite nth_lookup, list_lookup_insert_eq by lia. done.
Qed.
Lemma ret_frame r v (s : sys) :
  streams (ret r v s) = streams s /\ mem (rv (ret r v s)) = mem (rv s) /\ fd_map (ret r v s) = fd_map s.
Proof. unfold ret, rv_set_reg. cbn [rv set_rv streams fd_map]. by case_match. Qed.
Lemma length_X_ret r v (s : sys) : length (X (rv (ret r v s))) = length (X (rv s)).
Proof.
  unfold ret, rv_set_reg, set_reg. cbn [rv set_rv]. case_match; [|done]. cbn [X set_X]. apply length_insert.
Qed.

(** A call with a buffer in RAM: its address in a1, its length in a2. *)
Record buffer_call (s : sys) : Prop := {
  bc_regs : length (X (rv s)) = 32%nat;
  bc_addr : is_u32 (arg s A1);
  bc_count : is_u32 (arg s A2);
  bc_range : arg s A1 + arg s A2 <= mem_size (mem (rv s));
  bc_ram : mem_size (mem (rv s)) <= 2 ^ 32 }.

(** C33: [write].  For an open descriptor and a buffer in RAM, the call ends, no assertion
    fails, and RAM is unchanged; either all bytes of the buffer are sent to the stream, in
    order, and their number is returned, or the stream reports an error, the result is -1 and
    a prefix of the buffer was sent. *)
Theorem syscall_write_sends (s : sys) handle f :
  find_fd s (arg s A0) = Some handle -> streams s !! handle = Some f -> buffer_call s ->
  exists s' f', syscall_write s = Some s' /\ streams s' = <[handle := f']> (streams s) /\
    mem (rv s') = mem (rv s) /\ fd_map s' = fd_map s /\
    let buffer := read_block (mem (rv s)) (arg s A1) (Z.to_nat (arg s A2)) in
    (arg s' A0 = arg s A2 /\ sent f' = sent f ++ buffer \/
     arg s' A0 = 0xffffffff /\ ferror f' = true /\ exists k, sent f' = sent f ++ take k buffer).
Proof.
  intros Hfd Hf [HX Hb Hc Hm Hm2]. unfold is_u32 in *. unfold syscall_write. rewrite Hfd. rewrite Hf. cbn [mbind option_bind].
  destruct (write_loop_spec (mem (rv s)) (arg s A1) (arg s A2) (Z.to_nat (arg s A2 / PREALLOC_SIZE)) 0 (arg s A2) f)
    as (f1 & r & -> & Hr); [lia..| |].
  { unfold PREALLOC_SIZE. rewrite Z2Nat.id by mlia. mlia. }
  cbn [mbind option_bind]. rewrite Z.add_0_r in Hr. destruct r as [[total count]|].
  2: { eexists _, f1. split; [done|]. destruct (ret_frame A0 (-1) (set_streams (<[handle:=f1]> (streams s)) s)) as (-> & -> & ->).
       do 3 (split; [done|]). right.
       split; [by rewrite arg_ret|done]. }
  destruct Hr as (H1 & H2 & H3 & H0 & H4). rewrite Z.sub_0_r in H4.
  assert (total + arg s A1 < 2 ^ 32) as Hnw by (destruct (decide (count = 0)); lia). rewrite u32_small by (unfold is_u32; lia).
  rewrite memory_read_some by lia. cbn [mbind option_bind].
  set (tmp := read_block (mem (rv s)) (arg s A1 + total) (Z.to_nat count)).
  assert (Z.of_nat (length tmp) = count) as Hl by (subst tmp; rewrite length_read_block; lia).
  assert (read_block (mem (rv s)) (arg s A1) (Z.to_nat (arg s A2))
    = read_block (mem (rv s)) (arg s A1) (Z.to_nat total) ++ tmp) as Hsp.
  { replace (Z.to_nat (arg s A2)) with (Z.to_nat total + Z.to_nat count)%nat by lia. rewrite read_block_app.
    subst tmp. do 2 f_equal. lia. }
  pose proof (fwrite_law f1 tmp) as Hw. destruct (fwrite f1 tmp) as [w f2]. destruct Hw as (Hw1 & Hw2 & Hw3).
  change (arg (set_streams (<[handle:=f2]> (streams s)) s) A2) with (arg s A2).
  destruct (Z.eqb_spec w count) as [->|Hne]; cbn [negb andb].
  - rewrite u32_small by (unfold is_u32; lia). rewrite H1, Z.eqb_refl. cbn [negb].
    eexists _, f2. split; [done|]. destruct (ret_frame A0 (arg s A2) (set_streams (<[handle:=f2]> (streams s)) s)) as (-> & -> & ->).
    do 3 (split; [done|]). left.
    split; [rewrite arg_ret by done; apply u32_small; unfold is_u32; lia|].
    rewrite Hw2, H4, Hsp, <- app_assoc, (take_ge tmp) by lia. done.
  - rewrite Hw3 by lia. eexists _, f2. split; [done|].
    destruct (ret_frame A0 (-1) (set_streams (<[handle:=f2]> (streams s)) s)) as (-> & -> & ->).
    do 3 (split; [done|]). right.
    split; [by rewrite arg_ret|]. split; [by apply Hw3; lia|].
    exists (length (read_block (mem (rv s)) (arg s A1) (Z.to_nat total)) + Z.to_nat w)%nat.
    by rewrite Hw2, H4, Hsp, <- app_assoc, take_app_add.
Qed.

(** * Reading *)

(** Some calls of [fread] take [f] to [f'] and deliver these bytes in order. *)
Inductive reads : FILE -> list Z -> FILE -> Prop :=
  | reads_nil f : reads f [] f
  | reads_cons f n bs f1 bs' f2 : fread f n = (bs, f1) -> reads f1 bs' f2 -> reads f (bs ++ bs') f2.
(** No read of the stream reports an error. *)
Definition error_free (f : FILE) : Prop := forall bs f', reads f bs f' -> ferror f' = false.

Lemma reads_once f n bs f' : fread f n = (bs, f') -> reads f bs f'.
Proof. intros E. rewrite <- (app_nil_r bs). eapply reads_cons; [exact E|constructor]. Qed.
Lemma reads_trans f1 bs1 f2 bs2 f3 : reads f1 bs1 f2 -> reads f2 bs2 f3 -> reads f1 (bs1 ++ bs2) f3.
Proof. induction 1 as [|? ? ? ? ? ? E _ IH]; intros H2; [done|]. rewrite <- app_assoc. by econstructor; [|apply IH]. Qed.
Lemma error_free_reads f bs f' : error_free f -> reads f bs f' -> error_free f'.
Proof. intros He H1 bs' f2 H2. eapply He. by eapply reads_trans. Qed.

Lemma fread_tmp_spec f n : 0 <= n -> n <= PREALLOC_SIZE \/ feof f = true ->
  exists bs f', fread_tmp f n = Some (bs, f') /\ reads f bs f' /\ Z.of_nat (length bs) <= n /\
    (Z.of_nat (length bs) < n -> feof f' = true \/ ferror f' = true).
Proof.
  intros Hn Hs. unfold fread_tmp. pose proof (fread_law f n Hn) as Hl. pose proof (feof_law f n Hn) as He.
  destruct (fread f n) as [bs f'] eqn:E. destruct Hl as [Hl Hshort].
  assert (Z.of_nat (length bs) <= PREALLOC_SIZE) as Hfit.
  { destruct Hs as [Hs|Hs]; [lia|]. destruct (He Hs) as [-> _]. cbn. unfold PREALLOC_SIZE. lia. }
  rewrite (proj2 (Z.ltb_ge _ _)) by done. exists bs, f'. split_and!; try done. by eapply reads_once.
Qed.

Lemma read_loop_spec buf N fuel : forall total count m f,
  0 <= buf -> 0 <= total -> 0 <= count -> total + count = N -> buf + N <= mem_size m -> mem_size m <= 2 ^ 32 ->
  buf < mem_size m -> N < 2 ^ 32 -> count <= PREALLOC_SIZE * (Z.of_nat fuel + 1) ->
  count <= PREALLOC_SIZE \/ error_free f ->
  exists bs f' m' total' count', read_loop fuel m buf total count f = Some (f', m', Some (total', count')) /\
    reads f bs f' /\ total' + count' = N /\ total' = total + Z.of_nat (length bs) /\
    0 <= count' /\ (count' = 0 -> count = 0) /\ m' = store_bytes m (buf + total) bs /\
    (count' <= PREALLOC_SIZE \/ feof f' = true).
Proof.
  unfold PREALLOC_SIZE. induction fuel as [|fuel IH]; intros total count m f Hb0 Ht Hc HN HM HM2 Hbu HN2 Hf Hok;
    cbn [read_loop]; unfold PREALLOC_SIZE; destruct (Z.ltb_spec 4096 count) as [Hlt|Hge]; try lia.
  1, 3: exists [], f, m, total, count; split_and!; try done; [constructor|cbn; lia|by left].
  destruct Hok as [?|Hok]; [lia|].
  destruct (fread_tmp_spec f 4096) as (tmp & f1 & -> & Hr1 & Hl & Hshort); [lia|left; unfold PREALLOC_SIZE; lia|].
  cbn [mbind option_bind]. rewrite (u32_small (buf + total)) by (unfold is_u32; lia).
  rewrite memory_write_some by lia. cbn [mbind option_bind negb]. rewrite !u32_small by (unfold is_u32; lia).
  destruct (Z.eqb_spec (Z.of_nat (length tmp)) 4096) as [He|Hne]; cbn [negb].
  - rewrite He. destruct (IH (total + 4096) (count - 4096) (store_bytes m (buf + total) tmp) f1)
      as (bs & f' & m' & total' & count' & -> & H1 & H2 & H3 & H4 & H5 & -> & H7);
      try (rewrite ?store_bytes_size; lia); [right; by eapply error_free_reads|].
    eexists (tmp ++ bs), f', _, total', count'. split; [done|]. rewrite length_app.
    split; [by eapply reads_trans|]. do 4 (split; [lia|]). split; [|done].
    rewrite store_bytes_app, He. f_equal. lia.
  - exists tmp, f1. eexists _, _, _. split; [done|]. split; [done|]. do 4 (split; [lia|]). split; [done|].
    right. destruct Hshort as [?|Herr]; [lia|done|]. by rewrite (Hok tmp f1 Hr1) in Herr.
Qed.

(** C34: [read].  For an open descriptor and a buffer in RAM, when at most the 4096 bytes of
    the intermediate buffer are asked for or the stream has no read error, the call ends without
    overrunning that buffer; the bytes that it reads from the stream, at most as many as asked
    for, are put into the guest's buffer in order and nothing else of RAM changes.  It returns
    their number, fewer than asked for only at the end of the file, or -1 when there were fewer
    and the stream reports an error. *)
Theorem syscall_read_fills (s : sys) handle f :
  find_fd s (arg s A0) = Some handle -> streams s !! handle = Some f -> buffer_call s ->
  arg s A1 < mem_size (mem (rv s)) -> arg s A2 <= PREALLOC_SIZE \/ error_free f ->
  exists bytes s' f', syscall_read s = Some s' /\ reads f bytes f' /\
    Z.of_nat (length bytes) <= arg s A2 /\
    streams s' = <[handle := f']> (streams s) /\ fd_map s' = fd_map s /\
    mem (rv s') = store_bytes (mem (rv s)) (arg s A1) bytes /\
    (arg s' A0 = Z.of_nat (length bytes) /\
       (Z.of_nat (length bytes) < arg s A2 -> feof f' = true /\ ferror f' = false) \/
     arg s' A0 = 0xffffffff /\ ferror f' = true /\ Z.of_nat (length bytes) < arg s A2).
Proof.
  intros Hfd Hf [HX Hb Hc Hm Hm2] Hbu Hok. unfold is_u32 in *. unfold syscall_read. rewrite Hfd, Hf. cbn [mbind option_bind].
  destruct (read_loop_spec (arg s A1) (arg s A2) (Z.to_nat (arg s A2 / PREALLOC_SIZE)) 0 (arg s A2) (mem (rv s)) f)
    as (bs & f1 & m1 & total & count & -> & Hr1 & H1 & H2 & H3 & H4 & -> & H7); [lia..| |done|].
  { unfold PREALLOC_SIZE. rewrite Z2Nat.id by mlia. mlia. }
  cbn [mbind option_bind]. rewrite Z.add_0_r in *.
  destruct (fread_tmp_spec f1 count H3 H7) as (tmp & f2 & -> & Hr2 & Hl & Hshort). cbn [mbind option_bind].
  assert (Z.of_nat (length (bs ++ tmp)) = total + Z.of_nat (length tmp)) as Hbl by (rewrite length_app; lia).
  assert (total + arg s A1 < mem_size (mem (rv s))) as Hnw by (destruct (decide (count = 0)); lia).
  rewrite (u32_small (arg s A1 + total)) by (unfold is_u32; lia). rewrite memory_write_some by (rewrite store_bytes_size; lia).
  cbn [mbind option_bind negb]. rewrite u32_small by (unfold is_u32; lia).
  assert (store_bytes (store_bytes (mem (rv s)) (arg s A1) bs) (arg s A1 + total) tmp
    = store_bytes (mem (rv s)) (arg s A1) (bs ++ tmp)) as ->.
  { rewrite store_bytes_app. do 2 f_equal. lia. }
  pose proof (reads_trans _ _ _ _ _ Hr1 Hr2) as Hr.
  set (s1 := set_rv _ (set_streams _ s)). change (arg s1 A2) with (arg s A2).
  destruct (negb (total + Z.of_nat (length tmp) =? arg s A2) && ferror f2) eqn:Eerr.
  - apply andb_true_iff in Eerr as [Ene%negb_true_iff%Z.eqb_neq Eer].
    eexists (bs ++ tmp), _, f2. split; [done|]. destruct (ret_frame A0 (-1) s1) as (-> & -> & ->).
    split; [done|]. split; [lia|]. do 3 (split; [done|]). right. split; [by rewrite arg_ret|]. split; [done|lia].
  - eexists (bs ++ tmp), _, f2. split; [done|]. destruct (ret_frame A0 (total + Z.of_nat (length tmp)) s1) as (-> & -> & ->).
    split; [done|]. split; [lia|]. do 3 (split; [done|]). left. split.
    + rewrite arg_ret by done. rewrite u32_small; [lia|unfold is_u32; lia].
    + intros Hlt. apply andb_false_iff in Eerr as [Ee%negb_false_iff%Z.eqb_eq|Ee]; [lia|]. split; [|done].
      destruct Hshort as [?|?]; [lia|done|congruence].
Qed.
End Transfer.

(** * Descriptors *)

Record fd_table (m : map_internal Z Z) : Prop := {
  fd_wf : map_wf m;
  fd_cmp : comparator m = map_cmp_int;
  fd_few : map_count m < 2 ^ 31 - 4 }.

Lemma free_fd_from_spec fuel m : forall i,
  (exists j, free_fd_from fuel m i = Some j /\ i <= j /\ map_find m j = None /\
    forall x, i <= x < j -> is_Some (map_find m x)) \/
  (free_fd_from fuel m i = None /\ forall x, i <= x < i + Z.of_nat fuel -> is_Some (map_find m x)).
Proof.
  induction fuel as [|fuel IH]; intros i; cbn [free_fd_from]; [right; split; [done|lia]|].
  destruct (map_find m i) as [n|] eqn:E; cbn [map_at_end].
  - destruct (IH (i + 1)) as [(j & -> & H1 & H2 & H3)|[-> H]].
    + left. exists j. split_and!; [done|lia|done|]. intros x Hx. destruct (decide (x = i)) as [->|]; [by rewrite E|apply H3; lia].
    + right. split; [done|]. intros x Hx. destruct (decide (x = i)) as [->|]; [by rewrite E|apply H; lia].
  - left. exists i. split_and!; [done|lia|done|lia].
Qed.

(** The search ends at the least free descriptor. *)
Lemma find_free_fd_spec m : fd_table m ->
  exists i, find_free_fd (Some m) = Some i /\ 3 <= i <= 3 + map_count m /\ map_find (Some m) i = None /\
    forall x, 3 <= x < i -> is_Some (map_find (Some m) x).
Proof.
  intros [Hw Hc _]. unfold find_free_fd. cbn [map_size]. pose proof (wf_count _ Hw) as Hn.
  assert (comparator_laws (comparator m)) by (rewrite Hc; apply _).
  assert (forall l, (forall x, x ∈ l -> is_Some (map_find (Some m) x)) -> NoDup l ->
    Z.of_nat (length l) <= map_count m) as Hbound.
  { intros l Hl Hd. rewrite Hn. assert (l ⊆+ (key <$> elements (root m))) as Hs.
    { apply NoDup_submseteq; [done|]. intros x Hx. destruct (Hl x Hx) as [n En]. cbn [map_find] in En.
      apply (find_loop_spec (comparator m)) in En as [Hin <-]; [|apply Hw].
      by apply list_elem_of_fmap_2. }
    apply submseteq_length in Hs. rewrite length_fmap in Hs. lia. }
  destruct (free_fd_from_spec (S (Z.to_nat (map_count m))) (Some m) 3) as [(j & -> & H1 & H2 & H3)|[_ Hall]].
  - exists j. split_and!; [done|lia| |done|done]. destruct (Z.le_gt_cases j (3 + map_count m)) as [|Hgt]; [done|].
    specialize (Hbound (seqZ 3 (j - 3))). rewrite length_seqZ in Hbound.
    assert (Z.of_nat (Z.to_nat (j - 3)) <= map_count m); [|lia]. apply Hbound; [|apply NoDup_seqZ].
    intros x Hx%elem_of_seqZ. apply H3. lia.
  - specialize (Hbound (seqZ 3 (map_count m + 1))). rewrite length_seqZ in Hbound.
    assert (Z.of_nat (Z.to_nat (map_count m + 1)) <= map_count m); [|lia]. apply Hbound; [|apply NoDup_seqZ].
    intros x Hx%elem_of_seqZ. apply Hall. lia.
Qed.

Section Open.
Context `{Hstd : stdio} (malloc : fd_map_t -> Z -> option Z).

(** [open] and [close].  When the path is a string in RAM, the file can be opened and
    memory is left, [open] ends and returns the least descriptor from 3 on that is not in use,
    which from then on designates the opened stream, and no other descriptor changes; closing
    it then gives back the table of descriptors and the streams as they were. *)
Theorem open_close_roundtrip (s : sys) m f mode a :
  let name := arg s A0 in
  let path := read_block (mem (rv s)) name (strnlen (mem (rv s)) name (Z.to_nat (mem_size (mem (rv s)) - name))) in
  fd_map s = Some m -> fd_table m -> length (X (rv s)) = 32%nat ->
  malloc_fresh (malloc (Some m)) m -> malloc (Some m) (total_size (key_size m) (data_size m)) = Some a ->
  is_u32 name -> name + Z.of_nat (length path) < mem_size (mem (rv s)) ->
  get_mode_str (arg s A1) = Some mode -> fopen path mode = Some f -> fclose f = false ->
  exists fd s1 s2, find_free_fd (fd_map s) = Some fd /\ syscall_open malloc true s = Some s1 /\
    arg s1 A0 = fd /\ find_fd s1 fd = Some (fresh (dom (streams s))) /\
    streams s1 = <[fresh (dom (streams s)) := f]> (streams s) /\
    (forall x, is_s32 x -> x <> fd -> find_fd s1 x = find_fd s x) /\
    syscall_close false s1 = Some s2 /\ arg s2 A0 = 0 /\ streams s2 = streams s /\
    (forall x, find_fd s2 x = find_fd s x).
Proof.
  intros name path Hm Ht HX Hfresh Hmal Hname Hlen Hmode Hopen Hclose. unfold is_u32 in Hname.
  assert (length path = strnlen (mem (rv s)) name (Z.to_nat (mem_size (mem (rv s)) - name))) as Hpl by apply length_read_block.
  destruct (find_free_fd_spec m Ht) as (fd & Hfd & Hr & Hnone & _). pose proof (fd_few _ Ht) as Hfew.
  assert (comparator_laws (comparator m)) as Hlaws by (rewrite (fd_cmp _ Ht); apply _).
  destruct (map_insert_spec (malloc (Some m)) 0 m fd (Some (fresh (dom (streams s))))) as (r & m1 & Eins & Hw1 & Hc1 & Hins);
    [done|apply Ht|lia|done|]. rewrite Hnone, Hmal in Hins. destruct Hins as (-> & Hsz & Hfind).
  cbn [map_size from_option id] in *. set (h := fresh (dom (streams s))) in *.
  assert (u32 fd = fd /\ s32 fd = fd) as [E32 Es32].
  { split; [apply u32_small; unfold is_u32; lia|apply s32_small; unfold is_s32; lia]. }
  assert (syscall_open malloc true s = Some (ret A0 fd (set_fd_map (Some m1) (set_streams (<[h := f]> (streams s)) s)))) as Eopen.
  { unfold syscall_open. fold name. rewrite (proj2 (Z.leb_gt _ _)) by lia. rewrite <- Hpl.
    rewrite (proj2 (Nat.eqb_neq _ _)) by lia. cbn [negb]. rewrite memory_read_some, Nat2Z.id, Hpl by lia. fold path.
    cbn [mbind option_bind]. rewrite Hmode, Hopen. cbn [fd_map set_streams]. rewrite Hm, Hfd. cbn [mbind option_bind].
    fold h. by rewrite Eins. }
  set (s1 := ret A0 fd _) in Eopen.
  destruct (ret_frame A0 fd (set_fd_map (Some m1) (set_streams (<[h := f]> (streams s)) s))) as (Fs & Fm & Ff).
  fold s1 in Fs, Fm, Ff. cbn [streams fd_map set_fd_map set_streams] in Fs, Ff.
  assert (arg s1 A0 = fd) as Ha0 by (subst s1; by rewrite arg_ret).
  assert (streams s !! h = None) as Hh by apply not_elem_of_dom, is_fresh.
  destruct (map_erase_spec m1 fd (mk_node a fd h)) as (m2 & Eer & _ & _ & _ & Hfind2);
    [by rewrite Hc1|done|lia|by rewrite Hfind, decide_True|].
  set (s2 := ret A0 0 (ret A0 0 (set_fd_map (Some m2) (set_streams (streams s) s1)))).
  assert (syscall_close false s1 = Some s2) as Eclose.
  { unfold syscall_close. rewrite Ha0. cbn [negb andb]. rewrite (proj2 (Z.ltb_ge _ _)), (proj2 (Z.leb_le _ _)) by lia.
    cbn [andb]. rewrite Ff, Es32, Hfind, decide_True by done. cbn [data mbind option_bind].
    rewrite Fs, lookup_insert_eq. cbn [mbind option_bind]. rewrite Hclose. cbn [fd_map set_streams]. rewrite Ff, Eer.
    cbn [mbind option_bind]. rewrite delete_insert_id by done. done. }
  destruct (ret_frame A0 0 (ret A0 0 (set_fd_map (Some m2) (set_streams (streams s) s1)))) as (G1 & _ & G3).
  destruct (ret_frame A0 0 (set_fd_map (Some m2) (set_streams (streams s) s1))) as (G1' & _ & G3').
  fold s2 in G1, G3. rewrite G1' in G1. rewrite G3' in G3. cbn [streams fd_map set_fd_map set_streams] in G1, G3.
  assert (length (X (rv (ret A0 0 (set_fd_map (Some m2) (set_streams (streams s) s1))))) = 32%nat) as HX2.
  { subst s1. rewrite length_X_ret. cbn [rv set_fd_map set_streams]. by rewrite length_X_ret. }
  exists fd, s1, s2. split; [by rewrite Hm|]. split; [done|]. split; [done|].
  split; [unfold find_fd; rewrite Ff, Es32, Hfind, decide_True by done; done|]. split; [done|]. split.
  { intros x Hx Hne. unfold find_fd. rewrite Ff, Hm, s32_small, Hfind, decide_False by done. done. }
  split; [done|]. split; [subst s2; by rewrite arg_ret|]. split; [done|].
  intros x. unfold find_fd. rewrite G3, Hfind2, Hfind, Hm. destruct (decide (s32 x = fd)) as [->|]; [by rewrite Hnone|done].
Qed.
End Open.

(** * Streams in memory *)

(** The bytes to read, the end-of-file indicator, and the bytes written. *)
#[export] Instance mem_stdio : stdio := {
  FILE := list Z * bool * list Z;
  fread f n := let '(bs, eof, out) := f in
    if (eof : bool) then ([], f)
    else (take (Z.to_nat n) bs, (drop (Z.to_nat n) bs, bool_decide (Z.of_nat (length bs) < n), out));
  fwrite f bs := (Z.of_nat (length bs), (f.1, f.2 ++ bs));
  ferror _ := false;
  fseek f _ _ := (true, f);
  ftell _ := -1;
  fclose _ := false;
  fopen _ _ := Some ([7; 8; 9], false, []) }.
#[export] Instance mem_stdio_laws : stdio_laws.
Proof.
  refine {| feof := (fun f : @FILE mem_stdio => f.1.2); sent := (fun f : @FILE mem_stdio => f.2) |}.
  - intros f n Hn. cbn [fread mem_stdio fst snd]. destruct f as [[bs e] out]. cbn [fst snd].
    destruct e; cbn [length orb]; [split; [lia|by left]|]. rewrite length_take. split; [lia|]. intros Hlt. left.
    apply bool_decide_eq_true_2. lia.
  - intros f n Hn. destruct f as [[bs e] out]. cbn [fread mem_stdio fst snd]. intros ->. done.
  - intros f bs. cbn [fwrite mem_stdio]. split_and!; [lia|lia| |done]. cbn [snd]. rewrite Nat2Z.id. by rewrite firstn_all.
Defined.

Definition one_fd : map_internal Z Z := mk_map (Node (mk_node 4096 1 5) RB_BLACK NULL NULL) 4 8 1 map_cmp_int.
Lemma one_fd_table : fd_table one_fd.
Proof.
  split; [|done|done]. split; cbn; [eauto with llrb|repeat constructor| |done|by vm_compute].
  apply NoDup_singleton.
Qed.

(** Registers a0, a1, a2 of a call with RAM of 64 bytes and descriptor 1 open. *)
Definition demo_sys (a0 a1 a2 : Z) : sys :=
  mk_sys (set_reg A2 a2 (set_reg A1 a1 (set_reg A0 a0
      (set_mem (mk_memory {[8 := 72; 9 := 105]} 64) (reset_state ∅ 64)))))
    (Some one_fd) {[5 := ([1; 2; 3; 4], false, [0])]} 0 0 0 0 0 0 0 0 false.

Lemma syscall_write_sends_witness :
  exists s' f', syscall_write (demo_sys 1 8 2) = Some s' /\ streams s' !! 5 = Some f' /\
    (arg s' A0 = 2 /\ sent f' = [0; 72; 105] \/ arg s' A0 = 0xffffffff).
Proof.
  destruct (syscall_write_sends (demo_sys 1 8 2) 5 ([1; 2; 3; 4], false, [0])) as (s' & f' & E & Es & _ & _ & H).
  - reflexivity.
  - reflexivity.
  - split; [reflexivity|by vm_compute..].
  - exists s', f'. rewrite Es. split; [exact E|]. split; [by rewrite lookup_insert_eq|].
    destruct H as [[H1 H2]|[H1 _]]; [left|right; exact H1]. split; [exact H1|exact H2].
Defined.

Lemma mem_stdio_error_free (f : @FILE mem_stdio) : error_free f.
Proof. done. Qed.
(** A read of six bytes where the stream has four. *)
Lemma syscall_read_fills_witness :
  exists bytes s' f', syscall_read (demo_sys 1 8 6) = Some s' /\
    reads ([1; 2; 3; 4], false, [0]) bytes f' /\ Z.of_nat (length bytes) <= 6 /\
    mem (rv s') = store_bytes (mem (rv (demo_sys 1 8 6))) 8 bytes.
Proof.
  destruct (syscall_read_fills (demo_sys 1 8 6) 5 ([1; 2; 3; 4], false, [0]))
    as (bytes & s' & f' & E & Er & El & _ & _ & Em & _).
  - reflexivity.
  - reflexivity.
  - split; [reflexivity|by vm_compute..].
  - by vm_compute.
  - left. by vm_compute.
  - exists bytes, s', f'. split; [exact E|]. split; [exact Er|]. split; [exact El|exact Em].
Defined.

(** A stream whose first read fails and which delivers data afterwards: a read of 5000 bytes
    overruns the intermediate buffer of 4096. *)
Definition flaky_stdio : stdio := {|
  FILE := bool;
  fread failed n := (if failed then replicate (Z.to_nat n) 0 else [], true);
  fwrite _ _ := (0, true);
  ferror failed := failed;
  fseek f _ _ := (true, f);
  ftell _ := -1;
  fclose _ := false;
  fopen _ _ := None |}.
Definition flaky_laws : @stdio_laws flaky_stdio.
Proof.
  refine {| feof := (fun _ : @FILE flaky_stdio => false); sent := (fun _ : @FILE flaky_stdio => []) |}.
  - intros f n Hn. cbn. split; [|by right]. destruct f; [rewrite length_replicate; lia|cbn; lia].
  - done.
  - intros f bs. cbn. split_and!; try done. lia.
Defined.
Lemma read_error_overruns :
  @syscall_read flaky_stdio
    (@mk_sys flaky_stdio (set_reg A2 5000 (set_reg A1 0 (set_reg A0 1 (reset_state ∅ 8192))))
      (Some one_fd) {[5 := false]} 0 0 0 0 0 0 0 0 false) = None.
Proof. vm_compute. reflexivity. Qed.

Lemma open_close_roundtrip_witness :
  exists s1 s2, syscall_open (fun _ _ => Some 8192) true (demo_sys 8 0 0) = Some s1 /\ arg s1 A0 = 3 /\
    syscall_close false s1 = Some s2 /\ streams s2 = streams (demo_sys 8 0 0).
Proof.
  destruct (open_close_roundtrip (fun _ _ => Some 8192) (demo_sys 8 0 0) one_fd ([7; 8; 9], false, []) [114; 98] 8192)
    as (fd & s1 & s2 & Efd & E1 & E2 & _ & _ & _ & E3 & _ & E4 & _).
  - reflexivity.
  - exact one_fd_table.
  - reflexivity.
  - intros sz b [= <-]. split; [reflexivity|]. cbn. set_solver.
  - reflexivity.
  - by vm_compute.
  - by vm_compute.
  - reflexivity.
  - reflexivity.
  - reflexivity.
  - exists s1, s2. split; [exact E1|]. split; [|split; [exact E3|exact E4]].
    rewrite E2. assert (Some fd = Some 3) as [= ->]; [|reflexivity]. rewrite <- Efd. reflexivity.
Defined.
