(* ===== verification/Breakpoint.v ===== *)
(** The breakpoint table of src/src/breakpoint.c, a client of the red-black tree map, and the
    callbacks of src/src/gdbstub.c, through which a debugger reads and writes registers and memory,
    steps and continues. *)

From S2P Require Import Prelude.
From S2P Require Import Opcode.
From S2P Require Import Decode.
From S2P Require Import Machine.
From S2P Require Import Interp.
From S2P Require Import MachineFacts.
From S2P Require Import Invariant.
From S2P Require Import Block.
From S2P Require Import GuestRam.
From S2P Require Import GuestRamProofs.
From S2P Require Import RbMap.
From S2P Require Import RbMapProofs.

Record breakpoint_t := mk_bp { addr : Z; orig_insn : Z }.
Definition breakpoint_map_t : Type := option (map_internal Z breakpoint_t).

Definition bp_cmp (a b : Z) : map_cmp_t :=
  if a <? b then MAP_CMP_LESS else if b <? a then MAP_CMP_GREATER else MAP_CMP_EQUAL.

Definition breakpoint_map_new (malloc : Z -> option Z) : breakpoint_map_t :=
  map_new malloc 4 8 (Some bp_cmp).

Definition breakpoint_map_insert (malloc : Z -> option Z) (map : breakpoint_map_t) (a : Z)
    : option (bool * breakpoint_map_t) :=
  let bp := mk_bp a 0 in
  let it := map_find map a in
  if negb (map_at_end it) then Some (false, map)
  else map_insert malloc (mk_bp 0 0) map (Some a) (Some bp).

(** The stored [breakpoint_t] read as an object of type [breakpoint_t *]: its eight bytes,
    [addr] first, as a 64-bit little-endian pointer value. *)
Definition bp_as_pointer (bp : breakpoint_t) : Z :=
  Z.lor (addr bp) (Z.shiftl (orig_insn bp) 32).

(** The returned pointer value, 0 for [NULL]. *)
Definition breakpoint_map_find (map : breakpoint_map_t) (a : Z) : Z :=
  match map_find map a with
  | None => 0
  | Some n => bp_as_pointer (data n)
  end.

Definition breakpoint_map_del (map : breakpoint_map_t) (a : Z)
    : option (bool * breakpoint_map_t) :=
  match map_find map a with
  | None => Some (false, map)
  | Some n =>
      '(map, _) ← map_erase map (Some n);
      Some (true, map)
  end.

(** * The table as a set of addresses *)

#[export] Instance bp_cmp_laws : comparator_laws bp_cmp.
Proof.
  split; intros *; unfold bp_cmp;
    repeat match goal with |- context [?a <? ?b] => destruct (Z.ltb_spec a b) end;
    (split || idtac); intros; try done; lia.
Qed.

(** A breakpoint table as its operations leave it: every entry describes its own address. *)
Record bp_wf (m : map_internal Z breakpoint_t) : Prop := {
  bp_map : map_wf m;
  bp_comparator : comparator m = bp_cmp;
  bp_entries a n : map_find (Some m) a = Some n -> data n = mk_bp a 0 /\ is_u32 a }.

Definition bp_in (m : map_internal Z breakpoint_t) (a : Z) : Prop := map_find (Some m) a <> None.

Section Table.
Context (malloc : Z -> option Z) (m : map_internal Z breakpoint_t) (a : Z).
Context (Hm : bp_wf m) (Ha : is_u32 a) (Hroom : map_count m < 2 ^ 64 - 1).

Lemma bp_laws : comparator_laws (comparator m).
Proof. rewrite (bp_comparator _ Hm). apply _. Qed.

Lemma bp_insert_spec :
  malloc_fresh malloc m ->
  exists r m', breakpoint_map_insert malloc (Some m) a = Some (r, Some m') /\ bp_wf m' /\
    (r = true <-> ~ bp_in m a /\ malloc (total_size (key_size m) (data_size m)) <> None) /\
    forall b, bp_in m' b <-> bp_in m b \/ (r = true /\ b = a).
Proof.
  intros Hf. unfold breakpoint_map_insert, bp_in.
  destruct (map_find (Some m) a) as [n|] eqn:F; cbn [map_at_end negb].
  { exists false, m. split_and!; [done..|intuition congruence|intuition congruence]. }
  destruct (map_insert_spec malloc (mk_bp 0 0) m a (Some (mk_bp a 0)) bp_laws (bp_map _ Hm)
    Hroom Hf) as (r & m' & E & Hm' & Ec & H). rewrite F in H. exists r, m'. split; [done|].
  destruct (malloc _) as [p|].
  2: { destruct H as [-> ->]. split_and!; [done|intuition congruence|intuition congruence]. }
  destruct H as (-> & _ & Hfind). split_and!.
  - split; [done|by rewrite Ec; apply Hm|]. intros b n. rewrite Hfind.
    destruct (decide (b = a)) as [->|]; [by intros [= <-]|apply Hm].
  - intuition congruence.
  - intros b. rewrite Hfind. destruct (decide (b = a)); intuition congruence.
Qed.

Lemma bp_del_spec :
  exists r m', breakpoint_map_del (Some m) a = Some (r, Some m') /\ bp_wf m' /\
    (r = true <-> bp_in m a) /\ forall b, bp_in m' b <-> bp_in m b /\ b <> a.
Proof.
  unfold breakpoint_map_del, bp_in.
  destruct (map_find (Some m) a) as [n|] eqn:F.
  2: { exists false, m. split_and!; [done..| |]; [naive_solver|]. intros b. split; [|by intros []].
       intros Hb. split; [done|]. by intros ->. }
  destruct (map_erase_spec m a n bp_laws (bp_map _ Hm) Hroom F) as (m' & E & Hm' & Ec & _ & Hfind).
  rewrite E. cbn [mbind option_bind]. exists true, m'. split_and!; [done| |done|].
  - split; [done|by rewrite Ec; apply Hm|]. intros b n'. rewrite Hfind.
    destruct (decide (b = a)); [done|apply Hm].
  - intros b. rewrite Hfind. destruct (decide (b = a)); naive_solver.
Qed.

Lemma bp_find_spec : breakpoint_map_find (Some m) a <> 0 <-> bp_in m a /\ a <> 0.
Proof using Hm.
  clear malloc. unfold breakpoint_map_find, bp_in. destruct (map_find (Some m) a) as [n|] eqn:F; [|naive_solver].
  destruct (bp_entries _ Hm _ _ F) as [-> _]. unfold bp_as_pointer. cbn [addr orig_insn].
  rewrite Z.shiftl_0_l, Z.lor_0_r. naive_solver.
Qed.
End Table.

(** The breakpoint table is a set of addresses: insertion adds its address unless it is
    there or no memory is left, deletion removes it, both report whether they did; a lookup
    reports exactly the members other than address 0, whose entry looks like [NULL] because
    the entry itself is returned where its address is meant. *)
Theorem breakpoint_map_is_set malloc m a :
  bp_wf m -> is_u32 a -> map_count m < 2 ^ 64 - 1 -> malloc_fresh malloc m ->
  (exists r m', breakpoint_map_insert malloc (Some m) a = Some (r, Some m') /\ bp_wf m' /\
    (r = true <-> ~ bp_in m a /\ malloc (total_size (key_size m) (data_size m)) <> None) /\
    forall b, bp_in m' b <-> bp_in m b \/ (r = true /\ b = a)) /\
  (exists r m', breakpoint_map_del (Some m) a = Some (r, Some m') /\ bp_wf m' /\
    (r = true <-> bp_in m a) /\ forall b, bp_in m' b <-> bp_in m b /\ b <> a) /\
  (breakpoint_map_find (Some m) a <> 0 <-> bp_in m a /\ a <> 0).
Proof.
  intros Hm Ha Hr Hf. split_and!;
    [by apply bp_insert_spec|by apply bp_del_spec|by apply bp_find_spec].
Qed.

Definition empty_bp_map : map_internal Z breakpoint_t := mk_map NULL 4 8 0 bp_cmp.
Lemma empty_bp_map_wf : bp_wf empty_bp_map.
Proof.
  destruct (map_new_wf (fun _ => Some 64) 4 8 bp_cmp empty_bp_map) as (Hm & Hc & Hf);
    [done..|]. split; [exact Hm|exact Hc|]. intros a n. by rewrite Hf.
Qed.
Lemma breakpoint_map_is_set_witness :
  exists r m', breakpoint_map_insert (fun _ => Some 4096) (Some empty_bp_map) 0x1000
    = Some (r, Some m') /\ bp_in m' 0x1000.
Proof.
  destruct (breakpoint_map_is_set (fun _ => Some 4096) empty_bp_map 0x1000)
    as [(r & m' & E & _ & Hr & Hin) _].
  - apply empty_bp_map_wf.
  - unfold is_u32. lia.
  - reflexivity.
  - intros sz a [= <-]. split; [reflexivity|]. cbn. set_solver.
  - exists r, m'. split; [exact E|]. apply Hin. right. split; [|reflexivity].
    apply Hr. split; [intros H; by apply H|discriminate].
Defined.

(** * The callbacks of the debugger *)

Definition EFAULT : Z := 14.
Definition rv_get_reg_bytes (regno : Z) : Z := 4.

(** The error number and the value. *)
Definition rv_read_reg (s : riscv) (regno : Z) : Z * option Z :=
  if 32 <? regno then (EFAULT, None)
  else if regno =? 32 then (0, Some (PC s))
  else (0, Some (rv_get_reg s (u32 regno))).
Definition rv_write_reg (s : riscv) (regno data : Z) : Z * riscv :=
  if 32 <? regno then (EFAULT, s)
  else if regno =? 32 then (0, (rv_set_pc s data).1)
  else (0, rv_set_reg s (u32 regno) data).

(** One byte after the other; [None] is an access outside of RAM. *)
Fixpoint rv_read_mem (m : memory_t) (addr : Z) (len : nat) : option (list Z) :=
  match len with
  | O => Some []
  | S len => b ← mem_read 1 m (u32 addr); l ← rv_read_mem m (addr + 1) len; Some (b :: l)
  end.
Fixpoint rv_write_mem (m : memory_t) (addr : Z) (val : list Z) : option memory_t :=
  match val with
  | [] => Some m
  | b :: val => m ← mem_write 1 m (u32 addr) b; rv_write_mem m (addr + 1) val
  end.

Section Debug.
Context `{riscv_io} `{softfloat}.

(** The instance with the fields the stub uses. *)
Record gdb_target := mk_target { tg_vm : vm; tg_breakpoints : breakpoint_map_t; is_interrupted : bool }.

Definition rv_stepi (t : gdb_target) : option gdb_target :=
  v ← rv_step_debug (tg_vm t); Some (mk_target v (tg_breakpoints t) (is_interrupted t)).

(** The condition of the loop of [rv_cont] and the [break] in it. *)
Definition stops (t : gdb_target) : bool :=
  halt (rv (tg_vm t)) || is_interrupted t || truth (breakpoint_map_find (tg_breakpoints t) (PC (rv (tg_vm t)))).
(** [arrives n]: the debugger interrupts the guest, from another thread, before the test number
    [n]. *)
Definition rv_on_interrupt (t : gdb_target) : gdb_target := mk_target (tg_vm t) (tg_breakpoints t) true.
Definition arrival (arrives : nat -> bool) (n : nat) (t : gdb_target) : gdb_target :=
  if arrives n then rv_on_interrupt t else t.
Inductive continued :=
  | Resumed (t : gdb_target)
  | Cont_undef
  | Cont_fuel.
Fixpoint cont_loop (arrives : nat -> bool) (fuel n : nat) (t : gdb_target) : continued :=
  let t := arrival arrives n t in
  if stops t then Resumed (mk_target (tg_vm t) (tg_breakpoints t) false)
  else
    match fuel with
    | O => Cont_fuel
    | S fuel =>
        match rv_stepi t with None => Cont_undef | Some t => cont_loop arrives fuel (S n) t end
    end.
Definition rv_cont (arrives : nat -> bool) (fuel : nat) (t : gdb_target) : continued := cont_loop arrives fuel 0 t.

(** [BP_SOFTWARE] of the stub library. *)
Definition rv_set_bp (BP_SOFTWARE : Z) (malloc : Z -> option Z) (t : gdb_target) (addr type : Z) : option (bool * gdb_target) :=
  if negb (type =? BP_SOFTWARE) then Some (false, t)
  else '(r, m) ← breakpoint_map_insert malloc (tg_breakpoints t) addr;
       Some (r, mk_target (tg_vm t) m (is_interrupted t)).
Definition rv_del_bp (BP_SOFTWARE : Z) (t : gdb_target) (addr type : Z) : option (bool * gdb_target) :=
  if negb (type =? BP_SOFTWARE) then Some (false, t)
  else '(_, m) ← breakpoint_map_del (tg_breakpoints t) addr;
       Some (true, mk_target (tg_vm t) m (is_interrupted t)).

(** The guest after [n] single steps. *)
Fixpoint debug_steps (n : nat) (v : vm) : option vm :=
  match n with O => Some v | S n => v ← rv_step_debug v; debug_steps n v end.

Section Continue.
Context (m : map_internal Z breakpoint_t) (Hm : bp_wf m).
Context (arrives : nat -> bool).

(** The guest has to stop here: it has halted or it is at a breakpoint. *)
Definition stop_here (v : vm) : Prop := halt (rv v) = true \/ (bp_in m (PC (rv v)) /\ PC (rv v) <> 0).

Lemma stops_spec v i :
  stops (mk_target v (Some m) i) = true <-> stop_here v \/ i = true.
Proof.
  unfold stops, stop_here, truth. cbn. rewrite !orb_true_iff, negb_true_iff, Z.eqb_neq.
  rewrite (bp_find_spec m (PC (rv v)) Hm). tauto.
Qed.

Lemma cont_loop_steps n : forall k v fuel v',
  debug_steps n v = Some v' ->
  (forall i w, (i < n)%nat -> debug_steps i v = Some w -> ~ stop_here w /\ arrives (k + i)%nat = false) ->
  (stop_here v' \/ arrives (k + n)%nat = true) -> (n <= fuel)%nat ->
  cont_loop arrives fuel k (mk_target v (Some m) false) = Resumed (mk_target v' (Some m) false).
Proof.
  induction n as [|n IH]; intros k v fuel v' Hst Hgo Hstop Hf.
  - cbn in Hst. injection Hst as ->. rewrite Nat.add_0_r in Hstop.
    assert (E : stops (arrival arrives k (mk_target v' (Some m) false)) = true).
    { unfold arrival. destruct (arrives k) eqn:Ea; apply stops_spec; auto. }
    destruct fuel; cbn [cont_loop]; rewrite E; unfold arrival; by destruct (arrives k).
  - cbn [debug_steps] in Hst. destruct (rv_step_debug v) as [v1|] eqn:E1; [|done]. cbn in Hst.
    destruct fuel as [|fuel]; [lia|]. destruct (Hgo 0%nat v ltac:(lia) eq_refl) as [Hns Ha].
    rewrite Nat.add_0_r in Ha. cbn [cont_loop]. unfold arrival. rewrite Ha.
    destruct (stops (mk_target v (Some m) false)) eqn:Es.
    { apply stops_spec in Es. destruct Es; [done|discriminate]. }
    unfold rv_stepi. cbn [tg_vm tg_breakpoints is_interrupted]. rewrite E1. cbn [mbind option_bind].
    rewrite <- Nat.add_succ_comm in Hstop. apply IH; [done| |done|lia].
    intros i w Hi Hw. rewrite Nat.add_succ_comm. apply Hgo; [lia|]. cbn [debug_steps]. by rewrite E1.
Qed.

(** Continuing runs the guest by single steps up to the first state in which it has halted, is at
    a breakpoint (other than at address 0) or the debugger has interrupted it; it leaves the guest
    there, with no interrupt pending. *)
Theorem rv_cont_stops n v fuel v' :
  debug_steps n v = Some v' ->
  (forall i w, (i < n)%nat -> debug_steps i v = Some w -> ~ stop_here w /\ arrives i = false) ->
  (stop_here v' \/ arrives n = true) -> (n <= fuel)%nat ->
  rv_cont arrives fuel (mk_target v (Some m) false) = Resumed (mk_target v' (Some m) false).
Proof. apply (cont_loop_steps n 0). Qed.
End Continue.
End Debug.

(** Memory that the debugger has written reads back. *)
Lemma gdb_memory_roundtrip val : forall m a m', 0 <= a -> a + Z.of_nat (length val) <= 0x100000000 ->
  Forall is_u8 val -> rv_write_mem m a val = Some m' ->
  rv_read_mem m' a (length val) = Some val /\ mem_size m' = mem_size m /\
  forall x, 0 <= x < a -> mem_read 1 m' x = mem_read 1 m x.
Proof.
  induction val as [|b val IH]; intros m a m' Ha Hl Hb Hw; cbn in Hw.
  { by injection Hw as ->. }
  apply Forall_cons in Hb as [Hb Hv]. cbn [length] in Hl. rewrite u32_small in Hw by (unfold is_u32; lia).
  destruct (mem_write 1 m a b) as [m1|] eqn:E; [|done]. cbn in Hw.
  destruct (mem_write_read _ _ _ _ _ E) as (S1 & R1 & O1).
  destruct (IH m1 (a + 1) m' ltac:(lia) ltac:(lia) Hv Hw) as (R & Sz & O).
  split_and!; [|congruence|].
  - cbn [length rv_read_mem]. rewrite u32_small by (unfold is_u32; lia).
    rewrite O, R1 by lia. cbn [mbind option_bind]. rewrite R. cbn. by rewrite Z.mod_small.
  - intros x Hx. rewrite O by lia. apply O1. lia.
Qed.
(** A register other than [x0] that the debugger has written reads back, and so does an even
    program counter. *)
Lemma gdb_register_roundtrip s regno v : length (X s) = N_RV_REGS -> 0 < regno < 32 \/ (regno = 32 /\ Z.land v 1 = 0) ->
  exists s', rv_write_reg s regno v = (0, s') /\ rv_read_reg s' regno = (0, Some v).
Proof.
  intros Hs Hr. unfold rv_write_reg, rv_read_reg.
  destruct (Z.ltb_spec 32 regno); [lia|]. destruct (Z.eqb_spec regno 32) as [->|Hne].
  - destruct Hr as [?|[_ E]]; [lia|]. eexists. split; [done|]. unfold rv_set_pc. by rewrite E.
  - destruct Hr as [Hr|[? _]]; [|done]. eexists. split; [done|]. rewrite u32_small by (unfold is_u32; lia).
    unfold rv_set_reg, rv_get_reg, rv_reg_zero. change (Z.of_nat N_RV_REGS) with 32.
    destruct (Z.ltb_spec regno 32); [|lia]. destruct (Z.eqb_spec regno 0); [lia|]. cbn [andb negb].
    rewrite reg_set_reg_eq; [done..|]. unfold is_reg. lia.
Qed.
