(* ===== verification/Mus.v ===== *)
(** Conversion of MUS music to MIDI, [convert] and [mus2midi] of src/src/syscall_sdl.c.

    The file-scope variables are the record [mus]; a buffer of the heap is its address and its
    bytes.  [realloc] is an argument, it may fail and it may move the buffer.  The outer [None] is
    undefined behaviour (reading behind the score, writing behind [delta_bytes], writing through a
    pointer into a buffer that was moved, overflow of an [int]); the inner one is the result [NULL]
    or [-ENOMEM].

    The specification is independent of the code: the events of a MUS score and their bytes
    ([mus_encode]), what they mean as timed MIDI messages ([mus_play]), and a reader of MIDI files
    ([midi_play]). *)

From S2P Require Import Prelude.

Definition magic_mus : list Z := [0x4d; 0x55; 0x53; 0x1a].
Definition magic_midi : list Z := [0x4d; 0x54; 0x68; 0x64].
Definition magic_track : list Z := [0x4d; 0x54; 0x72; 0x6b].
Definition magic_end_of_track : list Z := [0x00; 0xff; 0x2f; 0x00].
Definition controller_map : list Z :=
  [-1; 0; 1; 7; 10; 11; 91; 93; 64; 67; 120; 123; 126; 127; 121; -1].

(** [sizeof(midi_header_t)] of the packed structure. *)
Definition sizeof_midi_header : Z := 14.

(** The object representation of the host: little-endian. *)
Fixpoint object (n : nat) (v : Z) : list Z :=
  match n with O => [] | S n => v mod 0x100 :: object n (v / 0x100) end.
Definition bswap16 (x : Z) : Z := x mod 0x100 * 0x100 + x / 0x100 mod 0x100.
Definition bswap32 (x : Z) : Z :=
  x mod 0x100 * 0x1000000 + x / 0x100 mod 0x100 * 0x10000 + x / 0x10000 mod 0x100 * 0x100
    + x / 0x1000000 mod 0x100.

(** [*p] of a buffer, and [memcpy] into one. *)
Definition deref (d : list Z) (p : Z) : option Z := if 0 <=? p then d !! Z.to_nat p else None.
Definition memcpy_to (b : list Z) (off : Z) (src : list Z) : option (list Z) :=
  if (0 <=? off) && (off + Z.of_nat (length src) <=? Z.of_nat (length b)) then
    Some (take (Z.to_nat off) b ++ src ++ drop (Z.to_nat off + length src) b)
  else None.
(** The sum of two [int]s. *)
Definition int_add (a b : Z) : option Z :=
  if (- 0x80000000 <=? a + b) && (a + b <? 0x80000000) then Some (a + b) else None.

(** [strncmp(s, t, n) == 0] *)
Fixpoint strncmp_eq (n : nat) (s t : list Z) : option bool :=
  match n with
  | O => Some true
  | S n =>
      a ← head s; b ← head t;
      if negb (a =? b) then Some false
      else if a =? 0 then Some true else strncmp_eq n (tail s) (tail t)
  end.

Record mus := mk_mus {
  midi_data : Z;               (* the address of the buffer *)
  midi_bytes : list Z;         (* its contents *)
  midi_size : Z;
  mus_pos : Z;                 (* relative to the start of the data *)
  mus_end_of_track : bool;
  delta_bytes : list Z;
  delta_cnt : Z;
  mus_channel : list Z }.

Definition set_buffer p b n s := mk_mus p b n (mus_pos s) (mus_end_of_track s) (delta_bytes s)
  (delta_cnt s) (mus_channel s).
Definition set_mus_pos p s := mk_mus (midi_data s) (midi_bytes s) (midi_size s) p
  (mus_end_of_track s) (delta_bytes s) (delta_cnt s) (mus_channel s).
Definition set_delta d n s := mk_mus (midi_data s) (midi_bytes s) (midi_size s) (mus_pos s)
  (mus_end_of_track s) d n (mus_channel s).
Definition set_mus_channel c s := mk_mus (midi_data s) (midi_bytes s) (midi_size s) (mus_pos s)
  (mus_end_of_track s) (delta_bytes s) (delta_cnt s) c.
Definition set_end_of_track s := mk_mus (midi_data s) (midi_bytes s) (midi_size s) (mus_pos s)
  true (delta_bytes s) (delta_cnt s) (mus_channel s).

Section Convert.
(** [malloc] and [realloc] of the host: the address of the new buffer; what a byte that was
    never written holds. *)
Context (malloc : Z -> option Z) (realloc : Z -> Z -> option Z) (fresh : Z -> Z).

Definition resize_to (n : Z) (b : list Z) : list Z :=
  take (Z.to_nat n) b ++ (fresh <$> seqZ (Z.of_nat (length b)) (n - Z.of_nat (length b))).

(** [midi_data = realloc(midi_data, midi_size + ...)], and the [memcpy]s behind the old end. *)
Definition append_bytes (bs : list Z) (s : mus) : option (option mus) :=
  n ← int_add (midi_size s) (Z.of_nat (length bs));
  match realloc (midi_data s) n with
  | None => Some None
  | Some p =>
      b ← memcpy_to (resize_to n (midi_bytes s)) (midi_size s) bs;
      Some (Some (set_buffer p b n s))
  end.

(** The first [switch] of [convert]: the bytes of [event] that are used, or an early return. *)
Inductive event_read :=
  | Event (event : list Z) (s : mus)
  | Return0 (s : mus).

Definition read_event (d : list Z) (data channel : Z) (s : mus) : option event_read :=
  let pos := mus_pos s in
  let next k := set_mus_pos (pos + k) s in
  match Z.land data 0x70 with
  | 0x00 =>
      b ← deref d pos;
      v ← mus_channel s !! Z.to_nat channel;
      Some (Event [0x80; Z.land b 0x7f; v] (next 1))
  | 0x10 =>
      b ← deref d pos;
      '(v, s') ← (if truth (Z.land b 0x80)
                  then v ← deref d (pos + 1); Some (v, next 2)
                  else v ← mus_channel s !! Z.to_nat channel; Some (v, next 1));
      Some (Event [0x90; Z.land b 0x7f; v] (set_mus_channel (<[Z.to_nat channel := v]> (mus_channel s)) s'))
  | 0x20 =>
      b ← deref d pos;
      Some (Event [0xe0; Z.shiftl (Z.land b 0x01) 6; Z.shiftr b 1] (next 1))
  | 0x30 =>
      b ← deref d pos;
      c ← controller_map !! Z.to_nat (Z.land b 0xf);
      Some (Event [0xb0; u8 c; 0x7f] (next 1))
  | 0x40 =>
      b ← deref d pos;
      if b =? 0 then
        p ← deref d (pos + 1);
        Some (Event [0xc0; p] (next 2))
      else
        c ← controller_map !! Z.to_nat (Z.land b 0xf);
        v ← deref d (pos + 1);
        Some (Event [0xb0; u8 c; v] (next 2))
  | 0x50 => Some (Return0 s)
  | 0x60 => Some (Return0 (set_end_of_track s))
  | 0x70 => Some (Return0 (next 1))
  | _ => Some (Event [] s)
  end.

(** [do { ... } while (data & 128)]; [n] is the number of elements of [delta_bytes] left. *)
Fixpoint read_delta (n : nat) (d : list Z) (s : mus) : option mus :=
  match n with
  | O => None
  | S n =>
      data ← deref d (mus_pos s);
      let s := set_mus_pos (mus_pos s + 1)
        (set_delta (<[Z.to_nat (delta_cnt s) := data]> (delta_bytes s)) (delta_cnt s + 1) s) in
      if truth (Z.land data 128) then read_delta n d s else Some s
  end.

Definition convert (d : list Z) (s : mus) : option (option mus) :=
  data ← deref d (mus_pos s);
  let s := set_mus_pos (mus_pos s + 1) s in
  let last := Z.land data 0x80 in
  let channel := Z.land data 0xf in
  r ← read_event d data channel s;
  match r with
  | Return0 s => Some (Some s)
  | Event event s =>
      let channel := if channel =? 9 then 15 else if channel =? 15 then 9 else channel in
      let event := match event with [] => [] | e :: es => Z.lor e channel :: es end in
      r ← append_bytes (take (Z.to_nat (delta_cnt s)) (delta_bytes s) ++ event) s;
      match r with
      | None => Some None
      | Some s =>
          if truth last then s ← read_delta 4 d (set_delta (delta_bytes s) 0 s); Some (Some s)
          else Some (Some (set_delta (<[0%nat := 0]> (delta_bytes s)) 1 s))
      end
  end.

(** [while (!mus_end_of_track) if (convert() < 0) return NULL;] *)
Fixpoint convert_all (fuel : nat) (d : list Z) (s : mus) : option (option mus) :=
  if mus_end_of_track s then Some (Some s)
  else
    match fuel with
    | O => None
    | S fuel =>
        r ← convert d s;
        match r with None => Some None | Some s => convert_all fuel d s end
    end.

Definition midi_hdr : list Z :=
  magic_midi ++ object 4 (bswap32 6) ++ object 2 (bswap16 0) ++ object 2 (bswap16 1)
    ++ object 2 (bswap16 70).

(** [old] are the values the file-scope variables have from the previous call.  The result is
    the buffer and its length. *)
Definition mus2midi (old : mus) (d : list Z) (len : Z) : option (option (list Z * Z)) :=
  same ← strncmp_eq 4 d magic_mus;
  if negb same then Some None
  else
    l0 ← d !! 4%nat; l1 ← d !! 5%nat; s0 ← d !! 6%nat; s1 ← d !! 7%nat;
    let score_len := l0 + 0x100 * l1 in
    let score_start := s0 + 0x100 * s1 in
    if negb (len =? score_start + score_len) then Some None
    else
      match malloc sizeof_midi_header with
      | None => Some None
      | Some p =>
          b ← memcpy_to (fresh <$> seqZ 0 sizeof_midi_header) 0 midi_hdr;
          match realloc p (sizeof_midi_header + 8) with
          | None => Some None
          | Some p =>
              b ← memcpy_to (resize_to (sizeof_midi_header + 8) b) sizeof_midi_header magic_track;
              let mid_track_len := sizeof_midi_header + 4 in   (* in the buffer at p *)
              let s := mk_mus p b (sizeof_midi_header + 8) score_start false
                         (<[0%nat := 0]> (delta_bytes old)) 1 (replicate 16 0) in
              r ← convert_all (S (length d)) d s;
              match r with
              | None => Some None
              | Some s =>
                  r ← append_bytes (take (Z.to_nat (delta_cnt s)) (delta_bytes s)) s;
                  match r with
                  | None => Some None
                  | Some s =>
                      r ← append_bytes (take 3 (drop 1 magic_end_of_track)) s;
                      match r with
                      | None => Some None
                      | Some s =>
                          let track_len := bswap32 (u32 (midi_size s - sizeof_midi_header - 8)) in
                          if midi_data s =? p then
                            b ← memcpy_to (midi_bytes s) mid_track_len (object 4 track_len);
                            Some (Some (b, midi_size s))
                          else None
                      end
                  end
              end
          end
      end.
End Convert.

(** * What a score means *)

(** The events of a MUS score; a delay is given by its digits to base 128. *)
Inductive mus_event :=
  | Release (note : Z)
  | Play (note : Z) (volume : option Z)
  | Pitch (bend : Z)
  | System (c : Z)
  | Program (instrument : Z)
  | Controller (c v : Z)
  | Measure
  | Unused (b : Z).
Record mus_item := mk_item { item_channel : Z; item_event : mus_event; delay : list Z }.

Definition event_type (e : mus_event) : Z :=
  match e with
  | Release _ => 0x00 | Play _ _ => 0x10 | Pitch _ => 0x20 | System _ => 0x30
  | Program _ | Controller _ _ => 0x40 | Measure => 0x50 | Unused _ => 0x70
  end.
Definition event_args (e : mus_event) : list Z :=
  match e with
  | Release n => [n]
  | Play n None => [n]
  | Play n (Some v) => [0x80 + n; v]
  | Pitch b => [b]
  | System c => [c]
  | Program p => [0; p]
  | Controller c v => [c; v]
  | Measure => []
  | Unused b => [b]
  end.
(** A number as a sequence of groups of seven bits, all but the last marked. *)
Fixpoint varlen (ds : list Z) : list Z :=
  match ds with
  | [] => []
  | x :: rest => match rest with [] => [x] | _ => 0x80 + x :: varlen rest end
  end.
Definition ticks (ds : list Z) : Z := foldl (fun a x => 128 * a + x) 0 ds.
Definition item_encode (i : mus_item) : list Z :=
  (event_type (item_event i) + item_channel i + match delay i with [] => 0 | _ => 0x80 end)
    :: event_args (item_event i) ++ varlen (delay i).
Definition mus_encode (l : list mus_item) : list Z := mjoin (item_encode <$> l) ++ [0x60].

Definition digit (x : Z) : Prop := 0 <= x < 128.
Definition event_wf (e : mus_event) : Prop :=
  match e with
  | Release n | Play n None => digit n
  | Play n (Some v) => digit n /\ digit v
  | Pitch b => is_u8 b
  | System c => 1 <= c <= 14
  | Program p => digit p
  | Controller c v => 1 <= c <= 14 /\ digit v
  | Measure => True
  | Unused b => is_u8 b
  end.
(** The end of a measure and the event of type 7 make no sound. *)
Definition silent (e : mus_event) : bool := match e with Measure | Unused _ => true | _ => false end.
(** Delays have at most four digits; behind a silent event there is none. *)
Definition item_wf (i : mus_item) : Prop :=
  0 <= item_channel i < 16 /\ event_wf (item_event i) /\ Forall digit (delay i) /\
  (length (delay i) <= 4)%nat /\ (silent (item_event i) = true -> delay i = []).

(** A MUS file: the header, other data, the score. *)
Definition mus_file (extra : list Z) (l : list mus_item) : list Z :=
  magic_mus ++ object 2 (Z.of_nat (length (mus_encode l))) ++ object 2 (8 + Z.of_nat (length extra))
    ++ extra ++ mus_encode l.

Inductive midi_message :=
  | Note_off (ch n v : Z)
  | Note_on (ch n v : Z)
  | Control (ch c v : Z)
  | Program_change (ch p : Z)
  | Bend (ch v : Z).

(** Percussion is channel 15 of MUS and channel 9 of MIDI. *)
Definition midi_channel (c : Z) : Z := if c =? 9 then 15 else if c =? 15 then 9 else c.
(** The controllers and the system events of MUS by their numbers in MIDI: bank, modulation,
    volume, pan, expression, reverb, chorus, sustain, soft pedal, all sounds off, all notes off,
    mono, poly, reset. *)
Definition midi_controller (c : Z) : Z :=
  match c with
  | 1 => 0 | 2 => 1 | 3 => 7 | 4 => 10 | 5 => 11 | 6 => 91 | 7 => 93 | 8 => 64 | 9 => 67
  | 10 => 120 | 11 => 123 | 12 => 126 | 13 => 127 | _ => 121
  end.
(** The message of an item, if it has one, and the volume that its channel has from now on. *)
Definition mus_message (vol : list Z) (i : mus_item) : option midi_message * list Z :=
  let c := item_channel i in
  let ch := midi_channel c in
  let v := default 0 (vol !! Z.to_nat c) in
  match item_event i with
  | Release n => (Some (Note_off ch n v), vol)
  | Play n None => (Some (Note_on ch n v), vol)
  | Play n (Some v) => (Some (Note_on ch n v), <[Z.to_nat c := v]> vol)
  | Pitch b => (Some (Bend ch (64 * b)), vol)
  | System c => (Some (Control ch (midi_controller c) 127), vol)
  | Program p => (Some (Program_change ch p), vol)
  | Controller c v => (Some (Control ch (midi_controller c) v), vol)
  | Measure | Unused _ => (None, vol)
  end.
(** The messages with the ticks at which they are due, and the end of the piece. *)
Fixpoint mus_play (t : Z) (vol : list Z) (l : list mus_item) : list (Z * midi_message) * Z :=
  match l with
  | [] => ([], t)
  | i :: l =>
      let '(m, vol) := mus_message vol i in
      let '(ms, e) := mus_play (t + ticks (delay i)) vol l in
      (match m with Some m => (t, m) :: ms | None => ms end, e)
  end.

(** * A reader of MIDI files with one track *)

Fixpoint read_var (n : nat) (acc : Z) (l : list Z) : option (Z * list Z) :=
  match n, l with
  | S n, x :: l => if x <? 128 then Some (128 * acc + x, l) else read_var n (128 * acc + (x - 128)) l
  | _, _ => None
  end.
Definition data_byte (x : Z) : option Z := if (0 <=? x) && (x <? 128) then Some x else None.
Definition read_message (l : list Z) : option (midi_message * list Z) :=
  match l with
  | st :: a :: l =>
      let ch := st mod 16 in
      a ← data_byte a;
      if st / 16 =? 0xc then Some (Program_change ch a, l)
      else
        match l with
        | b :: l =>
            b ← data_byte b;
            match st / 16 with
            | 0x8 => Some (Note_off ch a b, l)
            | 0x9 => Some (Note_on ch a b, l)
            | 0xb => Some (Control ch a b, l)
            | 0xe => Some (Bend ch (128 * b + a), l)
            | _ => None
            end
        | [] => None
        end
  | _ => None
  end.
Fixpoint read_track (fuel : nat) (t : Z) (l : list Z) : option (list (Z * midi_message) * Z) :=
  match fuel with
  | O => None
  | S fuel =>
      '(dt, l) ← read_var 4 0 l;
      if decide (l = [0xff; 0x2f; 0x00]) then Some ([], t + dt)
      else
        '(m, l) ← read_message l;
        '(ms, e) ← read_track fuel (t + dt) l;
        Some ((t + dt, m) :: ms, e)
  end.
Definition big_endian (l : list Z) : Z := foldl (fun a x => 0x100 * a + x) 0 l.
(** Format, number of tracks, ticks of a quarter note, and the messages of the track. *)
Definition midi_play (f : list Z) : option (Z * Z * Z * (list (Z * midi_message) * Z)) :=
  let h := drop 14 f in
  if decide (take 4 f = magic_midi /\ big_endian (take 4 (drop 4 f)) = 6 /\ take 4 h = magic_track /\
             big_endian (take 4 (drop 4 h)) = Z.of_nat (length (drop 8 h))) then
    ms ← read_track (length f) 0 (drop 8 h);
    Some (big_endian (take 2 (drop 8 f)), big_endian (take 2 (drop 10 f)), big_endian (take 2 (drop 12 f)), ms)
  else None.

(** * Facts about bytes *)

(** A statement about a byte, by cases. *)
Lemma below_256 (P : Z -> bool) n : forallb P (seqZ 0 n) = true -> forall x, 0 <= x < n -> P x = true.
Proof. intros H x Hx. rewrite forallb_forall in H. apply H, list_elem_of_In, elem_of_seqZ. lia. Qed.

Definition head_ok (t f ch : Z) : bool :=
  let x := t + ch + f in
  (Z.land x 0x70 =? t) && (Z.land x 0xf =? ch) && Bool.eqb (truth (Z.land x 0x80)) (truth f).
Lemma head_byte e ch f : 0 <= ch < 16 -> f = 0 \/ f = 0x80 -> head_ok (event_type e) f ch = true.
Proof.
  intros Hc [-> | ->]; revert ch Hc; apply below_256; destruct e; vm_compute; reflexivity.
Qed.
Definition arg_ok (x : Z) : bool :=
  (Z.land x 0x7f =? x) && (Z.land (0x80 + x) 0x7f =? x) && negb (truth (Z.land x 0x80))
    && truth (Z.land (0x80 + x) 0x80) && negb (truth (Z.land x 128)) && truth (Z.land (0x80 + x) 128).
Lemma digit_ok x : digit x -> arg_ok x = true.
Proof. apply below_256. vm_compute. reflexivity. Qed.
Lemma digit_land x : digit x -> Z.land x 0x7f = x /\ Z.land (0x80 + x) 0x7f = x /\
  truth (Z.land x 0x80) = false /\ truth (Z.land (0x80 + x) 0x80) = true.
Proof.
  intros H%digit_ok. unfold arg_ok in H. rewrite !andb_true_iff, !Z.eqb_eq, !negb_true_iff in H. tauto.
Qed.
Lemma bend_bytes b : is_u8 b ->
  data_byte (Z.shiftl (Z.land b 1) 6) = Some (Z.shiftl (Z.land b 1) 6) /\
  data_byte (Z.shiftr b 1) = Some (Z.shiftr b 1) /\
  128 * Z.shiftr b 1 + Z.shiftl (Z.land b 1) 6 = 64 * b.
Proof.
  unfold is_u8. intros H. rewrite (Z.land_ones b 1 ltac:(lia) : Z.land b 1 = b mod 2 ^ 1).
  rewrite Z.shiftl_mul_pow2, Z.shiftr_div_pow2 by lia. change (2 ^ 1) with 2. change (2 ^ 6) with 64.
  unfold data_byte. split_and!; [| |mlia].
  all: destruct (Z.leb_spec 0 (b mod 2 * 64)), (Z.ltb_spec (b mod 2 * 64) 128),
    (Z.leb_spec 0 (b / 2)), (Z.ltb_spec (b / 2) 128); cbn; try done; mlia.
Qed.
Lemma data_byte_digit x : digit x -> data_byte x = Some x.
Proof. unfold digit, data_byte. intros. by rewrite (proj2 (Z.leb_le _ _)), (proj2 (Z.ltb_lt _ _)) by lia. Qed.

(** A status byte. *)
Definition status_ok (k ch : Z) : bool :=
  (Z.lor (16 * k) ch / 16 =? k) && (Z.lor (16 * k) ch mod 16 =? ch).
Lemma status_byte s k ch : s = 16 * k -> 8 <= k < 15 -> 0 <= ch < 16 ->
  Z.lor s ch / 16 = k /\ Z.lor s ch mod 16 = ch.
Proof.
  intros -> Hk Hc. assert (H : forallb (fun k => forallb (status_ok k) (seqZ 0 16)) (seqZ 0 15) = true)
    by (vm_compute; reflexivity).
  pose proof (below_256 _ _ (below_256 (fun k => forallb (status_ok k) (seqZ 0 16)) 15 H k ltac:(lia)) ch Hc) as E.
  unfold status_ok in E. by rewrite andb_true_iff, !Z.eqb_eq in E.
Qed.
Definition controller_ok (c : Z) : bool :=
  (c =? 0) || match controller_map !! Z.to_nat (Z.land c 0xf) with
              | Some x => (u8 x =? midi_controller c) && (0 <=? midi_controller c) && (midi_controller c <? 128)
              | None => false
              end.
Lemma controller_number c : 1 <= c <= 14 -> exists x, controller_map !! Z.to_nat (Z.land c 0xf) = Some x /\
  u8 x = midi_controller c /\ digit (midi_controller c).
Proof.
  intros Hc. assert (H : controller_ok c = true).
  { apply (below_256 controller_ok 15); [vm_compute; reflexivity|lia]. }
  unfold controller_ok in H. destruct (Z.eqb_spec c 0); [lia|]. cbn [orb] in H.
  destruct (controller_map !! _) as [x|]; [|done]. exists x.
  rewrite !andb_true_iff, Z.eqb_eq, Z.leb_le, Z.ltb_lt in H. unfold digit. split; [done|]. lia.
Qed.
Lemma midi_channel_range c : 0 <= c < 16 -> 0 <= midi_channel c < 16.
Proof. unfold midi_channel. intros. repeat case_match; lia. Qed.

(** * Reading the score *)

(** The bytes [l] are at [p]. *)
Definition reads (d : list Z) (p : Z) (l : list Z) : Prop :=
  0 <= p /\ exists post, drop (Z.to_nat p) d = l ++ post.
Lemma reads_cons d p x l : reads d p (x :: l) -> deref d p = Some x /\ reads d (p + 1) l.
Proof.
  intros (Hp & post & E). unfold deref. rewrite (proj2 (Z.leb_le _ _)) by done. split.
  - rewrite <- (Nat.add_0_r (Z.to_nat p)), <- lookup_drop, E. done.
  - split; [lia|]. exists post. replace (Z.to_nat (p + 1)) with (Z.to_nat p + 1)%nat by lia.
    by rewrite <- drop_drop, E.
Qed.
Lemma reads_app d p l1 l2 : reads d p (l1 ++ l2) -> reads d p l1 /\ reads d (p + Z.of_nat (length l1)) l2.
Proof.
  intros (Hp & post & E). split; [split; [done|]; exists (l2 ++ post); by rewrite app_assoc|].
  split; [lia|]. exists post. replace (Z.to_nat (p + Z.of_nat (length l1))) with (Z.to_nat p + length l1)%nat by lia.
  rewrite <- drop_drop, E, <- app_assoc. apply drop_app_length.
Qed.
Lemma varlen_cons x ds : ds <> [] -> varlen (x :: ds) = 0x80 + x :: varlen ds.
Proof. by destruct ds. Qed.

(** The bytes of a message. *)
Definition message_bytes (m : midi_message) : list Z :=
  match m with
  | Note_off ch n v => [Z.lor 0x80 ch; n; v]
  | Note_on ch n v => [Z.lor 0x90 ch; n; v]
  | Control ch c v => [Z.lor 0xb0 ch; c; v]
  | Program_change ch p => [Z.lor 0xc0 ch; p]
  | Bend ch v => [Z.lor 0xe0 ch; v mod 128; v / 128]
  end.
Lemma length_varlen ds : length (varlen ds) = length ds.
Proof. induction ds as [|x [|y ds] IH]; [done..|]. rewrite varlen_cons by done. cbn [length]. by rewrite IH. Qed.

Lemma message_length m : (1 <= length (message_bytes m) <= 3)%nat.
Proof. destruct m; cbn; lia. Qed.

Section Score.
Context (d : list Z) (realloc : Z -> Z -> option Z) (fresh : Z -> Z) (q : Z).
Context (Hrealloc : forall n, realloc q n = Some q).

(** The variables after some of the score: what is written, the place in the score, the
    digits of the delay before the next event, the volumes. *)
Record converted (out : list Z) (p : Z) (ds vol : list Z) (s : mus) : Prop := {
  cv_data : midi_data s = q;
  cv_bytes : midi_bytes s = out;
  cv_size : midi_size s = Z.of_nat (length out);
  cv_pos : mus_pos s = p;
  cv_delta : take (Z.to_nat (delta_cnt s)) (delta_bytes s) = varlen ds;
  cv_four : length (delta_bytes s) = 4%nat;
  cv_cnt : 0 <= delta_cnt s <= 4;
  cv_vol : mus_channel s = vol;
  cv_sixteen : length vol = 16%nat }.

Lemma memcpy_behind b n bs : n = Z.of_nat (length b) + Z.of_nat (length bs) ->
  memcpy_to (resize_to fresh n b) (Z.of_nat (length b)) bs = Some (b ++ bs).
Proof.
  intros ->. unfold memcpy_to, resize_to. rewrite length_app, length_fmap, length_seqZ, length_take.
  rewrite (proj2 (Z.leb_le _ _)) by lia. rewrite (proj2 (Z.leb_le _ _)) by lia. cbn [andb].
  rewrite Nat2Z.id, (take_ge b) by lia. rewrite take_app_length.
  rewrite (drop_ge (b ++ _)), app_nil_r; [done|].
  rewrite length_app, length_fmap, length_seqZ. lia.
Qed.
Lemma append_bytes_ok out p ds vol bs s :
  converted out p ds vol s -> Z.of_nat (length (out ++ bs)) < 0x80000000 ->
  append_bytes realloc fresh bs s = Some (Some (set_buffer q (out ++ bs) (Z.of_nat (length (out ++ bs))) s)).
Proof.
  intros [] Hn. unfold append_bytes, int_add. rewrite cv_size0, cv_bytes0, cv_data0. rewrite length_app in Hn |- *.
  rewrite (proj2 (Z.leb_le _ _)), (proj2 (Z.ltb_lt _ _)) by lia. cbn [andb mbind option_bind].
  rewrite Hrealloc, memcpy_behind by lia. cbn. do 3 f_equal. lia.
Qed.

Lemma read_delta_ok ds : forall n s, ds <> [] -> Forall digit ds -> (length ds <= n)%nat ->
  0 <= delta_cnt s -> delta_cnt s + Z.of_nat n = 4 -> length (delta_bytes s) = 4%nat ->
  reads d (mus_pos s) (varlen ds) ->
  exists db, length db = 4%nat /\
    take (Z.to_nat (delta_cnt s) + length (varlen ds)) db = take (Z.to_nat (delta_cnt s)) (delta_bytes s) ++ varlen ds /\
    read_delta n d s = Some (set_mus_pos (mus_pos s + Z.of_nat (length (varlen ds)))
      (set_delta db (delta_cnt s + Z.of_nat (length (varlen ds))) s)).
Proof.
  induction ds as [|x ds IH]; [done|]. intros [|n] s _ Hd Hn H0 Hs H4 Hr; [cbn in Hn; lia|].
  apply Forall_cons in Hd as [Hx Hd]. destruct (digit_land x Hx) as (_ & _ & L1 & L2).
  cbn [length] in Hn.
  assert (Hins : forall y, take (S (Z.to_nat (delta_cnt s))) (<[Z.to_nat (delta_cnt s) := y]> (delta_bytes s))
                 = take (Z.to_nat (delta_cnt s)) (delta_bytes s) ++ [y]).
  { intros y. rewrite (take_S_r _ _ y) by (apply list_lookup_insert_eq; lia).
    by rewrite take_insert_ge. }
  destruct (decide (ds = [])) as [->|Hne].
  - cbn in Hr. apply reads_cons in Hr as [E _]. exists (<[Z.to_nat (delta_cnt s) := x]> (delta_bytes s)).
    rewrite length_insert. cbn [varlen length]. rewrite Nat.add_1_r, Hins. split_and!; [done..|].
    cbn [read_delta]. rewrite E. cbn [mbind option_bind]. by rewrite L1.
  - rewrite (varlen_cons x ds Hne) in *. apply reads_cons in Hr as [E Hr].
    cbn [read_delta]. rewrite E. cbn [mbind option_bind]. rewrite L2.
    set (s1 := set_mus_pos _ _).
    destruct (IH n s1) as (db & Hl & Ht & Hrd); try done; try (cbn; lia); [cbn; by rewrite length_insert|].
    exists db. split; [done|]. cbn [length].
    cbn [s1 delta_cnt set_mus_pos set_delta delta_bytes mus_pos] in Ht, Hrd.
    replace (Z.to_nat (delta_cnt s + 1)) with (S (Z.to_nat (delta_cnt s))) in Ht by lia.
    split.
    + rewrite Hins, <- app_assoc in Ht. cbn [app] in Ht. rewrite <- Ht. f_equal. lia.
    + rewrite Hrd. unfold s1, set_mus_pos, set_delta. cbn. do 2 f_equal; lia.
Qed.

Lemma bend_value b : is_u8 b ->
  [Z.shiftl (Z.land b 1) 6; Z.shiftr b 1] = [(64 * b) mod 128; 64 * b / 128].
Proof.
  intros H. destruct (bend_bytes b H) as (H1 & H2 & E). rewrite <- E.
  unfold data_byte in H1. destruct (Z.leb_spec 0 (Z.shiftl (Z.land b 1) 6)); [|done].
  destruct (Z.ltb_spec (Z.shiftl (Z.land b 1) 6) 128); [|done]. f_equal; [|f_equal]; mlia.
Qed.
(** The first part of [convert] reads the message of an item. *)
Lemma read_event_ok i data s m : item_wf i -> (mus_message (mus_channel s) i).1 = Some m ->
  length (mus_channel s) = 16%nat ->
  Z.land data 0x70 = event_type (item_event i) -> reads d (mus_pos s) (event_args (item_event i)) ->
  exists e es, read_event d data (item_channel i) s
    = Some (Event (e :: es) (set_mus_channel (mus_message (mus_channel s) i).2
        (set_mus_pos (mus_pos s + Z.of_nat (length (event_args (item_event i)))) s))) /\
    Z.lor e (midi_channel (item_channel i)) :: es = message_bytes m.
Proof.
  destruct i as [c e ds]. unfold item_wf. cbn [item_channel item_event]. intros (Hc & He & _) Hm HL Ht Hr.
  destruct (lookup_lt_is_Some_2 (mus_channel s) (Z.to_nat c)) as [v Ev]; [lia|].
  unfold read_event. unfold mus_message in *. cbn [item_channel item_event] in *. rewrite Ht. rewrite ?Ev in Hm.
  destruct e as [n|n [w|]|b|k|n|k w| |b]; try discriminate Hm; injection Hm as <-;
    cbn [event_type event_args event_wf length] in *; apply reads_cons in Hr as [E1 Hr]; rewrite E1; cbn [mbind option_bind].
  - destruct (digit_land n He) as (L & _). rewrite Ev, L. cbn. by eexists _, _.
  - destruct He as [Hn Hw]. destruct (digit_land n Hn) as (_ & L & _ & T). rewrite T, L.
    apply reads_cons in Hr as [E2 _]. rewrite E2. cbn. by eexists _, _.
  - destruct (digit_land n He) as (L & _ & T & _). rewrite T, L, Ev. cbn.
    rewrite list_insert_id by done. by eexists _, _.
  - eexists _, _. split; [done|]. cbn [fst message_bytes]. by rewrite bend_value.
  - destruct (controller_number k He) as (x & Ex & Ux & _). rewrite Ex. cbn. rewrite Ux. by eexists _, _.
  - cbn [Z.eqb]. apply reads_cons in Hr as [E2 _]. rewrite E2. cbn. by eexists _, _.
  - destruct He as [Hk Hw]. destruct (controller_number k Hk) as (x & Ex & Ux & _).
    destruct (Z.eqb_spec k 0); [lia|]. apply reads_cons in Hr as [E2 _]. rewrite Ex. cbn [mbind option_bind].
    rewrite E2. cbn. rewrite Ux. by eexists _, _.
Qed.

(** The delay in front of the next event. *)
Definition next_delay (i : mus_item) : list Z := match delay i with [] => [0] | ds => ds end.

Lemma mus_message_length vol i : length vol = 16%nat -> length (mus_message vol i).2 = 16%nat.
Proof.
  intros. unfold mus_message. destruct (item_event i) as [|? []| | | | | |]; cbn; by rewrite ?length_insert.
Qed.
Lemma converted_buffer out p ds vol s out' :
  converted out p ds vol s -> converted out' p ds vol (set_buffer q out' (Z.of_nat (length out')) s).
Proof. intros []. by split. Qed.

(** The second part of [convert] reads the delay. *)
Lemma next_delay_ok i out p ds vol s :
  Forall digit (delay i) -> (length (delay i) <= 4)%nat -> converted out p ds vol s ->
  reads d p (varlen (delay i)) ->
  exists s', (if truth match delay i with [] => 0 | _ => 0x80 end
              then s ← read_delta 4 d (set_delta (delta_bytes s) 0 s); Some (Some s)
              else Some (Some (set_delta (<[0%nat := 0]> (delta_bytes s)) 1 s))) = Some (Some s') /\
    converted out (p + Z.of_nat (length (varlen (delay i)))) (next_delay i) vol s' /\
    mus_end_of_track s' = mus_end_of_track s.
Proof.
  intros Hd H4 [] Hr. unfold next_delay. destruct (delay i) as [|x xs] eqn:Ed.
  - cbn [truth Z.eqb negb varlen length]. eexists. split; [done|]. split; [|done].
    split; cbn; rewrite ?length_insert; try done; try lia. by destruct (delta_bytes s) as [|? []].
  - change (truth 0x80) with true. cbv iota.
    destruct (read_delta_ok (x :: xs) 4 (set_delta (delta_bytes s) 0 s)) as (db & Hl & Ht & ->); try done.
    { cbn [mus_pos set_delta]. by rewrite cv_pos0. }
    cbn [mbind option_bind]. eexists. split; [done|]. split; [|done].
    split; cbn [midi_data midi_bytes midi_size mus_pos delta_bytes delta_cnt mus_channel set_mus_pos set_delta]; try done.
    + by rewrite cv_pos0.
    + etrans; [|exact Ht]. f_equal. cbn [delta_cnt set_delta]. lia.
    + rewrite length_varlen. cbn [delta_cnt set_delta]. lia.
Qed.

(** The first byte of an item. *)
Lemma item_head i : item_wf i ->
  let x := event_type (item_event i) + item_channel i + match delay i with [] => 0 | _ => 0x80 end in
  Z.land x 0x70 = event_type (item_event i) /\ Z.land x 0xf = item_channel i /\
  truth (Z.land x 0x80) = truth match delay i with [] => 0 | _ => 0x80 end.
Proof.
  intros (Hc & _). set (f := match delay i with [] => 0 | _ => 0x80 end).
  assert (head_ok (event_type (item_event i)) f (item_channel i) = true) as B
    by (apply head_byte; [done|]; unfold f; destruct (delay i); auto).
  unfold head_ok in B. rewrite !andb_true_iff, !Z.eqb_eq, Bool.eqb_true_iff in B. cbv zeta. tauto.
Qed.

Lemma convert_item i m out p ds vol s :
  item_wf i -> (mus_message vol i).1 = Some m -> converted out p ds vol s -> reads d p (item_encode i) ->
  let bs := varlen ds ++ message_bytes m in
  Z.of_nat (length (out ++ bs)) < 0x80000000 ->
  exists s', convert realloc fresh d s = Some (Some s') /\
    converted (out ++ bs) (p + Z.of_nat (length (item_encode i))) (next_delay i) (mus_message vol i).2 s' /\
    mus_end_of_track s' = mus_end_of_track s.
Proof.
  intros Hi Hm Hs Hr bs Hn. pose proof Hi as (_ & _ & Hd & H4 & _).
  destruct (item_head i Hi) as (B1 & B2 & B3).
  apply reads_cons in Hr as [E Hr]. apply reads_app in Hr as [Ha Hv].
  unfold convert. rewrite (cv_pos _ _ _ _ _ Hs), E. cbn [mbind option_bind]. rewrite B2, B3.
  set (x := event_type (item_event i) + item_channel i + _) in B1, B2, B3 |- *.
  destruct (read_event_ok i x (set_mus_pos (p + 1) s) m Hi) as (e & es & -> & Eb); [..|exact B1|exact Ha|].
  { cbn. by rewrite (cv_vol _ _ _ _ _ Hs). }
  { cbn. by rewrite (cv_vol _ _ _ _ _ Hs), (cv_sixteen _ _ _ _ _ Hs). }
  cbn [mus_pos set_mus_pos mus_channel mbind option_bind] in *. rewrite (cv_vol _ _ _ _ _ Hs) in *.
  set (s1 := set_mus_channel _ _).
  assert (H1 : converted out (p + 1 + Z.of_nat (length (event_args (item_event i)))) ds (mus_message vol i).2 s1).
  { destruct Hs. split; cbn; try done. by apply mus_message_length. }
  rewrite (cv_delta _ _ _ _ _ H1). fold (midi_channel (item_channel i)). rewrite Eb. fold bs.
  rewrite (append_bytes_ok _ _ _ _ _ _ H1 Hn). cbn [mbind option_bind].
  apply (converted_buffer _ _ _ _ _ (out ++ bs)) in H1. set (s2 := set_buffer _ _ _ _) in *.
  destruct (next_delay_ok i _ _ _ _ _ Hd H4 H1 Hv) as (s' & Es & Hs' & Et). exists s'.
  split_and!; [exact Es| |by rewrite Et]. unfold item_encode. cbn [length]. rewrite length_app.
  by replace (p + _) with (p + 1 + Z.of_nat (length (event_args (item_event i)))
    + Z.of_nat (length (varlen (delay i)))) by lia.
Qed.

(** A silent event writes nothing and leaves the delay in front of the next event. *)
Lemma convert_silent i out p ds vol s :
  item_wf i -> silent (item_event i) = true -> converted out p ds vol s -> reads d p (item_encode i) ->
  exists s', convert realloc fresh d s = Some (Some s') /\
    converted out (p + Z.of_nat (length (item_encode i))) ds vol s' /\ mus_end_of_track s' = mus_end_of_track s.
Proof.
  intros Hi Hq Hs Hr. destruct (item_head i Hi) as (B1 & _ & _). pose proof Hi as (_ & _ & _ & _ & Hno).
  specialize (Hno Hq). apply reads_cons in Hr as [E _].
  unfold convert. rewrite (cv_pos _ _ _ _ _ Hs), E. cbn [mbind option_bind]. unfold read_event. rewrite B1.
  unfold item_encode. rewrite Hno. destruct (item_event i); try discriminate Hq; cbn; eexists; (split; [done|]);
    (split; [|done]); destruct Hs; split; cbn; try done; lia.
Qed.
Lemma message_sounds vol i : (mus_message vol i).1 = None <-> silent (item_event i) = true.
Proof. unfold mus_message. by destruct (item_event i) as [|? []| | | | | |]. Qed.
Lemma silent_volumes vol i : silent (item_event i) = true -> (mus_message vol i).2 = vol.
Proof. unfold mus_message. by destruct (item_event i). Qed.

(** The bytes of the track in front of the mark of its end. *)
Fixpoint track (ds vol : list Z) (l : list mus_item) : list Z :=
  match l with
  | [] => varlen ds
  | i :: l =>
      match (mus_message vol i).1 with
      | Some m => varlen ds ++ message_bytes m ++ track (next_delay i) (mus_message vol i).2 l
      | None => track ds vol l
      end
  end.

Lemma convert_all_ok l : forall fuel out p ds vol s,
  Forall item_wf l -> converted out p ds vol s -> mus_end_of_track s = false ->
  reads d p (mus_encode l) -> (length l < fuel)%nat ->
  Z.of_nat (length (out ++ track ds vol l)) < 0x80000000 ->
  exists s' out' p' ds' vol', convert_all realloc fresh fuel d s = Some (Some s') /\
    converted out' p' ds' vol' s' /\ out' ++ varlen ds' = out ++ track ds vol l.
Proof.
  induction l as [|i l IH]; intros [|fuel] out p ds vol s Hl Hs Ht Hr Hf Hn; [cbn in Hf; lia| |cbn in Hf; lia|].
  - cbn in Hr. apply reads_cons in Hr as [E _]. cbn [convert_all]. rewrite Ht.
    unfold convert. rewrite (cv_pos _ _ _ _ _ Hs), E. cbn [mbind option_bind].
    exists (set_end_of_track (set_mus_pos (p + 1) s)), out, (p + 1), ds, vol.
    split_and!; [by destruct fuel| |done]. destruct Hs. by split.
  - apply Forall_cons in Hl as [Hi Hl]. unfold mus_encode in Hr. cbn [fmap list_fmap mjoin list_join] in Hr.
    rewrite <- app_assoc in Hr. apply reads_app in Hr as [Hr1 Hr2]. cbn [track] in Hn |- *.
    cbn [convert_all]. rewrite Ht. destruct (mus_message vol i).1 as [m|] eqn:Em.
    + rewrite (app_assoc (varlen ds)), (app_assoc out) in Hn |- *.
      destruct (convert_item i m out p ds vol s Hi Em Hs Hr1) as (s1 & E & Hs1 & Et).
      { rewrite length_app in Hn. lia. }
      rewrite E. cbn [mbind option_bind].
      apply (IH fuel _ _ _ _ _ Hl Hs1); [by rewrite Et|exact Hr2|cbn in Hf; lia|done].
    + apply message_sounds in Em. destruct (convert_silent i out p ds vol s Hi Em Hs Hr1) as (s1 & E & Hs1 & Et).
      rewrite E. cbn [mbind option_bind].
      apply (IH fuel _ _ _ _ _ Hl Hs1); [by rewrite Et|exact Hr2|cbn in Hf; lia|done].
Qed.
End Score.

(** * Reading the track *)

Lemma read_var_varlen rest : forall ds n acc, ds <> [] -> Forall digit ds -> (length ds <= n)%nat ->
  read_var n acc (varlen ds ++ rest) = Some (foldl (fun a x => 128 * a + x) acc ds, rest).
Proof.
  induction ds as [|x ds IH]; [done|]. intros [|n] acc _ Hd Hn; [cbn in Hn; lia|].
  apply Forall_cons in Hd as [Hx Hd]. unfold digit in Hx. destruct (decide (ds = [])) as [->|Hne].
  - cbn. by destruct (Z.ltb_spec x 128); [|lia].
  - rewrite varlen_cons by done. cbn [app read_var foldl]. destruct (Z.ltb_spec (0x80 + x) 128); [lia|].
    rewrite IH by (done || cbn in Hn; lia). do 4 f_equal. lia.
Qed.

Definition message_wf (m : midi_message) : Prop :=
  match m with
  | Note_off ch a b | Note_on ch a b | Control ch a b => 0 <= ch < 16 /\ digit a /\ digit b
  | Program_change ch a => 0 <= ch < 16 /\ digit a
  | Bend ch v => 0 <= ch < 16 /\ 0 <= v < 0x4000
  end.
Lemma read_message_bytes m rest : message_wf m -> read_message (message_bytes m ++ rest) = Some (m, rest).
Proof.
  destruct m as [ch a b|ch a b|ch a b|ch a|ch v]; cbn [message_wf message_bytes app]; intros Hm;
    unfold read_message;
    [destruct (status_byte 0x80 0x8 ch) as [S1 S2]|destruct (status_byte 0x90 0x9 ch) as [S1 S2]
    |destruct (status_byte 0xb0 0xb ch) as [S1 S2]|destruct (status_byte 0xc0 0xc ch) as [S1 S2]
    |destruct (status_byte 0xe0 0xe ch) as [S1 S2]]; try lia;
    rewrite S1, S2, data_byte_digit by (clear S1 S2; unfold digit in *; mlia); cbn; try done.
  all: rewrite data_byte_digit by (clear S1 S2; unfold digit in *; mlia); cbn; try done.
  do 3 f_equal. mlia.
Qed.
Lemma message_not_end m rest : message_wf m -> message_bytes m ++ rest <> [0xff; 0x2f; 0x00].
Proof.
  intros Hm E. pose proof (read_message_bytes m rest Hm) as R. rewrite E in R. vm_compute in R. done.
Qed.
Lemma mus_message_wf vol i : item_wf i -> Forall digit vol -> length vol = 16%nat ->
  (forall m, (mus_message vol i).1 = Some m -> message_wf m) /\ Forall digit (mus_message vol i).2.
Proof.
  intros (Hc & He & _) Hv HL. pose proof (midi_channel_range _ Hc) as Hm.
  destruct (lookup_lt_is_Some_2 vol (Z.to_nat (item_channel i))) as [v Ev]; [lia|].
  pose proof (proj1 (Forall_lookup _ _) Hv _ _ Ev) as Dv.
  unfold mus_message. rewrite Ev.
  destruct (item_event i) as [n|n [w|]|b|k|n|k w| |b]; cbn in He |- *;
    (split; [intros m [= <-]; cbn|]); try done.
  - destruct He. by apply Forall_insert.
  - split; [done|]. unfold is_u8 in He. lia.
  - destruct (controller_number k He) as (_ & _ & _ & D). unfold digit in *. lia.
  - destruct He as [Hk Hw]. destruct (controller_number k Hk) as (_ & _ & _ & D). done.
Qed.
Lemma next_delay_wf i : item_wf i ->
  next_delay i <> [] /\ Forall digit (next_delay i) /\ (length (next_delay i) <= 4)%nat /\
  ticks (next_delay i) = ticks (delay i).
Proof.
  intros (_ & _ & Hd & H4 & _). unfold next_delay. destruct (delay i); [|done].
  split_and!; [done|by repeat constructor|cbn; lia|done].
Qed.

Lemma read_track_ok l : forall fuel t ds vol,
  Forall item_wf l -> Forall digit vol -> length vol = 16%nat ->
  ds <> [] -> Forall digit ds -> (length ds <= 4)%nat -> (length (track ds vol l) < fuel)%nat ->
  read_track fuel t (track ds vol l ++ [0xff; 0x2f; 0x00]) = Some (mus_play (t + ticks ds) vol l).
Proof.
  induction l as [|i l IH]; intros fuel t ds vol Hl Hv HL Hne Hd H4 Hf.
  - destruct fuel; [lia|]. cbn [track read_track]. by rewrite read_var_varlen.
  - apply Forall_cons in Hl as [Hi Hl]. destruct (mus_message_wf vol i Hi Hv HL) as [Hm Hv'].
    destruct (next_delay_wf i Hi) as (N1 & N2 & N3 & N4). cbn [track mus_play] in Hf |- *.
    destruct (mus_message vol i) as [[m|] vol'] eqn:Em; cbn [fst snd] in *.
    + rewrite !length_app in Hf. destruct fuel as [|fuel]; [lia|]. specialize (Hm m eq_refl).
      cbn [read_track]. rewrite <- !app_assoc, read_var_varlen by done. cbn [mbind option_bind].
      rewrite decide_False by (by apply message_not_end). rewrite read_message_bytes by done. cbn [mbind option_bind].
      pose proof (mus_message_length vol i HL) as HL'. rewrite Em in HL'. pose proof (message_length m).
      rewrite IH by (done || lia). cbn [mbind option_bind]. rewrite N4. fold (ticks ds).
      by destruct (mus_play _ _ l) as [ms e].
    + assert (Hq : silent (item_event i) = true) by (apply (message_sounds vol); by rewrite Em).
      pose proof (silent_volumes vol i Hq) as Ev. rewrite Em in Ev. cbn in Ev. subst vol'.
      pose proof Hi as (_ & _ & _ & _ & Hno). rewrite (Hno Hq).
      rewrite IH by done. cbn [ticks foldl]. rewrite Z.add_0_r. by destruct (mus_play _ _ l) as [ms e].
Qed.

Lemma track_length l : forall ds vol, Forall item_wf l -> (length ds <= 4)%nat ->
  (length (track ds vol l) <= 7 * length l + 4)%nat.
Proof.
  induction l as [|i l IH]; intros ds vol Hl Hd; cbn [track length]; [rewrite length_varlen; lia|].
  apply Forall_cons in Hl as [Hi Hl]. destruct (next_delay_wf i Hi) as (_ & _ & N & _).
  destruct (mus_message vol i).1 as [m|]; [|specialize (IH ds vol Hl Hd); lia].
  rewrite !length_app, length_varlen. specialize (IH (next_delay i) (mus_message vol i).2 Hl N).
  pose proof (message_length m). lia.
Qed.
Lemma mus_encode_length l : (length l < length (mus_encode l))%nat.
Proof.
  unfold mus_encode. rewrite length_app. cbn. enough (length l <= length (mjoin (item_encode <$> l)))%nat by lia.
  induction l as [|i l IH]; [cbn; lia|]. rewrite fmap_cons. change (mjoin (item_encode i :: (item_encode <$> l))) with (item_encode i ++ mjoin (item_encode <$> l)). rewrite length_app.
  unfold item_encode at 1. cbn [length]. lia.
Qed.

Lemma length_object n : forall v, length (object n v) = n.
Proof. induction n; intros v; cbn; auto. Qed.
Lemma object_digit x v : is_u8 x -> (v * 0x100 + x) mod 0x100 = x /\ (v * 0x100 + x) / 0x100 = v.
Proof. unfold is_u8. intros. mlia. Qed.
Lemma object_digits a b c e : is_u8 a -> is_u8 b -> is_u8 c -> is_u8 e ->
  object 4 (a * 0x1000000 + b * 0x10000 + c * 0x100 + e) = [e; c; b; a].
Proof.
  intros Ha Hb Hc He. cbn [object].
  replace (a * 0x1000000 + b * 0x10000 + c * 0x100 + e) with (((a * 0x100 + b) * 0x100 + c) * 0x100 + e) by lia.
  destruct (object_digit e ((a * 0x100 + b) * 0x100 + c) He) as [-> ->].
  destruct (object_digit c (a * 0x100 + b) Hc) as [-> ->]. destruct (object_digit b a Hb) as [-> ->].
  by rewrite (Z.mod_small a).
Qed.
Lemma big_endian_object n : 0 <= n < 0x100000000 -> big_endian (object 4 (bswap32 n)) = n.
Proof.
  intros H. unfold bswap32. rewrite object_digits by (apply Z.mod_pos_bound; lia). cbn [big_endian foldl].
  assert (n / 0x10000 = n / 0x100 / 0x100 /\ n / 0x1000000 = n / 0x100 / 0x100 / 0x100) as [-> ->]
    by (rewrite !Z.div_div by lia; done).
  assert (0 <= n / 0x100 / 0x100 / 0x100 < 0x100) as R by (rewrite !Z.div_div by lia; clear - H; mlia).
  rewrite (Z.mod_small (n / 0x100 / 0x100 / 0x100)) by done.
  pose proof (Z.div_mod n 0x100). pose proof (Z.div_mod (n / 0x100) 0x100).
  pose proof (Z.div_mod (n / 0x100 / 0x100) 0x100). lia.
Qed.

(** The file around a track. *)
Definition midi_file (t : list Z) : list Z :=
  midi_hdr ++ magic_track ++ object 4 (bswap32 (Z.of_nat (length t))) ++ t.
Lemma midi_play_file t ms : Z.of_nat (length t) < 0x100000000 ->
  read_track (length (midi_file t)) 0 t = Some ms -> midi_play (midi_file t) = Some (0, 1, 70, ms).
Proof.
  intros Ht E. pose proof (big_endian_object (Z.of_nat (length t)) ltac:(lia)) as B.
  pose proof (length_object 4 (bswap32 (Z.of_nat (length t)))) as L. unfold midi_play, midi_file in *.
  destruct (object 4 _) as [|a [|b [|c [|e []]]]]; try discriminate L.
  rewrite decide_True by (split_and!; [reflexivity..|exact B]).
  change (drop 8 (drop 14 _)) with t. rewrite E. reflexivity.
Qed.

(** * The converter *)

Lemma memcpy_inside a b c src n : n = Z.of_nat (length a) -> length src = length b ->
  memcpy_to (a ++ b ++ c) n src = Some (a ++ src ++ c).
Proof.
  intros -> Hl. unfold memcpy_to. rewrite (proj2 (Z.leb_le _ _)) by lia.
  rewrite (proj2 (Z.leb_le _ _)) by (rewrite !length_app; lia). cbn [andb].
  rewrite Nat2Z.id, take_app_length, <- drop_drop, drop_app_length, Hl, drop_app_length. done.
Qed.
Lemma object_two v : 0 <= v < 0x10000 -> exists a b, object 2 v = [a; b] /\ a + 0x100 * b = v.
Proof. intros H. eexists _, _. split; [reflexivity|]. mlia. Qed.

Section Converter.
Context (malloc : Z -> option Z) (realloc : Z -> Z -> option Z) (fresh : Z -> Z) (p q : Z) (old : mus).
Context (extra : list Z) (l : list mus_item).
Context (Hl : Forall item_wf l) (Hscore : Z.of_nat (length (mus_encode l)) < 0x10000)
  (Hextra : 8 + Z.of_nat (length extra) < 0x10000) (Hold : length (delta_bytes old) = 4%nat).
Context (Hmalloc : malloc sizeof_midi_header = Some p)
  (Hfirst : realloc p (sizeof_midi_header + 8) = Some q) (Hrest : forall n, realloc q n = Some q).

Let volumes : list Z := replicate 16 0.
Let header : list Z := midi_hdr ++ magic_track.
Let room : list Z := fresh <$> [18; 19; 20; 21].

Lemma score_read : reads (mus_file extra l) (8 + Z.of_nat (length extra)) (mus_encode l).
Proof.
  split; [lia|]. exists []. unfold mus_file. rewrite app_nil_r.
  replace (Z.to_nat _) with (8 + length extra)%nat by lia. rewrite <- drop_drop.
  change (drop 8 _) with (extra ++ mus_encode l). apply drop_app_length.
Qed.
Lemma first_state : converted q (header ++ room) (8 + Z.of_nat (length extra)) [0] volumes
  (mk_mus q (header ++ room) (sizeof_midi_header + 8) (8 + Z.of_nat (length extra)) false
    (<[0%nat := 0]> (delta_bytes old)) 1 volumes).
Proof.
  split; try reflexivity; cbn; try lia; [|by rewrite length_insert].
  by destruct (delta_bytes old) as [|? []].
Qed.
Lemma whole_length : Z.of_nat (length ((header ++ room) ++ track [0] volumes l)) < 0x7ffffff0.
Proof.
  rewrite length_app. change (length (header ++ room)) with 22%nat.
  pose proof (track_length l [0] volumes Hl ltac:(cbn; lia)). pose proof (mus_encode_length l). lia.
Qed.

Lemma file_fields : let d := mus_file extra l in exists a b c e,
  d !! 4%nat = Some a /\ d !! 5%nat = Some b /\ d !! 6%nat = Some c /\ d !! 7%nat = Some e /\
  a + 0x100 * b = Z.of_nat (length (mus_encode l)) /\ c + 0x100 * e = 8 + Z.of_nat (length extra) /\
  Z.of_nat (length d) = 8 + Z.of_nat (length extra) + Z.of_nat (length (mus_encode l)).
Proof.
  destruct (object_two (Z.of_nat (length (mus_encode l)))) as (a & b & E1 & S1); [lia|].
  destruct (object_two (8 + Z.of_nat (length extra))) as (c & e & E2 & S2); [lia|].
  exists a, b, c, e. unfold mus_file. rewrite E1, E2. split_and!; [done..|].
  rewrite !length_app. cbn. lia.
Qed.

Lemma mus2midi_file :
  let t := track [0] volumes l ++ [0xff; 0x2f; 0x00] in
  mus2midi malloc realloc fresh old (mus_file extra l) (Z.of_nat (length (mus_file extra l)))
    = Some (Some (midi_file t, Z.of_nat (length (midi_file t)))).
Proof.
  intros t. pose proof whole_length as HW.
  destruct (convert_all_ok (mus_file extra l) realloc fresh q Hrest l (S (length (mus_file extra l)))
    _ _ _ _ _ Hl first_state eq_refl score_read) as (s & out & pos & ds & vol & EC & Hs & Eo).
  { pose proof (mus_encode_length l). unfold mus_file. rewrite !length_app. lia. }
  { lia. }
  destruct file_fields as (a & b & c & e & E4 & E5 & E6 & E7 & S1 & S2 & EL).
  unfold mus2midi. change (strncmp_eq 4 (mus_file extra l) magic_mus) with (Some true).
  cbn [mbind option_bind negb]. rewrite E4, E5, E6, E7.
  cbn [mbind option_bind]. rewrite EL, S1, S2, Z.eqb_refl. cbn [negb]. rewrite Hmalloc.
  change (memcpy_to (fresh <$> seqZ 0 sizeof_midi_header) 0 midi_hdr) with (Some midi_hdr).
  cbn [mbind option_bind]. rewrite Hfirst.
  change (memcpy_to (resize_to fresh _ midi_hdr) _ magic_track) with (Some (header ++ room)).
  cbn [mbind option_bind]. fold volumes. rewrite EC. cbn [mbind option_bind].
  rewrite (cv_delta _ _ _ _ _ _ Hs).
  rewrite (append_bytes_ok realloc fresh q Hrest _ _ _ _ _ _ Hs) by (rewrite Eo; lia).
  cbn [mbind option_bind]. rewrite Eo.
  apply (converted_buffer q _ _ _ _ _ ((header ++ room) ++ track [0] volumes l)) in Hs.
  rewrite (append_bytes_ok realloc fresh q Hrest _ _ _ _ _ _ Hs) by (rewrite length_app; change (length (take 3 _)) with 3%nat; lia).
  cbn [mbind option_bind midi_data midi_size midi_bytes set_buffer]. rewrite Z.eqb_refl.
  change (take 3 (drop 1 magic_end_of_track)) with [0xff; 0x2f; 0x00]. rewrite <- !app_assoc. fold t.
  assert (En : Z.of_nat (length (header ++ room ++ t)) = 22 + Z.of_nat (length t)).
  { rewrite !length_app. cbn. lia. }
  assert (Hn : Z.of_nat (length t) < 0x80000000).
  { unfold t. rewrite length_app in HW |- *. cbn [length]. lia. }
  rewrite En. unfold sizeof_midi_header. replace (22 + _ - 14 - 8) with (Z.of_nat (length t)) by lia.
  rewrite u32_small by (unfold is_u32; lia).
  rewrite (memcpy_inside header room t) by (rewrite ?length_object; done). cbn [mbind option_bind].
  unfold midi_file. rewrite (app_assoc midi_hdr). fold header. do 3 f_equal.
  rewrite !length_app, length_object. cbn. lia.
Qed.
End Converter.

(** The file plays the score. *)
Lemma midi_file_plays l : Forall item_wf l -> Z.of_nat (length (mus_encode l)) < 0x10000 ->
  midi_play (midi_file (track [0] (replicate 16 0) l ++ [0xff; 0x2f; 0x00]))
    = Some (0, 1, 70, mus_play 0 (replicate 16 0) l).
Proof.
  intros Hl Hs. pose proof (mus_encode_length l).
  pose proof (track_length l [0] (replicate 16 0) Hl ltac:(cbn; lia)).
  apply midi_play_file; [rewrite length_app; cbn [length]; lia|].
  assert (Forall digit [0]) by (by repeat constructor).
  apply read_track_ok; [done|by apply Forall_replicate|done..|cbn; lia|].
  unfold midi_file. rewrite !length_app. cbn [length]. lia.
Qed.

(** C39: For every MUS file whose score is a sequence of the events of the format (release and play
    note, pitch, system event, instrument, controller, end of measure, the unused type 7) and its
    end, with data in the ranges of [item_wf] (delays have at most four bytes, and none follows an
    end of measure or an event of type 7) and at most 65535 bytes, the conversion ends and gives a
    MIDI file of one track that plays the events of the score as MIDI messages at the same ticks,
    as long as the buffer is not moved once its second allocation succeeded. *)
Theorem mus2midi_correct malloc realloc fresh p q old extra l :
  Forall item_wf l -> Z.of_nat (length (mus_encode l)) < 0x10000 ->
  8 + Z.of_nat (length extra) < 0x10000 -> length (delta_bytes old) = 4%nat ->
  malloc sizeof_midi_header = Some p -> realloc p (sizeof_midi_header + 8) = Some q ->
  (forall n, realloc q n = Some q) ->
  exists f, mus2midi malloc realloc fresh old (mus_file extra l) (Z.of_nat (length (mus_file extra l)))
              = Some (Some (f, Z.of_nat (length f))) /\
    midi_play f = Some (0, 1, 70, mus_play 0 (replicate 16 0) l).
Proof.
  intros Hl Hs Hx Ho Hm H1 Hr. eexists. split; [by apply (mus2midi_file malloc realloc fresh p q)|].
  by apply midi_file_plays.
Qed.

Definition no_mus : mus := mk_mus 0 [] 0 0 false [0; 0; 0; 0] 0 [].
Definition demo_score : list mus_item :=
  [mk_item 15 (Play 60 (Some 100)) [1; 2]; mk_item 2 (Pitch 129) []; mk_item 15 (Release 60) [3];
   mk_item 0 Measure []; mk_item 3 (Controller 3 5) [9]; mk_item 4 (Unused 200) []; mk_item 9 (Program 5) [];
   mk_item 9 (System 14) [0; 0; 0; 1]].
Lemma demo_score_wf : Forall item_wf demo_score.
Proof. unfold demo_score. repeat constructor; try (intros H; discriminate H); lia. Qed.
Lemma mus2midi_correct_witness : exists f,
  mus2midi (fun _ => Some 64) (fun p _ => Some p) (fun _ => 0) no_mus (mus_file [7; 7] demo_score)
    (Z.of_nat (length (mus_file [7; 7] demo_score))) = Some (Some (f, Z.of_nat (length f))) /\
  midi_play f = Some (0, 1, 70,
    ([(0, Note_on 9 60 100); (130, Bend 2 8256); (130, Note_off 9 60 100); (133, Control 3 7 5);
      (142, Program_change 15 5); (142, Control 15 121 127)], 143)).
Proof.
  apply (mus2midi_correct (fun _ => Some 64) (fun p _ => Some p) (fun _ => 0) 64 64 no_mus [7; 7] demo_score);
    try (intros; reflexivity).
  apply demo_score_wf.
Defined.

(** * Deviations *)

(** The pointer to the length of the track is taken before the buffer grows: when [realloc]
    moves the buffer later, the length is written into memory that has been given back. *)
Lemma mus2midi_stale_pointer :
  mus2midi (fun _ => Some 64) (fun p n => Some (if n <? 23 then p else p + 1)) (fun _ => 0) no_mus
    (mus_file [] demo_score) (Z.of_nat (length (mus_file [] demo_score))) = None.
Proof. vm_compute. reflexivity. Qed.

(** The end of a measure with a delay of 96 ticks, a note, the end of the score: the delay is not
    skipped but read as the end of the score, and the note is lost. *)
Definition measure_score : list Z := [0xd0; 0x60; 0x10; 60; 0x60].
Definition measure_file : list Z := magic_mus ++ object 2 5 ++ object 2 8 ++ measure_score.
Lemma measure_end_delay :
  (r ← mus2midi (fun _ => Some 64) (fun p _ => Some p) (fun _ => 0) no_mus measure_file 13;
   '(f, _) ← r; midi_play f) = Some (0, 1, 70, ([], 0)).
Proof. vm_compute. reflexivity. Qed.

(** A delay of five bytes is written behind the four elements of [delta_bytes]. *)
Definition delta_file : list Z :=
  magic_mus ++ object 2 8 ++ object 2 8 ++ [0x80; 60; 0x81; 0x80; 0x80; 0x80; 0; 0x60].
Lemma delta_overflow :
  mus2midi (fun _ => Some 64) (fun p _ => Some p) (fun _ => 0) no_mus delta_file 16 = None.
Proof. vm_compute. reflexivity. Qed.
