(* ===== verification/Sdl.v ===== *)
(** The system calls for graphics, input and sound, src/src/syscall_sdl.c, in the user-mode build
    with SDL and SDL_mixer.

    What SDL answers is an argument: the events that are waiting, the pitch of the texture, whether
    a call of the mixer succeeds.  What is asked of SDL is recorded, in order.  A sound is played
    by a thread of its own: [play_music] and [play_sfx] give the sound that is handed to the thread,
    [music_handler] and [sfx_handler] are the threads.  The outer [None] is undefined behaviour. *)

From S2P Require Import Prelude.
From S2P Require Import Opcode.
From S2P Require Import Decode.
From S2P Require Import Machine.
From S2P Require Import MachineFacts.
From S2P Require Import Interp.
From S2P Require Import Invariant.
From S2P Require Import GuestRam.
From S2P Require Import GuestRamProofs.
From S2P Require Import Syscall.
From S2P Require Import Mus.

Definition A3 : Z := 13.

(** * Events and submissions *)

Inductive SDL_Event :=
  | SDL_QUIT
  | SDL_KEY (repeat : bool) (sym : Z) (pressed : bool)
  | SDL_MOUSEMOTION (x y xrel yrel : Z)
  | SDL_MOUSEBUTTON (button : Z) (pressed : bool)
  | SDL_OTHER.

Definition sizeof_event : Z := 20.
Definition sizeof_submission : Z := 12.

(** [event_t]: the type and the members of the union that are written; the other bytes of the
    object hold [fill]. *)
Definition event_object (fill : list Z) (type : Z) (members : list Z) : list Z :=
  object 4 type ++ members ++ drop (length members) fill.
Definition KEY_EVENT : Z := 0.
Definition MOUSE_MOTION_EVENT : Z := 1.
Definition MOUSE_BUTTON_EVENT : Z := 2.
Definition QUIT_EVENT : Z := 3.

(** The event for the guest, if there is one. *)
Definition new_event (fill : list Z) (e : SDL_Event) : option (list Z) :=
  match e with
  | SDL_QUIT => Some (event_object fill QUIT_EVENT [])
  | SDL_KEY true _ _ => None
  | SDL_KEY false sym pressed => Some (event_object fill KEY_EVENT (object 4 sym ++ [b2u pressed]))
  | SDL_MOUSEMOTION x y xrel yrel =>
      Some (event_object fill MOUSE_MOTION_EVENT (object 4 x ++ object 4 y ++ object 4 xrel ++ object 4 yrel))
  | SDL_MOUSEBUTTON button pressed => Some (event_object fill MOUSE_BUTTON_EVENT [u8 button; b2u pressed])
  | SDL_OTHER => None
  end.

Inductive submission_t :=
  | Relative_mode (enabled : Z)
  | Window_title (title size : Z)
  | Other_submission.
Definition u32_of (l : list Z) : Z := foldr (fun x a => x + 0x100 * a) 0 l.
Definition submission_of (l : list Z) : submission_t :=
  match u32_of (take 4 l) with
  | 0 => Relative_mode (default 0 (l !! 4%nat))
  | 1 => Window_title (u32_of (take 4 (drop 4 l))) (u32_of (take 4 (drop 8 l)))
  | _ => Other_submission
  end.

(** * The state *)

Inductive sdl_call :=
  | SDL_CreateWindow (width height : Z)
  | SDL_SetRelativeMouseMode (enabled : Z)
  | SDL_SetWindowTitle (title : list Z)
  | SDL_RenderPresent (pixels : list Z).

Record sdl := mk_sdl {
  sdl_mem : memory_t;
  window : option (Z * Z);            (* the size of the window and of the texture *)
  queues_capacity : Z;
  event_count : Z;
  deferred_submissions : Z;
  event_base : Z; event_end : Z;
  submission_base : Z; submission_start : Z;
  pending : list SDL_Event;
  calls : list sdl_call }.

Definition set_sdl_mem v s := mk_sdl v (window s) (queues_capacity s) (event_count s)
  (deferred_submissions s) (event_base s) (event_end s) (submission_base s) (submission_start s)
  (pending s) (calls s).
Definition set_window v s := mk_sdl (sdl_mem s) v (queues_capacity s) (event_count s)
  (deferred_submissions s) (event_base s) (event_end s) (submission_base s) (submission_start s)
  (pending s) (calls s).
Definition set_queue_vars cap cnt eb sb s := mk_sdl (sdl_mem s) (window s) cap cnt
  (deferred_submissions s) eb (event_end s) sb (submission_start s) (pending s) (calls s).
Definition set_deferred v s := mk_sdl (sdl_mem s) (window s) (queues_capacity s) (event_count s)
  v (event_base s) (event_end s) (submission_base s) (submission_start s) (pending s) (calls s).
Definition set_event_end v s := mk_sdl (sdl_mem s) (window s) (queues_capacity s) (event_count s)
  (deferred_submissions s) (event_base s) v (submission_base s) (submission_start s)
  (pending s) (calls s).
Definition set_submission_start v s := mk_sdl (sdl_mem s) (window s) (queues_capacity s) (event_count s)
  (deferred_submissions s) (event_base s) (event_end s) (submission_base s) v (pending s) (calls s).
Definition set_pending v s := mk_sdl (sdl_mem s) (window s) (queues_capacity s) (event_count s)
  (deferred_submissions s) (event_base s) (event_end s) (submission_base s) (submission_start s)
  v (calls s).
Definition add_call c s := mk_sdl (sdl_mem s) (window s) (queues_capacity s) (event_count s)
  (deferred_submissions s) (event_base s) (event_end s) (submission_base s) (submission_start s)
  (pending s) (calls s ++ [c]).

(** * Queues *)

Definition submission_pop (s : sdl) : option (submission_t * sdl) :=
  l ← memory_read (sdl_mem s) (u32 (submission_base s + submission_start s * sizeof_submission))
        sizeof_submission;
  Some (submission_of l,
    set_submission_start (Z.land (submission_start s + 1) (u32 (queues_capacity s - 1))) s).

Definition event_push (event : list Z) (s : sdl) : option sdl :=
  '(ok, m) ← memory_write (sdl_mem s) (u32 (event_base s + event_end s * sizeof_event)) (Some event)
               sizeof_event;
  if negb ok then Some s
  else
    let s := set_event_end (Z.land (event_end s + 1) (u32 (queues_capacity s - 1))) (set_sdl_mem m s) in
    count ← mem_read 4 (sdl_mem s) (event_count s);
    m ← mem_write 4 (sdl_mem s) (event_count s) (count +u 1);
    Some (set_sdl_mem m s).

(** [__builtin_clz] of a number that is not 0; a shift by 32 is undefined. *)
Definition clz32 (x : Z) : Z := 31 - Z.log2 x.
Definition round_pow2 (x : Z) : option Z :=
  if x <=? 1 then Some 1 else shl32 1 (32 - clz32 (x - 1)).

Definition syscall_setup_queue (rv : riscv) (s : sdl) : option sdl :=
  let base := rv_get_reg rv A0 in
  let capacity := rv_get_reg rv A1 in
  cap ← round_pow2 capacity;
  Some (set_queue_vars cap (rv_get_reg rv A2) base (u32 (base + sizeof_event * capacity)) s).

(** [while (count--)]; [malloc_ok] is whether a title can be stored. *)
Fixpoint submit_loop (malloc_ok : Z -> bool) (count : nat) (s : sdl) : option sdl :=
  match count with
  | O => Some s
  | S count =>
      '(sub, s) ← submission_pop s;
      match sub with
      | Relative_mode e => submit_loop malloc_ok count (add_call (SDL_SetRelativeMouseMode e) s)
      | Window_title title size =>
          if negb (malloc_ok (size +u 1)) then Some s
          else
            l ← memory_read (sdl_mem s) title size;
            if size +u 1 =? 0 then None      (* title[size] is not in the allocation *)
            else submit_loop malloc_ok count (add_call (SDL_SetWindowTitle l) s)
      | Other_submission => submit_loop malloc_ok count s
      end
  end.
Definition syscall_submit_queue (malloc_ok : Z -> bool) (rv : riscv) (s : sdl) : option sdl :=
  let count := rv_get_reg rv A0 in
  match window s with
  | None => Some (set_deferred (deferred_submissions s +u count) s)
  | Some _ =>
      let count := if truth (deferred_submissions s) then deferred_submissions s else count in
      submit_loop malloc_ok (Z.to_nat count) s
  end.

(** * Frames *)

(** [while (SDL_PollEvent(&event))]; the result is [false] when the window was closed. *)
Fixpoint poll_events (fill : list Z) (l : list SDL_Event) (s : sdl) : option (bool * sdl) :=
  match l with
  | [] => Some (true, set_pending [] s)
  | e :: l =>
      s ← match new_event fill e with None => Some s | Some b => event_push b s end;
      match e with
      | SDL_QUIT => Some (false, set_pending l s)
      | _ => poll_events fill l s
      end
  end.

(** The inner [None] is [exit(EXIT_FAILURE)]: SDL cannot be initialised. *)
Definition check_sdl (malloc_ok : Z -> bool) (fill : list Z) (sdl_ok : bool) (rv : riscv)
    (width height : Z) (s : sdl) : option (option (bool * sdl)) :=
  s ← match window s with
      | Some _ => Some (Some s)
      | None =>
          if negb sdl_ok then Some None
          else
            let s := add_call (SDL_CreateWindow width height) (set_window (Some (width, height)) s) in
            if truth (deferred_submissions s) then
              s ← syscall_submit_queue malloc_ok rv s; Some (Some (set_deferred 0 s))
            else Some (Some s)
      end;
  match s with
  | None => Some None
  | Some s => r ← poll_events fill (pending s) s; Some (Some r)
  end.

(** The product of [int]s. *)
Definition int_mul (a b : Z) : option Z :=
  if (- 0x80000000 <=? a * b) && (a * b <? 0x80000000) then Some (a * b) else None.

(** [pitch] is the length of a row of the texture, as SDL_LockTexture gives it. *)
Definition syscall_draw_frame (malloc_ok : Z -> bool) (fill : list Z) (sdl_ok lock_ok : bool)
    (pitch : Z) (rv : riscv) (s : sdl) : option (option sdl) :=
  let screen := rv_get_reg rv A0 in
  let width := s32 (rv_get_reg rv A1) in
  let height := s32 (rv_get_reg rv A2) in
  r ← check_sdl malloc_ok fill sdl_ok rv width height s;
  match r with
  | None => Some None
  | Some (false, s) => Some (Some s)
  | Some (true, s) =>
      n ← int_mul width height;
      n ← int_mul n 4;
      let total_size := u32 n in
      if negb lock_ok then Some None
      else
        '(_, h) ← window s;
        pixels ← memory_read (sdl_mem s) screen total_size;
        if total_size <=? pitch * h then Some (Some (add_call (SDL_RenderPresent pixels) s))
        else None                            (* more than the texture holds *)
  end.

(** * Sound *)

Definition SFX_SAMPLE_SIZE : Z := 32768.
Definition MUSIC_MAX_SIZE : Z := 65536.
Definition INIT_AUDIO : Z := 0.
Definition SHUTDOWN_AUDIO : Z := 1.
Definition PLAY_MUSIC : Z := 2.
Definition PLAY_SFX : Z := 3.
Definition SET_MUSIC_VOLUME : Z := 4.
Definition STOP_MUSIC : Z := 5.

Record sound_t := mk_sound { snd_data : list Z; snd_size : Z; looping : Z; volume : Z }.

(** The sound that a thread gets; [musicinfo_t] and [sfxinfo_t] have 16 bytes on the host, of which
    the first two words are used. *)
Definition sound_of (max : Z) (malloc_ok thread_ok : bool) (m : memory_t) (info looping volume : Z)
    : option (option sound_t) :=
  l ← memory_read m info 16;
  let offset := u32_of (take 4 l) in
  let size := u32_of (take 4 (drop 4 l)) in
  if (size =? 0) || (max <? size) then Some None
  else if negb malloc_ok then Some None
  else
    bs ← memory_read m offset size;
    if negb thread_ok then Some None else Some (Some (mk_sound bs size looping volume)).
Definition play_sfx (malloc_ok thread_ok : bool) (m : memory_t) (rv : riscv) : option (option sound_t) :=
  sound_of SFX_SAMPLE_SIZE malloc_ok thread_ok m (rv_get_reg rv A1) 0 (s32 (rv_get_reg rv A2)).
Definition play_music (malloc_ok thread_ok : bool) (m : memory_t) (rv : riscv) : option (option sound_t) :=
  sound_of MUSIC_MAX_SIZE malloc_ok thread_ok m (rv_get_reg rv A1) (s32 (rv_get_reg rv A3))
    (s32 (rv_get_reg rv A2)).

Inductive mixer_call :=
  | Mix_OpenAudio | Mix_CloseAudio | Mix_Quit
  | Mix_HaltMusic | Mix_HaltChannel
  | Mix_FreeMusic | Mix_FreeChunk
  | Mix_VolumeMusic (v : Z)
  | Mix_PlayMusic (midi : list Z) (loops : Z)
  | Mix_PlayChannel (samples : list Z)
  | Mix_Volume (v : Z).

Record audio := mk_audio {
  audio_init : bool;
  sfx_samples : bool;                       (* the buffer of SFX_SAMPLE_SIZE bytes is allocated *)
  music_midi_data : option (list Z);
  mid : option (list Z);
  sfx_chunk : option (list Z);
  mixer : list mixer_call }.
Definition mix (c : list mixer_call) (a : audio) : audio :=
  mk_audio (audio_init a) (sfx_samples a) (music_midi_data a) (mid a) (sfx_chunk a) (mixer a ++ c).
Definition set_music (d m : option (list Z)) (a : audio) : audio :=
  mk_audio (audio_init a) (sfx_samples a) d m (sfx_chunk a) (mixer a).
Definition set_sfx_chunk (c : option (list Z)) (a : audio) : audio :=
  mk_audio (audio_init a) (sfx_samples a) (music_midi_data a) (mid a) c (mixer a).

(** [rw_ok], [load_ok]: SDL_RWFromMem and Mix_LoadMUSType_RW succeed. *)
Definition music_handler (malloc : Z -> option Z) (realloc : Z -> Z -> option Z) (fresh : Z -> Z) (old : mus)
    (rw_ok load_ok : bool) (music : sound_t) (a : audio) : option audio :=
  let loops := if truth (looping music) then -1 else 1 in
  let a := match mid a with
           | Some _ => set_music None None (mix [Mix_HaltMusic; Mix_FreeMusic] a)
           | None => set_music None None a
           end in
  r ← mus2midi malloc realloc fresh old (snd_data music) (snd_size music);
  match r with
  | None => Some a
  | Some (f, _) =>
      if negb (rw_ok && load_ok) then Some (set_music (Some f) None a)
      else
        v ← int_mul (volume music) 8;
        Some (mix [Mix_VolumeMusic v; Mix_PlayMusic f loops] (set_music (Some f) (Some f) a))
  end.

(** [chan_ok]: Mix_PlayChannel finds a channel. *)
Definition sfx_handler (load_ok chan_ok : bool) (sfx : sound_t) (a : audio) : option audio :=
  b0 ← head (snd_data sfx);
  let doom := truth (Z.land b0 0x3) in
  let ptr := if doom then 12%nat else 44%nat in
  let nr := if doom then u32_of (take 4 (drop 4 (snd_data sfx))) else snd_size sfx -u 44 in
  if negb (Z.of_nat ptr + nr <=? Z.of_nat (length (snd_data sfx))) || (SFX_SAMPLE_SIZE <? nr)
     || negb (sfx_samples a) then None      (* memcpy out of bounds *)
  else
    let samples := take (Z.to_nat nr) (drop ptr (snd_data sfx)) in
    if negb load_ok then Some (set_sfx_chunk None a)
    else
      let a := mix [Mix_PlayChannel samples] (set_sfx_chunk (Some samples) a) in
      if negb chan_ok then Some a
      else
        b ← snd_data sfx !! ptr;
        v ← (if truth (Z.land b 0x3) then int_mul (volume sfx) 8
             else v ← int_add (volume sfx) 1; Some (Z.rem v 128));
        Some (mix [Mix_Volume v] a).

Definition stop_music (playing : bool) (a : audio) : audio := if playing then mix [Mix_HaltMusic] a else a.
Definition set_music_volume (rv : riscv) (a : audio) : option audio :=
  v ← int_mul (s32 (rv_get_reg rv A1)) 8; Some (mix [Mix_VolumeMusic v] a).

(** [None] is [exit(EXIT_FAILURE)]. *)
Definition init_audio (sdl_ok malloc_ok mix_ok : bool) (a : audio) : option audio :=
  if negb (sdl_ok && malloc_ok && mix_ok) then None
  else Some (mk_audio true true (music_midi_data a) (mid a) (sfx_chunk a) (mixer a ++ [Mix_OpenAudio])).
Definition shutdown_audio (a : audio) : audio :=
  mk_audio false false None None None
    (mixer a ++ [Mix_HaltMusic; Mix_HaltChannel]
      ++ match mid a with Some _ => [Mix_FreeMusic] | None => [] end
      ++ match sfx_chunk a with Some _ => [Mix_FreeChunk] | None => [] end
      ++ [Mix_CloseAudio; Mix_Quit]).
Definition sdl_video_audio_cleanup (s : sdl) (a : audio) : sdl * audio :=
  (set_window None s, if audio_init a then shutdown_audio a else a).

Definition syscall_setup_audio (sdl_ok malloc_ok mix_ok : bool) (rv : riscv) (a : audio) : option audio :=
  let request := s32 (rv_get_reg rv A0) in
  if request =? INIT_AUDIO then init_audio sdl_ok malloc_ok mix_ok a
  else if request =? SHUTDOWN_AUDIO then Some (shutdown_audio a)
  else Some a.
(** The state of the mixer, and the sound of the thread that is started. *)
Inductive thread := Music_thread (s : sound_t) | Sfx_thread (s : sound_t).
Definition syscall_control_audio (malloc_ok thread_ok playing : bool) (m : memory_t) (rv : riscv) (a : audio)
    : option (audio * option thread) :=
  let request := s32 (rv_get_reg rv A0) in
  if request =? PLAY_MUSIC then r ← play_music malloc_ok thread_ok m rv; Some (a, option_map Music_thread r)
  else if request =? PLAY_SFX then r ← play_sfx malloc_ok thread_ok m rv; Some (a, option_map Sfx_thread r)
  else if request =? SET_MUSIC_VOLUME then a ← set_music_volume rv a; Some (a, None)
  else if request =? STOP_MUSIC then Some (stop_music playing a, None)
  else Some (a, None).

(** * The queue of events *)

Lemma round_pow2_spec x : 0 <= x <= 0x80000000 ->
  exists k, 0 <= k <= 31 /\ round_pow2 x = Some (2 ^ k) /\ x <= 2 ^ k /\ (k = 0 \/ 2 ^ (k - 1) < x).
Proof.
  intros Hx. unfold round_pow2. destruct (Z.leb_spec x 1); [exists 0; split_and!; auto; lia|].
  pose proof (Z.log2_spec (x - 1) ltac:(lia)) as [L1 L2]. pose proof (Z.log2_nonneg (x - 1)).
  assert (Z.log2 (x - 1) < 31) by (apply Z.log2_lt_pow2; lia).
  exists (Z.log2 (x - 1) + 1). unfold clz32. replace (32 - (31 - _)) with (Z.log2 (x - 1) + 1) by lia.
  unfold shl32. rewrite (proj2 (Z.leb_le _ _)), (proj2 (Z.ltb_lt _ _)) by lia. cbn [andb].
  rewrite Z.shiftl_1_l, u32_small.
  2: { split; [by apply Z.pow_nonneg|]. change 0x100000000 with (2 ^ 32). apply Z.pow_lt_mono_r; lia. }
  rewrite <- Z.add_1_r in L2. split_and!; [lia..|done|lia|right].
  replace (Z.log2 (x - 1) + 1 - 1) with (Z.log2 (x - 1)) by lia. lia.
Qed.

Section Ring.
Context (k base cnt size : Z).
Context (Hk : 0 <= k <= 31) (Hbase : 0 <= base) (Hring : base + sizeof_event * 2 ^ k <= size)
  (Hcnt : 0 <= cnt /\ cnt + 4 <= size) (Hsize : size <= 0x100000000)
  (Hapart : cnt + 4 <= base \/ base + sizeof_event * 2 ^ k <= cnt).

(** The variables of a queue that was set up with a capacity of [2 ^ k]. *)
Record ring (s : sdl) : Prop := {
  rg_cap : queues_capacity s = 2 ^ k;
  rg_base : event_base s = base;
  rg_count : event_count s = cnt;
  rg_end : 0 <= event_end s < 2 ^ k;
  rg_size : mem_size (sdl_mem s) = size }.
(** The event in a slot. *)
Definition ring_slot (s : sdl) (e : Z) : list Z := read_block (sdl_mem s) (base + e * sizeof_event) 20.
Definition ring_counter (s : sdl) : Z := load_le (sdl_mem s) cnt 4.

Lemma next_end e : 0 <= e < 2 ^ k -> Z.land (e + 1) (u32 (2 ^ k - 1)) = (e + 1) mod 2 ^ k.
Proof.
  intros He. rewrite u32_small; [|split; [lia|]; change 0x100000000 with (2 ^ 32); pose proof (Z.pow_le_mono_r 2 k 32); lia].
  rewrite <- Z.land_ones by lia. by rewrite Z.ones_equiv, Z.sub_1_r.
Qed.

Lemma event_push_ok ev s : ring s -> length ev = 20%nat ->
  exists s', event_push ev s = Some s' /\ ring s' /\ event_end s' = (event_end s + 1) mod 2 ^ k /\
    ring_slot s' (event_end s) = ev /\ ring_counter s' = ring_counter s +u 1 /\
    (forall e, 0 <= e < 2 ^ k -> e <> event_end s -> ring_slot s' e = ring_slot s e).
Proof.
  intros [] Hl. assert (R : base + 20 * 2 ^ k <= size) by exact Hring.
  assert (R' : cnt + 4 <= base \/ base + 20 * 2 ^ k <= cnt) by exact Hapart.
  unfold event_push, sizeof_event. rewrite rg_base0, (u32_small (base + _)) by (unfold is_u32; lia).
  rewrite memory_write_some; [|rewrite rg_size0; lia..]. cbn [mbind option_bind negb].
  cbn [sdl_mem set_event_end set_sdl_mem event_count]. rewrite rg_count0, rg_cap0, next_end by done.
  set (m := store_bytes _ _ _).
  assert (Hm : mem_size m = size) by (unfold m; by rewrite store_bytes_size).
  assert (HC : GUEST_RAM_CONTAINS m cnt (Z.of_nat 4) = true).
  { unfold GUEST_RAM_CONTAINS. rewrite Hm, (proj2 (Z.ltb_lt _ _)), (proj2 (Z.leb_le _ _)) by lia. done. }
  assert (Hsame : load_le m cnt 4 = ring_counter s).
  { apply load_same. intros x Hx. unfold m. rewrite store_bytes_spec, Hl, decide_False by lia. done. }
  unfold mem_read. rewrite HC. cbn [mbind option_bind]. rewrite Hsame.
  unfold mem_write. rewrite HC. cbn [mbind option_bind]. eexists. split; [done|].
  assert (Hpos : 0 <= (event_end s + 1) mod 2 ^ k < 2 ^ k) by (apply Z.mod_pos_bound; lia).
  split; [split; cbn; rewrite ?store_le_size; done|]. split; [done|].
  assert (Hslot : forall e, 0 <= e < 2 ^ k -> forall c, read_block (store_le m cnt 4 c) (base + e * 20) 20 = read_block m (base + e * 20) 20).
  { intros e He c. apply read_block_same. intros x Hx. rewrite byte_store, decide_False by lia. done. }
  split_and!.
  - unfold ring_slot, sizeof_event. cbn [sdl_mem set_sdl_mem]. rewrite Hslot by done. unfold m. rewrite <- Hl. apply read_block_store.
  - unfold ring_counter. cbn [sdl_mem set_sdl_mem]. rewrite (load_bytes 4 _ _ (ring_counter s +u 1)).
    + apply u32_idem.
    + intros j Hj. rewrite byte_store, decide_True by lia. do 2 f_equal. f_equal. lia.
  - intros e He Hne. unfold ring_slot, sizeof_event. cbn [sdl_mem set_sdl_mem]. rewrite Hslot by done.
    apply read_block_same. intros x Hx. unfold m. rewrite store_bytes_spec, Hl, decide_False by lia. done.
Qed.

(** Several events. *)
Fixpoint push_all (l : list (list Z)) (s : sdl) : option sdl :=
  match l with [] => Some s | ev :: l => s ← event_push ev s; push_all l s end.
Lemma push_all_ok l : forall s, ring s -> Forall (fun ev => length ev = 20%nat) l ->
  (Z.of_nat (length l) <= 2 ^ k) ->
  exists s', push_all l s = Some s' /\ ring s' /\
    event_end s' = (event_end s + Z.of_nat (length l)) mod 2 ^ k /\
    u32 (ring_counter s') = u32 (ring_counter s + Z.of_nat (length l)) /\
    (forall i ev, l !! i = Some ev -> ring_slot s' ((event_end s + Z.of_nat i) mod 2 ^ k) = ev) /\
    (forall e, Z.of_nat (length l) <= e < 2 ^ k -> ring_slot s' ((event_end s + e) mod 2 ^ k) = ring_slot s ((event_end s + e) mod 2 ^ k)).
Proof.
  induction l as [|ev l IH]; intros s Hs Hl Hn; pose proof (rg_end _ Hs) as He.
  { exists s. cbn [length]. rewrite !Z.add_0_r, Z.mod_small by done. split_and!; done. }
  apply Forall_cons in Hl as [Hev Hl]. cbn [length] in Hn.
  destruct (event_push_ok ev s Hs Hev) as (s1 & E1 & Hs1 & En & Hslot & Hc & Hother).
  destruct (IH s1 Hs1 Hl) as (s' & E' & Hs' & En' & Hc' & Hl' & Ho'); [lia|].
  exists s'. cbn [push_all]. rewrite E1. cbn [mbind option_bind]. split; [done|]. split; [done|].
  assert (Hidx : forall x, (event_end s1 + x) mod 2 ^ k = (event_end s + (x + 1)) mod 2 ^ k).
  { intros x. rewrite En, Z.add_mod_idemp_l by lia. f_equal. lia. }
  assert (Hfar : forall x, 1 <= x < 2 ^ k -> (event_end s + x) mod 2 ^ k <> event_end s).
  { intros x Hx E. rewrite <- (Z.mod_small (event_end s) (2 ^ k)) in E at 2 by done.
    assert (Hz : x mod 2 ^ k = 0) by (replace x with (event_end s + x - event_end s) by lia;
      rewrite Zminus_mod, E, Z.sub_diag; done).
    rewrite Z.mod_small in Hz; lia. }
  split_and!.
  - rewrite En', Hidx. f_equal. cbn [length]. lia.
  - rewrite Hc', Hc. cbn [length]. rewrite u32_add_l. f_equal. lia.
  - intros [|i] x; cbn [lookup list_lookup].
    + intros [= <-]. rewrite <- Hslot. specialize (Ho' (2 ^ k - 1) ltac:(lia)).
      rewrite !Hidx in Ho'. replace (event_end s + (2 ^ k - 1 + 1)) with (event_end s + 1 * 2 ^ k) in Ho' by lia.
      rewrite Z.mod_add, Z.mod_small in Ho' by lia. by rewrite Z.add_0_r, Z.mod_small.
    + intros Hx. rewrite <- (Hl' _ _ Hx), Hidx. do 2 f_equal. lia.
  - cbn [length]. intros e Hr. specialize (Ho' (e - 1) ltac:(lia)). rewrite !Hidx in Ho'.
    replace (e - 1 + 1) with e in Ho' by lia. rewrite Ho'. apply Hother; [apply Z.mod_pos_bound; lia|].
    apply Hfar. lia.
Qed.

Lemma new_event_length fill e ev : length fill = 16%nat -> new_event fill e = Some ev -> length ev = 20%nat.
Proof.
  intros Hf. do 17 (destruct fill as [|? fill]; try discriminate Hf).
  destruct e as [|[] sym p|x y u v|b p|]; try discriminate; intros [= <-]; reflexivity.
Qed.
Lemma poll_events_push fill l : forall s, SDL_QUIT ∉ l ->
  poll_events fill l s = s ← push_all (omap (new_event fill) l) s; Some (true, set_pending [] s).
Proof.
  induction l as [|e l IH]; intros s Hq; [done|]. apply not_elem_of_cons in Hq as [Hne Hq].
  cbn [poll_events omap list_omap]. destruct (new_event fill e) as [b|]; cbn [mbind option_bind push_all].
  - destruct (event_push b s) as [s1|]; cbn [mbind option_bind]; [|done]. destruct e; try done; by apply IH.
  - destruct e; try done; by apply IH.
Qed.

(** As long as the window is not closed and there is room, the events that SDL delivers are stored
    in their order behind the last one, and the counter of the guest is raised by their number. *)
Theorem poll_events_fifo fill l s : ring s -> length fill = 16%nat -> SDL_QUIT ∉ l ->
  let evs := omap (new_event fill) l in
  Z.of_nat (length evs) <= 2 ^ k ->
  exists s', poll_events fill l s = Some (true, s') /\ ring s' /\
    event_end s' = (event_end s + Z.of_nat (length evs)) mod 2 ^ k /\
    u32 (ring_counter s') = u32 (ring_counter s + Z.of_nat (length evs)) /\
    (forall i ev, evs !! i = Some ev -> ring_slot s' ((event_end s + Z.of_nat i) mod 2 ^ k) = ev).
Proof.
  intros Hs Hf Hq evs Hn. destruct (push_all_ok evs s Hs) as (s' & E & [] & H1 & H2 & H3 & _); [|done|].
  { apply Forall_forall. intros ev (e & _ & He)%list_elem_of_omap. by apply (new_event_length fill e). }
  exists (set_pending [] s'). rewrite poll_events_push by done. fold evs. rewrite E. done.
Qed.
End Ring.

(** A queue whose capacity is a power of two is a ring, with the submissions behind it; nothing
    resets the end of a queue that was in use. *)
Lemma setup_queue_ring k rv s : 0 <= k <= 31 -> rv_get_reg rv A1 = 2 ^ k -> 0 <= event_end s < 2 ^ k ->
  exists s', syscall_setup_queue rv s = Some s' /\
    ring k (rv_get_reg rv A0) (rv_get_reg rv A2) (mem_size (sdl_mem s)) s' /\
    submission_base s' = u32 (rv_get_reg rv A0 + sizeof_event * 2 ^ k).
Proof.
  intros Hk Hc He. unfold syscall_setup_queue. rewrite Hc.
  assert (2 ^ k <= 2 ^ 31) by (apply Z.pow_le_mono_r; lia).
  destruct (round_pow2_spec (2 ^ k)) as (j & Hj & -> & L & R); [lia|].
  assert (j = k) as ->.
  { destruct (Z.lt_trichotomy j k) as [Hlt|[?|Hlt]]; [|done|].
    - pose proof (Z.pow_lt_mono_r 2 j k). lia.
    - destruct R as [->|R]; [lia|]. pose proof (Z.pow_le_mono_r 2 k (j - 1)). lia. }
  cbn. eexists. split; [done|]. by split.
Qed.
(** For another capacity the ring is longer than the queue, and its next slot is the first
    submission. *)
Lemma setup_queue_overlap rv s k : 0 <= k <= 30 -> 2 ^ k < rv_get_reg rv A1 < 2 ^ (k + 1) ->
  exists s', syscall_setup_queue rv s = Some s' /\ rv_get_reg rv A1 < queues_capacity s' /\
    u32 (event_base s' + rv_get_reg rv A1 * sizeof_event) = submission_base s'.
Proof.
  intros Hk Hc. unfold syscall_setup_queue.
  assert (2 ^ (k + 1) <= 2 ^ 31) by (apply Z.pow_le_mono_r; lia).
  assert (1 <= 2 ^ k) by (pose proof (Z.pow_pos_nonneg 2 k); lia).
  destruct (round_pow2_spec (rv_get_reg rv A1)) as (j & Hj & -> & L & R); [lia|].
  cbn. eexists. split; [done|]. cbn. split; [|f_equal; lia].
  destruct (decide (k + 1 <= j)); [pose proof (Z.pow_le_mono_r 2 (k + 1) j); lia|].
  pose proof (Z.pow_le_mono_r 2 j k). lia.
Qed.

(** * Music *)

Lemma u32_of_block m n : forall a, u32_of (read_block m a n) = load_le m a n.
Proof. induction n as [|n IH]; intros a; [done|]. cbn [read_block load_le u32_of foldr]. by rewrite <- IH. Qed.
Lemma sound_of_ok max m info off len lp v :
  0 <= off -> 0 < len <= max -> info + 16 <= mem_size m -> load_le m info 4 = off -> load_le m (info + 4) 4 = len ->
  off + len <= mem_size m ->
  sound_of max true true m info lp v = Some (Some (mk_sound (read_block m off (Z.to_nat len)) len lp v)).
Proof.
  intros Ho Hl Hi E1 E2 Hm. unfold sound_of. rewrite memory_read_some by lia.
  change (Z.to_nat 16) with (4 + (4 + 8))%nat. rewrite !read_block_app. cbn [mbind option_bind].
  rewrite take_app_length', drop_app_length', take_app_length' by (by rewrite ?length_read_block).
  rewrite !u32_of_block, E1. replace (info + Z.of_nat 4) with (info + 4) by lia. rewrite E2.
  destruct (Z.eqb_spec len 0); [lia|]. destruct (Z.ltb_spec max len); [lia|]. cbn [orb negb].
  by rewrite memory_read_some by lia.
Qed.

(** A guest that has a MUS file in its memory and asks for it to be played: the mixer gets a MIDI
    file that plays the score. *)
Theorem music_plays malloc realloc fresh p q old extra l m rv a playing v :
  Forall item_wf l -> Z.of_nat (length (mus_encode l)) < 0x10000 ->
  8 + Z.of_nat (length extra) < 0x10000 -> length (delta_bytes old) = 4%nat ->
  malloc sizeof_midi_header = Some p -> realloc p (sizeof_midi_header + 8) = Some q ->
  (forall n, realloc q n = Some q) ->
  let d := mus_file extra l in
  let len := Z.of_nat (length d) in
  let info := rv_get_reg rv A1 in
  let off := load_le m info 4 in
  len <= MUSIC_MAX_SIZE -> rv_get_reg rv A0 = PLAY_MUSIC -> info + 16 <= mem_size m ->
  0 <= off -> load_le m (info + 4) 4 = len -> off + len <= mem_size m -> read_block m off (length d) = d ->
  int_mul (s32 (rv_get_reg rv A2)) 8 = Some v ->
  exists snd f a',
    syscall_control_audio true true playing m rv a = Some (a, Some (Music_thread snd)) /\
    music_handler malloc realloc fresh old true true snd a = Some a' /\
    midi_play f = Some (0, 1, 70, mus_play 0 (replicate 16 0) l) /\
    mid a' = Some f /\ last (mixer a') = Some (Mix_PlayMusic f (if truth (looping snd) then -1 else 1)).
Proof.
  intros Hl Hs Hx Ho Hm H1 Hr d len info off Hlen Hreq Hi Hoff Hsz Hin Hd Hv.
  assert (0 < len) by (pose proof (mus_encode_length l); unfold len, d, mus_file; rewrite !length_app; lia).
  unfold syscall_control_audio. rewrite Hreq. change (s32 PLAY_MUSIC =? PLAY_MUSIC) with true. cbv iota zeta.
  unfold play_music. rewrite (sound_of_ok _ _ _ off len) by (done || lia).
  cbn [mbind option_bind option_map]. unfold len. rewrite Nat2Z.id, Hd. eexists _, _, _. split; [done|].
  unfold music_handler. cbn [snd_data snd_size volume looping].
  pose proof (mus2midi_file malloc realloc fresh p q old extra l Hl Hs Hx Ho Hm H1 Hr) as E. cbv zeta in E.
  unfold d. rewrite E. cbn [mbind option_bind negb andb]. rewrite Hv. cbn [mbind option_bind].
  split; [done|]. split; [by apply midi_file_plays|]. split; [done|].
  cbn [mixer mix set_music]. by rewrite last_app.
Qed.

Definition demo_mem : memory_t :=
  let d := mus_file [] demo_score in
  store_bytes (store_bytes (mk_memory ∅ 0x1000) 0x100 (object 4 0x200 ++ object 4 (Z.of_nat (length d)))) 0x200 d.
Definition demo_regs : riscv :=
  set_X (<[10%nat := PLAY_MUSIC]> (<[11%nat := 0x100]> (<[12%nat := 15]> (replicate 32 0)))) (reset_state ∅ 0).
Lemma music_plays_witness : exists snd f a',
  syscall_control_audio true true false demo_mem demo_regs (mk_audio true true None None None [])
    = Some (mk_audio true true None None None [], Some (Music_thread snd)) /\
  music_handler (fun _ => Some 64) (fun p _ => Some p) (fun _ => 0) no_mus true true snd
    (mk_audio true true None None None []) = Some a' /\
  midi_play f = Some (0, 1, 70, mus_play 0 (replicate 16 0) demo_score) /\
  mid a' = Some f /\ last (mixer a') = Some (Mix_PlayMusic f (if truth (looping snd) then -1 else 1)).
Proof.
  apply (music_plays (fun _ => Some 64) (fun p _ => Some p) (fun _ => 0) 64 64 no_mus [] demo_score demo_mem
    demo_regs (mk_audio true true None None None []) false 120); try (intros; vm_compute; reflexivity).
  all: try (vm_compute; discriminate).
  apply demo_score_wf.
Defined.

(** * Deviations *)

(** A sound effect whose header announces more samples than the buffer holds: the samples are
    copied behind the buffer (or read behind the effect). *)
Definition long_sfx : sound_t := mk_sound ([3; 0; 17; 43] ++ object 4 40000 ++ replicate (Z.to_nat 32760) 0) 32768 0 1.
Lemma sfx_overflow : sfx_handler true true long_sfx (mk_audio true true None None None []) = None.
Proof. vm_compute. reflexivity. Qed.
(** The volume is scaled by the first sample instead of the format: of two effects of the same
    format and volume, that start with the samples 128 and 129, one is played at 15 * 8 and the
    other at 16. *)
Definition doom_sfx (sample : Z) : sound_t := mk_sound ([3; 0; 17; 43] ++ object 4 1 ++ [0; 0; 0; 0; sample]) 13 0 15.
Lemma sfx_volume_by_sample :
  (mixer <$> sfx_handler true true (doom_sfx 129) (mk_audio true true None None None []))
    = Some [Mix_PlayChannel [129]; Mix_Volume 120] /\
  (mixer <$> sfx_handler true true (doom_sfx 128) (mk_audio true true None None None []))
    = Some [Mix_PlayChannel [128]; Mix_Volume 16].
Proof. split; vm_compute; reflexivity. Qed.
