(* ===== verification/Startup.v ===== *)
(** Creation and reset of an instance in the user-mode build, src/src/riscv.c: [rv_reset] with
    the layout of the program's arguments, and the part of [rv_create] that loads the program.

    Addresses are 64-bit integers of the host ([uintptr_t]) that the memory functions truncate.
    [None] is a failed assertion or undefined behaviour.  The identification CSRs, which no
    modelled instruction reads, are left out. *)

From S2P Require Import Prelude.
From S2P Require Import Opcode.
From S2P Require Import Decode.
From S2P Require Import Machine.
From S2P Require Import GuestRam.
From S2P Require Import RbMap.
From S2P Require Import Utils.
From S2P Require Import Elf.
From S2P Require Import Syscall.

(** The fields of [vm_attr_t] that creation uses; [argv] holds strings without their zero. *)
Record vm_attr_t := mk_attr {
  attr_mem_size : Z;
  stack_size : Z;
  args_offset_size : Z;
  argv : list (list Z);
  attr_allow_misalign : bool;
  elf_program : list Z }.

Definition MISA_RESET : Z :=
  Z.lor (Z.lor (Z.lor (Z.lor (Z.lor (Z.lor (2 ^ 18) (2 ^ 20)) (2 ^ 8)) (2 ^ 0)) (2 ^ 2)) (2 ^ 5)) (2 ^ 12).
Definition ARGS_MAX : nat := 256.

(** The bytes of an integer object, little-endian. *)
Fixpoint to_le (n : nat) (v : Z) : list Z :=
  match n with O => [] | S n => v mod 0x100 :: to_le n (v / 0x100) end.

(** [assert(memory_write(mem, p, src, size))] *)
Definition checked_write (m : memory_t) (p : Z) (bs : list Z) : option memory_t :=
  '(ok, m) ← memory_write m (u32 p) (Some bs) (u32 (Z.of_nat (length bs)));
  if ok : bool then Some m else None.

(** The loop that copies the strings; the result is the memory, and the length of each string
    with its zero. *)
Fixpoint copy_args (m : memory_t) (args_p : Z) (args_space : list Z) (args : list (list Z))
    : option (memory_t * list Z) :=
  match args with
  | [] => Some (m, args_space)
  | arg :: args =>
      m ← checked_write m args_p (arg ++ [0]);
      if (length args_space <? ARGS_MAX)%nat then
        let n := Z.of_nat (length arg) + 1 in
        copy_args m (u64 (args_p + n)) (args_space ++ [n]) args
      else None
  end.

(** The loop that writes the pointers, eight bytes each at a distance of four. *)
Fixpoint push_args (m : memory_t) (sp args_p : Z) (args_space : list Z) : option (memory_t * Z) :=
  match args_space with
  | [] => Some (m, sp)
  | n :: args_space =>
      m ← checked_write m sp (to_le 8 args_p);
      push_args m (u64 (sp + 4)) (u64 (args_p + n)) args_space
  end.

Definition align16 (x : Z) : Z := Z.land x (u64 (-16)).

(** The memory and the stack pointer that [rv_reset] leaves. *)
Definition reset_args (attr : vm_attr_t) (m : memory_t) (sp0 : Z) : option (memory_t * Z) :=
  let argc := Z.of_nat (length (argv attr)) in
  let args_size := u64 ((1 + argc + 1) * 4) in
  let args_bottom := u64 (attr_mem_size attr - stack_size attr) in
  let args_top := align16 (u64 (args_bottom - args_size)) in
  m ← checked_write m args_top (to_le 4 argc);
  '(m, args_space) ← copy_args m (u64 (args_top + 8)) [] (argv attr);
  let stack_top := align16 (u64 (sp0 - (1 + argc + 1) * 4)) in
  argc_bytes ← memory_read m args_top 4;
  m ← checked_write m stack_top argc_bytes;
  '(m, sp) ← push_args m (u64 (stack_top + 4)) (u64 (args_top + 8)) args_space;
  let '(ok, m) := memory_fill m (u32 sp) 4 0 in
  if ok : bool then Some (m, stack_top) else None.

Definition rv_reset (attr : vm_attr_t) (s : riscv) (pc : Z) : option riscv :=
  let s := set_X (replicate N_RV_REGS 0) s in
  let s := set_PC pc s in
  let s := set_reg rv_reg_sp (u32 (attr_mem_size attr - stack_size attr - args_offset_size attr)) s in
  '(m, stack_top) ← reset_args attr (mem s) (reg s rv_reg_sp);
  let s := set_mem m s in
  let s := set_reg rv_reg_sp (u32 stack_top) s in
  let s := set_priv_mode RV_PRIV_M_MODE s in
  let s := set_csr csr_mtvec 0 s in
  let s := set_csr_cycle 0 s in
  let s := set_csr csr_mstatus 0 s in
  let s := set_csr csr_misa (Z.lor (csr s csr_misa) MISA_RESET) s in
  let s := set_F (replicate N_RV_REGS 0) s in
  let s := set_csr csr_fcsr 0 s in
  Some (set_halt false s).

(** * Standard streams *)

(** The descriptors of the host that stand behind descriptors 0, 1 and 2. *)
Record std_fds := mk_std { fd_stdin : Z; fd_stdout : Z; fd_stderr : Z }.

Section Streams.
(** The allocator of map nodes, and the descriptor of a stream ([fileno]). *)
Context (fd_malloc : fd_map_t -> Z -> option Z) (FILENO : Z -> Z).

(** One entry of the list of descriptors and [FILE] pointers; [None] is NULL. *)
Definition remap_one (st : fd_map_t * std_fds) (fsp : Z * option Z) : option (fd_map_t * std_fds) :=
  let '(m, std) := st in
  let '(fd, file) := fsp in
  match file with
  | None => Some st
  | Some file =>
      if negb (fd =? 0) && negb (fd =? 1) && negb (fd =? 2) then Some st
      else
        let it := map_find m fd in
        m ← (match it with Some _ => '(m, _) ← map_erase m it; Some m | None => Some m end);
        '(_, m) ← map_insert (fd_malloc m) 0 m (Some fd) (Some file);
        let new_fd := FILENO file in
        if new_fd =? -1 then None
        else Some (m, if fd =? 0 then mk_std new_fd (fd_stdout std) (fd_stderr std)
                      else if fd =? 1 then mk_std (fd_stdin std) new_fd (fd_stderr std)
                      else mk_std (fd_stdin std) (fd_stdout std) new_fd)
  end.
Fixpoint rv_remap_stdstream (st : fd_map_t * std_fds) (fsp : list (Z * option Z)) : option (fd_map_t * std_fds) :=
  match st.1 with
  | None => None
  | Some _ =>
      match fsp with
      | [] => Some st
      | x :: fsp => st ← remap_one st x; rv_remap_stdstream st fsp
      end
  end.
End Streams.

(** * Creation *)

(** "_end", "exit" and "_exit" *)
Definition str_end : list Z := [95; 101; 110; 100].
Definition str_exit : list Z := [101; 120; 105; 116].
Definition str__exit : list Z := [95; 101; 120; 105; 116].

(** [if ((sym = elf_get_symbol(elf, name))) v = sym->st_value;] *)
Definition symbol_value (raw name : list Z) (old : Z) : option (bool * Z) :=
  sym ← elf_get_symbol raw name;
  match sym with
  | Some sym => v ← st_value raw sym; Some (true, v)
  | None => Some (false, old)
  end.

(** What [calloc] leaves in the emulator state. *)
Definition calloc_riscv (m : memory_t) (misalign : bool) : riscv :=
  mk_riscv (replicate N_RV_REGS 0) 0 (replicate N_RV_REGS 0) (fun _ => 0) 0 0 0 false false m misalign
    false 0 0 0.

(** What [rv_create] sets up. *)
Record instance := mk_instance {
  inst_rv : riscv;
  inst_fd_map : fd_map_t;
  inst_std : std_fds;
  inst_break_addr : Z;
  inst_exit_addr : Z }.

(** [rv_create] up to the installation of the callbacks.  The inner [None] is the exit of the
    emulator when the file cannot be opened; [file] reads the host's file system, and the
    standard streams are the pointers [stdin], [stdout] and [stderr]. *)
Definition rv_create (malloc : symbols_t -> Z -> option Z) (fd_malloc : fd_map_t -> Z -> option Z)
    (FILENO : Z -> Z) (stdin stdout stderr : Z) (file : list Z -> option (list Z)) (attr : vm_attr_t)
    : option (option instance) :=
  p ← memory_new (attr_mem_size attr) true true true;
  s ← rv_reset attr (calloc_riscv (mk_memory (page_bytes p) (data_memory_size p)) (attr_allow_misalign attr)) 0;
  let fd_map := map_new (fd_malloc None) 4 8 (Some map_cmp_int) in
  '(fd_map, std) ← rv_remap_stdstream fd_malloc FILENO (fd_map, mk_std 0 0 0)
    [(0, Some stdin); (1, Some stdout); (2, Some stderr)];
  '(opened, e) ← elf_open true file (elf_new malloc) (elf_program attr);
  if negb opened then Some None
  else
    raw ← raw_data e;
    '(_, break_addr) ← symbol_value raw str_end 0;
    '(found, exit_addr) ← symbol_value raw str_exit 0;
    '(_, exit_addr) ← (if found : bool then Some (found, exit_addr) else symbol_value raw str__exit exit_addr);
    '(loaded, m) ← elf_load raw (mem s);
    if negb loaded then None
    else
      entry ← e_entry raw;
      let '(s, ok) := rv_set_pc (set_mem m s) entry in
      if ok : bool then Some (Some (mk_instance s fd_map std break_addr exit_addr)) else None.
