(* ===== verification/StartupProofs.v ===== *)
(** A program starts with its arguments on the stack and its image in RAM. *)

From S2P Require Import Prelude.
From S2P Require Import Opcode.
From S2P Require Import Decode.
From S2P Require Import Machine.
From S2P Require Import MachineFacts.
From S2P Require Import GuestRam.
From S2P Require Import GuestRamProofs.
From S2P Require Import RbMap.
From S2P Require Import RbMapProofs.
From S2P Require Import Utils.
From S2P Require Import Elf.
From S2P Require Import ElfProofs.
From S2P Require Import Syscall.
From S2P Require Import SyscallProofs.
From S2P Require Import Startup.

(** * Helpers *)

Lemma align16_spec x : 0 <= x < 2 ^ 64 -> align16 x = 16 * (x / 16).
Proof.
  intros Hx. unfold align16. change (u64 (-16)) with (Z.shiftl (Z.ones 60) 4).
  replace (16 * (x / 16)) with (Z.shiftl (Z.shiftr x 4) 4)
    by (rewrite Z.shiftl_mul_pow2, Z.shiftr_div_pow2 by done; change (2 ^ 4) with 16; lia).
  apply Z.bits_inj'. intros i Hi. rewrite Z.land_spec, !Z.shiftl_spec by done. destruct (Z.lt_ge_cases i 4) as [|H4].
  - by rewrite !(Z.testbit_neg_r _ (i - 4)), andb_false_r by lia.
  - rewrite Z.shiftr_spec by lia. replace (i - 4 + 4) with i by lia.
    destruct (Z.lt_ge_cases i 64) as [|H64]; [by rewrite Z.ones_spec_low, andb_true_r by lia|].
    by rewrite (testbit_above x 64 i) by lia.
Qed.

Lemma store_to_le n : forall m a v, store_bytes m a (to_le n v) = store_le m a n v.
Proof. induction n as [|n IH]; intros m a v; cbn [to_le store_bytes store_le]; [done|]. apply IH. Qed.
Lemma length_to_le n : forall v, length (to_le n v) = n.
Proof. induction n as [|n IH]; intros v; cbn; [done|]. by rewrite IH. Qed.

Lemma checked_write_some m p bs :
  0 <= p < mem_size m -> p + Z.of_nat (length bs) <= mem_size m -> mem_size m < 2 ^ 32 ->
  checked_write m p bs = Some (store_bytes m p bs).
Proof.
  intros Hp Hl Hm. unfold checked_write. rewrite !u32_small by (unfold is_u32; lia).
  rewrite memory_write_some by lia. done.
Qed.

Lemma load_store n m a v : load_le (store_le m a n v) a n = v mod 0x100 ^ Z.of_nat n.
Proof.
  apply MachineFacts.load_bytes. intros k Hk. rewrite byte_store, decide_True by lia. do 3 f_equal. lia.
Qed.

(** * Strings *)

(** The length of the strings with their zeros, and where each starts. *)
Fixpoint args_len (args : list (list Z)) : Z :=
  match args with [] => 0 | a :: args => Z.of_nat (length a) + 1 + args_len args end.
Fixpoint arg_addrs (p : Z) (args : list (list Z)) : list Z :=
  match args with [] => [] | a :: args => p :: arg_addrs (p + (Z.of_nat (length a) + 1)) args end.

Lemma args_len_nonneg args : 0 <= args_len args.
Proof. induction args; cbn; lia. Qed.
Lemma length_arg_addrs args : forall p, length (arg_addrs p args) = length args.
Proof. induction args as [|a args IH]; intros p; cbn; [done|]. by rewrite IH. Qed.
Lemma arg_addrs_bound args : forall p i a ad, args !! i = Some a -> arg_addrs p args !! i = Some ad ->
  p <= ad /\ ad + Z.of_nat (length a) + 1 <= p + args_len args.
Proof.
  induction args as [|b args IH]; intros p [|i] a ad Ha Hd; cbn in *; try done.
  - injection Ha as <-. injection Hd as <-. pose proof (args_len_nonneg args). lia.
  - destruct (IH _ _ _ _ Ha Hd). lia.
Qed.

Lemma copy_args_spec args : forall m p sp,
  0 <= p -> p + args_len args <= mem_size m -> mem_size m < 2 ^ 32 -> (length sp + length args <= ARGS_MAX)%nat ->
  exists m', copy_args m p sp args = Some (m', sp ++ ((fun a => Z.of_nat (length a) + 1) <$> args)) /\
    mem_size m' = mem_size m /\
    (forall i a ad, args !! i = Some a -> arg_addrs p args !! i = Some ad -> read_block m' ad (S (length a)) = a ++ [0]) /\
    (forall x, ~ (p <= x < p + args_len args) -> byte_at m' x = byte_at m x).
Proof.
  induction args as [|b args IH]; intros m p sp Hp Hl Hm Hn; cbn [copy_args fmap list_fmap args_len arg_addrs].
  { exists m. rewrite app_nil_r. by split_and!. }
  cbn [args_len length] in *. pose proof (args_len_nonneg args) as H0.
  rewrite checked_write_some by (rewrite ?length_app; cbn; lia). cbn [mbind option_bind].
  rewrite (proj2 (Nat.ltb_lt _ _)) by lia. assert (u64 (p + (Z.of_nat (length b) + 1)) = p + (Z.of_nat (length b) + 1)) as ->
    by (unfold u64; apply Z.mod_small; lia).
  destruct (IH (store_bytes m p (b ++ [0])) (p + (Z.of_nat (length b) + 1)) (sp ++ [Z.of_nat (length b) + 1]))
    as (m' & -> & Hs & Hr & Hf); rewrite ?store_bytes_size, ?length_app; cbn [length]; [lia..|].
  exists m'. rewrite <- app_assoc. split; [done|]. split; [by rewrite Hs, store_bytes_size|]. split.
  - intros [|i] a ad Ha Hd; cbn in Ha, Hd; [|by eapply Hr]. injection Ha as <-. injection Hd as <-.
    rewrite <- (read_block_store (b ++ [0]) m p) at 1. rewrite length_app, Nat.add_1_r.
    apply read_block_same. intros x Hx. apply Hf. lia.
  - intros x Hx. rewrite Hf, store_bytes_spec, decide_False; [done|..]; rewrite ?length_app; cbn [length]; lia.
Qed.

Lemma push_args_spec args : forall m sp p,
  0 <= sp -> sp + 4 * (Z.of_nat (length args) + 1) <= mem_size m -> 0 <= p -> p + args_len args < 2 ^ 32 -> mem_size m < 2 ^ 32 ->
  exists m', push_args m sp p ((fun a => Z.of_nat (length a) + 1) <$> args) = Some (m', sp + 4 * Z.of_nat (length args)) /\
    mem_size m' = mem_size m /\
    (forall i ad, arg_addrs p args !! i = Some ad -> load_le m' (sp + 4 * Z.of_nat i) 4 = ad) /\
    (forall x, ~ (sp <= x < sp + 4 * (Z.of_nat (length args) + 1)) -> byte_at m' x = byte_at m x).
Proof.
  induction args as [|b args IH]; intros m sp p Hsp Hl Hp Hpl Hm; cbn [push_args fmap list_fmap args_len arg_addrs length] in *.
  { exists m. rewrite Z.mul_0_r, Z.add_0_r. by split_and!. }
  pose proof (args_len_nonneg args) as H0. rewrite checked_write_some by (rewrite ?length_to_le; lia).
  cbn [mbind option_bind]. assert (u64 (sp + 4) = sp + 4 /\ u64 (p + (Z.of_nat (length b) + 1)) = p + (Z.of_nat (length b) + 1)) as [-> ->]
    by (unfold u64; split; apply Z.mod_small; lia).
  rewrite store_to_le. destruct (IH (store_le m sp 8 p) (sp + 4) (p + (Z.of_nat (length b) + 1))) as (m' & E & Hs & Hr & Hf);
    rewrite ?store_le_size; [lia..|]. change (fun a => Z.of_nat (length a) + 1) with (fun a : list Z => Z.of_nat (length a) + 1) in E.
  rewrite store_le_size in Hs. exists m'. split; [rewrite E; do 2 f_equal; lia|]. split; [done|]. split.
  - intros [|i] ad Hd; cbn in Hd.
    + injection Hd as <-. rewrite Z.mul_0_r, Z.add_0_r.
      rewrite (load_same 4 m' (store_le m sp 8 p)) by (intros x Hx; apply Hf; lia).
      rewrite (MachineFacts.load_bytes 4 _ _ p).
      * change (0x100 ^ Z.of_nat 4) with (2 ^ 32). apply Z.mod_small. lia.
      * intros k Hk. rewrite byte_store, decide_True by lia. do 3 f_equal. lia.
    + rewrite <- (Hr i ad Hd). f_equal. lia.
  - intros x Hx. rewrite Hf, byte_store, decide_False by lia. done.
Qed.

(** * Reset *)

(** The sizes leave room for the arguments. *)
Record args_fit (attr : vm_attr_t) : Prop := {
  af_mem : attr_mem_size attr < 2 ^ 32;
  af_stack : 0 <= stack_size attr /\ 8 + args_len (argv attr) <= stack_size attr;
  af_count : (length (argv attr) <= ARGS_MAX)%nat;
  af_offsets : 4 * (Z.of_nat (length (argv attr)) + 2) + 16 <= args_offset_size attr;
  af_room : stack_size attr + args_offset_size attr + 4 * (Z.of_nat (length (argv attr)) + 2) + 16 <= attr_mem_size attr }.

(** What a program finds at its stack pointer: the number of its arguments, a pointer to each
    as a string with its zero above the stack pointer, and a null pointer. *)
Definition argv_at (m : memory_t) (sp : Z) (args : list (list Z)) : Prop :=
  load_le m sp 4 = Z.of_nat (length args) /\
  (forall i a, args !! i = Some a ->
    let p := load_le m (sp + 4 + 4 * Z.of_nat i) 4 in sp <= p /\ read_block m p (S (length a)) = a ++ [0]) /\
  load_le m (sp + 4 + 4 * Z.of_nat (length args)) 4 = 0.

Lemma reset_args_spec attr m sp0 :
  args_fit attr -> mem_size m = attr_mem_size attr -> sp0 = attr_mem_size attr - stack_size attr - args_offset_size attr ->
  exists m' sp, reset_args attr m sp0 = Some (m', sp) /\ mem_size m' = mem_size m /\
    sp0 - 4 * (Z.of_nat (length (argv attr)) + 2) - 16 < sp <= sp0 /\ sp mod 16 = 0 /\ argv_at m' sp (argv attr) /\
    (forall x, x < sp -> byte_at m' x = byte_at m x).
Proof.
  intros [A1 [A2 A2'] A3 A4 A5] Hm Hsp. unfold reset_args. set (n := length (argv attr)) in *.
  pose proof (args_len_nonneg (argv attr)) as Hal.
  set (base := attr_mem_size attr - stack_size attr) in *.
  assert (u64 ((1 + Z.of_nat n + 1) * 4) = 4 * (Z.of_nat n + 2)) as -> by (unfold u64; rewrite Z.mod_small; lia).
  assert (u64 base = base) as -> by (unfold u64; apply Z.mod_small; lia).
  set (top := align16 (u64 (base - 4 * (Z.of_nat n + 2)))).
  assert (base - 4 * (Z.of_nat n + 2) - 16 < top <= base - 4 * (Z.of_nat n + 2)) as Htop.
  { subst top. rewrite align16_spec by apply u64_range. unfold u64. rewrite Z.mod_small by lia. mlia. }
  set (st := align16 (u64 (sp0 - (1 + Z.of_nat n + 1) * 4))).
  assert (sp0 - 4 * (Z.of_nat n + 2) - 16 < st <= sp0 - 4 * (Z.of_nat n + 2) /\ st mod 16 = 0) as [Hst Hst16].
  { subst st. rewrite align16_spec by apply u64_range. unfold u64. rewrite Z.mod_small by lia. split; mlia. }
  rewrite checked_write_some by (rewrite ?length_to_le; lia). cbn [mbind option_bind]. rewrite store_to_le.
  assert (u64 (top + 8) = top + 8) as -> by (unfold u64; apply Z.mod_small; lia).
  destruct (copy_args_spec (argv attr) (store_le m top 4 (Z.of_nat n)) (top + 8) []) as (m1 & -> & S1 & R1 & F1);
    rewrite ?store_le_size; [lia..|done|]. rewrite store_le_size in S1. cbn [mbind option_bind app].
  rewrite memory_read_some by lia. cbn [mbind option_bind]. change (Z.to_nat 4) with 4%nat.
  rewrite checked_write_some by (rewrite ?length_read_block; lia). cbn [mbind option_bind].
  assert (u64 (st + 4) = st + 4) as -> by (unfold u64; apply Z.mod_small; lia).
  set (m2 := store_bytes m1 st (read_block m1 top 4)).
  assert (mem_size m2 = mem_size m) as S2 by (subst m2; by rewrite store_bytes_size).
  destruct (push_args_spec (argv attr) m2 (st + 4) (top + 8)) as (m3 & -> & S3 & R3 & F3); [lia..|].
  fold n in F3. cbn [mbind option_bind]. fold n. rewrite u32_small by (unfold is_u32; lia). unfold memory_fill.
  rewrite (proj2 (Z.leb_gt _ _)), (proj2 (Z.ltb_ge _ _)) by lia. cbn [orb].
  set (m4 := store_bytes m3 (st + 4 + 4 * Z.of_nat n) (replicate (Z.to_nat 4) 0)).
  assert (forall x, ~ (st + 4 + 4 * Z.of_nat n <= x < st + 8 + 4 * Z.of_nat n) -> byte_at m4 x = byte_at m3 x) as F4.
  { intros x Hx. subst m4. rewrite store_bytes_spec, length_replicate. apply decide_False. lia. }
  exists m4, st. split; [done|]. split; [subst m4; rewrite store_bytes_size; congruence|]. split; [lia|]. split; [done|].
  assert (forall x, ~ (st <= x < st + 4) -> byte_at m2 x = byte_at m1 x) as F2.
  { intros x Hx. subst m2. rewrite store_bytes_spec, length_read_block. apply decide_False. lia. }
  assert (forall x, ~ (st <= x < st + 8 + 4 * Z.of_nat n) -> byte_at m4 x = byte_at m1 x) as F.
  { intros x Hx. rewrite F4, F3, F2 by lia. done. }
  split.
  - split; [|split].
    + rewrite (load_same 4 m4 m2) by (intros x Hx; rewrite F4, F3 by lia; done).
      rewrite (MachineFacts.load_bytes 4 m2 st (Z.of_nat n)).
      * change (0x100 ^ Z.of_nat 4) with (2 ^ 32). apply Z.mod_small. lia.
      * intros k Hk. subst m2. rewrite store_bytes_spec, length_read_block, decide_True by lia.
        replace (st + k - st) with k by lia. rewrite lookup_read_block by lia. cbn [from_option id].
        rewrite F1, byte_store, decide_True by lia. do 3 f_equal. lia.
    + intros i a Ha p. subst p. destruct (lookup_lt_is_Some_2 (arg_addrs (top + 8) (argv attr)) i) as [ad Had].
      { rewrite length_arg_addrs. by eapply lookup_lt_Some. }
      pose proof (lookup_lt_Some _ _ _ Ha) as Hi. fold n in Hi. destruct (arg_addrs_bound _ _ _ _ _ Ha Had) as [B1 B2].
      assert (load_le m4 (st + 4 + 4 * Z.of_nat i) 4 = ad) as ->.
      { rewrite <- (R3 i ad Had). apply load_same. intros x Hx. apply F4. lia. }
      cbn zeta. split; [lia|]. rewrite <- (R1 i a ad Ha Had). apply read_block_same. intros x Hx. apply F. lia.
    + rewrite (MachineFacts.load_bytes 4 m4 _ 0); [done|]. intros k Hk. subst m4. rewrite store_bytes_spec, length_replicate.
      rewrite decide_True by lia. rewrite lookup_replicate_2 by lia. cbn [from_option id]. by rewrite Z.div_0_l by lia.
  - intros x Hx. rewrite F, F1, byte_store, decide_False by lia. done.
Qed.

Lemma argv_at_same m m' sp args :
  argv_at m sp args -> (forall x, sp <= x -> byte_at m' x = byte_at m x) -> argv_at m' sp args.
Proof.
  intros (H1 & H2 & H3) Hs.
  assert (forall a, sp <= a -> load_le m' a 4 = load_le m a 4) as Hl by (intros a Ha; apply load_same; intros x Hx; apply Hs; lia).
  split; [by rewrite Hl|]. split; [|by rewrite Hl by lia]. intros i a Ha p. subst p. rewrite Hl by lia.
  destruct (H2 i a Ha) as [Hp Hr]. split; [done|]. rewrite <- Hr. apply read_block_same. intros x Hx. apply Hs. lia.
Qed.

Lemma rv_reset_spec attr s pc :
  args_fit attr -> mem_size (mem s) = attr_mem_size attr -> 0 <= args_offset_size attr ->
  exists s', rv_reset attr s pc = Some s' /\ PC s' = pc /\ priv_mode s' = RV_PRIV_M_MODE /\ halt s' = false /\
    mem_size (mem s') = mem_size (mem s) /\ X s' = <[Z.to_nat rv_reg_sp := reg s' rv_reg_sp]> (replicate N_RV_REGS 0) /\
    attr_mem_size attr - stack_size attr - args_offset_size attr - 4 * (Z.of_nat (length (argv attr)) + 2) - 16
      < reg s' rv_reg_sp /\
    reg s' rv_reg_sp mod 16 = 0 /\ argv_at (mem s') (reg s' rv_reg_sp) (argv attr) /\
    (forall x, x < reg s' rv_reg_sp -> byte_at (mem s') x = byte_at (mem s) x).
Proof.
  intros Hfit Hm Ho. pose proof Hfit as [A1 [A2 A2'] A3 A4 A5]. unfold rv_reset.
  set (sp0 := attr_mem_size attr - stack_size attr - args_offset_size attr) in *.
  rewrite (u32_small sp0) by (unfold is_u32; lia).
  change (reg (set_reg rv_reg_sp sp0 (set_PC pc (set_X (replicate N_RV_REGS 0) s))) rv_reg_sp) with sp0.
  destruct (reset_args_spec attr (mem s) sp0 Hfit Hm eq_refl) as (m' & sp & E & Hs & Hsp & H16 & Hargs & Hf).
  cbn [mem set_reg set_X set_PC]. rewrite E. cbn [mbind option_bind]. rewrite (u32_small sp) by (unfold is_u32; lia).
  eexists. split; [reflexivity|]. change (reg _ rv_reg_sp) with sp. cbn [PC priv_mode halt mem X set_halt set_csr set_csrs
    set_F set_csr_cycle set_priv_mode set_reg set_X set_mem set_PC].
  do 4 (split; [done|]). split; [done|]. split; [lia|]. split; [done|]. split; [done|done].
Qed.

(** * Standard streams *)

(** An allocator that has memory left and gives out new aligned blocks. *)
Definition fd_allocator_ok (malloc : fd_map_t -> Z -> option Z) : Prop :=
  (forall sz, is_Some (malloc None sz)) /\
  forall m sz, is_Some (malloc (Some m) sz) /\ malloc_fresh (malloc (Some m)) m.

Section Streams.
Context (fd_malloc : fd_map_t -> Z -> option Z) (FILENO : Z -> Z).
Context (Hmalloc : fd_allocator_ok fd_malloc) (Hfileno : forall f, FILENO f <> -1).

Lemma insert_fd m fd file : map_wf m -> comparator m = map_cmp_int -> map_count m < 2 ^ 32 -> map_find (Some m) fd = None ->
  exists r m', map_insert (fd_malloc (Some m)) 0 (Some m) (Some fd) (Some file) = Some (r, Some m') /\ map_wf m' /\
    comparator m' = map_cmp_int /\ map_count m' = map_count m + 1 /\
    forall x, data <$> map_find (Some m') x = if decide (x = fd) then Some file else data <$> map_find (Some m) x.
Proof.
  intros Hw Hc Hn Hf. destruct Hmalloc as [_ Ha]. destruct (Ha m (total_size (key_size m) (data_size m))) as [[a Ea] Hfr].
  destruct (map_insert_spec (fd_malloc (Some m)) 0 m fd (Some file)) as (r & m' & E & Hw' & Hc' & H);
    [rewrite Hc; apply _|done|lia|done|]. rewrite Hf, Ea in H. destruct H as (-> & Hs & Hfind).
  exists true, m'. split_and!; [done..|congruence|exact Hs|]. intros x. rewrite Hfind. by destruct (decide (x = fd)).
Qed.

(** One stream: its descriptor designates it, the others stay. *)
Lemma remap_one_spec m std fd file : map_wf m -> comparator m = map_cmp_int -> map_count m < 2 ^ 32 -> 0 <= fd < 3 ->
  exists m' std', remap_one fd_malloc FILENO (Some m, std) (fd, Some file) = Some (Some m', std') /\ map_wf m' /\
    comparator m' = map_cmp_int /\ map_count m' <= map_count m + 1 /\
    forall x, data <$> map_find (Some m') x = if decide (x = fd) then Some file else data <$> map_find (Some m) x.
Proof.
  intros Hw Hc Hn Hfd. unfold remap_one.
  assert (negb (fd =? 0) && negb (fd =? 1) && negb (fd =? 2) = false) as -> by lia.
  match goal with |- context [mbind _ ?erased] => assert (exists m1, erased = Some (Some m1) /\
    map_wf m1 /\ comparator m1 = map_cmp_int /\ map_count m1 <= map_count m /\
    forall x, map_find (Some m1) x = if decide (x = fd) then None else map_find (Some m) x) as (m1 & E1 & Hw1 & Hc1 & Hn1 & Hf1) end.
  { destruct (map_find (Some m) fd) as [n|] eqn:Ef.
    - destruct (map_erase_spec m fd n) as (m1 & E & Hw1 & Hc1 & Hs & Hf1); [rewrite Hc; apply _|done|lia|done|].
      exists m1. rewrite E. cbn [map_size] in Hs. split_and!; [done..|congruence|lia|done].
    - exists m. split_and!; [done..|]. intros x. by destruct (decide (x = fd)) as [->|]. }
  rewrite E1. cbn [mbind option_bind].
  destruct (insert_fd m1 fd file) as (r & m' & -> & Hw' & Hc' & Hn' & Hf'); [done|done|lia|by rewrite Hf1, decide_True|].
  cbn [mbind option_bind]. rewrite (proj2 (Z.eqb_neq _ _)) by apply Hfileno. eexists m', _. split; [done|].
  split_and!; [done|done|lia|]. intros x. rewrite Hf', Hf1. by destruct (decide (x = fd)).
Qed.

Lemma standard_streams stdin stdout stderr : exists m std,
  rv_remap_stdstream fd_malloc FILENO (map_new (fd_malloc None) 4 8 (Some map_cmp_int), mk_std 0 0 0)
    [(0, Some stdin); (1, Some stdout); (2, Some stderr)] = Some (Some m, std) /\
  forall x, data <$> map_find (Some m) x
    = if decide (x = 0) then Some stdin else if decide (x = 1) then Some stdout
      else if decide (x = 2) then Some stderr else None.
Proof.
  destruct (map_new (V := Z) (fd_malloc None) 4 8 (Some map_cmp_int)) as [m0|] eqn:E0.
  2: { unfold map_new in E0. cbn in E0. destruct (proj1 Hmalloc 40) as [a Ea]. by rewrite Ea in E0. }
  destruct (map_new_wf (fd_malloc None) 4 8 map_cmp_int m0) as (Hw0 & Hc0 & Hf0); [done..|].
  assert (map_count m0 = 0) as Hn0.
  { unfold map_new in E0. cbn in E0. destruct (fd_malloc None 40); [|done]. by injection E0 as <-. }
  cbn [rv_remap_stdstream fst].
  destruct (remap_one_spec m0 (mk_std 0 0 0) 0 stdin) as (m1 & std1 & -> & Hw1 & Hc1 & Hn1 & Hf1); [done|done|lia|lia|].
  cbn [mbind option_bind rv_remap_stdstream fst].
  destruct (remap_one_spec m1 std1 1 stdout) as (m2 & std2 & -> & Hw2 & Hc2 & Hn2 & Hf2); [done|done|lia|lia|].
  cbn [mbind option_bind rv_remap_stdstream fst].
  destruct (remap_one_spec m2 std2 2 stderr) as (m3 & std3 & -> & Hw3 & Hc3 & Hn3 & Hf3); [done|done|lia|lia|].
  cbn [mbind option_bind rv_remap_stdstream fst]. exists m3, std3. split; [done|].
  intros x. rewrite Hf3, Hf2, Hf1, Hf0. repeat destruct (decide _); try done; lia.
Qed.
End Streams.

(** * Start of a program *)

Lemma image_outside raw segs a :
  Forall (fun s => seg_type s = PT_LOAD -> 0 < Z.max (seg_memsz s) (seg_filesz s) ->
    seg_vaddr s + Z.max (seg_memsz s) (seg_filesz s) <= a) segs ->
  forall old, image raw segs old a = old.
Proof.
  induction 1 as [|s segs Hs _ IH]; intros old; cbn [image]; [done|]. rewrite IH.
  unfold segment_byte. rewrite decide_False; [done|]. intros [Ht Ha]. specialize (Hs Ht). lia.
Qed.


Definition demo_attr : vm_attr_t := mk_attr 0x4000 0x1000 0x200 [[97; 98]; [99]] false [97].
Lemma demo_attr_fit : args_fit demo_attr.
Proof. split; [by vm_compute|by vm_compute|cbn; unfold ARGS_MAX; lia|by vm_compute|by vm_compute]. Qed.

Lemma demo_open malloc : elf_open true (fun _ => Some demo_elf) (elf_new malloc) [97]
  = Some (true, mk_elf true 260 (Some demo_elf) (symbols (elf_new malloc))).
Proof.
  unfold elf_open. cbn [raw_data elf_new].
  assert (sanitize_path true [97] = Some (Some [97; 0])) as -> by by vm_compute. cbn [mbind option_bind existsb negb Z.eqb orb].
  assert (is_valid demo_elf = Some true) as Hv by by vm_compute.
  assert (Z.of_nat (length demo_elf) = 260) as Hl by by vm_compute.
  destruct demo_elf as [|b raw]; [done|]. rewrite Hv. cbn [mbind option_bind]. by rewrite Hl.
Qed.

Definition fd_bump_malloc (m : fd_map_t) (_ : Z) : option Z :=
  Some (2 * (1 + match m with
                 | Some m => foldr Z.max 0 (node_addr <$> elements (root m))
                 | None => 0
                 end)).
Lemma fd_bump_malloc_ok : fd_allocator_ok fd_bump_malloc.
Proof. split; [done|]. intros m sz. split; [done|]. intros sz' a [= <-]. apply above_all_fresh. Qed.


(** More than 256 arguments run over the array of their lengths. *)
Lemma too_many_args : copy_args (mk_memory ∅ 0x1000) 0 [] (replicate 257 []) = None.
Proof. by vm_compute. Qed.
