(* ===== verification/JitEmit.v ===== *)
(** The tier-1 code generator, lower half (jit.h and jit.c, x86-64 with the System V calling
    convention, without SYSTEM): the code buffer, the table of pending jumps, the map from
    host to guest registers, and the emitters that append machine code.

    The static variables of jit.c ([register_map], [should_flush], [liveness],
    [candidate_queue]) and the [jit_state] are one state [jst], threaded by a state monad.
    A failed assertion and [__UNREACHABLE] are [None].  What an emitted byte sequence does is
    defined in X86.v. *)

From S2P Require Import Prelude.
From S2P Require Import Utils.

(** * State *)

Definition MAX_JUMPS : Z := 1024.
Definition MAX_BLOCKS : Z := 8192.
Definition STACK_SIZE : Z := 512.
Definition JIT_CLS_MASK : Z := 0x07.
Definition JIT_ALU_OP_MASK : Z := 0xf0.
Definition JIT_CLS_ALU64 : Z := 0x07.
Definition JIT_OP_MUL_IMM : Z := 0x24.
Definition JIT_OP_DIV_IMM : Z := 0x34.
Definition JIT_OP_MOD_IMM : Z := 0x94.
Definition TARGET_PC_EXIT : Z := 0xffffffff.
Definition TARGET_PC_RETPOLINE : Z := 0xfffffffd.

(** [enum x64_reg] *)
Definition RAX : Z := 0.
Definition RCX : Z := 1.
Definition RDX : Z := 2.
Definition RBX : Z := 3.
Definition RSP : Z := 4.
Definition RBP : Z := 5.
Definition RSI : Z := 6.
Definition RDI : Z := 7.
Definition R8 : Z := 8.
Definition R9 : Z := 9.
Definition R10 : Z := 10.
Definition R11 : Z := 11.
Definition R12 : Z := 12.
Definition R13 : Z := 13.
Definition R14 : Z := 14.
Definition R15 : Z := 15.

Inductive operand_size : Set := S8 | S16 | S32 | S64.
Definition is_S8 (size : operand_size) : bool := match size with S8 => true | _ => false end.
Definition is_S16 (size : operand_size) : bool := match size with S16 => true | _ => false end.

(** Jump condition codes of jit.h: the second byte of a [Jcc], or the byte of [JMP]. *)
Definition JCC_JE : Z := 0x84.
Definition JCC_JNE : Z := 0x85.
Definition JCC_JL : Z := 0x8c.
Definition JCC_JGE : Z := 0x8d.
Definition JCC_JB : Z := 0x82.
Definition JCC_JAE : Z := 0x83.
Definition JCC_JMP : Z := 0xe9.

Definition nonvolatile_reg : list Z := [RBP; RBX; R13; R14; R15].
(** [parameter_reg[0]] holds the [riscv_t] pointer; [temp_reg] is never allocated. *)
Definition parameter_reg0 : Z := RDI.
Definition temp_reg : Z := RCX.

Record host_reg := mk_host_reg {
  reg_idx : Z; vm_reg_idx : Z; dirty : bool; alive : bool }.
Definition register_map_init : list host_reg :=
  (fun r => mk_host_reg r (-1) false false) <$> [RAX; RBX; RDX; R8; R9; R10; R11; R13; R14; R15].
Definition set_vm_idx v h := mk_host_reg (reg_idx h) v (dirty h) (alive h).
Definition set_dirty_flag d h := mk_host_reg (reg_idx h) (vm_reg_idx h) d (alive h).
Definition set_alive a h := mk_host_reg (reg_idx h) (vm_reg_idx h) (dirty h) a.

(** [struct jump] and [struct offset_map]. *)
Record jump_t := mk_jump { offset_loc : Z; target_pc : Z; target_offset : Z }.
Record offset_map_t := mk_offset_map { om_pc : Z; om_offset : Z }.

(** [struct jit_state].  The arrays [jumps] and [offset_map] are their used prefixes; the
    entries of [jumps] past the prefix are zero, [jit_translate] clears the array. *)
Record jit_state := mk_jit_state {
  jset : set_t; buf : list Z; offset : Z; jsize : Z; exit_loc : Z; org_size : Z;
  retpoline_loc : Z; offset_map : list offset_map_t; jumps : list jump_t }.
Definition n_blocks (s : jit_state) : Z := Z.of_nat (length (offset_map s)).
Definition n_jumps (s : jit_state) : Z := Z.of_nat (length (jumps s)).

Record jst := mk_jst {
  js : jit_state; register_map : list host_reg; should_flush : bool;
  liveness : list Z; candidate_queue : list Z }.

Definition with_js j s := mk_jst j (register_map s) (should_flush s) (liveness s) (candidate_queue s).
Definition with_register_map r s :=
  mk_jst (js s) r (should_flush s) (liveness s) (candidate_queue s).
Definition with_should_flush b s :=
  mk_jst (js s) (register_map s) b (liveness s) (candidate_queue s).
Definition with_liveness l s :=
  mk_jst (js s) (register_map s) (should_flush s) l (candidate_queue s).
Definition with_candidate_queue q s :=
  mk_jst (js s) (register_map s) (should_flush s) (liveness s) q.

Definition with_jset v j := mk_jit_state v (buf j) (offset j) (jsize j) (exit_loc j) (org_size j)
  (retpoline_loc j) (offset_map j) (jumps j).
Definition with_code b o j := mk_jit_state (jset j) b o (jsize j) (exit_loc j) (org_size j)
  (retpoline_loc j) (offset_map j) (jumps j).
Definition with_exit_loc v j := mk_jit_state (jset j) (buf j) (offset j) (jsize j) v (org_size j)
  (retpoline_loc j) (offset_map j) (jumps j).
Definition with_org_size v j := mk_jit_state (jset j) (buf j) (offset j) (jsize j) (exit_loc j) v
  (retpoline_loc j) (offset_map j) (jumps j).
Definition with_offset_map v j := mk_jit_state (jset j) (buf j) (offset j) (jsize j) (exit_loc j)
  (org_size j) (retpoline_loc j) v (jumps j).
Definition with_jumps v j := mk_jit_state (jset j) (buf j) (offset j) (jsize j) (exit_loc j)
  (org_size j) (retpoline_loc j) (offset_map j) v.

(** * The monad *)

Definition jitM (A : Type) : Type := jst -> option (A * jst).
#[export] Instance jitM_ret : MRet jitM := fun A a s => Some (a, s).
#[export] Instance jitM_bind : MBind jitM := fun A B f m s =>
  match m s with Some (a, s) => f a s | None => None end.
Definition jget {A} (f : jst -> A) : jitM A := fun s => Some (f s, s).
Definition jmodify (f : jst -> jst) : jitM unit := fun s => Some (tt, f s).
Definition jassert (b : bool) : jitM unit := fun s => if b then Some (tt, s) else None.
Definition junreachable {A} : jitM A := fun _ => None.
Definition jwhen (b : bool) (m : jitM unit) : jitM unit := if b then m else mret tt.
Definition get_offset : jitM Z := jget (fun s => offset (js s)).

(** * Register map *)

(** [set_dirty]: the first entry of the host register. *)
Fixpoint set_dirty_in (l : list host_reg) (r : Z) (d : bool) : list host_reg :=
  match l with
  | [] => []
  | h :: l => if reg_idx h =? r then set_dirty_flag d h :: l else h :: set_dirty_in l r d
  end.
Definition set_dirty (r : Z) (is_dirty : bool) : jitM unit :=
  jmodify (fun s => with_register_map (set_dirty_in (register_map s) r is_dirty) s).

(** The loops of [emit_load], [emit_load_sext] and [jit_store_x0]: is the host register
    mapped to [x0]? *)
Definition maps_x0 (l : list host_reg) (r : Z) : bool :=
  existsb (fun h => (reg_idx h =? r) && (vm_reg_idx h =? 0)) l.

(** * Bytes *)

(** The object representation of an integer of [n] bytes (little endian). *)
Fixpoint le_bytes (n : nat) (v : Z) : list Z :=
  match n with O => [] | S n => v mod 0x100 :: le_bytes n (v / 0x100) end.

(** [memcpy(state->buf + offset, data, len)]; callers have checked the bounds. *)
Definition buf_write (b : list Z) (off : Z) (data : list Z) : list Z :=
  take (Z.to_nat off) b ++ data ++ drop (Z.to_nat off + length data) b.

Definition emit_bytes (data : list Z) : jitM unit := fun s =>
  let j := js s in
  let len := Z.of_nat (length data) in
  if jsize j <? u32 (offset j + len) then Some (tt, with_should_flush true s)
  else if n_blocks j =? MAX_BLOCKS then Some (tt, with_should_flush true s)
  else Some (tt, with_js (with_code (buf_write (buf j) (offset j) data) (u32 (offset j + len)) j) s).

Definition emit1 (x : Z) : jitM unit := emit_bytes (le_bytes 1 x).
Definition emit4 (x : Z) : jitM unit := emit_bytes (le_bytes 4 x).
Definition emit8 (x : Z) : jitM unit := emit_bytes (le_bytes 8 x).

Definition offset_map_insert (pc : Z) : jitM unit :=
  n ← jget (fun s => n_blocks (js s));
  jassert (n <? MAX_BLOCKS);;
  jmodify (fun s => with_js (with_offset_map
    (offset_map (js s) ++ [mk_offset_map pc (offset (js s))]) (js s)) s).

(** * x86-64 encoding *)

Definition emit_modrm (md r m : Z) : jitM unit :=
  jassert (negb (truth (Z.land md (Z.lnot 0xc0))));;
  emit1 (Z.lor (Z.lor (Z.land md 0xc0) (Z.shiftl (Z.land r 7) 3)) (Z.land m 7)).
Definition emit_modrm_reg2reg (r m : Z) : jitM unit := emit_modrm 0xc0 r m.
Definition emit_modrm_and_displacement (r m d : Z) : jitM unit :=
  if (d =? 0) && negb (Z.land m 7 =? RBP) then emit_modrm 0x00 r m
  else if s8 d =? d then emit_modrm 0x40 r m;; emit1 d
  else emit_modrm 0x80 r m;; emit4 d.

Definition is_bit (x : Z) : bool := negb (truth (Z.land x (Z.lnot 1))).
Definition emit_rex (w r x b : Z) : jitM unit :=
  jassert (is_bit w);; jassert (is_bit r);; jassert (is_bit x);; jassert (is_bit b);;
  emit1 (Z.lor (Z.lor (Z.lor (Z.lor 0x40 (Z.shiftl w 3)) (Z.shiftl r 2)) (Z.shiftl x 1)) b).
(** [!!(r & 8)] *)
Definition high_bit (r : Z) : Z := b2u (truth (Z.land r 8)).
Definition emit_basic_rex (w src dst : Z) : jitM unit :=
  jwhen (truth w || truth (Z.land src 8) || truth (Z.land dst 8))
    (emit_rex w (high_bit src) 0 (high_bit dst)).

Definition emit_push (r : Z) : jitM unit :=
  jwhen (truth (Z.land r 8)) (emit_basic_rex 0 0 r);;
  emit1 (Z.lor 0x50 (Z.land r 7)).
Definition emit_pop (r : Z) : jitM unit :=
  jwhen (truth (Z.land r 8)) (emit_basic_rex 0 0 r);;
  emit1 (Z.lor 0x58 (Z.land r 7)).

(** A new entry of [jumps]. *)
Definition add_jump (f : jit_state -> jump_t) : jitM unit :=
  n ← jget (fun s => n_jumps (js s));
  jassert (n <? MAX_JUMPS);;
  jmodify (fun s => with_js (with_jumps (jumps (js s) ++ [f (js s)]) (js s)) s).
Definition emit_jump_target_address (target_pc : Z) : jitM unit :=
  add_jump (fun j => mk_jump (offset j) (u32 target_pc) 0);;
  emit4 0.
Definition emit_jump_target_offset (jump_loc_0 jump_state_offset : Z) : jitM unit :=
  add_jump (fun _ => mk_jump jump_loc_0 0 jump_state_offset).

Definition emit_alu32 (op src dst : Z) : jitM unit :=
  jwhen (truth (Z.land src 8) || truth (Z.land dst 8)) (emit_basic_rex 0 src dst);;
  emit1 op;;
  emit_modrm_reg2reg src dst;;
  set_dirty dst true.
Definition emit_alu32_imm32 (op src dst imm : Z) : jitM unit :=
  emit_alu32 op src dst;; emit4 imm.
Definition emit_alu32_imm8 (op src dst imm : Z) : jitM unit :=
  emit_alu32 op src dst;; emit1 imm.
Definition emit_alu64 (op src dst : Z) : jitM unit :=
  emit_basic_rex 1 src dst;;
  emit1 op;;
  emit_modrm_reg2reg src dst;;
  set_dirty dst true.
Definition emit_alu64_imm8 (op src dst imm : Z) : jitM unit :=
  emit_alu64 op src dst;; emit1 imm.
Definition emit_mov (src dst : Z) : jitM unit := emit_alu64 0x89 src dst.
Definition emit_alu64_imm32 (op src dst imm : Z) : jitM unit :=
  emit_alu64 op src dst;; emit4 imm.
Definition emit_cmp_imm32 (dst imm : Z) : jitM unit := emit_alu32_imm32 0x81 7 dst imm.
Definition emit_cmp32 (src dst : Z) : jitM unit := emit_alu32 0x39 src dst.
Definition emit_jcc_offset (code : Z) : jitM unit :=
  jwhen (negb (code =? JCC_JMP)) (emit1 0x0f);;
  emit1 code;;
  emit4 0.

Definition emit_load_imm (dst imm : Z) : jitM unit :=
  jwhen (truth (Z.land dst 8)) (emit_basic_rex 0 0 dst);;
  emit1 (Z.lor 0xb8 (Z.land dst 7));;
  emit4 imm;;
  set_dirty dst true.

(** A register that stands for [x0] is loaded with zero; the loop continues past entries
    that do not match and returns at the first that does. *)
Definition emit_load (size : operand_size) (src dst off : Z) : jitM unit :=
  x0 ← jget (fun s => maps_x0 (register_map s) dst);
  if (x0 : bool) then emit_load_imm dst 0;; set_dirty dst true
  else
    jwhen (truth (Z.land src 8) || truth (Z.land dst 8)) (emit_basic_rex 0 dst src);;
    match size with
    | S8 => emit1 0x0f;; emit1 0xb6
    | S16 => emit1 0x0f;; emit1 0xb7
    | S32 => emit1 0x8b
    | S64 => junreachable
    end;;
    emit_modrm_and_displacement dst src off;;
    set_dirty dst (off =? 0).
Definition emit_load_sext (size : operand_size) (src dst off : Z) : jitM unit :=
  x0 ← jget (fun s => maps_x0 (register_map s) dst);
  if (x0 : bool) then emit_load_imm dst 0;; set_dirty dst true
  else
    match size with
    | S8 | S16 =>
        jwhen (truth (Z.land src 8) || truth (Z.land dst 8)) (emit_basic_rex 0 dst src);;
        emit1 0x0f;;
        emit1 (if is_S8 size then 0xbe else 0xbf)
    | S32 => emit_basic_rex 1 dst src;; emit1 0x63
    | S64 => mret tt
    end;;
    emit_modrm_and_displacement dst src off;;
    set_dirty dst (off =? 0).
Definition emit_sxtw (r : Z) : jitM unit :=
  emit_basic_rex 1 r r;; emit1 0x63;; emit_modrm_reg2reg r r.

(** [imm] is an [int64_t]. *)
Definition emit_load_imm_sext (dst imm : Z) : jitM unit :=
  (if s32 imm =? imm then emit_alu64_imm32 0xc7 0 dst imm
   else emit_basic_rex 1 0 dst;; emit1 (Z.lor 0xb8 (Z.land dst 7));; emit8 imm);;
  set_dirty dst true.

(** Returns whether the store was done here. *)
Definition jit_store_x0 (size : operand_size) (src dst off : Z) : jitM bool :=
  x0 ← jget (fun s => maps_x0 (register_map s) src);
  if (x0 : bool) then
    jwhen (is_S16 size) (emit1 0x66);;
    jwhen (truth (Z.land dst 8)) (emit_rex 0 0 0 (high_bit dst));;
    emit1 (if is_S8 size then 0xc6 else 0xc7);;
    emit1 (Z.lor 0x80 (Z.land dst 7));;
    emit4 off;;
    match size with
    | S8 => emit1 0
    | S16 => emit1 0;; emit1 0
    | S32 => emit4 0
    | S64 => junreachable
    end;;
    set_dirty src false;;
    mret true
  else mret false.
Definition emit_store (size : operand_size) (src dst off : Z) : jitM unit :=
  done ← jit_store_x0 size src dst off;
  if (done : bool) then mret tt
  else
    jwhen (is_S16 size) (emit1 0x66);;
    jwhen (truth (Z.land src 8) || truth (Z.land dst 8) || is_S8 size)
      (emit_rex 0 (high_bit src) 0 (high_bit dst));;
    emit1 (if is_S8 size then 0x88 else 0x89);;
    emit_modrm_and_displacement src dst off;;
    jwhen (truth off) (set_dirty src false).

Definition emit_jmp (target_pc : Z) : jitM unit :=
  emit1 JCC_JMP;; emit_jump_target_address target_pc.
Definition emit_call (target : Z) : jitM unit :=
  emit_load_imm_sext RAX target;; emit1 0xff;; emit1 0xd0.
Definition emit_exit : jitM unit :=
  emit1 JCC_JMP;; emit_jump_target_address TARGET_PC_EXIT.
Definition emit_conditional_move (src dst : Z) : jitM unit :=
  emit1 0x48;; emit1 0x0f;; emit1 0x44;; emit_modrm_reg2reg dst src.

(** [unmap_vm_reg] *)
Definition n_host_regs : Z := 10.
Definition update_slot (idx : Z) (f : host_reg -> host_reg) : jitM unit :=
  jassert ((-1 <? idx) && (idx <? n_host_regs));;
  jmodify (fun s => with_register_map (alter f (Z.to_nat idx) (register_map s)) s).
Definition unmap_vm_reg (idx : Z) : jitM unit := update_slot idx (set_vm_idx (-1)).
Definition slot_of (idx : Z) (s : jst) : host_reg :=
  nth (Z.to_nat idx) (register_map s) (mk_host_reg 0 (-1) false false).

(** [muldivmod] of the x86-64 build. *)
Definition muldivmod (opcode src dst : Z) (sign : bool) : jitM unit :=
  let op := Z.land opcode JIT_ALU_OP_MASK in
  let mul := op =? Z.land JIT_OP_MUL_IMM JIT_ALU_OP_MASK in
  let div := op =? Z.land JIT_OP_DIV_IMM JIT_ALU_OP_MASK in
  let md := op =? Z.land JIT_OP_MOD_IMM JIT_ALU_OP_MASK in
  let is64 := Z.land opcode JIT_CLS_MASK =? JIT_CLS_ALU64 in
  h1 ← jget (slot_of 0);
  h2 ← jget (slot_of 2);
  jwhen (negb (dst =? RAX)) (unmap_vm_reg 0;; emit_push RAX);;
  jwhen (negb (dst =? RDX)) (unmap_vm_reg 2;; emit_push RDX);;
  emit_mov src RCX;;
  emit_mov dst RAX;;
  jwhen (div || md)
    (jwhen sign (emit_load_imm_sext RDX (-1);; emit_cmp32 RDX RCX;; emit1 0x9c);;
     jwhen (md || (div && sign)) (emit_push RAX);;
     emit_alu32 0x85 RCX RCX;;
     emit1 0x9c;;
     emit_load_imm RDX 1;;
     emit_conditional_move RDX RCX;;
     emit_alu32 0x31 RDX RDX);;
  jwhen is64 (emit_rex 1 0 0 0);;
  emit_alu32 0xf7 (if mul then 4 else 6) RCX;;
  jwhen (div || md)
    (emit1 0x9d;;
     if div then
       emit_load_imm_sext RCX (-1);;
       emit_conditional_move RCX RAX;;
       jwhen sign
         (emit_pop RCX;;
          emit1 0x9d;;
          jump_loc_0 ← get_offset;
          emit_jcc_offset JCC_JNE;;
          emit_cmp_imm32 RCX 0x80000000;;
          emit_conditional_move RCX RAX;;
          off ← get_offset;
          emit_jump_target_offset (jump_loc_0 + 2) off)
     else
       emit_pop RCX;;
       emit_conditional_move RCX RDX;;
       jwhen sign
         (emit1 0x9d;;
          jump_loc_0 ← get_offset;
          emit_jcc_offset JCC_JNE;;
          emit_cmp_imm32 RCX 0x80000000;;
          emit_load_imm RCX 0;;
          emit_conditional_move RCX RDX;;
          off ← get_offset;
          emit_jump_target_offset (jump_loc_0 + 2) off));;
  jwhen (negb (dst =? RDX))
    (jwhen md (emit_mov RDX dst);;
     emit_pop RDX;;
     update_slot 2 (fun h => set_dirty_flag (dirty h2) (set_vm_idx (vm_reg_idx h2) h)));;
  jwhen (negb (dst =? RAX))
    (jwhen (div || mul) (emit_mov RAX dst);;
     emit_pop RAX;;
     update_slot 0 (fun h => set_dirty_flag (dirty h1) (set_vm_idx (vm_reg_idx h1) h))).

(** [prepare_translate]: prologue and epilogue.  The number of non-volatile registers is odd,
    so the two alignment adjustments are compiled out. *)
Definition emit_each (f : Z -> jitM unit) (l : list Z) : jitM unit :=
  foldr (fun r k => f r;; k) (mret tt) l.
Definition prepare_translate : jitM unit :=
  emit_each emit_push nonvolatile_reg;;
  jwhen (Z.of_nat (length nonvolatile_reg) mod 2 =? 0) (emit_alu64_imm32 0x81 5 RSP 8);;
  emit_mov RSP RBP;;
  emit_alu64_imm32 0x81 5 RSP STACK_SIZE;;
  emit1 0xff;;
  emit1 0xe6;;
  jmodify (fun s => with_js (with_exit_loc (offset (js s)) (js s)) s);;
  emit_mov RBP RSP;;
  jwhen (Z.of_nat (length nonvolatile_reg) mod 2 =? 0) (emit_alu64_imm32 0x81 0 RSP 8);;
  emit_each emit_pop (reverse nonvolatile_reg);;
  emit1 0xc3;;
  jmodify (fun s => with_js (with_org_size (offset (js s)) (js s)) s).
