(* ===== verification/JitAlloc.v ===== *)
(** The register allocator of the tier-1 code generator (jit.c): which host register holds
    which guest register while a block is translated, liveness of guest registers in the
    block, spilling, and the jump on the most frequent indirect target. *)

From S2P Require Import Prelude.
From S2P Require Import Opcode.
From S2P Require Import Decode.
From S2P Require Import Fusion.
From S2P Require Import JitEmit.

(** [offsetof(riscv_t, X)] and [offsetof(riscv_t, PC)]: [bool halt] is followed by [X]. *)
Definition offsetof_X : Z := 4.
Definition offsetof_PC : Z := offsetof_X + 4 * 32.

(** * Map and spill *)

Definition reset_reg : jitM unit :=
  jmodify (fun s => with_register_map
    ((fun h => mk_host_reg (reg_idx h) (-1) false false) <$> register_map s) s).

(** Write a dirty host register back; [x0] never is. *)
Definition save_reg (idx : Z) : jitM unit :=
  jassert ((-1 <? idx) && (idx <? n_host_regs));;
  h ← jget (slot_of idx);
  if negb (dirty h) then mret tt
  else if vm_reg_idx h =? 0 then update_slot idx (set_dirty_flag false)
  else
    emit_store S32 (reg_idx h) parameter_reg0 (offsetof_X + 4 * vm_reg_idx h);;
    update_slot idx (set_dirty_flag false).

Definition store_back : jitM unit :=
  emit_each (fun i =>
    h ← jget (slot_of i);
    if vm_reg_idx h =? -1 then mret tt else save_reg i)
    [0; 1; 2; 3; 4; 5; 6; 7; 8; 9].

(** * Liveness: the index of the last instruction that reads a register *)

Definition liveness_reset : jitM unit := jmodify (with_liveness (replicate N_RV_REGS (-1))).

Definition candidate_queue_init : list Z := Z.of_nat <$> seq 0 N_RV_REGS.

Definition live_of (l : list Z) (r : Z) : Z := nth (Z.to_nat r) l 0.
Definition liveness_cmp (l : list Z) (a b : Z) : Z :=
  if live_of l a <? live_of l b then -1
  else if live_of l a >? live_of l b then 1
  else if a <? b then -1
  else if a >? b then 1
  else 0.

(** The registers the [switch] of [liveness_calc] marks, in order; [None] is
    [__UNREACHABLE]. *)
Definition live_regs (ir : rv_insn) : option (list Z) :=
  match opcode ir with
  | rv_insn_nop | rv_insn_lui | rv_insn_auipc | rv_insn_jal => Some []
  | rv_insn_jalr => Some [rs1 ir]
  | rv_insn_beq | rv_insn_bne | rv_insn_blt | rv_insn_bge | rv_insn_bltu | rv_insn_bgeu =>
      Some [rs1 ir; rs2 ir]
  | rv_insn_lb | rv_insn_lh | rv_insn_lw | rv_insn_lbu | rv_insn_lhu => Some [rs1 ir]
  | rv_insn_sb | rv_insn_sh | rv_insn_sw => Some [rs1 ir; rs2 ir]
  | rv_insn_addi | rv_insn_slti | rv_insn_sltiu | rv_insn_xori | rv_insn_ori | rv_insn_andi
  | rv_insn_slli | rv_insn_srli | rv_insn_srai => Some [rs1 ir]
  | rv_insn_add | rv_insn_sub | rv_insn_sll | rv_insn_slt | rv_insn_sltu | rv_insn_xor
  | rv_insn_srl | rv_insn_sra | rv_insn_or | rv_insn_and => Some [rs1 ir; rs2 ir]
  | rv_insn_ecall | rv_insn_ebreak => Some []
  | rv_insn_mul | rv_insn_mulh | rv_insn_mulhsu | rv_insn_mulhu | rv_insn_div | rv_insn_divu
  | rv_insn_rem | rv_insn_remu => Some [rs1 ir; rs2 ir]
  | rv_insn_caddi4spn => Some [rv_reg_sp]
  | rv_insn_clw => Some [rs1 ir]
  | rv_insn_csw => Some [rs1 ir; rs2 ir]
  | rv_insn_cnop => Some []
  | rv_insn_caddi => Some [rd ir]
  | rv_insn_cjal | rv_insn_cli | rv_insn_clui => Some []
  | rv_insn_caddi16sp => Some [rd ir]
  | rv_insn_csrli | rv_insn_csrai | rv_insn_candi => Some [rs1 ir]
  | rv_insn_csub | rv_insn_cxor | rv_insn_cor | rv_insn_cand => Some [rs1 ir; rs2 ir]
  | rv_insn_cj => Some []
  | rv_insn_cbeqz | rv_insn_cbnez => Some [rs1 ir]
  | rv_insn_cslli => Some [rd ir]
  | rv_insn_clwsp => Some [rv_reg_sp]
  | rv_insn_cjr => Some [rs1 ir]
  | rv_insn_cmv => Some [rs2 ir]
  | rv_insn_cebreak => Some []
  | rv_insn_cjalr => Some [rs1 ir]
  | rv_insn_cadd => Some [rs1 ir; rs2 ir]
  | rv_insn_cswsp => Some [rv_reg_sp; rs2 ir]
  | rv_insn_fuse1 => Some (f_rd <$> fuse_entries ir)
  | rv_insn_fuse2 => Some [rs1 ir]
  | rv_insn_fuse3 => Some (mjoin ((fun f => [f_rs1 f; f_rs2 f]) <$> fuse_entries ir))
  | rv_insn_fuse4 | rv_insn_fuse5 => Some (f_rs1 <$> fuse_entries ir)
  | rv_insn_fuse6 => Some []
  | rv_insn_fuse7 => Some (f_rs1 <$> fuse_entries ir)
  | rv_insn_fuse8 | rv_insn_fuse9 => Some []
  | rv_insn_fuse10 | rv_insn_fuse11 | rv_insn_fuse12 => Some [rs1 ir]
  | _ => None
  end.

Definition mark_live (idx : Z) (l : list Z) (r : Z) : list Z := <[Z.to_nat r := idx]> l.
Fixpoint liveness_from (idx : Z) (irs : list rv_insn) (l : list Z) : option (list Z) :=
  match irs with
  | [] => Some l
  | ir :: irs => rs ← live_regs ir; liveness_from (idx + 1) irs (foldl (mark_live idx) l rs)
  end.

(** [qsort]: the comparison is a total order, so the result is determined. *)
Fixpoint insert_by (cmp : Z -> Z -> Z) (x : Z) (l : list Z) : list Z :=
  match l with
  | [] => [x]
  | y :: l => if cmp x y <=? 0 then x :: y :: l else y :: insert_by cmp x l
  end.
Definition qsort (cmp : Z -> Z -> Z) (l : list Z) : list Z := foldr (insert_by cmp) [] l.

Definition liveness_calc (irs : list rv_insn) : jitM unit := fun s =>
  l ← liveness_from 0 irs (liveness s);
  Some (tt, with_candidate_queue (qsort (liveness_cmp l) candidate_queue_init)
              (with_liveness l s)).

(** A register that is not read from [idx] on may be reused. *)
Definition refresh (l : list Z) (idx : Z) (h : host_reg) : host_reg :=
  if vm_reg_idx h =? -1 then h
  else if live_of l (vm_reg_idx h) <? idx then set_alive false h else h.
Definition regs_refresh (idx : Z) : jitM unit :=
  jmodify (fun s => with_register_map (refresh (liveness s) idx <$> register_map s) s).

(** * Choosing a host register *)

(** The index of the first entry that satisfies the test. *)
Fixpoint find_slot (P : host_reg -> bool) (i : Z) (l : list host_reg) : option Z :=
  match l with
  | [] => None
  | h :: l => if P h then Some i else find_slot P (i + 1) l
  end.
(** The candidates in order; for each the first entry that holds it. *)
Fixpoint find_candidate (P : host_reg -> bool) (l : list host_reg) (q : list Z) : option Z :=
  match q with
  | [] => None
  | c :: q =>
      match find_slot (fun h => P h && (vm_reg_idx h =? c)) 0 l with
      | Some i => Some i
      | None => find_candidate P l q
      end
  end.
(** The body shared by [reg_pick] and [reg_pick2]: entries that satisfy [P] may be taken. *)
Definition pick (P : host_reg -> bool) : jitM Z := fun s =>
  match find_slot (fun h => P h && negb (alive h)) 0 (register_map s) with
  | Some i => Some (i, s)
  | None =>
      match find_candidate P (register_map s) (candidate_queue s) with
      | Some i => Some (i, s)
      | None => None
      end
  end.
Definition reg_pick (reserved : Z) : jitM Z := pick (fun h => negb (reg_idx h =? reserved)).
Definition reg_pick2 (reserved1 reserved2 : Z) : jitM Z :=
  pick (fun h => negb ((reg_idx h =? reserved1) || (reg_idx h =? reserved2))).

Definition set_vm_reg (idx vm : Z) : jitM unit :=
  update_slot idx (fun h => set_alive true (set_vm_idx vm h)).

(** The first host register that holds the guest register, as the mapping functions look
    for it. *)
Definition mapped (vm : Z) (l : list host_reg) : option Z :=
  i ← find_slot (fun h => vm_reg_idx h =? vm) 0 l;
  Some (reg_idx (nth (Z.to_nat i) l (mk_host_reg 0 (-1) false false))).

(** The end of the three mapping functions: spill the entry and give it to [vm]. *)
Definition take_slot (idx vm : Z) : jitM Z :=
  target_reg ← jget (fun s => reg_idx (slot_of idx s));
  save_reg idx;;
  unmap_vm_reg idx;;
  set_vm_reg idx vm;;
  mret target_reg.
Definition map_with (pick : jitM Z) (vm : Z) : jitM Z :=
  m ← jget (fun s => mapped vm (register_map s));
  match m with
  | Some r => mret r
  | None => idx ← pick; take_slot idx vm
  end.
Definition map_vm_reg (vm : Z) : jitM Z := map_with (reg_pick (-1)) vm.
(** [reg_pick] never gives the reserved register, so the [do] loop runs once. *)
Definition map_vm_reg_reserved (vm reserved : Z) : jitM Z := map_with (reg_pick reserved) vm.
Definition map_vm_reg_reserved2 (vm reserved1 reserved2 : Z) : jitM Z :=
  map_with (reg_pick2 reserved1 reserved2) vm.

(** [origin]: the last entry that holds the guest register, or -1. *)
Definition origin_of (vm : Z) (l : list host_reg) : Z :=
  foldl (fun o h => if vm_reg_idx h =? vm then reg_idx h else o) (-1) l.

Definition load_vm (vm origin target : Z) : jitM unit :=
  jwhen (negb (origin =? target)) (emit_load S32 parameter_reg0 target (offsetof_X + 4 * vm)).

Definition ra_load (vm : Z) : jitM Z :=
  origin ← jget (fun s => origin_of vm (register_map s));
  target_reg ← map_vm_reg vm;
  load_vm vm origin target_reg;;
  mret target_reg.

(** [vm_reg[0]] and [vm_reg[1]] of [ra_load2] and [ra_load2_sext]. *)
Definition map_pair (vm1 vm2 : Z) : jitM (Z * Z) :=
  if vm1 =? vm2 then r ← map_vm_reg vm1; mret (r, r)
  else
    r0 ← map_vm_reg vm1;
    r1 ← map_vm_reg_reserved vm2 r0;
    jassert (negb (r0 =? r1));;
    mret (r0, r1).
Definition ra_load2 (vm1 vm2 : Z) : jitM (Z * Z) :=
  origin1 ← jget (fun s => origin_of vm1 (register_map s));
  origin2 ← jget (fun s => origin_of vm2 (register_map s));
  '(r0, r1) ← map_pair vm1 vm2;
  load_vm vm1 origin1 r0;;
  load_vm vm2 origin2 r1;;
  mret (r0, r1).
Definition load_vm_sext (vm origin target : Z) (sext : bool) : jitM unit :=
  if negb (origin =? target) then
    if sext then emit_load_sext S32 parameter_reg0 target (offsetof_X + 4 * vm)
    else emit_load S32 parameter_reg0 target (offsetof_X + 4 * vm)
  else jwhen sext (emit_sxtw target).
Definition ra_load2_sext (vm1 vm2 : Z) (sext1 sext2 : bool) : jitM (Z * Z) :=
  origin1 ← jget (fun s => origin_of vm1 (register_map s));
  origin2 ← jget (fun s => origin_of vm2 (register_map s));
  '(r0, r1) ← map_pair vm1 vm2;
  load_vm_sext vm1 origin1 r0 sext1;;
  load_vm_sext vm2 origin2 r1 sext2;;
  mret (r0, r1).

(** * The branch history table of the JIT build *)

Definition IN_JUMP_THRESHOLD : Z := 256.
Record jit_bht := mk_jit_bht { jb_PC : list Z; jb_times : list Z }.
Definition bht_find_max_idx (bt : jit_bht) : Z :=
  foldl (fun m i => if nth (Z.to_nat i) (jb_times bt) 0 >? nth (Z.to_nat m) (jb_times bt) 0
                    then i else m) 0 (Z.of_nat <$> seq 1 15).
Definition bht_should_translate (bt : jit_bht) (idx : Z) : bool :=
  truth (nth (Z.to_nat idx) (jb_PC bt) 0)
  && (IN_JUMP_THRESHOLD <=? nth (Z.to_nat idx) (jb_times bt) 0).

(** [ir->branch_table] is not NULL for the instructions that call this. *)
Definition parse_branch_history_table (bt : option jit_bht) : jitM unit :=
  match bt with
  | None => junreachable
  | Some bt =>
      let max_idx := bht_find_max_idx bt in
      let target := nth (Z.to_nat max_idx) (jb_PC bt) 0 in
      if negb (bht_should_translate bt max_idx) then mret tt
      else
        save_reg 0;;
        unmap_vm_reg 0;;
        r0 ← jget (fun s => reg_idx (slot_of 0 s));
        emit_load_imm r0 target;;
        emit_cmp32 temp_reg r0;;
        jump_loc_0 ← get_offset;
        emit_jcc_offset JCC_JNE;;
        emit_jmp target;;
        off ← get_offset;
        emit_jump_target_offset (jump_loc_0 + 2) off
  end.
