(* ===== verification/JitGen.v ===== *)
(** rv32_jit.c and the rest of jit.c for the build without SYSTEM: one code generator per
    instruction and per fused sequence, translation of a block and of the blocks it is
    chained to, resolution of jumps, and the code cache.

    The entries [vm_reg[0..2]] are scratch: every handler writes an entry before it reads it,
    so they are local names here.  [rv] enters only through addresses: of guest RAM
    ([m->mem_base]) and of the two callbacks. *)

From S2P Require Import Prelude.
From S2P Require Import Opcode.
From S2P Require Import Decode.
From S2P Require Import Fusion.
From S2P Require Import Utils.
From S2P Require Import JitEmit.
From S2P Require Import JitAlloc.

Record jit_env := mk_jit_env { mem_base_ptr : Z; on_ecall_ptr : Z; on_ebreak_ptr : Z }.

Definition ALU_GRP1_OPCODE : Z := 0x81.
Definition ALU_ADD : Z := 0.
Definition ALU_OR : Z := 1.
Definition ALU_AND : Z := 4.
Definition ALU_XOR : Z := 6.
Definition SHIFT_SHL : Z := 4.
Definition SHIFT_SHR : Z := 5.
Definition SHIFT_SAR : Z := 7.
Definition SHIFT_IMM_OPCODE : Z := 0xc1.
Definition SHIFT_REG_OPCODE : Z := 0xd3.
Definition RV32_SHIFT_MASK : Z := 0x1f.
Definition ALU_OP_ADD : Z := 0x01.
Definition ALU_OP_SUB : Z := 0x29.
Definition ALU_OP_XOR : Z := 0x31.
Definition ALU_OP_OR : Z := 0x09.
Definition ALU_OP_AND : Z := 0x21.

(** * Generators *)

Module Gen.
Section Gen.
Context (env : jit_env).

(** [emit_load_imm(temp_reg, pc); emit_store(.., offsetof(riscv_t, PC))] *)
Definition store_pc (pc : Z) : jitM unit :=
  emit_load_imm temp_reg pc;; emit_store S32 temp_reg parameter_reg0 offsetof_PC.

Definition EMIT_BRANCH_EPILOGUE (ir : rv_insn) (inst_size jump_loc_0 : Z) : jitM unit :=
  jwhen (bool_decide (is_Some (branch_untaken ir))) (emit_jmp (pc ir +u inst_size));;
  store_pc (pc ir +u inst_size);;
  emit_exit;;
  off ← get_offset;
  emit_jump_target_offset (jump_loc_0 + 2) off;;
  jwhen (bool_decide (is_Some (branch_taken ir))) (emit_jmp (pc ir +u imm ir));;
  store_pc (pc ir +u imm ir);;
  emit_exit.

Definition GEN_BRANCH (cond : Z) (ir : rv_insn) : jitM unit :=
  '(r0, r1) ← ra_load2 (rs1 ir) (rs2 ir);
  emit_cmp32 r1 r0;;
  store_back;;
  jump_loc_0 ← get_offset;
  emit_jcc_offset cond;;
  EMIT_BRANCH_EPILOGUE ir 4 jump_loc_0.
Definition GEN_CBRANCH (cond : Z) (ir : rv_insn) : jitM unit :=
  r0 ← ra_load (rs1 ir);
  emit_cmp_imm32 r0 0;;
  store_back;;
  jump_loc_0 ← get_offset;
  emit_jcc_offset cond;;
  EMIT_BRANCH_EPILOGUE ir 2 jump_loc_0.

(** [vm_reg[0] = ra_load(rs); vm_reg[1] = map_vm_reg_reserved(rd, vm_reg[0])] and the copy. *)
Definition load_copy (rs rd : Z) : jitM Z :=
  r0 ← ra_load rs;
  r1 ← map_vm_reg_reserved rd r0;
  jwhen (negb (r0 =? r1)) (emit_mov r0 r1);;
  mret r1.
Definition GEN_ALU_IMM (op : Z) (ir : rv_insn) : jitM unit :=
  r1 ← load_copy (rs1 ir) (rd ir);
  emit_alu32_imm32 ALU_GRP1_OPCODE op r1 (imm ir).
Definition GEN_SHIFT_IMM (op : Z) (ir : rv_insn) : jitM unit :=
  r1 ← load_copy (rs1 ir) (rd ir);
  emit_alu32_imm8 SHIFT_IMM_OPCODE op r1 (Z.land (imm ir) RV32_SHIFT_MASK).

(** [ra_load2], [map_vm_reg_reserved2] and the two copies that the register forms share. *)
Definition load2_copy (rs1 rs2 rd : Z) : jitM Z :=
  '(r0, r1) ← ra_load2 rs1 rs2;
  r2 ← map_vm_reg_reserved2 rd r0 r1;
  emit_mov r1 temp_reg;;
  emit_mov r0 r2;;
  mret r2.
Definition GEN_ALU_REG (op : Z) (ir : rv_insn) : jitM unit :=
  r2 ← load2_copy (rs1 ir) (rs2 ir) (rd ir);
  emit_alu32 op temp_reg r2.
Definition GEN_SHIFT_REG (op : Z) (ir : rv_insn) : jitM unit :=
  r2 ← load2_copy (rs1 ir) (rs2 ir) (rd ir);
  emit_alu32_imm32 ALU_GRP1_OPCODE ALU_AND temp_reg RV32_SHIFT_MASK;;
  emit_alu32 SHIFT_REG_OPCODE op r2.

(** The end of the two set-less-than forms: 1, or 0 when the jump is not taken. *)
Definition set_on (cond r : Z) : jitM unit :=
  emit_load_imm r 1;;
  jump_loc_0 ← get_offset;
  emit_jcc_offset cond;;
  emit_load_imm r 0;;
  off ← get_offset;
  emit_jump_target_offset (jump_loc_0 + 2) off.
Definition GEN_SLT_IMM (cond : Z) (ir : rv_insn) : jitM unit :=
  r0 ← ra_load (rs1 ir);
  emit_cmp_imm32 r0 (imm ir);;
  r1 ← map_vm_reg_reserved (rd ir) r0;
  set_on cond r1.
Definition GEN_SLT_REG (cond : Z) (ir : rv_insn) : jitM unit :=
  '(r0, r1) ← ra_load2 (rs1 ir) (rs2 ir);
  r2 ← map_vm_reg_reserved2 (rd ir) r0 r1;
  emit_cmp32 r1 r0;;
  set_on cond r2.

(** [temp_reg = mem_base + imm + X[rs]] *)
Definition host_address (rs imm : Z) : jitM unit :=
  r0 ← ra_load rs;
  emit_load_imm_sext temp_reg (mem_base_ptr env + imm);;
  emit_alu64 ALU_OP_ADD r0 temp_reg.
Definition GEN_LOAD (size : operand_size)
    (load_fn : operand_size -> Z -> Z -> Z -> jitM unit) (ir : rv_insn) : jitM unit :=
  host_address (rs1 ir) (imm ir);;
  r1 ← map_vm_reg (rd ir);
  load_fn size temp_reg r1 0.
Definition GEN_STORE (size : operand_size) (ir : rv_insn) : jitM unit :=
  host_address (rs1 ir) (imm ir);;
  r1 ← ra_load (rs2 ir);
  emit_store size r1 temp_reg 0.

(** [vm_reg[0] = map_vm_reg(rd); emit_load_imm(vm_reg[0], v)] *)
Definition set_const (rd v : Z) : jitM unit := r0 ← map_vm_reg rd; emit_load_imm r0 v.

Definition do_nop (ir : rv_insn) : jitM unit := mret tt.
Definition do_lui (ir : rv_insn) : jitM unit := set_const (rd ir) (imm ir).
Definition do_auipc (ir : rv_insn) : jitM unit := set_const (rd ir) (pc ir +u imm ir).

Definition jump_to (target : Z) : jitM unit :=
  store_back;; emit_jmp target;; store_pc target;; emit_exit.
Definition do_jal (ir : rv_insn) : jitM unit :=
  jwhen (truth (rd ir)) (set_const (rd ir) (pc ir +u 4));;
  jump_to (pc ir +u imm ir).

Definition jump_indirect (bt : option jit_bht) : jitM unit :=
  store_back;;
  parse_branch_history_table bt;;
  emit_store S32 temp_reg parameter_reg0 offsetof_PC;;
  emit_exit.
Definition do_jalr (bt : option jit_bht) (ir : rv_insn) : jitM unit :=
  r0 ← ra_load (rs1 ir);
  emit_mov r0 temp_reg;;
  emit_alu32_imm32 ALU_GRP1_OPCODE ALU_ADD temp_reg (imm ir);;
  emit_alu32_imm32 ALU_GRP1_OPCODE ALU_AND temp_reg (~u 1);;
  jwhen (truth (rd ir)) (set_const (rd ir) (pc ir +u 4));;
  jump_indirect bt.

(** [ecall], [ebreak], [cebreak]: store the address and call the handler. *)
Definition call_handler (ptr pc : Z) : jitM unit :=
  store_back;; store_pc pc;; emit_call ptr;; emit_exit.
Definition do_ecall (ir : rv_insn) : jitM unit := call_handler (on_ecall_ptr env) (pc ir).
Definition do_ebreak (ir : rv_insn) : jitM unit := call_handler (on_ebreak_ptr env) (pc ir).

(** The multiplications and divisions without sign extension. *)
Definition gen_muldiv (opcode : Z) (ir : rv_insn) : jitM unit :=
  r2 ← load2_copy (rs1 ir) (rs2 ir) (rd ir);
  muldivmod opcode temp_reg r2 false.
Definition load2_copy_sext (rs1 rs2 rd : Z) (sext1 sext2 : bool) : jitM Z :=
  '(r0, r1) ← ra_load2_sext rs1 rs2 sext1 sext2;
  r2 ← map_vm_reg_reserved2 rd r0 r1;
  emit_mov r1 temp_reg;;
  emit_mov r0 r2;;
  mret r2.
Definition do_mul (ir : rv_insn) : jitM unit := gen_muldiv 0x28 ir.
Definition do_mulh (ir : rv_insn) : jitM unit :=
  r2 ← load2_copy_sext (rs1 ir) (rs2 ir) (rd ir) true true;
  muldivmod 0x2f temp_reg r2 false;;
  emit_alu64_imm8 SHIFT_IMM_OPCODE SHIFT_SHR r2 32.
Definition do_mulhsu (ir : rv_insn) : jitM unit :=
  r2 ← load2_copy_sext (rs1 ir) (rs2 ir) (rd ir) true false;
  muldivmod 0x2f temp_reg r2 false;;
  emit_alu64_imm8 SHIFT_IMM_OPCODE SHIFT_SHR r2 32.
Definition do_mulhu (ir : rv_insn) : jitM unit :=
  r2 ← load2_copy (rs1 ir) (rs2 ir) (rd ir);
  muldivmod 0x2f temp_reg r2 false;;
  emit_alu64_imm8 SHIFT_IMM_OPCODE SHIFT_SHR r2 32.
Definition do_div (ir : rv_insn) : jitM unit :=
  r2 ← load2_copy_sext (rs1 ir) (rs2 ir) (rd ir) true true;
  muldivmod 0x38 temp_reg r2 true.
Definition do_divu (ir : rv_insn) : jitM unit := gen_muldiv 0x38 ir.
Definition do_rem (ir : rv_insn) : jitM unit :=
  r2 ← load2_copy_sext (rs1 ir) (rs2 ir) (rd ir) true true;
  muldivmod 0x98 temp_reg r2 true.
Definition do_remu (ir : rv_insn) : jitM unit := gen_muldiv 0x98 ir.

Definition do_caddi4spn (ir : rv_insn) : jitM unit :=
  r1 ← load_copy rv_reg_sp (rd ir);
  emit_alu32_imm32 ALU_GRP1_OPCODE ALU_ADD r1 (u16 (imm ir)).
Definition load_word (rs imm rd : Z) : jitM unit :=
  host_address rs imm;;
  r1 ← map_vm_reg rd;
  emit_load S32 temp_reg r1 0.
Definition store_word (rs imm rs2 : Z) : jitM unit :=
  host_address rs imm;;
  r1 ← ra_load rs2;
  emit_store S32 r1 temp_reg 0.
Definition do_clw (ir : rv_insn) : jitM unit := load_word (rs1 ir) (imm ir) (rd ir).
Definition do_csw (ir : rv_insn) : jitM unit := store_word (rs1 ir) (imm ir) (rs2 ir).
Definition do_clwsp (ir : rv_insn) : jitM unit := load_word rv_reg_sp (imm ir) (rd ir).
Definition do_cswsp (ir : rv_insn) : jitM unit := store_word rv_reg_sp (imm ir) (rs2 ir).
Definition alu_imm_in_place (r op imm : Z) : jitM unit :=
  r0 ← ra_load r; emit_alu32_imm32 ALU_GRP1_OPCODE op r0 imm.
Definition shift_in_place (r op sh : Z) : jitM unit :=
  r0 ← ra_load r; emit_alu32_imm8 SHIFT_IMM_OPCODE op r0 sh.
Definition do_caddi (ir : rv_insn) : jitM unit := alu_imm_in_place (rd ir) ALU_ADD (s16 (imm ir)).
Definition do_caddi16sp (ir : rv_insn) : jitM unit := alu_imm_in_place (rd ir) ALU_ADD (imm ir).
Definition do_candi (ir : rv_insn) : jitM unit := alu_imm_in_place (rs1 ir) ALU_AND (imm ir).
Definition do_csrli (ir : rv_insn) : jitM unit := shift_in_place (rs1 ir) SHIFT_SHR (shamt ir).
Definition do_csrai (ir : rv_insn) : jitM unit := shift_in_place (rs1 ir) SHIFT_SAR (shamt ir).
Definition do_cslli (ir : rv_insn) : jitM unit := shift_in_place (rd ir) SHIFT_SHL (u8 (imm ir)).
Definition do_cjal (ir : rv_insn) : jitM unit :=
  set_const rv_reg_ra (pc ir +u 2);; jump_to (pc ir +u imm ir).
Definition do_cli (ir : rv_insn) : jitM unit := set_const (rd ir) (imm ir).
Definition do_clui (ir : rv_insn) : jitM unit := set_const (rd ir) (imm ir).
Definition do_cj (ir : rv_insn) : jitM unit := jump_to (pc ir +u imm ir).
Definition do_cjr (bt : option jit_bht) (ir : rv_insn) : jitM unit :=
  r0 ← ra_load (rs1 ir); emit_mov r0 temp_reg;; jump_indirect bt.
Definition do_cmv (ir : rv_insn) : jitM unit :=
  r0 ← ra_load (rs2 ir);
  r1 ← map_vm_reg_reserved (rd ir) r0;
  if negb (r0 =? r1) then emit_mov r0 r1 else set_dirty r1 true.
Definition do_cebreak (ir : rv_insn) : jitM unit := call_handler (on_ebreak_ptr env) (pc ir).
Definition do_cjalr (bt : option jit_bht) (ir : rv_insn) : jitM unit :=
  r0 ← ra_load (rs1 ir);
  emit_mov r0 temp_reg;;
  set_const rv_reg_ra (pc ir +u 2);;
  jump_indirect bt.

(** ** Fused sequences *)

(** [for (i = 0; i < ir->imm2; i++)] over the [fuse] array. *)
Definition each_fused (f : opcode_fuse -> jitM unit) (ir : rv_insn) : jitM unit :=
  foldr (fun e k => f e;; k) (mret tt) (fuse_entries ir).

Definition do_fuse1 : rv_insn -> jitM unit := each_fused (fun f => set_const (f_rd f) (f_imm f)).
Definition do_fuse2 (ir : rv_insn) : jitM unit :=
  r0 ← map_vm_reg (rd ir);
  emit_load_imm r0 (imm ir);;
  emit_mov r0 temp_reg;;
  r1 ← ra_load (rs1 ir);
  r2 ← map_vm_reg_reserved (rs2 ir) r1;
  emit_mov r1 r2;;
  emit_alu32 0x01 temp_reg r2.
Definition do_fuse3 : rv_insn -> jitM unit :=
  each_fused (fun f => store_word (f_rs1 f) (f_imm f) (f_rs2 f)).
Definition do_fuse4 : rv_insn -> jitM unit :=
  each_fused (fun f => load_word (f_rs1 f) (f_imm f) (f_rd f)).
Definition fused_shift (f : opcode_fuse) (op : Z) : jitM unit :=
  r1 ← load_copy (f_rs1 f) (f_rd f);
  emit_alu32_imm8 0xc1 op r1 (Z.land (f_imm f) 0x1f).
Definition do_fuse5 : rv_insn -> jitM unit :=
  each_fused (fun f =>
    match f_opcode f with
    | rv_insn_slli => fused_shift f 4
    | rv_insn_srli => fused_shift f 5
    | rv_insn_srai => fused_shift f 7
    | _ => junreachable
    end).
Definition do_fuse6 (ir : rv_insn) : jitM unit :=
  set_const rv_reg_a7 (imm ir);;
  call_handler (on_ecall_ptr env) (pc ir +u 4).
Definition do_fuse7 : rv_insn -> jitM unit :=
  each_fused (fun f =>
    r1 ← load_copy (f_rs1 f) (f_rd f);
    emit_alu32_imm32 0x81 0 r1 (f_imm f)).
Definition do_fuse8 (ir : rv_insn) : jitM unit :=
  set_const (rd ir) (u32 (imm ir) +u u32 (imm2 ir)).
Definition do_fuse9 (ir : rv_insn) : jitM unit :=
  let addr := u32 (imm ir) +u u32 (imm2 ir) in
  set_const (rd ir) (imm ir);;
  emit_load_imm_sext temp_reg (mem_base_ptr env + addr);;
  r1 ← map_vm_reg (rs2 ir);
  emit_load S32 temp_reg r1 0.
Definition do_fuse10 (ir : rv_insn) : jitM unit :=
  let addr := u32 (imm ir) +u u32 (imm2 ir) in
  set_const (rd ir) (imm ir);;
  r1 ← ra_load (rs1 ir);
  emit_load_imm_sext temp_reg (mem_base_ptr env + addr);;
  emit_store S32 r1 temp_reg 0.
Definition do_fuse11 (ir : rv_insn) : jitM unit :=
  load_word (rs1 ir) (imm ir) (rd ir);;
  r0 ← map_vm_reg (rs1 ir);
  emit_alu32_imm32 0x81 0 r0 (imm2 ir);;
  set_dirty r0 true.
Definition do_fuse12 (ir : rv_insn) : jitM unit :=
  r1 ← load_copy (rs1 ir) (rd ir);
  emit_alu32_imm32 0x81 0 r1 (imm ir);;
  emit_cmp_imm32 r1 0;;
  store_back;;
  jump_loc_0 ← get_offset;
  emit_jcc_offset 0x85;;
  jwhen (bool_decide (is_Some (branch_untaken ir))) (emit_jmp (pc ir +u 8));;
  store_pc (pc ir +u 8);;
  emit_exit;;
  off ← get_offset;
  emit_jump_target_offset (jump_loc_0 + 2) off;;
  jwhen (bool_decide (is_Some (branch_taken ir))) (emit_jmp (u32 (pc ir + 4 + imm2 ir)));;
  store_pc (u32 (pc ir + 4 + imm2 ir));;
  emit_exit.

(** [dispatch_table]; the remaining generators are [assert(NULL)]. *)
Definition dispatch (bt : option jit_bht) (ir : rv_insn) : jitM unit :=
  match opcode ir with
  | rv_insn_nop => do_nop ir
  | rv_insn_lui => do_lui ir
  | rv_insn_auipc => do_auipc ir
  | rv_insn_jal => do_jal ir
  | rv_insn_jalr => do_jalr bt ir
  | rv_insn_beq => GEN_BRANCH JCC_JE ir
  | rv_insn_bne => GEN_BRANCH JCC_JNE ir
  | rv_insn_blt => GEN_BRANCH JCC_JL ir
  | rv_insn_bge => GEN_BRANCH JCC_JGE ir
  | rv_insn_bltu => GEN_BRANCH JCC_JB ir
  | rv_insn_bgeu => GEN_BRANCH JCC_JAE ir
  | rv_insn_lb => GEN_LOAD S8 emit_load_sext ir
  | rv_insn_lh => GEN_LOAD S16 emit_load_sext ir
  | rv_insn_lw => GEN_LOAD S32 emit_load ir
  | rv_insn_lbu => GEN_LOAD S8 emit_load ir
  | rv_insn_lhu => GEN_LOAD S16 emit_load ir
  | rv_insn_sb => GEN_STORE S8 ir
  | rv_insn_sh => GEN_STORE S16 ir
  | rv_insn_sw => GEN_STORE S32 ir
  | rv_insn_addi => GEN_ALU_IMM ALU_ADD ir
  | rv_insn_slti => GEN_SLT_IMM JCC_JL ir
  | rv_insn_sltiu => GEN_SLT_IMM JCC_JB ir
  | rv_insn_xori => GEN_ALU_IMM ALU_XOR ir
  | rv_insn_ori => GEN_ALU_IMM ALU_OR ir
  | rv_insn_andi => GEN_ALU_IMM ALU_AND ir
  | rv_insn_slli => GEN_SHIFT_IMM SHIFT_SHL ir
  | rv_insn_srli => GEN_SHIFT_IMM SHIFT_SHR ir
  | rv_insn_srai => GEN_SHIFT_IMM SHIFT_SAR ir
  | rv_insn_add => GEN_ALU_REG ALU_OP_ADD ir
  | rv_insn_sub => GEN_ALU_REG ALU_OP_SUB ir
  | rv_insn_sll => GEN_SHIFT_REG SHIFT_SHL ir
  | rv_insn_slt => GEN_SLT_REG JCC_JL ir
  | rv_insn_sltu => GEN_SLT_REG JCC_JB ir
  | rv_insn_xor => GEN_ALU_REG ALU_OP_XOR ir
  | rv_insn_srl => GEN_SHIFT_REG SHIFT_SHR ir
  | rv_insn_sra => GEN_SHIFT_REG SHIFT_SAR ir
  | rv_insn_or => GEN_ALU_REG ALU_OP_OR ir
  | rv_insn_and => GEN_ALU_REG ALU_OP_AND ir
  | rv_insn_ecall => do_ecall ir
  | rv_insn_ebreak => do_ebreak ir
  | rv_insn_mul => do_mul ir
  | rv_insn_mulh => do_mulh ir
  | rv_insn_mulhsu => do_mulhsu ir
  | rv_insn_mulhu => do_mulhu ir
  | rv_insn_div => do_div ir
  | rv_insn_divu => do_divu ir
  | rv_insn_rem => do_rem ir
  | rv_insn_remu => do_remu ir
  | rv_insn_caddi4spn => do_caddi4spn ir
  | rv_insn_clw => do_clw ir
  | rv_insn_csw => do_csw ir
  | rv_insn_cnop => do_nop ir
  | rv_insn_caddi => do_caddi ir
  | rv_insn_cjal => do_cjal ir
  | rv_insn_cli => do_cli ir
  | rv_insn_caddi16sp => do_caddi16sp ir
  | rv_insn_clui => do_clui ir
  | rv_insn_csrli => do_csrli ir
  | rv_insn_csrai => do_csrai ir
  | rv_insn_candi => do_candi ir
  | rv_insn_csub => GEN_ALU_REG ALU_OP_SUB ir
  | rv_insn_cxor => GEN_ALU_REG ALU_OP_XOR ir
  | rv_insn_cor => GEN_ALU_REG ALU_OP_OR ir
  | rv_insn_cand => GEN_ALU_REG ALU_OP_AND ir
  | rv_insn_cj => do_cj ir
  | rv_insn_cbeqz => GEN_CBRANCH JCC_JE ir
  | rv_insn_cbnez => GEN_CBRANCH JCC_JNE ir
  | rv_insn_cslli => do_cslli ir
  | rv_insn_clwsp => do_clwsp ir
  | rv_insn_cjr => do_cjr bt ir
  | rv_insn_cmv => do_cmv ir
  | rv_insn_cebreak => do_cebreak ir
  | rv_insn_cjalr => do_cjalr bt ir
  | rv_insn_cadd => GEN_ALU_REG ALU_OP_ADD ir
  | rv_insn_cswsp => do_cswsp ir
  | rv_insn_fuse1 => do_fuse1 ir
  | rv_insn_fuse2 => do_fuse2 ir
  | rv_insn_fuse3 => do_fuse3 ir
  | rv_insn_fuse4 => do_fuse4 ir
  | rv_insn_fuse5 => do_fuse5 ir
  | rv_insn_fuse6 => do_fuse6 ir
  | rv_insn_fuse7 => do_fuse7 ir
  | rv_insn_fuse8 => do_fuse8 ir
  | rv_insn_fuse9 => do_fuse9 ir
  | rv_insn_fuse10 => do_fuse10 ir
  | rv_insn_fuse11 => do_fuse11 ir
  | rv_insn_fuse12 => do_fuse12 ir
  | _ => junreachable
  end.
End Gen.
End Gen.

(** * Blocks *)

(** [block_t] of the JIT build; [jb_table] is the branch history table of the last IR. *)
Record jit_block := mk_jit_block {
  jb_irs : list rv_insn; jb_pc_start : Z; jb_pc_end : Z; jb_page_terminated : bool;
  jb_translatable : bool; jb_table : option jit_bht; jb_offset : Z; jb_hot : bool }.
Definition with_hot h b := mk_jit_block (jb_irs b) (jb_pc_start b) (jb_pc_end b)
  (jb_page_terminated b) (jb_translatable b) (jb_table b) (jb_offset b) h.
Definition with_offset o b := mk_jit_block (jb_irs b) (jb_pc_start b) (jb_pc_end b)
  (jb_page_terminated b) (jb_translatable b) (jb_table b) o (jb_hot b).

(** What the translator reads of [rv]: the blocks by location, and the block cache, a map
    from addresses to locations (JitCache.v). *)
Record jit_vm := mk_jit_vm { jheap : gmap Z jit_block; block_cache : gmap Z Z }.

Section Translate.
Context (env : jit_env).

(** The loop of [translate] over the IRs; it stops when the code buffer is full. *)
Fixpoint translate_irs (bt : option jit_bht) (idx : Z) (irs : list rv_insn) : jitM unit :=
  match irs with
  | [] => mret tt
  | ir :: irs =>
      full ← jget should_flush;
      if (full : bool) then mret tt
      else
        regs_refresh idx;;
        Gen.dispatch env bt ir;;
        translate_irs bt (idx + 1) irs
  end.

Definition translate (b : jit_block) : jitM unit :=
  reset_reg;;
  liveness_reset;;
  liveness_calc (jb_irs b);;
  translate_irs (jb_table b) 0 (jb_irs b);;
  full ← jget should_flush;
  jwhen (jb_page_terminated b && negb full)
    (store_back;;
     match last (jb_irs b) with
     | None => junreachable
     | Some ir =>
         jwhen (bool_decide (is_Some (branch_taken ir))) (emit_jmp (jb_pc_end b));;
         Gen.store_pc (jb_pc_end b);;
         emit_exit
     end).

(** * Jumps *)

(** The first block of the table that starts at the address. *)
Fixpoint find_offset (pc : Z) (l : list offset_map_t) : option Z :=
  match l with
  | [] => None
  | m :: l => if om_pc m =? pc then Some (om_offset m) else find_offset pc l
  end.
Definition jump_target (j : jit_state) (p : jump_t) : Z :=
  if negb (target_offset p =? 0) then target_offset p
  else if target_pc p =? TARGET_PC_EXIT then exit_loc j
  else if target_pc p =? TARGET_PC_RETPOLINE then retpoline_loc j
  else default (offset_loc p + 4) (find_offset (target_pc p) (offset_map j)).
Definition patch_jump (j : jit_state) (b : list Z) (p : jump_t) : list Z :=
  buf_write b (offset_loc p) (le_bytes 4 (u32 (jump_target j p - (offset_loc p + 4)))).
Definition resolve_jumps : jitM unit :=
  jmodify (fun s =>
    let j := js s in
    with_js (with_code (foldl (patch_jump j) (buf j) (jumps j)) (offset j) j) s).

(** * Chains of blocks and the code cache *)

Definition lift {A} (o : option A) : jitM A := fun s => a ← o; Some (a, s).
Definition has_key (key : Z) : jitM bool := fun s => b ← set_has (jset (js s)) key; Some (b, s).
(** [assert(set_add(..))] *)
Definition add_key (key : Z) : jitM unit := fun s =>
  '(added, set) ← set_add (jset (js s)) key;
  if (added : bool) then Some (tt, with_js (with_jset set (js s)) s) else None.

(** [cache_get(rv->block_cache, pc, false)] followed by the dereference of the result. *)
Definition cached_block (v : jit_vm) (pc : Z) : option (option (Z * jit_block)) :=
  match block_cache v !! pc with
  | None => Some None
  | Some l => b ← jheap v !! l; Some (Some (l, b))
  end.

(** The successor a link designates, unless it is translated already. *)
Definition link_target (v : jit_vm) (link : option Z) : jitM (option Z) :=
  match link with
  | None => mret None
  | Some l =>
      b ← lift (jheap v !! l);
      seen ← has_key (jb_pc_start b);
      if (seen : bool) then mret None
      else
        c ← lift (cached_block v (jb_pc_start b));
        match c with
        | None => junreachable
        | Some (l, b) => mret (if jb_translatable b then Some l else None)
        end
  end.
Definition history_target (v : jit_vm) (bt : option jit_bht) : jitM (option Z) :=
  match bt with
  | None => mret None
  | Some bt =>
      let max_idx := bht_find_max_idx bt in
      let pc := nth (Z.to_nat max_idx) (jb_PC bt) 0 in
      if negb (bht_should_translate bt max_idx) then mret None
      else
        seen ← has_key pc;
        if (seen : bool) then mret None
        else
          c ← lift (cached_block v pc);
          match c with
          | None => mret None
          | Some (l, b) => mret (if jb_translatable b then Some l else None)
          end
  end.

(** The recursion ends because every level adds a block to the table, which holds at most
    [MAX_BLOCKS]. *)
Fixpoint translate_chained_block (fuel : nat) (v : jit_vm) (l : Z) : jitM unit :=
  match fuel with
  | O => junreachable
  | S fuel =>
      let follow (t : jitM (option Z)) : jitM unit :=
        o ← t;
        match o with
        | Some l => translate_chained_block fuel v l
        | None => mret tt
        end in
      b ← lift (jheap v !! l);
      seen ← has_key (jb_pc_start b);
      n ← jget (fun s => n_blocks (js s));
      if (seen : bool) || (n =? MAX_BLOCKS) then mret tt
      else
        add_key (jb_pc_start b);;
        offset_map_insert (jb_pc_start b);;
        translate b;;
        full ← jget should_flush;
        if (full : bool) then mret tt
        else
          ir ← lift (last (jb_irs b));
          follow (link_target v (branch_untaken ir));;
          follow (link_target v (branch_taken ir));;
          follow (history_target v (jb_table b))
  end.
Definition chain_fuel : nat := S (Z.to_nat MAX_BLOCKS).

(** [code_cache_flush]; [clear_cache_hot] resets [hot] of every block of the cache. *)
Definition clear_hot : jit_block -> jit_block := with_hot false.
Definition code_cache_flush (s : jst) (v : jit_vm) : jst * jit_vm :=
  let j := js s in
  (with_should_flush false
     (with_js (with_jset set_reset (with_offset_map [] (with_code (buf j) (org_size j) j))) s),
   mk_jit_vm (clear_hot <$> jheap v) (block_cache v)).

(** From the label [restart]; [fuel] bounds the number of passes. *)
Fixpoint translate_from_restart (fuel : nat) (v : jit_vm) (l : Z) (s : jst)
  : option (jst * jit_vm) :=
  match fuel with
  | O => None
  | S fuel =>
      let s := with_js (with_jumps [] (js s)) s in
      let v := mk_jit_vm (alter (with_offset (offset (js s))) l (jheap v)) (block_cache v) in
      '(_, s) ← translate_chained_block chain_fuel v l s;
      if should_flush s then
        let '(s, v) := code_cache_flush s v in translate_from_restart fuel v l s
      else
        '(_, s) ← resolve_jumps s;
        Some (s, mk_jit_vm (alter (with_hot true) l (jheap v)) (block_cache v))
  end.

Definition jit_translate (fuel : nat) (v : jit_vm) (l : Z) (s : jst) : option (jst * jit_vm) :=
  b ← jheap v !! l;
  seen ← set_has (jset (js s)) (jb_pc_start b);
  if (seen : bool) then
    off ← find_offset (jb_pc_start b) (offset_map (js s));
    Some (s, mk_jit_vm (alter (fun b => with_hot true (with_offset off b)) l (jheap v))
               (block_cache v))
  else translate_from_restart fuel v l s.

(** [jit_state_init]: the buffer is a fresh mapping.  [retpoline_loc] is never set. *)
Definition jit_state_init (size retpoline : Z) : option jst :=
  let j := mk_jit_state set_reset (replicate (Z.to_nat size) 0) 0 size 0 0 retpoline [] [] in
  '(_, s) ← (reset_reg;; prepare_translate)
              (mk_jst j register_map_init false (replicate N_RV_REGS 0) (replicate N_RV_REGS 0));
  Some s.
End Translate.
