(* ===== verification/X86.v ===== *)
(** The target machine of the code generator: the fragment of x86-64 that jit.c emits.

    This is a specification, written from the architecture manual and not from the emulator:
    abstract syntax, the encoding of each form and the decoder for it, and the effect of an
    instruction on registers, flags and memory.  The code generator is proved against it.

    Memory is partial: an access to an address that is not mapped has no result.  Flags that
    the manual leaves undefined are [None], and using them has no result either. *)

From S2P Require Import Prelude.

(** * Syntax *)

Inductive xsize : Set := X8 | X16 | X32.
Inductive xalu : Set := Xadd | Xor | Xand | Xsub | Xxor | Xcmp.
Inductive xshift : Set := Xshl | Xshr | Xsar.
Inductive xcond : Set := Xe | Xne | Xl | Xge | Xb | Xae.

#[export] Instance xsize_eq_dec : EqDecision xsize.
Proof. solve_decision. Defined.
#[export] Instance xalu_eq_dec : EqDecision xalu.
Proof. solve_decision. Defined.

(** [w] selects the 64-bit operand size.  Register operands are numbers below 16, in the order
    source, destination. *)
Inductive xinsn : Set :=
  | Alu (w : bool) (op : xalu) (src dst : Z)
  | Test (w : bool) (src dst : Z)
  | Mov (w : bool) (src dst : Z)
  | AluI (w : bool) (op : xalu) (dst imm : Z)
  | ShiftI (w : bool) (op : xshift) (dst imm : Z)
  | ShiftCl (w : bool) (op : xshift) (dst : Z)
  | Mul (w : bool) (src : Z)
  | Div (w : bool) (src : Z)
  | MovI (dst imm : Z)                       (* 32-bit, zero extended *)
  | MovSI (dst imm : Z)                      (* 32-bit, sign extended to 64 *)
  | MovAbs (dst imm : Z)
  | Load (sz : xsize) (sx : bool) (dst base disp : Z)
  | Movsxd (dst base disp : Z)
  | MovsxdR (src dst : Z)
  | Store (sz : xsize) (src base disp : Z)
  | StoreI (sz : xsize) (base disp imm : Z)
  | Push (r : Z)
  | Pop (r : Z)
  | Pushf
  | Popf
  | Jcc (c : xcond) (rel : Z)
  | Jmp (rel : Z)
  | Cmove (src dst : Z)
  | CallR (r : Z)
  | JmpR (r : Z)
  | Ret.

(** * Encoding *)

Fixpoint le (n : nat) (v : Z) : list Z :=
  match n with O => [] | S n => v mod 0x100 :: le n (v / 0x100) end.
Fixpoint unle (l : list Z) : Z :=
  match l with [] => 0 | b :: l => b + 0x100 * unle l end.

(** A REX prefix with its fields W, R and B. *)
Definition rex (w : bool) (r b : Z) : Z := 0x40 + (if w then 8 else 0) + 4 * (r / 8) + b / 8.
(** The prefix is left out when all its fields are zero and it is not [forced]. *)
Definition rex_opt (forced w : bool) (r b : Z) : list Z :=
  if forced || w || (8 <=? r) || (8 <=? b) then [rex w r b] else [].
Definition modrm (md r m : Z) : Z := 0x40 * md + 8 * (r mod 8) + m mod 8.
(** A memory operand [base + disp], in its shortest form. *)
Definition mem_operand (r base disp : Z) : list Z :=
  if (disp =? 0) && negb (base mod 8 =? 5) then [modrm 0 r base]
  else if (-0x80 <=? disp) && (disp <? 0x80) then modrm 1 r base :: le 1 disp
  else modrm 2 r base :: le 4 disp.

Definition alu_opcode (op : xalu) : Z :=
  match op with
  | Xadd => 0x01 | Xor => 0x09 | Xand => 0x21 | Xsub => 0x29 | Xxor => 0x31 | Xcmp => 0x39
  end.
Definition alu_ext (op : xalu) : Z :=
  match op with Xadd => 0 | Xor => 1 | Xand => 4 | Xsub => 5 | Xxor => 6 | Xcmp => 7 end.
Definition shift_ext (op : xshift) : Z := match op with Xshl => 4 | Xshr => 5 | Xsar => 7 end.
Definition cond_code (c : xcond) : Z :=
  match c with Xe => 0x84 | Xne => 0x85 | Xl => 0x8c | Xge => 0x8d | Xb => 0x82 | Xae => 0x83 end.
Definition is_x8 (sz : xsize) : bool := match sz with X8 => true | _ => false end.
Definition p66 (sz : xsize) : list Z := match sz with X16 => [0x66] | _ => [] end.

Definition encode (i : xinsn) : list Z :=
  match i with
  | Alu w op s d => rex_opt false w s d ++ [alu_opcode op; modrm 3 s d]
  | Test w s d => rex_opt false w s d ++ [0x85; modrm 3 s d]
  | Mov w s d => rex_opt false w s d ++ [0x89; modrm 3 s d]
  | AluI w op d imm => rex_opt false w 0 d ++ [0x81; modrm 3 (alu_ext op) d] ++ le 4 imm
  | ShiftI w op d imm => rex_opt false w 0 d ++ [0xc1; modrm 3 (shift_ext op) d] ++ le 1 imm
  | ShiftCl w op d => rex_opt false w 0 d ++ [0xd3; modrm 3 (shift_ext op) d]
  | Mul w s => rex_opt false w 0 s ++ [0xf7; modrm 3 4 s]
  | Div w s => rex_opt false w 0 s ++ [0xf7; modrm 3 6 s]
  | MovI d imm => rex_opt false false 0 d ++ [0xb8 + d mod 8] ++ le 4 imm
  | MovSI d imm => rex_opt false true 0 d ++ [0xc7; modrm 3 0 d] ++ le 4 imm
  | MovAbs d imm => rex_opt false true 0 d ++ [0xb8 + d mod 8] ++ le 8 imm
  | Load X32 _ d b o => rex_opt false false d b ++ [0x8b] ++ mem_operand d b o
  | Load X8 sx d b o =>
      rex_opt false false d b ++ [0x0f; if sx then 0xbe else 0xb6] ++ mem_operand d b o
  | Load X16 sx d b o =>
      rex_opt false false d b ++ [0x0f; if sx then 0xbf else 0xb7] ++ mem_operand d b o
  | Movsxd d b o => rex_opt false true d b ++ [0x63] ++ mem_operand d b o
  | MovsxdR s d => rex_opt false true d s ++ [0x63; modrm 3 d s]
  | Store sz s b o =>
      p66 sz ++ rex_opt (is_x8 sz) false s b ++
      [if is_x8 sz then 0x88 else 0x89] ++ mem_operand s b o
  | StoreI sz b o imm =>
      p66 sz ++ rex_opt false false 0 b ++
      [if is_x8 sz then 0xc6 else 0xc7; modrm 2 0 b] ++ le 4 o ++
      le (match sz with X8 => 1 | X16 => 2 | X32 => 4 end) imm
  | Push r => rex_opt false false 0 r ++ [0x50 + r mod 8]
  | Pop r => rex_opt false false 0 r ++ [0x58 + r mod 8]
  | Pushf => [0x9c]
  | Popf => [0x9d]
  | Jcc c rel => [0x0f; cond_code c] ++ le 4 rel
  | Jmp rel => [0xe9] ++ le 4 rel
  | Cmove s d => rex_opt false true d s ++ [0x0f; 0x44; modrm 3 d s]
  | CallR r => rex_opt false false 0 r ++ [0xff; modrm 3 2 r]
  | JmpR r => rex_opt false false 0 r ++ [0xff; modrm 3 4 r]
  | Ret => [0xc3]
  end.

(** * Decoding *)

Definition take_le (n : nat) (l : list Z) : option (Z * list Z) :=
  if (length l <? n)%nat then None else Some (unle (take n l), drop n l).

Definition alu_of_opcode (b : Z) : option xalu :=
  match b with
  | 0x01 => Some Xadd | 0x09 => Some Xor | 0x21 => Some Xand | 0x29 => Some Xsub
  | 0x31 => Some Xxor | 0x39 => Some Xcmp | _ => None
  end.
Definition alu_of_ext (b : Z) : option xalu :=
  match b with
  | 0 => Some Xadd | 1 => Some Xor | 4 => Some Xand | 5 => Some Xsub | 6 => Some Xxor
  | 7 => Some Xcmp | _ => None
  end.
Definition shift_of_ext (b : Z) : option xshift :=
  match b with 4 => Some Xshl | 5 => Some Xshr | 7 => Some Xsar | _ => None end.
Definition cond_of_code (b : Z) : option xcond :=
  match b with
  | 0x84 => Some Xe | 0x85 => Some Xne | 0x8c => Some Xl | 0x8d => Some Xge | 0x82 => Some Xb
  | 0x83 => Some Xae | _ => None
  end.

(** The prefixes of one instruction. *)
Record prefixes := mk_prefixes { px_66 : bool; px_rex : option Z }.
Definition px_w (p : prefixes) : bool :=
  match px_rex p with Some b => Z.testbit b 3 | None => false end.
Definition px_r (p : prefixes) : Z :=
  match px_rex p with Some b => if Z.testbit b 2 then 8 else 0 | None => 0 end.
Definition px_b (p : prefixes) : Z :=
  match px_rex p with Some b => if Z.testbit b 0 then 8 else 0 | None => 0 end.
Definition decode_prefixes (l : list Z) : prefixes * list Z :=
  let '(h, l) :=
    match l with b :: l' => if b =? 0x66 then (true, l') else (false, l) | [] => (false, l) end in
  match l with
  | b :: l' => if (0x40 <=? b) && (b <? 0x50) then (mk_prefixes h (Some b), l')
               else (mk_prefixes h None, l)
  | [] => (mk_prefixes h None, l)
  end.

(** A ModRM byte with both operands registers: the [reg] and [rm] numbers. *)
Definition decode_rr (p : prefixes) (l : list Z) : option (Z * Z * list Z) :=
  match l with
  | b :: l =>
      if b / 0x40 =? 3 then Some (px_r p + b / 8 mod 8, px_b p + b mod 8, l) else None
  | [] => None
  end.
(** A ModRM byte with a memory operand: [reg], base and displacement.  Forms with a SIB byte
    or relative to [rip] are not in the fragment. *)
Definition decode_rm (p : prefixes) (l : list Z) : option (Z * Z * Z * list Z) :=
  match l with
  | b :: l =>
      if b mod 8 =? 4 then None
      else
        let r := px_r p + b / 8 mod 8 in
        let m := px_b p + b mod 8 in
        match b / 0x40 with
        | 0 => if b mod 8 =? 5 then None else Some (r, m, 0, l)
        | 1 => '(d, l) ← take_le 1 l; Some (r, m, s8 d, l)
        | 2 => '(d, l) ← take_le 4 l; Some (r, m, s32 d, l)
        | _ => None
        end
  | [] => None
  end.

Definition decode_0f (p : prefixes) (b : Z) (l : list Z) : option (xinsn * list Z) :=
  let load sz sx := '(r, m, d, l) ← decode_rm p l; Some (Load sz sx r m d, l) in
  match b with
  | 0xb6 => load X8 false
  | 0xbe => load X8 true
  | 0xb7 => load X16 false
  | 0xbf => load X16 true
  | 0x44 => '(r, m, l) ← decode_rr p l; if px_w p then Some (Cmove m r, l) else None
  | _ => c ← cond_of_code b; '(d, l) ← take_le 4 l; Some (Jcc c (s32 d), l)
  end.

Definition decode_body (p : prefixes) (b : Z) (l : list Z) : option (xinsn * list Z) :=
  let w := px_w p in
  match b with
  | 0x0f => match l with b :: l => decode_0f p b l | [] => None end
  | 0x81 =>
      '(e, m, l) ← decode_rr p l;
      op ← alu_of_ext (e mod 8); '(d, l) ← take_le 4 l; Some (AluI w op m (s32 d), l)
  | 0x85 => '(r, m, l) ← decode_rr p l; Some (Test w r m, l)
  | 0xc1 =>
      '(e, m, l) ← decode_rr p l;
      op ← shift_of_ext (e mod 8); '(d, l) ← take_le 1 l; Some (ShiftI w op m d, l)
  | 0xd3 => '(e, m, l) ← decode_rr p l; op ← shift_of_ext (e mod 8); Some (ShiftCl w op m, l)
  | 0xf7 =>
      '(e, m, l) ← decode_rr p l;
      match e mod 8 with 4 => Some (Mul w m, l) | 6 => Some (Div w m, l) | _ => None end
  | 0x8b => '(r, m, d, l) ← decode_rm p l; if w then None else Some (Load X32 false r m d, l)
  | 0x63 =>
      if negb w then None
      else match decode_rr p l with
           | Some (r, m, l) => Some (MovsxdR m r, l)
           | None => '(r, m, d, l) ← decode_rm p l; Some (Movsxd r m d, l)
           end
  | 0x88 =>
      match px_rex p with
      | Some _ => '(r, m, d, l) ← decode_rm p l; Some (Store X8 r m d, l)
      | None => None
      end
  | 0x89 =>
      match decode_rr p l with
      | Some (r, m, l) => Some (Mov w r m, l)
      | None =>
          '(r, m, d, l) ← decode_rm p l;
          if w then None else Some (Store (if px_66 p then X16 else X32) r m d, l)
      end
  | 0xc6 =>
      '(e, m, d, l) ← decode_rm p l;
      '(i, l) ← take_le 1 l; if e =? 0 then Some (StoreI X8 m d i, l) else None
  | 0xc7 =>
      match decode_rr p l with
      | Some (e, m, l) =>
          '(d, l) ← take_le 4 l;
          if w && (e mod 8 =? 0) then Some (MovSI m (s32 d), l) else None
      | None =>
          '(e, m, d, l) ← decode_rm p l;
          let sz := if px_66 p then X16 else X32 in
          '(i, l) ← take_le (if px_66 p then 2 else 4) l;
          if (e =? 0) && negb w then Some (StoreI sz m d i, l) else None
      end
  | 0x9c => Some (Pushf, l)
  | 0x9d => Some (Popf, l)
  | 0xe9 => '(d, l) ← take_le 4 l; Some (Jmp (s32 d), l)
  | 0xff =>
      '(e, m, l) ← decode_rr p l;
      match e mod 8 with 2 => Some (CallR m, l) | 4 => Some (JmpR m, l) | _ => None end
  | 0xc3 => Some (Ret, l)
  | _ =>
      if b / 8 =? 0xb8 / 8 then
        let d := px_b p + b mod 8 in
        if w then '(v, l) ← take_le 8 l; Some (MovAbs d v, l)
        else '(v, l) ← take_le 4 l; Some (MovI d v, l)
      else if b / 8 =? 0x50 / 8 then Some (Push (px_b p + b mod 8), l)
      else if b / 8 =? 0x58 / 8 then Some (Pop (px_b p + b mod 8), l)
      else op ← alu_of_opcode b; '(r, m, l) ← decode_rr p l; Some (Alu w op r m, l)
  end.

(** The instruction at the head of a byte sequence, and the bytes behind it. *)
Definition decode (l : list Z) : option (xinsn * list Z) :=
  let '(p, l) := decode_prefixes l in
  match l with b :: l => decode_body p b l | [] => None end.

(** * State *)

Record flags := mk_flags { ZF : bool; SF : bool; CF : bool; OF : bool }.
Record xstate := mk_xstate { xregs : list Z; xflags : option flags; xmem : gmap Z Z; rip : Z }.

Definition xreg (x : xstate) (r : Z) : Z := nth (Z.to_nat r) (xregs x) 0.
Definition set_xreg (r v : Z) (x : xstate) : xstate :=
  mk_xstate (<[Z.to_nat r := v]> (xregs x)) (xflags x) (xmem x) (rip x).
Definition set_flags (f : option flags) (x : xstate) : xstate :=
  mk_xstate (xregs x) f (xmem x) (rip x).
Definition set_xmem (m : gmap Z Z) (x : xstate) : xstate :=
  mk_xstate (xregs x) (xflags x) m (rip x).
Definition set_rip (v : Z) (x : xstate) : xstate :=
  mk_xstate (xregs x) (xflags x) (xmem x) v.

(** Little-endian memory access; every byte must be mapped. *)
Fixpoint hload (n : nat) (m : gmap Z Z) (a : Z) : option Z :=
  match n with
  | O => Some 0
  | S n => b ← m !! a; v ← hload n m (a + 1); Some (b + 0x100 * v)
  end.
Fixpoint hstore (n : nat) (m : gmap Z Z) (a v : Z) : option (gmap Z Z) :=
  match n with
  | O => Some m
  | S n => _ ← m !! a; hstore n (<[a := v mod 0x100]> m) (a + 1) (v / 0x100)
  end.

(** * Effect *)

Definition width (w : bool) (v : Z) : Z := if w then u64 v else u32 v.
Definition bits (w : bool) : Z := if w then 64 else 32.
Definition signed (w : bool) (v : Z) : Z :=
  if Z.testbit v (bits w - 1) then v - 2 ^ bits w else v.

Definition logic_flags (w : bool) (r : Z) : flags :=
  mk_flags (r =? 0) (Z.testbit r (bits w - 1)) false false.
Definition add_flags (w : bool) (a b : Z) : flags :=
  let r := width w (a + b) in
  mk_flags (r =? 0) (Z.testbit r (bits w - 1)) (2 ^ bits w <=? a + b)
    (negb (signed w r =? signed w a + signed w b)).
Definition sub_flags (w : bool) (a b : Z) : flags :=
  let r := width w (a - b) in
  mk_flags (r =? 0) (Z.testbit r (bits w - 1)) (a <? b)
    (negb (signed w r =? signed w a - signed w b)).

(** The result, or [None] for a comparison, and the flags. *)
Definition alu (w : bool) (op : xalu) (a b : Z) : option Z * flags :=
  match op with
  | Xadd => (Some (width w (a + b)), add_flags w a b)
  | Xsub => (Some (width w (a - b)), sub_flags w a b)
  | Xcmp => (None, sub_flags w a b)
  | Xor => (Some (Z.lor a b), logic_flags w (Z.lor a b))
  | Xand => (Some (Z.land a b), logic_flags w (Z.land a b))
  | Xxor => (Some (Z.lxor a b), logic_flags w (Z.lxor a b))
  end.
Definition exec_alu (w : bool) (op : xalu) (dst b : Z) (x : xstate) : xstate :=
  let '(r, f) := alu w op (width w (xreg x dst)) (width w b) in
  set_flags (Some f) (match r with Some r => set_xreg dst r x | None => x end).

(** The flags after a shift depend on the count; they are not used. *)
Definition exec_shift (w : bool) (op : xshift) (dst count : Z) (x : xstate) : xstate :=
  let n := count mod bits w in
  let a := width w (xreg x dst) in
  let r := match op with
           | Xshl => width w (Z.shiftl a n)
           | Xshr => Z.shiftr a n
           | Xsar => width w (Z.shiftr (signed w a) n)
           end in
  set_flags None (set_xreg dst r x).

Definition exec_cond (c : xcond) (f : flags) : bool :=
  match c with
  | Xe => ZF f
  | Xne => negb (ZF f)
  | Xl => negb (Bool.eqb (SF f) (OF f))
  | Xge => Bool.eqb (SF f) (OF f)
  | Xb => CF f
  | Xae => negb (CF f)
  end.

(** The arithmetic flags in their places in [rflags]; bit 1 is always set. *)
Definition pack_flags (f : flags) : Z :=
  2 + b2u (CF f) + 0x40 * b2u (ZF f) + 0x80 * b2u (SF f) + 0x800 * b2u (OF f).
Definition unpack_flags (v : Z) : flags :=
  mk_flags (Z.testbit v 6) (Z.testbit v 7) (Z.testbit v 0) (Z.testbit v 11).

Definition push (v : Z) (x : xstate) : option xstate :=
  let sp := u64 (xreg x 4 - 8) in
  m ← hstore 8 (xmem x) sp v; Some (set_xmem m (set_xreg 4 sp x)).
Definition pop (x : xstate) : option (Z * xstate) :=
  let sp := xreg x 4 in
  v ← hload 8 (xmem x) sp; Some (v, set_xreg 4 (u64 (sp + 8)) x).

Definition size_bytes (sz : xsize) : nat := match sz with X8 => 1 | X16 => 2 | X32 => 4 end.
Definition sext (sz : xsize) (v : Z) : Z := match sz with X8 => s8 v | X16 => s16 v | X32 => s32 v end.

(** An instruction either ends normally, leaves a new [rip], or calls a function outside of
    the code buffer. *)
Inductive xresult : Type :=
  | Next (x : xstate)
  | Goto (a : Z) (x : xstate)
  | Call (a : Z) (x : xstate).

(** [next] is the address of the following instruction. *)
Definition exec (i : xinsn) (next : Z) (x : xstate) : option xresult :=
  match i with
  | Alu w op s d => Some (Next (exec_alu w op d (xreg x s) x))
  | Test w s d => Some (Next (set_flags
      (Some (logic_flags w (Z.land (width w (xreg x d)) (width w (xreg x s))))) x))
  | Mov w s d => Some (Next (set_xreg d (width w (xreg x s)) x))
  | AluI w op d imm => Some (Next (exec_alu w op d imm x))
  | ShiftI w op d imm => Some (Next (exec_shift w op d imm x))
  | ShiftCl w op d => Some (Next (exec_shift w op d (xreg x 1) x))
  | Mul w s =>
      let p := width w (xreg x 0) * width w (xreg x s) in
      Some (Next (set_flags None (set_xreg 2 (p / 2 ^ bits w) (set_xreg 0 (width w p) x))))
  | Div w s =>
      let n := width w (xreg x 2) * 2 ^ bits w + width w (xreg x 0) in
      let d := width w (xreg x s) in
      if (d =? 0) || (2 ^ bits w <=? n / d) then None
      else Some (Next (set_flags None (set_xreg 2 (n mod d) (set_xreg 0 (n / d) x))))
  | MovI d imm => Some (Next (set_xreg d (u32 imm) x))
  | MovSI d imm => Some (Next (set_xreg d (u64 imm) x))
  | MovAbs d imm => Some (Next (set_xreg d (u64 imm) x))
  | Load sz sx d b o =>
      v ← hload (size_bytes sz) (xmem x) (u64 (xreg x b + o));
      Some (Next (set_xreg d (if sx then u32 (sext sz v) else v) x))
  | Movsxd d b o =>
      v ← hload 4 (xmem x) (u64 (xreg x b + o)); Some (Next (set_xreg d (u64 (s32 v)) x))
  | MovsxdR s d => Some (Next (set_xreg d (u64 (s32 (xreg x s))) x))
  | Store sz s b o =>
      m ← hstore (size_bytes sz) (xmem x) (u64 (xreg x b + o)) (xreg x s);
      Some (Next (set_xmem m x))
  | StoreI sz b o imm =>
      m ← hstore (size_bytes sz) (xmem x) (u64 (xreg x b + o)) imm;
      Some (Next (set_xmem m x))
  | Push r => x ← push (xreg x r) x; Some (Next x)
  | Pop r => '(v, x) ← pop x; Some (Next (set_xreg r v x))
  | Pushf => f ← xflags x; x ← push (pack_flags f) x; Some (Next x)
  | Popf => '(v, x) ← pop x; Some (Next (set_flags (Some (unpack_flags v)) x))
  | Jcc c rel =>
      f ← xflags x; if exec_cond c f then Some (Goto (next + rel) x) else Some (Next x)
  | Jmp rel => Some (Goto (next + rel) x)
  | Cmove s d =>
      f ← xflags x; Some (Next (if ZF f then set_xreg d (xreg x s) x else x))
  | CallR r => x' ← push next x; Some (Call (xreg x r) x')
  | JmpR r => Some (Goto (xreg x r) x)
  | Ret => '(v, x) ← pop x; Some (Goto v x)
  end.

(** * Execution of a code buffer

    The buffer is mapped at address [base] and is not data memory.  A call goes to a function
    outside of it; [ext] is what that function does until it has returned. *)
Section Run.
Context (base : Z) (ext : Z -> xstate -> option xstate).

Definition xstep (code : list Z) (x : xstate) : option xstate :=
  let off := rip x - base in
  if (off <? 0) || (Z.of_nat (length code) <=? off) then None
  else
    let l := drop (Z.to_nat off) code in
    '(i, rest) ← decode l;
    let next := rip x + (Z.of_nat (length l) - Z.of_nat (length rest)) in
    r ← exec i next x;
    match r with
    | Next x => Some (set_rip next x)
    | Goto a x => Some (set_rip a x)
    | Call a x => x ← ext a x; '(ret, x) ← pop x; Some (set_rip ret x)
    end.

Fixpoint xrun (fuel : nat) (code : list Z) (x : xstate) : option xstate :=
  match fuel with
  | O => Some x
  | S fuel =>
      if (rip x <? base) || (base + Z.of_nat (length code) <=? rip x) then Some x
      else x ← xstep code x; xrun fuel code x
  end.
End Run.
