(* ===== verification/X86Proofs.v ===== *)
(** Facts about the target machine: the decoder inverts the encoder, memory access, and what
    the flags of a comparison mean. *)

From S2P Require Import Prelude.
From S2P Require Import X86.

(** * Little-endian numbers *)

Lemma length_le n : forall v, length (le n v) = n.
Proof. induction n; intros; cbn; [done|]. by rewrite IHn. Qed.
Lemma unle_le n : forall v, unle (le n v) = v mod 0x100 ^ Z.of_nat n.
Proof.
  induction n as [|n IH]; intros v; cbn [le unle]; [by rewrite Z.mod_1_r|].
  rewrite IH, Nat2Z.inj_succ, Z.pow_succ_r by lia.
  rewrite (Z.rem_mul_r v) by lia. lia.
Qed.
Lemma le_mod n : forall v, le n (v mod 0x100 ^ Z.of_nat n) = le n v.
Proof.
  induction n as [|n IH]; intros v; cbn [le]; [done|].
  rewrite Nat2Z.inj_succ, Z.pow_succ_r, (Z.rem_mul_r v) by lia.
  rewrite (Z.mul_comm 0x100), Z.mod_add, Z.div_add, Z.mod_mod by lia.
  rewrite (Z.div_small (v mod 0x100)) by mlia. rewrite Z.add_0_l. by rewrite IH.
Qed.
Lemma take_le_le n v rest : take_le n (le n v ++ rest) = Some (v mod 0x100 ^ Z.of_nat n, rest).
Proof.
  unfold take_le. rewrite length_app, length_le.
  replace (n + length rest <? n)%nat with false by (symmetry; apply Nat.ltb_ge; lia).
  by rewrite take_app_length', drop_app_length', unle_le by (by rewrite length_le).
Qed.

Lemma s32_mod32 v : is_s32 v -> s32 (v mod 0x100 ^ 4) = v.
Proof. change (v mod 0x100 ^ 4) with (u32 v). intros. by rewrite s32_u32, s32_small. Qed.
Lemma s8_mod8 v : -0x80 <= v < 0x80 -> s8 (v mod 0x100 ^ 1) = v.
Proof. intros. unfold s8. rewrite Z.pow_1_r. mlia. Qed.

(** * Decoding inverts encoding *)

Definition is_xreg (r : Z) : Prop := 0 <= r < 16.
(** Bases that need no SIB byte. *)
Definition is_base (r : Z) : Prop := is_xreg r /\ r mod 8 <> 4.

(** The instructions that the encoding can express. *)
Definition wf_xinsn (i : xinsn) : Prop :=
  match i with
  | Alu _ _ s d | Test _ s d | Mov _ s d | MovsxdR s d | Cmove s d => is_xreg s /\ is_xreg d
  | AluI _ _ d imm | MovSI d imm => is_xreg d /\ is_s32 imm
  | ShiftI _ _ d imm => is_xreg d /\ is_u8 imm
  | ShiftCl _ _ d | Mul _ d | Div _ d | Push d | Pop d | CallR d | JmpR d => is_xreg d
  | MovI d imm => is_xreg d /\ is_u32 imm
  | MovAbs d imm => is_xreg d /\ 0 <= imm < 2 ^ 64
  | Load sz sx d b o => is_xreg d /\ is_base b /\ is_s32 o /\ (sz = X32 -> sx = false)
  | Movsxd d b o => is_xreg d /\ is_base b /\ is_s32 o
  | Store sz s b o => is_xreg s /\ is_base b /\ is_s32 o
  | StoreI sz b o imm =>
      is_base b /\ is_s32 o /\ 0 <= imm < 0x100 ^ Z.of_nat (size_bytes sz)
  | Pushf | Popf | Ret => True
  | Jcc _ rel | Jmp rel => is_s32 rel
  end.

Lemma xreg_split r : is_xreg r -> 8 * (r / 8) + r mod 8 = r.
Proof. intros _. symmetry. apply Z.div_mod. lia. Qed.
Lemma xreg_high r : is_xreg r -> r / 8 = 0 \/ r / 8 = 1.
Proof. unfold is_xreg. intros. mlia. Qed.

Lemma xreg_high_leb r : is_xreg r -> (8 <=? r) = (r / 8 =? 1).
Proof.
  unfold is_xreg. intros. destruct (Z.leb_spec 8 r), (Z.eqb_spec (r / 8) 1); try done; mlia.
Qed.

Lemma decode_prefixes_op l op (h : bool) :
  op <> 0x66 -> op < 0x40 \/ 0x50 <= op ->
  decode_prefixes ((if h then [0x66] else []) ++ op :: l) = (mk_prefixes h None, op :: l).
Proof.
  intros H66 Hop. unfold decode_prefixes. destruct h; cbn [app].
  - change (0x66 =? 0x66) with true. cbn.
    by replace ((0x40 <=? op) && (op <? 0x50)) with false by lia.
  - replace (op =? 0x66) with false by lia.
    by replace ((0x40 <=? op) && (op <? 0x50)) with false by lia.
Qed.

Definition px_of (h forced w : bool) (r b : Z) : prefixes :=
  mk_prefixes h (if forced || w || (8 <=? r) || (8 <=? b) then Some (rex w r b) else None).

Lemma decode_prefixes_rex (h : bool) forced w r b op l :
  is_xreg r -> is_xreg b -> op <> 0x66 -> op < 0x40 \/ 0x50 <= op ->
  decode_prefixes ((if h then [0x66] else []) ++ rex_opt forced w r b ++ op :: l)
  = (px_of h forced w r b, op :: l).
Proof.
  intros Hr Hb H66 Hop. unfold rex_opt, px_of.
  destruct (forced || w || (8 <=? r) || (8 <=? b)) eqn:E; [|by apply decode_prefixes_op].
  assert (0x40 <= rex w r b < 0x50) as Hx.
  { unfold rex. destruct (xreg_high r Hr) as [-> | ->], (xreg_high b Hb) as [-> | ->], w; lia. }
  unfold decode_prefixes. destruct h; cbn [app].
  - change (0x66 =? 0x66) with true. cbn.
    by replace ((0x40 <=? rex w r b) && (rex w r b <? 0x50)) with true by lia.
  - replace (rex w r b =? 0x66) with false by lia.
    by replace ((0x40 <=? rex w r b) && (rex w r b <? 0x50)) with true by lia.
Qed.

Lemma px_of_fields h forced w r b :
  is_xreg r -> is_xreg b ->
  px_w (px_of h forced w r b) = w /\ px_r (px_of h forced w r b) = 8 * (r / 8) /\
  px_b (px_of h forced w r b) = 8 * (b / 8).
Proof.
  intros Hr Hb. unfold px_of, px_w, px_r, px_b, rex; cbn. rewrite !xreg_high_leb by done.
  destruct (xreg_high r Hr) as [-> | ->], (xreg_high b Hb) as [-> | ->];
    destruct forced, w; done.
Qed.

Lemma decode_rr_modrm p r m l :
  decode_rr p (modrm 3 r m :: l) = Some (px_r p + r mod 8, px_b p + m mod 8, l).
Proof.
  unfold decode_rr, modrm.
  assert (0 <= r mod 8 < 8 /\ 0 <= m mod 8 < 8) by mlia.
  replace ((0x40 * 3 + 8 * (r mod 8) + m mod 8) / 0x40) with 3 by mlia. cbn [Z.eqb].
  replace ((0x40 * 3 + 8 * (r mod 8) + m mod 8) / 8 mod 8) with (r mod 8) by mlia.
  replace ((0x40 * 3 + 8 * (r mod 8) + m mod 8) mod 8) with (m mod 8) by mlia. done.
Qed.

(** The three forms of a memory operand. *)
Lemma modrm_fields md r m :
  0 <= md < 4 ->
  modrm md r m mod 8 = m mod 8 /\ modrm md r m / 8 mod 8 = r mod 8 /\ modrm md r m / 0x40 = md.
Proof. unfold modrm. intros. assert (0 <= r mod 8 < 8 /\ 0 <= m mod 8 < 8) by mlia. mlia. Qed.
Lemma decode_rm_mem p r b d l :
  b mod 8 <> 4 -> is_s32 d ->
  decode_rm p (mem_operand r b d ++ l) = Some (px_r p + r mod 8, px_b p + b mod 8, d, l).
Proof.
  intros Hb Hd. unfold mem_operand.
  destruct ((d =? 0) && negb (b mod 8 =? 5)) eqn:E0.
  - apply andb_prop in E0 as [Hd0 H5]. cbn [app]. unfold decode_rm.
    destruct (modrm_fields 0 r b) as (-> & -> & ->); [lia|].
    replace (b mod 8 =? 4) with false by lia. replace (b mod 8 =? 5) with false by lia.
    by replace d with 0 by lia.
  - destruct ((-0x80 <=? d) && (d <? 0x80)) eqn:E1; cbn [app]; unfold decode_rm.
    + destruct (modrm_fields 1 r b) as (-> & -> & ->); [lia|].
      replace (b mod 8 =? 4) with false by lia. rewrite take_le_le. cbn [mbind option_bind].
      rewrite s8_mod8 by lia. done.
    + destruct (modrm_fields 2 r b) as (-> & -> & ->); [lia|].
      replace (b mod 8 =? 4) with false by lia. rewrite take_le_le. cbn [mbind option_bind].
      rewrite s32_mod32 by done. done.
Qed.
(** The displacement of [StoreI] is always four bytes. *)
Lemma decode_rm_disp32 p r b d l :
  b mod 8 <> 4 -> is_s32 d ->
  decode_rm p (modrm 2 r b :: le 4 d ++ l) = Some (px_r p + r mod 8, px_b p + b mod 8, d, l).
Proof.
  intros Hb Hd. unfold decode_rm. destruct (modrm_fields 2 r b) as (-> & -> & ->); [lia|].
  replace (b mod 8 =? 4) with false by lia. rewrite take_le_le. cbn [mbind option_bind].
  rewrite s32_mod32 by done. done.
Qed.

(** From the bytes of a form to the decoder of its body. *)
Lemma decode_form (h : bool) forced w r b op l :
  is_xreg r -> is_xreg b -> op <> 0x66 -> op < 0x40 \/ 0x50 <= op ->
  decode ((if h then [0x66] else []) ++ rex_opt forced w r b ++ op :: l)
  = decode_body (px_of h forced w r b) op l.
Proof. intros. unfold decode. by rewrite decode_prefixes_rex. Qed.
Lemma decode_form0 forced w r b op l :
  is_xreg r -> is_xreg b -> op <> 0x66 -> op < 0x40 \/ 0x50 <= op ->
  decode (rex_opt forced w r b ++ op :: l) = decode_body (px_of false forced w r b) op l.
Proof. exact (decode_form false forced w r b op l). Qed.
Lemma decode_bare op l :
  op <> 0x66 -> op < 0x40 \/ 0x50 <= op ->
  decode (op :: l) = decode_body (mk_prefixes false None) op l.
Proof.
  intros H1 H2. unfold decode. pose proof (decode_prefixes_op l op false H1 H2) as E.
  cbn [app] in E. by rewrite E.
Qed.

Lemma is_xreg_0 : is_xreg 0.
Proof. unfold is_xreg. lia. Qed.
#[local] Hint Resolve is_xreg_0 : core.

Lemma mod8_cases r :
  r mod 8 = 0 \/ r mod 8 = 1 \/ r mod 8 = 2 \/ r mod 8 = 3 \/
  r mod 8 = 4 \/ r mod 8 = 5 \/ r mod 8 = 6 \/ r mod 8 = 7.
Proof. assert (0 <= r mod 8 < 8) by mlia. lia. Qed.

(** Opcodes that contain a register number. *)
Lemma decode_opcode_reg p r k l :
  0xb8 = k \/ 0x50 = k \/ 0x58 = k ->
  decode_body p (k + r mod 8) l =
  (if k =? 0xb8 then
     if px_w p then '(v, l) ← take_le 8 l; Some (MovAbs (px_b p + r mod 8) v, l)
     else '(v, l) ← take_le 4 l; Some (MovI (px_b p + r mod 8) v, l)
   else if k =? 0x50 then Some (Push (px_b p + r mod 8), l)
   else Some (Pop (px_b p + r mod 8), l)).
Proof.
  intros [<-|[<-|<-]];
    destruct (mod8_cases r) as [->|[->|[->|[->|[->|[->|[->| ->]]]]]]]; done.
Qed.

(** Rewriting the prefix fields of the form at hand. *)
Ltac px_fields :=
  repeat match goal with
  | |- context [px_w (px_of ?h ?f ?w ?r ?b)] =>
      rewrite (proj1 (px_of_fields h f w r b ltac:(done) ltac:(done)))
  | |- context [px_r (px_of ?h ?f ?w ?r ?b)] =>
      rewrite (proj1 (proj2 (px_of_fields h f w r b ltac:(done) ltac:(done))))
  | |- context [px_b (px_of ?h ?f ?w ?r ?b)] =>
      rewrite (proj2 (proj2 (px_of_fields h f w r b ltac:(done) ltac:(done))))
  end.
Ltac form := rewrite <- ?app_assoc; cbn [app]; rewrite decode_form0 by (done || lia).
Ltac fields := px_fields; rewrite ?xreg_split by done.

Lemma decode_encode_regs i rest :
  match i with
  | Alu _ _ _ _ | Test _ _ _ | Mov _ _ _ | MovsxdR _ _ | Cmove _ _ => True
  | _ => False
  end -> wf_xinsn i -> decode (encode i ++ rest) = Some (i, rest).
Proof.
  destruct i; intros []; cbn [wf_xinsn encode]; intros [Hs Hd];
    [destruct op; cbn [alu_opcode]| | | |]; form; cbn -[decode_rr px_of Z.add Z.mul];
    rewrite decode_rr_modrm; cbn -[px_of Z.add Z.mul]; fields; done.
Qed.

Lemma pow256_4 : 0x100 ^ Z.of_nat 4 = 0x100 ^ 4.
Proof. done. Qed.
Lemma mod_small_pow n v : 0 <= v < 0x100 ^ Z.of_nat n -> v mod 0x100 ^ Z.of_nat n = v.
Proof. apply Z.mod_small. Qed.
Lemma u32_mod32 v : is_u32 v -> v mod 0x100 ^ 4 = v.
Proof. exact (u32_small v). Qed.
(** The immediate at the end of a form. *)
Ltac immediate :=
  rewrite take_le_le; cbn -[px_of Z.add Z.mul Z.pow s32 Z.modulo];
  rewrite ?pow256_4, ?s32_mod32, ?u32_mod32 by done; rewrite ?mod_small_pow by (unfold is_u32, is_u8 in *; done).

Lemma decode_encode_imm i rest :
  match i with
  | AluI _ _ _ _ | ShiftI _ _ _ _ | ShiftCl _ _ _ | Mul _ _ | Div _ _ | MovSI _ _
  | CallR _ | JmpR _ => True
  | _ => False
  end -> wf_xinsn i -> decode (encode i ++ rest) = Some (i, rest).
Proof.
  destruct i; intros []; cbn [wf_xinsn encode]; intros H;
    try match type of H with _ /\ _ => destruct H end;
    try (destruct op; cbn [alu_ext shift_ext]);
    form; cbn -[decode_rr px_of Z.add Z.mul le take_le]; rewrite decode_rr_modrm;
    cbn -[px_of Z.add Z.mul le take_le Z.modulo]; rewrite ?Z.mod_0_l by lia; fields;
    change (8 * (0 / 8)) with 0; cbn -[Z.add Z.mul le take_le];
    try immediate; fields; try done.
Qed.

Lemma decode_encode_opreg i rest :
  match i with MovI _ _ | MovAbs _ _ | Push _ | Pop _ => True | _ => False end ->
  wf_xinsn i -> decode (encode i ++ rest) = Some (i, rest).
Proof.
  assert (forall r, 0 <= r mod 8 < 8) as Hm by (intros; mlia).
  destruct i as [ | | | | | | | |d imm| |d imm| | | | | |d|d| | | | | | | | ]; intros [];
    cbn [wf_xinsn encode]; intros H; try match type of H with _ /\ _ => destruct H end;
    specialize (Hm d);
    form; rewrite decode_opcode_reg by auto; cbn -[px_of Z.add Z.mul le take_le];
    fields; try immediate; try done.
Qed.

Lemma decode_encode_jump i rest :
  match i with Pushf | Popf | Ret | Jcc _ _ | Jmp _ => True | _ => False end ->
  wf_xinsn i -> decode (encode i ++ rest) = Some (i, rest).
Proof.
  destruct i; intros []; cbn [wf_xinsn encode]; intros H; cbn [app]; rewrite decode_bare by lia;
    try done; [destruct c|]; cbn -[le take_le s32 Z.pow Z.modulo]; immediate; done.
Qed.

Lemma decode_rr_mem p r b d l : b mod 8 <> 4 -> decode_rr p (mem_operand r b d ++ l) = None.
Proof.
  intros Hb. unfold mem_operand.
  destruct ((d =? 0) && negb (b mod 8 =? 5)); [|destruct ((-0x80 <=? d) && (d <? 0x80))];
    cbn [app decode_rr].
  - by rewrite (proj2 (proj2 (modrm_fields 0 r b ltac:(lia)))).
  - by rewrite (proj2 (proj2 (modrm_fields 1 r b ltac:(lia)))).
  - by rewrite (proj2 (proj2 (modrm_fields 2 r b ltac:(lia)))).
Qed.

Lemma decode_encode_mem i rest :
  match i with Load _ _ _ _ _ | Movsxd _ _ _ | Store _ _ _ _ => True | _ => False end ->
  wf_xinsn i -> decode (encode i ++ rest) = Some (i, rest).
Proof.
  destruct i as [ | | | | | | | | | | |sz sx d b o|d b o| |sz s b o| | | | | | | | | | | ];
    intros []; cbn [wf_xinsn encode].
  - intros (Hd & [Hb H4] & Ho & Hsx).
    destruct sz; [destruct sx|destruct sx|rewrite Hsx by done];
      form; cbn -[decode_rm px_of Z.add Z.mul]; rewrite decode_rm_mem by done;
      cbn -[px_of Z.add Z.mul]; fields; done.
  - intros (Hd & [Hb H4] & Ho). form. cbn -[decode_rm decode_rr px_of Z.add Z.mul].
    fields. cbn -[decode_rm decode_rr px_of Z.add Z.mul].
    rewrite decode_rr_mem, decode_rm_mem by done. cbn -[px_of Z.add Z.mul]. fields. done.
  - intros (Hs & [Hb H4] & Ho).
    destruct sz; cbn [p66 is_x8]; rewrite <- ?app_assoc; cbn [app].
    + rewrite decode_form0 by (done || lia). cbn -[decode_rm px_of Z.add Z.mul].
      cbn -[decode_rm Z.add Z.mul rex]. rewrite decode_rm_mem by done.
      cbn -[px_of Z.add Z.mul]. fold (px_of false true false s b). fields. done.
    + change (0x66 :: ?l) with ([0x66] ++ l). rewrite (decode_form true) by (done || lia).
      cbn -[decode_rm decode_rr px_of Z.add Z.mul].
      rewrite decode_rr_mem, decode_rm_mem by done. cbn -[px_of Z.add Z.mul]. fields. done.
    + rewrite decode_form0 by (done || lia). cbn -[decode_rm decode_rr px_of Z.add Z.mul].
      rewrite decode_rr_mem, decode_rm_mem by done. cbn -[px_of Z.add Z.mul]. fields. done.
Qed.

Lemma decode_rr_disp32 p r b l : decode_rr p (modrm 2 r b :: l) = None.
Proof. cbn [decode_rr]. by rewrite (proj2 (proj2 (modrm_fields 2 r b ltac:(lia)))). Qed.
Lemma decode_encode_storei sz b o imm rest :
  wf_xinsn (StoreI sz b o imm) ->
  decode (encode (StoreI sz b o imm) ++ rest) = Some (StoreI sz b o imm, rest).
Proof.
  cbn [wf_xinsn encode]. intros ([Hb H4] & Ho & Hi).
  destruct sz; cbn [p66 is_x8 size_bytes] in *; rewrite <- ?app_assoc; cbn [app].
  - rewrite decode_form0 by (done || lia).
    cbn -[decode_rm px_of Z.add Z.mul le take_le]. rewrite decode_rm_disp32 by done.
    cbn -[px_of Z.add Z.mul le take_le Z.modulo]. immediate. fields. done.
  - change (0x66 :: ?l) with ([0x66] ++ l). rewrite (decode_form true) by (done || lia).
    cbn -[decode_rm decode_rr px_of Z.add Z.mul le take_le].
    rewrite decode_rr_disp32, decode_rm_disp32 by done.
    cbn -[px_of Z.add Z.mul le take_le Z.modulo]. immediate. fields. done.
  - rewrite decode_form0 by (done || lia).
    cbn -[decode_rm decode_rr px_of Z.add Z.mul le take_le].
    rewrite decode_rr_disp32, decode_rm_disp32 by done.
    cbn -[px_of Z.add Z.mul le take_le Z.modulo]. rewrite take_le_le.
    cbn -[px_of Z.add Z.mul Z.pow Z.modulo]. rewrite mod_small_pow by done. fields. done.
Qed.

Lemma decode_encode i rest : wf_xinsn i -> decode (encode i ++ rest) = Some (i, rest).
Proof.
  intros H. destruct i;
    first [by apply decode_encode_regs|by apply decode_encode_imm|by apply decode_encode_opreg
          |by apply decode_encode_jump|by apply decode_encode_mem|by apply decode_encode_storei].
Qed.

(** * Memory *)

Lemma hload_ext n m m' a :
  (forall b, a <= b < a + Z.of_nat n -> m' !! b = m !! b) -> hload n m' a = hload n m a.
Proof.
  revert a. induction n as [|n IH]; intros a H; [done|]. cbn [hload].
  rewrite H by lia. rewrite (IH (a + 1)) by (intros; apply H; lia). done.
Qed.
Lemma hstore_lookup_other n : forall m a v m' b,
  hstore n m a v = Some m' -> b < a \/ a + Z.of_nat n <= b -> m' !! b = m !! b.
Proof.
  induction n as [|n IH]; intros m a v m' b E Hb; cbn [hstore] in E; [by simplify_eq|].
  destruct (m !! a) eqn:Ea; [|done]. cbn in E. rewrite (IH _ _ _ _ _ E) by lia.
  apply lookup_insert_ne. lia.
Qed.
Lemma hstore_dom n : forall m a v m' b,
  hstore n m a v = Some m' -> is_Some (m' !! b) <-> is_Some (m !! b).
Proof.
  induction n as [|n IH]; intros m a v m' b E; cbn [hstore] in E; [by simplify_eq|].
  destruct (m !! a) eqn:Ea; [|done]. cbn in E. rewrite (IH _ _ _ _ _ E).
  destruct (decide (b = a)) as [->|]; [|by rewrite lookup_insert_ne].
  rewrite lookup_insert_eq, Ea. done.
Qed.
Lemma hload_hstore_same n : forall m a v m',
  hstore n m a v = Some m' -> hload n m' a = Some (v mod 0x100 ^ Z.of_nat n).
Proof.
  induction n as [|n IH]; intros m a v m' E; cbn [hstore hload] in *.
  { by rewrite Z.mod_1_r. }
  destruct (m !! a) eqn:Ea; [|done]. cbn in E.
  rewrite (hstore_lookup_other _ _ _ _ _ a E), lookup_insert_eq by lia. cbn.
  rewrite (IH _ _ _ _ E). cbn. f_equal.
  rewrite Nat2Z.inj_succ, Z.pow_succ_r by lia. rewrite (Z.rem_mul_r v) by lia. lia.
Qed.
Lemma hload_hstore_other n n2 m a v m' a2 :
  hstore n m a v = Some m' -> a2 + Z.of_nat n2 <= a \/ a + Z.of_nat n <= a2 ->
  hload n2 m' a2 = hload n2 m a2.
Proof.
  intros E H. apply hload_ext. intros b Hb. apply (hstore_lookup_other _ _ _ _ _ _ E). lia.
Qed.
Lemma hstore_is_Some n : forall m a v,
  (forall b, a <= b < a + Z.of_nat n -> is_Some (m !! b)) -> is_Some (hstore n m a v).
Proof.
  induction n as [|n IH]; intros m a v H; cbn [hstore]; [eauto|].
  destruct (H a ltac:(lia)) as [x ->]. cbn. apply IH. intros b Hb.
  rewrite lookup_insert_ne by lia. apply H. lia.
Qed.
Lemma hload_is_Some n m : forall a,
  (forall b, a <= b < a + Z.of_nat n -> is_Some (m !! b)) -> is_Some (hload n m a).
Proof.
  induction n as [|n IH]; intros a H; cbn [hload]; [eauto|].
  destruct (H a ltac:(lia)) as [x ->]. cbn.
  destruct (IH (a + 1)) as [y ->]; [intros; apply H; lia|]. cbn. eauto.
Qed.

(** * Comparisons *)

Lemma signed_bits_s32 v : is_u32 v -> signed false v = s32 v.
Proof.
  unfold is_u32, signed, bits. intros Hv.
  replace (Z.testbit v (32 - 1)) with (0x80000000 <=? v).
  - change (2 ^ 32) with 0x100000000. unfold s32.
    destruct (Z.leb_spec 0x80000000 v); mlia.
  - change (32 - 1) with 31. rewrite Z.testbit_odd, Z.shiftr_div_pow2 by lia.
    change (2 ^ 31) with 0x80000000.
    destruct (Z.leb_spec 0x80000000 v).
    + replace (v / 0x80000000) with 1 by mlia. done.
    + replace (v / 0x80000000) with 0 by mlia. done.
Qed.
Lemma sign_bit_u32 v : is_u32 v -> Z.testbit v 31 = (s32 v <? 0).
Proof.
  intros Hv. pose proof (signed_bits_s32 v Hv) as E. unfold signed, bits in E.
  change (32 - 1) with 31 in E. unfold is_u32 in Hv.
  destruct (Z.testbit v 31); destruct (Z.ltb_spec (s32 v) 0); try done; lia.
Qed.

(** What the condition codes mean after comparing [a] with [b]. *)
Definition cond_holds (c : xcond) (a b : Z) : bool :=
  match c with
  | Xe => a =? b
  | Xne => negb (a =? b)
  | Xl => s32 a <? s32 b
  | Xge => s32 b <=? s32 a
  | Xb => a <? b
  | Xae => b <=? a
  end.
Lemma sub_overflow a b :
  is_u32 a -> is_u32 b ->
  negb (Bool.eqb (s32 (u32 (a - b)) <? 0) (negb (s32 (u32 (a - b)) =? s32 a - s32 b)))
  = (s32 a <? s32 b).
Proof.
  unfold is_u32. intros Ha Hb. rewrite s32_u32.
  assert (s32 a = a \/ s32 a = a - 0x100000000) by (unfold s32; mlia).
  assert (s32 b = b \/ s32 b = b - 0x100000000) by (unfold s32; mlia).
  pose proof (s32_range a). pose proof (s32_range b). pose proof (s32_range (a - b)).
  assert (exists k, s32 (a - b) = s32 a - s32 b + k * 0x100000000) as [k Hk].
  { exists ((s32 (a - b) - (s32 a - s32 b)) / 0x100000000).
    assert ((s32 (a - b) - (s32 a - s32 b)) mod 0x100000000 = 0) by (unfold s32; mlia). mlia. }
  assert (k = -1 \/ k = 0 \/ k = 1) as [-> | [-> | ->]] by lia;
  destruct (Z.ltb_spec (s32 (a - b)) 0), (Z.eqb_spec (s32 (a - b)) (s32 a - s32 b)),
    (Z.ltb_spec (s32 a) (s32 b)); cbn; try done; lia.
Qed.
Lemma exec_cond_sub c a b :
  is_u32 a -> is_u32 b -> exec_cond c (sub_flags false a b) = cond_holds c a b.
Proof.
  intros Ha Hb. pose proof (sub_overflow a b Ha Hb) as Ho.
  unfold sub_flags, exec_cond, cond_holds; cbn [ZF SF CF OF width bits].
  assert ((u32 (a - b) =? 0) = (a =? b)) as Ez.
  { unfold is_u32 in *. unfold u32. destruct (Z.eqb_spec a b) as [->|Hn].
    - by rewrite Z.sub_diag.
    - apply Z.eqb_neq. mlia. }
  rewrite !signed_bits_s32 by auto using is_u32_u32. change (32 - 1) with 31.
  rewrite sign_bit_u32 by apply is_u32_u32.
  destruct c; rewrite ?Ez; try done.
  - rewrite Z.leb_antisym, <- Ho. by destruct (Bool.eqb _ _).
  - lia.
Qed.
