(* ===== verification/JitEmitProofs.v ===== *)
(** What the emitters of JitEmit.v append to the code buffer: the encodings of X86.v.  An
    emitter always ends; if the buffer is full it sets [should_flush] instead. *)

From S2P Require Import Prelude.
From S2P Require Import Utils.
From S2P Require Import JitEmit.
From S2P Require Import X86.
From S2P Require Import X86Proofs.

(** * The code buffer *)

Record jwf (j : jit_state) : Prop := {
  jwf_offset : 0 <= offset j;
  jwf_fits : offset j <= jsize j;
  jwf_size : jsize j < 2 ^ 31;
  jwf_buf : length (buf j) = Z.to_nat (jsize j) }.

Lemma le_bytes_le n v : le_bytes n v = le n v.
Proof. done. Qed.

Lemma length_buf_write b off data :
  0 <= off -> (Z.to_nat off + length data <= length b)%nat ->
  length (buf_write b off data) = length b.
Proof. intros. unfold buf_write. rewrite !length_app, length_take, length_drop. lia. Qed.
Lemma buf_write_nil b off : 0 <= off -> (Z.to_nat off <= length b)%nat -> buf_write b off [] = b.
Proof. intros. unfold buf_write. cbn. rewrite Nat.add_0_r. apply take_drop. Qed.
(** Two consecutive writes are one. *)
Lemma buf_write_app b off d1 d2 :
  0 <= off -> (Z.to_nat off + length d1 + length d2 <= length b)%nat ->
  buf_write (buf_write b off d1) (off + Z.of_nat (length d1)) d2 = buf_write b off (d1 ++ d2).
Proof.
  intros Ho Hl. unfold buf_write.
  replace (Z.to_nat (off + Z.of_nat (length d1))) with (Z.to_nat off + length d1)%nat by lia.
  rewrite (app_assoc (take _ b) d1).
  rewrite take_app_length' by (rewrite length_app, length_take; lia).
  rewrite drop_app_ge by (rewrite length_app, length_take; lia).
  rewrite drop_drop, !length_app, length_take, <- !app_assoc.
  do 4 f_equal. lia.
Qed.

(** * Emission *)

(** The bytes in front of the offset are not written again. *)
Record kept (j j' : jit_state) : Prop := {
  kept_offset : offset j <= offset j';
  kept_buf : forall i, (i < Z.to_nat (offset j))%nat -> buf j' !! i = buf j !! i }.
#[export] Instance kept_refl : Reflexive kept.
Proof. by split. Qed.
#[export] Instance kept_trans : Transitive kept.
Proof.
  intros j1 j2 j3 [O1 B1] [O2 B2]. split; [lia|]. intros i Hi. rewrite B2 by lia. by apply B1.
Qed.

(** The parts of the state that no emitter changes. *)
Record same_rest (s s' : jst) : Prop := {
  same_liveness : liveness s' = liveness s;
  same_queue : candidate_queue s' = candidate_queue s;
  same_set : jset (js s') = jset (js s);
  same_size : jsize (js s') = jsize (js s);
  same_exit : exit_loc (js s') = exit_loc (js s);
  same_org : org_size (js s') = org_size (js s);
  same_retpoline : retpoline_loc (js s') = retpoline_loc (js s);
  same_map : offset_map (js s') = offset_map (js s);
  same_kept : kept (js s) (js s');
  same_full : n_blocks (js s) = MAX_BLOCKS -> offset (js s') = offset (js s) }.

#[export] Instance same_rest_refl : Reflexive same_rest.
Proof. by split. Qed.
#[export] Instance same_rest_trans : Transitive same_rest.
Proof.
  intros s1 s2 s3 [] []. split; [congruence..|by etrans|]. intros Hf.
  assert (n_blocks (js s2) = MAX_BLOCKS) by (unfold n_blocks in *; congruence).
  rewrite same_full1 by done. by apply same_full0.
Qed.

(** The bytes were appended, and nothing else changed in [jit_state]. *)
Definition appended (bs : list Z) (j j' : jit_state) : Prop :=
  j' = with_code (buf_write (buf j) (offset j) bs) (offset j + Z.of_nat (length bs)) j
  /\ offset j + Z.of_nat (length bs) <= jsize j.

(** [emits s m bs rm]: run in [s], the emitter [m] ends, leaves the register map [rm] and has
    appended [bs] unless the buffer must be flushed, which is not the case if there is room. *)
Definition emits (s : jst) (m : jitM unit) (bs : list Z) (rm : list host_reg) : Prop :=
  exists s', m s = Some (tt, s') /\ jwf (js s') /\ same_rest s s' /\
    jumps (js s') = jumps (js s) /\ register_map s' = rm /\
    (should_flush s' = false -> should_flush s = false /\ appended bs (js s) (js s')) /\
    (should_flush s = false -> n_blocks (js s) <> MAX_BLOCKS ->
     offset (js s) + Z.of_nat (length bs) <= jsize (js s) -> should_flush s' = false).

Lemma appended_nil j : jwf j -> appended [] j j.
Proof.
  intros []. unfold appended. cbn [length]. rewrite buf_write_nil, Z.add_0_r by lia.
  split; [by destruct j|lia].
Qed.
Lemma appended_app b1 b2 j1 j2 j3 :
  jwf j1 -> appended b1 j1 j2 -> appended b2 j2 j3 -> appended (b1 ++ b2) j1 j3.
Proof.
  intros [] [-> H1] [-> H2]. unfold appended; cbn in *. rewrite length_app.
  rewrite buf_write_app by lia. split; [|lia].
  unfold with_code; cbn. f_equal. lia.
Qed.

Lemma emits_eq s m bs bs' rm rm' : emits s m bs rm -> bs = bs' -> rm = rm' -> emits s m bs' rm'.
Proof. by intros ? <- <-. Qed.
Lemma emits_bind s m1 m2 b1 b2 rm1 rm2 :
  jwf (js s) -> emits s m1 b1 rm1 ->
  (forall s1, jwf (js s1) -> register_map s1 = rm1 -> emits s1 m2 b2 rm2) ->
  emits s (m1;; m2) (b1 ++ b2) rm2.
Proof.
  intros Hs (s1 & E1 & W1 & R1 & J1 & M1 & A1 & N1) H2.
  destruct (H2 s1 W1 M1) as (s2 & E2 & W2 & R2 & J2 & M2 & A2 & N2).
  exists s2. split; [unfold mbind, jitM_bind; by rewrite E1|].
  split; [done|]. split; [by etrans|]. split; [congruence|]. split; [done|].
  split.
  - intros F2. destruct (A2 F2) as [F1 B2]. destruct (A1 F1) as [F0 B1].
    split; [done|]. by eapply appended_app.
  - rewrite length_app. intros F0 Hn Hfit. assert (should_flush s1 = false) as F1 by (apply N1; [done..|lia]).
    destruct (A1 F1) as [_ [Ej _]]. apply N2; rewrite ?Ej; [done..|cbn; lia].
Qed.

Lemma emits_jget {A} s (f : jst -> A) (k : A -> jitM unit) bs rm :
  emits s (k (f s)) bs rm -> emits s (x ← jget f; k x) bs rm.
Proof. done. Qed.

(** One rule per primitive; [rm] is the register map at that point. *)
Section Primitives.
Context (s : jst) (rm : list host_reg) (W : jwf (js s)) (M : register_map s = rm).

Lemma emits_ret : emits s (mret tt) [] rm.
Proof using W M.
  exists s. do 5 (split; [done|]). split; [|done]. intros. split; [done|]. by apply appended_nil.
Qed.
Lemma emits_assert b : b = true -> emits s (jassert b) [] rm.
Proof using W M. intros ->. by apply emits_ret. Qed.
Lemma emits_modify_map f :
  emits s (jmodify (fun s => with_register_map (f (register_map s)) s)) [] (f rm).
Proof using W M.
  eexists. do 2 (split; [done|]). split; [by split|]. split; [done|]. split; [cbn; by rewrite M|].
  split; [|done]. intros. split; [done|]. by apply appended_nil.
Qed.
Lemma emits_set_dirty r d : emits s (set_dirty r d) [] (set_dirty_in rm r d).
Proof using W M. apply (emits_modify_map (fun m => set_dirty_in m r d)). Qed.
Lemma emits_bytes bs : Z.of_nat (length bs) < 2 ^ 31 -> emits s (emit_bytes bs) bs rm.
Proof using W M.
  destruct W as []. intros Hb. unfold emits, emit_bytes.
  rewrite u32_small by (unfold is_u32; lia).
  destruct (Z.ltb_spec (jsize (js s)) (offset (js s) + Z.of_nat (length bs))).
  { eexists. do 2 (split; [done|]). split; [by split|]. do 3 (split; [done|]). intros; lia. }
  destruct (Z.eqb_spec (n_blocks (js s)) MAX_BLOCKS).
  { eexists. do 2 (split; [done|]). split; [by split|]. done. }
  eexists. split; [done|]. split; [split; cbn; try lia; by rewrite length_buf_write by lia|].
  split.
  { split; try done. split; cbn; [lia|]. intros i Hi. unfold buf_write.
    rewrite lookup_app_l by (rewrite length_take; lia). by apply lookup_take_lt. }
  do 2 (split; [done|]). split; [|done]. intros. split; [done|]. by split.
Qed.
Lemma emits_emit1 x b : x mod 0x100 = b -> emits s (emit1 x) [b] rm.
Proof using W M. intros <-. by apply emits_bytes. Qed.
Lemma emits_emit4 x : emits s (emit4 x) (le 4 x) rm.
Proof using W M. by apply emits_bytes. Qed.
Lemma emits_emit8 x : emits s (emit8 x) (le 8 x) rm.
Proof using W M. by apply emits_bytes. Qed.
Lemma emits_when (b : bool) m bs rm' :
  (b = true -> emits s m bs rm') -> (b = false -> bs = [] /\ rm' = rm) ->
  emits s (jwhen b m) bs rm'.
Proof using W M.
  intros Ht Hf. destruct b; cbn; [by apply Ht|]. destruct (Hf eq_refl) as [-> ->].
  by apply emits_ret.
Qed.
End Primitives.

Create HintDb emits discriminated.
#[export] Hint Resolve emits_ret emits_assert emits_set_dirty emits_emit1 emits_emit4 emits_emit8
  : emits.
(** The first statement of a sequence is emitted by a known rule. *)
Ltac estep :=
  eapply emits_bind; [eassumption|solve [eauto with emits]|
    let s1 := fresh "s" in let W1 := fresh "W" in let M1 := fresh "M" in intros s1 W1 M1].
Ltac elast := solve [eauto with emits].
(** Emit, then compare the bytes and the map with those of the statement. *)
Ltac emit_with tac := eapply emits_eq; [tac|try done|try done].

(** ** Prefixes and operands *)

Lemma land7 r : Z.land r 7 = r mod 8.
Proof. change 7 with (Z.ones 3). by rewrite Z.land_ones by lia. Qed.
Lemma xreg_cases (P : Z -> Prop) :
  P 0 -> P 1 -> P 2 -> P 3 -> P 4 -> P 5 -> P 6 -> P 7 -> P 8 -> P 9 -> P 10 -> P 11 ->
  P 12 -> P 13 -> P 14 -> P 15 -> forall r, is_xreg r -> P r.
Proof.
  unfold is_xreg. intros. assert (r = 0 \/ r = 1 \/ r = 2 \/ r = 3 \/ r = 4 \/ r = 5 \/ r = 6 \/ r = 7 \/ r = 8
    \/ r = 9 \/ r = 10 \/ r = 11 \/ r = 12 \/ r = 13 \/ r = 14 \/ r = 15) as C by lia.
  destruct_or! C; by subst r.
Qed.
Lemma high_test r : is_xreg r -> truth (Z.land r 8) = (8 <=? r).
Proof. revert r. by apply xreg_cases. Qed.
Lemma high_bit_div r : is_xreg r -> high_bit r = r / 8.
Proof. revert r. by apply xreg_cases. Qed.

Lemma modrm_byte q r m :
  0 <= q < 4 ->
  Z.lor (Z.lor (Z.land (0x40 * q) 0xc0) (Z.shiftl (Z.land r 7) 3)) (Z.land m 7) mod 0x100
  = modrm q r m.
Proof.
  intros Hq. rewrite !land7.
  assert (0 <= r mod 8 < 8 /\ 0 <= m mod 8 < 8) as [? ?] by mlia.
  replace (Z.land (0x40 * q) 0xc0) with (Z.shiftl q 6).
  2: { assert (q = 0 \/ q = 1 \/ q = 2 \/ q = 3) as C by lia. destruct_or! C; by subst q. }
  rewrite (Z.lor_comm (Z.shiftl q 6)), (Z.lor_comm _ (m mod 8)), Z.lor_assoc.
  rewrite (lor_shift (m mod 8)) by lia. rewrite lor_shift by lia. unfold modrm. rewrite Z.mod_small by lia. lia.
Qed.

Lemma emits_modrm s rm q r m :
  jwf (js s) -> register_map s = rm -> 0 <= q < 4 ->
  emits s (emit_modrm (0x40 * q) r m) [modrm q r m] rm.
Proof.
  intros W M Hq. unfold emit_modrm.
  replace (negb _) with true.
  2: { assert (q = 0 \/ q = 1 \/ q = 2 \/ q = 3) as C by lia. destruct_or! C; by subst q. }
  emit_with ltac:(estep; apply emits_emit1; [done..|]; by apply modrm_byte).
Qed.
Lemma emits_modrm0 s rm r m :
  jwf (js s) -> register_map s = rm -> emits s (emit_modrm 0x00 r m) [modrm 0 r m] rm.
Proof. intros. by apply (emits_modrm s rm 0). Qed.
Lemma emits_modrm1 s rm r m :
  jwf (js s) -> register_map s = rm -> emits s (emit_modrm 0x40 r m) [modrm 1 r m] rm.
Proof. intros. by apply (emits_modrm s rm 1). Qed.
Lemma emits_modrm2 s rm r m :
  jwf (js s) -> register_map s = rm -> emits s (emit_modrm 0x80 r m) [modrm 2 r m] rm.
Proof. intros. by apply (emits_modrm s rm 2). Qed.
Lemma emits_modrm_rr s rm r m :
  jwf (js s) -> register_map s = rm -> emits s (emit_modrm_reg2reg r m) [modrm 3 r m] rm.
Proof. intros. by apply (emits_modrm s rm 3). Qed.
#[export] Hint Resolve emits_modrm0 emits_modrm1 emits_modrm2 emits_modrm_rr : emits.

Lemma s8_eqb d : (s8 d =? d) = ((-0x80 <=? d) && (d <? 0x80)).
Proof.
  unfold s8. destruct (Z.eqb_spec ((d + 0x80) mod 0x100 - 0x80) d),
    (Z.leb_spec (-0x80) d), (Z.ltb_spec d 0x80); cbn; try done; mlia.
Qed.
Lemma emits_mem_operand s rm r m d :
  jwf (js s) -> register_map s = rm ->
  emits s (emit_modrm_and_displacement r m d) (mem_operand r m d) rm.
Proof.
  intros W M. unfold emit_modrm_and_displacement, mem_operand.
  rewrite land7, s8_eqb. change RBP with 5.
  destruct ((d =? 0) && negb (m mod 8 =? 5)); [elast|].
  destruct ((-0x80 <=? d) && (d <? 0x80)); emit_with ltac:(estep; elast).
Qed.

Lemma rex_byte (w : bool) r b :
  is_xreg r -> is_xreg b ->
  Z.lor (Z.lor (Z.lor (Z.lor 0x40 (Z.shiftl (b2u w) 3)) (Z.shiftl (r / 8) 2)) (Z.shiftl 0 1)) (b / 8)
    mod 0x100 = rex w r b.
Proof.
  intros Hr Hb. unfold rex.
  by destruct w, (xreg_high r Hr) as [-> | ->], (xreg_high b Hb) as [-> | ->].
Qed.
Lemma emits_rex s rm (w : bool) r b :
  jwf (js s) -> register_map s = rm -> is_xreg r -> is_xreg b ->
  emits s (emit_rex (b2u w) (high_bit r) 0 (high_bit b)) [rex w r b] rm.
Proof.
  intros W M Hr Hb. unfold emit_rex. rewrite !high_bit_div by done.
  replace (is_bit (b2u w)) with true by (by destruct w).
  replace (is_bit (r / 8)) with true by (by destruct (xreg_high r Hr) as [-> | ->]).
  replace (is_bit (b / 8)) with true by (by destruct (xreg_high b Hb) as [-> | ->]).
  emit_with ltac:(do 4 estep; apply emits_emit1; [done..|]; by apply rex_byte).
Qed.
Lemma emits_basic_rex s rm (w : bool) r b :
  jwf (js s) -> register_map s = rm -> is_xreg r -> is_xreg b ->
  emits s (emit_basic_rex (b2u w) r b) (rex_opt false w r b) rm.
Proof.
  intros W M Hr Hb. unfold emit_basic_rex, rex_opt. rewrite !high_test by done.
  replace (truth (b2u w)) with w by (by destruct w).
  eapply emits_when; [done..| |]; cbn [orb]; intros ->; [by apply emits_rex|done].
Qed.
Lemma emits_rexw s rm r b :
  jwf (js s) -> register_map s = rm -> is_xreg r -> is_xreg b ->
  emits s (emit_basic_rex 1 r b) (rex_opt false true r b) rm.
Proof. exact (emits_basic_rex s rm true r b). Qed.
(** The prefix under the guard that the emitters put in front of it. *)
Lemma emits_guarded_rex s rm r b :
  jwf (js s) -> register_map s = rm -> is_xreg r -> is_xreg b ->
  emits s (jwhen (truth (Z.land r 8) || truth (Z.land b 8)) (emit_basic_rex 0 r b))
    (rex_opt false false r b) rm.
Proof.
  intros W M Hr Hb. eapply emits_when; [done..| |]; intros E.
  - by apply (emits_basic_rex s rm false).
  - rewrite !high_test in E by done. unfold rex_opt. cbn [orb]. by rewrite E.
Qed.
Lemma emits_guarded_rex1 s rm r :
  jwf (js s) -> register_map s = rm -> is_xreg r ->
  emits s (jwhen (truth (Z.land r 8)) (emit_basic_rex 0 0 r)) (rex_opt false false 0 r) rm.
Proof. intros. by apply (emits_guarded_rex s rm 0). Qed.
#[export] Hint Resolve emits_mem_operand emits_rexw emits_guarded_rex emits_guarded_rex1 : emits.

(** ** Instructions *)

Lemma rex_opt_ext w e d : 0 <= e < 8 -> rex_opt false w e d = rex_opt false w 0 d.
Proof.
  intros. unfold rex_opt, rex. replace (8 <=? e) with false by lia.
  replace (e / 8) with 0 by mlia. done.
Qed.
Lemma alu_opcode_byte op : alu_opcode op mod 0x100 = alu_opcode op.
Proof. by destruct op. Qed.

Section Instructions.
Context (s : jst) (rm : list host_reg) (W : jwf (js s)) (M : register_map s = rm).

Lemma emits_alu32 op src dst :
  0 <= op < 0x100 -> is_xreg src -> is_xreg dst ->
  emits s (emit_alu32 op src dst) (rex_opt false false src dst ++ [op; modrm 3 src dst])
    (set_dirty_in rm dst true).
Proof using W M.
  intros. unfold emit_alu32.
  emit_with ltac:(do 3 estep; elast). rewrite Z.mod_small by done. done.
Qed.
Lemma emits_alu64 op src dst :
  0 <= op < 0x100 -> is_xreg src -> is_xreg dst ->
  emits s (emit_alu64 op src dst) (rex_opt false true src dst ++ [op; modrm 3 src dst])
    (set_dirty_in rm dst true).
Proof using W M.
  intros. unfold emit_alu64.
  emit_with ltac:(do 3 estep; elast). rewrite Z.mod_small by done. done.
Qed.
End Instructions.
#[export] Hint Resolve emits_alu32 emits_alu64 : emits.
#[export] Hint Extern 2 (0 <= _ < _) => lia : emits.
#[export] Hint Resolve is_xreg_0 : emits.

Section Emitters.
Context (s : jst) (rm : list host_reg) (W : jwf (js s)) (M : register_map s = rm).

Lemma emits_Alu op src dst :
  is_xreg src -> is_xreg dst ->
  emits s (emit_alu32 (alu_opcode op) src dst) (encode (Alu false op src dst))
    (set_dirty_in rm dst true).
Proof using W M. intros. apply emits_alu32; [done..| |done|done]. destruct op; cbn; lia. Qed.
Lemma emits_Alu64 op src dst :
  is_xreg src -> is_xreg dst ->
  emits s (emit_alu64 (alu_opcode op) src dst) (encode (Alu true op src dst))
    (set_dirty_in rm dst true).
Proof using W M. intros. apply emits_alu64; [done..| |done|done]. destruct op; cbn; lia. Qed.
Lemma emits_Test src dst :
  is_xreg src -> is_xreg dst ->
  emits s (emit_alu32 0x85 src dst) (encode (Test false src dst)) (set_dirty_in rm dst true).
Proof using W M. intros. by apply emits_alu32. Qed.
Lemma emits_Mov src dst :
  is_xreg src -> is_xreg dst ->
  emits s (emit_mov src dst) (encode (Mov true src dst)) (set_dirty_in rm dst true).
Proof using W M. intros. by apply emits_alu64. Qed.

Lemma emits_AluI op dst imm :
  is_xreg dst ->
  emits s (emit_alu32_imm32 0x81 (alu_ext op) dst imm) (encode (AluI false op dst imm))
    (set_dirty_in rm dst true).
Proof using W M.
  intros. assert (is_xreg (alu_ext op)) by (destruct op; unfold is_xreg; cbn; lia).
  unfold emit_alu32_imm32. emit_with ltac:(estep; elast).
  cbn [encode]. rewrite (rex_opt_ext _ (alu_ext op)) by (destruct op; cbn; lia).
  by rewrite <- app_assoc.
Qed.
Lemma emits_AluI64 op dst imm :
  is_xreg dst ->
  emits s (emit_alu64_imm32 0x81 (alu_ext op) dst imm) (encode (AluI true op dst imm))
    (set_dirty_in rm dst true).
Proof using W M.
  intros. assert (is_xreg (alu_ext op)) by (destruct op; unfold is_xreg; cbn; lia).
  unfold emit_alu64_imm32. emit_with ltac:(estep; elast).
  cbn [encode]. rewrite (rex_opt_ext _ (alu_ext op)) by (destruct op; cbn; lia).
  by rewrite <- app_assoc.
Qed.
Lemma emits_ShiftI op dst imm :
  is_xreg dst ->
  emits s (emit_alu32_imm8 0xc1 (shift_ext op) dst imm) (encode (ShiftI false op dst imm))
    (set_dirty_in rm dst true).
Proof using W M.
  intros. assert (is_xreg (shift_ext op)) by (destruct op; unfold is_xreg; cbn; lia).
  unfold emit_alu32_imm8. emit_with ltac:(estep; elast).
  cbn [encode]. rewrite (rex_opt_ext _ (shift_ext op)) by (destruct op; cbn; lia).
  by rewrite <- app_assoc.
Qed.
Lemma emits_ShiftI64 op dst imm :
  is_xreg dst ->
  emits s (emit_alu64_imm8 0xc1 (shift_ext op) dst imm) (encode (ShiftI true op dst imm))
    (set_dirty_in rm dst true).
Proof using W M.
  intros. assert (is_xreg (shift_ext op)) by (destruct op; unfold is_xreg; cbn; lia).
  unfold emit_alu64_imm8. emit_with ltac:(estep; elast).
  cbn [encode]. rewrite (rex_opt_ext _ (shift_ext op)) by (destruct op; cbn; lia).
  by rewrite <- app_assoc.
Qed.
Lemma emits_ShiftCl op dst :
  is_xreg dst ->
  emits s (emit_alu32 0xd3 (shift_ext op) dst) (encode (ShiftCl false op dst))
    (set_dirty_in rm dst true).
Proof using W M.
  intros. emit_with ltac:(apply emits_alu32; [done..|lia| |done]; destruct op; unfold is_xreg; cbn; lia).
  cbn [encode]. by rewrite (rex_opt_ext _ (shift_ext op)) by (destruct op; cbn; lia).
Qed.

Lemma lor_reg k r : k = 0x50 \/ k = 0x58 \/ k = 0xb8 -> Z.lor k (Z.land r 7) mod 0x100 = k + r mod 8.
Proof using Type.
  intros Hk. rewrite land7.
  destruct_or! Hk; subst k;
    destruct (mod8_cases r) as [->|[->|[->|[->|[->|[->|[->| ->]]]]]]]; done.
Qed.
Lemma emits_MovI dst imm :
  is_xreg dst ->
  emits s (emit_load_imm dst imm) (encode (MovI dst (u32 imm))) (set_dirty_in rm dst true).
Proof using W M.
  intros. unfold emit_load_imm. emit_with ltac:(do 3 estep; elast).
  cbn [encode]. rewrite lor_reg by auto. change (u32 imm) with (imm mod 0x100 ^ Z.of_nat 4).
  by rewrite le_mod, app_nil_r.
Qed.
Lemma emits_Push r : is_xreg r -> emits s (emit_push r) (encode (Push r)) rm.
Proof using W M.
  intros. unfold emit_push. emit_with ltac:(estep; elast). cbn [encode]. by rewrite lor_reg by auto.
Qed.
Lemma emits_Pop r : is_xreg r -> emits s (emit_pop r) (encode (Pop r)) rm.
Proof using W M.
  intros. unfold emit_pop. emit_with ltac:(estep; elast). cbn [encode]. by rewrite lor_reg by auto.
Qed.
End Emitters.
#[export] Hint Resolve emits_Alu emits_Alu64 emits_Test emits_Mov emits_AluI emits_AluI64 emits_ShiftI
  emits_ShiftI64 emits_ShiftCl emits_MovI emits_Push emits_Pop : emits.

Definition xsize_of (sz : operand_size) : xsize :=
  match sz with S8 => X8 | S16 => X16 | _ => X32 end.

Section MemoryEmitters.
Context (s : jst) (rm : list host_reg) (W : jwf (js s)) (M : register_map s = rm).

(** A register that stands for [x0] is cleared instead of loaded. *)
Lemma emits_Load sz src dst off :
  sz <> S64 -> is_xreg src -> is_xreg dst -> maps_x0 rm dst = false ->
  emits s (emit_load sz src dst off) (encode (Load (xsize_of sz) false dst src off))
    (set_dirty_in rm dst (off =? 0)).
Proof using W M.
  intros Hsz Hs Hd H0. unfold emit_load.
  apply emits_jget. rewrite M, H0.
  rewrite orb_comm. destruct sz; [..|done]; cbn [xsize_of encode].
  - emit_with ltac:(estep; eapply emits_bind; [done|estep; elast|intros ? ? ?]; estep; elast).
    cbn [app]. by rewrite app_nil_r.
  - emit_with ltac:(estep; eapply emits_bind; [done|estep; elast|intros ? ? ?]; estep; elast).
    cbn [app]. by rewrite app_nil_r.
  - emit_with ltac:(do 3 estep; elast). by rewrite app_nil_r.
Qed.
Lemma emits_LoadSx sz src dst off :
  sz = S8 \/ sz = S16 -> is_xreg src -> is_xreg dst -> maps_x0 rm dst = false ->
  emits s (emit_load_sext sz src dst off) (encode (Load (xsize_of sz) true dst src off))
    (set_dirty_in rm dst (off =? 0)).
Proof using W M.
  intros Hsz Hs Hd H0. unfold emit_load_sext. apply emits_jget. rewrite M, H0, orb_comm.
  destruct Hsz as [-> | ->]; cbn [xsize_of encode];
    (emit_with ltac:(eapply emits_bind; [done|do 2 estep; elast|intros ? ? ?]; estep; elast));
    by rewrite app_nil_r, <- !app_assoc.
Qed.
Lemma emits_Movsxd src dst off :
  is_xreg src -> is_xreg dst -> maps_x0 rm dst = false ->
  emits s (emit_load_sext S32 src dst off) (encode (Movsxd dst src off))
    (set_dirty_in rm dst (off =? 0)).
Proof using W M.
  intros Hs Hd H0. unfold emit_load_sext. apply emits_jget. rewrite M, H0. cbn [encode].
  emit_with ltac:(eapply emits_bind; [done|estep; elast|intros ? ? ?]; estep; elast).
  by rewrite app_nil_r, <- !app_assoc.
Qed.
Lemma emits_load_clear sz src dst off :
  is_xreg dst -> maps_x0 rm dst = true ->
  emits s (emit_load sz src dst off) (encode (MovI dst 0))
    (set_dirty_in (set_dirty_in rm dst true) dst true).
Proof using W M.
  intros Hd H0. unfold emit_load. apply emits_jget. rewrite M, H0.
  emit_with ltac:(estep; elast). by rewrite app_nil_r.
Qed.
Lemma emits_load_sext_clear sz src dst off :
  is_xreg dst -> maps_x0 rm dst = true ->
  emits s (emit_load_sext sz src dst off) (encode (MovI dst 0))
    (set_dirty_in (set_dirty_in rm dst true) dst true).
Proof using W M.
  intros Hd H0. unfold emit_load_sext. apply emits_jget. rewrite M, H0.
  emit_with ltac:(estep; elast). by rewrite app_nil_r.
Qed.
Lemma emits_MovsxdR r : is_xreg r -> emits s (emit_sxtw r) (encode (MovsxdR r r)) rm.
Proof using W M. intros. unfold emit_sxtw. emit_with ltac:(do 2 estep; elast). Qed.

Lemma emits_MovSext dst imm :
  is_xreg dst -> - 2 ^ 63 <= imm < 2 ^ 63 ->
  emits s (emit_load_imm_sext dst imm)
    (encode (if s32 imm =? imm then MovSI dst imm else MovAbs dst (u64 imm)))
    (set_dirty_in (if s32 imm =? imm then set_dirty_in rm dst true else rm) dst true).
Proof using W M.
  intros Hd Hi. unfold emit_load_imm_sext.
  destruct (s32 imm =? imm); cbn [encode].
  - unfold emit_alu64_imm32.
    emit_with ltac:(eapply emits_bind; [done|estep; elast|intros ? ? ?]; elast).
  - emit_with ltac:(eapply emits_bind; [done|do 2 estep; elast|intros ? ? ?]; elast).
    rewrite lor_reg by auto. change (u64 imm) with (imm mod 0x100 ^ Z.of_nat 8).
    by rewrite le_mod, app_nil_r.
Qed.

Lemma emits_Store sz src dst off :
  sz <> S64 -> is_xreg src -> is_xreg dst -> maps_x0 rm src = false ->
  emits s (emit_store sz src dst off) (encode (Store (xsize_of sz) src dst off))
    (if off =? 0 then rm else set_dirty_in rm src false).
Proof using W M.
  intros Hsz Hs Hd H0. unfold emit_store, jit_store_x0.
  enough (emits s
    (jwhen (is_S16 sz) (emit1 0x66);;
     jwhen (truth (Z.land src 8) || truth (Z.land dst 8) || is_S8 sz)
       (emit_rex 0 (high_bit src) 0 (high_bit dst));;
     emit1 (if is_S8 sz then 0x88 else 0x89);;
     emit_modrm_and_displacement src dst off;;
     jwhen (truth off) (set_dirty src false)) (encode (Store (xsize_of sz) src dst off))
    (if off =? 0 then rm else set_dirty_in rm src false)) as (s' & E & H).
  { exists s'. split; [|done]. rewrite <- E. unfold mbind, jitM_bind, jget. by rewrite M, H0. }
  assert (forall s1, jwf (js s1) -> register_map s1 = rm -> forall b : bool,
    emits s1 (jwhen (truth (Z.land src 8) || truth (Z.land dst 8) || b)
       (emit_rex 0 (high_bit src) 0 (high_bit dst))) (rex_opt b false src dst) rm) as Hrex.
  { intros s1 W1 M1 b. rewrite !high_test by done. unfold rex_opt.
    eapply emits_when; [done..| |]; intros E.
    - replace (b || false || (8 <=? src) || (8 <=? dst)) with true
        by (destruct b, (8 <=? src), (8 <=? dst); done). by apply (emits_rex s1 rm false).
    - destruct b, (8 <=? src), (8 <=? dst); done. }
  assert (forall s1, jwf (js s1) -> register_map s1 = rm ->
    emits s1 (jwhen (truth off) (set_dirty src false)) []
      (if off =? 0 then rm else set_dirty_in rm src false)) as Hlast.
  { intros s1 W1 M1. unfold truth. destruct (off =? 0); [by apply emits_ret|by apply emits_set_dirty]. }
  destruct sz; [..|done]; cbn [xsize_of encode p66 is_x8].
  - cbn [is_S8 is_S16 jwhen].
    emit_with ltac:(estep; eapply emits_bind; [done|by apply Hrex|intros ? ? ?]; do 2 estep; by apply Hlast).
    by rewrite app_nil_r.
  - cbn [is_S8 is_S16 jwhen].
    emit_with ltac:(estep; eapply emits_bind; [done|by apply Hrex|intros ? ? ?]; do 2 estep; by apply Hlast).
    by rewrite app_nil_r.
  - cbn [is_S8 is_S16 jwhen].
    emit_with ltac:(estep; eapply emits_bind; [done|by apply Hrex|intros ? ? ?]; do 2 estep; by apply Hlast).
    by rewrite app_nil_r.
Qed.
Lemma emits_StoreZero sz src dst off :
  sz <> S64 -> is_xreg dst -> maps_x0 rm src = true ->
  emits s (emit_store sz src dst off) (encode (StoreI (xsize_of sz) dst off 0))
    (set_dirty_in rm src false).
Proof using W M.
  intros Hsz Hd H0. unfold emit_store, jit_store_x0.
  enough (emits s
    (jwhen (is_S16 sz) (emit1 0x66);;
     jwhen (truth (Z.land dst 8)) (emit_rex 0 0 0 (high_bit dst));;
     emit1 (if is_S8 sz then 0xc6 else 0xc7);;
     emit1 (Z.lor 0x80 (Z.land dst 7));;
     emit4 off;;
     match sz with S8 => emit1 0 | S16 => emit1 0;; emit1 0 | S32 => emit4 0 | S64 => junreachable end;;
     set_dirty src false) (encode (StoreI (xsize_of sz) dst off 0))
    (set_dirty_in rm src false)) as (s' & E & H).
  { exists s'. split; [|done]. revert E. unfold mbind, jitM_bind, jget, mret, jitM_ret. rewrite M, H0.
    repeat match goal with |- context [match ?o with _ => _ end] => destruct o as [[]|]; try done end. }
  assert (forall s1, jwf (js s1) -> register_map s1 = rm ->
    emits s1 (jwhen (truth (Z.land dst 8)) (emit_rex 0 0 0 (high_bit dst)))
      (rex_opt false false 0 dst) rm) as Hrex.
  { intros s1 W1 M1. rewrite !high_test by done. unfold rex_opt.
    eapply emits_when; [done..| |]; intros E; cbn [orb]; change (8 <=? 0) with false; rewrite E.
    - by apply (emits_rex s1 rm false 0).
    - done. }
  assert (Z.lor 0x80 (Z.land dst 7) mod 0x100 = modrm 2 0 dst) as Hm.
  { exact (modrm_byte 2 0 dst ltac:(lia)). }
  destruct sz; [..|done]; cbn [xsize_of encode p66 is_x8].
  - cbn [is_S8 is_S16 jwhen].
    emit_with ltac:(estep; eapply emits_bind; [done|by apply Hrex|intros ? ? ?]; do 4 estep; elast).
    all: by rewrite Hm.
  - cbn [is_S8 is_S16 jwhen].
    emit_with ltac:(estep; eapply emits_bind; [done|by apply Hrex|intros ? ? ?]; do 3 estep;
      eapply emits_bind; [done|estep; elast|intros ? ? ?]; elast).
    all: by rewrite Hm.
  - cbn [is_S8 is_S16 jwhen].
    emit_with ltac:(estep; eapply emits_bind; [done|by apply Hrex|intros ? ? ?]; do 4 estep; elast).
    all: by rewrite Hm.
Qed.
Lemma emits_Cmove src dst :
  src < 8 -> dst < 8 -> is_xreg src -> is_xreg dst ->
  emits s (emit_conditional_move src dst) (encode (Cmove src dst)) rm.
Proof using W M.
  intros. unfold emit_conditional_move. emit_with ltac:(do 3 estep; elast).
  cbn [encode]. unfold rex_opt, rex, is_xreg in *. cbn [orb].
  replace (dst / 8) with 0 by mlia. replace (src / 8) with 0 by mlia. done.
Qed.
End MemoryEmitters.
#[export] Hint Resolve emits_Load emits_LoadSx emits_Movsxd emits_load_clear emits_load_sext_clear
  emits_MovsxdR emits_MovSext emits_Store emits_StoreZero emits_Cmove : emits.
