(* ===== verification/JitCode.v ===== *)
(** Generated code as a list of instructions whose jumps still have symbolic targets.

    [lay] says that a generator has appended such a list to the buffer and recorded its jumps;
    [resolve_coded] shows that after [resolve_jumps] the machine decodes exactly these
    instructions, each jump leading to its target.  [sim] is the correctness of a list of
    instructions: from a state with [P] the machine reaches the end in a state with [Q], or
    leaves through a jump to another block in a state with [E]. *)

From S2P Require Import Prelude.
From S2P Require Import JitEmit.
From S2P Require Import JitAlloc.
From S2P Require Import JitGen.
From S2P Require Import X86.
From S2P Require Import X86Proofs.
From S2P Require Import JitEmitProofs.

(** * Symbolic code *)

Inductive target : Set := TOff (o : Z) | TPc (pc : Z).
(** A jump without target is one whose record has not been made yet. *)
Inductive sinsn : Set := SI (i : xinsn) | SJ (c : option xcond) (t : option target).

Definition jins (c : option xcond) (rel : Z) : xinsn :=
  match c with Some c => Jcc c rel | None => Jmp rel end.
Definition jop (c : option xcond) : list Z :=
  match c with Some c => [0x0f; cond_code c] | None => [0xe9] end.
Lemma encode_jins c rel : encode (jins c rel) = jop c ++ le 4 rel.
Proof. by destruct c. Qed.

Definition raw (s : sinsn) : list Z :=
  match s with SI i => encode i | SJ c _ => jop c ++ le 4 0 end.
Definition slen (s : sinsn) : Z := Z.of_nat (length (raw s)).
Definition raw_all (l : list sinsn) : list Z := concat (raw <$> l).
Definition csize (l : list sinsn) : Z := Z.of_nat (length (raw_all l)).

(** The record of a jump whose displacement is at [loc]. *)
Definition rec_of (loc : Z) (t : target) : jump_t :=
  match t with TOff o => mk_jump loc 0 o | TPc pc => mk_jump loc pc 0 end.
Fixpoint records (off : Z) (l : list sinsn) : list jump_t :=
  match l with
  | [] => []
  | s :: l =>
      match s with
      | SJ _ (Some t) => rec_of (off + slen s - 4) t :: records (off + slen s) l
      | _ => records (off + slen s) l
      end
  end.

Definition wf_sinsn (size : Z) (s : sinsn) : Prop :=
  match s with
  | SI i => wf_xinsn i
  | SJ _ (Some (TOff o)) => 0 < o <= size
  | SJ _ _ => True
  end.

Lemma raw_all_app l1 l2 : raw_all (l1 ++ l2) = raw_all l1 ++ raw_all l2.
Proof. unfold raw_all. by rewrite fmap_app, concat_app. Qed.
Lemma csize_app l1 l2 : csize (l1 ++ l2) = csize l1 + csize l2.
Proof. unfold csize. rewrite raw_all_app, length_app. lia. Qed.
Lemma csize_cons s l : csize (s :: l) = slen s + csize l.
Proof. unfold csize, slen, raw_all. cbn. rewrite length_app. lia. Qed.
Lemma csize_nonneg l : 0 <= csize l.
Proof. unfold csize. lia. Qed.
Lemma records_app off l1 l2 :
  records off (l1 ++ l2) = records off l1 ++ records (off + csize l1) l2.
Proof.
  revert off. induction l1 as [|s l1 IH]; intros off; cbn [app records].
  { by rewrite Z.add_0_r. }
  rewrite csize_cons, Z.add_assoc, IH. by destruct s as [|? []].
Qed.

(** The state [j'] is [j] with the code appended. *)
Record lay (j j' : jit_state) (l : list sinsn) : Prop := {
  lay_offset : offset j' = offset j + csize l;
  lay_fits : offset j' <= jsize j;
  lay_buf : buf j' = buf_write (buf j) (offset j) (raw_all l);
  lay_jumps : exists new, jumps j' = jumps j ++ new /\ new ≡ₚ records (offset j) l;
  lay_size : jsize j' = jsize j;
  lay_wf : Forall (wf_sinsn (jsize j)) l }.

Lemma lay_nil j j' :
  jwf j -> offset j' = offset j -> buf j' = buf j -> jumps j' = jumps j -> jsize j' = jsize j ->
  lay j j' [].
Proof.
  intros [] Ho Hb Hj Hs. split.
  - change (csize []) with 0. lia.
  - lia.
  - unfold raw_all. cbn. by rewrite buf_write_nil by lia.
  - exists []. by rewrite app_nil_r.
  - done.
  - by constructor.
Qed.
Lemma lay_app j1 j2 j3 l1 l2 :
  jwf j1 -> lay j1 j2 l1 -> lay j2 j3 l2 -> lay j1 j3 (l1 ++ l2).
Proof.
  intros [] [O1 F1 B1 (n1 & N1 & P1) S1 W1] [O2 F2 B2 (n2 & N2 & P2) S2 W2].
  split.
  - rewrite csize_app. lia.
  - lia.
  - rewrite raw_all_app, B2, B1, O1. unfold csize in *. apply buf_write_app; lia.
  - exists (n1 ++ n2). rewrite N2, N1, <- app_assoc, records_app. split; [done|].
    rewrite P1, P2, O1. done.
  - congruence.
  - apply Forall_app. split; [done|]. by rewrite <- S1.
Qed.
Lemma lay_emitted i j j' : appended (encode i) j j' -> wf_xinsn i -> lay j j' [SI i].
Proof.
  intros [-> H] Hw. split; cbn.
  - unfold csize, raw_all. cbn. by rewrite app_nil_r.
  - done.
  - unfold raw_all. cbn. by rewrite app_nil_r.
  - exists []. by rewrite app_nil_r.
  - done.
  - by repeat constructor.
Qed.

(** * Patching *)

Lemma buf_write_lookup_in b off d k :
  0 <= off -> (Z.to_nat off + length d <= length b)%nat -> (k < length d)%nat ->
  buf_write b off d !! (Z.to_nat off + k)%nat = d !! k.
Proof.
  intros Ho Hl Hk. unfold buf_write.
  rewrite lookup_app_r by (rewrite length_take; lia). rewrite length_take, Nat.min_l by lia.
  rewrite lookup_app_l by lia. f_equal. lia.
Qed.
Lemma buf_write_lookup_out b off d i :
  0 <= off -> (Z.to_nat off + length d <= length b)%nat ->
  (i < Z.to_nat off \/ Z.to_nat off + length d <= i)%nat -> buf_write b off d !! i = b !! i.
Proof.
  intros Ho Hl [Hi|Hi]; unfold buf_write.
  - rewrite lookup_app_l by (rewrite length_take; lia). by rewrite lookup_take_lt.
  - rewrite lookup_app_r by (rewrite length_take; lia). rewrite length_take, Nat.min_l by lia.
    rewrite lookup_app_r by lia. rewrite lookup_drop. f_equal. lia.
Qed.

(** The displacement fields of two jumps do not overlap. *)
Definition far (p q : jump_t) : Prop :=
  offset_loc p + 4 <= offset_loc q \/ offset_loc q + 4 <= offset_loc p.
Fixpoint all_far (l : list jump_t) : Prop :=
  match l with [] => True | p :: l => Forall (far p) l /\ all_far l end.
#[export] Instance all_far_proper : Proper ((≡ₚ) ==> iff) all_far.
Proof.
  assert (forall l1 l2, l1 ≡ₚ l2 -> all_far l1 -> all_far l2) as H.
  { induction 1 as [|p l1 l2 HP IH|p q l|l1 l2 l3 ? IH1 ? IH2]; cbn; try done.
    - intros [H1 H2]. split; [by rewrite <- HP|auto].
    - rewrite !Forall_cons. intros [[? ?] [? ?]]. unfold far in *. repeat split; auto. lia.
    - auto. }
  intros l1 l2 HP. split; by apply H.
Qed.

Section Patch.
Context (j : jit_state).

Definition in_buf (b : list Z) (p : jump_t) : Prop :=
  0 <= offset_loc p /\ (Z.to_nat (offset_loc p) + 4 <= length b)%nat.
Definition rel_bytes (p : jump_t) : list Z := le 4 (u32 (jump_target j p - (offset_loc p + 4))).
Lemma length_rel_bytes p : length (rel_bytes p) = 4%nat.
Proof. apply length_le. Qed.

Lemma patch_jump_eq b p : patch_jump j b p = buf_write b (offset_loc p) (rel_bytes p).
Proof. done. Qed.

Lemma length_patch b p : in_buf b p -> length (patch_jump j b p) = length b.
Proof. intros []. rewrite patch_jump_eq. apply length_buf_write; [done|]. by rewrite length_rel_bytes. Qed.
Lemma length_patches l : forall b, Forall (in_buf b) l -> length (foldl (patch_jump j) b l) = length b.
Proof.
  induction l as [|p l IH]; intros b H; [done|]. apply Forall_cons in H as [H1 H2]. cbn.
  assert (length (patch_jump j b p) = length b) as E by (by apply length_patch).
  rewrite IH; [done|]. apply (Forall_impl _ _ _ H2). unfold in_buf. intros q. by rewrite E.
Qed.
Lemma patches_out l i : forall b,
  Forall (in_buf b) l ->
  Forall (fun p => (i < Z.to_nat (offset_loc p) \/ Z.to_nat (offset_loc p) + 4 <= i)%nat) l ->
  foldl (patch_jump j) b l !! i = b !! i.
Proof.
  induction l as [|p l IH]; intros b H Hi; [done|].
  apply Forall_cons in H as [[H0 H1] H2]. apply Forall_cons in Hi as [Hp Hi]. cbn.
  assert (length (patch_jump j b p) = length b) as E by (by apply length_patch).
  rewrite IH; [|apply (Forall_impl _ _ _ H2); unfold in_buf; intros q; by rewrite E|done].
  rewrite patch_jump_eq. apply buf_write_lookup_out; rewrite ?length_rel_bytes; lia.
Qed.
Lemma patches_in l p k : forall b,
  Forall (in_buf b) l -> all_far l -> p ∈ l -> (k < 4)%nat ->
  foldl (patch_jump j) b l !! (Z.to_nat (offset_loc p) + k)%nat = rel_bytes p !! k.
Proof.
  induction l as [|q l IH]; intros b H Hf Hp Hk; [by apply elem_of_nil in Hp|].
  apply Forall_cons in H as [[H0 H1] H2]. destruct Hf as [Hq Hf]. cbn [foldl].
  assert (length (patch_jump j b q) = length b) as E by (by apply length_patch).
  assert (Forall (in_buf (patch_jump j b q)) l) as H2'.
  { apply (Forall_impl _ _ _ H2). unfold in_buf. intros x. by rewrite E. }
  apply elem_of_cons in Hp as [->|Hp]; [|by apply IH].
  rewrite patches_out; [|done|].
  - rewrite patch_jump_eq. apply buf_write_lookup_in; rewrite ?length_rel_bytes; lia.
  - rewrite Forall_forall in *. intros x Hx. specialize (Hq x Hx). destruct (H2 x Hx).
    unfold far in Hq. lia.
Qed.
End Patch.

(** * Resolution *)

(** Where a jump to a guest address leads; [None] is the next instruction. *)
Definition rho (j : jit_state) (pc : Z) : option Z :=
  if pc =? TARGET_PC_EXIT then Some (exit_loc j)
  else if pc =? TARGET_PC_RETPOLINE then Some (retpoline_loc j)
  else find_offset pc (offset_map j).
Definition tloc (r : Z -> option Z) (next : Z) (t : target) : Z :=
  match t with TOff o => o | TPc pc => default next (r pc) end.
Definition sres (r : Z -> option Z) (next : Z) (s : sinsn) : xinsn :=
  match s with
  | SI i => i
  | SJ c (Some t) => jins c (tloc r next t - next)
  | SJ c None => jins c 0
  end.

Lemma jump_target_rec j loc t :
  (forall o, t = TOff o -> o <> 0) -> jump_target j (rec_of loc t) = tloc (rho j) (loc + 4) t.
Proof.
  intros Ho. destruct t as [o|pc]; unfold jump_target; cbn.
  - specialize (Ho o eq_refl). by replace (o =? 0) with false by lia.
  - unfold rho. destruct (pc =? TARGET_PC_EXIT); [done|]. by destruct (pc =? TARGET_PC_RETPOLINE).
Qed.

(** At [off] the machine decodes the list of instructions. *)
Fixpoint code_in (B : list Z) (r : Z -> option Z) (off : Z) (l : list sinsn) : Prop :=
  match l with
  | [] => True
  | s :: l =>
      let next := off + slen s in
      0 <= off /\ (Z.to_nat next <= length B)%nat /\
      decode (drop (Z.to_nat off) B) = Some (sres r next s, drop (Z.to_nat next) B) /\
      code_in B r next l
  end.
Lemma code_in_app B r off l1 l2 :
  code_in B r off (l1 ++ l2) <-> code_in B r off l1 /\ code_in B r (off + csize l1) l2.
Proof.
  revert off. induction l1 as [|s l1 IH]; intros off; cbn [app code_in].
  { rewrite Z.add_0_r. tauto. }
  rewrite IH, csize_cons, Z.add_assoc. tauto.
Qed.

(** At [off] the buffer holds the bytes of the list of instructions. *)
Fixpoint coded (B : list Z) (r : Z -> option Z) (off : Z) (l : list sinsn) : Prop :=
  match l with
  | [] => True
  | s :: l =>
      let next := off + slen s in
      0 <= off /\ (Z.to_nat next <= length B)%nat /\ wf_xinsn (sres r next s) /\
      (forall k, (k < length (raw s))%nat -> B !! (Z.to_nat off + k)%nat = encode (sres r next s) !! k) /\
      coded B r next l
  end.
Lemma coded_app B r off l1 l2 :
  coded B r off (l1 ++ l2) <-> coded B r off l1 /\ coded B r (off + csize l1) l2.
Proof.
  revert off. induction l1 as [|s l1 IH]; intros off; cbn [app coded].
  { rewrite Z.add_0_r. tauto. }
  rewrite IH, csize_cons, Z.add_assoc. tauto.
Qed.

Lemma slen_jump c t : slen (SJ c t) = Z.of_nat (length (jop c)) + 4.
Proof. unfold slen, raw. rewrite length_app, length_le. lia. Qed.
Lemma length_jop c : (1 <= length (jop c) <= 2)%nat.
Proof. destruct c; cbn; lia. Qed.
Lemma slen_nonneg s : 0 <= slen s.
Proof. unfold slen. lia. Qed.

Lemma slen_insn_pos i : 0 < slen (SI i).
Proof.
  unfold slen. cbn.
  destruct i as [| | | | | | | | | | |[] | | |[]|[]| | | | | | | | | |]; cbn; rewrite ?length_app; cbn; lia.
Qed.

Lemma loc_rec_of loc t : offset_loc (rec_of loc t) = loc.
Proof. by destruct t. Qed.
Lemma records_bounds l : forall off,
  Forall (fun p => off <= offset_loc p /\ offset_loc p + 4 <= off + csize l) (records off l).
Proof.
  induction l as [|s l IH]; intros off; cbn [records]; [done|].
  pose proof (slen_nonneg s). pose proof (csize_nonneg l). rewrite csize_cons.
  assert (Forall (fun p => off <= offset_loc p /\ offset_loc p + 4 <= off + (slen s + csize l))
    (records (off + slen s) l)) as H1.
  { apply (Forall_impl _ _ _ (IH (off + slen s))). intros p. lia. }
  destruct s as [i|c [t|]]; [done| |done]. constructor; [|done].
  rewrite loc_rec_of, slen_jump in *. pose proof (length_jop c). lia.
Qed.
Lemma records_far l : forall off, all_far (records off l).
Proof.
  induction l as [|s l IH]; intros off; cbn [records]; [done|].
  destruct s as [i|c [t|]]; [done| |done]. split; [|done].
  apply (Forall_impl _ _ _ (records_bounds l (off + slen (SJ c (Some t))))).
  intros p Hp. unfold far. rewrite loc_rec_of. lia.
Qed.

(** A buffer that holds the bytes of an instruction decodes to it. *)
Lemma drop_prefix (B d : list Z) n :
  (forall k, (k < length d)%nat -> B !! (n + k)%nat = d !! k) ->
  drop n B = d ++ drop (n + length d) B.
Proof.
  intros H. apply list_eq. intros i. rewrite lookup_drop.
  destruct (Nat.lt_ge_cases i (length d)).
  - rewrite lookup_app_l by done. by apply H.
  - rewrite lookup_app_r, lookup_drop by done. f_equal. lia.
Qed.

Lemma length_sres r next s : length (encode (sres r next s)) = length (raw s).
Proof. destruct s as [i|c [t|]]; cbn [sres raw]; [done|..]; by rewrite encode_jins, !length_app, !length_le. Qed.
Lemma coded_code B r l : forall off, coded B r off l -> code_in B r off l.
Proof.
  induction l as [|s l IH]; intros off; cbn [coded code_in]; [done|].
  intros (H0 & H1 & Hw & Hb & Hc). split; [done|]. split; [done|]. split; [|by apply IH].
  pose proof (length_sres r (off + slen s) s) as Hl.
  rewrite (drop_prefix B (encode (sres r (off + slen s) s))) by (intros k Hk; apply Hb; lia).
  rewrite decode_encode by done. do 3 f_equal. rewrite Hl. unfold slen in *. lia.
Qed.
(** Only the bytes of the code matter. *)
Lemma coded_same B B' r l : forall off,
  coded B r off l -> length B' = length B ->
  (forall i, (Z.to_nat off <= i < Z.to_nat (off + csize l))%nat -> B' !! i = B !! i) -> coded B' r off l.
Proof.
  induction l as [|s l IH]; intros off; cbn [coded]; [done|].
  intros (H0 & H1 & Hw & Hb & Hc) HL HB. pose proof (csize_nonneg l). pose proof (slen_nonneg s) as Hs.
  rewrite csize_cons in HB. split; [done|]. split; [by rewrite HL|]. split; [done|]. split.
  - intros k Hk. rewrite HB by (unfold slen in *; lia). by apply Hb.
  - apply IH; [done|done|]. intros i Hi. apply HB. lia.
Qed.

Section Resolve.
Context (j0 j : jit_state) (l : list sinsn).
Context (W : jwf j0) (L : lay j0 j l) (J0 : jumps j0 = []).
Context (T : forall pc o, rho j pc = Some o -> 0 <= o <= jsize j0).
#[local] Abbreviation B := (foldl (patch_jump j) (buf j) (jumps j)).

Lemma resolve_jumps_perm : jumps j ≡ₚ records (offset j0) l.
Proof using L J0. destruct (lay_jumps _ _ _ L) as (new & -> & HP). by rewrite J0. Qed.
Lemma resolve_length_buf : length (buf j) = Z.to_nat (jsize j0).
Proof using W L.
  destruct W, L. rewrite lay_buf0, length_buf_write; [done|lia|]. unfold csize in *. lia.
Qed.
Lemma resolve_in_buf : Forall (in_buf (buf j)) (jumps j).
Proof using W L J0.
  rewrite resolve_jumps_perm. apply (Forall_impl _ _ _ (records_bounds l (offset j0))).
  intros p Hp. unfold in_buf. rewrite resolve_length_buf. destruct W, L. lia.
Qed.
Lemma resolve_all_far : all_far (jumps j).
Proof using L J0. rewrite resolve_jumps_perm. apply records_far. Qed.

(** The bytes of one instruction after resolution. *)
Lemma resolved_bytes l1 s l2 k :
  l = l1 ++ s :: l2 ->
  let off := offset j0 + csize l1 in
  (forall i, s <> SJ i None) ->
  (k < length (raw s))%nat ->
  B !! (Z.to_nat off + k)%nat = encode (sres (rho j) (off + slen s) s) !! k.
Proof using W L J0 T.
  intros El off Hs Hk.
  pose proof (csize_nonneg l1). pose proof (csize_nonneg l2). destruct W as [W0 W1 W2 W3].
  pose proof (lay_wf _ _ _ L) as Lw. pose proof (lay_offset _ _ _ L) as Lo.
  pose proof (lay_fits _ _ _ L) as Lf.
  rewrite El, csize_app, csize_cons in Lo.
  assert (buf j !! (Z.to_nat off + k)%nat = raw s !! k) as Hraw.
  { rewrite (lay_buf _ _ _ L). subst off.
    replace (Z.to_nat (offset j0 + csize l1) + k)%nat
      with (Z.to_nat (offset j0) + (length (raw_all l1) + k))%nat by (unfold csize in *; lia).
    assert (length (raw_all l) = length (raw_all l1) + (length (raw s) + length (raw_all l2)))%nat as El'.
    { rewrite El, raw_all_app, length_app. f_equal. unfold raw_all. cbn. by rewrite length_app. }
    unfold csize, slen in *. rewrite buf_write_lookup_in by lia.
    rewrite El, raw_all_app, lookup_app_r by lia.
    replace (_ + k - _)%nat with k by lia. unfold raw_all. cbn. by rewrite lookup_app_l. }
  pose proof resolve_jumps_perm as HP.
  assert (records (offset j0) l = records (offset j0) l1 ++ records off (s :: l2)) as Er
    by (by rewrite El, records_app).
  pose proof (records_bounds l1 (offset j0)) as Hb1.
  pose proof (records_bounds l2 (off + slen s)) as Hb2.
  destruct s as [i|c [t|]]; [| |by destruct (Hs c)].
  - rewrite patches_out; [done|apply resolve_in_buf|].
    rewrite HP, Er. cbn [records]. apply Forall_app.
    unfold slen in *. cbn [raw] in *.
    split; [apply (Forall_impl _ _ _ Hb1)|apply (Forall_impl _ _ _ Hb2)]; intros p Hp; lia.
  - cbn [sres]. rewrite encode_jins. cbn [raw] in *.
    assert (rec_of (off + slen (SJ c (Some t)) - 4) t ∈ jumps j) as Hin.
    { rewrite HP, Er. cbn [records]. apply elem_of_app. right. apply list_elem_of_here. }
    rewrite slen_jump in *. rewrite length_app, length_le in Hk.
    destruct (Nat.lt_ge_cases k (length (jop c))) as [Hk'|Hk'].
    + rewrite patches_out; [|apply resolve_in_buf|].
      * rewrite Hraw, !lookup_app_l by done. done.
      * rewrite HP, Er. cbn [records]. rewrite slen_jump. apply Forall_app. split.
        -- apply (Forall_impl _ _ _ Hb1). intros p Hp. lia.
        -- constructor; [rewrite loc_rec_of; lia|].
           apply (Forall_impl _ _ _ Hb2). intros p Hp. lia.
    + rewrite lookup_app_r by done.
      pose proof (patches_in j _ _ (k - length (jop c)) _ resolve_in_buf resolve_all_far Hin ltac:(lia)) as E.
      rewrite loc_rec_of in E.
      replace (Z.to_nat off + k)%nat
        with (Z.to_nat (off + (Z.of_nat (length (jop c)) + 4) - 4) + (k - length (jop c)))%nat by lia.
      rewrite E. f_equal. unfold rel_bytes. rewrite jump_target_rec, loc_rec_of.
      * change (u32 ?x) with (x mod 0x100 ^ Z.of_nat 4). rewrite le_mod. f_equal.
        replace (off + (Z.of_nat (length (jop c)) + 4) - 4 + 4)
          with (off + (Z.of_nat (length (jop c)) + 4)) by lia. done.
      * intros o ->. rewrite El in Lw. apply Forall_app in Lw as [_ Lw].
        apply Forall_cons in Lw as [Lw _]. cbn in Lw. lia.
Qed.

Lemma wf_sres l1 s l2 :
  l = l1 ++ s :: l2 -> let next := offset j0 + csize l1 + slen s in
  wf_xinsn (sres (rho j) next s).
Proof using W L T.
  intros El next. pose proof (csize_nonneg l1). pose proof (csize_nonneg l2).
  pose proof (slen_nonneg s). destruct W as [W0 W1 W2 W3].
  pose proof (lay_wf _ _ _ L) as Lw. pose proof (lay_offset _ _ _ L) as Lo.
  pose proof (lay_fits _ _ _ L) as Lf.
  rewrite El, csize_app, csize_cons in Lo. rewrite El in Lw.
  apply Forall_app in Lw as [_ Lw]. apply Forall_cons in Lw as [Lw _].
  assert (0 <= next <= jsize j0) by lia.
  destruct s as [i|c [t|]]; cbn [sres] in *; [done| |].
  - assert (0 <= tloc (rho j) next t <= jsize j0).
    { destruct t as [o|pc]; cbn in *; [lia|].
      destruct (rho j pc) eqn:E; cbn; [by eapply T|lia]. }
    destruct c; cbn; unfold is_s32; lia.
  - destruct c; cbn; unfold is_s32; lia.
Qed.

Lemma resolve_coded_from l1 l2 :
  l = l1 ++ l2 -> (forall c, SJ c None ∉ l) -> coded B (rho j) (offset j0 + csize l1) l2.
Proof using W L J0 T.
  revert l1. induction l2 as [|s l2 IH]; intros l1 El Hn; cbn [coded]; [done|].
  pose proof (csize_nonneg l1). pose proof (csize_nonneg l2). pose proof (slen_nonneg s).
  pose proof (jwf_offset _ W). pose proof (lay_offset _ _ _ L) as Lo.
  pose proof (lay_fits _ _ _ L) as Lf. rewrite El, csize_app, csize_cons in Lo.
  assert (forall c, s <> SJ c None) as Hs.
  { intros c ->. apply (Hn c). rewrite El. apply elem_of_app. right. apply list_elem_of_here. }
  split; [lia|]. split.
  { rewrite (length_patches j _ _ resolve_in_buf), resolve_length_buf. lia. }
  split; [by eapply wf_sres|]. split; [intros k Hk; by apply (resolved_bytes _ _ _ _ El)|].
  replace (offset j0 + csize l1 + slen s) with (offset j0 + csize (l1 ++ [s]))
    by (rewrite csize_app, csize_cons; change (csize []) with 0; lia).
  apply IH; [|done]. by rewrite <- app_assoc.
Qed.
Lemma resolve_coded : (forall c, SJ c None ∉ l) -> coded B (rho j) (offset j0) l.
Proof using W L J0 T.
  intros Hn. pose proof (resolve_coded_from [] l eq_refl Hn) as E. by rewrite Z.add_0_r in E.
Qed.
(** What was in the buffer before is still there. *)
Lemma resolve_before i : (i < Z.to_nat (offset j0))%nat -> B !! i = buf j0 !! i.
Proof using W L J0.
  intros Hi. destruct W as [W0 W1 W2 W3]. pose proof (lay_offset _ _ _ L). pose proof (lay_fits _ _ _ L).
  pose proof (csize_nonneg l). rewrite patches_out; [|apply resolve_in_buf|].
  - rewrite (lay_buf _ _ _ L). unfold csize in *. apply buf_write_lookup_out; lia.
  - rewrite resolve_jumps_perm. apply (Forall_impl _ _ _ (records_bounds l (offset j0))). intros p Hp. lia.
Qed.
Lemma resolve_length : length B = Z.to_nat (jsize j0).
Proof using W L J0. rewrite (length_patches j _ _ resolve_in_buf). apply resolve_length_buf. Qed.
End Resolve.

(** * Simulation *)

Section Sim.
Context (base : Z) (ext : Z -> xstate -> option xstate).
Context (E : Z -> xstate -> Prop).

Definition xsteps (B : list Z) : xstate -> xstate -> Prop :=
  rtc (fun x y => xstep base ext B x = Some y).

Definition sim (l : list sinsn) (off : Z) (P Q : xstate -> Prop) : Prop :=
  forall B r x, code_in B r off l -> is_Some (r TARGET_PC_EXIT) -> rip x = base + off -> P x ->
  exists y, xsteps B x y /\
    ((rip y = base + off + csize l /\ Q y) \/
     exists pc o, r pc = Some o /\ rip y = base + o /\ E pc y).

Lemma sim_nil off (P Q : xstate -> Prop) : (forall x, P x -> Q x) -> sim [] off P Q.
Proof.
  intros H B r x _ Hex Hr Hx. exists x. split; [apply rtc_refl|]. left.
  change (csize []) with 0. split; [lia|auto].
Qed.
Lemma sim_app l1 l2 off P Q R :
  sim l1 off P Q -> sim l2 (off + csize l1) Q R -> sim (l1 ++ l2) off P R.
Proof.
  intros H1 H2 B r x Hc Hex Hr Hx. apply code_in_app in Hc as [Hc1 Hc2].
  destruct (H1 B r x Hc1 Hex Hr Hx) as (y & S1 & [[Hy Qy]|Ey]); [|by eauto].
  destruct (H2 B r y Hc2 Hex ltac:(lia) Qy) as (z & S2 & Hz).
  exists z. split; [by etrans|]. rewrite csize_app.
  destruct Hz as [[Hz Rz]|Ez]; [left; split; [lia|done]|by right].
Qed.
Lemma sim_weaken l off (P P' Q Q' : xstate -> Prop) :
  sim l off P Q -> (forall x, P' x -> P x) -> (forall x, Q x -> Q' x) -> sim l off P' Q'.
Proof.
  intros H HP HQ B r x Hc Hex Hr Hx. destruct (H B r x Hc Hex Hr (HP _ Hx)) as (y & S & Hy).
  exists y. split; [done|]. destruct Hy as [[]|]; [left|right]; auto.
Qed.

(** One instruction decoded at [rip]. *)
Lemma xstep_code B r off s l x :
  code_in B r off (s :: l) -> rip x = base + off ->
  xstep base ext B x =
  (v ← exec (sres r (off + slen s) s) (base + (off + slen s)) x;
   match v with
   | Next x => Some (set_rip (base + (off + slen s)) x)
   | Goto a x => Some (set_rip a x)
   | Call a x => x ← ext a x; '(ret, x) ← pop x; Some (set_rip ret x)
   end).
Proof.
  intros (H0 & H1 & H2 & _) Hr. unfold xstep. rewrite Hr.
  replace (base + off - base) with off by lia.
  assert (0 < slen s).
  { destruct s as [i|c t]; [apply slen_insn_pos|rewrite slen_jump; lia]. }
  replace ((off <? 0) || (Z.of_nat (length B) <=? off)) with false by lia.
  rewrite H2. cbn [mbind option_bind].
  replace (base + off + _) with (base + (off + slen s)) by (rewrite !length_drop; lia). done.
Qed.

(** An instruction that falls through. *)
Lemma sim_insn i off (P Q : xstate -> Prop) :
  (forall x n, P x -> exists y, exec i n x = Some (Next y) /\ forall k, Q (set_rip k y)) ->
  sim [SI i] off P Q.
Proof.
  intros H B r x Hc Hex Hr Hx. pose proof (xstep_code _ _ _ _ _ _ Hc Hr) as E1.
  destruct (H x (base + (off + slen (SI i))) Hx) as (y & Ey & Qy). cbn [sres] in E1.
  rewrite Ey in E1. cbn in E1.
  eexists. split; [by eapply rtc_once|]. left. rewrite csize_cons. change (csize []) with 0.
  split; [cbn; lia|apply Qy].
Qed.

(** A conditional jump over [l]. *)
Lemma sim_jcc_over c l off (P P1 Q : xstate -> Prop) :
  sim l (off + 6) P1 Q ->
  (forall x, P x -> exists f, xflags x = Some f /\
     forall k, if exec_cond c f then Q (set_rip k x) else P1 (set_rip k x)) ->
  sim (SJ (Some c) (Some (TOff (off + 6 + csize l))) :: l) off P Q.
Proof.
  intros Hl H B r x Hc Hex Hr Hx. pose proof (xstep_code _ _ _ _ _ _ Hc Hr) as E1.
  destruct (H x Hx) as (f & Hf & Hk). cbn [sres jins exec tloc] in E1. rewrite Hf in E1.
  cbn [mbind option_bind] in E1.
  assert (slen (SJ (Some c) (Some (TOff (off + 6 + csize l)))) = 6) as Hs by (by rewrite slen_jump).
  rewrite Hs in *. rewrite csize_cons, Hs. destruct (exec_cond c f).
  - eexists. split; [by eapply rtc_once|]. left. split; [cbn; lia|apply Hk].
  - destruct Hc as (_ & _ & _ & Hc). rewrite Hs in Hc.
    destruct (Hl B r (set_rip (base + (off + 6)) x) Hc Hex eq_refl (Hk _)) as (y & S & Hy). exists y.
    split; [by eapply rtc_l|]. destruct Hy as [[Hy Qy]|Hy]; [left; split; [lia|done]|by right].
Qed.
(** A conditional jump from one piece of code, which does not end, to the next. *)
Lemma sim_jcc_else c l1 l2 off (P P1 P2 Q : xstate -> Prop) :
  sim l1 (off + 6) P1 (fun _ => False) -> sim l2 (off + 6 + csize l1) P2 Q ->
  (forall x, P x -> exists f, xflags x = Some f /\
     forall k, if exec_cond c f then P2 (set_rip k x) else P1 (set_rip k x)) ->
  sim (SJ (Some c) (Some (TOff (off + 6 + csize l1))) :: l1 ++ l2) off P Q.
Proof.
  intros Hl1 Hl2 H B r x Hc Hex Hr Hx. pose proof (xstep_code _ _ _ _ _ _ Hc Hr) as E1.
  destruct (H x Hx) as (f & Hf & Hk). cbn [sres jins exec tloc] in E1. rewrite Hf in E1.
  cbn [mbind option_bind] in E1.
  assert (slen (SJ (Some c) (Some (TOff (off + 6 + csize l1)))) = 6) as Hs by (by rewrite slen_jump).
  destruct Hc as (_ & _ & _ & Hc). rewrite Hs in *. apply code_in_app in Hc as [Hc1 Hc2].
  rewrite csize_cons, csize_app, Hs. destruct (exec_cond c f).
  - replace (base + (off + 6) + _) with (base + (off + 6 + csize l1)) in E1 by lia.
    destruct (Hl2 B r (set_rip (base + (off + 6 + csize l1)) x) Hc2 Hex eq_refl (Hk _)) as (y & S & Hy). exists y.
    split; [by eapply rtc_l|]. destruct Hy as [[Hy Qy]|Hy]; [left; split; [lia|done]|by right].
  - destruct (Hl1 B r (set_rip (base + (off + 6)) x) Hc1 Hex eq_refl (Hk _)) as (y & S & Hy). exists y.
    split; [by eapply rtc_l|]. destruct Hy as [[Hy []]|Hy]. by right.
Qed.
(** A jump to a guest address: to its code, or to the next instruction. *)
Lemma sim_jmp_pc pc off (P : xstate -> Prop) :
  (forall x k, P x -> P (set_rip k x)) -> (forall x, P x -> E pc x) ->
  sim [SJ None (Some (TPc pc))] off P P.
Proof.
  intros Hrip HE B r x Hc Hex Hr Hx. pose proof (xstep_code _ _ _ _ _ _ Hc Hr) as E1.
  cbn [sres jins exec tloc] in E1. cbn in E1.
  eexists. split; [by eapply rtc_once|]. cbn [rip set_rip].
  rewrite csize_cons. change (csize []) with 0.
  destruct (r pc) as [o|] eqn:Ep; cbn.
  - right. exists pc, o. repeat split; [done|lia|]. apply HE. by apply Hrip.
  - left. split; [lia|by apply Hrip].
Qed.
(** The jump to the epilogue is always resolved. *)
Lemma sim_exit off (P Q : xstate -> Prop) :
  (forall x k, P x -> E TARGET_PC_EXIT (set_rip k x)) ->
  sim [SJ None (Some (TPc TARGET_PC_EXIT))] off P Q.
Proof.
  intros HE B r x Hc [o Ho] Hr Hx. pose proof (xstep_code _ _ _ _ _ _ Hc Hr) as E1.
  cbn [sres jins exec tloc] in E1. rewrite Ho in E1. cbn in E1.
  eexists. split; [by eapply rtc_once|]. right. exists TARGET_PC_EXIT, o.
  split; [done|]. split; [cbn; lia|by apply HE].
Qed.
End Sim.

(** C37: [resolve_jumps] links the code of a chain: if the code appended since the jumps were
    cleared is a list of instructions, of which every jump has a record, then after resolution
    the machine decodes exactly this list, each jump to a place of the chain leading there, each
    jump to a guest address to the code of its block, and to the next instruction if there is no
    such code; the rest of the buffer is as before. *)
Theorem resolve_jumps_links st0 st l :
  jwf (js st0) -> lay (js st0) (js st) l -> jumps (js st0) = [] ->
  (forall pc o, rho (js st) pc = Some o -> 0 <= o <= jsize (js st0)) -> (forall c, SJ c None ∉ l) ->
  exists st', resolve_jumps st = Some (tt, st') /\
    code_in (buf (js st')) (rho (js st)) (offset (js st0)) l /\
    forall i, (i < Z.to_nat (offset (js st0)))%nat -> buf (js st') !! i = buf (js st0) !! i.
Proof.
  intros W L J0 T N. eexists. split; [reflexivity|]. split.
  - apply coded_code. by apply (resolve_coded (js st0) (js st) l).
  - intros i Hi. by apply (resolve_before (js st0) (js st) l).
Qed.

(** A jump to its own block, at offset 2 of the buffer. *)
Definition loop_start : jst :=
  mk_jst (mk_jit_state [] (replicate 64 0) 2 64 0 0 0 [mk_offset_map 0x1000 2] []) [] false [] [].
Definition loop_end : jst :=
  mk_jst (mk_jit_state [] (buf_write (replicate 64 0) 2 [0xe9; 0; 0; 0; 0]) 7 64 0 0 0
    [mk_offset_map 0x1000 2] [mk_jump 3 0x1000 0]) [] false [] [].
Lemma resolve_jumps_links_witness :
  exists st', resolve_jumps loop_end = Some (tt, st') /\
    decode (drop 2 (buf (js st'))) = Some (Jmp (-5), drop 7 (buf (js st'))).
Proof.
  destruct (resolve_jumps_links loop_start loop_end [SJ None (Some (TPc 0x1000))]) as (st' & E & Hc & _).
  - split; cbn; lia || reflexivity.
  - split; [reflexivity|cbn; lia|reflexivity| |reflexivity|].
    + exists [mk_jump 3 0x1000 0]. split; reflexivity.
    + by repeat constructor.
  - reflexivity.
  - intros pc o. unfold rho. cbn. repeat case_match; intros; simplify_eq; lia.
  - intros c Hc%list_elem_of_singleton. discriminate Hc.
  - exists st'. split; [exact E|]. destruct Hc as (_ & _ & Hd & _). exact Hd.
Defined.
