(* ===== verification/JitRel.v ===== *)
(** The invariant of the register allocator, and the relation between the state of the guest
    and the state of the host machine while the code of a block runs. *)

From S2P Require Import Prelude.
From S2P Require Import Opcode.
From S2P Require Import Machine.
From S2P Require Import MachineFacts.
From S2P Require Import JitEmit.
From S2P Require Import JitAlloc.
From S2P Require Import X86.
From S2P Require Import X86Proofs.
From S2P Require Import JitEmitProofs.

(** * The register map *)

Definition host_regs : list Z := [RAX; RBX; RDX; R8; R9; R10; R11; R13; R14; R15].

Record rmwf (rm : list host_reg) : Prop := {
  rm_regs : reg_idx <$> rm = host_regs;
  rm_range : forall h, h ∈ rm -> vm_reg_idx h = -1 \/ is_reg (vm_reg_idx h);
  rm_inj : forall h h', h ∈ rm -> h' ∈ rm -> vm_reg_idx h = vm_reg_idx h' ->
    is_reg (vm_reg_idx h) -> reg_idx h = reg_idx h';
  rm_clean : forall h, h ∈ rm -> vm_reg_idx h = -1 -> dirty h = false;
  rm_alive : forall h, h ∈ rm -> alive h = true -> is_reg (vm_reg_idx h) }.

Lemma host_regs_nodup : NoDup host_regs.
Proof. apply (bool_decide_unpack _). vm_compute. done. Qed.
Lemma host_reg_range rm h : reg_idx <$> rm = host_regs -> h ∈ rm -> reg_idx h ∈ host_regs.
Proof. intros <- Hh. by apply list_elem_of_fmap_2. Qed.
Lemma host_regs_xreg r : r ∈ host_regs -> is_xreg r /\ r <> RCX /\ r <> RDI /\ r <> RSP /\ r <> RBP /\ r <> -1.
Proof.
  unfold host_regs. rewrite !elem_of_cons, elem_of_nil. unfold is_xreg. intros H.
  destruct_or! H; subst r; cbn; try done; repeat split; lia || done.
Qed.

(** Replace the entry of one host register. *)
Definition upd (r : Z) (f : host_reg -> host_reg) (rm : list host_reg) : list host_reg :=
  (fun h => if reg_idx h =? r then f h else h) <$> rm.

Lemma upd_other r f rm : (forall h, h ∈ rm -> reg_idx h <> r) -> upd r f rm = rm.
Proof.
  intros H. unfold upd. rewrite <- (list_fmap_id rm) at 2. apply list_fmap_ext.
  intros i h Hi. specialize (H h (list_elem_of_lookup_2 _ _ _ Hi)).
  by replace (reg_idx h =? r) with false by lia.
Qed.
Lemma set_dirty_upd r d rm :
  NoDup (reg_idx <$> rm) -> set_dirty_in rm r d = upd r (set_dirty_flag d) rm.
Proof.
  induction rm as [|h rm IH]; [done|]. cbn. rewrite NoDup_cons. intros [Hn HN].
  destruct (Z.eqb_spec (reg_idx h) r) as [<-|?]; [|f_equal; by apply IH].
  f_equal. symmetry. apply upd_other. intros h' Hh' E. apply Hn. rewrite <- E.
  by apply list_elem_of_fmap_2.
Qed.
Lemma alter_upd i h f rm :
  NoDup (reg_idx <$> rm) -> rm !! i = Some h -> alter f i rm = upd (reg_idx h) f rm.
Proof.
  revert i. induction rm as [|h' rm IH]; intros i HN Hi; [done|].
  cbn in HN. apply NoDup_cons in HN as [Hn HN]. destruct i as [|i]; cbn in *.
  - simplify_eq. rewrite Z.eqb_refl. f_equal. symmetry. apply upd_other. intros h' Hh' E.
    apply Hn. rewrite <- E. by apply list_elem_of_fmap_2.
  - assert (reg_idx h' <> reg_idx h).
    { intros E. apply Hn. rewrite E. apply list_elem_of_fmap_2. by eapply list_elem_of_lookup_2. }
    replace (reg_idx h' =? reg_idx h) with false by lia. f_equal. by apply IH.
Qed.
Lemma elem_of_upd r f rm h :
  h ∈ upd r f rm <-> exists h0, h0 ∈ rm /\ h = if reg_idx h0 =? r then f h0 else h0.
Proof.
  unfold upd. rewrite list_elem_of_fmap. split; intros (h0 & ? & ?); exists h0; auto.
Qed.

Section Rmwf.
Context (rm : list host_reg) (H : rmwf rm).

Lemma rm_nodup : NoDup (reg_idx <$> rm).
Proof using H. rewrite (rm_regs _ H). apply host_regs_nodup. Qed.
Lemma rm_unique h h' : h ∈ rm -> h' ∈ rm -> reg_idx h = reg_idx h' -> h = h'.
Proof using H.
  intros [i Hi]%list_elem_of_lookup [k Hk]%list_elem_of_lookup E.
  assert (i = k) as ->; [|by simplify_eq].
  pose proof rm_nodup as HN. apply (NoDup_lookup _ _ _ (reg_idx h) HN); rewrite list_lookup_fmap.
  - by rewrite Hi.
  - by rewrite Hk, E.
Qed.
Lemma rm_length : length rm = 10%nat.
Proof using H. rewrite <- (length_fmap reg_idx), (rm_regs _ H). done. Qed.

(** Changing flags of an entry. *)
Lemma rmwf_flags r f :
  (forall h, reg_idx (f h) = reg_idx h /\ vm_reg_idx (f h) = vm_reg_idx h) ->
  (forall h, h ∈ rm -> reg_idx h = r ->
     (vm_reg_idx h = -1 -> dirty (f h) = false) /\ (alive (f h) = true -> is_reg (vm_reg_idx h))) ->
  rmwf (upd r f rm).
Proof using H.
  intros Hf Hd. destruct H as [H1 H2 H3 H4 H5]. split.
  - rewrite <- H1. unfold upd. rewrite <- list_fmap_compose. apply list_fmap_ext. intros i h _. cbn.
    destruct (reg_idx h =? r); [apply Hf|done].
  - intros h (h0 & Hh & ->)%elem_of_upd. specialize (H2 h0 Hh).
    destruct (reg_idx h0 =? r); [|done]. by rewrite (proj2 (Hf h0)).
  - intros h h' (h0 & Hh & ->)%elem_of_upd (h0' & Hh' & ->)%elem_of_upd.
    specialize (H3 h0 h0' Hh Hh').
    destruct (reg_idx h0 =? r), (reg_idx h0' =? r);
      rewrite ?(proj1 (Hf h0)), ?(proj2 (Hf h0)), ?(proj1 (Hf h0')), ?(proj2 (Hf h0')); done.
  - intros h (h0 & Hh & ->)%elem_of_upd. destruct (Z.eqb_spec (reg_idx h0) r) as [E|E].
    + rewrite (proj2 (Hf h0)). by apply Hd.
    + auto.
  - intros h (h0 & Hh & ->)%elem_of_upd. destruct (Z.eqb_spec (reg_idx h0) r) as [E|E].
    + rewrite (proj2 (Hf h0)). by apply Hd.
    + auto.
Qed.
Lemma rmwf_dirty h r d :
  h ∈ rm -> reg_idx h = r -> is_reg (vm_reg_idx h) -> rmwf (upd r (set_dirty_flag d) rm).
Proof using H.
  intros Hh <- Hv. apply rmwf_flags; [done|]. intros h' Hh' E.
  rewrite (rm_unique h' h Hh' Hh E). split; [unfold is_reg in Hv; lia|done].
Qed.
Lemma rmwf_undirty r : rmwf (upd r (set_dirty_flag false) rm).
Proof using H.
  apply rmwf_flags; [done|]. intros h Hh _. split; [done|]. cbn. by apply (rm_alive _ H).
Qed.
(** Giving an entry to a guest register that has none. *)
Lemma rmwf_take h v :
  h ∈ rm -> is_reg v -> (forall h', h' ∈ rm -> vm_reg_idx h' <> v) ->
  rmwf (upd (reg_idx h) (fun _ => mk_host_reg (reg_idx h) v false true) rm).
Proof using H.
  intros Hh Hv Hn. destruct H as [H1 H2 H3 H4 H5]. split.
  - rewrite <- H1. unfold upd. rewrite <- list_fmap_compose. apply list_fmap_ext. intros i h' _. cbn.
    destruct (Z.eqb_spec (reg_idx h') (reg_idx h)); [done|done].
  - intros h' (h0 & Hh0 & ->)%elem_of_upd. destruct (reg_idx h0 =? reg_idx h); [by right|auto].
  - intros h1 h2 (h1' & Hh1 & ->)%elem_of_upd (h2' & Hh2 & ->)%elem_of_upd.
    destruct (Z.eqb_spec (reg_idx h1') (reg_idx h)), (Z.eqb_spec (reg_idx h2') (reg_idx h));
      cbn; [done|..|by apply H3].
    + intros E _. by destruct (Hn h2' Hh2).
    + intros E _. by destruct (Hn h1' Hh1).
  - intros h' (h0 & Hh0 & ->)%elem_of_upd. destruct (reg_idx h0 =? reg_idx h); [done|auto].
  - intros h' (h0 & Hh0 & ->)%elem_of_upd. destruct (reg_idx h0 =? reg_idx h); [done|auto].
Qed.
End Rmwf.

Lemma base_rdi : is_base RDI.
Proof. split; [split; done|done]. Qed.
Lemma base_rcx : is_base RCX.
Proof. split; [split; done|done]. Qed.

(** * Guest and host *)

(** Where the emulator state and guest RAM are in host memory. *)
Record host_layout := mk_host_layout { rv_ptr : Z; ram_ptr : Z; ram_size : Z }.
Record layout_ok (y : host_layout) : Prop := {
  ly_rv : 0 <= rv_ptr y /\ rv_ptr y + offsetof_PC + 4 <= 0x4000000000000000;
  ly_ram : 0 <= ram_ptr y /\ ram_ptr y + 0x100000000 <= 0x4000000000000000;
  ly_size : 0 <= ram_size y <= 0x100000000;
  ly_disjoint : rv_ptr y + offsetof_PC + 4 <= ram_ptr y \/ ram_ptr y + ram_size y <= rv_ptr y }.

(** The part of the host state that the code of a block leaves alone. *)
Record host_frame := mk_host_frame { fr_sp : Z; fr_bp : Z; fr_mem : gmap Z Z }.

Section Rel.
Context (y : host_layout) (Y : layout_ok y) (fr : host_frame).

Definition xaddr (v : Z) : Z := rv_ptr y + (offsetof_X + 4 * v).
Definition in_rv (a : Z) : Prop := rv_ptr y + offsetof_X <= a < rv_ptr y + offsetof_PC + 4.
Definition in_guest_ram (a : Z) : Prop := ram_ptr y <= a < ram_ptr y + ram_size y.

(** Guest registers outside of [ex] are in the host register they are mapped to, and in their
    place in memory unless that register is dirty; RAM, stack and everything else agree. *)
Record relx (ex : list Z) (rm : list host_reg) (s : riscv) (x : xstate) : Prop := {
  rx_len : length (xregs x) = 16%nat;
  rx_rdi : xreg x RDI = rv_ptr y;
  rx_sp : xreg x RSP = fr_sp fr;
  rx_bp : xreg x RBP = fr_bp fr;
  rx_slots : forall h, h ∈ rm -> is_reg (vm_reg_idx h) -> vm_reg_idx h ∉ ex ->
    xreg x (reg_idx h) = reg s (vm_reg_idx h);
  rx_mem : forall v, is_reg v -> v ∉ ex ->
    v = 0 \/ (forall h, h ∈ rm -> vm_reg_idx h = v -> dirty h = false) ->
    hload 4 (xmem x) (xaddr v) = Some (reg s v);
  rx_mapped : forall a, in_rv a -> is_Some (xmem x !! a);
  rx_ram : forall a, 0 <= a < ram_size y -> xmem x !! (ram_ptr y + a) = Some (byte_at (mem s) a);
  rx_frame : forall a, ~ in_rv a -> ~ in_guest_ram a -> xmem x !! a = fr_mem fr !! a }.
Definition rel := relx [].

Lemma relx_weaken ex ex' rm s x :
  relx ex rm s x -> (forall v, v ∉ ex' -> v ∉ ex) -> relx ex' rm s x.
Proof. intros [] Hs. split; auto. Qed.
Lemma relx_rip ex rm s x k : relx ex rm s x -> relx ex rm s (set_rip k x).
Proof. intros []. by split. Qed.
Lemma relx_flags ex rm s x f : relx ex rm s x -> relx ex rm s (set_flags f x).
Proof. intros []. by split. Qed.

Lemma xreg_set_eq r v x : length (xregs x) = 16%nat -> is_xreg r -> xreg (set_xreg r v x) r = v.
Proof using Type.
  intros HL Hr. unfold xreg, set_xreg. cbn. rewrite nth_lookup, list_lookup_insert_eq; [done|].
  unfold is_xreg in Hr. lia.
Qed.
Lemma xreg_set_ne r r' v x : is_xreg r -> is_xreg r' -> r <> r' -> xreg (set_xreg r v x) r' = xreg x r'.
Proof using Type.
  intros Hr Hr' Hn. unfold xreg, set_xreg. cbn. rewrite !nth_lookup, list_lookup_insert_ne; [done|].
  unfold is_xreg in *. lia.
Qed.

(** The temporary register is in no entry. *)
Lemma relx_temp ex rm s x v : rmwf rm -> relx ex rm s x -> relx ex rm s (set_xreg RCX v x).
Proof using Type.
  intros Hrm []. assert (is_xreg RCX) by done.
  split; cbn [xmem set_xreg]; auto; try (rewrite xreg_set_ne by done; done).
  - cbn. by rewrite length_insert.
  - intros h Hh Hv Hx.
    destruct (host_regs_xreg (reg_idx h)) as (? & ? & _); [eapply host_reg_range; [apply Hrm|done]|].
    rewrite xreg_set_ne by done. auto.
Qed.
(** Writing the host register of an excluded guest register. *)
Lemma relx_write ex rm s x h w d :
  rmwf rm -> relx ex rm s x -> h ∈ rm -> is_reg (vm_reg_idx h) -> vm_reg_idx h ∈ ex ->
  relx ex (upd (reg_idx h) (set_dirty_flag d) rm) s (set_xreg (reg_idx h) w x).
Proof using Type.
  intros Hrm [] Hh Hv Hex.
  destruct (host_regs_xreg (reg_idx h)) as (Hx & ? & ? & ? & ? & _);
    [eapply host_reg_range; [apply Hrm|done]|].
  split; cbn [xmem set_xreg]; auto; try (rewrite xreg_set_ne by done; done).
  - cbn. by rewrite length_insert.
  - intros h' (h0 & Hh0 & ->)%elem_of_upd.
    destruct (Z.eqb_spec (reg_idx h0) (reg_idx h)) as [E|E].
    + rewrite (rm_unique _ Hrm h0 h Hh0 Hh E). intros _ []. done.
    + intros ? ?. rewrite xreg_set_ne; auto.
      destruct (host_regs_xreg (reg_idx h0)) as (? & _); [eapply host_reg_range; [apply Hrm|done]|done].
  - intros v Hv' Hx' HD. apply rx_mem0; [done..|]. destruct HD as [->|HD]; [by left|].
    right. intros h0 Hh0 E. destruct (decide (reg_idx h0 = reg_idx h)) as [E'|E'].
    + rewrite (rm_unique _ Hrm h0 h Hh0 Hh E') in E. subst v. done.
    + apply (HD h0); [|done]. apply elem_of_upd. exists h0. split; [done|].
      by replace (reg_idx h0 =? reg_idx h) with false by lia.
Qed.
(** The new value of a guest register is in its host register. *)
Lemma relx_final v rm s x h w :
  rmwf rm -> relx [v] rm s x -> wf_regs s -> h ∈ rm -> vm_reg_idx h = v -> dirty h = true ->
  is_reg v -> v <> 0 -> xreg x (reg_idx h) = w -> rel rm (set_reg v w s) x.
Proof using Type.
  intros Hrm [] [HL _] Hh Ev Hd Hv Hv0 Hw.
  assert (forall v', is_reg v' -> v' <> v -> reg (set_reg v w s) v' = reg s v') as Hne.
  { intros v' ? ?. apply reg_set_reg_ne. unfold is_reg in *. lia. }
  assert (forall v', v' <> v -> v' ∉ [v]) as Hni by (intros; by rewrite list_elem_of_singleton).
  split; auto.
  - intros h' Hh' Hv' _. destruct (decide (vm_reg_idx h' = v)) as [E|E].
    + rewrite E, reg_set_reg_eq by done. rewrite <- Hw. f_equal.
      apply (rm_inj _ Hrm); auto; congruence.
    + rewrite Hne by done. auto.
  - intros v' Hv' _ HD. destruct (decide (v' = v)) as [->|E].
    + destruct HD as [?|HD]; [done|]. specialize (HD h Hh Ev). congruence.
    + rewrite Hne by done. auto.
Qed.
End Rel.
