(* ===== verification/JitAllocProofs.v ===== *)
(** The register allocator: it always finds a host register, keeps its invariant, and the code
    it emits keeps every guest register where the map says. *)

From S2P Require Import Prelude.
From S2P Require Import Opcode.
From S2P Require Import Machine.
From S2P Require Import MachineFacts.
From S2P Require Import JitEmit.
From S2P Require Import JitAlloc.
From S2P Require Import X86.
From S2P Require Import X86Proofs.
From S2P Require Import JitEmitProofs.
From S2P Require Import JitCode.
From S2P Require Import JitRel.

(** * Choosing an entry *)

Lemma find_slot_Some P l : forall i k,
  find_slot P i l = Some k ->
  exists h, l !! Z.to_nat (k - i) = Some h /\ P h = true /\ i <= k.
Proof.
  induction l as [|h l IH]; intros i k E; cbn in E; [done|]. destruct (P h) eqn:Ep.
  - simplify_eq. exists h. rewrite Z.sub_diag. split; [done|]. split; [done|lia].
  - destruct (IH _ _ E) as (h' & Hl & Hp & Hi). exists h'. split; [|split; [done|lia]].
    replace (Z.to_nat (k - i)) with (S (Z.to_nat (k - (i + 1)))) by lia. done.
Qed.
Lemma find_slot_None P l : forall i, find_slot P i l = None -> forall h, h ∈ l -> P h = false.
Proof.
  induction l as [|h l IH]; intros i E h' Hh'; [by apply elem_of_nil in Hh'|].
  cbn in E. destruct (P h) eqn:Ep; [done|].
  apply elem_of_cons in Hh' as [->|Hh']; [done|by eapply IH].
Qed.
Lemma find_candidate_Some P l q k :
  find_candidate P l q = Some k -> exists h, l !! Z.to_nat k = Some h /\ P h = true /\ 0 <= k.
Proof.
  induction q as [|c q IH]; cbn; [done|]. destruct (find_slot _ 0 l) as [i|] eqn:Ei; [|done].
  intros. simplify_eq. destruct (find_slot_Some _ _ _ _ Ei) as (h & Hl & Hp & Hi).
  rewrite Z.sub_0_r in Hl. apply andb_prop in Hp as [Hp _]. by exists h.
Qed.
Lemma find_candidate_None P l q :
  find_candidate P l q = None -> forall h, h ∈ l -> P h = true -> vm_reg_idx h ∉ q.
Proof.
  induction q as [|c q IH]; cbn; [intros; by apply not_elem_of_nil|].
  destruct (find_slot _ 0 l) as [i|] eqn:Ei; [done|]. intros E h Hh Hp.
  apply not_elem_of_cons. split; [|by apply IH].
  pose proof (find_slot_None _ _ _ Ei h Hh) as Hf. cbn in Hf. rewrite Hp in Hf. cbn in Hf. lia.
Qed.

(** Every guest register is a candidate. *)
Definition queue_ok (st : jst) : Prop := forall v, is_reg v -> v ∈ candidate_queue st.

Lemma pick_total P st h0 :
  rmwf (register_map st) -> queue_ok st -> h0 ∈ register_map st -> P h0 = true ->
  exists i h, pick P st = Some (i, st) /\ register_map st !! Z.to_nat i = Some h /\
    P h = true /\ 0 <= i.
Proof.
  intros Hrm Hq Hh Hp. unfold pick.
  destruct (find_slot _ 0 (register_map st)) as [i|] eqn:Ei.
  { destruct (find_slot_Some _ _ _ _ Ei) as (h & Hl & Hp' & Hi). rewrite Z.sub_0_r in Hl.
    apply andb_prop in Hp' as [Hp' _]. exists i, h. auto. }
  destruct (find_candidate P (register_map st) (candidate_queue st)) as [i|] eqn:Ec.
  { destruct (find_candidate_Some _ _ _ _ Ec) as (h & Hl & Hp' & Hi). exists i, h. auto. }
  exfalso. pose proof (find_slot_None _ _ _ Ei h0 Hh) as Hf. cbn in Hf. rewrite Hp in Hf. cbn in Hf.
  apply negb_false_iff in Hf.
  apply (find_candidate_None _ _ _ Ec h0 Hh Hp), Hq, (rm_alive _ Hrm h0 Hh Hf).
Qed.

Lemma mapped_Some vm rm r :
  mapped vm rm = Some r -> exists h, h ∈ rm /\ reg_idx h = r /\ vm_reg_idx h = vm.
Proof.
  unfold mapped. destruct (find_slot _ 0 rm) as [i|] eqn:Ei; [|done]. cbn. intros. simplify_eq.
  destruct (find_slot_Some _ _ _ _ Ei) as (h & Hl & Hp & Hi). rewrite Z.sub_0_r in Hl.
  exists h. split; [by eapply list_elem_of_lookup_2|]. rewrite nth_lookup, Hl. cbn.
  split; [done|]. by apply Z.eqb_eq.
Qed.
Lemma mapped_None vm rm : mapped vm rm = None -> forall h, h ∈ rm -> vm_reg_idx h <> vm.
Proof.
  unfold mapped. destruct (find_slot _ 0 rm) as [i|] eqn:Ei; [done|]. intros _ h Hh.
  pose proof (find_slot_None _ _ _ Ei h Hh) as Hf. cbn in Hf. by apply Z.eqb_neq.
Qed.

Lemma origin_of_from vm rm : forall o,
  foldl (fun o h => if vm_reg_idx h =? vm then reg_idx h else o) o rm = o /\
    (forall h, h ∈ rm -> vm_reg_idx h <> vm) \/
  exists h, h ∈ rm /\ vm_reg_idx h = vm /\
    foldl (fun o h => if vm_reg_idx h =? vm then reg_idx h else o) o rm = reg_idx h.
Proof.
  induction rm as [|h rm IH]; intros o; cbn.
  { left. split; [done|]. intros h Hh. by apply elem_of_nil in Hh. }
  destruct (IH (if vm_reg_idx h =? vm then reg_idx h else o)) as [[E Hn]|(h' & Hh & Hv & E)].
  - destruct (Z.eqb_spec (vm_reg_idx h) vm) as [Ev|Ev].
    + right. exists h. split; [apply list_elem_of_here|]. by rewrite E.
    + left. split; [done|]. intros h' [->|Hh']%elem_of_cons; auto.
  - right. exists h'. split; [by apply list_elem_of_further|]. auto.
Qed.
Lemma origin_mapped vm rm r :
  rmwf rm -> is_reg vm -> mapped vm rm = Some r -> origin_of vm rm = r.
Proof.
  intros Hrm Hv (h & Hh & <- & Ev)%mapped_Some. unfold origin_of.
  destruct (origin_of_from vm rm (-1)) as [[_ Hn]|(h' & Hh' & Ev' & ->)]; [by destruct (Hn h)|].
  apply (rm_inj _ Hrm); auto; congruence.
Qed.
Lemma origin_unmapped vm rm : mapped vm rm = None -> origin_of vm rm = -1.
Proof.
  intros Hn. pose proof (mapped_None _ _ Hn). unfold origin_of.
  destruct (origin_of_from vm rm (-1)) as [[E _]|(h & Hh & Ev & _)]; [done|]. by destruct (H h Hh).
Qed.

(** * Generators as simulations *)

(** A generator that ends, with a property of its result. *)
Definition runs {A} (st : jst) (m : jitM A) (K : A -> jst -> Prop) : Prop :=
  exists a st', m st = Some (a, st') /\ K a st'.
Lemma runs_bind {A B} st (m : jitM A) (f : A -> jitM B) K :
  runs st m (fun a st1 => runs st1 (f a) K) -> runs st (m ≫= f) K.
Proof.
  intros (a & st1 & E1 & b & st2 & E2 & HK). exists b, st2. split; [|done].
  unfold mbind, jitM_bind. by rewrite E1.
Qed.
Lemma runs_ret {A} st (a : A) (K : A -> jst -> Prop) : K a st -> runs st (mret a) K.
Proof. intros. by exists a, st. Qed.
Lemma runs_jget {A} st (f : jst -> A) (K : A -> jst -> Prop) : K (f st) st -> runs st (jget f) K.
Proof. intros. by exists (f st), st. Qed.
Lemma runs_assert st b (K : unit -> jst -> Prop) : b = true -> K tt st -> runs st (jassert b) K.
Proof. intros -> ?. by exists tt, st. Qed.
Lemma runs_weaken {A} st (m : jitM A) (K K' : A -> jst -> Prop) :
  runs st m K -> (forall a st', K a st' -> K' a st') -> runs st m K'.
Proof. intros (a & st' & E & H) HK. exists a, st'. auto. Qed.

Section Gen.
Context (base : Z) (ext : Z -> xstate -> option xstate) (E : Z -> xstate -> Prop).

(** The code between two states of the generator takes the machine from [P] to [Q]. *)
Definition gen (st st' : jst) (P Q : xstate -> Prop) : Prop :=
  should_flush st' = false ->
  should_flush st = false /\
  exists l, lay (js st) (js st') l /\ (forall c, SJ c None ∉ l) /\
    sim base ext E l (offset (js st)) P Q.
(** An operation that records no jump. *)
Record op (st st' : jst) (rm' : list host_reg) (P Q : xstate -> Prop) : Prop := {
  op_jwf : jwf (js st');
  op_same : same_rest st st';
  op_jumps : jumps (js st') = jumps (js st);
  op_rm : register_map st' = rm';
  op_gen : gen st st' P Q }.

Lemma gen_trans st1 st2 st3 P Q R :
  jwf (js st1) -> gen st1 st2 P Q -> gen st2 st3 Q R -> gen st1 st3 P R.
Proof.
  intros W H1 H2 F3. destruct (H2 F3) as [F2 (l2 & L2 & N2 & S2)].
  destruct (H1 F2) as [F1 (l1 & L1 & N1 & S1)]. split; [done|].
  exists (l1 ++ l2). split; [by eapply lay_app|]. split.
  - intros c [Hc|Hc]%elem_of_app; [by eapply N1|by eapply N2].
  - eapply sim_app; [done|]. rewrite (lay_offset _ _ _ L1) in S2. done.
Qed.
Lemma gen_weaken st st' (P P' Q Q' : xstate -> Prop) :
  gen st st' P Q -> (forall x, P' x -> P x) -> (forall x, Q x -> Q' x) -> gen st st' P' Q'.
Proof.
  intros H HP HQ F. destruct (H F) as [F0 (l & L & N & S)]. split; [done|]. exists l.
  split; [done|]. split; [done|]. by eapply sim_weaken.
Qed.
Lemma op_trans st1 st2 st3 rm2 rm3 P Q R :
  jwf (js st1) -> op st1 st2 rm2 P Q -> op st2 st3 rm3 Q R -> op st1 st3 rm3 P R.
Proof.
  intros W [] []. split; [done|by etrans|congruence|done|by eapply gen_trans].
Qed.
Lemma op_weaken st st' rm' (P P' Q Q' : xstate -> Prop) :
  op st st' rm' P Q -> (forall x, P' x -> P x) -> (forall x, Q x -> Q' x) -> op st st' rm' P' Q'.
Proof. intros [] ? ?. split; [done..|by eapply gen_weaken]. Qed.

(** Nothing is emitted. *)
Lemma gen_nop st st' (P Q : xstate -> Prop) :
  jwf (js st) -> js st' = js st -> should_flush st' = should_flush st ->
  (forall x, P x -> Q x) -> gen st st' P Q.
Proof.
  intros W Ej Ef H F. split; [by rewrite <- Ef|]. exists []. rewrite Ej.
  split; [by apply lay_nil|]. split; [intros c; apply not_elem_of_nil|by apply sim_nil].
Qed.
Lemma op_refl st (P Q : xstate -> Prop) :
  jwf (js st) -> (forall x, P x -> Q x) -> op st st (register_map st) P Q.
Proof. intros. split; [done..|by apply gen_nop]. Qed.
Lemma op_map st rm' (P Q : xstate -> Prop) :
  jwf (js st) -> (forall x, P x -> Q x) -> op st (with_register_map rm' st) rm' P Q.
Proof. intros. split; [done|by split|done|done|by apply gen_nop]. Qed.

(** One instruction is emitted. *)
Lemma runs_emits st m i rm' (P Q : xstate -> Prop) :
  emits st m (encode i) rm' -> wf_xinsn i ->
  (forall x n, P x -> exists z, exec i n x = Some (Next z) /\ forall k, Q (set_rip k z)) ->
  runs st m (fun _ st' => op st st' rm' P Q).
Proof.
  intros (st' & Em & W & R & J & M & A & _) Hw H. exists tt, st'. split; [done|].
  split; [done..|]. intros F. destruct (A F) as [F0 B]. split; [done|].
  exists [SI i]. split; [by apply lay_emitted|]. split.
  - intros c. rewrite list_elem_of_singleton. done.
  - by apply sim_insn.
Qed.
(** Only the register map changes. *)
Lemma runs_update_slot st i f h :
  register_map st !! i = Some h -> NoDup (reg_idx <$> register_map st) -> (i < 10)%nat ->
  runs st (update_slot (Z.of_nat i) f)
    (fun _ st' => st' = with_register_map (upd (reg_idx h) f (register_map st)) st).
Proof.
  intros Hi HN Hlt. unfold update_slot. apply runs_bind, runs_assert.
  - unfold n_host_regs. lia.
  - eexists tt, _. split; [done|]. cbn. f_equal. rewrite Nat2Z.id. by apply alter_upd.
Qed.
End Gen.

(** * Spilling and loading *)

Section Alloc.
Context (base : Z) (ext : Z -> xstate -> option xstate) (E : Z -> xstate -> Prop).
Context (y : host_layout) (Y : layout_ok y) (fr : host_frame) (s : riscv) (HS : wf_regs s).
(** What is known of the temporary register and the flags: the allocator changes neither. *)
Context (K : Z -> option flags -> Prop).

(** These guest registers are in memory. *)
Definition memok (pend : list Z) (x : xstate) : Prop :=
  forall v, v ∈ pend -> hload 4 (xmem x) (xaddr y v) = Some (reg s v).
Definition st_rel (ex pend : list Z) (rm : list host_reg) (x : xstate) : Prop :=
  relx y fr ex rm s x /\ memok pend x /\ K (xreg x RCX) (xflags x).

Lemma reg_word v : reg s v mod 0x100 ^ Z.of_nat 4 = reg s v.
Proof using HS. apply u32_small. by apply reg_is_u32, HS. Qed.
Lemma xaddr_u64 v : is_reg v -> u64 (rv_ptr y + (offsetof_X + 4 * v)) = xaddr y v.
Proof using Y.
  intros Hv. unfold u64, xaddr. apply Z.mod_small. destruct Y as [[? ?] _ _ _].
  unfold is_reg, offsetof_PC, offsetof_X in *. lia.
Qed.
Lemma xaddr_in_rv v a : is_reg v -> xaddr y v <= a < xaddr y v + 4 -> in_rv y a.
Proof using Type.
  unfold xaddr, in_rv, is_reg, offsetof_PC, offsetof_X. lia.
Qed.

(** Memory after a word of the register file or the program counter has been written. *)
Lemma relx_store_rv ex rm x n a w m' :
  relx y fr ex rm s x -> rv_ptr y + offsetof_X <= a -> a + Z.of_nat n <= rv_ptr y + offsetof_PC + 4 ->
  hstore n (xmem x) a w = Some m' ->
  (forall v, is_reg v -> v ∉ ex ->
     v = 0 \/ (forall h, h ∈ rm -> vm_reg_idx h = v -> dirty h = false) ->
     hload 4 m' (xaddr y v) = Some (reg s v)) ->
  relx y fr ex rm s (set_xmem m' x).
Proof using Y.
  intros [] Ha Hb Hst Hm. destruct Y as [_ _ _ HD].
  split; cbn [xmem set_xmem]; auto.
  - intros b Hb'. by rewrite (hstore_dom _ _ _ _ _ b Hst); auto.
  - intros b Hb'. rewrite (hstore_lookup_other _ _ _ _ _ _ Hst); [auto|]. unfold offsetof_X in *. lia.
  - intros b H1 H2. rewrite (hstore_lookup_other _ _ _ _ _ _ Hst); [auto|]. unfold in_rv in H1. lia.
Qed.

(** An entry may be marked clean when memory holds its value. *)
Lemma relx_undirty ex rm x r :
  rmwf rm -> relx y fr ex rm s x ->
  (forall h, h ∈ rm -> reg_idx h = r -> is_reg (vm_reg_idx h) ->
     hload 4 (xmem x) (xaddr y (vm_reg_idx h)) = Some (reg s (vm_reg_idx h))) ->
  relx y fr ex (upd r (set_dirty_flag false) rm) s x.
Proof using Type.
  intros Hrm [] Hm. split; try done; [intros h'|intros v Hv Hx HD].
  - intros (h0 & Hh0 & ->)%elem_of_upd. destruct (reg_idx h0 =? r); cbn; auto.
  - destruct (decide (Exists (fun h => vm_reg_idx h = v /\ reg_idx h = r) rm)) as [He|Hn].
    { apply list.Exists_exists in He as (h & Hh & <- & Er). by apply Hm. }
    apply rx_mem; [done..|]. destruct HD as [?|HD]; [by left|right].
    intros h0 Hh0 Ev. apply (HD h0); [|done]. apply elem_of_upd. exists h0. split; [done|].
    destruct (Z.eqb_spec (reg_idx h0) r) as [Er|]; [|done].
    destruct Hn. apply list.Exists_exists. eauto.
Qed.

Lemma exec_save ex pend rm x n h :
  rmwf rm -> st_rel ex pend rm x -> h ∈ rm -> is_reg (vm_reg_idx h) -> vm_reg_idx h ∉ ex ->
  exists z, exec (Store X32 (reg_idx h) RDI (offsetof_X + 4 * vm_reg_idx h)) n x = Some (Next z) /\
    st_rel ex pend (upd (reg_idx h) (set_dirty_flag false) rm) z.
Proof using Y HS.
  intros Hrm (R & Hp & HK) Hh Hv Hex. pose proof R as R0. destruct R.
  cbn [exec size_bytes]. rewrite rx_rdi, xaddr_u64 by done.
  destruct (hstore_is_Some 4 (xmem x) (xaddr y (vm_reg_idx h)) (xreg x (reg_idx h))) as [m' Hm'].
  { intros b Hb. apply rx_mapped. by eapply xaddr_in_rv. }
  rewrite Hm'. cbn. eexists. split; [done|].
  assert (hload 4 m' (xaddr y (vm_reg_idx h)) = Some (reg s (vm_reg_idx h))) as Hsame.
  { rewrite (hload_hstore_same _ _ _ _ _ Hm'), rx_slots by done. by rewrite reg_word. }
  assert (forall v, is_reg v -> v <> vm_reg_idx h ->
    hload 4 m' (xaddr y v) = hload 4 (xmem x) (xaddr y v)) as Hother.
  { intros v Hv' Hn. apply (hload_hstore_other _ _ _ _ _ _ _ Hm'). unfold xaddr. lia. }
  split; [|split; [|done]].
  - apply relx_undirty; [done| |].
    + eapply (relx_store_rv ex rm x 4); [done| | |done|].
      * unfold xaddr, is_reg in *. lia.
      * unfold xaddr, is_reg, offsetof_PC in *. lia.
      * intros v Hv' Hx HD. destruct (decide (v = vm_reg_idx h)) as [->|]; [done|].
        rewrite Hother by done. auto.
    + intros h' Hh' Er _. by rewrite (rm_unique _ Hrm h' h Hh' Hh Er).
  - intros v Hv'. cbn [xmem set_xmem]. specialize (Hp v Hv').
    destruct (decide (v = vm_reg_idx h)) as [->|Hne]; [done|].
    rewrite <- Hp. apply (hload_hstore_other _ _ _ _ _ _ _ Hm'). unfold xaddr. lia.
Qed.

Lemma upd_undirty_clean rm h :
  rmwf rm -> h ∈ rm -> dirty h = false -> upd (reg_idx h) (set_dirty_flag false) rm = rm.
Proof using Type.
  intros Hrm Hh Hd. unfold upd. rewrite <- (list_fmap_id rm) at 2. apply list_fmap_ext.
  intros i h' Hi. apply list_elem_of_lookup_2 in Hi. destruct (Z.eqb_spec (reg_idx h') (reg_idx h)) as [Er|]; [|done].
  rewrite (rm_unique _ Hrm h' h Hi Hh Er). destruct h. cbn in *. by subst.
Qed.
Lemma upd_upd r f g rm :
  (forall h, reg_idx (f h) = reg_idx h) -> upd r g (upd r f rm) = upd r (fun h => g (f h)) rm.
Proof using Type.
  intros Hf. unfold upd. rewrite <- list_fmap_compose. apply list_fmap_ext. intros i h _. cbn.
  destruct (Z.eqb_spec (reg_idx h) r) as [<-|]; [by rewrite Hf, Z.eqb_refl|].
  by replace (reg_idx h =? r) with false by lia.
Qed.

(** [save_reg] *)
Lemma runs_save_reg st ex pend i h :
  jwf (js st) -> rmwf (register_map st) -> register_map st !! i = Some h -> vm_reg_idx h ∉ ex ->
  runs st (save_reg (Z.of_nat i)) (fun _ st' =>
    op base ext E st st' (upd (reg_idx h) (set_dirty_flag false) (register_map st))
      (st_rel ex pend (register_map st))
      (st_rel ex pend (upd (reg_idx h) (set_dirty_flag false) (register_map st)))).
Proof using Y HS.
  intros W Hrm Hi Hex. pose proof (list_elem_of_lookup_2 _ _ _ Hi) as Hh.
  assert ((i < 10)%nat) by (rewrite <- (rm_length _ Hrm); by eapply lookup_lt_Some).
  unfold save_reg. apply runs_bind, runs_assert; [unfold n_host_regs; lia|].
  apply runs_bind, runs_jget. cbn beta.
  replace (slot_of (Z.of_nat i) st) with h.
  2: { unfold slot_of. by rewrite Nat2Z.id, nth_lookup, Hi. }
  destruct (dirty h) eqn:Hd; cbn [negb].
  2: { apply runs_ret. rewrite upd_undirty_clean by done. by apply op_refl. }
  assert (is_reg (vm_reg_idx h)) as Hv.
  { destruct (rm_range _ Hrm h Hh) as [Ev|]; [|done].
    rewrite (rm_clean _ Hrm h Hh Ev) in Hd. done. }
  destruct (Z.eqb_spec (vm_reg_idx h) 0) as [E0|E0].
  { eapply runs_weaken; [apply runs_update_slot; [done|by apply rm_nodup|done]|]. cbn. intros _ st' ->.
    apply op_map; [done|]. intros x (Hx & Hp & HK). split; [|done]. apply relx_undirty; [done..|].
    intros h' Hh' Er _. rewrite (rm_unique _ Hrm h' h Hh' Hh Er).
    apply (rx_mem _ _ _ _ _ _ Hx); [done..|by left]. }
  destruct (host_regs_xreg (reg_idx h)) as (Hx & _); [eapply host_reg_range; [apply Hrm|done]|].
  apply runs_bind. eapply runs_weaken.
  - eapply (runs_emits base ext E st _ (Store X32 (reg_idx h) RDI (offsetof_X + 4 * vm_reg_idx h)) _
      (st_rel ex pend (register_map st))
      (st_rel ex pend (upd (reg_idx h) (set_dirty_flag false) (register_map st)))).
    + apply (emits_Store st (register_map st) W eq_refl S32); [done|done|done|].
      apply not_true_is_false. intros [h' [Hh' [E1 E2]%andb_prop]]%existsb_exists.
      apply list_elem_of_In in Hh'. apply Z.eqb_eq in E1, E2.
      rewrite (rm_unique _ Hrm h' h Hh' Hh E1) in E2. done.
    + split; [done|]. split; [apply base_rdi|]. unfold is_s32, is_reg, offsetof_X in *. lia.
    + intros x n Hx'. destruct (exec_save _ _ _ _ n h Hrm Hx' Hh Hv Hex) as (z & Ez & Hz).
      exists z. split; [exact Ez|]. intros k. destruct Hz as [Hz1 Hz2].
      split; [by apply (relx_rip y fr)|exact Hz2].
  - intros [] st1 O1. cbn beta.
    replace (offsetof_X + 4 * vm_reg_idx h =? 0) with false in O1
      by (unfold offsetof_X, is_reg in *; lia).
    rewrite set_dirty_upd in O1 by (by apply rm_nodup).
    assert (register_map st1 !! i = Some (set_dirty_flag false h)) as Hi1.
    { rewrite (op_rm _ _ _ _ _ _ _ _ O1). unfold upd. rewrite list_lookup_fmap, Hi. cbn.
      by rewrite Z.eqb_refl. }
    assert (rmwf (register_map st1)) as Hrm1 by (rewrite (op_rm _ _ _ _ _ _ _ _ O1); by apply rmwf_undirty).
    eapply runs_weaken; [apply runs_update_slot; [done|by apply rm_nodup|done]|]. cbn. intros _ st' ->.
    eapply op_trans; [done|exact O1|]. rewrite (op_rm _ _ _ _ _ _ _ _ O1), upd_upd by done.
    apply op_map; [apply O1|]. auto.
Qed.

(** The entry [h] now belongs to [vm]. *)
Definition taken (r vm : Z) : list host_reg -> list host_reg :=
  upd r (fun _ => mk_host_reg r vm false true).

Lemma relx_take ex rm x h vm :
  rmwf rm -> relx y fr ex rm s x -> h ∈ rm -> dirty h = false ->
  relx y fr (vm :: ex) (taken (reg_idx h) vm rm) s x.
Proof using Type.
  intros Hrm [] Hh Hd. split; try done; [intros h'|intros v Hv Hx HD].
  - intros (h0 & Hh0 & ->)%elem_of_upd. destruct (reg_idx h0 =? reg_idx h); cbn.
    + intros _ []%not_elem_of_cons. done.
    + intros ? [? ?]%not_elem_of_cons. auto.
  - apply not_elem_of_cons in Hx as [Hn Hx]. apply rx_mem; [done..|].
    destruct HD as [?|HD]; [by left|right]. intros h0 Hh0 Ev.
    destruct (decide (reg_idx h0 = reg_idx h)) as [Er|Er].
    + by rewrite (rm_unique _ Hrm h0 h Hh0 Hh Er).
    + apply (HD h0); [|done]. apply elem_of_upd. exists h0. split; [done|].
      by replace (reg_idx h0 =? reg_idx h) with false by lia.
Qed.

Lemma runs_take_slot st ex pend i h vm :
  jwf (js st) -> rmwf (register_map st) -> register_map st !! i = Some h -> vm_reg_idx h ∉ ex ->
  is_reg vm -> vm ∉ ex -> (forall h', h' ∈ register_map st -> vm_reg_idx h' <> vm) ->
  runs st (take_slot (Z.of_nat i) vm) (fun r st' => r = reg_idx h /\
    op base ext E st st' (taken (reg_idx h) vm (register_map st))
      (st_rel ex pend (register_map st))
      (st_rel (vm :: ex) (vm :: pend) (taken (reg_idx h) vm (register_map st)))).
Proof using Y HS.
  intros W Hrm Hi Hex Hv Hvx Hn. pose proof (list_elem_of_lookup_2 _ _ _ Hi) as Hh.
  assert ((i < 10)%nat) by (rewrite <- (rm_length _ Hrm); by eapply lookup_lt_Some).
  set (r := reg_idx h) in *. set (rm := register_map st) in *.
  unfold take_slot. apply runs_bind, runs_jget.
  replace (reg_idx (slot_of (Z.of_nat i) st)) with r.
  2: { unfold slot_of. fold rm. by rewrite Nat2Z.id, nth_lookup, Hi. }
  apply runs_bind. eapply runs_weaken; [by apply (runs_save_reg st ex pend i h)|].
  intros [] st1 O1. fold rm r in O1.
  set (h1 := set_dirty_flag false h).
  assert (upd r (set_dirty_flag false) rm !! i = Some h1) as Hi1.
  { unfold upd. rewrite list_lookup_fmap, Hi. cbn. by rewrite Z.eqb_refl. }
  assert (rmwf (upd r (set_dirty_flag false) rm)) as Hrm1 by (by apply rmwf_undirty).
  apply runs_bind. eapply runs_weaken.
  { apply (runs_update_slot st1 i _ h1); rewrite ?(op_rm _ _ _ _ _ _ _ _ O1); [done|by apply rm_nodup|done]. }
  cbn. intros _ st2 ->. apply runs_bind.
  assert (upd r (set_vm_idx (-1)) (upd r (set_dirty_flag false) rm) !! i = Some (set_vm_idx (-1) h1)) as Hi2.
  { unfold upd at 1. rewrite list_lookup_fmap, Hi1. cbn. by rewrite Z.eqb_refl. }
  eapply runs_weaken.
  { apply (runs_update_slot _ i _ (set_vm_idx (-1) h1)); cbn [register_map with_register_map];
      rewrite ?(op_rm _ _ _ _ _ _ _ _ O1); [done| |done].
    unfold upd at 1. rewrite <- list_fmap_compose. erewrite list_fmap_ext; [apply (rm_nodup _ Hrm1)|].
    intros k hk _. cbn. by destruct (reg_idx hk =? _). }
  cbn. intros _ st3 ->. apply runs_ret. split; [done|].
  rewrite (op_rm _ _ _ _ _ _ _ _ O1).
  assert (upd r (fun h0 => set_alive true (set_vm_idx vm h0))
    (upd r (set_vm_idx (-1)) (upd r (set_dirty_flag false) rm)) = taken r vm rm) as Et.
  { unfold taken. rewrite !upd_upd by done. unfold upd. apply list_fmap_ext. intros k hk _. cbn.
    destruct (Z.eqb_spec (reg_idx hk) r) as [<-|]; done. }
  match goal with |- op _ _ _ _ (with_register_map ?a _) _ _ _ => change a with
    (upd r (fun h0 => set_alive true (set_vm_idx vm h0))
      (upd r (set_vm_idx (-1)) (upd r (set_dirty_flag false) rm))) end.
  rewrite Et.
  eapply op_trans; [done|exact O1|]. apply (op_map base ext E st1 (taken r vm rm)); [apply O1|].
  intros x (Rx & Mx & Kx). split; [|split; [|done]].
  - assert (h1 ∈ upd r (set_dirty_flag false) rm) as Hh1 by (by eapply list_elem_of_lookup_2).
    pose proof (relx_take _ _ _ h1 vm Hrm1 Rx Hh1 eq_refl) as Ht.
    change (reg_idx h1) with r in Ht.
    replace (taken r vm (upd r (set_dirty_flag false) rm)) with (taken r vm rm) in Ht; [exact Ht|].
    unfold taken. by rewrite upd_upd.
  - intros v [->|Hv']%elem_of_cons; [|by apply Mx].
    apply (rx_mem _ _ _ _ _ _ Rx); [done..|]. right.
    intros h' (h0 & Hh0 & ->)%elem_of_upd. destruct (reg_idx h0 =? r); cbn; intros Ev; [done|].
    by destruct (Hn h0 Hh0).
Qed.

(** * Mapping and loading *)

Definition holds (rm : list host_reg) (r v : Z) : Prop :=
  exists h, h ∈ rm /\ reg_idx h = r /\ vm_reg_idx h = v.

Record good (st : jst) : Prop := {
  good_jwf : jwf (js st);
  good_rm : rmwf (register_map st);
  good_queue : queue_ok st }.

Lemma good_next st st' rm' : good st -> jwf (js st') -> same_rest st st' ->
  register_map st' = rm' -> rmwf rm' -> good st'.
Proof using Type.
  intros [] W R <- Hrm. split; [done..|]. unfold queue_ok. by rewrite (same_queue _ _ R).
Qed.

Lemma holds_inj rm r r' v : rmwf rm -> is_reg v -> holds rm r v -> holds rm r' v -> r = r'.
Proof using Type.
  intros Hrm Hv (h & Hh & <- & E1) (h' & Hh' & <- & E2). apply (rm_inj _ Hrm); auto; congruence.
Qed.
Lemma holds_fun rm r v v' : rmwf rm -> holds rm r v -> holds rm r v' -> v = v'.
Proof using Type.
  intros Hrm (h & Hh & <- & <-) (h' & Hh' & Er & <-). by rewrite (rm_unique _ Hrm h' h).
Qed.
Lemma holds_xreg rm r v :
  rmwf rm -> holds rm r v -> is_xreg r /\ r <> RCX /\ r <> RDI /\ r <> RSP /\ r <> RBP /\ r <> -1.
Proof using Type.
  intros Hrm (h & Hh & <- & _). apply host_regs_xreg. eapply host_reg_range; [apply Hrm|done].
Qed.
Lemma holds_upd rm r f r' v :
  (forall h, reg_idx (f h) = reg_idx h /\ vm_reg_idx (f h) = vm_reg_idx h) ->
  holds (upd r f rm) r' v <-> holds rm r' v.
Proof using Type.
  intros Hf. split.
  - intros (h & (h0 & Hh0 & ->)%elem_of_upd & <- & <-). exists h0. split; [done|].
    destruct (reg_idx h0 =? r); [|done]. destruct (Hf h0) as [-> ->]. done.
  - intros (h & Hh & <- & <-). exists (if reg_idx h =? r then f h else h).
    split; [apply elem_of_upd; eauto|]. destruct (reg_idx h =? r); [apply Hf|done].
Qed.
Lemma holds_dirty rm r d r' v : holds (upd r (set_dirty_flag d) rm) r' v <-> holds rm r' v.
Proof using Type. by apply holds_upd. Qed.
Lemma holds_taken rm r vm r' v :
  r' <> r -> holds rm r' v -> holds (taken r vm rm) r' v.
Proof using Type.
  intros Hn (h & Hh & <- & <-). exists h. split; [|done]. apply elem_of_upd. exists h. split; [done|].
  by replace (reg_idx h =? r) with false by lia.
Qed.
Lemma taken_holds rm h vm : h ∈ rm -> holds (taken (reg_idx h) vm rm) (reg_idx h) vm.
Proof using Type.
  intros Hh. exists (mk_host_reg (reg_idx h) vm false true). split; [|done]. apply elem_of_upd.
  exists h. split; [done|]. by rewrite Z.eqb_refl.
Qed.

Lemma holds_slot rm r v ex x :
  relx y fr ex rm s x -> holds rm r v -> is_reg v -> v ∉ ex -> xreg x r = reg s v.
Proof using Type. intros [] (h & Hh & <- & <-). auto. Qed.

(** The three mapping functions. *)
Lemma runs_map P st ex pend vm :
  good st -> is_reg vm -> vm ∉ ex -> (exists h0, h0 ∈ register_map st /\ P h0 = true) ->
  (forall h, h ∈ register_map st -> P h = true -> vm_reg_idx h ∉ ex) ->
  runs st (map_with (pick P) vm) (fun r st' =>
    good st' /\ holds (register_map st') r vm /\
    ((mapped vm (register_map st) = Some r /\ st' = st) \/
     (mapped vm (register_map st) = None /\
      (exists h, h ∈ register_map st /\ P h = true /\ reg_idx h = r) /\
      op base ext E st st' (taken r vm (register_map st)) (st_rel ex pend (register_map st))
        (st_rel (vm :: ex) (vm :: pend) (taken r vm (register_map st)))))).
Proof using Y HS.
  intros G Hv Hvx (h0 & Hh0 & Hp0) HP. pose proof G as [W Hrm Hq]. unfold map_with.
  apply runs_bind, runs_jget. destruct (mapped vm (register_map st)) as [r|] eqn:Em.
  { apply runs_ret. split; [done|]. split; [by apply mapped_Some|]. by left. }
  destruct (pick_total P st h0 Hrm Hq Hh0 Hp0) as (i & h & Ep & Hi & Hp & Hi0).
  apply runs_bind. exists i, st. split; [done|]. rewrite <- (Z2Nat.id i) by done.
  pose proof (mapped_None _ _ Em) as Hn. pose proof (list_elem_of_lookup_2 _ _ _ Hi) as Hh.
  eapply runs_weaken; [apply (runs_take_slot st ex pend (Z.to_nat i) h vm); auto|].
  intros r st' [-> O]. split; [|split].
  - eapply (good_next st); [done|apply O|apply O|apply O|]. by apply rmwf_take.
  - rewrite (op_rm _ _ _ _ _ _ _ _ O). by apply taken_holds.
  - right. split; [done|]. split; [by exists h|done].
Qed.

(** A loaded value is the one in memory. *)
Lemma relx_loaded ex ex' rm x r v d :
  rmwf rm -> relx y fr ex rm s x -> holds rm r v -> is_reg v ->
  (forall v', v' ∉ ex' -> v' <> v -> v' ∉ ex) ->
  hload 4 (xmem x) (xaddr y v) = Some (reg s v) ->
  relx y fr ex' (upd r (set_dirty_flag d) rm) s (set_xreg r (reg s v) x).
Proof using Type.
  intros Hrm R (h & Hh & <- & Ev) Hv Hex Hm.
  assert (relx y fr (v :: ex) (upd (reg_idx h) (set_dirty_flag d) rm) s
    (set_xreg (reg_idx h) (reg s v) x)) as R1.
  { apply (relx_write _ _ _ _ _ _ h); [done| |done|by rewrite Ev|rewrite Ev; apply list_elem_of_here].
    eapply relx_weaken; [done|]. intros w Hw. by apply not_elem_of_cons in Hw as []. }
  destruct (host_regs_xreg (reg_idx h)) as (Hx & _); [eapply host_reg_range; [apply Hrm|done]|].
  assert (forall v', v' ∉ ex' -> v' <> v -> v' ∉ v :: ex) as Hex'.
  { intros w ? ?. apply not_elem_of_cons. auto. }
  destruct R1. split; auto.
  - intros h' Hh' Hv' Hx'. destruct (decide (vm_reg_idx h' = v)) as [E1|]; [|by auto].
    assert (holds rm (reg_idx h') v) as H1 by (apply holds_dirty with (reg_idx h) d; by exists h').
    assert (holds rm (reg_idx h) v) as H2 by (by exists h).
    rewrite (holds_inj _ _ _ _ Hrm Hv H1 H2), xreg_set_eq, E1 by (done || apply R). done.
  - intros v' Hv' Hx' HD. destruct (decide (v' = v)) as [->|]; [done|]. by auto.
Qed.

Lemma maps_x0_holds rm r v :
  rmwf rm -> holds rm r v -> maps_x0 rm r = (v =? 0).
Proof using Type.
  intros Hrm (h & Hh & <- & <-). unfold maps_x0. destruct (Z.eqb_spec (vm_reg_idx h) 0) as [E0|E0].
  - apply existsb_exists. exists h. split; [by apply list_elem_of_In|]. by rewrite Z.eqb_refl, E0.
  - apply not_true_is_false. intros [h' [Hh' [E1 E2]%andb_prop]]%existsb_exists.
    apply list_elem_of_In in Hh'. apply Z.eqb_eq in E1, E2.
    rewrite (rm_unique _ Hrm h' h Hh' Hh E1) in E2. done.
Qed.
Lemma st_rel_rip ex pend rm x k : st_rel ex pend rm x -> st_rel ex pend rm (set_rip k x).
Proof using Type. intros (R & ?). split; [by apply relx_rip|done]. Qed.

Lemma exec_load ex ex' pend rm x n r v d :
  rmwf rm -> st_rel ex pend rm x -> holds rm r v -> is_reg v -> v ∈ pend ->
  (forall v', v' ∉ ex' -> v' <> v -> v' ∉ ex) ->
  exists z, exec (Load X32 false r RDI (offsetof_X + 4 * v)) n x = Some (Next z) /\
    z = set_xreg r (reg s v) x /\ st_rel ex' pend (upd r (set_dirty_flag d) rm) z.
Proof using Y.
  intros Hrm (R & Hp & HK) Hh Hv Hpv Hex. pose proof (Hp v Hpv) as Hm.
  destruct (holds_xreg _ _ _ Hrm Hh) as (Hx & Hc & _).
  cbn [exec size_bytes]. rewrite (rx_rdi _ _ _ _ _ _ R), xaddr_u64, Hm by done. cbn.
  eexists. split; [done|]. split; [done|]. split; [by eapply relx_loaded|]. split; [done|].
  rewrite xreg_set_ne by done. exact HK.
Qed.
Lemma exec_clear ex ex' pend rm x n r d :
  rmwf rm -> st_rel ex pend rm x -> holds rm r 0 -> reg s 0 = 0 -> 0 ∈ pend ->
  (forall v', v' ∉ ex' -> v' <> 0 -> v' ∉ ex) ->
  exists z, exec (MovI r 0) n x = Some (Next z) /\ st_rel ex' pend (upd r (set_dirty_flag d) rm) z.
Proof using Type.
  intros Hrm (R & Hp & HK) Hh H0 Hpv Hex. pose proof (Hp 0 Hpv) as Hm.
  destruct (holds_xreg _ _ _ Hrm Hh) as (Hx & Hc & _).
  eexists. split; [done|]. change (u32 0) with 0. rewrite <- H0.
  split; [by eapply relx_loaded|]. split; [done|]. rewrite xreg_set_ne by done. exact HK.
Qed.

(** [emit_load] of a guest register that has just been given the host register [r]. *)
Lemma runs_load st ex ex' pend v r :
  good st -> reg s 0 = 0 -> holds (register_map st) r v -> is_reg v -> v ∈ pend ->
  (forall v', v' ∉ ex' -> v' <> v -> v' ∉ ex) ->
  runs st (emit_load S32 parameter_reg0 r (offsetof_X + 4 * v)) (fun _ st' => exists d,
    op base ext E st st' (upd r (set_dirty_flag d) (register_map st))
      (st_rel ex pend (register_map st))
      (st_rel ex' pend (upd r (set_dirty_flag d) (register_map st)))).
Proof using Y.
  intros [W Hrm Hq] H0 Hh Hv Hp Hex. destruct (holds_xreg _ _ _ Hrm Hh) as (Hx & _).
  pose proof (rm_nodup _ Hrm) as HN. destruct (Z.eqb_spec v 0) as [->|Hv0].
  - eapply runs_weaken; [eapply (runs_emits base ext E st _ (MovI r 0) _
      (st_rel ex pend (register_map st)) (st_rel ex' pend (upd r (set_dirty_flag true) (register_map st))))|].
    + apply (emits_load_clear st (register_map st)); [done..|]. by rewrite (maps_x0_holds _ _ _ Hrm Hh).
    + split; [done|]. by unfold is_u32.
    + intros x n R. destruct (exec_clear ex ex' pend _ x n r true Hrm R Hh H0 Hp Hex) as (z & Ez & Rz).
      exists z. split; [done|]. intros k. by apply st_rel_rip.
    + intros ? st' O. exists true. rewrite !set_dirty_upd in O; [|done|].
      * rewrite upd_upd in O by done. exact O.
      * rewrite set_dirty_upd by done. unfold upd. rewrite <- list_fmap_compose.
        erewrite list_fmap_ext; [exact HN|]. intros k h _. cbn. by destruct (reg_idx h =? r).
  - eapply runs_weaken; [eapply (runs_emits base ext E st _ (Load X32 false r RDI (offsetof_X + 4 * v)) _
      (st_rel ex pend (register_map st)) (st_rel ex' pend (upd r (set_dirty_flag false) (register_map st))))|].
    + apply (emits_Load st (register_map st) W eq_refl S32); [done..|].
      rewrite (maps_x0_holds _ _ _ Hrm Hh). by apply Z.eqb_neq.
    + split; [done|]. split; [apply base_rdi|]. unfold is_s32, is_reg, offsetof_X in *. lia.
    + intros x n R. destruct (exec_load ex ex' pend _ x n r v false Hrm R Hh Hv Hp Hex) as (z & Ez & _ & Rz).
      exists z. split; [done|]. intros k. by apply st_rel_rip.
    + intros ? st' O. exists false. replace (_ =? 0) with false in O by (unfold offsetof_X, is_reg in *; lia).
      by rewrite set_dirty_upd in O by done.
Qed.

(** An operation that keeps the invariant of the generator. *)
Definition gop (st st' : jst) (P Q : xstate -> Prop) : Prop :=
  good st' /\ op base ext E st st' (register_map st') P Q.

Lemma gop_refl st (P Q : xstate -> Prop) : good st -> (forall x, P x -> Q x) -> gop st st P Q.
Proof using Type. intros G H. split; [done|]. apply op_refl; [apply G|done]. Qed.
Lemma gop_trans st1 st2 st3 P Q R : good st1 -> gop st1 st2 P Q -> gop st2 st3 Q R -> gop st1 st3 P R.
Proof using Type. intros G [? O1] [? O2]. split; [done|]. eapply op_trans; [apply G|done..]. Qed.
Lemma gop_weaken st st' (P P' Q Q' : xstate -> Prop) :
  gop st st' P Q -> (forall x, P' x -> P x) -> (forall x, Q x -> Q' x) -> gop st st' P' Q'.
Proof using Type. intros [? O] HP HQ. split; [done|]. by eapply op_weaken. Qed.
Lemma gop_op st st' rm' P Q :
  good st -> rmwf rm' -> op base ext E st st' rm' P Q -> gop st st' P Q.
Proof using Type.
  intros G Hrm O. pose proof (op_rm _ _ _ _ _ _ _ _ O) as Er. split; [|by rewrite Er].
  eapply (good_next st); [done|apply O|apply O|done|done].
Qed.
Lemma runs_gop_bind {A B} st (m : jitM A) (f : A -> jitM B) P Q R F H :
  good st -> runs st m (fun a st1 => gop st st1 P (Q a st1) /\ F a st1) ->
  (forall a st1, good st1 -> F a st1 ->
    runs st1 (f a) (fun b st2 => gop st1 st2 (Q a st1) (R b st2) /\ H b st2)) ->
  runs st (m ≫= f) (fun b st2 => gop st st2 P (R b st2) /\ H b st2).
Proof using Type.
  intros G Hm Hf. apply runs_bind. eapply runs_weaken; [exact Hm|]. cbn. intros a st1 [O1 HF].
  eapply runs_weaken; [apply Hf; [apply O1|done]|]. cbn. intros b st2 [O2 HH].
  split; [by eapply gop_trans|done].
Qed.

Context (H0 : reg s 0 = 0).

Lemma runs_load_vm st ex pend v origin r :
  good st -> holds (register_map st) r v -> is_reg v ->
  (origin = r -> v ∉ ex) -> (origin <> r -> v ∈ pend) ->
  runs st (load_vm v origin r) (fun _ st' =>
    gop st st' (st_rel ex pend (register_map st))
      (st_rel (filter (fun v' => v' <> v) ex) pend (register_map st')) /\
    forall r' v', holds (register_map st) r' v' -> holds (register_map st') r' v').
Proof using Y H0.
  intros G Hh Hv Ho Hn. unfold load_vm.
  assert (forall v', v' ∉ filter (fun w => w <> v) ex -> v' <> v -> v' ∉ ex) as Hf.
  { intros v' H1 H2 H3. apply H1, list_elem_of_filter. done. }
  destruct (Z.eqb_spec origin r) as [Er|Er]; cbn [negb jwhen].
  - apply runs_ret. split; [|done]. apply gop_refl; [done|]. intros x [R Hx]. split; [|done].
    eapply relx_weaken; [done|]. intros w Hw. destruct (decide (w = v)) as [->|]; auto.
  - eapply runs_weaken; [by apply (runs_load st ex (filter (fun w => w <> v) ex) pend v r); auto|].
    cbn. intros _ st' (d & O). split.
    + assert (rmwf (upd r (set_dirty_flag d) (register_map st))) as Hrm'.
      { destruct Hh as (h & Hh & Er' & Ev). eapply (rmwf_dirty _ (good_rm _ G) h); [done..|].
        by rewrite Ev. }
      pose proof (op_rm _ _ _ _ _ _ _ _ O) as Er'. rewrite Er'. by eapply gop_op.
    + intros r' v'. rewrite (op_rm _ _ _ _ _ _ _ _ O). apply holds_dirty.
Qed.

Abbreviation R0 st := (st_rel [] [] (register_map st)).

Lemma free_entry rm (P : host_reg -> bool) a b :
  rmwf rm -> (forall h, P h = negb ((reg_idx h =? a) || (reg_idx h =? b))) ->
  exists h, h ∈ rm /\ P h = true.
Proof using Type.
  intros Hrm HP. pose proof (rm_regs _ Hrm) as Er.
  assert (forall r, r ∈ host_regs -> exists h, h ∈ rm /\ reg_idx h = r) as Hex.
  { intros r. rewrite <- Er, list_elem_of_fmap. intros (h & -> & Hh). by exists h. }
  destruct (Hex RAX) as (h1 & Hh1 & E1); [apply (bool_decide_unpack _); vm_compute; done|]. destruct (Hex RBX) as (h2 & Hh2 & E2); [apply (bool_decide_unpack _); vm_compute; done|].
  destruct (Hex RDX) as (h3 & Hh3 & E3); [apply (bool_decide_unpack _); vm_compute; done|]. change RAX with 0 in E1. change RBX with 3 in E2.
  change RDX with 2 in E3.
  destruct (decide (0 = a \/ 0 = b)); [|exists h1; rewrite HP, E1; split; [done|lia]].
  destruct (decide (3 = a \/ 3 = b)); [|exists h2; rewrite HP, E2; split; [done|lia]].
  exists h3. rewrite HP, E3. split; [done|lia].
Qed.
Lemma free_entry1 rm a : rmwf rm -> exists h, h ∈ rm /\ negb (reg_idx h =? a) = true.
Proof using Type.
  intros Hrm. apply (free_entry rm _ a a Hrm). intros h. by destruct (reg_idx h =? a).
Qed.

(** The guest registers that are mapped anew. *)
Definition newly (v : Z) (rm : list host_reg) : list Z :=
  match mapped v rm with Some _ => [] | None => [v] end.

Lemma runs_map_new P st ex pend v :
  good st -> is_reg v -> v ∉ ex -> (exists h0, h0 ∈ register_map st /\ P h0 = true) ->
  (forall h, h ∈ register_map st -> P h = true -> vm_reg_idx h ∉ ex) ->
  runs st (map_with (pick P) v) (fun r st' =>
    gop st st' (st_rel ex pend (register_map st))
      (st_rel (newly v (register_map st) ++ ex) (newly v (register_map st) ++ pend) (register_map st')) /\
    holds (register_map st') r v /\
    ((mapped v (register_map st) = Some r /\ st' = st) \/
     (mapped v (register_map st) = None /\ register_map st' = taken r v (register_map st) /\
      exists h, h ∈ register_map st /\ P h = true /\ reg_idx h = r))).
Proof using Y HS.
  intros G Hv Hvx Hh0 HP. eapply runs_weaken; [by apply (runs_map P st ex pend v)|].
  cbn. intros r st' (G' & Hh & [[Em ->]|(Em & Hp & O)]); unfold newly; rewrite Em.
  - split; [by apply gop_refl|]. split; [done|]. by left.
  - pose proof (op_rm _ _ _ _ _ _ _ _ O) as Er. rewrite <- Er in O.
    split; [by split|]. split; [done|]. right. split; [done|]. split; [exact Er|done].
Qed.

Lemma origin_taken rm r0 v1 v2 :
  rmwf rm -> is_reg v2 -> v1 <> v2 ->
  match mapped v2 (taken r0 v1 rm) with
  | Some r => origin_of v2 rm = r
  | None => origin_of v2 rm = -1 \/ origin_of v2 rm = r0
  end.
Proof using Type.
  intros Hrm Hv Hne. destruct (mapped v2 (taken r0 v1 rm)) as [r|] eqn:Em.
  - apply mapped_Some in Em as (h & (h0 & Hh0 & ->)%elem_of_upd & Er & Ev).
    destruct (reg_idx h0 =? r0); cbn in *; [done|].
    destruct (mapped v2 rm) as [r'|] eqn:Em'; [|by destruct (mapped_None _ _ Em' h0)].
    rewrite (origin_mapped _ _ _ Hrm Hv Em'). apply (holds_inj _ _ _ v2 Hrm Hv); [by apply mapped_Some|by exists h0].
  - destruct (mapped v2 rm) as [r'|] eqn:Em'; [|left; by apply origin_unmapped].
    rewrite (origin_mapped _ _ _ Hrm Hv Em'). right. destruct (decide (r' = r0)) as [|Hn]; [done|].
    destruct (holds_taken rm r0 v1 r' v2 Hn (mapped_Some _ _ _ Em')) as (h & Hh & _ & Ev).
    by destruct (mapped_None _ _ Em h Hh).
Qed.

Lemma runs_map_pair st v1 v2 :
  good st -> is_reg v1 -> is_reg v2 ->
  runs st (map_pair v1 v2) (fun rs st' => exists ex pend,
    gop st st' (R0 st) (st_rel ex pend (register_map st')) /\
    holds (register_map st') (fst rs) v1 /\ holds (register_map st') (snd rs) v2 /\
    (forall v, v ∈ ex -> v = v1 \/ v = v2) /\
    (origin_of v1 (register_map st) = fst rs -> v1 ∉ ex) /\
    (origin_of v1 (register_map st) <> fst rs -> v1 ∈ pend) /\
    (origin_of v2 (register_map st) = snd rs -> v2 ∉ ex) /\
    (origin_of v2 (register_map st) <> snd rs -> v2 ∈ pend)).
Proof using Y HS.
  intros G Hv1 Hv2. pose proof (good_rm _ G) as Hrm. unfold map_pair, map_vm_reg, map_vm_reg_reserved, reg_pick.
  pose proof (runs_map_new (fun h => negb (reg_idx h =? -1)) st [] [] v1 G Hv1
    (not_elem_of_nil _) (free_entry1 _ _ Hrm) (fun _ _ _ => not_elem_of_nil _)) as HM1.
  destruct (Z.eqb_spec v1 v2) as [<-|Hne].
  - apply runs_bind. eapply runs_weaken; [exact HM1|]. cbn. intros r st1 (O & Hh & Hc). apply runs_ret.
    do 2 eexists. split; [exact O|]. cbn. do 2 (split; [done|]). unfold newly in *.
    destruct Hc as [[Em ->]|(Em & Er & _)]; rewrite Em.
    + rewrite (origin_mapped _ _ _ Hrm Hv1 Em). split; [intros v []%elem_of_nil|].
      repeat split; intros; (done || apply not_elem_of_nil).
    + rewrite (origin_unmapped _ _ Em). destruct (holds_xreg _ _ _ (good_rm _ (proj1 O)) Hh) as (_&_&_&_&_&Hr).
      split; [intros v ->%list_elem_of_singleton; by left|].
      repeat split; intros; (done || apply list_elem_of_here).
  - apply runs_bind. eapply runs_weaken; [exact HM1|]. cbn. intros r0 st1 (O1 & Hh1 & Hc1). rewrite !app_nil_r in O1.
    pose proof (proj1 O1) as G1. pose proof (good_rm _ G1) as Hrm1.
    apply runs_bind. eapply runs_weaken.
    { apply (runs_map_new (fun h => negb (reg_idx h =? r0)) st1 (newly v1 (register_map st))
        (newly v1 (register_map st)) v2 G1 Hv2).
      - unfold newly. destruct (mapped v1 _); [apply not_elem_of_nil|by apply not_elem_of_cons; split; [|apply not_elem_of_nil]].
      - by apply free_entry1.
      - intros h Hh Hp. unfold newly. destruct (mapped v1 _); [apply not_elem_of_nil|].
        rewrite list_elem_of_singleton. intros Ev. apply negb_true_iff, Z.eqb_neq in Hp. apply Hp.
        apply (holds_inj _ _ _ v1 Hrm1 Hv1); [by exists h|done]. }
    cbn. intros r1 st2 (O2 & Hh2 & Hc2).
    apply runs_bind, runs_assert.
    { apply negb_true_iff, Z.eqb_neq. intros <-. apply Hne. destruct Hc2 as [[Em ->]|(Em & Er2 & h & _ & Hp & Eh)].
      - by apply (holds_fun _ r0 _ _ Hrm1).
      - rewrite Eh in Hp. rewrite Z.eqb_refl in Hp. done. }
    apply runs_ret.
    do 2 eexists. split; [eapply gop_trans; [done|exact O1|exact O2]|]. cbn [fst snd].
    assert (holds (register_map st2) r0 v1) as Hh1'.
    { destruct Hc2 as [[_ ->]|(_ & -> & h & _ & Hp & Eh)]; [done|]. apply holds_taken; [|done].
      intros Er. rewrite Eh, Er, Z.eqb_refl in Hp. done. }
    split; [done|]. split; [done|].
    destruct (holds_xreg _ _ _ (good_rm _ (proj1 O2)) Hh2) as (_&_&_&_&_&Hr1).
    destruct (holds_xreg _ _ _ Hrm1 Hh1) as (_&_&_&_&_&Hr0).
    assert (match mapped v1 (register_map st) with
      | Some _ => origin_of v1 (register_map st) = r0 | None => origin_of v1 (register_map st) <> r0 end) as Ho1.
    { destruct Hc1 as [[Em1 _]|(Em1 & _)]; rewrite Em1; [by apply origin_mapped|by rewrite origin_unmapped]. }
    assert (match mapped v2 (register_map st1) with
      | Some _ => origin_of v2 (register_map st) = r1 | None => origin_of v2 (register_map st) <> r1 end) as Ho2.
    { destruct Hc1 as [[Em1 ->]|(Em1 & Er1 & _)].
      - destruct Hc2 as [[Em2 _]|(Em2 & _)]; rewrite Em2; [by apply origin_mapped|by rewrite origin_unmapped].
      - pose proof (origin_taken _ r0 v1 v2 Hrm Hv2 Hne) as Ho. rewrite <- Er1 in Ho.
        destruct Hc2 as [[Em2 _]|(Em2 & _ & h & _ & Hp & Eh)]; rewrite Em2 in *; [done|].
        rewrite Eh in Hp. destruct Ho as [-> | ->]; [done|]. intros <-. by rewrite Z.eqb_refl in Hp. }
    unfold newly. repeat split.
    all: clear Hc1 Hc2 O1 O2 H0;
      destruct (mapped v1 (register_map st)), (mapped v2 (register_map st1)); cbn [app]; set_solver.
Qed.

Lemma st_rel_weaken ex ex' pend pend' rm x :
  st_rel ex pend rm x -> (forall v, v ∉ ex' -> v ∉ ex) -> (forall v, v ∈ pend' -> v ∈ pend) ->
  st_rel ex' pend' rm x.
Proof using Type.
  intros (R & M & HK) H1 H2. split; [by eapply relx_weaken|]. split; [|done].
  intros v Hv. apply M. auto.
Qed.

(** [ra_load] *)
Lemma runs_ra_load st v :
  good st -> is_reg v ->
  runs st (ra_load v) (fun r st' => gop st st' (R0 st) (R0 st') /\ holds (register_map st') r v).
Proof using Y HS H0.
  intros G Hv. pose proof (good_rm _ G) as Hrm. unfold ra_load, map_vm_reg, reg_pick.
  apply runs_bind, runs_jget. cbn beta. eapply (runs_gop_bind st).
  - done.
  - apply (runs_map_new _ st [] [] v G Hv (not_elem_of_nil _) (free_entry1 _ _ Hrm)).
    intros. apply not_elem_of_nil.
  - cbn. intros r st1 G1 [Hh Hc]. rewrite !app_nil_r. unfold newly.
    eapply runs_gop_bind with (Q := fun _ st2 => R0 st2)
      (F := fun _ st2 => holds (register_map st2) r v); [done| |].
    + eapply runs_weaken; [apply (runs_load_vm st1 (newly v (register_map st)) (newly v (register_map st)) v _ r)|].
      * done.
      * done.
      * done.
      * destruct Hc as [[Em ->]|(Em & Er & _)]; unfold newly; rewrite Em; [intros; apply not_elem_of_nil|].
        rewrite (origin_unmapped _ _ Em). destruct (holds_xreg _ _ _ (good_rm _ G1) Hh) as (_&_&_&_&_&Hr). done.
      * destruct Hc as [[Em ->]|(Em & Er & _)]; unfold newly; rewrite Em; [|set_solver].
        by rewrite (origin_mapped _ _ _ Hrm Hv Em).
      * cbn. intros _ st2 [O Hk]. split; [|auto]. eapply gop_weaken; [exact O|done|].
        intros x Hx. eapply st_rel_weaken; [exact Hx|..]; [|set_solver].
        intros w _ [Hw Hw2]%list_elem_of_filter. unfold newly in Hw2. destruct (mapped v _); set_solver.
    + intros _ st2 G2 Hh2. apply runs_ret. split; [by apply gop_refl|done].
Qed.

(** [ra_load2] *)
Lemma runs_ra_load2 st v1 v2 :
  good st -> is_reg v1 -> is_reg v2 ->
  runs st (ra_load2 v1 v2) (fun rs st' => gop st st' (R0 st) (R0 st') /\
    holds (register_map st') (fst rs) v1 /\ holds (register_map st') (snd rs) v2).
Proof using Y HS H0.
  intros G Hv1 Hv2. unfold ra_load2. apply runs_bind, runs_jget, runs_bind, runs_jget. cbn beta.
  apply runs_bind. eapply runs_weaken; [by apply (runs_map_pair st v1 v2)|].
  intros [r0 r1] st1 (ex & pend & O1 & Hh1 & Hh2 & Hex & Ho1 & Hn1 & Ho2 & Hn2). cbn [fst snd] in *.
  apply runs_bind. eapply runs_weaken; [by apply (runs_load_vm st1 ex pend v1 _ r0); [apply O1|..]|].
  cbn. intros _ st2 [O2 Hk2].
  apply runs_bind. eapply runs_weaken.
  { apply (runs_load_vm st2 (filter (fun v' => v' <> v1) ex) pend v2 (origin_of v2 (register_map st)) r1);
      [apply O2|auto|done| |done].
    intros Eo [_ Hi]%list_elem_of_filter. by apply Ho2. }
  cbn. intros _ st3 [O3 Hk3]. apply runs_ret. cbn [fst snd]. split; [|auto].
  eapply gop_trans; [done|exact O1|]. eapply gop_trans; [apply O1|exact O2|].
  eapply gop_weaken; [exact O3|done|]. intros x Hx. eapply st_rel_weaken; [exact Hx|..]; [|set_solver].
  intros w _ [Hw2 [Hw1 Hw]%list_elem_of_filter]%list_elem_of_filter. destruct (Hex w Hw); auto.
Qed.

(** A host register for the result; the operands stay where they are. *)
Definition operands (keep : list (Z * Z)) (x : xstate) : Prop :=
  Forall (fun '(r, v) => xreg x r = reg s v) keep.
Lemma runs_map_dst P st v keep :
  good st -> is_reg v -> (exists h0, h0 ∈ register_map st /\ P h0 = true) ->
  Forall (fun '(r', v') => is_reg v' /\ holds (register_map st) r' v' /\
    forall h, reg_idx h = r' -> P h = false) keep ->
  runs st (map_with (pick P) v) (fun r st' =>
    gop st st' (R0 st) (fun x => st_rel [v] [] (register_map st') x /\ operands keep x) /\
    holds (register_map st') r v /\
    Forall (fun '(r', v') => holds (register_map st') r' v') keep).
Proof using Y HS H0.
  intros G Hv Hfree Hkeep. eapply runs_weaken.
  { apply (runs_map_new P st [] [] v G Hv (not_elem_of_nil _) Hfree). intros. apply not_elem_of_nil. }
  cbn. intros r st' (O & Hh & Hc).
  assert (forall r' v', (r', v') ∈ keep -> is_reg v' /\ holds (register_map st) r' v' /\
    holds (register_map st') r' v') as Hk.
  { rewrite Forall_forall in Hkeep. intros r' v' Hi. destruct (Hkeep _ Hi) as (Hv' & Hh' & HP).
    split; [done|]. split; [done|]. destruct Hc as [[_ ->]|(_ & -> & h & _ & Hp & Eh)]; [done|].
    apply holds_taken; [|done]. intros ->. rewrite (HP h Eh) in Hp. done. }
  split; [|split; [done|]].
  2: { apply Forall_forall. intros [r' v'] Hi. by apply Hk. }
  eapply gop_weaken; [exact O|done|].
  intros x Hx. rewrite !app_nil_r in Hx. unfold newly in Hx. split.
  - destruct (mapped v (register_map st)); (eapply st_rel_weaken; [exact Hx|..]; set_solver).
  - apply Forall_forall. intros [r' v'] Hi. destruct (Hk r' v' Hi) as (Hv' & Hh' & Hh2).
    destruct Hc as [[Em ->]|(Em & Er & _)]; rewrite Em in Hx; destruct Hx as [R _].
    + apply (holds_slot _ _ _ _ _ R Hh' Hv'). set_solver.
    + apply (holds_slot _ _ v' _ _ R Hh2 Hv').
      rewrite list_elem_of_singleton. intros ->. destruct Hh' as (h' & Hh' & _ & Ev).
      by destruct (mapped_None _ _ Em h' Hh').
Qed.

(** [store_back]: afterwards no entry is dirty. *)
Definition all_clean (rm : list host_reg) : Prop := forall h, h ∈ rm -> dirty h = false.
Lemma runs_store_one st i :
  good st -> (i < 10)%nat ->
  runs st (h ← jget (slot_of (Z.of_nat i));
           if vm_reg_idx h =? -1 then mret tt else save_reg (Z.of_nat i))
    (fun _ st' => gop st st' (R0 st) (R0 st') /\
      exists h, register_map st !! i = Some h /\
        register_map st' = upd (reg_idx h) (set_dirty_flag false) (register_map st)).
Proof using Y HS.
  intros G Hi. pose proof G as [W Hrm _]. apply runs_bind, runs_jget.
  destruct (lookup_lt_is_Some_2 (register_map st) i) as [h Hh]; [by rewrite (rm_length _ Hrm)|].
  unfold slot_of. rewrite Nat2Z.id, nth_lookup, Hh. cbn [from_option id].
  pose proof (list_elem_of_lookup_2 _ _ _ Hh) as Hin.
  destruct (Z.eqb_spec (vm_reg_idx h) (-1)) as [E1|E1].
  - apply runs_ret. split; [by apply gop_refl|]. exists h. split; [done|]. symmetry.
    apply upd_undirty_clean; [done..|]. by apply (rm_clean _ Hrm).
  - eapply runs_weaken; [apply (runs_save_reg st [] [] i h); [done..|apply not_elem_of_nil]|].
    cbn. intros _ st' O. pose proof (op_rm _ _ _ _ _ _ _ _ O) as Er. rewrite Er. split; [|by exists h].
    eapply gop_op; [done| |exact O]. by apply rmwf_undirty.
Qed.
Lemma runs_store_each l : forall st,
  good st -> Forall (fun i => (i < 10)%nat) l ->
  runs st (emit_each (fun i => h ← jget (slot_of i); if vm_reg_idx h =? -1 then mret tt else save_reg i)
             (Z.of_nat <$> l))
    (fun _ st' => gop st st' (R0 st) (R0 st') /\
      exists f, register_map st' = f <$> register_map st /\
        (forall h, reg_idx (f h) = reg_idx h /\ vm_reg_idx (f h) = vm_reg_idx h /\
           (dirty h = false -> dirty (f h) = false)) /\
        forall i h, i ∈ l -> register_map st !! i = Some h -> dirty (f h) = false).
Proof using Y HS.
  induction l as [|i l IH]; intros st G Hl.
  - apply runs_ret. split; [by apply gop_refl|]. exists id. split; [by rewrite list_fmap_id|].
    split; [done|]. intros i h []%elem_of_nil.
  - apply Forall_cons in Hl as [Hi Hl]. cbn. eapply runs_gop_bind; [done|by apply runs_store_one|].
    cbn. intros _ st1 G1 (h & Hh & Er). eapply runs_weaken; [by apply IH|]. cbn.
    intros _ st2 [O (f & Ef & Hf & Hd)]. split; [exact O|].
    exists (fun h0 => f (if reg_idx h0 =? reg_idx h then set_dirty_flag false h0 else h0)).
    split; [rewrite Ef, Er; unfold upd; by rewrite <- list_fmap_compose|]. split.
    + intros h0. destruct (reg_idx h0 =? reg_idx h); [|apply Hf].
      destruct (Hf (set_dirty_flag false h0)) as (-> & -> & Hd'). split; [done|]. split; [done|].
      intros _. by apply Hd'.
    + intros k hk Hk Ek. destruct (decide (k = i)) as [->|Hn].
      * simplify_eq. rewrite Z.eqb_refl. by apply Hf.
      * apply (Hd k); [by apply elem_of_cons in Hk as [|]|]. rewrite Er. unfold upd.
        by rewrite list_lookup_fmap, Ek.
Qed.
Lemma runs_store_back st :
  good st ->
  runs st store_back (fun _ st' => gop st st' (R0 st) (R0 st') /\ all_clean (register_map st') /\
    forall r v, holds (register_map st) r v -> holds (register_map st') r v).
Proof using Y HS.
  intros G. eapply runs_weaken.
  { apply (runs_store_each (seq 0 10) st G). apply Forall_forall. intros i Hi%elem_of_seq. lia. }
  cbn. intros _ st' [O (f & Ef & Hf & Hd)]. split; [done|]. split.
  - intros h. rewrite Ef, list_elem_of_fmap. intros (h0 & -> & [i Hi]%list_elem_of_lookup).
    apply (Hd i); [|done]. apply (elem_of_seq 0 10). apply lookup_lt_Some in Hi.
    rewrite (rm_length _ (good_rm _ G)) in Hi. lia.
  - intros r v (h & Hh & <- & <-). exists (f h). rewrite Ef. split; [by apply list_elem_of_fmap_2|].
    split; apply Hf.
Qed.
End Alloc.
