(* ===== verification/JitSim.v ===== *)
(** Straight-line code: what the instructions that a generator emits for one guest
    instruction compute, and that the state stays related to the guest. *)

From S2P Require Import Prelude.
From S2P Require Import Opcode.
From S2P Require Import Machine.
From S2P Require Import MachineFacts.
From S2P Require Import JitEmit.
From S2P Require Import JitAlloc.
From S2P Require Import X86.
From S2P Require Import X86Proofs.
From S2P Require Import JitEmitProofs.
From S2P Require Import JitCode.
From S2P Require Import JitRel.
From S2P Require Import JitAllocProofs.

(** * Sequences of instructions *)

(** The instructions run to their end, where [Q] holds; [rip] is arbitrary in between. *)
Fixpoint wp (l : list xinsn) (Q : xstate -> Prop) (x : xstate) : Prop :=
  match l with
  | [] => Q x
  | i :: l => forall n k, exists z, exec i n x = Some (Next z) /\ wp l Q (set_rip k z)
  end.
Definition encode_all (l : list xinsn) : list Z := concat (encode <$> l).

Lemma raw_all_insns l : raw_all (SI <$> l) = encode_all l.
Proof. unfold raw_all, encode_all. by rewrite <- list_fmap_compose. Qed.
Lemma records_insns l : forall off, records off (SI <$> l) = [].
Proof. induction l; intros; cbn; auto. Qed.
Lemma lay_insns l j j' : appended (encode_all l) j j' -> Forall wf_xinsn l -> lay j j' (SI <$> l).
Proof.
  intros [-> H] Hw. split; cbn; rewrite ?raw_all_insns; try done.
  - unfold csize. by rewrite raw_all_insns.
  - exists []. by rewrite app_nil_r, records_insns.
  - apply Forall_fmap. exact Hw.
Qed.
Lemma sim_insns base ext E l : forall off (P Q : xstate -> Prop),
  (forall x, P x -> wp l Q x) -> sim base ext E (SI <$> l) off P Q.
Proof.
  induction l as [|i l IH]; intros off P Q H; [by apply sim_nil|].
  change (SI <$> i :: l) with ([SI i] ++ (SI <$> l)). apply sim_app with (wp l Q).
  - apply sim_insn. intros x n Hx. destruct (H x Hx n 0) as (z & Ez & _). exists z. split; [done|].
    intros k. destruct (H x Hx n k) as (z' & Ez' & Hz). rewrite Ez in Ez'. by simplify_eq.
  - by apply IH.
Qed.
Lemma runs_insns base ext E st m l rm' (P Q : xstate -> Prop) :
  emits st m (encode_all l) rm' -> Forall wf_xinsn l -> (forall x, P x -> wp l Q x) ->
  runs st m (fun _ st' => op base ext E st st' rm' P Q).
Proof.
  intros (st' & Em & W & R & J & M & A & _) Hw H. exists tt, st'. split; [done|].
  split; [done..|]. intros F. destruct (A F) as [F0 B]. split; [done|].
  exists (SI <$> l). split; [by apply lay_insns|]. split; [|by apply sim_insns].
  intros c (i & ? & _)%list_elem_of_fmap. done.
Qed.

(** * Registers *)

Lemma xreg_rip k x r : xreg (set_rip k x) r = xreg x r.
Proof. done. Qed.
Lemma xreg_flags f x r : xreg (set_flags f x) r = xreg x r.
Proof. done. Qed.
Lemma length_set_xreg r v x : length (xregs (set_xreg r v x)) = length (xregs x).
Proof. apply length_insert. Qed.

(** [z] is [x] but for the host register [r], the temporary register, flags and [rip]. *)
Record frame (r : Z) (x z : xstate) : Prop := {
  fr_len : length (xregs z) = length (xregs x);
  fr_xmem : xmem z = xmem x;
  fr_regs : forall r', is_xreg r' -> r' <> RCX -> r' <> r -> xreg z r' = xreg x r' }.
Lemma frame_refl r x : frame r x x.
Proof. by split. Qed.
Lemma frame_rip r x z k : frame r x z -> frame r x (set_rip k z).
Proof. intros []. by split. Qed.
Lemma frame_flags r x z f : frame r x z -> frame r x (set_flags f z).
Proof. intros []. by split. Qed.
Lemma frame_set r x z v : is_xreg r -> frame r x z -> frame r x (set_xreg r v z).
Proof.
  intros Hr []. split; [by rewrite length_set_xreg|done|]. intros. rewrite xreg_set_ne; auto.
Qed.
Lemma frame_temp r x z v : frame r x z -> frame r x (set_xreg RCX v z).
Proof.
  intros []. split; [by rewrite length_set_xreg|done|]. intros. rewrite xreg_set_ne; auto. done.
Qed.
Lemma frame_trans r x z u : frame r x z -> frame r z u -> frame r x u.
Proof.
  intros [A1 A2 A3] [B1 B2 B3]. split; [congruence|congruence|]. intros. rewrite B3, A3; auto.
Qed.
Create HintDb frame discriminated.
#[export] Hint Resolve frame_refl frame_rip frame_flags frame_set frame_temp : frame.
(** Look registers up through updates. *)
Ltac xlook :=
  repeat first
    [ rewrite xreg_rip | rewrite xreg_flags
    | rewrite xreg_set_eq by (done || (cbn; rewrite ?length_insert; done))
    | rewrite xreg_set_ne by (done || congruence) ].
(** Run one instruction that always succeeds. *)
Ltac wp1 := intros ? ?; eexists; split; [reflexivity|].
Ltac wp_frame := split; [auto 12 with frame|].

(** * The instructions of the generators, as machine code *)

Definition alu_value (op : xalu) (a b : Z) : Z :=
  match op with
  | Xadd => u32 (a + b) | Xor => Z.lor a b | Xand => Z.land a b | Xsub => u32 (a - b)
  | Xxor => Z.lxor a b | Xcmp => a
  end.
Definition shift_result (op : xshift) (a n : Z) : Z :=
  match op with
  | Xshl => u32 (Z.shiftl a n) | Xshr => Z.shiftr a n | Xsar => u32 (Z.shiftr (s32 a) n)
  end.

Section Core.
Context (x : xstate) (HL : length (xregs x) = 16%nat).

(** The copy of the first operand and the copy of the second into the temporary register. *)
Lemma wp_copy2 (Q : xstate -> Prop) l r0 r1 r2 a b :
  is_xreg r0 -> is_xreg r1 -> is_xreg r2 -> r0 <> RCX -> r2 <> RCX ->
  xreg x r0 = a -> xreg x r1 = b -> is_u32 a -> is_u32 b ->
  (forall z, frame r2 x z -> xreg z r2 = a -> xreg z RCX = b -> wp l Q z) ->
  wp (Mov true r1 RCX :: Mov true r0 r2 :: l) Q x.
Proof using HL.
  intros H0 H1 H2 N0 N2 <- <- Ha Hb HQ.
  assert (forall v, is_u32 v -> u64 v = v) as Hw by (intros v Hv; apply Z.mod_small; unfold is_u32 in Hv; lia).
  wp1. wp1. apply HQ; [auto 12 with frame|..]; xlook.
  - cbn [width]. by apply Hw.
  - cbn [width]. by apply Hw.
Qed.

Lemma wp_alu op src dst a b (Q : xstate -> Prop) :
  is_xreg dst -> op <> Xcmp -> xreg x dst = a -> xreg x src = b -> is_u32 a -> is_u32 b ->
  (forall z, frame dst x z -> xreg z dst = alu_value op a b -> Q z) ->
  wp [Alu false op src dst] Q x.
Proof using HL.
  intros Hd Hop <- <- Ha Hb HQ. wp1. cbn [wp]. unfold exec_alu. cbn [width].
  rewrite !u32_small by done. destruct op; try done; cbn; apply HQ; auto 12 with frame; by xlook.
Qed.
Lemma wp_alui op dst a imm (Q : xstate -> Prop) :
  is_xreg dst -> op <> Xcmp -> xreg x dst = a -> is_u32 a ->
  (forall z, frame dst x z -> xreg z dst = alu_value op a (u32 imm) -> Q z) ->
  wp [AluI false op dst imm] Q x.
Proof using HL.
  intros Hd Hop <- Ha HQ. wp1. cbn [wp]. unfold exec_alu. cbn [width].
  rewrite (u32_small (xreg _ _)) by done.
  destruct op; try done; cbn; apply HQ; auto 12 with frame; by xlook.
Qed.
Lemma wp_shifti op dst a imm (Q : xstate -> Prop) :
  is_xreg dst -> xreg x dst = a -> is_u32 a -> 0 <= imm < 32 ->
  (forall z, frame dst x z -> xreg z dst = shift_result op a imm -> Q z) ->
  wp [ShiftI false op dst imm] Q x.
Proof using HL.
  intros Hd <- Ha Hi HQ. wp1. cbn [wp]. unfold exec_shift. cbn [width bits].
  rewrite (u32_small (xreg _ _)), Z.mod_small, signed_bits_s32 by done.
  destruct op; cbn; apply HQ; auto 12 with frame; by xlook.
Qed.
Lemma wp_shiftcl op dst a n (Q : xstate -> Prop) :
  is_xreg dst -> dst <> RCX -> xreg x dst = a -> is_u32 a -> xreg x RCX = n -> 0 <= n < 32 ->
  (forall z, frame dst x z -> xreg z dst = shift_result op a n -> Q z) ->
  wp [ShiftCl false op dst] Q x.
Proof using HL.
  intros Hd Hn <- Ha E Hi HQ. wp1. cbn [wp]. unfold exec_shift. cbn [width bits].
  change 1 with RCX. rewrite E, (u32_small (xreg _ _)), Z.mod_small, signed_bits_s32 by done.
  destruct op; cbn; apply HQ; auto 12 with frame; by xlook.
Qed.
End Core.
Lemma wp_mono l (Q Q' : xstate -> Prop) : forall x, wp l Q x -> (forall z, Q z -> Q' z) -> wp l Q' x.
Proof.
  induction l as [|i l IH]; intros x H HQ; cbn in *; [auto|]. intros n k.
  destruct (H n k) as (z & Ez & Hz). exists z. split; [done|]. by apply IH.
Qed.

(** * Results in host registers *)

Lemma regs_set_dirty rm r d : reg_idx <$> set_dirty_in rm r d = reg_idx <$> rm.
Proof. induction rm as [|h rm IH]; [done|]. cbn. destruct (reg_idx h =? r); cbn; by rewrite ?IH. Qed.
Lemma regs_upd_dirty rm r d : reg_idx <$> upd r (set_dirty_flag d) rm = reg_idx <$> rm.
Proof.
  unfold upd. rewrite <- list_fmap_compose. apply list_fmap_ext. intros i h _. cbn.
  by destruct (reg_idx h =? r).
Qed.
Lemma dirty_temp rm d : reg_idx <$> rm = host_regs -> set_dirty_in rm RCX d = rm.
Proof.
  intros Hrm. rewrite set_dirty_upd by (rewrite Hrm; apply host_regs_nodup). apply upd_other. intros h Hh.
  destruct (host_regs_xreg (reg_idx h)) as (_ & ? & _); [by eapply host_reg_range|done].
Qed.
Lemma set_dirty_regs rm r d :
  reg_idx <$> rm = host_regs -> set_dirty_in rm r d = upd r (set_dirty_flag d) rm.
Proof. intros Hrm. apply set_dirty_upd. rewrite Hrm. apply host_regs_nodup. Qed.
Lemma rmwf_held rm r v d : rmwf rm -> holds rm r v -> is_reg v -> rmwf (upd r (set_dirty_flag d) rm).
Proof. intros Hrm (h & Hh & Er & <-) Hv. by eapply rmwf_dirty. Qed.

Section Result.
Context (base : Z) (ext : Z -> xstate -> option xstate) (E : Z -> xstate -> Prop).
Context (y : host_layout) (Y : layout_ok y) (fr : host_frame) (s : riscv) (HS : wf_regs s).

Definition Kt : Z -> option flags -> Prop := fun _ _ => True.
(** The host state represents the guest state. *)
Definition agrees (s : riscv) (st : jst) : xstate -> Prop :=
  st_rel y fr s Kt [] [] (register_map st).
Lemma agrees_rel s' st x : agrees s' st x <-> rel y fr (register_map st) s' x.
Proof using Type.
  unfold agrees, st_rel, memok, Kt. split; [by intros []|]. intros. split; [done|].
  split; [|done]. intros v []%elem_of_nil.
Qed.

Lemma relx_frame rm x z r v d :
  rmwf rm -> relx y fr [v] rm s x -> holds rm r v -> is_reg v -> frame r x z ->
  relx y fr [v] (upd r (set_dirty_flag d) rm) s z.
Proof using Type.
  intros Hrm R Hh Hv [Fl Fm Fr]. pose proof (holds_xreg _ _ _ Hrm Hh) as (Hx & Hc & Hdi & Hsp & Hbp & _).
  assert (forall v', v' <> v -> v' ∉ [v]) as Hni by (intros; by rewrite list_elem_of_singleton).
  destruct R. split; rewrite ?Fm, ?Fl; auto; try (rewrite Fr by done; done).
  - intros h' (h0 & Hh0 & ->)%elem_of_upd. destruct (Z.eqb_spec (reg_idx h0) r) as [Er|Er]; cbn.
    + intros _ Hx'. rewrite list_elem_of_singleton in Hx'. destruct Hx'.
      apply (holds_fun rm r); [done|by exists h0|done].
    + intros. destruct (host_regs_xreg (reg_idx h0)) as (? & ? & _);
        [eapply host_reg_range; [apply Hrm|done]|]. rewrite Fr by done. auto.
  - intros v' Hv' Hx' HD. apply rx_mem; [done..|]. destruct HD as [->|HD]; [by left|]. right.
    intros h0 Hh0 Ev. destruct (Z.eqb_spec (reg_idx h0) r) as [Er|Er].
    + rewrite list_elem_of_singleton in Hx'. destruct Hx'. rewrite <- Ev.
      apply (holds_fun rm r); [done|by exists h0|done].
    + apply (HD h0); [|done]. apply elem_of_upd. exists h0. split; [done|].
      by replace (reg_idx h0 =? r) with false by lia.
Qed.
(** Instructions that write the host register [r] of [v] and the temporary register. *)
Lemma runs_work st m l r v (P B : xstate -> Prop) d :
  good st -> holds (register_map st) r v -> is_reg v ->
  emits st m (encode_all l) (upd r (set_dirty_flag d) (register_map st)) -> Forall wf_xinsn l ->
  (forall x, P x -> relx y fr [v] (register_map st) s x /\ wp l (fun z => frame r x z /\ B z) x) ->
  runs st m (fun _ st' => gop base ext E st st' P
    (fun z => relx y fr [v] (register_map st') s z /\ B z) /\
    register_map st' = upd r (set_dirty_flag d) (register_map st)).
Proof using Type.
  intros G Hh Hv Hem Hw HP. pose proof (good_rm _ G) as Hrm. eapply runs_weaken.
  - apply (runs_insns base ext E st m l _ P
      (fun z => relx y fr [v] (upd r (set_dirty_flag d) (register_map st)) s z /\ B z) Hem Hw).
    intros x Hx. destruct (HP x Hx) as [R Hwp]. apply (wp_mono _ _ _ _ Hwp). intros z [F Bz].
    split; [by eapply relx_frame|done].
  - cbn. intros _ st' O. pose proof (op_rm _ _ _ _ _ _ _ _ O) as Er. rewrite Er. split; [|done].
    eapply gop_op; [done| |exact O]. by eapply rmwf_held.
Qed.

Lemma runs_result st m l r v w (P : xstate -> Prop) :
  good st -> holds (register_map st) r v -> is_reg v -> v <> 0 ->
  emits st m (encode_all l) (upd r (set_dirty_flag true) (register_map st)) -> Forall wf_xinsn l ->
  (forall x, P x -> relx y fr [v] (register_map st) s x /\
     wp l (fun z => frame r x z /\ xreg z r = w) x) ->
  runs st m (fun _ st' => gop base ext E st st' P (agrees (set_reg v w s) st')).
Proof using HS.
  intros G Hh Hv Hv0 Hem Hw HP. pose proof (good_rm _ G) as Hrm.
  eapply runs_weaken; [by eapply (runs_work st m l r v P (fun z => xreg z r = w) true)|].
  cbn. intros _ st' [O Er]. eapply gop_weaken; [exact O|done|]. cbn. intros z [R Hz].
  apply agrees_rel. rewrite Er in *. destruct Hh as (h & Hh & <- & Ev).
  assert (set_dirty_flag true h ∈ upd (reg_idx h) (set_dirty_flag true) (register_map st)) as Hh'.
  { apply elem_of_upd. exists h. split; [done|]. by rewrite Z.eqb_refl. }
  eapply (relx_final _ _ v _ s z (set_dirty_flag true h) w); try done.
  rewrite <- Ev in Hv. by eapply rmwf_dirty.
Qed.
End Result.

(** * Guest RAM *)

Lemma hstore_lookup_in n : forall m a v m' b,
  hstore n m a v = Some m' -> a <= b < a + Z.of_nat n ->
  m' !! b = Some (v / 0x100 ^ (b - a) mod 0x100).
Proof.
  induction n as [|n IH]; intros m a v m' b E Hb; cbn [hstore] in E; [lia|].
  destruct (m !! a) eqn:Ea; [|done]. cbn in E. destruct (decide (b = a)) as [->|Hn].
  - rewrite (hstore_lookup_other _ _ _ _ _ _ E), lookup_insert_eq, Z.sub_diag by lia.
    by rewrite Z.pow_0_r, Z.div_1_r.
  - rewrite (IH _ _ _ _ _ E) by lia. rewrite Z.div_div by lia. do 3 f_equal.
    replace (b - a) with (Z.succ (b - (a + 1))) by lia. by rewrite Z.pow_succ_r by lia.
Qed.

Section Ram.
Context (y : host_layout) (Y : layout_ok y) (fr : host_frame) (s : riscv).
Context (HM : mem_size (mem s) = ram_size y).

Lemma hload_ram ex rm x n : forall a,
  relx y fr ex rm s x -> 0 <= a -> a + Z.of_nat n <= ram_size y ->
  hload n (xmem x) (ram_ptr y + a) = Some (load_le (mem s) a n).
Proof using Type.
  induction n as [|n IH]; intros a R Ha Hb; cbn [hload load_le]; [done|].
  rewrite (rx_ram _ _ _ _ _ _ R) by lia. cbn [mbind option_bind].
  replace (ram_ptr y + a + 1) with (ram_ptr y + (a + 1)) by lia. rewrite IH by (done || lia). done.
Qed.
Lemma mem_read_bounds n a v :
  0 <= a -> mem_read n (mem s) a = Some v -> a + Z.of_nat n <= ram_size y /\ v = load_le (mem s) a n.
Proof using HM.
  unfold mem_read, GUEST_RAM_CONTAINS. intros Ha. case_match eqn:Ec; [|done]. intros [= <-].
  apply andb_prop in Ec as [E1 E2]. split; [lia|done].
Qed.
Lemma mem_write_bounds n a v m' :
  0 <= a -> mem_write n (mem s) a v = Some m' ->
  a + Z.of_nat n <= ram_size y /\ m' = store_le (mem s) a n v.
Proof using HM.
  unfold mem_write, GUEST_RAM_CONTAINS. intros Ha. case_match eqn:Ec; [|done]. intros [= <-].
  apply andb_prop in Ec as [E1 E2]. split; [lia|done].
Qed.

Lemma relx_store_ram ex rm x n a w :
  relx y fr ex rm s x -> 0 <= a -> a + Z.of_nat n <= ram_size y ->
  exists m', hstore n (xmem x) (ram_ptr y + a) w = Some m' /\
    relx y fr ex rm (set_mem (store_le (mem s) a n w) s) (set_xmem m' x).
Proof using Y.
  intros R Ha Hb. pose proof R as R1. destruct R1. destruct Y as [_ _ _ HD].
  destruct (hstore_is_Some n (xmem x) (ram_ptr y + a) w) as [m' Hm].
  { intros b Hb'. replace b with (ram_ptr y + (b - ram_ptr y)) by lia. rewrite rx_ram by lia. done. }
  exists m'. split; [done|].
  assert (forall b, in_rv y b -> m' !! b = xmem x !! b) as Hrv.
  { intros b Hin. apply (hstore_lookup_other _ _ _ _ _ _ Hm). unfold in_rv, offsetof_X in Hin. lia. }
  split; cbn [xmem set_xmem mem set_mem]; try done.
  - intros v Hv Hx Hd. change (reg (set_mem _ s) v) with (reg s v). rewrite <- (rx_mem v Hv Hx Hd). apply hload_ext. intros b Hb'. apply Hrv.
    unfold xaddr, in_rv, offsetof_PC, offsetof_X, is_reg in *. lia.
  - intros b Hin. rewrite Hrv by done. auto.
  - intros b Hin. rewrite byte_store. destruct (decide (a <= b < a + Z.of_nat n)).
    + rewrite (hstore_lookup_in _ _ _ _ _ _ Hm) by lia. do 4 f_equal. lia.
    + rewrite (hstore_lookup_other _ _ _ _ _ _ Hm) by lia. auto.
  - intros b H1 H2. rewrite (hstore_lookup_other _ _ _ _ _ _ Hm); [auto|].
    unfold in_guest_ram in H2. lia.
Qed.

Lemma relx_temp_frame ex rm x z :
  rmwf rm -> relx y fr ex rm s x -> frame RCX x z -> relx y fr ex rm s z.
Proof using Type.
  intros Hrm [] [Fl Fm Fr]. split; rewrite ?Fm, ?Fl; auto; try (rewrite Fr by done; done).
  intros h Hh Hv Hx. destruct (host_regs_xreg (reg_idx h)) as (? & ? & _);
    [eapply host_reg_range; [apply Hrm|done]|]. rewrite Fr by done. auto.
Qed.
End Ram.
