(* ===== verification/JitInsn.v ===== *)
(** One guest instruction: the code that the generators of JitGen.v emit for it does to the
    represented guest state what the handler of the interpreter does. *)

From S2P Require Import Prelude.
From S2P Require Import Opcode.
From S2P Require Import Decode.
From S2P Require Import Machine.
From S2P Require Import Interp.
From S2P Require Import MachineFacts.
From S2P Require Import JitEmit.
From S2P Require Import JitAlloc.
From S2P Require Import JitGen.
From S2P Require Import X86.
From S2P Require Import X86Proofs.
From S2P Require Import JitEmitProofs.
From S2P Require Import JitCode.
From S2P Require Import JitRel.
From S2P Require Import JitAllocProofs.
From S2P Require Import JitSim.

Lemma runs_assoc {A B} st (m1 : jitM A) (m2 : jitM B) {C} (k : jitM C) K :
  runs st ((m1;; m2);; k) K -> runs st (m1;; (m2;; k)) K.
Proof.
  intros (c & st' & Ec & HK). exists c, st'. split; [|done].
  unfold mbind, jitM_bind in *. destruct (m1 st) as [[a st1]|]; done.
Qed.

Lemma runs_assoc_dep {A B C} st (m1 : jitM A) (m2 : jitM B) (k : B -> jitM C) K :
  runs st (b ← (m1;; m2); k b) K -> runs st (m1;; (b ← m2; k b)) K.
Proof.
  intros (c & st' & Ec & HK). exists c, st'. split; [|done].
  unfold mbind, jitM_bind in *. destruct (m1 st) as [[a st1]|]; done.
Qed.

Lemma encode_all_1 i : encode_all [i] = encode i.
Proof. unfold encode_all. cbn. apply app_nil_r. Qed.
Lemma encode_all_cons i l : encode_all (i :: l) = encode i ++ encode_all l.
Proof. done. Qed.

(** The emission of a list of instructions, and the flags of the map after it. *)
Ltac dirty_norm :=
  change temp_reg with RCX;
  repeat match goal with |- context [if ?b then set_dirty_in _ _ _ else _] => destruct b end;
  repeat first
    [ rewrite dirty_temp by (rewrite ?regs_set_dirty, ?regs_upd_dirty; apply rm_regs; done)
    | rewrite set_dirty_regs by (rewrite ?regs_set_dirty, ?regs_upd_dirty; apply rm_regs; done)
    | rewrite upd_upd by done ].
Ltac core_emit :=
  eapply emits_eq;
    [ repeat first [elast | estep]
    | unfold encode_all; cbn [fmap list_fmap concat map]; rewrite ?app_nil_r, <- ?app_assoc; done
    | dirty_norm; done ].

Ltac wf_all := repeat (apply Forall_cons; split; [done|]); by apply Forall_nil.

Section Insn.
Context (base : Z) (ext : Z -> xstate -> option xstate) (E : Z -> xstate -> Prop).
Context (y : host_layout) (Y : layout_ok y) (fr : host_frame) (s : riscv).
Context (HS : wf_regs s) (H0 : reg s 0 = 0).
#[local] Abbreviation gop := (gop base ext E).
#[local] Abbreviation agrees := (agrees y fr).

Lemma guest_reg_u32 v : is_u32 (reg s v).
Proof using HS. apply reg_is_u32, HS. Qed.

Lemma agrees_len st x : agrees s st x -> length (xregs x) = 16%nat.
Proof using Type. rewrite agrees_rel. intros R. apply R. Qed.

(** ** Operands *)

Definition dst_state (v : Z) (st : jst) (B : xstate -> Prop) (x : xstate) : Prop :=
  relx y fr [v] (register_map st) s x /\ B x.

Definition knows (K : Z -> option flags -> Prop) (x : xstate) : Prop := K (xreg x RCX) (xflags x).
Definition agrees_and (K : Z -> option flags -> Prop) (st : jst) : xstate -> Prop :=
  st_rel y fr s K [] [] (register_map st).

Lemma runs_dst_and K P st v keep :
  good st -> is_reg v -> (exists h0, h0 ∈ register_map st /\ P h0 = true) ->
  Forall (fun '(r', v') => is_reg v' /\ holds (register_map st) r' v' /\
    forall h, reg_idx h = r' -> P h = false) keep ->
  runs st (map_with (pick P) v) (fun r st' =>
    gop st st' (agrees_and K st) (dst_state v st' (fun x => knows K x /\ operands s keep x)) /\
    holds (register_map st') r v /\ Forall (fun '(r', v') => holds (register_map st') r' v') keep).
Proof using Y HS H0.
  intros. eapply runs_weaken; [eapply (runs_map_dst base ext E y Y fr s HS K H0 P st v keep); done|].
  cbv beta. intros r st' [O Hh]. split; [|done]. eapply gop_weaken; [exact O|done|].
  intros x [(R & _ & HK) Ho]. exact (conj R (conj HK Ho)).
Qed.
Lemma runs_dst P st v keep :
  good st -> is_reg v -> (exists h0, h0 ∈ register_map st /\ P h0 = true) ->
  Forall (fun '(r', v') => is_reg v' /\ holds (register_map st) r' v' /\
    forall h, reg_idx h = r' -> P h = false) keep ->
  runs st (map_with (pick P) v) (fun r st' =>
    gop st st' (agrees s st) (dst_state v st' (operands s keep)) /\
    holds (register_map st') r v /\ Forall (fun '(r', v') => holds (register_map st') r' v') keep).
Proof using Y HS H0.
  intros. eapply runs_weaken; [by apply (runs_dst_and Kt P st v keep)|].
  cbv beta. intros r st' [O Hh]. split; [|done]. eapply gop_weaken; [exact O|done|].
  intros x [R [_ Ho]]. by split.
Qed.

Lemma runs_load2_copy st v1 v2 vd :
  good st -> is_reg v1 -> is_reg v2 -> is_reg vd ->
  runs st (Gen.load2_copy v1 v2 vd) (fun r st' =>
    gop st st' (agrees s st)
      (dst_state vd st' (fun x => xreg x r = reg s v1 /\ xreg x RCX = reg s v2)) /\
    holds (register_map st') r vd).
Proof using Y HS H0.
  intros G H1 H2 Hd. unfold Gen.load2_copy.
  eapply runs_gop_bind; [done|by apply (runs_ra_load2 base ext E y Y fr s HS Kt H0)|].
  cbv beta. intros [r0 r1] st1 G1 [Hh0 Hh1]. cbn [fst snd] in *.
  pose proof (good_rm _ G1) as Hrm1.
  eapply runs_gop_bind; [done| |].
  { apply (runs_dst _ st1 vd [(r0, v1); (r1, v2)] G1 Hd).
    - by eapply (free_entry _ _ r0 r1).
    - apply Forall_cons. split; [|apply Forall_cons; split; [|by apply Forall_nil]];
        (split; [done|]; split; [done|]); intros h <-; rewrite Z.eqb_refl, ?orb_true_r; done. }
  cbv beta. intros r2 st2 G2 [Hh2 _]. apply runs_assoc.
  destruct (holds_xreg _ _ _ Hrm1 Hh0) as (X0 & C0 & _). destruct (holds_xreg _ _ _ Hrm1 Hh1) as (X1 & C1 & _).
  destruct (holds_xreg _ _ _ (good_rm _ G2) Hh2) as (X2 & C2 & _).
  assert (is_xreg temp_reg) as XC by done. pose proof (good_jwf _ G2) as W2. pose proof (good_rm _ G2) as Hrm2.
  eapply runs_gop_bind with
    (Q := fun _ st3 => dst_state vd st3 (fun x => xreg x r2 = reg s v1 /\ xreg x RCX = reg s v2))
    (F := fun _ st3 => holds (register_map st3) r2 vd); [done| |].
  - eapply runs_weaken.
    + eapply (runs_work base ext E y fr s st2 _ [Mov true r1 RCX; Mov true r0 r2] r2 vd
        (dst_state vd st2 (operands s [(r0, v1); (r1, v2)]))
        (fun x => xreg x r2 = reg s v1 /\ xreg x RCX = reg s v2) true G2 Hh2 Hd).
      * core_emit.
      * wf_all.
      * intros x [R Ho]. split; [exact R|]. unfold operands in Ho.
        apply Forall_cons in Ho as [Ho0 Ho]. apply Forall_cons in Ho as [Ho1 _].
        apply (wp_copy2 x (rx_len _ _ _ _ _ _ R) _ [] r0 r1 r2 _ _ X0 X1 X2 C0 C2 Ho0 Ho1 (guest_reg_u32 _) (guest_reg_u32 _)).
        intros z F E1 E2. by cbn.
    + cbv beta. intros _ st3 [O Er]. split; [exact O|]. rewrite Er. by apply holds_dirty.
  - intros _ st3 G3 Hh3. apply runs_ret. split; [by apply gop_refl|done].
Qed.

Lemma runs_load_copy st v vd :
  good st -> is_reg v -> is_reg vd ->
  runs st (Gen.load_copy v vd) (fun r st' =>
    gop st st' (agrees s st) (dst_state vd st' (fun x => xreg x r = reg s v)) /\
    holds (register_map st') r vd).
Proof using Y HS H0.
  intros G Hv Hd. unfold Gen.load_copy.
  eapply runs_gop_bind; [done|by apply (runs_ra_load base ext E y Y fr s HS Kt H0)|].
  cbv beta. intros r0 st1 G1 Hh0. pose proof (good_rm _ G1) as Hrm1.
  eapply runs_gop_bind; [done| |].
  { apply (runs_dst _ st1 vd [(r0, v)] G1 Hd); [by eapply free_entry1|].
    apply Forall_cons. split; [|by apply Forall_nil]. split; [done|]. split; [done|].
    intros h <-. by rewrite Z.eqb_refl. }
  cbv beta. intros r1 st2 G2 [Hh1 _]. pose proof (good_rm _ G2) as Hrm2. pose proof (good_jwf _ G2) as W2.
  destruct (holds_xreg _ _ _ Hrm1 Hh0) as (X0 & C0 & _). destruct (holds_xreg _ _ _ Hrm2 Hh1) as (X1 & C1 & _).
  eapply runs_gop_bind with (Q := fun _ st3 => dst_state vd st3 (fun x => xreg x r1 = reg s v))
    (F := fun _ st3 => holds (register_map st3) r1 vd); [done| |].
  - destruct (Z.eqb_spec r0 r1) as [->|Hn]; cbn [negb jwhen].
    { apply runs_ret. split; [|done]. apply gop_refl; [done|]. intros x [R Ho]. split; [done|].
      by apply Forall_cons in Ho as [Ho _]. }
    eapply runs_weaken.
    + eapply (runs_work base ext E y fr s st2 _ [Mov true r0 r1] r1 vd
        (dst_state vd st2 (operands s [(r0, v)])) (fun x => xreg x r1 = reg s v) true G2 Hh1 Hd).
      * core_emit.
      * wf_all.
      * intros x [R Ho]. split; [exact R|]. apply Forall_cons in Ho as [Ho _].
        pose proof (rx_len _ _ _ _ _ _ R). wp1. cbn [wp]. split; [auto 12 with frame|]. xlook. cbn [width].
        rewrite Ho. apply Z.mod_small. pose proof (guest_reg_u32 v). unfold is_u32 in *. lia.
    + cbv beta. intros _ st3 [O Er]. split; [exact O|]. rewrite Er. by apply holds_dirty.
  - intros _ st3 G3 Hh3. apply runs_ret. split; [by apply gop_refl|done].
Qed.

Lemma runs_in_place st v :
  good st -> is_reg v ->
  runs st (ra_load v) (fun r st' =>
    gop st st' (agrees s st) (dst_state v st' (fun x => xreg x r = reg s v)) /\
    holds (register_map st') r v).
Proof using Y HS H0.
  intros G Hv. eapply runs_weaken; [by apply (runs_ra_load base ext E y Y fr s HS Kt H0)|].
  cbv beta. intros r st1 [O Hh]. split; [|done]. eapply gop_weaken; [exact O|done|].
  intros x [R _]. split; [eapply relx_weaken; [exact R|]; intros; apply not_elem_of_nil|].
  apply (holds_slot _ _ _ _ _ _ _ _ R Hh Hv), not_elem_of_nil.
Qed.
Lemma runs_fresh st v :
  good st -> is_reg v ->
  runs st (map_vm_reg v) (fun r st' =>
    gop st st' (agrees s st) (dst_state v st' (fun _ => True)) /\ holds (register_map st') r v).
Proof using Y HS H0.
  intros G Hv. eapply runs_weaken.
  { apply (runs_dst _ st v [] G Hv); [apply free_entry1, G|by apply Forall_nil]. }
  cbv beta. intros r st1 (O & Hh & _). split; [|done]. eapply gop_weaken; [exact O|done|].
  intros x [R _]. by split.
Qed.

(** ** Results *)

(** The code represents the step of the guest from [s] to [s']. *)
Definition insn_ok (st : jst) (m : jitM unit) (s' : riscv) : Prop :=
  runs st m (fun _ st' => gop st st' (agrees s st) (agrees s' st')).

Lemma insn_ok_op st (m1 : jitM Z) (m2 : Z -> jitM unit) v w B :
  good st -> is_reg v -> v <> 0 ->
  runs st m1 (fun r st' => gop st st' (agrees s st) (dst_state v st' (B r)) /\
    holds (register_map st') r v) ->
  (forall r st1, jwf (js st1) -> rmwf (register_map st1) -> holds (register_map st1) r v ->
    is_xreg r -> r <> RCX -> exists l,
    emits st1 (m2 r) (encode_all l) (upd r (set_dirty_flag true) (register_map st1)) /\
    Forall wf_xinsn l /\
    forall x, length (xregs x) = 16%nat -> relx y fr [v] (register_map st1) s x -> B r x ->
      wp l (fun z => frame r x z /\ xreg z r = w) x) ->
  insn_ok st (r ← m1; m2 r) (set_reg v w s).
Proof using HS.
  intros G Hv Hv0 H1 H2. unfold insn_ok. apply runs_bind. eapply runs_weaken; [exact H1|].
  cbv beta. intros r st1 [O1 Hh]. pose proof (proj1 O1) as G1.
  destruct (holds_xreg _ _ _ (good_rm _ G1) Hh) as (Xr & Cr & _).
  destruct (H2 r st1 (good_jwf _ G1) (good_rm _ G1) Hh Xr Cr) as (l & Hem & Hwf & Hwp).
  eapply runs_weaken.
  { apply (runs_result base ext E y fr s HS st1 (m2 r) l r v w (dst_state v st1 (B r)) G1 Hh Hv Hv0 Hem Hwf).
    intros x [R Hb]. split; [exact R|]. apply Hwp; [apply R|done..]. }
  cbv beta. intros _ st2 O2. by eapply gop_trans.
Qed.

Ltac core l := eexists l; split; [core_emit|]; split; [wf_all|].

Lemma ok_set_const st v c :
  good st -> is_reg v -> v <> 0 -> insn_ok st (Gen.set_const v c) (set_reg v (u32 c) s).
Proof using Y HS H0.
  intros G Hv Hv0. eapply insn_ok_op; [done..|by apply runs_fresh|].
  intros r st1 W1 Hrm1 Hh Xr Cr. exists [MovI r (u32 c)]. split; [core_emit|].
  split; [apply Forall_cons; split; [split; [done|apply is_u32_u32]|by apply Forall_nil]|].
  intros x HL _ _. wp1. cbn [wp]. split; [auto 12 with frame|]. xlook. apply u32_small, is_u32_u32.
Qed.
Lemma ok_alu_reg st op v1 v2 vd :
  good st -> is_reg v1 -> is_reg v2 -> is_reg vd -> vd <> 0 -> op <> Xcmp ->
  insn_ok st (r ← Gen.load2_copy v1 v2 vd; emit_alu32 (alu_opcode op) temp_reg r)
    (set_reg vd (alu_value op (reg s v1) (reg s v2)) s).
Proof using Y HS H0.
  intros G H1 H2 Hd Hd0 Hop. eapply insn_ok_op; [done..|by apply runs_load2_copy|].
  intros r st1 W1 Hrm1 Hh Xr Cr. assert (is_xreg temp_reg) by done.
  core [Alu false op RCX r].
  intros x HL _ [E1 E2]. apply (wp_alu x HL op RCX r _ _ _ Xr Hop E1 E2 (guest_reg_u32 _) (guest_reg_u32 _)). done.
Qed.
Lemma ok_shift_reg st op v1 v2 vd :
  good st -> is_reg v1 -> is_reg v2 -> is_reg vd -> vd <> 0 ->
  insn_ok st (r ← Gen.load2_copy v1 v2 vd;
              emit_alu32_imm32 0x81 (alu_ext Xand) temp_reg 0x1f;; emit_alu32 0xd3 (shift_ext op) r)
    (set_reg vd (shift_result op (reg s v1) (Z.land (reg s v2) 0x1f)) s).
Proof using Y HS H0.
  intros G H1 H2 Hd Hd0. eapply insn_ok_op; [done..|by apply runs_load2_copy|].
  intros r st1 W1 Hrm1 Hh Xr Cr. assert (is_xreg temp_reg) by done.
  core [AluI false Xand RCX 0x1f; ShiftCl false op r].
  intros x HL _ [E1 E2]. wp1. unfold exec_alu. cbn [alu width].
  match goal with |- wp _ _ ?z => assert (length (xregs z) = 16%nat) as HL1 by (cbn; by rewrite length_insert) end.
  apply (wp_shiftcl _ HL1 op r (reg s v1) (Z.land (reg s v2) 0x1f)); [done|done| |apply guest_reg_u32| | |].
  - by xlook.
  - xlook. rewrite E2, (u32_small (reg s v2)) by apply guest_reg_u32. done.
  - rewrite (Z.land_ones _ 5) by lia. by apply Z.mod_pos_bound.
  - intros z F Ez. split; [|done]. eapply frame_trans; [|exact F]. auto 12 with frame.
Qed.

Lemma ok_alu_imm st op v vd imm :
  good st -> is_reg v -> is_reg vd -> vd <> 0 -> op <> Xcmp -> is_s32 imm ->
  insn_ok st (r ← Gen.load_copy v vd; emit_alu32_imm32 0x81 (alu_ext op) r imm)
    (set_reg vd (alu_value op (reg s v) (u32 imm)) s).
Proof using Y HS H0.
  intros G Hv Hd Hd0 Hop Hi. eapply insn_ok_op; [done..|by apply runs_load_copy|].
  intros r st1 W1 Hrm1 Hh Xr Cr. core [AluI false op r imm].
  intros x HL _ E1. by apply (wp_alui x HL op r _ imm _ Xr Hop E1 (guest_reg_u32 _)).
Qed.
Lemma ok_alu_in_place st op v imm :
  good st -> is_reg v -> v <> 0 -> op <> Xcmp -> is_s32 imm ->
  insn_ok st (Gen.alu_imm_in_place v (alu_ext op) imm)
    (set_reg v (alu_value op (reg s v) (u32 imm)) s).
Proof using Y HS H0.
  intros G Hv Hv0 Hop Hi. eapply insn_ok_op; [done..|by apply runs_in_place|].
  intros r st1 W1 Hrm1 Hh Xr Cr. core [AluI false op r imm].
  intros x HL _ E1. by apply (wp_alui x HL op r _ imm _ Xr Hop E1 (guest_reg_u32 _)).
Qed.
Lemma u8_shamt sh : 0 <= sh < 32 -> is_u8 sh.
Proof using Type. unfold is_u8. lia. Qed.
Lemma ok_shift_imm st op v vd sh :
  good st -> is_reg v -> is_reg vd -> vd <> 0 -> 0 <= sh < 32 ->
  insn_ok st (r ← Gen.load_copy v vd; emit_alu32_imm8 0xc1 (shift_ext op) r sh)
    (set_reg vd (shift_result op (reg s v) sh) s).
Proof using Y HS H0.
  intros G Hv Hd Hd0 Hi. eapply insn_ok_op; [done..|by apply runs_load_copy|].
  intros r st1 W1 Hrm1 Hh Xr Cr. pose proof (u8_shamt sh Hi). core [ShiftI false op r sh].
  intros x HL _ E1. by apply (wp_shifti x HL op r _ sh _ Xr E1 (guest_reg_u32 _)).
Qed.
Lemma ok_shift_in_place st op v sh :
  good st -> is_reg v -> v <> 0 -> 0 <= sh < 32 ->
  insn_ok st (Gen.shift_in_place v (shift_ext op) sh) (set_reg v (shift_result op (reg s v) sh) s).
Proof using Y HS H0.
  intros G Hv Hv0 Hi. eapply insn_ok_op; [done..|by apply runs_in_place|].
  intros r st1 W1 Hrm1 Hh Xr Cr. pose proof (u8_shamt sh Hi). core [ShiftI false op r sh].
  intros x HL _ E1. by apply (wp_shifti x HL op r _ sh _ Xr E1 (guest_reg_u32 _)).
Qed.

(** [c.mv]: a register that already holds its source is only marked. *)
Lemma ok_copy st v vd :
  good st -> is_reg v -> is_reg vd -> vd <> 0 ->
  insn_ok st (r0 ← ra_load v; r1 ← map_vm_reg_reserved vd r0;
              if negb (r0 =? r1) then emit_mov r0 r1 else set_dirty r1 true)
    (set_reg vd (reg s v) s).
Proof using Y HS H0.
  intros G Hv Hd Hd0. unfold insn_ok. apply runs_bind.
  eapply runs_weaken; [by apply (runs_ra_load base ext E y Y fr s HS Kt H0)|].
  cbv beta. intros r0 st1 [O1 Hh0]. pose proof (proj1 O1) as G1. pose proof (good_rm _ G1) as Hrm1.
  apply runs_bind. eapply runs_weaken.
  { apply (runs_dst _ st1 vd [(r0, v)] G1 Hd); [by eapply free_entry1|].
    apply Forall_cons. split; [|by apply Forall_nil]. split; [done|]. split; [done|].
    intros h <-. by rewrite Z.eqb_refl. }
  cbv beta. intros r1 st2 (O2 & Hh1 & _). pose proof (proj1 O2) as G2. pose proof G2 as [W2 Hrm2 _].
  destruct (holds_xreg _ _ _ Hrm1 Hh0) as (X0 & C0 & _). destruct (holds_xreg _ _ _ Hrm2 Hh1) as (X1 & C1 & _).
  eapply runs_weaken.
  - apply (runs_result base ext E y fr s HS st2 _ (if negb (r0 =? r1) then [Mov true r0 r1] else []) r1 vd
      (reg s v) (dst_state vd st2 (operands s [(r0, v)])) G2 Hh1 Hd Hd0).
    + destruct (negb (r0 =? r1)); core_emit.
    + destruct (negb (r0 =? r1)); wf_all.
    + intros x [R Ho]. split; [exact R|]. apply Forall_cons in Ho as [Ho _].
      pose proof (rx_len _ _ _ _ _ _ R). destruct (Z.eqb_spec r0 r1) as [->|Hn]; cbn [negb].
      * split; [apply frame_refl|done].
      * wp1. cbn [wp]. split; [auto 12 with frame|]. xlook. cbn [width]. rewrite Ho.
        apply Z.mod_small. pose proof (guest_reg_u32 v). unfold is_u32 in *. lia.
  - cbv beta. intros _ st3 O3. eapply gop_trans; [done|exact O1|]. eapply gop_trans; [done|exact O2|exact O3].
Qed.
(** A constant; the temporary register and the flags keep their values. *)
Lemma runs_const_and K st v c :
  good st -> is_reg v -> v <> 0 ->
  runs st (Gen.set_const v c) (fun _ st' =>
    gop st st' (agrees_and K st) (st_rel y fr (set_reg v (u32 c) s) K [] [] (register_map st'))).
Proof using Y HS H0.
  intros G Hv Hv0. unfold Gen.set_const. apply runs_bind. eapply runs_weaken.
  { apply (runs_dst_and K _ st v [] G Hv); [apply free_entry1, G|by apply Forall_nil]. }
  cbv beta. intros r st1 (O1 & Hh & _). pose proof (proj1 O1) as G1. pose proof G1 as [W1 Hrm1 _].
  destruct (holds_xreg _ _ _ Hrm1 Hh) as (Xr & Cr & _). eapply runs_weaken.
  - apply (runs_work base ext E y fr s st1 _ [MovI r (u32 c)] r v
      (dst_state v st1 (fun x => knows K x /\ operands s [] x))
      (fun x => xreg x r = u32 c /\ knows K x) true G1 Hh Hv); [core_emit|..].
    + apply Forall_cons. split; [split; [done|apply is_u32_u32]|by apply Forall_nil].
    + intros x [R [HK _]]. split; [exact R|]. pose proof (rx_len _ _ _ _ _ _ R). wp1. cbn [wp].
      split; [auto 12 with frame|]. split; [xlook; apply u32_small, is_u32_u32|].
      unfold knows. xlook. exact HK.
  - cbv beta. intros _ st2 [O2 M2]. eapply gop_trans; [done|exact O1|]. eapply gop_weaken; [exact O2|done|].
    cbv beta. intros z [R [Ez HK]]. split; [|split; [intros w []%elem_of_nil|exact HK]].
    destruct Hh as (h & Hh & Er & Ev).
    apply (relx_final y fr v _ s z (set_dirty_flag true h)); try done; [apply O2| |by cbn; rewrite Er].
    rewrite M2. apply elem_of_upd. exists h. split; [done|]. by rewrite Er, Z.eqb_refl.
Qed.

(** ** Memory *)

Context (env : jit_env) (HE : mem_base_ptr env = ram_ptr y) (HM : mem_size (mem s) = ram_size y).

(** The temporary register holds the host address of the guest address [a]. *)
Definition at_address (a : Z) : Z -> option flags -> Prop := fun t _ => t = ram_ptr y + a.

Lemma runs_host_address st v imm :
  good st -> is_reg v -> is_s32 imm -> 0 <= reg s v + imm < 0x100000000 ->
  runs st (Gen.host_address env v imm) (fun _ st' =>
    gop st st' (agrees s st) (agrees_and (at_address (reg s v + imm)) st')).
Proof using Y HS H0 HE.
  intros G Hv Hi Ha. unfold Gen.host_address. rewrite HE. apply runs_bind.
  eapply runs_weaken; [by apply (runs_ra_load base ext E y Y fr s HS Kt H0)|]. cbv beta. intros r st1 [O1 Hh].
  pose proof (proj1 O1) as G1. pose proof G1 as [W1 Hrm1 _].
  destruct (holds_xreg _ _ _ Hrm1 Hh) as (Xr & Cr & _). assert (is_xreg temp_reg) by done.
  set (c := ram_ptr y + imm).
  assert (- 2 ^ 63 <= c < 2 ^ 63) as Hc.
  { destruct Y as [_ [? ?] _ _]. unfold is_s32 in Hi. lia. }
  eapply runs_weaken.
  - apply (runs_insns base ext E st1 _
      [if s32 c =? c then MovSI RCX c else MovAbs RCX (u64 c); Alu true Xadd r RCX]
      (register_map st1) (agrees s st1) (agrees_and (at_address (reg s v + imm)) st1)).
    + change ALU_OP_ADD with (alu_opcode Xadd). core_emit.
    + apply Forall_cons. split; [|wf_all]. destruct (Z.eqb_spec (s32 c) c) as [Ec|]; split; try done.
      * rewrite <- Ec. unfold is_s32, s32. mlia.
      * apply Z.mod_pos_bound. lia.
    + intros x (R & _). pose proof (rx_len _ _ _ _ _ _ R) as HL.
      assert (xreg x r = reg s v) as Ev.
      { apply (holds_slot _ _ _ _ _ _ _ _ R Hh Hv), not_elem_of_nil. }
      intros n k. exists (set_xreg RCX (u64 c) x). split.
      { destruct (s32 c =? c); cbn [exec]; [done|]. do 3 f_equal. unfold u64. apply Z.mod_mod. done. }
      wp1. cbn [wp]. unfold exec_alu. cbn [alu width].
      split; [|split; [intros w []%elem_of_nil|]].
      * eapply relx_temp_frame; [done|exact R|auto 12 with frame].
      * unfold at_address. xlook. rewrite Ev. pose proof (guest_reg_u32 v) as Hu.
        destruct Y as [_ [? ?] _ _]. subst c. unfold u64, is_u32, is_s32 in *. mlia.
  - cbv beta. intros _ st2 O2. pose proof (op_rm _ _ _ _ _ _ _ _ O2) as Er.
    eapply gop_trans; [done|exact O1|]. unfold agrees_and. rewrite Er. by eapply gop_op.
Qed.

Lemma runs_load_operands st v imm vd :
  good st -> is_reg v -> is_s32 imm -> 0 <= reg s v + imm < 0x100000000 -> is_reg vd ->
  runs st (Gen.host_address env v imm;; map_vm_reg vd) (fun r st' =>
    gop st st' (agrees s st) (dst_state vd st' (fun x => xreg x RCX = ram_ptr y + (reg s v + imm))) /\
    holds (register_map st') r vd).
Proof using Y HS H0 HE.
  intros G Hv Hi Ha Hd. apply runs_bind. eapply runs_weaken; [by apply runs_host_address|].
  cbv beta. intros _ st1 O1. pose proof (proj1 O1) as G1. eapply runs_weaken.
  { apply (runs_dst_and (at_address (reg s v + imm)) _ st1 vd [] G1 Hd); [apply free_entry1, G1|by apply Forall_nil]. }
  cbv beta. intros r st2 (O2 & Hh & _). split; [|done]. eapply gop_trans; [done|exact O1|].
  eapply gop_weaken; [exact O2|done|]. intros x [R [HK _]]. by split.
Qed.

Lemma ram_address a : 0 <= a < 0x100000000 -> u64 (ram_ptr y + a + 0) = ram_ptr y + a.
Proof using Y. intros Ha. destruct Y as [_ [? ?] _ _]. rewrite Z.add_0_r. apply Z.mod_small. lia. Qed.

Lemma ok_load st sz v imm vd val :
  good st -> is_reg v -> is_s32 imm -> 0 <= reg s v + imm < 0x100000000 -> is_reg vd -> vd <> 0 ->
  sz <> S64 -> mem_read (size_bytes (xsize_of sz)) (mem s) (reg s v + imm) = Some val ->
  insn_ok st (Gen.host_address env v imm;; r ← map_vm_reg vd; emit_load sz temp_reg r 0)
    (set_reg vd val s).
Proof using Y HS H0 HE HM.
  intros G Hv Hi Ha Hd Hd0 Hsz Hr. apply runs_assoc_dep.
  eapply insn_ok_op; [done..|by apply runs_load_operands|].
  intros r st1 W1 Hrm1 Hh Xr Cr. assert (is_xreg temp_reg) by done.
  assert (maps_x0 (register_map st1) r = false) as Hx0.
  { rewrite (maps_x0_holds _ _ _ Hrm1 Hh). by apply Z.eqb_neq. }
  exists [Load (xsize_of sz) false r RCX 0]. split.
  { eapply emits_eq; [by eapply emits_Load|by rewrite encode_all_1|]. change (0 =? 0) with true. dirty_norm; done. }
  split.
  { apply Forall_cons. split; [|by apply Forall_nil]. split; [done|]. split; [apply base_rcx|]. done. }
  intros x HL R Ea. destruct (mem_read_bounds y s HM _ _ _ (proj1 Ha) Hr) as [Hb ->].
  intros n k. cbn [exec]. rewrite Ea, ram_address by done.
  rewrite (hload_ram y fr s _ _ _ _ _ R) by (done || lia). cbn [mbind option_bind].
  eexists. split; [done|]. split; [auto 12 with frame|]. by xlook.
Qed.
Lemma ok_load_sext st sz v imm vd val :
  good st -> is_reg v -> is_s32 imm -> 0 <= reg s v + imm < 0x100000000 -> is_reg vd -> vd <> 0 ->
  sz = S8 \/ sz = S16 -> mem_read (size_bytes (xsize_of sz)) (mem s) (reg s v + imm) = Some val ->
  insn_ok st (Gen.host_address env v imm;; r ← map_vm_reg vd; emit_load_sext sz temp_reg r 0)
    (set_reg vd (u32 (sext (xsize_of sz) val)) s).
Proof using Y HS H0 HE HM.
  intros G Hv Hi Ha Hd Hd0 Hsz Hr. apply runs_assoc_dep.
  eapply insn_ok_op; [done..|by apply runs_load_operands|].
  intros r st1 W1 Hrm1 Hh Xr Cr. assert (is_xreg temp_reg) by done.
  assert (maps_x0 (register_map st1) r = false) as Hx0.
  { rewrite (maps_x0_holds _ _ _ Hrm1 Hh). by apply Z.eqb_neq. }
  exists [Load (xsize_of sz) true r RCX 0]. split.
  { eapply emits_eq; [by eapply emits_LoadSx|by rewrite encode_all_1|]. change (0 =? 0) with true. dirty_norm; done. }
  split.
  { apply Forall_cons. split; [|by apply Forall_nil]. split; [done|]. split; [apply base_rcx|].
    split; [done|]. by destruct Hsz as [-> | ->]. }
  intros x HL R Ea. destruct (mem_read_bounds y s HM _ _ _ (proj1 Ha) Hr) as [Hb ->].
  intros n k. cbn [exec]. rewrite Ea, ram_address by done.
  rewrite (hload_ram y fr s _ _ _ _ _ R) by (done || lia). cbn [mbind option_bind].
  eexists. split; [done|]. split; [auto 12 with frame|]. by xlook.
Qed.

(** The store itself; a register that stands for [x0] is stored as the constant 0. *)
Lemma runs_store st sz r v a m' :
  good st -> holds (register_map st) r v -> is_reg v -> 0 <= a < 0x100000000 -> sz <> S64 ->
  mem_write (size_bytes (xsize_of sz)) (mem s) a (reg s v) = Some m' ->
  runs st (emit_store sz r temp_reg 0) (fun _ st' =>
    gop st st' (agrees_and (at_address a) st) (agrees (set_mem m' s) st')).
Proof using Y H0 HM.
  intros G Hh Hv Ha Hsz Hw. pose proof G as [W Hrm _].
  destruct (holds_xreg _ _ _ Hrm Hh) as (Xr & Cr & _). assert (is_xreg temp_reg) by done.
  destruct (mem_write_bounds y s HM _ _ _ _ (proj1 Ha) Hw) as [Hb ->].
  set (s' := set_mem _ s).
  assert (exists (i : xinsn) (d : bool), emits st (emit_store sz r temp_reg 0) (encode_all [i])
      (if d then upd r (set_dirty_flag false) (register_map st) else register_map st) /\
    wf_xinsn i /\ (d = true -> v = 0) /\
    forall x n, xreg x RCX = ram_ptr y + a -> xreg x r = reg s v -> exec i n x =
      (m ← hstore (size_bytes (xsize_of sz)) (xmem x) (ram_ptr y + a) (reg s v); Some (Next (set_xmem m x))))
    as (i & d & Hem & Hwf & Hd & Hex).
  { destruct (Z.eqb_spec v 0) as [Ev|Ev].
    - exists (StoreI (xsize_of sz) RCX 0 0), true. split; [|split; [|split]].
      + eapply emits_eq; [apply emits_StoreZero; [done..|by rewrite (maps_x0_holds _ _ _ Hrm Hh), Ev]| |].
        * by rewrite encode_all_1.
        * dirty_norm; done.
      + split; [apply base_rcx|]. split; [done|]. by destruct sz.
      + done.
      + intros x n E1 E2. cbn [exec]. by rewrite E1, ram_address, Ev, H0 by done.
    - exists (Store (xsize_of sz) r RCX 0), false. split; [|split; [|split]].
      + eapply emits_eq; [apply emits_Store; [done..|]| |].
        * rewrite (maps_x0_holds _ _ _ Hrm Hh). by apply Z.eqb_neq.
        * by rewrite encode_all_1.
        * done.
      + split; [done|]. split; [apply base_rcx|]. done.
      + done.
      + intros x n E1 E2. cbn [exec]. by rewrite E1, ram_address, E2 by done. }
  set (rm' := if d then _ else _) in *.
  assert (rmwf rm') as Hrm' by (destruct d; [by eapply rmwf_held|done]).
  eapply runs_weaken.
  - apply (runs_insns base ext E st _ [i] rm' (agrees_and (at_address a) st)
      (st_rel y fr s' Kt [] [] rm') Hem); [wf_all|].
    intros x (R & _ & Ea) n k. rewrite (Hex x n Ea).
    2: { apply (holds_slot _ _ _ _ _ _ _ _ R Hh Hv), not_elem_of_nil. }
    destruct (relx_store_ram y Y fr s [] (register_map st) x _ a (reg s v) R (proj1 Ha) Hb) as (m1 & -> & R1).
    eexists. split; [done|]. cbn [wp]. split; [|split; [intros w []%elem_of_nil|done]].
    apply relx_rip. subst rm'. destruct d; [|done]. apply relx_undirty; [done..|].
    intros h Hh1 Er Hr. assert (vm_reg_idx h = 0) as ->.
    { rewrite <- (Hd eq_refl). apply (holds_fun _ r _ _ Hrm); [by exists h|done]. }
    apply (rx_mem _ _ _ _ _ _ R1); [done|apply not_elem_of_nil|by left].
  - cbv beta. intros _ st1 O. pose proof (op_rm _ _ _ _ _ _ _ _ O) as Er. unfold JitSim.agrees. rewrite Er.
    by eapply gop_op.
Qed.
Lemma ok_store st sz v imm v2 m' :
  good st -> is_reg v -> is_s32 imm -> 0 <= reg s v + imm < 0x100000000 -> is_reg v2 -> sz <> S64 ->
  mem_write (size_bytes (xsize_of sz)) (mem s) (reg s v + imm) (reg s v2) = Some m' ->
  insn_ok st (Gen.host_address env v imm;; r ← ra_load v2; emit_store sz r temp_reg 0) (set_mem m' s).
Proof using Y HS H0 HE HM.
  intros G Hv Hi Ha H2 Hsz Hw. apply runs_bind. eapply runs_weaken; [by apply runs_host_address|].
  cbv beta. intros _ st1 O1. pose proof (proj1 O1) as G1. apply runs_bind.
  eapply runs_weaken; [by apply (runs_ra_load base ext E y Y fr s HS (at_address (reg s v + imm)) H0)|].
  cbv beta. intros r st2 [O2 Hh]. eapply runs_weaken; [by eapply (runs_store st2 sz r v2); [apply O2|..]|].
  cbv beta. intros _ st3 O3. eapply gop_trans; [done|exact O1|]. eapply gop_trans; [done|exact O2|exact O3].
Qed.
End Insn.
