(* ===== verification/JitJump.v ===== *)
(** Jumps: inside the code of one guest instruction, to the code of another block, and to the
    epilogue; the guest instructions whose code has jumps: comparisons, branches and jumps. *)

From S2P Require Import Prelude.
From S2P Require Import Opcode.
From S2P Require Import Decode.
From S2P Require Import Machine.
From S2P Require Import Interp.
From S2P Require Import MachineFacts.
From S2P Require Import Utils.
From S2P Require Import JitEmit.
From S2P Require Import JitAlloc.
From S2P Require Import JitGen.
From S2P Require Import X86.
From S2P Require Import X86Proofs.
From S2P Require Import JitEmitProofs.
From S2P Require Import JitCode.
From S2P Require Import JitRel.
From S2P Require Import JitAllocProofs.
From S2P Require Import JitSim.
From S2P Require Import JitInsn.

(** Room for [n] more jumps. *)
Definition room (n : nat) (st : jst) : Prop := (length (jumps (js st)) + n <= 1024)%nat.

(** An invariant of the generator that depends on the register map and on what emission keeps. *)
Class generator_inv (I : jst -> Prop) : Prop := {
  inv_jwf : forall st, I st -> jwf (js st);
  inv_keep : forall st st', I st -> jwf (js st') -> same_rest st st' ->
    register_map st' = register_map st -> I st' }.

#[export] Instance good_inv : generator_inv good.
Proof.
  split; [by intros ? []|]. intros st st' G W R M. eapply (good_next st); [done..|]. apply G.
Qed.
(** The invariant at the end of a block, when no register is mapped any more. *)
Record sane (st : jst) : Prop := {
  sane_jwf : jwf (js st);
  sane_regs : reg_idx <$> register_map st = host_regs }.
#[export] Instance sane_inv : generator_inv sane.
Proof. split; [by intros ? []|]. intros st st' [] W R M. split; [done|]. by rewrite M. Qed.
Lemma good_sane st : good st -> sane st.
Proof. intros [? [] ?]. by split. Qed.

Section Jumps.
Context (base : Z) (ext : Z -> xstate -> option xstate) (E : Z -> xstate -> Prop).
Context (I : jst -> Prop) `{!generator_inv I}.

(** A piece of code with at most [n] jumps. *)
Record iop (n : nat) (st st' : jst) (P Q : xstate -> Prop) : Prop := {
  iop_good : I st';
  iop_same : same_rest st st';
  iop_jumps : (length (jumps (js st')) <= length (jumps (js st)) + n)%nat;
  iop_gen : gen base ext E st st' P Q }.

Lemma iop_op st st' rm P Q : I st' -> op base ext E st st' rm P Q -> iop 0 st st' P Q.
Proof using Type.
  intros G O. split; [done|apply O| |apply O]. rewrite (op_jumps _ _ _ _ _ _ _ _ O). lia.
Qed.
Lemma iop_trans n1 n2 n st1 st2 st3 P Q R :
  I st1 -> iop n1 st1 st2 P Q -> iop n2 st2 st3 Q R -> (n1 + n2 <= n)%nat -> iop n st1 st3 P R.
Proof.
  intros G [] [] Hn. split; [done|by etrans|lia|]. eapply gen_trans; [by apply inv_jwf|done..].
Qed.
Lemma iop_weaken n n' st st' (P P' Q Q' : xstate -> Prop) :
  iop n st st' P Q -> (n <= n')%nat -> (forall x, P' x -> P x) -> (forall x, Q x -> Q' x) ->
  iop n' st st' P' Q'.
Proof. intros [] Hn HP HQ. split; [done|done|lia|by eapply gen_weaken]. Qed.
Lemma iop_room n m st st' P Q : iop n st st' P Q -> room (n + m) st -> room m st'.
Proof. intros []. unfold room. lia. Qed.

Lemma runs_iop_bind {A B} n1 n2 n st (m : jitM A) (f : A -> jitM B) P Q R F H :
  I st -> room n st -> (n1 + n2 <= n)%nat ->
  runs st m (fun a st1 => iop n1 st st1 P (Q a st1) /\ F a st1) ->
  (forall a st1, I st1 -> room n2 st1 -> F a st1 ->
    runs st1 (f a) (fun b st2 => iop n2 st1 st2 (Q a st1) (R b st2) /\ H b st2)) ->
  runs st (m ≫= f) (fun b st2 => iop n st st2 P (R b st2) /\ H b st2).
Proof.
  intros G Hr Hn Hm Hf. apply runs_bind. eapply runs_weaken; [exact Hm|]. cbv beta. intros a st1 [O1 HF].
  eapply runs_weaken; [apply Hf; [apply O1| |done]|].
  - eapply (iop_room n1); [exact O1|]. unfold room in *. lia.
  - cbv beta. intros b st2 [O2 HH]. split; [by eapply iop_trans|done].
Qed.
Lemma runs_get_offset st (K : Z -> jst -> Prop) : K (offset (js st)) st -> runs st get_offset K.
Proof. intros H. exists (offset (js st)), st. split; [done|exact H]. Qed.
Lemma runs_add_jump st f (K : unit -> jst -> Prop) :
  room 1 st -> K tt (with_js (with_jumps (jumps (js st) ++ [f (js st)]) (js st)) st) ->
  runs st (add_jump f) K.
Proof.
  intros Hr HK. unfold add_jump. apply runs_bind, runs_jget, runs_bind, runs_assert.
  - unfold n_jumps, MAX_JUMPS, room in *. lia.
  - eexists tt, _. done.
Qed.

(** ** Layout *)

Lemma lay_jcc c j j' : appended (jop (Some c) ++ le 4 0) j j' -> lay j j' [SJ (Some c) None].
Proof.
  intros [-> H]. split; cbn; try done.
  - exists []. by rewrite app_nil_r.
  - apply Forall_cons. split; [done|by apply Forall_nil].
Qed.
(** The record of a jump over [l] is made when [l] has been emitted. *)
Lemma lay_patch c j j1 l :
  jwf j -> lay j j1 (SJ (Some c) None :: l) ->
  lay j (with_jumps (jumps j1 ++ [mk_jump (offset j + 2) 0 (offset j1)]) j1)
    (SJ (Some c) (Some (TOff (offset j + 6 + csize l))) :: l).
Proof.
  intros W [Lo Lf Lb (new & Ln & Lp) Ls Lw].
  assert (slen (SJ (Some c) None) = 6) as Hs by (by rewrite slen_jump).
  rewrite csize_cons, Hs in Lo. pose proof (csize_nonneg l). pose proof (jwf_offset _ W).
  apply Forall_cons in Lw as [_ Lw].
  split; cbn [offset jsize buf jumps with_jumps]; try done.
  - rewrite csize_cons, slen_jump. cbn. lia.
  - exists (new ++ [mk_jump (offset j + 2) 0 (offset j1)]). rewrite Ln, app_assoc. split; [done|].
    rewrite Permutation_app_comm. cbn [app records]. rewrite slen_jump. cbn [length jop].
    replace (offset j + (Z.of_nat 2 + 4) - 4) with (offset j + 2) by lia. cbn [rec_of].
    replace (offset j + 6 + csize l) with (offset j1) by lia. constructor. rewrite Lp. cbn [records].
    by rewrite slen_jump.
  - apply Forall_cons. split; [|done]. cbn. lia.
Qed.

Lemma runs_emit_jmp st pc (K : unit -> jst -> Prop) :
  jwf (js st) -> room 1 st ->
  (forall st', jwf (js st') -> same_rest st st' -> register_map st' = register_map st ->
    (length (jumps (js st')) = S (length (jumps (js st)))) ->
    (should_flush st' = false -> should_flush st = false /\
       lay (js st) (js st') [SJ None (Some (TPc (u32 pc)))]) -> K tt st') ->
  runs st (emit_jmp pc) K.
Proof.
  intros W Hr HK. unfold emit_jmp, emit_jump_target_address. apply runs_bind.
  destruct (emits_emit1 st _ W eq_refl JCC_JMP 0xe9 eq_refl) as (s1 & E1 & W1 & R1 & J1 & M1 & A1 & _).
  exists tt, s1. split; [done|]. apply runs_bind, runs_add_jump; [unfold room in *; by rewrite J1|].
  set (s2 := with_js _ _).
  assert (jwf (js s2)) as W2 by (destruct W1; by split).
  destruct (emits_emit4 s2 _ W2 eq_refl 0) as (s3 & E3 & W3 & R3 & J3 & M3 & A3 & _).
  exists tt, s3. split; [done|]. apply HK.
  - done.
  - etrans; [exact R1|]. etrans; [|exact R3]. by split.
  - rewrite M3. exact M1.
  - rewrite J3. cbn. rewrite length_app, J1. cbn. lia.
  - intros F. destruct (A3 F) as [F2 B3]. destruct (A1 F2) as [F0 B1]. split; [done|].
    destruct B1 as [B1 C1]. destruct B3 as [B3 C3]. cbn [js with_js] in *.
    destruct W. rewrite B3. subst s2. cbn [js with_js with_jumps with_code offset buf jsize jumps].
    rewrite B1. cbn [with_code offset buf jsize jumps].
    rewrite B1 in C3. cbn in C3.
    split; cbn [with_code offset buf jsize jumps].
    + unfold csize, raw_all. cbn. lia.
    + cbn. lia.
    + rewrite buf_write_app by (cbn; lia). done.
    + eexists. split; [done|]. cbn. rewrite slen_jump. cbn.
      replace (offset (js st) + _ - 4) with (offset (js st) + 1) by lia. done.
    + done.
    + apply Forall_cons. split; [done|by apply Forall_nil].
Qed.

Lemma emits_jcc st c :
  jwf (js st) -> emits st (emit_jcc_offset (cond_code c)) (jop (Some c) ++ le 4 0) (register_map st).
Proof.
  intros W. unfold emit_jcc_offset. replace (negb _) with true by (by destruct c). cbn [jwhen].
  emit_with ltac:(do 2 estep; elast). cbn. by destruct c.
Qed.

Definition with_record (p : jump_t) (st : jst) : jst :=
  with_js (with_jumps (jumps (js st) ++ [p]) (js st)) st.
Lemma inv_record p st : I st -> I (with_record p st).
Proof using generator_inv0. intros G. apply (inv_keep st); [done| |by split|done]. by destruct (inv_jwf _ G). Qed.

(** A conditional jump over [body]. *)
Lemma runs_jcc_over n st c (body : jitM unit) (P P1 : xstate -> Prop) (Q : list host_reg -> xstate -> Prop) :
  I st -> room (S n) st ->
  (forall st1, I st1 -> room n st1 -> register_map st1 = register_map st ->
    runs st1 body (fun _ st2 => iop n st1 st2 P1 (Q (register_map st2)) /\
      forall x, P x -> exists f, xflags x = Some f /\ forall k,
        if exec_cond c f then Q (register_map st2) (set_rip k x) else P1 (set_rip k x))) ->
  runs st (jump_loc_0 ← get_offset; emit_jcc_offset (cond_code c);; body;;
           off ← get_offset; emit_jump_target_offset (jump_loc_0 + 2) off)
    (fun _ st' => iop (S n) st st' P (Q (register_map st'))).
Proof.
  intros G Hr Hb. apply runs_bind, runs_get_offset, runs_bind.
  destruct (emits_jcc st c (inv_jwf _ G)) as (s1 & E1 & W1 & R1 & J1 & M1 & A1 & _).
  exists tt, s1. split; [done|].
  assert (I s1) as G1 by (by apply (inv_keep st)).
  apply runs_bind. eapply runs_weaken.
  { apply (Hb s1 G1); [unfold room in *; rewrite J1; lia|done]. }
  cbv beta. intros _ s2 [[G2 R2 J2 Hg] HP]. apply runs_bind, runs_get_offset, runs_add_jump.
  { unfold room in *. rewrite J1 in J2. lia. }
  change (with_js _ s2) with (with_record (mk_jump (offset (js st) + 2) 0 (offset (js s2))) s2).
  split.
  - by apply inv_record.
  - etrans; [exact R1|]. etrans; [exact R2|]. by split.
  - cbn. rewrite length_app, J1 in *. cbn. lia.
  - intros F. destruct (Hg F) as [F1 (l & L & N & S)]. destruct (A1 F1) as [F0 B1]. split; [done|].
    pose proof (lay_app _ _ _ _ _ (inv_jwf _ G) (lay_jcc _ _ _ B1) L) as L'. cbn [app] in L'.
    eexists. split; [exact (lay_patch _ _ _ _ (inv_jwf _ G) L')|]. split.
    + intros c' [?|?]%elem_of_cons; [done|]. by eapply N.
    + apply sim_jcc_over with P1; [|exact HP].
      replace (offset (js st) + 6) with (offset (js s1)); [exact S|].
      destruct B1 as [-> _]. cbn. lia.
Qed.
(** A conditional jump from [body], which leaves the block, to [rest]. *)
Lemma runs_jcc_else n1 n2 st c (body rest : jitM unit) (P P1 P2 Q : xstate -> Prop) :
  I st -> room (S (n1 + n2)) st ->
  (forall st1, I st1 -> room n1 st1 -> register_map st1 = register_map st ->
    runs st1 body (fun _ st2 => iop n1 st1 st2 P1 (fun _ => False) /\
      register_map st2 = register_map st)) ->
  (forall st2, I st2 -> room n2 st2 -> register_map st2 = register_map st ->
    runs st2 rest (fun _ st3 => iop n2 st2 st3 P2 Q)) ->
  (forall x, P x -> exists f, xflags x = Some f /\ forall k,
     if exec_cond c f then P2 (set_rip k x) else P1 (set_rip k x)) ->
  runs st (jump_loc_0 ← get_offset; emit_jcc_offset (cond_code c);; body;;
           off ← get_offset; emit_jump_target_offset (jump_loc_0 + 2) off;; rest)
    (fun _ st' => iop (S (n1 + n2)) st st' P Q).
Proof.
  intros G Hr Hb Hrest HP. apply runs_bind, runs_get_offset, runs_bind.
  destruct (emits_jcc st c (inv_jwf _ G)) as (s1 & E1 & W1 & R1 & J1 & M1 & A1 & _).
  exists tt, s1. split; [done|].
  assert (I s1) as G1 by (by apply (inv_keep st)).
  apply runs_bind. eapply runs_weaken.
  { apply (Hb s1 G1); [unfold room in *; rewrite J1; lia|done]. }
  cbv beta. intros _ s2 [[G2 R2 J2 Hg] M2]. apply runs_bind, runs_get_offset, runs_bind, runs_add_jump.
  { unfold room in *. rewrite J1 in J2. lia. }
  change (with_js _ s2) with (with_record (mk_jump (offset (js st) + 2) 0 (offset (js s2))) s2).
  set (s2' := with_record _ s2). eapply runs_weaken.
  { apply (Hrest s2'); [by apply inv_record| |done].
    unfold room in *. cbn. rewrite length_app, J1 in *. cbn. lia. }
  cbv beta. intros _ s3 [G3 R3 J3 Hg3]. split.
  - done.
  - etrans; [exact R1|]. etrans; [exact R2|]. etrans; [|exact R3]. by split.
  - subst s2'. cbn in J3. rewrite length_app, J1 in *. cbn in J3. lia.
  - intros F3. destruct (Hg3 F3) as [F2 (l2 & L2 & N2 & S2)].
    destruct (Hg F2) as [F1 (l1 & L1 & N1 & S1)]. destruct (A1 F1) as [F0 B1]. split; [done|].
    pose proof (lay_app _ _ _ _ _ (inv_jwf _ G) (lay_jcc _ _ _ B1) L1) as L'. cbn [app] in L'.
    pose proof (lay_patch _ _ _ _ (inv_jwf _ G) L') as Lp.
    pose proof (lay_app _ _ _ _ _ (inv_jwf _ G) Lp L2) as Lf.
    eexists. split; [exact Lf|]. cbn [app].
    assert (offset (js s1) = offset (js st) + 6) as Eo by (destruct B1 as [-> _]; cbn; lia).
    split.
    + intros c' [?|[?|?]%elem_of_app]%elem_of_cons; [done|by eapply N1|by eapply N2].
    + apply sim_jcc_else with P1 P2; [by rewrite <- Eo| |exact HP].
      replace (offset (js st) + 6 + csize l1) with (offset (js s2)) by (rewrite (lay_offset _ _ _ L1); lia).
      exact S2.
Qed.

(** A jump to a guest address, or on if its block has no code; the jump to the epilogue. *)
Lemma runs_jump st pc (P : xstate -> Prop) :
  I st -> room 1 st -> (forall x k, P x -> P (set_rip k x)) -> (forall x, P x -> E (u32 pc) x) ->
  runs st (emit_jmp pc) (fun _ st' => iop 1 st st' P P /\ register_map st' = register_map st).
Proof.
  intros G Hr Hrip HE. apply runs_emit_jmp; [by apply inv_jwf|done|]. intros st' W R M J A. split; [|done].
  split; [|done|lia|].
  - by apply (inv_keep st).
  - intros F. destruct (A F) as [F0 L]. split; [done|]. eexists. split; [exact L|]. split.
    + intros c. by rewrite list_elem_of_singleton.
    + by apply sim_jmp_pc.
Qed.
Lemma runs_exit st (P : xstate -> Prop) :
  I st -> room 1 st -> (forall x k, P x -> E TARGET_PC_EXIT (set_rip k x)) ->
  runs st emit_exit (fun _ st' => iop 1 st st' P (fun _ => False) /\ register_map st' = register_map st).
Proof.
  intros G Hr HE. change emit_exit with (emit_jmp TARGET_PC_EXIT).
  apply runs_emit_jmp; [by apply inv_jwf|done|]. intros st' W R M J A. split; [|done].
  split; [|done|lia|].
  - by apply (inv_keep st).
  - intros F. destruct (A F) as [F0 L]. split; [done|]. eexists. split; [exact L|]. split.
    + intros c. by rewrite list_elem_of_singleton.
    + change (u32 TARGET_PC_EXIT) with TARGET_PC_EXIT. by apply sim_exit.
Qed.
End Jumps.

Lemma iop_gop base ext E st st' P Q : gop base ext E st st' P Q -> iop base ext E good 0 st st' P Q.
Proof. intros [G O]. by eapply iop_op. Qed.
Lemma iop_sane base ext E n st st' P Q :
  iop base ext E good n st st' P Q -> iop base ext E sane n st st' P Q.
Proof. intros []. split; [by apply good_sane|done..]. Qed.

Section Compare.
Context (base : Z) (ext : Z -> xstate -> option xstate) (E : Z -> xstate -> Prop).
Context (y : host_layout) (Y : layout_ok y) (fr : host_frame) (s : riscv).
Context (HS : wf_regs s) (H0 : reg s 0 = 0).
#[local] Abbreviation gop := (gop base ext E).
#[local] Abbreviation iop := (iop base ext E good).
#[local] Abbreviation agrees := (agrees y fr).
#[local] Abbreviation agrees_and := (agrees_and y fr s).
#[local] Abbreviation dst_state := (dst_state y fr s).

(** The flags are those of the comparison of [a] with [b]. *)
Definition compared (a b : Z) : Z -> option flags -> Prop := fun _ f => f = Some (sub_flags false a b).

Lemma relx_dirty ex rm x r v d :
  rmwf rm -> holds rm r v -> is_reg v -> (d = false -> hload 4 (xmem x) (xaddr y v) = Some (reg s v)) ->
  relx y fr ex rm s x -> relx y fr ex (upd r (set_dirty_flag d) rm) s x.
Proof using Type.
  intros Hrm Hh Hv Hd R. destruct d.
  - destruct R. split; try done.
    + intros h (h0 & Hh0 & ->)%elem_of_upd. destruct (reg_idx h0 =? r); cbn; auto.
    + intros w Hw Hx HD. apply rx_mem; [done..|]. destruct HD as [->|HD]; [by left|]. right.
      intros h0 Hh0 Ev. destruct (Z.eqb_spec (reg_idx h0) r) as [Er|Er].
      * specialize (HD (set_dirty_flag true h0)). cbn in HD. assert (true = false); [|done]. apply HD; [|done].
        apply elem_of_upd. exists h0. split; [done|]. by rewrite Er, Z.eqb_refl.
      * apply (HD h0); [|done]. apply elem_of_upd. exists h0. split; [done|].
        by replace (reg_idx h0 =? r) with false by lia.
  - apply relx_undirty; [done..|]. intros h Hh1 Er Hr.
    rewrite (holds_fun rm r (vm_reg_idx h) v); [auto|done|by exists h|done].
Qed.

(** A comparison leaves registers alone; it marks the first operand dirty. *)
Lemma runs_compare st m i r v a b :
  good st -> holds (register_map st) r v -> is_reg v -> wf_xinsn i ->
  emits st m (encode_all [i]) (upd r (set_dirty_flag true) (register_map st)) ->
  (forall x n, agrees s st x -> exec i n x = Some (Next (set_flags (Some (sub_flags false a b)) x))) ->
  runs st m (fun _ st' => gop st st' (agrees s st) (agrees_and (compared a b) st') /\
    register_map st' = upd r (set_dirty_flag true) (register_map st)).
Proof using Type.
  intros G Hh Hv Hi Hem Hex. pose proof (good_rm _ G) as Hrm. eapply runs_weaken.
  - apply (runs_insns base ext E st m [i] _ (agrees s st)
      (st_rel y fr s (compared a b) [] [] (upd r (set_dirty_flag true) (register_map st))) Hem).
    + wf_all.
    + intros x Hx n k. eexists. split; [by apply Hex|]. cbn [wp]. destruct Hx as [R _].
      split; [|split; [intros w []%elem_of_nil|done]].
      apply relx_rip, relx_flags. by eapply relx_dirty.
  - cbv beta. intros _ st' O. pose proof (op_rm _ _ _ _ _ _ _ _ O) as Er. split; [|done].
    unfold JitInsn.agrees_and. rewrite Er. eapply gop_op; [done| |exact O]. by eapply rmwf_held.
Qed.
Lemma runs_cmp_reg st r0 r1 v0 v1 :
  good st -> holds (register_map st) r0 v0 -> holds (register_map st) r1 v1 -> is_reg v0 -> is_reg v1 ->
  runs st (emit_cmp32 r1 r0) (fun _ st' =>
    gop st st' (agrees s st) (agrees_and (compared (reg s v0) (reg s v1)) st') /\
    register_map st' = upd r0 (set_dirty_flag true) (register_map st)).
Proof using HS.
  intros G H1 H2 Hv0 Hv1. pose proof G as [W Hrm _].
  destruct (holds_xreg _ _ _ Hrm H1) as (X0 & _). destruct (holds_xreg _ _ _ Hrm H2) as (X1 & _).
  eapply (runs_compare st _ (Alu false Xcmp r1 r0)); [done..| |].
  - unfold emit_cmp32. change 0x39 with (alu_opcode Xcmp). core_emit.
  - intros x n [R _]. cbn [exec]. unfold exec_alu. cbn [alu width].
    rewrite (holds_slot _ _ _ _ _ _ _ _ R H1 Hv0), (holds_slot _ _ _ _ _ _ _ _ R H2 Hv1) by apply not_elem_of_nil.
    rewrite !u32_small by (apply reg_is_u32, HS). done.
Qed.
Lemma runs_cmp_imm st r0 v0 imm :
  good st -> holds (register_map st) r0 v0 -> is_reg v0 -> is_s32 imm ->
  runs st (emit_cmp_imm32 r0 imm) (fun _ st' =>
    gop st st' (agrees s st) (agrees_and (compared (reg s v0) (u32 imm)) st') /\
    register_map st' = upd r0 (set_dirty_flag true) (register_map st)).
Proof using HS.
  intros G H1 Hv0 Hi. pose proof G as [W Hrm _].
  destruct (holds_xreg _ _ _ Hrm H1) as (X0 & _).
  eapply (runs_compare st _ (AluI false Xcmp r0 imm)); [done..| |].
  - unfold emit_cmp_imm32. change 7 with (alu_ext Xcmp). core_emit.
  - intros x n [R _]. cbn [exec]. unfold exec_alu. cbn [alu width].
    rewrite (holds_slot _ _ _ _ _ _ _ _ R H1 Hv0) by apply not_elem_of_nil.
    by rewrite (u32_small (reg s v0)) by (apply reg_is_u32, HS).
Qed.

(** ** Set on a condition *)

Lemma dst_state_rip v st B x k :
  (forall x k, B x -> B (set_rip k x)) -> dst_state v st B x -> dst_state v st B (set_rip k x).
Proof using Type. intros HB [R Hb]. split; [by apply relx_rip|auto]. Qed.

Lemma runs_set_on st c r v a b :
  good st -> room 1 st -> holds (register_map st) r v -> is_reg v -> v <> 0 -> is_u32 a -> is_u32 b ->
  runs st (Gen.set_on (cond_code c) r) (fun _ st' =>
    iop 1 st st' (dst_state v st (fun x => knows (compared a b) x))
      (agrees (set_reg v (if cond_holds c a b then 1 else 0) s) st')).
Proof using HS.
  intros G Hroom Hh Hv Hv0 Ha Hb. pose proof G as [W Hrm _].
  destruct (holds_xreg _ _ _ Hrm Hh) as (Xr & Cr & _). unfold Gen.set_on.
  set (B := fun x : xstate => xreg x r = 1 /\ xflags x = Some (sub_flags false a b)).
  apply runs_bind. eapply runs_weaken.
  { apply (runs_work base ext E y fr s st _ [MovI r (u32 1)] r v
      (dst_state v st (fun x => knows (compared a b) x)) B true G Hh Hv); [core_emit|wf_all|].
    intros x [R HK]. split; [exact R|]. pose proof (rx_len _ _ _ _ _ _ R). wp1. cbn [wp].
    split; [auto 12 with frame|]. split; [by xlook|exact HK]. }
  cbv beta. intros _ st1 [O1 M1]. pose proof (proj1 O1) as G1.
  assert (holds (register_map st1) r v) as Hh1 by (rewrite M1; by apply holds_dirty).
  set (cb := cond_holds c a b). set (s' := set_reg v (if cb then 1 else 0) s).
  eapply runs_weaken.
  { apply (runs_jcc_over base ext E good 0 st1 c (emit_load_imm r 0) (dst_state v st1 B)
      (fun x => dst_state v st1 B x /\ cb = false) (fun rm => st_rel y fr s' Kt [] [] rm)); [done| |].
    { eapply (iop_room base ext E good 0); [apply iop_gop; exact O1|done]. }
    intros st2 G2 _ M2. pose proof G2 as [W2 Hrm2 _].
    assert (holds (register_map st2) r v) as Hh2 by (by rewrite M2). eapply runs_weaken.
    - apply (runs_work base ext E y fr s st2 _ [MovI r (u32 0)] r v
        (fun x => dst_state v st1 B x /\ cb = false) (fun x => xreg x r = 0 /\ cb = false) true G2 Hh2 Hv);
        [clear M2; core_emit|wf_all|].
      intros x [[R _] Hcb]. rewrite M2. split; [exact R|]. pose proof (rx_len _ _ _ _ _ _ R). wp1. cbn [wp].
      split; [auto 12 with frame|]. split; [by xlook|done].
    - cbv beta. intros _ st3 [O3 M3].
      assert (register_map st3 = register_map st1) as M31 by (rewrite M3, M2, M1; by rewrite upd_upd).
      assert (forall x w, relx y fr [v] (register_map st3) s x -> xreg x r = w -> w = (if cb then 1 else 0) ->
        st_rel y fr s' Kt [] [] (register_map st3) x) as Hfin.
      { intros x w R Ew Hw. split; [|split; [intros ? []%elem_of_nil|done]].
        destruct Hh as (h & Hh & Er & Ev). subst s'. rewrite <- Hw.
        apply (relx_final y fr v _ s x (set_dirty_flag true h)); try done; [apply O3| |by cbn; rewrite Er].
        rewrite M31, M1. apply elem_of_upd. exists h. split; [done|]. by rewrite Er, Z.eqb_refl. }
      split.
      + eapply iop_weaken; [apply iop_gop; exact O3|lia|done|]. cbv beta. intros z [R [Ez Ecb]].
        apply (Hfin z 0); [done..|]. by rewrite Ecb.
      + intros x [R [Ex Hf]]. rewrite <- M31 in R. exists (sub_flags false a b). split; [exact Hf|].
        intros k. rewrite exec_cond_sub by done. fold cb. destruct cb eqn:Ecb.
        * apply (Hfin _ 1); [by apply relx_rip|exact Ex|done].
        * split; [|done]. apply dst_state_rip; [by unfold B|]. rewrite M31 in R. split; [exact R|done]. }
  cbv beta. intros _ st2 O2. eapply (iop_trans _ _ _ _ 0 1); [done|apply iop_gop; exact O1|exact O2|lia].
Qed.

(** The code represents the step of the guest from [s] to [s'], with at most [n] jumps. *)
Definition insn_iop (n : nat) (st : jst) (m : jitM unit) (s' : riscv) : Prop :=
  runs st m (fun _ st' => iop n st st' (agrees s st) (agrees s' st')).
Lemma insn_iop_ok n st m s' : insn_ok base ext E y fr s st m s' -> insn_iop n st m s'.
Proof using Type.
  intros H. eapply runs_weaken; [exact H|]. cbv beta. intros _ st' O.
  eapply iop_weaken; [by apply iop_gop|lia|done|done].
Qed.

Lemma ok_slt_imm st c v imm vd :
  good st -> room 1 st -> is_reg v -> is_reg vd -> vd <> 0 -> is_s32 imm ->
  insn_iop 1 st (r0 ← ra_load v; emit_cmp_imm32 r0 imm;; r1 ← map_vm_reg_reserved vd r0;
                 Gen.set_on (cond_code c) r1)
    (set_reg vd (if cond_holds c (reg s v) (u32 imm) then 1 else 0) s).
Proof using Y HS H0.
  intros G Hroom Hv Hd Hd0 Hi. unfold insn_iop. apply runs_bind.
  eapply runs_weaken; [by apply (runs_ra_load base ext E y Y fr s HS Kt H0)|].
  cbv beta. intros r0 st1 [O1 Hh]. pose proof (proj1 O1) as G1. apply runs_bind.
  eapply runs_weaken; [by eapply (runs_cmp_imm st1 r0 v imm)|]. cbv beta. intros _ st2 [O2 M2].
  pose proof (proj1 O2) as G2. apply runs_bind. eapply runs_weaken.
  { apply (runs_dst_and base ext E y Y fr s HS H0 (compared (reg s v) (u32 imm)) _ st2 vd [] G2 Hd);
      [apply free_entry1, G2|by apply Forall_nil]. }
  cbv beta. intros r1 st3 (O3 & Hh3 & _). pose proof (proj1 O3) as G3.
  assert (gop st st3 (agrees s st) (dst_state vd st3 (fun x => knows (compared (reg s v) (u32 imm)) x))) as O.
  { eapply gop_trans; [done|exact O1|]. eapply gop_trans; [done|exact O2|].
    eapply gop_weaken; [exact O3|done|]. intros x [R [HK _]]. by split. }
  eapply runs_weaken.
  { apply (runs_set_on st3 c r1 vd (reg s v) (u32 imm)); [done| |done..|apply reg_is_u32, HS|apply is_u32_u32].
    eapply (iop_room base ext E good 0 1); [apply iop_gop; exact O|done]. }
  cbv beta. intros _ st4 O4. eapply (iop_trans _ _ _ _ 0 1); [done|apply iop_gop; exact O|exact O4|lia].
Qed.

Lemma runs_cmp_dst st r0 r1 v0 v1 vd :
  good st -> holds (register_map st) r0 v0 -> is_reg v0 -> is_xreg r1 ->
  runs st (emit_cmp32 r1 r0) (fun _ st' =>
    gop st st' (dst_state vd st (operands s [(r0, v0); (r1, v1)]))
      (dst_state vd st' (fun x => knows (compared (reg s v0) (reg s v1)) x)) /\
    register_map st' = upd r0 (set_dirty_flag true) (register_map st)).
Proof using HS.
  intros G H1 Hv0 X1. pose proof G as [W Hrm _]. destruct (holds_xreg _ _ _ Hrm H1) as (X0 & _).
  eapply runs_weaken.
  - apply (runs_insns base ext E st _ [Alu false Xcmp r1 r0] (upd r0 (set_dirty_flag true) (register_map st))
      (dst_state vd st (operands s [(r0, v0); (r1, v1)]))
      (fun x => relx y fr [vd] (upd r0 (set_dirty_flag true) (register_map st)) s x /\
        knows (compared (reg s v0) (reg s v1)) x)).
    + unfold emit_cmp32. change 0x39 with (alu_opcode Xcmp). core_emit.
    + wf_all.
    + intros x [R Ho]. apply Forall_cons in Ho as [E1 Ho]. apply Forall_cons in Ho as [E2 _].
      wp1. cbn [wp]. unfold exec_alu. cbn [alu width]. rewrite E1, E2.
      rewrite !u32_small by (apply reg_is_u32, HS).
      split; [apply relx_rip, relx_flags; by eapply relx_dirty|done].
  - cbv beta. intros _ st' O. pose proof (op_rm _ _ _ _ _ _ _ _ O) as Er. split; [|done].
    unfold JitInsn.dst_state at 2. rewrite Er. eapply gop_op; [done| |exact O]. by eapply rmwf_held.
Qed.
Lemma ok_slt_reg st c v0 v1 vd :
  good st -> room 1 st -> is_reg v0 -> is_reg v1 -> is_reg vd -> vd <> 0 ->
  insn_iop 1 st ('(r0, r1) ← ra_load2 v0 v1; r2 ← map_vm_reg_reserved2 vd r0 r1; emit_cmp32 r1 r0;;
                 Gen.set_on (cond_code c) r2)
    (set_reg vd (if cond_holds c (reg s v0) (reg s v1) then 1 else 0) s).
Proof using Y HS H0.
  intros G Hroom Hv0 Hv1 Hd Hd0. unfold insn_iop. apply runs_bind.
  eapply runs_weaken; [by apply (runs_ra_load2 base ext E y Y fr s HS Kt H0)|].
  cbv beta. intros [r0 r1] st1 (O1 & Hh0 & Hh1). cbn [fst snd] in *. pose proof (proj1 O1) as G1.
  destruct (holds_xreg _ _ _ (good_rm _ G1) Hh1) as (X1 & _).
  apply runs_bind. eapply runs_weaken.
  { apply (runs_dst base ext E y Y fr s HS H0 _ st1 vd [(r0, v0); (r1, v1)] G1 Hd).
    - by eapply (free_entry _ _ r0 r1); [apply G1|].
    - apply Forall_cons. split; [|apply Forall_cons; split; [|by apply Forall_nil]];
        (split; [done|]; split; [done|]); intros h <-; rewrite Z.eqb_refl, ?orb_true_r; done. }
  cbv beta. intros r2 st2 (O2 & Hh2 & Hk). pose proof (proj1 O2) as G2.
  apply Forall_cons in Hk as [Hk0 Hk]. apply runs_bind.
  eapply runs_weaken; [by apply (runs_cmp_dst st2 r0 r1 v0 v1 vd)|]. cbv beta. intros _ st3 [O3 M3].
  assert (gop st st3 (agrees s st) (dst_state vd st3 (fun x => knows (compared (reg s v0) (reg s v1)) x))) as O.
  { eapply gop_trans; [done|exact O1|]. eapply gop_trans; [done|exact O2|exact O3]. }
  eapply runs_weaken.
  { apply (runs_set_on st3 c r2 vd (reg s v0) (reg s v1)); [apply O3| | |done..|apply reg_is_u32, HS|apply reg_is_u32, HS].
    - eapply (iop_room base ext E good 0 1); [apply iop_gop; exact O|done].
    - rewrite M3. by apply holds_dirty. }
  cbv beta. intros _ st4 O4. eapply (iop_trans _ _ _ _ 0 1); [done|apply iop_gop; exact O|exact O4|lia].
Qed.
End Compare.
