(* ===== verification/JitLeave.v ===== *)
(** Leaving a block: the guest registers go back to memory, and control goes on to the code of
    the next block, or to the epilogue with the guest address in memory. *)

From S2P Require Import Prelude.
From S2P Require Import Opcode.
From S2P Require Import Decode.
From S2P Require Import Machine.
From S2P Require Import Interp.
From S2P Require Import MachineFacts.
From S2P Require Import JitEmit.
From S2P Require Import JitAlloc.
From S2P Require Import JitGen.
From S2P Require Import X86.
From S2P Require Import X86Proofs.
From S2P Require Import JitEmitProofs.
From S2P Require Import JitCode.
From S2P Require Import JitRel.
From S2P Require Import JitAllocProofs.
From S2P Require Import JitSim.
From S2P Require Import JitInsn.
From S2P Require Import JitJump.

Lemma runs_ext {A} st (m m' : jitM A) K : (forall st, m' st = m st) -> runs st m K -> runs st m' K.
Proof. intros Ee (a & st' & E & HK). exists a, st'. by rewrite Ee. Qed.
Ltac assoc := intros ?; unfold mbind, jitM_bind; repeat case_match; congruence.

Section Leave.
Context (base : Z) (ext : Z -> xstate -> option xstate) (E : Z -> xstate -> Prop).
Context (y : host_layout) (Y : layout_ok y) (fr : host_frame).
#[local] Abbreviation iop := (iop base ext E sane).

(** Every guest register is in memory. *)
Definition home (s : riscv) : xstate -> Prop := rel y fr [] s.
Definition pc_stored (pc : Z) (x : xstate) : Prop :=
  hload 4 (xmem x) (rv_ptr y + offsetof_PC) = Some pc.
(** What is required of a state in which a block is left for the guest address [pc]. *)
Record exits (s : riscv) (pc : Z) : Prop := {
  exit_stored : forall x, home s x -> pc_stored pc x -> E TARGET_PC_EXIT x;
  exit_linked : forall x, home s x -> E pc x }.

Lemma home_frame s r x z :
  home s x -> frame r x z -> r <> RDI -> r <> RSP -> r <> RBP -> home s z.
Proof using Type.
  intros [] [Fl Fm Fr] N1 N2 N3. split; rewrite ?Fm, ?Fl; auto; try (rewrite Fr by done; done).
  intros h []%elem_of_nil.
Qed.
Lemma home_rip s x k : home s x -> home s (set_rip k x).
Proof using Type. apply relx_rip. Qed.
Lemma clean_home s rm x : all_clean rm -> rel y fr rm s x -> home s x.
Proof using Type.
  intros Hc []. split; try done; [intros h []%elem_of_nil|]. intros v Hv Hx _. apply rx_mem; [done..|].
  right. intros h Hh _. by apply Hc.
Qed.

Lemma home_store_pc s x w :
  home s x -> exists m', hstore 4 (xmem x) (rv_ptr y + offsetof_PC) w = Some m' /\
    home s (set_xmem m' x) /\ pc_stored (w mod 0x100 ^ Z.of_nat 4) (set_xmem m' x).
Proof using Y.
  intros R. pose proof R as R1. destruct R1.
  destruct (hstore_is_Some 4 (xmem x) (rv_ptr y + offsetof_PC) w) as [m' Hm].
  { intros b Hb. apply rx_mapped. unfold in_rv, offsetof_PC, offsetof_X in *. lia. }
  exists m'. split; [done|]. split.
  - eapply (relx_store_rv y Y fr s [] [] x 4); [done| | |done|].
    + unfold offsetof_PC. lia.
    + lia.
    + intros v Hv Hx _. rewrite (hload_hstore_other _ _ _ _ _ _ _ Hm).
      * apply rx_mem; [done..|]. right. intros h []%elem_of_nil.
      * unfold xaddr, offsetof_PC, is_reg, offsetof_X in *. lia.
  - unfold pc_stored. cbn [xmem set_xmem]. by apply (hload_hstore_same _ _ _ _ _ Hm).
Qed.

Lemma maps_x0_temp rm : reg_idx <$> rm = host_regs -> maps_x0 rm RCX = false.
Proof using Type.
  intros Hrm. apply not_true_is_false. intros [h [Hh [E1 _]%andb_prop]]%existsb_exists.
  apply list_elem_of_In in Hh. apply Z.eqb_eq in E1.
  destruct (host_regs_xreg (reg_idx h)) as (_ & ? & _); [by eapply host_reg_range|done].
Qed.

(** Code that keeps the register map. *)
Lemma runs_plain st m l (P Q : xstate -> Prop) :
  sane st -> emits st m (encode_all l) (register_map st) -> Forall wf_xinsn l ->
  (forall x, P x -> wp l Q x) ->
  runs st m (fun _ st' => iop 0 st st' P Q /\ register_map st' = register_map st).
Proof using Type.
  intros G Hem Hw HP. eapply runs_weaken; [by eapply (runs_insns base ext E st m l (register_map st) P Q)|].
  cbv beta. intros _ st' O. pose proof (op_rm _ _ _ _ _ _ _ _ O) as M. split; [|done].
  eapply iop_op; [|exact O]. eapply (inv_keep st); [done|apply O|apply O|done].
Qed.

(** The store of the temporary register as the program counter. *)
Lemma runs_store_temp_pc st s pc :
  sane st -> is_u32 pc ->
  runs st (emit_store S32 temp_reg parameter_reg0 offsetof_PC) (fun _ st' =>
    iop 0 st st' (fun x => home s x /\ xreg x RCX = pc) (fun x => home s x /\ pc_stored pc x) /\
    register_map st' = register_map st).
Proof using Y.
  intros G Hpc. pose proof G as [W Hrm]. assert (is_xreg temp_reg) by done.
  apply (runs_plain st _ [Store X32 RCX RDI offsetof_PC]); [done|..].
  - eapply emits_eq; [apply (emits_Store st _ W eq_refl S32); [done..|by apply maps_x0_temp]|by rewrite encode_all_1|].
    change (offsetof_PC =? 0) with false. cbv iota. by apply dirty_temp.
  - apply Forall_cons. split; [|by apply Forall_nil]. split; [done|]. split; [apply base_rdi|done].
  - intros x [R Ex] n k. cbn [exec size_bytes]. rewrite (rx_rdi _ _ _ _ _ _ R), Ex.
    replace (u64 (rv_ptr y + offsetof_PC)) with (rv_ptr y + offsetof_PC).
    2: { destruct Y as [[? ?] _ _ _]. symmetry. apply Z.mod_small. unfold offsetof_PC, offsetof_X in *. lia. }
    destruct (home_store_pc s x pc R) as (m' & -> & R' & Hp). eexists. split; [done|]. cbn [wp].
    split; [by apply home_rip|]. unfold pc_stored in *. cbn [xmem set_rip].
    rewrite Hp. f_equal. by apply u32_small.
Qed.
Lemma runs_store_pc st s pc :
  sane st ->
  runs st (Gen.store_pc pc) (fun _ st' =>
    iop 0 st st' (home s) (fun x => home s x /\ pc_stored (u32 pc) x) /\ register_map st' = register_map st).
Proof using Y.
  intros G. pose proof G as [W Hrm]. assert (is_xreg temp_reg) by done. unfold Gen.store_pc.
  apply runs_bind. eapply runs_weaken.
  { apply (runs_plain st _ [MovI RCX (u32 pc)] (home s) (fun x => home s x /\ xreg x RCX = u32 pc)); [done|..].
    - eapply emits_eq; [elast|by rewrite encode_all_1|by apply dirty_temp].
    - apply Forall_cons. split; [|by apply Forall_nil]. split; [done|apply is_u32_u32].
    - intros x R. pose proof (rx_len _ _ _ _ _ _ R). wp1. cbn [wp]. split.
      + eapply (home_frame _ RCX); [exact R|auto 12 with frame|done..].
      + xlook. apply u32_small, is_u32_u32. }
  cbv beta. intros _ st1 [O1 M1].
  eapply runs_weaken; [apply (runs_store_temp_pc st1 s (u32 pc)); [apply O1|apply is_u32_u32]|].
  cbv beta. intros _ st2 [O2 M2]. split; [by eapply (iop_trans _ _ _ _ 0 0)|congruence].
Qed.

Lemma runs_leave st s pc :
  sane st -> room 1 st -> exits s (u32 pc) ->
  runs st (Gen.store_pc pc;; emit_exit) (fun _ st' =>
    iop 1 st st' (home s) (fun _ => False) /\ register_map st' = register_map st).
Proof using Y.
  intros G Hr [Hx _]. apply runs_bind. eapply runs_weaken; [by apply (runs_store_pc st s pc)|].
  cbv beta. intros _ st1 [O1 M1].
  assert (room 1 st1) as Hr1 by (eapply (iop_room base ext E sane 0 1); [exact O1|done]).
  eapply runs_weaken.
  { apply (runs_exit base ext E sane st1 (fun x => home s x /\ pc_stored (u32 pc) x)); [apply O1|done|].
    intros x k [R Hp]. apply Hx; [by apply home_rip|exact Hp]. }
  cbv beta. intros _ st2 [O2 M2]. split; [|congruence].
  eapply (iop_trans _ _ _ _ 0 1); [done|exact O1|exact O2|lia].
Qed.
(** A jump to the next block if it is linked, else to the epilogue. *)
Lemma runs_link st s (linked : bool) pc :
  sane st -> room 2 st -> exits s (u32 pc) ->
  runs st (jwhen linked (emit_jmp pc);; (Gen.store_pc pc;; emit_exit)) (fun _ st' =>
    iop 2 st st' (home s) (fun _ => False) /\ register_map st' = register_map st).
Proof using Y.
  intros G Hr Hx. apply runs_bind. destruct linked; cbn [jwhen].
  - eapply runs_weaken.
    { apply (runs_jump base ext E sane st pc (home s)); [done|unfold room in *; lia| |apply Hx].
      intros x k. apply home_rip. }
    cbv beta. intros _ st1 [O1 M1].
    assert (room 1 st1) as Hr1 by (by eapply (iop_room base ext E sane 1 1)).
    eapply runs_weaken; [apply (runs_leave st1 s pc); [apply O1|done..]|].
    cbv beta. intros _ st2 [O2 M2]. split; [|congruence]. eapply (iop_trans _ _ _ _ 1 1); [done|exact O1|exact O2|lia].
  - apply runs_ret. eapply runs_weaken; [apply (runs_leave st s pc); [done|unfold room in *; lia|done]|].
    cbv beta. intros _ st2 [O2 M2]. split; [|done]. eapply iop_weaken; [exact O2|lia|done|done].
Qed.
End Leave.

(** Code for a case that does not occur. *)
Lemma iop_absurd base ext E E' I n st st' P Q Q' :
  iop base ext E' I n st st' P Q -> iop base ext E I n st st' (fun _ => False) Q'.
Proof.
  intros [G R J Hg]. split; [done..|]. intros F. destruct (Hg F) as [F0 (l & L & N & _)].
  split; [done|]. exists l. split; [done|]. split; [done|]. by intros B r x _ _ _ [].
Qed.

Section Terminators.
Context (base : Z) (ext : Z -> xstate -> option xstate) (E : Z -> xstate -> Prop).
Context (y : host_layout) (Y : layout_ok y) (fr : host_frame) (s : riscv).
Context (HS : wf_regs s) (H0 : reg s 0 = 0).
#[local] Abbreviation gop := (gop base ext E).
#[local] Abbreviation agrees := (agrees y fr).
#[local] Abbreviation home := (home y fr).
#[local] Abbreviation exits := (exits E y fr).

(** The code ends the block. *)
Definition leaves (n : nat) (st : jst) (m : jitM unit) : Prop :=
  runs st m (fun _ st' => iop base ext E sane n st st' (agrees s st) (fun _ => False)).

Lemma runs_link_if st (act linked : bool) pc :
  sane st -> room 2 st -> (act = true -> exits s (u32 pc)) ->
  runs st (jwhen linked (emit_jmp pc);; (Gen.store_pc pc;; emit_exit)) (fun _ st' =>
    iop base ext E sane 2 st st' (fun x => home s x /\ act = true) (fun _ => False) /\
    register_map st' = register_map st).
Proof using Y.
  intros G Hr Hx. destruct act.
  - eapply runs_weaken; [by apply (runs_link base ext E y Y fr st s linked pc); auto|].
    cbv beta. intros _ st' [O M]. split; [|done]. eapply iop_weaken; [exact O|lia|by intros x []|done].
  - eapply runs_weaken; [apply (runs_link base ext (fun _ _ => True) y Y fr st s linked pc); by auto|].
    cbv beta. intros _ st' [O M]. split; [|done].
    eapply iop_weaken; [exact (iop_absurd base ext E _ _ _ _ _ _ _ (fun _ => False) O)|lia|by intros x []|done].
Qed.

Lemma runs_flush K st :
  good st ->
  runs st store_back (fun _ st' =>
    gop st st' (agrees_and y fr s K st) (fun x => home s x /\ knows K x)).
Proof using Y HS.
  intros G. eapply runs_weaken; [by apply (runs_store_back base ext E y Y fr s HS K)|].
  cbv beta. intros _ st' (O & Hc & _). eapply gop_weaken; [exact O|done|].
  intros x (R & _ & HK). split; [by eapply clean_home|done].
Qed.

Lemma leaves_jump_to st target :
  good st -> room 2 st -> exits s (u32 target) -> leaves 2 st (Gen.jump_to target).
Proof using Y HS.
  intros G Hr Hx. unfold leaves, Gen.jump_to. apply runs_bind.
  eapply runs_weaken; [by apply (runs_flush Kt st)|]. cbv beta. intros _ st1 O1.
  assert (room 2 st1) as Hr1 by (eapply (iop_room base ext E good 0 2); [by apply iop_gop|done]).
  eapply runs_weaken.
  { apply (runs_link base ext E y Y fr st1 s true target); [apply good_sane, O1|done|done]. }
  cbv beta. intros _ st2 [O2 _]. eapply (iop_trans _ _ _ _ 0 2); [by apply good_sane|..|exact O2|lia].
  eapply iop_weaken; [apply iop_sane, iop_gop; exact O1|lia|done|]. by intros x [].
Qed.

(** The end of a conditional branch, after the comparison. *)
Lemma leaves_branch st c a b (l1 l2 : bool) pc1 pc2 :
  good st -> room 5 st -> is_u32 a -> is_u32 b ->
  exits s (u32 (if cond_holds c a b then pc2 else pc1)) ->
  runs st (store_back;;
    jump_loc_0 ← get_offset; emit_jcc_offset (cond_code c);;
    jwhen l1 (emit_jmp pc1);; Gen.store_pc pc1;; emit_exit;;
    off ← get_offset; emit_jump_target_offset (jump_loc_0 + 2) off;;
    jwhen l2 (emit_jmp pc2);; Gen.store_pc pc2;; emit_exit)
    (fun _ st' => iop base ext E sane 5 st st' (agrees_and y fr s (compared a b) st) (fun _ => False)).
Proof using Y HS.
  intros G Hr Ha Hb Hx. apply runs_bind. eapply runs_weaken; [by apply (runs_flush (compared a b) st)|].
  cbv beta. intros _ st1 O1.
  assert (room 5 st1) as Hr1 by (eapply (iop_room base ext E good 0 5); [by apply iop_gop|done]).
  set (cb := cond_holds c a b) in *.
  eapply runs_weaken.
  { eapply runs_ext; [|apply (runs_jcc_else base ext E sane 2 2 st1 c
      (jwhen l1 (emit_jmp pc1);; (Gen.store_pc pc1;; emit_exit))
      (jwhen l2 (emit_jmp pc2);; (Gen.store_pc pc2;; emit_exit))
      (fun x => home s x /\ knows (compared a b) x)
      (fun x => home s x /\ negb cb = true) (fun x => home s x /\ cb = true) (fun _ => False))].
    - assoc.
    - apply good_sane, O1.
    - done.
    - intros st2 G2 R2 M2. eapply runs_weaken; [apply (runs_link_if st2 (negb cb) l1 pc1 G2 R2)|].
      + by destruct cb.
      + cbv beta. intros _ st3 [O3 M3]. split; [exact O3|congruence].
    - intros st2 G2 R2 M2. eapply runs_weaken; [apply (runs_link_if st2 cb l2 pc2 G2 R2)|].
      + by destruct cb.
      + cbv beta. intros _ st3 [O3 M3]. exact O3.
    - intros x [Hh Hk]. exists (sub_flags false a b). split; [exact Hk|]. intros k.
      rewrite exec_cond_sub by done. fold cb. destruct cb; (split; [by apply home_rip|done]). }
  cbv beta. intros _ st2 O2. eapply (iop_trans _ _ _ _ 0 5); [by apply good_sane|..|exact O2|lia].
  apply iop_sane, iop_gop; exact O1.
Qed.

(** ** Indirect jumps *)

Definition target_in_temp (t : Z) : Z -> option flags -> Prop := fun t' _ => t' = t.
Definition leaving (t : Z) (x : xstate) : Prop := home s x /\ xreg x RCX = t.
Lemma leaving_rip t x k : leaving t x -> leaving t (set_rip k x).
Proof using Type. intros []. split; [by apply home_rip|done]. Qed.

(** The test whether the target is the most frequent one. *)
Lemma runs_test_target st t target :
  sane st -> is_u32 t ->
  runs st (emit_load_imm RAX target;; emit_cmp32 temp_reg RAX) (fun _ st' =>
    iop base ext E sane 0 st st' (leaving t)
      (fun x => leaving t x /\ xflags x = Some (sub_flags false (u32 target) t))).
Proof using Type.
  intros [W Hrm] Ht. assert (is_xreg temp_reg) by done. assert (is_xreg RAX) by done.
  eapply runs_weaken.
  - apply (runs_insns base ext E st _ [MovI RAX (u32 target); Alu false Xcmp RCX RAX]
      (set_dirty_in (set_dirty_in (register_map st) RAX true) RAX true) (leaving t)
      (fun x => leaving t x /\ xflags x = Some (sub_flags false (u32 target) t))).
    + unfold emit_cmp32. change 0x39 with (alu_opcode Xcmp). eapply emits_eq; [estep; elast| |done].
      by rewrite encode_all_cons, encode_all_1.
    + apply Forall_cons. split; [split; [done|apply is_u32_u32]|]. wf_all.
    + intros x Hx. pose proof (rx_len _ _ _ _ _ _ (proj1 Hx)) as HL. wp1. wp1. cbn [wp].
      unfold exec_alu. cbn [alu width]. split.
      * split; [apply (home_frame y fr s RAX x); [apply Hx|auto 12 with frame|done..]|]. xlook. apply Hx.
      * cbn [xflags set_rip set_flags]. f_equal. xlook. rewrite (proj2 Hx), (u32_small t) by done.
        by rewrite !(u32_small (u32 target)) by apply is_u32_u32.
  - cbv beta. intros _ st' O. eapply iop_op; [|exact O]. split; [apply O|].
    by rewrite (op_rm _ _ _ _ _ _ _ _ O), !regs_set_dirty.
Qed.

Lemma runs_history st bt t :
  good st -> all_clean (register_map st) -> room 2 st -> is_u32 t -> exits s t ->
  runs st (parse_branch_history_table (Some bt)) (fun _ st' =>
    iop base ext E sane 2 st st' (leaving t) (leaving t)).
Proof using Type.
  intros G Hc Hr Ht [_ Hx]. pose proof G as [W Hrm _]. cbn [parse_branch_history_table]. cbv zeta.
  set (target := nth _ (jb_PC bt) 0). destruct (bht_should_translate _ _); cbn [negb].
  2: { apply runs_ret. split; [by apply good_sane|done|lia|]. by apply gen_nop. }
  destruct (lookup_lt_is_Some_2 (register_map st) 0) as [h Hh]; [by rewrite (rm_length _ Hrm); lia|].
  assert (reg_idx h = RAX) as Er.
  { pose proof (rm_regs _ Hrm) as Er. apply (f_equal (lookup 0%nat)) in Er.
    rewrite list_lookup_fmap, Hh in Er. by simplify_eq/=. }
  assert (slot_of 0 st = h) as Es by (unfold slot_of; change (Z.to_nat 0) with 0%nat; by rewrite nth_lookup, Hh).
  apply runs_bind. unfold save_reg. apply runs_bind, runs_assert; [done|]. apply runs_bind, runs_jget.
  rewrite Es, (Hc h) by (by eapply list_elem_of_lookup_2). apply runs_ret.
  apply runs_bind. eapply runs_weaken.
  { apply (runs_update_slot st 0 _ h Hh (rm_nodup _ Hrm)). lia. }
  cbv beta. intros _ st1 ->. set (st1 := with_register_map _ st).
  assert (sane st1) as G1.
  { split; [done|]. subst st1. cbn. unfold upd. rewrite <- list_fmap_compose, <- (rm_regs _ Hrm).
    apply list_fmap_ext. intros i h' _. cbn. by destruct (reg_idx h' =? reg_idx h). }
  apply runs_bind, runs_jget.
  assert (reg_idx (slot_of 0 st1) = RAX) as ->.
  { unfold slot_of, st1, upd. cbn [register_map with_register_map]. change (Z.to_nat 0) with 0%nat.
    rewrite nth_lookup, list_lookup_fmap, Hh. cbn. by rewrite Z.eqb_refl. }
  apply runs_assoc. apply runs_bind. eapply runs_weaken; [by apply (runs_test_target st1 t target)|].
  cbv beta. intros _ st2 O2.
  assert (room 2 st2) as Hr2 by (eapply (iop_room base ext E sane 0 2); [exact O2|done]).
  eapply runs_weaken.
  { change JCC_JNE with (cond_code Xne). apply (runs_jcc_over base ext E sane 1 st2 Xne (emit_jmp target)
      (fun x => leaving t x /\ xflags x = Some (sub_flags false (u32 target) t))
      (fun x => leaving t x /\ u32 target = t) (fun _ => leaving t)); [apply O2|done|].
    intros st3 G3 R3 M3. eapply runs_weaken.
    { apply (runs_jump base ext E sane st3 target (fun x => leaving t x /\ u32 target = t)); [done|done|..].
      - intros x k []. split; [by apply leaving_rip|done].
      - intros x [[Hh' _] ->]. by apply Hx. }
    cbv beta. intros _ st4 [O4 M4]. split.
    - eapply iop_weaken; [exact O4|lia|done|]. by intros x [].
    - intros x [Hl Hf]. eexists. split; [exact Hf|]. intros k.
      rewrite exec_cond_sub by (done || apply is_u32_u32). cbn [cond_holds].
      destruct (Z.eqb_spec (u32 target) t); cbn [negb]; [split; [|done]|]; by apply leaving_rip. }
  cbv beta. intros _ st3 O3. eapply (iop_trans _ _ _ _ 0 2); [by apply good_sane| |exact O3|lia].
  destruct O2 as [A1 A2 A3 A4]. split; [done| |exact A3|].
  - etrans; [|exact A2]. by split.
  - eapply gen_trans; [done| |exact A4]. by apply gen_nop.
Qed.

Lemma leaves_indirect st bt t :
  good st -> room 3 st -> is_u32 t -> exits s t ->
  runs st (Gen.jump_indirect (Some bt)) (fun _ st' =>
    iop base ext E sane 3 st st' (agrees_and y fr s (target_in_temp t) st) (fun _ => False)).
Proof using Y HS.
  intros G Hr Ht Hx. unfold Gen.jump_indirect. apply runs_bind.
  eapply runs_weaken; [by apply (runs_store_back base ext E y Y fr s HS (target_in_temp t))|].
  cbv beta. intros _ st1 (O1 & Hc & _). pose proof (proj1 O1) as G1.
  assert (iop base ext E sane 0 st st1 (agrees_and y fr s (target_in_temp t) st) (leaving t)) as O1'.
  { eapply iop_weaken; [apply iop_sane, iop_gop; exact O1|lia|done|].
    intros x (R & _ & HK). split; [by eapply clean_home|exact HK]. }
  assert (room 3 st1) as Hr1 by (eapply (iop_room base ext E sane 0 3); [exact O1'|done]).
  apply runs_bind. eapply runs_weaken.
  { apply (runs_history st1 bt t G1 Hc); [unfold room in *; lia|done|done]. }
  cbv beta. intros _ st2 O2.
  assert (room 1 st2) as Hr2 by (eapply (iop_room base ext E sane 2 1); [exact O2|done]).
  apply runs_bind. eapply runs_weaken.
  { apply (runs_store_temp_pc base ext E y Y fr st2 s t); [apply O2|done]. }
  cbv beta. intros _ st3 [O3 _].
  assert (room 1 st3) as Hr3 by (eapply (iop_room base ext E sane 0 1); [exact O3|done]).
  eapply runs_weaken.
  { apply (runs_exit base ext E sane st3 (fun x => home s x /\ pc_stored y t x)); [apply O3|done|].
    intros x k [Hh Hp]. apply Hx; [by apply home_rip|exact Hp]. }
  cbv beta. intros _ st4 [O4 _].
  eapply (iop_trans _ _ _ _ 0 3); [by apply good_sane|exact O1'| |lia].
  eapply (iop_trans _ _ _ _ 2 1); [by apply good_sane|exact O2| |lia].
  eapply (iop_trans _ _ _ _ 0 1); [apply O2|exact O3|exact O4|lia].
Qed.
End Terminators.
