(* ===== verification/JitDispatch.v ===== *)
(** [dispatch]: every generator against the handler of the interpreter. *)

From S2P Require Import Prelude.
From S2P Require Import Opcode.
From S2P Require Import Decode.
From S2P Require Import Machine.
From S2P Require Import Interp.
From S2P Require Import MachineFacts.
From S2P Require Import Invariant.
From S2P Require Import DecodeProofs.
From S2P Require Import IsaProofs.
From S2P Require Import JitEmit.
From S2P Require Import JitAlloc.
From S2P Require Import JitGen.
From S2P Require Import X86.
From S2P Require Import X86Proofs.
From S2P Require Import JitEmitProofs.
From S2P Require Import JitCode.
From S2P Require Import JitRel.
From S2P Require Import JitAllocProofs.
From S2P Require Import JitSim.
From S2P Require Import JitInsn.
From S2P Require Import JitJump.
From S2P Require Import JitLeave.

(** * Straight-line instructions *)

(** The opcodes with a generator that continues with the next instruction.  Multiplication and
    division are left out: their generators use the host stack. *)
Definition jit_straight (o : opcode_t) : bool :=
  match o with
  | rv_insn_nop | rv_insn_lui | rv_insn_auipc
  | rv_insn_lb | rv_insn_lh | rv_insn_lw | rv_insn_lbu | rv_insn_lhu
  | rv_insn_sb | rv_insn_sh | rv_insn_sw
  | rv_insn_addi | rv_insn_slti | rv_insn_sltiu | rv_insn_xori | rv_insn_ori | rv_insn_andi
  | rv_insn_slli | rv_insn_srli | rv_insn_srai
  | rv_insn_add | rv_insn_sub | rv_insn_sll | rv_insn_slt | rv_insn_sltu | rv_insn_xor
  | rv_insn_srl | rv_insn_sra | rv_insn_or | rv_insn_and
  | rv_insn_caddi4spn | rv_insn_clw | rv_insn_csw | rv_insn_cnop | rv_insn_caddi
  | rv_insn_cli | rv_insn_caddi16sp | rv_insn_clui | rv_insn_csrli | rv_insn_csrai
  | rv_insn_candi | rv_insn_csub | rv_insn_cxor | rv_insn_cor | rv_insn_cand
  | rv_insn_cslli | rv_insn_clwsp | rv_insn_cmv | rv_insn_cadd | rv_insn_cswsp => true
  | _ => false
  end.
(** All the opcodes whose handlers continue with the next instruction. *)
Definition straight_op (o : opcode_t) : bool :=
  jit_straight o ||
  match o with
  | rv_insn_mul | rv_insn_mulh | rv_insn_mulhsu | rv_insn_mulhu
  | rv_insn_div | rv_insn_divu | rv_insn_rem | rv_insn_remu => true
  | _ => false
  end.
Lemma jit_straight_op o : jit_straight o = true -> straight_op o = true.
Proof. unfold straight_op. by intros ->. Qed.
(** The register that holds the address of a memory access. *)
Definition jit_base (o : opcode_t) (ir : rv_insn) : option Z :=
  match o with
  | rv_insn_lb | rv_insn_lh | rv_insn_lw | rv_insn_lbu | rv_insn_lhu
  | rv_insn_sb | rv_insn_sh | rv_insn_sw | rv_insn_clw | rv_insn_csw => Some (rs1 ir)
  | rv_insn_clwsp | rv_insn_cswsp => Some rv_reg_sp
  | _ => None
  end.
(** The address is computed without wrapping around: the generated code adds in 64 bits. *)
Definition no_wrap (ir : rv_insn) (s : riscv) : Prop :=
  match jit_base (opcode ir) ir with
  | Some b => 0 <= reg s b + imm ir < 0x100000000
  | None => True
  end.
(** The result is not written to [x0]. *)
Definition writes_x0 (ir : rv_insn) : bool :=
  match opcode ir with
  | rv_insn_nop => false
  | o => match dest_reg o ir with Some r => r =? 0 | None => false end
  end.

Lemma store_le_mod n : forall m a v, store_le m a n (v mod 0x100 ^ Z.of_nat n) = store_le m a n v.
Proof.
  induction n as [|n IH]; intros m a v; [done|]. cbn [store_le].
  replace (Z.of_nat (S n)) with (Z.succ (Z.of_nat n)) by lia. rewrite Z.pow_succ_r, Z.rem_mul_r by lia.
  replace ((v mod 0x100 + 0x100 * _) mod 0x100) with (v mod 0x100) by mlia.
  replace ((v mod 0x100 + 0x100 * _) / 0x100) with ((v / 0x100) mod 0x100 ^ Z.of_nat n) by mlia.
  apply IH.
Qed.
Lemma mem_write_mod n m a v : mem_write n m a (v mod 0x100 ^ Z.of_nat n) = mem_write n m a v.
Proof. unfold mem_write. by rewrite store_le_mod. Qed.
Lemma s16_s32 z : is_s32 (s16 z).
Proof. unfold is_s32, s16. mlia. Qed.

Section Dispatch.
Context `{RIO : riscv_io} `{SFT : softfloat}.
Context (base : Z) (ext : Z -> xstate -> option xstate) (E : Z -> xstate -> Prop).
Context (y : host_layout) (Y : layout_ok y) (fr : host_frame) (s : riscv).
Context (HS : wf_regs s) (H0 : reg s 0 = 0).
Context (env : jit_env) (HE : mem_base_ptr env = ram_ptr y) (HM : mem_size (mem s) = ram_size y).
#[local] Abbreviation insn_iop := (insn_iop base ext E y fr s 1).

Lemma set_zero_id : set_reg 0 0 s = s.
Proof using HS H0.
  clear HM. destruct HS as [HL _]. clear HS. unfold set_reg, set_X. destruct s as [xs]. cbn in *.
  f_equal. apply list_insert_id. unfold reg in H0. change (Z.to_nat 0) with 0%nat in *. cbn in H0.
  destruct xs as [|v xs]; cbn in *; [done|]. by rewrite H0.
Qed.

Lemma ok_skip st : good st -> insn_iop st (mret tt) s.
Proof using Type.
  intros G. apply runs_ret. eapply iop_weaken; [apply iop_gop, gop_refl; [done|]|lia|done|done]. done.
Qed.

Lemma shift_mask_range z : 0 <= Z.land z 0x1f < 32.
Proof using Type. rewrite (Z.land_ones _ 5) by lia. by apply Z.mod_pos_bound. Qed.

(** ** One lemma per shape of handler *)

Section Shapes.
Context (st : jst) (ir : rv_insn) (cycle p : Z) (s' : riscv) (bt : option jit_bht).
Context (G : good st) (Hroom : room 1 st) (Hir : wf_ir ir) (Hx0 : writes_x0 ir = false).
Context (Hb : insn_body (opcode ir) s ir cycle (pc ir) = Nextop s' p).
#[local] Abbreviation generated := (insn_iop st (Gen.dispatch env bt ir) s' /\ p = pc ir).
#[local] Abbreviation shape l := (opcode ir ∈ l).

Ltac enter Ho :=
  destruct Hir as [Hrd Hr1 Hr2 Hi Hsh]; unfold Gen.dispatch; unfold writes_x0 in Hx0;
  rewrite !elem_of_cons, elem_of_nil in Ho; destruct_or! Ho; try done; rewrite Ho in *;
  cbn [insn_body dest_reg] in *; try apply Z.eqb_neq in Hx0.
Ltac ends := try (injection Hb as <- <-); split; [|done].

Lemma shape_const :
  shape [rv_insn_nop; rv_insn_lui; rv_insn_auipc; rv_insn_cnop; rv_insn_cli; rv_insn_clui] -> generated.
Proof using Y HS H0 G Hir Hx0 Hb.
  intros Ho. enter Ho;
    unfold do_nop, do_cnop, do_lui, do_auipc, do_cli, do_clui, wr_rd in Hb; ends.
  1: { change rv_reg_zero with 0. rewrite set_zero_id. by apply ok_skip. }
  3: by apply ok_skip.
  all: apply insn_iop_ok; rewrite ?(Z.add_comm (imm ir) (pc ir)).
  - by apply ok_set_const.
  - rewrite <- (u32_idem (pc ir + imm ir)). by apply ok_set_const.
  - by apply ok_set_const.
  - by apply ok_set_const.
Qed.
Lemma shape_alu_reg :
  shape [rv_insn_add; rv_insn_sub; rv_insn_xor; rv_insn_or; rv_insn_and;
         rv_insn_csub; rv_insn_cxor; rv_insn_cor; rv_insn_cand; rv_insn_cadd] -> generated.
Proof using Y HS H0 G Hir Hx0 Hb.
  pose proof (fun op => ok_alu_reg base ext E y Y fr s HS H0 st op (rs1 ir) (rs2 ir) (rd ir) G) as Hok.
  intros Ho. enter Ho;
    unfold do_add, do_sub, do_xor, do_or, do_and, do_csub, do_cxor, do_cor, do_cand, do_cadd, wr_rd in Hb; ends;
    apply insn_iop_ok;
    first [by apply (Hok Xadd)|by apply (Hok Xsub)|by apply (Hok Xxor)|by apply (Hok Xor)|by apply (Hok Xand)].
Qed.
Lemma shape_shift_reg : shape [rv_insn_sll; rv_insn_srl; rv_insn_sra] -> generated.
Proof using Y HS H0 G Hir Hx0 Hb.
  pose proof (fun op => ok_shift_reg base ext E y Y fr s HS H0 st op (rs1 ir) (rs2 ir) (rd ir) G) as Hok.
  intros Ho. enter Ho; unfold do_sll, do_srl, do_sra, wr_rd in Hb; ends; apply insn_iop_ok.
  - by apply (Hok Xshl).
  - by apply (Hok Xshr).
  - by apply (Hok Xsar).
Qed.
Lemma shape_alu_imm :
  shape [rv_insn_addi; rv_insn_xori; rv_insn_ori; rv_insn_andi] -> generated.
Proof using Y HS H0 G Hir Hx0 Hb.
  pose proof (fun op => ok_alu_imm base ext E y Y fr s HS H0 st op (rs1 ir) (rd ir) (imm ir) G) as Hok.
  intros Ho. enter Ho; unfold do_addi, do_xori, do_ori, do_andi, wr_rd in Hb; ends; apply insn_iop_ok.
  - rewrite <- u32_add_r. by apply (Hok Xadd).
  - by apply (Hok Xxor).
  - by apply (Hok Xor).
  - by apply (Hok Xand).
Qed.
Lemma shape_shift_imm : shape [rv_insn_slli; rv_insn_srli; rv_insn_srai] -> generated.
Proof using Y HS H0 G Hir Hx0 Hb.
  pose proof (fun op => ok_shift_imm base ext E y Y fr s HS H0 st op (rs1 ir) (rd ir)
    (Z.land (imm ir) 0x1f) G) as Hok.
  intros Ho. pose proof (shift_mask_range (imm ir)) as Hm.
  enter Ho; unfold do_slli, do_srli, do_srai, shift_func, wr_rd in Hb; rewrite Ho in Hb;
    cbn [shift_value] in Hb; ends; apply insn_iop_ok.
  - by apply (Hok Xshl).
  - by apply (Hok Xshr).
  - by apply (Hok Xsar).
Qed.
Lemma shape_slt : shape [rv_insn_slti; rv_insn_sltiu; rv_insn_slt; rv_insn_sltu] -> generated.
Proof using Y HS H0 G Hroom Hir Hx0 Hb.
  intros Ho. enter Ho; unfold do_slti, do_sltiu, do_slt, do_sltu, wr_rd in Hb; ends.
  - rewrite <- (s32_small (imm ir)) at 1 by done. rewrite <- (s32_u32 (imm ir)).
    by apply (ok_slt_imm base ext E y Y fr s HS H0 st Xl).
  - by apply (ok_slt_imm base ext E y Y fr s HS H0 st Xb).
  - by apply (ok_slt_reg base ext E y Y fr s HS H0 st Xl).
  - by apply (ok_slt_reg base ext E y Y fr s HS H0 st Xb).
Qed.
Lemma shape_in_place :
  shape [rv_insn_caddi4spn; rv_insn_caddi; rv_insn_caddi16sp; rv_insn_candi; rv_insn_cmv] -> generated.
Proof using Y HS H0 G Hir Hx0 Hb.
  intros Ho. enter Ho; unfold do_caddi4spn, do_caddi, do_caddi16sp, do_candi, do_cmv, wr_rd, wr_rs1 in Hb;
    ends; apply insn_iop_ok.
  - assert (is_s32 (u16 (imm ir))) by (pose proof (u16_range (imm ir)); unfold is_s32; lia).
    rewrite <- u32_add_r. by apply (ok_alu_imm base ext E y Y fr s HS H0 st Xadd).
  - rewrite <- u32_add_r. apply (ok_alu_in_place base ext E y Y fr s HS H0 st Xadd); try done. apply s16_s32.
  - rewrite <- u32_add_r. by apply (ok_alu_in_place base ext E y Y fr s HS H0 st Xadd).
  - by apply (ok_alu_in_place base ext E y Y fr s HS H0 st Xand).
  - by apply ok_copy.
Qed.
Lemma shape_shift_in_place : shape [rv_insn_csrli; rv_insn_csrai; rv_insn_cslli] -> generated.
Proof using Y HS H0 G Hir Hx0 Hb.
  pose proof (reg_is_u32 s) as Hu. destruct HS as [_ HF].
  intros Ho. enter Ho; unfold do_csrli, do_csrai, do_cslli, wr_rd, wr_rs1 in Hb.
  - destruct (decide (shamt ir < 32)).
    2: { unfold shr32 in Hb. by replace ((0 <=? shamt ir) && (shamt ir <? 32)) with false in Hb by lia. }
    rewrite shr32_small in Hb by lia. ends. apply insn_iop_ok.
    apply (ok_shift_in_place base ext E y Y fr s HS H0 st Xshr); try done. lia.
  - destruct (decide (shamt ir < 32)).
    2: { unfold shr32 in Hb. by replace ((0 <=? shamt ir) && (shamt ir <? 32)) with false in Hb by lia. }
    rewrite shr32_small, csrai_value, land_31_small in Hb by (auto || lia). ends. apply insn_iop_ok.
    apply (ok_shift_in_place base ext E y Y fr s HS H0 st Xsar); try done. lia.
  - destruct (decide (u8 (imm ir) < 32)).
    2: { unfold shl32 in Hb. by replace (_ && (u8 (imm ir) <? 32)) with false in Hb by lia. }
    assert (0 <= u8 (imm ir)) by (unfold u8; mlia).
    rewrite shl32_small in Hb by lia. ends. apply insn_iop_ok.
    apply (ok_shift_in_place base ext E y Y fr s HS H0 st Xshl); try done.
Qed.

Context (Hnw : no_wrap ir s).
Ltac address := rewrite ?u32_add_r, u32_small in Hb by (unfold is_u32; lia).

Lemma shape_load :
  shape [rv_insn_lb; rv_insn_lh; rv_insn_lw; rv_insn_lbu; rv_insn_lhu; rv_insn_clw; rv_insn_clwsp] -> generated.
Proof using Y HS H0 HE HM G Hir Hx0 Hb Hnw.
  intros Ho. unfold no_wrap in Hnw.
  enter Ho; cbn [jit_base] in Hnw;
    unfold do_lb, do_lh, do_lw, do_lbu, do_lhu, do_clw, do_clwsp, lw_at, wr_rd, ram_read_b, ram_read_s,
      ram_read_w in Hb; cbv zeta in Hb; address; try apply misalign_Nextop in Hb;
    (destruct (mem_read _ _ _) as [v|] eqn:Em; [|done]); ends; apply insn_iop_ok.
  - by apply (ok_load_sext base ext E y Y fr s HS H0 env HE HM st S8); auto.
  - by apply (ok_load_sext base ext E y Y fr s HS H0 env HE HM st S16); auto.
  - by apply (ok_load base ext E y Y fr s HS H0 env HE HM st S32).
  - by apply (ok_load base ext E y Y fr s HS H0 env HE HM st S8).
  - by apply (ok_load base ext E y Y fr s HS H0 env HE HM st S16).
  - by apply (ok_load base ext E y Y fr s HS H0 env HE HM st S32).
  - by apply (ok_load base ext E y Y fr s HS H0 env HE HM st S32).
Qed.
Lemma shape_store :
  shape [rv_insn_sb; rv_insn_sh; rv_insn_sw; rv_insn_csw; rv_insn_cswsp] -> generated.
Proof using Y HS H0 HE HM G Hir Hx0 Hb Hnw.
  pose proof (fun sz r => ok_store base ext E y Y fr s HS H0 env HE HM st sz r (imm ir) (rs2 ir)) as Hok.
  intros Ho. unfold no_wrap in Hnw.
  enter Ho; cbn [jit_base] in Hnw;
    unfold do_sb, do_sh, do_sw, do_csw, do_cswsp, sw_at, ram_write_b, ram_write_s, ram_write_w in Hb;
    cbv zeta in Hb; address; try apply misalign_Nextop in Hb;
    (destruct (mem_write _ _ _ _) as [m|] eqn:Em; [|done]); cbn [mbind option_bind] in Hb; ends; apply insn_iop_ok.
  - apply (Hok S8); try done. by rewrite <- mem_write_mod.
  - apply (Hok S16); try done. by rewrite <- mem_write_mod.
  - by apply (Hok S32).
  - by apply (Hok S32).
  - by apply (Hok S32).
Qed.
End Shapes.

Ltac mem Eo := rewrite Eo; repeat first [apply list_elem_of_here|apply list_elem_of_further].
Lemma dispatch_straight st bt ir cycle p s' :
  good st -> room 1 st -> wf_ir ir -> jit_straight (opcode ir) = true -> writes_x0 ir = false ->
  no_wrap ir s -> insn_body (opcode ir) s ir cycle (pc ir) = Nextop s' p ->
  insn_iop st (Gen.dispatch env bt ir) s' /\ p = pc ir.
Proof using Y HS H0 HE HM.
  intros G Hroom Hir Hst Hx0 Hnw Hb.
  destruct (opcode ir) eqn:Eo; try discriminate Hst; rewrite <- Eo in *;
    first
    [ eapply shape_const; [done..|]; by mem Eo
    | eapply shape_alu_reg; [done..|]; by mem Eo
    | eapply shape_shift_reg; [done..|]; by mem Eo
    | eapply shape_alu_imm; [done..|]; by mem Eo
    | eapply shape_shift_imm; [done..|]; by mem Eo
    | eapply shape_slt; [done..|]; by mem Eo
    | eapply shape_in_place; [done..|]; by mem Eo
    | eapply shape_shift_in_place; [done..|]; by mem Eo
    | eapply shape_load; [done..|]; by mem Eo
    | eapply shape_store; [done..|]; by mem Eo ].
Qed.
End Dispatch.

(** C6: The code generated for an instruction does what the interpreter does with it: in a state
    of the translator that is in order and has room for a jump, the generator of an opcode of
    [jit_straight] (the straight-line opcodes but multiplications and divisions) with no result in
    [x0] ends in a state in order, and the code it has appended takes every machine state that
    represents the guest under the old register map to one that represents the guest after the
    handler under the new register map, when the handler goes on to the next instruction and the
    address of a load or store does not wrap around. *)
Theorem straight_code_correct `{riscv_io} `{softfloat} base ext E y fr s env st bt ir cycle p s' :
  layout_ok y -> wf_regs s -> reg s 0 = 0 -> mem_base_ptr env = ram_ptr y -> mem_size (mem s) = ram_size y ->
  good st -> room 1 st -> wf_ir ir -> jit_straight (opcode ir) = true -> writes_x0 ir = false ->
  no_wrap ir s -> insn_body (opcode ir) s ir cycle (pc ir) = Nextop s' p ->
  runs st (Gen.dispatch env bt ir) (fun _ st' =>
    iop base ext E good 1 st st' (agrees y fr s st) (agrees y fr s' st')) /\ p = pc ir.
Proof. intros. by eapply dispatch_straight. Qed.

Definition fresh_jst : jst :=
  mk_jst (mk_jit_state [] (replicate 64 0) 0 64 0 0 0 [] []) register_map_init false
    (replicate N_RV_REGS (-1)) candidate_queue_init.
Lemma fresh_jst_good : good fresh_jst.
Proof.
  split.
  - split; cbn; lia || done.
  - assert (forall h, h ∈ register_map_init -> vm_reg_idx h = -1 /\ dirty h = false /\ alive h = false) as Hrm.
    { intros h (r & -> & _)%list_elem_of_fmap. done. }
    split.
    + done.
    + intros h Hh. left. by apply Hrm.
    + intros h h' Hh _ _ Hv. destruct (Hrm h Hh) as [Ev _]. rewrite Ev in Hv. unfold is_reg in Hv. lia.
    + intros h Hh _. by apply Hrm.
    + intros h Hh Ha. destruct (Hrm h Hh) as (_ & _ & ?). congruence.
  - intros v Hv. apply list_elem_of_fmap. exists (Z.to_nat v). unfold is_reg, N_RV_REGS in *.
    split; [lia|]. apply elem_of_seq. lia.
Qed.
(** [lw x5, 8(x6)] with [x6 = 4]. *)
Definition sample_lw : rv_insn :=
  set_opcode rv_insn_lw (set_rd 5 (set_rs1 6 (set_imm 8 zero_insn))).
Lemma straight_code_correct_witness :
  runs fresh_jst (Gen.dispatch (mk_jit_env 0x20000 0 0) None sample_lw) (fun _ st' =>
    iop 0 (fun _ _ => None) (fun _ _ => False) good 1 fresh_jst st'
      (agrees (mk_host_layout 0x10000 0x20000 16) (mk_host_frame 0 0 ∅) (set_reg 6 4 (reset_state ∅ 16)) fresh_jst)
      (agrees (mk_host_layout 0x10000 0x20000 16) (mk_host_frame 0 0 ∅)
        (set_reg 5 0 (set_reg 6 4 (reset_state ∅ 16))) st')) /\ 0 = pc sample_lw.
Proof.
  apply (@straight_code_correct quiet_io zero_softfloat 0 (fun _ _ => None) (fun _ _ => False)
    (mk_host_layout 0x10000 0x20000 16) (mk_host_frame 0 0 ∅) (set_reg 6 4 (reset_state ∅ 16))
    (mk_jit_env 0x20000 0 0) fresh_jst None sample_lw 1 0 (set_reg 5 0 (set_reg 6 4 (reset_state ∅ 16)))).
  - split; cbn; unfold offsetof_PC, offsetof_X; lia.
  - split; [reflexivity|]. cbn. repeat (apply Forall_cons; split; [unfold is_u32; lia|]). by apply Forall_nil.
  - reflexivity.
  - reflexivity.
  - reflexivity.
  - apply fresh_jst_good.
  - unfold room. cbn. lia.
  - split; cbn; unfold is_reg, is_s32; lia.
  - reflexivity.
  - reflexivity.
  - vm_compute. split; congruence.
  - reflexivity.
Defined.
