(* ===== verification/JitTerm.v ===== *)
(** [dispatch] for the instructions that end a block. *)

From S2P Require Import Prelude.
From S2P Require Import Opcode.
From S2P Require Import Decode.
From S2P Require Import Machine.
From S2P Require Import Interp.
From S2P Require Import MachineFacts.
From S2P Require Import Invariant.
From S2P Require Import JitEmit.
From S2P Require Import JitAlloc.
From S2P Require Import JitGen.
From S2P Require Import X86.
From S2P Require Import X86Proofs.
From S2P Require Import JitEmitProofs.
From S2P Require Import JitCode.
From S2P Require Import JitRel.
From S2P Require Import JitAllocProofs.
From S2P Require Import JitSim.
From S2P Require Import JitInsn.
From S2P Require Import JitJump.
From S2P Require Import JitLeave.

(** The guest state after an instruction and the address of the next one, whichever way the
    handler goes on. *)
Definition successor (ir : rv_insn) (o : outcome) : option (riscv * Z) :=
  match o with
  | Nextop s pc => Some (s, pc +u insn_len (opcode ir))
  | End_op s pc | Tail _ s pc | Indirect s pc => Some (s, pc)
  | Return _ _ | Undef => None
  end.

Definition jit_branch (o : opcode_t) : bool :=
  match o with
  | rv_insn_jal | rv_insn_beq | rv_insn_bne | rv_insn_blt | rv_insn_bge | rv_insn_bltu | rv_insn_bgeu
  | rv_insn_cjal | rv_insn_cj | rv_insn_cbeqz | rv_insn_cbnez => true
  | _ => false
  end.
Definition jit_indirect (o : opcode_t) : bool :=
  match o with rv_insn_jalr | rv_insn_cjr | rv_insn_cjalr => true | _ => false end.

Section Term.
Context `{RIO : riscv_io} `{SFT : softfloat}.
Context (base : Z) (ext : Z -> xstate -> option xstate) (E : Z -> xstate -> Prop).
Context (y : host_layout) (Y : layout_ok y) (fr : host_frame) (s : riscv).
Context (HS : wf_regs s) (H0 : reg s 0 = 0) (env : jit_env).
#[local] Abbreviation gop := (gop base ext E).
#[local] Abbreviation agrees := (agrees y fr).
#[local] Abbreviation leaves := (leaves base ext E y fr s 5).
#[local] Abbreviation exits := (exits E y fr).

Lemma reg0_set v w : is_reg v -> v <> 0 -> reg (set_reg v w s) 0 = 0.
Proof using H0. intros Hv Hn. rewrite reg_set_reg_ne; [done|]. unfold is_reg in Hv. lia. Qed.

Lemma leaves_weaken n st m : (n <= 5)%nat ->
  JitLeave.leaves base ext E y fr s n st m -> leaves st m.
Proof using Type.
  intros Hn Hl. eapply runs_weaken; [exact Hl|]. cbv beta. intros _ st' O.
  eapply iop_weaken; [exact O|lia|done|done].
Qed.
(** A step of the guest, and then the end of the block. *)
Lemma leaves_after st m1 m2 s1 :
  good st -> room 5 st -> insn_ok base ext E y fr s st m1 s1 ->
  (forall st1, good st1 -> room 5 st1 ->
     runs st1 m2 (fun _ st' => iop base ext E sane 5 st1 st' (agrees s1 st1) (fun _ => False))) ->
  leaves st (m1;; m2).
Proof using Type.
  intros G Hr H1 H2. apply runs_bind. eapply runs_weaken; [exact H1|]. cbv beta. intros _ st1 O1.
  assert (room 5 st1) as Hr1 by (eapply (iop_room base ext E good 0 5); [by apply iop_gop|done]).
  eapply runs_weaken; [apply H2; [apply O1|done]|]. cbv beta. intros _ st2 O2.
  eapply (iop_trans _ _ _ _ 0 5); [by apply good_sane|apply iop_sane, iop_gop; exact O1|exact O2|lia].
Qed.

Lemma leaves_jump st target :
  good st -> room 5 st -> exits s (u32 target) -> leaves st (Gen.jump_to target).
Proof using Y HS.
  intros G Hr Hx. apply (leaves_weaken 2); [lia|]. apply leaves_jump_to; try done. unfold room in *. lia.
Qed.

Lemma leaves_jal st v c target s1 :
  good st -> room 5 st -> is_reg v ->
  s1 = (if truth v then set_reg v (u32 c) s else s) -> exits s1 (u32 target) ->
  leaves st (jwhen (truth v) (Gen.set_const v c);; Gen.jump_to target).
Proof using Y HS H0.
  intros G Hr Hv -> Hx. unfold truth in *. destruct (Z.eqb_spec v 0) as [->|Hn]; cbn [negb jwhen] in *.
  - apply runs_bind, runs_ret. by apply leaves_jump.
  - eapply leaves_after; [done..|by apply ok_set_const|]. intros st1 G1 Hr1.
    eapply runs_weaken; [apply (leaves_jump_to base ext E y Y fr (set_reg v (u32 c) s))|].
    + apply set_reg_wf; [done|apply is_u32_u32].
    + done.
    + unfold room in *. lia.
    + exact Hx.
    + cbv beta. intros _ st2 O2. eapply iop_weaken; [exact O2|lia|done|done].
Qed.

Lemma leaves_compare_branch st (m1 : jitM unit) m2 a b c l1 l2 pc1 pc2 :
  good st -> room 5 st -> is_u32 a -> is_u32 b ->
  exits s (u32 (if cond_holds c a b then pc2 else pc1)) ->
  runs st m1 (fun _ st' => gop st st' (agrees s st) (agrees_and y fr s (compared a b) st')) ->
  (forall st1, m2 st1 = (store_back;;
    jump_loc_0 ← get_offset; emit_jcc_offset (cond_code c);;
    jwhen l1 (emit_jmp pc1);; Gen.store_pc pc1;; emit_exit;;
    off ← get_offset; emit_jump_target_offset (jump_loc_0 + 2) off;;
    jwhen l2 (emit_jmp pc2);; Gen.store_pc pc2;; emit_exit) st1) ->
  leaves st (m1;; m2).
Proof using Y HS.
  intros G Hr Ha Hb Hx H1 H2. apply runs_bind. eapply runs_weaken; [exact H1|]. cbv beta. intros _ st1 O1.
  assert (room 5 st1) as Hr1 by (eapply (iop_room base ext E good 0 5); [by apply iop_gop|done]).
  eapply runs_weaken.
  { eapply runs_ext; [exact H2|]. by apply (leaves_branch base ext E y Y fr s HS st1 c a b); [apply O1|..]. }
  cbv beta. intros _ st2 O2.
  eapply (iop_trans _ _ _ _ 0 5); [by apply good_sane|apply iop_sane, iop_gop; exact O1|exact O2|lia].
Qed.
Lemma leaves_gen_branch st c ir :
  good st -> room 5 st -> is_reg (rs1 ir) -> is_reg (rs2 ir) ->
  exits s (if cond_holds c (reg s (rs1 ir)) (reg s (rs2 ir)) then pc ir +u imm ir else pc ir +u 4) ->
  leaves st (Gen.GEN_BRANCH (cond_code c) ir).
Proof using Y HS H0.
  intros G Hr H1 H2 Hx. unfold Gen.GEN_BRANCH. apply runs_bind.
  eapply runs_weaken; [by apply (runs_ra_load2 base ext E y Y fr s HS Kt H0)|].
  cbv beta. intros [r0 r1] st1 (O1 & Hh0 & Hh1). cbn [fst snd] in *.
  assert (room 5 st1) as Hr1 by (eapply (iop_room base ext E good 0 5); [apply iop_gop; exact O1|done]).
  eapply runs_weaken.
  { apply (leaves_compare_branch st1 _ _ (reg s (rs1 ir)) (reg s (rs2 ir)) c
      (bool_decide (is_Some (branch_untaken ir))) (bool_decide (is_Some (branch_taken ir)))
      (pc ir +u 4) (pc ir +u imm ir)); [apply O1|done|apply reg_is_u32, HS|apply reg_is_u32, HS| | |].
    - destruct (cond_holds c _ _); by rewrite u32_idem.
    - eapply runs_weaken; [by apply (runs_cmp_reg base ext E y fr s HS st1 r0 r1); [apply O1|..]|].
      by cbv beta; intros _ st2 [O2 _].
    - done. }
  cbv beta. intros _ st2 O2.
  eapply (iop_trans _ _ _ _ 0 5); [by apply good_sane|apply iop_sane, iop_gop; exact O1|exact O2|lia].
Qed.
Lemma leaves_gen_cbranch st c ir :
  good st -> room 5 st -> is_reg (rs1 ir) ->
  exits s (if cond_holds c (reg s (rs1 ir)) 0 then pc ir +u imm ir else pc ir +u 2) ->
  leaves st (Gen.GEN_CBRANCH (cond_code c) ir).
Proof using Y HS H0.
  intros G Hr H1 Hx. unfold Gen.GEN_CBRANCH. apply runs_bind.
  eapply runs_weaken; [by apply (runs_ra_load base ext E y Y fr s HS Kt H0)|].
  cbv beta. intros r0 st1 (O1 & Hh0).
  assert (room 5 st1) as Hr1 by (eapply (iop_room base ext E good 0 5); [apply iop_gop; exact O1|done]).
  eapply runs_weaken.
  { apply (leaves_compare_branch st1 _ _ (reg s (rs1 ir)) (u32 0) c
      (bool_decide (is_Some (branch_untaken ir))) (bool_decide (is_Some (branch_taken ir)))
      (pc ir +u 2) (pc ir +u imm ir)); [apply O1|done|apply reg_is_u32, HS|done| | |].
    - change (u32 0) with 0. destruct (cond_holds c _ _); by rewrite u32_idem.
    - eapply runs_weaken; [by apply (runs_cmp_imm base ext E y fr s HS st1 r0); [apply O1|..]|].
      by cbv beta; intros _ st2 [O2 _].
    - done. }
  cbv beta. intros _ st2 O2.
  eapply (iop_trans _ _ _ _ 0 5); [by apply good_sane|apply iop_sane, iop_gop; exact O1|exact O2|lia].
Qed.

(** ** Indirect jumps *)

(** The target in the temporary register. *)
Lemma runs_target st r v l t (m : jitM unit) :
  good st -> holds (register_map st) r v -> is_reg v ->
  emits st m (encode_all l) (register_map st) -> Forall wf_xinsn l ->
  (forall x, length (xregs x) = 16%nat -> xreg x r = reg s v ->
     wp l (fun z => frame RCX x z /\ xreg z RCX = t) x) ->
  runs st m (fun _ st' => gop st st' (agrees s st) (agrees_and y fr s (target_in_temp t) st')).
Proof using Type.
  intros G Hh Hv Hem Hwf Hwp. eapply runs_weaken.
  - apply (runs_insns base ext E st m l (register_map st) (agrees s st)
      (agrees_and y fr s (target_in_temp t) st) Hem Hwf).
    intros x (R & _). eapply wp_mono.
    + apply Hwp; [apply R|]. apply (holds_slot _ _ _ _ _ _ _ _ R Hh Hv), not_elem_of_nil.
    + cbv beta. intros z [F Ez]. split; [|split; [intros w []%elem_of_nil|exact Ez]].
      by eapply relx_temp_frame; [apply G|..].
  - cbv beta. intros _ st' O. pose proof (op_rm _ _ _ _ _ _ _ _ O) as M. unfold agrees_and. rewrite M.
    eapply gop_op; [done|apply G|exact O].
Qed.

Lemma reg_u64 v : u64 (reg s v) = reg s v.
Proof using HS.
  pose proof (reg_is_u32 s v (proj2 HS)) as Hu. apply Z.mod_small. unfold is_u32 in Hu. lia.
Qed.
Lemma runs_target_copy st r v :
  good st -> holds (register_map st) r v -> is_reg v ->
  runs st (emit_mov r temp_reg) (fun _ st' =>
    gop st st' (agrees s st) (agrees_and y fr s (target_in_temp (reg s v)) st')).
Proof using HS.
  intros G Hh Hv. pose proof G as [W Hrm _]. destruct (holds_xreg _ _ _ Hrm Hh) as (Xr & Cr & _).
  assert (is_xreg temp_reg) by done.
  apply (runs_target st r v [Mov true r RCX]); [done..|core_emit|wf_all|].
  intros x HL Ex. wp1. cbn [wp]. split; [auto 12 with frame|]. xlook. cbn [width]. by rewrite Ex, reg_u64.
Qed.
Lemma runs_target_sum st r v imm :
  good st -> holds (register_map st) r v -> is_reg v -> is_s32 imm ->
  runs st (emit_mov r temp_reg;; emit_alu32_imm32 ALU_GRP1_OPCODE ALU_ADD temp_reg imm;;
           emit_alu32_imm32 ALU_GRP1_OPCODE ALU_AND temp_reg (~u 1)) (fun _ st' =>
    gop st st' (agrees s st)
      (agrees_and y fr s (target_in_temp ((reg s v +u imm) &u ~u 1)) st')).
Proof using HS.
  intros G Hh Hv Hi. pose proof G as [W Hrm _]. destruct (holds_xreg _ _ _ Hrm Hh) as (Xr & Cr & _).
  assert (is_xreg temp_reg) by done.
  apply (runs_target st r v [Mov true r RCX; AluI false Xadd RCX imm; AluI false Xand RCX (-2)]); [done..| | |].
  - change ALU_ADD with (alu_ext Xadd). change ALU_AND with (alu_ext Xand). change ALU_GRP1_OPCODE with 0x81.
    eapply emits_eq; [estep; estep; elast| |].
    + unfold encode_all. cbn [fmap list_fmap concat map]. by rewrite app_nil_r.
    + dirty_norm; done.
  - wf_all.
  - intros x HL Ex. wp1. wp1. unfold exec_alu. cbn [alu width]. wp1. unfold exec_alu. cbn [alu width wp].
    split; [auto 20 with frame|]. xlook. rewrite Ex, reg_u64, (u32_small (reg s v)) by apply reg_is_u32, HS.
    by rewrite u32_add_r, u32_idem.
Qed.

(** The link register is written before the jump. *)
Lemma leaves_indirect_link st bt t (lk : bool) v c s1 :
  good st -> room 5 st -> is_u32 t -> is_reg v -> (lk = true -> v <> 0) ->
  s1 = (if lk then set_reg v (u32 c) s else s) -> exits s1 t ->
  runs st (jwhen lk (Gen.set_const v c);; Gen.jump_indirect (Some bt)) (fun _ st' =>
    iop base ext E sane 5 st st' (agrees_and y fr s (target_in_temp t) st) (fun _ => False)).
Proof using Y HS H0.
  intros G Hr Ht Hv Hv0 -> Hx. apply runs_bind. destruct lk; cbn [jwhen].
  - eapply runs_weaken; [by apply (runs_const_and base ext E y Y fr s HS H0 (target_in_temp t) st v c); auto|].
    cbv beta. intros _ st1 O1.
    assert (room 5 st1) as Hr1 by (eapply (iop_room base ext E good 0 5); [by apply iop_gop|done]).
    eapply runs_weaken.
    { apply (leaves_indirect base ext E y Y fr (set_reg v (u32 c) s)
        ltac:(apply set_reg_wf; [done|apply is_u32_u32]) st1 bt t); [apply O1|unfold room in *; lia|done|done]. }
    cbv beta. intros _ st2 O2.
    eapply (iop_trans _ _ _ _ 0 3); [by apply good_sane|apply iop_sane, iop_gop; exact O1|exact O2|lia].
  - apply runs_ret. eapply runs_weaken.
    { apply (leaves_indirect base ext E y Y fr s HS st bt t); [done|unfold room in *; lia|done|done]. }
    cbv beta. intros _ st2 O2. eapply iop_weaken; [exact O2|lia|done|done].
Qed.

(** ** The handlers *)

Lemma jump_successor ir s1 target :
  successor ir (jump s1 ir target) = Some (set_last_pc target s1, target) \/
  successor ir (jump s1 ir target) = Some (s1, target).
Proof using Type. unfold jump. destruct (branch_taken ir); auto. Qed.
(** Only registers and memory matter to the host. *)
Lemma exits_same s1 s2 p : X s1 = X s2 -> mem s1 = mem s2 -> exits s1 p -> exits s2 p.
Proof using Type.
  intros EX EM [Hs Hl].
  assert (forall x, home y fr s2 x -> home y fr s1 x) as Hh.
  { intros x []. unfold reg in *. split; try done; intros; unfold reg; rewrite ?EX, ?EM; auto. }
  split; auto.
Qed.

Lemma branch_exits ir s' pc' (nt : bool) :
  insn_len (opcode ir) = 4 ->
  successor ir (BRANCH_FUNC nt s ir (pc ir)) = Some (s', pc') -> exits s' pc' ->
  exits s (if nt then pc ir +u 4 else pc ir +u imm ir).
Proof using Type.
  intros HL E1 Hx. unfold BRANCH_FUNC in E1.
  destruct nt; [destruct (branch_untaken ir)|]; cbn in E1; rewrite ?HL in E1; injection E1 as <- <-;
    by eapply exits_same; [..|exact Hx].
Qed.
Lemma cbranch_exits ir s' pc' (nt : bool) :
  insn_len (opcode ir) = 2 ->
  successor ir (c_branch nt s ir (pc ir)) = Some (s', pc') -> exits s' pc' ->
  exits s (if nt then pc ir +u 2 else pc ir +u imm ir).
Proof using Type.
  intros HL E1 Hx. unfold c_branch, jump in E1.
  destruct nt; [destruct (branch_untaken ir)|destruct (branch_taken ir)]; cbn in E1; rewrite ?HL in E1;
    injection E1 as <- <-; by eapply exits_same; [..|exact Hx].
Qed.

Lemma dispatch_branch st bt ir cycle s' pc' :
  good st -> room 5 st -> wf_ir ir -> jit_branch (opcode ir) = true ->
  successor ir (insn_body (opcode ir) s ir cycle (pc ir)) = Some (s', pc') -> exits s' pc' ->
  leaves st (Gen.dispatch env bt ir).
Proof using Y HS H0.
  intros G Hr [Hrd Hr1 Hr2 Hi Hsh] Hj Hs Hx. unfold Gen.dispatch.
  destruct (opcode ir) eqn:Eo; try discriminate Hj; clear Hj; cbn [insn_body] in Hs.
  - unfold do_jal in Hs. cbv zeta in Hs.
    assert (exits (link (pc ir +u 4) ir s) (pc ir +u imm ir)) as Hx1.
    { destruct (jump_successor ir (link (pc ir +u 4) ir s) (pc ir +u imm ir)) as [Ej|Ej];
        rewrite Ej in Hs; injection Hs as <- <-; by eapply exits_same; [..|exact Hx]. }
    apply (leaves_jal st (rd ir) (pc ir +u 4) (pc ir +u imm ir) (link (pc ir +u 4) ir s) G Hr Hrd).
    + unfold link. by rewrite u32_idem.
    + by rewrite u32_idem.
  - apply (branch_exits _ _ _ _ ltac:(by rewrite Eo)) in Hs; [|done].
    apply (leaves_gen_branch st Xe); try done. cbn [cond_holds]. by destruct (_ =? _).
  - apply (branch_exits _ _ _ _ ltac:(by rewrite Eo)) in Hs; [|done].
    apply (leaves_gen_branch st Xne); try done. cbn [cond_holds]. by destruct (_ =? _).
  - apply (branch_exits _ _ _ _ ltac:(by rewrite Eo)) in Hs; [|done].
    apply (leaves_gen_branch st Xl); try done. cbn [cond_holds].
    rewrite Z.geb_leb, Z.leb_antisym in Hs. by destruct (_ <? _).
  - apply (branch_exits _ _ _ _ ltac:(by rewrite Eo)) in Hs; [|done].
    apply (leaves_gen_branch st Xge); try done. cbn [cond_holds]. rewrite Z.leb_antisym. by destruct (_ <? _).
  - apply (branch_exits _ _ _ _ ltac:(by rewrite Eo)) in Hs; [|done].
    apply (leaves_gen_branch st Xb); try done. cbn [cond_holds].
    rewrite Z.geb_leb, Z.leb_antisym in Hs. by destruct (_ <? _).
  - apply (branch_exits _ _ _ _ ltac:(by rewrite Eo)) in Hs; [|done].
    apply (leaves_gen_branch st Xae); try done. cbn [cond_holds]. rewrite Z.leb_antisym. by destruct (_ <? _).
  - unfold do_cjal in Hs. cbv zeta in Hs.
    assert (exits (set_reg rv_reg_ra (pc ir +u 2) s) (pc ir +u imm ir)) as Hx1.
    { destruct (jump_successor ir (set_reg rv_reg_ra (pc ir +u 2) s) (pc ir +u imm ir)) as [Ej|Ej];
        rewrite Ej in Hs; injection Hs as <- <-; by eapply exits_same; [..|exact Hx]. }
    apply (leaves_jal st rv_reg_ra (pc ir +u 2) (pc ir +u imm ir) _ G Hr ltac:(done) eq_refl).
    cbn [truth]. rewrite !u32_idem. done.
  - unfold do_cj in Hs. apply leaves_jump; [done..|]. rewrite u32_idem.
    destruct (jump_successor ir s (pc ir +u imm ir)) as [Ej|Ej];
      rewrite Ej in Hs; injection Hs as <- <-; by eapply exits_same; [..|exact Hx].
  - apply (cbranch_exits _ _ _ _ ltac:(by rewrite Eo)) in Hs; [|done].
    apply (leaves_gen_cbranch st Xe); try done. cbn [cond_holds]. unfold truth in Hs. by destruct (_ =? _).
  - apply (cbranch_exits _ _ _ _ ltac:(by rewrite Eo)) in Hs; [|done].
    apply (leaves_gen_cbranch st Xne); try done. cbn [cond_holds]. unfold truth in Hs. by destruct (_ =? _).
Qed.

Lemma leaves_indirect_from st bt ir v (m : Z -> jitM unit) t (lk : bool) vl c s1 :
  good st -> room 5 st -> is_reg v -> is_u32 t -> is_reg vl -> (lk = true -> vl <> 0) ->
  s1 = (if lk then set_reg vl (u32 c) s else s) -> exits s1 t ->
  (forall r st1, good st1 -> holds (register_map st1) r v ->
    runs st1 (m r) (fun _ st' => gop st1 st' (agrees s st1) (agrees_and y fr s (target_in_temp t) st'))) ->
  (forall st1, Gen.dispatch env (Some bt) ir st1 =
    (r ← ra_load v; m r;; jwhen lk (Gen.set_const vl c);; Gen.jump_indirect (Some bt)) st1) ->
  leaves st (Gen.dispatch env (Some bt) ir).
Proof using Y HS H0.
  intros G Hr Hv Ht Hvl Hlk Es Hx Hm Hd. eapply runs_ext; [exact Hd|]. apply runs_bind.
  eapply runs_weaken; [by apply (runs_ra_load base ext E y Y fr s HS Kt H0)|].
  cbv beta. intros r st1 [O1 Hh]. apply runs_bind. eapply runs_weaken; [apply Hm; [apply O1|done]|].
  cbv beta. intros _ st2 O2.
  assert (gop st st2 (agrees s st) (agrees_and y fr s (target_in_temp t) st2)) as O by (by eapply gop_trans).
  assert (room 5 st2) as Hr2 by (eapply (iop_room base ext E good 0 5); [apply iop_gop; exact O|done]).
  eapply runs_weaken; [by eapply (leaves_indirect_link st2 bt t lk vl c s1); [apply O|..]|].
  cbv beta. intros _ st3 O3.
  eapply (iop_trans _ _ _ _ 0 5); [by apply good_sane|apply iop_sane, iop_gop; exact O|exact O3|lia].
Qed.
Lemma dispatch_indirect st bt ir cycle s' pc' :
  good st -> room 5 st -> wf_ir ir -> jit_indirect (opcode ir) = true ->
  successor ir (insn_body (opcode ir) s ir cycle (pc ir)) = Some (s', pc') -> exits s' pc' ->
  leaves st (Gen.dispatch env (Some bt) ir).
Proof using Y HS H0.
  intros G Hr [Hrd Hr1 Hr2 Hi Hsh] Hj Hs Hx.
  pose proof (reg_is_u32 s (rs1 ir) (proj2 HS)) as Hu.
  destruct (opcode ir) eqn:Eo; try discriminate Hj; clear Hj; cbn [insn_body] in Hs.
  - unfold do_jalr in Hs. cbv zeta in Hs. injection Hs as <- <-.
    apply (leaves_indirect_from st bt ir (rs1 ir)
      (fun r => emit_mov r temp_reg;; emit_alu32_imm32 ALU_GRP1_OPCODE ALU_ADD temp_reg (imm ir);;
                emit_alu32_imm32 ALU_GRP1_OPCODE ALU_AND temp_reg (~u 1))
      ((reg s (rs1 ir) +u imm ir) &u ~u 1) (truth (rd ir)) (rd ir) (pc ir +u 4) (link (pc ir +u 4) ir s) G Hr Hr1).
    + apply land_u32, is_u32_u32.
    + done.
    + unfold truth. intros ?. by apply Z.eqb_neq, negb_true_iff.
    + unfold link. by rewrite u32_idem.
    + exact Hx.
    + intros r st1 G1 Hh. by apply runs_target_sum.
    + unfold Gen.dispatch. rewrite Eo. unfold Gen.do_jalr. assoc.
  - unfold do_cjr in Hs. injection Hs as <- <-.
    apply (leaves_indirect_from st bt ir (rs1 ir) (fun r => emit_mov r temp_reg) (reg s (rs1 ir)) false 0 0 s
      G Hr Hr1); try done.
    + intros r st1 G1 Hh. by apply runs_target_copy.
    + intros st1. unfold Gen.dispatch. rewrite Eo. done.
  - unfold do_cjalr in Hs. cbv zeta in Hs. rewrite u32_s32, (u32_small (reg s (rs1 ir))) in Hs by done. injection Hs as <- <-.
    apply (leaves_indirect_from st bt ir (rs1 ir) (fun r => emit_mov r temp_reg) (reg s (rs1 ir)) true rv_reg_ra
      (pc ir +u 2) (set_reg rv_reg_ra (pc ir +u 2) s) G Hr Hr1); try done.
    + by rewrite u32_idem.
    + intros r st1 G1 Hh. by apply runs_target_copy.
    + intros st1. unfold Gen.dispatch. rewrite Eo. done.
Qed.
End Term.
