(* ===== verification/JitBlock.v ===== *)
(** The code of a block: [translate] against the execution of the block by the interpreter. *)

From S2P Require Import Prelude.
From S2P Require Import Opcode.
From S2P Require Import Decode.
From S2P Require Import Machine.
From S2P Require Import Interp.
From S2P Require Import MachineFacts.
From S2P Require Import Invariant.
From S2P Require Import JitEmit.
From S2P Require Import JitAlloc.
From S2P Require Import JitGen.
From S2P Require Import X86.
From S2P Require Import X86Proofs.
From S2P Require Import JitEmitProofs.
From S2P Require Import JitCode.
From S2P Require Import JitRel.
From S2P Require Import JitAllocProofs.
From S2P Require Import JitSim.
From S2P Require Import JitInsn.
From S2P Require Import JitJump.
From S2P Require Import JitLeave.
From S2P Require Import JitDispatch.
From S2P Require Import JitTerm.

(** * The interpreter *)

(** The guest state after a block and the address of the next instruction. *)
Definition step_successor (r : step_result) : option (riscv * Z) :=
  match r with
  | Go_ir _ s _ pc | Go_indirect s _ pc => Some (s, pc)
  | Interp.Ret true s => Some (s, PC s)
  | _ => None
  end.

(** Consecutive addresses. *)
Fixpoint linked (pc0 : Z) (irs : list rv_insn) : bool :=
  match irs with
  | [] => true
  | ir :: irs => (pc ir =? pc0) && linked (pc0 +u insn_len (opcode ir)) irs
  end.
Definition end_pc (ir : rv_insn) : Z := pc ir +u insn_len (opcode ir).

Definition no_wrapb (ir : rv_insn) (s : riscv) : bool :=
  match jit_base (opcode ir) ir with
  | Some b => (0 <=? reg s b + imm ir) && (reg s b + imm ir <? 0x100000000)
  | None => true
  end.
Lemma no_wrapb_spec ir s : no_wrapb ir s = true -> no_wrap ir s.
Proof. unfold no_wrapb, no_wrap. case_match; [|done]. intros [? ?]%andb_prop. lia. Qed.

Section Interp.
Context `{riscv_io_laws} `{softfloat_laws}.

(** No access of the run wraps around. *)
Fixpoint accesses_ok (irs : list rv_insn) (s : riscv) (cycle : Z) : bool :=
  match irs with
  | [] => true
  | ir :: irs =>
      no_wrapb ir s &&
      match insn_body (opcode ir) s ir (u64 (cycle + 1)) (pc ir) with
      | Nextop s' _ => accesses_ok irs s' (u64 (cycle + 1))
      | _ => true
      end
  end.

Inductive straight_run : list rv_insn -> riscv -> Z -> riscv -> Z -> Prop :=
  | straight_nil s c : straight_run [] s c s c
  | straight_cons ir irs s c s1 p s2 c2 :
      no_wrap ir s -> insn_body (opcode ir) s ir (u64 (c + 1)) (pc ir) = Nextop s1 p ->
      straight_run irs s1 (u64 (c + 1)) s2 c2 -> straight_run (ir :: irs) s c s2 c2.

(** What holds of the guest between two instructions. *)
Record guest_ok (y : host_layout) (s : riscv) : Prop := {
  guest_wf : wf s;
  guest_x0 : reg s 0 = 0;
  guest_ram : mem_size (mem s) = ram_size y }.

Lemma straight_mem_size s ir cycle pc s' p :
  straight_op (opcode ir) = true -> insn_body (opcode ir) s ir cycle pc = Nextop s' p ->
  mem_size (mem s') = mem_size (mem s).
Proof.
  intros Hst E. destruct (opcode ir); try discriminate Hst; body_cases; try reflexivity;
    match goal with Hw : ?f _ _ _ = Some ?s2 |- mem_size (mem ?s2) = _ =>
      unfold f in Hw; apply bind_Some in Hw as (m & Hm & [= <-]) end;
    by apply mem_write_read in Hm as (? & _).
Qed.
Lemma straight_guest y s ir cycle s' p :
  guest_ok y s -> wf_ir ir -> 0 <= cycle < 0x10000000000000000 -> is_u32 (pc ir) ->
  straight_op (opcode ir) = true -> writes_x0 ir = false ->
  insn_body (opcode ir) s ir cycle (pc ir) = Nextop s' p -> guest_ok y s'.
Proof.
  intros [W X0 M] Hir Hc Hpc Hst Hx Hb. split.
  - pose proof (body_wf s ir cycle (pc ir) W Hir Hc Hpc (opcode ir)) as HW. by rewrite Hb in HW.
  - destruct (decide (opcode ir = rv_insn_nop)) as [Eo|Eo].
    { rewrite Eo in Hb. cbn in Hb. injection Hb as <- <-. apply reg_set_reg_eq; [apply W|done]. }
    destruct (body_frame _ _ _ _ _ _ _ Hb) as [_ Hf]. rewrite Hf; [done|]. intros d Hd Hd0.
    destruct Hir. unfold writes_x0 in Hx.
    assert (is_reg d) as Hr.
    { clear -Hd wf_rd wf_rs1. destruct (opcode ir); cbn in Hd; simplify_eq; done. }
    assert (d = 0) as -> by (unfold is_reg in Hr; lia). destruct (opcode ir); cbn in *; simplify_eq; lia.
  - rewrite <- M. by eapply straight_mem_size.
Qed.

(** A handler of a straight-line instruction falls through, traps or crashes. *)
Lemma straight_outcome s ir cycle pc :
  straight_op (opcode ir) = true ->
  match insn_body (opcode ir) s ir cycle pc with
  | Nextop _ p => p = pc | Return false _ | Undef => True | _ => False
  end.
Proof.
  intros Hst. destruct (opcode ir); try discriminate Hst; cbn [insn_body];
    match goal with |- match ?f with _ => _ end => let h := head_of f in unfold h end;
    unfold shift_func, lw_at, sw_at, RV_EXC_MISALIGN_HANDLER, wr_rd, wr_rs1; cbv zeta;
    repeat case_match; simplify_eq; done.
Qed.

Lemma run_irs_straight pre t s' pc' : forall s cycle pc0,
  Forall (fun ir => straight_op (opcode ir) = true) pre ->
  linked pc0 (pre ++ [t]) = true -> accesses_ok (pre ++ [t]) s cycle = true ->
  step_successor (run_irs do_insn (pre ++ [t]) s cycle pc0) = Some (s', pc') ->
  exists s2 c2, straight_run pre s cycle s2 c2 /\ no_wrap t s2 /\
    step_successor (do_insn false s2 t c2 (pc t)) = Some (s', pc').
Proof.
  induction pre as [|ir pre IH]; intros s cycle pc0 Hst Hl Ha Hr.
  - cbn in Hl, Ha, Hr. apply andb_prop in Hl as [Hl _]. apply andb_prop in Ha as [Ha _].
    apply Z.eqb_eq in Hl. subst pc0. exists s, cycle. split; [constructor|].
    split; [by apply no_wrapb_spec|]. by destruct (do_insn false s t cycle (pc t)).
  - apply Forall_cons in Hst as [Hs1 Hst]. cbn [app linked accesses_ok run_irs] in Hl, Ha, Hr.
    apply andb_prop in Hl as [Hpc Hl]. apply andb_prop in Ha as [Hnw Ha]. apply Z.eqb_eq in Hpc. subst pc0.
    replace (match pre ++ [t] with [] => false | _ => true end) with true in Hr by (by destruct pre).
    unfold do_insn at 1, RVOP in Hr. pose proof (straight_outcome s ir (u64 (cycle + 1)) (pc ir) Hs1) as Ho.
    destruct (insn_body (opcode ir) s ir (u64 (cycle + 1)) (pc ir)) as [s1 p| | | |[] |] eqn:Eb; try done.
    subst p. destruct (IH s1 _ _ Hst Hl Ha Hr) as (s2 & c2 & Hrun & Hnw2 & Hlast). exists s2, c2.
    split; [|done]. econstructor; [by apply no_wrapb_spec|exact Eb|exact Hrun].
Qed.

Lemma do_insn_successor s ir cycle s' pc' :
  (forall s1, insn_body (opcode ir) s ir (u64 (cycle + 1)) (pc ir) <> Return true s1) ->
  step_successor (do_insn false s ir cycle (pc ir)) = Some (s', pc') ->
  exists s1, successor ir (insn_body (opcode ir) s ir (u64 (cycle + 1)) (pc ir)) = Some (s1, pc') /\
    X s1 = X s' /\ mem s1 = mem s'.
Proof.
  intros Hn Hs. unfold do_insn, RVOP in Hs.
  destruct (insn_body (opcode ir) s ir (u64 (cycle + 1)) (pc ir)) as [s1 p|s1 p|tg s1 p|s1 p|[] s1|] eqn:Eb;
    cbn in Hs; try done; unfold end_op in Hs; repeat case_match; cbn in Hs; simplify_eq; cbn; eauto.
  by destruct (Hn s').
Qed.
Lemma branch_outcome s ir cycle pc s1 :
  jit_branch (opcode ir) || jit_indirect (opcode ir) = true ->
  insn_body (opcode ir) s ir cycle pc <> Return true s1.
Proof.
  intros Hb. destruct (opcode ir); try discriminate Hb; cbn [insn_body];
    match goal with |- ?f <> _ => let h := head_of f in unfold h end;
    unfold BRANCH_FUNC, c_branch, jump; cbv zeta; repeat case_match; done.
Qed.
End Interp.

(** * Generated code *)

Section Block.
Context `{RIO : riscv_io_laws} `{SFT : softfloat_laws}.
Context (base : Z) (ext : Z -> xstate -> option xstate) (E : Z -> xstate -> Prop).
Context (y : host_layout) (Y : layout_ok y) (fr : host_frame).
Context (env : jit_env) (HE : mem_base_ptr env = ram_ptr y) (bt : option jit_bht).
#[local] Abbreviation iop := (iop base ext E).
#[local] Abbreviation agrees := (agrees y fr).
#[local] Abbreviation exits := (exits E y fr).

(** The code of an earlier instruction is cut off when the buffer is full. *)
Lemma iop_full I n st P Q : I st -> should_flush st = true -> iop I n st st P Q.
Proof using Type. intros G F. split; [done|done|lia|]. intros F'. congruence. Qed.

Lemma iop_flushed I n st st' P Q P' Q' :
  iop I n st st' P Q -> should_flush st' = true -> iop I n st st' P' Q'.
Proof using Type. intros [] F. split; [done..|]. intros F'. congruence. Qed.

Lemma runs_refresh st idx s :
  good st -> runs st (regs_refresh idx) (fun _ st' => iop good 0 st st' (agrees s st) (agrees s st')).
Proof using Type.
  intros [W Hrm Hq]. eexists tt, _. split; [reflexivity|].
  set (f := refresh (liveness st) idx).
  assert (forall h, reg_idx (f h) = reg_idx h /\ vm_reg_idx (f h) = vm_reg_idx h /\ dirty (f h) = dirty h /\
    (alive (f h) = true -> alive h = true)) as Hf.
  { intros h. unfold f, refresh. repeat case_match; done. }
  split.
  - split; [done| |done]. cbn [register_map with_register_map]. destruct Hrm as [R1 R2 R3 R4 R5]. split.
    + rewrite <- R1, <- list_fmap_compose. apply list_fmap_ext. intros i h _. apply Hf.
    + intros h (h0 & -> & Hh)%list_elem_of_fmap. destruct (Hf h0) as (_ & -> & _). auto.
    + intros h h' (h0 & -> & Hh)%list_elem_of_fmap (h1 & -> & Hh1)%list_elem_of_fmap.
      destruct (Hf h0) as (-> & -> & _), (Hf h1) as (-> & -> & _). auto.
    + intros h (h0 & -> & Hh)%list_elem_of_fmap. destruct (Hf h0) as (_ & -> & -> & _). auto.
    + intros h (h0 & -> & Hh)%list_elem_of_fmap. destruct (Hf h0) as (_ & -> & _ & Ha). auto.
  - by split.
  - cbn. lia.
  - apply gen_nop; [done..|]. intros x Hx. apply agrees_rel in Hx. apply agrees_rel. destruct Hx.
    split; try done; cbn [register_map with_register_map].
    + intros h (h0 & -> & Hh)%list_elem_of_fmap. destruct (Hf h0) as (-> & -> & _). auto.
    + intros v Hv Hx HD. apply rx_mem; [done..|]. destruct HD as [->|HD]; [by left|right].
      intros h Hh Ev. destruct (Hf h) as (_ & E1 & <- & _). apply HD; [by apply list_elem_of_fmap_2|congruence].
Qed.

Definition straight_ok (ir : rv_insn) : Prop :=
  wf_ir ir /\ is_u32 (pc ir) /\ jit_straight (opcode ir) = true /\ writes_x0 ir = false.
Lemma straights_guest irs : forall s c s2 c2,
  straight_run irs s c s2 c2 -> Forall straight_ok irs -> guest_ok y s ->
  0 <= c < 0x10000000000000000 -> guest_ok y s2 /\ 0 <= c2 < 0x10000000000000000.
Proof using RIO SFT.
  induction irs as [|ir irs IH]; intros s c s2 c2 Hrun Hall Hg Hc; [inversion Hrun; by subst|].
  inversion Hrun as [|? ? ? ? s3 ? ? ? Hnw Hb Hrun']; subst.
  apply Forall_cons in Hall as [(Hir & Hpc & Hst & Hx0) Hall].
  eapply (IH s3); [exact Hrun'|done| |apply u64_range].
  apply jit_straight_op in Hst. eapply (straight_guest y s ir (u64 (c + 1))); try done. apply u64_range.
Qed.
Lemma runs_straights irs : forall idx st s c s2 c2,
  good st -> room (length irs) st -> guest_ok y s -> 0 <= c < 0x10000000000000000 ->
  Forall straight_ok irs ->
  straight_run irs s c s2 c2 ->
  runs st (translate_irs env bt idx irs) (fun _ st' =>
    iop good (length irs) st st' (agrees s st) (agrees s2 st') /\ guest_ok y s2 /\
    0 <= c2 < 0x10000000000000000).
Proof using Y HE RIO SFT.
  induction irs as [|ir irs IH]; intros idx st s c s2 c2 G Hr Hg Hc Hall Hrun.
  - inversion Hrun; subst. apply runs_ret. split; [|done]. split; [done|done|lia|]. apply gen_nop; [apply G|done..].
  - inversion Hrun as [|ir' irs' s0 c0 s1 p s2' c2' Hnw Hb Hrun']; subst.
    apply Forall_cons in Hall as [(Hir & Hpc & Hst & Hx0) Hall].
    assert (0 <= u64 (c + 1) < 0x10000000000000000) as Hc1 by apply u64_range.
    pose proof (jit_straight_op _ Hst) as Hop.
    assert (guest_ok y s1) as Hg1 by (by eapply (straight_guest y s ir)).
    cbn [translate_irs]. apply runs_bind, runs_jget. destruct (should_flush st) eqn:F.
    { apply runs_ret. split; [by apply iop_full|]. by eapply (straights_guest irs s1). }
    destruct Hg as [HW HZ HM].
    apply runs_bind. eapply runs_weaken; [by apply (runs_refresh st idx s)|]. cbv beta. intros _ st1 O1.
    assert (room (S (length irs)) st1) as Hr1 by (by eapply (iop_room base ext E good 0)).
    assert (room 1 st1) as Hr11 by (unfold room in *; lia).
    destruct (dispatch_straight base ext E y Y fr s (wf_X _ HW) HZ env HE HM st1 bt ir (u64 (c + 1)) p s1
      (iop_good _ _ _ _ _ _ _ _ _ O1) Hr11 Hir Hst Hx0 Hnw Hb) as [Hok _].
    apply runs_bind. eapply runs_weaken; [exact Hok|].
    cbv beta. intros _ st2 O2.
    assert (room (length irs) st2) as Hr2 by (eapply (iop_room base ext E good 1); [exact O2|done]).
    eapply runs_weaken; [by eapply (IH (idx + 1) st2 s1); [apply O2|..]|].
    cbv beta. intros _ st3 [O3 Hg3]. split; [|done].
    eapply (iop_trans _ _ _ _ 0 (S (length irs))); [done|exact O1| |cbn; lia].
    eapply (iop_trans _ _ _ _ 1 (length irs)); [apply O1|exact O2|exact O3|lia].
Qed.

(** ** The beginning of a block *)

Lemma insert_by_perm cmp v l : insert_by cmp v l ≡ₚ v :: l.
Proof using Type.
  induction l as [|w l IH]; cbn; [done|]. destruct (cmp v w <=? 0); [done|].
  rewrite IH. constructor.
Qed.
Lemma qsort_perm cmp l : qsort cmp l ≡ₚ l.
Proof using Type. induction l as [|v l IH]; cbn; [done|]. by rewrite insert_by_perm, IH. Qed.

Lemma live_regs_straight ir : jit_straight (opcode ir) = true -> is_Some (live_regs ir).
Proof using Type. unfold live_regs. by destruct (opcode ir). Qed.
Lemma live_regs_branch ir :
  jit_branch (opcode ir) || jit_indirect (opcode ir) = true -> is_Some (live_regs ir).
Proof using Type. unfold live_regs. by destruct (opcode ir). Qed.
Lemma liveness_total irs : forall idx l,
  Forall (fun ir => is_Some (live_regs ir)) irs -> is_Some (liveness_from idx irs l).
Proof using Type.
  induction irs as [|ir irs IH]; intros idx l Hl; cbn; [done|].
  apply Forall_cons in Hl as [[rs ->] Hl]. cbn. by apply IH.
Qed.

Lemma runs_start st irs (k : jitM unit) (K : unit -> jst -> Prop) :
  sane st -> Forall (fun ir => is_Some (live_regs ir)) irs ->
  (forall st', good st' -> js st' = js st -> should_flush st' = should_flush st ->
    (forall s x, home y fr s x -> agrees s st' x) -> runs st' k K) ->
  runs st (reset_reg;; liveness_reset;; liveness_calc irs;; k) K.
Proof using Type.
  intros [W Hregs] Hl Hk. apply runs_bind. eexists tt, _. split; [reflexivity|].
  apply runs_bind. eexists tt, _. split; [reflexivity|].
  destruct (liveness_total irs 0 (replicate N_RV_REGS (-1)) Hl) as [l El].
  apply runs_bind. eexists tt, _. split; [unfold liveness_calc; cbn [liveness with_liveness]; rewrite El; reflexivity|].
  set (rm := (fun h => mk_host_reg (reg_idx h) (-1) false false) <$> register_map st).
  assert (forall h, h ∈ rm -> vm_reg_idx h = -1 /\ dirty h = false /\ alive h = false) as Hrm.
  { intros h (h0 & -> & _)%list_elem_of_fmap. done. }
  apply Hk; [|done|done|].
  - split.
    + done.
    + change (rmwf rm). split.
      * unfold rm. rewrite <- list_fmap_compose, <- Hregs. by apply list_fmap_ext.
      * intros h Hh. left. apply Hrm, Hh.
      * intros h h' Hh _ _ Hv. destruct (Hrm h Hh) as [E1 _]. rewrite E1 in Hv. unfold is_reg in Hv. lia.
      * intros h Hh _. apply Hrm, Hh.
      * intros h Hh Ha. destruct (Hrm h Hh) as (_ & _ & ?). congruence.
    + intros v Hv. change (v ∈ qsort (liveness_cmp l) candidate_queue_init). rewrite qsort_perm. unfold candidate_queue_init. apply list_elem_of_fmap.
      exists (Z.to_nat v). unfold is_reg, N_RV_REGS in *. split; [lia|]. apply elem_of_seq. lia.
  - intros s x Hh. apply agrees_rel. change (rel y fr rm s x). destruct Hh. split; try done.
    + intros h Hh Hv. destruct (Hrm h Hh) as [E1 _]. rewrite E1 in Hv. unfold is_reg in Hv. lia.
    + intros v Hv Hx _. apply rx_mem; [done..|]. right. intros h []%elem_of_nil.
Qed.

(** ** Blocks *)

(** The blocks whose code is proved correct: straight-line instructions, and then a branch, an
    indirect jump with its history table, or the end of the page. *)
Record block_ok (b : jit_block) (pre : list rv_insn) (t : rv_insn) : Prop := {
  bk_irs : jb_irs b = pre ++ [t];
  bk_pre : Forall straight_ok pre;
  bk_wf : wf_ir t;
  bk_pc : is_u32 (pc t);
  bk_linked : linked (jb_pc_start b) (jb_irs b) = true;
  bk_end : if jb_page_terminated b then straight_ok t /\ jb_pc_end b = end_pc t
           else jit_branch (opcode t) = true \/
                jit_indirect (opcode t) = true /\ is_Some (jb_table b) }.

(** The part of the state that the translation of a block keeps. *)
Record same_js (j j' : jit_state) : Prop := {
  sj_set : jset j' = jset j;
  sj_size : jsize j' = jsize j;
  sj_exit : exit_loc j' = exit_loc j;
  sj_org : org_size j' = org_size j;
  sj_retpoline : retpoline_loc j' = retpoline_loc j;
  sj_map : offset_map j' = offset_map j;
  sj_kept : kept j j';
  sj_full : n_blocks j = MAX_BLOCKS -> offset j' = offset j }.
(** The code of a whole block with at most [n] jumps. *)
Record bop (n : nat) (st st' : jst) (P : xstate -> Prop) : Prop := {
  bop_sane : sane st';
  bop_same : same_js (js st) (js st');
  bop_jumps : (length (jumps (js st')) <= length (jumps (js st)) + n)%nat;
  bop_gen : gen base ext E st st' P (fun _ => False) }.

Lemma bop_iop n st0 st st' (P P' : xstate -> Prop) :
  js st = js st0 -> should_flush st = should_flush st0 -> (forall x, P' x -> P x) ->
  iop sane n st st' P (fun _ => False) -> bop n st0 st' P'.
Proof using Type.
  intros Ej Ef HP [S R J Hg]. split; [done| |by rewrite <- Ej|].
  - destruct R. rewrite Ej in *. by split.
  - intros F. destruct (Hg F) as [F0 (l & L & N & Hs)]. rewrite Ej, Ef in *. split; [done|].
    exists l. split; [done|]. split; [done|]. by eapply sim_weaken.
Qed.

Lemma translate_irs_app idx pre post st :
  translate_irs env bt idx (pre ++ post) st
  = (translate_irs env bt idx pre;; translate_irs env bt (idx + Z.of_nat (length pre)) post) st.
Proof using Type.
  revert idx st. induction pre as [|ir pre IH]; intros idx st; cbn [app length].
  { cbn. by rewrite Z.add_0_r. }
  cbn [translate_irs]. unfold mbind, jitM_bind, jget in *. destruct (should_flush st) eqn:F.
  - cbn. destruct post; cbn; [done|]. unfold mbind, jitM_bind, jget. by rewrite F.
  - destruct (regs_refresh idx st) as [[u1 st1]|]; [|done].
    destruct (Gen.dispatch env bt ir st1) as [[u2 st2]|]; [|done]. rewrite IH.
    replace (idx + 1 + Z.of_nat (length pre)) with (idx + Z.of_nat (S (length pre))) by lia. done.
Qed.
Lemma straight_run_app irs1 irs2 s c s1 c1 s2 c2 :
  straight_run irs1 s c s1 c1 -> straight_run irs2 s1 c1 s2 c2 -> straight_run (irs1 ++ irs2) s c s2 c2.
Proof using Type. induction 1; cbn; [done|]. intros. econstructor; eauto. Qed.

(** The last instruction of a block that ends in a jump. *)
Lemma runs_last_jump st idx t s c s' pc' :
  good st -> room 5 st -> guest_ok y s -> wf_ir t ->
  jit_branch (opcode t) = true \/ jit_indirect (opcode t) = true /\ is_Some bt ->
  step_successor (do_insn false s t c (pc t)) = Some (s', pc') -> exits s' pc' ->
  runs st (translate_irs env bt idx [t]) (fun _ st' =>
    iop sane 5 st st' (agrees s st) (fun _ => False)).
Proof using Y RIO SFT.
  intros G Hr [W Z0 _] Ht Hj Hs Hx. cbn [translate_irs]. apply runs_bind, runs_jget.
  destruct (should_flush st) eqn:F; [apply runs_ret; apply iop_full; [by apply good_sane|done]|].
  destruct (do_insn_successor s t c s' pc') as (s1 & Hs1 & EX & EM); [|done|].
  { intros s1. apply branch_outcome. destruct Hj as [->|[-> _]]; [done|apply orb_true_r]. }
  assert (exits s1 pc') as Hx1 by (eapply exits_same; [..|exact Hx]; done).
  apply runs_bind. eapply runs_weaken; [by apply (runs_refresh st idx s)|]. cbv beta. intros _ st1 O1.
  assert (room 5 st1) as Hr1 by (eapply (iop_room base ext E good 0 5); [exact O1|done]).
  apply runs_bind. eapply runs_weaken.
  { destruct Hj as [Hj|[Hj [h Eh]]].
    - eapply (dispatch_branch base ext E y Y fr s (wf_X _ W) Z0 env st1 bt t _ s1 pc'); try done. apply O1.
    - rewrite Eh. eapply (dispatch_indirect base ext E y Y fr s (wf_X _ W) Z0 env st1 h t _ s1 pc'); try done. apply O1. }
  cbv beta. intros _ st2 O2. apply runs_ret.
  eapply (iop_trans _ _ _ _ 0 5); [by apply good_sane|apply iop_sane; exact O1|exact O2|lia].
Qed.

(** The code at the end of a page. *)
Lemma runs_page_end st s (link : bool) pc' :
  good st -> room 2 st -> guest_ok y s -> is_u32 pc' -> exits s pc' ->
  runs st (store_back;; (jwhen link (emit_jmp pc');; (Gen.store_pc pc';; emit_exit))) (fun _ st' =>
    iop sane 2 st st' (agrees s st) (fun _ => False)).
Proof using Y.
  intros G Hr [W Z0 _] Hpc Hx. apply runs_bind.
  eapply runs_weaken; [by apply (runs_flush base ext E y Y fr s (wf_X _ W) Kt st)|]. cbv beta. intros _ st1 O1.
  assert (room 2 st1) as Hr1 by (eapply (iop_room base ext E good 0 2); [by apply iop_gop|done]).
  eapply runs_weaken.
  { apply (runs_link base ext E y Y fr st1 s link pc'); [apply good_sane, O1|done|]. by rewrite u32_small. }
  cbv beta. intros _ st2 [O2 _]. eapply (iop_trans _ _ _ _ 0 2); [by apply good_sane|..|exact O2|lia].
  eapply iop_weaken; [apply iop_sane, iop_gop; exact O1|lia|done|]. by intros x [].
Qed.

Lemma block_live b pre t :
  block_ok b pre t -> Forall (fun ir => is_Some (live_regs ir)) (jb_irs b).
Proof using Type.
  intros [-> Hp _ _ _ He]. apply Forall_app. split.
  - apply (Forall_impl _ _ _ Hp). intros ir (_ & _ & Hs & _). by apply live_regs_straight.
  - apply Forall_cons. split; [|by apply Forall_nil]. destruct (jb_page_terminated b).
    + destruct He as [(_ & _ & Hs & _) _]. by apply live_regs_straight.
    + apply live_regs_branch. destruct He as [->|[-> _]]; [done|apply orb_true_r].
Qed.

(** A block that ends in a straight-line instruction. *)
Lemma last_straight t s c s' pc' :
  straight_ok t -> no_wrap t s -> step_successor (do_insn false s t c (pc t)) = Some (s', pc') ->
  exists s1, straight_run [t] s c s1 (u64 (c + 1)) /\ pc' = end_pc t /\ X s1 = X s' /\ mem s1 = mem s'.
Proof using Type.
  intros (_ & _ & Hst & _) Hnw Hs. pose proof (straight_outcome s t (u64 (c + 1)) (pc t) (jit_straight_op _ Hst)) as Ho.
  destruct (do_insn_successor s t c s' pc') as (s1 & Hs1 & EX & EM); [|done|].
  { intros s1 Eb. by rewrite Eb in Ho. }
  destruct (insn_body (opcode t) s t (u64 (c + 1)) (pc t)) as [s2 p| | | |[] |] eqn:Eb; try done.
  subst p. cbn in Hs1. injection Hs1 as -> <-. exists s1. split; [|done].
  econstructor; [done|exact Eb|constructor].
Qed.

Lemma is_u32_end_pc t : is_u32 (end_pc t).
Proof using Type. apply is_u32_u32. Qed.

Lemma runs_block_body b pre t st s c s' pc' :
  bt = jb_table b -> block_ok b pre t -> good st -> room (length pre + 6) st -> guest_ok y s ->
  0 <= c < 0x10000000000000000 -> accesses_ok (jb_irs b) s c = true ->
  step_successor (run_irs do_insn (jb_irs b) s c (jb_pc_start b)) = Some (s', pc') -> exits s' pc' ->
  runs st (translate_irs env bt 0 (jb_irs b);;
           full ← jget should_flush;
           jwhen (jb_page_terminated b && negb full)
             (store_back;;
              match last (jb_irs b) with
              | None => junreachable
              | Some ir =>
                  jwhen (bool_decide (is_Some (branch_taken ir))) (emit_jmp (jb_pc_end b));;
                  Gen.store_pc (jb_pc_end b);;
                  emit_exit
              end))
    (fun _ st' => iop sane (length pre + 6) st st' (agrees s st) (fun _ => False)).
Proof using Y HE RIO SFT.
  intros Ebt [Eirs Hpre Hwf Hpc Hl He] G Hr Hg Hc Hacc Hrun Hx. rewrite Eirs in *.
  assert (Forall (fun ir => straight_op (opcode ir) = true) pre) as Hst.
  { apply (Forall_impl _ _ _ Hpre). intros ir (_ & _ & ? & _). by apply jit_straight_op. }
  destruct (run_irs_straight pre t s' pc' s c _ Hst Hl Hacc Hrun) as (s2 & c2 & Hrun2 & Hnw & Hlast).
  apply runs_bind. eapply runs_ext; [intros; apply translate_irs_app|].
  apply runs_bind. eapply runs_weaken.
  { eapply (runs_straights pre 0 st s c s2 c2); try done. unfold room in *. lia. }
  cbv beta. intros _ st1 (O1 & Hg2 & Hc2).
  assert (room 6 st1) as Hr1 by (by eapply (iop_room base ext E good (length pre))).
  destruct (jb_page_terminated b).
  - destruct He as [Hok Epc].
    destruct (last_straight t s2 c2 s' pc' Hok Hnw Hlast) as (s3 & Hrun3 & -> & EX & EM).
    eapply runs_weaken.
    { eapply (runs_straights [t] (0 + Z.of_nat (length pre)) st1 s2 c2 s3); try done; [apply O1| |].
      - unfold room in *. cbn. lia.
      - apply Forall_cons. split; [done|by apply Forall_nil]. }
    cbv beta. intros _ st2 (O2 & Hg3 & _).
    assert (iop good (length pre + 1) st st2 (agrees s st) (agrees s3 st2)) as O
      by (eapply (iop_trans _ _ _ _ (length pre) 1); [done|exact O1|exact O2|lia]).
    apply runs_bind, runs_jget. cbn [andb]. destruct (should_flush st2) eqn:F; cbn [negb jwhen].
    + apply runs_ret. apply (iop_flushed sane _ _ _ (agrees s st) (agrees s3 st2)); [|done].
      eapply iop_weaken; [apply iop_sane; exact O|lia|done|done].
    + rewrite last_snoc, Epc.
      eapply runs_weaken; [apply (runs_page_end st2 s3 _ (end_pc t)); [apply O| |done|apply is_u32_end_pc|]|].
      * eapply (iop_room base ext E good (length pre + 1)); [exact O|]. unfold room in *. lia.
      * eapply exits_same; [..|exact Hx]; done.
      * cbv beta. intros _ st3 O3. eapply (iop_trans _ _ _ _ (length pre + 1) 2);
          [by apply good_sane|apply iop_sane; exact O|exact O3|lia].
  - eapply runs_weaken.
    { eapply (runs_last_jump st1 (0 + Z.of_nat (length pre)) t s2 c2 s' pc'); try done; [apply O1| |by rewrite Ebt].
      unfold room in *. lia. }
    cbv beta. intros _ st2 O2. apply runs_bind, runs_jget. cbn [andb jwhen]. apply runs_ret.
    eapply (iop_trans _ _ _ _ (length pre) 5); [by apply good_sane|apply iop_sane; exact O1|exact O2|lia].
Qed.

(** [translate]: from a state in which the guest registers are in memory the code of the block
    does what the interpreter does on it, and then leaves for the next block. *)
Lemma runs_translate b pre t st s c s' pc' :
  bt = jb_table b -> block_ok b pre t -> sane st -> room (length pre + 6) st -> guest_ok y s ->
  0 <= c < 0x10000000000000000 -> accesses_ok (jb_irs b) s c = true ->
  step_successor (run_irs do_insn (jb_irs b) s c (jb_pc_start b)) = Some (s', pc') -> exits s' pc' ->
  runs st (translate env b) (fun _ st' => bop (length pre + 6) st st' (home y fr s)).
Proof using Y HE RIO SFT.
  intros Ebt Hok S Hr Hg Hc Hacc Hrun Hx. unfold translate.
  apply runs_start; [done|by eapply block_live|]. intros st1 G1 Ej Ef Hh. rewrite <- Ebt.
  eapply runs_weaken.
  { eapply (runs_block_body b pre t st1 s c s' pc'); try done. unfold room in *. by rewrite Ej. }
  cbv beta. intros _ st2 O. eapply (bop_iop _ st st1 st2 (agrees s st1)); [done|done|intros x; apply Hh|exact O].
Qed.
End Block.
