(* ===== verification/JitStatic.v ===== *)
(** The layout of a block whatever it computes: [translate] ends and appends a list of
    instructions, also for a block that is never run.

    Every instruction that the generated code supports has a state in which its handler
    completes; the layout of its code is the one of that state. *)

From S2P Require Import Prelude.
From S2P Require Import Opcode.
From S2P Require Import Decode.
From S2P Require Import Machine.
From S2P Require Import Interp.
From S2P Require Import MachineFacts.
From S2P Require Import Invariant.
From S2P Require Import JitEmit.
From S2P Require Import JitAlloc.
From S2P Require Import JitGen.
From S2P Require Import X86.
From S2P Require Import X86Proofs.
From S2P Require Import JitEmitProofs.
From S2P Require Import JitCode.
From S2P Require Import JitRel.
From S2P Require Import JitAllocProofs.
From S2P Require Import JitSim.
From S2P Require Import JitInsn.
From S2P Require Import JitJump.
From S2P Require Import JitLeave.
From S2P Require Import JitDispatch.
From S2P Require Import JitTerm.
From S2P Require Import JitBlock.

(** The shift amounts of an encoded instruction, and no access below address zero. *)
Definition encodable (ir : rv_insn) : bool :=
  match opcode ir with
  | rv_insn_csrli | rv_insn_csrai => shamt ir <? 32
  | rv_insn_cslli => u8 (imm ir) <? 32
  | o => match jit_base o ir with Some 0 => 0 <=? imm ir | _ => true end
  end.

(** A guest with [v] in register [r] and 4 GiB of RAM. *)
Definition probe (r v : Z) : riscv :=
  set_reg r v (mk_riscv (replicate 32 0) 0 (replicate 32 0) (fun _ => 0) 0 0 RV_PRIV_M_MODE false false
    (mk_memory ∅ 0x100000000) true false 0 0 0).
Definition probe_state (ir : rv_insn) : riscv :=
  match jit_base (opcode ir) ir with
  | Some r => probe r (Z.max 0 (- imm ir))
  | None => probe 0 0
  end.

Lemma probe_regs r v : is_reg r -> is_u32 v -> wf_regs (probe r v).
Proof.
  intros Hr Hv. split; cbn [X probe set_reg set_X]; [by rewrite length_insert|].
  apply Forall_insert; [|done]. apply Forall_replicate. unfold is_u32. lia.
Qed.
Lemma probe_x0 r v : is_reg r -> (r = 0 -> v = 0) -> reg (probe r v) 0 = 0.
Proof.
  intros Hr Hv. destruct (decide (r = 0)) as [->|Hn].
  - rewrite (Hv eq_refl). done.
  - unfold probe. rewrite reg_set_reg_ne; [done|]. unfold is_reg in Hr. lia.
Qed.
Lemma probe_reg r v : is_reg r -> reg (probe r v) r = v.
Proof. intros Hr. apply reg_set_reg_eq; [done|]. unfold is_reg in Hr. done. Qed.
Lemma jit_base_reg ir r : wf_ir ir -> jit_base (opcode ir) ir = Some r -> is_reg r.
Proof. intros [] E. unfold is_reg. destruct (opcode ir); cbn in E; simplify_eq; done. Qed.
Section Static.
Context `{RIO : riscv_io_laws} `{SFT : softfloat_laws}.
Lemma probe_state_ok ir :
  wf_ir ir -> encodable ir = true ->
  wf_regs (probe_state ir) /\ reg (probe_state ir) 0 = 0 /\ no_wrap ir (probe_state ir) /\
  mem_size (mem (probe_state ir)) = 0x100000000.
Proof using Type.
  intros W He. unfold probe_state, no_wrap. destruct (jit_base (opcode ir) ir) as [r|] eqn:Er.
  - pose proof (jit_base_reg ir r W Er) as Hr. pose proof (wf_imm _ W) as Hi. unfold is_s32 in Hi.
    assert (r = 0 -> 0 <= imm ir) as Hz.
    { intros ->. unfold encodable in He. destruct (opcode ir); cbn in Er; try discriminate Er;
      injection Er as Er; cbn [jit_base] in He; rewrite ?Er in He; try lia. }
    split; [apply probe_regs; [done|unfold is_u32; lia]|].
    split; [apply probe_x0; [done|lia]|]. split; [rewrite probe_reg by done; lia|done].
  - split; [apply probe_regs; [|unfold is_u32]; done|]. done.
Qed.
Lemma straight_feasible ir cycle :
  wf_ir ir -> jit_straight (opcode ir) = true -> encodable ir = true ->
  exists s1, insn_body (opcode ir) (probe_state ir) ir cycle (pc ir) = Nextop s1 (pc ir).
Proof using Type.
  intros W Hst He. destruct (probe_state_ok ir W He) as (_ & _ & Hnw & Hm).
  pose proof (wf_imm _ W) as Hi. unfold is_s32 in Hi.
  assert (forall b, jit_base (opcode ir) ir = Some b ->
    reg (probe_state ir) b +u imm ir = Z.max 0 (imm ir)) as Ha.
  { intros b Eb. unfold probe_state. rewrite Eb, probe_reg by (by eapply jit_base_reg).
    unfold u32. rewrite Z.mod_small; lia. }
  assert (allow_misalign (probe_state ir) = true) as Hal by (unfold probe_state; case_match; done).
  assert (forall n, (n <= 4)%nat -> mem_read n (mem (probe_state ir)) (Z.max 0 (imm ir)) =
    Some (load_le (mem (probe_state ir)) (Z.max 0 (imm ir)) n)) as Hrd.
  { intros n Hn. unfold mem_read, GUEST_RAM_CONTAINS. rewrite Hm.
    replace (_ && _) with true; [done|]. symmetry. apply andb_true_intro. lia. }
  assert (forall n v, (n <= 4)%nat -> mem_write n (mem (probe_state ir)) (Z.max 0 (imm ir)) v =
    Some (store_le (mem (probe_state ir)) (Z.max 0 (imm ir)) n v)) as Hwr.
  { intros n v Hn. unfold mem_write, GUEST_RAM_CONTAINS. rewrite Hm.
    replace (_ && _) with true; [done|]. symmetry. apply andb_true_intro. lia. }
  generalize dependent (probe_state ir). intros s _ _ Ha Hal Hrd Hwr.
  unfold encodable in He.
  destruct (opcode ir) eqn:Eo; try discriminate Hst; cbn [insn_body];
    match goal with |- exists _, ?f = _ => let h := head_of f in unfold h end; 
    unfold shift_func, lw_at, sw_at, RV_EXC_MISALIGN_HANDLER, wr_rd, wr_rs1, shr32, shl32; cbv zeta;
    rewrite ?Eo, ?Hal; cbn [negb andb shift_value jit_base] in *.
  all: try (eexists; reflexivity).
  all: rewrite ?u32_add_r; try (rewrite (Ha _ eq_refl)).
  all: unfold ram_read_b, ram_read_s, ram_read_w, ram_write_b, ram_write_s, ram_write_w.
  all: rewrite ?Hrd, ?Hwr by lia; cbn [mbind option_bind]; try (eexists; reflexivity).
  1,2: rewrite (proj2 (Z.ltb_lt _ _)) by lia; replace (0 <=? shamt ir) with true by (destruct W; lia);
    eexists; reflexivity.
  rewrite He. replace (0 <=? u8 (imm ir)) with true; [eexists; reflexivity|].
  symmetry. apply Z.leb_le. unfold u8. mlia.
Qed.
Lemma branch_feasible ir s cycle :
  jit_branch (opcode ir) || jit_indirect (opcode ir) = true ->
  is_Some (step_successor (do_insn false s ir cycle (pc ir))).
Proof using Type.
  intros Hj. unfold do_insn, RVOP. destruct (opcode ir) eqn:Eo; try discriminate Hj; cbn [insn_body];
    match goal with |- is_Some (step_successor match ?f with _ => _ end) => let h := head_of f in unfold h end;
    unfold BRANCH_FUNC, c_branch, jump; cbv zeta; repeat case_match; simplify_eq; cbn;
    unfold end_op; repeat case_match; cbn; eexists; reflexivity.
Qed.

Context (base : Z) (ext : Z -> xstate -> option xstate) (E : Z -> xstate -> Prop).
Context (y : host_layout) (Y : layout_ok y) (env : jit_env) (HE : mem_base_ptr env = ram_ptr y).
Context (bt : option jit_bht).
#[local] Abbreviation iop := (iop base ext E).
#[local] Abbreviation never := (fun _ : xstate => False).

(** The same RAM, as large as it can be. *)
Definition probe_layout : host_layout :=
  mk_host_layout (if decide (offsetof_PC + 4 <= ram_ptr y) then 0 else ram_ptr y + 0x100000000)
    (ram_ptr y) 0x100000000.
Lemma probe_layout_ok : layout_ok probe_layout.
Proof using Y.
  destruct Y as [_ [R1 R2] _ _]. unfold probe_layout.
  destruct (decide (offsetof_PC + 4 <= ram_ptr y)) as [D|D]; unfold offsetof_PC, offsetof_X in *;
    split; cbn; unfold offsetof_PC, offsetof_X; lia.
Qed.
Definition probe_frame : host_frame := mk_host_frame 0 0 ∅.

Lemma iop_empty n st : good st -> iop good n st st never never.
Proof using Type. intros G. split; [done|done|lia|]. by apply gen_nop; [apply G|..]. Qed.
Lemma iop_never I n n' st st' P Q E' :
  JitJump.iop base ext E' I n st st' P Q -> (n <= n')%nat -> iop I n' st st' never never.
Proof using Type.
  intros O Hn. eapply iop_weaken; [by eapply (iop_absurd base ext E E')|done|done|]. by intros x Hx; apply Hx.
Qed.
Lemma never_refresh st idx :
  good st -> runs st (regs_refresh idx) (fun _ st' => iop good 0 st st' never never).
Proof using y.
  intros G. eapply runs_weaken; [by apply (runs_refresh base ext E y probe_frame st idx (probe 0 0))|].
  cbv beta. intros _ st' O. by eapply iop_never.
Qed.

Lemma never_straight st ir :
  good st -> room 1 st -> straight_ok ir -> encodable ir = true ->
  runs st (Gen.dispatch env bt ir) (fun _ st' => iop good 1 st st' never never).
Proof using Y HE RIO SFT.
  intros G Hr (W & _ & Hst & Hx) He. destruct (straight_feasible ir 0 W Hst He) as [s1 Hb].
  destruct (probe_state_ok ir W He) as (HS & Hz & Hnw & HM).
  destruct (dispatch_straight base ext E probe_layout probe_layout_ok probe_frame (probe_state ir) HS Hz env
    HE HM st bt ir 0 (pc ir) s1 G Hr W Hst Hx Hnw Hb) as [Hok _].
  eapply runs_weaken; [exact Hok|]. cbv beta. intros _ st' O. by eapply iop_never.
Qed.
Lemma never_straights irs : forall idx st,
  good st -> room (length irs) st -> Forall straight_ok irs -> Forall (fun ir => encodable ir = true) irs ->
  runs st (translate_irs env bt idx irs) (fun _ st' => iop good (length irs) st st' never never).
Proof using Y HE RIO SFT.
  induction irs as [|ir irs IH]; intros idx st G Hr Hall Henc.
  - apply runs_ret. by apply iop_empty.
  - apply Forall_cons in Hall as [Hok Hall]. apply Forall_cons in Henc as [He Henc].
    cbn [translate_irs]. apply runs_bind, runs_jget. destruct (should_flush st) eqn:F.
    { apply runs_ret. by apply iop_full. }
    apply runs_bind. eapply runs_weaken; [by apply never_refresh|]. cbv beta. intros _ st1 O1.
    assert (room (1 + length irs) st1) as Hr1 by (by eapply (iop_room base ext E good 0)).
    apply runs_bind. eapply runs_weaken.
    { apply never_straight; [apply O1| |done|done]. unfold room in *. lia. }
    cbv beta. intros _ st2 O2.
    assert (room (length irs) st2) as Hr2 by (eapply (iop_room base ext E good 1); [exact O2|done]).
    eapply runs_weaken; [apply (IH (idx + 1) st2); [apply O2|done..]|]. cbv beta. intros _ st3 O3.
    eapply (iop_trans _ _ _ _ 0 (S (length irs))); [done|exact O1| |cbn; lia].
    eapply (iop_trans _ _ _ _ 1 (length irs)); [apply O1|exact O2|exact O3|lia].
Qed.

(** A guest without RAM right after reset, and exits that require nothing. *)
Definition bare : host_layout := mk_host_layout 0 0x10000 0.
#[local] Abbreviation idle := (reset_state ∅ 0).
Lemma bare_ok : layout_ok bare.
Proof using Type. split; cbn; unfold offsetof_PC, offsetof_X; lia. Qed.
Lemma idle_guest : guest_ok bare idle.
Proof using Type. split; [apply reset_state_wf|done|done]. Qed.
Lemma exits_any s pc : exits (fun _ _ => True) bare probe_frame s pc.
Proof using Type. by split. Qed.

(** A host state in which this guest is at rest, whatever the register map. *)
Definition bare_mem : gmap Z Z := gset_to_gmap 0 (list_to_set (seqZ offsetof_X (offsetof_PC + 4 - offsetof_X))).
Definition bare_state (off : Z) : xstate := mk_xstate (replicate 16 0) None bare_mem (base + off).
Lemma bare_mem_lookup a : bare_mem !! a = if decide (in_rv bare a) then Some 0 else None.
Proof using Type.
  unfold bare_mem, in_rv. cbn [rv_ptr bare]. rewrite lookup_gset_to_gmap. case_decide as D.
  - rewrite option_guard_True; [done|]. apply elem_of_list_to_set, elem_of_seqZ. lia.
  - rewrite option_guard_False; [done|]. rewrite elem_of_list_to_set, elem_of_seqZ. lia.
Qed.
Lemma nth_zeros i n : nth i (replicate n 0) 0 = 0.
Proof using Type.
  rewrite nth_lookup. destruct (replicate n 0 !! i) eqn:El; [|done]. by apply lookup_replicate in El as [-> _].
Qed.
Lemma bare_agrees st off : good st -> agrees bare probe_frame idle st (bare_state off).
Proof using Type.
  intros [_ Hrm _]. apply agrees_rel.
  assert (forall r, xreg (bare_state off) r = 0) as Hx by (intros r; unfold xreg; cbn [xregs bare_state]; apply nth_zeros).
  assert (forall v, is_reg v -> reg idle v = 0) as Hz by (intros v _; unfold reg; cbn [X reset_state]; apply nth_zeros).
  split; [done|by rewrite Hx|by rewrite Hx|by rewrite Hx|..].
  - intros h _ Hv _. by rewrite Hx, Hz.
  - intros v Hv _ _. rewrite Hz by done. cbn [hload xmem bare_state]. unfold xaddr, is_reg, offsetof_X in *.
    rewrite !bare_mem_lookup, !decide_True by (unfold in_rv, offsetof_PC, offsetof_X; cbn; lia). done.
  - intros a Ha. cbn [xmem bare_state]. rewrite bare_mem_lookup, decide_True by done. by eexists.
  - cbn. lia.
  - intros a Ha _. cbn [xmem bare_state]. by rewrite bare_mem_lookup, decide_False.
Qed.

(** Code that takes this state elsewhere is not empty. *)
Lemma iop_nonempty I n st st' :
  good st -> JitJump.iop base ext (fun _ _ => True) I n st st' (agrees bare probe_frame idle st) never ->
  should_flush st' = false -> offset (js st) < offset (js st').
Proof using Type.
  intros G O F. destruct (iop_gen _ _ _ _ _ _ _ _ _ O F) as [_ (l & L & _ & Hs)].
  rewrite (lay_offset _ _ _ L). destruct l as [|i l].
  - set (o := offset (js st)) in *.
    destruct (Hs [] (fun _ => Some (o + 1)) (bare_state o)) as (x & Hx & Hend); [done|by eexists|done|by apply bare_agrees|].
    inversion Hx as [|? ? ? Hstep]; subst.
    + destruct Hend as [[_ []]|(p & q & [= <-] & Hr & _)]. cbn in Hr. lia.
    + unfold xstep in Hstep. cbn [length rip bare_state] in Hstep.
      replace (base + o - base) with o in Hstep by lia.
      destruct (Z.ltb_spec o 0), (Z.leb_spec (Z.of_nat 0) o); cbn [orb] in Hstep; first [done|lia].
  - rewrite csize_cons. pose proof (csize_nonneg l).
    assert (0 < slen i); [|lia]. destruct i as [i|c t]; [|rewrite slen_jump; lia]. apply slen_insn_pos.
Qed.

Lemma never_last_jump st idx t :
  good st -> room 5 st -> wf_ir t ->
  jit_branch (opcode t) = true \/ jit_indirect (opcode t) = true /\ is_Some bt ->
  runs st (translate_irs env bt idx [t]) (fun _ st' =>
    iop sane 5 st st' never never /\ (should_flush st' = false -> offset (js st) < offset (js st'))).
Proof using RIO SFT.
  intros G Hr Ht Hj. destruct (branch_feasible t idle 0) as [[s' pc'] Hs].
  { destruct Hj as [->|[-> _]]; [done|apply orb_true_r]. }
  eapply runs_weaken.
  { eapply (runs_last_jump base ext (fun _ _ => True) bare bare_ok probe_frame env bt st idx t idle 0 s' pc');
      [done..|apply idle_guest|done|done|done|apply exits_any]. }
  cbv beta. intros _ st' O. split; [by eapply iop_never|by eapply iop_nonempty].
Qed.
Lemma never_page_end st (link : bool) pc' :
  good st -> room 2 st -> is_u32 pc' ->
  runs st (store_back;; (jwhen link (emit_jmp pc');; (Gen.store_pc pc';; emit_exit))) (fun _ st' =>
    iop sane 2 st st' never never /\ (should_flush st' = false -> offset (js st) < offset (js st'))).
Proof using Type.
  intros G Hr Hpc. eapply runs_weaken.
  { eapply (runs_page_end base ext (fun _ _ => True) bare bare_ok probe_frame st idle link pc');
      [done..|apply idle_guest|done|apply exits_any]. }
  cbv beta. intros _ st' O. split; [by eapply iop_never|by eapply iop_nonempty].
Qed.

Lemma never_block_body b pre t st :
  bt = jb_table b -> block_ok b pre t -> Forall (fun ir => encodable ir = true) (jb_irs b) ->
  good st -> room (length pre + 6) st ->
  runs st (translate_irs env bt 0 (jb_irs b);;
           full ← jget should_flush;
           jwhen (jb_page_terminated b && negb full)
             (store_back;;
              match last (jb_irs b) with
              | None => junreachable
              | Some ir =>
                  jwhen (bool_decide (is_Some (branch_taken ir))) (emit_jmp (jb_pc_end b));;
                  Gen.store_pc (jb_pc_end b);;
                  emit_exit
              end))
    (fun _ st' => iop sane (length pre + 6) st st' never never /\
      (should_flush st' = false -> offset (js st) < offset (js st'))).
Proof using Y HE RIO SFT.
  intros Ebt [Eirs Hpre Hwf Hpc Hl He] Henc G Hr. rewrite Eirs in *.
  apply Forall_app in Henc as [Henc Ht]. apply runs_bind. destruct (jb_page_terminated b).
  - destruct He as [Hok Epc]. eapply runs_weaken.
    { apply (never_straights (pre ++ [t])); [done|rewrite length_app; cbn; unfold room in *; lia|..].
      - apply Forall_app. split; [done|]. apply Forall_cons. split; [done|by apply Forall_nil].
      - by apply Forall_app. }
    cbv beta. intros _ st2 O. rewrite length_app in O. cbn in O.
    apply runs_bind, runs_jget. cbn [andb]. destruct (should_flush st2) eqn:F; cbn [negb jwhen].
    + apply runs_ret. split; [|congruence]. eapply iop_weaken; [apply iop_sane; exact O|lia|done|done].
    + rewrite last_snoc, Epc.
      assert (room 2 st2) by (eapply (iop_room base ext E good (length pre + 1)); [exact O|unfold room in *; lia]).
      eapply runs_weaken; [apply (never_page_end st2); [apply O|done|apply is_u32_end_pc]|].
      cbv beta. intros _ st3 [O3 Hlt]. pose proof (kept_offset _ _ (same_kept _ _ (iop_same _ _ _ _ _ _ _ _ _ O))).
      split; [|intros F3; specialize (Hlt F3); lia].
      eapply (iop_trans _ _ _ _ (length pre + 1) 2); [by apply good_sane|apply iop_sane; exact O|exact O3|lia].
  - eapply runs_ext; [intros; apply translate_irs_app|]. apply runs_bind. eapply runs_weaken.
    { apply (never_straights pre); [done|unfold room in *; lia|done|done]. }
    cbv beta. intros _ st1 O1.
    assert (room 6 st1) as Hr1 by (by eapply (iop_room base ext E good (length pre))).
    eapply runs_weaken; [eapply never_last_jump; [apply O1|unfold room in *; lia|done|by rewrite Ebt]|].
    cbv beta. intros _ st2 [O2 Hlt]. apply runs_bind, runs_jget. cbn [andb jwhen]. apply runs_ret.
    pose proof (kept_offset _ _ (same_kept _ _ (iop_same _ _ _ _ _ _ _ _ _ O1))).
    split; [|intros F3; specialize (Hlt F3); lia].
    eapply (iop_trans _ _ _ _ (length pre) 5); [by apply good_sane|apply iop_sane; exact O1|exact O2|lia].
Qed.

(** [translate] ends, keeps the invariant and appends a list of instructions, which is not empty. *)
Lemma never_translate b pre t st :
  bt = jb_table b -> block_ok b pre t -> Forall (fun ir => encodable ir = true) (jb_irs b) ->
  sane st -> room (length pre + 6) st ->
  runs st (translate env b) (fun _ st' => bop base ext E (length pre + 6) st st' never /\
    (should_flush st' = false -> offset (js st) < offset (js st'))).
Proof using Y HE RIO SFT.
  intros Ebt Hok Henc S Hr. unfold translate.
  apply (runs_start y probe_frame); [done|by eapply block_live|]. intros st1 G1 Ej Ef Hh. rewrite <- Ebt.
  eapply runs_weaken.
  { eapply (never_block_body b pre t st1); try done. unfold room in *. by rewrite Ej. }
  cbv beta. intros _ st2 [O Hlt]. split; [by eapply (bop_iop base ext E _ st st1 st2 never)|]. by rewrite <- Ej.
Qed.
End Static.
