(* ===== verification/JitChain.v ===== *)
(** Chains of blocks: [translate_chained_block] translates every block of a region once and
    places the code of each where the table of offsets says. *)

From S2P Require Import Prelude.
From S2P Require Import Opcode.
From S2P Require Import Decode.
From S2P Require Import Machine.
From S2P Require Import Interp.
From S2P Require Import MachineFacts.
From S2P Require Import Invariant.
From S2P Require Import Utils.
From S2P Require Import UtilsProofs.
From S2P Require Import JitEmit.
From S2P Require Import JitAlloc.
From S2P Require Import JitGen.
From S2P Require Import X86.
From S2P Require Import X86Proofs.
From S2P Require Import JitEmitProofs.
From S2P Require Import JitCode.
From S2P Require Import JitRel.
From S2P Require Import JitAllocProofs.
From S2P Require Import JitSim.
From S2P Require Import JitInsn.
From S2P Require Import JitJump.
From S2P Require Import JitLeave.
From S2P Require Import JitDispatch.
From S2P Require Import JitTerm.
From S2P Require Import JitBlock.
From S2P Require Import JitStatic.

(** Two facts about a generator, which has one result. *)
Lemma runs_all {A I} st (m : jitM A) (K : A -> jst -> Prop) (H : I -> Prop) (K' : I -> A -> jst -> Prop) :
  runs st m K -> (forall i, H i -> runs st m (K' i)) ->
  runs st m (fun a st' => K a st' /\ forall i, H i -> K' i a st').
Proof.
  intros (a & st' & E & HK) Hall. exists a, st'. split; [done|]. split; [done|]. intros i Hi.
  destruct (Hall i Hi) as (a' & st2 & E' & HK'). by simplify_eq.
Qed.

(** * Regions *)

(** A set of blocks of the cache, by their addresses, that every chain from them stays in. *)
Section Region.
Context (v : jit_vm).

Definition block_at (pc : Z) (b : jit_block) : Prop :=
  exists l, block_cache v !! pc = Some l /\ jheap v !! l = Some b.
Definition supported (b : jit_block) : Prop :=
  (exists pre t, block_ok b pre t) /\ Forall (fun ir => encodable ir = true) (jb_irs b).

Record region (C : list Z) : Prop := {
  rg_block : forall pc, pc ∈ C -> exists b, block_at pc b /\ jb_pc_start b = pc /\ supported b;
  rg_zero : 0 ∉ C;
  rg_link : forall pc b ir link, pc ∈ C -> block_at pc b -> last (jb_irs b) = Some ir ->
    branch_untaken ir = Some link \/ branch_taken ir = Some link ->
    exists b1 b2, jheap v !! link = Some b1 /\ block_at (jb_pc_start b1) b2 /\
      (jb_translatable b2 = true -> jb_pc_start b1 ∈ C);
  rg_history : forall pc b h l, pc ∈ C -> block_at pc b -> jb_table b = Some h ->
    let pc' := nth (Z.to_nat (bht_find_max_idx h)) (jb_PC h) 0 in
    block_cache v !! pc' = Some l ->
    exists b2, jheap v !! l = Some b2 /\ (jb_translatable b2 = true -> pc' ∈ C) }.

Lemma block_at_fun pc b b' : block_at pc b -> block_at pc b' -> b = b'.
Proof. intros (l & E1 & E2) (l' & E1' & E2'). by simplify_eq. Qed.

(** How many jumps the blocks of the region that have no code yet can record. *)
Definition weight (pc : Z) : nat :=
  match block_cache v !! pc ≫= (fun l => jheap v !! l) with
  | Some b => length (jb_irs b) + 5
  | None => 0
  end.
Definition budget (C keys : list Z) : nat := sum_list (weight <$> filter (fun pc => pc ∉ keys) C).

Lemma weight_at pc b : block_at pc b -> weight pc = (length (jb_irs b) + 5)%nat.
Proof. intros (l & E1 & E2). unfold weight. rewrite E1. cbn. by rewrite E2. Qed.
Lemma budget_out C keys pc : pc ∉ C -> budget C (keys ++ [pc]) = budget C keys.
Proof.
  unfold budget. induction C as [|p C IH]; intros Hn; [done|]. apply not_elem_of_cons in Hn as [Hp Hn].
  destruct (decide (p ∈ keys)) as [Hk|Hk].
  - rewrite !filter_cons_False; [by apply IH|..]; rewrite ?elem_of_app; tauto.
  - rewrite !filter_cons_True; [cbn; by rewrite IH|done|].
    rewrite not_elem_of_app, list_elem_of_singleton. split; [done|]. by intros ->.
Qed.
Lemma budget_add C keys pc :
  NoDup C -> pc ∈ C -> pc ∉ keys -> budget C keys = (weight pc + budget C (keys ++ [pc]))%nat.
Proof.
  induction C as [|p C IH]; intros HN Hin Hk; [by apply elem_of_nil in Hin|].
  apply NoDup_cons in HN as [Hp HN]. apply elem_of_cons in Hin as [->|Hin].
  - unfold budget. rewrite filter_cons_True by done. rewrite filter_cons_False.
    + cbn. f_equal. symmetry. by apply budget_out.
    + intros Hn. apply Hn, elem_of_app. right. by apply list_elem_of_singleton.
  - specialize (IH HN Hin Hk). unfold budget in *.
    destruct (decide (p ∈ keys)) as [Hpk|Hpk].
    + rewrite !filter_cons_False; [done|..]; rewrite ?elem_of_app; tauto.
    + rewrite !filter_cons_True; [cbn; lia| |done].
      rewrite not_elem_of_app, list_elem_of_singleton. split; [done|]. by intros ->.
Qed.
End Region.

(** * Translating a region *)

Section Chain.
Context `{RIO : riscv_io_laws} `{SFT : softfloat_laws}.
Context (base : Z) (ext : Z -> xstate -> option xstate).
Context (y : host_layout) (Y : layout_ok y) (env : jit_env) (HE : mem_base_ptr env = ram_ptr y).
Context (v : jit_vm) (C : list Z) (HC : region v C) (HN : NoDup C).
(** The addresses in the hash set at any time. *)
Context (U : list Z) (HU : C ⊆ U) (HF : buckets_fit U).
#[local] Abbreviation never := (fun _ : xstate => False).

(** The interpreter runs the block from [s] to the end and goes on with [pc']. *)
Record block_run (b : jit_block) (s : riscv) (c : Z) (s' : riscv) (pc' : Z) : Prop := {
  br_guest : guest_ok y s;
  br_cycle : 0 <= c < 0x10000000000000000;
  br_accesses : accesses_ok (jb_irs b) s c = true;
  br_run : step_successor (run_irs do_insn (jb_irs b) s c (jb_pc_start b)) = Some (s', pc') }.

(** Every run of the block, with what its exits require. *)
Record a_run := mk_run {
  r_exit : Z -> xstate -> Prop; r_frame : host_frame;
  r_from : riscv; r_cycle : Z; r_to : riscv; r_pc : Z }.
Definition run_of (b : jit_block) (r : a_run) : Prop :=
  block_run b (r_from r) (r_cycle r) (r_to r) (r_pc r) /\
  exits (r_exit r) y (r_frame r) (r_to r) (r_pc r).
Definition code_runs (r : a_run) (l : list sinsn) (o : Z) : Prop :=
  sim base ext (r_exit r) l o (home y (r_frame r) (r_from r)) never.

Definition laid (st st' : jst) (l : list sinsn) : Prop :=
  lay (js st) (js st') l /\ forall c, SJ c None ∉ l.
(** Between the states the code of the block has been placed at [o]. *)
Definition placed (st st' : jst) (b : jit_block) (o : Z) : Prop :=
  forall r, run_of b r -> exists l1 l l2, laid st st' (l1 ++ l ++ l2) /\
    o = offset (js st) + csize l1 /\ code_runs r l o.

Lemma laid_app st1 st2 st3 l1 l2 :
  sane st1 -> laid st1 st2 l1 -> laid st2 st3 l2 -> laid st1 st3 (l1 ++ l2).
Proof using Type.
  intros [W _] [L1 N1] [L2 N2]. split; [by eapply lay_app|]. intros c [Hc|Hc]%elem_of_app.
  - by eapply N1.
  - by eapply N2.
Qed.
Lemma laid_offset st st' l : laid st st' l -> offset (js st) <= offset (js st').
Proof using Type. intros [L _]. rewrite (lay_offset _ _ _ L). pose proof (csize_nonneg l). lia. Qed.
Lemma placed_later st1 st2 st3 b o l :
  sane st1 -> placed st1 st2 b o -> laid st2 st3 l -> placed st1 st3 b o.
Proof using Type.
  intros S P L r Hr. destruct (P r Hr) as (l1 & l0 & l2 & L' & Eo & Hs). exists l1, l0, (l2 ++ l).
  split; [|done]. pose proof (laid_app _ _ _ _ _ S L' L) as L''. by rewrite <- !app_assoc in L''.
Qed.
Lemma placed_earlier st1 st2 st3 b o l :
  sane st1 -> laid st1 st2 l -> placed st2 st3 b o -> placed st1 st3 b o.
Proof using Type.
  intros S L P r Hr. destruct (P r Hr) as (l1 & l0 & l2 & L' & Eo & Hs). exists (l ++ l1), l0, l2.
  split; [|split; [|done]].
  - pose proof (laid_app _ _ _ _ _ S L L') as L''. by rewrite <- !app_assoc.
  - rewrite csize_app. destruct L as [L _]. rewrite (lay_offset _ _ _ L) in Eo. lia.
Qed.

Definition keys (st : jst) : list Z := om_pc <$> offset_map (js st).
Record table_ok (st : jst) : Prop := {
  tb_set : set_holds (jset (js st)) (keys st);
  tb_nodup : NoDup (keys st);
  tb_zero : 0 ∉ keys st;
  tb_sub : keys st ⊆ U;
  tb_blocks : n_blocks (js st) <= MAX_BLOCKS }.
Definition cost (st : jst) : nat := length (jumps (js st)) + budget v C (keys st).

Record chained (st st' : jst) (new : list offset_map_t) : Prop := {
  ch_sane : sane st';
  ch_table : table_ok st';
  ch_size : jsize (js st') = jsize (js st);
  ch_exit : exit_loc (js st') = exit_loc (js st);
  ch_org : org_size (js st') = org_size (js st);
  ch_retpoline : retpoline_loc (js st') = retpoline_loc (js st);
  ch_map : offset_map (js st') = offset_map (js st) ++ new;
  ch_region : Forall (fun e => om_pc e ∈ C) new;
  ch_kept : kept (js st) (js st');
  ch_cost : (cost st' <= cost st)%nat;
  ch_code : should_flush st' = false ->
    should_flush st = false /\ (exists l, laid st st' l) /\
    (n_blocks (js st) < MAX_BLOCKS -> n_blocks (js st') < MAX_BLOCKS) /\
    Forall (fun e => offset (js st) <= om_offset e <= offset (js st') /\
      exists b, block_at v (om_pc e) b /\ jb_pc_start b = om_pc e /\ placed st st' b (om_offset e)) new }.

Lemma chained_refl st : sane st -> table_ok st -> chained st st [].
Proof using Type.
  intros S T. split; try done; [by rewrite app_nil_r|]. intros F. split; [done|]. split; [|done].
  exists []. split; [by apply lay_nil; [apply S|..]|]. intros c. apply not_elem_of_nil.
Qed.
Lemma chained_trans st1 st2 st3 new1 new2 :
  sane st1 -> chained st1 st2 new1 -> chained st2 st3 new2 -> chained st1 st3 (new1 ++ new2).
Proof using Type.
  intros S H1 H2. split; try (destruct H1, H2; first [congruence|done|lia|by etrans|by apply Forall_app]).
  - rewrite (ch_map _ _ _ H2), (ch_map _ _ _ H1). by rewrite app_assoc.
  - intros F. destruct (ch_code _ _ _ H2 F) as (F2 & (l2 & L2) & N2 & P2).
    destruct (ch_code _ _ _ H1 F2) as (F1 & (l1 & L1) & N1 & P1). split; [done|]. split.
    { exists (l1 ++ l2). by eapply laid_app. }
    split; [by auto|].
    pose proof (laid_offset _ _ _ L1). pose proof (laid_offset _ _ _ L2). apply Forall_app. split.
    + apply (Forall_impl _ _ _ P1). intros e (Ho & b & Hb & Hpc & Hp). split; [lia|].
      exists b. eauto using placed_later.
    + apply (Forall_impl _ _ _ P2). intros e (Ho & b & Hb & Hpc & Hp). split; [lia|].
      exists b. eauto using placed_earlier.
Qed.

(** ** One block *)

Lemma runs_has_key st key :
  table_ok st -> runs st (has_key key) (fun seen st' => st' = st /\ seen = bool_decide (key ∈ keys st)).
Proof using HF.
  intros []. eexists _, st. split; [|done]. unfold has_key.
  rewrite (set_has_spec _ (keys st)); [done..|]. by apply (buckets_fit_sub (keys st) U).
Qed.

Definition recorded (set' : list (list Z)) (pc : Z) (st : jst) : jst :=
  with_js (with_offset_map (offset_map (js st) ++ [mk_offset_map pc (offset (js st))])
    (with_jset set' (js st))) st.
(** The address of the block enters both tables. *)
Lemma runs_record {A} st pc (k : jitM A) (K : A -> jst -> Prop) :
  table_ok st -> pc ∈ C -> pc ∉ keys st -> n_blocks (js st) < MAX_BLOCKS ->
  (forall set', table_ok (recorded set' pc st) -> runs (recorded set' pc st) k K) ->
  runs st (add_key pc;; offset_map_insert pc;; k) K.
Proof using HC HU HF.
  intros [T1 T2 T3 T4 T5] Hpc Hk Hn HK.
  destruct (set_add_spec _ _ T1 T3 pc) as (set' & Ea & Hs).
  { by apply (buckets_fit_sub (keys st) U). }
  { done. }
  { intros ->. by destruct (rg_zero _ _ HC). }
  apply runs_bind. eexists tt, _. split; [unfold add_key; rewrite Ea; reflexivity|].
  apply runs_bind. unfold offset_map_insert. apply runs_bind, runs_jget, runs_bind, runs_assert.
  { apply Z.ltb_lt, Hn. }
  eexists tt, _. split; [reflexivity|]. apply (HK set').
  assert (keys (recorded set' pc st) = keys st ++ [pc]) as Ek by (unfold keys; cbn; by rewrite fmap_app).
  split; rewrite ?Ek; try done.
  - apply NoDup_app. split; [done|]. split; [|apply NoDup_singleton].
    intros p Hp. rewrite list_elem_of_singleton. by intros ->.
  - rewrite not_elem_of_app, list_elem_of_singleton. split; [done|]. intros <-. by destruct (rg_zero _ _ HC).
  - intros p [Hp|Hp%list_elem_of_singleton]%elem_of_app; [by apply T4|]. subst. by apply HU.
  - unfold n_blocks in *. cbn. rewrite length_app. cbn. lia.
Qed.

(** [bop] of every run of the block. *)
Lemma runs_translate_all st b pre t :
  block_ok b pre t -> Forall (fun ir => encodable ir = true) (jb_irs b) ->
  sane st -> room (length pre + 6) st ->
  runs st (translate env b) (fun _ st' =>
    (bop base ext (fun _ _ => True) (length pre + 6) st st' never /\
     (should_flush st' = false -> offset (js st) < offset (js st'))) /\
    forall r, run_of b r ->
      bop base ext (r_exit r) (length pre + 6) st st' (home y (r_frame r) (r_from r))).
Proof using Y HE RIO SFT.
  intros Hok Henc S Hr. apply (runs_all st (translate env b)).
  - by apply (never_translate base ext (fun _ _ => True) y Y env HE (jb_table b) b pre t).
  - intros r [[] Hx].
    by apply (runs_translate base ext (r_exit r) y Y (r_frame r) env HE (jb_table b) b pre t st
      (r_from r) (r_cycle r) (r_to r) (r_pc r)).
Qed.

Lemma runs_one_block {A} st pc b (k : jitM A) (K : A -> jst -> Prop) :
  sane st -> table_ok st -> (cost st <= 1024)%nat -> pc ∈ C -> block_at v pc b -> pc ∉ keys st ->
  n_blocks (js st) < MAX_BLOCKS ->
  (forall st', chained st st' [mk_offset_map pc (offset (js st))] -> runs st' k K) ->
  runs st (add_key pc;; offset_map_insert pc;; translate env b;; k) K.
Proof using Y HE RIO SFT HC HN HU HF.
  intros S T Hc Hpc Hb Hk Hn HK.
  destruct (rg_block _ _ HC pc Hpc) as (b' & Hb' & Epc & (pre & t & Hok) & Henc).
  rewrite (block_at_fun v pc b' b Hb' Hb) in *. clear b' Hb'.
  assert (length (jb_irs b) = length pre + 1)%nat as Hl by (rewrite (bk_irs _ _ _ Hok), length_app; done).
  pose proof (budget_add v C (keys st) pc HN Hpc Hk) as Hbud. rewrite (weight_at v pc b Hb) in Hbud.
  apply runs_record; [done..|]. intros set' T1. set (st1 := recorded set' pc st) in *.
  assert (sane st1) as S1 by (destruct S as [[] ?]; by split).
  apply runs_bind. eapply runs_weaken.
  { apply (runs_translate_all st1 b pre t); [done..|]. unfold room, cost in *. cbn. lia. }
  cbv beta. intros _ st2 [[B0 Hlt] Br]. apply HK. destruct B0 as [S2 [] J2 G2].
  assert (keys st2 = keys st ++ [pc]) as Ek by (unfold keys; rewrite sj_map; cbn; by rewrite fmap_app).
  split; try done.
  - assert (keys st2 = keys st1) as Ek1 by (unfold keys; by rewrite sj_map).
    destruct T1. split; rewrite ?Ek1, ?sj_set; try done. unfold n_blocks in *. by rewrite sj_map.
  - apply Forall_cons. split; [done|by apply Forall_nil].
  - destruct sj_kept as [K1 K2]. by split.
  - unfold cost in *. rewrite Ek. cbn in J2. lia.
  - assert (forall l, lay (js st1) (js st2) l -> lay (js st) (js st2) l) as Hlay by (intros l []; by split).
    intros F. destruct (G2 F) as [F1 (l & L & N & _)]. split; [done|]. split; [exists l; by split; [apply Hlay|]|].
    split.
    { intros _. destruct (Z.eqb_spec (n_blocks (js st1)) MAX_BLOCKS) as [En|En].
      - specialize (Hlt F). specialize (sj_full En). lia.
      - pose proof (tb_blocks _ T1). unfold n_blocks in *. rewrite sj_map. lia. }
    apply Forall_cons. split; [|by apply Forall_nil].
    pose proof (lay_offset _ _ _ L) as Lo. cbn in Lo. pose proof (csize_nonneg l).
    split; [cbn; lia|]. exists b. split; [done|]. split; [done|]. intros r Hr.
    destruct (bop_gen _ _ _ _ _ _ _ (Br r Hr) F) as [_ (l' & L' & N' & Hs)].
    exists [], l', []. rewrite app_nil_r. cbn [app]. split; [by split; [apply Hlay|]|].
    split; [change (csize []) with 0; cbn; lia|]. exact Hs.
Qed.

(** ** Successors *)

(** A block of the region to go on with. *)
Definition next_ok (o : option Z) : Prop :=
  forall l, o = Some l -> exists pc, pc ∈ C /\ block_cache v !! pc = Some l.

Lemma runs_lift {A} st (o : option A) a (K : A -> jst -> Prop) : o = Some a -> K a st -> runs st (lift o) K.
Proof using Type. intros -> HK. by exists a, st. Qed.

Lemma runs_link_target st pc b ir link :
  table_ok st -> pc ∈ C -> block_at v pc b -> last (jb_irs b) = Some ir ->
  link = branch_untaken ir \/ link = branch_taken ir ->
  runs st (link_target v link) (fun o st' => st' = st /\ next_ok o).
Proof using HC HF.
  intros T Hpc Hb Hir Hl. unfold link_target. destruct link as [link|]; [|by apply runs_ret].
  destruct (rg_link _ _ HC pc b ir link Hpc Hb Hir) as (b1 & b2 & Hh & (l & Hl1 & Hl2) & Ht).
  { destruct Hl; [left|right]; congruence. }
  apply runs_bind. apply (runs_lift st _ b1); [done|]. apply runs_bind.
  eapply runs_weaken; [by apply runs_has_key|]. cbv beta. intros seen ? [-> _].
  destruct seen; [by apply runs_ret|]. apply runs_bind.
  apply (runs_lift st _ (Some (l, b2))); [unfold cached_block; by rewrite Hl1, Hl2|].
  apply runs_ret. split; [done|]. destruct (jb_translatable b2); [|done]. intros l' [= <-]. eauto.
Qed.
Lemma runs_history_target st pc b :
  table_ok st -> pc ∈ C -> block_at v pc b ->
  runs st (history_target v (jb_table b)) (fun o st' => st' = st /\ next_ok o).
Proof using HC HF.
  intros T Hpc Hb. unfold history_target. destruct (jb_table b) as [h|] eqn:Eh; [|by apply runs_ret].
  pose proof (rg_history _ _ HC pc b h) as Hhist. cbv zeta in *.
  set (pc' := nth _ (jb_PC h) 0) in *. destruct (negb _); [by apply runs_ret|]. apply runs_bind.
  eapply runs_weaken; [by apply runs_has_key|]. cbv beta. intros seen ? [-> _].
  destruct seen; [by apply runs_ret|]. apply runs_bind. unfold cached_block.
  destruct (block_cache v !! pc') as [l|] eqn:El.
  - destruct (Hhist l Hpc Hb Eh eq_refl) as (b2 & Hl & Ht).
    apply (runs_lift st _ (Some (l, b2))); [by rewrite Hl|].
    apply runs_ret. split; [done|]. destruct (jb_translatable b2); [|done]. intros l' [= <-]. eauto.
  - apply (runs_lift st _ None); [done|]. by apply runs_ret.
Qed.

(** ** The chain *)

(** What the recursion needs: with it the tables have room for every block of the region. *)
Definition ready (st : jst) : Prop := sane st /\ table_ok st /\ (cost st <= 1024)%nat.
Definition extends (st st' : jst) : Prop := exists new, chained st st' new.
Lemma extends_ready st st' : ready st -> extends st st' -> ready st'.
Proof using Type. intros (_ & _ & Hc) [new []]. unfold ready. split; [done|]. split; [done|lia]. Qed.
Lemma extends_trans st1 st2 st3 : ready st1 -> extends st1 st2 -> extends st2 st3 -> extends st1 st3.
Proof using Type. intros (S & _) [n1 H1] [n2 H2]. exists (n1 ++ n2). by eapply chained_trans. Qed.
Lemma extends_blocks st st' : extends st st' -> n_blocks (js st) <= n_blocks (js st').
Proof using Type. intros [new Ch]. unfold n_blocks. rewrite (ch_map _ _ _ Ch), length_app. lia. Qed.
Lemma extends_refl st : ready st -> extends st st.
Proof using Type. intros (S & T & _). exists []. by apply chained_refl. Qed.

Lemma runs_extends_bind {A} st (m : jitM unit) (k : jitM A) :
  ready st -> runs st m (fun _ st1 => extends st st1) ->
  (forall st1, ready st1 -> extends st st1 -> runs st1 k (fun _ st2 => extends st1 st2)) ->
  runs st (m;; k) (fun _ st2 => extends st st2).
Proof using Type.
  intros R Hm Hk. apply runs_bind. eapply runs_weaken; [exact Hm|]. cbv beta. intros _ st1 E1.
  eapply runs_weaken; [apply Hk; [by eapply extends_ready|done]|]. cbv beta. intros a st2 E2.
  by eapply extends_trans.
Qed.

(** The block the chain starts from comes first, unless it has code or the table is full. *)
Definition rooted (pc : Z) (st st' : jst) : Prop :=
  exists new, chained st st' new /\
    (pc ∉ keys st -> n_blocks (js st) <> MAX_BLOCKS ->
     exists rest, new = mk_offset_map pc (offset (js st)) :: rest).
Lemma rooted_extends pc st st' : rooted pc st st' -> extends st st'.
Proof using Type. intros (new & Ch & _). by exists new. Qed.

Lemma runs_chain fuel : forall l pc st,
  pc ∈ C -> block_cache v !! pc = Some l -> ready st -> MAX_BLOCKS - n_blocks (js st) < Z.of_nat fuel ->
  runs st (translate_chained_block env fuel v l) (fun _ st' => rooted pc st st').
Proof using Y HE RIO SFT HC HN HU HF.
  induction fuel as [|fuel IH]; intros l pc st Hpc Hl R Hf.
  { destruct R as (_ & [] & _). lia. }
  destruct (rg_block _ _ HC pc Hpc) as (b & Hb & Epc & (pre & t & Hok) & _).
  pose proof Hb as (l' & Hl' & Hh). rewrite Hl in Hl'. injection Hl' as <-.
  pose proof R as (S & T & Hc). cbn [translate_chained_block].
  apply runs_bind, (runs_lift st _ b); [done|]. rewrite Epc.
  apply runs_bind. eapply runs_weaken; [by apply runs_has_key|]. cbv beta. intros seen ? [-> ->].
  apply runs_bind, runs_jget.
  destruct (bool_decide_reflect (pc ∈ keys st)) as [Hk|Hk].
  { apply runs_ret. exists []. by split; [apply chained_refl|]. }
  destruct (Z.eqb_spec (n_blocks (js st)) MAX_BLOCKS) as [En|En].
  { apply runs_ret. exists []. by split; [apply chained_refl|]. }
  pose proof (tb_blocks _ T) as Hn.
  apply (runs_one_block st pc b); [done..|lia|]. intros st1 Ch.
  assert (extends st st1) as E1 by (by eexists).
  pose proof (extends_ready _ _ R E1) as R1.
  assert (n_blocks (js st1) = n_blocks (js st) + 1) as En1.
  { unfold n_blocks. rewrite (ch_map _ _ _ Ch), length_app. cbn. lia. }
  assert (forall st1' (m : jitM (option Z)), ready st1' -> extends st1 st1' ->
    runs st1' m (fun o st' => st' = st1' /\ next_ok o) ->
    runs st1' (o ← m; match o with Some l => translate_chained_block env fuel v l | None => mret tt end)
      (fun _ st' => extends st1' st')) as Hfollow.
  { intros st1' m R' E' Hm. apply runs_bind. eapply runs_weaken; [exact Hm|]. cbv beta. intros o ? [-> Ho].
    destruct o as [l'|]; [|apply runs_ret; by apply extends_refl].
    destruct (Ho l' eq_refl) as (pc' & Hpc' & Hl'). eapply runs_weaken.
    { apply (IH l' pc'); [done..|]. pose proof (extends_blocks _ _ E'). lia. }
    cbv beta. intros _ st'. apply rooted_extends. }
  assert (last (jb_irs b) = Some t) as Hlast by (by rewrite (bk_irs _ _ _ Hok), last_snoc).
  eapply (runs_weaken _ _ (fun _ st' => extends st1 st')); [|cbv beta; intros _ st' [new2 Ch2]].
  2: { eexists. split; [by eapply chained_trans|]. intros _ _. by eexists. }
  apply runs_bind, runs_jget. destruct (should_flush st1); [apply runs_ret; by apply extends_refl|].
  apply runs_bind, (runs_lift st1 _ t); [done|].
  apply runs_extends_bind; [done|apply Hfollow; [done|by apply extends_refl|]|].
  { eapply runs_link_target; [apply R1|done..|by left]. }
  intros st2 R2 E2. apply runs_extends_bind; [done|apply Hfollow; [done..|]|].
  { eapply runs_link_target; [apply R2|done..|by right]. }
  intros st3 R3 E3. apply Hfollow; [done|by eapply extends_trans|].
  eapply runs_history_target; [apply R3|done..].
Qed.
End Chain.
