(* ===== verification/JitNative.v ===== *)
(** The code cache of the compiler: its invariant, and the passes of [jit_translate] over a
    region. *)

From S2P Require Import Prelude.
From S2P Require Import Opcode.
From S2P Require Import Decode.
From S2P Require Import Machine.
From S2P Require Import Interp.
From S2P Require Import MachineFacts.
From S2P Require Import Invariant.
From S2P Require Import Utils.
From S2P Require Import UtilsProofs.
From S2P Require Import JitEmit.
From S2P Require Import JitAlloc.
From S2P Require Import JitGen.
From S2P Require Import X86.
From S2P Require Import X86Proofs.
From S2P Require Import JitEmitProofs.
From S2P Require Import JitCode.
From S2P Require Import JitRel.
From S2P Require Import JitAllocProofs.
From S2P Require Import JitSim.
From S2P Require Import JitInsn.
From S2P Require Import JitJump.
From S2P Require Import JitLeave.
From S2P Require Import JitDispatch.
From S2P Require Import JitTerm.
From S2P Require Import JitBlock.
From S2P Require Import JitStatic.
From S2P Require Import JitChain.

(** A block without what the translator changes of it. *)
Definition strip (b : jit_block) : jit_block := with_hot false (with_offset 0 b).
(** The same blocks, up to what the translator changes. *)
Definition same_vm (v v' : jit_vm) : Prop :=
  block_cache v' = block_cache v /\ strip <$> jheap v' = strip <$> jheap v.

Lemma same_vm_lookup v v' l b :
  same_vm v v' -> jheap v !! l = Some b -> exists b', jheap v' !! l = Some b' /\ strip b' = strip b.
Proof.
  intros [_ Hh] Hl. apply (f_equal (lookup l)) in Hh. rewrite !lookup_fmap, Hl in Hh. cbn in Hh.
  apply fmap_Some in Hh as (b' & ? & ?). by exists b'.
Qed.
#[export] Instance same_vm_equiv : Equivalence same_vm.
Proof.
  split.
  - by intros v.
  - intros v v' []. split; congruence.
  - intros v1 v2 v3 [] []. split; congruence.
Qed.
Lemma same_vm_at v v' pc b : same_vm v v' -> block_at v pc b -> exists b', block_at v' pc b' /\ strip b' = strip b.
Proof.
  intros Hs (l & Hc & Hl). destruct (same_vm_lookup _ _ _ _ Hs Hl) as (b' & Hl' & Hb).
  exists b'. split; [|done]. exists l. split; [|done]. by rewrite (proj1 Hs).
Qed.
Lemma strip_fields b b' : strip b' = strip b ->
  jb_irs b' = jb_irs b /\ jb_pc_start b' = jb_pc_start b /\ jb_pc_end b' = jb_pc_end b /\
  jb_page_terminated b' = jb_page_terminated b /\ jb_translatable b' = jb_translatable b /\
  jb_table b' = jb_table b.
Proof. destruct b, b'. unfold strip. cbn. intros [= ]. by subst. Qed.
Lemma supported_strip b b' : strip b' = strip b -> supported b -> supported b'.
Proof.
  intros Hs [(pre & t & []) Henc].
  destruct (strip_fields _ _ Hs) as (E1 & E2 & E3 & E4 & E5 & E6).
  split; [|by rewrite E1]. exists pre, t. split; rewrite ?E1, ?E2, ?E3, ?E4, ?E6; done.
Qed.

Lemma region_same v v' C : same_vm v v' -> region v C -> region v' C.
Proof.
  intros Hs [R1 R2 R3 R4]. assert (same_vm v' v) as Hs' by (by symmetry). split.
  - intros pc Hpc. destruct (R1 pc Hpc) as (b & Hb & Epc & Hok).
    destruct (same_vm_at _ _ _ _ Hs Hb) as (b' & Hb' & Eb). exists b'. split; [done|].
    destruct (strip_fields _ _ Eb) as (_ & E2 & _). split; [congruence|by eapply supported_strip].
  - done.
  - intros pc b' ir link Hpc Hb' Hir Hl. destruct (same_vm_at _ _ _ _ Hs' Hb') as (b & Hb & Eb).
    destruct (strip_fields _ _ Eb) as (E1 & _).
    destruct (R3 pc b ir link Hpc Hb ltac:(congruence) Hl) as (b1 & b2 & H1 & H2 & Ht).
    destruct (same_vm_lookup _ _ _ _ Hs H1) as (b1' & H1' & E1').
    destruct (strip_fields _ _ E1') as (_ & Ep & _). exists b1'.
    destruct (same_vm_at _ _ _ _ Hs H2) as (b2' & H2' & E2').
    destruct (strip_fields _ _ E2') as (_ & _ & _ & _ & Et & _). exists b2'. rewrite Ep, Et. done.
  - intros pc b' h l Hpc Hb' Hh pc' Hc. destruct (same_vm_at _ _ _ _ Hs' Hb') as (b & Hb & Eb).
    destruct (strip_fields _ _ Eb) as (_ & _ & _ & _ & _ & E6).
    rewrite (proj1 Hs) in Hc.
    destruct (R4 pc b h l Hpc Hb ltac:(congruence) Hc) as (b2 & H2 & Ht).
    destruct (same_vm_lookup _ _ _ _ Hs H2) as (b2' & H2' & E2').
    destruct (strip_fields _ _ E2') as (_ & _ & _ & _ & Et & _). exists b2'. rewrite Et. done.
Qed.
Lemma weight_same v v' pc : same_vm v v' -> weight v' pc = weight v pc.
Proof.
  intros [Hc Hh]. unfold weight. rewrite Hc. destruct (block_cache v !! pc) as [l|]; [|done]. cbn.
  apply (f_equal (lookup l)) in Hh. rewrite !lookup_fmap in Hh.
  destruct (jheap v !! l), (jheap v' !! l); cbn in Hh; try done. injection Hh as Hh. cbn. congruence.
Qed.
Lemma budget_same v v' C keys : same_vm v v' -> budget v' C keys = budget v C keys.
Proof. intros Hs. unfold budget. f_equal. apply list_fmap_ext. intros i pc _. by apply weight_same. Qed.
Lemma budget_mono v C keys : (budget v C keys <= budget v C [])%nat.
Proof.
  unfold budget. induction C as [|pc C IH]; [done|].
  rewrite (filter_cons_True (fun p => p ∉ [])) by apply not_elem_of_nil.
  destruct (decide (pc ∈ keys)); [rewrite filter_cons_False by tauto|rewrite filter_cons_True by done]; cbn; lia.
Qed.
Lemma same_vm_alter v f l :
  (forall b, strip (f b) = strip b) -> same_vm v (mk_jit_vm (alter f l (jheap v)) (block_cache v)).
Proof.
  intros Hf. split; [done|]. cbn. apply map_eq. intros k. rewrite !lookup_fmap.
  destruct (decide (k = l)) as [->|Hk]; [rewrite lookup_alter_eq|by rewrite lookup_alter_ne].
  destruct (jheap v !! l); cbn; [|done]. by rewrite Hf.
Qed.
Lemma same_vm_clear v : same_vm v (mk_jit_vm (clear_hot <$> jheap v) (block_cache v)).
Proof.
  split; [done|]. cbn. apply map_eq. intros k. rewrite !lookup_fmap. by destruct (jheap v !! k).
Qed.

(** * The invariant *)

(** The code in front of the blocks: it saves the registers a callee must keep and jumps to the
    address in its second argument, and the epilogue undoes this. *)
Definition entry_insns : list xinsn :=
  (Push <$> nonvolatile_reg) ++ [Mov true RSP RBP; AluI true Xsub RSP STACK_SIZE].
Definition entry_code : list sinsn := SI <$> entry_insns ++ [JmpR RSI].
Definition exit_insns : list xinsn := Mov true RBP RSP :: (Pop <$> reverse nonvolatile_reg).
Definition exit_code : list sinsn := SI <$> exit_insns ++ [Ret].

Section Native.
Context `{RIO : riscv_io_laws} `{SFT : softfloat_laws}.
Context (base : Z) (ext : Z -> xstate -> option xstate).
Context (y : host_layout) (Y : layout_ok y) (env : jit_env) (HE : mem_base_ptr env = ram_ptr y).
(** The blocks of the guest program by address. *)
Context (prog : gmap Z jit_block).

Definition cached_code (j : jit_state) (b : jit_block) (o : Z) : Prop :=
  forall r, run_of y b r -> exists l rr,
    coded (buf j) rr o l /\ o + csize l <= offset j /\
    (forall pc q, rr pc = Some q -> rho j pc = Some q) /\ is_Some (rr TARGET_PC_EXIT) /\
    code_runs base ext y r l o.

Lemma run_of_strip b r : run_of y (strip b) r -> run_of y b r.
Proof using Type. intros [[] ?]. by split. Qed.

Record framed (j : jit_state) : Prop := {
  fr_entry : coded (buf j) (fun _ => None) 0 entry_code;
  fr_exit : coded (buf j) (fun _ => None) (exit_loc j) exit_code;
  fr_entry_size : csize entry_code <= org_size j;
  fr_exit_size : exit_loc j + csize exit_code <= org_size j;
  fr_org : 0 <= exit_loc j /\ org_size j <= offset j;
  fr_retpoline : 0 <= retpoline_loc j <= jsize j }.

Record jit_ok (st : jst) : Prop := {
  jo_sane : sane st;
  jo_set : set_holds (jset (js st)) (keys st);
  jo_nodup : NoDup (keys st);
  jo_zero : 0 ∉ keys st;
  jo_blocks : n_blocks (js st) < MAX_BLOCKS;
  jo_framed : framed (js st);
  jo_flush : should_flush st = false;
  jo_code : Forall (fun e => org_size (js st) <= om_offset e <= offset (js st) /\
    exists b, prog !! om_pc e = Some b /\ cached_code (js st) b (om_offset e)) (offset_map (js st)) }.

Lemma framed_kept j j' :
  framed j -> kept j j' -> jwf j -> jwf j' -> jsize j' = jsize j -> exit_loc j' = exit_loc j ->
  org_size j' = org_size j -> retpoline_loc j' = retpoline_loc j -> framed j'.
Proof using Type.
  intros [F1 F2 F3 F4 F5 F6] [Ko Kb] W W' Es Ee Eo Er.
  assert (length (buf j') = length (buf j)) as El by (rewrite (jwf_buf _ W), (jwf_buf _ W'); by rewrite Es).
  split; rewrite ?Es, ?Ee, ?Eo, ?Er; try done; [..|lia].
  - eapply coded_same; [exact F1|done|]. intros i Hi. apply Kb. lia.
  - eapply coded_same; [exact F2|done|]. intros i Hi. apply Kb. lia.
Qed.

Lemma find_offset_app pc l1 l2 o : find_offset pc l1 = Some o -> find_offset pc (l1 ++ l2) = Some o.
Proof using Type.
  induction l1 as [|e l1 IH]; cbn; [done|]. by destruct (om_pc e =? pc).
Qed.
Lemma find_offset_in pc l o : find_offset pc l = Some o -> exists e, e ∈ l /\ om_pc e = pc /\ om_offset e = o.
Proof using Type.
  induction l as [|e l IH]; cbn; [done|]. destruct (Z.eqb_spec (om_pc e) pc) as [E|E].
  - intros [= <-]. exists e. split; [apply list_elem_of_here|done].
  - intros H1. destruct (IH H1) as (e' & ? & ?). exists e'. split; [by apply list_elem_of_further|done].
Qed.

(** ** The end of a pass *)

Definition resolved (st : jst) : jst :=
  with_js (with_code (foldl (patch_jump (js st)) (buf (js st)) (jumps (js st))) (offset (js st)) (js st)) st.

Section Pass.
Context (v : jit_vm) (C U : list Z) (HP : forall pc b, pc ∈ C -> block_at v pc b -> prog !! pc = Some (strip b)).
Context (st st1 : jst) (new : list offset_map_t).
Context (Hok : jit_ok st) (J0 : jumps (js st) = []) (Ch : chained base ext y v C U st st1 new).
Context (F1 : should_flush st1 = false).

Lemma rho_grows pc q : rho (js st) pc = Some q -> rho (js st1) pc = Some q.
Proof using Ch.
  unfold rho. rewrite (ch_exit _ _ _ _ _ _ _ _ _ Ch), (ch_retpoline _ _ _ _ _ _ _ _ _ Ch), (ch_map _ _ _ _ _ _ _ _ _ Ch).
  destruct (pc =? TARGET_PC_EXIT); [done|]. destruct (pc =? TARGET_PC_RETPOLINE); [done|].
  apply find_offset_app.
Qed.
Lemma rho_range pc q : rho (js st1) pc = Some q -> 0 <= q <= jsize (js st).
Proof using Hok Ch F1.
  pose proof (ch_code _ _ _ _ _ _ _ _ _ Ch F1) as (_ & [l L] & _ & Hnews).
  pose proof (laid_offset _ _ _ L) as Ho. destruct L as [L _]. pose proof (lay_fits _ _ _ L) as Hfit.
  destruct (jo_framed _ Hok) as [_ _ _ Hx [Hx0 Hx1] Hret]. pose proof (csize_nonneg exit_code).
  unfold rho. rewrite (ch_exit _ _ _ _ _ _ _ _ _ Ch), (ch_retpoline _ _ _ _ _ _ _ _ _ Ch), (ch_map _ _ _ _ _ _ _ _ _ Ch).
  destruct (pc =? TARGET_PC_EXIT); [intros [= <-]; lia|].
  destruct (pc =? TARGET_PC_RETPOLINE); [intros [= <-]; lia|].
  intros (e & He & _ & <-)%find_offset_in. pose proof (jwf_offset _ (sane_jwf _ (jo_sane _ Hok))).
  apply elem_of_app in He as [He|He].
  - pose proof (jo_code _ Hok) as Hc. rewrite Forall_forall in Hc. destruct (Hc e He) as [? _]. lia.
  - rewrite Forall_forall in Hnews. destruct (Hnews e He) as [? _]. lia.
Qed.

Lemma resolved_old b o : cached_code (js st) b o -> cached_code (js (resolved st1)) b o.
Proof using Hok J0 Ch F1.
  intros Hc r Hr. destruct (Hc r Hr) as (l & rr & Hl & Hs & Hrr & Hx & Hsim).
  pose proof (ch_code _ _ _ _ _ _ _ _ _ Ch F1) as (_ & (l0 & L & N) & _).
  pose proof (sane_jwf _ (jo_sane _ Hok)) as W. pose proof (lay_offset _ _ _ L). pose proof (csize_nonneg l0).
  exists l, rr. split; [|split; [cbn; lia|split; [|done]]].
  - eapply coded_same; [exact Hl|..].
    + cbn. rewrite (resolve_length _ _ _ W L J0). by rewrite (jwf_buf _ W).
    + intros i Hi. cbn. apply (resolve_before _ _ _ W L J0). lia.
  - intros pc q Hq. apply rho_grows. by apply Hrr.
Qed.
Lemma resolved_new b o : placed base ext y st st1 b o -> cached_code (js (resolved st1)) b o.
Proof using Hok J0 Ch F1.
  intros Hp r Hr. destruct (Hp r Hr) as (l1 & l & l2 & [L N] & Eo & Hs).
  pose proof (sane_jwf _ (jo_sane _ Hok)) as W.
  pose proof (resolve_coded _ _ _ W L J0 rho_range N) as Hc.
  apply coded_app in Hc as [_ Hc]. apply coded_app in Hc as [Hc _]. rewrite <- Eo in Hc.
  exists l, (rho (js st1)). split; [exact Hc|]. split; [|split; [done|split; [|done]]].
  - cbn. rewrite (lay_offset _ _ _ L), !csize_app. pose proof (csize_nonneg l2). lia.
  - by eexists.
Qed.

Lemma resolved_ok : jit_ok (resolved st1).
Proof using Hok J0 Ch F1 HP.
  pose proof (ch_code _ _ _ _ _ _ _ _ _ Ch F1) as (_ & (l0 & L & N) & Hn & Hnews).
  pose proof (sane_jwf _ (jo_sane _ Hok)) as W. pose proof (lay_offset _ _ _ L). pose proof (csize_nonneg l0).
  destruct (ch_sane _ _ _ _ _ _ _ _ _ Ch) as [W1 Hregs]. destruct (ch_table _ _ _ _ _ _ _ _ _ Ch).
  assert (jwf (js (resolved st1))) as W2.
  { destruct W1. split; cbn; try done. rewrite (resolve_length _ _ _ W L J0).
    by rewrite (ch_size _ _ _ _ _ _ _ _ _ Ch). }
  split; try done.
  - apply Hn, Hok.
  - eapply (framed_kept (js st)); [apply Hok| |done|done|apply Ch..].
    split; [cbn; lia|]. intros i Hi. cbn. by apply (resolve_before _ _ _ W L J0).
  - cbn. rewrite (ch_map _ _ _ _ _ _ _ _ _ Ch), (ch_org _ _ _ _ _ _ _ _ _ Ch). apply Forall_app. split.
    + apply (Forall_impl _ _ _ (jo_code _ Hok)). intros e (Ho & b & Hb & Hc). split; [lia|].
      exists b. split; [done|]. by apply resolved_old.
    + apply Forall_forall. intros e He. pose proof (ch_region _ _ _ _ _ _ _ _ _ Ch) as Hin. rewrite Forall_forall in Hnews, Hin.
      destruct (Hnews e He) as (Ho & b & Hb & _ & Hp).
      pose proof (fr_org _ (jo_framed _ Hok)). split; [lia|].
      exists (strip b). split; [by apply HP; [apply Hin|]|].
      intros r Hr. by apply (resolved_new b _ Hp), run_of_strip.
Qed.
End Pass.

(** ** The loop of [jit_translate] *)

(** What the translation of a region needs of the tables, whose sizes are fixed. *)
Record fits_tables (v : jit_vm) (C U : list Z) : Prop := {
  ft_region : region v C;
  ft_nodup : NoDup C;
  ft_jumps : (budget v C [] <= 1024)%nat;
  ft_sub : C ⊆ U;
  ft_buckets : buckets_fit U;
  ft_prog : forall pc b, pc ∈ C -> block_at v pc b -> prog !! pc = Some (strip b) }.
Lemma fits_same v v' C U : same_vm v v' -> fits_tables v C U -> fits_tables v' C U.
Proof using Type.
  intros Hs []. split; try done.
  - by eapply region_same.
  - by rewrite (budget_same v v').
  - intros pc b Hpc Hb. symmetry in Hs. destruct (same_vm_at _ _ _ _ Hs Hb) as (b' & Hb' & <-). auto.
Qed.
(** The state and the blocks at the label [restart]. *)
Definition start_pass (st : jst) : jst := with_js (with_jumps [] (js st)) st.
Definition start_vm (l : Z) (st : jst) (v : jit_vm) : jit_vm :=
  mk_jit_vm (alter (with_offset (offset (js st))) l (jheap v)) (block_cache v).
Definition flushed (st : jst) : jst :=
  with_should_flush false
    (with_js (with_jset set_reset (with_offset_map [] (with_code (buf (js st)) (org_size (js st)) (js st)))) st).

Lemma framed_same j j' :
  framed j -> buf j' = buf j -> exit_loc j' = exit_loc j -> org_size j' = org_size j -> org_size j <= offset j' ->
  retpoline_loc j' = retpoline_loc j -> jsize j' = jsize j -> framed j'.
Proof using Type. intros [] Eb Ee Eo Ho Er Es. split; rewrite ?Eb, ?Ee, ?Eo, ?Er, ?Es; try done; lia. Qed.
Lemma start_pass_ok st : jit_ok st -> jit_ok (start_pass st).
Proof using Type.
  intros [[[] ?] ? ? ? ? Hf ? ?]. split; try done. by eapply framed_same; [exact Hf|try done; apply Hf..].
Qed.
Lemma flushed_ok v C U st st1 new :
  jit_ok st -> chained base ext y v C U st st1 new -> jit_ok (flushed st1).
Proof using Type.
  intros Hok Ch. destruct (ch_sane _ _ _ _ _ _ _ _ _ Ch) as [W1 Hregs].
  pose proof (framed_kept _ _ (jo_framed _ Hok) (ch_kept _ _ _ _ _ _ _ _ _ Ch) (sane_jwf _ (jo_sane _ Hok)) W1
    (ch_size _ _ _ _ _ _ _ _ _ Ch) (ch_exit _ _ _ _ _ _ _ _ _ Ch) (ch_org _ _ _ _ _ _ _ _ _ Ch)
    (ch_retpoline _ _ _ _ _ _ _ _ _ Ch)) as Hf.
  pose proof (fr_org _ Hf). pose proof (fr_entry_size _ Hf). pose proof (csize_nonneg entry_code).
  destruct W1. split; try done.
  - split; [|done]. split; cbn; try done; lia.
  - apply set_reset_holds.
  - apply NoDup_nil_2.
  - apply not_elem_of_nil.
  - by eapply framed_same; [exact Hf|try done; cbn; lia..].
Qed.

(** One pass ends, with the blocks of the chain translated or the cache to be flushed. *)
Lemma pass_ends v C U l pc st :
  fits_tables v C U -> jit_ok st -> keys st ⊆ U -> pc ∈ C -> block_cache v !! pc = Some l ->
  exists st1, translate_chained_block env chain_fuel (start_vm l st v) l (start_pass st) = Some (tt, st1) /\
    rooted base ext y (start_vm l st v) C U pc (start_pass st) st1.
Proof using Y HE RIO SFT.
  intros Ft Hok Hk Hpc Hl. assert (same_vm v (start_vm l st v)) as Hs by (by apply same_vm_alter).
  pose proof (fits_same _ _ _ _ Hs Ft) as []. pose proof (start_pass_ok _ Hok) as [].
  destruct (runs_chain base ext y Y env HE (start_vm l st v) C ft_region0 ft_nodup0 U ft_sub0 ft_buckets0
    chain_fuel l pc (start_pass st)) as ([] & st1 & E1 & E2).
  - done.
  - done.
  - split; [done|]. split; [split; try done; lia|]. unfold cost. cbn. etrans; [apply budget_mono|done].
  - unfold chain_fuel. pose proof (Nat2Z.is_nonneg (length (offset_map (js (start_pass st))))).
    unfold n_blocks, MAX_BLOCKS in *. lia.
  - by exists st1.
Qed.
End Native.
