(* ===== verification/JitInit.v ===== *)
(** The state that [jit_state_init] builds is in order; a program of two blocks, the second of
    which follows the first:

      0x1000: addi x1, x0, 5;  addi x2, x1, 7;  jal x0, 8
      0x1010: add x3, x1, x2;  jal x0, 16

    and a machine that holds it. *)

From S2P Require Import Prelude.
From S2P Require Import Opcode.
From S2P Require Import Decode.
From S2P Require Import Machine.
From S2P Require Import Interp.
From S2P Require Import MachineFacts.
From S2P Require Import Invariant.
From S2P Require Import Utils.
From S2P Require Import UtilsProofs.
From S2P Require Import JitEmit.
From S2P Require Import JitAlloc.
From S2P Require Import JitGen.
From S2P Require Import X86.
From S2P Require Import X86Proofs.
From S2P Require Import JitEmitProofs.
From S2P Require Import JitCode.
From S2P Require Import JitRel.
From S2P Require Import JitAllocProofs.
From S2P Require Import JitSim.
From S2P Require Import JitInsn.
From S2P Require Import JitJump.
From S2P Require Import JitLeave.
From S2P Require Import JitDispatch.
From S2P Require Import JitTerm.
From S2P Require Import JitBlock.
From S2P Require Import JitStatic.
From S2P Require Import JitChain.
From S2P Require Import JitNative.

Lemma regs_set_dirty_in rm r d : reg_idx <$> set_dirty_in rm r d = reg_idx <$> rm.
Proof.
  induction rm as [|h rm IH]; [done|]. cbn. destruct (reg_idx h =? r); cbn; [done|]. by rewrite IH.
Qed.

(** Bytes in the buffer as code. *)
Lemma coded_bytes B l : forall off,
  0 <= off -> (Z.to_nat off + length (encode_all l) <= length B)%nat -> Forall wf_xinsn l ->
  (forall k, (k < length (encode_all l))%nat -> B !! (Z.to_nat off + k)%nat = encode_all l !! k) ->
  coded B (fun _ => None) off (SI <$> l).
Proof.
  induction l as [|i l IH]; intros off H0 HL Hw HB; [done|]. apply Forall_cons in Hw as [Hi Hw].
  unfold encode_all in *. cbn [fmap list_fmap concat] in *. rewrite length_app in *.
  assert (slen (SI i) = Z.of_nat (length (encode i))) as Es by done.
  cbn [coded sres]. rewrite Es. split; [done|]. split; [lia|]. split; [done|]. split.
  - intros k Hk. cbn [raw] in Hk. rewrite HB by lia. by rewrite lookup_app_l.
  - apply IH; [lia|lia|done|]. intros k Hk.
    replace (Z.to_nat (off + Z.of_nat (length (encode i))) + k)%nat
      with (Z.to_nat off + (length (encode i) + k))%nat by lia.
    rewrite HB by lia. rewrite lookup_app_r by lia. f_equal. lia.
Qed.

Definition prologue : jitM unit :=
  emit_each emit_push nonvolatile_reg;; emit_mov RSP RBP;; emit_alu64_imm32 0x81 5 RSP STACK_SIZE;;
  emit1 0xff;; emit1 0xe6.
Definition epilogue : jitM unit :=
  emit_mov RBP RSP;; emit_each emit_pop (reverse nonvolatile_reg);; emit1 0xc3.

Lemma bind_assoc {A B C} (m1 : jitM A) (m2 : jitM B) (m3 : jitM C) st :
  ((m1;; m2);; m3) st = (m1;; (m2;; m3)) st.
Proof. unfold mbind, jitM_bind. by destruct (m1 st) as [[a st1]|]. Qed.
Lemma prepare_translate_split st :
  prepare_translate st =
  (prologue;; jmodify (fun s => with_js (with_exit_loc (offset (js s)) (js s)) s);;
   epilogue;; jmodify (fun s => with_js (with_org_size (offset (js s)) (js s)) s)) st.
Proof.
  unfold prologue, epilogue, prepare_translate.
  change (Z.of_nat (length nonvolatile_reg) mod 2 =? 0) with false. cbn [jwhen].
  unfold mbind, jitM_bind, mret, jitM_ret.
  repeat (match goal with |- match ?m with _ => _ end = _ => destruct m as [[]|] end; cbn; try done).
Qed.

Ltac saved_regs :=
  assert (is_xreg RBP) by done; assert (is_xreg RBX) by done; assert (is_xreg R13) by done;
  assert (is_xreg R14) by done; assert (is_xreg R15) by done.
Lemma emits_prologue st :
  jwf (js st) -> emits st prologue (encode_all (entry_insns ++ [JmpR RSI]))
    (set_dirty_in (set_dirty_in (register_map st) RBP true) RSP true).
Proof.
  intros W. assert (register_map st = register_map st) as M by done. saved_regs. unfold prologue, emit_each.
  cbn [foldr nonvolatile_reg]. eapply emits_eq.
  - eapply emits_bind; [done|repeat first [elast|estep]|]. intros s1 W1 M1.
    eapply emits_bind; [done|by apply (emits_Mov s1 _ W1 M1)|]. intros s2 W2 M2.
    eapply emits_bind; [done|by apply (emits_AluI64 s2 _ W2 M2 Xsub)|]. intros s3 W3 M3.
    repeat first [elast|estep].
  - done.
  - done.
Qed.
Lemma emits_epilogue st :
  jwf (js st) -> emits st epilogue (encode_all (exit_insns ++ [Ret])) (set_dirty_in (register_map st) RSP true).
Proof.
  intros W. assert (register_map st = register_map st) as M by done. saved_regs. unfold epilogue, emit_each.
  eapply emits_eq.
  - eapply emits_bind; [done|by apply (emits_Mov st _ W M)|]. intros s1 W1 M1.
    eapply emits_bind; [done|cbn [foldr reverse rev_append nonvolatile_reg]; repeat first [elast|estep]|].
    intros s2 W2 M2. elast.
  - done.
  - done.
Qed.

Section Init.
Context `{RIO : riscv_io_laws} `{SFT : softfloat_laws}.
Context (base : Z) (ext : Z -> xstate -> option xstate) (y : host_layout) (prog : gmap Z jit_block).

(** 32 bytes are enough for the prologue and the epilogue. *)
Lemma jit_state_init_ok size retpoline :
  32 <= size < 2 ^ 31 -> 0 <= retpoline <= size ->
  exists st, jit_state_init size retpoline = Some st /\ jit_ok base ext y prog st /\ offset_map (js st) = [].
Proof using Type.
  intros Hsz Hret. unfold jit_state_init. set (j0 := mk_jit_state _ _ _ _ _ _ _ _ _).
  set (rm := (fun h => mk_host_reg (reg_idx h) (-1) false false) <$> register_map_init).
  set (s0 := mk_jst j0 rm false (replicate N_RV_REGS 0) (replicate N_RV_REGS 0)).
  change ((reset_reg;; prepare_translate) _) with (prepare_translate s0).
  cut (runs s0 prepare_translate (fun _ st => jit_ok base ext y prog st /\ offset_map (js st) = [])).
  { intros (u & st & -> & Hst). by exists st. }
  eapply runs_ext; [apply prepare_translate_split|].
  assert (jwf j0) as W0 by (split; cbn [offset jsize buf j0]; try lia; by rewrite length_replicate).
  destruct (emits_prologue s0 W0) as (s1 & E1 & W1 & R1 & J1 & M1 & A1 & N1).
  set (e1 := encode_all (entry_insns ++ [JmpR RSI])) in *. set (e2 := encode_all (exit_insns ++ [Ret])).
  assert (length e1 = 20%nat) as L1 by reflexivity. assert (length e2 = 12%nat) as L2 by reflexivity.
  assert (should_flush s1 = false) as F1 by (apply N1; [done|done|]; rewrite L1; cbn; lia).
  destruct (A1 F1) as [_ [B1 _]]. apply runs_bind. exists tt, s1. split; [done|].
  apply runs_bind. eexists tt, _. split; [reflexivity|].
  set (s2 := with_js (with_exit_loc (offset (js s1)) (js s1)) s1).
  assert (jwf (js s2)) as W2 by (destruct W1; by split).
  destruct (emits_epilogue s2 W2) as (s3 & E3 & W3 & R3 & J3 & M3 & A3 & N3). fold e2 in A3, N3.
  assert (offset (js s1) = 20 /\ jsize (js s1) = size /\ n_blocks (js s1) = 0 /\ retpoline_loc (js s1) = retpoline /\
    jset (js s1) = set_reset /\ offset_map (js s1) = []) as (O1 & S1 & K1 & P1 & T1 & Q1).
  { rewrite B1. repeat split. }
  assert (should_flush s3 = false) as F3.
  { apply N3; [done|change (n_blocks (js s2)) with (n_blocks (js s1)); by rewrite K1|].
    rewrite L2. cbn [offset jsize js s2 with_js with_exit_loc]. lia. }
  destruct (A3 F3) as [_ [B3 _]]. apply runs_bind. exists tt, s3. split; [done|].
  eexists tt, _. split; [reflexivity|]. set (s4 := with_js (with_org_size (offset (js s3)) (js s3)) s3).
  assert (offset (js s3) = 32) as O3 by (rewrite B3; cbn [offset with_code]; rewrite L2; cbn; lia).
  assert (buf (js s3) = buf_write (buf_write (buf j0) 0 e1) 20 e2) as EB.
  { rewrite B3. cbn [buf with_code js s2 with_js with_exit_loc offset]. rewrite O1. by rewrite B1. }
  assert (length (buf_write (buf j0) 0 e1) = Z.to_nat size) as LB1.
  { rewrite length_buf_write; cbn [buf j0]; rewrite ?length_replicate; lia. }
  assert (length (buf (js s3)) = Z.to_nat size) as LB.
  { rewrite EB, length_buf_write; rewrite ?LB1; lia. }
  assert (reg_idx <$> register_map s3 = host_regs) as Hregs.
  { rewrite M3. cbn. rewrite M1, !regs_set_dirty_in. done. }
  pose proof (same_size _ _ R3) as S3. pose proof (same_exit _ _ R3) as X3. pose proof (same_retpoline _ _ R3) as P3.
  pose proof (same_set _ _ R3) as T3. pose proof (same_map _ _ R3) as Q3. cbn in S3, X3, P3, T3, Q3.
  rewrite S1 in S3. rewrite O1 in X3. rewrite P1 in P3. rewrite T1 in T3. rewrite Q1 in Q3.
  split; [|done]. split.
  - split; [|done]. destruct W3. by split.
  - cbn. unfold keys. cbn. rewrite T3, Q3. apply set_reset_holds.
  - unfold keys. cbn. rewrite Q3. apply NoDup_nil_2.
  - unfold keys. cbn. rewrite Q3. apply not_elem_of_nil.
  - unfold n_blocks. cbn. rewrite Q3. done.
  - split; cbn [buf exit_loc org_size offset retpoline_loc jsize s4 js with_js with_org_size].
    + apply coded_bytes; [lia|fold e1; lia|wf_all|].
      fold e1. intros k Hk. rewrite EB, buf_write_lookup_out by lia.
      apply buf_write_lookup_in; cbn [buf j0]; rewrite ?length_replicate; lia.
    + rewrite X3. apply coded_bytes; [lia|fold e2; lia|wf_all|].
      fold e2. intros k Hk. rewrite EB. apply buf_write_lookup_in; lia.
    + rewrite O3. done.
    + rewrite O3, X3. done.
    + lia.
    + lia.
  - done.
  - cbn. rewrite Q3. by apply Forall_nil.
Qed.
End Init.

Definition sample_irs1 : list rv_insn :=
  [ set_pc 0x1000 (set_opcode rv_insn_addi (set_rd 1 (set_imm 5 zero_insn)));
    set_pc 0x1004 (set_opcode rv_insn_addi (set_rd 2 (set_rs1 1 (set_imm 7 zero_insn))));
    set_branch_taken (Some 2) (set_pc 0x1008 (set_opcode rv_insn_jal (set_imm 8 zero_insn))) ].
Definition sample_irs2 : list rv_insn :=
  [ set_pc 0x1010 (set_opcode rv_insn_add (set_rd 3 (set_rs1 1 (set_rs2 2 zero_insn))));
    set_pc 0x1014 (set_opcode rv_insn_jal (set_imm 16 zero_insn)) ].
Definition sample_block1 : jit_block := mk_jit_block sample_irs1 0x1000 0x100c false true None 0 false.
Definition sample_block2 : jit_block := mk_jit_block sample_irs2 0x1010 0x1018 false true None 0 false.
Definition sample_vm : jit_vm :=
  mk_jit_vm {[ 1 := sample_block1; 2 := sample_block2 ]} {[ 0x1000 := 1; 0x1010 := 2 ]}.
Definition sample_region : list Z := [0x1000; 0x1010].
Definition sample_prog : gmap Z jit_block := {[ 0x1000 := sample_block1; 0x1010 := sample_block2 ]}.
Definition sample_layout : host_layout := mk_host_layout 0x10000 0x20000 16.
Definition sample_env : jit_env := mk_jit_env 0x20000 0 0.
Definition sample_guest : riscv := reset_state ∅ 16.

Lemma sample_layout_ok : layout_ok sample_layout.
Proof. split; cbn; unfold offsetof_PC, offsetof_X; lia. Qed.

Lemma sample_at pc b :
  block_at sample_vm pc b -> pc = 0x1000 /\ b = sample_block1 \/ pc = 0x1010 /\ b = sample_block2.
Proof.
  intros (l & Hl & Hb). cbn [block_cache jheap sample_vm] in *.
  apply lookup_insert_Some in Hl as [[<- <-]|[_ [<- <-]%lookup_singleton_Some]].
  - left. rewrite lookup_insert_eq in Hb. by injection Hb as <-.
  - right. rewrite lookup_insert_ne, lookup_singleton_eq in Hb by done. by injection Hb as <-.
Qed.
Lemma sample_at1 : block_at sample_vm 0x1000 sample_block1.
Proof. by exists 1. Qed.
Lemma sample_at2 : block_at sample_vm 0x1010 sample_block2.
Proof. by exists 2. Qed.
Ltac ir_ok := split; cbn; unfold is_reg, is_s32; lia.
Lemma sample_ok1 : supported sample_block1.
Proof.
  split; [|repeat (apply Forall_cons; split; [done|]); by apply Forall_nil].
  exists (take 2 sample_irs1), (nth 2 sample_irs1 zero_insn). split.
  - done.
  - repeat (apply Forall_cons; split; [split; [ir_ok|done]|]). by apply Forall_nil.
  - ir_ok.
  - done.
  - done.
  - by left.
Qed.
Lemma sample_ok2 : supported sample_block2.
Proof.
  split; [|repeat (apply Forall_cons; split; [done|]); by apply Forall_nil].
  exists (take 1 sample_irs2), (nth 1 sample_irs2 zero_insn). split.
  - done.
  - repeat (apply Forall_cons; split; [split; [ir_ok|done]|]). by apply Forall_nil.
  - ir_ok.
  - done.
  - done.
  - by left.
Qed.
Lemma sample_region_ok : region sample_vm sample_region.
Proof.
  split.
  - intros pc. unfold sample_region. rewrite !elem_of_cons, elem_of_nil. intros [->|[->|[]]].
    + exists sample_block1. split; [apply sample_at1|]. split; [done|apply sample_ok1].
    + exists sample_block2. split; [apply sample_at2|]. split; [done|apply sample_ok2].
  - by apply (bool_decide_unpack _).
  - intros pc b ir link _ [[-> ->]|[-> ->]]%sample_at [= <-] [Hl|Hl]; cbn in Hl; simplify_eq.
    exists sample_block2, sample_block2. split; [done|]. split; [apply sample_at2|].
    intros _. apply list_elem_of_further, list_elem_of_here.
  - intros pc b h l _ [[-> ->]|[-> ->]]%sample_at Hh; done.
Qed.
Lemma short_fits keys : (length keys < 32)%nat -> buckets_fit keys.
Proof.
  intros Hl i. eapply Nat.le_lt_trans; [apply length_filter|exact Hl].
Qed.
Lemma sample_fits : fits_tables sample_prog sample_vm sample_region sample_region.
Proof.
  split.
  - apply sample_region_ok.
  - by apply (bool_decide_unpack _).
  - apply Nat.leb_le. by vm_compute.
  - done.
  - apply short_fits. cbn. lia.
  - intros pc b _ [[-> ->]|[-> ->]]%sample_at; done.
Qed.
