(* ===== verification/JitTranslate.v ===== *)
(** [jit_translate]: it ends with the block translated and the code cache in order. *)

From S2P Require Import Prelude.
From S2P Require Import Opcode.
From S2P Require Import Decode.
From S2P Require Import Machine.
From S2P Require Import Interp.
From S2P Require Import MachineFacts.
From S2P Require Import Invariant.
From S2P Require Import Utils.
From S2P Require Import UtilsProofs.
From S2P Require Import JitEmit.
From S2P Require Import JitAlloc.
From S2P Require Import JitGen.
From S2P Require Import X86.
From S2P Require Import X86Proofs.
From S2P Require Import JitEmitProofs.
From S2P Require Import JitCode.
From S2P Require Import JitRel.
From S2P Require Import JitAllocProofs.
From S2P Require Import JitSim.
From S2P Require Import JitInsn.
From S2P Require Import JitJump.
From S2P Require Import JitLeave.
From S2P Require Import JitDispatch.
From S2P Require Import JitTerm.
From S2P Require Import JitBlock.
From S2P Require Import JitStatic.
From S2P Require Import JitChain.
From S2P Require Import JitNative.
From S2P Require Import JitInit.

Section Translate.
Context `{RIO : riscv_io_laws} `{SFT : softfloat_laws}.
Context (base : Z) (ext : Z -> xstate -> option xstate).
Context (y : host_layout) (Y : layout_ok y) (env : jit_env) (HE : mem_base_ptr env = ram_ptr y).
(** The blocks of the guest program by address. *)
Context (prog : gmap Z jit_block).
#[local] Abbreviation jit_ok := (jit_ok base ext y prog).
#[local] Abbreviation fits_tables := (fits_tables prog).

Lemma find_offset_new pc om o rest :
  pc ∉ (om_pc <$> om) -> find_offset pc (om ++ mk_offset_map pc o :: rest) = Some o.
Proof using Type.
  induction om as [|e om IH]; cbn; intros Hn; [by rewrite Z.eqb_refl|].
  apply not_elem_of_cons in Hn as [H1 H2]. replace (om_pc e =? pc) with false by lia. auto.
Qed.
Lemma find_offset_key pc om : pc ∈ (om_pc <$> om) -> is_Some (find_offset pc om).
Proof using Type.
  induction om as [|e om IH]; cbn; [by intros ?%elem_of_nil|].
  destruct (Z.eqb_spec (om_pc e) pc); [by eexists|]. intros [?|?]%elem_of_cons; [congruence|auto].
Qed.

(** The block has code, which its fields designate; all blocks with code are among [U]. *)
Record translated (U : list Z) (v : jit_vm) (l pc : Z) (st' : jst) (v' : jit_vm) : Prop := {
  tr_ok : jit_ok st';
  tr_keys : keys st' ⊆ U;
  tr_vm : same_vm v v';
  tr_block : exists b, jheap v' !! l = Some b /\ jb_hot b = true /\
    find_offset pc (offset_map (js st')) = Some (jb_offset b) }.

Section Restart.
Context (C U : list Z) (l pc : Z) (Hpc : pc ∈ C).

(** A pass that does not run out of code buffer. *)
Lemma pass_done v st st1 :
  fits_tables v C U -> jit_ok st -> keys st ⊆ U -> block_cache v !! pc = Some l -> pc ∉ keys st ->
  rooted base ext y (start_vm l st v) C U pc (start_pass st) st1 -> should_flush st1 = false ->
  translated U v l pc (resolved st1)
    (mk_jit_vm (alter (with_hot true) l (jheap (start_vm l st v))) (block_cache v)).
Proof using Hpc.
  intros Ft Hok Hk Hl Hn (new & Ch & Hroot) F.
  assert (same_vm v (start_vm l st v)) as Hs by (by apply same_vm_alter).
  destruct (rg_block _ _ (ft_region _ _ _ _ Ft) pc Hpc) as (b & (l' & Hl' & Hb) & _).
  rewrite Hl in Hl'. injection Hl' as <-. split.
  - eapply (resolved_ok base ext y prog (start_vm l st v) C U); [apply (fits_same _ _ _ _ _ Hs Ft)|by apply start_pass_ok|done|exact Ch|done].
  - change (keys (resolved st1)) with (om_pc <$> offset_map (js st1)).
    rewrite (ch_map _ _ _ _ _ _ _ _ _ Ch), fmap_app. intros k [Hk'|Hk']%elem_of_app; [by apply Hk|].
    apply list_elem_of_fmap in Hk' as (e & -> & He).
    pose proof (ch_region _ _ _ _ _ _ _ _ _ Ch) as Hin. rewrite Forall_forall in Hin.
    by apply (ft_sub _ _ _ _ Ft), Hin.
  - etrans; [exact Hs|]. apply (same_vm_alter (start_vm l st v)). done.
  - exists (with_hot true (with_offset (offset (js st)) b)). cbn. rewrite !lookup_alter_eq, Hb. cbn.
    split; [done|]. split; [done|]. destruct Hroot as [rest ->]; [done|apply Z.lt_neq, (jo_blocks _ _ _ _ _ Hok)|].
    rewrite (ch_map _ _ _ _ _ _ _ _ _ Ch). by apply find_offset_new.
Qed.

(** One pass is enough, or a second one after the cache has been emptied. *)
Definition second_pass_fits (v : jit_vm) (st : jst) : Prop :=
  forall st1, translate_chained_block env chain_fuel (start_vm l st v) l (start_pass st) = Some (tt, st1) ->
  should_flush st1 = true ->
  let v1 := mk_jit_vm (clear_hot <$> jheap (start_vm l st v)) (block_cache v) in
  forall st2, translate_chained_block env chain_fuel (start_vm l (flushed st1) v1) l (start_pass (flushed st1))
    = Some (tt, st2) -> should_flush st2 = false.

Lemma restart_unfold fuel v st :
  translate_from_restart env (S fuel) v l st =
  '(_, s) ← translate_chained_block env chain_fuel (start_vm l st v) l (start_pass st);
  if should_flush s then
    translate_from_restart env fuel
      (mk_jit_vm (clear_hot <$> jheap (start_vm l st v)) (block_cache v)) l (flushed s)
  else Some (resolved s, mk_jit_vm (alter (with_hot true) l (jheap (start_vm l st v))) (block_cache v)).
Proof using Type. reflexivity. Qed.

Lemma restart_translated v st :
  fits_tables v C U -> jit_ok st -> keys st ⊆ U -> block_cache v !! pc = Some l -> pc ∉ keys st ->
  second_pass_fits v st ->
  exists st' v', translate_from_restart env 2 v l st = Some (st', v') /\ translated U v l pc st' v'.
Proof using Hpc Y HE RIO SFT.
  intros Ft Hok Hk Hl Hn Hfit. destruct (pass_ends base ext y Y env HE prog v C U l pc st Ft Hok Hk Hpc Hl) as (st1 & E1 & R1).
  rewrite restart_unfold, E1. cbn [mbind option_bind]. destruct (should_flush st1) eqn:F1.
  - specialize (Hfit st1 E1 F1). cbv zeta in Hfit.
    set (v1 := mk_jit_vm (clear_hot <$> _) _) in *.
    assert (same_vm v v1) as Hs1.
    { etrans; [apply (same_vm_alter v (with_offset (offset (js st))) l); done|apply same_vm_clear]. }
    destruct R1 as (new & Ch & _).
    assert (jit_ok (flushed st1)) as Hok1 by (by eapply flushed_ok; [by apply start_pass_ok|]).
    assert (keys (flushed st1) ⊆ U) as Hk1 by (intros k Hk1; by apply elem_of_nil in Hk1).
    assert (pc ∉ keys (flushed st1)) as Hn1 by apply not_elem_of_nil.
    pose proof (fits_same _ _ _ _ _ Hs1 Ft) as Ft1.
    destruct (pass_ends base ext y Y env HE prog v1 C U l pc (flushed st1) Ft1 Hok1 Hk1 Hpc Hl) as (st2 & E2 & R2).
    rewrite restart_unfold, E2. cbn [mbind option_bind]. rewrite (Hfit st2 E2).
    eexists _, _. split; [reflexivity|].
    pose proof (pass_done v1 (flushed st1) st2 Ft1 Hok1 Hk1 Hl Hn1 R2 (Hfit st2 E2)) as [T1 T2 T3 T4].
    split; [exact T1|exact T2|by etrans|exact T4].
  - eexists _, _. split; [reflexivity|]. by apply pass_done.
Qed.

(** [jit_translate] ends with the block translated and the cache in order. *)
Lemma jit_translate_spec v st :
  fits_tables v C U -> jit_ok st -> keys st ⊆ U -> block_cache v !! pc = Some l ->
  second_pass_fits v st ->
  exists st' v', jit_translate env 2 v l st = Some (st', v') /\ translated U v l pc st' v'.
Proof using Hpc Y HE RIO SFT.
  intros Ft Hok Hk Hl Hfit.
  destruct (rg_block _ _ (ft_region _ _ _ _ Ft) pc Hpc) as (b & (l' & Hl' & Hb) & Epc & _).
  rewrite Hl in Hl'. injection Hl' as <-. unfold jit_translate. rewrite Hb. cbn [mbind option_bind]. rewrite Epc.
  rewrite (set_has_spec _ (keys st)); [|apply Hok|apply Hok|].
  2: { apply (buckets_fit_sub (keys st) U); [apply Hok|done|apply Ft]. }
  cbn [mbind option_bind]. destruct (bool_decide_reflect (pc ∈ keys st)) as [Hin|Hn]; [|by apply restart_translated].
  destruct (find_offset_key pc _ Hin) as [o Ho]. rewrite Ho. cbn [mbind option_bind].
  eexists _, _. split; [reflexivity|]. split; [done|done|by apply same_vm_alter|].
  eexists. cbn. rewrite lookup_alter_eq, Hb. by cbn.
Qed.
End Restart.

(** The states of the translator while the emulator runs: as [jit_state_init] makes it for a code
    buffer of [size] bytes, and after any sequence of translations.  [U] holds the addresses of all
    the blocks that are ever translated.  Each translation is of a region [C] of blocks closed
    under links, whose instructions the proofs support ([supported]), that fits the fixed tables
    of the translator and whose code fits the empty buffer. *)
Inductive jit_reachable (U : list Z) : jst -> Prop :=
  | reach_init size retpoline st :
      32 <= size < 2 ^ 31 -> 0 <= retpoline <= size ->
      jit_state_init size retpoline = Some st -> jit_reachable U st
  | reach_translate C l pc v st st' v' :
      jit_reachable U st -> pc ∈ C -> fits_tables v C U -> block_cache v !! pc = Some l ->
      second_pass_fits l v st -> jit_translate env 2 v l st = Some (st', v') -> jit_reachable U st'.

Lemma jit_reachable_ok U st : jit_reachable U st -> jit_ok st /\ keys st ⊆ U.
Proof using Y HE RIO SFT.
  induction 1 as [size retpoline st Hsz Hret E|C l pc v st st' v' _ [Hok Hk] Hpc Ft Hl Hfit E].
  - destruct (jit_state_init_ok base ext y prog size retpoline Hsz Hret) as (st0 & E0 & Hok & Hm).
    rewrite E in E0. injection E0 as <-. split; [done|]. unfold keys. rewrite Hm. intros k Hk.
    by apply elem_of_nil in Hk.
  - destruct (jit_translate_spec C U l pc Hpc v st Ft Hok Hk Hl Hfit) as (st1 & v1 & E1 & []).
    rewrite E in E1. by injection E1 as <- <-.
Qed.

End Translate.

#[local] Existing Instances quiet_io quiet_io_laws zero_softfloat zero_softfloat_laws.
(** The first pass over the sample fits the buffer. *)
Lemma sample_first_pass :
  match jit_state_init 8192 0 with
  | Some st =>
      match translate_chained_block sample_env chain_fuel (start_vm 1 st sample_vm) 1 (start_pass st) with
      | Some (_, st1) => should_flush st1
      | None => true
      end
  | None => true
  end = false.
Proof. vm_compute. reflexivity. Qed.
Lemma sample_pass_fits st :
  jit_state_init 8192 0 = Some st -> second_pass_fits sample_env 1 sample_vm st.
Proof.
  intros E st1 E1 F1. pose proof sample_first_pass as Hp. rewrite E, E1, F1 in Hp. discriminate Hp.
Qed.
Lemma keys_empty st U : offset_map (js st) = [] -> keys st ⊆ U.
Proof. unfold keys. intros -> k Hk. by apply elem_of_nil in Hk. Qed.
(** The sample program is translated from the initial state. *)
Lemma sample_reachable :
  exists st st' v', jit_state_init 8192 0 = Some st /\
    jit_reachable sample_env sample_prog sample_region st /\
    jit_translate sample_env 2 sample_vm 1 st = Some (st', v') /\
    jit_reachable sample_env sample_prog sample_region st'.
Proof.
  destruct (jit_state_init_ok 0x100000 (fun _ _ => None) sample_layout sample_prog 8192 0)
    as (st & E & Hok & Hm); [lia|lia|].
  assert (jit_reachable sample_env sample_prog sample_region st) as Hr
    by (apply (reach_init _ _ _ 8192 0 st); [lia|lia|exact E]).
  assert (0x1000 ∈ sample_region) as Hin by apply list_elem_of_here.
  assert (block_cache sample_vm !! 0x1000 = Some 1) as Hc by reflexivity.
  destruct (jit_translate_spec 0x100000 (fun _ _ => None) sample_layout sample_layout_ok sample_env eq_refl
    sample_prog sample_region sample_region 1 0x1000 Hin sample_vm st sample_fits Hok) as (st' & v' & E' & _).
  { exact (keys_empty st sample_region Hm). }
  { exact Hc. }
  { exact (sample_pass_fits st E). }
  exists st, st', v'. split; [exact E|]. split; [exact Hr|]. split; [exact E'|].
  eapply reach_translate; [exact Hr|exact Hin|exact sample_fits|exact Hc|exact (sample_pass_fits st E)|exact E'].
Qed.
