(* ===== verification/JitCall.v ===== *)
(** Running generated code: the prologue and the epilogue of the code buffer, which save and
    restore the registers that a callee keeps, sequences of blocks, and the call of the code buffer
    from [rv_step]. *)

From S2P Require Import Prelude.
From S2P Require Import Opcode.
From S2P Require Import Decode.
From S2P Require Import Machine.
From S2P Require Import Interp.
From S2P Require Import MachineFacts.
From S2P Require Import Invariant.
From S2P Require Import Utils.
From S2P Require Import UtilsProofs.
From S2P Require Import JitEmit.
From S2P Require Import JitAlloc.
From S2P Require Import JitGen.
From S2P Require Import X86.
From S2P Require Import X86Proofs.
From S2P Require Import JitEmitProofs.
From S2P Require Import JitCode.
From S2P Require Import JitRel.
From S2P Require Import JitAllocProofs.
From S2P Require Import JitSim.
From S2P Require Import JitInsn.
From S2P Require Import JitJump.
From S2P Require Import JitLeave.
From S2P Require Import JitDispatch.
From S2P Require Import JitTerm.
From S2P Require Import JitBlock.
From S2P Require Import JitStatic.
From S2P Require Import JitChain.
From S2P Require Import JitNative.
From S2P Require Import JitInit.
From S2P Require Import JitTranslate.

Lemma wp_app l1 l2 Q : forall x, wp l1 (wp l2 Q) x -> wp (l1 ++ l2) Q x.
Proof.
  induction l1 as [|i l1 IH]; intros x H; [done|]. cbn [app wp] in *. intros n k.
  destruct (H n k) as (z & Ez & Hz). exists z. auto.
Qed.
Lemma wp_weaken l (Q Q' : xstate -> Prop) : (forall x, Q x -> Q' x) -> forall x, wp l Q x -> wp l Q' x.
Proof.
  intros HQ. induction l as [|i l IH]; intros x H; [by apply HQ|]. cbn [wp] in *. intros n k.
  destruct (H n k) as (z & Ez & Hz). exists z. auto.
Qed.

(** * Pushing and popping *)


(** The registers [rs] have been pushed. *)
Record pushed (rs : list Z) (x z : xstate) : Prop := {
  pu_len : length (xregs z) = 16%nat;
  pu_sp : xreg z RSP = xreg x RSP - 8 * Z.of_nat (length rs);
  pu_regs : forall r, is_xreg r -> r <> RSP -> xreg z r = xreg x r;
  pu_saved : forall i r, rs !! i = Some r -> hload 8 (xmem z) (xreg x RSP - 8 * (Z.of_nat i + 1)) = Some (xreg x r);
  pu_other : forall a, a < xreg x RSP - 8 * Z.of_nat (length rs) \/ xreg x RSP <= a -> xmem z !! a = xmem x !! a;
  pu_mapped : forall a, is_Some (xmem x !! a) -> is_Some (xmem z !! a) }.

Lemma wp_pushes rs : forall x,
  length (xregs x) = 16%nat -> is_u64 (xreg x RSP) -> 8 * Z.of_nat (length rs) <= xreg x RSP ->
  Forall (fun r => is_xreg r /\ r <> RSP /\ is_u64 (xreg x r)) rs ->
  (forall a, xreg x RSP - 8 * Z.of_nat (length rs) <= a < xreg x RSP -> is_Some (xmem x !! a)) ->
  wp (Push <$> rs) (pushed rs x) x.
Proof.
  induction rs as [|r rs IH]; intros x HL Hsp Hroom Hrs Hm.
  - cbn. split; try done; cbn; lia.
  - apply Forall_cons in Hrs as [(Hr & Hn & Hv) Hrs]. cbn [length] in *. change RSP with 4 in *.
    assert (u64 (xreg x 4 - 8) = xreg x 4 - 8) as Esp by (apply u64_small; unfold is_u64 in *; lia).
    destruct (hstore_is_Some 8 (xmem x) (xreg x 4 - 8) (xreg x r)) as [m Em]; [intros; apply Hm; lia|].
    cbn [fmap list_fmap wp]. intros n k.
    exists (set_xmem m (set_xreg 4 (xreg x 4 - 8) x)). split.
    { cbn [exec]. unfold push. rewrite Esp, Em. done. }
    set (x1 := set_rip k _).
    assert (xreg x1 4 = xreg x 4 - 8) as E4 by (apply xreg_set_eq; done).
    assert (forall r', is_xreg r' -> r' <> 4 -> xreg x1 r' = xreg x r') as Er.
    { intros r' ? ?. apply (xreg_set_ne 4 r'); done || congruence. }
    eapply wp_weaken; [|apply (IH x1)].
    + intros z [Z1 Z2 Z3 Z4 Z5 Z6]. change RSP with 4 in Z2, Z3, Z4, Z5. rewrite E4 in Z2, Z4, Z5. split; change RSP with 4; try done.
      * rewrite Z2. cbn [length]. change RSP with 4. lia.
      * intros r' ? ?. rewrite Z3 by done. by apply Er.
      * intros [|i] r' Hi; cbn in Hi.
        -- injection Hi as <-. change RSP with 4.
           rewrite (hload_ext 8 m (xmem z)).
           ++ replace (xreg x 4 - 8 * (Z.of_nat 0 + 1)) with (xreg x 4 - 8) by lia.
              rewrite (hload_hstore_same _ _ _ _ _ Em). f_equal. by apply u64_small.
           ++ intros b Hb. apply Z5. lia.
        -- change RSP with 4. replace (xreg x 4 - 8 * (Z.of_nat (S i) + 1)) with (xreg x 4 - 8 - 8 * (Z.of_nat i + 1)) by lia.
           rewrite (Z4 i r' Hi). f_equal. rewrite Forall_forall in Hrs.
           destruct (Hrs r') as (? & ? & _); [by eapply list_elem_of_lookup_2|]. by apply Er.
      * intros a Ha. cbn [length] in Ha. change RSP with 4 in *. rewrite Z5 by lia.
        apply (hstore_lookup_other _ _ _ _ _ _ Em). lia.
      * intros a Ha. apply Z6. by apply (hstore_dom _ _ _ _ _ _ Em).
    + cbn. by rewrite length_insert.
    + change RSP with 4. rewrite E4. unfold is_u64 in *. lia.
    + change RSP with 4. rewrite E4. lia.
    + apply (Forall_impl _ _ _ Hrs). intros r' (? & ? & ?). change RSP with 4 in *. by rewrite Er.
    + change RSP with 4. rewrite E4. intros a Ha. apply (hstore_dom _ _ _ _ _ _ Em), Hm. lia.
Qed.

(** The values [vs] are at the top of the stack, for the registers [rs]. *)
Record popped (rvs : list (Z * Z)) (x z : xstate) : Prop := {
  po_len : length (xregs z) = 16%nat;
  po_sp : xreg z RSP = xreg x RSP + 8 * Z.of_nat (length rvs);
  po_regs : forall r v, (r, v) ∈ rvs -> xreg z r = v;
  po_mem : xmem z = xmem x }.
Lemma wp_pops rvs : forall x,
  length (xregs x) = 16%nat -> 0 <= xreg x RSP -> is_u64 (xreg x RSP + 8 * Z.of_nat (length rvs)) ->
  NoDup (fst <$> rvs) -> Forall (fun rv => is_xreg (fst rv) /\ fst rv <> RSP) rvs ->
  (forall i r v, rvs !! i = Some (r, v) -> hload 8 (xmem x) (xreg x RSP + 8 * Z.of_nat i) = Some v) ->
  wp (Pop <$> (fst <$> rvs)) (fun z => popped rvs x z /\
    forall r, is_xreg r -> r <> RSP -> r ∉ (fst <$> rvs) -> xreg z r = xreg x r) x.
Proof.
  induction rvs as [|[r v] rvs IH]; intros x HL Hsp Hu HN Hrs Hm.
  - cbn. split; [|done]. split; try done; [cbn; lia|]. intros r v []%elem_of_nil.
  - cbn [fmap list_fmap fst] in *. apply NoDup_cons in HN as [Hr HN]. apply Forall_cons in Hrs as [[Hx Hn] Hrs].
    cbn [length fst] in *. change RSP with 4 in *. pose proof (Hm 0%nat r v eq_refl) as H0. rewrite Z.add_0_r in H0.
    assert (u64 (xreg x 4 + 8) = xreg x 4 + 8) as Esp by (apply u64_small; unfold is_u64 in *; lia).
    cbn [wp]. intros n k. eexists. split.
    { cbn [exec]. unfold pop. rewrite H0. cbn [mbind option_bind]. rewrite Esp. reflexivity. }
    set (x1 := set_rip k _).
    assert (xreg x1 4 = xreg x 4 + 8) as E4.
    { unfold x1. rewrite xreg_rip, xreg_set_ne, xreg_set_eq; done. }
    assert (xreg x1 r = v) as E1.
    { unfold x1. rewrite xreg_rip, xreg_set_eq; try done. cbn. by rewrite length_insert. }
    assert (forall r', is_xreg r' -> r' <> 4 -> r' <> r -> xreg x1 r' = xreg x r') as Er.
    { intros r' ? ? ?. unfold x1. rewrite xreg_rip, !xreg_set_ne; try done; congruence. }
    eapply wp_weaken; [|apply (IH x1)].
    + intros z [[Z1 Z2 Z3 Z4] Z5]. split.
      * split; try done.
        -- rewrite Z2. change RSP with 4. rewrite E4. cbn [length]. lia.
        -- intros r' v' [[= -> ->]|Hin]%elem_of_cons; [|by apply Z3]. rewrite Z5; done.
      * intros r' ? ? [? ?]%not_elem_of_cons. rewrite Z5 by done. by apply Er.
    + cbn. by rewrite !length_insert.
    + change RSP with 4. rewrite E4. lia.
    + change RSP with 4. rewrite E4. unfold is_u64 in *. lia.
    + done.
    + done.
    + intros i r' v' Hi. change RSP with 4. rewrite E4. cbn [xmem x1 set_rip set_xreg].
      replace (xreg x 4 + 8 + 8 * Z.of_nat i) with (xreg x 4 + 8 * Z.of_nat (S i)) by lia. by apply (Hm (S i) r').
Qed.

(** * Sequences of blocks *)

Section Call.
Context `{RIO : riscv_io_laws} `{SFT : softfloat_laws}.
Context (base : Z) (ext : Z -> xstate -> option xstate).
Context (y : host_layout) (Y : layout_ok y) (prog : gmap Z jit_block).

(** The interpreter runs the block of the program at [pc], which is no address that the
    translator uses as a mark. *)
Definition guest_block (s : riscv) (pc : Z) (s' : riscv) (pc' : Z) : Prop :=
  exists b c, prog !! pc = Some b /\ block_run y b s c s' pc' /\
    pc' <> TARGET_PC_EXIT /\ pc' <> TARGET_PC_RETPOLINE.
Inductive guest_run : nat -> riscv -> Z -> riscv -> Z -> Prop :=
  | guest_run_nil s pc : guest_run 0 s pc s pc
  | guest_run_cons n s pc s1 pc1 s2 pc2 :
      guest_block s pc s1 pc1 -> guest_run n s1 pc1 s2 pc2 -> guest_run (S n) s pc s2 pc2.

Context (st : jst) (Hok : jit_ok base ext y prog st).
#[local] Abbreviation code := (buf (js st)).
#[local] Abbreviation offset_of pc := (find_offset pc (offset_map (js st))).

(** The machine is at the code of the block, with the guest in memory. *)
Record at_block (fr : host_frame) (s : riscv) (pc : Z) (x : xstate) : Prop := {
  ab_home : home y fr s x;
  ab_code : exists o, offset_of pc = Some o /\ rip x = base + o }.
(** The machine is at the epilogue, with the address of the next block stored. *)
Record at_exit (fr : host_frame) (s : riscv) (pc : Z) (x : xstate) : Prop := {
  ax_home : home y fr s x;
  ax_pc : pc_stored y pc x;
  ax_code : rip x = base + exit_loc (js st) }.

Lemma native_block fr s pc s' pc' x :
  at_block fr s pc x -> guest_block s pc s' pc' ->
  exists x', xsteps base ext code x x' /\ (at_exit fr s' pc' x' \/ at_block fr s' pc' x').
Proof using Hok.
  intros [Hh (o & Ho & Hx)] (b & c & Hb & Hrun & Hn1 & Hn2).
  destruct (find_offset_in _ _ _ Ho) as (e & He & Epc & Eo).
  pose proof (jo_code _ _ _ _ _ Hok) as Hc. rewrite Forall_forall in Hc.
  destruct (Hc e He) as (_ & b' & Hb' & Hcode). rewrite Epc, Hb in Hb'. injection Hb' as <-. rewrite Eo in Hcode.
  set (E := fun p z => home y fr s' z /\ (p = TARGET_PC_EXIT /\ pc_stored y pc' z \/ p = pc')).
  destruct (Hcode (mk_run E fr s c s' pc')) as (l & rr & Hl & _ & Hrr & Hex & Hs).
  { split; [done|]. split; cbn; unfold E; auto. }
  destruct (Hs code rr x (coded_code _ _ _ _ Hl) Hex Hx Hh) as (x' & Hsteps & [[_ []]|(p & q & Hq & Hr & HE)]).
  exists x'. split; [done|]. apply Hrr in Hq. unfold rho in Hq. destruct HE as [Hh' [[-> Hpc]| ->]].
  - left. cbn in Hq. injection Hq as <-. by split.
  - right. rewrite (proj2 (Z.eqb_neq _ _) Hn1), (proj2 (Z.eqb_neq _ _) Hn2) in Hq. split; [done|]. eauto.
Qed.

(** Code of the cache runs a sequence of blocks to its end, or to the first block that has no
    code, where it leaves through the epilogue. *)
Lemma native_run n : forall fr s pc s' pc' x,
  at_block fr s pc x -> guest_run n s pc s' pc' ->
  exists x', xsteps base ext code x x' /\
    (at_block fr s' pc' x' \/
     exists k s1 pc1, (0 < k <= n)%nat /\ guest_run k s pc s1 pc1 /\ at_exit fr s1 pc1 x').
Proof using Hok.
  induction n as [|n IH]; intros fr s pc s' pc' x Hx Hrun; inversion Hrun; subst.
  { exists x. split; [apply rtc_refl|by left]. }
  rename s1 into s0, pc1 into pc0.
  destruct (native_block fr s pc s0 pc0 x) as (x1 & Hs1 & [H1|H1]); [done..| |].
  - exists x1. split; [done|]. right. exists 1%nat, s0, pc0. split; [lia|]. split; [|done].
    econstructor; [done|constructor].
  - destruct (IH fr s0 pc0 s' pc' x1) as (x2 & Hs2 & Hend); [done..|]. exists x2. split; [by etrans|].
    destruct Hend as [He|(k & s2 & pc2 & Hk & Hr & He)]; [by left|right].
    exists (S k), s2, pc2. split; [lia|]. split; [|done]. by econstructor.
Qed.

(** * The call from [rv_step] *)

(** The emulator state and RAM in host memory. *)
Record at_rest (s : riscv) (m : gmap Z Z) : Prop := {
  re_regs : forall v, is_reg v -> hload 4 m (xaddr y v) = Some (reg s v);
  re_rv : forall a, in_rv y a -> is_Some (m !! a);
  re_ram : forall a, 0 <= a < ram_size y -> m !! (ram_ptr y + a) = Some (byte_at (mem s) a) }.
Definition outside (a : Z) : Prop := ~ in_rv y a /\ ~ in_guest_ram y a.

(** The state in which the buffer is called with the emulator and the code of the block. *)
Record called (s : riscv) (pc ret : Z) (x : xstate) : Prop := {
  ca_rip : rip x = base;
  ca_len : length (xregs x) = 16%nat;
  ca_regs : forall r, is_xreg r -> is_u64 (xreg x r);
  ca_rdi : xreg x RDI = rv_ptr y;
  ca_rsi : exists o, offset_of pc = Some o /\ xreg x RSI = base + o;
  ca_rest : at_rest s (xmem x);
  ca_room : 552 <= xreg x RSP < 0x10000000000000000 - 8;
  ca_stack : forall a, xreg x RSP - 40 <= a < xreg x RSP + 8 -> is_Some (xmem x !! a) /\ outside a;
  ca_ret : hload 8 (xmem x) (xreg x RSP) = Some ret }.
(** The state after the return. *)
Record returned (x : xstate) (s : riscv) (pc ret : Z) (z : xstate) : Prop := {
  rt_rip : rip z = ret;
  rt_sp : xreg z RSP = xreg x RSP + 8;
  rt_saved : forall r, r ∈ nonvolatile_reg -> xreg z r = xreg x r;
  rt_rest : at_rest s (xmem z);
  rt_pc : pc_stored y pc z;
  rt_other : forall a, outside a -> a < xreg x RSP - 40 \/ xreg x RSP <= a -> xmem z !! a = xmem x !! a }.

(** What the prologue leaves on the stack. *)
Record entered (x : xstate) (fr : host_frame) : Prop := {
  en_bp : fr_bp fr = xreg x RSP - 40;
  en_saved : forall i r, nonvolatile_reg !! i = Some r ->
    hload 8 (fr_mem fr) (xreg x RSP - 8 * (Z.of_nat i + 1)) = Some (xreg x r);
  en_other : forall a, a < xreg x RSP - 40 \/ xreg x RSP <= a -> fr_mem fr !! a = xmem x !! a }.

Lemma coded_insns B r r' l : forall off, coded B r off (SI <$> l) -> coded B r' off (SI <$> l).
Proof using Type.
  induction l as [|i l IH]; intros off; [done|]. cbn [fmap list_fmap coded sres].
  intros (? & ? & ? & ? & ?). repeat (split; [done|]). by apply IH.
Qed.
(** Straight-line code of the buffer, and then one more instruction. *)
Lemma steps_insns l i off x (Q : xstate -> Prop) :
  coded code (fun _ => None) off (SI <$> l ++ [i]) -> rip x = base + off -> wp l Q x ->
  exists z n, xsteps base ext code x z /\ Q z /\
    (forall a w, exec i n z = Some (Goto a w) -> xsteps base ext code x (set_rip a w)).
Proof using Type.
  intros Hc Hr Hw. apply (coded_insns _ _ (fun _ => Some 0)), coded_code in Hc. rewrite fmap_app in Hc.
  apply code_in_app in Hc as [H1 H2].
  destruct (sim_insns base ext (fun _ _ => False) l off (fun z => z = x) Q ltac:(by intros ? ->)
    code (fun _ => Some 0) x H1 ltac:(by eexists) Hr eq_refl) as (z & Hz & [[Hzr HQ]|(? & ? & _ & _ & [])]).
  exists z. eexists. split; [done|]. split; [done|]. intros a w Ew. etrans; [exact Hz|]. apply rtc_once.
  rewrite (xstep_code base ext code _ (off + csize (SI <$> l)) (SI i) [] z H2) by lia. cbn [sres].
  rewrite Ew. done.
Qed.

Lemma at_rest_ext s m m' :
  at_rest s m -> (forall a, ~ outside a -> m' !! a = m !! a) -> at_rest s m'.
Proof using Type.
  intros [R1 R2 R3] Hm. assert (forall a, in_rv y a -> m' !! a = m !! a) as Hrv by (intros a Ha; apply Hm; unfold outside; tauto).
  split.
  - intros v Hv. rewrite (hload_ext 4 m); [by apply R1|]. intros b Hb. apply Hrv.
    unfold in_rv, xaddr, is_reg, offsetof_PC in *. lia.
  - intros a Ha. rewrite Hrv by done. auto.
  - intros a Ha. rewrite Hm; [by apply R3|]. unfold outside, in_guest_ram. lia.
Qed.

(** The prologue. *)
Lemma enter s pc ret x :
  called s pc ret x -> exists fr x1, xsteps base ext code x x1 /\ at_block fr s pc x1 /\ entered x fr.
Proof using Hok.
  intros [Hrip HL Hu Hrdi (o & Ho & Hrsi) Hrest Hroom Hst Hret].
  pose proof (fr_entry _ (jo_framed _ _ _ _ _ Hok)) as Hc.
  set (sp := xreg x RSP) in *.
  set (Q := fun z => exists m, pushed nonvolatile_reg x m /\ length (xregs z) = 16%nat /\ xmem z = xmem m /\
    xreg z RSP = sp - 552 /\ xreg z RBP = sp - 40 /\ xreg z RDI = xreg x RDI /\ xreg z RSI = xreg x RSI).
  destruct (steps_insns entry_insns (JmpR RSI) 0 x Q Hc) as (z & n & _ & (m & Hp & HLz & Em & Esp & Ebp & Edi & Esi) & Hgo).
  { lia. }
  { apply wp_app. eapply wp_weaken; [|apply wp_pushes].
    - intros m Hp. pose proof Hp as [Z1 Z2 Z3 _ _ _]. fold sp in Z2. change (Z.of_nat (length nonvolatile_reg)) with 5 in Z2.
      cbn [wp]. do 2 wp1. exists m. split; [done|]. cbn [exec_alu alu width].
      assert (u64 (xreg m RSP) = sp - 40) as E1 by (rewrite Z2, u64_small; unfold is_u64; lia).
      unfold exec_alu. cbn [alu]. xlook.
      split; [cbn; by rewrite !length_insert|]. split; [done|]. rewrite !E1, !Z3 by done.
      split; [|done]. change (u64 STACK_SIZE) with 512. rewrite u64_small; unfold is_u64; lia.
    - done.
    - apply Hu. done.
    - change (Z.of_nat (length nonvolatile_reg)) with 5. fold sp. lia.
    - unfold nonvolatile_reg. repeat (apply Forall_cons; split; [split; [done|split; [done|apply Hu; done]]|]). by apply Forall_nil.
    - intros a Ha. apply Hst. change (Z.of_nat (length nonvolatile_reg)) with 5 in Ha. fold sp in Ha. lia. }
  destruct Hp as [P1 P2 P3 P4 P5 P6]. fold sp in P5. change (Z.of_nat (length nonvolatile_reg)) with 5 in P5.
  exists (mk_host_frame (sp - 552) (sp - 40) (xmem m)), (set_rip (xreg z RSI) z).
  split; [by apply Hgo|]. split; [|by split]. split; [|exists o; split; [done|cbn; congruence]].
  assert (at_rest s (xmem m)) as [R1 R2 R3].
  { apply (at_rest_ext s (xmem x)); [done|]. intros a Ha. apply P5.
    destruct (decide (sp - 40 <= a < sp + 8)) as [D|D]; [by destruct (Hst a D)|lia]. }
  apply relx_rip. split; try done; rewrite ?Em; try done.
  - congruence.
  - intros h []%elem_of_nil.
  - intros v Hv _ _. by apply R1.
Qed.

(** The epilogue. *)
Lemma leave s0 pc0 ret x fr s pc x1 :
  called s0 pc0 ret x -> entered x fr -> at_exit fr s pc x1 ->
  exists z, xsteps base ext code x1 z /\ returned x s pc ret z.
Proof using Hok.
  intros [_ _ Hu _ _ _ Hroom Hst Hret] [Ebp Esaved Eother] [Hh Hpc Hrip].
  pose proof (fr_exit _ (jo_framed _ _ _ _ _ Hok)) as Hc. set (sp := xreg x RSP) in *.
  assert (forall a, sp - 40 <= a < sp + 8 -> xmem x1 !! a = fr_mem fr !! a) as Hstack.
  { intros a Ha. destruct (Hst a Ha) as [_ [? ?]]. by apply (rx_frame _ _ _ _ _ _ Hh). }
  set (rvs := (fun r => (r, xreg x r)) <$> reverse nonvolatile_reg).
  set (Q := fun z => popped rvs (set_xreg RSP (sp - 40) x1) z).
  destruct (steps_insns exit_insns Ret (exit_loc (js st)) x1 Q Hc Hrip) as (z & n & _ & HQ & Hgo).
  { unfold exit_insns. cbn [wp]. intros n k. eexists. split; [reflexivity|].
    assert (u64 (xreg x1 RBP) = sp - 40) as E1.
    { rewrite (rx_bp _ _ _ _ _ _ Hh), Ebp. apply u64_small. unfold is_u64. lia. }
    cbn [width]. rewrite E1. pose proof (rx_len _ _ _ _ _ _ Hh) as HL.
    change (reverse nonvolatile_reg) with (fst <$> rvs). set (x2 := set_rip k _).
    assert (xreg x2 RSP = sp - 40) as E2 by (by apply xreg_set_eq).
    eapply wp_weaken; [|apply (wp_pops rvs x2)].
    - intros z [[Z1 Z2 Z3 Z4] _]. by split.
    - cbn. by rewrite length_insert.
    - lia.
    - rewrite E2. change (Z.of_nat (length rvs)) with 5. unfold is_u64. lia.
    - apply (bool_decide_unpack _). by vm_compute.
    - unfold rvs, nonvolatile_reg. cbn. repeat (apply Forall_cons; split; [done|]). by apply Forall_nil.
    - rewrite E2. intros i r v Hi. change (xmem x2) with (xmem x1).
      unfold rvs in Hi. rewrite list_lookup_fmap in Hi. apply fmap_Some in Hi as (r' & Hi & [= -> ->]).
      assert (i < 5)%nat as Hlt by (apply lookup_lt_Some in Hi; exact Hi).
      rewrite (hload_ext 8 (fr_mem fr)) by (intros b Hb; apply Hstack; lia).
      replace (sp - 40 + 8 * Z.of_nat i) with (sp - 8 * (Z.of_nat (4 - i) + 1)) by lia.
      apply Esaved. rewrite <- Hi. destruct i as [|[|[|[|[|i]]]]]; try lia; done. }
  destruct HQ as [Z1 Z2 Z3 Z4]. rewrite xreg_set_eq in Z2 by (done || apply (rx_len _ _ _ _ _ _ Hh)).
  change (Z.of_nat (length rvs)) with 5 in Z2. change (xmem (set_xreg RSP (sp - 40) x1)) with (xmem x1) in Z4.
  assert (hload 8 (xmem z) (xreg z 4) = Some ret) as Hr.
  { change 4 with RSP. rewrite Z2, Z4. replace (sp - 40 + 8 * 5) with sp by lia. rewrite <- Hret.
    apply hload_ext. intros b Hb. rewrite Hstack by lia. apply Eother. lia. }
  eexists. split.
  { apply Hgo. cbn [exec]. unfold pop. rewrite Hr. reflexivity. }
  assert (xreg z RSP + 8 = sp + 8) as Esp by lia.
  split.
  - done.
  - rewrite xreg_rip. change (xreg z 4) with (xreg z RSP). rewrite Esp.
    rewrite xreg_set_eq by done. apply u64_small. unfold is_u64. lia.
  - intros r Hr'. rewrite xreg_rip, xreg_set_ne.
    + apply Z3. unfold rvs. apply list_elem_of_fmap. exists r. split; [done|]. by apply elem_of_reverse.
    + done.
    + unfold nonvolatile_reg in Hr'. rewrite !elem_of_cons, elem_of_nil in Hr'. destruct_or! Hr'; subst r; done.
    + unfold nonvolatile_reg in Hr'. rewrite !elem_of_cons, elem_of_nil in Hr'. destruct_or! Hr'; subst r; done.
  - cbn [xmem set_rip set_xreg]. rewrite Z4. destruct Hh. split; auto. intros v Hv. apply rx_mem; [done| |by right; intros h []%elem_of_nil].
    apply not_elem_of_nil.
  - unfold pc_stored in *. cbn [xmem set_rip set_xreg]. by rewrite Z4.
  - intros a [Ho1 Ho2] Ha. cbn [xmem set_rip set_xreg]. rewrite Z4.
    rewrite (rx_frame _ _ _ _ _ _ Hh) by done. by apply Eother.
Qed.

(** A call of the buffer does the work of one or more blocks of the guest and returns, unless the
    blocks of the run all have code that links to the next. *)
Lemma native_call n s pc s' pc' ret x :
  called s pc ret x -> guest_run n s pc s' pc' ->
  exists z, xsteps base ext code x z /\
    ((exists k s1 pc1, (0 < k <= n)%nat /\ guest_run k s pc s1 pc1 /\ returned x s1 pc1 ret z) \/
     exists fr, at_block fr s' pc' z).
Proof using Hok.
  intros Hx Hrun. destruct (enter s pc ret x Hx) as (fr & x1 & H1 & Hb & He).
  destruct (native_run n fr s pc s' pc' x1 Hb Hrun) as (x2 & H2 & [Hb2|(k & s1 & pc1 & Hk & Hr & Hex)]).
  - exists x2. split; [by etrans|]. right. by exists fr.
  - destruct (leave s pc ret x fr s1 pc1 x2 Hx He Hex) as (z & H3 & Hret). exists z.
    split; [etrans; [exact H1|]; by etrans|]. left. by exists k, s1, pc1.
Qed.

End Call.

Section Reachable.
Context `{RIO : riscv_io_laws} `{SFT : softfloat_laws}.
Context (base : Z) (ext : Z -> xstate -> option xstate).
Context (y : host_layout) (Y : layout_ok y) (env : jit_env) (HE : mem_base_ptr env = ram_ptr y).
Context (prog : gmap Z jit_block).

End Reachable.

(** * The sample program *)

#[local] Existing Instances quiet_io quiet_io_laws zero_softfloat zero_softfloat_laws.

Definition sample_after1 : riscv := set_last_pc 0x1010 (set_reg 2 12 (set_reg 1 5 sample_guest)).
Definition sample_after2 : riscv :=
  set_PC 0x1024 (set_csr_cycle 2 (set_reg 3 17 sample_after1)).
Lemma sample_run1 : block_run sample_layout sample_block1 sample_guest 0 sample_after1 0x1010.
Proof.
  split; [split; [apply reset_state_wf|done|done]|lia|done|]. reflexivity.
Qed.
Lemma sample_after1_guest : guest_ok sample_layout sample_after1.
Proof.
  split; [|done|done]. pose proof (reset_state_wf 16) as [H1 H2 H3 H4 H5 H6]. split; try done.
  - split; [done|]. cbn. repeat (apply Forall_cons; split; [unfold is_u32; lia|]). by apply Forall_nil.
Qed.
Lemma sample_run2 : block_run sample_layout sample_block2 sample_after1 0 sample_after2 0x1024.
Proof. split; [apply sample_after1_guest|lia|done|]. reflexivity. Qed.
Lemma sample_guest_run : guest_run sample_layout sample_prog 2 sample_guest 0x1000 sample_after2 0x1024.
Proof.
  econstructor; [|econstructor; [|constructor]].
  - exists sample_block1, 0. split; [done|]. split; [apply sample_run1|done].
  - exists sample_block2, 0. split; [done|]. split; [apply sample_run2|done].
Qed.

(** The host: the emulator state, guest RAM and the stack are zero; the buffer is at [0x100000]. *)
Definition sample_base : Z := 0x100000.
Definition sample_sp : Z := 0x30000.
Definition sample_dom : list Z :=
  seqZ (0x10000 + offsetof_X) 132 ++ seqZ 0x20000 16 ++ seqZ (sample_sp - 40) 48.
Definition sample_mem : gmap Z Z := gset_to_gmap 0 (list_to_set sample_dom).
Definition sample_machine (o : Z) : xstate :=
  mk_xstate [0; 0; 0; 0; sample_sp; 0; sample_base + o; 0x10000; 0; 0; 0; 0; 0; 0; 0; 0] None sample_mem sample_base.
Lemma sample_mem_zero a : a ∈ sample_dom -> sample_mem !! a = Some 0.
Proof. intros Ha. apply lookup_gset_to_gmap_Some. split; [|done]. by apply elem_of_list_to_set. Qed.
Lemma in_sample_dom a :
  0x10004 <= a < 0x10088 \/ 0x20000 <= a < 0x20010 \/ sample_sp - 40 <= a < sample_sp + 8 -> a ∈ sample_dom.
Proof. unfold sample_dom, offsetof_X. rewrite !elem_of_app, !elem_of_seqZ. lia. Qed.
Lemma sample_called st o :
  find_offset 0x1000 (offset_map (js st)) = Some o -> 0 <= o < 2 ^ 31 ->
  called sample_base sample_layout st sample_guest 0x1000 0 (sample_machine o).
Proof.
  intros Ho Hr. assert (forall a, 0x10004 <= a < 0x10088 \/ 0x20000 <= a < 0x20010 \/
    sample_sp - 40 <= a < sample_sp + 8 -> sample_mem !! a = Some 0) as Hz
    by (intros a Ha; by apply sample_mem_zero, in_sample_dom).
  unfold sample_sp in Hz. split.
  - reflexivity.
  - reflexivity.
  - intros r Hx. assert (Forall is_u64 (xregs (sample_machine o))) as Hall.
    { cbn. unfold sample_base, sample_sp.
      repeat (apply Forall_cons; split; [unfold is_u64; lia|]). by apply Forall_nil. }
    unfold xreg. rewrite nth_lookup. destruct (xregs _ !! _) eqn:El; cbn; [|unfold is_u64; lia].
    rewrite Forall_forall in Hall. apply Hall. by eapply list_elem_of_lookup_2.
  - reflexivity.
  - exists o. by split.
  - split; cbn [xmem sample_machine].
    + intros v Hv. assert (reg sample_guest v = 0) as -> by (unfold reg; cbn [X reset_state sample_guest]; apply nth_zeros).
      unfold xaddr, is_reg, offsetof_X in *. cbn [hload rv_ptr sample_layout].
      rewrite !Hz by lia. done.
    + intros a Ha. unfold in_rv, offsetof_PC, offsetof_X in Ha. cbn in Ha. rewrite Hz by lia. by eexists.
    + intros a Ha. cbn in Ha |- *. rewrite Hz by lia. by unfold byte_at.
  - change (xreg (sample_machine o) RSP) with 0x30000. lia.
  - change (xreg (sample_machine o) RSP) with 0x30000. intros a Ha. split.
    + cbn [xmem sample_machine]. rewrite Hz by lia. by eexists.
    + unfold outside, in_rv, in_guest_ram, offsetof_PC, offsetof_X. cbn. lia.
  - cbn [xmem sample_machine]. change (xreg (sample_machine o) RSP) with 0x30000. cbn [hload].
    rewrite !Hz by lia. done.
Qed.

Lemma offset_range base ext y prog st pc o :
  jit_ok base ext y prog st -> find_offset pc (offset_map (js st)) = Some o -> 0 <= o < 2 ^ 31.
Proof.
  intros [[[W1 W2 W3 _] _] _ _ _ _ [_ _ F1 _ _ _] _ Hc] (e & He & _ & <-)%find_offset_in.
  rewrite Forall_forall in Hc. destruct (Hc e He) as [Ho _]. pose proof (csize_nonneg entry_code). lia.
Qed.
Lemma sample_translated :
  exists st o, jit_reachable sample_env sample_prog sample_region st /\
    find_offset 0x1000 (offset_map (js st)) = Some o /\ 0 <= o < 2 ^ 31.
Proof.
  destruct sample_reachable as (st0 & st & v & E0 & Hr0 & E & Hr).
  destruct (jit_reachable_ok sample_base (fun _ _ => None) sample_layout sample_layout_ok sample_env eq_refl
    sample_prog sample_region st0 Hr0) as [Hok0 Hk0].
  assert (0x1000 ∈ sample_region) as Hin by apply list_elem_of_here.
  destruct (jit_translate_spec sample_base (fun _ _ => None) sample_layout sample_layout_ok sample_env eq_refl
    sample_prog sample_region sample_region 1 0x1000 Hin sample_vm st0 sample_fits Hok0 Hk0 eq_refl
    (sample_pass_fits st0 E0)) as (st' & v' & E' & [Hok _ _ (b & _ & _ & Ho)]).
  rewrite E in E'. injection E' as <- <-. exists st, (jb_offset b).
  exact (conj Hr (conj Ho (offset_range _ _ _ _ _ _ _ Hok Ho))).
Qed.
