(* ===== verification/T2cCache.v ===== *)
(** The tables through which the code of the tier-2 compiler finds the code of other blocks
    (t2c.c, jit.h), for the build with SYSTEM: [jit_cache], which the compile thread writes
    and generated code reads without a lock, and [inline_cache], which belongs to the thread
    that executes.  A pointer is a number, 0 is [NULL].

    The stores of a writer are values, so that they can be applied at once, which is what a
    thread that holds [cache_lock] does, or interleaved with the loads of a reader. *)

From S2P Require Import Prelude.
From S2P Require Import Mmu.

Definition N_JIT_CACHE_ENTRIES : Z := Z.shiftl 1 12.
Definition N_INLINE_CACHE_ENTRIES : Z := Z.shiftl 1 10.

Record jit_cache := mk_jit_cache { jc_seq : Z; jc_key : Z; jc_entry : Z }.
Record inline_cache := mk_inline_cache { ic_key : Z; ic_entry : Z }.

#[export] Instance jit_cache_eq_dec : EqDecision jit_cache.
Proof. solve_decision. Defined.
#[export] Instance inline_cache_eq_dec : EqDecision inline_cache.
Proof. solve_decision. Defined.

Definition jit_cache_init : list jit_cache :=
  replicate (Z.to_nat N_JIT_CACHE_ENTRIES) (mk_jit_cache 0 0 0).
Definition inline_cache_init : list inline_cache :=
  replicate (Z.to_nat N_INLINE_CACHE_ENTRIES) (mk_inline_cache 0 0).

(** * Writers *)

Inductive jc_store : Set :=
  | Store_seq (v : Z)
  | Store_entry (v : Z)
  | Store_key (v : Z).
Definition apply_store (c : jit_cache) (w : jc_store) : jit_cache :=
  match w with
  | Store_seq v => mk_jit_cache v (jc_key c) (jc_entry c)
  | Store_entry v => mk_jit_cache (jc_seq c) (jc_key c) v
  | Store_key v => mk_jit_cache (jc_seq c) v (jc_entry c)
  end.
(** The stores to one slot, given the sequence number that was loaded. *)
Definition update_stores (seq key entry : Z) : list jc_store :=
  [Store_seq (seq +u 1); Store_entry entry; Store_key key; Store_seq (seq +u 2)].
Definition write_slot (key entry : Z) (c : jit_cache) : jit_cache :=
  foldl apply_store c (update_stores (jc_seq c) key entry).

Definition jit_cache_pos (key : Z) : Z :=
  Z.land (Z.lxor (u32 key) (u32 (Z.shiftr key 32))) (N_JIT_CACHE_ENTRIES - 1).
Definition jit_cache_update (cache : list jit_cache) (key entry : Z) : list jit_cache :=
  alter (write_slot key entry) (Z.to_nat (jit_cache_pos key)) cache.
Definition jit_cache_clear (cache : list jit_cache) : list jit_cache := write_slot 0 0 <$> cache.

(** [va & ~(RV_PG_SIZE - 1)] *)
Definition va_page (va : Z) : Z := va &u ~u (RV_PG_SIZE - 1).
(** The entry belongs to the page in the address space. *)
Definition key_in_page (va satp key : Z) : bool :=
  negb (key =? 0) && (u32 (Z.shiftr key 32) =? satp) && (va_page (u32 key) =? va_page va).
Definition jit_cache_clear_page (cache : list jit_cache) (va satp : Z) : list jit_cache :=
  (fun c => if key_in_page va satp (jc_key c) then write_slot 0 0 c else c) <$> cache.

Definition inline_cache_clear (cache : list inline_cache) : list inline_cache :=
  (fun _ => mk_inline_cache 0 0) <$> cache.
Definition inline_cache_clear_page (cache : list inline_cache) (va satp : Z) : list inline_cache :=
  (fun c => if key_in_page va satp (ic_key c) then mk_inline_cache 0 0 else c) <$> cache.
Definition inline_cache_clear_key (cache : list inline_cache) (key : Z) : list inline_cache :=
  if key =? 0 then cache
  else (fun c => if ic_key c =? key then mk_inline_cache 0 0 else c) <$> cache.

(** * Lookup in generated code

    What the code that [t2c_jit_cache_helper] generates computes for a jump to [addr] in the
    address space [satp]. *)

Definition target_key (addr satp : Z) : Z := u64 (addr + Z.shiftl satp 32).
Definition target_mix (addr satp : Z) : Z := Z.lxor (Z.lxor addr (Z.shiftr addr 12)) satp.
Definition ic_index (addr satp : Z) : Z := Z.land (target_mix addr satp) (N_INLINE_CACHE_ENTRIES - 1).
Definition jc_index (addr satp : Z) : Z := Z.land (target_mix addr satp) (N_JIT_CACHE_ENTRIES - 1).

(** The slow path, when no other thread writes in between. *)
Definition jc_hit (c : jit_cache) (key : Z) : bool :=
  (Z.land (jc_seq c) 1 =? 0) && (jc_key c =? key) && negb (jc_entry c =? 0).
(** The entry that is called, if any, and the inline cache afterwards. *)
Definition resolve_indirect (jc : list jit_cache) (ic : list inline_cache) (addr satp : Z)
    : option (option Z * list inline_cache) :=
  let key := target_key addr satp in
  i ← ic !! Z.to_nat (ic_index addr satp);
  if (ic_key i =? key) && negb (ic_entry i =? 0) then Some (Some (ic_entry i), ic)
  else
    c ← jc !! Z.to_nat (jc_index addr satp);
    if jc_hit c key
    then Some (Some (jc_entry c),
               <[Z.to_nat (ic_index addr satp) := mk_inline_cache key (jc_entry c)]> ic)
    else Some (None, ic).

(** * A reader and a writer

    One slot, a writer that updates it again and again, and the generated code that reads
    it.  Loads and stores are atomic and happen in the order of the program; this is what the
    acquire loads and release stores of both sides ask for. *)

Inductive reader : Set :=
  | R_start
  | R_seq (seq1 : Z)                  (* seq loaded and even *)
  | R_key (seq1 : Z)                  (* key loaded and equal to the expected one *)
  | R_entry (seq1 entry : Z)          (* entry loaded *)
  | R_call (entry : Z)
  | R_fallback.

(** [begun] counts the updates the writer has begun, [seen] its value at the load of [seq1]. *)
Record shared := mk_shared {
  slot : jit_cache; pending : list jc_store; rdr : reader; begun : nat; seen : nat }.

Definition writer_begin (key entry : Z) (s : shared) : shared :=
  mk_shared (slot s) (update_stores (jc_seq (slot s)) key entry) (rdr s) (S (begun s)) (seen s).
Definition writer_store (w : jc_store) (l : list jc_store) (s : shared) : shared :=
  mk_shared (apply_store (slot s) w) l (rdr s) (begun s) (seen s).
Definition reader_step (expected : Z) (s : shared) : shared :=
  let go r := mk_shared (slot s) (pending s) r (begun s) (seen s) in
  match rdr s with
  | R_start =>
      mk_shared (slot s) (pending s)
        (if Z.land (jc_seq (slot s)) 1 =? 0 then R_seq (jc_seq (slot s)) else R_fallback)
        (begun s) (begun s)
  | R_seq seq1 => go (if jc_key (slot s) =? expected then R_key seq1 else R_fallback)
  | R_key seq1 => go (R_entry seq1 (jc_entry (slot s)))
  | R_entry seq1 e =>
      go (if (seq1 =? jc_seq (slot s)) && negb (e =? 0) then R_call e else R_fallback)
  | R_call _ | R_fallback => s
  end.

(** [legit] are the pairs of key and entry the writer may store. *)
Inductive seqlock_step (legit : Z -> Z -> Prop) (expected : Z) : shared -> shared -> Prop :=
  | Writer_begin s key entry :
      pending s = [] -> legit key entry -> seqlock_step legit expected s (writer_begin key entry s)
  | Writer_store s w l :
      pending s = w :: l -> seqlock_step legit expected s (writer_store w l s)
  | Reader_step s : seqlock_step legit expected s (reader_step expected s).
