(* ===== verification/T2cCacheProofs.v ===== *)
(** Theorems about the tables of the tier-2 compiler: a reader of [jit_cache] never sees a torn
    pair of key and entry, whatever the interleaving with the writer; effect of the operations
    on the contents. *)

From S2P Require Import Prelude.
From S2P Require Import Mmu.
From S2P Require Import T2cCache.

(** * The contents *)

Lemma write_slot_spec k e c :
  write_slot k e c = mk_jit_cache (jc_seq c +u 2) k e.
Proof. done. Qed.
Lemma seq_parity n : Z.land (u32 (2 * n)) 1 = 0 /\ Z.land (u32 (2 * n + 1)) 1 = 1.
Proof. rewrite !(Z.land_ones _ 1) by lia. unfold u32. change (2 ^ 1) with 2. split; mlia. Qed.

(** * The sequence lock *)

Section Seqlock.
Context (legit : Z -> Z -> Prop) (expected : Z).

(** The state of the writer: the number of complete updates, the number of stores to [seq]. *)
Inductive writer_at (n : Z) : Z -> jit_cache -> list jc_store -> Prop :=
  | Wr_idle c : legit (jc_key c) (jc_entry c) -> jc_seq c = u32 (2 * n) -> writer_at n (2 * n) c []
  | Wr_begun c k' e' :
      legit (jc_key c) (jc_entry c) -> jc_seq c = u32 (2 * n) -> legit k' e' ->
      writer_at n (2 * n) c (update_stores (u32 (2 * n)) k' e')
  | Wr_odd c i k' e' :
      (1 <= i <= 3)%nat -> legit k' e' -> jc_seq c = u32 (2 * n + 1) ->
      ((2 <= i)%nat -> jc_entry c = e') -> ((3 <= i)%nat -> jc_key c = k') ->
      writer_at n (2 * n + 1) c (drop i (update_stores (u32 (2 * n)) k' e')).

Lemma writer_even n t c l : writer_at n t c l -> Z.even t = true -> legit (jc_key c) (jc_entry c).
Proof.
  destruct 1 as [c Hl|c k e Hl|c i k e]; intros Ht; [done..|].
  rewrite Z.add_comm, Z.even_add_mul_2 in Ht. done.
Qed.
Lemma writer_seq n t c l : writer_at n t c l -> jc_seq c = u32 t.
Proof. by destruct 1. Qed.
(** An even sequence number is one of an even number of stores. *)
Lemma writer_parity n t c l :
  writer_at n t c l -> (Z.land (jc_seq c) 1 =? 0) = Z.even t.
Proof.
  intros Hw. rewrite (writer_seq _ _ _ _ Hw). destruct Hw as [? ? _|? ? ? ? _ _|].
  1,2: rewrite (proj1 (seq_parity n)), Z.even_mul; done.
  rewrite (proj2 (seq_parity n)), Z.add_comm, Z.even_add_mul_2. done.
Qed.
Lemma writer_begins n t c k e :
  writer_at n t c [] -> legit k e -> writer_at n t c (update_stores (jc_seq c) k e) /\ t = 2 * n.
Proof.
  inversion 1 as [c' Hl Hq| |c' i k' e' Hi]; subst.
  - intros Hle. rewrite Hq. split; [by apply Wr_begun|done].
  - exfalso. destruct i as [|[|[|[|i]]]]; cbn in *; (lia || discriminate).
Qed.
(** One store: the number of stores to [seq] grows, or the slot is in the middle of an update. *)
Lemma writer_stores n t c w l :
  writer_at n t c (w :: l) ->
  exists n' t', writer_at n' t' (apply_store c w) l /\ t <= t' /\
    n' = n + (if decide (l = []) then 1 else 0) /\ (t' = t -> Z.even t = false).
Proof.
  remember (w :: l) as ws eqn:E3.
  destruct 1 as [c Hl Hq|c k' e' Hl Hq Hle|c i k' e' Hi Hle Hq He Hk]; [done| |].
  - cbn in E3. injection E3 as <- <-. exists n, (2 * n + 1). split_and!; [|lia|rewrite decide_False by done; lia|lia].
    apply (Wr_odd n _ 1 k' e'); cbn; try (done || lia). by rewrite u32_add_l.
  - assert (Z.even (2 * n + 1) = false) as Hev by (rewrite Z.add_comm, Z.even_add_mul_2; done).
    destruct i as [|[|[|[|i]]]]; [lia| | | |lia]; cbn in E3; injection E3 as <- <-.
    + exists n, (2 * n + 1). split_and!; [|lia|rewrite decide_False by done; lia|done].
      apply (Wr_odd n _ 2 k' e'); cbn; done || lia.
    + exists n, (2 * n + 1). split_and!; [|lia|rewrite decide_False by done; lia|done].
      apply (Wr_odd n _ 3 k' e'); cbn; done || lia || (intros _; apply He; lia).
    + exists (n + 1), (2 * (n + 1)). split_and!; [|lia|rewrite decide_True by done; lia|lia].
      apply Wr_idle; cbn; [by rewrite Hk, He by lia|]. rewrite u32_add_l. f_equal. lia.
Qed.

(** What the reader knows when [t] stores to [seq] have been made and [t1] had been made when
    it loaded [seq1]. *)
Definition reader_at (t t1 : Z) (c : jit_cache) (r : reader) : Prop :=
  let loaded s1 := s1 = u32 t1 /\ t1 <= t /\ Z.even t1 = true in
  match r with
  | R_start | R_call _ | R_fallback => True
  | R_seq s1 => loaded s1
  | R_key s1 => loaded s1 /\ (t = t1 -> jc_key c = expected)
  | R_entry s1 e => loaded s1 /\ (t = t1 -> jc_key c = expected /\ jc_entry c = e)
  end.

(** The updates begun, against those complete and those seen by the reader. *)
Definition seqlock_inv (n0 : Z) (s : shared) : Prop :=
  exists n t t1, writer_at n t (slot s) (pending s) /\ reader_at t t1 (slot s) (rdr s) /\
    n + (if decide (pending s = []) then 0 else 1) = n0 + Z.of_nat (begun s) /\
    2 * (n0 + Z.of_nat (seen s)) - 2 <= t1.

Lemma seqlock_inv_step n0 s s' :
  seqlock_inv n0 s -> seqlock_step legit expected s s' -> seqlock_inv n0 s'.
Proof.
  intros (n & t & t1 & Hw & Hr & Hn & H1) Hs. destruct Hs as [s k e Hp Hl|s w l Hp|s].
  - rewrite Hp in *. destruct (writer_begins _ _ _ _ _ Hw Hl) as [Hw' ->].
    exists n, (2 * n), t1. cbn. repeat split; [done|done| |done].
    rewrite decide_True in Hn by done. rewrite decide_False by done. lia.
  - rewrite Hp in *. destruct (writer_stores _ _ _ _ _ Hw) as (n' & t' & Hw' & Ht & Hn' & Ho).
    exists n', t', t1. cbn. split; [done|]. split; [|split; [|done]].
    + destruct (rdr s) as [|s1|s1|s1 e|e|]; cbn in Hr |- *; try done.
      * naive_solver lia.
      * destruct Hr as ((-> & Hle & Hev) & Hk). split; [repeat split; done || lia|]. intros ->.
        assert (t = t1) as -> by lia. rewrite Ho in Hev; done.
      * destruct Hr as ((-> & Hle & Hev) & Hk). split; [repeat split; done || lia|]. intros ->.
        assert (t = t1) as -> by lia. rewrite Ho in Hev; done.
    + rewrite decide_False in Hn by done. destruct (decide (l = [])); lia.
  - pose proof (writer_parity _ _ _ _ Hw) as Hpar. unfold reader_step.
    destruct (rdr s) as [|s1|s1|s1 e|e|] eqn:Er; cbn in Hr.
    + exists n, t, t. cbn. split; [done|]. split; [|split; [done|]].
      * rewrite Hpar. destruct (Z.even t) eqn:Ev; cbn; [|done].
        repeat split; [by rewrite (writer_seq _ _ _ _ Hw)|lia|done].
      * destruct Hw; destruct decide; lia.
    + exists n, t, t1. cbn. split; [done|]. split; [|done].
      destruct (Z.eqb_spec (jc_key (slot s)) expected); [|done]. by cbn.
    + exists n, t, t1. cbn. split; [done|]. split; [|done]. naive_solver.
    + exists n, t, t1. cbn. split; [done|]. split; [|done].
      by destruct ((s1 =? jc_seq (slot s)) && negb (e =? 0)).
    + exists n, t, t1. rewrite Er. done.
    + exists n, t, t1. rewrite Er. done.
Qed.

Lemma seqlock_accept n0 s q e :
  seqlock_inv n0 s -> rdr s = R_entry q e -> rdr (reader_step expected s) = R_call e ->
  Z.of_nat (begun s) - Z.of_nat (seen s) < 0x7fffffff -> legit expected e.
Proof.
  intros (n & t & t1 & Hw & Hr & Hn & H1) Er Hc Hb. unfold reader_step in Hc. rewrite Er in Hr, Hc.
  cbn in Hr, Hc. destruct Hr as ((-> & Hle & Hev) & Hk).
  destruct (Z.eqb_spec (u32 t1) (jc_seq (slot s))) as [Eq|]; [|done].
  rewrite (writer_seq _ _ _ _ Hw) in Eq.
  assert (t = t1) as Et.
  { assert (t <= 2 * n + 1 /\ (pending s = [] -> t = 2 * n)) as [Hu Hi].
    { destruct Hw as [| |c i k' e' Hi]; split; try lia; try done. intros E.
      destruct i as [|[|[|[|i]]]]; cbn in E; (lia || discriminate). }
    unfold u32 in Eq. destruct (decide (pending s = [])) as [E|E].
    - specialize (Hi E). mlia.
    - mlia. }
  destruct (Hk Et) as [<- <-]. subst t. by apply (writer_even _ _ _ _ Hw).
Qed.
End Seqlock.

(** An idle writer and a reader that has not begun. *)
Definition seqlock_start (c : jit_cache) : shared := mk_shared c [] R_start 0 0.

(** C38: A reader of the table never calls a torn entry: for every interleaving of its loads
    with the stores of a writer, if it decides to call an entry for the expected key, that pair
    of key and entry is one the writer stored by a single update (or the initial one), as long
    as fewer than 2^31 - 1 updates begin between its two loads of the sequence number, which is
    a 32-bit counter. *)
Theorem seqlock_consistent legit expected c s q e :
  legit (jc_key c) (jc_entry c) -> Z.land (jc_seq c) 1 = 0 -> is_u32 (jc_seq c) ->
  rtc (seqlock_step legit expected) (seqlock_start c) s ->
  rdr s = R_entry q e -> rdr (reader_step expected s) = R_call e ->
  Z.of_nat (begun s) - Z.of_nat (seen s) < 0x7fffffff -> legit expected e.
Proof.
  intros Hl He Hu Hs. apply (seqlock_accept legit expected (jc_seq c / 2)).
  assert (seqlock_inv legit expected (jc_seq c / 2) (seqlock_start c)) as H0.
  { assert (jc_seq c = 2 * (jc_seq c / 2)) as E.
    { rewrite (Z.land_ones _ 1) in He by lia. change (2 ^ 1) with 2 in He. mlia. }
    exists (jc_seq c / 2), (2 * (jc_seq c / 2)), (2 * (jc_seq c / 2)). cbn.
    split; [apply Wr_idle; [done|]|split; [done|split; [|lia]]].
    - rewrite <- E. by rewrite u32_small.
    - rewrite decide_True by done. lia. }
  induction Hs as [s|s s1 s2 Hst _ IH]; [done|]. apply IH. by eapply seqlock_inv_step.
Qed.

(** An update, then the loads of a reader. *)
Definition two_pairs (k e : Z) : Prop := (k, e) ∈ [(0x1000, 0x7000); (0x2000, 0x8000)].
Definition updated_and_read : shared := mk_shared (mk_jit_cache 2 0x2000 0x8000) [] (R_entry 2 0x8000) 1 1.
Lemma seqlock_consistent_witness :
  rdr (reader_step 0x2000 updated_and_read) = R_call 0x8000 /\ two_pairs 0x2000 0x8000.
Proof.
  split; [reflexivity|].
  apply (seqlock_consistent two_pairs 0x2000 (mk_jit_cache 0 0x1000 0x7000) updated_and_read 2);
    [left|reflexivity|cbn; unfold is_u32; lia| |reflexivity|reflexivity|cbn; lia].
  eapply rtc_l; [apply (Writer_begin _ _ _ 0x2000 0x8000); [reflexivity|right; left]|].
  do 4 (eapply rtc_l; [apply Writer_store; reflexivity|]).
  do 3 (eapply rtc_l; [apply Reader_step|]). apply rtc_refl.
Defined.

(** * Sequential use *)

(** Clearing a page empties exactly its entries. *)
Lemma jit_cache_clear_page_spec cache va satp i c :
  cache !! i = Some c ->
  jit_cache_clear_page cache va satp !! i =
    Some (if key_in_page va satp (jc_key c) then mk_jit_cache (jc_seq c +u 2) 0 0 else c).
Proof. intros Hi. unfold jit_cache_clear_page. by rewrite list_lookup_fmap, Hi. Qed.
Lemma inline_cache_clear_key_spec cache key i c :
  key <> 0 -> inline_cache_clear_key cache key !! i = Some c -> ic_key c <> key.
Proof.
  intros Hk. unfold inline_cache_clear_key. rewrite (proj2 (Z.eqb_neq key 0) Hk).
  rewrite list_lookup_fmap. destruct (cache !! i) as [c'|]; [|done]. intros [= <-].
  destruct (Z.eqb_spec (ic_key c') key); [cbn; lia|done].
Qed.

(** An entry that has been published is found by generated code if both sides use the same
    slot: the writer uses bits of the address, the reader mixes in the page number. *)
Definition same_slot (addr satp : Z) : Prop := jit_cache_pos (target_key addr satp) = jc_index addr satp.
Lemma published_code_found jc ic addr satp entry c i :
  same_slot addr satp -> entry <> 0 ->
  jc !! Z.to_nat (jc_index addr satp) = Some c -> Z.land (jc_seq c +u 2) 1 = 0 ->
  ic !! Z.to_nat (ic_index addr satp) = Some i -> ic_key i <> target_key addr satp ->
  exists ic', resolve_indirect (jit_cache_update jc (target_key addr satp) entry) ic addr satp =
    Some (Some entry, ic').
Proof.
  intros Hs He Hc Hq Hi Hk. unfold resolve_indirect. rewrite Hi. cbn [mbind option_bind].
  rewrite (proj2 (Z.eqb_neq _ _) Hk). cbn [andb].
  unfold jit_cache_update. rewrite Hs, list_lookup_alter_eq, Hc. cbn [fmap option_fmap option_map mbind option_bind].
  rewrite write_slot_spec. unfold jc_hit. cbn [jc_seq jc_key jc_entry].
  rewrite Hq, !Z.eqb_refl. rewrite (proj2 (Z.eqb_neq entry 0) He). cbn. by eexists.
Qed.
(** For a block outside of the first page the slots differ in general: the code is published
    and never found. *)
Lemma published_code_lost :
  jit_cache_pos (target_key 0x11000 0) = 0 /\ jc_index 0x11000 0 = 0x11 /\
  option_map fst (resolve_indirect (jit_cache_update jit_cache_init (target_key 0x11000 0) 0x7000)
    inline_cache_init 0x11000 0) = Some None.
Proof. repeat split; vm_compute; reflexivity. Qed.
(** The entry of a block at address 0 in address space 0 stays in the inline cache. *)
Lemma inline_cache_keeps_zero e :
  inline_cache_clear_key [mk_inline_cache 0 e] 0 = [mk_inline_cache 0 e].
Proof. done. Qed.
