(* ===== verification/T2cLife.v ===== *)
(** The life of a block that the tier-2 compiler compiles, in the build with SYSTEM and T2C:
    the thread that executes finds, inserts, evicts and invalidates blocks (emulate.c,
    rv32_template.c) and queues hot ones; the compile thread takes them from the queue,
    compiles them without holding the lock, and publishes the code (riscv.c, t2c.c).

    What happens under [cache_lock] is one step; the steps of the two threads interleave.  A
    block and an LLVM engine are numbers, allocated while they are in [blocks] and [engines];
    reading a block that is not has no result.  The block cache is its abstraction of
    JitCacheProofs.v, a finite map: which block a full cache evicts is an argument. *)

From S2P Require Import Prelude.
From S2P Require Import Mmu.
From S2P Require Import T2cCache.

(** The fields of [block_t] that the two threads share. *)
Record t2c_block := mk_t2c_block {
  tb_pc : Z; tb_satp : Z;
  hot2 : bool; compiled : bool; is_compiling : bool; should_free : bool; invalidated : bool;
  func : Z; llvm_engine : Z }.

Definition set_hot2 (x : bool) (b : t2c_block) : t2c_block :=
  mk_t2c_block (tb_pc b) (tb_satp b) x (compiled b) (is_compiling b) (should_free b)
    (invalidated b) (func b) (llvm_engine b).
Definition set_compiled (x : bool) (b : t2c_block) : t2c_block :=
  mk_t2c_block (tb_pc b) (tb_satp b) (hot2 b) x (is_compiling b) (should_free b)
    (invalidated b) (func b) (llvm_engine b).
Definition set_is_compiling (x : bool) (b : t2c_block) : t2c_block :=
  mk_t2c_block (tb_pc b) (tb_satp b) (hot2 b) (compiled b) x (should_free b)
    (invalidated b) (func b) (llvm_engine b).
Definition set_should_free (x : bool) (b : t2c_block) : t2c_block :=
  mk_t2c_block (tb_pc b) (tb_satp b) (hot2 b) (compiled b) (is_compiling b) x
    (invalidated b) (func b) (llvm_engine b).
Definition set_code (f e : Z) (b : t2c_block) : t2c_block :=
  mk_t2c_block (tb_pc b) (tb_satp b) (hot2 b) (compiled b) (is_compiling b) (should_free b)
    (invalidated b) f e.
(** [invalidated = true; hot2 = false] *)
Definition mark_invalid (b : t2c_block) : t2c_block :=
  mk_t2c_block (tb_pc b) (tb_satp b) false (compiled b) (is_compiling b) (should_free b)
    true (func b) (llvm_engine b).

(** A live engine owns a function that was compiled for a key. *)
Record t2c_vm := mk_t2c_vm {
  blocks : gmap Z t2c_block;
  cached : gmap Z Z;                 (* block_cache, by address *)
  engines : gmap Z (Z * Z);
  jc : list jit_cache;
  ic : list inline_cache;
  wait_queue : list Z;
  working : option Z }.

Definition with_blocks (x : gmap Z t2c_block) (v : t2c_vm) : t2c_vm :=
  mk_t2c_vm x (cached v) (engines v) (jc v) (ic v) (wait_queue v) (working v).
Definition with_cached (x : gmap Z Z) (v : t2c_vm) : t2c_vm :=
  mk_t2c_vm (blocks v) x (engines v) (jc v) (ic v) (wait_queue v) (working v).
Definition with_engines (x : gmap Z (Z * Z)) (v : t2c_vm) : t2c_vm :=
  mk_t2c_vm (blocks v) (cached v) x (jc v) (ic v) (wait_queue v) (working v).
Definition with_tables (x : list jit_cache) (y : list inline_cache) (v : t2c_vm) : t2c_vm :=
  mk_t2c_vm (blocks v) (cached v) (engines v) x y (wait_queue v) (working v).
Definition with_queue (x : list Z) (v : t2c_vm) : t2c_vm :=
  mk_t2c_vm (blocks v) (cached v) (engines v) (jc v) (ic v) x (working v).
Definition with_working (x : option Z) (v : t2c_vm) : t2c_vm :=
  mk_t2c_vm (blocks v) (cached v) (engines v) (jc v) (ic v) (wait_queue v) x.
Definition set_block (l : Z) (b : t2c_block) (v : t2c_vm) : t2c_vm :=
  with_blocks (<[l := b]> (blocks v)) v.
Definition free_block (l : Z) (v : t2c_vm) : t2c_vm := with_blocks (delete l (blocks v)) v.

Definition t2c_start : t2c_vm := mk_t2c_vm ∅ ∅ ∅ jit_cache_init inline_cache_init [] None.

(** [(uint64_t) pc_start | ((uint64_t) satp << 32)] *)
Definition block_key (b : t2c_block) : Z := Z.lor (tb_pc b) (Z.shiftl (tb_satp b) 32).

(** * The thread that executes *)

(** [block_alloc] with the fields set after translation. *)
Definition alloc_block (pc satp : Z) : t2c_block :=
  mk_t2c_block pc satp false false false false false 0 0.

(** The lookup of [block_find_or_translate]. *)
Definition find_block (v : t2c_vm) (pc satp : Z) : option (option Z) :=
  match cached v !! pc with
  | None => Some None
  | Some l =>
      b ← blocks v !! l;
      Some (if negb (tb_satp b =? satp) || invalidated b then None else Some l)
  end.

(** [t2c_dispose_engine] *)
Definition t2c_dispose_engine (e : Z) (v : t2c_vm) : t2c_vm :=
  if e =? 0 then v else with_engines (delete e (engines v)) v.

(** The stale function pointers of a block that leaves the cache. *)
Definition unpublish (b : t2c_block) (v : t2c_vm) : t2c_vm :=
  with_tables (if func b =? 0 then jc v else jit_cache_update (jc v) (block_key b) 0)
    (inline_cache_clear_key (ic v) (block_key b)) v.
(** What happens to the block that [cache_put] returns. *)
Definition evict_block (l : Z) (v : t2c_vm) : option t2c_vm :=
  b ← blocks v !! l;
  if is_compiling b then Some (unpublish b (set_block l (set_should_free true b) v))
  else Some (free_block l (t2c_dispose_engine (llvm_engine b) (unpublish b v))).

(** [cache_put]: a value under the same key is replaced; otherwise a full cache evicts
    [victim]. *)
Definition put_spec (pc l : Z) (victim : option Z) (v : t2c_vm) : option Z * t2c_vm :=
  match cached v !! pc, victim with
  | Some old, _ => (Some old, with_cached (<[pc := l]> (cached v)) v)
  | None, Some vpc => (cached v !! vpc, with_cached (<[pc := l]> (delete vpc (cached v))) v)
  | None, None => (None, with_cached (<[pc := l]> (cached v)) v)
  end.
(** [block_find_or_translate], when it has to translate: the new block is at [l].  The cache is
    filled under [rv->PC], which is still the start [pc] of the block unless an illegal instruction
    inside of it has trapped during the translation; that case is left out. *)
Definition translate_and_insert (pc satp l : Z) (victim : option Z) (v : t2c_vm) : option t2c_vm :=
  let v := set_block l (alloc_block pc satp) v in
  match put_spec pc l victim v with
  | (None, v) => Some v
  | (Some replaced, v) => evict_block replaced v
  end.

(** The queueing of [rv_step], for a block whose code of the first tier has been called often
    enough. *)
Definition queue_block (l : Z) (v : t2c_vm) : option t2c_vm :=
  b ← blocks v !! l;
  if negb (hot2 b) && negb (compiled b)
  then Some (with_queue (block_key b :: wait_queue v) (set_block l (set_compiled true b) v))
  else Some v.
(** The function [rv_step] calls for a block that has been compiled. *)
Definition run_hot2 (l : Z) (v : t2c_vm) : option (option Z) :=
  b ← blocks v !! l;
  Some (if hot2 b && negb (func b =? 0) then Some (func b) else None).
(** An indirect jump in compiled code. *)
Definition run_indirect (addr satp : Z) (v : t2c_vm) : option (option Z * t2c_vm) :=
  '(f, ic') ← resolve_indirect (jc v) (ic v) addr satp;
  Some (f, with_tables (jc v) ic' v).

(** [cache_invalidate_satp] and [cache_invalidate_va] on the blocks in the cache that pass
    the test. *)
Definition invalidate_cached (test : t2c_block -> bool) (satp : Z) (v : t2c_vm) : gmap Z t2c_block :=
  map_imap (fun l b =>
    Some (if bool_decide (cached v !! tb_pc b = Some l) && (tb_satp b =? satp) &&
             negb (invalidated b) && test b
          then mark_invalid b else b)) (blocks v).
(** SFENCE.VMA with [rs1 = 0], and FENCE.I. *)
Definition fence_all (satp : Z) (v : t2c_vm) : t2c_vm :=
  with_tables (jit_cache_clear (jc v)) (inline_cache_clear (ic v))
    (with_blocks (invalidate_cached (fun _ => true) satp v) v).
(** SFENCE.VMA of one page. *)
Definition fence_page (va satp : Z) (v : t2c_vm) : t2c_vm :=
  with_tables (jit_cache_clear_page (jc v) va satp) (inline_cache_clear_page (ic v) va satp)
    (with_blocks (invalidate_cached (fun b => va_page (tb_pc b) =? va_page va) satp v) v).
(** The part of [code_cache_flush] on these tables. *)
Definition flush_tables (v : t2c_vm) : t2c_vm :=
  with_tables (jit_cache_clear (jc v)) (inline_cache_clear (ic v)) v.

(** * The compile thread *)

(** One round of [t2c_runloop], to the point where [t2c_compile] releases the lock. *)
Definition compile_begin (v : t2c_vm) : option t2c_vm :=
  match last (wait_queue v) with
  | None => Some v
  | Some key =>
      let v := with_queue (removelast (wait_queue v)) v in
      match cached v !! u32 key with
      | None => Some v
      | Some l =>
          b ← blocks v !! l;
          if negb (tb_satp b =? u32 (Z.shiftr key 32)) || hot2 b then Some v
          else Some (with_working (Some l) (set_block l (set_is_compiling true b) v))
      end
  end.
(** The rest of [t2c_compile]: LLVM has produced the function [f] in the engine [e]. *)
Definition compile_end (f e : Z) (v : t2c_vm) : option t2c_vm :=
  l ← working v;
  b ← blocks v !! l;
  let v := with_working None v in
  let b := set_is_compiling false b in
  if should_free b then Some (free_block l v)
  else if (f =? 0) || invalidated b then Some (set_block l b v)
  else
    Some (with_tables (jit_cache_update (jc v) (block_key b) f) (ic v)
            (with_engines (<[e := (f, block_key b)]> (engines v))
              (set_block l (set_hot2 true (set_code f e b)) v))).

(** * Interleavings *)

(** Addresses and identifiers of address spaces are 32 bits wide; no block has key 0, the key
    of an empty entry. *)
Definition good_target (pc satp : Z) : Prop := is_u32 pc /\ is_u32 satp /\ (pc, satp) <> (0, 0).

Inductive t2c_step : t2c_vm -> t2c_vm -> Prop :=
  | St_insert v v' pc satp l victim :
      good_target pc satp -> find_block v pc satp = Some None -> l ∉ dom (blocks v) ->
      translate_and_insert pc satp l victim v = Some v' -> t2c_step v v'
  | St_queue v v' pc satp l :
      find_block v pc satp = Some (Some l) -> queue_block l v = Some v' -> t2c_step v v'
  | St_indirect v v' addr satp f :
      good_target addr satp -> run_indirect addr satp v = Some (f, v') -> t2c_step v v'
  | St_fence_all v satp : is_u32 satp -> t2c_step v (fence_all satp v)
  | St_fence_page v va satp : is_u32 va -> is_u32 satp -> t2c_step v (fence_page va satp v)
  | St_flush v : t2c_step v (flush_tables v)
  | St_compile_begin v v' : working v = None -> compile_begin v = Some v' -> t2c_step v v'
  | St_compile_end v v' f e :
      is_Some (working v) -> e <> 0 -> e ∉ dom (engines v) -> compile_end f e v = Some v' ->
      t2c_step v v'.
