(* ===== verification/T2cLifeProofs.v ===== *)
(** The two threads of the tier-2 compiler never free a block or an engine that is still
    reachable, never leak one, and code reached through the tables or the blocks is live and is
    the code of the address it is called for: an invariant of all interleavings. *)

From S2P Require Import Prelude.
From S2P Require Import Mmu.
From S2P Require Import T2cCache.
From S2P Require Import T2cCacheProofs.
From S2P Require Import T2cLife.

(** * Keys *)

Definition key_of (pc satp : Z) : Z := pc + satp * 0x100000000.
Lemma block_key_eq b : is_u32 (tb_pc b) -> is_u32 (tb_satp b) -> block_key b = key_of (tb_pc b) (tb_satp b).
Proof.
  intros Hp Hs. unfold block_key, key_of. rewrite lor_shift; [done|lia|done].
Qed.
Lemma target_key_eq pc satp : is_u32 pc -> is_u32 satp -> target_key pc satp = key_of pc satp.
Proof.
  intros Hp Hs. unfold target_key, key_of. rewrite Z.shiftl_mul_pow2 by lia.
  apply u64_small. unfold is_u64, is_u32 in *. lia.
Qed.
Lemma key_pc pc satp : is_u32 pc -> u32 (key_of pc satp) = pc.
Proof. unfold key_of, u32, is_u32. intros. mlia. Qed.
Lemma key_satp pc satp : is_u32 pc -> is_u32 satp -> u32 (Z.shiftr (key_of pc satp) 32) = satp.
Proof. unfold key_of, u32, is_u32. intros. rewrite Z.shiftr_div_pow2 by lia. mlia. Qed.
Lemma key_nonzero pc satp : good_target pc satp -> key_of pc satp <> 0.
Proof. unfold good_target, key_of, is_u32. intros (? & ? & Hn) E. apply Hn. f_equal; lia. Qed.

(** * The invariant *)

Section Inv.
Context (v : t2c_vm).

(** The code [f] is the published code of a block in the cache. *)
Definition published (k f : Z) : Prop :=
  exists l b, blocks v !! l = Some b /\ cached v !! tb_pc b = Some l /\ invalidated b = false /\
    func b = f /\ block_key b = k.

Record block_inv (l : Z) (b : t2c_block) : Prop := {
  bi_target : good_target (tb_pc b) (tb_satp b);
  bi_owner : cached v !! tb_pc b = Some l /\ should_free b = false \/
    working v = Some l /\ should_free b = true /\ cached v !! tb_pc b <> Some l;
  bi_working : is_compiling b = true <-> working v = Some l;
  bi_code : func b <> 0 -> llvm_engine b <> 0 /\ engines v !! llvm_engine b = Some (func b, block_key b);
  bi_no_code : func b = 0 -> llvm_engine b = 0;
  bi_hot : hot2 b = true -> func b <> 0 /\ invalidated b = false;
  bi_cold : func b <> 0 -> hot2 b = true \/ invalidated b = true;
  bi_busy : working v = Some l -> hot2 b = false }.

Record life_inv : Prop := {
  li_block : forall l b, blocks v !! l = Some b -> block_inv l b;
  li_cached : forall pc l, cached v !! pc = Some l -> exists b, blocks v !! l = Some b /\ tb_pc b = pc;
  li_working : forall l, working v = Some l -> is_Some (blocks v !! l);
  li_distinct : forall l l' b b', blocks v !! l = Some b -> blocks v !! l' = Some b' ->
    llvm_engine b <> 0 -> llvm_engine b = llvm_engine b' -> l = l';
  li_engine : forall e p, engines v !! e = Some p -> e <> 0;
  li_jc : forall i c, jc v !! i = Some c -> jc_entry c <> 0 ->
    i = Z.to_nat (jit_cache_pos (jc_key c)) /\ published (jc_key c) (jc_entry c);
  li_ic : forall i c, ic v !! i = Some c -> ic_entry c <> 0 -> published (ic_key c) (ic_entry c);
  li_sizes : length (jc v) = Z.to_nat N_JIT_CACHE_ENTRIES /\ length (ic v) = Z.to_nat N_INLINE_CACHE_ENTRIES }.
End Inv.

Lemma life_start : life_inv t2c_start.
Proof.
  split; cbn; try done.
  - intros i c Hc He. apply lookup_replicate in Hc as [-> _]. by destruct He.
  - intros i c Hc He. apply lookup_replicate in Hc as [-> _]. by destruct He.
Qed.

Lemma block_inv_target v l b : block_inv v l b ->
  is_u32 (tb_pc b) /\ is_u32 (tb_satp b) /\ block_key b = key_of (tb_pc b) (tb_satp b) /\ block_key b <> 0.
Proof.
  intros H. pose proof (bi_target _ _ _ H) as Ht. destruct Ht as (Hp & Hs & Hn).
  rewrite block_key_eq by done. split_and!; [done..|]. by apply key_nonzero.
Qed.
(** Blocks in the cache are told apart by their address. *)
Lemma cached_block_pc v pc l b :
  life_inv v -> cached v !! pc = Some l -> blocks v !! l = Some b -> tb_pc b = pc.
Proof. intros Hv Hc Hb. destruct (li_cached _ Hv _ _ Hc) as (b' & Hb' & <-). by simplify_eq. Qed.

(** * Tables *)

Lemma update_lookup cache k e i c :
  jit_cache_update cache k e !! i = Some c ->
  cache !! i = Some c /\ i <> Z.to_nat (jit_cache_pos k) \/
  i = Z.to_nat (jit_cache_pos k) /\ jc_key c = k /\ jc_entry c = e.
Proof.
  unfold jit_cache_update. destruct (decide (i = Z.to_nat (jit_cache_pos k))) as [->|Hn].
  - rewrite list_lookup_alter_eq. destruct (cache !! _); [|done]. intros [= <-]. by right.
  - rewrite list_lookup_alter_ne by done. by left.
Qed.
Lemma cleared_lookup cache i c : jit_cache_clear cache !! i = Some c -> jc_entry c = 0.
Proof. unfold jit_cache_clear. rewrite list_lookup_fmap. destruct (cache !! i); [|done]. by intros [= <-]. Qed.
Lemma inline_cleared_lookup cache i c : inline_cache_clear cache !! i = Some c -> ic_entry c = 0.
Proof. unfold inline_cache_clear. rewrite list_lookup_fmap. destruct (cache !! i); [|done]. by intros [= <-]. Qed.

(** The tables are replaced by tables whose entries are published. *)
Record tables_ok (v : t2c_vm) (jc' : list jit_cache) (ic' : list inline_cache) : Prop := {
  to_jc : forall i c, jc' !! i = Some c -> jc_entry c <> 0 ->
    i = Z.to_nat (jit_cache_pos (jc_key c)) /\ published v (jc_key c) (jc_entry c);
  to_ic : forall i c, ic' !! i = Some c -> ic_entry c <> 0 -> published v (ic_key c) (ic_entry c);
  to_jc_len : length jc' = Z.to_nat N_JIT_CACHE_ENTRIES;
  to_ic_len : length ic' = Z.to_nat N_INLINE_CACHE_ENTRIES }.
Lemma life_tables_ok v : life_inv v -> tables_ok v (jc v) (ic v).
Proof. intros []. by split; [..|apply li_sizes0|apply li_sizes0]. Qed.
Lemma life_tables v jc' ic' : life_inv v -> tables_ok v jc' ic' -> life_inv (with_tables jc' ic' v).
Proof.
  intros [H1 H2 H3 H4 H5 H6 H7 H8] [T1 T2 T3 T4]. split; cbn; try done.
  intros l b Hb. by destruct (H1 l b Hb).
Qed.
Lemma tables_cleared v : life_inv v -> tables_ok v (jit_cache_clear (jc v)) (inline_cache_clear (ic v)).
Proof.
  intros Hv. destruct (li_sizes _ Hv) as [Hj Hi]. split.
  - by intros i c ->%cleared_lookup.
  - by intros i c ->%inline_cleared_lookup.
  - unfold jit_cache_clear. by rewrite length_fmap.
  - unfold inline_cache_clear. by rewrite length_fmap.
Qed.
Lemma life_flush v : life_inv v -> life_inv (flush_tables v).
Proof. intros Hv. apply life_tables; [done|by apply tables_cleared]. Qed.

(** An indirect jump calls published code, for exactly its target. *)
Lemma resolve_published v addr satp :
  life_inv v -> is_u32 addr -> is_u32 satp ->
  exists f ic', run_indirect addr satp v = Some (f, with_tables (jc v) ic' v) /\
    tables_ok v (jc v) ic' /\ (forall e, f = Some e -> e <> 0 /\ published v (key_of addr satp) e).
Proof.
  intros Hv Ha Hs. pose proof (life_tables_ok v Hv) as T. destruct (li_sizes _ Hv) as [Lj Li].
  assert (forall t, is_Some (ic v !! Z.to_nat (ic_index addr t))) as Hi.
  { intros t. apply lookup_lt_is_Some. rewrite Li. unfold ic_index.
    change (N_INLINE_CACHE_ENTRIES - 1) with 1023. change N_INLINE_CACHE_ENTRIES with 1024.
    pose proof (land_le_r (target_mix addr t) 1023). lia. }
  assert (forall t, is_Some (jc v !! Z.to_nat (jc_index addr t))) as Hj.
  { intros t. apply lookup_lt_is_Some. rewrite Lj. unfold jc_index.
    change (N_JIT_CACHE_ENTRIES - 1) with 4095. change N_JIT_CACHE_ENTRIES with 4096.
    pose proof (land_le_r (target_mix addr t) 4095). lia. }
  destruct (Hi satp) as [i Ei], (Hj satp) as [c Ec]. unfold run_indirect, resolve_indirect.
  rewrite Ei, target_key_eq by done. cbn [mbind option_bind].
  destruct ((ic_key i =? key_of addr satp) && negb (ic_entry i =? 0)) eqn:Eh.
  - apply andb_true_iff in Eh as [Ek He]. apply Z.eqb_eq in Ek. rewrite negb_true_iff, Z.eqb_neq in He.
    eexists _, _. split; [reflexivity|]. split; [done|]. intros e [= <-]. split; [done|].
    rewrite <- Ek. by eapply (to_ic _ _ _ T).
  - rewrite Ec. cbn [mbind option_bind]. destruct (jc_hit c (key_of addr satp)) eqn:Eq.
    + unfold jc_hit in Eq. rewrite !andb_true_iff, negb_true_iff, Z.eqb_neq, !Z.eqb_eq in Eq.
      destruct Eq as [[_ Ek] He]. destruct (to_jc _ _ _ T _ _ Ec He) as [_ Hp]. rewrite Ek in Hp.
      eexists _, _. split; [reflexivity|]. split; [|by intros e [= <-]].
      destruct T as [T1 T2 T3 T4]. split; [done| |done|by rewrite length_insert].
      intros k c' Hc' He'. apply list_lookup_insert_Some in Hc' as [(_ & <- & _)|[_ Hc']]; [done|by eapply T2].
    + eexists _, _. split; [reflexivity|]. by split.
Qed.

(** * Eviction and insertion *)

(** Some entry maps [k] to [f]. *)
Definition in_tables (v : t2c_vm) (k f : Z) : Prop :=
  (exists i c, jc v !! i = Some c /\ jc_key c = k /\ jc_entry c = f) \/
  (exists i c, ic v !! i = Some c /\ ic_key c = k /\ ic_entry c = f).

(** A block leaves the cache: nothing that remains refers to it. *)
Lemma unpublish_tables v pc l b :
  life_inv v -> cached v !! pc = Some l -> blocks v !! l = Some b ->
  forall k f, f <> 0 -> in_tables (unpublish b v) k f ->
  exists l' b', blocks v !! l' = Some b' /\ cached v !! tb_pc b' = Some l' /\ invalidated b' = false /\
    func b' = f /\ block_key b' = k /\ l' <> l /\ tb_pc b' <> pc.
Proof.
  intros Hv Hc Hb k f Hf Ht. pose proof (cached_block_pc v pc l b Hv Hc Hb) as Epc.
  destruct (block_inv_target v l b (li_block _ Hv _ _ Hb)) as (Hp & Hs & _ & Hk0).
  assert (published v k f /\ (k = block_key b -> func b = f -> False)) as [(l' & b' & Hb' & Hc' & Hi & Ef & Ek) Hn].
  { destruct Ht as [(i & c & Hi & Ek & Ef)|(i & c & Hi & Ek & Ef)]; cbn in Hi.
    - destruct (Z.eqb_spec (func b) 0) as [E0|E0].
      + destruct (li_jc _ Hv i c Hi) as [_ Hpub]; [congruence|]. rewrite Ek, Ef in Hpub. split; [done|]. congruence.
      + apply update_lookup in Hi as [[Hi Hne]|(_ & _ & E)]; [|congruence].
        destruct (li_jc _ Hv i c Hi) as [Epos Hpub]; [congruence|]. rewrite Ek, Ef in *. split; [done|].
        intros -> _. by apply Hne.
    - pose proof (inline_cache_clear_key_spec _ _ _ _ Hk0 Hi) as Hne.
      unfold inline_cache_clear_key in Hi. rewrite (proj2 (Z.eqb_neq _ _) Hk0), list_lookup_fmap in Hi.
      destruct (ic v !! i) as [c'|] eqn:Ei; [|done]. injection Hi as Hi.
      destruct (Z.eqb_spec (ic_key c') (block_key b)); subst c; cbn in *; [congruence|].
      pose proof (li_ic _ Hv i c' Ei) as Hpub. rewrite Ek, Ef in *. split; [by apply Hpub|]. congruence. }
  exists l', b'. split_and!; try done.
  - intros ->. simplify_eq. by apply Hn.
  - intros E. rewrite E in Hc'. simplify_eq. by apply Hn.
Qed.

(** Disposing of an engine changes [engines] only. *)
Lemma dispose_engine_eq e v :
  t2c_dispose_engine e v = with_engines (if e =? 0 then engines v else delete e (engines v)) v.
Proof. unfold t2c_dispose_engine. destruct v. by destruct (e =? 0). Qed.
Lemma disposed_lookup e (m : gmap Z (Z * Z)) e' p :
  e' <> 0 -> (if e =? 0 then m else delete e m) !! e' = Some p <-> m !! e' = Some p /\ e' <> e.
Proof.
  intros He. destruct (Z.eqb_spec e 0) as [->|]; [naive_solver|]. rewrite lookup_delete_Some. naive_solver.
Qed.

Section Evict.
Context (v : t2c_vm) (pc l : Z) (b : t2c_block).
Context (Hv : life_inv v) (Hc : cached v !! pc = Some l) (Hb : blocks v !! l = Some b).

(** The entries that remain are published by the other blocks. *)
Lemma evicted_tables v1 :
  (forall l', l' <> l -> blocks v1 !! l' = blocks v !! l') -> cached v1 = delete pc (cached v) ->
  tables_ok v1 (jc (unpublish b v)) (ic (unpublish b v)).
Proof using Hv Hc Hb.
  intros Eb Ec. pose proof (unpublish_tables v pc l b Hv Hc Hb) as Hpub.
  assert (forall k f, f <> 0 -> in_tables (unpublish b v) k f -> published v1 k f) as Hp.
  { intros k f Hf Ht. destruct (Hpub k f Hf Ht) as (l' & b' & Hb' & Hc' & Hin & Ef & Ek & Hl & Hne).
    exists l', b'. rewrite Eb, Ec, lookup_delete_ne by done. done. }
  destruct (li_sizes _ Hv) as [H8 H9]. split.
  - intros i c Hi He. split; [|apply Hp; [done|left; by exists i, c]].
    cbn in Hi. destruct (func b =? 0); [by eapply li_jc|].
    apply update_lookup in Hi as [[Hi _]|(-> & <- & _)]; [by eapply li_jc|done].
  - intros i c Hi He. apply Hp; [done|right; by exists i, c].
  - cbn. destruct (func b =? 0); [done|]. unfold jit_cache_update. by rewrite length_alter.
  - cbn. unfold inline_cache_clear_key. destruct (_ =? 0); [done|]. by rewrite length_fmap.
Qed.

Lemma cached_elsewhere pc' l' : delete pc (cached v) !! pc' = Some l' -> l' <> l.
Proof using Hv Hc Hb.
  intros [Hn Hc']%lookup_delete_Some ->. pose proof (cached_block_pc v _ _ _ Hv Hc Hb).
  pose proof (cached_block_pc v _ _ _ Hv Hc' Hb). congruence.
Qed.
Lemma still_cached l' b' :
  blocks v !! l' = Some b' -> l' <> l -> cached v !! tb_pc b' = Some l' ->
  delete pc (cached v) !! tb_pc b' = Some l'.
Proof using Hc. intros Hb' Hn Hc'. rewrite lookup_delete_ne; [done|]. intros ->. congruence. Qed.

(** The compile thread will free the block. *)
Lemma life_evict_busy :
  is_compiling b = true ->
  life_inv (unpublish b (set_block l (set_should_free true b) (with_cached (delete pc (cached v)) v))).
Proof using Hv Hc Hb.
  intros Eic. pose proof (li_block _ Hv _ _ Hb) as Bb.
  assert (working v = Some l) as Hw by by apply (bi_working _ _ _ Bb).
  edestruct (evicted_tables (set_block l (set_should_free true b) (with_cached (delete pc (cached v)) v)))
    as [T1 T2 T3 T4]; [intros; by apply lookup_insert_ne|done|].
  destruct Hv as [H1 H2 H3 H4 H5 _ _ _]. split; cbn; try done.
  - intros l' b' [(<- & <-)|[Hn Hb']]%lookup_insert_Some.
    + destruct Bb as [B1 B2 B3 B4 B5 B6 B7 B8]. split; cbn; try done. right. split_and!; [done..|].
      by intros ?%cached_elsewhere.
    + destruct (H1 l' b' Hb') as [B1 B2 B3 B4 B5 B6 B7 B8]. split; cbn; try done.
      destruct B2 as [[Hc' ?]|(? & ? & _)]; [|congruence]. left. split; [by apply still_cached|done].
  - intros pc' l' Hc'. pose proof (cached_elsewhere _ _ Hc') as Hl.
    apply lookup_delete_Some in Hc' as [Hn Hc']. destruct (H2 _ _ Hc') as (b' & Hb' & <-).
    exists b'. by rewrite lookup_insert_ne.
  - intros l' Hl. destruct (decide (l' = l)) as [->|]; [by rewrite lookup_insert_eq|].
    rewrite lookup_insert_ne by done. by apply H3.
  - intros l1 l2 b1 b2 [(<- & <-)|[_ Hb1]]%lookup_insert_Some [(<- & <-)|[_ Hb2]]%lookup_insert_Some; cbn;
      try done; intros; by eapply H4.
Qed.

(** The block is freed at once, and its engine. *)
Lemma life_evict_free :
  is_compiling b = false ->
  life_inv (free_block l (t2c_dispose_engine (llvm_engine b)
    (unpublish b (with_cached (delete pc (cached v)) v)))).
Proof using Hv Hc Hb.
  intros Eic. pose proof (li_block _ Hv _ _ Hb) as Bb.
  assert (working v <> Some l) as Hw by (rewrite <- (bi_working _ _ _ Bb); congruence).
  edestruct (evicted_tables (free_block l (with_cached (delete pc (cached v)) v)))
    as [T1 T2 T3 T4]; [intros; by apply lookup_delete_ne|done|].
  rewrite dispose_engine_eq. destruct Hv as [H1 H2 H3 H4 H5 _ _ _]. split; cbn; try done.
  - intros l' b' [Hn Hb']%lookup_delete_Some.
    destruct (H1 l' b' Hb') as [B1 B2 B3 B4 B5 B6 B7 B8]. split; cbn; try done.
    + destruct B2 as [[Hc' ?]|(? & ? & Hnc)]; [left; split; [by apply still_cached|done]|].
      right. split_and!; [done..|]. by intros [_ ?]%lookup_delete_Some.
    + intros Hf. destruct (B4 Hf) as [He0 He]. split; [done|]. apply disposed_lookup; [done|].
      split; [done|]. intros E. apply Hn. symmetry. by apply (H4 l' l b' b).
  - intros pc' l' Hc'. pose proof (cached_elsewhere _ _ Hc') as Hl.
    apply lookup_delete_Some in Hc' as [Hn Hc']. destruct (H2 _ _ Hc') as (b' & Hb' & <-).
    exists b'. by rewrite lookup_delete_ne.
  - intros l' Hl. rewrite lookup_delete_ne by congruence. by apply H3.
  - intros l1 l2 b1 b2 [_ Hb1]%lookup_delete_Some [_ Hb2]%lookup_delete_Some. by apply H4.
  - intros e p He. destruct (llvm_engine b =? 0); [|apply lookup_delete_Some in He as [_ He]]; by apply (H5 e p).
Qed.
End Evict.

Lemma life_evict v pc l :
  life_inv v -> cached v !! pc = Some l ->
  exists v1, evict_block l (with_cached (delete pc (cached v)) v) = Some v1 /\ life_inv v1 /\
    dom (blocks v1) ⊆ dom (blocks v) /\ cached v1 = delete pc (cached v).
Proof.
  intros Hv Hc. destruct (li_cached _ Hv _ _ Hc) as (b & Hb & Epc).
  unfold evict_block. cbn [blocks with_cached]. rewrite Hb. cbn [mbind option_bind].
  destruct (is_compiling b) eqn:Eic; (eexists; split; [reflexivity|]).
  - split; [by apply life_evict_busy|]. split; [|done]. cbn. by rewrite dom_insert_lookup_L.
  - split; [by apply life_evict_free|]. rewrite dispose_engine_eq. split; [|done].
    cbn. apply subseteq_dom, delete_subseteq.
Qed.

Lemma life_insert v pc satp l :
  life_inv v -> good_target pc satp -> blocks v !! l = None -> cached v !! pc = None ->
  life_inv (with_cached (<[pc := l]> (cached v)) (set_block l (alloc_block pc satp) v)).
Proof.
  intros [H1 H2 H3 H4 H5 H6 H7 H8] Ht Hl Hc.
  assert (forall pc' l', cached v !! pc' = Some l' -> <[pc := l]> (cached v) !! pc' = Some l') as Hkeep.
  { intros pc' l' Hc'. rewrite lookup_insert_ne; [done|]. congruence. }
  assert (forall l' b', blocks v !! l' = Some b' -> <[l := alloc_block pc satp]> (blocks v) !! l' = Some b') as Hkeep2.
  { intros l' b' Hb'. rewrite lookup_insert_ne; [done|]. congruence. }
  assert (working v <> Some l) as Hw.
  { intros E. destruct (H3 l E). congruence. }
  split; cbn; try done.
  - intros l' b' [(<- & <-)|[Hn Hb']]%lookup_insert_Some.
    + split; cbn; try done. left. by rewrite lookup_insert_eq.
    + destruct (H1 l' b' Hb') as [B1 B2 B3 B4 B5 B6 B7 B8]. split; cbn; try done.
      destruct B2 as [[Hc' ?]|(? & ? & Hnc)]; [left; auto|]. right. split_and!; [done..|].
      intros [[_ ?]|[_ ?]]%lookup_insert_Some; congruence.
  - intros pc' l' [(<- & <-)|[Hn Hc']]%lookup_insert_Some.
    + exists (alloc_block pc satp). by rewrite lookup_insert_eq.
    + destruct (H2 _ _ Hc') as (b' & Hb' & <-). eauto.
  - intros l' Hl'. rewrite lookup_insert_ne by congruence. by apply H3.
  - intros l1 l2 b1 b2 [(<- & <-)|[_ Hb1]]%lookup_insert_Some [(<- & <-)|[_ Hb2]]%lookup_insert_Some; cbn;
      first [by apply H4 | intros; congruence].
  - intros i c Hi He. destruct (H6 i c Hi He) as (Ei & l' & b' & Hb' & Hc' & Hp). split; [done|].
    exists l', b'. cbn. auto.
  - intros i c Hi He. destruct (H7 i c Hi He) as (l' & b' & Hb' & Hc' & Hp). exists l', b'. cbn. auto.
Qed.

(** Eviction does not look at the cache, nor at other blocks. *)
Lemma evict_commute old l n c v v1 :
  l <> old -> evict_block old v = Some v1 ->
  evict_block old (with_cached c (set_block l n v)) = Some (with_cached c (set_block l n v1)).
Proof.
  intros Hn. unfold evict_block. cbn [blocks with_cached set_block with_blocks].
  rewrite lookup_insert_ne by done. destruct (blocks v !! old) as [b|]; [|done]. cbn [mbind option_bind].
  destruct (is_compiling b); intros [= <-]; f_equal.
  - unfold unpublish, set_block, with_tables, with_cached, with_blocks. cbn. f_equal. by apply insert_insert_ne.
  - rewrite !dispose_engine_eq. unfold free_block, with_engines, unpublish, set_block, with_tables, with_cached, with_blocks.
    cbn. f_equal. by rewrite delete_insert_ne.
Qed.
Lemma life_translate v pc satp l victim :
  life_inv v -> good_target pc satp -> l ∉ dom (blocks v) ->
  exists v', translate_and_insert pc satp l victim v = Some v' /\ life_inv v'.
Proof.
  intros Hv Ht Hl. apply not_elem_of_dom in Hl.
  assert (forall vpc old, cached v !! vpc = Some old -> cached v !! pc = None \/ vpc = pc ->
    exists v', evict_block old (with_cached (<[pc := l]> (delete vpc (cached v))) (set_block l (alloc_block pc satp) v)) = Some v'
      /\ life_inv v') as Hev.
  { intros vpc old Hc Hpc. destruct (life_evict v vpc old Hv Hc) as (v1 & E & Hv1 & Hd & Ec).
    assert (l <> old) as Hn. { destruct (li_cached _ Hv _ _ Hc) as (b & Hb & _). congruence. }
    eexists. split; [|apply (life_insert v1 pc satp l Hv1 Ht)].
    - rewrite Ec. exact (evict_commute old l (alloc_block pc satp) (<[pc := l]> (delete vpc (cached v))) _ _ Hn E).
    - apply not_elem_of_dom. apply not_elem_of_dom in Hl. set_solver.
    - rewrite Ec. destruct Hpc as [Hpc| ->]; [by rewrite lookup_delete_None; right|apply lookup_delete_eq]. }
  unfold translate_and_insert, put_spec. cbn [cached set_block with_blocks].
  destruct (cached v !! pc) as [old|] eqn:Ec.
  - destruct (Hev pc old Ec (or_intror eq_refl)) as (v' & E & Hv'). rewrite insert_delete_eq in E. by exists v'.
  - destruct victim as [vpc|]; [|eexists; split; [reflexivity|by apply life_insert]].
    destruct (cached v !! vpc) as [old|] eqn:Ev; [by apply Hev; auto|].
    eexists. split; [reflexivity|]. rewrite delete_id by done. by apply life_insert.
Qed.

(** * Changes of flags *)

(** Blocks keep their address and their code; the flags are right again. *)
Definition same_code (b b' : t2c_block) : Prop :=
  tb_pc b' = tb_pc b /\ tb_satp b' = tb_satp b /\ func b' = func b /\ llvm_engine b' = llvm_engine b.
Lemma life_flags v v' :
  life_inv v -> cached v' = cached v -> engines v' = engines v ->
  (forall l, option_Forall2 same_code (blocks v !! l) (blocks v' !! l)) ->
  (forall l b b', blocks v !! l = Some b -> blocks v' !! l = Some b' -> same_code b b' ->
    block_inv v l b -> block_inv v' l b') ->
  (forall l, working v' = Some l -> is_Some (blocks v !! l)) ->
  tables_ok v' (jc v') (ic v') -> life_inv v'.
Proof.
  intros [H1 H2 H3 H4 H5 _ _ _] Ec Ee Hs Hb Hw [T1 T2 T3 T4].
  assert (forall l b, blocks v !! l = Some b -> exists b', blocks v' !! l = Some b' /\ same_code b b') as Hfw.
  { intros l b Hl. specialize (Hs l). rewrite Hl in Hs. inversion Hs; subst. eauto. }
  assert (forall l b', blocks v' !! l = Some b' -> exists b, blocks v !! l = Some b /\ same_code b b') as Hbw.
  { intros l b Hl. specialize (Hs l). rewrite Hl in Hs. inversion Hs; subst. eauto. }
  split; try done.
  - intros l b' Hl. destruct (Hbw l b' Hl) as (b & Hl' & Hc). by apply (Hb l b b'); auto.
  - intros pc l. rewrite Ec. intros Hc. destruct (H2 pc l Hc) as (b & Hl & <-).
    destruct (Hfw l b Hl) as (b' & Hl' & E & _). eauto.
  - intros l Hl. destruct (Hw l Hl) as [b Hb']. destruct (Hfw l b Hb') as (b' & ? & _). eauto.
  - intros l l' b b' Hl Hl'. destruct (Hbw l b Hl) as (b0 & Hb0 & _ & _ & _ & ->).
    destruct (Hbw l' b' Hl') as (b0' & Hb0' & _ & _ & _ & ->). by apply H4.
  - intros e p. rewrite Ee. apply H5.
Qed.
Lemma same_code_refl b : same_code b b.
Proof. done. Qed.
Lemma same_code_key b b' : same_code b b' -> block_key b' = block_key b.
Proof. unfold block_key. by intros (-> & -> & _). Qed.
(** One block changes. *)
Lemma option_same_code (m : gmap Z t2c_block) l b b' :
  m !! l = Some b -> same_code b b' -> forall k, option_Forall2 same_code (m !! k) (<[l := b']> m !! k).
Proof.
  intros Hl Hc k. destruct (decide (k = l)) as [->|].
  - rewrite lookup_insert_eq, Hl. by constructor.
  - rewrite lookup_insert_ne by done. destruct (m !! k); by constructor.
Qed.
(** Published code stays published if the blocks that publish it stay valid. *)
Lemma published_same v v' k f :
  (forall l b, blocks v !! l = Some b -> invalidated b = false -> func b = f -> block_key b = k ->
     exists b', blocks v' !! l = Some b' /\ same_code b b' /\ invalidated b' = false) ->
  cached v' = cached v -> published v k f -> published v' k f.
Proof.
  intros Hb Ec (l & b & Hl & Hc & Hi & Ef & Ek). destruct (Hb l b Hl Hi Ef Ek) as (b' & Hl' & Hs & Hi').
  exists l, b'. rewrite Ec. pose proof (same_code_key _ _ Hs) as Hk. destruct Hs as (-> & _ & -> & _).
  split_and!; try done. congruence.
Qed.

(** One block changes flags that do not matter for its validity. *)
Lemma life_set_block v l b b' q w :
  life_inv v -> blocks v !! l = Some b -> same_code b b' -> invalidated b' = invalidated b ->
  let v' := with_queue q (with_working w (set_block l b' v)) in
  block_inv v' l b' -> (forall k c, k <> l -> blocks v !! k = Some c -> block_inv v k c -> block_inv v' k c) ->
  (w = working v \/ w = Some l) -> life_inv v'.
Proof.
  intros Hv Hl Hs Hi v' Bl Bk Hw. apply (life_flags v); try done.
  - by apply (option_same_code _ l b).
  - intros k c c' Hc Hc' _ Bc. cbn in Hc'.
    apply lookup_insert_Some in Hc' as [(<- & <-)|[Hn Hc']]; [done|]. simplify_eq. by apply Bk.
  - intros k Hk. cbn in Hk. destruct Hw as [-> | ->]; [by apply (li_working _ Hv)|]. simplify_eq. by eexists.
  - assert (forall k f, published v k f -> published v' k f) as Hp.
    { intros k f. apply published_same; [|done]. intros m c Hm Hc _ _. cbn.
      destruct (decide (m = l)) as [->|].
      - rewrite lookup_insert_eq. simplify_eq. exists b'. split_and!; try done. congruence.
      - rewrite lookup_insert_ne by done. exists c. by split_and!. }
    destruct (life_tables_ok v Hv) as [T1 T2 T3 T4]. split; cbn; try done; [|naive_solver].
    intros i c Hc He. destruct (T1 i c Hc He). auto.
Qed.

Lemma life_queue v l :
  life_inv v -> is_Some (blocks v !! l) -> exists v', queue_block l v = Some v' /\ life_inv v'.
Proof.
  intros Hv [b Hb]. unfold queue_block. rewrite Hb. cbn [mbind option_bind].
  destruct (negb (hot2 b) && negb (compiled b)); [|by exists v]. eexists. split; [reflexivity|].
  pose proof (li_block _ Hv l b Hb) as Bb.
  apply (life_set_block v l b (set_compiled true b) _ (working v)); try done.
  - by destruct Bb.
  - intros k c Hn Hc Bc. by destruct Bc.
  - by left.
Qed.

Lemma life_compile_begin v :
  life_inv v -> working v = None -> exists v', compile_begin v = Some v' /\ life_inv v'.
Proof.
  intros Hv Hw. unfold compile_begin. destruct (last (wait_queue v)) as [key|]; [|by exists v].
  assert (life_inv (with_queue (removelast (wait_queue v)) v)) as Hq.
  { destruct Hv as [H1 H2 H3 H4 H5 H6 H7 H8]. split; try done. intros l b Hb. by destruct (H1 l b Hb). }
  cbn [cached with_queue]. destruct (cached v !! u32 key) as [l|] eqn:Ec; [|by eexists].
  destruct (li_cached _ Hv _ _ Ec) as (b & Hb & Epc). cbn [blocks with_queue]. rewrite Hb. cbn [mbind option_bind].
  destruct (negb (tb_satp b =? u32 (Z.shiftr key 32)) || hot2 b) eqn:Eh; [by eexists|].
  apply orb_false_iff in Eh as [_ Eh]. eexists. split; [reflexivity|].
  pose proof (li_block _ Hv l b Hb) as Bb.
  apply (life_set_block v l b (set_is_compiling true b) (removelast (wait_queue v)) (Some l)); try done.
  - destruct Bb as [B1 B2 B3 B4 B5 B6 B7 B8]. split; cbn; try done. left.
    destruct B2 as [?|[? _]]; [done|congruence].
  - intros k c Hn Hc [B1 B2 B3 B4 B5 B6 B7 B8]. rewrite Hw in *. split; cbn; try done.
    + left. destruct B2 as [?|[? _]]; [done|congruence].
    + rewrite B3. split; intros; congruence.
    + congruence.
  - by right.
Qed.

(** * Invalidation *)

Section Fence.
Context (v : t2c_vm) (Hv : life_inv v) (test : t2c_block -> bool) (satp : Z).

Lemma invalidated_lookup l :
  invalidate_cached test satp v !! l =
    (fun b => if bool_decide (cached v !! tb_pc b = Some l) && (tb_satp b =? satp) &&
                 negb (invalidated b) && test b then mark_invalid b else b) <$> blocks v !! l.
Proof. unfold invalidate_cached. rewrite map_lookup_imap. by destruct (blocks v !! l). Qed.

(** The tables keep the entries of other address spaces and pages. *)
Lemma life_invalidate jc' ic' :
  (forall i c, jc' !! i = Some c -> jc_entry c <> 0 -> jc v !! i = Some c /\
     forall b, block_key b = jc_key c -> is_u32 (tb_pc b) -> is_u32 (tb_satp b) -> block_key b <> 0 ->
       tb_satp b = satp -> test b = false) ->
  (forall i c, ic' !! i = Some c -> ic_entry c <> 0 -> ic v !! i = Some c /\
     forall b, block_key b = ic_key c -> is_u32 (tb_pc b) -> is_u32 (tb_satp b) -> block_key b <> 0 ->
       tb_satp b = satp -> test b = false) ->
  length jc' = length (jc v) -> length ic' = length (ic v) ->
  life_inv (with_tables jc' ic' (with_blocks (invalidate_cached test satp v) v)).
Proof using Hv.
  intros Hj Hi Lj Li. set (v1 := with_blocks (invalidate_cached test satp v) v).
  destruct (life_tables_ok v Hv) as [T1 T2 T3 T4].
  assert (forall k f, (forall b, block_key b = k -> is_u32 (tb_pc b) -> is_u32 (tb_satp b) -> block_key b <> 0 ->
      tb_satp b = satp -> test b = false) -> published v k f -> published v1 k f) as Hp.
  { intros k f Hk. apply published_same; [|done]. intros l b Hl Hinv _ Ek. exists b. cbn.
    rewrite invalidated_lookup, Hl. cbn. split; [|by split].
    destruct (block_inv_target v l b (li_block _ Hv _ _ Hl)) as (Hpc & Hsa & _ & Hk0).
    destruct (Z.eqb_spec (tb_satp b) satp) as [E|]; [|by rewrite andb_false_r]. rewrite (Hk b Ek) by done.
    by rewrite !andb_false_r. }
  apply (life_flags v); try done; cbn.
  - intros l. rewrite invalidated_lookup. destruct (blocks v !! l) as [b|]; constructor. by destruct (_ && _).
  - intros l b b' Hl. rewrite invalidated_lookup, Hl. cbn. intros [= <-] _ [B1 B2 B3 B4 B5 B6 B7 B8].
    destruct (_ && _); [|by split]. split; cbn; try done. by right.
  - apply (li_working _ Hv).
  - split; cbn; [| |congruence..].
    + intros i c Hc He. destruct (Hj i c Hc He) as [Hc' Ht]. destruct (T1 i c Hc' He) as [-> Hpub].
      split; [done|]. by apply Hp.
    + intros i c Hc He. destruct (Hi i c Hc He) as [Hc' Ht]. by apply Hp; [|by eapply T2].
Qed.
End Fence.

Lemma life_fence_all v satp : life_inv v -> life_inv (fence_all satp v).
Proof.
  intros Hv. apply life_invalidate; [done|..].
  - by intros i c ->%cleared_lookup.
  - by intros i c ->%inline_cleared_lookup.
  - apply length_fmap.
  - apply length_fmap.
Qed.
Lemma key_in_other_page va satp b k :
  block_key b = k -> is_u32 (tb_pc b) -> is_u32 (tb_satp b) -> block_key b <> 0 ->
  key_in_page va satp k = false -> tb_satp b = satp -> (va_page (tb_pc b) =? va_page va) = false.
Proof.
  intros <- Hp Hs Hk. unfold key_in_page. rewrite (proj2 (Z.eqb_neq _ _) Hk), block_key_eq by done.
  rewrite key_pc, key_satp by done. intros Hin <-. by rewrite Z.eqb_refl in Hin.
Qed.
Lemma life_fence_page v va satp : life_inv v -> life_inv (fence_page va satp v).
Proof.
  intros Hv. apply life_invalidate; [done|..].
  - intros i c Hc He. unfold jit_cache_clear_page in Hc. rewrite list_lookup_fmap in Hc.
    destruct (jc v !! i) as [c'|]; [|done]. injection Hc as Hc.
    destruct (key_in_page va satp (jc_key c')) eqn:Ek; subst c; [by destruct He|].
    split; [done|]. intros. by eapply key_in_other_page.
  - intros i c Hc He. unfold inline_cache_clear_page in Hc. rewrite list_lookup_fmap in Hc.
    destruct (ic v !! i) as [c'|]; [|done]. injection Hc as Hc.
    destruct (key_in_page va satp (ic_key c')) eqn:Ek; subst c; [by destruct He|].
    split; [done|]. intros. by eapply key_in_other_page.
  - apply length_fmap.
  - apply length_fmap.
Qed.

(** * The end of a compilation *)

Section Compiled.
Context (v : t2c_vm) (l : Z) (b : t2c_block).
Context (Hv : life_inv v) (Hw : working v = Some l) (Hb : blocks v !! l = Some b).

(** The block is not the one that publishes some code. *)
Lemma busy_publishes_nothing k f : f <> 0 -> published v k f ->
  exists l' b', l' <> l /\ blocks v !! l' = Some b' /\ cached v !! tb_pc b' = Some l' /\
    invalidated b' = false /\ func b' = f /\ block_key b' = k.
Proof using Hv Hw Hb.
  intros Hf (l' & b' & Hl' & Hc' & Hi & Ef & Ek). exists l', b'. split_and!; try done. intros ->.
  pose proof (li_block _ Hv _ _ Hl') as B. pose proof (bi_busy _ _ _ B Hw).
  destruct (bi_cold _ _ _ B); congruence.
Qed.
Lemma other_block_inv v' l' b' :
  l' <> l -> cached v' = cached v -> engines v ⊆ engines v' -> working v' = None ->
  block_inv v l' b' -> block_inv v' l' b'.
Proof using Hw.
  intros Hn Ec Ee Ew [B1 B2 B3 B4 B5 B6 B7 B8]. split; try done; rewrite ?Ec, ?Ew.
  - left. destruct B2 as [?|(? & _)]; [done|congruence].
  - rewrite B3. split; intros; congruence.
  - intros Hf. destruct (B4 Hf). split; [done|]. by eapply lookup_weaken.
  - done.
Qed.

(** The block had been evicted: the compile thread frees it. *)
Lemma life_free_evicted : should_free b = true -> life_inv (free_block l (with_working None v)).
Proof using Hv Hw Hb.
  intros Hf. pose proof (li_block _ Hv l b Hb) as Bb.
  assert (forall pc, cached v !! pc <> Some l) as Hn.
  { intros pc Hc. pose proof (cached_block_pc v pc l b Hv Hc Hb) as <-.
    destruct (bi_owner _ _ _ Bb) as [[_ ?]|(_ & _ & ?)]; congruence. }
  assert (forall k f, f <> 0 -> published v k f -> published (free_block l (with_working None v)) k f) as Hp.
  { intros k f Hf' Hp. destruct (busy_publishes_nothing k f Hf' Hp) as (l' & b' & Hl & Hb' & Hrest).
    exists l', b'. cbn. rewrite lookup_delete_ne by done. done. }
  destruct Hv as [H1 H2 H3 H4 H5 H6 H7 H8]. split; cbn; try done.
  - intros l' b' [Hl Hb']%lookup_delete_Some. apply other_block_inv; auto.
  - intros pc l' Hc. destruct (H2 pc l' Hc) as (b' & Hb' & <-). exists b'.
    rewrite lookup_delete_ne; [done|]. intros ->. by destruct (Hn (tb_pc b')).
  - intros l1 l2 b1 b2 [_ Hb1]%lookup_delete_Some [_ Hb2]%lookup_delete_Some. by apply H4.
  - intros i c Hc He. destruct (H6 i c Hc He). auto.
  - intros i c Hc He. by apply Hp, (H7 i c).
Qed.

(** The result is discarded. *)
Lemma life_discard :
  should_free b = false -> life_inv (set_block l (set_is_compiling false b) (with_working None v)).
Proof using Hv Hw Hb.
  intros Hf. pose proof (li_block _ Hv l b Hb) as Bb.
  assert (forall k f, f <> 0 -> published v k f -> published (set_block l (set_is_compiling false b) (with_working None v)) k f) as Hp.
  { intros k f Hf' Hp. destruct (busy_publishes_nothing k f Hf' Hp) as (l' & b' & Hl & Hb' & Hrest).
    exists l', b'. cbn. rewrite lookup_insert_ne by done. done. }
  apply (life_flags v); try done; cbn.
  - by apply (option_same_code _ l b).
  - intros k c c' Hc [(<- & <-)|[Hn Hc']]%lookup_insert_Some _ Bc.
    + destruct Bb as [B1 B2 B3 B4 B5 B6 B7 B8]. split; cbn; try done. left.
      destruct B2 as [?|(_ & ? & _)]; [done|congruence].
    + simplify_eq. by apply other_block_inv.
  - destruct (life_tables_ok v Hv) as [T1 T2 T3 T4]. split; cbn; try done.
    + intros i c Hc He. destruct (T1 i c Hc He). auto.
    + intros i c Hc He. by apply Hp, (T2 i c).
Qed.

(** The block gets its code. *)
Context (f e : Z) (Hsf : should_free b = false) (Hi : invalidated b = false).
Context (Hf : f <> 0) (He0 : e <> 0) (He : engines v !! e = None).
Definition code_block : t2c_block := set_hot2 true (set_code f e (set_is_compiling false b)).
Definition code_vm : t2c_vm :=
  with_engines (<[e := (f, block_key b)]> (engines v)) (set_block l code_block (with_working None v)).

Lemma code_vm_published k g : g <> 0 -> published v k g -> published code_vm k g.
Proof using Hv Hw Hb.
  intros Hg Hp. destruct (busy_publishes_nothing k g Hg Hp) as (l' & c & Hl & Hc' & Hrest).
  exists l', c. cbn. rewrite lookup_insert_ne by done. done.
Qed.
Lemma engine_fresh k c : blocks v !! k = Some c -> llvm_engine c <> e.
Proof using Hv He0 He.
  intros Hk E. pose proof (li_block _ Hv k c Hk) as B. destruct (decide (func c = 0)) as [E0|Hfc].
  - pose proof (bi_no_code _ _ _ B E0). congruence.
  - destruct (bi_code _ _ _ B Hfc) as [_ Hl]. congruence.
Qed.
Lemma code_block_inv : cached v !! tb_pc b = Some l -> block_inv code_vm l code_block.
Proof using Hv Hb Hsf Hi Hf He0.
  intros Hc. destruct (li_block _ Hv l b Hb) as [B1 B2 B3 B4 B5 B6 B7 B8].
  split; cbn; try done; [by left|by rewrite lookup_insert_eq|by left].
Qed.

Lemma life_code_vm : cached v !! tb_pc b = Some l -> life_inv code_vm.
Proof using Hv Hw Hb Hsf Hi Hf He0 He.
  intros Hc. pose proof engine_fresh as Hfresh. pose proof code_vm_published as Hp.
  pose proof (code_block_inv Hc) as Bl. destruct Hv as [H1 H2 H3 H4 H5 H6 H7 H8]. split; cbn; try done.
  - intros l' c [(<- & <-)|[Hn Hc']]%lookup_insert_Some; [done|].
    apply other_block_inv; auto. cbn. by apply insert_subseteq.
  - intros pc l' Hpc. destruct (H2 pc l' Hpc) as (c & Hl' & <-). destruct (decide (l' = l)) as [->|].
    + simplify_eq. eexists. by rewrite lookup_insert_eq.
    + exists c. by rewrite lookup_insert_ne.
  - intros l1 l2 b1 b2 [(<- & <-)|[_ Hb1]]%lookup_insert_Some [(<- & <-)|[_ Hb2]]%lookup_insert_Some; cbn.
    + done.
    + intros _ E. by destruct (Hfresh l2 b2 Hb2).
    + intros _ E. by destruct (Hfresh l1 b1 Hb1).
    + by apply H4.
  - intros e' p [(<- & _)|[_ He']]%lookup_insert_Some; [done|by eapply H5].
  - intros i c Hci Hce. destruct (H6 i c Hci Hce). auto.
  - intros i c Hci Hce. by apply Hp, (H7 i c).
Qed.

(** The code is published. *)
Lemma life_publish :
  life_inv (with_tables (jit_cache_update (jc v) (block_key b) f) (ic v) code_vm).
Proof using Hv Hw Hb Hsf Hi Hf He0 He.
  assert (cached v !! tb_pc b = Some l) as Hc.
  { destruct (bi_owner _ _ _ (li_block _ Hv l b Hb)) as [[? _]|(_ & ? & _)]; [done|congruence]. }
  destruct (life_tables_ok v Hv) as [T1 T2 T3 T4]. apply life_tables; [by apply life_code_vm|].
  split; [| |unfold jit_cache_update; by rewrite length_alter|done].
  - intros i c [[Hci _]|(-> & Ek & Ef)]%update_lookup Hce.
    + destruct (T1 i c Hci Hce). split; [done|]. by apply code_vm_published.
    + rewrite Ek, Ef. split; [done|]. exists l, code_block. cbn. rewrite lookup_insert_eq. done.
  - intros i c Hci Hce. by apply code_vm_published, (T2 i c).
Qed.
End Compiled.

Lemma life_compile_end v f e :
  life_inv v -> is_Some (working v) -> e <> 0 -> e ∉ dom (engines v) ->
  exists v', compile_end f e v = Some v' /\ life_inv v'.
Proof.
  intros Hv [l Hw] He0 He. apply not_elem_of_dom in He. destruct (li_working _ Hv l Hw) as [b Hb].
  unfold compile_end. rewrite Hw. cbn [mbind option_bind]. rewrite Hb. cbn [mbind option_bind].
  cbn [should_free invalidated set_is_compiling]. destruct (should_free b) eqn:Es.
  { eexists. split; [reflexivity|]. by eapply life_free_evicted. }
  destruct ((f =? 0) || invalidated b) eqn:Ef.
  { eexists. split; [reflexivity|]. by apply life_discard. }
  apply orb_false_iff in Ef as [Hf Hi]. apply Z.eqb_neq in Hf.
  eexists. split; [reflexivity|]. by apply (life_publish v l b).
Qed.

(** * All interleavings *)

Lemma life_step v v' : life_inv v -> t2c_step v v' -> life_inv v'.
Proof.
  intros Hv Hs. destruct Hs as [v v' pc satp l victim Ht _ Hl E|v v' pc satp l Hf E|v v' addr satp f (Ha & Hs & _) E
    |v satp _|v va satp _ _|v|v v' Hw E|v v' f e Hw He0 He E].
  - destruct (life_translate v pc satp l victim Hv Ht Hl) as (v1 & E1 & Hv1). congruence.
  - unfold find_block in Hf. destruct (cached v !! pc) as [l'|] eqn:Ec; [|done].
    destruct (li_cached _ Hv _ _ Ec) as (b & Hb & _). rewrite Hb in Hf. cbn in Hf.
    destruct (negb (tb_satp b =? satp) || invalidated b); [done|]. injection Hf as ->.
    destruct (life_queue v l Hv) as (v1 & E1 & Hv1); [by eexists|]. congruence.
  - destruct (resolve_published v addr satp Hv Ha Hs) as (f' & ic' & E1 & T & _).
    rewrite E in E1. injection E1 as _ ->. by apply life_tables.
  - by apply life_fence_all.
  - by apply life_fence_page.
  - by apply life_flush.
  - destruct (life_compile_begin v Hv Hw) as (v1 & E1 & Hv1). congruence.
  - destruct (life_compile_end v f e Hv Hw He0 He) as (v1 & E1 & Hv1). congruence.
Qed.
Lemma life_reachable v : rtc t2c_step t2c_start v -> life_inv v.
Proof.
  intros Hs. pose proof life_start as H0. induction Hs as [v|v v1 v2 Hst _ IH]; [done|].
  apply IH. by eapply life_step.
Qed.

(** The function belongs to a live engine, which compiled it for the key. *)
Definition live_code (v : t2c_vm) (k f : Z) : Prop := exists e, engines v !! e = Some (f, k).
Lemma published_live v k f : life_inv v -> f <> 0 -> published v k f -> live_code v k f.
Proof.
  intros Hv Hf (l & b & Hb & _ & _ & Ef & Ek). subst f k.
  destruct (bi_code _ _ _ (li_block _ Hv l b Hb) Hf) as [_ He]. by eexists.
Qed.
Lemma find_block_spec v pc satp :
  life_inv v -> exists o, find_block v pc satp = Some o /\
    forall l, o = Some l -> exists b, blocks v !! l = Some b /\ cached v !! pc = Some l /\
      tb_pc b = pc /\ tb_satp b = satp /\ invalidated b = false.
Proof.
  intros Hv. unfold find_block. destruct (cached v !! pc) as [l|] eqn:Ec; [|by eexists].
  destruct (li_cached _ Hv _ _ Ec) as (b & Hb & Epc). rewrite Hb. cbn.
  destruct (Z.eqb_spec (tb_satp b) satp), (invalidated b) eqn:Ei; cbn; eexists; (split; [reflexivity|]); try done.
  intros l' [= <-]. by exists b.
Qed.

(** What a step may need is never a block that has been freed. *)
Record no_dangling (v : t2c_vm) : Prop := {
  nd_find : forall pc satp, is_Some (find_block v pc satp);
  nd_insert : forall pc satp l victim, good_target pc satp -> l ∉ dom (blocks v) ->
    is_Some (translate_and_insert pc satp l victim v);
  nd_queue : forall pc satp l, find_block v pc satp = Some (Some l) -> is_Some (queue_block l v);
  nd_begin : working v = None -> is_Some (compile_begin v);
  nd_end : forall f e, is_Some (working v) -> e <> 0 -> e ∉ dom (engines v) -> is_Some (compile_end f e v) }.
Lemma life_no_dangling v : life_inv v -> no_dangling v.
Proof.
  intros Hv. split.
  - intros pc satp. destruct (find_block_spec v pc satp Hv) as (o & -> & _). by eexists.
  - intros pc satp l victim Ht Hl. destruct (life_translate v pc satp l victim Hv Ht Hl) as (v' & -> & _). by eexists.
  - intros pc satp l Hf. destruct (find_block_spec v pc satp Hv) as (o & Eo & Ho).
    destruct (Ho l ltac:(congruence)) as (b & Hb & _).
    destruct (life_queue v l Hv) as (v' & -> & _); by eexists.
  - intros Hw. destruct (life_compile_begin v Hv Hw) as (v' & -> & _). by eexists.
  - intros f e Hw He0 He. destruct (life_compile_end v f e Hv Hw He0 He) as (v' & -> & _). by eexists.
Qed.

(** C7: However the steps of the two threads interleave, when no block is at address 0 of address
    space 0, no jump goes there and no translation meets an illegal instruction, no step reads a block that has been freed; an indirect
    jump in compiled code and [rv_step] only call functions whose engine is
    alive and which were compiled for exactly the address and the address space they are called
    for; and every block that is allocated is in the cache or is the one being compiled, so
    that it will be freed. *)
Theorem t2c_threads_safe v :
  rtc t2c_step t2c_start v ->
  no_dangling v /\
  (forall addr satp f v', good_target addr satp -> run_indirect addr satp v = Some (Some f, v') ->
     live_code v (key_of addr satp) f) /\
  (forall pc satp l f, find_block v pc satp = Some (Some l) -> run_hot2 l v = Some (Some f) ->
     live_code v (key_of pc satp) f) /\
  (forall l b, blocks v !! l = Some b -> cached v !! tb_pc b = Some l \/ working v = Some l).
Proof.
  intros Hv%life_reachable. split_and!.
  - by apply life_no_dangling.
  - intros addr satp f v' (Ha & Hs & _) E. destruct (resolve_published v addr satp Hv Ha Hs) as (o & ic' & E1 & _ & Hp).
    rewrite E in E1. injection E1 as <- _. destruct (Hp f eq_refl). by apply published_live.
  - intros pc satp l f Hf Hr. destruct (find_block_spec v pc satp Hv) as (o & Eo & Ho).
    destruct (Ho l ltac:(congruence)) as (b & Hb & Hc & <- & <- & Hi).
    pose proof (li_block _ Hv l b Hb) as B. destruct (block_inv_target v l b B) as (_ & _ & <- & _).
    unfold run_hot2 in Hr. rewrite Hb in Hr. cbn in Hr. destruct (hot2 b && negb (func b =? 0)) eqn:Eh; [|done].
    injection Hr as <-. apply andb_true_iff in Eh as [_ Eh]. rewrite negb_true_iff, Z.eqb_neq in Eh.
    apply published_live; [done..|]. by exists l, b.
  - intros l b Hb. destruct (bi_owner _ _ _ (li_block _ Hv l b Hb)) as [[? _]|(? & _)]; auto.
Qed.

(** A block is translated, queued, compiled, and called. *)
Definition sample_life : option t2c_vm :=
  v ← translate_and_insert 0x100 0 1 None t2c_start;
  v ← queue_block 1 v;
  v ← compile_begin v;
  compile_end 0x7000 9 v.
Lemma sample_life_reachable v : sample_life = Some v -> rtc t2c_step t2c_start v.
Proof.
  unfold sample_life. destruct (translate_and_insert 0x100 0 1 None t2c_start) as [v1|] eqn:E1; [|done].
  cbn [mbind option_bind]. destruct (queue_block 1 v1) as [v2|] eqn:E2; [|done]. cbn [mbind option_bind].
  destruct (compile_begin v2) as [v3|] eqn:E3; [|done]. cbn [mbind option_bind]. intros E4.
  cbn in E1. injection E1 as <-. cbn in E2. injection E2 as <-. cbn in E3. injection E3 as <-.
  eapply rtc_l; [apply (St_insert _ _ 0x100 0 1 None); [|reflexivity|cbn; set_solver|reflexivity]|].
  { split_and!; [unfold is_u32; lia..|done]. }
  eapply rtc_l; [by apply (St_queue _ _ 0x100 0 1)|].
  eapply rtc_l; [by apply St_compile_begin|].
  apply rtc_once. apply (St_compile_end _ _ 0x7000 9); [by eexists|done|cbn; set_solver|done].
Qed.
Lemma t2c_threads_safe_witness :
  exists v v', sample_life = Some v /\ run_indirect 0x100 0 v = Some (Some 0x7000, v') /\
    live_code v (key_of 0x100 0) 0x7000.
Proof.
  destruct sample_life as [v|] eqn:E; [|vm_compute in E; discriminate E].
  pose proof (sample_life_reachable v E) as Hr.
  destruct (run_indirect 0x100 0 v) as [[o v']|] eqn:Ei.
  2: { assert (match sample_life with Some v => run_indirect 0x100 0 v | None => None end = None) as H.
       { by rewrite E. } vm_compute in H. discriminate H. }
  assert (o = Some 0x7000) as ->.
  { assert (match sample_life with Some v => option_map fst (run_indirect 0x100 0 v) | None => None end = Some o) as H.
    { rewrite E, Ei. reflexivity. } vm_compute in H. congruence. }
  exists v, v'. split; [reflexivity|]. split; [exact Ei|].
  destruct (t2c_threads_safe v Hr) as (_ & Hind & _). apply (Hind 0x100 0 0x7000 v'); [|exact Ei].
  split_and!; [unfold is_u32; lia..|done].
Defined.

(** An engine is lost when a compiled block is invalidated, compiled a second time because its
    key was queued twice, and evicted meanwhile: the compile thread frees the block and the new
    engine, not the old one. *)
Definition leaky_life : option t2c_vm :=
  v ← translate_and_insert 0x100 0 1 None t2c_start;
  v ← queue_block 1 v;
  v ← translate_and_insert 0x200 0 2 (Some 0x100) v;
  v ← translate_and_insert 0x100 0 3 None v;
  v ← queue_block 3 v;
  v ← compile_begin v;
  v ← compile_end 0x7000 9 v;
  v ← compile_begin (fence_all 0 v);
  v ← translate_and_insert 0x100 0 4 None v;
  compile_end 0x8000 10 v.
Lemma engine_leaked :
  option_map (fun v => (map_to_list (engines v), (fun p => llvm_engine p.2) <$> map_to_list (blocks v))) leaky_life
    = Some ([(9, (0x7000, 0x100))], [0; 0]).
Proof. vm_compute. reflexivity. Qed.
