(* ===== verification/Llvm.v ===== *)
(** The part of LLVM that the tier-2 compiler uses.

    LLVM is a library.  What the compiler gives it is data: basic blocks, filled with
    instructions by calls of the builder.  This file has that data, one builder function per
    call that t2c.c and t2c_template.c make, and the effect of the instructions as the
    language reference of LLVM documents it.  What LLVM makes of a function afterwards, the
    passes and the code of the host, is not described. *)

From S2P Require Import Prelude.
From S2P Require Import X86.

(** * Syntax *)

Inductive lltype : Set := I1 | I8 | I16 | I32 | I64 | Ptr.
Definition ty_bits (t : lltype) : Z :=
  match t with I1 => 1 | I8 => 8 | I16 => 16 | I32 => 32 | I64 => 64 | Ptr => 64 end.
Definition ty_bytes (t : lltype) : nat :=
  match t with I1 => 1 | I8 => 1 | I16 => 2 | I32 => 4 | I64 => 8 | Ptr => 8 end.

(** The members of a structure that needs no padding. *)
Definition llstruct : Set := list lltype.
Definition struct_size (t : llstruct) : Z := foldr (fun t n => Z.of_nat (ty_bytes t) + n) 0 t.
Definition struct_offset (t : llstruct) (i : nat) : Z := struct_size (take i t).

(** The result of an instruction is named by the number the builder gave it. *)
Inductive llvalue : Set :=
  | LParam
  | LConst (t : lltype) (v : Z)
  | LInst (t : lltype) (id : nat).
Definition vtype (v : llvalue) : lltype :=
  match v with LParam => Ptr | LConst t _ => t | LInst t _ => t end.

Inductive llbin : Set :=
  | LAdd | LSub | LMul | LSDiv | LUDiv | LSRem | LURem | LShl | LLShr | LAShr | LAnd | LOr | LXor.
Inductive llpred : Set := LEQ | LNE | LSLT | LSGE | LULT | LUGE.

Inductive llinsn : Set :=
  | LAlloca (t : lltype)
  | LLoad (t : lltype) (ptr : llvalue)
  | LStore (v ptr : llvalue)
  | LAtomicAdd (ptr v : llvalue)
  | LGEP (scale : Z) (ptr idx : llvalue)
  | LBin (op : llbin) (a b : llvalue)
  | LICmp (p : llpred) (a b : llvalue)
  | LSelect (c a b : llvalue)
  | LTrunc (v : llvalue) (t : lltype)
  | LZExt (v : llvalue) (t : lltype)
  | LSExt (v : llvalue) (t : lltype)
  | LBitcast (v : llvalue) (t : lltype)     (* also inttoptr and ptrtoint *)
  | LCall (f : llvalue) (args : list llvalue)
  | LBr (b : nat)
  | LCondBr (c : llvalue) (b1 b2 : nat)
  | LRetVoid.

(** A function being built: its basic blocks, and the number of the next result. *)
Abbreviation llcode := (list (nat * llinsn)).
Record llfun := mk_llfun { ll_blocks : list llcode; ll_next : nat }.

(** * The builder

    A builder is positioned at the end of a basic block, which stands for it.  [None]: code
    the compiler marks as unreachable, a failed assertion, or a builder that is [NULL]. *)

Definition llM (A : Type) : Type := llfun -> option (A * llfun).
#[export] Instance llM_ret : MRet llM := fun A a f => Some (a, f).
#[export] Instance llM_bind : MBind llM := fun A B k m f =>
  match m f with Some (a, f) => k a f | None => None end.
Definition lunreachable {A} : llM A := fun _ => None.
Definition lwhen (b : bool) (m : llM unit) : llM unit := if b then m else mret tt.

Definition LLVMAppendBasicBlock : llM nat := fun f =>
  Some (length (ll_blocks f), mk_llfun (ll_blocks f ++ [[]]) (ll_next f)).
Definition build (b : nat) (i : llinsn) : llM nat := fun f =>
  _ ← ll_blocks f !! b;
  Some (ll_next f,
        mk_llfun (alter (fun c => c ++ [(ll_next f, i)]) b (ll_blocks f)) (S (ll_next f))).
Definition build_value (b : nat) (t : lltype) (i : llinsn) : llM llvalue :=
  id ← build b i; mret (LInst t id).
Definition build_void (b : nat) (i : llinsn) : llM unit := _ ← build b i; mret tt.

(** [LLVMConstInt(ty, N, sext)]: the low bits of [N], a 64-bit integer. *)
Definition LLVMConstInt (t : lltype) (n : Z) : llvalue := LConst t (n mod 2 ^ ty_bits t).
Definition LLVMBuildAlloca b t := build_value b Ptr (LAlloca t).
Definition LLVMBuildLoad2 b t ptr := build_value b t (LLoad t ptr).
Definition LLVMBuildStore b v ptr := build_void b (LStore v ptr).
Definition LLVMBuildAtomicRMWAdd b ptr v := build_void b (LAtomicAdd ptr v).
Definition LLVMBuildInBoundsGEP2 b (size : Z) ptr idx := build_value b Ptr (LGEP size ptr idx).
Definition LLVMBuildStructGEP2 b (t : llstruct) ptr i :=
  build_value b Ptr (LGEP 1 ptr (LLVMConstInt I64 (struct_offset t i))).
Definition LLVMBuildBin op b x y := build_value b (vtype x) (LBin op x y).
Definition LLVMBuildICmp b p x y := build_value b I1 (LICmp p x y).
Definition LLVMBuildIsNotNull b x := build_value b I1 (LICmp LNE x (LConst Ptr 0)).
Definition LLVMBuildSelect b c x y := build_value b (vtype x) (LSelect c x y).
Definition LLVMBuildTrunc b x t := build_value b t (LTrunc x t).
Definition LLVMBuildZExt b x t := build_value b t (LZExt x t).
Definition LLVMBuildSExt b x t := build_value b t (LSExt x t).
Definition LLVMBuildIntToPtr b x := build_value b Ptr (LBitcast x Ptr).
Definition LLVMBuildPtrToInt b x := build_value b I64 (LBitcast x I64).
(** An extension for a wider type, truncation for a narrower one. *)
Definition LLVMBuildIntCast2 b x t (is_signed : bool) :=
  if ty_bits t <? ty_bits (vtype x) then LLVMBuildTrunc b x t
  else if ty_bits (vtype x) <? ty_bits t
       then if is_signed then LLVMBuildSExt b x t else LLVMBuildZExt b x t
       else mret x.
Definition LLVMBuildCall2 b f args := build_void b (LCall f args).
Definition LLVMBuildBr b target := build_void b (LBr target).
Definition LLVMBuildCondBr b c t e := build_void b (LCondBr c t e).
Definition LLVMBuildRetVoid b := build_void b LRetVoid.

(** * Effect

    Integers are unsigned.  What the reference calls undefined behaviour or poison has no
    result. *)

Record llstate := mk_llstate { ll_env : gmap nat Z; ll_mem : gmap Z Z; ll_sp : Z }.
Definition set_env (id : nat) (v : Z) (s : llstate) : llstate :=
  mk_llstate (<[id := v]> (ll_env s)) (ll_mem s) (ll_sp s).
Definition set_ll_mem (m : gmap Z Z) (s : llstate) : llstate := mk_llstate (ll_env s) m (ll_sp s).

Definition ty_mod (t : lltype) (v : Z) : Z := v mod 2 ^ ty_bits t.
Definition ty_signed (t : lltype) (v : Z) : Z :=
  if v <? 2 ^ (ty_bits t - 1) then v else v - 2 ^ ty_bits t.
Definition eval_bin (op : llbin) (t : lltype) (a b : Z) : option Z :=
  let n := ty_bits t in
  let sa := ty_signed t a in
  let sb := ty_signed t b in
  match op with
  | LAdd => Some (ty_mod t (a + b))
  | LSub => Some (ty_mod t (a - b))
  | LMul => Some (ty_mod t (a * b))
  | LUDiv => if b =? 0 then None else Some (a / b)
  | LURem => if b =? 0 then None else Some (a mod b)
  | LSDiv =>
      if (b =? 0) || ((sa =? - 2 ^ (n - 1)) && (sb =? -1)) then None
      else Some (ty_mod t (Z.quot sa sb))
  | LSRem =>
      if (b =? 0) || ((sa =? - 2 ^ (n - 1)) && (sb =? -1)) then None
      else Some (ty_mod t (Z.rem sa sb))
  | LShl => if b <? n then Some (ty_mod t (Z.shiftl a b)) else None
  | LLShr => if b <? n then Some (Z.shiftr a b) else None
  | LAShr => if b <? n then Some (ty_mod t (Z.shiftr sa b)) else None
  | LAnd => Some (Z.land a b)
  | LOr => Some (Z.lor a b)
  | LXor => Some (Z.lxor a b)
  end.
Definition eval_pred (p : llpred) (t : lltype) (a b : Z) : bool :=
  match p with
  | LEQ => a =? b
  | LNE => negb (a =? b)
  | LSLT => ty_signed t a <? ty_signed t b
  | LSGE => ty_signed t b <=? ty_signed t a
  | LULT => a <? b
  | LUGE => b <=? a
  end.

Inductive lleffect : Set :=
  | Lnext (s : llstate)
  | Lgoto (b : nat) (s : llstate)
  | Lreturn (s : llstate).

Section Exec.
(** The argument of the function, and the functions of the host: [ext f args m] is the memory
    after the call of the function at [f]. *)
Context (param : Z) (ext : Z -> list Z -> gmap Z Z -> option (gmap Z Z)).

Definition eval (s : llstate) (v : llvalue) : option Z :=
  match v with
  | LParam => Some param
  | LConst _ c => Some c
  | LInst _ id => ll_env s !! id
  end.
Definition result (id : nat) (v : Z) (s : llstate) : option lleffect := Some (Lnext (set_env id v s)).

Definition exec_insn (id : nat) (i : llinsn) (s : llstate) : option lleffect :=
  match i with
  | LAlloca t =>
      let a := ll_sp s - Z.of_nat (ty_bytes t) in
      Some (Lnext (set_env id a (mk_llstate (ll_env s) (ll_mem s) a)))
  | LLoad t p => a ← eval s p; v ← hload (ty_bytes t) (ll_mem s) a; result id v s
  | LStore v p =>
      x ← eval s v; a ← eval s p;
      m ← hstore (ty_bytes (vtype v)) (ll_mem s) a x; Some (Lnext (set_ll_mem m s))
  | LAtomicAdd p v =>
      x ← eval s v; a ← eval s p;
      old ← hload (ty_bytes (vtype v)) (ll_mem s) a;
      m ← hstore (ty_bytes (vtype v)) (ll_mem s) a (ty_mod (vtype v) (old + x));
      result id old (set_ll_mem m s)
  | LGEP n p k =>
      a ← eval s p; i ← eval s k; result id (u64 (a + n * ty_signed (vtype k) i)) s
  | LBin op a b =>
      x ← eval s a; y ← eval s b; v ← eval_bin op (vtype a) x y; result id v s
  | LICmp p a b =>
      x ← eval s a; y ← eval s b; result id (b2u (eval_pred p (vtype a) x y)) s
  | LSelect c a b =>
      k ← eval s c; x ← eval s a; y ← eval s b; result id (if k =? 0 then y else x) s
  | LTrunc v t => x ← eval s v; result id (ty_mod t x) s
  | LZExt v t => x ← eval s v; result id x s
  | LSExt v t => x ← eval s v; result id (ty_mod t (ty_signed (vtype v) x)) s
  | LBitcast v t => x ← eval s v; result id x s
  | LCall f args =>
      a ← eval s f; xs ← mapM (eval s) args; m ← ext a xs (ll_mem s); Some (Lnext (set_ll_mem m s))
  | LBr b => Some (Lgoto b s)
  | LCondBr c b1 b2 => k ← eval s c; Some (Lgoto (if k =? 0 then b2 else b1) s)
  | LRetVoid => Some (Lreturn s)
  end.

(** Straight-line code. *)
Fixpoint exec_code (l : llcode) (s : llstate) : option lleffect :=
  match l with
  | [] => Some (Lnext s)
  | (id, i) :: l =>
      e ← exec_insn id i s;
      match e with Lnext s => exec_code l s | _ => Some e end
  end.
(** From a basic block to the next one. *)
Definition exec_block (f : llfun) (b : nat) (s : llstate) : option lleffect :=
  l ← ll_blocks f !! b;
  e ← exec_code l s;
  match e with Lnext _ => None | _ => Some e end.
(** At most [fuel] basic blocks; the function returns when it reaches [ret]. *)
Fixpoint exec_fun (fuel : nat) (f : llfun) (b : nat) (s : llstate) : option (option llstate) :=
  match fuel with
  | O => Some None
  | S fuel =>
      e ← exec_block f b s;
      match e with
      | Lgoto b s => exec_fun fuel f b s
      | Lreturn s => Some (Some s)
      | Lnext _ => None
      end
  end.
End Exec.
