(* ===== verification/T2c.v ===== *)
(** t2c.c and t2c_template.c for the build without SYSTEM: one generator of LLVM IR per
    instruction ([t2c_<inst>]), the helper for indirect jumps, and the translation of a block
    and of the blocks it is linked to into one function.

    A handler is given the builder [b], a basic block; it yields what it assigns to
    [*taken_builder] and [*untaken_builder].  [LParam] is the argument of the function, the
    pointer to the emulator state. *)

From S2P Require Import Prelude.
From S2P Require Import Opcode.
From S2P Require Import Decode.
From S2P Require Import Fusion.
From S2P Require Import Utils.
From S2P Require Import JitAlloc.
From S2P Require Import JitGen.
From S2P Require Import T2cCache.
From S2P Require Import Llvm.

(** The address of guest RAM, and [offsetof] in [riscv_t] for the members after [PC], whose
    values depend on the configuration; [on_ecall] and [on_ebreak] include the offset of
    [io]. *)
Record t2c_env := mk_t2c_env {
  mem_base : Z; off_csr_cycle : Z; off_on_ecall : Z; off_on_ebreak : Z;
  off_inline_cache : Z; off_jit_cache : Z }.

Definition llift {A} (o : option A) : llM A := fun f => a ← o; Some (a, f).

(** * Pieces of generated code *)

Module Gen2.
Section Gen2.
Context (env : t2c_env) (v : jit_vm) (insn_counter : llvalue).

(** [T2C_LLVM_GEN_ADDR]: the state as an array of 32-bit words. *)
Definition gen_addr (b : nat) (word : Z) : llM llvalue :=
  LLVMBuildInBoundsGEP2 b 4 LParam (LLVMConstInt I32 word).
Definition gen_X_addr (b : nat) (r : Z) : llM llvalue := gen_addr b (offsetof_X / 4 + r).
Definition gen_PC_addr (b : nat) : llM llvalue := gen_addr b (offsetof_PC / 4).
Definition gen_csr_cycle_addr (b : nat) : llM llvalue := gen_addr b (off_csr_cycle env / 4).

(** [T2C_LLVM_GEN_STORE_IMM32] *)
Definition store_imm32 (b : nat) (val : Z) (addr : llvalue) : llM unit :=
  LLVMBuildStore b (LLVMConstInt I32 val) addr.
(** [T2C_LLVM_GEN_LOAD_VMREG] with the address of a guest register. *)
Definition load_vmreg (b : nat) (t : lltype) (r : Z) : llM llvalue :=
  a ← gen_X_addr b r; LLVMBuildLoad2 b t a.
Definition store_vmreg (b : nat) (val : llvalue) (r : Z) : llM unit :=
  a ← gen_X_addr b r; LLVMBuildStore b val a.
Definition set_vmreg (b : nat) (r val : Z) : llM unit := a ← gen_X_addr b r; store_imm32 b val a.
(** [T2C_LLVM_GEN_ALU32_IMM], [T2C_LLVM_GEN_ALU64_IMM] *)
Definition alu32_imm (op : llbin) (b : nat) (x : llvalue) (imm : Z) : llM llvalue :=
  LLVMBuildBin op b x (LLVMConstInt I32 imm).
Definition alu64_imm (op : llbin) (b : nat) (x : llvalue) (imm : Z) : llM llvalue :=
  LLVMBuildBin op b x (LLVMConstInt I64 imm).

(** The prologue of [T2C_OP]. *)
Definition count_insn (b : nat) : llM unit :=
  cnt ← LLVMBuildLoad2 b I64 insn_counter;
  cnt ← alu64_imm LAdd b cnt 1;
  LLVMBuildStore b cnt insn_counter.
(** [T2C_STORE_TIMER] *)
Definition store_timer (b : nat) : llM unit :=
  cycle_ptr ← gen_csr_cycle_addr b;
  cnt ← LLVMBuildLoad2 b I64 insn_counter;
  LLVMBuildAtomicRMWAdd b cycle_ptr cnt.
(** Leaving the function for the address [pc]. *)
Definition gen_leave (b : nat) (pc : Z) (addr_PC : llvalue) : llM unit :=
  store_imm32 b pc addr_PC;; store_timer b;; LLVMBuildRetVoid b.

(** [t2c_gen_mem_loc], also written out for the stack pointer. *)
Definition gen_mem_loc (b : nat) (rs imm : Z) : llM llvalue :=
  x ← load_vmreg b I32 rs;
  x ← LLVMBuildZExt b x I64;
  addr ← alu64_imm LAdd b x (u64 (imm + mem_base env));
  LLVMBuildIntToPtr b addr.

(** [t2c_gen_call_io_func] *)
Definition gen_call_io_func (b : nat) (byte_offset : Z) : llM unit :=
  rv_int ← LLVMBuildPtrToInt b LParam;
  func_ptr_addr ← alu64_imm LAdd b rv_int byte_offset;
  func_ptr_ptr ← LLVMBuildIntToPtr b func_ptr_addr;
  io_func ← LLVMBuildLoad2 b Ptr func_ptr_ptr;
  LLVMBuildCall2 b io_func [LParam].

Definition t2c_check_valid_blk (pc : Z) : option bool :=
  c ← cached_block v pc;
  Some (match c with Some (_, blk) => jb_translatable blk | None => false end).
(** [link->pc], the address of the block a link designates. *)
Definition link_pc (link : Z) : option Z := blk ← jheap v !! link; Some (jb_pc_start blk).
(** [link && t2c_check_valid_blk(rv, block, link->pc)] *)
Definition valid_link (link : option Z) : option bool :=
  match link with
  | None => Some false
  | Some l => pc ← link_pc l; t2c_check_valid_blk pc
  end.

(** * Indirect jumps *)

Definition t2c_jit_cache_struct_type : llstruct := [I32; I32; I64; Ptr].
Definition t2c_inline_cache_struct_type : llstruct := [I64; Ptr].

(** The slot of a table: hash of the address, then the element. *)
Definition gen_slot (b : nat) (offset entries : Z) (t : llstruct) (addr : llvalue) : llM llvalue :=
  ptr ← LLVMBuildInBoundsGEP2 b 1 LParam (LLVMConstInt I64 offset);
  base ← LLVMBuildLoad2 b Ptr ptr;
  high ← LLVMBuildBin LLShr b addr (LLVMConstInt I32 12);
  mixed ← LLVMBuildBin LXor b addr high;
  hash ← LLVMBuildBin LAnd b mixed (LLVMConstInt I32 (entries - 1));
  idx ← LLVMBuildIntCast2 b hash I64 false;
  LLVMBuildInBoundsGEP2 b (struct_size t) base idx.

Definition t2c_jit_cache_helper (b : nat) (addr : llvalue) : llM unit :=
  expected_key ← LLVMBuildIntCast2 b addr I64 false;
  (* inline cache *)
  ic_element_ptr ← gen_slot b (off_inline_cache env) N_INLINE_CACHE_ENTRIES
    t2c_inline_cache_struct_type addr;
  ic_key_ptr ← LLVMBuildStructGEP2 b t2c_inline_cache_struct_type ic_element_ptr 0;
  ic_key ← LLVMBuildLoad2 b I64 ic_key_ptr;
  ic_entry_ptr ← LLVMBuildStructGEP2 b t2c_inline_cache_struct_type ic_element_ptr 1;
  ic_entry ← LLVMBuildLoad2 b Ptr ic_entry_ptr;
  ic_key_match ← LLVMBuildICmp b LEQ ic_key expected_key;
  ic_entry_valid ← LLVMBuildIsNotNull b ic_entry;
  ic_hit ← LLVMBuildBin LAnd b ic_key_match ic_entry_valid;
  ic_hit_block ← LLVMAppendBasicBlock;
  ic_miss_block ← LLVMAppendBasicBlock;
  LLVMBuildCondBr b ic_hit ic_hit_block ic_miss_block;;
  (* hit *)
  store_timer ic_hit_block;;
  LLVMBuildCall2 ic_hit_block ic_entry [LParam];;
  LLVMBuildRetVoid ic_hit_block;;
  (* miss *)
  seq_even ← LLVMAppendBasicBlock;
  key_match ← LLVMAppendBasicBlock;
  call_jit ← LLVMAppendBasicBlock;
  fallback ← LLVMAppendBasicBlock;
  element_ptr ← gen_slot ic_miss_block (off_jit_cache env) N_JIT_CACHE_ENTRIES
    t2c_jit_cache_struct_type addr;
  seq_ptr ← LLVMBuildStructGEP2 ic_miss_block t2c_jit_cache_struct_type element_ptr 0;
  seq1 ← LLVMBuildLoad2 ic_miss_block I32 seq_ptr;
  seq_odd ← LLVMBuildBin LAnd ic_miss_block seq1 (LLVMConstInt I32 1);
  is_even ← LLVMBuildICmp ic_miss_block LEQ seq_odd (LLVMConstInt I32 0);
  LLVMBuildCondBr ic_miss_block is_even seq_even fallback;;
  jc_key_ptr ← LLVMBuildStructGEP2 seq_even t2c_jit_cache_struct_type element_ptr 2;
  jc_key ← LLVMBuildLoad2 seq_even I64 jc_key_ptr;
  jc_key_cmp ← LLVMBuildICmp seq_even LEQ jc_key expected_key;
  LLVMBuildCondBr seq_even jc_key_cmp key_match fallback;;
  jc_entry_ptr ← LLVMBuildStructGEP2 key_match t2c_jit_cache_struct_type element_ptr 3;
  entry ← LLVMBuildLoad2 key_match Ptr jc_entry_ptr;
  seq2 ← LLVMBuildLoad2 key_match I32 seq_ptr;
  seq_cmp ← LLVMBuildICmp key_match LEQ seq1 seq2;
  entry_not_null ← LLVMBuildIsNotNull key_match entry;
  valid ← LLVMBuildBin LAnd key_match seq_cmp entry_not_null;
  LLVMBuildCondBr key_match valid call_jit fallback;;
  LLVMBuildStore call_jit expected_key ic_key_ptr;;
  LLVMBuildStore call_jit entry ic_entry_ptr;;
  store_timer call_jit;;
  LLVMBuildCall2 call_jit entry [LParam];;
  LLVMBuildRetVoid call_jit;;
  addr_PC ← gen_PC_addr fallback;
  LLVMBuildStore fallback addr addr_PC;;
  store_timer fallback;;
  LLVMBuildRetVoid fallback.

(** * Handlers *)

(** [*taken_builder] and [*untaken_builder] *)
Definition t2c_exits : Type := option nat * option nat.
Definition no_exits (m : llM unit) : llM t2c_exits := m;; mret (None, None).

(** Two registers, an operation, the destination. *)
Definition op_reg (op : llbin) (b : nat) (ir : rv_insn) : llM unit :=
  x ← load_vmreg b I32 (rs1 ir);
  y ← load_vmreg b I32 (rs2 ir);
  res ← LLVMBuildBin op b x y;
  store_vmreg b res (rd ir).
Definition op_shift_reg (op : llbin) (b : nat) (ir : rv_insn) : llM unit :=
  x ← load_vmreg b I32 (rs1 ir);
  y ← load_vmreg b I32 (rs2 ir);
  y ← alu32_imm LAnd b y 0x1f;
  res ← LLVMBuildBin op b x y;
  store_vmreg b res (rd ir).
(** A register and a constant. *)
Definition op_imm (op : llbin) (b : nat) (rs rd imm : Z) : llM unit :=
  x ← load_vmreg b I32 rs;
  res ← alu32_imm op b x imm;
  store_vmreg b res rd.
(** The same on one register, whose address is computed once. *)
Definition op_imm_in_place (op : llbin) (b : nat) (r imm : Z) : llM unit :=
  a ← gen_X_addr b r;
  x ← LLVMBuildLoad2 b I32 a;
  res ← alu32_imm op b x imm;
  LLVMBuildStore b res a.
Definition op_shift_imm (op : llbin) (b : nat) (rs rd imm : Z) : llM unit :=
  op_imm op b rs rd (Z.land imm 0x1f).
Definition op_slt (p : llpred) (b : nat) (ir : rv_insn) (operand : llM llvalue) : llM unit :=
  addr_rd ← gen_X_addr b (rd ir);
  x ← load_vmreg b I32 (rs1 ir);
  y ← operand;
  cmp ← LLVMBuildICmp b p x y;
  res ← LLVMBuildSelect b cmp (LLVMConstInt I32 1) (LLVMConstInt I32 0);
  LLVMBuildStore b res addr_rd.
Definition op_slt_imm (p : llpred) (b : nat) (ir : rv_insn) : llM unit :=
  op_slt p b ir (mret (LLVMConstInt I32 (imm ir))).
Definition op_slt_reg (p : llpred) (b : nat) (ir : rv_insn) : llM unit :=
  op_slt p b ir (load_vmreg b I32 (rs2 ir)).
(** The high or low word of a product of 64 bits. *)
Definition op_mul (ext1 ext2 : nat -> llvalue -> lltype -> llM llvalue) (op : llbin) (k : Z)
    (b : nat) (ir : rv_insn) : llM unit :=
  x ← load_vmreg b I32 (rs1 ir);
  y ← load_vmreg b I32 (rs2 ir);
  x ← ext1 b x I64;
  y ← ext2 b y I64;
  res ← LLVMBuildBin LMul b x y;
  res ← alu64_imm op b res k;
  res ← LLVMBuildTrunc b res I32;
  store_vmreg b res (rd ir).

(** Loads and stores. *)
Definition gen_load (t : lltype) (ext : option (nat -> llvalue -> lltype -> llM llvalue))
    (b : nat) (rs imm rd : Z) : llM unit :=
  loc ← gen_mem_loc b rs imm;
  res ← LLVMBuildLoad2 b t loc;
  res ← match ext with Some f => f b res I32 | None => mret res end;
  store_vmreg b res rd.
Definition gen_store (t : lltype) (b : nat) (rs imm rs2 : Z) : llM unit :=
  loc ← gen_mem_loc b rs imm;
  val ← load_vmreg b t rs2;
  LLVMBuildStore b val loc.
Definition t2c_cswsp (b : nat) (ir : rv_insn) : llM unit :=
  addr_rs2 ← gen_X_addr b (rs2 ir);
  sp ← load_vmreg b I32 rv_reg_sp;
  sp ← LLVMBuildZExt b sp I64;
  val ← LLVMBuildLoad2 b I32 addr_rs2;
  addr ← alu64_imm LAdd b sp (u64 (imm ir + mem_base env));
  loc ← LLVMBuildIntToPtr b addr;
  LLVMBuildStore b val loc.

(** A direct jump; [cjal] and [cj] do not ask whether the target can be translated. *)
Definition jump_direct (linked : bool) (b : nat) (ir : rv_insn) : llM t2c_exits :=
  if linked then mret (Some b, None)
  else a ← gen_PC_addr b; gen_leave b (pc ir +u imm ir) a;; mret (None, None).
Definition t2c_jal (b : nat) (ir : rv_insn) : llM t2c_exits :=
  lwhen (truth (rd ir)) (set_vmreg b (rd ir) (pc ir +u 4));;
  ok ← llift (valid_link (branch_taken ir));
  jump_direct ok b ir.
Definition t2c_cjal (b : nat) (ir : rv_insn) : llM t2c_exits :=
  set_vmreg b rv_reg_ra (pc ir +u 2);;
  jump_direct (bool_decide (is_Some (branch_taken ir))) b ir.
Definition t2c_cj (b : nat) (ir : rv_insn) : llM t2c_exits :=
  jump_direct (bool_decide (is_Some (branch_taken ir))) b ir.

(** One side of a branch: a basic block for the successor, or one that leaves. *)
Definition branch_side (linked : bool) (pc : Z) (addr_PC : llvalue) : llM (nat * option nat) :=
  side ← LLVMAppendBasicBlock;
  if linked then mret (side, Some side)
  else gen_leave side pc addr_PC;; mret (side, None).
Definition branch_on (b : nat) (cmp addr_PC : llvalue) (taken_linked untaken_linked : bool)
    (taken_pc untaken_pc : Z) : llM t2c_exits :=
  '(taken, tk) ← branch_side taken_linked taken_pc addr_PC;
  '(untaken, utk) ← branch_side untaken_linked untaken_pc addr_PC;
  LLVMBuildCondBr b cmp taken untaken;;
  mret (tk, utk).
Definition T2C_BRANCH_FUNC (p : llpred) (b : nat) (ir : rv_insn) : llM t2c_exits :=
  addr_PC ← gen_PC_addr b;
  x ← load_vmreg b I32 (rs1 ir);
  y ← load_vmreg b I32 (rs2 ir);
  cmp ← LLVMBuildICmp b p x y;
  tk ← llift (valid_link (branch_taken ir));
  utk ← llift (valid_link (branch_untaken ir));
  branch_on b cmp addr_PC tk utk (pc ir +u imm ir) (pc ir +u 4).
(** [cbeqz], [cbnez] *)
Definition t2c_cbranch (p : llpred) (b : nat) (ir : rv_insn) : llM t2c_exits :=
  addr_PC ← gen_PC_addr b;
  x ← load_vmreg b I32 (rs1 ir);
  cmp ← LLVMBuildICmp b p x (LLVMConstInt I32 0);
  branch_on b cmp addr_PC (bool_decide (is_Some (branch_taken ir)))
    (bool_decide (is_Some (branch_untaken ir))) (pc ir +u imm ir) (pc ir +u 2).

Definition t2c_jalr (b : nat) (ir : rv_insn) : llM unit :=
  x ← load_vmreg b I32 (rs1 ir);
  x ← alu32_imm LAdd b x (imm ir);
  x ← alu32_imm LAnd b x (~u 1);
  lwhen (truth (rd ir)) (set_vmreg b (rd ir) (pc ir +u 4));;
  t2c_jit_cache_helper b x.
Definition t2c_cjr (b : nat) (ir : rv_insn) : llM unit :=
  x ← load_vmreg b I32 (rs1 ir); t2c_jit_cache_helper b x.
Definition t2c_cjalr (b : nat) (ir : rv_insn) : llM unit :=
  x ← load_vmreg b I32 (rs1 ir);
  set_vmreg b rv_reg_ra (pc ir +u 2);;
  t2c_jit_cache_helper b x.

(** [ecall], [ebreak], [cebreak] *)
Definition call_io (b : nat) (pc off : Z) : llM unit :=
  a ← gen_PC_addr b;
  store_imm32 b pc a;;
  gen_call_io_func b off;;
  store_timer b;;
  LLVMBuildRetVoid b.
Definition t2c_ecall (b : nat) (ir : rv_insn) : llM unit := call_io b (pc ir) (off_on_ecall env).
Definition t2c_ebreak (b : nat) (ir : rv_insn) : llM unit := call_io b (pc ir) (off_on_ebreak env).

(** ** Fused sequences *)

Definition each (f : opcode_fuse -> llM unit) (ir : rv_insn) : llM unit :=
  foldr (fun e k => f e;; k) (mret tt) (fuse_entries ir).
Definition t2c_fuse1 (b : nat) : rv_insn -> llM unit :=
  each (fun f => set_vmreg b (f_rd f) (f_imm f)).
Definition t2c_fuse2 (b : nat) (ir : rv_insn) : llM unit :=
  addr_rd ← gen_X_addr b (rd ir);
  store_imm32 b (imm ir) addr_rd;;
  x ← load_vmreg b I32 (rs1 ir);
  y ← LLVMBuildLoad2 b I32 addr_rd;
  res ← LLVMBuildBin LAdd b x y;
  store_vmreg b res (rs2 ir).
Definition t2c_fuse3 (b : nat) : rv_insn -> llM unit :=
  each (fun f => gen_store I32 b (f_rs1 f) (f_imm f) (f_rs2 f)).
Definition t2c_fuse4 (b : nat) : rv_insn -> llM unit :=
  each (fun f => gen_load I32 None b (f_rs1 f) (f_imm f) (f_rd f)).
(** The handlers of the shifts are called, which count an instruction each. *)
Definition t2c_fuse5 (b : nat) : rv_insn -> llM unit :=
  each (fun f =>
    match f_opcode f with
    | rv_insn_slli => count_insn b;; op_shift_imm LShl b (f_rs1 f) (f_rd f) (f_imm f)
    | rv_insn_srli => count_insn b;; op_shift_imm LLShr b (f_rs1 f) (f_rd f) (f_imm f)
    | rv_insn_srai => count_insn b;; op_shift_imm LAShr b (f_rs1 f) (f_rd f) (f_imm f)
    | _ => lunreachable
    end).
Definition t2c_fuse6 (b : nat) (ir : rv_insn) : llM unit :=
  set_vmreg b rv_reg_a7 (imm ir);;
  call_io b (pc ir +u 4) (off_on_ecall env).
Definition t2c_fuse7 (b : nat) : rv_insn -> llM unit :=
  each (fun f => op_imm LAdd b (f_rs1 f) (f_rd f) (f_imm f)).
Definition t2c_fuse8 (b : nat) (ir : rv_insn) : llM unit :=
  set_vmreg b (rd ir) (u32 (imm ir) +u u32 (imm2 ir)).
(** An absolute address. *)
Definition abs_loc (b : nat) (ir : rv_insn) : llM llvalue :=
  LLVMBuildIntToPtr b (LLVMConstInt I64 (u64 ((u32 (imm ir) +u u32 (imm2 ir)) + mem_base env))).
Definition t2c_fuse9 (b : nat) (ir : rv_insn) : llM unit :=
  loc ← abs_loc b ir;
  res ← LLVMBuildLoad2 b I32 loc;
  store_vmreg b res (rs2 ir).
Definition t2c_fuse10 (b : nat) (ir : rv_insn) : llM unit :=
  loc ← abs_loc b ir;
  val ← load_vmreg b I32 (rs1 ir);
  LLVMBuildStore b val loc.
Definition t2c_fuse11 (b : nat) (ir : rv_insn) : llM unit :=
  addr_rs1 ← gen_X_addr b (rs1 ir);
  x ← LLVMBuildLoad2 b I32 addr_rs1;
  loc ← gen_mem_loc b (rs1 ir) (imm ir);
  res ← LLVMBuildLoad2 b I32 loc;
  store_vmreg b res (rd ir);;
  inc ← alu32_imm LAdd b x (imm2 ir);
  LLVMBuildStore b inc addr_rs1.
Definition t2c_fuse12 (b : nat) (ir : rv_insn) : llM t2c_exits :=
  addr_PC ← gen_PC_addr b;
  x ← load_vmreg b I32 (rs1 ir);
  res ← alu32_imm LAdd b x (imm ir);
  store_vmreg b res (rd ir);;
  cmp ← LLVMBuildICmp b LNE res (LLVMConstInt I32 0);
  tk ← llift (valid_link (branch_taken ir));
  utk ← llift (valid_link (branch_untaken ir));
  branch_on b cmp addr_PC tk utk (u32 (pc ir + 4 + imm2 ir)) (pc ir +u 8).

(** ** [dispatch_table]

    Every handler counts the instruction first; the remaining ones are [__UNREACHABLE]. *)

(** The handlers that stay in the basic block. *)
Definition t2c_straight (b : nat) (ir : rv_insn) : option (llM unit) :=
  match opcode ir with
  | rv_insn_nop | rv_insn_cnop => Some (mret tt)
  | rv_insn_lui | rv_insn_cli | rv_insn_clui => Some (set_vmreg b (rd ir) (imm ir))
  | rv_insn_auipc => Some (set_vmreg b (rd ir) (pc ir +u imm ir))
  | rv_insn_lb => Some (gen_load I8 (Some LLVMBuildSExt) b (rs1 ir) (imm ir) (rd ir))
  | rv_insn_lh => Some (gen_load I16 (Some LLVMBuildSExt) b (rs1 ir) (imm ir) (rd ir))
  | rv_insn_lw | rv_insn_clw => Some (gen_load I32 None b (rs1 ir) (imm ir) (rd ir))
  | rv_insn_lbu => Some (gen_load I8 (Some LLVMBuildZExt) b (rs1 ir) (imm ir) (rd ir))
  | rv_insn_lhu => Some (gen_load I16 (Some LLVMBuildZExt) b (rs1 ir) (imm ir) (rd ir))
  | rv_insn_clwsp => Some (gen_load I32 None b rv_reg_sp (imm ir) (rd ir))
  | rv_insn_sb => Some (gen_store I8 b (rs1 ir) (imm ir) (rs2 ir))
  | rv_insn_sh => Some (gen_store I16 b (rs1 ir) (imm ir) (rs2 ir))
  | rv_insn_sw | rv_insn_csw => Some (gen_store I32 b (rs1 ir) (imm ir) (rs2 ir))
  | rv_insn_cswsp => Some (t2c_cswsp b ir)
  | rv_insn_addi => Some (op_imm LAdd b (rs1 ir) (rd ir) (imm ir))
  | rv_insn_slti => Some (op_slt_imm LSLT b ir)
  | rv_insn_sltiu => Some (op_slt_imm LULT b ir)
  | rv_insn_xori => Some (op_imm LXor b (rs1 ir) (rd ir) (imm ir))
  | rv_insn_ori => Some (op_imm LOr b (rs1 ir) (rd ir) (imm ir))
  | rv_insn_andi => Some (op_imm LAnd b (rs1 ir) (rd ir) (imm ir))
  | rv_insn_slli => Some (op_shift_imm LShl b (rs1 ir) (rd ir) (imm ir))
  | rv_insn_srli => Some (op_shift_imm LLShr b (rs1 ir) (rd ir) (imm ir))
  | rv_insn_srai => Some (op_shift_imm LAShr b (rs1 ir) (rd ir) (imm ir))
  | rv_insn_add | rv_insn_cadd => Some (op_reg LAdd b ir)
  | rv_insn_sub | rv_insn_csub => Some (op_reg LSub b ir)
  | rv_insn_sll => Some (op_shift_reg LShl b ir)
  | rv_insn_slt => Some (op_slt_reg LSLT b ir)
  | rv_insn_sltu => Some (op_slt_reg LULT b ir)
  | rv_insn_xor | rv_insn_cxor => Some (op_reg LXor b ir)
  | rv_insn_srl => Some (op_shift_reg LLShr b ir)
  | rv_insn_sra => Some (op_shift_reg LAShr b ir)
  | rv_insn_or | rv_insn_cor => Some (op_reg LOr b ir)
  | rv_insn_and | rv_insn_cand => Some (op_reg LAnd b ir)
  | rv_insn_mul => Some (op_mul LLVMBuildSExt LLVMBuildSExt LAnd 0xffffffff b ir)
  | rv_insn_mulh => Some (op_mul LLVMBuildSExt LLVMBuildSExt LLShr 32 b ir)
  | rv_insn_mulhsu => Some (op_mul LLVMBuildSExt LLVMBuildZExt LLShr 32 b ir)
  | rv_insn_mulhu => Some (op_mul LLVMBuildZExt LLVMBuildZExt LLShr 32 b ir)
  | rv_insn_div => Some (op_reg LSDiv b ir)
  | rv_insn_divu => Some (op_reg LUDiv b ir)
  | rv_insn_rem => Some (op_reg LSRem b ir)
  | rv_insn_remu => Some (op_reg LURem b ir)
  | rv_insn_caddi4spn => Some (op_imm LAdd b rv_reg_sp (rd ir) (s16 (imm ir)))
  | rv_insn_caddi => Some (op_imm_in_place LAdd b (rd ir) (s16 (imm ir)))
  | rv_insn_caddi16sp => Some (op_imm_in_place LAdd b (rd ir) (imm ir))
  | rv_insn_csrli => Some (op_imm_in_place LLShr b (rs1 ir) (shamt ir))
  | rv_insn_csrai => Some (op_imm_in_place LAShr b (rs1 ir) (shamt ir))
  | rv_insn_candi => Some (op_imm_in_place LAnd b (rs1 ir) (imm ir))
  | rv_insn_cslli => Some (op_imm_in_place LShl b (rd ir) (u8 (imm ir)))
  | rv_insn_cmv => Some (x ← load_vmreg b I32 (rs2 ir); store_vmreg b x (rd ir))
  | rv_insn_fuse1 => Some (t2c_fuse1 b ir)
  | rv_insn_fuse2 => Some (t2c_fuse2 b ir)
  | rv_insn_fuse3 => Some (t2c_fuse3 b ir)
  | rv_insn_fuse4 => Some (t2c_fuse4 b ir)
  | rv_insn_fuse5 => Some (t2c_fuse5 b ir)
  | rv_insn_fuse7 => Some (t2c_fuse7 b ir)
  | rv_insn_fuse8 => Some (t2c_fuse8 b ir)
  | rv_insn_fuse9 => Some (t2c_fuse9 b ir)
  | rv_insn_fuse10 => Some (t2c_fuse10 b ir)
  | rv_insn_fuse11 => Some (t2c_fuse11 b ir)
  | _ => None
  end.
(** The handlers that end the basic block. *)
Definition ending (b : nat) (ir : rv_insn) : llM t2c_exits :=
  match opcode ir with
  | rv_insn_jal => t2c_jal b ir
  | rv_insn_jalr => no_exits (t2c_jalr b ir)
  | rv_insn_beq => T2C_BRANCH_FUNC LEQ b ir
  | rv_insn_bne => T2C_BRANCH_FUNC LNE b ir
  | rv_insn_blt => T2C_BRANCH_FUNC LSLT b ir
  | rv_insn_bge => T2C_BRANCH_FUNC LSGE b ir
  | rv_insn_bltu => T2C_BRANCH_FUNC LULT b ir
  | rv_insn_bgeu => T2C_BRANCH_FUNC LUGE b ir
  | rv_insn_ecall => no_exits (t2c_ecall b ir)
  | rv_insn_ebreak => no_exits (t2c_ebreak b ir)
  | rv_insn_cjal => t2c_cjal b ir
  | rv_insn_cj => t2c_cj b ir
  | rv_insn_cbeqz => t2c_cbranch LEQ b ir
  | rv_insn_cbnez => t2c_cbranch LNE b ir
  | rv_insn_cjr => no_exits (t2c_cjr b ir)
  | rv_insn_cebreak => no_exits (t2c_ebreak b ir)
  | rv_insn_cjalr => no_exits (t2c_cjalr b ir)
  | rv_insn_fuse6 => no_exits (t2c_fuse6 b ir)
  | rv_insn_fuse12 => t2c_fuse12 b ir
  | _ => lunreachable
  end.
Definition t2c_op (b : nat) (ir : rv_insn) : llM t2c_exits :=
  count_insn b;;
  match t2c_straight b ir with Some m => no_exits m | None => ending b ir end.

(** * Blocks *)

Definition t2c_insn_is_terminal (o : opcode_t) : bool :=
  match o with
  | rv_insn_ecall | rv_insn_ebreak | rv_insn_jalr | rv_insn_mret
  | rv_insn_cjalr | rv_insn_cjr | rv_insn_cebreak => true
  | _ => false
  end.

(** The loop of [t2c_trace_ebb]: the exits are those the handlers assigned last. *)
Fixpoint t2c_irs (b : nat) (irs : list rv_insn) (acc : t2c_exits) : llM t2c_exits :=
  match irs with
  | [] => mret acc
  | ir :: irs =>
      '(tk, utk) ← t2c_op b ir;
      t2c_irs b irs (match tk with Some _ => tk | None => acc.1 end,
                     match utk with Some _ => utk | None => acc.2 end)
  end.

(** The set of addresses, [struct LLVM_block_map] and the function. *)
Record t2c_trace := mk_t2c_trace { tr_set : set_t; tr_map : list (Z * nat); tr_fun : llfun }.
Definition run_in {A} (m : llM A) (t : t2c_trace) : option (A * t2c_trace) :=
  '(a, f) ← m (tr_fun t); Some (a, mk_t2c_trace (tr_set t) (tr_map t) f).
Definition t2c_block_map_insert (entry : nat) (pc : Z) (t : t2c_trace) : t2c_trace :=
  mk_t2c_trace (tr_set t) (tr_map t ++ [(pc, entry)]) (tr_fun t).
Fixpoint t2c_block_map_search (m : list (Z * nat)) (pc : Z) : option nat :=
  match m with
  | [] => None
  | (p, b) :: m => if p =? pc then Some b else t2c_block_map_search m pc
  end.

(** [if (!tk && ir->branch_taken) tk = *builder;] *)
Definition exit_or (b : nat) (side : option nat) (link : option Z) : option nat :=
  match side, link with None, Some _ => Some b | _, _ => side end.

(** The code for one of the two links of the last instruction; [trace] translates a block.  A
    branch to [NULL] is not a branch. *)
Definition t2c_follow (trace : nat -> jit_block -> t2c_trace -> option t2c_trace)
    (side : option nat) (link : option Z) (t : t2c_trace) : option t2c_trace :=
  match link with
  | None => Some t
  | Some l =>
      target ← link_pc l;
      seen ← set_has (tr_set t) target;
      if (seen : bool) then
        from ← side;
        entry ← t2c_block_map_search (tr_map t) target;
        '(_, t) ← run_in (LLVMBuildBr from entry) t; Some t
      else
        c ← cached_block v target;
        match c with
        | Some (_, blk) =>
            if jb_translatable blk then
              '(entry, t) ← run_in LLVMAppendBasicBlock t;
              from ← side;
              '(_, t) ← run_in (LLVMBuildBr from entry) t;
              trace entry blk t
            else Some t
        | None => Some t
        end
  end.
(** [fuel] bounds the depth of the recursion, which ends because each level adds an address
    to the set. *)
Fixpoint t2c_trace_ebb (fuel : nat) (b : nat) (blk : jit_block) (t : t2c_trace) : option t2c_trace :=
  match fuel with
  | O => None
  | S fuel =>
      hd ← head (jb_irs blk);
      seen ← set_has (tr_set t) (pc hd);
      if (seen : bool) then Some t
      else
        '(_, set) ← set_add (tr_set t) (pc hd);
        let t := t2c_block_map_insert b (pc hd) (mk_t2c_trace set (tr_map t) (tr_fun t)) in
        '((tk, utk), t) ← run_in (t2c_irs b (jb_irs blk) (None, None)) t;
        ir ← last (jb_irs blk);
        if t2c_insn_is_terminal (opcode ir) then Some t
        else
          let follow := t2c_follow (t2c_trace_ebb fuel) in
          t ← follow (exit_or b utk (branch_untaken ir)) (branch_untaken ir) t;
          follow (exit_or b tk (branch_taken ir)) (branch_taken ir) t
  end.
End Gen2.
End Gen2.

(** The part of [t2c_compile] that builds the function: the counter of instructions in the
    entry block, then the code of the blocks. *)
Definition t2c_build (fuel : nat) (env : t2c_env) (v : jit_vm) (blk : jit_block) : option llfun :=
  let start : llM (llvalue * nat) :=
    first_block ← LLVMAppendBasicBlock;
    insn_counter ← LLVMBuildAlloca first_block I64;
    LLVMBuildStore first_block (LLVMConstInt I64 0) insn_counter;;
    entry ← LLVMAppendBasicBlock;
    LLVMBuildBr first_block entry;;
    mret (insn_counter, entry) in
  '((insn_counter, entry), f) ← start (mk_llfun [] 0);
  t ← Gen2.t2c_trace_ebb env v insn_counter fuel entry blk (Gen2.mk_t2c_trace set_reset [] f);
  Some (Gen2.tr_fun t).
