(* ===== verification/T2cProofs.v ===== *)
(** The LLVM IR that the handlers of t2c_template.c generate for straight-line instructions
    does what the interpreter does. *)

From S2P Require Import Prelude.
From S2P Require Import Opcode.
From S2P Require Import Decode.
From S2P Require Import Machine.
From S2P Require Import Interp.
From S2P Require Import MachineFacts.
From S2P Require Import Invariant.
From S2P Require Import DecodeProofs.
From S2P Require Import IsaProofs.
From S2P Require Import JitAlloc.
From S2P Require Import X86.
From S2P Require Import X86Proofs.
From S2P Require Import JitRel.
From S2P Require Import JitSim.
From S2P Require Import JitInsn.
From S2P Require Import JitDispatch.
From S2P Require Import Llvm.
From S2P Require Import T2c.

(** * What a builder appends *)

(** [m] appends [l] to the basic block [b], with numbers from [n] up to [n']. *)
Definition appends {A} (b : nat) (m : llM A) (n : nat) (a : A) (l : llcode) (n' : nat) : Prop :=
  forall B, (b < length B)%nat -> m (mk_llfun B n) = Some (a, mk_llfun (alter (fun c => c ++ l) b B) n').

Lemma alter_nil b (B : list llcode) : alter (fun c => c ++ []) b B = B.
Proof.
  apply list_eq. intros i. destruct (decide (i = b)) as [->|Hn].
  - rewrite list_lookup_alter_eq. destruct (B !! b); cbn; [|done]. by rewrite app_nil_r.
  - by rewrite list_lookup_alter_ne.
Qed.
Lemma alter_app b (B : list llcode) l l' :
  alter (fun c => c ++ l') b (alter (fun c => c ++ l) b B) = alter (fun c => c ++ l ++ l') b B.
Proof.
  apply list_eq. intros i. destruct (decide (i = b)) as [->|Hn].
  - rewrite !list_lookup_alter_eq. destruct (B !! b); cbn; [|done]. by rewrite app_assoc.
  - by rewrite !list_lookup_alter_ne.
Qed.
Lemma appends_ret {A} b (a : A) n : appends b (mret a) n a [] n.
Proof. intros B _. by rewrite alter_nil. Qed.
Lemma appends_bind {A C} b (m : llM A) (k : A -> llM C) n a l n1 c l' n' :
  appends b m n a l n1 -> appends b (k a) n1 c l' n' -> appends b (m ≫= k) n c (l ++ l') n'.
Proof.
  intros H1 H2 B Hb. unfold mbind, llM_bind. rewrite H1, H2 by (by rewrite ?length_alter). by rewrite alter_app.
Qed.
Lemma appends_value b t i n : appends b (build_value b t i) n (LInst t n) [(n, i)] (S n).
Proof. intros B [c Hc]%lookup_lt_is_Some. unfold build_value, build, mbind, llM_bind. cbn. by rewrite Hc. Qed.
Lemma appends_void b i n : appends b (build_void b i) n tt [(n, i)] (S n).
Proof. intros B [c Hc]%lookup_lt_is_Some. unfold build_void, build, mbind, llM_bind. cbn. by rewrite Hc. Qed.

(** * Execution *)

Section Code.
Context (param : Z) (ext : Z -> list Z -> gmap Z Z -> option (gmap Z Z)).
#[local] Abbreviation exec_code := (exec_code param ext).
#[local] Abbreviation eval := (eval param).

Lemma exec_code_app l l' st :
  exec_code (l ++ l') st =
  match exec_code l st with Some (Lnext st) => exec_code l' st | r => r end.
Proof using Type.
  revert st. induction l as [|[id i] l IH]; intros st; [done|]. cbn [app Llvm.exec_code].
  destruct (exec_insn param ext id i st) as [[]|]; cbn; auto.
Qed.

(** Results of instructions and a property of the memory. *)
Record knows (K : list (nat * Z)) (M : gmap Z Z -> Prop) (st : llstate) : Prop := {
  kn_env : forall id x, (id, x) ∈ K -> ll_env st !! id = Some x;
  kn_mem : M (ll_mem st) }.
Definition below (n : nat) (K : list (nat * Z)) : Prop := Forall (fun p => (p.1 < n)%nat) K.
Inductive value (K : list (nat * Z)) : llvalue -> Z -> Prop :=
  | value_param : value K LParam param
  | value_const t c : value K (LConst t c) c
  | value_inst t id x : (id, x) ∈ K -> value K (LInst t id) x.
Lemma value_eval K M st v x : knows K M st -> value K v x -> eval st v = Some x.
Proof using Type. intros [He _] []; cbn; auto. Qed.
Lemma knows_weaken (K K' : list (nat * Z)) (M M' : gmap Z Z -> Prop) st :
  knows K M st -> K' ⊆ K -> (forall m, M m -> M' m) -> knows K' M' st.
Proof using Type. intros [] HK HM. split; auto. Qed.
Lemma below_mono n n' K : below n K -> (n <= n')%nat -> below n' K.
Proof using Type. intros H Hn. eapply Forall_impl; [exact H|]. cbn. lia. Qed.
Lemma below_cons n K x : below n K -> below (S n) ((n, x) :: K).
Proof using Type. intros H. apply Forall_cons. split; [cbn; lia|]. eapply below_mono; [done|lia]. Qed.

(** The code that [m] appends runs to its end. *)
Definition triple {A} (b n : nat) (m : llM A) (P : llstate -> Prop) (n' : nat) (a : A)
    (Q : llstate -> Prop) : Prop :=
  exists l, appends b m n a l n' /\
    forall st, P st -> exists st', exec_code l st = Some (Lnext st') /\ Q st'.

Lemma triple_ret {A} b n (a : A) P : triple b n (mret a) P n a P.
Proof using Type. exists []. split; [apply appends_ret|]. intros st H. by exists st. Qed.
Lemma triple_bind {A C} b n (m : llM A) (k : A -> llM C) P n1 a Q n' c R :
  triple b n m P n1 a Q -> triple b n1 (k a) Q n' c R -> triple b n (m ≫= k) P n' c R.
Proof using Type.
  intros (l & Hl & H1) (l' & Hl' & H2). exists (l ++ l'). split; [by eapply appends_bind|].
  intros st HP. destruct (H1 st HP) as (st1 & E1 & HQ). destruct (H2 st1 HQ) as (st2 & E2 & HR).
  exists st2. by rewrite exec_code_app, E1.
Qed.
Lemma triple_weaken {A} b n (m : llM A) (P P' : llstate -> Prop) n' a (Q Q' : llstate -> Prop) :
  triple b n m P n' a Q -> (forall st, P' st -> P st) -> (forall st, Q st -> Q' st) ->
  triple b n m P' n' a Q'.
Proof using Type.
  intros (l & Hl & H1) HP HQ. exists l. split; [done|]. intros st Hst.
  destruct (H1 st (HP st Hst)) as (st' & E & H2). eauto.
Qed.

Lemma triple_pure b n t i x K M :
  below n K ->
  (forall st, knows K M st -> exec_insn param ext n i st = Some (Lnext (set_env n x st))) ->
  triple b n (build_value b t i) (knows K M) (S n) (LInst t n) (knows ((n, x) :: K) M).
Proof using Type.
  intros Hn Hi. exists [(n, i)]. split; [apply appends_value|]. intros st Hst. eexists.
  cbn [Llvm.exec_code]. rewrite (Hi st Hst). split; [reflexivity|]. destruct Hst as [He HM]. split; [|done].
  intros id y [[= -> ->]|Hin]%elem_of_cons; cbn; [apply lookup_insert_eq|].
  rewrite lookup_insert_ne; [auto|]. unfold below in Hn. rewrite Forall_forall in Hn. specialize (Hn _ Hin). cbn in Hn. lia.
Qed.
Ltac pure_tac :=
  intros; apply triple_pure; [done|]; intros st Hst; cbn [exec_insn];
  repeat match goal with Hv : value _ ?v ?x |- _ => rewrite (value_eval _ _ _ _ _ Hst Hv); clear Hv end;
  cbn [mbind option_bind].

Section Rules.
Context (b n : nat) (K : list (nat * Z)) (M : gmap Z Z -> Prop) (Hn : below n K).
#[local] Abbreviation yields m t x := (triple b n m (knows K M) (S n) (LInst t n) (knows ((n, x) :: K) M)).

Lemma triple_bin op x y vx vy w :
  value K x vx -> value K y vy -> eval_bin op (vtype x) vx vy = Some w ->
  yields (LLVMBuildBin op b x y) (vtype x) w.
Proof using Hn. pure_tac. match goal with H : eval_bin _ _ _ _ = _ |- _ => by rewrite H end. Qed.
Lemma triple_icmp p x y vx vy :
  value K x vx -> value K y vy ->
  yields (LLVMBuildICmp b p x y) I1 (b2u (eval_pred p (vtype x) vx vy)).
Proof using Hn. by pure_tac. Qed.
Lemma triple_select c x y vc vx vy :
  value K c vc -> value K x vx -> value K y vy ->
  yields (LLVMBuildSelect b c x y) (vtype x) (if vc =? 0 then vy else vx).
Proof using Hn. by pure_tac. Qed.
Lemma triple_zext x t vx : value K x vx -> yields (LLVMBuildZExt b x t) t vx.
Proof using Hn. by pure_tac. Qed.
Lemma triple_sext x t vx :
  value K x vx -> yields (LLVMBuildSExt b x t) t (ty_mod t (ty_signed (vtype x) vx)).
Proof using Hn. by pure_tac. Qed.
Lemma triple_trunc x t vx : value K x vx -> yields (LLVMBuildTrunc b x t) t (ty_mod t vx).
Proof using Hn. by pure_tac. Qed.
Lemma triple_inttoptr x vx : value K x vx -> yields (LLVMBuildIntToPtr b x) Ptr vx.
Proof using Hn. by pure_tac. Qed.
Lemma triple_gep size p i vp vi :
  value K p vp -> value K i vi ->
  yields (LLVMBuildInBoundsGEP2 b size p i) Ptr (u64 (vp + size * ty_signed (vtype i) vi)).
Proof using Hn. by pure_tac. Qed.
Lemma triple_load t p a x :
  value K p a -> (forall m, M m -> hload (ty_bytes t) m a = Some x) ->
  yields (LLVMBuildLoad2 b t p) t x.
Proof using Hn. pure_tac. match goal with H : forall m, _ |- _ => by rewrite (H _ (kn_mem _ _ _ Hst)) end. Qed.
Lemma triple_store v p x a M' :
  value K v x -> value K p a ->
  (forall m, M m -> exists m', hstore (ty_bytes (vtype v)) m a x = Some m' /\ M' m') ->
  triple b n (LLVMBuildStore b v p) (knows K M) (S n) tt (knows K M').
Proof using Type.
  intros Hv Hp HM. exists [(n, LStore v p)]. split; [apply appends_void|]. intros st Hst.
  destruct (HM _ (kn_mem _ _ _ Hst)) as (m' & E & HM'). exists (set_ll_mem m' st). split.
  - cbn [Llvm.exec_code exec_insn]. rewrite (value_eval _ _ _ _ _ Hst Hv), (value_eval _ _ _ _ _ Hst Hp).
    cbn [mbind option_bind]. by rewrite E.
  - destruct Hst. by split.
Qed.
End Rules.
End Code.

(** * Guest and host *)

(** The counter of instructions is on the host stack, away from the emulator state and RAM. *)
Record t2c_layout (y : host_layout) (ctr : Z) : Prop := {
  tl_host : layout_ok y;
  tl_ctr : 0 <= ctr <= 0x10000000000000000 - 8;
  tl_rv : ctr + 8 <= rv_ptr y + offsetof_X \/ rv_ptr y + offsetof_PC + 4 <= ctr;
  tl_ram : ctr + 8 <= ram_ptr y \/ ram_ptr y + ram_size y <= ctr }.
Definition in_ctr (ctr a : Z) : Prop := ctr <= a < ctr + 8.

Section Rel.
Context (y : host_layout) (ctr : Z) (Y : t2c_layout y ctr) (fr : gmap Z Z).

(** Guest registers and RAM are in memory, and the counter is [k]. *)
Record holds (s : riscv) (k : Z) (m : gmap Z Z) : Prop := {
  ho_regs : forall v, is_reg v -> hload 4 m (xaddr y v) = Some (reg s v);
  ho_rv : forall a, in_rv y a -> exists x, m !! a = Some x /\ 0 <= x < 0x100;
  ho_ram : forall a, 0 <= a < ram_size y -> m !! (ram_ptr y + a) = Some (byte_at (mem s) a);
  ho_ctr : hload 8 m ctr = Some (u64 k);
  ho_mapped : forall a, in_ctr ctr a -> is_Some (m !! a);
  ho_frame : forall a, ~ in_rv y a -> ~ in_guest_ram y a -> ~ in_ctr ctr a -> m !! a = fr !! a }.

Lemma holds_same s s' k m : holds s k m -> X s' = X s -> mem s' = mem s -> holds s' k m.
Proof using Type. intros [] EX EM. split; auto; unfold reg; rewrite ?EX, ?EM; auto. Qed.

Ltac sides := unfold in_rv, in_guest_ram, in_ctr, xaddr, is_reg, offsetof_PC, offsetof_X in *.

Lemma hstore_bytes n m a v m' b x :
  hstore n m a v = Some m' -> m' !! b = Some x -> (m !! b = Some x -> 0 <= x < 0x100) -> 0 <= x < 0x100.
Proof using Type.
  intros E Hx Hb. destruct (decide (a <= b < a + Z.of_nat n)) as [Hin|Hn].
  - rewrite (hstore_lookup_in _ _ _ _ _ _ E Hin) in Hx. injection Hx as <-. by apply Z.mod_pos_bound.
  - apply Hb. rewrite <- Hx. symmetry. apply (hstore_lookup_other _ _ _ _ _ _ E). lia.
Qed.
Lemma rv_bytes_hstore n m a v m' :
  hstore n m a v = Some m' -> (forall b, in_rv y b -> exists x, m !! b = Some x /\ 0 <= x < 0x100) ->
  forall b, in_rv y b -> exists x, m' !! b = Some x /\ 0 <= x < 0x100.
Proof using Type.
  intros E Hrv b Hb. destruct (Hrv b Hb) as (x & Ex & Hx).
  destruct (proj2 (hstore_dom _ _ _ _ _ b E) ltac:(eauto)) as [x' Ex']. exists x'. split; [done|].
  eapply hstore_bytes; [exact E|exact Ex'|]. intros Ex2. rewrite Ex in Ex2. by injection Ex2 as <-.
Qed.
Lemma holds_store_reg s k m r w :
  wf_regs s -> is_reg r -> is_u32 w -> holds s k m ->
  exists m', hstore 4 m (xaddr y r) w = Some m' /\ holds (set_reg r w s) k m'.
Proof using Y.
  intros [HL _] Hr Hw []. destruct Y as [[Y1 Y2 Y3 Y4] Y5 Y6 Y7].
  destruct (hstore_is_Some 4 m (xaddr y r) w) as [m' E].
  { intros a Ha. destruct (ho_rv0 a) as (x & -> & _); [sides; lia|done]. }
  exists m'. split; [done|].
  assert (forall a, ~ in_rv y a -> m' !! a = m !! a) as Hout.
  { intros a Ha. apply (hstore_lookup_other _ _ _ _ _ _ E). sides. lia. }
  split.
  - intros v Hv. destruct (decide (v = r)) as [->|Hn].
    + rewrite (hload_hstore_same _ _ _ _ _ E), reg_set_reg_eq by done. f_equal. apply Z.mod_small. exact Hw.
    + rewrite (hload_hstore_other _ _ _ _ _ _ _ E), reg_set_reg_ne; [auto|..]; sides; lia.
  - by apply (rv_bytes_hstore _ _ _ _ _ E).
  - intros a Ha. rewrite Hout; [by apply ho_ram0|]. sides. lia.
  - rewrite <- ho_ctr0. apply hload_ext. intros a Ha. apply Hout. sides. lia.
  - intros a Ha. apply (hstore_dom _ _ _ _ _ _ E). auto.
  - intros a H1 H2 H3. rewrite Hout by done. auto.
Qed.
Lemma holds_store_ctr s k k' m :
  holds s k m -> exists m', hstore 8 m ctr (u64 k') = Some m' /\ holds s k' m'.
Proof using Y.
  intros []. destruct Y as [[Y1 Y2 Y3 Y4] Y5 Y6 Y7].
  destruct (hstore_is_Some 8 m ctr (u64 k')) as [m' E]; [done|]. exists m'. split; [done|].
  assert (forall a, ~ in_ctr ctr a -> m' !! a = m !! a) as Hout.
  { intros a Ha. apply (hstore_lookup_other _ _ _ _ _ _ E). sides. lia. }
  split.
  - intros v Hv. rewrite <- ho_regs0 by done. apply hload_ext. intros a Ha. apply Hout. sides. lia.
  - by apply (rv_bytes_hstore _ _ _ _ _ E).
  - intros a Ha. rewrite Hout; [by apply ho_ram0|]. sides. lia.
  - rewrite (hload_hstore_same _ _ _ _ _ E). f_equal. apply Z.mod_small, u64_range.
  - intros a Ha. apply (hstore_dom _ _ _ _ _ _ E). auto.
  - intros a H1 H2 H3. rewrite Hout by done. auto.
Qed.
Lemma holds_load_ram s k m n a :
  holds s k m -> 0 <= a -> a + Z.of_nat n <= ram_size y ->
  hload n m (ram_ptr y + a) = Some (load_le (mem s) a n).
Proof using Type.
  intros Hm. revert a. induction n as [|n IH]; intros a Ha Hb; cbn [hload load_le]; [done|].
  rewrite (ho_ram _ _ _ Hm) by lia. cbn [mbind option_bind].
  replace (ram_ptr y + a + 1) with (ram_ptr y + (a + 1)) by lia. by rewrite IH by lia.
Qed.
Lemma holds_store_ram s k m n a w :
  holds s k m -> 0 <= a -> a + Z.of_nat n <= ram_size y ->
  exists m', hstore n m (ram_ptr y + a) w = Some m' /\ holds (set_mem (store_le (mem s) a n w) s) k m'.
Proof using Y.
  intros [] Ha Hb. destruct Y as [[Y1 Y2 Y3 Y4] Y5 Y6 Y7].
  destruct (hstore_is_Some n m (ram_ptr y + a) w) as [m' E].
  { intros b Hin. replace b with (ram_ptr y + (b - ram_ptr y)) by lia. by rewrite ho_ram0 by lia. }
  exists m'. split; [done|].
  assert (forall b, ~ in_guest_ram y b -> m' !! b = m !! b) as Hout.
  { intros b Hn. apply (hstore_lookup_other _ _ _ _ _ _ E). sides. lia. }
  split; cbn [mem set_mem].
  - intros v Hv. change (reg (set_mem _ s) v) with (reg s v). rewrite <- ho_regs0 by done.
    apply hload_ext. intros b Hin. apply Hout. sides. lia.
  - by apply (rv_bytes_hstore _ _ _ _ _ E).
  - intros b Hin. rewrite byte_store. destruct (decide (a <= b < a + Z.of_nat n)).
    + rewrite (hstore_lookup_in _ _ _ _ _ _ E) by lia. do 4 f_equal. lia.
    + rewrite (hstore_lookup_other _ _ _ _ _ _ E) by lia. auto.
  - rewrite <- ho_ctr0. apply hload_ext. intros b Hin. apply Hout. sides. lia.
  - intros b Hin. apply (hstore_dom _ _ _ _ _ _ E). auto.
  - intros b H1 H2 H3. rewrite Hout by done. auto.
Qed.

(** The low bytes of a guest register. *)
Lemma hload_low n : forall n' m a v,
  (n <= n')%nat -> hload n' m a = Some v ->
  (forall b, a <= b < a + Z.of_nat n' -> exists x, m !! b = Some x /\ 0 <= x < 0x100) ->
  hload n m a = Some (v mod 0x100 ^ Z.of_nat n).
Proof using Type.
  induction n as [|n IH]; intros [|n'] m a v Hn E Hb; try lia; cbn [hload] in *.
  { by rewrite Z.mod_1_r. }
  { by rewrite Z.mod_1_r. }
  destruct (Hb a) as (x & Ex & Hx); [lia|]. rewrite Ex in *. cbn in E |- *.
  apply bind_Some in E as (w & Ew & [= <-]). rewrite (IH n' m (a + 1) w) by (done || lia || (intros; apply Hb; lia)).
  cbn. f_equal. replace (Z.of_nat (S n)) with (Z.succ (Z.of_nat n)) by lia.
  rewrite Z.pow_succ_r, Z.rem_mul_r by lia. f_equal; [mlia|]. f_equal. f_equal. mlia.
Qed.
Lemma holds_load_reg s k m n r :
  holds s k m -> is_reg r -> (n <= 4)%nat -> hload n m (xaddr y r) = Some (reg s r mod 0x100 ^ Z.of_nat n).
Proof using Type.
  intros [] Hr Hn. apply (hload_low n 4); [done|auto|]. intros a Ha. apply ho_rv0. sides. lia.
Qed.
End Rel.

(** * Handlers *)

Section Handlers.
Context (ext : Z -> list Z -> gmap Z Z -> option (gmap Z Z)).
Context (y : host_layout) (ctr : Z) (Y : t2c_layout y ctr) (fr : gmap Z Z) (cid : nat).
Context (env : t2c_env) (HE : mem_base env = ram_ptr y).
#[local] Abbreviation triple := (triple (rv_ptr y) ext).
#[local] Abbreviation value := (value (rv_ptr y)).
#[local] Abbreviation holds := (holds y ctr fr).
#[local] Abbreviation counter := (LInst Ptr cid).

Definition K0 : list (nat * Z) := [(cid, ctr)].
(** The code of [m] keeps the number of the counter. *)
Definition stays (b : nat) (m : llM unit) (M M' : gmap Z Z -> Prop) : Prop :=
  forall n, (cid < n)%nat ->
    exists n', (n <= n')%nat /\ triple b n m (knows K0 M) n' tt (knows K0 M').

Lemma stays_ret b M : stays b (mret tt) M M.
Proof using Type. intros n Hn. exists n. split; [done|]. apply triple_ret. Qed.
Lemma stays_bind b m m' M M1 M2 : stays b m M M1 -> stays b m' M1 M2 -> stays b (m;; m') M M2.
Proof using Type.
  intros H1 H2 n Hn. destruct (H1 n Hn) as (n1 & Hn1 & T1). destruct (H2 n1 ltac:(lia)) as (n2 & Hn2 & T2).
  exists n2. split; [lia|]. by eapply triple_bind.
Qed.
Lemma stays_weaken b m (M M' M1 M1' : gmap Z Z -> Prop) :
  stays b m M M1 -> (forall x, M' x -> M x) -> (forall x, M1 x -> M1' x) -> stays b m M' M1'.
Proof using Type.
  intros H1 Hp Hq n Hn. destruct (H1 n Hn) as (n1 & Hn1 & T1). exists n1. split; [done|].
  eapply triple_weaken; [exact T1|..]; intros st Hst; by eapply knows_weaken.
Qed.
Lemma stays_triple b m M n' K M' :
  (forall n, below n K0 -> triple b n m (knows K0 M) (n' n) tt (knows (K n) M') /\
     (n <= n' n)%nat /\ K0 ⊆ K n) -> stays b m M M'.
Proof using Type.
  intros H n Hn. destruct (H n) as (T & Hl & HK); [apply Forall_singleton; done|]. exists (n' n). split; [done|].
  eapply triple_weaken; [exact T|done|]. intros st Hst. by eapply knows_weaken.
Qed.

(** ** Pieces *)

Lemma triple_store_X b n K s k val r w :
  wf_regs s -> is_reg r -> is_u32 w -> vtype val = I32 -> value K val w ->
  forall a, value K a (xaddr y r) ->
  triple b n (LLVMBuildStore b val a) (knows K (holds s k)) (S n) tt (knows K (holds (set_reg r w s) k)).
Proof using Y.
  intros Hs Hr Hw Ht Hv a Ha. apply (triple_store _ _ _ _ _ _ _ _ w (xaddr y r)); [done..|].
  intros m Hm. rewrite Ht. by apply holds_store_reg.
Qed.

Section Pieces.
Context (b n : nat) (K : list (nat * Z)) (Hn : below n K).

Lemma triple_X_addr M r :
  is_reg r -> triple b n (Gen2.gen_X_addr b r) (knows K M) (S n) (LInst Ptr n) (knows ((n, xaddr y r) :: K) M).
Proof using Y Hn.
  intros Hr. unfold Gen2.gen_X_addr, Gen2.gen_addr.
  replace (xaddr y r) with (u64 (rv_ptr y + 4 * ty_signed (vtype (LLVMConstInt I32 (offsetof_X / 4 + r)))
    ((offsetof_X / 4 + r) mod 2 ^ ty_bits I32))).
  { apply triple_gep; [done|constructor|constructor]. }
  destruct Y as [[Y1 _ _ _] _ _ _]. unfold is_reg, offsetof_PC, xaddr, offsetof_X, ty_signed in *.
  cbn [vtype LLVMConstInt ty_bits]. change (4 / 4) with 1. rewrite (Z.mod_small (1 + r)) by lia.
  rewrite (proj2 (Z.ltb_lt _ _)) by lia. rewrite u64_small by (unfold is_u64; lia). lia.
Qed.
Lemma triple_load_vmreg t s k r :
  is_reg r -> (ty_bytes t <= 4)%nat ->
  triple b n (Gen2.load_vmreg b t r) (knows K (holds s k)) (S (S n)) (LInst t (S n))
    (knows ((S n, reg s r mod 0x100 ^ Z.of_nat (ty_bytes t)) :: (n, xaddr y r) :: K) (holds s k)).
Proof using Y Hn.
  intros Hr Ht. unfold Gen2.load_vmreg. eapply triple_bind; [by apply triple_X_addr|].
  apply (triple_load _ _ _ _ _ _ ltac:(by apply below_cons) _ _ (xaddr y r)).
  - constructor. apply list_elem_of_here.
  - intros m Hm. by eapply holds_load_reg.
Qed.
Lemma triple_load_vmreg32 s k r :
  wf_regs s -> is_reg r ->
  triple b n (Gen2.load_vmreg b I32 r) (knows K (holds s k)) (S (S n)) (LInst I32 (S n))
    (knows ((S n, reg s r) :: (n, xaddr y r) :: K) (holds s k)).
Proof using Y Hn.
  intros Hs Hr. pose proof (triple_load_vmreg I32 s k r Hr ltac:(done)) as T. cbn [ty_bytes] in T.
  rewrite Z.mod_small in T; [done|]. by apply (reg_is_u32 s), Hs.
Qed.
Lemma triple_load_X s k r p :
  wf_regs s -> is_reg r -> value K p (xaddr y r) ->
  triple b n (LLVMBuildLoad2 b I32 p) (knows K (holds s k)) (S n) (LInst I32 n)
    (knows ((n, reg s r) :: K) (holds s k)).
Proof using Hn.
  intros Hs Hr Hp. apply (triple_load _ _ _ _ _ _ Hn _ _ (xaddr y r)); [done|].
  intros m Hm. by apply (ho_regs _ _ _ _ _ _ Hm).
Qed.
Lemma triple_store_vmreg s k val r w :
  wf_regs s -> is_reg r -> is_u32 w -> vtype val = I32 -> value K val w ->
  triple b n (Gen2.store_vmreg b val r) (knows K (holds s k)) (S (S n)) tt
    (knows ((n, xaddr y r) :: K) (holds (set_reg r w s) k)).
Proof using Y Hn.
  intros Hs Hr Hw Ht Hv. unfold Gen2.store_vmreg. eapply triple_bind; [by apply triple_X_addr|].
  apply triple_store_X; try done.
  - destruct Hv; constructor. by apply list_elem_of_further.
  - constructor. apply list_elem_of_here.
Qed.
End Pieces.

(** Side conditions of the rules. *)
Ltac below_tac :=
  unfold below in *; repeat (apply Forall_cons; split; [cbn; lia|]);
  first [done | eapply Forall_impl; [eassumption|cbn; lia] | by apply Forall_nil].
Ltac value_tac :=
  first [ apply value_param | apply value_const
        | apply value_inst; repeat first [apply list_elem_of_here|apply list_elem_of_further] ].
Ltac incl_tac := intros ? ?; repeat first [eassumption|apply list_elem_of_further].
Ltac stays_tac tac := eapply stays_triple; intros n Hn; split; [tac|split; [lia|incl_tac]].
Ltac side := first [done|below_tac|value_tac].
Ltac then_ rule := eapply triple_bind; [rule; side|].

(** ** Shapes of handlers *)

Section Shapes.
Context (b : nat) (s : riscv) (k : Z) (HS : wf_regs s).
#[local] Abbreviation code m s' := (stays b m (holds s k) (holds s' k)).

Lemma is_u32_const c : is_u32 (c mod 2 ^ ty_bits I32).
Proof using Type. apply Z.mod_pos_bound. done. Qed.
Lemma guest_u32 r : is_u32 (reg s r).
Proof using HS. apply (reg_is_u32 s), HS. Qed.

Lemma stays_set_vmreg r c : is_reg r -> code (Gen2.set_vmreg b r c) (set_reg r (u32 c) s).
Proof using Y HS.
  intros Hr. stays_tac ltac:(then_ ltac:(apply triple_X_addr); apply triple_store_X; side || apply is_u32_const).
Qed.
Lemma stays_op_reg op ir w :
  wf_ir ir -> eval_bin op I32 (reg s (rs1 ir)) (reg s (rs2 ir)) = Some w -> is_u32 w ->
  code (Gen2.op_reg op b ir) (set_reg (rd ir) w s).
Proof using Y HS.
  intros [Hd H1 H2 _ _] Ew Hw. stays_tac ltac:(
    then_ ltac:(apply triple_load_vmreg32); then_ ltac:(apply triple_load_vmreg32);
    then_ ltac:(eapply triple_bin); apply triple_store_vmreg; side).
Qed.
Lemma stays_op_shift_reg op ir w :
  wf_ir ir -> eval_bin op I32 (reg s (rs1 ir)) (Z.land (reg s (rs2 ir)) 0x1f) = Some w -> is_u32 w ->
  code (Gen2.op_shift_reg op b ir) (set_reg (rd ir) w s).
Proof using Y HS.
  intros [Hd H1 H2 _ _] Ew Hw. stays_tac ltac:(
    then_ ltac:(apply triple_load_vmreg32); then_ ltac:(apply triple_load_vmreg32);
    then_ ltac:(eapply triple_bin); then_ ltac:(eapply triple_bin); apply triple_store_vmreg; side).
Qed.
Lemma stays_op_imm op rs rd imm w :
  is_reg rs -> is_reg rd -> eval_bin op I32 (reg s rs) (u32 imm) = Some w -> is_u32 w ->
  code (Gen2.op_imm op b rs rd imm) (set_reg rd w s).
Proof using Y HS.
  intros H1 Hd Ew Hw. stays_tac ltac:(
    then_ ltac:(apply triple_load_vmreg32); then_ ltac:(eapply triple_bin); apply triple_store_vmreg; side).
Qed.
Lemma stays_op_imm_in_place op r imm w :
  is_reg r -> eval_bin op I32 (reg s r) (u32 imm) = Some w -> is_u32 w ->
  code (Gen2.op_imm_in_place op b r imm) (set_reg r w s).
Proof using Y HS.
  intros Hr Ew Hw. stays_tac ltac:(
    then_ ltac:(apply triple_X_addr);
    then_ ltac:(apply triple_load_X with (r := r));
    then_ ltac:(eapply triple_bin); apply triple_store_X; side).
Qed.
Lemma stays_copy rs rd : is_reg rs -> is_reg rd ->
  code (x ← Gen2.load_vmreg b I32 rs; Gen2.store_vmreg b x rd) (set_reg rd (reg s rs) s).
Proof using Y HS.
  intros H1 Hd. stays_tac ltac:(
    then_ ltac:(apply triple_load_vmreg32); apply triple_store_vmreg; side || apply guest_u32).
Qed.
Lemma triple_flag_word n K x c M :
  below n K -> value K x (b2u c) ->
  triple b n (LLVMBuildSelect b x (LLVMConstInt I32 1) (LLVMConstInt I32 0)) (knows K M) (S n) (LInst I32 n)
    (knows ((n, b2u c) :: K) M).
Proof using Type.
  intros Hn Hx.
  pose proof (triple_select (rv_ptr y) ext b n K M Hn x (LLVMConstInt I32 1) (LLVMConstInt I32 0) (b2u c) 1 0
    Hx ltac:(constructor) ltac:(constructor)) as T. by destruct c.
Qed.
Lemma triple_flag n K p x vy vx y' a r :
  below n K -> is_reg r -> value K x vx -> value K y' vy -> value K a (xaddr y r) ->
  triple b n (cmp ← LLVMBuildICmp b p x y';
              res ← LLVMBuildSelect b cmp (LLVMConstInt I32 1) (LLVMConstInt I32 0);
              LLVMBuildStore b res a) (knows K (holds s k)) (S (S (S n))) tt
    (knows ((S n, b2u (eval_pred p (vtype x) vx vy)) :: (n, b2u (eval_pred p (vtype x) vx vy)) :: K)
       (holds (set_reg r (b2u (eval_pred p (vtype x) vx vy)) s) k)).
Proof using Y HS.
  intros Hn Hr Hx Hy Ha. set (c := eval_pred p (vtype x) vx vy).
  then_ ltac:(apply (triple_icmp _ _ _ _ _ _ Hn p x y' vx vy)). fold c.
  then_ ltac:(apply (triple_flag_word (S n) ((n, b2u c) :: K) (LInst I1 n) c)).
  apply triple_store_X; try done.
  - destruct c; by vm_compute.
  - value_tac.
  - destruct Ha; constructor. by do 2 apply list_elem_of_further.
Qed.
Lemma stays_op_slt_imm p ir :
  wf_ir ir ->
  code (Gen2.op_slt_imm p b ir)
    (set_reg (rd ir) (b2u (eval_pred p I32 (reg s (rs1 ir)) (u32 (imm ir)))) s).
Proof using Y HS.
  intros [Hd H1 H2 _ _]. stays_tac ltac:(
    then_ ltac:(apply triple_X_addr); then_ ltac:(apply triple_load_vmreg32);
    then_ ltac:(apply triple_ret); eapply triple_flag; side).
Qed.
Lemma stays_op_slt_reg p ir :
  wf_ir ir ->
  code (Gen2.op_slt_reg p b ir)
    (set_reg (rd ir) (b2u (eval_pred p I32 (reg s (rs1 ir)) (reg s (rs2 ir)))) s).
Proof using Y HS.
  intros [Hd H1 H2 _ _]. stays_tac ltac:(
    then_ ltac:(apply triple_X_addr); then_ ltac:(apply triple_load_vmreg32);
    then_ ltac:(apply triple_load_vmreg32); eapply triple_flag; side).
Qed.

(** The high or low word of a product. *)
Definition extends (f : nat -> llvalue -> lltype -> llM llvalue) (e : Z -> Z) : Prop :=
  forall n K M x vx, below n K -> vtype x = I32 -> value K x vx ->
    triple b n (f b x I64) (knows K M) (S n) (LInst I64 n) (knows ((n, e vx) :: K) M).
Lemma extends_sext : extends LLVMBuildSExt (fun x => u64 (ty_signed I32 x)).
Proof using Type. intros n K M x vx Hn <- Hx. by apply triple_sext. Qed.
Lemma extends_zext : extends LLVMBuildZExt (fun x => x).
Proof using Type. intros n K M x vx Hn _ Hx. by apply triple_zext. Qed.
Lemma stays_op_mul f1 f2 e1 e2 op c ir w :
  wf_ir ir -> extends f1 e1 -> extends f2 e2 ->
  eval_bin op I64 (u64 (e1 (reg s (rs1 ir)) * e2 (reg s (rs2 ir)))) (u64 c) = Some w ->
  code (Gen2.op_mul f1 f2 op c b ir) (set_reg (rd ir) (u32 w) s).
Proof using Y HS.
  intros [Hd H1 H2 _ _] Hf1 Hf2 Ew. stays_tac ltac:(
    then_ ltac:(apply triple_load_vmreg32); then_ ltac:(apply triple_load_vmreg32);
    then_ ltac:(apply Hf1); then_ ltac:(apply Hf2);
    then_ ltac:(eapply triple_bin); then_ ltac:(eapply triple_bin); then_ ltac:(apply triple_trunc);
    apply triple_store_vmreg; side || apply is_u32_const).
Qed.

(** ** Memory *)

Context (HM : mem_size (mem s) = ram_size y).

Lemma loc_value r c : is_u32 r -> is_s32 c -> 0 <= r + c < 0x100000000 ->
  eval_bin LAdd I64 r (u64 (u64 (c + mem_base env))) = Some (ram_ptr y + (r + c)).
Proof using Y HE.
  clear -Y HE. intros Hr Hc Ha. destruct Y as [[_ [? ?] _ _] _ _ _]. cbn [eval_bin]. f_equal. unfold ty_mod. cbn [ty_bits].
  rewrite HE. unfold u64, is_u32, is_s32 in *. mlia.
Qed.
Lemma triple_mem_loc n K rs imm :
  below n K -> is_reg rs -> is_s32 imm -> 0 <= reg s rs + imm < 0x100000000 ->
  triple b n (Gen2.gen_mem_loc env b rs imm) (knows K (holds s k)) (S (S (S (S (S n)))))
    (LInst Ptr (S (S (S (S n)))))
    (knows ((S (S (S (S n))), ram_ptr y + (reg s rs + imm)) :: (S (S (S n)), ram_ptr y + (reg s rs + imm)) ::
            (S (S n), reg s rs) :: (S n, reg s rs) :: (n, xaddr y rs) :: K) (holds s k)).
Proof using Y HS HE.
  intros Hn Hr Hi Ha. pose proof (loc_value (reg s rs) imm (guest_u32 rs) Hi Ha) as E. unfold Gen2.gen_mem_loc.
  then_ ltac:(apply triple_load_vmreg32). then_ ltac:(apply triple_zext). then_ ltac:(eapply triple_bin).
  apply triple_inttoptr; side.
Qed.
Section Access.
Context (rs imm : Z) (Hrs : is_reg rs) (Himm : is_s32 imm) (Ha : 0 <= reg s rs + imm < 0x100000000).

Lemma triple_load_ram t n K p val :
  below n K -> mem_read (ty_bytes t) (mem s) (reg s rs + imm) = Some val ->
  value K p (ram_ptr y + (reg s rs + imm)) ->
  triple b n (LLVMBuildLoad2 b t p) (knows K (holds s k)) (S n) (LInst t n) (knows ((n, val) :: K) (holds s k)).
Proof using HM Ha.
  intros Hn Hr Hp. destruct (mem_read_bounds y s HM _ _ _ (proj1 Ha) Hr) as [Hb ->].
  eapply triple_load; [done|exact Hp|]. intros m Hm. eapply holds_load_ram; [exact Hm|lia|done].
Qed.
Lemma triple_store_ram t n K val p x m' :
  vtype val = t -> value K val x -> mem_write (ty_bytes t) (mem s) (reg s rs + imm) x = Some m' ->
  value K p (ram_ptr y + (reg s rs + imm)) ->
  triple b n (LLVMBuildStore b val p) (knows K (holds s k)) (S n) tt (knows K (holds (set_mem m' s) k)).
Proof using Y HM Ha.
  intros Ht Hv Hw Hp. destruct (mem_write_bounds y s HM _ _ _ _ (proj1 Ha) Hw) as [Hb ->].
  eapply triple_store; [exact Hv|exact Hp|]. rewrite Ht. intros m Hm. apply holds_store_ram; try done. lia.
Qed.
Lemma stays_load32 rd val :
  is_reg rd -> mem_read 4 (mem s) (reg s rs + imm) = Some val -> is_u32 val ->
  code (Gen2.gen_load env I32 None b rs imm rd) (set_reg rd val s).
Proof using Y HS HE HM Hrs Himm Ha.
  intros Hd Hr Hv. stays_tac ltac:(
    then_ ltac:(apply triple_mem_loc); then_ ltac:(apply triple_load_ram with (val := val));
    then_ ltac:(apply triple_ret); apply triple_store_vmreg; side).
Qed.
Lemma stays_load_ext t f e rd val :
  (forall n K M x vx, below n K -> vtype x = t -> value K x vx ->
    triple b n (f b x I32) (knows K M) (S n) (LInst I32 n) (knows ((n, e vx) :: K) M)) ->
  is_reg rd -> mem_read (ty_bytes t) (mem s) (reg s rs + imm) = Some val -> is_u32 (e val) ->
  code (Gen2.gen_load env t (Some f) b rs imm rd) (set_reg rd (e val) s).
Proof using Y HS HE HM Hrs Himm Ha.
  intros Hf Hd Hr Hv. stays_tac ltac:(
    then_ ltac:(apply triple_mem_loc); then_ ltac:(apply triple_load_ram with (val := val));
    then_ ltac:(apply Hf); apply triple_store_vmreg; side).
Qed.
Lemma stays_op_store t rs2 m' :
  (ty_bytes t <= 4)%nat -> is_reg rs2 ->
  mem_write (ty_bytes t) (mem s) (reg s rs + imm) (reg s rs2) = Some m' ->
  code (Gen2.gen_store env t b rs imm rs2) (set_mem m' s).
Proof using Y HS HE HM Hrs Himm Ha.
  intros Ht H2 Hw. rewrite <- mem_write_mod in Hw. stays_tac ltac:(
    then_ ltac:(apply triple_mem_loc); then_ ltac:(apply triple_load_vmreg);
    eapply triple_store_ram with (t := t); side).
Qed.
End Access.
Lemma stays_cswsp ir m' :
  wf_ir ir -> 0 <= reg s rv_reg_sp + imm ir < 0x100000000 ->
  mem_write 4 (mem s) (reg s rv_reg_sp + imm ir) (reg s (rs2 ir)) = Some m' ->
  code (Gen2.t2c_cswsp env b ir) (set_mem m' s).
Proof using Y HS HE HM.
  intros [Hd H1 H2 Hi _] Ha Hw. pose proof (loc_value (reg s rv_reg_sp) (imm ir) (guest_u32 rv_reg_sp) Hi Ha) as E.
  stays_tac ltac:(
    then_ ltac:(apply triple_X_addr); then_ ltac:(apply triple_load_vmreg32);
    then_ ltac:(apply triple_zext); then_ ltac:(apply triple_load_X with (r := rs2 ir));
    then_ ltac:(eapply triple_bin); then_ ltac:(apply triple_inttoptr);
    eapply triple_store_ram with (t := I32); side).
Qed.
End Shapes.

(** The prologue of every handler. *)
Lemma stays_count b s k : stays b (Gen2.count_insn counter b) (holds s k) (holds s (k + 1)).
Proof using Y.
  assert (eval_bin LAdd I64 (u64 k) (1 mod 2 ^ 64) = Some (u64 (k + 1))) as E.
  { cbn [eval_bin]. f_equal. unfold ty_mod, u64. cbn [ty_bits]. mlia. }
  stays_tac ltac:(
    eapply triple_bind; [eapply triple_load; [side|value_tac|intros m Hm; exact (ho_ctr _ _ _ _ _ _ Hm)]|];
    eapply triple_bind; [eapply triple_bin; [side|value_tac|value_tac|exact E]|];
    eapply triple_store; [value_tac|value_tac|intros m Hm; exact (holds_store_ctr y ctr Y fr s k (k + 1) m Hm)]).
Qed.
End Handlers.
