(* ===== verification/T2cDispatch.v ===== *)
(** The handlers of t2c_template.c by opcode, against the handlers of the interpreter. *)

From S2P Require Import Prelude.
From S2P Require Import Opcode.
From S2P Require Import Decode.
From S2P Require Import Machine.
From S2P Require Import Interp.
From S2P Require Import MachineFacts.
From S2P Require Import Invariant.
From S2P Require Import DecodeProofs.
From S2P Require Import IsaProofs.
From S2P Require Import JitAlloc.
From S2P Require Import X86.
From S2P Require Import X86Proofs.
From S2P Require Import JitRel.
From S2P Require Import JitSim.
From S2P Require Import JitInsn.
From S2P Require Import JitDispatch.
From S2P Require Import Llvm.
From S2P Require Import T2c.
From S2P Require Import T2cProofs.

(** The operations of LLVM have a result: no division by zero or overflow of a division.  The
    immediate of [c.addi4spn] is one of an encoded instruction. *)
Definition t2c_defined (ir : rv_insn) (s : riscv) : Prop :=
  match opcode ir with
  | rv_insn_div | rv_insn_rem =>
      reg s (rs2 ir) <> 0 /\ ~ (reg s (rs1 ir) = 0x80000000 /\ reg s (rs2 ir) = 0xffffffff)
  | rv_insn_divu | rv_insn_remu => reg s (rs2 ir) <> 0
  | rv_insn_caddi4spn => 0 <= imm ir < 0x8000
  | _ => True
  end.

(** * Operations *)

Lemma ty_signed_s32 v : is_u32 v -> ty_signed I32 v = s32 v.
Proof.
  unfold is_u32, ty_signed, s32. cbn [ty_bits]. change (2 ^ (32 - 1)) with 0x80000000.
  intros H. destruct (Z.ltb_spec v 0x80000000); mlia.
Qed.
Lemma ty_signed_s8 v : 0 <= v < 2 ^ (8 * Z.of_nat 1) -> ty_signed I8 v = s8 v.
Proof.
  unfold ty_signed, s8. cbn [ty_bits]. change (2 ^ (8 - 1)) with 0x80. change (2 ^ (8 * Z.of_nat 1)) with 0x100.
  intros H. destruct (Z.ltb_spec v 0x80); mlia.
Qed.
Lemma ty_signed_s16 v : 0 <= v < 2 ^ (8 * Z.of_nat 2) -> ty_signed I16 v = s16 v.
Proof.
  unfold ty_signed, s16. cbn [ty_bits]. change (2 ^ (16 - 1)) with 0x8000. change (2 ^ (8 * Z.of_nat 2)) with 0x10000.
  intros H. destruct (Z.ltb_spec v 0x8000); mlia.
Qed.
Lemma u64_mul a b : u64 (u64 a * u64 b) = u64 (a * b).
Proof. symmetry. apply Zmult_mod. Qed.
Lemma s32_zero v : is_u32 v -> (s32 v =? 0) = (v =? 0).
Proof. unfold is_u32, s32. intros. mlia. Qed.
Lemma s32_minus1 v : is_u32 v -> (s32 v =? -1) = (v =? 0xffffffff).
Proof. unfold is_u32, s32. intros. mlia. Qed.
Lemma s32_min v : is_u32 v -> (s32 v =? - 2 ^ 31) = (v =? 0x80000000).
Proof. unfold is_u32, s32. intros. mlia. Qed.

Section Dispatch.
Context `{RIO : riscv_io} `{SFT : softfloat}.
Context (ext : Z -> list Z -> gmap Z Z -> option (gmap Z Z)).
Context (y : host_layout) (ctr : Z) (Y : t2c_layout y ctr) (fr : gmap Z Z) (cid : nat).
Context (env : t2c_env) (HE : mem_base env = ram_ptr y).
Context (s : riscv) (HS : wf_regs s) (H0 : reg s 0 = 0) (HM : mem_size (mem s) = ram_size y).
Context (b : nat) (k : Z) (ir : rv_insn) (cycle p : Z) (s' : riscv).
Context (Hir : wf_ir ir) (Hdef : t2c_defined ir s).
Context (Hb : insn_body (opcode ir) s ir cycle (pc ir) = Nextop s' p).
#[local] Abbreviation generated :=
  ((exists m, Gen2.t2c_straight env (LInst Ptr cid) b ir = Some m /\
      stays ext y ctr cid b m (holds y ctr fr s k) (holds y ctr fr s' k)) /\ p = pc ir).
#[local] Abbreviation shape l := (opcode ir ∈ l).

Ltac enter Ho :=
  unfold t2c_defined in Hdef; unfold Gen2.t2c_straight;
  rewrite !elem_of_cons, elem_of_nil in Ho; destruct_or! Ho; try done; rewrite Ho in *;
  cbn [insn_body] in *.
Ltac ends := try (injection Hb as <- <-); split; [|done]; eexists; split; [reflexivity|].

Lemma t2c_const :
  shape [rv_insn_nop; rv_insn_lui; rv_insn_auipc; rv_insn_cnop; rv_insn_cli; rv_insn_clui] -> generated.
Proof using Y HS H0 HE HM Hir Hdef Hb.
  destruct Hir as [Hrd Hr1 Hr2 Hi Hsh]. intros Ho. enter Ho;
    unfold do_nop, do_cnop, do_lui, do_auipc, do_cli, do_clui, wr_rd in Hb; ends.
  - change rv_reg_zero with 0. rewrite set_zero_id by done. apply stays_ret.
  - by apply stays_set_vmreg.
  - rewrite <- (u32_idem (imm ir + pc ir)), (Z.add_comm (imm ir)). by apply stays_set_vmreg.
  - apply stays_ret.
  - by apply stays_set_vmreg.
  - by apply stays_set_vmreg.
Qed.
Lemma t2c_alu_reg :
  shape [rv_insn_add; rv_insn_sub; rv_insn_xor; rv_insn_or; rv_insn_and;
         rv_insn_csub; rv_insn_cxor; rv_insn_cor; rv_insn_cand; rv_insn_cadd] -> generated.
Proof using Y HS H0 HE HM Hir Hdef Hb.
  pose proof (guest_u32 s HS) as Hu. intros Ho. enter Ho;
    unfold do_add, do_sub, do_xor, do_or, do_and, do_csub, do_cxor, do_cor, do_cand, do_cadd, wr_rd in Hb; ends;
    (apply stays_op_reg; [done..|reflexivity|]); range.
Qed.
Lemma t2c_shift_reg : shape [rv_insn_sll; rv_insn_srl; rv_insn_sra] -> generated.
Proof using Y HS H0 HE HM Hir Hdef Hb.
  pose proof (guest_u32 s HS) as Hu. pose proof (shift_mask_range (reg s (rs2 ir))) as Hm.
  intros Ho. enter Ho; unfold do_sll, do_srl, do_sra, wr_rd in Hb; ends;
    (apply stays_op_shift_reg; [done..| |]); cbn [eval_bin ty_bits];
    rewrite ?(proj2 (Z.ltb_lt _ _)), ?ty_signed_s32 by (done || lia); try reflexivity; range.
Qed.
Lemma t2c_alu_imm :
  shape [rv_insn_addi; rv_insn_xori; rv_insn_ori; rv_insn_andi] -> generated.
Proof using Y HS H0 HE HM Hir Hdef Hb.
  destruct Hir as [Hrd Hr1 Hr2 Hi Hsh]. pose proof (guest_u32 s HS) as Hu.
  intros Ho. enter Ho; unfold do_addi, do_xori, do_ori, do_andi, wr_rd in Hb; ends;
    rewrite <- ?(u32_add_r (reg s (rs1 ir)) (imm ir)); (apply stays_op_imm; [done..|reflexivity|]); range.
Qed.
Lemma t2c_shift_imm : shape [rv_insn_slli; rv_insn_srli; rv_insn_srai] -> generated.
Proof using Y HS H0 HE HM Hir Hdef Hb.
  destruct Hir as [Hrd Hr1 Hr2 Hi Hsh]. pose proof (guest_u32 s HS) as Hu.
  intros Ho. pose proof (shift_mask_range (imm ir)) as Hm.
  assert (u32 (Z.land (imm ir) 0x1f) = Z.land (imm ir) 0x1f) as Em by (apply u32_small; unfold is_u32; lia).
  enter Ho; unfold do_slli, do_srli, do_srai, shift_func, wr_rd in Hb; rewrite Ho in Hb;
    cbn [shift_value] in Hb; ends;
    (apply stays_op_imm; [done..| |]); rewrite ?Em; cbn [eval_bin ty_bits];
    rewrite ?(proj2 (Z.ltb_lt _ _)), ?ty_signed_s32 by (done || lia); try reflexivity; range.
Qed.
Lemma t2c_slt : shape [rv_insn_slti; rv_insn_sltiu; rv_insn_slt; rv_insn_sltu] -> generated.
Proof using Y HS H0 HE HM Hir Hdef Hb.
  pose proof (guest_u32 s HS) as Hu. pose proof (wf_imm _ Hir) as Hi.
  intros Ho. enter Ho; unfold do_slti, do_sltiu, do_slt, do_sltu, wr_rd in Hb; ends.
  - rewrite <- (s32_small (imm ir)) by done. rewrite <- (s32_u32 (imm ir)).
    rewrite <- !ty_signed_s32 by (done || apply is_u32_u32). by apply (stays_op_slt_imm ext y ctr Y fr cid b s k HS LSLT).
  - by apply (stays_op_slt_imm ext y ctr Y fr cid b s k HS LULT).
  - rewrite <- !ty_signed_s32 by done. by apply (stays_op_slt_reg ext y ctr Y fr cid b s k HS LSLT).
  - by apply (stays_op_slt_reg ext y ctr Y fr cid b s k HS LULT).
Qed.
Lemma t2c_in_place :
  shape [rv_insn_caddi4spn; rv_insn_caddi; rv_insn_caddi16sp; rv_insn_candi; rv_insn_cmv] -> generated.
Proof using Y HS H0 HE HM Hir Hdef Hb.
  destruct Hir as [Hrd Hr1 Hr2 Hi Hsh]. pose proof (guest_u32 s HS) as Hu.
  intros Ho. enter Ho; unfold do_caddi4spn, do_caddi, do_caddi16sp, do_candi, do_cmv, wr_rd, wr_rs1 in Hb; ends.
  - replace (u16 (imm ir)) with (s16 (imm ir)) by (unfold s16, u16; mlia).
    rewrite <- u32_add_r. (apply stays_op_imm; [done..|reflexivity|]); range.
  - rewrite <- u32_add_r. (apply stays_op_imm_in_place; [done..|reflexivity|]); range.
  - rewrite <- u32_add_r. (apply stays_op_imm_in_place; [done..|reflexivity|]); range.
  - (apply stays_op_imm_in_place; [done..|reflexivity|]); range.
  - by apply stays_copy.
Qed.
Lemma t2c_shift_in_place : shape [rv_insn_csrli; rv_insn_csrai; rv_insn_cslli] -> generated.
Proof using Y HS H0 HE HM Hir Hdef Hb.
  pose proof (guest_u32 s HS) as Hu. destruct Hir as [Hrd Hr1 Hr2 Hi Hsh].
  assert (0 <= u8 (imm ir)) by (unfold u8; mlia).
  intros Ho. enter Ho; unfold do_csrli, do_csrai, do_cslli, wr_rd, wr_rs1 in Hb.
  - destruct (decide (shamt ir < 32)).
    2: { unfold shr32 in Hb. by replace ((0 <=? shamt ir) && (shamt ir <? 32)) with false in Hb by lia. }
    rewrite shr32_small in Hb by lia. ends. apply stays_op_imm_in_place; [done..| |range].
    rewrite u32_small by (unfold is_u32; lia). cbn [eval_bin ty_bits]. by rewrite (proj2 (Z.ltb_lt _ _)).
  - destruct (decide (shamt ir < 32)).
    2: { unfold shr32 in Hb. by replace ((0 <=? shamt ir) && (shamt ir <? 32)) with false in Hb by lia. }
    rewrite shr32_small, csrai_value, land_31_small in Hb by (auto || lia). ends.
    apply stays_op_imm_in_place; [done..| |range].
    rewrite u32_small by (unfold is_u32; lia). cbn [eval_bin ty_bits].
    by rewrite (proj2 (Z.ltb_lt _ _)), ty_signed_s32.
  - destruct (decide (u8 (imm ir) < 32)).
    2: { unfold shl32 in Hb. by replace (_ && (u8 (imm ir) <? 32)) with false in Hb by lia. }
    rewrite shl32_small in Hb by lia. ends. apply stays_op_imm_in_place; [done..| |range].
    rewrite u32_small by (unfold is_u32; lia). cbn [eval_bin ty_bits]. by rewrite (proj2 (Z.ltb_lt _ _)).
Qed.
Lemma t2c_mul : shape [rv_insn_mul; rv_insn_mulh; rv_insn_mulhsu; rv_insn_mulhu] -> generated.
Proof using Y HS H0 HE HM Hir Hdef Hb.
  pose proof (guest_u32 s HS) as Hu.
  pose proof (fun f1 f2 e1 e2 op c w => stays_op_mul ext y ctr Y fr cid b s k HS f1 f2 e1 e2 op c ir w Hir) as Hok.
  pose proof (extends_sext ext y b) as Hs. pose proof (extends_zext ext y b) as Hz.
  intros Ho. enter Ho; unfold do_mul, do_mulh, do_mulhsu, do_mulhu, wr_rd in Hb; cbv zeta in Hb; ends.
  - rewrite <- (u32_small (_ &u _)) by (apply land_u32_r; done).
    rewrite <- u64_mul, <- !ty_signed_s32 by done. by apply (Hok _ _ _ _ LAnd _ _ Hs Hs).
  - rewrite <- u64_mul, <- !ty_signed_s32 by done. by apply (Hok _ _ _ _ LLShr _ _ Hs Hs).
  - rewrite <- !ty_signed_s32 by done. by apply (Hok _ _ _ _ LLShr _ _ Hs Hz).
  - by apply (Hok _ _ _ _ LLShr _ _ Hz Hz).
Qed.
Lemma t2c_div : shape [rv_insn_div; rv_insn_divu; rv_insn_rem; rv_insn_remu] -> generated.
Proof using Y HS H0 HE HM Hir Hdef Hb.
  pose proof (guest_u32 s HS (rs1 ir)) as H1. pose proof (guest_u32 s HS (rs2 ir)) as H2.
  intros Ho. enter Ho; unfold do_div, do_divu, do_rem, do_remu, wr_rd, truth in Hb; cbv zeta in Hb; ends;
    (apply stays_op_reg; [done..| |]); cbn [eval_bin]; rewrite ?ty_signed_s32 by done; cbn [ty_bits];
    try (destruct Hdef as [Hz Hov]; rewrite ?s32_zero, ?s32_minus1 by done;
         replace (reg s (rs2 ir) =? 0) with false by lia;
         replace ((reg s (rs2 ir) =? 0xffffffff) && (reg s (rs1 ir) =? 0x80000000)) with false by lia);
    try replace (reg s (rs2 ir) =? 0) with false by lia; cbn [orb negb].
  - rewrite s32_min by done. replace (_ && _) with false by lia. done.
  - range.
  - done.
  - unfold is_u32 in *. split; [apply Z.div_pos; lia|]. apply Z.div_lt_upper_bound; nia.
  - rewrite s32_min by done. replace (_ && _) with false by lia. done.
  - range.
  - done.
  - unfold is_u32 in *. pose proof (Z.mod_pos_bound (reg s (rs1 ir)) (reg s (rs2 ir))). lia.
Qed.

Context (HW : wf s) (Hnw : no_wrap ir s).
Ltac address := rewrite ?u32_add_r, u32_small in Hb by (unfold is_u32; lia).

Lemma sext_rule t n K M x vx :
  below n K -> vtype x = t -> value (rv_ptr y) K x vx ->
  triple (rv_ptr y) ext b n (LLVMBuildSExt b x I32) (knows K M) (S n) (LInst I32 n)
    (knows ((n, u32 (ty_signed t vx)) :: K) M).
Proof using Type. intros Hn <- Hx. by apply triple_sext. Qed.
Lemma zext_rule t n K M x vx :
  below n K -> vtype x = t -> value (rv_ptr y) K x vx ->
  triple (rv_ptr y) ext b n (LLVMBuildZExt b x I32) (knows K M) (S n) (LInst I32 n)
    (knows ((n, vx) :: K) M).
Proof using Type. intros Hn _ Hx. by apply triple_zext. Qed.

Lemma t2c_load :
  shape [rv_insn_lb; rv_insn_lh; rv_insn_lw; rv_insn_lbu; rv_insn_lhu; rv_insn_clw; rv_insn_clwsp] -> generated.
Proof using Y HS H0 HE HM Hir Hdef Hb HW Hnw.
  destruct Hir as [Hrd Hr1 Hr2 Hi Hsh]. assert (is_reg rv_reg_sp) by done.
  intros Ho. unfold no_wrap in Hnw.
  enter Ho; cbn [jit_base] in Hnw;
    unfold do_lb, do_lh, do_lw, do_lbu, do_lhu, do_clw, do_clwsp, lw_at, wr_rd, ram_read_b, ram_read_s,
      ram_read_w in Hb; cbv zeta in Hb; address; try apply misalign_Nextop in Hb;
    (destruct (mem_read _ _ _) as [v|] eqn:Em; [|done]); pose proof (mem_read_range _ _ _ _ HW Em) as Hv; ends.
  - replace (sign_extend_b v) with (u32 (ty_signed I8 v)) by (by rewrite ty_signed_s8).
    apply (stays_load_ext ext y ctr Y fr cid env HE b s k HS HM (rs1 ir) (imm ir) Hr1 Hi Hnw I8 _ (fun v => u32 (ty_signed I8 v)));
      [by apply sext_rule|done|done|apply is_u32_u32].
  - replace (sign_extend_h v) with (u32 (ty_signed I16 v)) by (by rewrite ty_signed_s16).
    apply (stays_load_ext ext y ctr Y fr cid env HE b s k HS HM (rs1 ir) (imm ir) Hr1 Hi Hnw I16 _ (fun v => u32 (ty_signed I16 v)));
      [by apply sext_rule|done|done|apply is_u32_u32].
  - by apply stays_load32.
  - apply (stays_load_ext ext y ctr Y fr cid env HE b s k HS HM (rs1 ir) (imm ir) Hr1 Hi Hnw I8 _ (fun v => v));
      [by apply zext_rule|done|done|]. cbn in Hv. unfold is_u32. lia.
  - apply (stays_load_ext ext y ctr Y fr cid env HE b s k HS HM (rs1 ir) (imm ir) Hr1 Hi Hnw I16 _ (fun v => v));
      [by apply zext_rule|done|done|]. cbn in Hv. unfold is_u32. lia.
  - by apply stays_load32.
  - by apply stays_load32.
Qed.
Lemma t2c_store :
  shape [rv_insn_sb; rv_insn_sh; rv_insn_sw; rv_insn_csw; rv_insn_cswsp] -> generated.
Proof using Y HS H0 HE HM Hir Hdef Hb HW Hnw.
  pose proof Hir as [Hrd Hr1 Hr2 Hi Hsh].
  intros Ho. unfold no_wrap in Hnw.
  enter Ho; cbn [jit_base] in Hnw;
    unfold do_sb, do_sh, do_sw, do_csw, do_cswsp, sw_at, ram_write_b, ram_write_s, ram_write_w in Hb;
    cbv zeta in Hb; address; try apply misalign_Nextop in Hb;
    (destruct (mem_write _ _ _ _) as [m|] eqn:Em; [|done]); cbn [mbind option_bind] in Hb; ends.
  - apply stays_op_store; try done; [cbn; lia|]. by rewrite <- mem_write_mod.
  - apply stays_op_store; try done; [cbn; lia|]. by rewrite <- mem_write_mod.
  - by apply stays_op_store.
  - by apply stays_op_store.
  - by apply stays_cswsp.
Qed.

Ltac mem Eo := rewrite <- Eo; repeat first [apply list_elem_of_here|apply list_elem_of_further].
Lemma t2c_straight_ok : straight_op (opcode ir) = true -> generated.
Proof using Y HS H0 HE HM Hir Hdef Hb HW Hnw.
  intros Hst. assert (exists o, o = opcode ir) as [o Eo] by eauto. rewrite <- Eo in Hst.
  destruct o; try discriminate Hst;
    first
    [ apply t2c_const; by mem Eo | apply t2c_alu_reg; by mem Eo | apply t2c_shift_reg; by mem Eo
    | apply t2c_alu_imm; by mem Eo | apply t2c_shift_imm; by mem Eo | apply t2c_slt; by mem Eo
    | apply t2c_in_place; by mem Eo | apply t2c_shift_in_place; by mem Eo
    | apply t2c_mul; by mem Eo | apply t2c_div; by mem Eo
    | apply t2c_load; by mem Eo | apply t2c_store; by mem Eo ].
Qed.
End Dispatch.
