(* ===== verification/T2cTerm.v ===== *)
(** Execution of LLVM code by positions, and the code that ends a basic block.

    The function grows while it is built: instructions are appended to basic blocks.  What an
    execution did in a function it still does in one that has grown.  The second half has the
    handlers that leave the function, the direct jumps and the branches. *)

From S2P Require Import Prelude.
From S2P Require Import Opcode.
From S2P Require Import Decode.
From S2P Require Import Machine.
From S2P Require Import Interp.
From S2P Require Import MachineFacts.
From S2P Require Import Invariant.
From S2P Require Import DecodeProofs.
From S2P Require Import IsaProofs.
From S2P Require Import JitAlloc.
From S2P Require Import JitGen.
From S2P Require Import X86.
From S2P Require Import X86Proofs.
From S2P Require Import JitRel.
From S2P Require Import JitSim.
From S2P Require Import JitDispatch.
From S2P Require Import Llvm.
From S2P Require Import T2c.
From S2P Require Import T2cProofs.
From S2P Require Import T2cDispatch.

(** * Functions that grow *)

(** Blocks other than those in [W] are as they were. *)
Record grows (W : nat -> Prop) (f f' : llfun) : Prop := {
  gr_block : forall b l, ll_blocks f !! b = Some l -> exists l', ll_blocks f' !! b = Some (l ++ l');
  gr_same : forall b, (b < length (ll_blocks f))%nat -> ~ W b -> ll_blocks f' !! b = ll_blocks f !! b;
  gr_length : (length (ll_blocks f) <= length (ll_blocks f'))%nat;
  gr_next : (ll_next f <= ll_next f')%nat }.

Lemma grows_refl W f : grows W f f.
Proof. split; try done. intros b l E. exists []. by rewrite app_nil_r. Qed.
(** New blocks may be written freely. *)
Lemma grows_new (W W' : nat -> Prop) f g h :
  grows W f g -> grows W' g h -> (forall b, (b < length (ll_blocks f))%nat -> W' b -> W b) -> grows W f h.
Proof.
  intros [A1 A2 A3 A4] [B1 B2 B3 B4] HW. split; [|..|lia|lia].
  - intros b l (l1 & E1)%A1. destruct (B1 b _ E1) as (l2 & E2). exists (l1 ++ l2). by rewrite app_assoc.
  - intros b Hb Hn. rewrite B2, A2; auto. lia.
Qed.
Lemma grows_trans W f g h : grows W f g -> grows W g h -> grows W f h.
Proof. intros. eapply grows_new; eauto. Qed.
Lemma grows_weaken (W W' : nat -> Prop) f f' :
  grows W f f' -> (forall b, (b < length (ll_blocks f))%nat -> W b -> W' b) -> grows W' f f'.
Proof. intros [] HW. split; auto. Qed.
Lemma grows_alter W b (l : llcode) f n' :
  W b -> (ll_next f <= n')%nat -> grows W f (mk_llfun (alter (fun c => c ++ l) b (ll_blocks f)) n').
Proof.
  intros Hb Hn. split; cbn [ll_blocks ll_next]; [..|by rewrite length_alter|done].
  - intros b' c E. destruct (decide (b' = b)) as [->|Hne].
    + exists l. rewrite list_lookup_alter_eq. apply fmap_Some. by exists c.
    + exists []. by rewrite list_lookup_alter_ne, app_nil_r.
  - intros b' _ Hn'. rewrite list_lookup_alter_ne; [done|]. by intros <-.
Qed.
Lemma grows_append W f c : grows W f (mk_llfun (ll_blocks f ++ [c]) (ll_next f)).
Proof.
  split; cbn [ll_blocks ll_next]; [..|rewrite length_app; cbn; lia|done].
  - intros b l E. exists []. rewrite app_nil_r. by apply lookup_app_l_Some.
  - intros b Hb _. by rewrite lookup_app_l.
Qed.

(** * Positions *)

Section Positions.
Context (param : Z) (ext : Z -> list Z -> gmap Z Z -> option (gmap Z Z)).
#[local] Abbreviation exec_code := (exec_code param ext).

(** A basic block, the index of an instruction in it, and the state. *)
Definition pos : Type := nat * nat * llstate.
Definition insn_at (f : llfun) (b i : nat) (p : nat * llinsn) : Prop :=
  exists l, ll_blocks f !! b = Some l /\ l !! i = Some p.
Inductive pstep (f : llfun) : pos -> pos -> Prop :=
  | pstep_next b i id ins st st' :
      insn_at f b i (id, ins) -> exec_insn param ext id ins st = Some (Lnext st') ->
      pstep f (b, i, st) (b, S i, st')
  | pstep_goto b i id ins st b' st' :
      insn_at f b i (id, ins) -> exec_insn param ext id ins st = Some (Lgoto b' st') ->
      pstep f (b, i, st) (b', O, st').
Definition psteps (f : llfun) : pos -> pos -> Prop := rtc (pstep f).
Definition preturns (f : llfun) (p : pos) (st' : llstate) : Prop :=
  exists b i id ins st, psteps f p (b, i, st) /\ insn_at f b i (id, ins) /\
    exec_insn param ext id ins st = Some (Lreturn st').

Lemma insn_at_grows W f f' b i p : grows W f f' -> insn_at f b i p -> insn_at f' b i p.
Proof using Type.
  intros G (l & El & Ei). destruct (gr_block _ _ _ G b l El) as (l' & El'). exists (l ++ l').
  split; [done|]. by apply lookup_app_l_Some.
Qed.
Lemma psteps_grows W f f' p q : grows W f f' -> psteps f p q -> psteps f' p q.
Proof using Type.
  intros G. apply rtc_subrel. intros ? ? [].
  - eapply pstep_next; [by eapply insn_at_grows|done].
  - eapply pstep_goto; [by eapply insn_at_grows|done].
Qed.
Lemma preturns_grows W f f' p st : grows W f f' -> preturns f p st -> preturns f' p st.
Proof using Type.
  intros G (b & i & id & ins & st1 & H1 & H2 & H3). exists b, i, id, ins, st1.
  split; [by eapply psteps_grows|]. split; [by eapply insn_at_grows|done].
Qed.
Lemma preturns_steps f p q st : psteps f p q -> preturns f q st -> preturns f p st.
Proof using Type. intros H (b & i & id & ins & st1 & H1 & H2). exists b, i, id, ins, st1. split; [by etrans|done]. Qed.

(** The instructions [l] are in the block from [i] on. *)
Definition code_at (f : llfun) (b i : nat) (l : llcode) : Prop :=
  exists l0 l1, ll_blocks f !! b = Some (l0 ++ l ++ l1) /\ length l0 = i.
Lemma code_at_cons f b i p l : code_at f b i (p :: l) -> insn_at f b i p /\ code_at f b (S i) l.
Proof using Type.
  intros (l0 & l1 & E & <-). split.
  - exists (l0 ++ (p :: l) ++ l1). split; [done|]. rewrite lookup_app_r, Nat.sub_diag by lia. done.
  - exists (l0 ++ [p]), l1. split; [|rewrite length_app; cbn; lia]. rewrite E. by rewrite <- app_assoc.
Qed.
Lemma code_at_grows W f f' b i l : grows W f f' -> code_at f b i l -> code_at f' b i l.
Proof using Type.
  intros G (l0 & l1 & E & Hl). destruct (gr_block _ _ _ G b _ E) as (l' & E'). exists l0, (l1 ++ l').
  split; [|done]. rewrite E'. by rewrite <- !app_assoc.
Qed.

Lemma psteps_code f b l : forall i st st',
  code_at f b i l -> exec_code l st = Some (Lnext st') -> psteps f (b, i, st) (b, (i + length l)%nat, st').
Proof using Type.
  induction l as [|[id ins] l IH]; intros i st st' Hc E; cbn [Llvm.exec_code] in E.
  { injection E as <-. rewrite Nat.add_0_r. apply rtc_refl. }
  apply code_at_cons in Hc as [Hi Hc]. destruct (exec_insn param ext id ins st) as [[st1|b' st1|st1]|] eqn:Ei; try done.
  cbn in E. eapply rtc_l; [by eapply pstep_next|]. cbn [length]. rewrite Nat.add_succ_r. apply (IH (S i)); done.
Qed.
Lemma psteps_goto f b l : forall i st b' st',
  code_at f b i l -> exec_code l st = Some (Lgoto b' st') -> psteps f (b, i, st) (b', O, st').
Proof using Type.
  induction l as [|[id ins] l IH]; intros i st b' st' Hc E; cbn [Llvm.exec_code] in E; [done|].
  apply code_at_cons in Hc as [Hi Hc]. destruct (exec_insn param ext id ins st) as [[st1|b1 st1|st1]|] eqn:Ei; try done; cbn in E.
  - eapply rtc_l; [by eapply pstep_next|]. by apply (IH (S i)).
  - injection E as -> ->. apply rtc_once. by eapply pstep_goto.
Qed.
Lemma preturns_code f b l : forall i st st',
  code_at f b i l -> exec_code l st = Some (Lreturn st') -> preturns f (b, i, st) st'.
Proof using Type.
  induction l as [|[id ins] l IH]; intros i st st' Hc E; cbn [Llvm.exec_code] in E; [done|].
  apply code_at_cons in Hc as [Hi Hc]. destruct (exec_insn param ext id ins st) as [[st1|b1 st1|st1]|] eqn:Ei; try done; cbn in E.
  - eapply preturns_steps; [apply rtc_once; by eapply pstep_next|]. by apply (IH (S i)).
  - injection E as ->. exists b, i, id, ins, st. split; [apply rtc_refl|done].
Qed.

(** A function that returns is run to its end by [exec_fun], given enough fuel. *)
Lemma preturns_exec f b st st' :
  preturns f (b, O, st) st' -> exists fuel, exec_fun param ext fuel f b st = Some (Some st').
Proof using Type.
  intros (b1 & i1 & id & ins & st1 & Hs & Hi & Er).
  assert (forall p, psteps f p (b1, i1, st1) -> exists fuel l, ll_blocks f !! p.1.1 = Some l /\
    match exec_code (drop p.1.2 l) p.2 with
    | Some (Lgoto b' s') => exec_fun param ext fuel f b' s'
    | Some (Lreturn s') => Some (Some s')
    | _ => None
    end = Some (Some st')) as Hall.
  { intros p Hp. clear Hs. unfold psteps in Hp. remember (b1, i1, st1) as e eqn:Ee.
    induction Hp as [p|p q r Hstep _ IH]; [subst p|specialize (IH Ee); clear Ee].
    - destruct Hi as (l & El & Ei). exists O, l. split; [done|]. cbn [fst snd].
      rewrite (drop_S _ _ _ Ei). cbn [Llvm.exec_code]. by rewrite Er.
    - destruct IH as (fuel & l & El & E). destruct Hstep as [b2 i2 id2 ins2 st2 st2' Hin E2|b2 i2 id2 ins2 st2 b3 st2' Hin E2];
        destruct Hin as (l2 & El2 & Ei2); cbn [fst snd] in *.
      + rewrite El in El2. injection El2 as <-. exists fuel, l. split; [done|].
        rewrite (drop_S _ _ _ Ei2). cbn [Llvm.exec_code]. rewrite E2. exact E.
      + exists (S fuel), l2. split; [done|]. rewrite (drop_S _ _ _ Ei2). cbn [Llvm.exec_code]. rewrite E2.
        cbn [mbind option_bind exec_fun]. unfold exec_block. rewrite El. cbn [mbind option_bind].
        rewrite drop_0 in E. destruct (exec_code l st2') as [[]|]; cbn in *; done. }
  destruct (Hall _ Hs) as (fuel & l & El & E). exists (S fuel). cbn [exec_fun fst snd] in *. unfold exec_block.
  rewrite El. cbn [mbind option_bind]. rewrite drop_0 in E. destruct (exec_code l st) as [[]|]; cbn in *; done.
Qed.
End Positions.

(** * Code does not depend on the state of the guest *)

Lemma appends_det {A} b (m : llM A) n a l n' a2 l2 n2 :
  appends b m n a l n' -> appends b m n a2 l2 n2 -> a = a2 /\ l = l2 /\ n' = n2.
Proof.
  intros H1 H2. set (B := replicate (S b) ([] : llcode)).
  assert (b < length B)%nat as Hb by (unfold B; rewrite length_replicate; lia).
  specialize (H1 B Hb). rewrite (H2 B Hb) in H1. injection H1 as -> E ->. split; [done|]. split; [|done].
  assert (alter (fun c => c ++ l2) b B !! b = alter (fun c => c ++ l) b B !! b) as E' by (by rewrite E).
  rewrite !list_lookup_alter_eq in E'. unfold B in E'. rewrite lookup_replicate_2 in E' by lia. by injection E'.
Qed.

Definition builds (b : nat) (m : llM unit) : Prop :=
  forall n, exists l n', (n <= n')%nat /\ appends b m n tt l n'.
Lemma builds_bind b m m' : builds b m -> builds b m' -> builds b (m;; m').
Proof.
  intros H1 H2 n. destruct (H1 n) as (l & n1 & Hn1 & A1). destruct (H2 n1) as (l' & n2 & Hn2 & A2).
  exists (l ++ l'), n2. split; [lia|]. by eapply appends_bind.
Qed.
Lemma builds_appends b m l n' :
  (forall n, appends b m n tt (l n) (n' n) /\ (n <= n' n)%nat) -> builds b m.
Proof. intros H n. destruct (H n). eauto. Qed.
Ltac appends_tac :=
  repeat first [apply appends_value|apply appends_void|apply appends_ret|eapply appends_bind].
Ltac builds_tac := eapply builds_appends; intros n; split; [appends_tac|cbv beta; lia].

Section Static.
Context (env : t2c_env) (counter : llvalue) (b : nat).
Lemma builds_count : builds b (Gen2.count_insn counter b).
Proof using Type. builds_tac. Qed.
Lemma straight_builds ir :
  straight_op (opcode ir) = true -> exists m, Gen2.t2c_straight env counter b ir = Some m /\ builds b m.
Proof using Type.
  intros Hst. unfold Gen2.t2c_straight. destruct (opcode ir); try discriminate Hst; eexists; (split; [reflexivity|]); builds_tac.
Qed.
End Static.

(** * Leaving the function *)

(** The cycle counter of the emulator state. *)
Record cycle_layout (y : host_layout) (ctr : Z) (env : t2c_env) (fr : gmap Z Z) (c0 : Z) : Prop := {
  cl_host : t2c_layout y ctr;
  cl_offset : offsetof_PC + 4 <= off_csr_cycle env < 0x80000000;
  cl_align : off_csr_cycle env mod 4 = 0;
  cl_range : rv_ptr y + off_csr_cycle env + 8 <= 0x4000000000000000;
  cl_ctr : ctr + 8 <= rv_ptr y + off_csr_cycle env \/ rv_ptr y + off_csr_cycle env + 8 <= ctr;
  cl_ram : rv_ptr y + off_csr_cycle env + 8 <= ram_ptr y \/ ram_ptr y + ram_size y <= rv_ptr y + off_csr_cycle env;
  cl_value : hload 8 fr (rv_ptr y + off_csr_cycle env) = Some c0 }.

Lemma hload_mapped n : forall m a v b,
  hload n m a = Some v -> a <= b < a + Z.of_nat n -> is_Some (m !! b).
Proof.
  induction n as [|n IH]; intros m a v b E Hb; cbn [hload] in E; [lia|].
  apply bind_Some in E as (x & Ex & (w & Ew & _)%bind_Some).
  destruct (decide (b = a)) as [->|Hn]; [eauto|]. apply (IH m (a + 1) w); [done|lia].
Qed.

Section Leave.
Context (ext : Z -> list Z -> gmap Z Z -> option (gmap Z Z)).
Context (y : host_layout) (ctr : Z) (env : t2c_env) (fr : gmap Z Z) (c0 : Z).
Context (Y : cycle_layout y ctr env fr c0) (cid : nat).
#[local] Abbreviation triple := (triple (rv_ptr y) ext).
#[local] Abbreviation value := (value (rv_ptr y)).
#[local] Abbreviation exec_code := (exec_code (rv_ptr y) ext).
#[local] Abbreviation holds := (holds y ctr fr).
#[local] Abbreviation counter := (LInst Ptr cid).
#[local] Abbreviation cycle_addr := (rv_ptr y + off_csr_cycle env).
#[local] Abbreviation pc_addr := (rv_ptr y + offsetof_PC).
Definition in_cycle (a : Z) : Prop := cycle_addr <= a < cycle_addr + 8.

(** The memory after a return: the guest as it is, the address of the next block stored and the
    instructions counted. *)
Record left (s : riscv) (k pc : Z) (m : gmap Z Z) : Prop := {
  lf_regs : forall v, is_reg v -> hload 4 m (xaddr y v) = Some (reg s v);
  lf_ram : forall a, 0 <= a < ram_size y -> m !! (ram_ptr y + a) = Some (byte_at (mem s) a);
  lf_pc : hload 4 m pc_addr = Some pc;
  lf_cycle : hload 8 m cycle_addr = Some (u64 (c0 + k));
  lf_frame : forall a, ~ in_rv y a -> ~ in_guest_ram y a -> ~ in_ctr ctr a -> ~ in_cycle a -> m !! a = fr !! a }.

Lemma left_same s s' k pc m : left s k pc m -> X s' = X s -> mem s' = mem s -> left s' k pc m.
Proof using Type. intros [] EX EM. split; auto; unfold reg; rewrite ?EX, ?EM; auto. Qed.

Definition with_pc (pc : Z) (s : riscv) (k : Z) (m : gmap Z Z) : Prop :=
  holds s k m /\ hload 4 m pc_addr = Some pc.

Ltac sides := unfold in_rv, in_guest_ram, in_ctr, in_cycle, xaddr, is_reg, offsetof_PC, offsetof_X in *.

Lemma holds_store_pc s k m pc :
  is_u32 pc -> holds s k m -> exists m', hstore 4 m pc_addr pc = Some m' /\ with_pc pc s k m'.
Proof using Y.
  clear ext. intros Hpc []. destruct Y as [[[Y1 Y2 Y3 Y4] Y5 Y6 Y7] _ _ _ _ _ _].
  destruct (hstore_is_Some 4 m pc_addr pc) as [m' E].
  { intros a Ha. destruct (ho_rv a) as (x & -> & _); [sides; lia|done]. }
  exists m'. split; [done|].
  assert (forall a, a < pc_addr \/ pc_addr + 4 <= a -> m' !! a = m !! a) as Hout.
  { intros a Ha. apply (hstore_lookup_other _ _ _ _ _ _ E). lia. }
  split; [split|].
  - intros v Hv. rewrite <- ho_regs by done. apply hload_ext. intros a Ha. apply Hout. sides. lia.
  - by apply (rv_bytes_hstore y _ _ _ _ _ E).
  - intros a Ha. rewrite Hout; [by apply ho_ram|]. sides. lia.
  - rewrite <- ho_ctr. apply hload_ext. intros a Ha. apply Hout. sides. lia.
  - intros a Ha. apply (hstore_dom _ _ _ _ _ _ E). auto.
  - intros a H1 H2 H3. rewrite Hout; [auto|]. sides. lia.
  - rewrite (hload_hstore_same _ _ _ _ _ E). f_equal. apply Z.mod_small. exact Hpc.
Qed.
Lemma with_pc_cycle pc s k m :
  with_pc pc s k m ->
  exists m', hload 8 m cycle_addr = Some c0 /\
    hstore 8 m cycle_addr (ty_mod I64 (c0 + u64 k)) = Some m' /\ left s k pc m'.
Proof using Y.
  clear ext. intros [[] Hpc]. destruct Y as [[[Y1 Y2 Y3 Y4] Y5 Y6 Y7] O1 O2 O3 O4 O5 O6].
  assert (forall a, in_cycle a -> m !! a = fr !! a) as Hc.
  { intros a Ha. apply ho_frame; sides; lia. }
  assert (hload 8 m cycle_addr = Some c0) as Ec.
  { rewrite <- O6. apply hload_ext. intros a Ha. apply Hc. sides. lia. }
  destruct (hstore_is_Some 8 m cycle_addr (ty_mod I64 (c0 + u64 k))) as [m' E].
  { intros a Ha. by eapply hload_mapped. }
  exists m'. split; [done|]. split; [done|].
  assert (forall a, ~ in_cycle a -> m' !! a = m !! a) as Hout.
  { intros a Ha. apply (hstore_lookup_other _ _ _ _ _ _ E). sides. lia. }
  split.
  - intros v Hv. rewrite <- ho_regs by done. apply hload_ext. intros a Ha. apply Hout. sides. lia.
  - intros a Ha. rewrite Hout; [by apply ho_ram|]. sides. lia.
  - rewrite <- Hpc. apply hload_ext. intros a Ha. apply Hout. sides. lia.
  - rewrite (hload_hstore_same _ _ _ _ _ E). f_equal. unfold ty_mod, u64. cbn [ty_bits].
    change (0x100 ^ Z.of_nat 8) with 0x10000000000000000. mlia.
  - intros a H1 H2 H3 H4. rewrite Hout by done. auto.
Qed.

(** The code of [m] returns. *)
Definition rets (b n : nat) (m : llM unit) (P Q : llstate -> Prop) : Prop :=
  exists l n', (n <= n')%nat /\ appends b m n tt l n' /\
    forall st, P st -> exists st', exec_code l st = Some (Lreturn st') /\ Q st'.
Lemma rets_bind {A} b n (m : llM A) (k : A -> llM unit) P n1 a Q R :
  triple b n m P n1 a Q -> (n <= n1)%nat -> rets b n1 (k a) Q R -> rets b n (m ≫= k) P R.
Proof using Type.
  intros (l & Hl & H1) Hn (l' & n' & Hn' & Hl' & H2). exists (l ++ l'), n'. split; [lia|].
  split; [by eapply appends_bind|]. intros st HP. destruct (H1 st HP) as (st1 & E1 & HQ).
  destruct (H2 st1 HQ) as (st2 & E2 & HR). exists st2. by rewrite exec_code_app, E1.
Qed.
Lemma rets_void b n P : rets b n (LLVMBuildRetVoid b) P P.
Proof using Type.
  exists [(n, LRetVoid)], (S n). split; [lia|]. split; [apply appends_void|]. intros st HP. by exists st.
Qed.

Lemma triple_field b n K M off :
  below n K -> off mod 4 = 0 -> 0 <= off < 0x80000000 -> rv_ptr y + off <= 0x4000000000000000 -> 0 <= rv_ptr y ->
  triple b n (Gen2.gen_addr b (off / 4)) (knows K M) (S n) (LInst Ptr n) (knows ((n, rv_ptr y + off) :: K) M).
Proof using Type.
  intros Hn H4 Ho Hr Hp. unfold Gen2.gen_addr.
  replace (rv_ptr y + off) with (u64 (rv_ptr y + 4 * ty_signed (vtype (LLVMConstInt I32 (off / 4)))
    ((off / 4) mod 2 ^ ty_bits I32))).
  { apply triple_gep; [done|constructor|constructor]. }
  clear -H4 Ho Hr Hp. unfold ty_signed. cbn [vtype LLVMConstInt ty_bits]. rewrite (Z.mod_small (off / 4)) by mlia.
  rewrite (proj2 (Z.ltb_lt _ _)) by mlia. rewrite u64_small by (unfold is_u64; mlia). mlia.
Qed.
Lemma triple_PC_addr b n K M :
  below n K -> triple b n (Gen2.gen_PC_addr b) (knows K M) (S n) (LInst Ptr n) (knows ((n, pc_addr) :: K) M).
Proof using Y.
  intros Hn. destruct Y as [[[Y1 _ _ _] _ _ _] _ _ _ _ _ _].
  apply triple_field; [done|..]; unfold offsetof_PC, offsetof_X in *; try done; lia.
Qed.
(** [T2C_STORE_TIMER] *)
Lemma triple_store_timer b n K pc s k :
  below n K -> (cid, ctr) ∈ K ->
  triple b n (Gen2.store_timer env counter b) (knows K (with_pc pc s k)) (S (S (S n))) tt
    (knows K (left s k pc)).
Proof using Y.
  intros Hn Hc. unfold Gen2.store_timer. eapply triple_bind.
  { pose proof Y as [[[Y1 _ _ _] _ _ _] O1 O2 O3 _ _ _]. apply triple_field; [done..| | |lia];
    unfold offsetof_PC, offsetof_X in *; lia. }
  eapply triple_bind.
  { apply (triple_load _ _ _ _ _ _ ltac:(by apply below_cons) _ _ ctr (u64 k)).
    - constructor. by apply list_elem_of_further.
    - intros m [Hm _]. exact (ho_ctr _ _ _ _ _ _ Hm). }
  set (K1 := (n, cycle_addr) :: K). exists [(S (S n), LAtomicAdd (LInst Ptr n) (LInst I64 (S n)))].
  split; [apply appends_void|]. intros st [He Hm].
  destruct (with_pc_cycle pc s k _ Hm) as (m' & E1 & E2 & HL).
  assert (ll_env st !! S n = Some (u64 k)) as Ek by (apply He; apply list_elem_of_here).
  assert (ll_env st !! n = Some cycle_addr) as Ea by (apply He, list_elem_of_further, list_elem_of_here).
  eexists. split.
  { cbn [Llvm.exec_code exec_insn eval vtype ty_bytes]. rewrite Ek, Ea. cbn [mbind option_bind].
    rewrite E1. cbn [mbind option_bind]. rewrite E2. reflexivity. }
  split; [|exact HL]. intros id x Hin. cbn [ll_env set_env set_ll_mem].
  rewrite lookup_insert_ne.
  - apply He. by do 2 apply list_elem_of_further.
  - unfold below in Hn. rewrite Forall_forall in Hn. specialize (Hn _ Hin). cbn in Hn. lia.
Qed.
Lemma rets_leave b n K pc s k a :
  below n K -> (cid, ctr) ∈ K -> value K a pc_addr ->
  rets b n (Gen2.gen_leave env counter b pc a) (knows K (holds s k))
    (fun st => left s k (u32 pc) (ll_mem st)).
Proof using Y.
  intros Hn Hc Ha. unfold Gen2.gen_leave. eapply rets_bind.
  { apply (triple_store _ _ _ _ _ _ _ _ (u32 pc) pc_addr (with_pc (u32 pc) s k)); [constructor|done|].
    intros m Hm. apply holds_store_pc; [apply is_u32_u32|done]. }
  { lia. }
  eapply rets_bind; [apply triple_store_timer; [by eapply below_mono; [exact Hn|lia]|done]|lia|].
  destruct (rets_void b (S (S (S (S n)))) (knows K (left s k (u32 pc)))) as (l & n' & Hl & Ha' & Hex).
  exists l, n'. split; [done|]. split; [done|]. intros st Hst. destruct (Hex st Hst) as (st' & E & [_ Hm]). eauto.
Qed.
End Leave.
