(* ===== verification/T2cBlock.v ===== *)
(** The code of a guest block, against the interpreter running the block; first, where control
    goes after the last instruction of a guest block. *)

From S2P Require Import Prelude.
From S2P Require Import Opcode.
From S2P Require Import Decode.
From S2P Require Import Machine.
From S2P Require Import Interp.
From S2P Require Import MachineFacts.
From S2P Require Import Invariant.
From S2P Require Import DecodeProofs.
From S2P Require Import IsaProofs.
From S2P Require Import JitAlloc.
From S2P Require Import JitGen.
From S2P Require Import X86.
From S2P Require Import X86Proofs.
From S2P Require Import JitRel.
From S2P Require Import JitSim.
From S2P Require Import JitDispatch.
From S2P Require Import JitTerm.
From S2P Require Import JitBlock.
From S2P Require Import JitStatic.
From S2P Require Import JitChain.
From S2P Require Import Llvm.
From S2P Require Import T2c.
From S2P Require Import T2cProofs.
From S2P Require Import T2cDispatch.
From S2P Require Import T2cTerm.

(** * Appending to a function *)

Definition blen (f : llfun) (b : nat) : nat := length (default [] (ll_blocks f !! b)).
Definition grown (f : llfun) (b : nat) (l : llcode) (n' : nat) : llfun :=
  mk_llfun (alter (fun c => c ++ l) b (ll_blocks f)) n'.

Lemma appends_run {A} f b (m : llM A) a l n' :
  appends b m (ll_next f) a l n' -> (b < length (ll_blocks f))%nat -> m f = Some (a, grown f b l n').
Proof. destruct f as [B n]. cbn. auto. Qed.
Lemma bind_run {A C} (m : llM A) (k : A -> llM C) f a f1 : m f = Some (a, f1) -> (m ≫= k) f = k a f1.
Proof. intros E. unfold mbind, llM_bind. by rewrite E. Qed.
Lemma grown_length f b l n' : length (ll_blocks (grown f b l n')) = length (ll_blocks f).
Proof. apply length_alter. Qed.
Lemma grown_code f b l n' : (b < length (ll_blocks f))%nat -> code_at (grown f b l n') b (blen f b) l.
Proof.
  intros [c Ec]%lookup_lt_is_Some. exists c, []. unfold blen, grown. cbn [ll_blocks].
  rewrite list_lookup_alter_eq, Ec, app_nil_r. done.
Qed.
Lemma grown_blen f b l n' :
  (b < length (ll_blocks f))%nat -> blen (grown f b l n') b = (blen f b + length l)%nat.
Proof.
  intros [c Ec]%lookup_lt_is_Some. unfold blen, grown. cbn [ll_blocks].
  rewrite list_lookup_alter_eq, Ec. cbn. by rewrite length_app.
Qed.
Lemma blen_same f f' b : ll_blocks f' !! b = ll_blocks f !! b -> blen f' b = blen f b.
Proof. unfold blen. by intros ->. Qed.

(** * Where a guest block goes *)

(** Whether the branch is taken, and the state after it. *)
Definition goes (ir : rv_insn) (s : riscv) : option (bool * riscv) :=
  let a := reg s (rs1 ir) in
  let c := reg s (rs2 ir) in
  match opcode ir with
  | rv_insn_jal => Some (true, if truth (rd ir) then set_reg (rd ir) (pc ir +u 4) s else s)
  | rv_insn_cjal => Some (true, set_reg rv_reg_ra (pc ir +u 2) s)
  | rv_insn_cj => Some (true, s)
  | rv_insn_beq => Some (a =? c, s)
  | rv_insn_bne => Some (negb (a =? c), s)
  | rv_insn_blt => Some (s32 a <? s32 c, s)
  | rv_insn_bge => Some (s32 c <=? s32 a, s)
  | rv_insn_bltu => Some (a <? c, s)
  | rv_insn_bgeu => Some (c <=? a, s)
  | rv_insn_cbeqz => Some (a =? 0, s)
  | rv_insn_cbnez => Some (negb (a =? 0), s)
  | _ => None
  end.
Definition goes_pc (ir : rv_insn) (taken : bool) : Z := if taken then pc ir +u imm ir else end_pc ir.

Lemma goes_successor `{riscv_io} `{softfloat} s ir cycle s1 pc' :
  jit_branch (opcode ir) = true -> successor ir (insn_body (opcode ir) s ir cycle (pc ir)) = Some (s1, pc') ->
  exists taken s2, goes ir s = Some (taken, s2) /\ X s1 = X s2 /\ mem s1 = mem s2 /\ pc' = goes_pc ir taken.
Proof.
  intros Hj Hs. unfold goes, goes_pc, end_pc. destruct (opcode ir) eqn:Eo; try discriminate Hj; cbn [insn_body] in Hs;
    unfold do_jal, do_cjal, do_cj, do_beq, do_bne, do_blt, do_bge, do_bltu, do_bgeu, do_cbeqz, do_cbnez,
      BRANCH_FUNC, c_branch, jump, link, truth in *; rewrite ?Eo in *; cbv zeta in *;
    eexists _, _; (split; [reflexivity|]);
    repeat (case_match; cbn [negb successor] in *; simplify_eq); try lia; rewrite ?Eo; by repeat split.
Qed.

(** * Handlers that end a block *)

Section End.
Context (ext : Z -> list Z -> gmap Z Z -> option (gmap Z Z)).
Context (y : host_layout) (ctr : Z) (env : t2c_env) (fr : gmap Z Z) (c0 : Z).
Context (Y : cycle_layout y ctr env fr c0) (HE : mem_base env = ram_ptr y) (cid : nat) (v : jit_vm).
#[local] Abbreviation value := (value (rv_ptr y)).
#[local] Abbreviation exec_code := (exec_code (rv_ptr y) ext).
#[local] Abbreviation psteps := (psteps (rv_ptr y) ext).
#[local] Abbreviation preturns := (preturns (rv_ptr y) ext).
#[local] Abbreviation holds := (holds y ctr fr).
#[local] Abbreviation left := (left y ctr env fr c0).
#[local] Abbreviation counter := (LInst Ptr cid).
#[local] Abbreviation K0 := (K0 ctr cid).
#[local] Abbreviation pc_addr := (rv_ptr y + offsetof_PC).

(** Code appended whatever the guest is, run for one guest. *)
Lemma triple_exec {A} b n (m : llM A) l n' a P n2 a2 Q st :
  appends b m n a l n' -> triple (rv_ptr y) ext b n m P n2 a2 Q -> P st ->
  exists st', exec_code l st = Some (Lnext st') /\ Q st'.
Proof using Type.
  intros H1 (l2 & H2 & Hex) HP. destruct (appends_det _ _ _ _ _ _ _ _ _ H1 H2) as (_ & -> & _). auto.
Qed.
Lemma stays_exec b n m l n' M M' st :
  (cid < n)%nat -> appends b m n tt l n' -> stays ext y ctr cid b m M M' -> knows K0 M st ->
  exists st', exec_code l st = Some (Lnext st') /\ knows K0 M' st'.
Proof using Type. intros Hn H1 H2 Hst. destruct (H2 n Hn) as (n2 & _ & T). by eapply triple_exec. Qed.

Lemma builds_leave b pc a : builds b (Gen2.gen_leave env counter b pc a).
Proof using Type. builds_tac. Qed.
Lemma leave_exec b n pc a l n' K s k st :
  appends b (Gen2.gen_leave env counter b pc a) n tt l n' -> below n K -> (cid, ctr) ∈ K -> value K a pc_addr ->
  knows K (holds s k) st -> exists st', exec_code l st = Some (Lreturn st') /\ left s k (u32 pc) (ll_mem st').
Proof using Y.
  intros H1 Hn Hc Ha Hst. destruct (rets_leave ext y ctr env fr c0 Y cid b n K pc s k a Hn Hc Ha)
    as (l2 & n2 & _ & H2 & Hex). destruct (appends_det _ _ _ _ _ _ _ _ _ H1 H2) as (_ & -> & _). auto.
Qed.

(** ** One side of a branch *)

Record side_ok (f : llfun) (K : list (nat * Z)) (linked : bool) (pc : Z) (f' : llfun) : Prop := {
  sd_grows : grows (fun _ => False) f f';
  sd_length : length (ll_blocks f') = S (length (ll_blocks f));
  sd_exec : if linked then blen f' (length (ll_blocks f)) = O
    else forall s k st, knows K (holds s k) st ->
      exists st', preturns f' (length (ll_blocks f), O, st) st' /\ left s k (u32 pc) (ll_mem st') }.

Lemma branch_side_ok f K linked pc a :
  below (ll_next f) K -> (cid, ctr) ∈ K -> value K a pc_addr ->
  exists f', Gen2.branch_side env counter linked pc a f =
      Some ((length (ll_blocks f), if linked then Some (length (ll_blocks f)) else None), f') /\
    side_ok f K linked pc f'.
Proof using Y.
  intros Hn Hc Ha. set (x := length (ll_blocks f)). set (f1 := mk_llfun (ll_blocks f ++ [[]]) (ll_next f)).
  assert (length (ll_blocks f1) = S x) as E1 by (cbn; rewrite length_app; cbn; lia).
  assert (blen f1 x = O) as E2.
  { unfold blen. cbn. by rewrite lookup_app_r, Nat.sub_diag by lia. }
  unfold Gen2.branch_side. erewrite bind_run by reflexivity. fold x f1. destruct linked.
  - exists f1. split; [done|]. split; [apply grows_append|done|exact E2].
  - destruct (builds_leave x pc a (ll_next f1)) as (l & n' & Hn' & Hl).
    assert (x < length (ll_blocks f1))%nat as Hx by lia.
    erewrite bind_run by (by eapply appends_run). eexists. split; [reflexivity|]. split.
    + eapply grows_new; [apply grows_append|apply (grows_alter (eq x)); [done|exact Hn']|].
      subst x. intros b Hb <-. lia.
    + by rewrite grown_length.
    + intros s k st Hst.
      destruct (leave_exec x (ll_next f1) pc a l n' K s k st Hl Hn Hc Ha Hst) as (st' & E & HL).
      exists st'. split; [|done]. eapply preturns_code; [|exact E]. rewrite <- E2. by apply grown_code.
Qed.

(** ** Both sides *)

Definition side_of (linked : bool) (x : nat) : option nat := if linked then Some x else None.
(** Control is at the end of the block [x], or has left the function. *)
Definition gone (f : llfun) (p : pos) (K : list (nat * Z)) (side : option nat) (s : riscv) (k pc : Z) : Prop :=
  match side with
  | Some x => exists st', psteps f p (x, blen f x, st') /\ knows K (holds s k) st'
  | None => exists st', preturns f p st' /\ left s k pc (ll_mem st')
  end.

Lemma branch_on_ok f b K cmp a ltk lutk pc1 pc2 :
  (b < length (ll_blocks f))%nat -> below (ll_next f) K -> (cid, ctr) ∈ K -> value K a pc_addr ->
  let x := length (ll_blocks f) in
  exists f', Gen2.branch_on env counter b cmp a ltk lutk pc1 pc2 f =
      Some ((side_of ltk x, side_of lutk (S x)), f') /\
    grows (eq b) f f' /\ length (ll_blocks f') = S (S x) /\
    forall s k st (c : bool), knows K (holds s k) st -> eval (rv_ptr y) st cmp = Some (b2u c) ->
      gone f' (b, blen f b, st) K (if c then side_of ltk x else side_of lutk (S x)) s k
        (u32 (if c then pc1 else pc2)).
Proof using Y.
  intros Hb Hn Hc Ha x. unfold Gen2.branch_on.
  destruct (branch_side_ok f K ltk pc1 a Hn Hc Ha) as (f1 & E1 & [G1 L1 S1]). fold x in E1, L1, S1.
  erewrite bind_run by exact E1. cbv beta iota.
  assert (below (ll_next f1) K) as Hn1 by (eapply below_mono; [exact Hn|apply G1]).
  destruct (branch_side_ok f1 K lutk pc2 a Hn1 Hc Ha) as (f2 & E2 & [G2 L2 S2]). rewrite L1 in E2, L2, S2.
  erewrite bind_run by exact E2. cbv beta iota. set (n := ll_next f2).
  assert (b < length (ll_blocks f2))%nat as Hb2 by lia.
  pose proof (appends_run f2 b _ _ _ _ (appends_void b (LCondBr cmp x (S x)) n) Hb2) as E3.
  erewrite bind_run by exact E3. set (f3 := grown f2 b _ _) in *.
  assert (grows (eq b) f2 f3) as G3 by (apply grows_alter; [done|cbn; lia]).
  assert (blen f2 b = blen f b) as Eb.
  { apply blen_same. rewrite (gr_same _ _ _ G2), (gr_same _ _ _ G1); auto. lia. }
  exists f3. split; [done|].
  split; [eapply grows_new; [eapply grows_new; [eapply grows_weaken; [exact G1|done]|exact G2|done]|exact G3|done]|].
  split; [unfold f3; by rewrite grown_length|].
  intros s k st c Hst Ec.
  assert (psteps f3 (b, blen f b, st) (if c then x else S x, O, st)) as Hgo.
  { apply (psteps_goto _ _ f3 b [(n, LCondBr cmp x (S x))] (blen f b) st).
    - rewrite <- Eb. by apply grown_code.
    - cbn [Llvm.exec_code exec_insn]. rewrite Ec. by destruct c. }
  assert (forall z, z <> b -> (z < length (ll_blocks f2))%nat -> blen f3 z = blen f2 z) as Hz.
  { intros z Hz Hl. apply blen_same. apply (gr_same _ _ _ G3); [done|]. congruence. }
  destruct c; [destruct ltk|destruct lutk]; cbn [side_of gone].
  - exists st. split; [|done]. rewrite Hz by lia. rewrite (blen_same f1 f2), S1; [exact Hgo|].
    apply (gr_same _ _ _ G2); [lia|auto].
  - destruct (S1 s k st Hst) as (st' & Hr & HL). exists st'. split; [|done].
    eapply preturns_steps; [exact Hgo|]. eapply preturns_grows; [exact G3|]. by eapply preturns_grows.
  - exists st. split; [|done]. rewrite Hz, S2 by lia. exact Hgo.
  - destruct (S2 s k st Hst) as (st' & Hr & HL). exists st'. split; [|done].
    eapply preturns_steps; [exact Hgo|]. by eapply preturns_grows.
Qed.

(** ** Handlers *)

Definition jumps (o : opcode_t) : bool := match o with rv_insn_jal | rv_insn_cjal | rv_insn_cj => true | _ => false end.
(** The handler asks whether the block it goes to can be translated. *)
Definition checks_link (o : opcode_t) : bool :=
  match o with rv_insn_cjal | rv_insn_cj | rv_insn_cbeqz | rv_insn_cbnez => false | _ => true end.
Definition side_linked (t : rv_insn) (link : option Z) : option bool :=
  if checks_link (opcode t) then Gen2.valid_link v link else Some (bool_decide (is_Some link)).

Record ended (f : llfun) (b : nat) (t : rv_insn) (ltk lutk : bool) (e : Gen2.t2c_exits) (f' : llfun) : Prop := {
  en_grows : grows (eq b) f f';
  en_side : forall x, e.1 = Some x \/ e.2 = Some x ->
    (x = b \/ length (ll_blocks f) <= x)%nat /\ (x < length (ll_blocks f'))%nat;
  en_diff : forall x, e.1 = Some x -> e.2 <> Some x;
  en_taken : is_Some e.1 <-> ltk = true;
  en_untaken : is_Some e.2 <-> lutk = true;
  en_exec : forall s k taken s1 st, wf_regs s -> goes t s = Some (taken, s1) -> knows K0 (holds s k) st ->
    gone f' (b, blen f b, st) K0 (if taken then e.1 else e.2) s1 (k + 1) (goes_pc t taken) }.

Lemma K0_in : (cid, ctr) ∈ K0.
Proof using Type. apply list_elem_of_here. Qed.
Lemma gone_weaken f p (K K' : list (nat * Z)) side s k pc :
  gone f p K side s k pc -> K' ⊆ K -> gone f p K' side s k pc.
Proof using Type.
  intros H HK. destruct side as [x|]; [|done]. destruct H as (st & Hs & Hk). exists st. split; [done|].
  by eapply knows_weaken.
Qed.
Lemma gone_steps f p q K side s k pc : psteps f p q -> gone f q K side s k pc -> gone f p K side s k pc.
Proof using Type.
  intros Hs. destruct side as [x|]; intros (st & H1 & H2); exists st; (split; [|done]).
  - by etrans.
  - by eapply preturns_steps.
Qed.

Lemma appends_PC_addr b n : exists l, appends b (Gen2.gen_PC_addr b) n (LInst Ptr n) l (S n).
Proof using Type. eexists. apply appends_value. Qed.
(** A jump after [m], which counts the instruction and links. *)
Lemma jump_ended f b t m ltk :
  (b < length (ll_blocks f))%nat -> (cid < ll_next f)%nat -> jumps (opcode t) = true -> builds b m ->
  (forall s k s1, wf_regs s -> goes t s = Some (true, s1) ->
     stays ext y ctr cid b m (holds s k) (holds s1 (k + 1))) ->
  exists e f', (m;; Gen2.jump_direct env counter ltk b t) f = Some (e, f') /\ ended f b t ltk false e f'.
Proof using Y.
  intros Hb Hc Hj Hm Hst. destruct (Hm (ll_next f)) as (l & n' & Hn' & Hl).
  erewrite bind_run by (by eapply appends_run). set (f1 := grown f b l n').
  assert (grows (eq b) f f1) as G1 by (by apply grows_alter).
  assert (b < length (ll_blocks f1))%nat as Hb1 by (unfold f1; by rewrite grown_length).
  assert (forall s taken s1, goes t s = Some (taken, s1) -> taken = true) as Ht.
  { intros s taken s1. unfold goes. destruct (opcode t); try discriminate Hj; congruence. }
  assert (forall s k s1 st, wf_regs s -> goes t s = Some (true, s1) -> knows K0 (holds s k) st ->
    exists st', psteps f1 (b, blen f b, st) (b, blen f1 b, st') /\ knows K0 (holds s1 (k + 1)) st') as Hex.
  { intros s k s1 st Hs Hg Hk. destruct (stays_exec b _ _ _ _ _ _ st Hc Hl (Hst s k s1 Hs Hg) Hk) as (st' & E & Hk').
    exists st'. split; [|done]. unfold f1. rewrite grown_blen by done. eapply psteps_code; [by apply grown_code|exact E]. }
  unfold Gen2.jump_direct. destruct ltk.
  - exists (Some b, None), f1. split; [done|]. split; cbn [fst snd].
    + exact G1.
    + intros x [[= <-]|?]; [|done]. by split; [left|].
    + intros x _. discriminate.
    + split; [done|]. intros _. by eexists.
    + split; [by intros [? ?]|done].
    + intros s k taken s1 st Hs Hg Hk. pose proof (Ht _ _ _ Hg) as ->. by eapply Hex.
  - assert (below (ll_next f1) K0) as Hn1 by (apply Forall_singleton; cbn; lia).
    destruct (appends_PC_addr b (ll_next f1)) as [l2 Hl2].
    erewrite bind_run by (by eapply appends_run). set (f2 := grown f1 b l2 (S (ll_next f1))).
    assert (b < length (ll_blocks f2))%nat as Hb2 by (unfold f2; by rewrite grown_length).
    destruct (builds_leave b (pc t +u imm t) (LInst Ptr (ll_next f1)) (ll_next f2)) as (l3 & n3 & Hn3 & Hl3).
    erewrite bind_run by (by eapply appends_run). set (f3 := grown f2 b l3 n3).
    assert (grows (eq b) f1 f2) as G2 by (apply grows_alter; [done|cbn; lia]).
    assert (grows (eq b) f2 f3) as G3 by (by apply grows_alter).
    exists (None, None), f3. split; [done|]. split; cbn [fst snd].
    + eapply grows_trans; [exact G1|]. by eapply grows_trans.
    + intros x [H|H]; discriminate H.
    + intros x _. discriminate.
    + split; [by intros [? ?]|done].
    + split; [by intros [? ?]|done].
    + intros s k taken s1 st Hs Hg Hk. pose proof (Ht _ _ _ Hg) as ->. destruct (Hex s k s1 st Hs Hg Hk) as (st1 & P1 & Hk1).
      destruct (triple_exec b (ll_next f1) _ _ _ _ _ _ _ _ st1 Hl2
        (triple_PC_addr ext y ctr env fr c0 Y b (ll_next f1) K0 (holds s1 (k + 1)) Hn1) Hk1) as (st2 & E2 & Hk2).
      destruct (leave_exec b _ _ _ l3 n3 _ s1 (k + 1) st2 Hl3 (below_cons _ _ pc_addr Hn1)
        (list_elem_of_further _ _ _ K0_in) ltac:(constructor; apply list_elem_of_here) Hk2) as (st3 & E3 & HL).
      exists st3. split.
      * eapply preturns_steps; [eapply psteps_grows; [exact G3|]; eapply psteps_grows; [exact G2|exact P1]|].
        eapply preturns_steps; [eapply psteps_grows; [exact G3|]; eapply psteps_code; [by apply grown_code|exact E2]|].
        rewrite <- (grown_blen f1 b l2 (S (ll_next f1))) by done. fold f2.
        eapply preturns_code; [by apply grown_code|exact E3].
      * unfold goes_pc. by rewrite u32_idem in HL.
Qed.

(** A branch after [m], which counts the instruction and compares. *)
Definition compares (b : nat) (t : rv_insn) (m : llM (llvalue * llvalue)) : Prop :=
  forall n, (cid < n)%nat -> exists ia c l n', (n <= n')%nat /\ (ia < n')%nat /\
    appends b m n (LInst Ptr ia, c) l n' /\
    forall s k taken s1 st, wf_regs s -> goes t s = Some (taken, s1) -> knows K0 (holds s k) st ->
      exists st', exec_code l st = Some (Lnext st') /\
        knows [(ia, pc_addr); (cid, ctr)] (holds s1 (k + 1)) st' /\ eval (rv_ptr y) st' c = Some (b2u taken).

Lemma branch_ended f b t m ltk lutk :
  (b < length (ll_blocks f))%nat -> (cid < ll_next f)%nat -> compares b t m ->
  exists e f', (m ≫= fun '(a, c) => Gen2.branch_on env counter b c a ltk lutk (pc t +u imm t) (end_pc t)) f =
    Some (e, f') /\ ended f b t ltk lutk e f'.
Proof using Y.
  intros Hb Hc Hm. destruct (Hm (ll_next f) Hc) as (ia & c & l & n' & Hn' & Hia & Hl & Hex).
  erewrite bind_run by (by eapply appends_run). cbv beta iota. set (f1 := grown f b l n').
  assert (grows (eq b) f f1) as G1 by (by apply grows_alter).
  assert (b < length (ll_blocks f1))%nat as Hb1 by (unfold f1; by rewrite grown_length).
  set (K := [(ia, pc_addr); (cid, ctr)]) in *.
  assert (below (ll_next f1) K) as Hn1 by (repeat (apply Forall_cons; split; [cbn; lia|]); by apply Forall_nil).
  destruct (branch_on_ok f1 b K c (LInst Ptr ia) ltk lutk (pc t +u imm t) (end_pc t) Hb1 Hn1)
    as (f2 & E2 & G2 & L2 & Hex2); [apply list_elem_of_further, K0_in|constructor; apply list_elem_of_here|].
  rewrite E2. set (x := length (ll_blocks f1)) in *.
  assert (x = length (ll_blocks f)) as Ex by (unfold x, f1; by rewrite grown_length).
  eexists _, f2. split; [reflexivity|]. split; cbn [fst snd].
  - by eapply grows_trans.
  - intros z. rewrite <- Ex, L2. destruct ltk, lutk; cbn; intros [[= <-]|[= <-]]; split; try (right; lia); lia.
  - intros z. destruct ltk, lutk; cbn; intros [= <-]; congruence || (intros [= ?]; lia).
  - destruct ltk; cbn; (split; [intros [? ?]; congruence|intros ?; (discriminate || by eexists)]).
  - destruct lutk; cbn; (split; [intros [? ?]; congruence|intros ?; (discriminate || by eexists)]).
  - intros s k taken s1 st Hs Hg Hk. destruct (Hex s k taken s1 st Hs Hg Hk) as (st1 & E1 & Hk1 & Ec).
    apply gone_weaken with K; [|apply list_subseteq_cons; done].
    eapply gone_steps; [eapply psteps_grows; [exact G2|]; eapply psteps_code; [by apply grown_code|exact E1]|].
    rewrite <- (grown_blen f b l n') by done. fold f1. specialize (Hex2 s1 (k + 1) st1 taken Hk1 Ec).
    unfold goes_pc. destruct taken; unfold end_pc in *; by rewrite u32_idem in Hex2.
Qed.

(** ** By opcode *)

Definition cmp_reg (p : llpred) (b : nat) (ir : rv_insn) : llM (llvalue * llvalue) :=
  Gen2.count_insn counter b;;
  addr_PC ← Gen2.gen_PC_addr b;
  x ← Gen2.load_vmreg b I32 (rs1 ir);
  z ← Gen2.load_vmreg b I32 (rs2 ir);
  cmp ← LLVMBuildICmp b p x z;
  mret (addr_PC, cmp).
Definition cmp_zero (p : llpred) (b : nat) (ir : rv_insn) : llM (llvalue * llvalue) :=
  Gen2.count_insn counter b;;
  addr_PC ← Gen2.gen_PC_addr b;
  x ← Gen2.load_vmreg b I32 (rs1 ir);
  cmp ← LLVMBuildICmp b p x (LLVMConstInt I32 0);
  mret (addr_PC, cmp).

Lemma triple_count b n s k :
  (cid < n)%nat ->
  triple (rv_ptr y) ext b n (Gen2.count_insn counter b) (knows K0 (holds s k)) (S (S (S n))) tt
    (knows K0 (holds s (k + 1))).
Proof using Y.
  intros Hn. destruct (stays_count ext y ctr (cl_host _ _ _ _ _ Y) fr cid b s k n Hn) as (n' & _ & T).
  assert (exists l, appends b (Gen2.count_insn counter b) n tt l (S (S (S n)))) as [l Hl] by (eexists; appends_tac).
  destruct T as (l' & Hl' & Hex). destruct (appends_det _ _ _ _ _ _ _ _ _ Hl Hl') as (_ & -> & E).
  exists l'. split; [by rewrite E|exact Hex].
Qed.
Lemma compares_triple b t m ia c n' (K : nat -> riscv -> list (nat * Z)) :
  (forall n, exists l, appends b m n (LInst Ptr (ia n), c n) l (n' n)) ->
  (forall n, (n <= n' n /\ ia n < n' n)%nat) ->
  (forall n s k taken s1, (cid < n)%nat -> wf_regs s -> goes t s = Some (taken, s1) ->
     triple (rv_ptr y) ext b n m (knows K0 (holds s k)) (n' n) (LInst Ptr (ia n), c n)
       (knows (K n s) (holds s1 (k + 1))) /\
     value (K n s) (c n) (b2u taken) /\ [(ia n, pc_addr); (cid, ctr)] ⊆ K n s) ->
  compares b t m.
Proof using Type.
  intros Hl Hn Ht n Hc. destruct (Hl n) as [l Hl']. exists (ia n), (c n), l, (n' n).
  destruct (Hn n) as [H1 H2]. split; [done|]. split; [done|]. split; [done|].
  intros s k taken s1 st Hs Hg Hk. destruct (Ht n s k taken s1 Hc Hs Hg) as (T & Hv & HK).
  destruct (triple_exec b n m l _ _ _ _ _ _ st Hl' T Hk) as (st' & E & Hk'). exists st'. split; [done|].
  split; [by eapply knows_weaken|by eapply value_eval].
Qed.
Ltac below_K0 := repeat (apply Forall_cons; split; [cbn; lia|]); by apply Forall_nil.
Ltac in_tac := repeat first [apply list_elem_of_here|apply list_elem_of_further].
Lemma cmp_reg_compares p b t :
  wf_ir t ->
  (forall s, wf_regs s -> goes t s = Some (eval_pred p I32 (reg s (rs1 t)) (reg s (rs2 t)), s)) ->
  compares b t (cmp_reg p b t).
Proof using Y.
  intros [_ H1 H2 _ _] Hg. pose proof (cl_host _ _ _ _ _ Y) as Yh. eapply compares_triple.
  - intros n. eexists. appends_tac.
  - intros n. cbn beta. lia.
  - intros n s k taken s1 Hn Hs Hgo. rewrite Hg in Hgo by done. injection Hgo as <- <-. split; [|split].
    + eapply triple_bind; [by apply triple_count|].
      eapply triple_bind; [apply (triple_PC_addr ext y ctr env fr c0 Y); below_K0|].
      eapply triple_bind; [apply triple_load_vmreg32; try done; below_K0|].
      eapply triple_bind; [apply triple_load_vmreg32; try done; below_K0|].
      eapply triple_bind; [apply triple_icmp; [below_K0|constructor; in_tac|constructor; in_tac]|].
      apply triple_ret.
    + constructor. in_tac.
    + intros q [->|[->|[]%elem_of_nil]%elem_of_cons]%elem_of_cons; in_tac.
Qed.
Lemma cmp_zero_compares p b t :
  wf_ir t ->
  (forall s, wf_regs s -> goes t s = Some (eval_pred p I32 (reg s (rs1 t)) 0, s)) ->
  compares b t (cmp_zero p b t).
Proof using Y.
  intros [_ H1 H2 _ _] Hg. pose proof (cl_host _ _ _ _ _ Y) as Yh. eapply compares_triple.
  - intros n. eexists. appends_tac.
  - intros n. cbn beta. lia.
  - intros n s k taken s1 Hn Hs Hgo. rewrite Hg in Hgo by done. injection Hgo as <- <-. split; [|split].
    + eapply triple_bind; [by apply triple_count|].
      eapply triple_bind; [apply (triple_PC_addr ext y ctr env fr c0 Y); below_K0|].
      eapply triple_bind; [apply triple_load_vmreg32; try done; below_K0|].
      eapply triple_bind; [apply triple_icmp; [below_K0|constructor; in_tac|constructor]|].
      apply triple_ret.
    + constructor. in_tac.
    + intros q [->|[->|[]%elem_of_nil]%elem_of_cons]%elem_of_cons; in_tac.
Qed.

Lemma llM_assoc {A B C} (m : llM A) (k : A -> llM B) (h : B -> llM C) f :
  ((m ≫= k) ≫= h) f = (m ≫= fun a => k a ≫= h) f.
Proof using Type. unfold mbind, llM_bind. by destruct (m f) as [[]|]. Qed.
Lemma bind_ext {A B} (m : llM A) (k k' : A -> llM B) f : (forall a f', k a f' = k' a f') -> (m ≫= k) f = (m ≫= k') f.
Proof using Type. intros E. unfold mbind, llM_bind. by destruct (m f) as [[]|]. Qed.
Lemma llift_run {A B} (o : option A) a (k : A -> llM B) f : o = Some a -> (llift o ≫= k) f = k a f.
Proof using Type. by intros ->. Qed.
Lemma stays_link b s k r c :
  wf_regs s -> is_reg r ->
  stays ext y ctr cid b (lwhen (truth r) (Gen2.set_vmreg b r c)) (holds s k)
    (holds (if truth r then set_reg r (u32 c) s else s) k).
Proof using Y.
  intros Hs Hr. destruct (truth r); cbn [lwhen]; [|apply stays_ret].
  apply stays_set_vmreg; try done. exact (cl_host _ _ _ _ _ Y).
Qed.

Lemma jump_op_ended f b t ltk :
  (b < length (ll_blocks f))%nat -> (cid < ll_next f)%nat -> wf_ir t -> jumps (opcode t) = true ->
  side_linked t (branch_taken t) = Some ltk ->
  exists e f', Gen2.t2c_op env v counter b t f = Some (e, f') /\ ended f b t ltk false e f'.
Proof using Y.
  intros Hb Hc Hw Hj Hl. pose proof (cl_host _ _ _ _ _ Y) as Yh. pose proof (wf_rd _ Hw) as Hrd.
  set (m := match opcode t with
    | rv_insn_jal => Gen2.count_insn counter b;; lwhen (truth (rd t)) (Gen2.set_vmreg b (rd t) (pc t +u 4))
    | rv_insn_cjal => Gen2.count_insn counter b;; Gen2.set_vmreg b rv_reg_ra (pc t +u 2)
    | _ => Gen2.count_insn counter b
    end).
  assert (Gen2.t2c_op env v counter b t f = (m;; Gen2.jump_direct env counter ltk b t) f) as ->.
  { unfold Gen2.t2c_op, Gen2.t2c_straight, Gen2.ending, m. unfold side_linked in Hl.
    destruct (opcode t); try discriminate Hj; cbn [checks_link] in Hl;
      unfold Gen2.t2c_jal, Gen2.t2c_cjal, Gen2.t2c_cj; try (injection Hl as ->); rewrite ?llM_assoc; try done.
    apply bind_ext. intros [] f1. apply bind_ext. intros [] f2. by rewrite (llift_run _ _ _ _ Hl). }
  apply jump_ended; try done.
  - unfold m. destruct (opcode t); try discriminate Hj; try (apply builds_bind; [apply builds_count|]);
      try apply builds_count; [|builds_tac]. destruct (truth (rd t)); cbn [lwhen]; builds_tac.
  - intros s k s1 Hs Hg. pose proof (stays_count ext y ctr Yh fr cid b s k) as Hcnt. unfold m, goes in *.
    destruct (opcode t); try discriminate Hj; injection Hg as <-.
    + eapply stays_bind; [exact Hcnt|]. pose proof (stays_link b s (k + 1) (rd t) (pc t +u 4) Hs Hrd) as T. by rewrite u32_idem in T.
    + eapply stays_bind; [exact Hcnt|]. pose proof (stays_set_vmreg ext y ctr Yh fr cid b s (k + 1) Hs rv_reg_ra (pc t +u 2) ltac:(done)) as T.
      by rewrite u32_idem in T.
    + exact Hcnt.
Qed.

Ltac same_step := rewrite llM_assoc; apply bind_ext; intros ? ?.
Lemma BRANCH_FUNC_split p b t f ltk lutk :
  Gen2.valid_link v (branch_taken t) = Some ltk -> Gen2.valid_link v (branch_untaken t) = Some lutk ->
  (Gen2.count_insn counter b;; Gen2.T2C_BRANCH_FUNC env v counter p b t) f =
  (cmp_reg p b t ≫= fun '(a, c) => Gen2.branch_on env counter b c a ltk lutk (pc t +u imm t) (pc t +u 4)) f.
Proof using Type.
  intros H1 H2. unfold cmp_reg, Gen2.T2C_BRANCH_FUNC. do 5 same_step.
  by rewrite (llift_run _ _ _ _ H1), (llift_run _ _ _ _ H2).
Qed.
Lemma cbranch_split p b t f :
  (Gen2.count_insn counter b;; Gen2.t2c_cbranch env counter p b t) f =
  (cmp_zero p b t ≫= fun '(a, c) => Gen2.branch_on env counter b c a (bool_decide (is_Some (branch_taken t)))
     (bool_decide (is_Some (branch_untaken t))) (pc t +u imm t) (pc t +u 2)) f.
Proof using Type. unfold cmp_zero, Gen2.t2c_cbranch. by do 4 same_step. Qed.

Lemma branch_op_ended f b t ltk lutk :
  (b < length (ll_blocks f))%nat -> (cid < ll_next f)%nat -> wf_ir t ->
  jit_branch (opcode t) = true -> jumps (opcode t) = false ->
  side_linked t (branch_taken t) = Some ltk -> side_linked t (branch_untaken t) = Some lutk ->
  exists e f', Gen2.t2c_op env v counter b t f = Some (e, f') /\ ended f b t ltk lutk e f'.
Proof using Y.
  intros Hb Hc Hw Hj Hn Hl1 Hl2.
  assert ((exists p, Gen2.t2c_op env v counter b t f =
      (cmp_reg p b t ≫= fun '(a, c) => Gen2.branch_on env counter b c a ltk lutk (pc t +u imm t) (end_pc t)) f /\
      compares b t (cmp_reg p b t)) \/
    (exists p, Gen2.t2c_op env v counter b t f =
      (cmp_zero p b t ≫= fun '(a, c) => Gen2.branch_on env counter b c a ltk lutk (pc t +u imm t) (end_pc t)) f /\
      compares b t (cmp_zero p b t))) as [(p & -> & Hm)|(p & -> & Hm)]; [|by apply branch_ended..].
  assert (forall s r, wf_regs s -> is_u32 (reg s r)) as Hu by (intros s r Hs; apply (reg_is_u32 s), Hs).
  unfold side_linked in *. unfold Gen2.t2c_op, Gen2.t2c_straight, Gen2.ending, end_pc.
  destruct (opcode t) eqn:Eo; try discriminate Hj; try discriminate Hn; cbn [checks_link] in *;
    [left|left|left|left|left|left|right|right].
  7,8: injection Hl1 as <-; injection Hl2 as <-; eexists; (split; [exact (cbranch_split _ _ _ _)|]);
    apply cmp_zero_compares; [done|]; intros s Hs; unfold goes; by rewrite Eo.
  all: eexists; (split; [exact (BRANCH_FUNC_split _ _ _ _ _ _ Hl1 Hl2)|]);
    apply cmp_reg_compares; [done|]; intros s Hs; unfold goes; rewrite Eo; cbn [eval_pred];
    rewrite ?ty_signed_s32 by auto; done.
Qed.
End End.

(** * Guest blocks *)

Definition t2c_insn_ok (ir : rv_insn) : Prop :=
  wf_ir ir /\ is_u32 (pc ir) /\ straight_op (opcode ir) = true /\ writes_x0 ir = false.
Record t2c_block_ok (blk : jit_block) (pre : list rv_insn) (t : rv_insn) : Prop := {
  tb_irs : jb_irs blk = pre ++ [t];
  tb_pre : Forall t2c_insn_ok pre;
  tb_wf : wf_ir t;
  tb_linked : linked (jb_pc_start blk) (jb_irs blk) = true;
  tb_branch : jit_branch (opcode t) = true;
  tb_jump : jumps (opcode t) = true -> branch_untaken t = None }.

Definition t2c_definedb (ir : rv_insn) (s : riscv) : bool :=
  match opcode ir with
  | rv_insn_div | rv_insn_rem =>
      negb (reg s (rs2 ir) =? 0) && negb ((reg s (rs1 ir) =? 0x80000000) && (reg s (rs2 ir) =? 0xffffffff))
  | rv_insn_divu | rv_insn_remu => negb (reg s (rs2 ir) =? 0)
  | rv_insn_caddi4spn => (0 <=? imm ir) && (imm ir <? 0x8000)
  | _ => true
  end.
Lemma t2c_definedb_spec ir s : t2c_definedb ir s = true -> t2c_defined ir s.
Proof. unfold t2c_definedb, t2c_defined. destruct (opcode ir); try done; lia. Qed.

Section Block.
Context `{RIO : riscv_io_laws} `{SFT : softfloat_laws}.
Context (ext : Z -> list Z -> gmap Z Z -> option (gmap Z Z)).
Context (y : host_layout) (ctr : Z) (env : t2c_env) (fr : gmap Z Z) (c0 : Z).
Context (Y : cycle_layout y ctr env fr c0) (HE : mem_base env = ram_ptr y) (cid : nat) (v : jit_vm).
#[local] Abbreviation holds := (holds y ctr fr).
#[local] Abbreviation counter := (LInst Ptr cid).
#[local] Abbreviation K0 := (K0 ctr cid).
#[local] Abbreviation gone := (gone ext y ctr env fr c0).
#[local] Abbreviation psteps := (psteps (rv_ptr y) ext).

(** Every operation of the run has a result in LLVM. *)
Fixpoint defined_ok (irs : list rv_insn) (s : riscv) (cycle : Z) : bool :=
  match irs with
  | [] => true
  | ir :: irs =>
      t2c_definedb ir s &&
      match insn_body (opcode ir) s ir (u64 (cycle + 1)) (pc ir) with
      | Nextop s' _ => defined_ok irs s' (u64 (cycle + 1))
      | _ => true
      end
  end.
(** The interpreter runs the block to its end. *)
Record t2c_run (blk : jit_block) (s : riscv) (s' : riscv) (pc' : Z) : Prop := {
  tn_run : exists c, block_run y blk s c s' pc' /\ defined_ok (jb_irs blk) s c = true }.

(** ** Straight-line instructions *)

Fixpoint irs_code (b : nat) (irs : list rv_insn) : llM unit :=
  match irs with
  | [] => mret tt
  | ir :: irs =>
      Gen2.count_insn counter b;; default (mret tt) (Gen2.t2c_straight env counter b ir);; irs_code b irs
  end.
Lemma irs_builds b irs : Forall t2c_insn_ok irs -> builds b (irs_code b irs).
Proof using Type.
  induction 1 as [|ir irs (_ & _ & Hst & _) _ IH]; cbn [irs_code]; [builds_tac|].
  apply builds_bind; [apply builds_count|]. apply builds_bind; [|done].
  destruct (straight_builds env counter b ir Hst) as (m & -> & Hm). exact Hm.
Qed.
Lemma t2c_irs_straight b irs rest acc f :
  Forall t2c_insn_ok irs ->
  Gen2.t2c_irs env v counter b (irs ++ rest) acc f = (irs_code b irs;; Gen2.t2c_irs env v counter b rest acc) f.
Proof using Type.
  destruct acc as [a1 a2]. intros Hall. revert f. induction Hall as [|ir irs (_ & _ & Hst & _) _ IH]; intros f; cbn [irs_code app Gen2.t2c_irs]; [done|].
  destruct (straight_builds env counter b ir Hst) as (m & Em & _). rewrite Em. cbn [default].
  unfold Gen2.t2c_op. rewrite Em, !llM_assoc. apply bind_ext. intros [] f1.
  unfold Gen2.no_exits. rewrite !llM_assoc. apply bind_ext. intros [] f2.
  erewrite bind_run by reflexivity. cbv beta iota. cbn [fst snd]. apply IH.
Qed.

Lemma irs_stays b irs s c s2 c2 :
  straight_run irs s c s2 c2 -> forall rest k,
  Forall t2c_insn_ok irs -> guest_ok y s -> 0 <= c < 0x10000000000000000 ->
  defined_ok (irs ++ rest) s c = true ->
  stays ext y ctr cid b (irs_code b irs) (holds s k) (holds s2 (k + Z.of_nat (length irs))) /\ guest_ok y s2.
Proof using Y HE RIO SFT.
  pose proof (cl_host _ _ _ _ _ Y) as Yh.
  induction 1 as [s c|ir irs s c s1 p s2 c2 Hnw Hb _ IH]; intros rest k Hall Hg Hc Hd.
  { cbn. rewrite Z.add_0_r. split; [apply stays_ret|done]. }
  apply Forall_cons in Hall as [(Hw & Hpc & Hst & Hx) Hall]. cbn [app defined_ok] in Hd. rewrite Hb in Hd.
  apply andb_prop in Hd as [Hd1 Hd]. apply t2c_definedb_spec in Hd1.
  pose proof (straight_guest y s ir (u64 (c + 1)) s1 p Hg Hw (u64_range _) Hpc Hst Hx Hb) as Hg1.
  destruct (IH rest (k + 1) Hall Hg1 (u64_range _) Hd) as [Hrest Hg2]. split; [|done].
  destruct Hg as [W X0 M]. cbn [irs_code]. eapply stays_bind; [apply (stays_count ext y ctr Yh fr)|].
  destruct (t2c_straight_ok ext y ctr Yh fr cid env HE s (wf_X _ W) X0 M b (k + 1) ir _ p s1 Hw Hd1 Hb W Hnw Hst)
    as [(m & -> & Hm) _].
  eapply stays_bind; [exact Hm|]. cbn [length]. rewrite Nat2Z.inj_succ.
  replace (k + Z.succ (Z.of_nat (length irs))) with (k + 1 + Z.of_nat (length irs)) by lia. exact Hrest.
Qed.

(** ** The whole block *)

Record block_code (f : llfun) (b : nat) (blk : jit_block) (t : rv_insn) (ltk lutk : bool)
    (e : Gen2.t2c_exits) (f' : llfun) : Prop := {
  bc_grows : grows (eq b) f f';
  bc_side : forall x, e.1 = Some x \/ e.2 = Some x ->
    (x = b \/ length (ll_blocks f) <= x)%nat /\ (x < length (ll_blocks f'))%nat;
  bc_diff : forall x, e.1 = Some x -> e.2 <> Some x;
  bc_taken : is_Some e.1 <-> ltk = true;
  bc_untaken : is_Some e.2 <-> lutk = true;
  bc_exec : forall s k s' pc' st, t2c_run blk s s' pc' -> knows K0 (holds s k) st ->
    exists taken, pc' = goes_pc t taken /\
      gone f' (b, blen f b, st) K0 (if taken then e.1 else e.2) s' (k + Z.of_nat (length (jb_irs blk))) pc' }.

Lemma gone_same f p K side s s' k pc :
  gone f p K side s k pc -> X s' = X s -> mem s' = mem s -> gone f p K side s' k pc.
Proof using Type.
  intros Hg EX EM. destruct side as [x|]; destruct Hg as (st & H1 & H2); exists st; (split; [done|]).
  - destruct H2 as [H2 H3]. split; [done|]. by eapply holds_same.
  - by eapply left_same.
Qed.

Definition untaken_linked (t : rv_insn) (lutk : bool) : Prop :=
  if jumps (opcode t) then lutk = false else side_linked v t (branch_untaken t) = Some lutk.
Lemma last_ended f b t ltk lutk :
  (b < length (ll_blocks f))%nat -> (cid < ll_next f)%nat -> wf_ir t -> jit_branch (opcode t) = true ->
  side_linked v t (branch_taken t) = Some ltk -> untaken_linked t lutk ->
  exists e f', Gen2.t2c_op env v counter b t f = Some (e, f') /\ ended ext y ctr env fr c0 cid f b t ltk lutk e f'.
Proof using Y.
  intros Hb Hc Hw Hj Hl1 Hl2. unfold untaken_linked in Hl2. destruct (jumps (opcode t)) eqn:Ej.
  - subst lutk. by eapply jump_op_ended.
  - by eapply branch_op_ended.
Qed.

Lemma block_code_ok f b blk pre t ltk lutk :
  (b < length (ll_blocks f))%nat -> (cid < ll_next f)%nat -> t2c_block_ok blk pre t ->
  side_linked v t (branch_taken t) = Some ltk -> untaken_linked t lutk ->
  exists e f', Gen2.t2c_irs env v counter b (jb_irs blk) (None, None) f = Some (e, f') /\
    block_code f b blk t ltk lutk e f'.
Proof using Y HE RIO SFT.
  intros Hb Hc [Eirs Hpre Hw Hl Hj _] Hl1 Hl2. rewrite Eirs, t2c_irs_straight by done.
  destruct (irs_builds b pre Hpre (ll_next f)) as (l & n' & Hn' & Hl').
  erewrite bind_run by (by eapply appends_run). set (f1 := grown f b l n').
  assert (grows (eq b) f f1) as G1 by (by apply grows_alter).
  assert (b < length (ll_blocks f1))%nat as Hb1 by (unfold f1; by rewrite grown_length).
  destruct (last_ended f1 b t ltk lutk Hb1 ltac:(cbn; lia) Hw Hj Hl1 Hl2) as ([tk utk] & f2 & E2 & [G2 S2 D2 T2 U2 Hex]).
  cbn [Gen2.t2c_irs]. erewrite bind_run by exact E2. cbv beta iota. cbn [fst snd] in *.
  exists (tk, utk), f2. split; [by destruct tk, utk|]. assert (length (ll_blocks f1) = length (ll_blocks f)) as EL by apply grown_length.
  rewrite EL in S2. split; cbn [fst snd]; try done.
  - by eapply grows_trans.
  - intros s k s' pc' st [(c & [Hg Hcy Ha Hrun] & Hd)] Hk. rewrite Eirs in *.
    assert (Forall (fun ir => straight_op (opcode ir) = true) pre) as Hst.
    { apply (Forall_impl _ _ _ Hpre). by intros ir (_ & _ & ? & _). }
    destruct (run_irs_straight pre t s' pc' s c _ Hst Hl Ha Hrun) as (s2 & c2 & Hrun2 & _ & Hlast).
    destruct (irs_stays b pre s c s2 c2 Hrun2 [t] k Hpre Hg Hcy Hd) as [Hstays Hg2].
    destruct (stays_exec ext y ctr cid b _ _ _ _ _ _ st Hc Hl' Hstays Hk) as (st1 & E1 & Hk1).
    assert (jit_branch (opcode t) || jit_indirect (opcode t) = true) as Hj' by (by rewrite Hj).
    destruct (do_insn_successor s2 t c2 s' pc') as (s3 & Hs3 & EX & EM); [intros s1; by apply branch_outcome|done|].
    destruct (goes_successor s2 t _ s3 pc' Hj Hs3) as (taken & s4 & Hgo & EX4 & EM4 & ->).
    exists taken. split; [done|]. rewrite length_app. cbn [length].
    replace (k + Z.of_nat (length pre + 1)) with (k + Z.of_nat (length pre) + 1) by lia.
    eapply gone_same; [|rewrite <- EX; exact EX4|rewrite <- EM; exact EM4].
    eapply gone_steps; [eapply psteps_grows; [exact G2|]; eapply psteps_code; [by apply grown_code|exact E1]|].
    rewrite <- (grown_blen f b l n') by done. fold f1. eapply Hex; [apply Hg2|exact Hgo|exact Hk1].
Qed.
End Block.
