(* ===== verification/T2cTrace.v ===== *)
(** [t2c_trace_ebb]: the translation of a block and of the blocks it is linked to ends, and the
    function it builds runs them as the interpreter does. *)

From S2P Require Import Prelude.
From S2P Require Import Opcode.
From S2P Require Import Decode.
From S2P Require Import Machine.
From S2P Require Import Interp.
From S2P Require Import MachineFacts.
From S2P Require Import Invariant.
From S2P Require Import Utils.
From S2P Require Import UtilsProofs.
From S2P Require Import JitAlloc.
From S2P Require Import JitGen.
From S2P Require Import X86.
From S2P Require Import X86Proofs.
From S2P Require Import JitRel.
From S2P Require Import JitDispatch.
From S2P Require Import JitTerm.
From S2P Require Import JitBlock.
From S2P Require Import JitStatic.
From S2P Require Import JitChain.
From S2P Require Import Llvm.
From S2P Require Import T2c.
From S2P Require Import T2cProofs.
From S2P Require Import T2cDispatch.
From S2P Require Import T2cTerm.
From S2P Require Import T2cBlock.

(** * The map of blocks *)

Abbreviation search := Gen2.t2c_block_map_search.
Lemma search_app m l p b : search m p = Some b -> search (m ++ l) p = Some b.
Proof. induction m as [|[q c] m IH]; cbn; [done|]. case_match; auto. Qed.
Lemma search_is_Some m p : p ∈ fst <$> m -> is_Some (search m p).
Proof.
  induction m as [|[q c] m IH]; cbn; [by intros ?%elem_of_nil|]. rewrite elem_of_cons.
  destruct (Z.eqb_spec q p); [by eexists|]. intros [?|?]; [by subst|auto].
Qed.
Lemma search_snoc m p b : p ∉ fst <$> m -> search (m ++ [(p, b)]) p = Some b.
Proof.
  induction m as [|[q c] m IH]; cbn; [by rewrite Z.eqb_refl|]. rewrite not_elem_of_cons.
  intros [Hn Hm]. replace (q =? p) with false by lia. auto.
Qed.
Lemma search_snoc_inv m p b q c : search (m ++ [(p, b)]) q = Some c -> search m q = Some c \/ q = p /\ c = b.
Proof.
  induction m as [|[r d] m IH]; cbn; [destruct (Z.eqb_spec p q); naive_solver|]. case_match; auto.
Qed.

Lemma filter_notin_le (D k k' : list Z) :
  (forall q, q ∉ k' -> q ∉ k) ->
  (length (filter (fun q => q ∉ k') D) <= length (filter (fun q => q ∉ k) D))%nat.
Proof.
  intros Hk. induction D as [|q D IH]; [done|]. rewrite !filter_cons.
  repeat case_decide; cbn [length]; try lia. by destruct (Hk q).
Qed.
Lemma filter_notin_lt (D k k' : list Z) p :
  p ∈ D -> p ∉ k -> p ∈ k' -> (forall q, q ∉ k' -> q ∉ k) ->
  (length (filter (fun q => q ∉ k') D) < length (filter (fun q => q ∉ k) D))%nat.
Proof.
  intros Hp Hn Hp' Hk. induction D as [|q D IH]; [by apply elem_of_nil in Hp|].
  pose proof (filter_notin_le D k k' Hk). rewrite !filter_cons. apply elem_of_cons in Hp as [<-|Hp].
  - rewrite decide_False, decide_True by tauto. cbn [length]. lia.
  - specialize (IH Hp). repeat case_decide; cbn [length]; try lia. by destruct (Hk q).
Qed.

(** * Regions *)

Section Region.
Context (v : jit_vm).

(** The link designates the block at [pc], which is the one the cache has for its address. *)
Record link_ok (C : list Z) (t : rv_insn) (link pc : Z) : Prop := {
  lk_pc : Gen2.link_pc v link = Some pc;
  lk_cached : is_Some (Gen2.t2c_check_valid_blk v pc);
  lk_in : Gen2.t2c_check_valid_blk v pc = Some true -> pc ∈ C;
  lk_unchecked : checks_link (opcode t) = false -> Gen2.t2c_check_valid_blk v pc = Some true }.

(** Blocks that the links between them do not leave. *)
Record t2c_region (C : list Z) : Prop := {
  rt_block : forall pc, pc ∈ C -> exists blk pre t, block_at v pc blk /\ jb_pc_start blk = pc /\
    jb_translatable blk = true /\ t2c_block_ok blk pre t;
  rt_zero : 0 ∉ C;
  rt_taken : forall pc blk pre t link, pc ∈ C -> block_at v pc blk -> jb_irs blk = pre ++ [t] ->
    branch_taken t = Some link -> link_ok C t link (goes_pc t true);
  rt_untaken : forall pc blk pre t link, pc ∈ C -> block_at v pc blk -> jb_irs blk = pre ++ [t] ->
    branch_untaken t = Some link -> link_ok C t link (goes_pc t false) }.

Context (C : list Z) (R : t2c_region C).
Lemma check_valid_at pc blk : block_at v pc blk -> Gen2.t2c_check_valid_blk v pc = Some (jb_translatable blk).
Proof using Type.
  intros (l & E1 & E2). unfold Gen2.t2c_check_valid_blk, cached_block. rewrite E1, E2. done.
Qed.
Lemma check_valid_in pc : pc ∈ C -> Gen2.t2c_check_valid_blk v pc = Some true.
Proof using R.
  intros Hpc. destruct (rt_block _ R pc Hpc) as (blk & pre & t & Hb & _ & Ht & _).
  by rewrite (check_valid_at _ _ Hb), Ht.
Qed.
Lemma valid_link_ok t link pc : link_ok C t link pc -> Gen2.valid_link v (Some link) = Gen2.t2c_check_valid_blk v pc.
Proof using Type. intros [E _ _ _]. cbn. by rewrite E. Qed.
(** What the handler of the last instruction finds. *)
Lemma side_linked_ok t link pc :
  link_ok C t link pc -> exists ok, side_linked v t (Some link) = Some ok /\
    Gen2.t2c_check_valid_blk v pc = Some ok.
Proof using Type.
  intros L. unfold side_linked. rewrite (valid_link_ok _ _ _ L). destruct L as [_ [ok E] _ Hu].
  destruct (checks_link (opcode t)); [by exists ok|]. exists true. split; [by rewrite bool_decide_eq_true_2 by eauto|auto].
Qed.
End Region.

(** * Traces *)

Section Trace.
Context `{RIO : riscv_io_laws} `{SFT : softfloat_laws}.
Context (ext : Z -> list Z -> gmap Z Z -> option (gmap Z Z)).
Context (y : host_layout) (ctr : Z) (env : t2c_env) (fr : gmap Z Z) (c0 : Z).
Context (Y : cycle_layout y ctr env fr c0) (HE : mem_base env = ram_ptr y) (cid : nat) (v : jit_vm).
Context (C : list Z) (R : t2c_region v C) (HF : buckets_fit C).
#[local] Abbreviation holds := (holds y ctr fr).
#[local] Abbreviation left := (left y ctr env fr c0).
#[local] Abbreviation counter := (LInst Ptr cid).
#[local] Abbreviation K0 := (K0 ctr cid).
#[local] Abbreviation psteps := (psteps (rv_ptr y) ext).
#[local] Abbreviation preturns := (preturns (rv_ptr y) ext).
#[local] Abbreviation t2c_trace := Gen2.t2c_trace.
#[local] Abbreviation tr_map := Gen2.tr_map.
#[local] Abbreviation tr_fun := Gen2.tr_fun.
#[local] Abbreviation keys t := (fst <$> tr_map t).

(** The code at [b] runs the block, and is then at the code of the next block or has left. *)
Definition entry_ok (f : llfun) (m : list (Z * nat)) (blk : jit_block) (b : nat) : Prop :=
  forall s k s' pc' st, t2c_run y blk s s' pc' -> knows K0 (holds s k) st ->
    let k' := k + Z.of_nat (length (jb_irs blk)) in
    (exists b' st', search m pc' = Some b' /\ psteps f (b, O, st) (b', O, st') /\ knows K0 (holds s' k') st') \/
    (exists st', preturns f (b, O, st) st' /\ left s' k' pc' (ll_mem st')).

Record inv (t : t2c_trace) : Prop := {
  iv_set : set_holds (Gen2.tr_set t) (keys t);
  iv_nodup : NoDup (keys t);
  iv_sub : keys t ⊆ C;
  iv_next : (cid < ll_next (tr_fun t))%nat }.
Record extends (W : nat -> Prop) (t t' : t2c_trace) : Prop := {
  ex_map : exists l, tr_map t' = tr_map t ++ l;
  ex_grows : grows W (tr_fun t) (tr_fun t') }.
(** The blocks that are new in the map have their code. *)
Definition completes (t t' : t2c_trace) : Prop :=
  forall p b, search (tr_map t') p = Some b -> search (tr_map t) p = Some b \/
    exists blk, block_at v p blk /\ entry_ok (tr_fun t') (tr_map t') blk b.

Lemma entry_ok_grows W f f' m l blk b : grows W f f' -> entry_ok f m blk b -> entry_ok f' (m ++ l) blk b.
Proof using Type.
  intros G He s k s' pc' st Hr Hk. destruct (He s k s' pc' st Hr Hk) as [(b' & st' & Hm & Hs & Hk')|(st' & Hs & HL)].
  - left. exists b', st'. split; [by apply search_app|]. split; [by eapply psteps_grows|done].
  - right. exists st'. split; [by eapply preturns_grows|done].
Qed.
Lemma completes_trans W t t1 t2 : completes t t1 -> extends W t1 t2 -> completes t1 t2 -> completes t t2.
Proof using Type.
  intros H1 [[l El] G] H2 p b Hp. destruct (H2 p b Hp) as [Hp1|?]; [|by right].
  destruct (H1 p b Hp1) as [?|(blk & Hb & He)]; [by left|]. right. exists blk. split; [done|].
  rewrite El. by eapply entry_ok_grows.
Qed.
Lemma completes_same t t' : tr_map t' = tr_map t -> completes t t'.
Proof using Type. intros E p b. rewrite E. by left. Qed.

(** How many blocks of the region are left. *)
Definition missing (t : t2c_trace) : nat := length (filter (fun p => p ∉ keys t) C).
Definition traced (b : nat) (p : Z) (t t' : t2c_trace) : Prop :=
  inv t' /\ extends (eq b) t t' /\ completes t t' /\ search (tr_map t') p = Some b.
Definition traces (trace : nat -> jit_block -> t2c_trace -> option t2c_trace) (N : nat) : Prop :=
  forall b p blk t, inv t -> p ∈ C -> p ∉ keys t -> block_at v p blk ->
    (b < length (ll_blocks (tr_fun t)))%nat -> blen (tr_fun t) b = O -> (missing t < N)%nat ->
    exists t', trace b blk t = Some t' /\ traced b p t t'.

Lemma inv_has t p : inv t -> set_has (Gen2.tr_set t) p = Some (bool_decide (p ∈ keys t)).
Proof using R HF.
  intros [Hs Hn Hsub _]. apply set_has_spec; [done| |].
  - intros Hz. by apply (rt_zero _ _ R), Hsub.
  - by apply (buckets_fit_sub (keys t) C).
Qed.
Lemma missing_le t t' W : extends W t t' -> (missing t' <= missing t)%nat.
Proof using Type.
  intros [[l El] _].
  assert (forall p, p ∉ keys t' -> p ∉ keys t) as Hsub.
  { intros p Hn Hp. apply Hn. rewrite El, fmap_app. apply elem_of_app. by left. }
  by apply filter_notin_le.
Qed.
Lemma missing_lt t t' p b : p ∈ C -> p ∉ keys t -> tr_map t' = tr_map t ++ [(p, b)] -> (missing t' < missing t)%nat.
Proof using Type.
  intros Hp Hn El. apply filter_notin_lt with p; try done; rewrite El, fmap_app.
  - apply elem_of_app. right. apply list_elem_of_here.
  - intros q Hq Hin. apply Hq. apply elem_of_app. by left.
Qed.

(** ** One link of the last instruction *)

Lemma run_br x target t :
  (x < length (ll_blocks (tr_fun t)))%nat ->
  let f := grown (tr_fun t) x [(ll_next (tr_fun t), LBr target)] (S (ll_next (tr_fun t))) in
  Gen2.run_in (LLVMBuildBr x target) t = Some (tt, Gen2.mk_t2c_trace (Gen2.tr_set t) (tr_map t) f) /\
  grows (eq x) (tr_fun t) f /\
  forall f' st W, grows W f f' -> psteps f' (x, blen (tr_fun t) x, st) (target, O, st).
Proof using Type.
  intros Hx f. split; [|split].
  - unfold Gen2.run_in, LLVMBuildBr. by rewrite (appends_run _ _ _ _ _ _ (appends_void x (LBr target) _) Hx).
  - apply grows_alter; [done|cbn; lia].
  - intros f' st W G. eapply psteps_grows; [exact G|]. eapply psteps_goto; [by apply grown_code|done].
Qed.
Lemma follow_ok trace N x link pc t0 t :
  traces trace N -> (missing t < N)%nat -> inv t -> link_ok v C t0 link pc ->
  Gen2.t2c_check_valid_blk v pc = Some true -> (x < length (ll_blocks (tr_fun t)))%nat ->
  exists t', Gen2.t2c_follow v trace (Some x) (Some link) t = Some t' /\ inv t' /\ extends (eq x) t t' /\
    completes t t' /\ exists b', search (tr_map t') pc = Some b' /\
      forall f st W, grows W (tr_fun t') f -> psteps f (x, blen (tr_fun t) x, st) (b', O, st).
Proof using R HF.
  intros Ht HN I L Hv Hx. unfold Gen2.t2c_follow. rewrite (lk_pc _ _ _ _ _ L). cbn [mbind option_bind].
  rewrite inv_has by done. cbn [mbind option_bind]. case_bool_decide as Hin.
  - destruct (search_is_Some _ _ Hin) as [b' Eb]. rewrite Eb. cbn [mbind option_bind].
    destruct (run_br x b' t Hx) as (-> & G & Hs). cbn [mbind option_bind].
    set (f := grown _ _ _ _) in *. eexists. split; [reflexivity|]. destruct I as [I1 I2 I3 I4].
    split; [split; cbn; try done; lia|]. split; [split; [exists []; cbn; by rewrite app_nil_r|exact G]|].
    split; [by apply completes_same|]. exists b'. split; [done|]. exact Hs.
  - pose proof (lk_in _ _ _ _ _ L Hv) as Hpc. destruct (rt_block _ _ R pc Hpc) as (blk & pre & tt0 & Hb & _ & Htr & _).
    destruct Hb as (l & E1 & E2). unfold cached_block. rewrite E1, E2. cbn [mbind option_bind]. rewrite Htr.
    cbn [Gen2.run_in LLVMAppendBasicBlock mbind option_bind]. set (e := length (ll_blocks (tr_fun t))) in *.
    set (t1 := Gen2.mk_t2c_trace (Gen2.tr_set t) (tr_map t) (mk_llfun (ll_blocks (tr_fun t) ++ [[]]) (ll_next (tr_fun t)))).
    assert (grows (eq x) (tr_fun t) (tr_fun t1)) as G1 by apply grows_append.
    assert (length (ll_blocks (tr_fun t1)) = S e) as L1 by (cbn; rewrite length_app; cbn; lia).
    assert (blen (tr_fun t1) x = blen (tr_fun t) x) as Ex.
    { apply blen_same. cbn. by rewrite lookup_app_l. }
    destruct (run_br x e t1) as (Er & G2 & Hs); [lia|]. rewrite Er. cbn [mbind option_bind].
    set (f := grown (tr_fun t1) _ _ _) in *. set (t2 := Gen2.mk_t2c_trace _ _ f).
    assert (inv t2) as I2.
    { destruct I as [I1 I2 I3 I4]. split; cbn; try done. lia. }
    assert (blen (tr_fun t2) e = O) as Ee.
    { assert (ll_blocks f !! e = Some []) as E; [|unfold blen; change (tr_fun t2) with f; by rewrite E].
      rewrite (gr_same _ _ _ G2); [|lia|lia]. cbn. by rewrite lookup_app_r, Nat.sub_diag by lia. }
    destruct (Ht e pc blk t2) as (t' & E' & I' & [Em Gm] & Hc & Hsr); try done.
    { by exists l. }
    { change (tr_fun t2) with f. unfold f. rewrite grown_length. lia. }
    exists t'. split; [done|]. split; [done|].
    split; [split; [exact Em|]; eapply grows_new; [eapply grows_trans; [exact G1|exact G2]|exact Gm|intros ? ? <-; lia]|].
    split; [exact Hc|]. exists e. split; [done|]. rewrite <- Ex. intros f' st W G'. eapply psteps_grows; [exact G'|].
    by eapply Hs.
Qed.
Lemma follow_skip trace side link pc t0 t :
  inv t -> link_ok v C t0 link pc -> Gen2.t2c_check_valid_blk v pc = Some false ->
  Gen2.t2c_follow v trace side (Some link) t = Some t.
Proof using R HF.
  intros I L Hv. unfold Gen2.t2c_follow. rewrite (lk_pc _ _ _ _ _ L). cbn [mbind option_bind].
  rewrite inv_has by done. cbn [mbind option_bind]. rewrite bool_decide_eq_false_2.
  - unfold Gen2.t2c_check_valid_blk in Hv. destruct (cached_block v pc) as [[[l blk]|]|]; cbn in Hv |- *; try done.
    by injection Hv as ->.
  - intros Hin. rewrite (check_valid_in v C R) in Hv; [done|]. by apply (iv_sub _ I).
Qed.
(** The link and whether its block can be translated. *)
Definition link_state (t : rv_insn) (link : option Z) (pc : Z) (ok : bool) : Prop :=
  match link with
  | None => ok = false
  | Some l => link_ok v C t l pc /\ Gen2.t2c_check_valid_blk v pc = Some ok
  end.
Lemma follow_side trace N b side link pc ok t0 t :
  traces trace N -> (missing t < N)%nat -> inv t -> link_state t0 link pc ok ->
  (is_Some side <-> ok = true) -> (forall x, side = Some x -> (x < length (ll_blocks (tr_fun t)))%nat) ->
  exists t', Gen2.t2c_follow v trace (Gen2.exit_or b side link) link t = Some t' /\ inv t' /\
    extends (fun x => side = Some x) t t' /\ completes t t' /\
    forall x, side = Some x -> exists b', search (tr_map t') pc = Some b' /\
      forall f st W, grows W (tr_fun t') f -> psteps f (x, blen (tr_fun t) x, st) (b', O, st).
Proof using R HF.
  intros Ht HN I Hl Hs Hx.
  assert (side = None -> extends (fun x => side = Some x) t t) as Hrefl.
  { intros _. split; [exists []; by rewrite app_nil_r|apply grows_refl]. }
  destruct link as [link|]; cbn [link_state] in Hl; [destruct Hl as [L Hv]|].
  - destruct side as [x|]; cbn [Gen2.exit_or].
    + assert (ok = true) as -> by (apply Hs; by eexists).
      destruct (follow_ok trace N x link pc t0 t Ht HN I L Hv (Hx x eq_refl)) as (t' & E & I' & [M G] & Hc & b' & Hb & Hst).
      exists t'. split; [done|]. split; [done|]. split; [split; [done|]; eapply grows_weaken; [exact G|by intros ? _ <-]|].
      split; [done|]. intros x' [= <-]. by exists b'.
    + assert (ok = false) as -> by (destruct ok; [destruct (proj2 Hs eq_refl) as [? [=]]|reflexivity]).
      exists t. split; [by eapply follow_skip|]. split; [done|]. split; [by apply Hrefl|].
      split; [by apply completes_same|done].
  - assert (side = None) as -> by (destruct side as [x|]; [subst ok; discriminate (proj1 Hs (mk_is_Some _ _ eq_refl))|reflexivity]).
    exists t. split; [done|]. split; [done|]. split; [by apply Hrefl|]. split; [by apply completes_same|done].
Qed.

(** ** A block and what it is linked to *)

Lemma taken_state pc blk pre t :
  pc ∈ C -> block_at v pc blk -> t2c_block_ok blk pre t ->
  exists ok, side_linked v t (branch_taken t) = Some ok /\ link_state t (branch_taken t) (goes_pc t true) ok.
Proof using R.
  intros Hpc Hb B. destruct (branch_taken t) as [link|] eqn:El; cbn [link_state].
  - pose proof (rt_taken _ _ R pc blk pre t link Hpc Hb (tb_irs _ _ _ B) El) as L.
    destruct (side_linked_ok v C t link _ L) as (ok & E1 & E2). by exists ok.
  - exists false. split; [|done]. unfold side_linked. by destruct (checks_link (opcode t)).
Qed.
Lemma untaken_state pc blk pre t :
  pc ∈ C -> block_at v pc blk -> t2c_block_ok blk pre t ->
  exists ok, untaken_linked v t ok /\ link_state t (branch_untaken t) (goes_pc t false) ok.
Proof using R.
  intros Hpc Hb B. unfold untaken_linked. destruct (jumps (opcode t)) eqn:Ej.
  { exists false. split; [done|]. by rewrite (tb_jump _ _ _ B Ej). }
  destruct (branch_untaken t) as [link|] eqn:El; cbn [link_state].
  - pose proof (rt_untaken _ _ R pc blk pre t link Hpc Hb (tb_irs _ _ _ B) El) as L.
    destruct (side_linked_ok v C t link _ L) as (ok & E1 & E2). by exists ok.
  - exists false. split; [|done]. unfold side_linked. by destruct (checks_link (opcode t)).
Qed.
Lemma block_head blk pre t : t2c_block_ok blk pre t -> exists hd, head (jb_irs blk) = Some hd /\ pc hd = jb_pc_start blk.
Proof using Type.
  intros [E _ _ Hl _ _]. rewrite E in *. destruct pre as [|hd pre]; cbn in *; eexists; (split; [reflexivity|]);
    apply andb_prop in Hl as [Hl _]; lia.
Qed.
Lemma not_terminal t : jit_branch (opcode t) = true -> Gen2.t2c_insn_is_terminal (opcode t) = false.
Proof using Type. by destruct (opcode t). Qed.

(** The block, once both its links have been followed. *)
Lemma entry_complete b blk t ltk lutk e f t1 t2 t3 :
  block_code ext y ctr env fr c0 cid f b blk t ltk lutk e (tr_fun t1) -> blen f b = O ->
  extends (fun x => e.2 = Some x) t1 t2 -> extends (fun x => e.1 = Some x) t2 t3 ->
  (forall x, e.2 = Some x -> exists b', search (tr_map t2) (goes_pc t false) = Some b' /\
     forall f st W, grows W (tr_fun t2) f -> psteps f (x, blen (tr_fun t1) x, st) (b', O, st)) ->
  (forall x, e.1 = Some x -> exists b', search (tr_map t3) (goes_pc t true) = Some b' /\
     forall f st W, grows W (tr_fun t3) f -> psteps f (x, blen (tr_fun t2) x, st) (b', O, st)) ->
  entry_ok (tr_fun t3) (tr_map t3) blk b.
Proof using Type.
  intros [_ Bs Bd _ _ Bx] E0 [M2 G2] [[l3 M3] G3] Hu Ht s k s' pc' st Hr Hk k'.
  assert (forall q, psteps (tr_fun t1) (b, O, st) q -> psteps (tr_fun t3) (b, O, st) q) as Hmono.
  { intros q Hq. eapply psteps_grows; [exact G3|]. by eapply psteps_grows. }
  destruct (Bx s k s' pc' st Hr Hk) as (taken & -> & Hgo). rewrite E0 in Hgo.
  destruct (if taken then e.1 else e.2) as [x|] eqn:Ex; cbn [gone] in Hgo; destruct Hgo as (st' & H1 & H2).
  - left. destruct taken.
    + destruct (Ht x Ex) as (b' & Hb & Hs). exists b', st'. split; [done|]. split; [|done].
      etrans; [by apply Hmono|]. replace (blen (tr_fun t1) x) with (blen (tr_fun t2) x).
      * apply (Hs _ _ (fun _ => False)), grows_refl.
      * apply blen_same, (gr_same _ _ _ G2); [apply Bs; by left|by apply Bd].
    + destruct (Hu x Ex) as (b' & Hb & Hs). exists b', st'. split; [rewrite M3; by apply search_app|]. split; [|done].
      etrans; [by apply Hmono|]. by eapply Hs.
  - right. exists st'. split; [|done]. eapply preturns_grows; [exact G3|]. by eapply preturns_grows.
Qed.

Lemma trace_step N b blk t hd set tk utk f1 ti :
  head (jb_irs blk) = Some hd -> set_has (Gen2.tr_set t) (pc hd) = Some false ->
  set_add (Gen2.tr_set t) (pc hd) = Some (true, set) ->
  Gen2.t2c_irs env v counter b (jb_irs blk) (None, None) (tr_fun t) = Some ((tk, utk), f1) ->
  last (jb_irs blk) = Some ti -> Gen2.t2c_insn_is_terminal (opcode ti) = false ->
  let follow := Gen2.t2c_follow v (Gen2.t2c_trace_ebb env v counter N) in
  Gen2.t2c_trace_ebb env v counter (S N) b blk t =
    (t ← follow (Gen2.exit_or b utk (branch_untaken ti)) (branch_untaken ti)
      (Gen2.mk_t2c_trace set (tr_map t ++ [(pc hd, b)]) f1);
    follow (Gen2.exit_or b tk (branch_taken ti)) (branch_taken ti) t).
Proof using Type.
  intros H1 H2 H3 H4 H5 H6 follow. cbn [Gen2.t2c_trace_ebb]. rewrite H1. cbn [mbind option_bind].
  rewrite H2. cbn [mbind option_bind]. rewrite H3. cbn [mbind option_bind]. unfold Gen2.run_in at 1.
  cbn [Gen2.t2c_block_map_insert Gen2.tr_fun Gen2.tr_map Gen2.tr_set]. rewrite H4. cbn [mbind option_bind].
  rewrite H5. cbn [mbind option_bind]. by rewrite H6.
Qed.
Lemma trace_ok N : traces (Gen2.t2c_trace_ebb env v counter N) N.
Proof using Y HE R HF RIO SFT.
  induction N as [|N IH]; intros b p blk t I Hp Hn Hb Hlt H0b HN; [lia|].
  destruct (rt_block _ _ R p Hp) as (blk' & pre & ti & Hb' & Epc & Htr & B).
  rewrite (block_at_fun v _ _ _ Hb' Hb) in *. clear blk' Hb'. destruct (block_head _ _ _ B) as (hd & Ehd & Ehp).
  rewrite Epc in Ehp. pose proof I as [I1 I2 I3 I4].
  destruct (set_add_spec _ _ I1 ltac:(intros Hz; by apply (rt_zero _ _ R), I3) p) as (set' & Eset & Hset).
  { by apply (buckets_fit_sub (keys t) C). }
  { done. }
  { intros ->. by apply (rt_zero _ _ R). }
  destruct (taken_state p blk pre ti Hp Hb B) as (ltk & Etk & Ltk).
  destruct (untaken_state p blk pre ti Hp Hb B) as (lutk & Eutk & Lutk).
  destruct (block_code_ok ext y ctr env fr c0 Y HE cid v (tr_fun t) b blk pre ti ltk lutk Hlt I4 B Etk Eutk)
    as ([tk utk] & f1 & E1 & BC). pose proof BC as [G1 Bs _ Bt Bu _]. cbn [fst snd] in *.
  rewrite (trace_step N b blk t hd set' tk utk f1 ti); [|done|by rewrite Ehp, inv_has, bool_decide_eq_false_2
    |by rewrite Ehp|done|by rewrite (tb_irs _ _ _ B), last_snoc|apply not_terminal, (tb_branch _ _ _ B)].
  rewrite Ehp. set (t1 := Gen2.mk_t2c_trace set' (tr_map t ++ [(p, b)]) f1).
  assert (inv t1) as It1.
  { split; cbn; rewrite ?fmap_app; cbn.
    - done.
    - apply NoDup_app. split; [done|]. split; [|apply NoDup_singleton]. intros q Hq ->%list_elem_of_singleton. done.
    - intros q [Hq| ->%list_elem_of_singleton]%elem_of_app; auto.
    - pose proof (gr_next _ _ _ G1). lia. }
  assert (missing t1 < N)%nat as HN1.
  { pose proof (missing_lt t t1 p b Hp Hn eq_refl). lia. }
  destruct (follow_side _ N b utk (branch_untaken ti) (goes_pc ti false) lutk ti t1 IH HN1 It1 Lutk Bu)
    as (t2 & -> & It2 & X2 & C2 & F2); [intros x Hx; apply (Bs x); by right|]. cbn [mbind option_bind].
  pose proof (missing_le t1 t2 _ X2) as HN2.
  destruct (follow_side _ N b tk (branch_taken ti) (goes_pc ti true) ltk ti t2 IH ltac:(lia) It2 Ltk Bt)
    as (t3 & -> & It3 & X3 & C3 & F3).
  { intros x Hx. destruct (Bs x) as [_ Hl]; [by left|]. pose proof (gr_length _ _ _ (ex_grows _ _ _ X2)). cbn in *. lia. }
  exists t3. split; [done|]. split; [done|].
  pose proof X2 as [[l2 M2] G2]. pose proof X3 as [[l3 M3] G3].
  assert (extends (fun x => utk = Some x \/ tk = Some x) t1 t3) as X13.
  { split; [exists (l2 ++ l3); by rewrite M3, M2, app_assoc|]. eapply grows_new; [eapply grows_weaken; [exact G2|by left]|exact G3|by right]. }
  assert (search (tr_map t1) p = Some b) as Hself by (by apply search_snoc).
  split; [|split].
  - split; [exists ([(p, b)] ++ l2 ++ l3); rewrite M3, M2; cbn; by rewrite <- !app_assoc|].
    eapply grows_new; [exact G1|apply (ex_grows _ _ _ X13)|]. intros x Hx Hs.
    destruct (Bs x) as [[->|?] _]; [destruct Hs; [by right|by left]|done|lia].
  - intros q c Hq. destruct (completes_trans _ _ _ _ C2 X3 C3 q c Hq) as [Hq1|?]; [|by right].
    destruct (search_snoc_inv _ _ _ _ _ Hq1) as [?|[-> ->]]; [by left|]. right. exists blk. split; [done|].
    by eapply (entry_complete b blk ti ltk lutk (tk, utk) (tr_fun t) t1 t2 t3).
  - rewrite M3, M2. by do 2 apply search_app.
Qed.
End Trace.
