(* ===== verification/T2cFun.v ===== *)
(** [t2c_compile]: the function built for a block, from its entry to its return. *)

From S2P Require Import Prelude.
From S2P Require Import Opcode.
From S2P Require Import Decode.
From S2P Require Import Machine.
From S2P Require Import Interp.
From S2P Require Import MachineFacts.
From S2P Require Import Invariant.
From S2P Require Import Utils.
From S2P Require Import UtilsProofs.
From S2P Require Import JitAlloc.
From S2P Require Import JitGen.
From S2P Require Import X86.
From S2P Require Import X86Proofs.
From S2P Require Import JitRel.
From S2P Require Import JitDispatch.
From S2P Require Import JitTerm.
From S2P Require Import JitBlock.
From S2P Require Import JitStatic.
From S2P Require Import JitChain.
From S2P Require Import JitInit.
From S2P Require Import JitNative.
From S2P Require Import JitTranslate.
From S2P Require Import JitCall.
From S2P Require Import Llvm.
From S2P Require Import T2c.
From S2P Require Import T2cProofs.
From S2P Require Import T2cDispatch.
From S2P Require Import T2cTerm.
From S2P Require Import T2cBlock.
From S2P Require Import T2cTrace.

Section Fun.
Context `{RIO : riscv_io_laws} `{SFT : softfloat_laws}.
Context (ext : Z -> list Z -> gmap Z Z -> option (gmap Z Z)).
Context (y : host_layout) (env : t2c_env) (HE : mem_base env = ram_ptr y) (v : jit_vm).
#[local] Abbreviation exec_fun := (exec_fun (rv_ptr y) ext).
#[local] Abbreviation psteps := (psteps (rv_ptr y) ext).

(** The interpreter runs blocks of the cache; [k] instructions in all. *)
Inductive t2c_guest_run : nat -> Z -> riscv -> Z -> riscv -> Z -> Prop :=
  | t2c_run_nil s pc : t2c_guest_run 0 0 s pc s pc
  | t2c_run_cons n k blk s pc s1 pc1 s2 pc2 :
      block_at v pc blk -> t2c_run y blk s s1 pc1 -> t2c_guest_run n k s1 pc1 s2 pc2 ->
      t2c_guest_run (S n) (Z.of_nat (length (jb_irs blk)) + k) s pc s2 pc2.

(** The memory when the function is called: the guest, the cycle counter and room on the stack. *)
Record t2c_called (s : riscv) (c0 sp : Z) (m : gmap Z Z) : Prop := {
  tc_layout : cycle_layout y (sp - 8) env m c0;
  tc_regs : forall r, is_reg r -> hload 4 m (xaddr y r) = Some (reg s r);
  tc_rv : forall a, in_rv y a -> exists x, m !! a = Some x /\ 0 <= x < 0x100;
  tc_ram : forall a, 0 <= a < ram_size y -> m !! (ram_ptr y + a) = Some (byte_at (mem s) a);
  tc_stack : forall a, in_ctr (sp - 8) a -> is_Some (m !! a) }.

(** The entry block. *)
Definition entry_code : llcode :=
  [(0%nat, LAlloca I64); (1%nat, LStore (LConst I64 0) (LInst Ptr 0)); (2%nat, LBr 1)].
Definition entry_fun : llfun := mk_llfun [entry_code; []] 3.

Lemma t2c_enter s c0 sp m f W :
  t2c_called s c0 sp m -> grows W entry_fun f ->
  exists st, psteps f (O, O, mk_llstate ∅ m sp) (1%nat, O, st) /\
    knows (K0 (sp - 8) 0) (holds y (sp - 8) m s 0) st.
Proof using Type.
  intros [L H1 H2 H3 H4] G. pose proof (cl_host _ _ _ _ _ L) as [[Y1 Y2 Y3 Y4] Y5 Y6 Y7].
  destruct (hstore_is_Some 8 m (sp - 8) 0 H4) as [m' E].
  assert (forall a, ~ in_ctr (sp - 8) a -> m' !! a = m !! a) as Hout.
  { intros a Ha. apply (hstore_lookup_other _ _ _ _ _ _ E). unfold in_ctr in Ha. lia. }
  exists (mk_llstate {[ 0%nat := sp - 8 ]} m' (sp - 8)). split.
  - eapply psteps_grows; [exact G|]. eapply (psteps_goto _ _ _ O entry_code).
    + exists [], []. split; [by rewrite app_nil_r|done].
    + unfold entry_code. cbn [exec_code exec_insn ty_bytes mbind option_bind eval ll_env ll_sp ll_mem vtype set_env].
      change (Z.of_nat 8) with 8. rewrite lookup_insert_eq. cbn [mbind option_bind]. rewrite E. done.
  - split.
    + intros id x [= -> ->]%list_elem_of_singleton. cbn. apply lookup_singleton_eq.
    + cbn [ll_mem]. split.
      * intros r Hr. rewrite <- H1 by done. apply hload_ext. intros a Ha. apply Hout.
        unfold in_ctr, xaddr, is_reg, offsetof_PC, offsetof_X in *. lia.
      * by apply (rv_bytes_hstore y _ _ _ _ _ E).
      * intros a Ha. rewrite Hout; [auto|]. unfold in_ctr. lia.
      * rewrite (hload_hstore_same _ _ _ _ _ E). done.
      * intros a Ha. apply (hstore_dom _ _ _ _ _ _ E). auto.
      * intros a _ _ Ha. auto.
Qed.

(** Code that is complete runs a sequence of blocks to its end, or to the first block that has
    no code in the function, where it returns. *)
Lemma run_blocks ctr fr c0 f map :
  (forall p b, search map p = Some b -> exists blk, block_at v p blk /\ entry_ok ext y ctr env fr c0 0 f map blk b) ->
  forall n k s pc s' pc', t2c_guest_run n k s pc s' pc' ->
  forall b k0 st, search map pc = Some b -> knows (K0 ctr 0) (holds y ctr fr s k0) st ->
  (exists b' st', search map pc' = Some b' /\ psteps f (b, O, st) (b', O, st') /\
     knows (K0 ctr 0) (holds y ctr fr s' (k0 + k)) st') \/
  (exists n1 k1 s1 pc1 st', (0 < n1 <= n)%nat /\ t2c_guest_run n1 k1 s pc s1 pc1 /\
     preturns (rv_ptr y) ext f (b, O, st) st' /\ left y ctr env fr c0 s1 (k0 + k1) pc1 (ll_mem st')).
Proof using Type.
  intros Hmap n k s pc s' pc' Hrun. induction Hrun as [s pc|n k blk s pc s1 pc1 s2 pc2 Hb Hr Hrun IH];
    intros b k0 st Hs Hk.
  - left. exists b, st. rewrite Z.add_0_r. split; [done|]. split; [apply rtc_refl|done].
  - destruct (Hmap pc b Hs) as (blk' & Hb' & He). rewrite (block_at_fun v _ _ _ Hb' Hb) in He.
    destruct (He s k0 s1 pc1 st Hr Hk) as [(b1 & st1 & Hs1 & Hst & Hk1)|(st1 & Hst & HL)].
    + destruct (IH b1 _ st1 Hs1 Hk1) as [(b' & st' & Hs' & Hst' & Hk')|(n1 & k1 & s3 & pc3 & st' & Hn & Hr' & Hst' & HL)].
      * left. exists b', st'. split; [done|]. split; [by etrans|]. by rewrite Z.add_assoc.
      * right. exists (S n1), (Z.of_nat (length (jb_irs blk)) + k1), s3, pc3, st'. split; [lia|].
        split; [by econstructor|]. split; [by eapply preturns_steps|]. by rewrite Z.add_assoc.
    + right. exists 1%nat, (Z.of_nat (length (jb_irs blk)) + 0), s1, pc1, st1. split; [lia|].
      split; [econstructor; [done..|constructor]|]. split; [done|]. by rewrite Z.add_0_r.
Qed.

Context (C : list Z) (R : t2c_region v C) (HF : buckets_fit C).

Lemma build_trace fuel blk :
  t2c_build fuel env v blk =
    (t ← Gen2.t2c_trace_ebb env v (LInst Ptr 0) fuel 1 blk (Gen2.mk_t2c_trace set_reset [] entry_fun);
     Some (Gen2.tr_fun t)).
Proof using Type. reflexivity. Qed.

End Fun.

(** * The sample program *)

#[local] Existing Instances quiet_io quiet_io_laws zero_softfloat zero_softfloat_laws.

Definition sample_t2c_env : t2c_env := mk_t2c_env 0x20000 0x100 0x200 0x208 0x210 0x218.
Definition sample_t2c_sp : Z := 0x30000.
Definition sample_t2c_dom : list Z :=
  seqZ 0x10004 132 ++ seqZ 0x10100 8 ++ seqZ 0x20000 16 ++ seqZ (sample_t2c_sp - 8) 8.
Definition sample_t2c_mem : gmap Z Z := gset_to_gmap 0 (list_to_set sample_t2c_dom).

(** What the function computes: the last register written, the address of the next block and the
    cycle counter. *)
Example sample_t2c_result :
  (f ← t2c_build 3 sample_t2c_env sample_vm sample_block1;
   r ← Llvm.exec_fun 0x10000 (fun _ _ _ => None) 10 f 0 (mk_llstate ∅ sample_t2c_mem sample_t2c_sp);
   st ← r;
   x ← hload 4 (ll_mem st) (xaddr sample_layout 3);
   p ← hload 4 (ll_mem st) (0x10000 + offsetof_PC);
   c ← hload 8 (ll_mem st) 0x10100;
   Some (x, p, c)) = Some (17, 0x1024, 5).
Proof. vm_compute. reflexivity. Qed.

Lemma sample_t2c_zero a :
  0x10004 <= a < 0x10088 \/ 0x10100 <= a < 0x10108 \/ 0x20000 <= a < 0x20010 \/ 0x2fff8 <= a < 0x30000 ->
  sample_t2c_mem !! a = Some 0.
Proof.
  intros Ha. apply lookup_gset_to_gmap_Some. split; [|done]. apply elem_of_list_to_set.
  unfold sample_t2c_dom, sample_t2c_sp. rewrite !elem_of_app, !elem_of_seqZ. lia.
Qed.
Lemma sample_t2c_called : t2c_called sample_layout sample_t2c_env sample_guest 0 sample_t2c_sp sample_t2c_mem.
Proof.
  pose proof sample_t2c_zero as Hz. split.
  - split; unfold sample_t2c_sp; cbn; unfold offsetof_PC, offsetof_X; try lia; try done.
    split; [apply sample_layout_ok|..]; cbn; unfold offsetof_PC, offsetof_X; lia.
  - intros r Hr. assert (reg sample_guest r = 0) as -> by (unfold reg; cbn [X reset_state sample_guest]; apply nth_zeros).
    unfold xaddr, is_reg, offsetof_X in *. cbn [hload rv_ptr sample_layout]. by rewrite !Hz by lia.
  - intros a Ha. unfold in_rv, offsetof_PC, offsetof_X in Ha. cbn in Ha. exists 0. rewrite Hz by lia. done.
  - intros a Ha. cbn in Ha |- *. rewrite Hz by lia. by unfold byte_at.
  - intros a Ha. unfold in_ctr, sample_t2c_sp in Ha. rewrite Hz by lia. by eexists.
Qed.
Lemma sample_t2c_block1 : t2c_block_ok sample_block1 (take 2 sample_irs1) (nth 2 sample_irs1 zero_insn).
Proof.
  split; [done| |ir_ok|done|done|done].
  repeat (apply Forall_cons; split; [split; [ir_ok|done]|]). by apply Forall_nil.
Qed.
Lemma sample_t2c_block2 : t2c_block_ok sample_block2 (take 1 sample_irs2) (nth 1 sample_irs2 zero_insn).
Proof.
  split; [done| |ir_ok|done|done|done].
  repeat (apply Forall_cons; split; [split; [ir_ok|done]|]). by apply Forall_nil.
Qed.
Lemma sample_t2c_region : t2c_region sample_vm sample_region.
Proof.
  split.
  - intros pc. unfold sample_region. rewrite !elem_of_cons, elem_of_nil. intros [->|[->|[]]].
    + eexists sample_block1, _, _. split; [apply sample_at1|]. split; [done|]. split; [done|apply sample_t2c_block1].
    + eexists sample_block2, _, _. split; [apply sample_at2|]. split; [done|]. split; [done|apply sample_t2c_block2].
  - by apply (bool_decide_unpack _).
  - intros pc b pre t link _ [[-> ->]|[-> ->]]%sample_at Hirs Hl.
    + apply (app_inj_tail (take 2 sample_irs1) pre (nth 2 sample_irs1 zero_insn)) in Hirs as [_ <-]. injection Hl as <-. split.
      * reflexivity.
      * by eexists.
      * intros _. apply list_elem_of_further, list_elem_of_here.
      * done.
    + apply (app_inj_tail (take 1 sample_irs2) pre (nth 1 sample_irs2 zero_insn)) in Hirs as [_ <-]. discriminate Hl.
  - intros pc b pre t link _ [[-> ->]|[-> ->]]%sample_at Hirs Hl.
    + apply (app_inj_tail (take 2 sample_irs1) pre (nth 2 sample_irs1 zero_insn)) in Hirs as [_ <-]. discriminate Hl.
    + apply (app_inj_tail (take 1 sample_irs2) pre (nth 1 sample_irs2 zero_insn)) in Hirs as [_ <-]. discriminate Hl.
Qed.
Lemma sample_t2c_run : t2c_guest_run sample_layout sample_vm 2 5 sample_guest 0x1000 sample_after2 0x1024.
Proof.
  change 5 with (3 + (2 + 0)). eapply (t2c_run_cons _ _ _ _ sample_block1); [apply sample_at1|split; exists 0; split; [apply sample_run1|done]|].
  eapply (t2c_run_cons _ _ _ _ sample_block2); [apply sample_at2|split; exists 0; split; [apply sample_run2|done]|].
  constructor.
Qed.
