(* ===== verification/Deviations.v ===== *)
(** Blocks on which generated code and the interpreter differ: each is translated by a compiler,
    run on the machine it is for, and compared with what the interpreter computes. *)

From S2P Require Import Prelude.
From S2P Require Import Opcode.
From S2P Require Import Decode.
From S2P Require Import Machine.
From S2P Require Import Interp.
From S2P Require Import Invariant.
From S2P Require Import Fusion.
From S2P Require Import JitEmit.
From S2P Require Import JitAlloc.
From S2P Require Import JitGen.
From S2P Require Import X86.
From S2P Require Import Llvm.
From S2P Require Import T2c.

Definition three_reg (o : opcode_t) (d a b : Z) : rv_insn :=
  set_opcode o (set_rd d (set_rs1 a (set_rs2 b zero_insn))).
(** [jal x0, 0x100] at [0x1008]. *)
Definition leave_jal : rv_insn := set_pc 0x1008 (set_opcode rv_insn_jal (set_imm 0x100 zero_insn)).
Definition host_base : Z := 0x40000000.
Definition host_env : jit_env := mk_jit_env 0x10000000 0x700000 0x700100.

(** Translate a block, call its code with these guest registers and 16 bytes of RAM, and read a
    register. *)
Definition run_native (irs : list rv_insn) (regs : list Z) (r : Z) : option Z :=
  s ← jit_state_init 8192 0;
  let b := mk_jit_block irs 0x1000 0x100c false true None 0 false in
  '(s, v) ← jit_translate host_env 2 (mk_jit_vm {[1 := b]} {[0x1000 := 1]}) 1 s;
  b ← jheap v !! 1;
  let m := list_to_map (zip (seqZ 0x1000 136) (replicate 4 0 ++ mjoin (le 4 <$> regs) ++ replicate 4 0)) : gmap Z Z in
  let m := foldr (fun a m => <[a := 0]> m) m (seqZ 0x2000 1024 ++ seqZ 0x10000000 16) in
  x ← xrun host_base (fun _ _ => None) 200 (buf (js s))
    (mk_xstate (<[4%nat := 0x23f8]> (<[6%nat := host_base + jb_offset b]> (<[7%nat := 0x1000]> (replicate 16 0))))
      None m host_base);
  if rip x =? 0 then hload 4 (xmem x) (0x1004 + 4 * r) else None.
(** What the interpreter has in that register after the instructions. *)
Definition run_interp (irs : list rv_insn) (regs : list Z) (r : Z) : option Z :=
  match foldl (fun o ir => s ← o;
      match @insn_body quiet_io zero_softfloat (opcode ir) s ir 0 (pc ir) with
      | Nextop s _ => Some s | _ => None end) (Some (set_X regs (reset_state ∅ 16))) irs with
  | Some s => Some (reg s r)
  | None => None
  end.
Definition guest_regs : list Z := <[6%nat := 0xfffffffa]> (<[7%nat := 2]> (replicate 32 0)).

(** The two agree where no signed division or repeated sign extension is involved. *)
Lemma native_divu :
  run_native [three_reg rv_insn_divu 5 6 7; leave_jal] guest_regs 5 = Some 0x7ffffffd /\
  run_interp [three_reg rv_insn_divu 5 6 7] guest_regs 5 = Some 0x7ffffffd.
Proof. split; vm_compute; reflexivity. Qed.

(** Signed division: [-6 / 2].  The code uses the unsigned [div] instruction. *)
Lemma native_div_unsigned :
  run_native [three_reg rv_insn_div 5 6 7; leave_jal] guest_regs 5 = Some 0x7ffffffd /\
  run_interp [three_reg rv_insn_div 5 6 7] guest_regs 5 = Some 0xfffffffd.
Proof. split; vm_compute; reflexivity. Qed.
Lemma native_rem_unsigned :
  run_native [three_reg rv_insn_rem 5 6 8; leave_jal] (<[8%nat := 4]> guest_regs) 5 = Some 2 /\
  run_interp [three_reg rv_insn_rem 5 6 8] (<[8%nat := 4]> guest_regs) 5 = Some 0xfffffffe.
Proof. split; vm_compute; reflexivity. Qed.

(** [mulhu] after [mulh] of the same register: the sign extension of the operand stays. *)
Lemma native_mulhu_after_mulh :
  run_native [three_reg rv_insn_mulh 5 6 7; three_reg rv_insn_mulhu 8 6 7; leave_jal] guest_regs 8
    = Some 0xffffffff /\
  run_interp [three_reg rv_insn_mulh 5 6 7; three_reg rv_insn_mulhu 8 6 7] guest_regs 8 = Some 1.
Proof. split; vm_compute; reflexivity. Qed.

(** [mulhsu] of a register with itself: both operands are sign extended. *)
Lemma native_mulhsu_same :
  run_native [three_reg rv_insn_mulhsu 9 6 6; leave_jal] guest_regs 9 = Some 0xfffffff4 /\
  run_interp [three_reg rv_insn_mulhsu 9 6 6] guest_regs 9 = Some 0xfffffffa.
Proof. split; vm_compute; reflexivity. Qed.

(** The address of a load is added in 64 bits: [lw x5, 4(x9)] with [x9 = -4] reads RAM at 0 in the
    interpreter, and 4 GiB above it in the generated code, which faults. *)
Definition load_at (i : Z) : rv_insn := set_opcode rv_insn_lw (set_rd 5 (set_rs1 9 (set_imm i zero_insn))).
Lemma native_load_no_wrap :
  run_native [load_at 4; leave_jal] (<[9%nat := 4]> guest_regs) 5 = Some 0 /\
  run_native [load_at 4; leave_jal] (<[9%nat := 0xfffffffc]> guest_regs) 5 = None /\
  run_interp [load_at 4] (<[9%nat := 0xfffffffc]> guest_regs) 5 = Some 0.
Proof. repeat split; vm_compute; reflexivity. Qed.
(** A misaligned load: the interpreter traps, the generated code reads. *)
Lemma native_load_misaligned :
  run_native [load_at 1; leave_jal] (<[9%nat := 4]> guest_regs) 5 = Some 0 /\
  run_interp [load_at 1] (<[9%nat := 4]> guest_regs) 5 = None.
Proof. split; vm_compute; reflexivity. Qed.

(** The emulator state at [0x1000], its cycle counter at [0x1100], 16 bytes of RAM at
    [0x10000000] and the stack below [0x3000]. *)
Definition t2c_host_env : t2c_env := mk_t2c_env 0x10000000 0x100 0x200 0x208 0x210 0x218.
Definition t2c_host_mem (regs : list Z) : gmap Z Z :=
  let m := list_to_map (zip (seqZ 0x1004 132) (mjoin (le 4 <$> regs) ++ replicate 4 0)) : gmap Z Z in
  foldr (fun a m => <[a := 0]> m) m (seqZ 0x1100 8 ++ seqZ 0x10000000 16 ++ seqZ 0x2ff8 8).
Definition one_block (irs : list rv_insn) : jit_block := mk_jit_block irs 0x1000 0x100c false true None 0 false.
(** The second block cannot be translated. *)
Definition stuck_block : jit_block := mk_jit_block [] 0x1108 0x1108 false false None 0 false.
Definition t2c_host_vm (irs : list rv_insn) : jit_vm :=
  mk_jit_vm {[ 1 := one_block irs; 2 := stuck_block ]} {[ 0x1000 := 1; 0x1108 := 2 ]}.
(** Build the function of a block, call it with these guest registers, and read a register and the
    cycle counter. *)
Definition run_t2c (irs : list rv_insn) (regs : list Z) (r : Z) : option (Z * Z) :=
  f ← t2c_build 2 t2c_host_env (t2c_host_vm irs) (one_block irs);
  o ← exec_fun 0x1000 (fun _ _ _ => None) 10 f 0 (mk_llstate ∅ (t2c_host_mem regs) 0x3000);
  st ← o;
  x ← hload 4 (ll_mem st) (0x1004 + 4 * r);
  c ← hload 8 (ll_mem st) 0x1100;
  Some (x, c).
(** The register and the cycle counter in the interpreter, after the instructions. *)
Definition run_fused (irs : list rv_insn) (regs : list Z) (r : Z) : option (Z * Z) :=
  match foldl (fun o ir => '(s, c) ← o;
      match @dispatch_table quiet_io zero_softfloat true s ir c (pc ir) with
      | Go_next s c _ | Go_ir _ s c _ | Go_indirect s c _ => Some (s, c)
      | Interp.Ret true s => Some (s, csr_cycle s) | _ => None end)
    (Some (set_X regs (reset_state ∅ 16), 0)) irs with
  | Some (s, c) => Some (reg s r, c)
  | None => None
  end.

(** The two agree on a division that has a result. *)
Lemma t2c_div_agrees :
  run_t2c [three_reg rv_insn_div 5 6 7; leave_jal] guest_regs 5 = Some (0xfffffffd, 2) /\
  run_fused [three_reg rv_insn_div 5 6 7; leave_jal] guest_regs 5 = Some (0xfffffffd, 2).
Proof. split; vm_compute; reflexivity. Qed.
(** Division by zero: the operation of LLVM is undefined, the interpreter has [-1]. *)
Lemma t2c_div_by_zero :
  run_t2c [three_reg rv_insn_div 5 6 8; leave_jal] guest_regs 5 = None /\
  run_fused [three_reg rv_insn_div 5 6 8; leave_jal] guest_regs 5 = Some (0xffffffff, 2).
Proof. split; vm_compute; reflexivity. Qed.

Definition lui_lw : rv_insn :=
  set_opcode rv_insn_fuse9 (set_rd 5 (set_rs2 6 (set_imm 0 (set_imm2 4 zero_insn)))).
Definition fused_regs : list Z := <[5%nat := 77]> guest_regs.
(** [lui x5, 0; lw x6, 4(x5)] as one instruction: the function does not write [x5]. *)
Lemma t2c_fuse9_keeps_rd :
  run_t2c [lui_lw; leave_jal] fused_regs 5 = Some (77, 2) /\
  run_fused [lui_lw; leave_jal] fused_regs 5 = Some (0, 3).
Proof. split; vm_compute; reflexivity. Qed.

(** A compressed jump whose link designates a block that cannot be translated: the basic block has
    no terminator. *)
Definition cj_stuck : rv_insn :=
  set_branch_taken (Some 2) (set_pc 0x1008 (set_opcode rv_insn_cj (set_imm 0x100 zero_insn))).
Definition jal_stuck : rv_insn :=
  set_branch_taken (Some 2) (set_pc 0x1008 (set_opcode rv_insn_jal (set_imm 0x100 zero_insn))).
Lemma t2c_cj_untranslatable :
  run_t2c [three_reg rv_insn_add 5 6 7; jal_stuck] guest_regs 5 = Some (0xfffffffc, 2) /\
  run_t2c [three_reg rv_insn_add 5 6 7; cj_stuck] guest_regs 5 = None.
Proof. split; vm_compute; reflexivity. Qed.
